(* ===== verification/_CoqProject ===== *)
-Q . S2P
Prelude.v
Wire.v
DomainName.v
DnsMessage.v
DnsParser.v
DnsWriter.v
DnsQuery.v
DnsRoundtrip.v
DnsCache.v
CachePolicy.v
CuckooFilter.v
RadixTree.v
DomainBlocklist.v
UpstreamChannel.v
UpstreamClaims.v
TimerQueue.v
TimerClaims.v
Scheduler.v
SchedulerLists.v
SchedulerTasks.v
SchedulerInvariant.v
SchedulerClaims.v
WorkerLoop.v
WorkerClaims.v
FilterPublication.v
PublicationClaims.v
FilterUpdateController.v
UpdateInvariant.v
UpdateClaims.v
Concurrency.v
WorkerSupervisor.v
SupervisorInvariant.v
SupervisorThread.v
SupervisorMonitor.v
SupervisorRun.v
SupervisorClaims.v
ChannelEffects.v
WorkerRuntime.v
RuntimeInvariant.v
RuntimeQuery.v
RuntimeTasks.v
RuntimeSteps.v
RuntimeLoop.v
RuntimeShutdown.v
RuntimeClaims.v
WorkerSetup.v
DnsService.v
SupervisorFrame.v
UpdateFrame.v
ServiceInvariant.v
ServiceSteps.v
ServiceCallers.v
ServiceOwner.v
ServiceTeardown.v
ServiceRelease.v
ServiceEnd.v
ServiceStart.v
ServiceLate.v
ServiceClaims.v
