(* ===== verification/Prelude.v ===== *)
(** * DNS_PRO: a verified model of the filtering DNS forwarder

    DNS_PRO answers classic UDP DNS queries for A and AAAA.  Each worker thread owns a
    socket, a shard of the positive cache, an upstream channel and a reference to the
    current filter snapshot.  A datagram is parsed and checked, refused when its name is
    blocked, answered from the cache when it can be, and otherwise forwarded under a fresh
    transaction ID; the response is passed on and, when it is a plain address set, cached.
    Next to the workers a writer thread compiles new rule sets and publishes them, a
    reclaimer thread destroys replaced snapshots, and a supervisor starts and joins the
    workers.

    ** Files and what they model (sources under src/)

    - [Prelude]: the outcome monad ([Val]: a value; [Err]: an error value or exception;
      [Undef]: undefined behaviour of C++, or an exhausted recursion bound), bytes, 64-bit
      arithmetic, counters, tactics.
    - [Wire] (protocol/Wire.h): big-endian reader and writer.  [FieldCodec] is the
      interface between the field codecs and the proofs about messages.
    - [DomainName] (protocol/DomainName): names as lists of labels with wire size and
      canonical key.
    - [DnsMessage], [DnsParser], [DnsWriter], [DnsQuery] (protocol/): message types, the
      parser with name decompression, the writers, the checks on queries and upstream
      responses.  [DnsRoundtrip]: what is written parses back.
    - [DnsCache] (DNS_Cache): cache shards with CLOCK replacement, and the abstract
      cache they refine, a finite map with expiry times.  [CachePolicy] (CachePolicy): which
      responses are admitted.
    - [CuckooFilter] (CuckooFilter): the prefilter, Module [Cuckoo]; the class
      [Prefilter] states what it promises to the blocklist.  [RadixTree] (RadixTree): the
      trie of reversed labels, Module [Radix].  [DomainBlocklist] (DomainBlocklist,
      FilterContext): compiling and matching, proved against [Prefilter].
    - [UpstreamChannel] (upstream/UpstreamChannel): Module [Upstream], the ID pool with its
      quarantine, queries in flight, datagrams, failure and shutdown; timers and scheduler
      are the class [Runtime].  [UpstreamClaims]: its properties.
    - [WorkerLoop] (WorkerLoop): Module [Worker], the data path of a worker, with the
      coroutine [process_datagram] cut at its [co_await].  [WorkerClaims]: its properties.
    - [FilterPublication] (FilterPublication): Module [Publication], the hand-over of
      snapshots between writer, workers, supervisor and reclaimer as a state machine whose
      steps are critical sections and single atomic loads.  [PublicationClaims]: its
      invariants and properties.
    - [FilterUpdateController] (FilterUpdateController): Module [Update], the queue of rule
      replacements, the writer thread, sealing, and the successor that completes what the
      writer left committed, as a state machine over [Publication.World] with one program
      counter per call in progress.  [UpdateInvariant]: its invariants; [UpdateClaims]: its
      properties.
    - [TimerQueue] (runtime/TimerQueue): Module [Timers], registrations in a store, the
      indexed heap over them, expiry, cancellation and destruction; Module [HeapOrder], binary
      heaps.  [TimerClaims]: its properties.
    - [Scheduler] (runtime/Scheduler, runtime/Task.h): Module [Sched], coroutine frames in a
      store with the intrusive ready queue and root list threaded through their promises,
      spawning, awaiting, dispatch, cancellation and shutdown; what a body does is a
      parameter, one request at a time.  [SchedulerLists]: the intrusive lists as lists;
      [SchedulerTasks]: who owns which frame and who is in the queue; [SchedulerInvariant]:
      that every call keeps this; [SchedulerClaims]: its properties.
    - [Concurrency]: programs of one thread among others, all their interleavings, and a
      weakest precondition under the interference of the others, with its adequacy.
    - [WorkerSupervisor] (WorkerSupervisor, WorkerRecovery.h, WorkerLoop::run): Module
      [Supervisor], thread C as a program of [Concurrency]: start-up, activation, monitoring,
      recovery with back-off, joining, and the emergency join of its successor; the worker
      threads, the callers of the public methods and the publishers are the steps of the
      others.  It calls [Publication.act] on the publication state.  [SupervisorInvariant]:
      the invariant and what the others leave alone; [SupervisorThread],
      [SupervisorMonitor], [SupervisorRun]: triples of the programs, from the creation of a
      worker to [run]; [SupervisorClaims]: its properties.
    - [WorkerRuntime] (WorkerLoop, UpstreamChannel, runtime/): Module [Reactor], the event
      loop of one worker over [Worker], [Upstream], [Timers] and [Sched]: the bodies of its
      coroutines, one turn of the loop, [run] and its shutdown; what the kernel delivers in
      a turn is its argument.  [ChannelEffects]: which timers and tasks an operation of the
      channel touches; [RuntimeInvariant]: the invariant that ties the parts together;
      [RuntimeQuery], [RuntimeTasks], [RuntimeSteps], [RuntimeLoop], [RuntimeShutdown]: each
      part of a turn keeps it, from a query to the shutdown; [RuntimeClaims]: its properties.
    - [WorkerSetup] (WorkerLoop, runtime/UniqueFd.h): Module [Setup], [initialize] call by
      call, what its local descriptors close when it fails, the wake-up descriptors, and the
      property that relates it to its plan.
    - [DnsService] (DNS.h, DNS.cpp): Module [Service], the service over its parts: [start] and
      the teardown as programs of [Concurrency], the threads A (coordinator, the writer of
      [Update]), B (reclaimer, of [Publication]) and C (supervisor, the program of
      [Supervisor]), the workers and the callers of the other methods as steps.
      [SupervisorFrame], [UpdateFrame]: what the parts do, seen from the service;
      [ServiceInvariant]: the invariant of the service and what the others leave alone;
      [ServiceSteps], [ServiceCallers]: every step of threads, workers and callers keeps
      them; [ServiceOwner], [ServiceTeardown], [ServiceRelease], [ServiceEnd], [ServiceStart]:
      triples of the programs, from the rules to [finish_teardown] and [start];
      [ServiceLate]: that a stop is final; [ServiceClaims]: its properties.

    ** What the theorems show

    - Names: text round trips, case-insensitive equality, the subdomain test as a suffix
      of the canonical key, first-error reporting.
    - Messages: the parser is total and stays inside the packet; what it accepts is well
      formed; a decoded name is the one the packet spells; queries and address responses
      round trip.
    - Cache: every trace of operations refines the abstract cache; a stored set is
      served until its TTL ends; eviction takes one expired or unreferenced entry of a full
      shard; admission is exact.
    - Filter: no false negatives through any chain of kicks; a failed insert changes
      nothing; the trie and the whole blocklist decide the subdomain relation; every way
      [build] ends.
    - Upstream: any run of operations keeps the ID pool, the slots and the awaiters
      consistent; only a matching response completes a query, once, with the client's ID; late
      duplicates find nobody; [fail_all] leaves nothing in flight.
    - Worker: the decision on a datagram, the order filter, cache, upstream, exactly one
      reply, the effect of an upstream result, the receive budget.
    - Publication: in every interleaving, a complete cohort means that no worker owns the
      replaced snapshot; the reclaimer is the last owner of what it destroys; convergence
      means that nobody is behind; no wake-up is lost; the reclaimer makes progress; [commit]
      is all or nothing; workers are at most one generation behind; teardown succeeds.
    - Updates: every request gets exactly one answer; a success means published and reached
      by every worker, an error means never published; the queue keeps its limits; after the
      terminal request the writer ends.
    - Timers: the heap behaves like a list in deadline order, oldest first among equals;
      positions, registrations and the queue stay consistent whatever thread does what; the
      waiting time is exact and free of overflow.
    - Scheduler: for every behaviour of the coroutine bodies no dangling frame is touched;
      every frame has one owner; the ready queue is first-in first-out; no task is lost; a
      result is there when it is delivered; shutdown leaves nothing behind.
    - Supervisor: in every interleaving, calls keep the protocol of the publication state;
      what a worker publishes is of its current instance; nothing is served before the data
      plane is released; restarts are bounded; however [run] ends both results are published
      and true; a worker asked to stop ends; after the emergency join nothing of a worker
      is left, and the publication state can be destroyed.
    - Worker event loop: for every kernel and every schedule of its gates, what is sent to a
      client answers a datagram it sent; a run ends because it was asked to, or by an error
      from outside, and afterwards no task, query or timer is left and the listener is closed;
      the loop sleeps no longer than the next deadline and not at all while tasks are ready;
      the observer sees the life of the worker in order.  Its set-up makes every call of its
      plan, or reports the first one that failed and closes what it has opened.
    - Service: in every interleaving of callers, threads and workers no part is used that is
      not there, or destroyed under a thread; an active service has its data plane released
      and no cause to stop; a stop is final and the first cause is the one reported; what
      [start], [join] and [wait] return is what they leave; after the destructor no thread is
      left.  [wait] on a service about to be started may end it once it is active.

    ** Bounds

    Loops without a structural measure take fuel, and the theorems prove it sufficient:
    [decode_fuel] counts one step per label or pointer, bounded by the name length and the
    pointer limit; [clock_fuel] is capacity + 1, one turn of the CLOCK hand clears every
    second chance; [build_fuel] is 64, the bucket count doubles at most that often; the kick
    loop takes [maximum_kicks]; the string scan of RDATA its length; a sift of the timer heap
    takes the length of the heap + 1 (going up: the index + 1), and its expiry, cancellation
    and destruction loops the length of the heap + 1, since every turn removes a timer;
    emptying the ready queue and the list of roots takes the number of frames + 1, destroying
    frames the number of frames.  The event loop is structural on the turns it is given; the
    dispatches of its shutdown take the resume budget + 1, cancelling its timers their number.

    ** Modelled as parameters

    The 64-bit string hash (third-party xxhash), [std::vector::max_size], the shuffle and
    the random draws of the ID pool, [inet_pton], clock readings, results of system calls,
    stop tokens (how many polls until the stop), the timer queue and scheduler behind
    [Runtime], what the callback of a timer does to the rest of the program, what a coroutine
    body does next (on its own in [Sched]; in [Reactor] the bodies are those of the worker), the
    result of the snapshot builder of the update controller, and, for every turn of the event
    loop, what the kernel delivers and when a gate of the observer opens.

    ** Not modelled

    [std::bad_alloc] and other allocation failures; weak memory (the atomics of
    [FilterPublication] are sequentially consistent here); log output; the hash functions of
    unordered containers, which are finite maps here; std::push_heap and relatives on the
    retired IDs, a sorted list here; stop callbacks that a coroutine body registers on its own
    token.  Condition variables: a
    thread that waits looks again, so that a wait ends when its condition holds but nothing
    is shown of notifications, the one of the reclaimer apart.  The barriers of lifecycle
    tests in the recovery, and the statistics of a worker.  The destructors of channel
    and supervisor where they would have to wait. *)
From stdpp Require Export base tactics list gmap numbers option.
From Stdlib Require Export ZArith Lia.
From Stdlib Require Import Strings.Byte NArith.

Open Scope Z_scope.

(** ** Outcomes: value, error, or undefined behaviour

    [std::expected<A, E>] is modelled by [Val]/[Err]; [Undef] stands for what
    the C++ standard leaves undefined (an index outside a vector or span, the
    dereference of an empty optional, signed overflow) and for an exhausted
    recursion bound.  Theorems of the form [defined (f x)] are the memory-safety
    and termination statements of the development. *)
Inductive outcome (E A : Type) : Type :=
  | Val (a : A)
  | Err (e : E)
  | Undef.
Arguments Val {E A} _.
Arguments Err {E A} _.
Arguments Undef {E A}.

#[export] Instance outcome_ret E : MRet (outcome E) := λ A a, Val a.
#[export] Instance outcome_bind E : MBind (outcome E) := λ A B f m,
  match m with
  | Val a => f a
  | Err e => Err e
  | Undef => Undef
  end.

Definition defined {E A} (o : outcome E A) : Prop := o ≠ Undef.

Definition from_option_ub {E A} (o : option A) : outcome E A :=
  match o with Some a => Val a | None => Undef end.

(** Whether an [std::expected] holds a value. *)
Definition has_value {E A} (o : outcome E A) : bool :=
  match o with Val _ => true | _ => false end.

Lemma bind_val {E A B} (m : outcome E A) (f : A → outcome E B) b :
  m ≫= f = Val b ↔ ∃ a, m = Val a ∧ f a = Val b.
Proof.
  split; [| by intros (a & -> & H)].
  destruct m; simpl; intros H; try discriminate H; eauto.
Qed.

Lemma bind_defined {E A B} (m : outcome E A) (f : A → outcome E B) :
  defined m → (∀ a, m = Val a → defined (f a)) → defined (m ≫= f).
Proof. destruct m; simpl; intros Hm Hf; [by apply Hf | discriminate | done]. Qed.

Lemma val_defined {E A} (a : A) : defined (Val a : outcome E A).
Proof. discriminate. Qed.

Lemma err_defined {E A} (e : E) : defined (Err e : outcome E A).
Proof. discriminate. Qed.

Create HintDb outcome.
#[export] Hint Resolve val_defined err_defined : outcome.

(** Destruct every [match]/[if] scrutinee of the goal, innermost first. *)
Ltac case_goal :=
  match goal with
  | |- context [match ?x with _ => _ end] =>
      lazymatch x with
      | context [match _ with _ => _ end] => fail
      | _ => destruct x eqn:?
      end
  end.

Ltac case_hyp H :=
  match type of H with
  | context [match ?x with _ => _ end] =>
      lazymatch x with
      | context [match _ with _ => _ end] => fail
      | _ => destruct x eqn:?
      end
  end.

(** Unfold a successful monadic computation into its steps. *)
Ltac inv_bind :=
  repeat match goal with
  | H : _ ≫= _ = Val _ |- _ => apply bind_val in H as (? & ? & ?)
  | H : Val _ = Val _ |- _ => injection H as H; try subst
  | H : mret _ = Val _ |- _ => injection H as H; try subst
  | H : Err _ = Val _ |- _ => discriminate H
  | H : Undef = Val _ |- _ => discriminate H
  end.

(** Turn boolean comparison hypotheses into propositions. *)
Ltac bool_hyps :=
  repeat match goal with
  | H : (_ <? _)%nat = true |- _ => apply Nat.ltb_lt in H
  | H : (_ <? _)%nat = false |- _ => apply Nat.ltb_ge in H
  | H : (_ <=? _)%nat = true |- _ => apply Nat.leb_le in H
  | H : (_ <=? _)%nat = false |- _ => apply Nat.leb_gt in H
  | H : (_ =? _)%nat = true |- _ => apply Nat.eqb_eq in H
  | H : (_ =? _)%nat = false |- _ => apply Nat.eqb_neq in H
  | H : (_ <? _) = true |- _ => apply Z.ltb_lt in H
  | H : (_ <? _) = false |- _ => apply Z.ltb_ge in H
  | H : (_ <=? _) = true |- _ => apply Z.leb_le in H
  | H : (_ <=? _) = false |- _ => apply Z.leb_gt in H
  | H : (_ =? _) = true |- _ => apply Z.eqb_eq in H
  | H : (_ =? _) = false |- _ => apply Z.eqb_neq in H
  | H : (_ && _)%bool = true |- _ => apply andb_true_iff in H as [??]
  | H : (_ || _)%bool = false |- _ => apply orb_false_iff in H as [??]
  | H : negb _ = true |- _ => apply negb_true_iff in H
  | H : negb _ = false |- _ => apply negb_false_iff in H
  end.

(** [lia] with division and remainder by constants. *)
Ltac dlia := Z.div_mod_to_equations; lia.

(** ** Bytes *)
#[export] Instance byte_eq_dec : EqDecision byte := Byte.byte_eq_dec.

(** [std::to_integer<uint8_t>] and [static_cast<std::byte>]. *)
Definition b2z (b : byte) : Z := Z.of_N (Byte.to_N b).
Definition z2b (z : Z) : byte := default x00 (Byte.of_N (Z.to_N (z mod 256))).

Lemma b2z_range b : 0 ≤ b2z b < 256.
Proof. unfold b2z. pose proof (Byte.to_N_bounded b). lia. Qed.

Lemma b2z_inj a b : b2z a = b2z b → a = b.
Proof.
  unfold b2z. intros H%N2Z.inj.
  pose proof (Byte.of_to_N a) as Ha. pose proof (Byte.of_to_N b) as Hb. congruence.
Qed.

Lemma b2z_z2b z : b2z (z2b z) = z mod 256.
Proof.
  unfold b2z, z2b. pose proof (Z.mod_pos_bound z 256 eq_refl) as Hz.
  destruct (Byte.of_N (Z.to_N (z mod 256))) eqn:E; simpl.
  - apply Byte.to_of_N in E. rewrite E. lia.
  - apply Byte.of_N_None_iff in E. lia.
Qed.

Lemma z2b_b2z b : z2b (b2z b) = b.
Proof. apply b2z_inj. rewrite b2z_z2b. apply Z.mod_small, b2z_range. Qed.

#[export] Instance byte_countable : Countable byte.
Proof.
  refine (inj_countable' b2z z2b _). apply z2b_b2z.
Defined.

(** ** Bit fields

    [lor] of fields that do not overlap is a sum. *)
Lemma lor_disjoint_add a b n :
  0 ≤ n → a mod 2 ^ n = 0 → 0 ≤ b < 2 ^ n → Z.lor a b = a + b.
Proof.
  intros Hn Ha Hb.
  assert (Z.land a b = 0) as Hl.
  { apply Z.bits_inj'. intros i Hi. rewrite Z.land_spec, Z.bits_0.
    destruct (decide (i < n)) as [Hlt | Hge].
    - rewrite <- (Z.mod_pow2_bits_low a n i) by lia. by rewrite Ha, Z.bits_0.
    - destruct (decide (b = 0)) as [-> | Hb0]; [by rewrite Z.bits_0, andb_false_r |].
      rewrite (Z.bits_above_log2 b i), andb_false_r; [done | lia |].
      apply Z.log2_lt_pow2; [lia |]. apply Z.lt_le_trans with (2 ^ n); [lia |].
      apply Z.pow_le_mono_r; lia. }
  rewrite <- Z.lxor_lor by done. symmetry. by apply Z.add_nocarry_lxor.
Qed.

Lemma land_ff z : Z.land z 255 = z mod 256.
Proof. change 255 with (Z.ones 8). by rewrite Z.land_ones. Qed.

(** Unsigned 64-bit arithmetic ([uint64_t], and [size_t] on the supported
    targets) wraps around. *)
Definition wrap64 (z : Z) : Z := z mod 2 ^ 64.

Lemma wrap64_range z : 0 ≤ wrap64 z < 2 ^ 64.
Proof. apply Z.mod_pos_bound. lia. Qed.

(** Bit operations stay below a power of two. *)
Lemma lxor_below a b n : 0 ≤ n → 0 ≤ a < 2 ^ n → 0 ≤ b < 2 ^ n → 0 ≤ Z.lxor a b < 2 ^ n.
Proof.
  intros Hn Ha Hb. assert (0 ≤ Z.lxor a b) as H0 by (apply Z.lxor_nonneg; lia).
  split; [done |]. destruct (decide (Z.lxor a b = 0)) as [-> | Hne]; [lia |].
  apply Z.log2_lt_pow2; [lia |].
  assert (0 < a ∨ 0 < b) as Hpos.
  { destruct (decide (a = 0)) as [-> |]; [| lia]. right. rewrite Z.lxor_0_l in Hne. lia. }
  eapply Z.le_lt_trans; [apply Z.log2_lxor; lia |]. apply Z.max_lub_lt.
  - destruct (decide (a = 0)) as [-> |]; [| apply Z.log2_lt_pow2; lia].
    simpl. destruct (decide (n = 0)) as [-> |]; [| lia]. change (2 ^ 0) with 1 in *. lia.
  - destruct (decide (b = 0)) as [-> |]; [| apply Z.log2_lt_pow2; lia].
    simpl. destruct (decide (n = 0)) as [-> |]; [| lia]. change (2 ^ 0) with 1 in *. lia.
Qed.

Lemma land_mask a n : 0 ≤ n → Z.land a (2 ^ n - 1) = a mod 2 ^ n.
Proof. intros Hn. rewrite <- Z.land_ones by done. by rewrite Z.ones_equiv, Z.sub_1_r. Qed.

(** ** Lists *)
Lemma lookup_app_plus {A} (l k : list A) i : (l ++ k) !! (length l + i)%nat = k !! i.
Proof. rewrite lookup_app_r by lia. f_equal. lia. Qed.

Lemma lookup_app_plus_eq {A} (l k : list A) i n :
  n = (length l + i)%nat → (l ++ k) !! n = k !! i.
Proof. intros ->. apply lookup_app_plus. Qed.

(** ** Counters

    A struct of counters is a function from the names of its members. *)
Definition bump {C} `{EqDecision C} (c : C) (stats : C → Z) : C → Z :=
  λ c', if decide (c' = c) then stats c' + 1 else stats c'.

Lemma bump_same {C} `{EqDecision C} (c : C) stats : bump c stats c = stats c + 1.
Proof. unfold bump. by rewrite decide_True. Qed.

Lemma bump_other {C} `{EqDecision C} (c c' : C) stats : c' ≠ c → bump c stats c' = stats c'.
Proof. intros H. unfold bump. by rewrite decide_False. Qed.
