(* ===== verification/Wire.v ===== *)
(** * Wire: big-endian readers and writers ([protocol/Wire.h])

    [WireReader] is a cursor over a byte span, [WireWriter] a byte vector with a
    size budget.  A read returns the flag of the C++ member ([None] for
    [false]) together with the cursor; a write returns [None] for [false] (every
    caller drops the writer then).  The class [FieldCodec] states what the three
    integer widths promise to the parser and to the message writers. *)
From S2P Require Import Prelude.
From Stdlib Require Import Strings.Byte.

Module WireReader.

Record WireReader := mk { bytes_ : list byte; offset_ : nat }.
Abbreviation t := WireReader.

Definition remaining (r : t) : nat :=
  if (offset_ r <=? length (bytes_ r))%nat then (length (bytes_ r) - offset_ r)%nat else 0%nat.

(** [std::to_integer<uint8_t>(bytes[i])]; outside the span it is undefined. *)
Definition byte_at {E} (bytes : list byte) (i : nat) : outcome E Z :=
  b ← from_option_ub (bytes !! i); Val (b2z b).

Definition read_u8 {E} (r : t) : outcome E (option Z * t) :=
  if (remaining r <? 1)%nat then Val (None, r)
  else value ← byte_at (bytes_ r) (offset_ r);
       Val (Some value, mk (bytes_ r) (offset_ r + 1)).

Definition read_u16 {E} (r : t) : outcome E (option Z * t) :=
  if (remaining r <? 2)%nat then Val (None, r)
  else b0 ← byte_at (bytes_ r) (offset_ r);
       b1 ← byte_at (bytes_ r) (offset_ r + 1);
       Val (Some (Z.lor (Z.shiftl b0 8) b1), mk (bytes_ r) (offset_ r + 2)).

Definition read_u32 {E} (r : t) : outcome E (option Z * t) :=
  if (remaining r <? 4)%nat then Val (None, r)
  else b0 ← byte_at (bytes_ r) (offset_ r);
       b1 ← byte_at (bytes_ r) (offset_ r + 1);
       b2 ← byte_at (bytes_ r) (offset_ r + 2);
       b3 ← byte_at (bytes_ r) (offset_ r + 3);
       Val (Some (Z.lor (Z.lor (Z.lor (Z.shiftl b0 24) (Z.shiftl b1 16)) (Z.shiftl b2 8)) b3),
            mk (bytes_ r) (offset_ r + 4)).

Definition read_bytes (count : nat) (r : t) : option (list byte) * t :=
  if (remaining r <? count)%nat then (None, r)
  else (Some (take count (drop (offset_ r) (bytes_ r))), mk (bytes_ r) (offset_ r + count)).

Definition skip (count : nat) (r : t) : bool * t :=
  if (remaining r <? count)%nat then (false, r) else (true, mk (bytes_ r) (offset_ r + count)).

End WireReader.

Module WireWriter.

Record WireWriter := mk { maximum_size_ : nat; bytes_ : list byte }.
Abbreviation t := WireWriter.

Definition make_writer (maximum_size : nat) : t := mk maximum_size [].

Definition can_append (w : t) (count : nat) : bool :=
  (length (bytes_ w) <=? maximum_size_ w)%nat &&
  (count <=? maximum_size_ w - length (bytes_ w))%nat.

Definition append (w : t) (bs : list byte) : t := mk (maximum_size_ w) (bytes_ w ++ bs).

Definition write_u8 (value : Z) (w : t) : option t :=
  if can_append w 1 then Some (append w [z2b value]) else None.

Definition write_u16 (value : Z) (w : t) : option t :=
  if can_append w 2
  then Some (append w [z2b (Z.land (Z.shiftr value 8) 255); z2b (Z.land value 255)])
  else None.

Definition write_u32 (value : Z) (w : t) : option t :=
  if can_append w 4
  then Some (append w [z2b (Z.land (Z.shiftr value 24) 255); z2b (Z.land (Z.shiftr value 16) 255);
                       z2b (Z.land (Z.shiftr value 8) 255); z2b (Z.land value 255)])
  else None.

Definition write_bytes (bs : list byte) (w : t) : option t :=
  if can_append w (length bs) then Some (append w bs) else None.

Definition take_written (w : t) : list byte := bytes_ w.

End WireWriter.

(** ** Reader facts *)
Module Facts.
Import WireReader.

Lemma byte_at_lt {E} bs i :
  (i < length bs)%nat → ∃ b, bs !! i = Some b ∧ byte_at (E := E) bs i = Val (b2z b).
Proof.
  intros [b Hb]%lookup_lt_is_Some_2. exists b. split; [done |]. unfold byte_at. by rewrite Hb.
Qed.

Lemma byte_at_lookup {E} bs i b : bs !! i = Some b → byte_at (E := E) bs i = Val (b2z b).
Proof. unfold byte_at. by intros ->. Qed.

Lemma remaining_lookup r n :
  (n < remaining r)%nat → (offset_ r + n < length (bytes_ r))%nat.
Proof. unfold remaining. case_match eqn:E; intros; bool_hyps; lia. Qed.

(** Reads never leave the span, whatever the cursor, and only move forward
    within it. *)
Definition reads_within (n : nat) (f : ∀ E, t → outcome E (option Z * t)) : Prop :=
  ∀ E r, f E r = Val (None, r) ∧ (remaining r < n)%nat ∨
  ∃ v, f E r = Val (Some v, mk (bytes_ r) (offset_ r + n)) ∧ 0 ≤ v < 256 ^ Z.of_nat n ∧
       (offset_ r + n ≤ length (bytes_ r))%nat.

Ltac read_bytes_of r :=
  repeat match goal with
  | |- context [byte_at (E := ?E) (bytes_ r) ?i] =>
      let b := fresh "b" in let Hb := fresh "Hb" in let Hl := fresh "Hl" in
      destruct (byte_at_lt (E := E) (bytes_ r) i) as (b & Hl & Hb); [lia |];
      rewrite Hb; clear Hb; pose proof (b2z_range b)
  end.

Lemma be16_add b0 b1 :
  0 ≤ b1 < 256 → Z.lor (Z.shiftl b0 8) b1 = b0 * 256 + b1.
Proof.
  intros. rewrite Z.shiftl_mul_pow2 by lia. apply (lor_disjoint_add _ _ 8); [lia | | lia].
  by apply Z.mod_mul.
Qed.

Lemma be32_add b0 b1 b2 b3 :
  0 ≤ b1 < 256 → 0 ≤ b2 < 256 → 0 ≤ b3 < 256 →
  Z.lor (Z.lor (Z.lor (Z.shiftl b0 24) (Z.shiftl b1 16)) (Z.shiftl b2 8)) b3 =
  b0 * 16777216 + b1 * 65536 + b2 * 256 + b3.
Proof.
  intros. rewrite !Z.shiftl_mul_pow2 by lia.
  rewrite (lor_disjoint_add (b0 * 2 ^ 24) _ 24); [| lia | by apply Z.mod_mul | lia].
  rewrite (lor_disjoint_add (b0 * 2 ^ 24 + _) (b2 * 2 ^ 8) 16); [| lia | | lia].
  2: { replace (b0 * 2 ^ 24 + b1 * 2 ^ 16) with ((b0 * 256 + b1) * 2 ^ 16) by lia. by apply Z.mod_mul. }
  rewrite (lor_disjoint_add _ b3 8); [| lia | | lia]; [lia |].
  replace (b0 * 2 ^ 24 + b1 * 2 ^ 16 + b2 * 2 ^ 8) with ((b0 * 65536 + b1 * 256 + b2) * 2 ^ 8) by lia.
  by apply Z.mod_mul.
Qed.

Lemma read_u8_within : reads_within 1 (@read_u8).
Proof.
  intros E r. unfold read_u8. destruct (Nat.ltb_spec (remaining r) 1) as [|H]; [by left | right].
  pose proof (remaining_lookup r 0 ltac:(lia)). read_bytes_of r. simpl. eexists; split; [done | lia].
Qed.

Lemma read_u16_within : reads_within 2 (@read_u16).
Proof.
  intros E r. unfold read_u16. destruct (Nat.ltb_spec (remaining r) 2) as [|H]; [by left | right].
  pose proof (remaining_lookup r 1 ltac:(lia)). read_bytes_of r. simpl.
  eexists; split; [done |]. rewrite be16_add by lia. lia.
Qed.

Lemma read_u32_within : reads_within 4 (@read_u32).
Proof.
  intros E r. unfold read_u32. destruct (Nat.ltb_spec (remaining r) 4) as [|H]; [by left | right].
  pose proof (remaining_lookup r 3 ltac:(lia)). read_bytes_of r. simpl.
  eexists; split; [done |]. rewrite be32_add by lia. lia.
Qed.

Lemma read_bytes_cases n r :
  read_bytes n r = (None, r) ∧ (remaining r < n)%nat ∨
  read_bytes n r = (Some (take n (drop (offset_ r) (bytes_ r))), mk (bytes_ r) (offset_ r + n)) ∧
  (n = 0 ∨ offset_ r + n ≤ length (bytes_ r))%nat.
Proof.
  unfold read_bytes. destruct (Nat.ltb_spec (remaining r) n) as [|H]; [by left | right; split; [done |]].
  destruct n; [by left | right]. pose proof (remaining_lookup r n ltac:(lia)). lia.
Qed.

End Facts.

(** ** Field codecs *)
Class FieldCodec (width : nat) (rd : ∀ E, WireReader.t → outcome E (option Z * WireReader.t))
    (wr : Z → WireWriter.t → option WireWriter.t) := {
  enc : Z → list byte;
  enc_length : ∀ v, length (enc v) = width;
  wr_spec : ∀ v w,
    wr v w = if WireWriter.can_append w width then Some (WireWriter.append w (enc v)) else None;
  rd_spec : ∀ E pre v rest, 0 ≤ v < 256 ^ Z.of_nat width →
    rd E (WireReader.mk (pre ++ enc v ++ rest) (length pre)) =
    Val (Some v, WireReader.mk (pre ++ enc v ++ rest) (length pre + width));
}.
Arguments enc width {rd wr} {_} v.

Section Codecs.
Import WireReader Facts.

Lemma remaining_mid pre bs rest :
  remaining (mk (pre ++ bs ++ rest) (length pre)) = (length bs + length rest)%nat.
Proof. unfold remaining. simpl. rewrite !length_app. case_match eqn:E; bool_hyps; lia. Qed.

Lemma remaining_mid_ltb pre bs rest n :
  length bs = n → (remaining (mk (pre ++ bs ++ rest) (length pre)) <? n)%nat = false.
Proof. intros <-. rewrite remaining_mid. apply Nat.ltb_ge. lia. Qed.

Lemma byte_at_mid {E} pre bs rest i b :
  bs !! i = Some b → byte_at (E := E) (pre ++ bs ++ rest) (length pre + i) = Val (b2z b).
Proof.
  intros H. apply byte_at_lookup. rewrite lookup_app_plus.
  by apply lookup_app_l_Some.
Qed.

Lemma byte_at_mid0 {E} pre b rest :
  byte_at (E := E) (pre ++ (b :: rest)) (length pre) = Val (b2z b).
Proof. apply byte_at_lookup. by rewrite lookup_app_r, Nat.sub_diag by lia. Qed.

#[export] Program Instance u8_codec : FieldCodec 1 (@read_u8) WireWriter.write_u8 :=
  {| enc v := [z2b v] |}.
Next Obligation. done. Qed.
Next Obligation. done. Qed.
Next Obligation.
  intros E pre v rest Hv. unfold read_u8. rewrite remaining_mid_ltb by done. simpl.
  rewrite byte_at_mid0. simpl. rewrite b2z_z2b, Z.mod_small by lia. done.
Qed.

#[export] Program Instance u16_codec : FieldCodec 2 (@read_u16) WireWriter.write_u16 :=
  {| enc v := [z2b (Z.land (Z.shiftr v 8) 255); z2b (Z.land v 255)] |}.
Next Obligation. done. Qed.
Next Obligation. done. Qed.
Next Obligation.
  intros E pre v rest Hv. unfold read_u16. rewrite remaining_mid_ltb by done. cbn [bytes_ offset_].
  erewrite (byte_at_mid pre _ rest 1) by done. simpl app. rewrite byte_at_mid0. simpl.
  rewrite be16_add by apply b2z_range. rewrite !b2z_z2b, !land_ff, !Z.mod_mod by lia.
  rewrite Z.shiftr_div_pow2 by lia. do 3 f_equal. change (2 ^ 8) with 256.
  change (256 ^ Z.of_nat 2) with 65536 in Hv. dlia.
Qed.

#[export] Program Instance u32_codec : FieldCodec 4 (@read_u32) WireWriter.write_u32 :=
  {| enc v := [z2b (Z.land (Z.shiftr v 24) 255); z2b (Z.land (Z.shiftr v 16) 255);
               z2b (Z.land (Z.shiftr v 8) 255); z2b (Z.land v 255)] |}.
Next Obligation. done. Qed.
Next Obligation. done. Qed.
Next Obligation.
  intros E pre v rest Hv. unfold read_u32. rewrite remaining_mid_ltb by done. cbn [bytes_ offset_].
  erewrite (byte_at_mid pre _ rest 1), (byte_at_mid pre _ rest 2), (byte_at_mid pre _ rest 3) by done.
  simpl app. rewrite byte_at_mid0. simpl.
  rewrite be32_add by apply b2z_range. rewrite !b2z_z2b, !land_ff, !Z.mod_mod by lia.
  rewrite !Z.shiftr_div_pow2 by lia. do 3 f_equal.
  change (256 ^ Z.of_nat 4) with 4294967296 in Hv.
  change (2 ^ 24) with 16777216. change (2 ^ 16) with 65536. change (2 ^ 8) with 256.
  dlia.
Qed.

End Codecs.

(** ** Writer facts *)
Module WriterFacts.
Import WireWriter.

Definition within (w : t) : Prop := (length (bytes_ w) ≤ maximum_size_ w)%nat.

(** What a successful append does: the budget is kept and exactly [bs] added. *)
Definition appends (bs : list byte) (f : t → option t) : Prop :=
  ∀ w, within w →
    f w = if (length (bytes_ w) + length bs <=? maximum_size_ w)%nat then Some (append w bs) else None.

Lemma can_append_spec w n :
  within w → can_append w n = (length (bytes_ w) + n <=? maximum_size_ w)%nat.
Proof.
  unfold within, can_append. intros H.
  destruct (Nat.leb_spec (length (bytes_ w) + n) (maximum_size_ w)) as [Hc | Hc].
  - apply andb_true_iff. split; apply Nat.leb_le; lia.
  - apply andb_false_iff. right. apply Nat.leb_gt. lia.
Qed.

Lemma field_appends width rd wr `{FieldCodec width rd wr} v : appends (enc width v) (wr v).
Proof. intros w Hw. by rewrite wr_spec, enc_length, can_append_spec. Qed.

Lemma write_bytes_appends bs : appends bs (write_bytes bs).
Proof. intros w Hw. unfold write_bytes. by rewrite can_append_spec. Qed.

Lemma ret_appends : appends [] Some.
Proof.
  intros [m b] Hw. unfold append. simpl. rewrite app_nil_r.
  unfold within in Hw; simpl in *. case_match eqn:E; [done |]. bool_hyps; lia.
Qed.

Lemma bind_appends bs bs' f g :
  appends bs f → appends bs' g → appends (bs ++ bs') (λ w, f w ≫= g).
Proof.
  intros Hf Hg w Hw. rewrite Hf, length_app by done.
  destruct (Nat.leb_spec (length (bytes_ w) + length bs) (maximum_size_ w)) as [H1 | H1]; simpl.
  - rewrite Hg; [| unfold within, append; simpl; rewrite length_app; lia].
    unfold append; simpl. rewrite length_app, <- app_assoc.
    repeat case_match; bool_hyps; try done; lia.
  - case_match eqn:E; bool_hyps; [lia | done].
Qed.

Lemma appends_ext bs f g : (∀ w, f w = g w) → appends bs g → appends bs f.
Proof. intros He Hg w Hw. by rewrite He, Hg. Qed.

End WriterFacts.
