(* ===== verification/DomainName.v ===== *)
(** * Domain names ([protocol/DomainName.h], [protocol/DomainName.cpp])

    A name is its labels, its wire size and its canonical key (length-prefixed
    lower-case labels, closed by a zero byte).  The private constructor makes
    [from_labels] the only producer, which is the invariant [valid]. *)
From S2P Require Import Prelude.
From Stdlib Require Import Strings.Byte.

Definition kMaxLabelSize : nat := 63.
Definition kMaxDomainWireSize : nat := 255.

Module DomainNameErrorCode.
Inductive DomainNameErrorCode := EmptyLabel | InvalidEscape | LabelTooLong | NameTooLong.
End DomainNameErrorCode.

Record DomainNameError := mkDomainNameError {
  code : DomainNameErrorCode.DomainNameErrorCode;
  label_index : nat;
}.

Record DomainName := mkDomainName {
  labels_ : list (list byte);
  wire_size_ : nat;
  canonical_key_ : list byte;
}.

(** The default constructor: the root. *)
Definition root_name : DomainName := mkDomainName [] 1 [x00].

Definition is_root (d : DomainName) : bool := match labels_ d with [] => true | _ => false end.
Definition label_count (d : DomainName) : nat := length (labels_ d).

(** [operator==] compares canonical keys only. *)
Definition name_eqb (a b : DomainName) : bool := bool_decide (canonical_key_ a = canonical_key_ b).

Definition ascii_lower (value : byte) : byte :=
  if (65 <=? b2z value) && (b2z value <=? 90) then z2b (b2z value + 32) else value.

Definition is_ascii_digit (value : byte) : bool := (48 <=? b2z value) && (b2z value <=? 57).

Definition presentation_char (canonical : bool) (value : byte) : list byte :=
  let ch := if canonical then ascii_lower value else value in
  let n := b2z ch in
  if (n =? 46) || (n =? 92) then [x5c; ch]
  else if (33 <=? n) && (n <=? 126) then [ch]
  else [x5c; z2b (48 + n / 100); z2b (48 + (n / 10) mod 10); z2b (48 + n mod 10)].

Definition label_to_presentation (label : list byte) (canonical : bool) : list byte :=
  flat_map (presentation_char canonical) label.

Fixpoint labels_equal_canonical_loop (lhs rhs : list byte) : bool :=
  match lhs, rhs with
  | l :: lhs, r :: rhs =>
      if bool_decide (ascii_lower l = ascii_lower r) then labels_equal_canonical_loop lhs rhs else false
  | _, _ => true
  end.

Definition labels_equal_canonical (lhs rhs : list byte) : bool :=
  if negb (length lhs =? length rhs)%nat then false else labels_equal_canonical_loop lhs rhs.

(** The validation loop of [from_labels]: index and running wire size. *)
Fixpoint check_labels (labels : list (list byte)) (index wire_size : nat) : outcome DomainNameError nat :=
  match labels with
  | [] => Val wire_size
  | label :: rest =>
      if (length label =? 0)%nat then Err (mkDomainNameError DomainNameErrorCode.EmptyLabel index)
      else if (kMaxLabelSize <? length label)%nat then Err (mkDomainNameError DomainNameErrorCode.LabelTooLong index)
      else if (kMaxDomainWireSize - (length label + 1) <? wire_size)%nat
      then Err (mkDomainNameError DomainNameErrorCode.NameTooLong index)
      else check_labels rest (index + 1) (wire_size + (length label + 1))
  end.

Definition canonical_encoding (labels : list (list byte)) : list byte :=
  flat_map (λ label, z2b (Z.of_nat (length label)) :: map ascii_lower label) labels ++ [x00].

Definition from_labels (labels : list (list byte)) : outcome DomainNameError DomainName :=
  wire_size ← check_labels labels 0 1;
  Val (mkDomainName labels wire_size (canonical_encoding labels)).

(** The loop of [from_text] over the remaining characters, with the finished
    labels and the label being built. *)
Fixpoint from_text_loop (text : list byte) (labels : list (list byte)) (label : list byte)
    : outcome DomainNameError DomainName :=
  match text with
  | [] =>
      if (length label =? 0)%nat then
        match labels with
        | [] => Err (mkDomainNameError DomainNameErrorCode.EmptyLabel (length labels))
        | _ => from_labels labels
        end
      else from_labels (labels ++ [label])
  | value :: rest =>
      if bool_decide (value = x2e) then
        if (length label =? 0)%nat
        then Err (mkDomainNameError DomainNameErrorCode.EmptyLabel (length labels))
        else match rest with
             | [] => from_labels (labels ++ [label])
             | _ => from_text_loop rest (labels ++ [label]) []
             end
      else if negb (bool_decide (value = x5c)) then from_text_loop rest labels (label ++ [value])
      else
        match rest with
        | [] => Err (mkDomainNameError DomainNameErrorCode.InvalidEscape (length labels))
        | c1 :: rest1 =>
            match rest1 with
            | c2 :: c3 :: rest3 =>
                if is_ascii_digit c1 && is_ascii_digit c2 && is_ascii_digit c3 then
                  let n := (b2z c1 - 48) * 100 + (b2z c2 - 48) * 10 + (b2z c3 - 48) in
                  if 255 <? n
                  then Err (mkDomainNameError DomainNameErrorCode.InvalidEscape (length labels))
                  else from_text_loop rest3 labels (label ++ [z2b n])
                else from_text_loop rest1 labels (label ++ [c1])
            | _ => from_text_loop rest1 labels (label ++ [c1])
            end
        end
  end.

Definition from_text (text : list byte) : outcome DomainNameError DomainName :=
  if (length text =? 0)%nat || bool_decide (text = [x2e]) then Val root_name
  else from_text_loop text [] [].

(** Labels joined by dots; [to_string] and [to_canonical_string] differ only in
    the [canonical] flag. *)
Fixpoint join_labels (labels : list (list byte)) (canonical : bool) : list byte :=
  match labels with
  | [] => []
  | [label] => label_to_presentation label canonical
  | label :: rest => label_to_presentation label canonical ++ x2e :: join_labels rest canonical
  end.

Definition to_string (d : DomainName) : list byte :=
  if is_root d then [x2e] else join_labels (labels_ d) false.

Definition to_canonical_string (d : DomainName) : list byte :=
  if is_root d then [x2e] else join_labels (labels_ d) true.

(** The offset of label [first] in the canonical key. *)
Definition key_offset (labels : list (list byte)) (first : nat) : nat :=
  foldr (λ label acc, length label + 1 + acc)%nat 0%nat (take first labels).

Definition canonical_suffix_key (d : DomainName) (first_label : nat) : list byte :=
  if (length (labels_ d) <=? first_label)%nat then []
  else drop (key_offset (labels_ d) first_label) (canonical_key_ d).

Definition canonical_label (d : DomainName) (index : nat) : list byte :=
  match labels_ d !! index with
  | None => []
  | Some label => take (length label) (drop (key_offset (labels_ d) index + 1) (canonical_key_ d))
  end.

(** The loop of [is_subdomain_of]: labels of the query's tail against the
    parent's, in order. *)
Fixpoint subdomain_loop (tail parent : list (list byte)) : bool :=
  match tail, parent with
  | l :: tail, p :: parent => if labels_equal_canonical l p then subdomain_loop tail parent else false
  | _, _ => true
  end.

Definition is_subdomain_of (d parent : DomainName) : bool :=
  if (length (labels_ d) <? length (labels_ parent))%nat then false
  else subdomain_loop (drop (length (labels_ d) - length (labels_ parent)) (labels_ d)) (labels_ parent).

(** ** The class invariant *)
Definition valid (d : DomainName) : Prop := from_labels (labels_ d) = Val d.

Definition label_ok (label : list byte) : Prop := (1 ≤ length label ≤ 63)%nat.

(** Wire size of the labels, without the closing zero byte. *)
Definition labels_size (labels : list (list byte)) : nat :=
  foldr (λ label acc, length label + 1 + acc)%nat 0%nat labels.

(** Names up to ASCII case: the abstract value a domain name denotes. *)
Definition lower_labels (labels : list (list byte)) : list (list byte) := map (map ascii_lower) labels.

(** ** Construction *)
Section Construction.

Lemma labels_size_cons l ls : labels_size (l :: ls) = (length l + 1 + labels_size ls)%nat.
Proof. done. Qed.

Lemma check_labels_spec labels : ∀ index wire_size n,
  (1 ≤ wire_size)%nat →
  check_labels labels index wire_size = Val n ↔
  Forall label_ok labels ∧ (wire_size + labels_size labels ≤ 255 ∨ labels = [])%nat ∧
  n = (wire_size + labels_size labels)%nat.
Proof.
  induction labels as [|label rest IH]; intros index ws n Hws;
    rewrite ?labels_size_cons; cbn -[Nat.ltb Nat.eqb Nat.sub labels_size].
  - change (labels_size []) with 0%nat.
    split; [intros [= ->]; split_and!; [by constructor | by right | lia] |].
    intros (_ & _ & ->). f_equal; lia.
  - unfold kMaxLabelSize, kMaxDomainWireSize.
    destruct (Nat.eqb_spec (length label) 0); [split; [done |]; intros (H & _); inversion H; unfold label_ok in *; lia |].
    destruct (Nat.ltb_spec 63 (length label)); [split; [done |]; intros (Hf & _); inversion Hf; unfold label_ok in *; lia |].
    destruct (Nat.ltb_spec (255 - (length label + 1)) ws);
      [split; [done |]; intros (_ & [Hf | Hf] & _); [lia | done] |].
    assert (label_ok label) by (unfold label_ok; lia).
    rewrite IH, Forall_cons_iff by lia. split.
    + intros (Hf & Hs & ->). split_and!; [done.. | | lia].
      left. destruct Hs as [Hs | ->]; [lia |]. change (labels_size []) with 0%nat. lia.
    + intros ((_ & Hf) & Hs & ->). split_and!; [done | | lia].
      destruct Hs as [Hs | Hs]; [left; lia | done].
Qed.

Lemma from_labels_spec labels d :
  from_labels labels = Val d ↔
  Forall label_ok labels ∧ (1 + labels_size labels ≤ 255)%nat ∧
  d = mkDomainName labels (1 + labels_size labels) (canonical_encoding labels).
Proof.
  unfold from_labels. rewrite bind_val. setoid_rewrite check_labels_spec; [| lia..].
  split.
  - intros (n & (Hf & Hs & ->) & [= Hd]). subst d. split_and!; [done | | done].
    destruct Hs as [ | ->]; simpl in *; lia.
  - intros (Hf & Hs & ->). eexists. split; [split_and!; [done | by left | reflexivity] | done].
Qed.

Lemma check_labels_defined labels index ws : defined (check_labels labels index ws).
Proof.
  revert index ws. induction labels as [|label rest IH]; intros; cbn -[Nat.ltb Nat.eqb Nat.sub]; [done |].
  repeat case_match; auto with outcome.
Qed.

Lemma from_labels_defined labels : defined (from_labels labels).
Proof. apply bind_defined; [apply check_labels_defined | intros; done]. Qed.

Lemma from_labels_labels labels d : from_labels labels = Val d → labels_ d = labels.
Proof. by intros (_ & _ & ->)%from_labels_spec. Qed.

Lemma from_labels_valid labels d : from_labels labels = Val d → valid d.
Proof. intros H. unfold valid. by rewrite (from_labels_labels _ _ H). Qed.

Lemma root_valid : valid root_name.
Proof. done. Qed.

Lemma valid_spec d :
  valid d ↔ Forall label_ok (labels_ d) ∧ (1 + labels_size (labels_ d) ≤ 255)%nat ∧
            wire_size_ d = (1 + labels_size (labels_ d))%nat ∧
            canonical_key_ d = canonical_encoding (labels_ d).
Proof.
  unfold valid. rewrite from_labels_spec. destruct d as [ls ws key]; simpl.
  split; [intros (? & ? & [= -> ->]); by split_and! | intros (? & ? & -> & ->); by split_and!].
Qed.

Lemma from_text_loop_cases (P : outcome DomainNameError DomainName → Prop) :
  (∀ labels, P (from_labels labels)) → (∀ e, P (Err e)) →
  ∀ n text labels label, (length text ≤ n)%nat → P (from_text_loop text labels label).
Proof.
  intros Hl He n. induction n as [|n IH]; intros text labels label Hn;
    (destruct text as [|value rest]; [simpl; repeat case_match; auto |]); simpl in Hn; [lia |].
  simpl. repeat case_match; auto; subst; apply IH; simpl in *; lia.
Qed.

Lemma from_text_cases (P : outcome DomainNameError DomainName → Prop) text :
  P (Val root_name) → (∀ labels, P (from_labels labels)) → (∀ e, P (Err e)) → P (from_text text).
Proof. intros Hr Hl He. unfold from_text. case_match; [done |]. by eapply from_text_loop_cases. Qed.

Lemma from_text_defined text : defined (from_text text).
Proof. apply from_text_cases; auto using from_labels_defined with outcome. Qed.

Lemma from_text_valid text d : from_text text = Val d → valid d.
Proof.
  revert d. apply (from_text_cases (λ o, ∀ d, o = Val d → valid d)).
  - by intros d [= Hd]; subst d.
  - intros labels d. apply from_labels_valid.
  - done.
Qed.

End Construction.

(** ** Canonical keys *)
Section Keys.

Lemma ascii_lower_idem b : ascii_lower (ascii_lower b) = ascii_lower b.
Proof. by destruct b. Qed.

Lemma length_canonical_encoding labels :
  length (canonical_encoding labels) = (1 + labels_size labels)%nat.
Proof.
  unfold canonical_encoding. rewrite length_app. simpl.
  induction labels as [|l ls IH]; simpl; [done |].
  rewrite length_app, length_map. simpl in *. lia.
Qed.

Lemma labels_size_app l k : labels_size (l ++ k) = (labels_size l + labels_size k)%nat.
Proof. unfold labels_size. induction l; simpl; lia. Qed.

Lemma labels_size_lower l : labels_size (lower_labels l) = labels_size l.
Proof. unfold labels_size. induction l; simpl; [done |]. rewrite length_map. lia. Qed.

Lemma canonical_encoding_cons l ls :
  canonical_encoding (l :: ls) = (z2b (Z.of_nat (length l)) :: map ascii_lower l) ++ canonical_encoding ls.
Proof. unfold canonical_encoding. simpl. by rewrite <- app_assoc. Qed.

Lemma canonical_encoding_drop labels i :
  (i ≤ length labels)%nat →
  drop (key_offset labels i) (canonical_encoding labels) = canonical_encoding (drop i labels).
Proof.
  revert i. induction labels as [|l ls IH]; intros [|i] Hi; simpl in *; try done.
  rewrite canonical_encoding_cons. unfold key_offset. cbn [take foldr]. fold (key_offset ls i).
  rewrite drop_app_ge by (simpl; rewrite length_map; lia).
  rewrite <- IH by lia. f_equal. simpl. rewrite length_map. lia.
Qed.

Lemma z2b_len_inj n m : (n < 256)%nat → (m < 256)%nat → z2b (Z.of_nat n) = z2b (Z.of_nat m) → n = m.
Proof.
  intros Hn Hm H%(f_equal b2z). rewrite !b2z_z2b, !Z.mod_small in H by lia. lia.
Qed.

Lemma z2b_len_nonzero n : (1 ≤ n < 256)%nat → z2b (Z.of_nat n) ≠ x00.
Proof. intros Hn H%(f_equal b2z). rewrite b2z_z2b, Z.mod_small in H by lia. change (b2z x00) with 0 in H. lia. Qed.

(** The key determines the labels up to case: length prefixes make the
    concatenation unambiguous. *)
Lemma canonical_encoding_inj l k :
  Forall label_ok l → Forall label_ok k →
  canonical_encoding l = canonical_encoding k ↔ lower_labels l = lower_labels k.
Proof.
  intros Hl. revert k. induction Hl as [|x l Hx Hl IH]; intros k Hk; destruct Hk as [|y k Hy Hk].
  - done.
  - rewrite canonical_encoding_cons. simpl. split; [|done].
    intros [= Heq _]. symmetry in Heq. apply z2b_len_nonzero in Heq; [done |]. unfold label_ok in Hy. lia.
  - rewrite canonical_encoding_cons. simpl. split; [|done].
    intros [= Heq _]. apply z2b_len_nonzero in Heq; [done |]. unfold label_ok in Hx. lia.
  - unfold label_ok in *. rewrite !canonical_encoding_cons. simpl. split.
    + intros [= Hlen Heq]. apply z2b_len_inj in Hlen; [| lia..].
      apply app_inj_1 in Heq as [-> Hrest]; [| rewrite !length_map; lia].
      f_equal. by apply IH.
    + intros [= Hm Hrest]. pose proof (f_equal length Hm) as Hlen. rewrite !length_map in Hlen.
      apply (IH _ Hk) in Hrest. by rewrite Hm, Hlen, Hrest.
Qed.

Lemma name_eqb_spec a b :
  valid a → valid b →
  name_eqb a b = true ↔ lower_labels (labels_ a) = lower_labels (labels_ b).
Proof.
  intros (Ha & _ & _ & Ka)%valid_spec (Hb & _ & _ & Kb)%valid_spec. unfold name_eqb.
  rewrite bool_decide_eq_true, Ka, Kb. by apply canonical_encoding_inj.
Qed.

Lemma canonical_suffix_key_spec d i :
  valid d → (i < label_count d)%nat →
  canonical_suffix_key d i = canonical_encoding (drop i (labels_ d)).
Proof.
  intros (_ & _ & _ & K)%valid_spec Hi. unfold canonical_suffix_key, label_count in *.
  destruct (Nat.leb_spec (length (labels_ d)) i); [lia |].
  rewrite K. apply canonical_encoding_drop. lia.
Qed.

Lemma canonical_label_spec d i label :
  valid d → labels_ d !! i = Some label → canonical_label d i = map ascii_lower label.
Proof.
  intros (_ & _ & _ & K)%valid_spec Hi. unfold canonical_label. rewrite Hi, K.
  rewrite <- drop_drop, canonical_encoding_drop by (apply lookup_lt_Some in Hi; lia).
  rewrite (drop_S _ label) by done. rewrite canonical_encoding_cons. simpl.
  rewrite drop_0, take_app_length'; [done |]. by rewrite length_map.
Qed.

End Keys.

(** ** Subdomains *)
Section Subdomains.

Lemma labels_equal_canonical_spec l r :
  labels_equal_canonical l r = true ↔ map ascii_lower l = map ascii_lower r.
Proof.
  unfold labels_equal_canonical.
  destruct (Nat.eqb_spec (length l) (length r)) as [Hlen | Hlen]; simpl.
  - revert r Hlen. induction l as [|x l IH]; intros [|y r] Hlen; simpl in *; try done.
    case_bool_decide as Hd.
    + rewrite IH by lia. rewrite Hd. split; [by intros -> | congruence].
    + split; [done | congruence].
  - split; [done |]. intros H%(f_equal length). rewrite !length_map in H. lia.
Qed.

Lemma subdomain_loop_spec l p :
  length l = length p → subdomain_loop l p = true ↔ lower_labels l = lower_labels p.
Proof.
  revert p. induction l as [|x l IH]; intros [|y p] Hlen; simpl in *; try done.
  destruct (labels_equal_canonical x y) eqn:E.
  - apply labels_equal_canonical_spec in E. rewrite IH by lia. rewrite E.
    split; [by intros -> | congruence].
  - split; [done |]. intros [= H _]. apply labels_equal_canonical_spec in H. congruence.
Qed.

Lemma lower_labels_length l : length (lower_labels l) = length l.
Proof. apply length_map. Qed.

Lemma lower_labels_drop n l : lower_labels (drop n l) = drop n (lower_labels l).
Proof. unfold lower_labels. revert n. induction l; intros [|n]; simpl; auto. Qed.

(** [d] is below [parent] exactly when the parent's labels are a suffix of
    [d]'s, up to ASCII case. *)
Lemma is_subdomain_of_spec d parent :
  is_subdomain_of d parent = true ↔
  ∃ pre, lower_labels (labels_ d) = pre ++ lower_labels (labels_ parent).
Proof.
  unfold is_subdomain_of.
  destruct (Nat.ltb_spec (length (labels_ d)) (length (labels_ parent))) as [Hlt | Hge].
  - split; [done |]. intros (pre & H%(f_equal length)).
    rewrite length_app, !lower_labels_length in H. lia.
  - rewrite subdomain_loop_spec by (rewrite length_drop; lia). rewrite lower_labels_drop. split.
    + intros H. eexists. rewrite <- H. symmetry. apply take_drop.
    + intros (pre & H). rewrite H. apply drop_app_length'.
      apply (f_equal length) in H. rewrite length_app, !lower_labels_length in H. lia.
Qed.

(** The suffix keys a query offers to a key-indexed set are exactly the keys of
    its non-root ancestors. *)
Lemma is_subdomain_of_suffix_key d parent :
  valid d → valid parent → is_root parent = false →
  is_subdomain_of d parent = true ↔
  ∃ i, (i < label_count d)%nat ∧ canonical_suffix_key d i = canonical_key_ parent.
Proof.
  intros Hd Hp Hroot. pose proof Hd as (Fd & _)%valid_spec.
  pose proof Hp as (Fp & _ & _ & Kp)%valid_spec.
  assert (labels_ parent ≠ []) as Hne by (unfold is_root in Hroot; by destruct (labels_ parent)).
  rewrite is_subdomain_of_spec. split.
  - intros (pre & H). exists (length pre).
    assert (length pre + length (labels_ parent) = length (labels_ d))%nat as Hlen.
    { apply (f_equal length) in H. rewrite length_app, !lower_labels_length in H. lia. }
    assert (length pre < label_count d)%nat.
    { unfold label_count. destruct (labels_ parent); [done | simpl in Hlen; lia]. }
    split; [done |]. rewrite canonical_suffix_key_spec, Kp by done.
    apply canonical_encoding_inj; [by apply Forall_drop | done |].
    by rewrite lower_labels_drop, H, drop_app_length.
  - intros (i & Hi & Heq). rewrite canonical_suffix_key_spec, Kp in Heq by done.
    apply canonical_encoding_inj in Heq; [| by apply Forall_drop | done].
    exists (take i (lower_labels (labels_ d))). rewrite <- Heq, lower_labels_drop.
    symmetry. apply take_drop.
Qed.

End Subdomains.

(** ** Presentation format *)
Section Text.

(** Reading back one presented character appends exactly that byte. *)
Lemma from_text_loop_char (canonical : bool) b rest labels label :
  let ch := if canonical then ascii_lower b else b in
  from_text_loop (presentation_char canonical b ++ rest) labels label =
  from_text_loop rest labels (label ++ [ch]).
Proof. destruct canonical; destruct b; try reflexivity; by destruct rest as [|? [|? ?]]. Qed.

Lemma from_text_loop_label (canonical : bool) l rest labels label :
  from_text_loop (label_to_presentation l canonical ++ rest) labels label =
  from_text_loop rest labels (label ++ if canonical then map ascii_lower l else l).
Proof.
  revert label. induction l as [|b l IH]; intros label; simpl.
  - by destruct canonical; rewrite app_nil_r.
  - rewrite <- app_assoc, from_text_loop_char, IH, <- app_assoc. by destruct canonical.
Qed.

Lemma from_text_loop_join (canonical : bool) ls labels l :
  Forall label_ok (l :: ls) →
  from_text_loop (join_labels (l :: ls) canonical) labels [] =
  from_labels (labels ++ if canonical then lower_labels (l :: ls) else l :: ls).
Proof.
  revert labels l. induction ls as [|l' ls IH]; intros labels l Hok.
  - rewrite <- (app_nil_r (join_labels _ _)). simpl. rewrite from_text_loop_label. simpl.
    inversion Hok as [|?? Hl _]; subst. unfold label_ok in Hl.
    destruct (Nat.eqb_spec (length (if canonical then map ascii_lower l else l)) 0) as [H0 | H0].
    + destruct canonical; rewrite ?length_map in H0; lia.
    + by destruct canonical.
  - inversion Hok as [|?? Hl Hls]; subst. unfold label_ok in Hl.
    change (join_labels (l :: l' :: ls) canonical) with
      (label_to_presentation l canonical ++ x2e :: join_labels (l' :: ls) canonical).
    rewrite from_text_loop_label. cbn [from_text_loop app].
    rewrite bool_decide_true by done.
    destruct (Nat.eqb_spec (length (if canonical then map ascii_lower l else l)) 0) as [H0 | H0].
    { destruct canonical; rewrite ?length_map in H0; lia. }
    destruct (join_labels (l' :: ls) canonical) eqn:Ej.
    + exfalso. inversion Hls as [|?? Hl' _]; subst. unfold label_ok in Hl'.
      destruct l' as [|b l']; simpl in *; [lia |].
      destruct ls; simpl in Ej; destruct canonical; destruct b; discriminate Ej.
    + rewrite <- Ej, IH, <- app_assoc by done. by destruct canonical.
Qed.

Lemma join_labels_not_dot canonical l ls :
  label_ok l → join_labels (l :: ls) canonical ≠ [] ∧ join_labels (l :: ls) canonical ≠ [x2e].
Proof.
  unfold label_ok. intros Hl. destruct l as [|b l]; simpl in *; [lia |].
  split; destruct ls; destruct canonical; destruct b; discriminate.
Qed.

Lemma from_text_join (canonical : bool) l ls :
  Forall label_ok (l :: ls) →
  from_text (join_labels (l :: ls) canonical) =
  from_labels (if canonical then lower_labels (l :: ls) else l :: ls).
Proof.
  intros Hok. inversion Hok as [|?? Hl _]; subst.
  destruct (join_labels_not_dot canonical l ls Hl) as [H1 H2]. unfold from_text.
  destruct (Nat.eqb_spec (length (join_labels (l :: ls) canonical)) 0) as [H0 | H0].
  { by apply nil_length_inv in H0. }
  rewrite bool_decide_false by done. simpl orb. by rewrite from_text_loop_join.
Qed.

End Text.

(** ** Main properties *)
Section Properties.

Lemma check_labels_error labels : ∀ index ws e,
  (1 ≤ ws)%nat → check_labels labels index ws = Err e →
  ∃ i label, labels !! i = Some label ∧ label_index e = (index + i)%nat ∧
    Forall label_ok (take i labels) ∧
    match code e with
    | DomainNameErrorCode.EmptyLabel => label = []
    | DomainNameErrorCode.LabelTooLong => (63 < length label)%nat
    | DomainNameErrorCode.NameTooLong =>
        label_ok label ∧ (255 < ws + labels_size (take (S i) labels))%nat
    | DomainNameErrorCode.InvalidEscape => False
    end.
Proof.
  induction labels as [|label rest IH]; intros index ws e Hws; cbn -[Nat.ltb Nat.eqb Nat.sub labels_size take]; [done |].
  unfold kMaxLabelSize, kMaxDomainWireSize.
  destruct (Nat.eqb_spec (length label) 0) as [H0 | H0].
  { intros [= <-]. exists 0%nat, label. split_and!; simpl; try done; try lia; by apply nil_length_inv. }
  destruct (Nat.ltb_spec 63 (length label)).
  { intros [= <-]. exists 0%nat, label. split_and!; simpl; try done; lia. }
  assert (label_ok label) by (unfold label_ok; lia).
  destruct (Nat.ltb_spec (255 - (length label + 1)) ws).
  { intros [= <-]. exists 0%nat, label. split_and!; try done. simpl. split; [done | lia]. }
  intros (i & l & Hi & Hidx & Hf & Hc)%IH; [| lia].
  exists (S i), l. split_and!; [done | lia | by constructor |].
  destruct (code e); try done. destruct Hc as [? Hc]. split; [done |].
  cbn [take]. rewrite labels_size_cons. lia.
Qed.

(** Every valid name survives a round trip through its presentation text:
    [from_text] applied to [to_string] gives back the very same name (labels,
    wire size and canonical key), escapes included. *)
Theorem text_roundtrip d : valid d → from_text (to_string d) = Val d.
Proof.
  intros Hd. pose proof Hd as (Hok & _)%valid_spec. unfold valid in Hd. unfold to_string, is_root.
  destruct (labels_ d) as [|l ls] eqn:El.
  - rewrite <- Hd. reflexivity.
  - by rewrite (from_text_join false).
Qed.

Lemma text_roundtrip_witness :
  let d := mkDomainName [[x2e; x5c; x41]; [x00; xff]] 8
             [x03; x2e; x5c; x61; x02; x00; xff; x00] in
  valid d ∧ from_text (to_string d) = Val d.
Proof. split; [vm_compute; reflexivity | apply text_roundtrip; vm_compute; reflexivity]. Defined.

(** The canonical presentation text of a valid name parses to a name that
    [operator==] identifies with the original, and whose labels are its
    lower-cased labels. *)
Theorem canonical_text_roundtrip d :
  valid d → ∃ d', from_text (to_canonical_string d) = Val d' ∧ valid d' ∧
    labels_ d' = lower_labels (labels_ d) ∧ name_eqb d' d = true.
Proof.
  intros Hd. pose proof Hd as (Hok & Hs & _)%valid_spec.
  assert (Forall label_ok (lower_labels (labels_ d))) as Hok'.
  { apply Forall_map. eapply Forall_impl; [| exact Hok]. intros l. unfold label_ok. simpl.
    by rewrite length_map. }
  assert (∃ d', from_labels (lower_labels (labels_ d)) = Val d') as (d' & Hd').
  { eexists. apply from_labels_spec. split_and!; [done | by rewrite labels_size_lower | reflexivity]. }
  exists d'. pose proof (from_labels_valid _ _ Hd') as Hv. pose proof (from_labels_labels _ _ Hd') as Hl.
  split_and!; [| done | done |].
  - unfold to_canonical_string, is_root. destruct (labels_ d) as [|l ls].
    + rewrite <- Hd'. reflexivity.
    + by rewrite (from_text_join true).
  - apply name_eqb_spec; [done.. |]. rewrite Hl. unfold lower_labels. rewrite map_map.
    apply map_ext. intros l. rewrite map_map. apply map_ext, ascii_lower_idem.
Qed.

Lemma canonical_text_roundtrip_witness :
  ∃ d', from_text (to_canonical_string (mkDomainName [[x57; x57]] 4 [x02; x77; x77; x00])) = Val d' ∧
    valid d' ∧ labels_ d' = [[x77; x77]] ∧
    name_eqb d' (mkDomainName [[x57; x57]] 4 [x02; x77; x77; x00]) = true.
Proof.
  apply (canonical_text_roundtrip (mkDomainName [[x57; x57]] 4 [x02; x77; x77; x00])).
  vm_compute; reflexivity.
Defined.

(** [operator==] on valid names (a comparison of canonical keys) holds
    exactly when the label sequences agree up to ASCII case; in particular the
    key encoding does not confuse different label boundaries. *)
Theorem name_equality a b :
  valid a → valid b → name_eqb a b = true ↔ lower_labels (labels_ a) = lower_labels (labels_ b).
Proof. apply name_eqb_spec. Qed.

Lemma name_equality_witness :
  let a := mkDomainName [[x61]; [x62]] 5 [x01; x61; x01; x62; x00] in
  let b := mkDomainName [[x41]; [x42]] 5 [x01; x61; x01; x62; x00] in
  valid a ∧ valid b ∧ name_eqb a b = true.
Proof.
  split_and!; [vm_compute; reflexivity.. |].
  apply name_equality; vm_compute; reflexivity.
Defined.

(** for valid names and a non-root parent, [is_subdomain_of] holds exactly
    when one of the query's suffix keys equals the parent's canonical key; this
    is what lets a set of keys answer suffix queries. *)
Theorem subdomain_by_suffix_key d parent :
  valid d → valid parent → is_root parent = false →
  is_subdomain_of d parent = true ↔
  ∃ i, (i < label_count d)%nat ∧ canonical_suffix_key d i = canonical_key_ parent.
Proof. apply is_subdomain_of_suffix_key. Qed.

Lemma subdomain_by_suffix_key_witness :
  let d := mkDomainName [[x61]; [x42]] 5 [x01; x61; x01; x62; x00] in
  let p := mkDomainName [[x62]] 3 [x01; x62; x00] in
  valid d ∧ valid p ∧ is_root p = false ∧ is_subdomain_of d p = true.
Proof.
  split_and!; [vm_compute; reflexivity.. |].
  apply subdomain_by_suffix_key; [vm_compute; reflexivity.. |].
  exists 1%nat. split; [vm_compute; lia | vm_compute; reflexivity].
Defined.

(** [from_labels] rejects at the first offending label: every earlier label
    is well formed, and the code says what is wrong with the reported one
    (empty, longer than 63 bytes, or the one that pushes the wire size past
    255). *)
Theorem from_labels_first_error labels e :
  from_labels labels = Err e →
  ∃ label, labels !! label_index e = Some label ∧ Forall label_ok (take (label_index e) labels) ∧
    match code e with
    | DomainNameErrorCode.EmptyLabel => label = []
    | DomainNameErrorCode.LabelTooLong => (63 < length label)%nat
    | DomainNameErrorCode.NameTooLong =>
        label_ok label ∧ (255 < 1 + labels_size (take (S (label_index e)) labels))%nat
    | DomainNameErrorCode.InvalidEscape => False
    end.
Proof.
  unfold from_labels. destruct (check_labels labels 0 1) eqn:E; simpl; try done.
  intros [= ->]. apply check_labels_error in E as (i & label & Hi & -> & Hf & Hc); [| lia].
  by exists label.
Qed.

Lemma from_labels_first_error_witness :
  ∃ label, [[x61]; []; [x62]] !! 1%nat = Some label ∧ Forall label_ok (take 1 [[x61]; []; [x62]]) ∧ label = [].
Proof.
  apply (from_labels_first_error [[x61]; []; [x62]] (mkDomainNameError DomainNameErrorCode.EmptyLabel 1)).
  vm_compute; reflexivity.
Defined.

End Properties.
