(* ===== verification/DnsMessage.v ===== *)
(** * DNS messages ([protocol/DnsMessage.h], [protocol/DnsLimits.h])

    Integer fields keep the value of their C++ type as a [Z]; [fits] states that
    a field is in the range of its width. *)
From S2P Require Import Prelude DomainName.
From Stdlib Require Import Strings.Byte.

Definition kDnsHeaderSize : nat := 12.
Definition kClassicDnsUdpPayloadLimit : nat := 512.

Inductive RecordType := A | NS | CNAME | SOA | PTR | HINFO | MINFO | MX | TXT | AAAA | OPT.

Definition record_type_value (t : RecordType) : Z :=
  match t with
  | A => 1 | NS => 2 | CNAME => 5 | SOA => 6 | PTR => 12 | HINFO => 13 | MINFO => 14
  | MX => 15 | TXT => 16 | AAAA => 28 | OPT => 41
  end.

(** The switch on [static_cast<RecordType>(type)]: [None] is a value without an
    enumerator. *)
Definition record_type_of (type : Z) : option RecordType :=
  find (λ t, record_type_value t =? type) [A; NS; CNAME; SOA; PTR; HINFO; MINFO; MX; TXT; AAAA; OPT].

Inductive RecordClass := IN | NONE | ANY.

Definition record_class_value (c : RecordClass) : Z :=
  match c with IN => 1 | NONE => 254 | ANY => 255 end.

Inductive Opcode := Query | IQuery | Status.

Definition opcode_value (o : Opcode) : Z := match o with Query => 0 | IQuery => 1 | Status => 2 end.

Inductive ResponseCode := NoError | FormErr | ServFail | NxDomain | NotImp | Refused.

Definition response_code_value (r : ResponseCode) : Z :=
  match r with NoError => 0 | FormErr => 1 | ServFail => 2 | NxDomain => 3 | NotImp => 4 | Refused => 5 end.

Record Header := mkHeader {
  id : Z;
  is_response : bool;
  opcode : Z;
  authoritative_answer : bool;
  truncated : bool;
  recursion_desired : bool;
  recursion_available : bool;
  reserved_z : bool;
  authenticated_data : bool;
  checking_disabled : bool;
  response_code : Z;
}.

(** The member initialisers. *)
Definition default_header : Header :=
  mkHeader 0 false (opcode_value Query) false false false false false false false
    (response_code_value NoError).

Record Question := mkQuestion { qname : DomainName; qtype : Z; question_class : Z }.

(** The defaulted [operator==]: memberwise, names by canonical key. *)
Definition question_eqb (a b : Question) : bool :=
  name_eqb (qname a) (qname b) && (qtype a =? qtype b) && (question_class a =? question_class b).

Record ResourceRecord := mkResourceRecord {
  rname : DomainName;
  rtype : Z;
  record_class : Z;
  ttl : Z;
  rdata_offset : nat;
  rdata : list byte;
}.

Record Message := mkMessage {
  header : Header;
  questions : list Question;
  answers : list ResourceRecord;
  authorities : list ResourceRecord;
  additionals : list ResourceRecord;
  wire_image : list byte;
}.

(** ** Ranges of the integer fields *)
Definition u8 (v : Z) : Prop := 0 ≤ v < 256.
Definition u16 (v : Z) : Prop := 0 ≤ v < 65536.
Definition u32 (v : Z) : Prop := 0 ≤ v < 4294967296.

Definition header_fits (h : Header) : Prop := u16 (id h) ∧ 0 ≤ opcode h < 16 ∧ 0 ≤ response_code h < 16.
Definition question_fits (q : Question) : Prop := valid (qname q) ∧ u16 (qtype q) ∧ u16 (question_class q).
Definition record_fits (r : ResourceRecord) : Prop :=
  valid (rname r) ∧ u16 (rtype r) ∧ u16 (record_class r) ∧ u32 (ttl r).

Lemma record_type_of_value t : record_type_of (record_type_value t) = Some t.
Proof. by destruct t. Qed.

Lemma record_type_of_Some v t : record_type_of v = Some t → v = record_type_value t.
Proof. intros H. apply find_some in H as [_ H]. by apply Z.eqb_eq in H. Qed.

Lemma name_eqb_refl d : name_eqb d d = true.
Proof. by apply bool_decide_eq_true. Qed.

Lemma question_eqb_refl q : question_eqb q q = true.
Proof. unfold question_eqb. by rewrite name_eqb_refl, !Z.eqb_refl. Qed.

Lemma question_eqb_true a b :
  question_eqb a b = true →
  canonical_key_ (qname a) = canonical_key_ (qname b) ∧ qtype a = qtype b ∧
  question_class a = question_class b.
Proof.
  unfold question_eqb, name_eqb. intros H. bool_hyps.
  split_and!; [by eapply bool_decide_eq_true_1 | done..].
Qed.
