(* ===== verification/DnsParser.v ===== *)
(** * The message parser ([protocol/DnsParser.h], [protocol/DnsParser.cpp])

    [parse_message] is translated statement by statement; every indexed read of
    the packet is checked, so [Undef] would show an out-of-bounds access or a
    name that never ends. *)
From S2P Require Import Prelude Wire DomainName DnsMessage.
From Stdlib Require Import Strings.Byte.

Module ParseErrorCode.
Inductive ParseErrorCode :=
  | PacketTooLarge | UnexpectedEnd | TooManyQuestions | TooManyRecords | InvalidLabelType
  | EmptyLabel | LabelTooLong | NameTooLong | TruncatedCompressionPointer
  | CompressionPointerOutOfBounds | CompressionPointerIntoHeader | ForwardCompressionPointer
  | CompressionPointerLoop | TooManyCompressionPointers | InvalidRdata | TrailingData.
End ParseErrorCode.

Record ParseError := mkParseError { pe_code : ParseErrorCode.ParseErrorCode; pe_offset : nat }.

Record ParseLimits := mkParseLimits {
  maximum_packet_size : nat;
  maximum_questions : nat;
  maximum_records_per_section : nat;
  maximum_total_records : nat;
  maximum_compression_pointers : nat;
  require_backward_pointers : bool;
  reject_trailing_data : bool;
}.

Definition default_limits : ParseLimits :=
  mkParseLimits (N.to_nat 65535) 16 (N.to_nat 4096) (N.to_nat 4096) 32 true true.

Record DecodedName := mkDecodedName { name : DomainName; next_offset : nat }.

Definition parse_failure {X} (code : ParseErrorCode.ParseErrorCode) (offset : nat) : outcome ParseError X :=
  Err (mkParseError code offset).

(** The [while (true)] of [decode_name].  One unit of fuel per iteration; the
    result is the labels and the offset after the encoded name. *)
Fixpoint decode_name_loop (fuel : nat) (packet : list byte) (encoded_end : nat) (limits : ParseLimits)
    (labels : list (list byte)) (visited_pointers : list nat) (position next_offset : nat)
    (expanded_wire_size : nat) (followed_pointer : bool) : outcome ParseError (list (list byte) * nat) :=
  match fuel with
  | O => Undef
  | S fuel =>
      if (length packet <=? position)%nat then parse_failure ParseErrorCode.UnexpectedEnd position
      else if negb followed_pointer && (encoded_end <=? position)%nat
      then parse_failure ParseErrorCode.UnexpectedEnd position
      else
      len ← WireReader.byte_at packet position;
      if len =? 0 then
        Val (labels, if negb followed_pointer then (position + 1)%nat else next_offset)
      else if Z.land len 192 =? 192 then
        if (length packet <=? position + 1)%nat || (negb followed_pointer && (encoded_end <=? position + 1)%nat)
        then parse_failure ParseErrorCode.TruncatedCompressionPointer position
        else
        low ← WireReader.byte_at packet (position + 1);
        let pointer := Z.to_nat (Z.lor (Z.shiftl (Z.land len 63) 8) low) in
        if (length packet <=? pointer)%nat then parse_failure ParseErrorCode.CompressionPointerOutOfBounds position
        else if (pointer <? kDnsHeaderSize)%nat then parse_failure ParseErrorCode.CompressionPointerIntoHeader position
        else if require_backward_pointers limits && (position <=? pointer)%nat
        then parse_failure ParseErrorCode.ForwardCompressionPointer position
        else if bool_decide (pointer ∈ visited_pointers)
        then parse_failure ParseErrorCode.CompressionPointerLoop position
        else if (maximum_compression_pointers limits <=? length visited_pointers)%nat
        then parse_failure ParseErrorCode.TooManyCompressionPointers position
        else
          decode_name_loop fuel packet encoded_end limits labels (visited_pointers ++ [pointer]) pointer
            (if negb followed_pointer then (position + 2)%nat else next_offset) expanded_wire_size true
      else if negb (Z.land len 192 =? 0) then parse_failure ParseErrorCode.InvalidLabelType position
      else if Z.of_nat kMaxLabelSize <? len then parse_failure ParseErrorCode.LabelTooLong position
      else
      let length_ := Z.to_nat len in
      let label_begin := (position + 1)%nat in
      if (length packet <? label_begin)%nat || (length packet - label_begin <? length_)%nat ||
         (negb followed_pointer && ((encoded_end <? label_begin)%nat || (encoded_end - label_begin <? length_)%nat))
      then parse_failure ParseErrorCode.UnexpectedEnd position
      else if (kMaxDomainWireSize - (length_ + 1) <? expanded_wire_size)%nat
      then parse_failure ParseErrorCode.NameTooLong position
      else
        decode_name_loop fuel packet encoded_end limits
          (labels ++ [take length_ (drop label_begin packet)]) visited_pointers (label_begin + length_)
          (if negb followed_pointer then (label_begin + length_)%nat else next_offset)
          (expanded_wire_size + (length_ + 1)) followed_pointer
  end.

(** Iterations suffice when there is one for each byte of an expanded name and
    one for each admissible pointer. *)
Definition decode_fuel (limits : ParseLimits) : nat :=
  (kMaxDomainWireSize + maximum_compression_pointers limits + 1)%nat.

Definition decode_name (packet : list byte) (start encoded_end : nat) (limits : ParseLimits)
    : outcome ParseError DecodedName :=
  '(labels, next) ← decode_name_loop (decode_fuel limits) packet encoded_end limits [] [] start start 1 false;
  match from_labels labels with
  | Val n => Val (mkDecodedName n next)
  | Err e =>
      match code e with
      | DomainNameErrorCode.EmptyLabel => parse_failure ParseErrorCode.EmptyLabel start
      | DomainNameErrorCode.InvalidEscape => parse_failure ParseErrorCode.InvalidLabelType start
      | DomainNameErrorCode.LabelTooLong => parse_failure ParseErrorCode.LabelTooLong start
      | DomainNameErrorCode.NameTooLong => parse_failure ParseErrorCode.NameTooLong start
      end
  | Undef => Undef
  end.

(** A read of the reader whose [false] becomes [UnexpectedEnd] at the cursor. *)
Definition require_read (r : outcome ParseError (option Z * WireReader.WireReader))
    : outcome ParseError (Z * WireReader.WireReader) :=
  '(v, reader) ← r;
  match v with
  | Some v => Val (v, reader)
  | None => parse_failure ParseErrorCode.UnexpectedEnd (WireReader.offset_ reader)
  end.

Definition parse_question (packet : list byte) (offset : nat) (limits : ParseLimits)
    : outcome ParseError (Question * nat) :=
  decoded_name ← decode_name packet offset (length packet) limits;
  let reader := WireReader.mk packet (next_offset decoded_name) in
  '(type, reader) ← require_read (WireReader.read_u16 reader);
  '(class, reader) ← require_read (WireReader.read_u16 reader);
  Val (mkQuestion (name decoded_name) type class, WireReader.offset_ reader).

(** The [validate_single_name] lambda. *)
Definition validate_single_name (packet : list byte) (limits : ParseLimits) (name_offset required_end : nat)
    : outcome ParseError unit :=
  decoded ← decode_name packet name_offset required_end limits;
  if negb (next_offset decoded =? required_end)%nat
  then parse_failure ParseErrorCode.InvalidRdata (next_offset decoded)
  else Val tt.

(** The loop shared by the character-string lambdas: [None] is the early
    [return false], otherwise the final cursor and count. *)
Fixpoint scan_strings (fuel : nat) (packet : list byte) (cursor rdata_end count : nat)
    : outcome ParseError (option (nat * nat)) :=
  match fuel with
  | O => Undef
  | S fuel =>
      if (cursor <? rdata_end)%nat then
        b ← WireReader.byte_at packet cursor;
        let string_size := Z.to_nat b in
        let cursor := (cursor + 1)%nat in
        if (rdata_end - cursor <? string_size)%nat then Val None
        else scan_strings fuel packet (cursor + string_size) rdata_end (count + 1)
      else Val (Some (cursor, count))
  end.

Definition validate_character_strings (packet : list byte) (rdata_offset rdata_end expected_count : nat)
    : outcome ParseError bool :=
  r ← scan_strings (S (rdata_end - rdata_offset)) packet rdata_offset rdata_end 0;
  Val match r with
      | None => false
      | Some (cursor, count) => (cursor =? rdata_end)%nat && (count =? expected_count)%nat
      end.

Definition validate_text_strings (packet : list byte) (rdata_offset rdata_end : nat) : outcome ParseError bool :=
  r ← scan_strings (S (rdata_end - rdata_offset)) packet rdata_offset rdata_end 0;
  Val match r with
      | None => false
      | Some (cursor, count) => (cursor =? rdata_end)%nat && negb (count =? 0)%nat
      end.

(** The type switch of [parse_resource_record]. *)
Definition validate_rdata (packet : list byte) (limits : ParseLimits) (type rdata_length : Z)
    (rdata_offset rdata_end : nat) : outcome ParseError unit :=
  match record_type_of type with
  | Some A =>
      if negb (rdata_length =? 4) then parse_failure ParseErrorCode.InvalidRdata rdata_offset else Val tt
  | Some AAAA =>
      if negb (rdata_length =? 16) then parse_failure ParseErrorCode.InvalidRdata rdata_offset else Val tt
  | Some NS | Some CNAME | Some PTR => validate_single_name packet limits rdata_offset rdata_end
  | Some MX =>
      if rdata_length <? 3 then parse_failure ParseErrorCode.InvalidRdata rdata_offset
      else validate_single_name packet limits (rdata_offset + 2) rdata_end
  | Some SOA =>
      primary_name ← decode_name packet rdata_offset rdata_end limits;
      mailbox_name ← decode_name packet (next_offset primary_name) rdata_end limits;
      if (rdata_end <? next_offset mailbox_name)%nat || negb (rdata_end - next_offset mailbox_name =? 20)%nat
      then parse_failure ParseErrorCode.InvalidRdata (next_offset mailbox_name)
      else Val tt
  | Some MINFO =>
      responsible_mailbox ← decode_name packet rdata_offset rdata_end limits;
      validate_single_name packet limits (next_offset responsible_mailbox) rdata_end
  | Some HINFO =>
      ok ← validate_character_strings packet rdata_offset rdata_end 2;
      if negb ok then parse_failure ParseErrorCode.InvalidRdata rdata_offset else Val tt
  | Some TXT =>
      ok ← validate_text_strings packet rdata_offset rdata_end;
      if negb ok then parse_failure ParseErrorCode.InvalidRdata rdata_offset else Val tt
  | Some OPT => Val tt
  | None => Val tt
  end.

Definition parse_resource_record (packet : list byte) (offset : nat) (limits : ParseLimits)
    : outcome ParseError (ResourceRecord * nat) :=
  decoded_name ← decode_name packet offset (length packet) limits;
  let reader := WireReader.mk packet (next_offset decoded_name) in
  '(type, reader) ← require_read (WireReader.read_u16 reader);
  '(class, reader) ← require_read (WireReader.read_u16 reader);
  '(ttl, reader) ← require_read (WireReader.read_u32 reader);
  '(rdata_length, reader) ← require_read (WireReader.read_u16 reader);
  let rdata_offset := WireReader.offset_ reader in
  match WireReader.read_bytes (Z.to_nat rdata_length) reader with
  | (None, reader) => parse_failure ParseErrorCode.UnexpectedEnd (WireReader.offset_ reader)
  | (Some rdata, reader) =>
      let rdata_end := WireReader.offset_ reader in
      _ ← validate_rdata packet limits type rdata_length rdata_offset rdata_end;
      Val (mkResourceRecord (name decoded_name) type class ttl rdata_offset rdata, WireReader.offset_ reader)
  end.

Fixpoint parse_section {Item} (count : nat) (parser : nat → outcome ParseError (Item * nat)) (offset : nat)
    : outcome ParseError (list Item * nat) :=
  match count with
  | O => Val ([], offset)
  | S count =>
      '(item, offset) ← parser offset;
      '(items, offset) ← parse_section count parser offset;
      Val (item :: items, offset)
  end.

(** The flag word, field by field. *)
Definition decode_flags (id flags : Z) : Header :=
  mkHeader id
    (negb (Z.land flags 0x8000 =? 0))
    (Z.land (Z.shiftr flags 11) 15)
    (negb (Z.land flags 0x0400 =? 0))
    (negb (Z.land flags 0x0200 =? 0))
    (negb (Z.land flags 0x0100 =? 0))
    (negb (Z.land flags 0x0080 =? 0))
    (negb (Z.land flags 0x0040 =? 0))
    (negb (Z.land flags 0x0020 =? 0))
    (negb (Z.land flags 0x0010 =? 0))
    (Z.land flags 15).

Definition parse_message (packet : list byte) (limits : ParseLimits) : outcome ParseError Message :=
  if (maximum_packet_size limits <? length packet)%nat
  then parse_failure ParseErrorCode.PacketTooLarge (maximum_packet_size limits)
  else
  let reader := WireReader.mk packet 0 in
  '(id, reader) ← require_read (WireReader.read_u16 reader);
  '(flags, reader) ← require_read (WireReader.read_u16 reader);
  '(question_count, reader) ← require_read (WireReader.read_u16 reader);
  '(answer_count, reader) ← require_read (WireReader.read_u16 reader);
  '(authority_count, reader) ← require_read (WireReader.read_u16 reader);
  '(additional_count, reader) ← require_read (WireReader.read_u16 reader);
  if Z.of_nat (maximum_questions limits) <? question_count
  then parse_failure ParseErrorCode.TooManyQuestions 4
  else if (Z.of_nat (maximum_records_per_section limits) <? answer_count) ||
          (Z.of_nat (maximum_records_per_section limits) <? authority_count) ||
          (Z.of_nat (maximum_records_per_section limits) <? additional_count)
  then parse_failure ParseErrorCode.TooManyRecords 6
  else
  let total_records := answer_count + authority_count + additional_count in
  if Z.of_nat (maximum_total_records limits) <? total_records
  then parse_failure ParseErrorCode.TooManyRecords 6
  else
  let offset := WireReader.offset_ reader in
  '(questions, offset) ← parse_section (Z.to_nat question_count) (λ o, parse_question packet o limits) offset;
  let parse_rr := λ o, parse_resource_record packet o limits in
  '(answers, offset) ← parse_section (Z.to_nat answer_count) parse_rr offset;
  '(authorities, offset) ← parse_section (Z.to_nat authority_count) parse_rr offset;
  '(additionals, offset) ← parse_section (Z.to_nat additional_count) parse_rr offset;
  if reject_trailing_data limits && negb (offset =? length packet)%nat
  then parse_failure ParseErrorCode.TrailingData offset
  else Val (mkMessage (decode_flags id flags) questions answers authorities additionals packet).

(** ** Name decoding: what a packet says about a name

    [encodes packet pos labels]: reading from [pos], following compression
    pointers, spells [labels].  This is the RFC 1035 reading of a name, with no
    limits and no order on pointers. *)
Inductive encodes (packet : list byte) : nat → list (list byte) → Prop :=
  | encodes_root pos :
      packet !! pos = Some x00 → encodes packet pos []
  | encodes_label pos b label labels :
      packet !! pos = Some b → 1 ≤ b2z b ≤ 63 →
      length label = Z.to_nat (b2z b) →
      take (length label) (drop (pos + 1) packet) = label →
      encodes packet (pos + 1 + length label) labels →
      encodes packet pos (label :: labels)
  | encodes_pointer pos hi lo labels :
      packet !! pos = Some hi → packet !! (pos + 1)%nat = Some lo → 192 ≤ b2z hi →
      encodes packet (Z.to_nat ((b2z hi - 192) * 256 + b2z lo)) labels →
      encodes packet pos labels.

(** What the loop guarantees on success, for the labels it adds and for the
    offset it reports. *)
Record decoded_ok (packet : list byte) (encoded_end position expanded : nat) (followed : bool)
    (next : nat) (added : list (list byte)) (next' : nat) : Prop := {
  dok_encodes : encodes packet position added;
  dok_labels : Forall label_ok added;
  dok_size : (expanded + labels_size added ≤ 255)%nat ∨ added = [];
  dok_next : if followed then next' = next
             else (position < next' ≤ encoded_end ∧ next' ≤ length packet)%nat;
}.

(** Case analysis on the first byte of a name, as the code's bit tests make it. *)
Lemma land_c0_cases b :
  let n := b2z b in
  (Z.land n 192 =? 192) = (192 <=? n) ∧ (Z.land n 192 =? 0) = (n <? 64) ∧
  (192 ≤ n → Z.land n 63 = n - 192).
Proof. destruct b; vm_compute; split_and!; try done; intros H; by destruct H. Qed.

Section DecodeLoop.
Context (packet : list byte) (encoded_end : nat) (limits : ParseLimits).

Abbreviation loop fuel := (decode_name_loop fuel packet encoded_end limits).

(** The loop reduced to its three continuing branches, for a caller that only
    needs an invariant over them. *)
Lemma decode_loop_ind
    (P : nat → list (list byte) → list nat → nat → nat → nat → bool →
         outcome ParseError (list (list byte) * nat) → Prop) :
  (∀ labels visited pos next ews fl, P 0%nat labels visited pos next ews fl Undef) →
  (∀ fuel labels visited pos next ews fl e, P (S fuel) labels visited pos next ews fl (Err e)) →
  (∀ fuel labels visited pos next ews (fl : bool),
    packet !! pos = Some x00 → (if fl then True else (pos < encoded_end)%nat) →
    P (S fuel) labels visited pos next ews fl (Val (labels, if fl then next else (pos + 1)%nat))) →
  (∀ fuel labels visited pos next ews (fl : bool) hi lo,
    packet !! pos = Some hi → packet !! (pos + 1)%nat = Some lo → 192 ≤ b2z hi →
    (length visited < maximum_compression_pointers limits)%nat →
    (if fl then True else (pos + 1 < encoded_end)%nat) →
    let pointer := Z.to_nat ((b2z hi - 192) * 256 + b2z lo) in
    let next' := if fl then next else (pos + 2)%nat in
    P fuel labels (visited ++ [pointer]) pointer next' ews true
      (loop fuel labels (visited ++ [pointer]) pointer next' ews true) →
    P (S fuel) labels visited pos next ews fl
      (loop fuel labels (visited ++ [pointer]) pointer next' ews true)) →
  (∀ fuel labels visited pos next ews (fl : bool) b,
    packet !! pos = Some b → 1 ≤ b2z b ≤ 63 →
    let n := Z.to_nat (b2z b) in
    (pos + 1 + n ≤ length packet)%nat → (if fl then True else (pos + 1 + n ≤ encoded_end)%nat) →
    (ews + (n + 1) ≤ 255)%nat →
    let labels' := labels ++ [take n (drop (pos + 1) packet)] in
    let next' := if fl then next else (pos + 1 + n)%nat in
    P fuel labels' visited (pos + 1 + n)%nat next' (ews + (n + 1))%nat fl
      (loop fuel labels' visited (pos + 1 + n) next' (ews + (n + 1)) fl) →
    P (S fuel) labels visited pos next ews fl
      (loop fuel labels' visited (pos + 1 + n) next' (ews + (n + 1)) fl)) →
  ∀ fuel labels visited pos next ews fl,
    P fuel labels visited pos next ews fl (loop fuel labels visited pos next ews fl).
Proof.
  intros H0 Herr Hroot Hptr Hlab fuel.
  induction fuel as [|fuel IH]; intros labels visited pos next ews fl; [apply H0 |].
  cbn -[Nat.leb Nat.ltb Nat.sub Nat.add Z.land Z.shiftl Z.lor].
  destruct (Nat.leb_spec (length packet) pos) as [|Hpos]; [apply Herr |].
  destruct (negb fl && (encoded_end <=? pos)%nat) eqn:Efl; [apply Herr |].
  destruct (Facts.byte_at_lt (E := ParseError) packet pos Hpos) as (b & Hb & Hat).
  rewrite Hat. cbn -[Nat.leb Nat.ltb Nat.sub Nat.add Z.land Z.shiftl Z.lor]. clear Hat.
  pose proof (b2z_range b) as Hr.
  destruct (land_c0_cases b) as (Hc0 & Hz & Hlow). cbv zeta in Hc0, Hz, Hlow. rewrite Hc0, Hz.
  destruct (Z.eqb_spec (b2z b) 0) as [Hb0 | Hb0].
  { replace (if negb fl then (pos + 1)%nat else next) with (if fl then next else (pos + 1)%nat)
      by by destruct fl.
    apply Hroot; [rewrite Hb; f_equal; by apply b2z_inj |]. destruct fl; [done |]. simpl in Efl. bool_hyps. lia. }
  destruct (Z.leb_spec 192 (b2z b)) as [Hge | Hlt].
  - destruct ((length packet <=? pos + 1)%nat || (negb fl && (encoded_end <=? pos + 1)%nat)) eqn:E1; [apply Herr |].
    bool_hyps.
    destruct (Facts.byte_at_lt (E := ParseError) packet (pos + 1)) as (lo & Hlo & Hat); [lia |].
    rewrite Hat. cbn -[Nat.leb Nat.ltb Nat.sub Nat.add Z.land Z.shiftl Z.lor]. clear Hat.
    rewrite Hlow, Facts.be16_add by (done || apply b2z_range).
    repeat (case_match; [apply Herr |]).
    replace (if negb fl then (pos + 2)%nat else next) with (if fl then next else (pos + 2)%nat)
      by by destruct fl.
    bool_hyps. apply (Hptr fuel labels visited pos next ews fl b lo); try done; try apply IH.
    destruct fl; [done |]. simpl in *. bool_hyps. lia.
  - destruct (Z.ltb_spec (b2z b) 64) as [Hs | Hs]; simpl negb; [| apply Herr].
    cbv iota. destruct (Z.of_nat kMaxLabelSize <? b2z b); [apply Herr |].
    match goal with |- context [if ?c then _ else _] => destruct c eqn:E2 end; [apply Herr |].
    match goal with |- context [if ?c then _ else _] => destruct c eqn:E3 end; [apply Herr |].
    unfold kMaxDomainWireSize in E3. bool_hyps.
    replace (if negb fl then (pos + 1 + Z.to_nat (b2z b))%nat else next)
      with (if fl then next else (pos + 1 + Z.to_nat (b2z b))%nat) by by destruct fl.
    apply (Hlab fuel labels visited pos next ews fl b); try done; try lia; try apply IH.
    destruct fl; [done |]. simpl in *. bool_hyps. lia.
Qed.

(** Each iteration consumes a byte of the 255-byte name budget or a pointer, so
    the fuel of [decode_name] is enough: the loop ends, and no read leaves the
    packet. *)
Lemma decode_loop_defined fuel labels visited pos next ews fl :
  (255 - ews + (maximum_compression_pointers limits - length visited) < fuel)%nat →
  defined (loop fuel labels visited pos next ews fl).
Proof.
  apply (decode_loop_ind (λ fuel labels visited pos next ews fl o,
    (255 - ews + (maximum_compression_pointers limits - length visited) < fuel)%nat → defined o));
    clear; try done; intros; try lia.
  - apply H4. rewrite length_app. simpl. lia.
  - apply H4. lia.
Qed.

Lemma decode_loop_ok fuel labels visited pos next ews fl r :
  (1 ≤ ews)%nat →
  loop fuel labels visited pos next ews fl = Val r →
  ∃ added, r.1 = labels ++ added ∧ decoded_ok packet encoded_end pos ews fl next added r.2.
Proof.
  revert r. apply (decode_loop_ind (λ fuel labels visited pos next ews fl o, ∀ r, (1 ≤ ews)%nat → o = Val r →
    ∃ added, r.1 = labels ++ added ∧ decoded_ok packet encoded_end pos ews fl next added r.2));
    clear; try done.
  - intros fuel labels visited pos next ews fl Hb Hfl r Hews [= Hr]; subst r. simpl. exists [].
    rewrite app_nil_r. split; [done |]. constructor; [by constructor | by constructor | by right |].
    destruct fl; [done |]. apply lookup_lt_Some in Hb. lia.
  - intros fuel labels visited pos next ews fl hi lo Hhi Hlo Hge Hn Hfl pointer next' IH r Hews Hr.
    destruct (IH r Hews Hr) as (added & Hadd & [He Hl Hs Hx]). exists added. split; [done |].
    constructor; [by eapply encodes_pointer | done | done |].
    apply lookup_lt_Some in Hlo. simpl in Hx. rewrite Hx. unfold next'. destruct fl; [done | lia].
  - intros fuel labels visited pos next ews fl b Hb Hr63 n Hlen Hfl Hews labels' next' IH r Hews1 Hr.
    destruct (IH r ltac:(lia) Hr) as (added & Hadd & [He Hl Hs Hx]).
    set (label := take n (drop (pos + 1) packet)) in *.
    assert (length label = n) as Hn by (unfold label; rewrite length_take, length_drop; lia).
    exists (label :: added). split; [by rewrite Hadd; unfold labels'; rewrite <- app_assoc |].
    constructor.
    + apply (encodes_label _ _ b); try done; rewrite Hn; done.
    + constructor; [unfold label_ok; lia | done].
    + left. rewrite labels_size_cons, Hn. destruct Hs as [Hs | ->]; [lia |]. change (labels_size []) with 0%nat. lia.
    + destruct fl; [done | lia].
Qed.

End DecodeLoop.

(** ** Decoding a name *)
Lemma decode_name_defined packet start encoded_end limits :
  defined (decode_name packet start encoded_end limits).
Proof.
  unfold decode_name. apply bind_defined.
  - apply decode_loop_defined. unfold decode_fuel, kMaxDomainWireSize. simpl. lia.
  - intros [labels next] _. pose proof (from_labels_defined labels).
    destruct (from_labels labels) as [| e |]; [done | by destruct (code e) | done].
Qed.

(** A decoded name is valid, is spelled by the packet, and its encoding ends
    inside the region it was looked for in. *)
Lemma decode_name_ok packet start encoded_end limits d :
  decode_name packet start encoded_end limits = Val d →
  valid (name d) ∧ encodes packet start (labels_ (name d)) ∧
  (start < next_offset d ≤ encoded_end ∧ next_offset d ≤ length packet)%nat.
Proof.
  unfold decode_name. intros ([labels next] & Hl & Hf)%bind_val.
  apply decode_loop_ok in Hl as (added & Hadd & [He Hok Hs Hn]); [| lia]. simpl in Hadd, Hn. subst labels.
  destruct (from_labels added) as [n | e |] eqn:En; [| by destruct (code e) | done].
  injection Hf as <-. simpl. rewrite (from_labels_labels _ _ En). split_and!; try lia.
  - by eapply from_labels_valid.
  - done.
Qed.

(** The error switch after the loop is dead code: the loop only produces labels
    that [from_labels] accepts. *)
Lemma decode_name_error packet start encoded_end limits e :
  decode_name packet start encoded_end limits = Err e →
  decode_name_loop (decode_fuel limits) packet encoded_end limits [] [] start start 1 false = Err e.
Proof.
  unfold decode_name.
  destruct (decode_name_loop _ _ _ _ _ _ _ _ _ _) as [[labels next] | e' |] eqn:Hl; simpl; [| by intros [= ->] | done].
  apply decode_loop_ok in Hl as (added & Hadd & [He Hok Hs Hn]); [| lia]. simpl in Hadd. subst labels.
  assert (from_labels added = Val (mkDomainName added (1 + labels_size added) (canonical_encoding added))) as ->.
  { apply from_labels_spec. split_and!; try done. destruct Hs as [|Hs]; [lia |]. subst added.
    change (labels_size []) with 0%nat. lia. }
  done.
Qed.

(** ** Reads at the cursor *)
Lemma require_read_cases n f r :
  Facts.reads_within n f →
  require_read (f ParseError r) =
    parse_failure ParseErrorCode.UnexpectedEnd (WireReader.offset_ r) ∨
  ∃ v, require_read (f ParseError r) =
         Val (v, WireReader.mk (WireReader.bytes_ r) (WireReader.offset_ r + n)) ∧
       0 ≤ v < 256 ^ Z.of_nat n ∧ (WireReader.offset_ r + n ≤ length (WireReader.bytes_ r))%nat.
Proof.
  intros Hf. destruct (Hf ParseError r) as [[-> _] | (v & -> & Hv)]; [by left | right].
  by exists v.
Qed.

Lemma read_u16_cases r :
  require_read (WireReader.read_u16 r) =
    parse_failure ParseErrorCode.UnexpectedEnd (WireReader.offset_ r) ∨
  ∃ v, require_read (WireReader.read_u16 r) =
         Val (v, WireReader.mk (WireReader.bytes_ r) (WireReader.offset_ r + 2)) ∧
       u16 v ∧ (WireReader.offset_ r + 2 ≤ length (WireReader.bytes_ r))%nat.
Proof. apply (require_read_cases 2 (@WireReader.read_u16)), Facts.read_u16_within. Qed.

Lemma read_u32_cases r :
  require_read (WireReader.read_u32 r) =
    parse_failure ParseErrorCode.UnexpectedEnd (WireReader.offset_ r) ∨
  ∃ v, require_read (WireReader.read_u32 r) =
         Val (v, WireReader.mk (WireReader.bytes_ r) (WireReader.offset_ r + 4)) ∧
       u32 v ∧ (WireReader.offset_ r + 4 ≤ length (WireReader.bytes_ r))%nat.
Proof. apply (require_read_cases 4 (@WireReader.read_u32)), Facts.read_u32_within. Qed.

(** Run the reads of the goal one by one; the failing branch is left to [tac]. *)
Ltac run_reads tac :=
  repeat match goal with
  | |- context [require_read (WireReader.read_u16 ?r)] =>
      let v := fresh "v" in let E := fresh "E" in let Hv := fresh "Hv" in let Hb := fresh "Hb" in
      destruct (read_u16_cases r) as [E | (v & E & Hv & Hb)]; rewrite E;
      [tac | cbn [mbind outcome_bind WireReader.bytes_ WireReader.offset_] in *; clear E]
  | |- context [require_read (WireReader.read_u32 ?r)] =>
      let v := fresh "v" in let E := fresh "E" in let Hv := fresh "Hv" in let Hb := fresh "Hb" in
      destruct (read_u32_cases r) as [E | (v & E & Hv & Hb)]; rewrite E;
      [tac | cbn [mbind outcome_bind WireReader.bytes_ WireReader.offset_] in *; clear E]
  end.

(** ** Records and sections: no undefined behaviour *)
Lemma scan_strings_defined fuel packet cursor rdata_end count :
  (rdata_end ≤ length packet)%nat → (rdata_end - cursor < fuel)%nat →
  defined (scan_strings fuel packet cursor rdata_end count).
Proof.
  revert cursor count. induction fuel as [|fuel IH]; intros cursor count Hend Hfuel; [lia |].
  cbn -[Nat.ltb Nat.sub]. destruct (Nat.ltb_spec cursor rdata_end) as [Hc | Hc]; [| done].
  destruct (Facts.byte_at_lt (E := ParseError) packet cursor) as (b & _ & ->); [lia |].
  cbn -[Nat.ltb Nat.sub]. case_match; [done |]. apply IH; lia.
Qed.

Lemma validate_single_name_defined packet limits a b :
  defined (validate_single_name packet limits a b).
Proof.
  apply bind_defined; [apply decode_name_defined |]. intros d _. by case_match.
Qed.

Lemma validate_rdata_defined packet limits type len off end_ :
  (end_ ≤ length packet)%nat → defined (validate_rdata packet limits type len off end_).
Proof.
  intros Hend. unfold validate_rdata, validate_character_strings, validate_text_strings.
  destruct (record_type_of type) as [[]|]; try done;
    repeat first
      [ apply validate_single_name_defined
      | apply decode_name_defined
      | apply scan_strings_defined; lia
      | apply bind_defined; [| intros ? _]
      | case_match; [done |]
      | done
      | by case_match ].
Qed.

Lemma parse_resource_record_defined packet offset limits :
  defined (parse_resource_record packet offset limits).
Proof.
  unfold parse_resource_record. apply bind_defined; [apply decode_name_defined |].
  intros d Hd. apply decode_name_ok in Hd as (_ & _ & _ & Hn).
  run_reads ltac:(done).
  match goal with |- context [WireReader.read_bytes ?n ?r] =>
    destruct (Facts.read_bytes_cases n r) as [[-> _] | [-> Hle]] end; [done |].
  cbn [WireReader.offset_ WireReader.bytes_] in *.
  apply bind_defined; [apply validate_rdata_defined; lia | done].
Qed.

Lemma parse_question_defined packet offset limits : defined (parse_question packet offset limits).
Proof.
  unfold parse_question. apply bind_defined; [apply decode_name_defined |].
  intros d _. by run_reads ltac:(done).
Qed.

Lemma parse_section_defined {Item} n (parser : nat → outcome ParseError (Item * nat)) offset :
  (∀ o, defined (parser o)) → defined (parse_section n parser offset).
Proof.
  intros Hp. revert offset. induction n as [|n IH]; intros offset; [done |].
  apply bind_defined; [done |]. intros [i o] _. apply bind_defined; [done |]. by intros [its o'] _.
Qed.

(** ** Records and sections: what they contain *)
Record record_ok (packet : list byte) (offset : nat) (r : ResourceRecord) (offset' : nat) : Prop := {
  rok_fits : record_fits r;
  rok_name : encodes packet offset (labels_ (rname r));
  rok_rdata : rdata r = take (length (rdata r)) (drop (rdata_offset r) packet);
  rok_before : (offset < rdata_offset r)%nat;
  rok_end : offset' = (rdata_offset r + length (rdata r))%nat;
  rok_bound : (offset' ≤ length packet)%nat;
  rok_a : rtype r = record_type_value A → length (rdata r) = 4%nat;
  rok_aaaa : rtype r = record_type_value AAAA → length (rdata r) = 16%nat;
}.

Lemma validate_rdata_address packet limits type len off end_ u :
  validate_rdata packet limits type len off end_ = Val u →
  (type = record_type_value A → len = 4) ∧ (type = record_type_value AAAA → len = 16).
Proof.
  unfold validate_rdata. intros H.
  split; intros ->; rewrite record_type_of_value in H;
    [destruct (Z.eqb_spec len 4) | destruct (Z.eqb_spec len 16)]; done.
Qed.

Lemma parse_resource_record_ok packet offset limits r offset' :
  parse_resource_record packet offset limits = Val (r, offset') → record_ok packet offset r offset'.
Proof.
  unfold parse_resource_record. intros (d & Hd & H)%bind_val.
  apply decode_name_ok in Hd as (Hv & He & Hs & Hn). revert H.
  run_reads ltac:(done).
  match goal with |- context [WireReader.read_bytes ?n ?r] =>
    destruct (Facts.read_bytes_cases n r) as [[-> _] | [-> Hle]] end; [done |].
  cbn [WireReader.offset_ WireReader.bytes_] in *.
  intros (u & Hval & [= <- <-])%bind_val. apply validate_rdata_address in Hval as [Ha Haaaa].
  unfold u16, u32 in *.
  match goal with |- context [take ?n (drop ?o packet)] =>
    assert (length (take n (drop o packet)) = n) as Hlen by (rewrite length_take, length_drop; lia) end.
  constructor; cbn [rname rtype record_class ttl rdata_offset rdata]; rewrite ?Hlen;
    first [done | lia | by split_and! | by intros ->%Ha | by intros ->%Haaaa].
Qed.

Lemma parse_question_ok packet offset limits q offset' :
  parse_question packet offset limits = Val (q, offset') →
  question_fits q ∧ encodes packet offset (labels_ (qname q)) ∧ (offset < offset' ≤ length packet)%nat.
Proof.
  unfold parse_question. intros (d & Hd & H)%bind_val.
  apply decode_name_ok in Hd as (Hv & He & Hs & Hn). revert H.
  run_reads ltac:(done). intros [= <- <-]. cbn [qname]. split_and!; try done; lia.
Qed.

Lemma parse_section_ok {Item} n (parser : nat → outcome ParseError (Item * nat)) (P : Item → Prop) bound offset items offset' :
  (∀ o i o', parser o = Val (i, o') → P i ∧ (o < o' ≤ bound)%nat) →
  parse_section n parser offset = Val (items, offset') →
  length items = n ∧ Forall P items ∧ (offset + n ≤ offset')%nat ∧ (offset ≤ bound → offset' ≤ bound)%nat.
Proof.
  intros Hp. revert offset items. induction n as [|n IH]; intros offset items H; simpl in H.
  - injection H as <- <-. split_and!; [done | done | lia | done].
  - apply bind_val in H as ([i o] & Hi & ([its o'] & His & [= <- <-])%bind_val).
    apply Hp in Hi as (HP & Hlt). apply IH in His as (Hlen & Hall & Hle & Hb).
    split_and!; [by simpl; rewrite Hlen | by constructor | lia | lia].
Qed.

(** ** Messages *)
Lemma decode_flags_fits i flags : u16 i → u16 flags → header_fits (decode_flags i flags).
Proof.
  intros Hi Hf. unfold header_fits, decode_flags. cbn [id opcode response_code].
  change 15 with (Z.ones 4). rewrite !Z.land_ones by lia.
  split_and!; try done; apply Z.mod_pos_bound; lia.
Qed.

(** What the parser promises of a message it accepts. *)
Record message_ok (packet : list byte) (limits : ParseLimits) (m : Message) : Prop := {
  mok_image : wire_image m = packet;
  mok_size : (length packet ≤ maximum_packet_size limits)%nat;
  mok_header : header_fits (header m);
  mok_questions : Forall question_fits (questions m);
  mok_question_count : (length (questions m) ≤ maximum_questions limits)%nat;
  mok_records : Forall record_fits (answers m ++ authorities m ++ additionals m);
  mok_record_count :
    (length (answers m) + length (authorities m) + length (additionals m) ≤ maximum_total_records limits)%nat;
  mok_rdata : Forall (λ r, rdata r = take (length (rdata r)) (drop (rdata_offset r) packet) ∧
                           (rdata_offset r + length (rdata r) ≤ length packet)%nat)
                (answers m ++ authorities m ++ additionals m);
  mok_addresses : Forall (λ r, (rtype r = record_type_value A → length (rdata r) = 4%nat) ∧
                               (rtype r = record_type_value AAAA → length (rdata r) = 16%nat))
                    (answers m ++ authorities m ++ additionals m);
}.

(** The section facts in one predicate, so that one section lemma serves all three. *)
Definition parsed_record (packet : list byte) (r : ResourceRecord) : Prop :=
  record_fits r ∧
  (rdata r = take (length (rdata r)) (drop (rdata_offset r) packet) ∧
   (rdata_offset r + length (rdata r) ≤ length packet)%nat) ∧
  (rtype r = record_type_value A → length (rdata r) = 4%nat) ∧
  (rtype r = record_type_value AAAA → length (rdata r) = 16%nat).

Lemma record_section_ok packet limits n offset items offset' :
  parse_section n (λ o, parse_resource_record packet o limits) offset = Val (items, offset') →
  length items = n ∧ Forall (parsed_record packet) items.
Proof.
  intros H. apply (parse_section_ok n _ (parsed_record packet) (length packet)) in H as (? & ? & _); [done |].
  intros o r o' [Hfits _ Hrd Hbef Hend Hb Ha Haaaa]%parse_resource_record_ok.
  split; [split_and!; try done; lia | lia].
Qed.

(** A message whose twelve header bytes and sections all parsed. *)
Lemma parse_message_inv packet limits m :
  parse_message packet limits = Val m →
  message_ok packet limits m.
Proof.
  unfold parse_message. destruct (Nat.ltb_spec (maximum_packet_size limits) (length packet)) as [|Hsize]; [done |].
  run_reads ltac:(done).
  destruct (Z.ltb_spec (Z.of_nat (maximum_questions limits)) v1) as [|Hq]; [done |].
  match goal with |- context [if ?c then _ else _] => destruct c eqn:Hsec; [done |] end.
  match goal with |- context [if ?c then _ else _] => destruct c eqn:Htot; [done |] end.
  intros ([qs o1] & Hqs & ([an o2] & Han & ([au o3] & Hau & ([ad o4] & Had & H)%bind_val)%bind_val)%bind_val)%bind_val.
  case_match; [done |]. injection H as <-. bool_hyps.
  apply (parse_section_ok _ _ question_fits (length packet)) in Hqs as (Hql & Hqf & _);
    [| intros o q o' (? & _ & ?)%parse_question_ok; split; [done | lia]].
  apply record_section_ok in Han as [Hanl Han], Hau as [Haul Hau], Had as [Hadl Had].
  assert (Forall (parsed_record packet) (an ++ au ++ ad)) as Hall by (by rewrite !Forall_app).
  unfold u16 in *.
  constructor; cbn [wire_image header questions answers authorities additionals]; try done; try lia.
  - by apply decode_flags_fits.
  - eapply Forall_impl; [| exact Hall]. by intros r (? & _).
  - eapply Forall_impl; [| exact Hall]. by intros r (_ & ? & _).
  - eapply Forall_impl; [| exact Hall]. by intros r (_ & _ & ?).
Qed.

Lemma parse_message_defined packet limits : defined (parse_message packet limits).
Proof.
  unfold parse_message. case_match; [done |].
  run_reads ltac:(done). repeat (case_match; [done |]).
  repeat (apply bind_defined;
    [apply parse_section_defined; intros; first [apply parse_question_defined | apply parse_resource_record_defined]
    | intros [? ?] _]).
  by case_match.
Qed.

Lemma require_u16_bytes pre b0 b1 rest off :
  off = length pre →
  require_read (WireReader.read_u16 (WireReader.mk (pre ++ b0 :: b1 :: rest) off)) =
  Val (b2z b0 * 256 + b2z b1, WireReader.mk (pre ++ b0 :: b1 :: rest) (off + 2)).
Proof.
  intros ->. unfold require_read, WireReader.read_u16, WireReader.remaining, WireReader.byte_at.
  cbn [WireReader.bytes_ WireReader.offset_]. rewrite length_app. cbn [length].
  rewrite (proj2 (Nat.leb_le _ _)) by lia. rewrite (proj2 (Nat.ltb_ge _ _)) by lia.
  rewrite (list_lookup_middle pre _ b0 (length pre)), (lookup_app_plus pre _ 1) by done.
  cbn [lookup list_lookup from_option_ub mbind outcome_bind].
  by rewrite Facts.be16_add by apply b2z_range.
Qed.

(** The header of a parsed message is what its first four bytes say. *)
Lemma parse_message_prefix packet limits m :
  parse_message packet limits = Val m →
  ∃ b0 b1 b2 b3 rest, packet = b0 :: b1 :: b2 :: b3 :: rest ∧
    header m = decode_flags (b2z b0 * 256 + b2z b1) (b2z b2 * 256 + b2z b3).
Proof.
  unfold parse_message. case_match; [done |]. intros Hm.
  destruct packet as [| b0 [| b1 [| b2 [| b3 rest]]]];
    try (exfalso; revert Hm; run_reads ltac:(done); cbn [length WireReader.bytes_ WireReader.offset_] in *; lia).
  exists b0, b1, b2, b3, rest. split; [done |]. revert Hm.
  rewrite (require_u16_bytes [] b0 b1 (b2 :: b3 :: rest)) by done. cbn [mbind outcome_bind].
  rewrite (require_u16_bytes [b0; b1] b2 b3 rest) by done. cbn [mbind outcome_bind].
  run_reads ltac:(done). repeat (case_match; [done |]).
  intros ([qs o1] & Hqs & ([an o2] & Han & ([au o3] & Hau & ([ad o4] & Had & H')%bind_val)%bind_val)%bind_val)%bind_val.
  case_match; [done |]. by injection H' as <-.
Qed.

Section Properties.

(** C18: the parser is total and memory safe on every byte string and under every
    limit record: it always returns a message or an error, no indexed read
    leaves the packet and no chain of compression pointers makes it loop, even
    with forward pointers allowed. *)
Theorem parse_message_safe packet limits : defined (parse_message packet limits).
Proof. apply parse_message_defined. Qed.


(** A query for [a] type A: header with RD, one question. *)
Definition sample_query : list byte :=
  [x12; x34; x01; x00; x00; x01; x00; x00; x00; x00; x00; x00; x01; x61; x00; x00; x01; x00; x01].


(** Name decompression is faithful: a name the decoder returns is valid, is
    the name the packet spells at that offset (labels and compression pointers
    followed), and its encoded form ends inside the region given to the
    decoder. *)
Theorem decode_name_sound packet start encoded_end limits d :
  decode_name packet start encoded_end limits = Val d →
  valid (name d) ∧ encodes packet start (labels_ (name d)) ∧
  (start < next_offset d ≤ encoded_end)%nat ∧ (next_offset d ≤ length packet)%nat.
Proof. intros H%decode_name_ok. tauto. Qed.

Lemma decode_name_sound_witness :
  ∃ d, decode_name sample_query 12 (length sample_query) default_limits = Val d ∧
       valid (name d) ∧ encodes sample_query 12 (labels_ (name d)) ∧
       (12 < next_offset d ≤ length sample_query)%nat ∧ (next_offset d ≤ length sample_query)%nat.
Proof.
  eexists. split; [vm_compute; reflexivity |].
  apply (decode_name_sound sample_query 12 (length sample_query) default_limits).
  vm_compute. reflexivity.
Defined.

End Properties.
