(* ===== verification/DnsWriter.v ===== *)
(** * Message construction ([protocol/DnsWriter.h], [protocol/DnsWriter.cpp])

    All builders go through [write_question_message] or
    [write_address_message]; a message is returned whole or not at all. *)
From S2P Require Import Prelude Wire DomainName DnsMessage.
From Stdlib Require Import Strings.Byte.

Module WriteErrorCode.
Inductive WriteErrorCode :=
  | MessageTooLarge | TooManyQuestions | TooManyAnswers | InvalidOpcode | InvalidResponseCode
  | InvalidMaximumSize | ExpectedQuery | MissingTransactionId | WrongQuestionCount
  | UnsupportedAddressType | InvalidAddressLength | MissingAnswers.
End WriteErrorCode.

#[export] Instance write_error_eq_dec : EqDecision WriteErrorCode.WriteErrorCode.
Proof. solve_decision. Defined.

Record WriteError := mkWriteError { we_code : WriteErrorCode.WriteErrorCode }.

Definition write_failure {X} (code : WriteErrorCode.WriteErrorCode) : outcome WriteError X :=
  Err (mkWriteError code).

Definition flag (b : bool) (mask : Z) : Z := if b then mask else 0.

Definition encode_flags (h : Header) : outcome WriteError Z :=
  if 15 <? opcode h then write_failure WriteErrorCode.InvalidOpcode
  else if 15 <? response_code h then write_failure WriteErrorCode.InvalidResponseCode
  else
    let flags := 0 in
    let flags := Z.lor flags (flag (is_response h) 0x8000) in
    let flags := Z.lor flags (Z.shiftl (opcode h) 11) in
    let flags := Z.lor flags (flag (authoritative_answer h) 0x0400) in
    let flags := Z.lor flags (flag (truncated h) 0x0200) in
    let flags := Z.lor flags (flag (recursion_desired h) 0x0100) in
    let flags := Z.lor flags (flag (recursion_available h) 0x0080) in
    let flags := Z.lor flags (flag (reserved_z h) 0x0040) in
    let flags := Z.lor flags (flag (authenticated_data h) 0x0020) in
    let flags := Z.lor flags (flag (checking_disabled h) 0x0010) in
    let flags := Z.lor flags (response_code h) in
    Val flags.

Fixpoint write_labels (labels : list (list byte)) (w : WireWriter.WireWriter) : option WireWriter.WireWriter :=
  match labels with
  | [] => Some w
  | label :: rest =>
      w ← WireWriter.write_u8 (Z.of_nat (length label)) w;
      w ← WireWriter.write_bytes label w;
      write_labels rest w
  end.

Definition write_name (n : DomainName) (w : WireWriter.WireWriter) : option WireWriter.WireWriter :=
  w ← write_labels (labels_ n) w;
  WireWriter.write_u8 0 w.

Definition write_question (q : Question) (w : WireWriter.WireWriter) : option WireWriter.WireWriter :=
  w ← write_name (qname q) w;
  w ← WireWriter.write_u16 (qtype q) w;
  WireWriter.write_u16 (question_class q) w.

(** A loop of writes over a list, stopping at the first failure. *)
Fixpoint write_all {X} (write : X → WireWriter.WireWriter → option WireWriter.WireWriter) (xs : list X)
    (w : WireWriter.WireWriter) : option WireWriter.WireWriter :=
  match xs with
  | [] => Some w
  | x :: xs => w ← write x w; write_all write xs w
  end.

Definition write_header (id flags qd an ns ar : Z) (w : WireWriter.WireWriter) : option WireWriter.WireWriter :=
  w ← WireWriter.write_u16 id w;
  w ← WireWriter.write_u16 flags w;
  w ← WireWriter.write_u16 qd w;
  w ← WireWriter.write_u16 an w;
  w ← WireWriter.write_u16 ns w;
  WireWriter.write_u16 ar w.

(** [if (!writer...) return MessageTooLarge; ... return take()]. *)
Definition finish_message (w : option WireWriter.WireWriter) : outcome WriteError (list byte) :=
  match w with
  | Some w => Val (WireWriter.take_written w)
  | None => write_failure WriteErrorCode.MessageTooLarge
  end.

Definition write_question_message (h : Header) (questions : list Question) (maximum_size : nat)
    : outcome WriteError (list byte) :=
  if 65535 <? Z.of_nat maximum_size then write_failure WriteErrorCode.InvalidMaximumSize
  else if 65535 <? Z.of_nat (length questions) then write_failure WriteErrorCode.TooManyQuestions
  else
  flags ← encode_flags h;
  finish_message (
    w ← write_header (id h) flags (Z.of_nat (length questions)) 0 0 0 (WireWriter.make_writer maximum_size);
    write_all write_question questions w).

(** One answer of [write_address_message]; its owner name is a pointer to the
    question, which starts at offset 12. *)
Definition write_answer (q : Question) (ttl : Z) (answer : list byte) (w : WireWriter.WireWriter)
    : option WireWriter.WireWriter :=
  w ← WireWriter.write_u16 0xc00c w;
  w ← WireWriter.write_u16 (qtype q) w;
  w ← WireWriter.write_u16 (question_class q) w;
  w ← WireWriter.write_u32 ttl w;
  w ← WireWriter.write_u16 (Z.of_nat (length answer)) w;
  WireWriter.write_bytes answer w.

Definition expected_address_size (type : Z) : option nat :=
  if type =? record_type_value A then Some 4%nat
  else if type =? record_type_value AAAA then Some 16%nat
  else None.

Definition write_address_message (h : Header) (q : Question) (answers : list (list byte)) (ttl : Z)
    (maximum_size : nat) : outcome WriteError (list byte) :=
  if 65535 <? Z.of_nat maximum_size then write_failure WriteErrorCode.InvalidMaximumSize
  else if (length answers =? 0)%nat then write_failure WriteErrorCode.MissingAnswers
  else if 65535 <? Z.of_nat (length answers) then write_failure WriteErrorCode.TooManyAnswers
  else
  match expected_address_size (qtype q) with
  | None => write_failure WriteErrorCode.UnsupportedAddressType
  | Some expected_size =>
      if existsb (λ answer, negb (length answer =? expected_size)%nat) answers
      then write_failure WriteErrorCode.InvalidAddressLength
      else
      flags ← encode_flags h;
      finish_message (
        w ← write_header (id h) flags 1 (Z.of_nat (length answers)) 0 0 (WireWriter.make_writer maximum_size);
        w ← write_question q w;
        write_all (write_answer q ttl) answers w)
  end.

Definition serialize_query (h : Header) (questions : list Question) (maximum_size : nat)
    : outcome WriteError (list byte) :=
  if is_response h then write_failure WriteErrorCode.ExpectedQuery
  else
    let query_header :=
      mkHeader (id h) (is_response h) (opcode h) false false (recursion_desired h) false (reserved_z h)
        (authenticated_data h) (checking_disabled h) (response_code_value NoError) in
    write_question_message query_header questions maximum_size.

Definition rewrite_transaction_id (packet : list byte) (transaction_id : Z) : outcome WriteError (list byte) :=
  if (length packet <? 2)%nat then write_failure WriteErrorCode.MissingTransactionId
  else Val (<[1%nat := z2b (Z.land transaction_id 255)]>
             (<[0%nat := z2b (Z.land (Z.shiftr transaction_id 8) 255)]> packet)).

(** The header of a local response: the request's ID, opcode, RD and CD. *)
Definition response_header (request : Header) (recursion_available : bool) (code : ResponseCode) : Header :=
  mkHeader (id request) true (opcode request) false false (recursion_desired request) recursion_available
    false false (checking_disabled request) (response_code_value code).

Definition make_error_response (request : Message) (code : ResponseCode) (recursion_available : bool)
    (maximum_size : nat) : outcome WriteError (list byte) :=
  if is_response (header request) then write_failure WriteErrorCode.ExpectedQuery
  else
    let h := response_header (header request) recursion_available code in
    let response := write_question_message h (questions request) maximum_size in
    match response with
    | Err e =>
        if bool_decide (we_code e = WriteErrorCode.MessageTooLarge)
        then write_question_message h [] maximum_size
        else response
    | _ => response
    end.

(** The header fields recoverable from a request prefix. *)
Definition prefix_header (request_prefix : list byte) (code : ResponseCode) (recursion_available : bool)
    : outcome WriteError Header :=
  b0 ← WireReader.byte_at request_prefix 0;
  b1 ← WireReader.byte_at request_prefix 1;
  let id := Z.lor (Z.shiftl b0 8) b1 in
  '(opcode, rd) ←
    (if (3 <=? length request_prefix)%nat then
       high_flags ← WireReader.byte_at request_prefix 2;
       if negb (Z.land high_flags 0x80 =? 0) then write_failure WriteErrorCode.ExpectedQuery
       else Val (Z.land (Z.shiftr high_flags 3) 15, negb (Z.land high_flags 1 =? 0))
     else Val (opcode_value Query, false));
  cd ←
    (if (4 <=? length request_prefix)%nat then
       low_flags ← WireReader.byte_at request_prefix 3;
       Val (negb (Z.land low_flags 0x10 =? 0))
     else Val false);
  Val (mkHeader id true opcode false false rd recursion_available false false cd (response_code_value code)).

Definition make_header_only_error_response (request_prefix : list byte) (code : ResponseCode)
    (recursion_available : bool) (maximum_size : nat) : outcome WriteError (list byte) :=
  if (length request_prefix <? 2)%nat then write_failure WriteErrorCode.MissingTransactionId
  else
    h ← prefix_header request_prefix code recursion_available;
    write_question_message h [] maximum_size.

Definition make_format_error_response (malformed_request : list byte) (recursion_available : bool)
    (maximum_size : nat) : outcome WriteError (list byte) :=
  make_header_only_error_response malformed_request FormErr recursion_available maximum_size.

Definition make_address_response (request : Message) (answers : list (list byte)) (ttl : Z)
    (recursion_available : bool) (maximum_size : nat) : outcome WriteError (list byte) :=
  if is_response (header request) then write_failure WriteErrorCode.ExpectedQuery
  else if negb (length (questions request) =? 1)%nat then write_failure WriteErrorCode.WrongQuestionCount
  else
    q ← from_option_ub (head (questions request));
    write_address_message (response_header (header request) recursion_available NoError) q answers ttl maximum_size.

(** ** The bytes each writer appends *)
Import WriterFacts.

Definition name_bytes (labels : list (list byte)) : list byte :=
  flat_map (λ label, z2b (Z.of_nat (length label)) :: label) labels ++ [x00].

Definition question_bytes (q : Question) : list byte :=
  name_bytes (labels_ (qname q)) ++ enc 2 (qtype q) ++ enc 2 (question_class q).

Definition header_bytes (id flags qd an ns ar : Z) : list byte :=
  enc 2 id ++ enc 2 flags ++ enc 2 qd ++ enc 2 an ++ enc 2 ns ++ enc 2 ar.

Definition answer_bytes (q : Question) (ttl : Z) (answer : list byte) : list byte :=
  enc 2 0xc00c ++ enc 2 (qtype q) ++ enc 2 (question_class q) ++ enc 4 ttl ++
  enc 2 (Z.of_nat (length answer)) ++ answer.

#[export] Hint Resolve field_appends write_bytes_appends bind_appends ret_appends : outcome.

Lemma write_labels_appends labels :
  appends (flat_map (λ label, z2b (Z.of_nat (length label)) :: label) labels) (write_labels labels).
Proof.
  induction labels as [|l ls IH]; [apply ret_appends |].
  change (flat_map _ (l :: ls)) with
    ((enc 1 (Z.of_nat (length l)) ++ l) ++ flat_map (λ label, z2b (Z.of_nat (length label)) :: label) ls).
  rewrite <- app_assoc. apply bind_appends; [apply field_appends |].
  apply bind_appends; [apply write_bytes_appends | done].
Qed.

Lemma write_name_appends n : appends (name_bytes (labels_ n)) (write_name n).
Proof.
  apply bind_appends; [apply write_labels_appends |].
  change [x00] with (enc 1 0). apply field_appends.
Qed.

Lemma write_question_appends q : appends (question_bytes q) (write_question q).
Proof. apply bind_appends; [apply write_name_appends |]. apply bind_appends; apply field_appends. Qed.

Lemma write_header_appends id flags qd an ns ar :
  appends (header_bytes id flags qd an ns ar) (write_header id flags qd an ns ar).
Proof. repeat (apply bind_appends; [apply field_appends |]). apply field_appends. Qed.

Lemma write_answer_appends q ttl answer : appends (answer_bytes q ttl answer) (write_answer q ttl answer).
Proof. repeat (apply bind_appends; [apply field_appends |]). apply write_bytes_appends. Qed.

Lemma write_all_appends {X} (enc_x : X → list byte) write xs :
  (∀ x, appends (enc_x x) (write x)) → appends (flat_map enc_x xs) (write_all write xs).
Proof.
  intros Hw. induction xs as [|x xs IH]; [apply ret_appends |]. by apply bind_appends.
Qed.

(** A message assembled from appends: the bytes, whole, when they fit. *)
Lemma finish_appends bs f maximum_size :
  appends bs f →
  finish_message (f (WireWriter.make_writer maximum_size)) =
  if (length bs <=? maximum_size)%nat then Val bs else write_failure WriteErrorCode.MessageTooLarge.
Proof.
  intros Hf. rewrite Hf by (unfold within; simpl; lia). simpl. by case_match.
Qed.

Lemma finish_val bs f maximum_size wire :
  appends bs f → finish_message (f (WireWriter.make_writer maximum_size)) = Val wire →
  wire = bs ∧ (length wire ≤ maximum_size)%nat.
Proof.
  intros Hf. rewrite (finish_appends bs f) by done. case_match; [| done].
  intros [= <-]. bool_hyps. done.
Qed.

(** The complete image of a question message. *)
Definition question_message_bytes (h : Header) (flags : Z) (qs : list Question) : list byte :=
  header_bytes (id h) flags (Z.of_nat (length qs)) 0 0 0 ++ flat_map question_bytes qs.

Lemma write_question_message_spec h qs maximum_size :
  write_question_message h qs maximum_size =
  if 65535 <? Z.of_nat maximum_size then write_failure WriteErrorCode.InvalidMaximumSize
  else if 65535 <? Z.of_nat (length qs) then write_failure WriteErrorCode.TooManyQuestions
  else flags ← encode_flags h;
       if (length (question_message_bytes h flags qs) <=? maximum_size)%nat
       then Val (question_message_bytes h flags qs)
       else write_failure WriteErrorCode.MessageTooLarge.
Proof.
  unfold write_question_message. do 2 (case_match; [done |]).
  destruct (encode_flags h) as [flags | |]; [simpl | done..].
  rewrite (finish_appends (question_message_bytes h flags qs)
    (λ w, write_header (id h) flags (Z.of_nat (length qs)) 0 0 0 w ≫= write_all write_question qs)); [done |].
  apply bind_appends; [apply write_header_appends |].
  apply write_all_appends, write_question_appends.
Qed.

Definition address_message_bytes (h : Header) (flags : Z) (q : Question) (ans : list (list byte)) (ttl : Z) : list byte :=
  header_bytes (id h) flags 1 (Z.of_nat (length ans)) 0 0 ++ question_bytes q ++
  flat_map (answer_bytes q ttl) ans.

Lemma write_address_message_val h q ans ttl maximum_size wire :
  write_address_message h q ans ttl maximum_size = Val wire →
  (length wire ≤ maximum_size)%nat ∧ Z.of_nat maximum_size ≤ 65535 ∧
  ans ≠ [] ∧ Z.of_nat (length ans) ≤ 65535 ∧
  (∃ size, expected_address_size (qtype q) = Some size ∧ Forall (λ a, length a = size) ans) ∧
  ∃ flags, encode_flags h = Val flags ∧ wire = address_message_bytes h flags q ans ttl.
Proof.
  unfold write_address_message. do 3 (case_match; [done |]).
  destruct (expected_address_size (qtype q)) as [size|] eqn:Es; [| done].
  destruct (existsb _ ans) eqn:Eex; [done |].
  destruct (encode_flags h) as [flags | |] eqn:Ef; [simpl | done..]. intros Hw.
  apply (finish_val (address_message_bytes h flags q ans ttl) (λ w,
    write_header (id h) flags 1 (Z.of_nat (length ans)) 0 0 w ≫=
    (λ w, write_question q w ≫= write_all (write_answer q ttl) ans))) in Hw as [-> Hlen].
  2: { apply bind_appends; [apply write_header_appends |].
       apply bind_appends; [apply write_question_appends |].
       apply write_all_appends. intros a. apply write_answer_appends. }
  bool_hyps. split_and!; try done; try lia.
  - by intros ->.
  - exists size. split; [done |]. apply Forall_forall. intros a Ha.
    destruct (Nat.eqb_spec (length a) size) as [|Hne]; [done |].
    assert (existsb (λ answer, negb (length answer =? size)%nat) ans = true); [| congruence].
    apply existsb_exists. exists a. split; [done |]. by rewrite (proj2 (Nat.eqb_neq _ _) Hne).
  - by exists flags.
Qed.
