(* ===== verification/DnsQuery.v ===== *)
(** * Validation of queries and of upstream responses
    ([protocol/DnsQuery.*], [protocol/DnsResponse.*]) *)
From S2P Require Import Prelude Wire DomainName DnsMessage.
From Stdlib Require Import Strings.Byte.

Module QueryErrorCode.
Inductive QueryErrorCode :=
  | NotAQuery | UnsupportedOpcode | InvalidHeaderFlags | WrongQuestionCount | UnexpectedAnswerSection
  | ExtensionsNotSupported | UnsupportedType | UnsupportedClass.
End QueryErrorCode.

#[export] Instance query_error_eq_dec : EqDecision QueryErrorCode.QueryErrorCode.
Proof. solve_decision. Defined.

Record QueryError := mkQueryError { qe_code : QueryErrorCode.QueryErrorCode }.

Definition query_failure {X} (c : QueryErrorCode.QueryErrorCode) : outcome QueryError X := Err (mkQueryError c).

Definition is_empty {X} (l : list X) : bool := match l with [] => true | _ => false end.

Definition validate_mvp_query (message : Message) : outcome QueryError Question :=
  let h := header message in
  if is_response h then query_failure QueryErrorCode.NotAQuery
  else if negb (opcode h =? opcode_value Query) then query_failure QueryErrorCode.UnsupportedOpcode
  else if authoritative_answer h || truncated h || recursion_available h || reserved_z h ||
          negb (response_code h =? response_code_value NoError)
  then query_failure QueryErrorCode.InvalidHeaderFlags
  else if negb (length (questions message) =? 1)%nat then query_failure QueryErrorCode.WrongQuestionCount
  else if negb (is_empty (answers message)) || negb (is_empty (authorities message))
  then query_failure QueryErrorCode.UnexpectedAnswerSection
  else if negb (is_empty (additionals message)) then query_failure QueryErrorCode.ExtensionsNotSupported
  else
  question ← from_option_ub (head (questions message));
  if negb (question_class question =? record_class_value IN) then query_failure QueryErrorCode.UnsupportedClass
  else if negb (qtype question =? record_type_value A) && negb (qtype question =? record_type_value AAAA)
  then query_failure QueryErrorCode.UnsupportedType
  else Val question.

Definition response_code_for (error : QueryErrorCode.QueryErrorCode) : ResponseCode :=
  match error with
  | QueryErrorCode.WrongQuestionCount | QueryErrorCode.UnexpectedAnswerSection
  | QueryErrorCode.InvalidHeaderFlags => FormErr
  | QueryErrorCode.NotAQuery | QueryErrorCode.UnsupportedOpcode | QueryErrorCode.ExtensionsNotSupported
  | QueryErrorCode.UnsupportedType | QueryErrorCode.UnsupportedClass => NotImp
  end.

Module ResponseValidationErrorCode.
Inductive ResponseValidationErrorCode :=
  | NotAResponse | WrongTransactionId | WrongOpcode | InvalidHeaderFlags | WrongQuestionCount | QuestionMismatch.
End ResponseValidationErrorCode.

Definition validation_failure {X} (c : ResponseValidationErrorCode.ResponseValidationErrorCode)
    : outcome ResponseValidationErrorCode.ResponseValidationErrorCode X := Err c.

(** [transaction_id]: [None] for a packet shorter than two bytes. *)
Definition transaction_id {E} (packet : list byte) : outcome E (option Z) :=
  if (length packet <? 2)%nat then Val None
  else b0 ← WireReader.byte_at packet 0;
       b1 ← WireReader.byte_at packet 1;
       Val (Some (Z.lor (Z.shiftl b0 8) b1)).

Definition validate_upstream_response (message : Message) (expected_transaction_id expected_opcode : Z)
    (expected_question : Question) : outcome ResponseValidationErrorCode.ResponseValidationErrorCode unit :=
  let h := header message in
  if negb (is_response h) then validation_failure ResponseValidationErrorCode.NotAResponse
  else if negb (id h =? expected_transaction_id) then validation_failure ResponseValidationErrorCode.WrongTransactionId
  else if negb (opcode h =? expected_opcode) then validation_failure ResponseValidationErrorCode.WrongOpcode
  else if reserved_z h then validation_failure ResponseValidationErrorCode.InvalidHeaderFlags
  else if negb (length (questions message) =? 1)%nat then validation_failure ResponseValidationErrorCode.WrongQuestionCount
  else
  q ← from_option_ub (head (questions message));
  if negb (question_eqb q expected_question) then validation_failure ResponseValidationErrorCode.QuestionMismatch
  else Val tt.

(** ** Lemmas *)
Lemma length_one {X} (l : list X) : length l = 1%nat → ∃ x, l = [x].
Proof. destruct l as [|x [|]]; try done. by exists x. Qed.

Lemma is_empty_true {X} (l : list X) : is_empty l = true → l = [].
Proof. by destruct l. Qed.

(** An accepted query: standard opcode, clean flags, exactly one question of
    class IN and type A or AAAA, nothing else. *)
Record mvp_query (m : Message) (q : Question) : Prop := {
  mvp_qr : is_response (header m) = false;
  mvp_opcode : opcode (header m) = 0;
  mvp_flags : authoritative_answer (header m) = false ∧ truncated (header m) = false ∧
              recursion_available (header m) = false ∧ reserved_z (header m) = false ∧
              response_code (header m) = 0;
  mvp_question : questions m = [q];
  mvp_sections : answers m = [] ∧ authorities m = [] ∧ additionals m = [];
  mvp_class : question_class q = record_class_value IN;
  mvp_type : qtype q = record_type_value A ∨ qtype q = record_type_value AAAA;
}.

Lemma validate_mvp_query_val m q : validate_mvp_query m = Val q ↔ mvp_query m q.
Proof.
  unfold validate_mvp_query. split.
  - repeat (case_match; [done |]). bool_hyps.
    destruct (length_one (questions m)) as [q0 Hq]; [done |]. rewrite Hq. simpl.
    repeat (case_match; [done |]). intros [= <-]. bool_hyps.
    repeat match goal with H : is_empty _ = true |- _ => apply is_empty_true in H end.
    constructor; try done.
    match goal with H : _ && _ = false |- _ => apply andb_false_iff in H as [H | H] end;
      bool_hyps; [by left | by right].
  - intros [-> -> (-> & -> & -> & -> & ->) -> (-> & -> & ->) Hc Ht]. simpl. rewrite Hc. simpl.
    by destruct Ht as [-> | ->].
Qed.

Lemma validate_mvp_query_defined m : defined (validate_mvp_query m).
Proof.
  unfold validate_mvp_query. do 6 (case_match; [done |]). bool_hyps.
  destruct (length_one (questions m)) as [q Hq]; [done |]. rewrite Hq. simpl. by repeat case_match.
Qed.

Lemma validate_mvp_query_qr m e :
  validate_mvp_query m = Err e → qe_code e = QueryErrorCode.NotAQuery ↔ is_response (header m) = true.
Proof.
  unfold validate_mvp_query, query_failure. case_match; [by intros [= <-] |].
  do 5 (case_match; [by intros [= <-] |]). bool_hyps.
  destruct (length_one (questions m)) as [q Hq]; [done |]. rewrite Hq. simpl.
  repeat (case_match; [by intros [= <-] |]). done.
Qed.

Lemma validate_upstream_response_val m i o q :
  validate_upstream_response m i o q = Val tt ↔
  is_response (header m) = true ∧ id (header m) = i ∧ opcode (header m) = o ∧
  reserved_z (header m) = false ∧ ∃ q', questions m = [q'] ∧ question_eqb q' q = true.
Proof.
  unfold validate_upstream_response. split.
  - repeat (case_match; [done |]). bool_hyps.
    destruct (length_one (questions m)) as [q0 Hq]; [done |]. rewrite Hq. simpl.
    case_match; [done |]. bool_hyps. intros _. split_and!; try done. by exists q0.
  - intros (-> & -> & -> & -> & q' & -> & Hq). simpl. rewrite !Z.eqb_refl. simpl. by rewrite Hq.
Qed.

Lemma validate_upstream_response_defined m i o q : defined (validate_upstream_response m i o q).
Proof.
  unfold validate_upstream_response. repeat (case_match; [done |]). bool_hyps.
  destruct (length_one (questions m)) as [q0 Hq]; [done |]. rewrite Hq. simpl. by case_match.
Qed.

Lemma transaction_id_spec {E} packet :
  (2 ≤ length packet)%nat →
  ∃ b0 b1 rest, packet = b0 :: b1 :: rest ∧
    transaction_id (E := E) packet = Val (Some (b2z b0 * 256 + b2z b1)).
Proof.
  intros H. destruct packet as [|b0 [|b1 rest]]; simpl in H; try lia.
  exists b0, b1, rest. split; [done |]. unfold transaction_id.
  destruct (Nat.ltb_spec (length (b0 :: b1 :: rest)) 2) as [Hl|_]; [simpl in Hl; lia |]. simpl.
  by rewrite Facts.be16_add by apply b2z_range.
Qed.
