(* ===== verification/DnsRoundtrip.v ===== *)
(** * Round trips between [DnsWriter] and [DnsParser]

    What a writer produces, the parser reads back: queries sent upstream and the
    address responses rebuilt from the cache.  The header fields go through the
    flag word, the owner names of answers through a compression pointer. *)
From S2P Require Import Prelude Wire DomainName DnsMessage DnsParser DnsWriter.
From Stdlib Require Import Strings.Byte.

(** ** The flag word *)
Section Flags.

#[local] Instance header_eq_dec : EqDecision Header.
Proof. solve_decision. Defined.

Definition all_bool (P : bool → bool) : bool := P true && P false.
Definition all_16 (P : Z → bool) : bool := forallb (λ n, P (Z.of_nat n)) (seq 0 16).

Lemma all_bool_spec P : all_bool P = true → ∀ b, P b = true.
Proof. unfold all_bool. intros H []; bool_hyps; done. Qed.

Lemma all_16_spec P : all_16 P = true → ∀ z, 0 ≤ z < 16 → P z = true.
Proof.
  unfold all_16. rewrite forallb_forall. intros H z Hz. rewrite <- (Z2Nat.id z) by lia.
  apply H, in_seq. lia.
Qed.

Definition flags_roundtrip_at (h : Header) : bool :=
  match encode_flags h with
  | Val f => (0 <=? f) && (f <? 65536) && bool_decide (decode_flags (id h) f = h)
  | _ => false
  end.

Lemma flags_table :
  all_16 (λ op, all_16 (λ rc, all_bool (λ qr, all_bool (λ aa, all_bool (λ tc, all_bool (λ rd,
  all_bool (λ ra, all_bool (λ z, all_bool (λ ad, all_bool (λ cd,
    flags_roundtrip_at (mkHeader 0 qr op aa tc rd ra z ad cd rc))))))))))) = true.
Proof. vm_compute. reflexivity. Qed.

Lemma flags_roundtrip h :
  header_fits h → ∃ f, encode_flags h = Val f ∧ u16 f ∧ decode_flags (id h) f = h.
Proof.
  destruct h as [i qr op aa tc rd ra z ad cd rc]. intros (_ & Hop & Hrc). simpl in *.
  pose proof flags_table as H.
  apply (all_16_spec _) with (z := op) in H; [| done]. apply (all_16_spec _) with (z := rc) in H; [| done].
  apply (all_bool_spec _) with (b := qr) in H. apply (all_bool_spec _) with (b := aa) in H.
  apply (all_bool_spec _) with (b := tc) in H. apply (all_bool_spec _) with (b := rd) in H.
  apply (all_bool_spec _) with (b := ra) in H. apply (all_bool_spec _) with (b := z) in H.
  apply (all_bool_spec _) with (b := ad) in H. apply (all_bool_spec _) with (b := cd) in H.
  unfold flags_roundtrip_at in H.
  change (encode_flags (mkHeader i qr op aa tc rd ra z ad cd rc))
    with (encode_flags (mkHeader 0 qr op aa tc rd ra z ad cd rc)).
  destruct (encode_flags (mkHeader 0 qr op aa tc rd ra z ad cd rc)) as [f | |]; [| done..].
  exists f. bool_hyps. match goal with Hd : bool_decide _ = true |- _ => apply bool_decide_eq_true in Hd; simpl in Hd end.
  split_and!; [done | split; lia |]. unfold decode_flags in *. congruence.
Qed.

End Flags.

(** ** Integer fields in place *)
Section Fields.

Lemma read16_at packet off pre v rest :
  packet = pre ++ enc 2 v ++ rest → off = length pre → u16 v →
  require_read (WireReader.read_u16 (WireReader.mk packet off)) =
  Val (v, WireReader.mk packet (off + 2)).
Proof.
  intros -> -> Hv. unfold require_read.
  by rewrite (rd_spec (width := 2) (rd := @WireReader.read_u16)).
Qed.

Lemma read32_at packet off pre v rest :
  packet = pre ++ enc 4 v ++ rest → off = length pre → u32 v →
  require_read (WireReader.read_u32 (WireReader.mk packet off)) =
  Val (v, WireReader.mk packet (off + 4)).
Proof.
  intros -> -> Hv. unfold require_read.
  by rewrite (rd_spec (width := 4) (rd := @WireReader.read_u32)).
Qed.

Lemma enc2_length v : length (enc 2 v) = 2%nat.
Proof. done. Qed.

Lemma enc4_length v : length (enc 4 v) = 4%nat.
Proof. done. Qed.

End Fields.

(** Find the field at the cursor inside a concatenation [pre ++ f1 ++ f2 ++ ...]. *)
Ltac app_solve := rewrite <- ?app_assoc; reflexivity.
Ltac len_solve := rewrite ?length_app, ?enc2_length, ?enc4_length; simpl; lia.

(** ** Names *)
Section Names.

Lemma name_bytes_cons l ls :
  name_bytes (l :: ls) = (z2b (Z.of_nat (length l)) :: l) ++ name_bytes ls.
Proof. unfold name_bytes. simpl. by rewrite <- app_assoc. Qed.

Lemma length_name_bytes ls : length (name_bytes ls) = (1 + labels_size ls)%nat.
Proof.
  induction ls as [|l ls IH]; [done |].
  rewrite name_bytes_cons, length_app, IH, labels_size_cons. simpl. lia.
Qed.

(** One iteration of the decoder on an uncompressed label. *)
Lemma decode_loop_step_label packet encoded_end limits l fuel acc visited pre rest next ews (fl : bool) :
  packet = pre ++ (z2b (Z.of_nat (length l)) :: l) ++ rest →
  label_ok l → (ews + (length l + 1) ≤ 255)%nat →
  (if fl then True else length pre + 1 + length l < encoded_end)%nat →
  decode_name_loop (S fuel) packet encoded_end limits acc visited (length pre) next ews fl =
  decode_name_loop fuel packet encoded_end limits (acc ++ [l]) visited (length pre + 1 + length l)
    (if fl then next else (length pre + 1 + length l)%nat) (ews + (length l + 1)) fl.
Proof.
  intros Hp Hl Hews Hend. unfold label_ok in Hl.
  assert (length packet = length pre + 1 + length l + length rest)%nat as Hlen
    by (rewrite Hp, !length_app; simpl; lia).
  assert (WireReader.byte_at (E := ParseError) packet (length pre) = Val (Z.of_nat (length l))) as Hat.
  { rewrite Hp. simpl app. rewrite byte_at_mid0, b2z_z2b, Z.mod_small by lia. done. }
  assert (take (length l) (drop (length pre + 1) packet) = l) as Htake.
  { rewrite Hp, drop_app_add'; [| done]. simpl. by rewrite drop_0, take_app_length. }
  destruct (land_c0_cases (z2b (Z.of_nat (length l)))) as (Hc0 & Hz & _).
  rewrite b2z_z2b, Z.mod_small in Hc0, Hz by lia. cbv zeta in Hc0, Hz.
  cbn -[Nat.leb Nat.ltb Nat.sub Nat.add Z.land Z.shiftl Z.lor]. rewrite Hat.
  cbn -[Nat.leb Nat.ltb Nat.sub Nat.add Z.land Z.shiftl Z.lor]. rewrite Hc0, Hz, Nat2Z.id, Htake.
  unfold kMaxLabelSize, kMaxDomainWireSize.
  destruct (Nat.leb_spec (length packet) (length pre)); [lia |].
  destruct (Z.eqb_spec (Z.of_nat (length l)) 0); [lia |].
  destruct (Z.leb_spec 192 (Z.of_nat (length l))); [lia |].
  destruct (Z.ltb_spec (Z.of_nat (length l)) 64); [| lia].
  destruct (Z.ltb_spec (Z.of_nat 63) (Z.of_nat (length l))); [lia |].
  destruct (Nat.ltb_spec (length packet) (length pre + 1)); [lia |].
  destruct (Nat.ltb_spec (length packet - (length pre + 1)) (length l)); [lia |].
  destruct (Nat.ltb_spec (255 - (length l + 1)) ews); [lia |].
  destruct fl; simpl negb; cbn [andb orb]; [done |].
  destruct (Nat.leb_spec encoded_end (length pre)); [lia |].
  destruct (Nat.ltb_spec encoded_end (length pre + 1)); [lia |].
  destruct (Nat.ltb_spec (encoded_end - (length pre + 1)) (length l)); [lia |].
  done.
Qed.

(** An uncompressed name is decoded to its labels, wherever it stands. *)
Lemma decode_loop_plain packet encoded_end limits ls : ∀ fuel acc visited pre rest next ews (fl : bool),
  packet = pre ++ name_bytes ls ++ rest → Forall label_ok ls → (ews + labels_size ls ≤ 255)%nat →
  (if fl then True else length pre + length (name_bytes ls) ≤ encoded_end)%nat →
  (length ls < fuel)%nat →
  decode_name_loop fuel packet encoded_end limits acc visited (length pre) next ews fl =
  Val (acc ++ ls, if fl then next else (length pre + length (name_bytes ls))%nat).
Proof.
  induction ls as [|l ls IH]; intros fuel acc visited pre rest next ews fl Hp Hok Hsize Hend Hfuel;
    (destruct fuel as [|fuel]; [simpl in Hfuel; lia |]).
  - cbn -[Nat.leb Nat.ltb Nat.sub Nat.add]. simpl in Hend. rewrite app_nil_r.
    destruct (Nat.leb_spec (length packet) (length pre)) as [H|_]; [rewrite Hp, !length_app in H; simpl in H; lia |].
    assert (WireReader.byte_at (E := ParseError) packet (length pre) = Val 0) as ->
      by (rewrite Hp; apply byte_at_mid0).
    destruct fl; [done |]. simpl. destruct (Nat.leb_spec encoded_end (length pre)); [lia | done].
  - inversion Hok as [|?? Hl Hls]; subst x l0. rewrite labels_size_cons in Hsize. simpl in Hfuel.
    rewrite name_bytes_cons, length_app in Hend. simpl in Hend.
    pose proof (length_name_bytes ls) as Hnb.
    rewrite (decode_loop_step_label packet encoded_end limits l fuel acc visited pre (name_bytes ls ++ rest) next ews fl);
      [| by rewrite Hp, name_bytes_cons, <- app_assoc | done | lia | destruct fl; [done | lia]].
    replace (length pre + 1 + length l)%nat with (length (pre ++ z2b (Z.of_nat (length l)) :: l))
      by (rewrite length_app; simpl; lia).
    rewrite (IH fuel _ _ _ rest); try done; try lia.
    + rewrite name_bytes_cons, <- app_assoc. do 2 f_equal. destruct fl; [done |].
      rewrite !length_app. simpl. lia.
    + rewrite Hp, name_bytes_cons, <- !app_assoc. done.
    + destruct fl; [done |]. rewrite length_app. simpl. lia.
Qed.

(** A compression pointer to offset 12 costs one iteration. *)
Lemma decode_loop_step_pointer packet encoded_end limits fuel acc visited pre rest next ews :
  packet = pre ++ enc 2 0xc00c ++ rest → (12 < length pre)%nat → (length pre + 2 ≤ encoded_end)%nat →
  (0 < maximum_compression_pointers limits)%nat → visited = [] →
  decode_name_loop (S fuel) packet encoded_end limits acc visited (length pre) next ews false =
  decode_name_loop fuel packet encoded_end limits acc [12%nat] 12 (length pre + 2) ews true.
Proof.
  intros Hp Hpre Hend Hmax ->.
  assert (length packet = length pre + 2 + length rest)%nat as Hlen by (rewrite Hp, !length_app; simpl; lia).
  assert (WireReader.byte_at (E := ParseError) packet (length pre) = Val 192) as H0
    by (rewrite Hp; exact (byte_at_mid0 pre (z2b (Z.land (Z.shiftr 0xc00c 8) 255)) _)).
  assert (WireReader.byte_at (E := ParseError) packet (length pre + 1) = Val 12) as H1.
  { rewrite Hp. by erewrite (byte_at_mid pre _ rest 1) by done. }
  cbn -[Nat.leb Nat.ltb Nat.sub Nat.add bool_decide]. rewrite H0, H1.
  cbn -[Nat.leb Nat.ltb Nat.sub Nat.add bool_decide].
  change (192 =? 0) with false. change (Z.land 192 192 =? 192) with true.
  change (Z.to_nat (Z.lor (Z.shiftl (Z.land 192 63) 8) 12)) with 12%nat.
  unfold kDnsHeaderSize. cbv iota.
  destruct (Nat.leb_spec (length packet) (length pre)); [lia |].
  destruct (Nat.leb_spec encoded_end (length pre)); [lia |].
  destruct (Nat.leb_spec (length packet) (length pre + 1)); [lia |].
  destruct (Nat.leb_spec encoded_end (length pre + 1)); [lia |].
  destruct (Nat.leb_spec (length packet) 12); [lia |]. rewrite Nat.ltb_irrefl.
  destruct (Nat.leb_spec (length pre) 12); [lia |].
  rewrite bool_decide_false by set_solver.
  destruct (Nat.leb_spec (maximum_compression_pointers limits) 0); [lia |].
  by destruct (require_backward_pointers limits).
Qed.

Lemma valid_decode_fuel d limits : valid d → (length (labels_ d) + 1 < decode_fuel limits)%nat.
Proof.
  intros (Hok & Hs & _)%valid_spec. unfold decode_fuel, kMaxDomainWireSize.
  assert (length (labels_ d) ≤ labels_size (labels_ d))%nat; [| lia].
  clear. induction (labels_ d) as [|l ls IH]; [done |]. rewrite labels_size_cons. simpl. lia.
Qed.

Lemma decode_name_plain packet pre rest d encoded_end limits :
  packet = pre ++ name_bytes (labels_ d) ++ rest → valid d →
  (length pre + length (name_bytes (labels_ d)) ≤ encoded_end)%nat →
  decode_name packet (length pre) encoded_end limits =
  Val (mkDecodedName d (length pre + length (name_bytes (labels_ d)))).
Proof.
  intros Hp Hd Hend. pose proof Hd as (Hok & Hs & _)%valid_spec. unfold decode_name.
  pose proof (valid_decode_fuel d limits Hd) as Hfuel.
  rewrite (decode_loop_plain packet encoded_end limits (labels_ d) _ _ _ pre rest); try done; try lia.
  simpl. by rewrite Hd.
Qed.

Lemma decode_name_pointer packet pre rest d body encoded_end limits :
  packet = pre ++ enc 2 0xc00c ++ rest → (12 < length pre)%nat → valid d →
  packet = take 12 packet ++ name_bytes (labels_ d) ++ body →
  (length pre + 2 ≤ encoded_end)%nat → (0 < maximum_compression_pointers limits)%nat →
  decode_name packet (length pre) encoded_end limits = Val (mkDecodedName d (length pre + 2)).
Proof.
  intros Hp Hpre Hd Hn Hend Hmax. pose proof Hd as (Hok & Hs & _)%valid_spec. unfold decode_name.
  pose proof (valid_decode_fuel d limits Hd) as Hfuel.
  destruct (decode_fuel limits) as [|fuel]; [lia |].
  rewrite (decode_loop_step_pointer packet encoded_end limits fuel [] [] pre rest) by done.
  assert (length (take 12 packet) = 12%nat) as Hl12.
  { rewrite length_take, Hp, length_app. lia. }
  pose proof (decode_loop_plain packet encoded_end limits (labels_ d) fuel [] [12%nat] (take 12 packet) body
    (length pre + 2)%nat 1%nat true Hn Hok ltac:(lia) I ltac:(lia)) as H.
  rewrite Hl12 in H. rewrite H. simpl. by rewrite Hd.
Qed.

End Names.

(** ** Questions, answers and sections *)
Section Sections.
Context (packet : list byte) (limits : ParseLimits).

Lemma parse_question_written pre q rest :
  packet = pre ++ question_bytes q ++ rest → question_fits q →
  parse_question packet (length pre) limits = Val (q, (length pre + length (question_bytes q))%nat).
Proof.
  intros Hp (Hd & Ht & Hc). unfold parse_question, question_bytes in *.
  set (nb := name_bytes (labels_ (qname q))) in *.
  rewrite (decode_name_plain packet pre (enc 2 (qtype q) ++ enc 2 (question_class q) ++ rest) (qname q));
    [| by rewrite Hp, <- !app_assoc | done | rewrite Hp, !length_app; fold nb; lia].
  cbn [mbind outcome_bind next_offset name]. fold nb.
  rewrite (read16_at packet _ (pre ++ nb) (qtype q) (enc 2 (question_class q) ++ rest));
    [| rewrite Hp; app_solve | len_solve | done]. cbn [mbind outcome_bind].
  rewrite (read16_at packet _ (pre ++ nb ++ enc 2 (qtype q)) (question_class q) rest);
    [| rewrite Hp; app_solve | len_solve | done]. cbn [mbind outcome_bind WireReader.offset_].
  destruct q as [n t c]; simpl. do 2 f_equal. len_solve.
Qed.

(** What is read back of an address answer. *)
Definition answer_of (q : Question) (time_to_live : Z) (r : ResourceRecord) (address : list byte) : Prop :=
  rname r = qname q ∧ rtype r = qtype q ∧ record_class r = question_class q ∧
  ttl r = time_to_live ∧ rdata r = address.

Lemma address_rdata_valid q size (address : list byte) off :
  expected_address_size (qtype q) = Some size → length address = size →
  validate_rdata packet limits (qtype q) (Z.of_nat (length address)) off (off + length address) = Val tt.
Proof.
  unfold expected_address_size. intros Hs Hl.
  destruct (Z.eqb_spec (qtype q) (record_type_value A)) as [-> | _].
  { injection Hs as <-. unfold validate_rdata. rewrite record_type_of_value. by rewrite Hl. }
  destruct (Z.eqb_spec (qtype q) (record_type_value AAAA)) as [-> | _]; [| done].
  injection Hs as <-. unfold validate_rdata. rewrite record_type_of_value. by rewrite Hl.
Qed.

Lemma expected_size_u16 q size : expected_address_size (qtype q) = Some size → (size ≤ 16)%nat.
Proof. unfold expected_address_size. repeat case_match; intros [= <-]; lia. Qed.

Lemma parse_answer_written pre q body t a size rest :
  packet = pre ++ answer_bytes q t a ++ rest → question_fits q → u32 t →
  packet = take 12 packet ++ name_bytes (labels_ (qname q)) ++ body → (12 < length pre)%nat →
  (0 < maximum_compression_pointers limits)%nat →
  expected_address_size (qtype q) = Some size → length a = size →
  ∃ r, parse_resource_record packet (length pre) limits =
         Val (r, (length pre + length (answer_bytes q t a))%nat) ∧ answer_of q t r a.
Proof.
  intros Hp (Hd & Ht & Hc) Httl Hq Hpre Hmax Hsize Hlen. unfold parse_resource_record, answer_bytes in *.
  pose proof (expected_size_u16 q size Hsize) as Hle.
  rewrite (decode_name_pointer packet pre
    (enc 2 (qtype q) ++ enc 2 (question_class q) ++ enc 4 t ++ enc 2 (Z.of_nat (length a)) ++ a ++ rest)
    (qname q) body); try done.
  2: { rewrite Hp. len_solve. }
  cbn [mbind outcome_bind next_offset name].
  rewrite (read16_at packet _ (pre ++ enc 2 0xc00c) (qtype q)
    (enc 2 (question_class q) ++ enc 4 t ++ enc 2 (Z.of_nat (length a)) ++ a ++ rest));
    [| rewrite Hp; app_solve | len_solve | done]. cbn [mbind outcome_bind].
  rewrite (read16_at packet _ (pre ++ enc 2 0xc00c ++ enc 2 (qtype q)) (question_class q)
    (enc 4 t ++ enc 2 (Z.of_nat (length a)) ++ a ++ rest));
    [| rewrite Hp; app_solve | len_solve | done]. cbn [mbind outcome_bind].
  rewrite (read32_at packet _ (pre ++ enc 2 0xc00c ++ enc 2 (qtype q) ++ enc 2 (question_class q)) t
    (enc 2 (Z.of_nat (length a)) ++ a ++ rest));
    [| rewrite Hp; app_solve | len_solve | done]. cbn [mbind outcome_bind].
  rewrite (read16_at packet _ (pre ++ enc 2 0xc00c ++ enc 2 (qtype q) ++ enc 2 (question_class q) ++ enc 4 t)
    (Z.of_nat (length a)) (a ++ rest));
    [| rewrite Hp; app_solve | len_solve | unfold u16; lia]. cbn [mbind outcome_bind WireReader.offset_].
  set (off := (length pre + 2 + 2 + 2 + 4 + 2)%nat).
  assert (drop off packet = a ++ rest) as Hdrop.
  { rewrite Hp, <- !app_assoc, drop_app_ge by (unfold off; lia).
    replace (off - length pre)%nat with 12%nat by (unfold off; lia). done. }
  assert (length packet = off + length a + length rest)%nat as Hpl
    by (rewrite Hp; unfold off; len_solve).
  rewrite Nat2Z.id. unfold WireReader.read_bytes. cbn [WireReader.bytes_ WireReader.offset_].
  rewrite Hdrop, take_app_length.
  match goal with |- context [if (?x <? ?y)%nat then _ else _] => destruct (Nat.ltb_spec x y) as [Hr|_] end.
  { unfold WireReader.remaining in Hr. simpl in Hr. case_match eqn:E; bool_hyps; lia. }
  rewrite (address_rdata_valid q size) by done. cbn [mbind outcome_bind WireReader.offset_].
  eexists (mkResourceRecord (qname q) (qtype q) (question_class q) t off a). split; [| by split_and!].
  do 2 f_equal. unfold off. len_solve.
Qed.

(** A section written item after item parses item after item. *)
Lemma parse_section_written {X Item} (bytes_of : X → list byte) (parser : nat → outcome ParseError (Item * nat))
    (R : Item → X → Prop) (Q : list byte → Prop) xs : ∀ pre rest,
  (∀ x pre rest, x ∈ xs → Q pre → packet = pre ++ bytes_of x ++ rest →
     Q (pre ++ bytes_of x) ∧
     ∃ i, parser (length pre) = Val (i, (length pre + length (bytes_of x))%nat) ∧ R i x) →
  Q pre → packet = pre ++ flat_map bytes_of xs ++ rest →
  ∃ items, parse_section (length xs) parser (length pre) =
             Val (items, (length pre + length (flat_map bytes_of xs))%nat) ∧ Forall2 R items xs.
Proof.
  induction xs as [|x xs IH]; intros pre rest Hparse HQ Hp.
  - exists []. simpl. by rewrite Nat.add_0_r.
  - simpl in Hp. rewrite <- app_assoc in Hp.
    destruct (Hparse x pre (flat_map bytes_of xs ++ rest)) as (HQ' & i & Hi & HR); [by constructor | done | done |].
    destruct (IH (pre ++ bytes_of x) rest) as (items & Hs & Hall).
    { intros y pre' rest' Hy. apply Hparse. by constructor. }
    { done. }
    { rewrite Hp. app_solve. }
    exists (i :: items). split; [| by constructor]. simpl. rewrite Hi. cbn [mbind outcome_bind].
    rewrite <- length_app, Hs. cbn [mbind outcome_bind]. do 2 f_equal. rewrite !length_app. lia.
Qed.

End Sections.

(** ** The header *)
Lemma parse_message_header packet limits i f qd an ns ar body :
  packet = header_bytes i f qd an ns ar ++ body →
  (length packet ≤ maximum_packet_size limits)%nat →
  u16 i → u16 f → u16 qd → u16 an → u16 ns → u16 ar →
  qd ≤ Z.of_nat (maximum_questions limits) →
  an + ns + ar ≤ Z.of_nat (maximum_total_records limits) →
  an ≤ Z.of_nat (maximum_records_per_section limits) → ns ≤ Z.of_nat (maximum_records_per_section limits) →
  ar ≤ Z.of_nat (maximum_records_per_section limits) →
  parse_message packet limits =
  ('(questions, offset) ← parse_section (Z.to_nat qd) (λ o, parse_question packet o limits) 12;
   let parse_rr := λ o, parse_resource_record packet o limits in
   '(answers, offset) ← parse_section (Z.to_nat an) parse_rr offset;
   '(authorities, offset) ← parse_section (Z.to_nat ns) parse_rr offset;
   '(additionals, offset) ← parse_section (Z.to_nat ar) parse_rr offset;
   if reject_trailing_data limits && negb (offset =? length packet)%nat
   then parse_failure ParseErrorCode.TrailingData offset
   else Val (mkMessage (decode_flags i f) questions answers authorities additionals packet)).
Proof.
  intros Hp Hlen Hi Hf Hqd Han Hns Har Hq Htot H1 H2 H3. unfold parse_message, header_bytes in *.
  destruct (Nat.ltb_spec (maximum_packet_size limits) (length packet)); [lia |].
  rewrite (read16_at packet _ [] i (enc 2 f ++ enc 2 qd ++ enc 2 an ++ enc 2 ns ++ enc 2 ar ++ body));
    [| rewrite Hp; app_solve | len_solve | done]. cbn [mbind outcome_bind].
  rewrite (read16_at packet _ (enc 2 i) f (enc 2 qd ++ enc 2 an ++ enc 2 ns ++ enc 2 ar ++ body));
    [| rewrite Hp; app_solve | len_solve | done]. cbn [mbind outcome_bind].
  rewrite (read16_at packet _ (enc 2 i ++ enc 2 f) qd (enc 2 an ++ enc 2 ns ++ enc 2 ar ++ body));
    [| rewrite Hp; app_solve | len_solve | done]. cbn [mbind outcome_bind].
  rewrite (read16_at packet _ (enc 2 i ++ enc 2 f ++ enc 2 qd) an (enc 2 ns ++ enc 2 ar ++ body));
    [| rewrite Hp; app_solve | len_solve | done]. cbn [mbind outcome_bind].
  rewrite (read16_at packet _ (enc 2 i ++ enc 2 f ++ enc 2 qd ++ enc 2 an) ns (enc 2 ar ++ body));
    [| rewrite Hp; app_solve | len_solve | done]. cbn [mbind outcome_bind].
  rewrite (read16_at packet _ (enc 2 i ++ enc 2 f ++ enc 2 qd ++ enc 2 an ++ enc 2 ns) ar body);
    [| rewrite Hp; app_solve | len_solve | done]. cbn [mbind outcome_bind].
  destruct (Z.ltb_spec (Z.of_nat (maximum_questions limits)) qd); [lia |].
  destruct (Z.ltb_spec (Z.of_nat (maximum_records_per_section limits)) an); [lia |].
  destruct (Z.ltb_spec (Z.of_nat (maximum_records_per_section limits)) ns); [lia |].
  destruct (Z.ltb_spec (Z.of_nat (maximum_records_per_section limits)) ar); [lia |].
  destruct (Z.ltb_spec (Z.of_nat (maximum_total_records limits)) (an + ns + ar)); [lia |].
  done.
Qed.

(** Arithmetic under the default limits. *)
Ltac limits_lia :=
  unfold default_limits;
  cbn [maximum_packet_size maximum_questions maximum_records_per_section maximum_total_records
       maximum_compression_pointers]; lia.

(** ** Main properties *)
Section Properties.

Lemma header_bytes_length i f qd an ns ar : length (header_bytes i f qd an ns ar) = 12%nat.
Proof. done. Qed.

Lemma question_bytes_pos q : (5 ≤ length (question_bytes q))%nat.
Proof. unfold question_bytes. rewrite !length_app, length_name_bytes, !enc2_length. lia. Qed.

Lemma length_answer_bytes q t a : length (answer_bytes q t a) = (12 + length a)%nat.
Proof. unfold answer_bytes. rewrite !length_app, !enc2_length, enc4_length. lia. Qed.

Lemma answer_bytes_pos q t a : (12 ≤ length (answer_bytes q t a))%nat.
Proof. rewrite length_answer_bytes. lia. Qed.

Lemma flat_map_length_ge {X} (f : X → list byte) n xs :
  (∀ x, n ≤ length (f x))%nat → (n * length xs ≤ length (flat_map f xs))%nat.
Proof.
  intros H. induction xs as [|x xs IH]; simpl; [lia |]. rewrite length_app. specialize (H x). lia.
Qed.

Lemma Forall2_eq {X} (xs ys : list X) : Forall2 eq xs ys → xs = ys.
Proof. by induction 1; subst. Qed.

(** The parser on the image of a question message, under limits that admit it. *)
Lemma parse_question_message h flags qs limits :
  let wire := question_message_bytes h flags qs in
  header_fits h → u16 flags → Forall question_fits qs →
  (length wire ≤ maximum_packet_size limits)%nat → Z.of_nat (length wire) ≤ 65535 →
  (length qs ≤ maximum_questions limits)%nat →
  parse_message wire limits = Val (mkMessage (decode_flags (id h) flags) qs [] [] [] wire).
Proof.
  intros wire (Hid & _) Hf Hqs Hlen H64 Hn.
  assert (Z.of_nat (length qs) < 65536).
  { pose proof (flat_map_length_ge question_bytes 5 qs question_bytes_pos).
    unfold wire, question_message_bytes in H64. rewrite length_app, header_bytes_length in H64. lia. }
  rewrite (parse_message_header wire limits (id h) flags (Z.of_nat (length qs)) 0 0 0 (flat_map question_bytes qs));
    try done; try (unfold u16; lia); try lia.
  rewrite Nat2Z.id.
  destruct (parse_section_written wire question_bytes (λ o, parse_question wire o limits) eq (λ _, True) qs
    (header_bytes (id h) flags (Z.of_nat (length qs)) 0 0 0) []) as (items & Hs & Hall).
  - intros q pre rest Hq _ Hp. split; [done |]. exists q. split; [| done].
    apply (parse_question_written _ _ _ _ rest); [done |]. rewrite Forall_forall in Hqs.
    by apply Hqs, list_elem_of_In.
  - done.
  - unfold wire, question_message_bytes. by rewrite app_nil_r.
  - rewrite header_bytes_length in Hs. rewrite Hs. apply Forall2_eq in Hall as ->.
    change (Z.to_nat 0) with 0%nat. cbn [mbind outcome_bind parse_section].
    replace (12 + length (flat_map question_bytes qs))%nat with (length wire) by
      (unfold wire, question_message_bytes; by rewrite length_app, header_bytes_length).
    by rewrite Nat.eqb_refl, andb_false_r.
Qed.

(** The header [serialize_query] sends. *)
Definition sent_header (h : Header) : Header :=
  mkHeader (id h) (is_response h) (opcode h) false false (recursion_desired h) false (reserved_z h)
    (authenticated_data h) (checking_disabled h) (response_code_value NoError).

(** A serialised query parses back to the same ID, opcode, RD, Z, AD and CD
    bits and the same questions (byte-identical labels), with every other
    section empty; AA, TC, RA and RCODE are cleared. *)
Theorem serialize_query_roundtrip h qs maximum_size wire :
  serialize_query h qs maximum_size = Val wire →
  header_fits h → Forall question_fits qs → (length qs ≤ 16)%nat →
  parse_message wire default_limits = Val (mkMessage (sent_header h) qs [] [] [] wire) ∧
  (length wire ≤ maximum_size)%nat.
Proof.
  unfold serialize_query. destruct (is_response h) eqn:Hr; [done |]. intros Hw Hh Hqs Hn.
  assert (write_question_message (sent_header h) qs maximum_size = Val wire) as Hw'
    by (unfold sent_header; by rewrite Hr).
  clear Hw; rename Hw' into Hw.
  assert (header_fits (sent_header h)) as Hs by (destruct Hh as (? & ? & ?); split_and!; simpl; done || lia).
  rewrite write_question_message_spec in Hw. do 2 (case_match; [done |]).
  destruct (flags_roundtrip _ Hs) as (f & Hf & Hf16 & Hdec). rewrite Hf in Hw. cbn [mbind outcome_bind] in Hw.
  case_match; [| done]. injection Hw as <-. bool_hyps. split; [| lia].
  rewrite parse_question_message; try done; [by rewrite Hdec | | lia].
  limits_lia.
Qed.

Definition sample_question : Question := mkQuestion (mkDomainName [[x61]] 3 [x01; x61; x00]) 1 1.

Lemma serialize_query_roundtrip_witness :
  ∃ wire, serialize_query default_header [sample_question] 512 = Val wire ∧
    parse_message wire default_limits = Val (mkMessage (sent_header default_header) [sample_question] [] [] [] wire) ∧
    (length wire ≤ 512)%nat.
Proof.
  eexists. split; [vm_compute; reflexivity |].
  apply (serialize_query_roundtrip default_header [sample_question] 512); [vm_compute; reflexivity | ..].
  - vm_compute. repeat split; congruence || (intros; discriminate).
  - repeat constructor; vm_compute; congruence || (intros; discriminate).
  - simpl. lia.
Defined.

(** The parser on the image of an address response. *)
Lemma parse_address_message h flags q ans t size limits :
  let wire := address_message_bytes h flags q ans t in
  header_fits h → u16 flags → question_fits q → u32 t →
  expected_address_size (qtype q) = Some size → Forall (λ a, length a = size) ans →
  (length wire ≤ maximum_packet_size limits)%nat → Z.of_nat (length wire) ≤ 65535 →
  (1 ≤ maximum_questions limits)%nat → (length ans ≤ maximum_total_records limits)%nat →
  (length ans ≤ maximum_records_per_section limits)%nat → (0 < maximum_compression_pointers limits)%nat →
  ∃ records, parse_message wire limits =
      Val (mkMessage (decode_flags (id h) flags) [q] records [] [] wire) ∧
    Forall2 (answer_of q t) records ans.
Proof.
  intros wire (Hid & _) Hf Hq Ht Hsize Hans Hlen H64 Hmq Htot Hsec Hmax.
  set (hb := header_bytes (id h) flags 1 (Z.of_nat (length ans)) 0 0).
  set (body := flat_map (answer_bytes q t) ans).
  assert (wire = hb ++ question_bytes q ++ body) as Hwire by done.
  assert (Z.of_nat (length ans) < 65536).
  { pose proof (flat_map_length_ge (answer_bytes q t) 12 ans (answer_bytes_pos q t)).
    rewrite Hwire, !length_app in H64. unfold body in H64. lia. }
  rewrite (parse_message_header wire limits (id h) flags 1 (Z.of_nat (length ans)) 0 0 (question_bytes q ++ body));
    try done; try (unfold u16; lia); try lia.
  rewrite Nat2Z.id. change (Z.to_nat 1) with 1%nat. cbn [parse_section].
  change 12%nat with (length hb) at 1.
  rewrite (parse_question_written wire limits hb q body) by done. cbn [mbind outcome_bind].
  destruct (parse_section_written wire (answer_bytes q t) (λ o, parse_resource_record wire o limits)
    (answer_of q t) (λ pre, 12 < length pre)%nat ans (hb ++ question_bytes q) []) as (records & Hs & Hall).
  - intros a pre rest Ha Hpre Hp. split; [rewrite length_app; lia |].
    destruct (parse_answer_written wire limits pre q
      (enc 2 (qtype q) ++ enc 2 (question_class q) ++ body) t a size rest) as (r & Hr & Hof); try done; [| | by exists r].
    + assert (take 12 wire = hb) as -> by (rewrite Hwire; by apply take_app_length').
      rewrite Hwire. unfold question_bytes. by rewrite <- !app_assoc.
    + rewrite Forall_forall in Hans. by apply Hans, list_elem_of_In.
  - rewrite length_app. pose proof (question_bytes_pos q). unfold hb. rewrite header_bytes_length. lia.
  - rewrite app_nil_r. rewrite Hwire. by rewrite <- app_assoc.
  - exists records. split; [| done]. rewrite length_app in Hs. rewrite Hs.
    change (Z.to_nat 0) with 0%nat. cbn [mbind outcome_bind parse_section].
    replace (length hb + length (question_bytes q) + length (flat_map (answer_bytes q t) ans))%nat
      with (length wire) by (rewrite Hwire, !length_app; unfold body; lia).
    by rewrite Nat.eqb_refl, andb_false_r.
Qed.

Lemma response_header_fits req ra c : header_fits req → header_fits (response_header req ra c).
Proof. intros (? & ? & _). split_and!; try done; cbn [response_header response_code]; destruct c; simpl; lia. Qed.

Lemma question_fits_type_size q size : expected_address_size (qtype q) = Some size → (4 ≤ size ≤ 16)%nat.
Proof. unfold expected_address_size. repeat case_match; intros [= <-]; lia. Qed.

Lemma address_response_parses request q ans t ra maximum_size wire :
  make_address_response request ans t ra maximum_size = Val wire →
  questions request = [q] → header_fits (header request) → question_fits q → u32 t →
  ∃ records,
    parse_message wire default_limits =
      Val (mkMessage (response_header (header request) ra NoError) [q] records [] [] wire) ∧
    Forall2 (answer_of q t) records ans ∧ (length wire ≤ maximum_size)%nat.
Proof.
  unfold make_address_response. intros Hw Hq1 Hh Hq Ht. case_match; [done |]. rewrite Hq1 in Hw. simpl in Hw.
  apply write_address_message_val in Hw as (Hlen & Hmax & _ & _ & (size & Hsize & Hans) & f & Hf & ->).
  pose proof (response_header_fits _ ra NoError Hh) as Hrh.
  destruct (flags_roundtrip _ Hrh) as (f' & Hf' & Hf16 & Hdec).
  rewrite Hf in Hf'. injection Hf' as <-.
  assert (length ans ≤ 4096)%nat as Hna.
  { pose proof (question_fits_type_size q size Hsize) as Hsz.
    assert (16 * length ans ≤ length (flat_map (answer_bytes q t) ans))%nat as Hge.
    { clear -Hans Hsz. induction Hans as [|a ans Ha Hans IH]; cbn [flat_map length]; [lia |].
      rewrite length_app, length_answer_bytes. lia. }
    unfold address_message_bytes in Hlen. rewrite !length_app in Hlen. lia. }
  destruct (parse_address_message (response_header (header request) ra NoError) f q ans t size default_limits)
    as (records & Hp & Hall); try done; try limits_lia.
  exists records. rewrite Hp, Hdec. done.
Qed.

(** C33: an address response built for a request parses back, through the
    compression pointers it uses for owner names, to: the request's ID, opcode,
    RD and CD with QR set and NOERROR; the request's question; and exactly the
    given addresses, in order, with the given TTL, owned by the question's name,
    type and class. *)
Theorem address_response_roundtrip request q ans t ra maximum_size wire :
  make_address_response request ans t ra maximum_size = Val wire →
  questions request = [q] → header_fits (header request) → question_fits q → u32 t →
  ∃ records,
    parse_message wire default_limits =
      Val (mkMessage (response_header (header request) ra NoError) [q] records [] [] wire) ∧
    Forall2 (answer_of q t) records ans ∧ (length wire ≤ maximum_size)%nat.
Proof. apply address_response_parses. Qed.

Definition sample_request : Message :=
  mkMessage default_header [sample_question] [] [] [] [].

Lemma address_response_roundtrip_witness :
  ∃ wire, make_address_response sample_request [[x01; x02; x03; x04]; [x05; x06; x07; x08]] 300 true 512 = Val wire ∧
    ∃ records,
      parse_message wire default_limits =
        Val (mkMessage (response_header default_header true NoError) [sample_question] records [] [] wire) ∧
      Forall2 (answer_of sample_question 300) records [[x01; x02; x03; x04]; [x05; x06; x07; x08]] ∧
      (length wire ≤ 512)%nat.
Proof.
  eexists. split; [vm_compute; reflexivity |].
  apply (address_response_roundtrip sample_request sample_question
    [[x01; x02; x03; x04]; [x05; x06; x07; x08]] 300 true 512); try (vm_compute; reflexivity).
  - vm_compute. repeat split; congruence || (intros; discriminate).
  - repeat constructor; vm_compute; congruence || (intros; discriminate).
  - vm_compute. repeat split; congruence || (intros; discriminate).
Defined.

End Properties.
