(* ===== verification/DnsCache.v ===== *)
(** * The positive answer cache ([DNS_Cache.h], [DNS_Cache.cpp])

    A shard is a bounded map with CLOCK (second chance) eviction: [entries_] holds
    the slots, [index_] finds the slot of a key, [hand_] is the clock hand.  A
    [std::unordered_map] is a [gmap]: its hash decides the iteration order only,
    and the code never iterates.  A [steady_clock] time point is its [int64_t]
    nanosecond count; the sums and differences that would overflow it are
    [Undef]. *)
From S2P Require Import Prelude DomainName.
From Stdlib Require Import Strings.Byte.

Inductive Family := AF_UNSPEC | AF_INET | AF_INET6.

Record IPAddress := mkIPAddress { addr_bytes : list byte; family : Family }.

(** [IPAddress::v4] of four bytes, [IPAddress::v6] of sixteen: the array has
    sixteen zero bytes before the copy. *)
Definition v4 (value : list byte) : IPAddress :=
  mkIPAddress (value ++ drop (length value) (replicate 16 x00)) AF_INET.
Definition v6 (value : list byte) : IPAddress := mkIPAddress value AF_INET6.
Definition is_v4 (a : IPAddress) : bool := match family a with AF_INET => true | _ => false end.
Definition is_v6 (a : IPAddress) : bool := match family a with AF_INET6 => true | _ => false end.

Record CacheKey := mkCacheKey { key_qname : list byte; key_qtype : Z; key_qclass : Z }.

Definition cache_key (name : DomainName) (type record_class : Z) : CacheKey :=
  mkCacheKey (canonical_key_ name) type record_class.

#[export] Instance cache_key_eq_dec : EqDecision CacheKey.
Proof. solve_decision. Defined.
#[export] Instance cache_key_countable : Countable CacheKey.
Proof.
  refine (inj_countable' (λ k, (key_qname k, key_qtype k, key_qclass k))
                         (λ p, mkCacheKey p.1.1 p.1.2 p.2) _).
  by intros [].
Defined.

Record CacheHit := mkCacheHit { hit_addresses : list IPAddress; remaining_ttl : Z }.

Record CacheEntry := mkCacheEntry {
  entry_key : CacheKey;
  entry_addresses : list IPAddress;
  expiry : Z;
  chance : bool;
}.

Record CacheShard := mkCacheShard {
  capacity_ : nat;
  hand_ : nat;
  entries_ : list (option CacheEntry);
  index_ : gmap CacheKey nat;
}.

(** Nothing here fails with an error value. *)
Abbreviation total A := (outcome Empty_set A).

Definition int64_max : Z := 2 ^ 63 - 1.
Definition int64_min : Z := - 2 ^ 63.
Definition uint32_max : Z := 2 ^ 32 - 1.
Definition nanos : Z := 1000000000.

(** Signed 64-bit arithmetic: a result out of range is undefined. *)
Definition int64 (z : Z) : total Z :=
  if (int64_min <=? z) && (z <=? int64_max) then Val z else Undef.

Definition new_shard (capacity : nat) : CacheShard := mkCacheShard capacity 0 [] ∅.

Definition shard_size (s : CacheShard) : nat := size (index_ s).

Definition set_hand (h : nat) (s : CacheShard) : CacheShard :=
  mkCacheShard (capacity_ s) h (entries_ s) (index_ s).
Definition set_slot (i : nat) (slot : option CacheEntry) (s : CacheShard) : CacheShard :=
  mkCacheShard (capacity_ s) (hand_ s) (<[i := slot]> (entries_ s)) (index_ s).
Definition set_index (ix : gmap CacheKey nat) (s : CacheShard) : CacheShard :=
  mkCacheShard (capacity_ s) (hand_ s) (entries_ s) ix.

(** [std::chrono::ceil<seconds>] of a nanosecond duration. *)
Definition ceil_seconds (d : Z) : Z := - ((- d) / nanos).

Definition get (s : CacheShard) (key : CacheKey) (now : Z) : total (option CacheHit * CacheShard) :=
  match index_ s !! key with
  | None => Val (None, s)
  | Some found =>
      slot ← from_option_ub (entries_ s !! found);
      let drop_entry := Val (None, set_slot found None (set_index (delete key (index_ s)) s)) in
      match slot with
      | None => drop_entry
      | Some e =>
          if expiry e <=? now then drop_entry
          else
            let s := set_slot found (Some (mkCacheEntry (entry_key e) (entry_addresses e) (expiry e) true)) s in
            remaining ← int64 (expiry e - now);
            let bounded_remaining := Z.max 1 (Z.min (ceil_seconds remaining) uint32_max) in
            Val (Some (mkCacheHit (entry_addresses e) bounded_remaining), s)
      end
  end.

Definition replace_slot (slot_index : nat) (key : CacheKey) (addresses : list IPAddress) (expiry : Z)
    (s : CacheShard) : total CacheShard :=
  slot ← from_option_ub (entries_ s !! slot_index);
  let s := match slot with
           | Some e => set_index (delete (entry_key e) (index_ s)) s
           | None => s
           end in
  let s := set_slot slot_index (Some (mkCacheEntry key addresses expiry true)) s in
  (* [emplace] keeps an element that is already there *)
  Val (set_index (match index_ s !! key with
                  | Some _ => index_ s
                  | None => <[key := slot_index]> (index_ s)
                  end) s).

(** The test of the CLOCK loop: this slot may be taken over. *)
Definition reusable (now : Z) (slot : option CacheEntry) : bool :=
  match slot with
  | None => true
  | Some e => (expiry e <=? now) || negb (chance e)
  end.

Definition clear_chance (e : CacheEntry) : CacheEntry :=
  mkCacheEntry (entry_key e) (entry_addresses e) (expiry e) false.

(** [while (true)]: at most [fuel] turns of the hand. *)
Fixpoint clock_loop (fuel : nat) (key : CacheKey) (addresses : list IPAddress) (expiry now : Z)
    (s : CacheShard) : total CacheShard :=
  match fuel with
  | O => Undef
  | S fuel =>
      slot ← from_option_ub (entries_ s !! hand_ s);
      if reusable now slot then
        s ← replace_slot (hand_ s) key addresses expiry s;
        Val (set_hand ((hand_ s + 1) mod capacity_ s) s)
      else
        let s := set_slot (hand_ s) (clear_chance <$> slot) s in
        clock_loop fuel key addresses expiry now (set_hand ((hand_ s + 1) mod capacity_ s) s)
  end.

(** One full turn clears every second chance, so one more step finds a slot. *)
Definition clock_fuel (s : CacheShard) : nat := S (capacity_ s).

Definition put (s : CacheShard) (key : CacheKey) (addresses : list IPAddress) (ttl_seconds now : Z)
    : total CacheShard :=
  if (capacity_ s =? 0)%nat then Val s
  else
    let existing := index_ s !! key in
    if (ttl_seconds =? 0) || (match addresses with [] => true | _ => false end) then
      match existing with
      | Some i =>
          _ ← from_option_ub (entries_ s !! i);
          Val (set_index (delete key (index_ s)) (set_slot i None s))
      | None => Val s
      end
    else
      expiry ← int64 (now + ttl_seconds * nanos);
      match existing with
      | Some i =>
          slot ← from_option_ub (entries_ s !! i);
          entry ← from_option_ub slot;
          Val (set_slot i (Some (mkCacheEntry (entry_key entry) addresses expiry true)) s)
      | None =>
          if (length (entries_ s) <? capacity_ s)%nat then
            let slot_index := length (entries_ s) in
            let s := mkCacheShard (capacity_ s) (hand_ s)
                       (entries_ s ++ [Some (mkCacheEntry key addresses expiry true)]) (index_ s) in
            Val (set_index (<[key := slot_index]> (index_ s)) s)
          else clock_loop (clock_fuel s) key addresses expiry now s
      end.

(** The overload for a single address. *)
Definition put_address (s : CacheShard) (key : CacheKey) (address : IPAddress) (ttl_seconds now : Z)
    : total CacheShard :=
  if (capacity_ s =? 0)%nat then Val s else put s key [address] ttl_seconds now.

Inductive CacheException := invalid_argument | out_of_range.

Record DNS_Cache := mkDNS_Cache { total_capacity_ : nat; shards_ : list CacheShard }.

Definition make_cache (total_capacity shard_count : nat) : outcome CacheException DNS_Cache :=
  if (shard_count =? 0)%nat then Err invalid_argument
  else
    let base_capacity := (total_capacity / shard_count)%nat in
    let remainder := (total_capacity mod shard_count)%nat in
    Val (mkDNS_Cache total_capacity
           (map (λ index, new_shard (base_capacity + if (index <? remainder)%nat then 1 else 0))
                (seq 0 shard_count))).

Definition shard (c : DNS_Cache) (worker_id : nat) : outcome CacheException CacheShard :=
  match shards_ c !! worker_id with Some s => Val s | None => Err out_of_range end.

(** ** The slot/index invariant *)
Record shard_wf (s : CacheShard) : Prop := {
  wf_capacity : (length (entries_ s) ≤ capacity_ s)%nat;
  wf_hand : (hand_ s < capacity_ s)%nat ∨ hand_ s = 0%nat;
  wf_index k i : index_ s !! k = Some i ↔
                 ∃ e, entries_ s !! i = Some (Some e) ∧ entry_key e = k;
}.

(** What a client can observe: the addresses and expiry stored for each key. *)
Definition view_entry (e : CacheEntry) : list IPAddress * Z := (entry_addresses e, expiry e).
Definition view (s : CacheShard) : gmap CacheKey (list IPAddress * Z) :=
  omap (λ i, slot ← entries_ s !! i; e ← slot; Some (view_entry e)) (index_ s).

Section shard_facts.
Context (s : CacheShard) (Hwf : shard_wf s).

Lemma view_lookup k v :
  view s !! k = Some v ↔
  ∃ i e, entries_ s !! i = Some (Some e) ∧ entry_key e = k ∧ view_entry e = v.
Proof using Hwf.
  unfold view. rewrite lookup_omap_Some. split.
  - intros (i & Hv & Hi). apply (wf_index _ Hwf) in Hi as (e & He & <-).
    rewrite He in Hv. injection Hv as Hv. eauto.
  - intros (i & e & He & <- & <-). exists i. split; [by rewrite He |].
    apply (wf_index _ Hwf). eauto.
Qed.

Lemma view_none k : view s !! k = None ↔ index_ s !! k = None.
Proof using Hwf.
  split.
  - intros Hv. destruct (index_ s !! k) as [i |] eqn:Hi; [| done].
    apply (wf_index _ Hwf) in Hi as (e & He & <-).
    assert (view s !! entry_key e = Some (view_entry e)) as H by (apply view_lookup; eauto).
    congruence.
  - intros Hi. unfold view. by rewrite lookup_omap, Hi.
Qed.

Lemma slot_unique i j e f :
  entries_ s !! i = Some (Some e) → entries_ s !! j = Some (Some f) →
  entry_key e = entry_key f → i = j.
Proof using Hwf.
  intros Hi Hj Hk.
  assert (index_ s !! entry_key e = Some i) by (apply (wf_index _ Hwf); eauto).
  assert (index_ s !! entry_key f = Some j) by (apply (wf_index _ Hwf); eauto).
  congruence.
Qed.

(** Emptying the slot of [k] together with its index entry. *)
Lemma drop_wf k i :
  index_ s !! k = Some i →
  shard_wf (set_slot i None (set_index (delete k (index_ s)) s)) ∧
  view (set_slot i None (set_index (delete k (index_ s)) s)) = delete k (view s).
Proof using Hwf.
  intros Hi. pose proof Hi as (e & He & Hke)%(wf_index _ Hwf).
  assert (shard_wf (set_slot i None (set_index (delete k (index_ s)) s))) as Hwf'.
  { destruct Hwf as [Hc Hh _]. split; simpl; [by rewrite length_insert | done |].
    intros k' j. rewrite lookup_delete_Some, (wf_index _ Hwf). split.
    - intros (Hk & f & Hf & Hkf). exists f. split; [| done].
      rewrite list_lookup_insert_ne; [done |]. intros ->. congruence.
    - intros (f & Hf & Hkf). apply list_lookup_insert_Some in Hf as [(_ & ? & _) | [Hij Hf]]; [done |].
      split; [| eauto]. intros ->. apply Hij. eapply slot_unique; eauto. congruence. }
  split; [done |]. apply map_eq. intros k'. apply option_eq. intros v.
  rewrite lookup_delete_Some. unfold view at 1. rewrite lookup_omap_Some. simpl.
  unfold view. rewrite lookup_omap_Some. split.
  - intros (j & Hv & [Hk Hj]%lookup_delete_Some). split; [done |]. exists j. split; [| done].
    rewrite list_lookup_insert_ne in Hv; [done |]. intros ->.
    apply (wf_index _ Hwf) in Hj as (f & Hf & <-). congruence.
  - intros (Hk & j & Hv & Hj). exists j. rewrite lookup_delete_Some. split; [| done].
    rewrite list_lookup_insert_ne; [done |]. intros ->.
    apply (wf_index _ Hwf) in Hj as (f & Hf & <-). congruence.
Qed.

(** Overwriting an occupied slot without changing its key. *)
Lemma update_wf i e f :
  entries_ s !! i = Some (Some e) → entry_key f = entry_key e →
  shard_wf (set_slot i (Some f) s) ∧
  view (set_slot i (Some f) s) = <[entry_key e := view_entry f]> (view s).
Proof using Hwf.
  intros He Hk.
  assert (i < length (entries_ s))%nat as Hlt by (by eapply lookup_lt_Some).
  assert (index_ s !! entry_key e = Some i) as Hi by (apply (wf_index _ Hwf); eauto).
  split.
  - destruct Hwf as [Hc Hh _]. split; simpl; [by rewrite length_insert | done |].
    intros k j. rewrite (wf_index _ Hwf). split; intros (g & Hg & Hkg).
    + destruct (decide (i = j)) as [<- | Hij].
      * exists f. rewrite list_lookup_insert_eq by done. split; [done |]. congruence.
      * exists g. by rewrite list_lookup_insert_ne.
    + apply list_lookup_insert_Some in Hg as [(<- & [= <-] & _) | [Hij Hg]]; eauto.
      exists e. split; [done |]. congruence.
  - apply map_eq. intros k. unfold view. simpl. rewrite lookup_omap.
    destruct (decide (k = entry_key e)) as [-> | Hne].
    + rewrite lookup_insert_eq, Hi. simpl. by rewrite list_lookup_insert_eq.
    + rewrite lookup_insert_ne, lookup_omap by done.
      destruct (index_ s !! k) as [j |] eqn:Hj; [| done]. simpl.
      rewrite list_lookup_insert_ne; [done |]. intros ->.
      apply (wf_index _ Hwf) in Hj as (g & Hg & <-). congruence.
Qed.

(** [shard_size] counts the occupied slots. *)
Lemma size_le_entries : (shard_size s ≤ length (entries_ s))%nat.
Proof using Hwf.
  unfold shard_size. rewrite <- (length_map_to_list (index_ s)), <- (length_map snd).
  rewrite <- (length_seq (length (entries_ s)) 0).
  apply submseteq_length, NoDup_submseteq.
  - apply NoDup_fmap_2_strong; [| apply NoDup_map_to_list].
    intros [k i] [k' j] Hk%elem_of_map_to_list Hk'%elem_of_map_to_list Hij. simpl in Hij. subst j.
    apply (wf_index _ Hwf) in Hk as (e & He & <-).
    apply (wf_index _ Hwf) in Hk' as (f & Hf & <-). congruence.
  - intros i (p & -> & Hp)%list_elem_of_fmap. destruct p as [k j].
    apply elem_of_map_to_list, (wf_index _ Hwf) in Hp as (e & He & _).
    apply lookup_lt_Some in He. simpl. apply elem_of_seq. lia.
Qed.
End shard_facts.

(** Filling an empty slot with a new key. *)
Lemma fill_wf s i f :
  shard_wf s → entries_ s !! i = Some None → index_ s !! entry_key f = None →
  let s' := set_index (<[entry_key f := i]> (index_ s)) (set_slot i (Some f) s) in
  shard_wf s' ∧ view s' = <[entry_key f := view_entry f]> (view s).
Proof.
  intros Hwf He Hnone s'.
  assert (i < length (entries_ s))%nat as Hlt by (by eapply lookup_lt_Some).
  split.
  - destruct (Hwf) as [Hc Hh _]. split; simpl; [by rewrite length_insert | done |].
    intros k j. rewrite lookup_insert_Some, (wf_index _ Hwf). split.
    + intros [[<- <-] | (Hk & g & Hg & <-)].
      * exists f. by rewrite list_lookup_insert_eq.
      * exists g. rewrite list_lookup_insert_ne; [done |]. intros ->. congruence.
    + intros (g & Hg & <-).
      apply list_lookup_insert_Some in Hg as [(<- & [= <-] & _) | [Hij Hg]]; [by left |].
      right. split; [| eauto]. intros Hk.
      assert (index_ s !! entry_key g = Some j) by (apply (wf_index _ Hwf); eauto). congruence.
  - apply map_eq. intros k. unfold view. simpl. rewrite lookup_omap.
    destruct (decide (k = entry_key f)) as [-> | Hne].
    + rewrite !lookup_insert_eq. simpl. by rewrite list_lookup_insert_eq.
    + rewrite !lookup_insert_ne, lookup_omap by done.
      destruct (index_ s !! k) as [j |] eqn:Hj; [| done]. simpl.
      rewrite list_lookup_insert_ne; [done |]. intros ->.
      apply (wf_index _ Hwf) in Hj as (g & Hg & <-). congruence.
Qed.

Lemma append_wf s f :
  shard_wf s → (length (entries_ s) < capacity_ s)%nat → index_ s !! entry_key f = None →
  let s' := set_index (<[entry_key f := length (entries_ s)]> (index_ s))
              (mkCacheShard (capacity_ s) (hand_ s) (entries_ s ++ [Some f]) (index_ s)) in
  shard_wf s' ∧ view s' = <[entry_key f := view_entry f]> (view s).
Proof.
  intros Hwf Hlt Hnone s'.
  set (s1 := mkCacheShard (capacity_ s) (hand_ s) (entries_ s ++ [None]) (index_ s)).
  assert (∀ i g, entries_ s1 !! i = Some (Some g) ↔ entries_ s !! i = Some (Some g)) as Hs1.
  { intros i g. simpl. rewrite lookup_app_Some. split; [| by left].
    intros [? | [_ Hg]]; [done |]. by apply list_lookup_singleton_Some in Hg as [_ ?]. }
  assert (shard_wf s1) as Hwf1.
  { destruct (Hwf) as [Hc Hh _]. split; [simpl; rewrite length_app; simpl; lia | done |].
    intros k i. change (index_ s1) with (index_ s). rewrite (wf_index _ Hwf). by setoid_rewrite Hs1. }
  assert (view s1 = view s) as Hv1.
  { apply map_eq. intros k. apply option_eq. intros v. rewrite !view_lookup by done.
    by setoid_rewrite Hs1. }
  destruct (fill_wf s1 (length (entries_ s)) f Hwf1) as [H1 H2];
    [simpl; by rewrite list_lookup_middle | done |].
  rewrite Hv1 in H2.
  unfold s1, set_index, set_slot in H1, H2; simpl in H1, H2.
  by rewrite insert_app_r_alt, Nat.sub_diag in H1, H2 by lia.
Qed.

Lemma set_hand_wf s h :
  shard_wf s → (h < capacity_ s)%nat → shard_wf (set_hand h s).
Proof. intros [Hc _ Hi] Hh. split; simpl; auto. Qed.

(** ** Lookup *)
Definition hit_of (v : list IPAddress * Z) (now : Z) : CacheHit :=
  mkCacheHit v.1 (Z.max 1 (Z.min (ceil_seconds (v.2 - now)) uint32_max)).

(** A time point for which the sums and differences of the code are in range:
    a monotonic clock that started at zero, within a century of uptime. *)
Definition clock_ok (now : Z) : Prop := 0 ≤ now ≤ int64_max - uint32_max * nanos.

Definition expiries_ok (s : CacheShard) : Prop := map_Forall (λ _ v, v.2 ≤ int64_max) (view s).

Lemma int64_ok z : int64_min ≤ z ≤ int64_max → int64 z = Val z.
Proof. intros ?. unfold int64. rewrite !(proj2 (Z.leb_le _ _)); [done | lia | lia]. Qed.

Lemma get_spec s k now :
  shard_wf s → expiries_ok s → clock_ok now →
  match view s !! k with
  | Some v =>
      if v.2 <=? now
      then ∃ s', get s k now = Val (None, s') ∧ shard_wf s' ∧ view s' = delete k (view s)
      else ∃ s', get s k now = Val (Some (hit_of v now), s') ∧ shard_wf s' ∧ view s' = view s
  | None => get s k now = Val (None, s)
  end.
Proof.
  intros Hwf Hexp Hnow. destruct (view s !! k) as [v |] eqn:Hv.
  - pose proof (Hexp _ _ Hv) as Hx'. apply view_lookup in Hv as (i & e & He & <- & <-); [| done].
    simpl in Hx'. assert (index_ s !! entry_key e = Some i) as Hi by (apply (wf_index _ Hwf); eauto).
    unfold get. rewrite Hi, He. cbn [from_option_ub mbind outcome_bind view_entry snd].
    destruct (expiry e <=? now) eqn:Hx.
    + eexists. split; [done |]. by apply drop_wf.
    + bool_hyps. rewrite int64_ok by (unfold clock_ok, int64_min in *; lia).
      eexists. split; [done |]. destruct (update_wf s Hwf i e
        (mkCacheEntry (entry_key e) (entry_addresses e) (expiry e) true) He eq_refl) as [H1 H2].
      split; [done |]. rewrite H2. apply insert_id. apply view_lookup; [done |]. eauto.
  - apply view_none in Hv; [| done]. unfold get. by rewrite Hv.
Qed.

(** ** The CLOCK hand *)
Lemma mod_wrap h d c :
  (h < c)%nat → (d ≤ c)%nat →
  ((h + d) mod c)%nat = if (h + d <? c)%nat then (h + d)%nat else (h + d - c)%nat.
Proof.
  intros Hh Hd. destruct (h + d <? c)%nat eqn:E; bool_hyps; [by apply Nat.mod_small |].
  symmetry. apply (Nat.mod_unique _ _ 1); lia.
Qed.

(** [s1] is [s] after some hand movements: the same entries, less some of the
    second chances. *)
Record demoted (now : Z) (s s1 : CacheShard) : Prop := {
  dem_capacity : capacity_ s1 = capacity_ s;
  dem_index : index_ s1 = index_ s;
  dem_length : length (entries_ s1) = length (entries_ s);
  dem_slot i slot : entries_ s !! i = Some slot →
    entries_ s1 !! i = Some slot ∨
    (reusable now slot = false ∧ entries_ s1 !! i = Some (clear_chance <$> slot));
}.

#[export] Instance demoted_refl now : Reflexive (demoted now).
Proof. split; auto. Qed.

Lemma clear_chance_reusable now slot : reusable now (clear_chance <$> slot) = true.
Proof. destruct slot as [e |]; [| done]. simpl. by rewrite orb_true_r. Qed.

#[export] Instance demoted_trans now : Transitive (demoted now).
Proof.
  intros s1 s2 s3 H12 H23. split.
  - by rewrite (dem_capacity _ _ _ H23), (dem_capacity _ _ _ H12).
  - by rewrite (dem_index _ _ _ H23), (dem_index _ _ _ H12).
  - by rewrite (dem_length _ _ _ H23), (dem_length _ _ _ H12).
  - intros i slot Hi. destruct (dem_slot _ _ _ H12 i slot Hi) as [H | [Hr H]].
    + by apply (dem_slot _ _ _ H23).
    + destruct (dem_slot _ _ _ H23 _ _ H) as [H' | [Hr' _]]; [by right |].
      by rewrite clear_chance_reusable in Hr'.
Qed.

Lemma demoted_back now s s1 i slot :
  demoted now s s1 → entries_ s1 !! i = Some slot →
  ∃ slot0, entries_ s !! i = Some slot0 ∧
    (slot = slot0 ∨ reusable now slot0 = false ∧ slot = clear_chance <$> slot0).
Proof.
  intros H Hi.
  assert (is_Some (entries_ s !! i)) as [slot0 H0].
  { apply lookup_lt_is_Some. rewrite <- (dem_length _ _ _ H). by eapply lookup_lt_Some. }
  exists slot0. split; [done |]. destruct (dem_slot _ _ _ H i slot0 H0) as [H1 | [Hr H1]]; [left | right];
    try split; congruence.
Qed.

Lemma demoted_wf now s s1 :
  demoted now s s1 → (hand_ s1 < capacity_ s)%nat → shard_wf s → shard_wf s1 ∧ view s1 = view s.
Proof.
  intros H Hh Hwf.
  assert (∀ i k v, (∃ e, entries_ s1 !! i = Some (Some e) ∧ entry_key e = k ∧ view_entry e = v) ↔
                   (∃ e, entries_ s !! i = Some (Some e) ∧ entry_key e = k ∧ view_entry e = v)) as Hsame.
  { intros i k v. split; intros (e & He & <- & <-).
    - apply (demoted_back _ _ _ _ _ H) in He as ([f |] & Hf & [[= ->] | [_ [= ->]]]); eauto.
    - apply (dem_slot _ _ _ H) in He as [He | [_ He]]; eauto. }
  assert (∀ i k, (∃ e, entries_ s1 !! i = Some (Some e) ∧ entry_key e = k) ↔
                 (∃ e, entries_ s !! i = Some (Some e) ∧ entry_key e = k)) as Hkey.
  { intros i k. split; intros (e & He & Hk);
      [destruct (proj1 (Hsame i k (view_entry e))) as (f & ? & ? & ?)
      |destruct (proj2 (Hsame i k (view_entry e))) as (f & ? & ? & ?)]; eauto. }
  assert (shard_wf s1) as Hwf1.
  { destruct (Hwf) as [Hc _ Hi]. split.
    - by rewrite (dem_length _ _ _ H), (dem_capacity _ _ _ H).
    - left. by rewrite (dem_capacity _ _ _ H).
    - intros k i. by rewrite (dem_index _ _ _ H), Hi, Hkey. }
  split; [done |]. apply map_eq. intros k. apply option_eq. intros v.
  rewrite !view_lookup by done. by setoid_rewrite Hsame.
Qed.

(** One turn of the loop that gives the slot under the hand its last chance. *)
Lemma demoted_step now s slot :
  entries_ s !! hand_ s = Some slot → reusable now slot = false →
  demoted now s (set_hand ((hand_ s + 1) mod capacity_ s) (set_slot (hand_ s) (clear_chance <$> slot) s)).
Proof.
  intros Hs Hr. split; simpl; [done | done | by rewrite length_insert |].
  intros i slot' Hi. destruct (decide (hand_ s = i)) as [<- | Hne].
  - right. rewrite list_lookup_insert_eq by (by eapply lookup_lt_Some). split; congruence.
  - left. by rewrite list_lookup_insert_ne.
Qed.

Section clock.
Context (key : CacheKey) (addresses : list IPAddress) (exp now : Z).

(** The final turn: the slot under the hand is taken over. *)
Definition take_over (s : CacheShard) : total CacheShard :=
  s ← replace_slot (hand_ s) key addresses exp s;
  Val (set_hand ((hand_ s + 1) mod capacity_ s) s).

(** If a reusable slot lies [d] positions ahead, the loop stops at a slot that
    was reusable from the start, within [d] steps. *)
Lemma clock_loop_ahead d fuel s slot :
  (d < fuel)%nat → (d < capacity_ s)%nat → (hand_ s < capacity_ s)%nat →
  entries_ s !! ((hand_ s + d) mod capacity_ s)%nat = Some slot → reusable now slot = true →
  length (entries_ s) = capacity_ s →
  ∃ s1 j slot1, (j ≤ d)%nat ∧ hand_ s1 = ((hand_ s + j) mod capacity_ s)%nat ∧ demoted now s s1 ∧
    entries_ s !! hand_ s1 = Some slot1 ∧ reusable now slot1 = true ∧
    clock_loop fuel key addresses exp now s = take_over s1.
Proof using Type.
  revert fuel s. induction d as [| d IH]; intros [| fuel] s Hf Hd Hh Hslot Hr Hlen; try lia.
  - rewrite Nat.add_0_r, Nat.mod_small in Hslot by done.
    exists s, 0%nat, slot. rewrite Nat.add_0_r, Nat.mod_small by done. split_and!; try done.
    cbn [clock_loop]. rewrite Hslot. cbn [from_option_ub mbind outcome_bind]. by rewrite Hr.
  - destruct (lookup_lt_is_Some_2 (entries_ s) (hand_ s)) as [here Hhere]; [lia |].
    destruct (reusable now here) eqn:Hrh.
    { exists s, 0%nat, here. rewrite Nat.add_0_r, Nat.mod_small by done. split_and!; try done; [lia |].
      cbn [clock_loop]. rewrite Hhere. cbn [from_option_ub mbind outcome_bind]. by rewrite Hrh. }
    pose proof (demoted_step now s here Hhere Hrh) as Hdem.
    set (s' := set_hand _ _) in Hdem.
    assert (hand_ s' = (hand_ s + 1) mod capacity_ s)%nat as Hh' by done.
    assert (capacity_ s' = capacity_ s) as Hc' by done.
    rewrite mod_wrap in Hslot, Hh' by lia.
    destruct (IH fuel s') as (s1 & j & slot1 & Hj & Hhand & Hd1 & Hslot1 & Hr1 & Heq).
    + lia.
    + rewrite Hc'. lia.
    + rewrite Hc', Hh'. case_goal; bool_hyps; lia.
    + rewrite Hc', mod_wrap by (try case_goal; rewrite ?Hh'; try case_goal; bool_hyps; lia).
      rewrite <- Hslot, Hh'. unfold s'. cbn [entries_ set_hand set_slot]. rewrite list_lookup_insert_ne.
      * f_equal. repeat (case_goal; bool_hyps); lia.
      * intros Heq. enough (Some here = Some slot) by congruence. rewrite <- Hhere, <- Hslot.
        f_equal. rewrite Heq. repeat (case_goal; bool_hyps); lia.
    + done.
    + by rewrite (dem_length _ _ _ Hdem), Hc'.
    + rewrite Hc', mod_wrap in Hhand by (rewrite ?Hh'; try case_goal; bool_hyps; lia).
      exists s1, (S j), slot1. split_and!; try done.
      * lia.
      * rewrite Hhand, mod_wrap by lia. rewrite Hh'. repeat (case_goal; bool_hyps); lia.
      * by etrans.
      * rewrite <- Hslot1, Hhand, Hh'. unfold s'. cbn [entries_ set_hand set_slot].
        rewrite list_lookup_insert_ne; [done |]. repeat (case_goal; bool_hyps); lia.
      * rewrite <- Heq. cbn [clock_loop]. rewrite Hhere. cbn [from_option_ub mbind outcome_bind].
        by rewrite Hrh.
Qed.

(** The loop of [put] on a full shard: it ends, at a slot that was reusable if
    there is one, and at the slot under the hand after a full turn if not. *)
Lemma clock_loop_stops s :
  (0 < capacity_ s)%nat → (hand_ s < capacity_ s)%nat → length (entries_ s) = capacity_ s →
  ∃ s1 slot1, demoted now s s1 ∧ (hand_ s1 < capacity_ s)%nat ∧
    entries_ s !! hand_ s1 = Some slot1 ∧
    (reusable now slot1 = true ∨ ∀ i slot, entries_ s !! i = Some slot → reusable now slot = false) ∧
    clock_loop (clock_fuel s) key addresses exp now s = take_over s1.
Proof using Type.
  intros Hc Hh Hlen. unfold clock_fuel.
  destruct (decide (Exists (λ slot, reusable now slot = true) (entries_ s))) as [Hex | Hno].
  - apply Exists_exists in Hex as (slot & (i & Hi)%list_elem_of_In%list_elem_of_lookup & Hr).
    pose proof (lookup_lt_Some _ _ _ Hi) as Hlt. rewrite Hlen in Hlt.
    destruct (clock_loop_ahead (if (hand_ s <=? i)%nat then i - hand_ s else i + capacity_ s - hand_ s)
                (S (capacity_ s)) s slot) as (s1 & j & slot1 & Hj & Hhand & Hd & Hs1 & Hr1 & Heq); try done.
    + case_goal; bool_hyps; lia.
    + case_goal; bool_hyps; lia.
    + rewrite mod_wrap by (try case_goal; bool_hyps; lia). rewrite <- Hi. f_equal.
      repeat (case_goal; bool_hyps); lia.
    + exists s1, slot1. split_and!; try done; [| by left].
      rewrite Hhand. apply Nat.mod_upper_bound. lia.
  - assert (∀ i slot, entries_ s !! i = Some slot → reusable now slot = false) as Hall.
    { intros i slot Hi. apply not_true_iff_false. intros Hr. apply Hno, Exists_exists.
      exists slot. split; [by eapply list_elem_of_In, list_elem_of_lookup_2 | done]. }
    destruct (lookup_lt_is_Some_2 (entries_ s) (hand_ s)) as [here Hhere]; [lia |].
    pose proof (Hall _ _ Hhere) as Hrh.
    pose proof (demoted_step now s here Hhere Hrh) as Hdem.
    set (s' := set_hand _ _) in Hdem.
    assert (hand_ s' = (hand_ s + 1) mod capacity_ s)%nat as Hh' by done.
    assert (capacity_ s' = capacity_ s) as Hc' by done.
    rewrite mod_wrap in Hh' by lia.
    destruct (clock_loop_ahead (capacity_ s - 1) (capacity_ s) s' (clear_chance <$> here))
      as (s1 & j & slot1 & Hj & Hhand & Hd1 & Hslot1 & Hr1 & Heq).
    + lia.
    + rewrite Hc'. lia.
    + rewrite Hc', Hh'. case_goal; bool_hyps; lia.
    + rewrite Hc', mod_wrap by (rewrite ?Hh'; try case_goal; bool_hyps; lia).
      rewrite Hh'. unfold s'. cbn [entries_ set_hand set_slot]. rewrite list_lookup_insert_Some. left.
      split_and!; [| done |]; repeat (case_goal; bool_hyps); lia.
    + apply clear_chance_reusable.
    + by rewrite (dem_length _ _ _ Hdem), Hc'.
    + assert (hand_ s1 < capacity_ s)%nat as Hlt
        by (rewrite Hhand, Hc'; apply Nat.mod_upper_bound; lia).
      destruct (lookup_lt_is_Some_2 (entries_ s) (hand_ s1)) as [slot0 Hslot0]; [lia |].
      exists s1, slot0. split_and!; try done; [by etrans | by right |].
      rewrite <- Heq. cbn [clock_loop]. rewrite Hhere. cbn [from_option_ub mbind outcome_bind].
      by rewrite Hrh.
Qed.
End clock.

(** ** Insertion *)
Definition remove_key (victim : option CacheKey) (m : gmap CacheKey (list IPAddress * Z))
    : gmap CacheKey (list IPAddress * Z) :=
  match victim with Some k => delete k m | None => m end.

Lemma take_over_spec key addresses exp s slot :
  shard_wf s → (hand_ s < capacity_ s)%nat → entries_ s !! hand_ s = Some slot →
  index_ s !! key = None →
  ∃ s', take_over key addresses exp s = Val s' ∧ shard_wf s' ∧ capacity_ s' = capacity_ s ∧
        view s' = <[key := (addresses, exp)]> (remove_key (entry_key <$> slot) (view s)).
Proof.
  intros Hwf Hh Hslot Hnone. unfold take_over, replace_slot.
  rewrite Hslot. cbn [from_option_ub mbind outcome_bind].
  pose proof (lookup_lt_Some _ _ _ Hslot) as Hlt.
  set (f := mkCacheEntry key addresses exp true).
  assert (∃ s1, shard_wf s1 ∧ capacity_ s1 = capacity_ s ∧ entries_ s1 !! hand_ s = Some None ∧
    index_ s1 !! key = None ∧ view s1 = remove_key (entry_key <$> slot) (view s) ∧
    set_slot (hand_ s) (Some f) (match slot with
       | Some e => set_index (delete (entry_key e) (index_ s)) s | None => s end) =
    set_slot (hand_ s) (Some f) s1) as (s1 & Hwf1 & Hc1 & Hs1 & Hn1 & Hv1 & ->).
  { destruct slot as [e |]; [| by exists s].
    assert (index_ s !! entry_key e = Some (hand_ s)) as Hi by (apply (wf_index _ Hwf); eauto).
    destruct (drop_wf s Hwf _ _ Hi) as [H1 H2]. eexists. split_and!; [exact H1 | done | | | exact H2 |].
    - simpl. by rewrite list_lookup_insert_eq.
    - simpl. apply lookup_delete_None. by right.
    - unfold set_slot; simpl. by rewrite list_insert_insert_eq. }
  destruct (fill_wf s1 (hand_ s) f Hwf1 Hs1 Hn1) as [H1 H2].
  rewrite Hv1 in H2. eexists. split; [reflexivity |]. cbn [index_ set_slot]. rewrite Hn1.
  split_and!; [| done | exact H2].
  apply set_hand_wf; [exact H1 |]. simpl. apply Nat.mod_upper_bound. lia.
Qed.

(** The slot whose entry gives way to a new key. *)
Definition evictable (now : Z) (s : CacheShard) (k : CacheKey) : Prop :=
  ∃ i e, entries_ s !! i = Some (Some e) ∧ entry_key e = k ∧
    (reusable now (Some e) = true ∨ ∀ j slot, entries_ s !! j = Some slot → reusable now slot = false).

Lemma put_spec s key addresses ttl now :
  shard_wf s → clock_ok now → 0 ≤ ttl ≤ uint32_max →
  ∃ s', put s key addresses ttl now = Val s' ∧ shard_wf s' ∧ capacity_ s' = capacity_ s ∧
    if (capacity_ s =? 0)%nat then s' = s
    else if (ttl =? 0) || bool_decide (addresses = []) then view s' = delete key (view s)
    else ∃ victim, view s' = <[key := (addresses, now + ttl * nanos)]> (remove_key victim (view s)) ∧
      ∀ k, victim = Some k →
        view s !! key = None ∧ length (entries_ s) = capacity_ s ∧ evictable now s k.
Proof.
  intros Hwf Hnow Httl. unfold put.
  destruct (capacity_ s =? 0)%nat eqn:Hcap; [by exists s |]. bool_hyps.
  replace (match addresses with [] => true | _ => false end) with (bool_decide (addresses = []))
    by (by destruct addresses).
  destruct ((ttl =? 0) || bool_decide (addresses = [])) eqn:Hdrop.
  { destruct (index_ s !! key) as [i |] eqn:Hi.
    - pose proof Hi as (e & He & _)%(wf_index _ Hwf). rewrite He. eexists. split; [done |].
      destruct (drop_wf s Hwf _ _ Hi). split; [done |]. by split.
    - exists s. split_and!; try done. by rewrite delete_id; [| apply view_none]. }
  rewrite int64_ok; [| unfold clock_ok, int64_min, int64_max, uint32_max, nanos in *; lia].
  cbn [mbind outcome_bind]. destruct (index_ s !! key) as [i |] eqn:Hi.
  - pose proof Hi as (e & He & <-)%(wf_index _ Hwf). rewrite He. cbn [from_option_ub].
    eexists. split; [done |].
    destruct (update_wf s Hwf i e (mkCacheEntry (entry_key e) addresses (now + ttl * nanos) true) He eq_refl)
      as [H1 H2].
    split; [done |]. split; [done |]. by exists None.
  - destruct (length (entries_ s) <? capacity_ s)%nat eqn:Hfull; bool_hyps.
    + eexists. split; [done |].
      destruct (append_wf s (mkCacheEntry key addresses (now + ttl * nanos) true) Hwf Hfull Hi) as [H1 H2].
      split; [done |]. split; [done |]. by exists None.
    + assert (length (entries_ s) = capacity_ s) as Hlen by (destruct Hwf; lia).
      assert (hand_ s < capacity_ s)%nat as Hh by (destruct (wf_hand _ Hwf); lia).
      destruct (clock_loop_stops key addresses (now + ttl * nanos) now s)
        as (s1 & slot & Hdem & Hh1 & Hslot & Hwhy & ->); [lia | done | done |].
      destruct (demoted_wf _ _ _ Hdem Hh1 Hwf) as [Hwf1 Hv1].
      destruct (take_over_spec key addresses (now + ttl * nanos) s1
                  (default slot (entries_ s1 !! hand_ s1)) Hwf1) as (s' & -> & Hwf' & Hc' & Hv').
      * by rewrite (dem_capacity _ _ _ Hdem).
      * destruct (dem_slot _ _ _ Hdem _ _ Hslot) as [-> | [_ ->]]; done.
      * by rewrite (dem_index _ _ _ Hdem).
      * exists s'. split; [done |]. split; [done |].
        split; [by rewrite Hc', (dem_capacity _ _ _ Hdem) |].
        exists (entry_key <$> slot). rewrite Hv', Hv1. split.
        { destruct (dem_slot _ _ _ Hdem _ _ Hslot) as [-> | [_ ->]]; [done |]. by destruct slot. }
        intros k Hk. apply fmap_Some in Hk as (e & -> & ->).
        split; [by apply view_none |]. split; [done |]. exists (hand_ s1), e. eauto.
Qed.

(** ** Refinement: a bounded, lossy implementation of a map with expiry *)
Inductive CacheOp :=
  | OpGet (key : CacheKey) (now : Z)
  | OpPut (key : CacheKey) (addresses : list IPAddress) (ttl_seconds now : Z).

Definition op_ok (op : CacheOp) : Prop :=
  match op with
  | OpGet _ now => clock_ok now
  | OpPut _ _ ttl now => clock_ok now ∧ 0 ≤ ttl ≤ uint32_max
  end.

Definition run_op (s : CacheShard) (op : CacheOp) : total (option CacheHit * CacheShard) :=
  match op with
  | OpGet key now => get s key now
  | OpPut key addresses ttl now => s ← put s key addresses ttl now; Val (None, s)
  end.

Fixpoint run_ops (s : CacheShard) (ops : list CacheOp) : total (list (option CacheHit) * CacheShard) :=
  match ops with
  | [] => Val ([], s)
  | op :: ops =>
      '(r, s) ← run_op s op;
      '(rs, s) ← run_ops s ops;
      Val (r :: rs, s)
  end.

(** The abstract cache: an unbounded map, an entry of which is served until its
    time to live has passed. *)
Abbreviation SpecCache := (gmap CacheKey (list IPAddress * Z)).

Definition spec_op (m : SpecCache) (op : CacheOp) : option CacheHit * SpecCache :=
  match op with
  | OpGet key now =>
      (v ← m !! key; if v.2 <=? now then None else Some (hit_of v now), m)
  | OpPut key addresses ttl now =>
      (None, if (ttl =? 0) || bool_decide (addresses = []) then delete key m
             else <[key := (addresses, now + ttl * nanos)]> m)
  end.

Fixpoint spec_ops (m : SpecCache) (ops : list CacheOp) : list (option CacheHit) :=
  match ops with
  | [] => []
  | op :: ops => let '(r, m) := spec_op m op in r :: spec_ops m ops
  end.

Record refines (s : CacheShard) (m : SpecCache) : Prop := {
  ref_wf : shard_wf s;
  ref_view : view s ⊆ m;
  ref_expiry : expiries_ok s;
}.

Lemma delete_sub (m m' : SpecCache) k : m ⊆ m' → delete k m ⊆ m'.
Proof. intros H. etrans; [apply delete_subseteq | done]. Qed.

Lemma run_op_refines s m op :
  refines s m → op_ok op →
  ∃ r s', run_op s op = Val (r, s') ∧ capacity_ s' = capacity_ s ∧ refines s' (spec_op m op).2 ∧
          (r = None ∨ r = (spec_op m op).1).
Proof.
  intros [Hwf Hsub Hexp] Hok. destruct op as [k now | k addrs ttl now]; simpl in *.
  - pose proof (get_spec s k now Hwf Hexp Hok) as Hget.
    assert (∀ r s', get s k now = Val (r, s') → capacity_ s' = capacity_ s) as Hc.
    { unfold get. intros r s' H. destruct (index_ s !! k) as [i |]; [| by simplify_eq].
      apply bind_val in H as ([e |] & _ & H); [destruct (expiry e <=? now) |]; [by simplify_eq | | by simplify_eq].
      apply bind_val in H as (d & _ & H). by simplify_eq. }
    destruct (view s !! k) as [v |] eqn:Hv.
    + pose proof (lookup_weaken _ _ _ _ Hv Hsub) as Hm. rewrite Hm. simpl.
      destruct (v.2 <=? now) eqn:Hx; destruct Hget as (s' & Heq & Hwf' & Hv').
      * exists None, s'. split_and!; [done | eauto | | by left]. split; [done | rewrite Hv'; by apply delete_sub |].
        unfold expiries_ok. rewrite Hv'. by apply map_Forall_delete.
      * eexists _, s'. split_and!; [done | eauto | | by right].
        split; [done | by rewrite Hv' | unfold expiries_ok; by rewrite Hv'].
    + exists None, s. split_and!; [done | done | done | by left].
  - destruct Hok as [Hnow Httl].
    destruct (put_spec s k addrs ttl now Hwf Hnow Httl) as (s' & -> & Hwf' & Hc' & Hput).
    exists None, s'. split_and!; [done | done | | by left].
    destruct (capacity_ s =? 0)%nat eqn:H0.
    { subst s'. bool_hyps. assert (view s = ∅) as Hempty.
      { apply map_eq. intros k'. rewrite lookup_empty. apply view_none; [done |].
        destruct (index_ s !! k') as [i |] eqn:Hi; [| done].
        apply (wf_index _ Hwf) in Hi as (e & He & _). apply lookup_lt_Some in He.
        destruct Hwf. lia. }
      split; [done | rewrite Hempty; apply map_empty_subseteq | done]. }
    destruct ((ttl =? 0) || bool_decide (addrs = [])).
    + split; [done | rewrite Hput; by apply delete_mono |].
      unfold expiries_ok. rewrite Hput. by apply map_Forall_delete.
    + destruct Hput as (victim & Hv' & _). split; [done | |].
      * rewrite Hv'. apply insert_mono. destruct victim; [by apply delete_sub | done].
      * unfold expiries_ok. rewrite Hv'. apply map_Forall_insert_2.
        { simpl. unfold clock_ok, int64_max, uint32_max, nanos in *. lia. }
        destruct victim; [by apply map_Forall_delete | done].
Qed.

Lemma run_ops_refines s m ops :
  refines s m → Forall op_ok ops →
  ∃ rs s', run_ops s ops = Val (rs, s') ∧ capacity_ s' = capacity_ s ∧ shard_wf s' ∧
           Forall2 (λ r spec, r = None ∨ r = spec) rs (spec_ops m ops).
Proof.
  revert s m. induction ops as [| op ops IH]; intros s m Href Hok; simpl.
  - exists [], s. split_and!; [done | done | by destruct Href | constructor].
  - apply Forall_cons_iff in Hok as [Hop Hops].
    destruct (run_op_refines s m op Href Hop) as (r & s1 & -> & Hc1 & Href1 & Hr).
    destruct (spec_op m op) as [r' m'] eqn:Hspec. simpl in *.
    destruct (IH s1 m' Href1 Hops) as (rs & s2 & -> & Hc2 & Hwf2 & Hrs).
    exists (r :: rs), s2. split_and!; [done | congruence | done | by constructor].
Qed.

Lemma new_shard_refines capacity : refines (new_shard capacity) ∅.
Proof.
  split.
  - split; simpl; [lia | by right |]. intros k i. rewrite lookup_empty. split; [done |].
    by intros (e & ? & _).
  - unfold view. simpl. by rewrite omap_empty.
  - unfold expiries_ok, view. simpl. rewrite omap_empty. apply map_Forall_empty.
Qed.

(** ** Properties *)


Definition sample_key (b : byte) : CacheKey := mkCacheKey [b] 1 1.
Definition sample_ops : list CacheOp :=
  [OpPut (sample_key x61) [v4 [x01; x02; x03; x04]] 10 0; OpGet (sample_key x61) 9000000001;
   OpPut (sample_key x62) [v4 [x05; x06; x07; x08]] 10 0; OpGet (sample_key x61) 9000000001].


Example sample_run :
  fst <$> (match run_ops (new_shard 1) sample_ops with Val p => Some p | _ => None end) =
  Some [None; Some (mkCacheHit [v4 [x01; x02; x03; x04]] 1); None; None].
Proof. vm_compute. reflexivity. Qed.

(** read your write.  After a [put] of a non-empty address set with a nonzero
    time to live into a shard with room for an entry, and until that time to live
    has passed, [get] of the key returns these addresses with the remaining whole
    seconds rounded up, between 1 and the TTL put in. *)
Theorem put_then_get s key addresses ttl now now' :
  shard_wf s → expiries_ok s → (0 < capacity_ s)%nat → addresses ≠ [] → 0 < ttl ≤ uint32_max →
  clock_ok now → clock_ok now' → now ≤ now' < now + ttl * nanos →
  ∃ s1 s2 remaining,
    put s key addresses ttl now = Val s1 ∧
    get s1 key now' = Val (Some (mkCacheHit addresses remaining), s2) ∧
    remaining = ceil_seconds (now + ttl * nanos - now') ∧ 1 ≤ remaining ≤ ttl.
Proof.
  intros Hwf Hexp Hcap Haddr Httl Hnow Hnow' Hin.
  destruct (run_op_refines s (view s) (OpPut key addresses ttl now)) as (r & s0 & Hrun & _ & Href & _).
  { by split. } { simpl. split; [done | lia]. }
  destruct (put_spec s key addresses ttl now Hwf Hnow) as (s1 & Hput & Hwf1 & _ & Hv); [lia |].
  simpl in Hrun. rewrite Hput in Hrun. simpl in Hrun. simplify_eq.
  rewrite (proj2 (Nat.eqb_neq _ _)), (proj2 (Z.eqb_neq ttl 0)), bool_decide_eq_false_2 in Hv by (done || lia).
  destruct Hv as (victim & Hv & _).
  pose proof (get_spec s0 key now' Hwf1 (ref_expiry _ _ Href) Hnow') as Hget.
  rewrite Hv, lookup_insert_eq in Hget. cbn [snd] in Hget.
  rewrite (proj2 (Z.leb_gt _ _)) in Hget by lia. destruct Hget as (s2 & Hget & _).
  set (d := now + ttl * nanos - now') in *.
  assert (1 ≤ ceil_seconds d ≤ ttl) as Hrange.
  { unfold ceil_seconds, d, nanos in *. clear -Hin Httl. dlia. }
  exists s0, s2, (ceil_seconds d). split_and!; try (done || lia).
  rewrite Hget. unfold hit_of. cbn [fst snd]. fold d. do 5 f_equal. lia.
Qed.

Lemma put_then_get_witness :
  ∃ s1 s2 remaining,
    put (new_shard 2) (sample_key x61) [v4 [x01; x02; x03; x04]] 10 0 = Val s1 ∧
    get s1 (sample_key x61) 9000000001 = Val (Some (mkCacheHit [v4 [x01; x02; x03; x04]] remaining), s2) ∧
    remaining = ceil_seconds (0 + 10 * nanos - 9000000001) ∧ 1 ≤ remaining ≤ 10.
Proof.
  apply (put_then_get (new_shard 2) (sample_key x61) [v4 [x01; x02; x03; x04]] 10 0 9000000001).
  - apply (new_shard_refines 2).
  - apply (new_shard_refines 2).
  - simpl. lia.
  - discriminate.
  - vm_compute. split; congruence.
  - vm_compute. split; congruence.
  - vm_compute. split; congruence.
  - vm_compute. split; congruence.
Defined.

(** second chance.  A [put] loses at most one other key; it does so only when
    the key is new and every slot of the shard is in use by the vector, and the
    victim is expired or has not been read since the hand last passed it, unless
    no slot at all is expired, empty or without its second chance. *)
Theorem put_eviction s key addresses ttl now :
  shard_wf s → clock_ok now → 0 ≤ ttl ≤ uint32_max →
  ∃ s' victim, put s key addresses ttl now = Val s' ∧
    (∀ k, k ≠ key → Some k ≠ victim → view s' !! k = view s !! k) ∧
    ∀ k, victim = Some k → view s !! key = None ∧ length (entries_ s) = capacity_ s ∧ evictable now s k.
Proof.
  intros Hwf Hnow Httl.
  destruct (put_spec s key addresses ttl now Hwf Hnow Httl) as (s' & Hput & _ & _ & Hv).
  exists s'. destruct (capacity_ s =? 0)%nat; [exists None; by subst |].
  destruct (_ || _).
  - exists None. split_and!; [done | | done]. intros k Hk _. by rewrite Hv, lookup_delete_ne.
  - destruct Hv as (victim & Hv & Hvict). exists victim. split_and!; [done | | done].
    intros k Hk Hne. rewrite Hv, lookup_insert_ne by done.
    destruct victim as [k' |]; [| done]. simpl. rewrite lookup_delete_ne; [done | congruence].
Qed.

Lemma put_eviction_witness :
  ∃ s' victim, put (new_shard 1) (sample_key x61) [v4 [x01; x02; x03; x04]] 10 0 = Val s' ∧
    (∀ k, k ≠ sample_key x61 → Some k ≠ victim → view s' !! k = view (new_shard 1) !! k) ∧
    ∀ k, victim = Some k → view (new_shard 1) !! sample_key x61 = None ∧
      length (entries_ (new_shard 1)) = capacity_ (new_shard 1) ∧ evictable 0 (new_shard 1) k.
Proof.
  apply (put_eviction (new_shard 1) (sample_key x61) [v4 [x01; x02; x03; x04]] 10 0).
  - apply (new_shard_refines 1).
  - vm_compute. split; congruence.
  - vm_compute. split; congruence.
Defined.

Lemma sum_split base rem n :
  sum_list (map capacity_ (map (λ i, new_shard (base + if (i <? rem)%nat then 1 else 0)) (seq 0 n))) =
  (base * n + Nat.min rem n)%nat.
Proof.
  induction n as [| n IH]; [simpl; lia |].
  rewrite seq_S, !map_app, sum_list_with_app.
  rewrite IH. simpl. destruct (n <? rem)%nat eqn:E; bool_hyps; lia.
Qed.

(** Capacity split.  [DNS_Cache] rejects zero shards and otherwise builds
    exactly [shard_count] shards whose capacities differ by at most one and add up
    to [total_capacity]. *)
Theorem cache_capacity_split total_capacity shard_count :
  match make_cache total_capacity shard_count with
  | Val c => shard_count ≠ 0%nat ∧ length (shards_ c) = shard_count ∧
             sum_list (map capacity_ (shards_ c)) = total_capacity ∧
             ∀ i s, shard c i = Val s →
               capacity_ s = (total_capacity / shard_count)%nat ∨
               capacity_ s = S (total_capacity / shard_count)
  | Err e => e = invalid_argument ∧ shard_count = 0%nat
  | Undef => False
  end.
Proof.
  unfold make_cache. destruct (shard_count =? 0)%nat eqn:H0; bool_hyps; [done |].
  cbn [shards_]. split_and!; [done | by rewrite length_map, length_seq | |].
  - rewrite sum_split. pose proof (Nat.mod_upper_bound total_capacity shard_count H0).
    pose proof (Nat.div_mod total_capacity shard_count H0). lia.
  - intros i s. unfold shard. cbn [shards_].
    destruct (_ !! i) as [s' |] eqn:Hs; intros [=]; subst s'.
    apply list_lookup_fmap_Some in Hs as (j & -> & _). simpl. case_goal; lia.
Qed.
