(* ===== verification/CachePolicy.v ===== *)
(** * Which upstream answers are cached ([CachePolicy.h], [CachePolicy.cpp]) *)
From S2P Require Import Prelude DomainName DnsMessage DnsQuery DnsCache.
From Stdlib Require Import Strings.Byte.

Record CacheableAddressSet := mkCacheableAddressSet { set_addresses : list IPAddress; set_ttl : Z }.

(** The loop over the answers: addresses so far and the smallest TTL so far. *)
Fixpoint cacheable_loop (answers : list ResourceRecord) (expected_question : Question)
    (result : CacheableAddressSet) : option CacheableAddressSet :=
  match answers with
  | [] => Some result
  | answer :: answers =>
      if negb (name_eqb (rname answer) (qname expected_question)) ||
         negb (rtype answer =? qtype expected_question) ||
         negb (record_class answer =? question_class expected_question) || (ttl answer =? 0)
      then None
      else
        addresses ←
          (if (rtype answer =? record_type_value A) && (length (rdata answer) =? 4)%nat
           then Some (set_addresses result ++ [v4 (rdata answer)])
           else if (rtype answer =? record_type_value AAAA) && (length (rdata answer) =? 16)%nat
           then Some (set_addresses result ++ [v6 (rdata answer)])
           else None);
        cacheable_loop answers expected_question
          (mkCacheableAddressSet addresses (Z.min (set_ttl result) (ttl answer)))
  end.

Definition cacheable_address_set (response : Message) (expected_question : Question) : option CacheableAddressSet :=
  let h := header response in
  if negb (is_response h) || truncated h || negb (response_code h =? response_code_value NoError) ||
     negb (length (questions response) =? 1)%nat ||
     negb (match head (questions response) with
           | Some q => question_eqb q expected_question
           | None => false
           end) ||
     is_empty (answers response) || (65535 <? Z.of_nat (length (answers response))) ||
     negb (is_empty (authorities response)) || negb (is_empty (additionals response))
  then None
  else cacheable_loop (answers response) expected_question (mkCacheableAddressSet [] uint32_max).

(** ** What is admitted *)

(** A record of the direct address RRset of the question. *)
Definition direct_address (q : Question) (r : ResourceRecord) : Prop :=
  name_eqb (rname r) (qname q) = true ∧ rtype r = qtype q ∧ record_class r = question_class q ∧ ttl r ≠ 0 ∧
  ((rtype r = record_type_value A ∧ length (rdata r) = 4%nat) ∨
   (rtype r = record_type_value AAAA ∧ length (rdata r) = 16%nat)).

Definition address_of (r : ResourceRecord) : IPAddress :=
  if rtype r =? record_type_value A then v4 (rdata r) else v6 (rdata r).

Definition min_ttl (start : Z) (rs : list ResourceRecord) : Z := foldl (λ t r, Z.min t (ttl r)) start rs.

Lemma cacheable_loop_spec rs q acc res :
  cacheable_loop rs q acc = Some res ↔
  Forall (direct_address q) rs ∧
  res = mkCacheableAddressSet (set_addresses acc ++ map address_of rs) (min_ttl (set_ttl acc) rs).
Proof.
  revert acc. induction rs as [| r rs IH]; intros acc; cbn [cacheable_loop].
  { destruct acc. simpl. rewrite app_nil_r. split; [intros [= <-]; by split; [constructor |] | by intros [_ ->]]. }
  rewrite Forall_cons_iff. destruct (negb _ || _ || _ || _) eqn:Hguard.
  { split; [done |]. intros [[(Hn & Ht & Hc & Httl & _) _] _]. exfalso.
    rewrite Hn, (proj2 (Z.eqb_eq _ _) Ht), (proj2 (Z.eqb_eq _ _) Hc), (proj2 (Z.eqb_neq _ _) Httl) in Hguard. done. }
  bool_hyps. cbn [map]. remember (address_of r) as a eqn:Haddr. unfold address_of in Haddr.
  unfold direct_address at 1.
  change (record_type_value A) with 1 in *. change (record_type_value AAAA) with 28.
  destruct (Z.eqb_spec (rtype r) 1) as [Ha | Ha]; destruct (Nat.eqb_spec (length (rdata r)) 4) as [H4 | H4];
    destruct (Z.eqb_spec (rtype r) 28) as [Hb | Hb]; destruct (Nat.eqb_spec (length (rdata r)) 16) as [H6 | H6];
    simpl; try (exfalso; lia); try (split; [done |]; intros ([(_ & _ & _ & _ & [[? ?] | [? ?]]) _] & _); lia).
  all: rewrite IH; cbn [set_addresses set_ttl]; rewrite <- app_assoc; cbn [app]; subst a;
    change (min_ttl (set_ttl acc) (r :: rs)) with (min_ttl (Z.min (set_ttl acc) (ttl r)) rs);
    split; [intros [? ->]; split_and!; try done; tauto | by intros [[_ ?] ->]].
Qed.

Lemma min_ttl_le start rs : min_ttl start rs ≤ start ∧ Forall (λ r, min_ttl start rs ≤ ttl r) rs.
Proof.
  revert start. induction rs as [| r rs IH]; intros start; simpl; [split; [done | constructor] |].
  destruct (IH (Z.min start (ttl r))) as [H1 H2]. split; [lia |]. constructor; [lia | done].
Qed.

Lemma min_ttl_attained start rs : min_ttl start rs = start ∨ ∃ r, r ∈ rs ∧ min_ttl start rs = ttl r.
Proof.
  revert start. induction rs as [| r rs IH]; intros start; simpl; [by left |].
  destruct (IH (Z.min start (ttl r))) as [H | (r' & Hr & H)]; rewrite H; [| right; exists r'; set_solver].
  destruct (Z.min_spec start (ttl r)) as [[_ ->] | [_ ->]]; [by left | right; exists r; set_solver].
Qed.

(** The responses that may be replayed from the cache, and what is kept of them. *)
Definition admitted (response : Message) (q : Question) (res : CacheableAddressSet) : Prop :=
  (is_response (header response) = true ∧ truncated (header response) = false ∧
   response_code (header response) = response_code_value NoError ∧
   (∃ q', questions response = [q'] ∧ question_eqb q' q = true) ∧
   authorities response = [] ∧ additionals response = [] ∧
   (1 ≤ length (answers response))%nat ∧ Z.of_nat (length (answers response)) ≤ 65535 ∧
   Forall (direct_address q) (answers response)) ∧
  set_addresses res = map address_of (answers response) ∧
  Forall (λ r, set_ttl res ≤ ttl r) (answers response) ∧ (∃ r, r ∈ answers response ∧ set_ttl res = ttl r).

Lemma cacheable_iff response q res :
  Forall record_fits (answers response) →
  cacheable_address_set response q = Some res ↔
  admitted response q res.
Proof.
  intros Hfits. unfold cacheable_address_set, admitted.
  destruct (_ || _) eqn:Hguard.
  - split; [done |].
    intros ((Hr & Ht & Hc & (q' & Hq & Heq) & Hau & Had & Hlen & Hmax & _) & _). exfalso.
    rewrite Hr, Ht, Hc, Hq, Hau, Had in Hguard. cbn [head] in Hguard. rewrite Heq in Hguard.
    destruct (answers response); [simpl in Hlen; lia |]. simpl in Hguard.
    rewrite !orb_false_r in Hguard. apply Z.ltb_lt in Hguard. simpl in Hmax. lia.
  - bool_hyps. destruct (length_one (questions response)) as [q' Hq']; [done |].
    match goal with H : (match head _ with _ => _ end) = true |- _ => rewrite Hq' in H; cbn [head] in H; rename H into Heq end.
    match goal with H : is_empty (answers _) = false |- _ => rename H into Hne end.
    repeat match goal with H : is_empty _ = true |- _ => apply is_empty_true in H end.
    assert (1 ≤ length (answers response))%nat as Hlen
      by (destruct (answers response); [done | simpl; lia]).
    rewrite cacheable_loop_spec. cbn [set_addresses set_ttl app].
    pose proof (min_ttl_le uint32_max (answers response)) as [_ Hle].
    assert (∃ r, r ∈ answers response ∧ min_ttl uint32_max (answers response) = ttl r) as Hatt.
    { destruct (min_ttl_attained uint32_max (answers response)) as [Hm | ?]; [| done].
      destruct (answers response) as [| r rs]; [done |]. exists r. split; [set_solver |].
      apply Forall_cons_iff in Hle as [Hle _]. apply Forall_cons_iff in Hfits as [Hf _].
      unfold record_fits, u32 in Hf. unfold uint32_max in *. lia. }
    split.
    + intros [Hall ->]. split_and!; try done. eauto.
    + intros ((_ & _ & _ & _ & _ & _ & _ & _ & Hall) & Haddr & Hmin & r & Hr & Httl).
      split; [done |]. destruct res as [addrs t]. cbn [set_addresses set_ttl] in *. subst addrs. f_equal.
      destruct Hatt as (r' & Hr' & Hm).
      eapply Forall_forall in Hle; [| by apply list_elem_of_In; exact Hr].
      eapply Forall_forall in Hmin; [| by apply list_elem_of_In; exact Hr']. cbv beta in *. lia.
Qed.

Lemma cacheable_admitted response q res :
  cacheable_address_set response q = Some res → Forall record_fits (answers response) → admitted response q res.
Proof. intros Hc Hf. by apply cacheable_iff. Qed.

(** Cache admission.  [cacheable_address_set] admits exactly the complete,
    untruncated NOERROR responses that repeat the one question and answer it with a
    nonempty set of address records of that name, type and class with nonzero TTL,
    and nothing in the other sections.  The result is the addresses in order, and a
    TTL that no record undercuts and some record has. *)
Theorem cacheable_exact response q res :
  Forall record_fits (answers response) →
  cacheable_address_set response q = Some res ↔
  admitted response q res.
Proof. apply cacheable_iff. Qed.

Definition sample_name : DomainName := mkDomainName [[x61]] 3 [x01; x61; x00].
Definition sample_question : Question := mkQuestion sample_name 1 1.
Definition sample_response : Message :=
  mkMessage (mkHeader 7 true 0 false false true true false false false 0) [sample_question]
    [mkResourceRecord sample_name 1 1 60 31 [x0a; x00; x00; x01];
     mkResourceRecord sample_name 1 1 30 47 [x0a; x00; x00; x02]] [] [] [].
Definition sample_set : CacheableAddressSet :=
  mkCacheableAddressSet [v4 [x0a; x00; x00; x01]; v4 [x0a; x00; x00; x02]] 30.

Lemma cacheable_exact_witness :
  cacheable_address_set sample_response sample_question = Some sample_set ↔
  admitted sample_response sample_question sample_set.
Proof.
  apply (cacheable_exact sample_response sample_question sample_set).
  repeat constructor; vm_compute; congruence.
Defined.

Example sample_cacheable : cacheable_address_set sample_response sample_question = Some sample_set.
Proof. reflexivity. Qed.
