(* ===== verification/CuckooFilter.v ===== *)
(** * The cuckoo filter ([CuckooFilter.h], [CuckooFilter.cpp])

    An approximate set of byte strings: a false [contains] is definite.  The hash
    [xxH3_64bits] is the vendored xxHash, a parameter here; every theorem holds for
    any function into 64 bits.  [std::bitset<16>] is its value, 0 is an empty slot. *)
From S2P Require Import Prelude.
From Stdlib Require Import Strings.Byte.

Module Cuckoo.

Definition MAX_KICKS : nat := 500.
Definition FINGERPRINT_LEN : Z := 16.
Definition FPS_PER_BUCKET : nat := 4.
Definition MAX_FINGERPRINT_VALUE : Z := 2 ^ FINGERPRINT_LEN - 1.

Inductive InsertFailureReason := NoFailure | LoadLimit | KickLimit.

Inductive FilterException := length_error.

Abbreviation Fingerprint := Z (only parsing).
Abbreviation Bucket := (list Fingerprint) (only parsing).

Record CuckooFilter := mkCuckooFilter {
  buckets_ : list Bucket;
  size_ : Z;
  maximum_kicks_ : nat;
  rng_state_ : Z;
  last_failure_ : InsertFailureReason;
}.

Record KickRecord := mkKickRecord { bucket_index : Z; slot_index : nat; previous : Fingerprint }.

Definition set_buckets (b : list Bucket) (f : CuckooFilter) : CuckooFilter :=
  mkCuckooFilter b (size_ f) (maximum_kicks_ f) (rng_state_ f) (last_failure_ f).
Definition set_size (n : Z) (f : CuckooFilter) : CuckooFilter :=
  mkCuckooFilter (buckets_ f) n (maximum_kicks_ f) (rng_state_ f) (last_failure_ f).
Definition set_rng (r : Z) (f : CuckooFilter) : CuckooFilter :=
  mkCuckooFilter (buckets_ f) (size_ f) (maximum_kicks_ f) r (last_failure_ f).
Definition set_failure (r : InsertFailureReason) (f : CuckooFilter) : CuckooFilter :=
  mkCuckooFilter (buckets_ f) (size_ f) (maximum_kicks_ f) (rng_state_ f) r.

Definition maximum_power_of_two : Z := 2 ^ 63.

(** [std::bit_ceil] of a positive number. *)
Definition bit_ceil (z : Z) : Z := 2 ^ Z.log2_up z.

Definition normalize_bucket_count (requested : Z) : outcome FilterException Z :=
  let requested := Z.max requested 4 in
  if maximum_power_of_two <? requested then Err length_error
  else Val (bit_ceil requested).

Definition load_limit (total_slots : Z) : Z :=
  (total_slots / 100) * 95 + ((total_slots mod 100) * 95) / 100.

Definition splitmix64 (value : Z) : Z :=
  let value := wrap64 (value + 0x9e3779b97f4a7c15) in
  let value := wrap64 (Z.lxor value (Z.shiftr value 30) * 0xbf58476d1ce4e5b9) in
  let value := wrap64 (Z.lxor value (Z.shiftr value 27) * 0x94d049bb133111eb) in
  Z.lxor value (Z.shiftr value 31).

Definition calc_fp (hash : Z) : Fingerprint :=
  let high16bits := Z.shiftr hash (64 - FINGERPRINT_LEN) mod 2 ^ 16 in
  (high16bits mod MAX_FINGERPRINT_VALUE + 1) mod 2 ^ FINGERPRINT_LEN.

(** [max_size] is [std::vector<Bucket>::max_size()] of the library in use. *)
Definition make_filter (max_size : Z) (requested_bucket_count : Z) (maximum_kicks : nat)
    : outcome FilterException CuckooFilter :=
  bucket_count ← normalize_bucket_count requested_bucket_count;
  if (max_size <? bucket_count) || ((2 ^ 64 - 1) / Z.of_nat FPS_PER_BUCKET <? bucket_count)
  then Err length_error
  else Val (mkCuckooFilter (replicate (Z.to_nat bucket_count) (replicate FPS_PER_BUCKET 0)) 0 maximum_kicks
              (splitmix64 (Z.lxor bucket_count 0xD1B54A32D192ED03)) NoFailure).

Definition bucket_count (f : CuckooFilter) : Z := Z.of_nat (length (buckets_ f)).

Definition alternate_index (f : CuckooFilter) (index : Z) (fingerprint : Fingerprint) : Z :=
  let mask := bucket_count f - 1 in
  let delta := Z.land (splitmix64 fingerprint) mask in
  let delta := if delta =? 0 then 1 else delta in
  Z.lxor index delta.

Abbreviation total A := (outcome Empty_set A).

(** [buckets_[index]] *)
Definition bucket_at (f : CuckooFilter) (index : Z) : total Bucket :=
  from_option_ub (buckets_ f !! Z.to_nat index).

Definition set_fingerprint (f : CuckooFilter) (index : Z) (slot : nat) (fp : Fingerprint) : total CuckooFilter :=
  b ← bucket_at f index;
  _ ← from_option_ub (b !! slot);
  Val (set_buckets (<[Z.to_nat index := <[slot := fp]> b]> (buckets_ f)) f).

Definition contains_in_bucket (f : CuckooFilter) (fingerprint : Fingerprint) (index : Z) : total bool :=
  slots ← bucket_at f index;
  Val (existsb (Z.eqb fingerprint) slots).

Definition find_fp (f : CuckooFilter) (index : Z) (fingerprint : Fingerprint) : total bool :=
  here ← contains_in_bucket f fingerprint index;
  if (here : bool) then Val true
  else contains_in_bucket f fingerprint (alternate_index f index fingerprint).

Definition find_empty_slot (f : CuckooFilter) (index : Z) : total (option nat) :=
  slots ← bucket_at f index;
  Val (fst <$> list_find (λ fp, fp = 0) slots).

Definition next_rand_u64 (f : CuckooFilter) : Z * CuckooFilter :=
  let rng := wrap64 (rng_state_ f + 0x9e3779b97f4a7c15) in
  (splitmix64 rng, set_rng rng f).

(** The kicking loop: [kicks] iterations are left, [history] has the newest
    record first.  [inl] is the return from inside the loop, [inr] its end. *)
Fixpoint kick_loop (kicks : nat) (victim_index : Z) (fingerprint : Fingerprint)
    (history : list KickRecord) (f : CuckooFilter) : total (CuckooFilter + CuckooFilter * list KickRecord) :=
  match kicks with
  | O => Val (inr (f, history))
  | S kicks =>
      let '(rand, f) := next_rand_u64 f in
      let slot := Z.to_nat (rand mod Z.of_nat FPS_PER_BUCKET) in
      b ← bucket_at f victim_index;
      victim ← from_option_ub (b !! slot);
      let history := mkKickRecord victim_index slot victim :: history in
      f ← set_fingerprint f victim_index slot fingerprint;
      let fingerprint := victim in
      let victim_index := alternate_index f victim_index fingerprint in
      empty_slot ← find_empty_slot f victim_index;
      match empty_slot with
      | Some slot =>
          f ← set_fingerprint f victim_index slot fingerprint;
          Val (inl (set_size (size_ f + 1) f))
      | None => kick_loop kicks victim_index fingerprint history f
      end
  end.

Fixpoint undo_kicks (history : list KickRecord) (f : CuckooFilter) : total CuckooFilter :=
  match history with
  | [] => Val f
  | r :: history =>
      f ← set_fingerprint f (bucket_index r) (slot_index r) (previous r);
      undo_kicks history f
  end.

Definition kick_out (victim_index : Z) (fingerprint : Fingerprint) (f : CuckooFilter)
    : total (bool * CuckooFilter) :=
  r ← kick_loop (maximum_kicks_ f) victim_index fingerprint [] f;
  match r with
  | inl f => Val (true, f)
  | inr (f, history) => f ← undo_kicks history f; Val (false, f)
  end.

Section hashing.
Context (xxH3_64bits : list byte → Z).

Definition contains (f : CuckooFilter) (item : list byte) : total bool :=
  let hash := xxH3_64bits item in
  let fingerprint := calc_fp hash in
  let index := Z.land hash (bucket_count f - 1) in
  find_fp f index fingerprint.

Definition insert (f : CuckooFilter) (item : list byte) : total (bool * CuckooFilter) :=
  let f := set_failure NoFailure f in
  let hash := xxH3_64bits item in
  let fingerprint := calc_fp hash in
  let index1 := Z.land hash (bucket_count f - 1) in
  found ← find_fp f index1 fingerprint;
  if (found : bool) then Val (true, f)
  else
    let total_slots := wrap64 (bucket_count f * Z.of_nat FPS_PER_BUCKET) in
    if load_limit total_slots <=? size_ f then Val (false, set_failure LoadLimit f)
    else
      empty_slot ← find_empty_slot f index1;
      match empty_slot with
      | Some slot =>
          f ← set_fingerprint f index1 slot fingerprint;
          Val (true, set_size (size_ f + 1) f)
      | None =>
          let index2 := alternate_index f index1 fingerprint in
          empty_slot ← find_empty_slot f index2;
          match empty_slot with
          | Some slot =>
              f ← set_fingerprint f index2 slot fingerprint;
              Val (true, set_size (size_ f + 1) f)
          | None =>
              let rng_before := rng_state_ f in
              let '(rand, f) := next_rand_u64 f in
              let victim_index := if Z.land rand 1 =? 0 then index1 else index2 in
              '(kicked, f) ← kick_out victim_index fingerprint f;
              if (kicked : bool) then Val (true, f)
              else Val (false, set_failure KickLimit (set_rng rng_before f))
          end
      end.
End hashing.

(** ** Cells, buckets and shape *)
Definition cell (f : CuckooFilter) (i : Z) (s : nat) : option Fingerprint :=
  b ← buckets_ f !! Z.to_nat i; b !! s.

Definition weight (fp : Fingerprint) : nat := if fp =? 0 then 0%nat else 1%nat.
Definition occupied (f : CuckooFilter) : nat := sum_list_with (sum_list_with weight) (buckets_ f).

(** A power of two many buckets (at least four) of four slots, whose slot count fits
    [size_t]. *)
Definition shape (f : CuckooFilter) : Prop :=
  (∃ k, 2 ≤ k < 62 ∧ bucket_count f = 2 ^ k) ∧
  Forall (λ b, length b = FPS_PER_BUCKET) (buckets_ f).

Definition valid_index (f : CuckooFilter) (i : Z) : Prop := 0 ≤ i < bucket_count f.

Definition in_bucket (f : CuckooFilter) (i : Z) (fp : Fingerprint) : Prop := ∃ s, cell f i s = Some fp.

(** The fingerprint is in one of the two buckets it may live in. *)
Definition reach (f : CuckooFilter) (i : Z) (fp : Fingerprint) : Prop :=
  in_bucket f i fp ∨ in_bucket f (alternate_index f i fp) fp.

Lemma weight_nonzero fp : fp ≠ 0 → weight fp = 1%nat.
Proof. intros H. unfold weight. by rewrite (proj2 (Z.eqb_neq _ _)). Qed.

Lemma sum_insert {T} (g : T → nat) l i x y :
  l !! i = Some x → (sum_list_with g (<[i := y]> l) + g x = sum_list_with g l + g y)%nat.
Proof.
  revert i. induction l as [| a l IH]; intros [| i] H; simplify_eq/=; [lia |].
  specialize (IH _ H). lia.
Qed.

Lemma bucket_count_set_buckets f l :
  length l = length (buckets_ f) → bucket_count (set_buckets l f) = bucket_count f.
Proof. intros H. unfold bucket_count. simpl. by rewrite H. Qed.

Lemma set_fingerprint_spec f i s fp old :
  0 ≤ i → cell f i s = Some old →
  ∃ l, set_fingerprint f i s fp = Val (set_buckets l f) ∧
    length l = length (buckets_ f) ∧
    (shape f → shape (set_buckets l f)) ∧
    (∀ j t, 0 ≤ j → cell (set_buckets l f) j t = if decide (j = i ∧ t = s) then Some fp else cell f j t) ∧
    (occupied (set_buckets l f) + weight old = occupied f + weight fp)%nat ∧
    (∀ r, set_fingerprint (set_rng r (set_buckets l f)) i s old = Val (set_rng r f)).
Proof.
  intros Hi Hc. unfold cell in Hc. destruct (buckets_ f !! Z.to_nat i) as [b |] eqn:Hb; [| done].
  simpl in Hc. pose proof (lookup_lt_Some _ _ _ Hb) as Hlt. pose proof (lookup_lt_Some _ _ _ Hc) as Hlt'.
  exists (<[Z.to_nat i := <[s := fp]> b]> (buckets_ f)). split_and!.
  - unfold set_fingerprint, bucket_at. rewrite Hb. cbn [from_option_ub mbind outcome_bind]. by rewrite Hc.
  - by rewrite length_insert.
  - intros [(k & Hk & Hn) Hall]. split.
    + exists k. by rewrite bucket_count_set_buckets; [| rewrite length_insert].
    + simpl. apply Forall_insert; [done |]. rewrite length_insert.
      eapply Forall_lookup_1 in Hall; [| exact Hb]. done.
  - intros j t Hj. unfold cell. simpl. destruct (decide (j = i)) as [-> | Hji].
    + rewrite list_lookup_insert_eq, Hb by done. simpl. destruct (decide (t = s)) as [-> | Hts].
      * rewrite decide_True by done. by rewrite list_lookup_insert_eq.
      * rewrite decide_False by naive_solver. by rewrite list_lookup_insert_ne.
    + rewrite list_lookup_insert_ne by lia. by rewrite decide_False by naive_solver.
  - unfold occupied. simpl.
    pose proof (sum_insert (sum_list_with weight) (buckets_ f) _ b (<[s := fp]> b) Hb).
    pose proof (sum_insert weight b s old fp Hc). lia.
  - intros r. unfold set_fingerprint, bucket_at. simpl. rewrite list_lookup_insert_eq by done.
    cbn [from_option_ub mbind outcome_bind]. rewrite list_lookup_insert_eq by done.
    unfold set_buckets, set_rng. simpl. rewrite !list_insert_insert_eq, (list_insert_id b), list_insert_id by done.
    done.
Qed.

Section shaped.
Context (f : CuckooFilter) (Hshape : shape f).

Lemma splitmix64_nonneg v : 0 ≤ splitmix64 v.
Proof using Type.
  unfold splitmix64. cbv zeta. apply Z.lxor_nonneg.
  rewrite Z.shiftr_nonneg. split; intros _; apply wrap64_range.
Qed.

(** A power of two minus one masks; the displacement stays in the table. *)
Lemma alternate_delta fp :
  ∃ d, 0 < d < bucket_count f ∧ ∀ i, alternate_index f i fp = Z.lxor i d.
Proof using Hshape.
  destruct Hshape as [(k & Hk & Hn) _]. unfold alternate_index. rewrite Hn, land_mask by lia.
  exists (if splitmix64 fp mod 2 ^ k =? 0 then 1 else splitmix64 fp mod 2 ^ k).
  split; [| done]. pose proof (Z.mod_pos_bound (splitmix64 fp) (2 ^ k)).
  assert (2 ^ 2 ≤ 2 ^ k) by (apply Z.pow_le_mono_r; lia).
  case_goal; bool_hyps; lia.
Qed.

Lemma alternate_valid i fp : valid_index f i → valid_index f (alternate_index f i fp).
Proof using Hshape.
  intros Hi. destruct (alternate_delta fp) as (d & Hd & ->). unfold valid_index in *.
  destruct Hshape as [(k & Hk & Hn) _]. rewrite Hn in *. apply lxor_below; lia.
Qed.

Lemma alternate_involutive i fp : alternate_index f (alternate_index f i fp) fp = i.
Proof using Hshape.
  destruct (alternate_delta fp) as (d & Hd & Halt).
  by rewrite !Halt, Z.lxor_assoc, Z.lxor_nilpotent, Z.lxor_0_r.
Qed.

Lemma alternate_neq i fp : alternate_index f i fp ≠ i.
Proof using Hshape.
  destruct (alternate_delta fp) as (d & Hd & ->). intros H.
  assert (Z.lxor i (Z.lxor i d) = Z.lxor i i) as H' by congruence.
  rewrite <- Z.lxor_assoc, Z.lxor_nilpotent, Z.lxor_0_l in H'. lia.
Qed.

Lemma valid_bucket i : valid_index f i → ∃ b, buckets_ f !! Z.to_nat i = Some b ∧ length b = FPS_PER_BUCKET.
Proof using Hshape.
  intros Hi. destruct (lookup_lt_is_Some_2 (buckets_ f) (Z.to_nat i)) as [b Hb].
  { unfold valid_index, bucket_count in Hi. lia. }
  exists b. split; [done |]. destruct Hshape as [_ Hall]. by eapply Forall_lookup_1 in Hall.
Qed.

Lemma valid_cell i s : valid_index f i → (s < FPS_PER_BUCKET)%nat → is_Some (cell f i s).
Proof using Hshape.
  intros Hi Hs. destruct (valid_bucket i Hi) as (b & Hb & Hl). unfold cell. rewrite Hb.
  simpl. apply lookup_lt_is_Some_2. lia.
Qed.

Lemma contains_in_bucket_spec fp i :
  valid_index f i → ∃ r, contains_in_bucket f fp i = Val r ∧ (r = true ↔ in_bucket f i fp).
Proof using Hshape.
  intros Hi. destruct (valid_bucket i Hi) as (b & Hb & Hl).
  unfold contains_in_bucket, bucket_at, in_bucket, cell. rewrite Hb. simpl.
  eexists. split; [done |]. rewrite existsb_exists. split.
  - intros (x & Hx & <-%Z.eqb_eq). by apply list_elem_of_In, list_elem_of_lookup in Hx.
  - intros Hx. exists fp. split; [by apply list_elem_of_In, list_elem_of_lookup | apply Z.eqb_refl].
Qed.

Lemma find_fp_spec i fp :
  valid_index f i → ∃ r, find_fp f i fp = Val r ∧ (r = true ↔ reach f i fp).
Proof using Hshape.
  intros Hi. unfold find_fp, reach.
  destruct (contains_in_bucket_spec fp i Hi) as (r & -> & Hr). cbn [mbind outcome_bind].
  destruct (contains_in_bucket_spec fp _ (alternate_valid i fp Hi)) as (r' & -> & Hr').
  destruct r; eexists; (split; [done |]); [| rewrite Hr']; naive_solver.
Qed.

Lemma find_empty_slot_spec i :
  valid_index f i →
  ∃ r, find_empty_slot f i = Val r ∧
    match r with Some s => cell f i s = Some 0 | None => ¬ in_bucket f i 0 end.
Proof using Hshape.
  intros Hi. destruct (valid_bucket i Hi) as (b & Hb & Hl).
  unfold find_empty_slot, bucket_at, in_bucket, cell. rewrite Hb. simpl.
  eexists. split; [done |]. destruct (list_find _ b) as [[s x] |] eqn:Hf; simpl.
  - by apply list_find_Some in Hf as (Hx & -> & _).
  - apply list_find_None in Hf. intros [s Hs]. eapply Forall_lookup_1 in Hf; [| exact Hs]. done.
Qed.
End shaped.

(** ** Writing one slot *)
Lemma alternate_ext f g i fp :
  bucket_count f = bucket_count g → alternate_index f i fp = alternate_index g i fp.
Proof. unfold alternate_index. by intros ->. Qed.

Lemma reach_rng r f i fp : reach (set_rng r f) i fp ↔ reach f i fp.
Proof. done. Qed.

(** Cells of [g] are those of [f] except that [fp] replaces [old] in one cell. *)
Definition writes (f g : CuckooFilter) (i : Z) (s : nat) (fp old : Fingerprint) : Prop :=
  bucket_count g = bucket_count f ∧ cell f i s = Some old ∧
  ∀ j t, 0 ≤ j → cell g j t = if decide (j = i ∧ t = s) then Some fp else cell f j t.

Lemma writes_in f g i s fp old : 0 ≤ i → writes f g i s fp old → in_bucket g i fp.
Proof. intros Hi (_ & _ & Hc). exists s. rewrite Hc by done. by rewrite decide_True. Qed.

Lemma writes_bucket f g i s fp old j x :
  0 ≤ j → writes f g i s fp old → in_bucket f j x → in_bucket g j x ∨ (x = old ∧ j = i).
Proof.
  intros Hj (_ & Hold & Hc) [t Ht]. destruct (decide (j = i ∧ t = s)) as [[-> ->] | Hne].
  - right. split; congruence.
  - left. exists t. rewrite Hc by done. by rewrite decide_False.
Qed.

(** Only the overwritten fingerprint can get lost, and it is in hand then. *)
Lemma writes_reach f g i s fp old j x :
  shape f → valid_index f j → writes f g i s fp old → reach f j x →
  reach g j x ∨ (x = old ∧ (i = j ∨ i = alternate_index f j x)).
Proof.
  intros Hsh Hj Hw Hr. pose proof Hw as (Hn & _).
  pose proof (alternate_valid f Hsh j x Hj) as Hj'.
  unfold reach in *. rewrite (alternate_ext g f) by done. unfold valid_index in *.
  destruct Hr as [Hr | Hr]; eapply (writes_bucket _ g) in Hr as [Hr | [-> ->]];
    try exact Hw; try tauto; lia.
Qed.

Lemma writes_keep f g i s fp j x :
  shape f → valid_index f j → x ≠ 0 → writes f g i s fp 0 → reach f j x → reach g j x.
Proof.
  intros Hsh Hj Hx Hw Hr.
  destruct (writes_reach f g i s fp 0 j x Hsh Hj Hw Hr) as [? | [? _]]; done.
Qed.

Lemma writes_new f g i s fp old j :
  0 ≤ i → writes f g i s fp old → (i = j ∨ i = alternate_index f j fp) → reach g j fp.
Proof.
  intros Hi Hw Hij. pose proof (writes_in _ _ _ _ _ _ Hi Hw) as Hin. destruct Hw as (Hn & _).
  unfold reach. rewrite (alternate_ext g f) by done. by destruct Hij as [-> | ->]; [left | right].
Qed.

Lemma store_spec f i s fp old :
  shape f → 0 ≤ i → cell f i s = Some old →
  ∃ l, let g := set_buckets l f in
    set_fingerprint f i s fp = Val g ∧ shape g ∧ writes f g i s fp old ∧
    (occupied g + weight old = occupied f + weight fp)%nat ∧
    (∀ r, set_fingerprint (set_rng r g) i s old = Val (set_rng r f)).
Proof.
  intros Hsh Hi Hc. destruct (set_fingerprint_spec f i s fp old Hi Hc) as (l & H1 & Hl & H2 & H3 & H4 & H5).
  exists l. split_and!; try done; [by apply H2 |]. split_and!; [by apply bucket_count_set_buckets | done | done].
Qed.

(** ** The kicking loop *)
Definition undoes (f0 f : CuckooFilter) (history : list KickRecord) : Prop :=
  ∀ r, undo_kicks history (set_rng r f) = Val (set_rng r f0).

(** What the loop has in hand: a fingerprint whose bucket [v] has no free slot. *)
Definition reach_or_hand (f : CuckooFilter) (v : Z) (h : Fingerprint) (j : Z) (x : Fingerprint) : Prop :=
  reach f j x ∨ (x = h ∧ (v = j ∨ v = alternate_index f j x)).

Definition same_frame (f g : CuckooFilter) : Prop :=
  bucket_count g = bucket_count f ∧ maximum_kicks_ g = maximum_kicks_ f ∧ last_failure_ g = last_failure_ f.

Lemma full_after_write f g v s h old :
  h ≠ 0 → 0 ≤ v → writes f g v s h old → ¬ in_bucket f v 0 → ¬ in_bucket g v 0.
Proof.
  intros Hh Hv (_ & _ & Hc) Hfull [t Ht]. rewrite Hc in Ht by done.
  destruct (decide (v = v ∧ t = s)); [congruence |]. apply Hfull. by exists t.
Qed.

(** After one swap the displaced fingerprint is in hand, bound for its other bucket. *)
Lemma swap_reach f g v s h old j x :
  shape f → valid_index f v → valid_index f j → writes f g v s h old →
  reach_or_hand f v h j x → reach_or_hand g (alternate_index f v old) old j x.
Proof.
  intros Hsh Hv Hj Hw Hr. pose proof Hw as (Hn & _). unfold reach_or_hand.
  rewrite (alternate_ext g f j) by done. destruct Hr as [Hr | [-> Hvj]].
  - destruct (writes_reach f g v s h old j x Hsh Hj Hw Hr) as [? | [-> Hvj]]; [by left | right].
    split; [done |]. destruct Hvj as [-> | ->]; [by right | left].
    by rewrite alternate_involutive.
  - left. eapply writes_new; [apply Hv | exact Hw | done].
Qed.

Lemma kick_loop_spec f0 kicks v h history f :
  shape f → valid_index f v → h ≠ 0 → ¬ in_bucket f v 0 → undoes f0 f history → size_ f = size_ f0 →
  ∃ r, kick_loop kicks v h history f = Val r ∧
    match r with
    | inl g => shape g ∧ same_frame f g ∧ occupied g = S (occupied f) ∧ size_ g = size_ f + 1 ∧
               (∀ j x, valid_index f j → x ≠ 0 → reach_or_hand f v h j x → reach g j x)
    | inr (g, history') => undoes f0 g history'
    end.
Proof.
  revert v h history f. induction kicks as [| kicks IH]; intros v h history f Hsh Hv Hh Hfull Hundo Hsize.
  { eexists. split; [done |]. done. }
  cbn [kick_loop]. destruct (next_rand_u64 f) as [rand f1] eqn:Hr.
  injection Hr as <- <-. set (r := wrap64 _). set (slot := Z.to_nat (splitmix64 r mod _)).
  assert (slot < FPS_PER_BUCKET)%nat as Hslot.
  { subst slot. pose proof (Z.mod_pos_bound (splitmix64 r) (Z.of_nat FPS_PER_BUCKET)).
    unfold FPS_PER_BUCKET in *. lia. }
  set (f1 := set_rng r f).
  assert (shape f1) as Hsh1 by done. assert (valid_index f1 v) as Hv1 by done.
  assert (¬ in_bucket f1 v 0) as Hfull1 by done.
  assert (∀ r, undo_kicks history (set_rng r f1) = Val (set_rng r f0)) as Hundo1 by done.
  destruct (valid_cell f1 Hsh1 v slot Hv1 Hslot) as [old Hold].
  assert (∃ b, bucket_at f1 v = Val b ∧ b !! slot = Some old) as (b & -> & Hb).
  { unfold cell in Hold. unfold bucket_at. destruct (buckets_ f1 !! Z.to_nat v) as [b |]; [by exists b | done]. }
  cbn [mbind outcome_bind]. rewrite Hb. cbn [from_option_ub outcome_bind].
  assert (old ≠ 0) as Hold0 by (intros ->; apply Hfull; by exists slot).
  destruct (store_spec f1 v slot h old Hsh1 (proj1 Hv1) Hold) as (l & -> & Hsh2 & Hw & Hocc & Hback).
  cbn [mbind outcome_bind].
  set (f2 := set_buckets l f1) in *. pose proof Hw as (Hn & _).
  rewrite (alternate_ext f2 f1) by done. set (v' := alternate_index f1 v old).
  assert (valid_index f2 v') as Hv'
    by (unfold valid_index; rewrite Hn; by apply alternate_valid).
  destruct (find_empty_slot_spec f2 Hsh2 v' Hv') as (empty & -> & Hempty). cbn [mbind outcome_bind].
  assert (∀ j x, valid_index f j → reach_or_hand f v h j x → reach_or_hand f2 v' old j x) as Hswap.
  { intros j x Hj Hx. by apply (swap_reach f1 f2 v slot h old j x). }
  pose proof (weight_nonzero h Hh) as Hwh. pose proof (weight_nonzero old Hold0) as Hwo.
  destruct empty as [s' |].
  - destruct (store_spec f2 v' s' old 0 Hsh2 (proj1 Hv') Hempty) as (l' & -> & Hsh3 & Hw3 & Hocc3 & _).
    eexists. split; [done |]. split_and!; try done.
    + split_and!; [| done | done]. destruct Hw3 as (Hn3 & _). transitivity (bucket_count f2); done.
    + change (occupied f1) with (occupied f) in Hocc. unfold weight at 1 in Hocc3.
      change (occupied (set_size (size_ (set_buckets l' f2) + 1) (set_buckets l' f2)))
        with (occupied (set_buckets l' f2)). simpl in Hocc3. lia.
    + intros j x Hj Hx0 Hx. apply Hswap in Hx as [Hx | [-> Hvj]]; [| | done].
      * by eapply (writes_keep f2 (set_buckets l' f2)); try exact Hw3; [| unfold valid_index; rewrite Hn | ..].
      * eapply (writes_new f2 (set_buckets l' f2)); [apply Hv' | exact Hw3 | done].
  - destruct (IH v' old (mkKickRecord v slot old :: history) f2) as (res & -> & Hres); try done.
    { intros r'. cbn [undo_kicks bucket_index slot_index previous]. rewrite Hback.
      cbn [mbind outcome_bind]. apply Hundo1. }
    exists res. split; [done |]. destruct res as [g | [g history']]; [| done].
    destruct Hres as (Hg1 & Hg2 & Hg3 & Hg4 & Hg5).
    split_and!; [done | | | done |].
    + destruct Hg2 as (? & ? & ?). split_and!; [| done | done]. transitivity (bucket_count f2); done.
    + change (occupied f1) with (occupied f) in Hocc. lia.
    + intros j x Hj Hx0 Hx. apply Hg5; [| done | by apply Hswap].
      unfold valid_index. by rewrite Hn.
Qed.

(** ** Insertion *)
Definition slots_limit (f : CuckooFilter) : Z := load_limit (bucket_count f * Z.of_nat FPS_PER_BUCKET).

Record filter_wf (f : CuckooFilter) : Prop := {
  wf_shape : shape f;
  wf_size : size_ f = Z.of_nat (occupied f);
  wf_load : size_ f ≤ slots_limit f;
}.

Lemma calc_fp_nonzero hash : calc_fp hash ≠ 0.
Proof.
  unfold calc_fp. cbv zeta. change MAX_FINGERPRINT_VALUE with 65535. change (2 ^ FINGERPRINT_LEN) with 65536.
  pose proof (Z.mod_pos_bound (Z.shiftr hash (64 - FINGERPRINT_LEN) mod 2 ^ 16) 65535).
  rewrite Z.mod_small; lia.
Qed.

Lemma index_valid f hash : shape f → valid_index f (Z.land hash (bucket_count f - 1)).
Proof.
  intros [(k & Hk & Hn) _]. unfold valid_index. rewrite Hn, land_mask by lia.
  apply Z.mod_pos_bound. lia.
Qed.

Lemma total_slots_exact f :
  shape f → wrap64 (bucket_count f * Z.of_nat FPS_PER_BUCKET) = bucket_count f * Z.of_nat FPS_PER_BUCKET.
Proof.
  intros [(k & Hk & ->) _]. apply Z.mod_small. change (Z.of_nat FPS_PER_BUCKET) with (2 ^ 2).
  rewrite <- Z.pow_add_r by lia. split; [lia |]. apply Z.pow_lt_mono_r; lia.
Qed.

Definition reached (f : CuckooFilter) (hash : Z) : Prop :=
  reach f (Z.land hash (bucket_count f - 1)) (calc_fp hash).

Lemma contains_spec xxh f x :
  shape f → ∃ r, contains xxh f x = Val r ∧ (r = true ↔ reached f (xxh x)).
Proof. intros Hsh. apply find_fp_spec; [done | by apply index_valid]. Qed.

Lemma contains_true xxh f x : shape f → contains xxh f x = Val true ↔ reached f (xxh x).
Proof.
  intros Hsh. destruct (contains_spec xxh f x Hsh) as (r & -> & <-). split; [congruence | by intros ->].
Qed.

(** Storing the new fingerprint in a free slot of one of its two buckets. *)
Lemma store_free f i s hash :
  filter_wf f → size_ f < slots_limit f → valid_index f i → cell f i s = Some 0 →
  (i = Z.land hash (bucket_count f - 1) ∨
   i = alternate_index f (Z.land hash (bucket_count f - 1)) (calc_fp hash)) →
  ∃ g, (g ← set_fingerprint f i s (calc_fp hash); Val (true, set_size (size_ g + 1) g)) = Val (E := Empty_set) (true, g) ∧
    filter_wf g ∧ same_frame f g ∧ reached g hash ∧ (∀ h, reached f h → reached g h).
Proof.
  intros [Hsh Hsz Hload] Hlt Hi Hc Hij. pose proof (calc_fp_nonzero hash) as Hfp.
  destruct (store_spec f i s (calc_fp hash) 0 Hsh (proj1 Hi) Hc) as (l & -> & Hsh' & Hw & Hocc & _).
  set (g := set_buckets l f) in *. cbn [mbind outcome_bind]. pose proof Hw as (Hn & _).
  exists (set_size (size_ g + 1) g). split; [done |]. split_and!.
  - split; [done | |].
    + change (occupied (set_size (size_ g + 1) g)) with (occupied g).
      cbn [size_ set_size]. change (size_ g) with (size_ f).
      rewrite (weight_nonzero (calc_fp hash)) in Hocc by done. change (weight 0) with 0%nat in Hocc. lia.
    + change (slots_limit (set_size (size_ g + 1) g)) with (slots_limit g).
      unfold slots_limit in *. rewrite Hn. cbn [size_ set_size]. change (size_ g) with (size_ f). lia.
  - by split_and!.
  - unfold reached. change (bucket_count (set_size (size_ g + 1) g)) with (bucket_count g). rewrite Hn.
    eapply (writes_new f g); [apply Hi | exact Hw | done].
  - intros h Hh. unfold reached in *.
    change (bucket_count (set_size (size_ g + 1) g)) with (bucket_count g). rewrite Hn.
    eapply (writes_keep f g); try exact Hw; try done; [by apply index_valid | apply calc_fp_nonzero].
Qed.

Lemma set_rng_back f r : set_rng (rng_state_ f) (set_rng r f) = f.
Proof. by destruct f. Qed.

Lemma kick_out_spec f v hash :
  filter_wf f → size_ f < slots_limit f → valid_index f v → ¬ in_bucket f v 0 →
  (v = Z.land hash (bucket_count f - 1) ∨
   v = alternate_index f (Z.land hash (bucket_count f - 1)) (calc_fp hash)) →
  ∃ kicked g, kick_out v (calc_fp hash) f = Val (kicked, g) ∧
    if (kicked : bool) then filter_wf g ∧ same_frame f g ∧ reached g hash ∧ (∀ h, reached f h → reached g h)
    else ∃ r, g = set_rng r f.
Proof.
  intros [Hsh Hsz Hload] Hlt Hv Hfull Hij. unfold kick_out.
  destruct (kick_loop_spec f (maximum_kicks_ f) v (calc_fp hash) [] f) as (r & -> & Hr);
    try done; [apply calc_fp_nonzero |].
  cbn [mbind outcome_bind]. destruct r as [g | [g history]].
  - exists true, g. split; [done |]. destruct Hr as (Hsh' & (Hn & Hk & Hf) & Hocc & Hsz' & Hreach).
    split_and!; try done.
    + split; [done | lia |]. unfold slots_limit in *. rewrite Hn. lia.
    + unfold reached. rewrite Hn. apply Hreach; [by apply index_valid | apply calc_fp_nonzero | by right].
    + intros h Hh. unfold reached in *. rewrite Hn.
      apply Hreach; [by apply index_valid | apply calc_fp_nonzero | by left].
  - specialize (Hr (rng_state_ g)).
    replace (set_rng (rng_state_ g) g) with g in Hr by (by destruct g).
    rewrite Hr. eexists false, _. split; [done |]. eauto.
Qed.

Lemma insert_spec xxh f item :
  filter_wf f →
  ∃ ok g, insert xxh f item = Val (ok, g) ∧ filter_wf g ∧ bucket_count g = bucket_count f ∧
    if (ok : bool) then last_failure_ g = NoFailure ∧ reached g (xxh item) ∧ (∀ h, reached f h → reached g h)
    else g = set_failure (last_failure_ g) f ∧ ¬ reached f (xxh item) ∧
         ((last_failure_ g = LoadLimit ∧ size_ f = slots_limit f) ∨
          (last_failure_ g = KickLimit ∧ size_ f < slots_limit f)).
Proof.
  intros Hwf. unfold insert. set (f0 := set_failure NoFailure f).
  assert (filter_wf f0) as Hwf0 by (by destruct Hwf).
  set (hash := xxh item). set (i := Z.land hash (bucket_count f0 - 1)).
  assert (valid_index f0 i) as Hi by (apply index_valid, Hwf0).
  destruct (find_fp_spec f0 (wf_shape _ Hwf0) i (calc_fp hash) Hi) as (found & -> & Hfound).
  cbn [mbind outcome_bind]. destruct found.
  { exists true, f0. split_and!; try done. by apply Hfound. }
  assert (¬ reached f hash) as Hnot by (intros H; by apply Hfound in H).
  rewrite total_slots_exact by apply Hwf0. fold (slots_limit f0).
  destruct (slots_limit f0 <=? size_ f0) eqn:Hlim; bool_hyps.
  { exists false, (set_failure LoadLimit f0). split_and!; try done; [by destruct Hwf |].
    left. split; [done |]. pose proof (wf_load _ Hwf). change (slots_limit f0) with (slots_limit f) in Hlim.
    simpl in Hlim. lia. }
  assert (∀ g, same_frame f0 g → last_failure_ g = NoFailure ∧ bucket_count g = bucket_count f) as Hframe
    by (by intros g (-> & _ & ->)).
  destruct (find_empty_slot_spec f0 (wf_shape _ Hwf0) i Hi) as (e1 & -> & He1). cbn [mbind outcome_bind].
  destruct e1 as [s |].
  { destruct (store_free f0 i s hash) as (g & Hg & Hwfg & Hfr & Hnew & Hold); try done; [by left |].
    exists true, g. split; [exact Hg |]. destruct (Hframe g Hfr). by split_and!. }
  set (i2 := alternate_index f0 i (calc_fp hash)).
  assert (valid_index f0 i2) as Hi2 by (apply alternate_valid; [apply Hwf0 | done]).
  destruct (find_empty_slot_spec f0 (wf_shape _ Hwf0) i2 Hi2) as (e2 & -> & He2). cbn [outcome_bind].
  destruct e2 as [s |].
  { destruct (store_free f0 i2 s hash) as (g & Hg & Hwfg & Hfr & Hnew & Hold); try done; [by right |].
    exists true, g. split; [exact Hg |]. destruct (Hframe g Hfr). by split_and!. }
  destruct (next_rand_u64 f0) as [rand f1] eqn:Hrand. injection Hrand as <- <-.
  set (r := wrap64 _). set (v := if _ =? 0 then i else i2).
  destruct (kick_out_spec (set_rng r f0) v hash) as (kicked & g & -> & Hg).
  { by destruct Hwf0. } { done. } { subst v. by case_goal. } { subst v. by case_goal. }
  { subst v. case_goal; [by left | by right]. }
  cbn [outcome_bind]. destruct kicked.
  - destruct Hg as (Hwfg & Hfr & Hnew & Hold). exists true, g. split; [done |].
    destruct (Hframe g Hfr). by split_and!.
  - destruct Hg as (r' & ->). eexists false, _. split; [done |].
    assert (set_failure KickLimit (set_rng (rng_state_ f0) (set_rng r' (set_rng r f0))) = set_failure KickLimit f)
      as -> by (by destruct f).
    split_and!; try done; [by destruct Hwf |]. by right.
Qed.

Lemma make_filter_wf max_size n kicks f :
  make_filter max_size n kicks = Val f → filter_wf f ∧ maximum_kicks_ f = kicks ∧ Z.max n 4 ≤ bucket_count f.
Proof.
  unfold make_filter, normalize_bucket_count. destruct (_ <? _) eqn:Hmax; [done |]. cbn [mbind outcome_bind].
  set (c := bit_ceil _). destruct (_ || _) eqn:Hbig; [done |]. intros Hf.
  injection Hf as Hf.
  apply orb_false_iff in Hbig as [_ Hbig]. bool_hyps.
  assert (2 ≤ Z.log2_up (Z.max n 4)) as Hk.
  { apply (Z.log2_up_le_mono 4 (Z.max n 4)). lia. }
  assert (Z.max n 4 ≤ c) as Hc by (apply (Z.log2_log2_up_spec (Z.max n 4)); lia).
  assert (Z.log2_up (Z.max n 4) < 62) as Hk'.
  { apply (Z.pow_lt_mono_r_iff 2); [lia | lia |].
    eapply Z.le_lt_trans; [exact Hbig |]. vm_compute. congruence. }
  assert (bucket_count f = c) as Hn.
  { unfold bucket_count. rewrite <- Hf. cbn [buckets_]. rewrite length_replicate. lia. }
  split_and!; [| by rewrite <- Hf | by rewrite Hn]. split.
  - split; [exists (Z.log2_up (Z.max n 4)); split; [lia | exact Hn] |]. rewrite <- Hf. cbn [buckets_].
    by apply Forall_replicate.
  - unfold occupied. rewrite <- Hf. cbn [buckets_ size_]. generalize (Z.to_nat c). intros m.
    induction m as [| m IH]; [done |]. simpl. lia.
  - unfold slots_limit. rewrite Hn, <- Hf. cbn [size_]. unfold load_limit.
    change (Z.of_nat FPS_PER_BUCKET) with 4. dlia.
Qed.

(** ** Properties *)

(** C32: no false negatives.  A successful [insert] makes [contains] true for the
    item and keeps it true for everything [contains] accepted before, whatever
    fingerprints were moved by kicking. *)
Theorem insert_no_false_negatives xxh f item g :
  filter_wf f → insert xxh f item = Val (true, g) →
  contains xxh g item = Val true ∧ ∀ x, contains xxh f x = Val true → contains xxh g x = Val true.
Proof.
  intros Hwf Hins. destruct (insert_spec xxh f item Hwf) as (ok & g' & Heq & Hwf' & _ & Hok).
  rewrite Hins in Heq. injection Heq as <- <-. destruct Hok as (_ & Hnew & Hold).
  split; [by apply contains_true; [apply Hwf' |] |].
  intros x Hx. apply contains_true; [apply Hwf' |]. apply Hold. by apply (contains_true xxh f x (wf_shape _ Hwf)).
Qed.

(** Strong guarantee.  [insert] always returns; when it returns false, the
    filter is what it was except for [last_failure_] (buckets, size and generator
    state included, so every kick is undone), the item was not in it, and the
    reason names the limit that was hit: the load limit exactly when the filter is
    at 95% of its slots. *)
Theorem insert_strong_guarantee xxh f item :
  filter_wf f →
  ∃ ok g, insert xxh f item = Val (ok, g) ∧
    (ok = false →
       g = set_failure (last_failure_ g) f ∧ contains xxh f item = Val false ∧
       ((last_failure_ g = LoadLimit ∧ size_ f = slots_limit f) ∨
        (last_failure_ g = KickLimit ∧ size_ f < slots_limit f))).
Proof.
  intros Hwf. destruct (insert_spec xxh f item Hwf) as (ok & g & Heq & _ & _ & Hok).
  exists ok, g. split; [done |]. intros ->. destruct Hok as (Hsame & Hnot & Hwhy). split_and!; try done.
  destruct (contains_spec xxh f item (wf_shape _ Hwf)) as ([] & Hc & Hr); [| done].
  exfalso. by apply Hnot, Hr.
Qed.

(** The filter invariant.  [insert] keeps a power of two many four-slot
    buckets, [size_] equal to the number of occupied slots, and the load at most
    95% of the slots; the constructor establishes it. *)
Theorem insert_invariant xxh max_size n kicks f items :
  make_filter max_size n kicks = Val f →
  ∃ g, foldl (λ acc item, '(_, f) ← acc; insert xxh f item) (Val (true, f)) items = Val g ∧
       filter_wf g.2 ∧ 100 * size_ g.2 ≤ 95 * (4 * bucket_count g.2).
Proof.
  intros Hf%make_filter_wf. destruct Hf as (Hwf & _ & _).
  assert (∃ g, foldl (λ acc item, '(_, f) ← acc; insert xxh f item) (Val (true, f)) items = Val g ∧ filter_wf g.2)
    as (g & Hg & Hwfg).
  { generalize true. revert f Hwf. induction items as [| x items IH]; intros f Hwf b; simpl.
    - by exists (b, f).
    - destruct (insert_spec xxh f x Hwf) as (ok & g & -> & Hg & _). by apply IH. }
  exists g. split_and!; [done | done |]. pose proof (wf_load _ Hwfg) as H.
  unfold slots_limit, load_limit in H. change (Z.of_nat FPS_PER_BUCKET) with 4 in H.
  clear -H. dlia.
Qed.

(** A small hash for the examples. *)
Definition toy_hash (item : list byte) : Z :=
  foldl (λ acc b, wrap64 (acc * 0x100000001b3 + b2z b)) 0xcbf29ce484222325 item.

Definition sample_filter : CuckooFilter :=
  mkCuckooFilter (replicate 4 (replicate 4 0)) 0 500 (splitmix64 (Z.lxor 4 0xD1B54A32D192ED03)) NoFailure.

Lemma sample_filter_make : make_filter (2 ^ 58) 3 500 = Val sample_filter.
Proof. vm_compute. reflexivity. Qed.

Definition sample_filled : CuckooFilter :=
  match insert toy_hash sample_filter [x61] with Val (_, f) => f | _ => sample_filter end.

Lemma insert_no_false_negatives_witness :
  contains toy_hash sample_filled [x61] = Val true ∧
  ∀ x, contains toy_hash sample_filter x = Val true → contains toy_hash sample_filled x = Val true.
Proof.
  apply (insert_no_false_negatives toy_hash sample_filter [x61] sample_filled).
  - exact (proj1 (make_filter_wf _ _ _ _ sample_filter_make)).
  - vm_compute. reflexivity.
Defined.

Lemma insert_strong_guarantee_witness :
  ∃ ok g, insert toy_hash sample_filled [x62] = Val (ok, g) ∧
    (ok = false →
       g = set_failure (last_failure_ g) sample_filled ∧ contains toy_hash sample_filled [x62] = Val false ∧
       ((last_failure_ g = LoadLimit ∧ size_ sample_filled = slots_limit sample_filled) ∨
        (last_failure_ g = KickLimit ∧ size_ sample_filled < slots_limit sample_filled))).
Proof.
  apply (insert_strong_guarantee toy_hash sample_filled [x62]).
  destruct (insert_spec toy_hash sample_filter [x61] (proj1 (make_filter_wf _ _ _ _ sample_filter_make)))
    as (ok & g & Heq & Hwf & _).
  replace sample_filled with g; [exact Hwf |]. unfold sample_filled. by rewrite Heq.
Defined.

Lemma insert_invariant_witness :
  ∃ g, foldl (λ acc item, '(_, f) ← acc; insert toy_hash f item) (Val (true, sample_filter)) [[x61]; [x62]] = Val g ∧
       filter_wf g.2 ∧ 100 * size_ g.2 ≤ 95 * (4 * bucket_count g.2).
Proof. exact (insert_invariant toy_hash _ _ _ _ [[x61]; [x62]] sample_filter_make). Defined.

End Cuckoo.

(** ** The promise to the blocklist

    What a prefilter owes its client: it is built without undefined behaviour (or
    refuses a size that [size_t] cannot count), an
    insertion either succeeds and keeps every member or leaves the members alone,
    and a member always tests positive.  Positive answers for non-members are
    allowed. *)
Class Prefilter (F : Type) := {
  pf_make : Z → nat → outcome Cuckoo.FilterException F;
  pf_insert : F → list byte → outcome Empty_set (bool * F);
  pf_contains : F → list byte → outcome Empty_set bool;
  pf_last_failure : F → Cuckoo.InsertFailureReason;
  pf_ok : F → Prop;
  pf_member : F → list byte → Prop;
  pf_make_ok n kicks : match pf_make n kicks with Val f => pf_ok f | Err _ => True | Undef => False end;
  pf_make_bound n kicks : 2 ^ 62 ≤ n → ∃ e, pf_make n kicks = Err e;
  pf_contains_ok f x : pf_ok f → ∃ r, pf_contains f x = Val r ∧ (pf_member f x → r = true);
  pf_insert_ok f x : pf_ok f →
    ∃ ok g, pf_insert f x = Val (ok, g) ∧ pf_ok g ∧ (∀ y, pf_member f y → pf_member g y) ∧
            if (ok : bool) then pf_member g x else pf_last_failure g ≠ Cuckoo.NoFailure;
}.

Section cuckoo_prefilter.
Context (xxH3_64bits : list byte → Z) (max_size : Z).

Lemma make_filter_ok n kicks :
  match Cuckoo.make_filter max_size n kicks with
  | Val f => Cuckoo.filter_wf f | Err _ => True | Undef => False
  end.
Proof.
  destruct (Cuckoo.make_filter max_size n kicks) as [f | e |] eqn:H; [| done |].
  - by apply Cuckoo.make_filter_wf in H as [? _].
  - unfold Cuckoo.make_filter, Cuckoo.normalize_bucket_count in H.
    destruct (_ <? _) in H; [done |]. cbn [mbind outcome_bind] in H. by destruct (_ || _).
Qed.

Lemma make_filter_bound n kicks : 2 ^ 62 ≤ n → ∃ e, Cuckoo.make_filter max_size n kicks = Err e.
Proof.
  intros Hn. destruct (Cuckoo.make_filter max_size n kicks) as [f | e |] eqn:H; [| eauto |].
  - apply Cuckoo.make_filter_wf in H as ([[(k & Hk & Hc) _] _ _] & _ & Hle). rewrite Hc in Hle.
    assert (2 ^ k < 2 ^ 62) by (apply Z.pow_lt_mono_r; lia). lia.
  - pose proof (make_filter_ok n kicks) as H'. by rewrite H in H'.
Qed.

Lemma cuckoo_contains_ok f x :
  Cuckoo.filter_wf f →
  ∃ r, Cuckoo.contains xxH3_64bits f x = Val r ∧ (Cuckoo.reached f (xxH3_64bits x) → r = true).
Proof.
  intros Hwf. destruct (Cuckoo.contains_spec xxH3_64bits f x (Cuckoo.wf_shape _ Hwf)) as (r & H1 & H2).
  exists r. split; [done |]. apply H2.
Qed.

Lemma cuckoo_insert_ok f x :
  Cuckoo.filter_wf f →
  ∃ ok g, Cuckoo.insert xxH3_64bits f x = Val (ok, g) ∧ Cuckoo.filter_wf g ∧
    (∀ y, Cuckoo.reached f (xxH3_64bits y) → Cuckoo.reached g (xxH3_64bits y)) ∧
    if (ok : bool) then Cuckoo.reached g (xxH3_64bits x) else Cuckoo.last_failure_ g ≠ Cuckoo.NoFailure.
Proof.
  intros Hwf. destruct (Cuckoo.insert_spec xxH3_64bits f x Hwf) as (ok & g & Heq & Hwf' & Hn & Hok).
  exists ok, g. split_and!; [done | done | |].
  - intros y Hy. destruct ok; [by apply Hok |]. destruct Hok as (-> & _). done.
  - destruct ok; [by destruct Hok as (_ & ? & _) |].
    destruct Hok as (_ & _ & [[-> _] | [-> _]]); discriminate.
Qed.

#[local] Instance cuckoo_prefilter : Prefilter Cuckoo.CuckooFilter := {|
  pf_make := Cuckoo.make_filter max_size;
  pf_insert := Cuckoo.insert xxH3_64bits;
  pf_contains := Cuckoo.contains xxH3_64bits;
  pf_last_failure := Cuckoo.last_failure_;
  pf_ok := Cuckoo.filter_wf;
  pf_member f x := Cuckoo.reached f (xxH3_64bits x);
  pf_make_ok := make_filter_ok;
  pf_make_bound := make_filter_bound;
  pf_contains_ok := cuckoo_contains_ok;
  pf_insert_ok := cuckoo_insert_ok;
|}.
End cuckoo_prefilter.
