(* ===== verification/RadixTree.v ===== *)
(** * The label trie ([RadixTree.h], [RadixTree.cpp])

    Names are stored from the top-level label down; [std::unordered_map] with its
    transparent hash is a [gmap] on labels, the owning pointers are the tree. *)
From S2P Require Import Prelude DomainName.
From Stdlib Require Import Strings.Byte.

Module Radix.

Inductive TrieNode := mkTrieNode {
  children : gmap (list byte) TrieNode;
  is_end_of_domain : bool;
}.

Definition new_node : TrieNode := mkTrieNode ∅ false.

Record RadixTree := mkRadixTree { root_ : TrieNode }.

Definition new_tree : RadixTree := mkRadixTree new_node.

(** The labels the loops visit: [canonical_label] of the last label first. *)
Definition reverse_labels (domain : DomainName) : list (list byte) :=
  map (canonical_label domain) (rev (seq 0 (length (labels_ domain)))).

(** The loop of [insert]: [current] moves to the child of the next label, which
    [try_emplace] creates if needed; the flag of the last node is set.  The result
    pairs [newly_inserted] with the updated subtree. *)
Fixpoint insert_loop (path : list (list byte)) (current : TrieNode) : bool * TrieNode :=
  match path with
  | [] => (negb (is_end_of_domain current), mkTrieNode (children current) true)
  | label :: path =>
      let child := default new_node (children current !! label) in
      let '(newly_inserted, child) := insert_loop path child in
      (newly_inserted, mkTrieNode (<[label := child]> (children current)) (is_end_of_domain current))
  end.

Definition insert (t : RadixTree) (domain : DomainName) : bool * RadixTree :=
  let '(newly_inserted, root) := insert_loop (reverse_labels domain) (root_ t) in
  (newly_inserted, mkRadixTree root).

Definition insert_text (t : RadixTree) (domain : list byte) : outcome Empty_set (bool * RadixTree) :=
  match from_text domain with
  | Val normalized => Val (insert t normalized)
  | Err _ => Val (false, t)
  | Undef => Undef
  end.

Fixpoint search_loop (path : list (list byte)) (current : TrieNode) : bool :=
  match path with
  | [] => is_end_of_domain current
  | label :: path =>
      match children current !! label with
      | None => false
      | Some child => if is_end_of_domain child then true else search_loop path child
      end
  end.

Definition search (t : RadixTree) (domain : DomainName) : bool :=
  search_loop (reverse_labels domain) (root_ t).

Definition search_text (t : RadixTree) (domain : list byte) : outcome Empty_set bool :=
  match from_text domain with
  | Val normalized => Val (search t normalized)
  | Err _ => Val false
  | Undef => Undef
  end.

(** ** The set of names a tree holds *)
Fixpoint marked (node : TrieNode) (path : list (list byte)) : bool :=
  match path with
  | [] => is_end_of_domain node
  | label :: path => match children node !! label with None => false | Some child => marked child path end
  end.

Lemma marked_new path : marked new_node path = false.
Proof. by destruct path. Qed.

Lemma marked_insert p node q :
  marked (insert_loop p node).2 q = bool_decide (q = p) || marked node q.
Proof.
  revert node q. induction p as [| label p IH]; intros node q; cbn [insert_loop].
  - by destruct q.
  - destruct (insert_loop p (default new_node (children node !! label))) as [fresh child] eqn:E.
    simpl. destruct q as [| label' q]; simpl; [done |].
    destruct (decide (label' = label)) as [-> | Hne].
    + rewrite lookup_insert_eq. specialize (IH (default new_node (children node !! label)) q).
      rewrite E in IH. simpl in IH. rewrite IH.
      rewrite (bool_decide_ext (label :: q = label :: p) (q = p)) by (split; congruence).
      destruct (children node !! label); simpl; [done |]. by rewrite marked_new.
    + rewrite lookup_insert_ne by done. by rewrite (bool_decide_eq_false_2 (label' :: q = _)) by congruence.
Qed.

Lemma insert_loop_fresh p node : (insert_loop p node).1 = negb (marked node p).
Proof.
  revert node. induction p as [| label p IH]; intros node; cbn [insert_loop]; [done |].
  specialize (IH (default new_node (children node !! label))).
  destruct (insert_loop p _) as [fresh child]. simpl in *. rewrite IH.
  destruct (children node !! label); [done |]. by rewrite marked_new.
Qed.

(** [search] stops at the first marked node below the root on its way. *)
Lemma search_loop_spec p node :
  search_loop p node = true ↔
  (p = [] ∧ marked node [] = true) ∨ ∃ pre post, p = pre ++ post ∧ pre ≠ [] ∧ marked node pre = true.
Proof.
  revert node. induction p as [| label p IH]; intros node; cbn [search_loop].
  - split; [by left |]. intros [[_ ?] | (pre & post & [? ?]%eq_sym%app_nil & ? & _)]; done.
  - destruct (children node !! label) as [child |] eqn:Hc.
    + destruct (is_end_of_domain child) eqn:He.
      * split; [| done]. intros _. right. exists [label], p. simpl. by rewrite Hc.
      * rewrite IH. split.
        -- intros [[-> Hm] | (pre & post & -> & Hne & Hm)]; [simpl in Hm; congruence |].
           right. exists (label :: pre), post. simpl. by rewrite Hc.
        -- intros [[? _] | ([| l pre] & post & Heq & Hne & Hm)]; [done | done |].
           injection Heq as <- ->. simpl in Hm. rewrite Hc in Hm. right. exists pre, post.
           split_and!; [done | | done]. intros ->. simpl in Hm. congruence.
    + split; [done |]. intros [[? _] | ([| l pre] & post & Heq & Hne & Hm)]; [done | done |].
      injection Heq as <- ->. simpl in Hm. by rewrite Hc in Hm.
Qed.

Lemma reverse_labels_spec d : valid d → reverse_labels d = rev (lower_labels (labels_ d)).
Proof.
  intros Hd. unfold reverse_labels. rewrite map_rev. f_equal.
  apply list_eq. intros i. unfold lower_labels. rewrite !list_lookup_fmap.
  destruct (labels_ d !! i) as [label |] eqn:Hi; simpl.
  - rewrite lookup_seq_lt by (by eapply lookup_lt_Some). simpl. f_equal. by apply canonical_label_spec.
  - rewrite lookup_seq_ge by (by apply lookup_ge_None). done.
Qed.

(** The trie holds exactly the names of [names], up to case. *)
Definition holds (t : RadixTree) (names : list DomainName) : Prop :=
  ∀ path, marked (root_ t) path = true ↔ ∃ n, n ∈ names ∧ path = rev (lower_labels (labels_ n)).

Lemma holds_new : holds new_tree [].
Proof. intros path. simpl. rewrite marked_new. split; [done |]. intros (n & Hn & _). set_solver. Qed.

Lemma holds_insert t names d : valid d → holds t names → holds (insert t d).2 (d :: names).
Proof.
  intros Hd Hh path. unfold insert.
  pose proof (marked_insert (reverse_labels d) (root_ t) path) as Hm.
  destruct (insert_loop _ _) as [fresh root]. cbn [snd root_] in *.
  rewrite Hm, orb_true_iff, bool_decide_eq_true, (Hh path), reverse_labels_spec by done.
  split; [| set_solver]. intros [-> | (n & Hn & ->)]; [exists d; set_solver | exists n; set_solver].
Qed.

(** Without the root in the set, [search] is the subdomain test against the set. *)
Lemma search_holds t names q :
  holds t names → Forall (λ n, is_root n = false) names → valid q →
  search t q = true ↔ ∃ n, n ∈ names ∧ is_subdomain_of q n = true.
Proof.
  intros Hh Hroot Hq. unfold search. rewrite reverse_labels_spec by done.
  rewrite search_loop_spec. setoid_rewrite is_subdomain_of_spec.
  assert (∀ n, n ∈ names → lower_labels (labels_ n) ≠ []) as Hne.
  { intros n Hn H%(f_equal length). rewrite lower_labels_length in H.
    eapply Forall_forall in Hroot; [| by apply list_elem_of_In]. unfold is_root in Hroot.
    by destruct (labels_ n). }
  split.
  - intros [[_ (n & Hn & H)%Hh] | (pre & post & Heq & Hpre & (n & Hn & ->)%Hh)].
    + apply (f_equal (@rev _)) in H. rewrite rev_involutive in H. simpl in H. by apply Hne in Hn.
    + exists n. split; [done |]. exists (rev post).
      apply (f_equal (@rev _)) in Heq. by rewrite rev_app_distr, !rev_involutive in Heq.
  - intros (n & Hn & pre & Heq). right. exists (rev (lower_labels (labels_ n))), (rev pre).
    split_and!.
    + by rewrite Heq, rev_app_distr.
    + intros H%(f_equal (@rev _)). rewrite rev_involutive in H. by apply Hne in Hn.
    + apply Hh. eauto.
Qed.

Lemma elem_of_rev (n : DomainName) l : n ∈ rev l ↔ n ∈ l.
Proof. by rewrite !list_elem_of_In, <- in_rev. Qed.

Definition insert_all (t : RadixTree) (names : list DomainName) : RadixTree :=
  foldl (λ t d, (insert t d).2) t names.

Lemma holds_insert_all t held names :
  Forall valid names → holds t held → holds (insert_all t names) (rev names ++ held).
Proof.
  intros Hv. revert t held. induction Hv as [| d names Hd Hv IH]; intros t held Hh; simpl; [done |].
  rewrite <- app_assoc. by apply IH, holds_insert.
Qed.

(** The trie is the subdomain test.  After inserting non-root names into an
    empty tree, in any order and with repetitions, [search] holds for a query
    exactly when it equals or is below one of the names, ignoring ASCII case; and
    [insert] reports whether the name is new. *)
Theorem trie_search_correct names q :
  Forall valid names → Forall (λ n, is_root n = false) names → valid q →
  (search (insert_all new_tree names) q = true ↔ ∃ n, n ∈ names ∧ is_subdomain_of q n = true) ∧
  ((insert (insert_all new_tree names) q).1 = true ↔ ¬ ∃ n, n ∈ names ∧ name_eqb q n = true).
Proof.
  intros Hv Hroot Hq. pose proof (holds_insert_all new_tree [] names Hv holds_new) as Hh.
  rewrite app_nil_r in Hh. split.
  - rewrite (search_holds _ (rev names)); [| done | by apply Forall_rev | done].
    by setoid_rewrite elem_of_rev.
  - unfold insert. pose proof (insert_loop_fresh (reverse_labels q) (root_ (insert_all new_tree names))) as Hf.
    destruct (insert_loop _ _) as [fresh root]. cbn [fst] in *. rewrite Hf, negb_true_iff.
    rewrite <- not_true_iff_false, (Hh _), reverse_labels_spec by done.
    apply not_iff_compat. split; intros (n & Hn & H); exists n.
    + rewrite elem_of_rev in Hn. split; [done |].
      apply name_eqb_spec; [done | |].
      { eapply Forall_forall in Hv; [| by apply list_elem_of_In]. done. }
      apply (f_equal (@rev _)) in H. by rewrite !rev_involutive in H.
    + split; [by rewrite elem_of_rev |].
      f_equal. apply name_eqb_spec; [done | | done].
      eapply Forall_forall in Hv; [| by apply list_elem_of_In]. done.
Qed.

Definition sample_rule : DomainName := mkDomainName [[x61]; [x62]] 5 [x01; x61; x01; x62; x00].
Definition sample_query : DomainName := mkDomainName [[x63]; [x41]; [x62]] 7 [x01; x63; x01; x61; x01; x62; x00].

Lemma trie_search_correct_witness :
  (search (insert_all new_tree [sample_rule]) sample_query = true ↔
     ∃ n, n ∈ [sample_rule] ∧ is_subdomain_of sample_query n = true) ∧
  ((insert (insert_all new_tree [sample_rule]) sample_query).1 = true ↔
     ¬ ∃ n, n ∈ [sample_rule] ∧ name_eqb sample_query n = true).
Proof.
  apply (trie_search_correct [sample_rule] sample_query).
  - repeat constructor.
  - repeat constructor.
  - vm_compute. reflexivity.
Defined.

End Radix.
