(* ===== verification/DomainBlocklist.v ===== *)
(** * The blocklist ([DomainBlocklist.h], [DomainBlocklist.cpp], [FilterContext.h],
      [FilterContext.cpp])

    A list of rules is compiled into a trie behind an approximate prefilter.  The
    definitions are over any [Prefilter]; the cuckoo filter is its instance. *)
From S2P Require Import Prelude DomainName CuckooFilter RadixTree.
From Stdlib Require Import Strings.Byte.

Module BlocklistBuildErrorCode.
Inductive code :=
  | InvalidDomain | RootRuleNotAllowed | WildcardNotSupported | CapacityOverflow | Cancelled.
End BlocklistBuildErrorCode.
Import BlocklistBuildErrorCode.

Record BlocklistBuildError := mkBuildError { build_code : BlocklistBuildErrorCode.code; rule_index : nat }.

(** How [build] ends without a value: [std::unexpected], or an exception thrown by
    the constructor of the prefilter. *)
Inductive BuildFailure :=
  | Unexpected (e : BlocklistBuildError)
  | Thrown (e : Cuckoo.FilterException).

(** A [std::stop_token]: the number of polls that still answer "no stop", if a
    stop will be requested at all.  Once requested it stays requested. *)
Abbreviation StopToken := (option nat).

Definition stop_requested (t : StopToken) : bool * StopToken :=
  match t with
  | None => (false, None)
  | Some O => (true, Some O)
  | Some (S n) => (false, Some n)
  end.

Definition contains_unsupported_wildcard (name : DomainName) : bool :=
  existsb (existsb (λ b, bool_decide (b = x2a) || bool_decide (b = x3f))) (labels_ name).

Definition initial_bucket_count (item_count : nat) : Z :=
  if (item_count <? 4)%nat then 4 else Z.of_nat item_count / 3 + 1.

Definition size_max : Z := 2 ^ 64 - 1.

Section blocklist.
Context {F : Type} `{Prefilter F}.

Record DomainBlocklist := mkDomainBlocklist {
  prefilter_ : F;
  tree_ : Radix.RadixTree;
  rule_count_ : nat;
  normalized_rule_bytes_ : nat;
}.

Abbreviation build_result T := (outcome BuildFailure T).

Definition fail_with {T} (c : BlocklistBuildErrorCode.code) (index : nat) : build_result T :=
  Err (Unexpected (mkBuildError c index)).

(** An operation of the prefilter that cannot fail, in the monad of [build]. *)
Definition lift {T} (m : outcome Empty_set T) : build_result T :=
  match m with Val a => Val a | Err e => match e with end | Undef => Undef end.

(** [DomainBlocklist(bucket_count)] *)
Definition make_blocklist (bucket_count : Z) : build_result DomainBlocklist :=
  match pf_make bucket_count Cuckoo.MAX_KICKS with
  | Val f => Val (mkDomainBlocklist f Radix.new_tree 0 0)
  | Err e => Err (Thrown e)
  | Undef => Undef
  end.

(** The first loop: parse the rules, reject unusable ones, drop repetitions. *)
Fixpoint canonicalize_loop (rules : list (list byte)) (index : nat) (unique_rules : gset (list byte))
    (canonical_rules : list DomainName) (t : StopToken) : build_result (list DomainName * StopToken) :=
  match rules with
  | [] => Val (canonical_rules, t)
  | rule :: rules =>
      let '(stop, t) := stop_requested t in
      if (stop : bool) then fail_with Cancelled index
      else
        match from_text rule with
        | Undef => Undef
        | Err _ => fail_with InvalidDomain index
        | Val name =>
            if is_root name then fail_with RootRuleNotAllowed index
            else if contains_unsupported_wildcard name then fail_with WildcardNotSupported index
            else
              let key := canonical_key_ name in
              if decide (key ∈ unique_rules)
              then canonicalize_loop rules (S index) unique_rules canonical_rules t
              else canonicalize_loop rules (S index) ({[key]} ∪ unique_rules) (canonical_rules ++ [name]) t
        end
  end.

(** The loop over [candidate.prefilter_.insert]; false stands for the [break]. *)
Fixpoint fill_prefilter (names : list DomainName) (index : nat) (f : F) (t : StopToken)
    : build_result (bool * F * StopToken) :=
  match names with
  | [] => Val (true, f, t)
  | name :: names =>
      let '(stop, t) := stop_requested t in
      if (stop : bool) then fail_with Cancelled index
      else
        '(ok, f) ← lift (pf_insert f (canonical_key_ name));
        if (ok : bool) then fill_prefilter names (S index) f t else Val (false, f, t)
  end.

Fixpoint fill_tree (names : list DomainName) (index : nat) (tree : Radix.RadixTree) (t : StopToken)
    : build_result (Radix.RadixTree * StopToken) :=
  match names with
  | [] => Val (tree, t)
  | name :: names =>
      let '(stop, t) := stop_requested t in
      if (stop : bool) then fail_with Cancelled index
      else fill_tree names (S index) (Radix.insert tree name).2 t
  end.

(** [while (true)]: the bucket count doubles until the prefilter takes every rule. *)
Fixpoint build_loop (fuel : nat) (canonical_rules : list DomainName) (bucket_count : Z) (t : StopToken)
    : build_result (DomainBlocklist * StopToken) :=
  match fuel with
  | O => Undef
  | S fuel =>
      let '(stop, t) := stop_requested t in
      if (stop : bool) then fail_with Cancelled 0
      else
        candidate ← make_blocklist bucket_count;
        '(inserted_all, f, t) ← fill_prefilter canonical_rules 0 (prefilter_ candidate) t;
        if (inserted_all : bool) then
          '(tree, t) ← fill_tree canonical_rules 0 (tree_ candidate) t;
          Val (mkDomainBlocklist f tree (length canonical_rules)
                 (foldl (λ n rule, n + length (canonical_key_ rule))%nat 0%nat canonical_rules), t)
        else if size_max / 2 <? bucket_count then fail_with CapacityOverflow 0
        else build_loop fuel canonical_rules (bucket_count * 2) t
  end.

(** From at least four buckets, 2^63 is passed after fewer than 64 doublings. *)
Definition build_fuel : nat := 64.

Definition build (rules : list (list byte)) (t : StopToken) : build_result (DomainBlocklist * StopToken) :=
  let '(stop, t) := stop_requested t in
  if (stop : bool) then fail_with Cancelled 0
  else
    '(canonical_rules, t) ← canonicalize_loop rules 0 ∅ [] t;
    build_loop build_fuel canonical_rules (initial_bucket_count (length canonical_rules)) t.

(** The loop of [matches] over the suffixes of the query, from [first_label]. *)
Fixpoint possibly_matches_loop (n : nat) (first_label : nat) (f : F) (query : DomainName)
    : outcome Empty_set bool :=
  match n with
  | O => Val false
  | S n =>
      hit ← pf_contains f (canonical_suffix_key query first_label);
      if (hit : bool) then Val true else possibly_matches_loop n (S first_label) f query
  end.

Definition matches (b : DomainBlocklist) (query : DomainName) : outcome Empty_set bool :=
  possibly_matches ← possibly_matches_loop (label_count query) 0 (prefilter_ b) query;
  Val (possibly_matches && Radix.search (tree_ b) query).

Definition matches_text (b : DomainBlocklist) (query : list byte) : outcome Empty_set bool :=
  match from_text query with
  | Val normalized => matches b normalized
  | Err _ => Val false
  | Undef => Undef
  end.

(** [FilterContext]: a compiled blocklist with its generation. *)
Record FilterContext := mkFilterContext {
  generation : Z;
  normalized_rule_bytes : nat;
  blocklist : DomainBlocklist;
}.

Definition build_filter_snapshot (rules : list (list byte)) (gen : Z) (t : StopToken)
    : build_result (FilterContext * StopToken) :=
  '(blocklist, t) ← build rules t;
  let '(stop, t) := stop_requested t in
  if (stop : bool) then fail_with Cancelled 0
  else Val (mkFilterContext gen (normalized_rule_bytes_ blocklist) blocklist, t).
End blocklist.
Arguments DomainBlocklist F : clear implicits.
Arguments FilterContext F : clear implicits.

Definition kInitialFilterGeneration : Z := 1.

(** ** Compiling the rules *)

(** What is wrong with a rule, if anything. *)
Definition rule_verdict (rule : list byte) : option BlocklistBuildErrorCode.code :=
  match from_text rule with
  | Val name => if is_root name then Some RootRuleNotAllowed
                else if contains_unsupported_wildcard name then Some WildcardNotSupported
                else None
  | _ => Some InvalidDomain
  end.

Definition accepted (rule : list byte) : Prop := rule_verdict rule = None.

Lemma rule_verdict_none rule :
  accepted rule →
  ∃ name, from_text rule = Val name ∧ valid name ∧ is_root name = false ∧ contains_unsupported_wildcard name = false.
Proof.
  unfold accepted, rule_verdict. destruct (from_text rule) as [name | |] eqn:Hf; try done.
  destruct (is_root name) eqn:Hr; [done |]. destruct (contains_unsupported_wildcard name) eqn:Hw; [done |].
  intros _. exists name. split_and!; try done. by eapply from_text_valid.
Qed.

Definition keys_of (names : list DomainName) : gset (list byte) := list_to_set (map canonical_key_ names).

(** The compiled names: those of the rules, one for each canonical key. *)
Record compiled (rules : list (list byte)) (names : list DomainName) : Prop := {
  comp_valid : Forall (λ n, valid n ∧ is_root n = false) names;
  comp_nodup : NoDup (map canonical_key_ names);
  comp_accepted : Forall accepted rules;
  comp_from n : n ∈ names → ∃ rule, rule ∈ rules ∧ from_text rule = Val n;
  comp_all rule name : rule ∈ rules → from_text rule = Val name → canonical_key_ name ∈ map canonical_key_ names;
}.

Lemma compiled_nil : compiled [] [].
Proof. split; try constructor; set_solver. Qed.

Lemma compiled_skip rules names rule name :
  compiled rules names → accepted rule → from_text rule = Val name →
  canonical_key_ name ∈ map canonical_key_ names → compiled (rules ++ [rule]) names.
Proof.
  intros [Hv Hn Ha Hf Hall] Hacc Hname Hin. split; try done.
  - apply Forall_app. by repeat constructor.
  - intros n Hn'. destruct (Hf n Hn') as (r & ? & ?). exists r. set_solver.
  - intros r n [Hr | ->%list_elem_of_singleton]%elem_of_app Hrn; [by eapply Hall | congruence].
Qed.

Lemma compiled_add rules names rule name :
  compiled rules names → accepted rule → from_text rule = Val name →
  canonical_key_ name ∉ map canonical_key_ names → compiled (rules ++ [rule]) (names ++ [name]).
Proof.
  intros [Hv Hn Ha Hf Hall] Hacc Hname Hin.
  apply rule_verdict_none in Hacc as Hok. destruct Hok as (name' & Heq & Hval & Hroot & _).
  assert (name' = name) as -> by congruence. split.
  - apply Forall_app. by repeat constructor.
  - rewrite map_app. apply list.NoDup_app. split_and!; [done | set_solver | apply NoDup_singleton].
  - apply Forall_app. by repeat constructor.
  - intros n [Hn' | ->%list_elem_of_singleton]%elem_of_app; [| exists rule; set_solver].
    destruct (Hf n Hn') as (r & ? & ?). exists r. set_solver.
  - intros r n Hr Hrn. rewrite map_app. apply elem_of_app.
    apply elem_of_app in Hr as [Hr | ->%list_elem_of_singleton]; [left; by eapply Hall | right].
    assert (n = name) as -> by congruence. set_solver.
Qed.

(** How a compilation step may fail on [rules]: cancelled, or at the first rule that
    is not accepted. *)
Definition build_error_ok (rules : list (list byte)) (t : StopToken) (e : BlocklistBuildError) : Prop :=
  (build_code e = Cancelled ∧ t ≠ None) ∨
  ∃ rule, rules !! rule_index e = Some rule ∧ rule_verdict rule = Some (build_code e) ∧
          Forall accepted (take (rule_index e) rules).

Lemma stop_requested_none t stop t' :
  stop_requested t = (stop, t') → (stop = true → t ≠ None) ∧ (t' ≠ None → t ≠ None).
Proof. destruct t as [[] |]; intros [= <- <-]; done. Qed.

Lemma canonicalize_spec rest done_rules acc t :
  compiled done_rules acc →
  match canonicalize_loop rest (length done_rules) (keys_of acc) acc t with
  | Val (names, t') => compiled (done_rules ++ rest) names ∧ (t' ≠ None → t ≠ None)
  | Err (Unexpected e) => build_error_ok (done_rules ++ rest) t e
  | Err (Thrown _) | Undef => False
  end.
Proof.
  revert done_rules acc t. induction rest as [| rule rest IH]; intros done_rules acc t Hc; cbn [canonicalize_loop].
  { rewrite app_nil_r. auto. }
  destruct (stop_requested t) as [stop t1] eqn:Hs. apply stop_requested_none in Hs as [Hstop Ht1].
  destruct stop; [left; auto |].
  assert (∀ c, rule_verdict rule = Some c →
    build_error_ok (done_rules ++ rule :: rest) t (mkBuildError c (length done_rules))) as Hbad.
  { intros c Hv. right. exists rule. cbn [rule_index build_code]. split_and!; [by apply list_lookup_middle | done |].
    rewrite take_app_length. apply (comp_accepted _ _ Hc). }
  unfold fail_with. pose proof (from_text_defined rule) as Hdef. unfold rule_verdict in Hbad.
  destruct (from_text rule) as [name | |] eqn:Hf; [| by apply Hbad | done].
  destruct (is_root name) eqn:Hroot; [by apply Hbad |].
  destruct (contains_unsupported_wildcard name) eqn:Hw; [by apply Hbad |].
  assert (accepted rule) as Hacc by (unfold accepted, rule_verdict; by rewrite Hf, Hroot, Hw).
  assert (canonical_key_ name ∈ keys_of acc ↔ canonical_key_ name ∈ map canonical_key_ acc) as Hkeys
    by (unfold keys_of; by rewrite elem_of_list_to_set).
  replace (S (length done_rules)) with (length (done_rules ++ [rule])) by (rewrite length_app; simpl; lia).
  replace (done_rules ++ rule :: rest) with ((done_rules ++ [rule]) ++ rest) by (by rewrite <- app_assoc).
  assert (∀ e, build_error_ok ((done_rules ++ [rule]) ++ rest) t1 e →
               build_error_ok ((done_rules ++ [rule]) ++ rest) t e) as Hmono
    by (intros e [[? ?] | ?]; [left; auto | by right]).
  destruct (decide (canonical_key_ name ∈ keys_of acc)) as [Hin | Hout].
  - specialize (IH (done_rules ++ [rule]) acc t1 (compiled_skip _ _ _ _ Hc Hacc Hf (proj1 Hkeys Hin))).
    destruct (canonicalize_loop rest _ _ _ t1) as [[names t'] | [e | e] |]; naive_solver.
  - rewrite Hkeys in Hout.
    specialize (IH (done_rules ++ [rule]) (acc ++ [name]) t1 (compiled_add _ _ _ _ Hc Hacc Hf Hout)).
    replace (keys_of (acc ++ [name])) with ({[canonical_key_ name]} ∪ keys_of acc) in IH
      by (unfold keys_of; rewrite map_app, list_to_set_app_L; simpl; set_solver).
    destruct (canonicalize_loop rest _ _ _ t1) as [[names t'] | [e | e] |]; naive_solver.
Qed.

Section correctness.
Context {F : Type} `{Prefilter F}.

(** What [build] establishes. *)
Record blocks (b : DomainBlocklist F) (names : list DomainName) : Prop := {
  bl_ok : pf_ok (prefilter_ b);
  bl_members n : n ∈ names → pf_member (prefilter_ b) (canonical_key_ n);
  bl_tree : Radix.holds (tree_ b) (rev names);
  bl_count : rule_count_ b = length names;
  bl_bytes : normalized_rule_bytes_ b = sum_list (map (λ n, length (canonical_key_ n)) names);
}.

Lemma fill_prefilter_spec names index f t :
  pf_ok f →
  match fill_prefilter names index f t with
  | Val (ok, g, t') => pf_ok g ∧ (∀ y, pf_member f y → pf_member g y) ∧ (t' ≠ None → t ≠ None) ∧
                       (ok = true → ∀ n, n ∈ names → pf_member g (canonical_key_ n))
  | Err (Unexpected e) => build_code e = Cancelled ∧ t ≠ None
  | Err (Thrown _) | Undef => False
  end.
Proof.
  revert index f t. induction names as [| n names IH]; intros index f t Hf; cbn [fill_prefilter].
  { split_and!; auto. intros _ n ?. set_solver. }
  destruct (stop_requested t) as [stop t1] eqn:Hs. apply stop_requested_none in Hs as [Hstop Ht1].
  destruct stop; [split; auto |].
  destruct (pf_insert_ok f (canonical_key_ n) Hf) as (ok & g & -> & Hg & Hkeep & Hnew).
  cbn [lift mbind outcome_bind]. destruct ok; [| split_and!; by auto].
  specialize (IH (S index) g t1 Hg).
  destruct (fill_prefilter names (S index) g t1) as [[[ok g'] t'] | [e | e] |]; [| naive_solver | done | done].
  destruct IH as (Hg' & Hkeep' & Ht' & Hall). split_and!; auto.
  intros -> m [-> | Hm]%elem_of_cons; auto.
Qed.

Lemma fill_tree_spec names index tree t :
  match fill_tree names index tree t with
  | Val (tree', t') => tree' = Radix.insert_all tree names ∧ (t' ≠ None → t ≠ None)
  | Err (Unexpected e) => build_code e = Cancelled ∧ t ≠ None
  | Err (Thrown _) | Undef => False
  end.
Proof.
  revert index tree t. induction names as [| n names IH]; intros index tree t; cbn [fill_tree]; [auto |].
  destruct (stop_requested t) as [stop t1] eqn:Hs. apply stop_requested_none in Hs as [Hstop Ht1].
  destruct stop; [split; auto |].
  specialize (IH (S index) (Radix.insert tree n).2 t1).
  destruct (fill_tree names _ _ t1) as [[tree' t'] | [e | e] |]; naive_solver.
Qed.

Lemma sum_bytes_foldl names acc :
  foldl (λ n rule, n + length (canonical_key_ rule))%nat acc names =
  (acc + sum_list (map (λ n, length (canonical_key_ n)) names))%nat.
Proof. revert acc. induction names as [| n names IH]; intros acc; simpl; [lia |]. rewrite IH. lia. Qed.

(** The doubling loop ends within its bound, and only by success, cancellation or
    the exception of the prefilter's constructor. *)
Lemma build_loop_spec fuel names count t :
  Forall valid names → (1 ≤ fuel ≤ 64)%nat → 2 ^ (64 - Z.of_nat fuel) ≤ count →
  match build_loop fuel names count t with
  | Val (b, t') => blocks b names ∧ (t' ≠ None → t ≠ None)
  | Err (Unexpected e) => build_code e = Cancelled ∧ t ≠ None
  | Err (Thrown _) => True
  | Undef => False
  end.
Proof.
  intros Hv. revert count t. induction fuel as [| fuel IH]; intros count t Hfuel Hcount; [lia |].
  cbn [build_loop].
  destruct (stop_requested t) as [stop t1] eqn:Hs. apply stop_requested_none in Hs as [Hstop Ht1].
  destruct stop; [split; auto |]. unfold make_blocklist.
  pose proof (pf_make_ok count Cuckoo.MAX_KICKS) as Hmk.
  pose proof (pf_make_bound count Cuckoo.MAX_KICKS) as Hbound.
  destruct (pf_make count Cuckoo.MAX_KICKS) as [f | |]; [| done | done].
  cbn [mbind outcome_bind prefilter_ tree_].
  pose proof (fill_prefilter_spec names 0 f t1 Hmk) as Hfill.
  destruct (fill_prefilter names 0 f t1) as [[[ok g] t2] | [e | e] |];
    [| destruct Hfill; split; auto | done | done].
  destruct Hfill as (Hg & _ & Ht2 & Hall). destruct ok; cbn [mbind outcome_bind].
  - pose proof (fill_tree_spec names 0 Radix.new_tree t2) as Htree.
    destruct (fill_tree names 0 Radix.new_tree t2) as [[tree t3] | [e | e] |];
      [| destruct Htree; split; auto | done | done].
    destruct Htree as [-> Ht3]. split; [| auto]. split; cbn [prefilter_ tree_ rule_count_ normalized_rule_bytes_]; try done.
    + auto.
    + pose proof (Radix.holds_insert_all Radix.new_tree [] names Hv Radix.holds_new) as Hh.
      by rewrite app_nil_r in Hh.
    + apply sum_bytes_foldl.
  - destruct (size_max / 2 <? count) eqn:Hmax; bool_hyps.
    + exfalso. destruct Hbound as [e He]; [| done].
      etrans; [| apply Z.lt_le_incl, Hmax]. vm_compute. congruence.
    + change (size_max / 2) with (2 ^ 63 - 1) in Hmax.
      replace (64 - Z.of_nat (S fuel)) with (63 - Z.of_nat fuel) in Hcount by lia.
      destruct (decide (fuel = 0%nat)) as [-> | Hne].
      { change (2 ^ (63 - Z.of_nat 0)) with (2 ^ 63) in Hcount. lia. }
      assert (2 ^ (64 - Z.of_nat fuel) ≤ count * 2) as Hcount'.
      { replace (64 - Z.of_nat fuel) with (Z.succ (63 - Z.of_nat fuel)) by lia.
        rewrite Z.pow_succ_r by lia. lia. }
      specialize (IH (count * 2) t2 ltac:(lia) Hcount').
      destruct (build_loop fuel names (count * 2) t2) as [[b t'] | [e | e] |];
        [destruct IH; split; auto | destruct IH; split; auto | done | done].
Qed.

Lemma initial_bucket_count_pos n : 2 ≤ initial_bucket_count n.
Proof. unfold initial_bucket_count. case_goal; bool_hyps; [done |]. dlia. Qed.

Lemma build_spec rules t :
  match build rules t with
  | Val (b, t') => ∃ names, compiled rules names ∧ blocks b names
  | Err (Unexpected e) => build_error_ok rules t e
  | Err (Thrown _) => Forall accepted rules
  | Undef => False
  end.
Proof.
  unfold build. destruct (stop_requested t) as [stop t1] eqn:Hs. apply stop_requested_none in Hs as [Hstop Ht1].
  destruct stop; [left; auto |].
  pose proof (canonicalize_spec rules [] [] t1 compiled_nil) as Hc. cbn [length app] in Hc.
  change (keys_of []) with (∅ : gset (list byte)) in Hc.
  destruct (canonicalize_loop rules 0 ∅ [] t1) as [[names t2] | [e | e] |]; [| | done | done].
  2: { destruct Hc as [[? ?] | ?]; [left; auto | by right]. }
  destruct Hc as [Hc Ht2]. cbn [mbind outcome_bind].
  pose proof (build_loop_spec build_fuel names (initial_bucket_count (length names)) t2) as Hb.
  assert (Forall valid names) as Hv.
  { eapply Forall_impl; [| apply (comp_valid _ _ Hc)]. by intros n [? _]. }
  specialize (Hb Hv ltac:(unfold build_fuel; lia)).
  assert (2 ^ (64 - Z.of_nat build_fuel) ≤ initial_bucket_count (length names)) as Hpos.
  { change (2 ^ (64 - Z.of_nat build_fuel)) with 1.
    pose proof (initial_bucket_count_pos (length names)). lia. }
  specialize (Hb Hpos).
  destruct (build_loop build_fuel names _ t2) as [[b t'] | [e | e] |]; [| | | done].
  - exists names. split; [done |]. apply Hb.
  - left. destruct Hb. split; auto.
  - apply (comp_accepted _ _ Hc).
Qed.

(** ** Matching *)
Lemma possibly_matches_spec n first f q :
  pf_ok f →
  ∃ r, possibly_matches_loop n first f q = Val r ∧
    ((∃ i, (first ≤ i < first + n)%nat ∧ pf_member f (canonical_suffix_key q i)) → r = true).
Proof.
  intros Hf. revert first. induction n as [| n IH]; intros first; cbn [possibly_matches_loop].
  { exists false. split; [done |]. intros (i & ? & _). lia. }
  destruct (pf_contains_ok f (canonical_suffix_key q first) Hf) as (hit & -> & Hhit).
  cbn [mbind outcome_bind]. destruct hit; [by exists true |].
  destruct (IH (S first)) as (r & -> & Hr). exists r. split; [done |]. intros (i & Hi & Hm).
  destruct (decide (i = first)) as [-> |]; [by apply Hhit in Hm |]. apply Hr. exists i. split; [lia | done].
Qed.

Lemma matches_spec b names q :
  blocks b names → Forall (λ n, valid n ∧ is_root n = false) names → valid q →
  ∃ r, matches b q = Val r ∧ (r = true ↔ ∃ n, n ∈ names ∧ is_subdomain_of q n = true).
Proof.
  intros Hb Hv Hq. unfold matches.
  destruct (possibly_matches_spec (label_count q) 0 (prefilter_ b) q (bl_ok _ _ Hb)) as (r & -> & Hr).
  cbn [mbind outcome_bind]. eexists. split; [done |]. rewrite andb_true_iff.
  rewrite (Radix.search_holds _ _ q (bl_tree _ _ Hb)); [| | done].
  2: { apply Forall_rev. eapply Forall_impl; [| exact Hv]. by intros n [_ ?]. }
  setoid_rewrite Radix.elem_of_rev. split; [by intros [_ ?] |].
  intros Hex. split; [| done]. destruct Hex as (n & Hn & Hsub). apply Hr.
  assert (valid n ∧ is_root n = false) as [Hvn Hrn]
    by (eapply Forall_forall in Hv; [exact Hv | by apply list_elem_of_In]).
  apply is_subdomain_of_suffix_key in Hsub as (i & Hi & Heq); [| done..].
  exists i. split; [lia |]. rewrite Heq. by apply (bl_members _ _ Hb).
Qed.

(** Matching a name depends on it only up to case. *)
Lemma subdomain_key_ext q a b :
  valid a → valid b → canonical_key_ a = canonical_key_ b → is_subdomain_of q a = true → is_subdomain_of q b = true.
Proof.
  intros Ha Hb Hk. rewrite !is_subdomain_of_spec.
  assert (name_eqb a b = true) as Heq by (by apply bool_decide_eq_true).
  apply name_eqb_spec in Heq; [| done..]. by rewrite Heq.
Qed.

Lemma compiled_rules rules names q :
  compiled rules names →
  (∃ n, n ∈ names ∧ is_subdomain_of q n = true) ↔
  ∃ rule n, rule ∈ rules ∧ from_text rule = Val n ∧ is_subdomain_of q n = true.
Proof.
  intros [Hv _ _ Hfrom Hall]. split.
  - intros (n & Hn & Hs). destruct (Hfrom n Hn) as (rule & ? & ?). eauto.
  - intros (rule & n & Hrule & Hf & Hs).
    pose proof (Hall rule n Hrule Hf) as (m & Hk & Hm)%list_elem_of_fmap. exists m. split; [done |].
    eapply (subdomain_key_ext q n m); try done; [by eapply from_text_valid |].
    eapply Forall_forall in Hv; [apply Hv | by apply list_elem_of_In].
Qed.
End correctness.

(** ** Properties *)

(** C16: the compiled blocklist decides the rules.  If [build] succeeds, then
    [matches] of any valid query is defined and holds exactly when the query equals
    or is below a rule of the list, ignoring ASCII case: the approximate prefilter,
    the removal of repeated rules and the trie do not change an answer. *)
Theorem blocklist_matches {F} `{Prefilter F} rules t b t' q :
  build rules t = Val (b, t') → valid q →
  ∃ r, matches b q = Val r ∧
    (r = true ↔ ∃ rule n, rule ∈ rules ∧ from_text rule = Val n ∧ is_subdomain_of q n = true).
Proof.
  intros Hb Hq. pose proof (build_spec rules t) as Hspec. rewrite Hb in Hspec.
  destruct Hspec as (names & Hc & Hbl).
  destruct (matches_spec b names q Hbl (comp_valid _ _ Hc) Hq) as (r & Hm & Hr).
  exists r. split; [done |]. by rewrite Hr, (compiled_rules rules names q Hc).
Qed.

Definition sample_rules : list (list byte) := [[x61; x2e; x62]; [x63]; [x41; x2e; x42]].

#[local] Instance toy_prefilter : Prefilter Cuckoo.CuckooFilter := cuckoo_prefilter Cuckoo.toy_hash (2 ^ 58).

Definition sample_build : DomainBlocklist Cuckoo.CuckooFilter :=
  match build sample_rules None with
  | Val (b, _) => b
  | _ => mkDomainBlocklist Cuckoo.sample_filter Radix.new_tree 0 0
  end.

Lemma sample_build_ok : build sample_rules None = Val (sample_build, None).
Proof. vm_compute. reflexivity. Qed.

Lemma blocklist_matches_witness :
  ∃ r, matches sample_build Radix.sample_query = Val r ∧
    (r = true ↔ ∃ rule n, rule ∈ sample_rules ∧ from_text rule = Val n ∧ is_subdomain_of Radix.sample_query n = true).
Proof.
  apply (blocklist_matches sample_rules None sample_build None Radix.sample_query).
  - exact sample_build_ok.
  - vm_compute. reflexivity.
Defined.

Example sample_matches : matches sample_build Radix.sample_query = Val true.
Proof. vm_compute. reflexivity. Qed.

(** C40: every way [build] ends.  It always returns (the doubling loop ends).  With a
    value, every rule was accepted and the counters are the number of distinct
    names and the total size of their keys.  With an error, either a stop was
    requested, or the error names the first rule that is not a domain name, is the
    root, or holds a wildcard, with the matching code.  [CapacityOverflow] is never
    returned: the constructor of the prefilter throws before the count can pass
    half of [size_t], and then every rule was accepted. *)
Theorem build_outcomes {F} `{Prefilter F} rules t :
  match build rules t with
  | Val (b, _) =>
      Forall accepted rules ∧
      ∃ names, NoDup (map canonical_key_ names) ∧ rule_count_ b = length names ∧
               normalized_rule_bytes_ b = sum_list (map (λ n, length (canonical_key_ n)) names) ∧
               ∀ k, k ∈ map canonical_key_ names ↔ ∃ rule n, rule ∈ rules ∧ from_text rule = Val n ∧ canonical_key_ n = k
  | Err (Unexpected e) =>
      build_code e ≠ CapacityOverflow ∧
      ((build_code e = Cancelled ∧ t ≠ None) ∨
       ∃ rule, rules !! rule_index e = Some rule ∧ rule_verdict rule = Some (build_code e) ∧
               Forall accepted (take (rule_index e) rules))
  | Err (Thrown _) => Forall accepted rules
  | Undef => False
  end.
Proof.
  pose proof (build_spec rules t) as Hspec. destruct (build rules t) as [[b t'] | [e | e] |]; [| | done | done].
  - destruct Hspec as (names & [_ Hnd Hacc Hfrom Hall] & [_ _ _ Hcnt Hbytes]). split; [done |].
    exists names. split_and!; try done. intros k. split.
    + intros (n & -> & Hn)%list_elem_of_fmap. destruct (Hfrom n Hn) as (rule & ? & ?). eauto.
    + intros (rule & n & Hr & Hf & <-). eauto.
  - split; [| done]. destruct Hspec as [[-> _] | (rule & _ & Hv & _)]; [done |].
    intros Heq. rewrite Heq in Hv. unfold rule_verdict in Hv.
    destruct (from_text rule) as [n | |]; [| done | done]. by destruct (is_root n), (contains_unsupported_wildcard n).
Qed.
