(* ===== verification/UpstreamChannel.v ===== *)
(** * The upstream channel ([upstream/UpstreamChannel.h], [upstream/UpstreamChannel.cpp])

    One connected UDP socket on which a worker runs many queries at a time.  A query
    in flight holds a transaction ID; an ID is free, pending (a slot of the table
    points to its query) or retired, that is in quarantine until its reuse time.

    Pointers to [QueryAwaiter] are keys of the map [awaiters].  The timer queue and the
    scheduler are behind the class [Runtime].  Current time, current thread and the
    results of system calls are arguments.  [std::push_heap]/[std::pop_heap] keep the
    least element of [retired_ids_] in front and nothing else of the layout is used, so
    the vector is the sorted list of its elements. *)
From S2P Require Import Prelude DomainName DnsMessage DnsParser DnsWriter DnsQuery.
From Stdlib Require Import Strings.Byte.

Module Upstream.

Inductive QueryOutcome :=
  | Response | Timeout | SendError | SocketError | Overloaded | InvalidQuery | Cancelled.

#[global] Instance query_outcome_eq_dec : EqDecision QueryOutcome.
Proof. solve_decision. Defined.

Record QueryResult := mkQueryResult {
  result_outcome : QueryOutcome;
  response : list byte;
  error_number : Z;
}.

Record ChannelConfig := mkChannelConfig {
  query_timeout : Z;
  id_reuse_guard : Z;
  transaction_id_capacity : Z;
  initial_transaction_id : Z;
  randomize_transaction_ids : bool;
}.

#[export] Instance channel_config_eq_dec : EqDecision ChannelConfig.
Proof. solve_decision. Defined.

Inductive ChannelCounter :=
  | queries_sent | responses_completed | timeouts | cancellations | send_errors | socket_errors
  | overloaded | invalid_responses | unmatched_responses | invariant_failures.

#[export] Instance channel_counter_eq_dec : EqDecision ChannelCounter.
Proof. solve_decision. Defined.

Inductive PacketResult := Completed | Invalid | Unmatched | InvariantFailure.

Record DrainResult := mkDrainResult { datagrams : nat; has_more : bool; socket_error : bool }.

Inductive AwaiterState := Idle | Pending | Done | Failed.

#[export] Instance awaiter_state_eq_dec : EqDecision AwaiterState.
Proof. solve_decision. Defined.

(** [owner_] and [task_] are null or not. *)
Record QueryAwaiter := mkQueryAwaiter {
  owner_ : bool;
  task_ : option nat;
  header_ : Header;
  question_ : Question;
  deadline_ : Z;
  result_ : QueryResult;
  transaction_id_ : Z;
  state_ : AwaiterState;
}.

Inductive IdState := Unavailable | IdFree | IdPending | IdRetired.

#[export] Instance id_state_eq_dec : EqDecision IdState.
Proof. solve_decision. Defined.

Record RetiredId := mkRetiredId { reusable_at : Z; retired_id : Z }.

Inductive BeginResult :=
  | BeginSuspended | BeginClosed | BeginWrongThread | BeginWrongScheduler | BeginOverloaded
  | BeginInvalidQuery | BeginTimerFailure | BeginSendError.

Definition kTransactionIdSpace : Z := 65536.
Definition kUpstreamReceiveBufferSize : nat := kClassicDnsUdpPayloadLimit.
Definition kUpstreamQueryBudget : nat := kClassicDnsUdpPayloadLimit.

Definition duration_max : Z := 2 ^ 63 - 1.

(** The members of [UpstreamChannel], in two groups. *)
Record Lifecycle := mkLifecycle {
  scheduler_ : bool;
  timers_ : bool;
  owner_thread_ : option Z;
  socket_fd_ : Z;
  running_ : bool;
  accepting_ : bool;
  has_started_ : bool;
}.

Record UpstreamChannel := mkChannel {
  slots_ : gmap Z nat;
  id_states_ : gmap Z IdState;
  free_ids_ : list Z;
  retired_ids_ : list RetiredId;
  random_engine_ : Z;
  config_ : ChannelConfig;
  stats_ : ChannelCounter → Z;
  pending_count_ : Z;
  life_ : Lifecycle;
}.

Inductive ArmResult := Armed | ArmClosed | ArmFailed.

(** What the channel uses of [TimerQueue] and [Scheduler].  [rt_armed rt q] is
    [timer_.armed()] of the awaiter [q]: [arm] arms exactly that registration, [disarm]
    of an armed registration succeeds and disarms exactly it, [schedule] leaves timers
    alone. *)
Class Runtime (RT : Type) := {
  rt_bound : RT → bool;
  rt_arm : RT → nat → Z → ArmResult * RT;
  rt_disarm : RT → nat → bool * RT;
  rt_schedule : RT → nat → bool * RT;
  rt_armed : RT → nat → bool;
  rt_arm_spec rt q d :
    let '(r, rt') := rt_arm rt q d in
    (∀ p, rt_armed rt' p = match r with Armed => bool_decide (p = q) || rt_armed rt p | _ => rt_armed rt p end);
  rt_disarm_spec rt q :
    let '(ok, rt') := rt_disarm rt q in
    (rt_armed rt q = true → ok = true) ∧
    ∀ p, rt_armed rt' p = negb (bool_decide (p = q)) && rt_armed rt p;
  rt_schedule_spec rt q : ∀ p, rt_armed (rt_schedule rt q).2 p = rt_armed rt p;
}.

Section channel.
Context {RT : Type} `{Runtime RT}.

(** [std::mt19937_64]: the next value and state of the engine. *)
Context (engine_next : Z → Z * Z).

Record World := mkWorld { chan : UpstreamChannel; awaiters : gmap nat QueryAwaiter; runtime : RT }.

Definition set_chan (c : UpstreamChannel) (w : World) : World := mkWorld c (awaiters w) (runtime w).
Definition set_awaiter (q : nat) (a : QueryAwaiter) (w : World) : World :=
  mkWorld (chan w) (<[q := a]> (awaiters w)) (runtime w).
Definition set_runtime (r : RT) (w : World) : World := mkWorld (chan w) (awaiters w) r.

Definition set_slots (s : gmap Z nat) (n : Z) (c : UpstreamChannel) : UpstreamChannel :=
  mkChannel s (id_states_ c) (free_ids_ c) (retired_ids_ c) (random_engine_ c) (config_ c) (stats_ c) n (life_ c).
Definition set_states (m : gmap Z IdState) (c : UpstreamChannel) : UpstreamChannel :=
  mkChannel (slots_ c) m (free_ids_ c) (retired_ids_ c) (random_engine_ c) (config_ c) (stats_ c) (pending_count_ c) (life_ c).
Definition set_free (l : list Z) (r : Z) (c : UpstreamChannel) : UpstreamChannel :=
  mkChannel (slots_ c) (id_states_ c) l (retired_ids_ c) r (config_ c) (stats_ c) (pending_count_ c) (life_ c).
Definition set_retired (l : list RetiredId) (c : UpstreamChannel) : UpstreamChannel :=
  mkChannel (slots_ c) (id_states_ c) (free_ids_ c) l (random_engine_ c) (config_ c) (stats_ c) (pending_count_ c) (life_ c).
Definition count (k : ChannelCounter) (c : UpstreamChannel) : UpstreamChannel :=
  mkChannel (slots_ c) (id_states_ c) (free_ids_ c) (retired_ids_ c) (random_engine_ c) (config_ c) (bump k (stats_ c))
    (pending_count_ c) (life_ c).
Definition set_life (l : Lifecycle) (c : UpstreamChannel) : UpstreamChannel :=
  mkChannel (slots_ c) (id_states_ c) (free_ids_ c) (retired_ids_ c) (random_engine_ c) (config_ c) (stats_ c)
    (pending_count_ c) l.

(** [id_states_[id]]; an array element never written is [Unavailable], its zero. *)
Definition id_state (c : UpstreamChannel) (id : Z) : IdState := default Unavailable (id_states_ c !! id).

Definition on_owner_thread (thread : Z) (c : UpstreamChannel) : bool :=
  running_ (life_ c) && bool_decide (owner_thread_ (life_ c) = Some thread).

(** ** The ID pool *)
Definition guarded_reuse_time (c : UpstreamChannel) (now : Z) : Z :=
  let guard := id_reuse_guard (config_ c) in
  if guard <=? 0 then now
  else if (0 <? now) && (duration_max - now <? guard) then duration_max
  else now + guard.

Definition insert_free_id (id : Z) (c : UpstreamChannel) : UpstreamChannel :=
  let free := free_ids_ c ++ [id] in
  if negb (randomize_transaction_ids (config_ c)) || (length free <? 2)%nat
  then set_free free (random_engine_ c) c
  else
    let '(value, engine) := engine_next (random_engine_ c) in
    let other := Z.to_nat (value mod Z.of_nat (length free)) in
    let last := (length free - 1)%nat in
    (* std::swap of two elements *)
    set_free (match free !! other with
              | Some x => <[other := id]> (<[last := x]> free)
              | None => free
              end) engine c.

(** The order of [RetiredLater]: earliest first, then least ID. *)
Definition retired_before (a b : RetiredId) : bool :=
  (reusable_at a <? reusable_at b) || ((reusable_at a =? reusable_at b) && (retired_id a <=? retired_id b)).

Fixpoint push_retired (r : RetiredId) (l : list RetiredId) : list RetiredId :=
  match l with
  | [] => [r]
  | x :: l => if retired_before r x then r :: x :: l else x :: push_retired r l
  end.

Definition in_capacity (c : UpstreamChannel) (id : Z) : bool := id <? transaction_id_capacity (config_ c).

(** The loop takes one element from [retired_ids_] in each turn. *)
Fixpoint reclaim_loop (retired : list RetiredId) (now : Z) (c : UpstreamChannel) : UpstreamChannel :=
  match retired with
  | [] => c
  | r :: retired =>
      if reusable_at r <=? now then
        let c := set_retired retired c in
        let id := retired_id r in
        if negb (in_capacity c id) || negb (bool_decide (id_state c id = IdRetired)) || bool_decide (is_Some (slots_ c !! id))
        then reclaim_loop retired now (count invariant_failures c)
        else reclaim_loop retired now (insert_free_id id (set_states (<[id := IdFree]> (id_states_ c)) c))
      else c
  end.

Definition reclaim_ids (now : Z) (c : UpstreamChannel) : UpstreamChannel := reclaim_loop (retired_ids_ c) now c.

(** [free_ids_.back()], [pop_back()] until a usable ID is found: the list is walked
    from its end. *)
Fixpoint allocate_loop (rev_free : list Z) (c : UpstreamChannel) : option Z * UpstreamChannel :=
  match rev_free with
  | [] => (None, c)
  | id :: rev_free =>
      let c := set_free (rev rev_free) (random_engine_ c) c in
      if negb (in_capacity c id) || negb (bool_decide (id_state c id = IdFree)) || bool_decide (is_Some (slots_ c !! id))
      then allocate_loop rev_free (count invariant_failures c)
      else (Some id, set_states (<[id := IdPending]> (id_states_ c)) c)
  end.

Definition allocate_id (now : Z) (c : UpstreamChannel) : option Z * UpstreamChannel :=
  let c := reclaim_ids now c in
  allocate_loop (rev (free_ids_ c)) c.

Definition release_id (id now : Z) (quarantine : bool) (c : UpstreamChannel) : UpstreamChannel :=
  if negb (in_capacity c id) || negb (bool_decide (id_state c id = IdPending)) then count invariant_failures c
  else if negb quarantine || (id_reuse_guard (config_ c) <=? 0)
  then insert_free_id id (set_states (<[id := IdFree]> (id_states_ c)) c)
  else
    let c := set_states (<[id := IdRetired]> (id_states_ c)) c in
    set_retired (push_retired (mkRetiredId (guarded_reuse_time c now) id) (retired_ids_ c)) c.

(** [shuffle] is [std::shuffle] with the seeded engine: some reordering and the next
    state. *)
Definition initialize_id_pool (shuffle : Z → list Z → list Z * Z) (config : ChannelConfig) (seed : Z) (c : UpstreamChannel) : UpstreamChannel :=
  let capacity := transaction_id_capacity config in
  let '(free, engine) :=
    if randomize_transaction_ids config then shuffle seed (seqZ 0 capacity)
    else
      let first := initial_transaction_id config mod capacity in
      (map (λ remaining, (first + remaining - 1) mod capacity) (rev (seqZ 1 capacity)), random_engine_ c) in
  mkChannel (slots_ c) (foldl (λ m id, <[id := IdFree]> m) ∅ free) free [] engine (config_ c) (stats_ c)
    (pending_count_ c) (life_ c).

Fixpoint is_sorted (l : list RetiredId) : bool :=
  match l with
  | a :: ((b :: _) as rest) => retired_before a b && is_sorted rest
  | _ => true
  end.

(** A scan of [validate_id_pool]: every ID in range, unseen, in the given state and
    without a slot. *)
Fixpoint audit_ids (ids : list Z) (capacity : Z) (expected : IdState) (c : UpstreamChannel) (seen : gset Z)
    : option (gset Z) :=
  match ids with
  | [] => Some seen
  | id :: ids =>
      if (capacity <=? id) || bool_decide (id ∈ seen) || negb (bool_decide (id_state c id = expected)) ||
         bool_decide (is_Some (slots_ c !! id))
      then None
      else audit_ids ids capacity expected c ({[id]} ∪ seen)
  end.

Definition validate_id_pool (capacity : Z) (c : UpstreamChannel) : bool :=
  if (capacity =? 0) || (kTransactionIdSpace <? capacity) || negb (pending_count_ c =? 0) ||
     negb (Z.of_nat (length (free_ids_ c)) + Z.of_nat (length (retired_ids_ c)) =? capacity) ||
     negb (is_sorted (retired_ids_ c))
  then false
  else
    match (seen ← audit_ids (free_ids_ c) capacity IdFree c ∅;
           audit_ids (map retired_id (retired_ids_ c)) capacity IdRetired c seen) with
    | None => false
    | Some seen =>
        forallb (λ id,
          if capacity <=? id then
            bool_decide (id_state c id = Unavailable) && negb (bool_decide (is_Some (slots_ c !! id)))
          else bool_decide (id ∈ seen) && negb (bool_decide (id_state c id = IdPending)) &&
               negb (bool_decide (is_Some (slots_ c !! id))))
          (seqZ 0 kTransactionIdSpace) &&
        (Z.of_nat (size seen) =? capacity)
    end.

(** ** Lifecycle *)
Abbreviation total A := (outcome Empty_set A).

(** [discard_socket_input]: one element of [input] for each [recv] call, [None] for a
    datagram, [Some errno] for a failure; EINTR is 4, EAGAIN and EWOULDBLOCK are 11.
    An exhausted list is an empty socket. *)
Definition EINTR : Z := 4.
Definition EIO : Z := 5.
Definition EAGAIN : Z := 11.

Fixpoint discard_loop (input : list (option Z)) (discarded : Z) : bool :=
  if discarded <? kTransactionIdSpace then
    match input with
    | [] => true
    | None :: input => discard_loop input (discarded + 1)
    | Some errno :: input => if errno =? EINTR then discard_loop input discarded else errno =? EAGAIN
    end
  else false.

Definition discard_socket_input (input : list (option Z)) : bool := discard_loop input 0.

(** [owns]: [scheduler.owns_current_thread()]. *)
Definition start (shuffle : Z → list Z → list Z * Z) (socket_fd : Z) (owns : bool) (config : ChannelConfig) (input : list (option Z)) (seed now thread : Z)
    (w : World) : bool * World :=
  let c := chan w in
  if running_ (life_ c) || negb (pending_count_ c =? 0) || (socket_fd <? 0) || negb owns || negb (rt_bound (runtime w)) ||
     (query_timeout config <=? 0) || (id_reuse_guard config <? query_timeout config) ||
     (transaction_id_capacity config =? 0) || (kTransactionIdSpace <? transaction_id_capacity config) ||
     (has_started_ (life_ c) && negb (bool_decide (config = config_ c))) || negb (discard_socket_input input)
  then (false, w)
  else
    let c := mkChannel ∅ (id_states_ c) (free_ids_ c) (retired_ids_ c) (random_engine_ c) (config_ c) (λ _, 0)
               (pending_count_ c) (life_ c) in
    let c := if has_started_ (life_ c) then reclaim_ids now c else initialize_id_pool shuffle config seed c in
    if negb (validate_id_pool (transaction_id_capacity config) c)
    then (false, set_chan (count invariant_failures c) w)
    else
      (true, set_chan (mkChannel (slots_ c) (id_states_ c) (free_ids_ c) (retired_ids_ c) (random_engine_ c) config
                         (stats_ c) 0 (mkLifecycle true true (Some thread) socket_fd true true true)) w).

Definition close (thread : Z) (w : World) : bool * World :=
  let c := chan w in
  if running_ (life_ c) && negb (on_owner_thread thread c) then (false, w)
  else
    let l := life_ c in
    (true, set_chan (set_life (mkLifecycle (scheduler_ l) (timers_ l) (owner_thread_ l) (socket_fd_ l) (running_ l)
                                 false (has_started_ l)) c) w).

Definition stop (thread : Z) (w : World) : bool * World :=
  let c := chan w in
  if running_ (life_ c) && negb (on_owner_thread thread c) then (false, w)
  else if negb (pending_count_ c =? 0) then (false, w)
  else if has_started_ (life_ c) && negb (validate_id_pool (transaction_id_capacity (config_ c)) c)
  then (false, set_chan (count invariant_failures c) w)
  else (true, set_chan (set_life (mkLifecycle false false None (-1) false false (has_started_ (life_ c))) c) w).

Definition new_awaiter (header : Header) (question : Question) (deadline : Z) : QueryAwaiter :=
  mkQueryAwaiter true None header question deadline (mkQueryResult InvalidQuery [] 0) 0 Idle.

Definition query (c : UpstreamChannel) (header : Header) (question : Question) (now : Z) : QueryAwaiter :=
  let timeout := query_timeout (config_ c) in
  let deadline := if (now <=? 0) || (timeout <=? duration_max - now) then now + timeout else duration_max in
  new_awaiter header question deadline.

(** ** Completing a query *)

(** [if (query.timer_.armed() && timers_ != nullptr && !timers_->disarm(query.timer_))
    ++stats_.invariant_failures]. *)
Definition disarm_query (q : nat) (w : World) : World :=
  if rt_armed (runtime w) q && timers_ (life_ (chan w)) then
    let '(ok, rt) := rt_disarm (runtime w) q in
    let w := set_runtime rt w in
    if (ok : bool) then w else set_chan (count invariant_failures (chan w)) w
  else w.

Definition outcome_counter (o : QueryOutcome) : option ChannelCounter :=
  match o with
  | Response => Some responses_completed
  | Timeout => Some timeouts
  | Cancelled => Some cancellations
  | SocketError => Some socket_errors
  | SendError => Some send_errors
  | Overloaded => Some overloaded
  | InvalidQuery => None
  end.

Definition finish (q : nat) (out : QueryOutcome) (resp : list byte) (err now : Z) (w : World) : total (bool * World) :=
  a ← from_option_ub (awaiters w !! q);
  let id := transaction_id_ a in
  if negb (owner_ a) || negb (bool_decide (state_ a = Pending)) || negb (in_capacity (chan w) id) ||
     negb (bool_decide (slots_ (chan w) !! id = Some q))
  then Val (false, w)
  else
    let w := set_chan (set_slots (delete id (slots_ (chan w))) (pending_count_ (chan w) - 1) (chan w)) w in
    let w := disarm_query q w in
    let w := set_chan (release_id id now true (chan w)) w in
    let w := set_awaiter q (mkQueryAwaiter false None (header_ a) (question_ a) (deadline_ a)
                              (mkQueryResult out resp err) id Done) w in
    let w := match outcome_counter out with Some k => set_chan (count k (chan w)) w | None => w end in
    match task_ a with
    | None => Val (false, set_chan (count invariant_failures (chan w)) w)
    | Some task =>
        if negb (scheduler_ (life_ (chan w))) then Val (false, set_chan (count invariant_failures (chan w)) w)
        else
          let '(scheduled, rt) := rt_schedule (runtime w) task in
          let w := set_runtime rt w in
          if (scheduled : bool) then Val (true, w)
          else Val (false, set_chan (count invariant_failures (chan w)) w)
    end.

Inductive TimerCompletion := TimerExpired | TimerCancelled.

Definition finish_deadline (q : nat) (completion : TimerCompletion) (now : Z) (w : World) : total (bool * World) :=
  finish q (match completion with TimerExpired => Timeout | TimerCancelled => Cancelled end) [] 0 now w.

Definition deadline_complete (q : nat) (completion : TimerCompletion) (now : Z) (w : World) : total (bool * World) :=
  a ← from_option_ub (awaiters w !! q);
  if owner_ a then finish_deadline q completion now w else Val (false, w).

(** The destructor of a suspended awaiter. *)
Definition abandon (q : nat) (now : Z) (w : World) : total World :=
  a ← from_option_ub (awaiters w !! q);
  let id := transaction_id_ a in
  if negb (owner_ a) || negb (bool_decide (state_ a = Pending)) then Val w
  else if negb (in_capacity (chan w) id) || negb (bool_decide (slots_ (chan w) !! id = Some q)) then
    let w := set_chan (count invariant_failures (chan w)) w in
    Val (set_awaiter q (mkQueryAwaiter false None (header_ a) (question_ a) (deadline_ a) (result_ a) id (state_ a)) w)
  else
    let w := set_chan (set_slots (delete id (slots_ (chan w))) (pending_count_ (chan w) - 1) (chan w)) w in
    let w := disarm_query q w in
    let w := set_chan (release_id id now true (chan w)) w in
    let w := set_awaiter q (mkQueryAwaiter false None (header_ a) (question_ a) (deadline_ a)
                              (mkQueryResult Cancelled (response (result_ a)) (error_number (result_ a))) id Done) w in
    Val (set_chan (count cancellations (chan w)) w).

Fixpoint fail_loop (ids : list Z) (out : QueryOutcome) (err now : Z) (completed : Z) (w : World) : total (Z * World) :=
  match ids with
  | [] => Val (completed, w)
  | id :: ids =>
      match slots_ (chan w) !! id with
      | None => fail_loop ids out err now completed w
      | Some q =>
          '(ok, w) ← finish q out [] err now w;
          fail_loop ids out err now (if (ok : bool) then completed + 1 else completed) w
      end
  end.

Definition fail_all (out : QueryOutcome) (err now thread : Z) (w : World) : total (Z * World) :=
  if negb (running_ (life_ (chan w))) || negb (on_owner_thread thread (chan w)) ||
     negb (match out with Cancelled | SocketError => true | _ => false end)
  then Val (0, w)
  else fail_loop (seqZ 0 (transaction_id_capacity (config_ (chan w)))) out err now 0 w.

Definition cancel_all (now thread : Z) (w : World) : total (Z * World) := fail_all Cancelled 0 now thread w.

(** ** Starting a query *)
Definition rollback_begin (q : nat) (now : Z) (w : World) : total World :=
  let w := if rt_armed (runtime w) q && timers_ (life_ (chan w)) then set_runtime (rt_disarm (runtime w) q).2 w else w in
  a ← from_option_ub (awaiters w !! q);
  let id := transaction_id_ a in
  let w := if in_capacity (chan w) id && bool_decide (slots_ (chan w) !! id = Some q) then
             set_chan (release_id id now false
               (set_slots (delete id (slots_ (chan w))) (pending_count_ (chan w) - 1) (chan w))) w
           else w in
  Val (set_awaiter q (mkQueryAwaiter false None (header_ a) (question_ a) (deadline_ a) (result_ a) id Idle) w).

Definition upstream_header (h : Header) (new_id : Z) : Header :=
  mkHeader new_id (is_response h) (opcode h) (authoritative_answer h) (truncated h) (recursion_desired h)
    (recursion_available h) (reserved_z h) (authenticated_data h) (checking_disabled h) (response_code h).

(** [same_scheduler]: [task.scheduler() == scheduler_].  [send wire]: the result of the
    last [::send] call and [errno].  [now'] is the clock in [rollback_begin]. *)
Definition begin (q : nat) (task : nat) (same_scheduler : bool) (send : list byte → Z * Z) (now now' thread : Z)
    (w : World) : total (BeginResult * World) :=
  if negb (running_ (life_ (chan w))) || negb (accepting_ (life_ (chan w))) then Val (BeginClosed, w)
  else if negb (on_owner_thread thread (chan w)) then Val (BeginWrongThread, w)
  else if negb same_scheduler || negb (timers_ (life_ (chan w))) || negb (rt_bound (runtime w))
  then Val (BeginWrongScheduler, w)
  else
    a ← from_option_ub (awaiters w !! q);
    let '(id, c) := allocate_id now (chan w) in
    let w := set_chan c w in
    match id with
    | None => Val (BeginOverloaded, set_chan (count overloaded (chan w)) w)
    | Some id =>
        match serialize_query (upstream_header (header_ a) id) [question_ a] kUpstreamQueryBudget with
        | Undef => Undef
        | Err _ => Val (BeginInvalidQuery, set_chan (release_id id now false (chan w)) w)
        | Val wire =>
            let w := set_awaiter q (mkQueryAwaiter true (Some task) (header_ a) (question_ a) (deadline_ a) (result_ a)
                                      id Pending) w in
            let w := set_chan (set_slots (<[id := q]> (slots_ (chan w))) (pending_count_ (chan w) + 1) (chan w)) w in
            let '(armed, rt) := rt_arm (runtime w) q (deadline_ a) in
            let w := set_runtime rt w in
            match armed with
            | Armed =>
                let '(sent, errno) := send wire in
                if negb (sent =? Z.of_nat (length wire)) then
                  let err := if sent <? 0 then errno else EIO in
                  w ← rollback_begin q now' w;
                  b ← from_option_ub (awaiters w !! q);
                  let w := set_awaiter q (mkQueryAwaiter (owner_ b) (task_ b) (header_ b) (question_ b) (deadline_ b)
                             (mkQueryResult (result_outcome (result_ b)) (response (result_ b)) err)
                             (transaction_id_ b) (state_ b)) w in
                  Val (BeginSendError, set_chan (count send_errors (chan w)) w)
                else Val (BeginSuspended, set_chan (count queries_sent (chan w)) w)
            | ArmClosed => w ← rollback_begin q now' w; Val (BeginClosed, w)
            | ArmFailed => w ← rollback_begin q now' w; Val (BeginTimerFailure, w)
            end
        end
    end.

(** [await_suspend]: whether the coroutine stays suspended.  [bound]: the task has a
    scheduler; [stopping]: its stop token is set. *)
Definition finish_awaiter (q : nat) (st : AwaiterState) (out : option QueryOutcome) (w : World) : total World :=
  a ← from_option_ub (awaiters w !! q);
  let r := match out with
           | Some o => mkQueryResult o (response (result_ a)) (error_number (result_ a))
           | None => result_ a
           end in
  Val (set_awaiter q (mkQueryAwaiter false (task_ a) (header_ a) (question_ a) (deadline_ a) r (transaction_id_ a) st) w).

Definition awaiter_begin (q : nat) (task : nat) (same_scheduler : bool) (send : list byte → Z * Z) (now now' thread : Z)
    (w : World) : total (bool * World) :=
  a ← from_option_ub (awaiters w !! q);
  if negb (owner_ a) || negb (bool_decide (state_ a = Idle)) then
    Val (false, set_awaiter q (mkQueryAwaiter (owner_ a) (task_ a) (header_ a) (question_ a) (deadline_ a) (result_ a)
                                 (transaction_id_ a) Failed) w)
  else
    '(r, w) ← begin q task same_scheduler send now now' thread w;
    match r with
    | BeginSuspended => Val (true, w)
    | BeginClosed => w ← finish_awaiter q Done (Some Cancelled) w; Val (false, w)
    | BeginOverloaded => w ← finish_awaiter q Done (Some Overloaded) w; Val (false, w)
    | BeginInvalidQuery => w ← finish_awaiter q Done (Some InvalidQuery) w; Val (false, w)
    | BeginSendError => w ← finish_awaiter q Done (Some SendError) w; Val (false, w)
    | BeginWrongThread | BeginWrongScheduler | BeginTimerFailure => w ← finish_awaiter q Failed None w; Val (false, w)
    end.

Definition await_suspend (q : nat) (task : nat) (bound stopping same_scheduler : bool) (send : list byte → Z * Z)
    (now now' thread : Z) (w : World) : total (bool * World) :=
  if negb bound then w ← finish_awaiter q Failed None w; Val (false, w)
  else if stopping then w ← finish_awaiter q Done (Some Cancelled) w; Val (false, w)
  else awaiter_begin q task same_scheduler send now now' thread w.

(** [await_resume]: the value, or what it throws. *)
Inductive ResumeException := logic_error | OperationCancelled.

Definition await_resume (a : QueryAwaiter) : outcome ResumeException QueryResult :=
  match state_ a with
  | Failed => Err logic_error
  | Done => match result_outcome (result_ a) with Cancelled => Err OperationCancelled | _ => Val (result_ a) end
  | _ => Err logic_error
  end.

(** ** Receiving *)
Definition upstream_limits : ParseLimits :=
  mkParseLimits kUpstreamReceiveBufferSize (maximum_questions default_limits)
    (maximum_records_per_section default_limits) (maximum_total_records default_limits)
    (maximum_compression_pointers default_limits) (require_backward_pointers default_limits)
    (reject_trailing_data default_limits).

Definition handle_datagram (packet : list byte) (truncated : bool) (now thread : Z) (w : World)
    : total (PacketResult * World) :=
  if negb (running_ (life_ (chan w))) || negb (on_owner_thread thread (chan w)) then Val (InvariantFailure, w)
  else if truncated || (kUpstreamReceiveBufferSize <? length packet)%nat
  then Val (Invalid, set_chan (count invalid_responses (chan w)) w)
  else
    id ← transaction_id packet;
    match (id ← id; if in_capacity (chan w) id then q ← slots_ (chan w) !! id; Some (id, q) else None) with
    | None => Val (Unmatched, set_chan (count unmatched_responses (chan w)) w)
    | Some (id, q) =>
        a ← from_option_ub (awaiters w !! q);
        match parse_message packet upstream_limits with
        | Undef => Undef
        | Err _ => Val (Invalid, set_chan (count invalid_responses (chan w)) w)
        | Val parsed =>
            match validate_upstream_response parsed id (opcode (header_ a)) (question_ a) with
            | Undef => Undef
            | Err _ => Val (Invalid, set_chan (count invalid_responses (chan w)) w)
            | Val _ =>
                match rewrite_transaction_id (wire_image parsed) (DnsMessage.id (header_ a)) with
                | Val resp =>
                    '(ok, w) ← finish q Response resp 0 now w;
                    Val (if (ok : bool) then Completed else InvariantFailure, w)
                | Err _ => Val (InvariantFailure, set_chan (count invariant_failures (chan w)) w)
                | Undef => Undef
                end
            end
        end
    end.

(** One [recvmsg] call: a datagram with its full length (the buffer holds a prefix), or
    [errno]. *)
Inductive RecvEvent := Received (datagram : list byte) | RecvError (errno : Z).

(** [drain]: an exhausted list is an empty socket (EAGAIN). *)
Fixpoint drain_loop (input : list RecvEvent) (budget : nat) (result : DrainResult) (now thread : Z) (w : World)
    : total (DrainResult * World) :=
  if (datagrams result <? budget)%nat then
    match input with
    | [] => Val (result, w)
    | RecvError errno :: input =>
        if errno =? EINTR then drain_loop input budget result now thread w
        else if errno =? EAGAIN then Val (result, w)
        else
          '(_, w) ← fail_all SocketError errno now thread w;
          Val (mkDrainResult (datagrams result) (has_more result) true, w)
    | Received datagram :: input =>
        let truncated := (kUpstreamReceiveBufferSize <? length datagram)%nat in
        '(_, w) ← handle_datagram (take kUpstreamReceiveBufferSize datagram) truncated now thread w;
        drain_loop input budget (mkDrainResult (datagrams result + 1) (has_more result) (socket_error result)) now thread w
    end
  else Val (mkDrainResult (datagrams result) true (socket_error result), w).

Definition drain (input : list RecvEvent) (budget : nat) (now thread : Z) (w : World) : total (DrainResult * World) :=
  if negb (running_ (life_ (chan w))) || negb (on_owner_thread thread (chan w)) then Val (mkDrainResult 0 false false, w)
  else drain_loop input budget (mkDrainResult 0 false false) now thread w.

(** ** The invariant of the ID pool

    [pool_ok c P]: every ID below the capacity is in exactly one of [free_ids_],
    [retired_ids_] and [P], the IDs in flight. *)
Definition retired_set (c : UpstreamChannel) : list Z := map retired_id (retired_ids_ c).

Record pool_ok (c : UpstreamChannel) (P : gset Z) : Prop := {
  po_capacity : 0 < transaction_id_capacity (config_ c) ≤ kTransactionIdSpace;
  po_range id : id_state c id ≠ Unavailable ↔ 0 ≤ id < transaction_id_capacity (config_ c);
  po_free_nodup : NoDup (free_ids_ c);
  po_free id : id ∈ free_ids_ c ↔ id_state c id = IdFree;
  po_retired_nodup : NoDup (retired_set c);
  po_retired id : id ∈ retired_set c ↔ id_state c id = IdRetired;
  po_pending id : id ∈ P ↔ id_state c id = IdPending;
}.

Lemma pool_in_capacity c P id : pool_ok c P → id_state c id ≠ Unavailable → in_capacity c id = true.
Proof. intros Hp Hs. apply (po_range _ _ Hp) in Hs. apply Z.ltb_lt. lia. Qed.

Lemma swap_permutation (l : list Z) id other x :
  (l ++ [id]) !! other = Some x → <[other := id]> (<[length l := x]> (l ++ [id])) ≡ₚ id :: l.
Proof.
  intros Hx. rewrite (insert_app_r_alt l [id]) by lia. rewrite Nat.sub_diag. simpl.
  apply lookup_app_Some in Hx as [Hx | [Hge Hx]].
  - rewrite insert_app_l by (by eapply lookup_lt_Some).
    apply list_elem_of_split_length in Hx as (l1 & l2 & -> & ->).
    rewrite insert_app_r_alt, Nat.sub_diag by lia. simpl.
    rewrite <- app_assoc. simpl. rewrite <- Permutation_middle. apply perm_skip, Permutation_app_head.
    symmetry. apply Permutation_cons_append.
  - apply list_lookup_singleton_Some in Hx as [Ho <-].
    rewrite insert_app_r_alt by lia. rewrite Ho. simpl. by rewrite <- Permutation_cons_append.
Qed.

(** Only [free_ids_] and the engine change, and the ID is added somewhere. *)
Lemma insert_free_id_spec id c :
  ∃ l r, insert_free_id id c = set_free l r c ∧ l ≡ₚ id :: free_ids_ c.
Proof.
  unfold insert_free_id. destruct (_ || _); [eexists _, _; split; [done | by rewrite <- Permutation_cons_append] |].
  destruct (engine_next (random_engine_ c)) as [v e]. eexists _, _. split; [done |].
  destruct (_ !! _) as [x |] eqn:Hx.
  - rewrite length_app. simpl. replace (length (free_ids_ c) + 1 - 1)%nat with (length (free_ids_ c)) by lia.
    rewrite length_app in Hx. by apply swap_permutation.
  - by rewrite <- Permutation_cons_append.
Qed.

(** One ID changes its state and its container follows. *)
Lemma pool_move c c' (P P' : gset Z) id s' :
  pool_ok c P → id_state c id ≠ Unavailable → s' ≠ Unavailable →
  config_ c' = config_ c → id_states_ c' = <[id := s']> (id_states_ c) →
  NoDup (free_ids_ c') → (∀ i, i ∈ free_ids_ c' ↔ if decide (i = id) then s' = IdFree else i ∈ free_ids_ c) →
  NoDup (retired_set c') → (∀ i, i ∈ retired_set c' ↔ if decide (i = id) then s' = IdRetired else i ∈ retired_set c) →
  (∀ i, i ∈ P' ↔ if decide (i = id) then s' = IdPending else i ∈ P) →
  pool_ok c' P'.
Proof.
  intros [Hcap Hrange Hfn Hf Hrn Hr Hp] Hs Hs' Hcfg Hst Hfn' Hf' Hrn' Hr' Hp'.
  assert (∀ i, id_state c' i = if decide (i = id) then s' else id_state c i) as Hstate.
  { intros i. unfold id_state. rewrite Hst. destruct (decide (i = id)) as [-> |];
      [by rewrite lookup_insert_eq | by rewrite lookup_insert_ne]. }
  split; rewrite ?Hcfg; try done; intros i; rewrite ?Hstate, ?Hf', ?Hr', ?Hp';
    destruct (decide (i = id)) as [-> |]; try done.
  split; [intros _; by apply Hrange | done].
Qed.

Lemma pool_not_free c P id : pool_ok c P → id_state c id ≠ IdFree → id ∉ free_ids_ c.
Proof. intros Hp Hs Hin. by apply (po_free _ _ Hp) in Hin. Qed.

Lemma pool_not_retired c P id : pool_ok c P → id_state c id ≠ IdRetired → id ∉ retired_set c.
Proof. intros Hp Hs Hin. by apply (po_retired _ _ Hp) in Hin. Qed.

(** Releasing a pending ID at once. *)
Lemma pool_release_now c P id :
  pool_ok c ({[id]} ∪ P) → id ∉ P →
  pool_ok (insert_free_id id (set_states (<[id := IdFree]> (id_states_ c)) c)) P.
Proof.
  intros Hp Hid. assert (id_state c id = IdPending) as Hs by (apply (po_pending c _ Hp); set_solver).
  destruct (insert_free_id_spec id (set_states (<[id := IdFree]> (id_states_ c)) c)) as (l & r & -> & Hl).
  cbn [free_ids_ set_states] in Hl.
  apply (pool_move c _ ({[id]} ∪ P) P id IdFree Hp); cbn [free_ids_ set_free];
    [congruence | done | done | done | | | exact (po_retired_nodup _ _ Hp) | |].
  - rewrite Hl. constructor; [| exact (po_free_nodup _ _ Hp)]. eapply pool_not_free; [done | congruence].
  - intros i. rewrite Hl, elem_of_cons. destruct (decide (i = id)); naive_solver.
  - intros i. change (retired_set _) with (retired_set c). destruct (decide (i = id)) as [-> |]; [| done].
    rewrite (po_retired _ _ Hp). split; congruence.
  - intros i. destruct (decide (i = id)) as [-> |]; [by split | set_solver].
Qed.

Lemma push_retired_perm r l : push_retired r l ≡ₚ r :: l.
Proof.
  induction l as [| x l IH]; simpl; [done |]. destruct (retired_before r x); [done |].
  rewrite IH. apply perm_swap.
Qed.

(** Putting a pending ID into quarantine. *)
Lemma pool_quarantine c P id t :
  pool_ok c ({[id]} ∪ P) → id ∉ P →
  pool_ok (set_retired (push_retired (mkRetiredId t id) (retired_ids_ c)) (set_states (<[id := IdRetired]> (id_states_ c)) c)) P.
Proof.
  intros Hp Hid. assert (id_state c id = IdPending) as Hs by (apply (po_pending c _ Hp); set_solver).
  assert (map retired_id (push_retired (mkRetiredId t id) (retired_ids_ c)) ≡ₚ id :: retired_set c) as Hl.
  { unfold retired_set. by rewrite push_retired_perm. }
  apply (pool_move c _ ({[id]} ∪ P) P id IdRetired Hp); cbn [free_ids_ set_retired set_states];
    [congruence | done | done | done | exact (po_free_nodup _ _ Hp) | | | |].
  - intros i. destruct (decide (i = id)) as [-> |]; [| done]. rewrite (po_free _ _ Hp). split; congruence.
  - unfold retired_set. cbn [retired_ids_ set_retired]. rewrite Hl. constructor; [| exact (po_retired_nodup _ _ Hp)].
    eapply pool_not_retired; [done | congruence].
  - intros i. unfold retired_set at 1. cbn [retired_ids_ set_retired]. rewrite Hl, elem_of_cons.
    destruct (decide (i = id)); naive_solver.
  - intros i. destruct (decide (i = id)) as [-> |]; [by split | set_solver].
Qed.

Lemma release_id_ok c P id now q :
  pool_ok c ({[id]} ∪ P) → id ∉ P → pool_ok (release_id id now q c) P.
Proof.
  intros Hp Hid. assert (id_state c id = IdPending) as Hs by (apply (po_pending c _ Hp); set_solver).
  unfold release_id. rewrite (pool_in_capacity c _ id Hp) by congruence. rewrite bool_decide_eq_true_2 by done.
  cbn [negb orb]. destruct (_ || _); [by apply pool_release_now |].
  exact (pool_quarantine c P id _ Hp Hid).
Qed.

(** What the pool operations leave alone. *)
Definition same_rest (c c' : UpstreamChannel) : Prop :=
  slots_ c' = slots_ c ∧ config_ c' = config_ c ∧ pending_count_ c' = pending_count_ c ∧ life_ c' = life_ c ∧
  stats_ c' = stats_ c.

Lemma same_rest_trans a b c : same_rest a b → same_rest b c → same_rest a c.
Proof. unfold same_rest. naive_solver congruence. Qed.

Lemma insert_free_rest id c : same_rest c (insert_free_id id c).
Proof. destruct (insert_free_id_spec id c) as (l & r & -> & _). by split_and!. Qed.

Lemma release_rest c P id now q :
  pool_ok c ({[id]} ∪ P) → same_rest c (release_id id now q c).
Proof.
  intros Hp. assert (id_state c id = IdPending) as Hs by (apply (po_pending c _ Hp); set_solver).
  unfold release_id. rewrite (pool_in_capacity c _ id Hp) by congruence. rewrite bool_decide_eq_true_2 by done.
  cbn [negb orb]. destruct (_ || _); [| by split_and!].
  eapply same_rest_trans; [| apply insert_free_rest]. by split_and!.
Qed.

(** Reclaiming: retired IDs whose time has come become free, from the front. *)
Definition reclaimable (now : Z) (c : UpstreamChannel) (id : Z) : Prop :=
  ∃ r, r ∈ retired_ids_ c ∧ retired_id r = id ∧ reusable_at r ≤ now.

Lemma reclaim_step c P r rest :
  pool_ok c P → dom (slots_ c) ⊆ P → retired_ids_ c = r :: rest →
  let c' := set_retired rest c in
  negb (in_capacity c' (retired_id r)) || negb (bool_decide (id_state c' (retired_id r) = IdRetired)) ||
    bool_decide (is_Some (slots_ c' !! retired_id r)) = false ∧
  pool_ok (insert_free_id (retired_id r) (set_states (<[retired_id r := IdFree]> (id_states_ c')) c')) P.
Proof.
  intros Hp Hslots Hret c'.
  assert (id_state c (retired_id r) = IdRetired) as Hs.
  { apply (po_retired _ _ Hp). unfold retired_set. rewrite Hret. set_solver. }
  assert (retired_id r ∉ P) as Hid by (rewrite (po_pending _ _ Hp); congruence).
  pose proof (po_retired_nodup _ _ Hp) as Hnd. unfold retired_set in Hnd. rewrite Hret in Hnd.
  apply list.NoDup_cons in Hnd as [Hnin Hnd].
  split.
  - change (in_capacity c' (retired_id r)) with (in_capacity c (retired_id r)).
    change (id_state c' (retired_id r)) with (id_state c (retired_id r)). change (slots_ c') with (slots_ c).
    rewrite (pool_in_capacity c P) by (done || congruence). rewrite bool_decide_eq_true_2 by done.
    rewrite bool_decide_eq_false_2; [done |]. intros Hsome%elem_of_dom. set_solver.
  - destruct (insert_free_id_spec (retired_id r) (set_states (<[retired_id r := IdFree]> (id_states_ c')) c'))
      as (l & e & -> & Hl). cbn [free_ids_ set_states set_retired c'] in Hl.
    apply (pool_move c _ P P (retired_id r) IdFree Hp); cbn [free_ids_ set_free];
      [congruence | done | done | done | | | done | |].
    + rewrite Hl. constructor; [| exact (po_free_nodup _ _ Hp)]. eapply pool_not_free; [done | congruence].
    + intros i. rewrite Hl, elem_of_cons. destruct (decide (i = retired_id r)); naive_solver.
    + intros i. change (i ∈ map retired_id rest ↔ if decide (i = retired_id r) then IdFree = IdRetired else i ∈ retired_set c).
      unfold retired_set. rewrite Hret. cbn [map].
      destruct (decide (i = retired_id r)) as [-> |]; [by split |]. rewrite elem_of_cons. naive_solver.
    + intros i. destruct (decide (i = retired_id r)) as [-> |]; [by split | done].
Qed.

Lemma reclaim_loop_spec retired now c P :
  pool_ok c P → dom (slots_ c) ⊆ P → retired_ids_ c = retired →
  let c' := reclaim_loop retired now c in
  pool_ok c' P ∧ same_rest c c' ∧ (retired_ids_ c' `sublist_of` retired_ids_ c) ∧
  (∀ r, r ∈ retired_ids_ c → now < reusable_at r → r ∈ retired_ids_ c') ∧
  (∀ id, id_state c' id = IdFree → id_state c id = IdFree ∨ reclaimable now c id).
Proof.
  revert c. induction retired as [| r rest IH]; intros c Hp Hslots Hret c'; subst c'; cbn [reclaim_loop].
  { split_and!; try done; auto. }
  destruct (reusable_at r <=? now) eqn:Hr; bool_hyps.
  2: { split_and!; try done; auto. }
  destruct (reclaim_step c P r rest Hp Hslots Hret) as [-> Hp'].
  set (c1 := insert_free_id _ _) in *.
  assert (same_rest c c1) as Hrest1.
  { eapply same_rest_trans; [| apply insert_free_rest]. by split_and!. }
  assert (retired_ids_ c1 = rest ∧ ∀ id, id_state c1 id = if decide (id = retired_id r) then IdFree else id_state c id)
    as [Hret1 Hst1].
  { subst c1. destruct (insert_free_id_spec (retired_id r)
      (set_states (<[retired_id r := IdFree]> (id_states_ (set_retired rest c))) (set_retired rest c))) as (l & e & -> & _).
    split; [done |]. intros id. unfold id_state. cbn [id_states_ set_free set_states set_retired].
    destruct (decide (id = retired_id r)) as [-> |]; [by rewrite lookup_insert_eq | by rewrite lookup_insert_ne]. }
  destruct (IH c1 Hp') as (Hpo & Hrest & Hsub & Hkeep & Hfree); [| done |].
  { destruct Hrest1 as (-> & _). done. }
  split_and!.
  - done.
  - by eapply same_rest_trans.
  - rewrite Hret. rewrite Hret1 in Hsub. by apply sublist_cons.
  - intros r' Hr' Hlt. rewrite Hret in Hr'. apply Hkeep; [| done]. rewrite Hret1.
    apply elem_of_cons in Hr' as [-> | ?]; [lia | done].
  - intros id [Hid | (r' & Hr' & Hid & Hle)]%Hfree.
    + rewrite Hst1 in Hid. destruct (decide (id = retired_id r)) as [-> |]; [| by left].
      right. exists r. rewrite Hret. set_solver.
    + right. exists r'. rewrite Hret1 in Hr'. rewrite Hret. set_solver.
Qed.

(** [allocate_id]: a free ID, or one whose quarantine is over; it is pending now. *)
Lemma allocate_id_spec now c (P : gset Z) :
  pool_ok c P → dom (slots_ c) ⊆ P →
  let '(r, c') := allocate_id now c in
  same_rest c c' ∧ (∀ r', r' ∈ retired_ids_ c → now < reusable_at r' → r' ∈ retired_ids_ c') ∧
  match r with
  | Some id => id ∉ P ∧ 0 ≤ id < transaction_id_capacity (config_ c) ∧ pool_ok c' ({[id]} ∪ P) ∧
               (id_state c id = IdFree ∨ reclaimable now c id)
  | None => pool_ok c' P ∧ free_ids_ c' = []
  end.
Proof.
  intros Hp Hslots. unfold allocate_id.
  destruct (reclaim_loop_spec (retired_ids_ c) now c P Hp Hslots eq_refl) as (Hp1 & Hrest & _ & Hkeep & Hfree).
  fold (reclaim_ids now c) in *. set (c1 := reclaim_ids now c) in *.
  destruct (rev (free_ids_ c1)) as [| id rev_free] eqn:Hrev; cbn [allocate_loop].
  { split_and!; try done. apply (f_equal (@rev _)) in Hrev. by rewrite rev_involutive in Hrev. }
  assert (free_ids_ c1 = rev rev_free ++ [id]) as Hf.
  { apply (f_equal (@rev _)) in Hrev. rewrite rev_involutive in Hrev. done. }
  set (c2 := set_free (rev rev_free) (random_engine_ c1) c1).
  assert (id_state c1 id = IdFree) as Hs by (apply (po_free _ _ Hp1); rewrite Hf; set_solver).
  assert (id ∉ P) as Hid by (rewrite (po_pending _ _ Hp1); congruence).
  change (in_capacity c2 id) with (in_capacity c1 id). change (id_state c2 id) with (id_state c1 id).
  change (slots_ c2) with (slots_ c1). rewrite (pool_in_capacity c1 P) by (done || congruence).
  rewrite bool_decide_eq_true_2 by done. destruct Hrest as (Hsl & Hcfg & Hpc & Hlf & Hst).
  rewrite bool_decide_eq_false_2 by (rewrite Hsl; intros Hsome%elem_of_dom; set_solver). cbn [negb orb].
  pose proof (po_free_nodup _ _ Hp1) as Hnd. rewrite Hf in Hnd. apply list.NoDup_app in Hnd as (Hnd & Hdisj & _).
  assert (0 ≤ id < transaction_id_capacity (config_ c)) as [Hlo Hhi]
    by (rewrite <- Hcfg; apply (po_range _ _ Hp1); congruence).
  split_and!; try done.
  - apply (pool_move c1 _ P ({[id]} ∪ P) id IdPending Hp1); cbn [free_ids_ set_states set_free c2];
      [congruence | done | done | done | done | | exact (po_retired_nodup _ _ Hp1) | |].
    + intros i. rewrite Hf. destruct (decide (i = id)) as [-> |]; [| set_solver].
      split; [| done]. intros Hin. exfalso. apply (Hdisj id Hin). set_solver.
    + intros i. change (retired_set (set_states _ _)) with (retired_set c1).
      destruct (decide (i = id)) as [-> |]; [| done]. rewrite (po_retired _ _ Hp1). split; congruence.
    + intros i. destruct (decide (i = id)) as [-> |]; set_solver.
  - by apply Hfree.
Qed.

(** ** The invariant of the channel *)
Definition pending_as (a : QueryAwaiter) (id : Z) : Prop :=
  owner_ a = true ∧ state_ a = Pending ∧ transaction_id_ a = id ∧ is_Some (task_ a).

Record chan_ok (w : World) : Prop := {
  co_pool : pool_ok (chan w) (dom (slots_ (chan w)));
  co_guard : 0 < id_reuse_guard (config_ (chan w));
  co_slot id q : slots_ (chan w) !! id = Some q ↔ ∃ a, awaiters w !! q = Some a ∧ pending_as a id;
  co_pending q a : awaiters w !! q = Some a → state_ a = Pending → owner_ a = true → is_Some (task_ a);
  co_count : pending_count_ (chan w) = Z.of_nat (size (slots_ (chan w)));
  co_life : running_ (life_ (chan w)) = true → scheduler_ (life_ (chan w)) = true ∧ timers_ (life_ (chan w)) = true;
}.

(** Equal but for the counters. *)
Definition same_core (c c' : UpstreamChannel) : Prop :=
  slots_ c' = slots_ c ∧ id_states_ c' = id_states_ c ∧ free_ids_ c' = free_ids_ c ∧ retired_ids_ c' = retired_ids_ c ∧
  config_ c' = config_ c ∧ pending_count_ c' = pending_count_ c ∧ life_ c' = life_ c.

Lemma same_core_pool c c' P : same_core c c' → pool_ok c P → pool_ok c' P.
Proof.
  intros (_ & Hst & Hf & Hr & Hc & _) [H1 H2 H3 H4 H5 H6 H7].
  split; unfold retired_set, id_state in *; rewrite ?Hst, ?Hf, ?Hr, ?Hc; done.
Qed.

Lemma count_core k c : same_core c (count k c).
Proof. by split_and!. Qed.

Lemma same_core_ok w w' :
  same_core (chan w) (chan w') → awaiters w' = awaiters w → chan_ok w → chan_ok w'.
Proof.
  intros Hcore Haw [H1 H2 H3 H4 H5 H6]. pose proof Hcore as (Hsl & _ & _ & _ & Hcfg & Hpc & Hl).
  split; rewrite ?Hsl, ?Haw, ?Hcfg, ?Hpc, ?Hl; try done. by apply (same_core_pool (chan w)).
Qed.

Lemma disarm_query_frame q w :
  awaiters (disarm_query q w) = awaiters w ∧ same_core (chan w) (chan (disarm_query q w)).
Proof.
  unfold disarm_query. destruct (_ && _); [| by split_and!].
  destruct (rt_disarm (runtime w) q) as [[] rt]; by split_and!.
Qed.

(** The common part of [finish] and [abandon]: the slot is cleared, the deadline
    disarmed, the ID released. *)
Definition detach (q : nat) (id now : Z) (w : World) : World :=
  let w := set_chan (set_slots (delete id (slots_ (chan w))) (pending_count_ (chan w) - 1) (chan w)) w in
  let w := disarm_query q w in
  set_chan (release_id id now true (chan w)) w.

(** Retired IDs stay retired while their time has not come. *)
Definition keeps_retired (now : Z) (c c' : UpstreamChannel) : Prop :=
  ∀ r, r ∈ retired_ids_ c → now < reusable_at r → r ∈ retired_ids_ c'.

Lemma detach_spec q id now w :
  chan_ok w → slots_ (chan w) !! id = Some q →
  let w' := detach q id now w in
  awaiters w' = awaiters w ∧ slots_ (chan w') = delete id (slots_ (chan w)) ∧
  pool_ok (chan w') (dom (slots_ (chan w'))) ∧
  config_ (chan w') = config_ (chan w) ∧ life_ (chan w') = life_ (chan w) ∧
  pending_count_ (chan w') = pending_count_ (chan w) - 1 ∧
  retired_ids_ (chan w') = push_retired (mkRetiredId (guarded_reuse_time (chan w) now) id) (retired_ids_ (chan w)).
Proof.
  intros Hok Hslot w'. unfold detach in w'. cbv zeta in w'.
  set (w1 := set_chan (set_slots _ _ _) w) in w'.
  destruct (disarm_query_frame q w1) as [Haw Hcore]. set (w2 := disarm_query q w1) in *.
  assert (dom (slots_ (chan w)) = {[id]} ∪ dom (delete id (slots_ (chan w)))) as Hdom.
  { rewrite dom_delete_L. apply set_eq. intros i. destruct (decide (i = id)) as [-> |]; [| set_solver].
    split; [set_solver |]. intros _. apply elem_of_dom. eauto. }
  assert (pool_ok (chan w2) ({[id]} ∪ dom (delete id (slots_ (chan w))))) as Hp2.
  { eapply same_core_pool; [exact Hcore |]. rewrite <- Hdom. by destruct (co_pool _ Hok). }
  assert (id ∉ dom (delete id (slots_ (chan w)))) as Hnin by (rewrite dom_delete_L; set_solver).
  pose proof (release_rest (chan w2) _ id now true Hp2) as (Hsl & Hcfg & Hpc & Hl & _).
  destruct Hcore as (Hsl2 & Hst2 & _ & Hret2 & Hcfg2 & Hpc2 & Hl2).
  subst w'. cbn [chan set_chan awaiters] in *. rewrite Hsl, Hsl2, Hcfg, Hcfg2, Hpc, Hpc2, Hl, Hl2.
  split_and!; try done.
  - cbn [slots_ set_slots chan set_chan w1]. by apply release_id_ok.
  - assert (id_state (chan w2) id = IdPending) as Hs by (apply (po_pending _ _ Hp2); set_solver).
    unfold release_id. rewrite (pool_in_capacity _ _ id Hp2) by congruence. rewrite bool_decide_eq_true_2 by done.
    rewrite Hcfg2. cbn [config_ set_slots chan set_chan w1 negb orb].
    rewrite (proj2 (Z.leb_gt _ _)) by apply (co_guard _ Hok).
    cbn [retired_ids_ set_retired set_states]. rewrite Hret2. unfold guarded_reuse_time.
    cbn [config_ set_states]. by rewrite Hcfg2.
Qed.

Lemma push_retired_in r l x : x ∈ push_retired r l ↔ x = r ∨ x ∈ l.
Proof. rewrite (push_retired_perm r l). apply elem_of_cons. Qed.

(** A query leaves the table: its slot and its pending state go together. *)
Lemma remove_slot_ok q id a a' w w' :
  chan_ok w → awaiters w !! q = Some a → pending_as a id → state_ a' ≠ Pending →
  slots_ (chan w') = delete id (slots_ (chan w)) → pool_ok (chan w') (dom (slots_ (chan w'))) →
  config_ (chan w') = config_ (chan w) → life_ (chan w') = life_ (chan w) →
  pending_count_ (chan w') = pending_count_ (chan w) - 1 → awaiters w' = <[q := a']> (awaiters w) →
  chan_ok w'.
Proof.
  intros Hok Ha Hpend Ha' Hsl Hpool Hcfg Hl Hpc Haw.
  assert (slots_ (chan w) !! id = Some q) as Hslot by (apply (co_slot _ Hok); eauto).
  split.
  - done.
  - rewrite Hcfg. apply (co_guard _ Hok).
  - intros i p. rewrite Hsl, Haw, lookup_delete_Some, (co_slot _ Hok). split.
    + intros (Hi & b & Hb & Hpb). exists b. split; [| done]. rewrite lookup_insert_ne; [done |].
      intros ->. destruct Hpend as (_ & _ & ? & _), Hpb as (_ & _ & ? & _). congruence.
    + intros (b & Hb & Hpb). apply lookup_insert_Some in Hb as [[<- <-] | [Hne Hb]].
      { by destruct Hpb as (_ & ? & _). }
      split; [| by exists b]. intros ->.
      assert (slots_ (chan w) !! i = Some p) as Hp by (apply (co_slot _ Hok); eauto). congruence.
  - intros p b Hb Hst Hown. rewrite Haw in Hb. apply lookup_insert_Some in Hb as [[<- <-] | [_ Hb]]; [done |].
    by eapply (co_pending _ Hok).
  - rewrite Hpc, Hsl, (co_count _ Hok). rewrite map_size_delete_Some by eauto.
    assert (size (slots_ (chan w)) ≠ 0%nat) as Hne.
    { intros H0%map_size_empty_inv. rewrite H0 in Hslot. by apply lookup_empty_Some in Hslot. }
    lia.
  - rewrite Hl. apply (co_life _ Hok).
Qed.

Lemma detach_ok q id now a a' w w' :
  chan_ok w → awaiters w !! q = Some a → pending_as a id → state_ a' ≠ Pending →
  same_core (chan (detach q id now w)) (chan w') → awaiters w' = <[q := a']> (awaiters w) → chan_ok w'.
Proof.
  intros Hok Ha Hpend Ha' Hcore Haw.
  assert (slots_ (chan w) !! id = Some q) as Hslot by (apply (co_slot _ Hok); eauto).
  destruct (detach_spec q id now w Hok Hslot) as (_ & Hsl & Hpool & Hcfg & Hl & Hpc & _).
  pose proof Hcore as (Hsl' & _ & _ & _ & Hcfg' & Hpc' & Hl').
  eapply remove_slot_ok; try done; [congruence | | congruence..].
  rewrite Hsl'. by eapply same_core_pool.
Qed.

(** A query enters the table. *)
Lemma insert_slot_ok q id a a' w w' :
  chan_ok w → awaiters w !! q = Some a → state_ a ≠ Pending → pending_as a' id →
  id ∉ dom (slots_ (chan w)) → pool_ok (chan w') ({[id]} ∪ dom (slots_ (chan w))) →
  slots_ (chan w') = <[id := q]> (slots_ (chan w)) →
  config_ (chan w') = config_ (chan w) → life_ (chan w') = life_ (chan w) →
  pending_count_ (chan w') = pending_count_ (chan w) + 1 → awaiters w' = <[q := a']> (awaiters w) →
  chan_ok w'.
Proof.
  intros Hok Ha Hst Ha' Hid Hpool Hsl Hcfg Hl Hpc Haw. apply not_elem_of_dom in Hid as Hnone.
  split.
  - by rewrite Hsl, dom_insert_L.
  - rewrite Hcfg. apply (co_guard _ Hok).
  - intros i p. rewrite Hsl, Haw, lookup_insert_Some, (co_slot _ Hok). split.
    + intros [[<- <-] | (Hi & b & Hb & Hpb)]; [exists a'; by rewrite lookup_insert_eq |].
      exists b. split; [| done]. rewrite lookup_insert_ne; [done |]. intros ->.
      assert (b = a) as -> by congruence. by destruct Hpb as (_ & ? & _).
    + intros (b & Hb & Hpb). apply lookup_insert_Some in Hb as [[<- <-] | [Hne Hb]].
      { left. destruct Ha' as (_ & _ & ? & _), Hpb as (_ & _ & ? & _). split; congruence. }
      right. split; [| by exists b]. intros ->.
      assert (slots_ (chan w) !! i = Some p) as Hp by (apply (co_slot _ Hok); eauto). congruence.
  - intros p b Hb Hstb Hown. rewrite Haw in Hb.
    apply lookup_insert_Some in Hb as [[<- <-] | [_ Hb]]; [apply Ha' | by eapply (co_pending _ Hok)].
  - rewrite Hpc, Hsl, (co_count _ Hok), map_size_insert_None by done. lia.
  - rewrite Hl. apply (co_life _ Hok).
Qed.

(** Changing only the pool. *)
Lemma pool_change_ok w w' :
  chan_ok w → pool_ok (chan w') (dom (slots_ (chan w))) → slots_ (chan w') = slots_ (chan w) →
  config_ (chan w') = config_ (chan w) → pending_count_ (chan w') = pending_count_ (chan w) →
  life_ (chan w') = life_ (chan w) → awaiters w' = awaiters w → chan_ok w'.
Proof.
  intros [H1 H2 H3 H4 H5 H6] Hp Hsl Hcfg Hpc Hl Haw. split; rewrite ?Hsl, ?Hcfg, ?Hpc, ?Hl, ?Haw; done.
Qed.

(** Changing an awaiter that is not in the table. *)
Lemma idle_awaiter_ok q a a' w w' :
  chan_ok w → awaiters w !! q = Some a → (owner_ a = false ∨ state_ a ≠ Pending) → (owner_ a' = false ∨ state_ a' ≠ Pending) →
  same_core (chan w) (chan w') → awaiters w' = <[q := a']> (awaiters w) → chan_ok w'.
Proof.
  intros Hok Ha Hst Hst' Hcore Haw. pose proof Hcore as (Hsl & _ & _ & _ & Hcfg & Hpc & Hl).
  assert (∀ b id, (owner_ b = false ∨ state_ b ≠ Pending) → ¬ pending_as b id) as Hnot
    by (intros b id [?|?] (?&?&_); congruence).
  split; rewrite ?Hsl, ?Hcfg, ?Hpc, ?Hl; try apply Hok.
  - eapply same_core_pool; [done |]. apply (co_pool _ Hok).
  - intros i p. rewrite (co_slot _ Hok), Haw. split; intros (b & Hb & Hpb); exists b; (split; [| done]).
    + rewrite lookup_insert_ne; [done |]. intros ->. assert (b = a) as -> by congruence. exact (Hnot _ _ Hst Hpb).
    + apply lookup_insert_Some in Hb as [[<- <-] | [_ Hb]]; [| done].
      exfalso. exact (Hnot _ _ Hst' Hpb).
  - intros p b Hb Hstb Hown. rewrite Haw in Hb.
    apply lookup_insert_Some in Hb as [[<- <-] | [_ Hb]]; [destruct Hst'; congruence | by eapply (co_pending _ Hok)].
Qed.

Lemma keeps_retired_detach q id now w :
  chan_ok w → slots_ (chan w) !! id = Some q → ∀ r, r ∈ retired_ids_ (chan w) → r ∈ retired_ids_ (chan (detach q id now w)).
Proof.
  intros Hok Hslot r Hr. destruct (detach_spec q id now w Hok Hslot) as (_ & _ & _ & _ & _ & _ & ->).
  apply push_retired_in. by right.
Qed.

Definition completed_as (a : QueryAwaiter) (out : QueryOutcome) (resp : list byte) (err : Z) : QueryAwaiter :=
  mkQueryAwaiter false None (header_ a) (question_ a) (deadline_ a) (mkQueryResult out resp err) (transaction_id_ a) Done.

(** [finish]: a pending query is completed, once, and its ID goes into quarantine;
    anything else is left alone. *)
Lemma finish_spec q out resp err now w a :
  chan_ok w → awaiters w !! q = Some a →
  ∃ ok w', finish q out resp err now w = Val (ok, w') ∧ chan_ok w' ∧
    config_ (chan w') = config_ (chan w) ∧ life_ (chan w') = life_ (chan w) ∧
    (∀ r, r ∈ retired_ids_ (chan w) → r ∈ retired_ids_ (chan w')) ∧
    if owner_ a && bool_decide (state_ a = Pending) then
      awaiters w' = <[q := completed_as a out resp err]> (awaiters w) ∧
      slots_ (chan w') = delete (transaction_id_ a) (slots_ (chan w)) ∧
      mkRetiredId (guarded_reuse_time (chan w) now) (transaction_id_ a) ∈ retired_ids_ (chan w')
    else ok = false ∧ w' = w.
Proof.
  intros Hok Ha. unfold finish. rewrite Ha. cbn [from_option_ub mbind outcome_bind].
  destruct (owner_ a) eqn:Hown; cbn [negb orb andb]; [| by exists false, w; split_and!].
  destruct (bool_decide (state_ a = Pending)) eqn:Hst; cbn [negb orb andb]; [| by exists false, w; split_and!].
  apply bool_decide_eq_true in Hst.
  assert (pending_as a (transaction_id_ a)) as Hpend by (split_and!; try done; by eapply (co_pending _ Hok)).
  assert (slots_ (chan w) !! transaction_id_ a = Some q) as Hslot by (apply (co_slot _ Hok); eauto).
  assert (id_state (chan w) (transaction_id_ a) = IdPending) as Hids
    by (apply (po_pending _ _ (co_pool _ Hok)), elem_of_dom; eauto).
  rewrite (pool_in_capacity _ _ _ (co_pool _ Hok)) by congruence. rewrite bool_decide_eq_true_2 by done.
  cbn [negb]. fold (detach q (transaction_id_ a) now w). set (wd := detach q (transaction_id_ a) now w).
  fold (completed_as a out resp err).
  destruct (detach_spec q (transaction_id_ a) now w Hok Hslot) as (Hawd & Hsld & _ & Hcfgd & Hld & _ & Hretd).
  fold wd in Hawd, Hsld, Hcfgd, Hld, Hretd.
  assert (∀ w', same_core (chan wd) (chan w') → awaiters w' = awaiters (set_awaiter q (completed_as a out resp err) wd) →
    chan_ok w' ∧ config_ (chan w') = config_ (chan w) ∧ life_ (chan w') = life_ (chan w) ∧
    (∀ r, r ∈ retired_ids_ (chan w) → r ∈ retired_ids_ (chan w')) ∧
    awaiters w' = <[q := completed_as a out resp err]> (awaiters w) ∧
    slots_ (chan w') = delete (transaction_id_ a) (slots_ (chan w)) ∧
    mkRetiredId (guarded_reuse_time (chan w) now) (transaction_id_ a) ∈ retired_ids_ (chan w')) as Hgoal.
  { intros w' Hcore Haw. cbn [awaiters set_awaiter] in Haw. rewrite Hawd in Haw.
    pose proof Hcore as (Hsl & _ & _ & Hret & Hcfg & _ & Hl). split.
    { by eapply (detach_ok q (transaction_id_ a) now a (completed_as a out resp err) w). }
    rewrite Hcfg, Hcfgd, Hl, Hld, Hret, Hretd, Hsl, Hsld. split_and!; try done.
    - intros r Hr. apply push_retired_in. by right.
    - apply push_retired_in. by left. }
  destruct (proj1 (bool_decide_eq_true (is_Some (task_ a))) ltac:(apply bool_decide_eq_true; apply Hpend)) as [task ->].
  set (w3 := match outcome_counter out with Some k => _ | None => _ end).
  assert (same_core (chan wd) (chan w3) ∧ awaiters w3 = awaiters (set_awaiter q (completed_as a out resp err) wd)) as [Hc3 Ha3].
  { subst w3. by destruct (outcome_counter out). }
  destruct (negb _); [eexists false, _; split; [done |]; by apply Hgoal |].
  destruct (rt_schedule (runtime w3) task) as [[] rt]; eexists _, _; (split; [done |]); by apply Hgoal.
Qed.

Lemma abandon_spec q now w a :
  chan_ok w → awaiters w !! q = Some a →
  ∃ w', abandon q now w = Val w' ∧ chan_ok w' ∧ config_ (chan w') = config_ (chan w) ∧
    (∀ r, r ∈ retired_ids_ (chan w) → r ∈ retired_ids_ (chan w')) ∧
    ∃ b, awaiters w' = <[q := b]> (awaiters w) ∧ (owner_ b = false ∨ state_ b ≠ Pending).
Proof.
  intros Hok Ha. unfold abandon. rewrite Ha. cbn [from_option_ub mbind outcome_bind].
  destruct (owner_ a) eqn:Hown; cbn [negb orb andb].
  2: { exists w. split_and!; try done. exists a. rewrite insert_id by done. auto. }
  destruct (bool_decide (state_ a = Pending)) eqn:Hst; cbn [negb orb andb].
  2: { exists w. split_and!; try done. exists a. rewrite insert_id by done. apply bool_decide_eq_false in Hst. auto. }
  apply bool_decide_eq_true in Hst.
  assert (pending_as a (transaction_id_ a)) as Hpend by (split_and!; try done; by eapply (co_pending _ Hok)).
  assert (slots_ (chan w) !! transaction_id_ a = Some q) as Hslot by (apply (co_slot _ Hok); eauto).
  assert (id_state (chan w) (transaction_id_ a) = IdPending) as Hids
    by (apply (po_pending _ _ (co_pool _ Hok)), elem_of_dom; eauto).
  rewrite (pool_in_capacity _ _ _ (co_pool _ Hok)) by congruence. rewrite bool_decide_eq_true_2 by done.
  cbn [negb orb]. fold (detach q (transaction_id_ a) now w). set (wd := detach q (transaction_id_ a) now w).
  destruct (detach_spec q (transaction_id_ a) now w Hok Hslot) as (Hawd & Hsld & _ & Hcfgd & Hld & _ & Hretd).
  fold wd in Hawd, Hsld, Hcfgd, Hld, Hretd.
  eexists. split; [done |]. cbn [awaiters chan set_chan set_awaiter config_ count retired_ids_]. split_and!.
  - eapply (detach_ok q (transaction_id_ a) now a _ w); [done | done | done | | | cbn [awaiters set_chan set_awaiter]; by rewrite Hawd]; done.
  - done.
  - intros r Hr. rewrite Hretd. apply push_retired_in. by right.
  - rewrite Hawd. eexists. split; [done |]. by left.
Qed.

(** [fail_all] completes every query in flight. *)
Lemma fail_loop_spec ids out err now n w :
  chan_ok w →
  ∃ m w', fail_loop ids out err now n w = Val (m, w') ∧ chan_ok w' ∧ config_ (chan w') = config_ (chan w) ∧
    (∀ r, r ∈ retired_ids_ (chan w) → r ∈ retired_ids_ (chan w')) ∧
    (∀ id, id ∈ ids → slots_ (chan w') !! id = None) ∧ slots_ (chan w') ⊆ slots_ (chan w) ∧
    dom (awaiters w') = dom (awaiters w).
Proof.
  revert n w. induction ids as [| id ids IH]; intros n w Hok; cbn [fail_loop].
  { exists n, w. split_and!; try done. set_solver. }
  destruct (slots_ (chan w) !! id) as [q |] eqn:Hslot.
  - pose proof Hslot as (a & Ha & Hpend)%(co_slot _ Hok).
    destruct (finish_spec q out [] err now w a Hok Ha) as (ok & w1 & -> & Hok1 & Hcfg1 & _ & Hret1 & Hdone).
    cbn [mbind outcome_bind]. destruct Hpend as (Hown & Hst & Hid & _).
    rewrite Hown, (bool_decide_eq_true_2 _ Hst) in Hdone. cbn [andb] in Hdone. destruct Hdone as (Haw & Hsl & _).
    rewrite Hid in Hsl.
    destruct (IH (if ok then n + 1 else n) w1 Hok1) as (m & w' & -> & Hok' & Hcfg' & Hret' & Hnone & Hsub & Hdom).
    exists m, w'. split_and!; try done.
    + congruence.
    + auto.
    + intros i [-> | Hi]%elem_of_cons; [| auto].
      destruct (slots_ (chan w') !! id) as [q' |] eqn:Hq'; [| done].
      pose proof (lookup_weaken _ _ _ _ Hq' Hsub) as Hbad. by rewrite Hsl, lookup_delete_eq in Hbad.
    + rewrite Hsl in Hsub. etrans; [exact Hsub |]. apply delete_subseteq.
    + rewrite Hdom, Haw, dom_insert_L. apply elem_of_dom_2 in Ha. set_solver.
  - destruct (IH n w Hok) as (m & w' & -> & Hok' & Hcfg' & Hret' & Hnone & Hsub & Hdom).
    exists m, w'. split_and!; try done. intros i [-> | Hi]%elem_of_cons; [| auto].
    destruct (slots_ (chan w') !! id) as [q' |] eqn:Hq'; [| done].
    pose proof (lookup_weaken _ _ _ _ Hq' Hsub). congruence.
Qed.

Lemma rollback_spec q now w a id :
  chan_ok w → awaiters w !! q = Some a → pending_as a id →
  ∃ w' a', rollback_begin q now w = Val w' ∧ chan_ok w' ∧ config_ (chan w') = config_ (chan w) ∧
    retired_ids_ (chan w') = retired_ids_ (chan w) ∧ slots_ (chan w') = delete id (slots_ (chan w)) ∧
    awaiters w' = <[q := a']> (awaiters w) ∧ owner_ a' = false ∧ state_ a' = Idle.
Proof.
  intros Hok Ha Hpend. unfold rollback_begin. set (w0 := if _ && _ then _ else w).
  assert (chan w0 = chan w ∧ awaiters w0 = awaiters w) as [Hc0 Haw0] by (subst w0; by destruct (_ && _)).
  rewrite Haw0, Ha, Hc0. cbn [from_option_ub mbind outcome_bind].
  assert (slots_ (chan w) !! id = Some q) as Hslot by (apply (co_slot _ Hok); eauto).
  destruct (Hpend) as (_ & _ & -> & _).
  assert (id_state (chan w) id = IdPending) as Hids
    by (apply (po_pending _ _ (co_pool _ Hok)), elem_of_dom; eauto).
  rewrite (pool_in_capacity _ _ _ (co_pool _ Hok)) by congruence. rewrite bool_decide_eq_true_2 by done.
  cbn [andb]. set (c1 := set_slots _ _ _).
  assert (dom (slots_ (chan w)) = {[id]} ∪ dom (delete id (slots_ (chan w)))) as Hdom.
  { rewrite dom_delete_L. apply set_eq. intros i. destruct (decide (i = id)) as [-> |]; [| set_solver].
    split; [set_solver |]. intros _. apply elem_of_dom. eauto. }
  assert (pool_ok c1 ({[id]} ∪ dom (delete id (slots_ (chan w))))) as Hp1.
  { rewrite <- Hdom. by destruct (co_pool _ Hok). }
  pose proof (release_rest c1 _ id now false Hp1) as (Hsl & Hcfg & Hpc & Hl & _).
  eexists _, _. split; [done |]. cbn [chan set_awaiter set_chan awaiters]. rewrite Haw0.
  split_and!; try done.
  - eapply (remove_slot_ok q id a _ w _ Hok Ha Hpend); cbn [chan set_awaiter set_chan awaiters];
      [| done | | done | done | done | by rewrite Haw0]; [done |].
    rewrite Hsl. apply release_id_ok; [done |]. cbn [slots_ set_slots c1]. rewrite dom_delete_L. set_solver.
  - unfold release_id. change (in_capacity c1 id) with (in_capacity (chan w) id).
    change (id_state c1 id) with (id_state (chan w) id).
    rewrite (pool_in_capacity _ _ _ (co_pool _ Hok)) by congruence. rewrite bool_decide_eq_true_2 by done.
    cbn [negb orb]. destruct (insert_free_id_spec id (set_states (<[id:=IdFree]> (id_states_ c1)) c1)) as (l & e & -> & _).
    done.
Qed.

Lemma serialize_query_defined h qs n : defined (serialize_query h qs n).
Proof.
  unfold serialize_query. destruct (is_response h); [done |]. rewrite write_question_message_spec.
  repeat (case_match; [done |]). unfold encode_flags. cbv zeta.
  repeat (case_match; [done |]). cbn [mbind outcome_bind]. by case_match.
Qed.

Definition not_pending (a : QueryAwaiter) : Prop := owner_ a = false ∨ state_ a ≠ Pending.

(** [begin]: the query is in flight under an ID that was free or whose quarantine is
    over, or the table is as before. *)
Definition begun (q : nat) (now : Z) (a : QueryAwaiter) (w : World) (r : BeginResult) (w' : World) : Prop :=
  chan_ok w' ∧ config_ (chan w') = config_ (chan w) ∧ keeps_retired now (chan w) (chan w') ∧
  ∃ b, awaiters w' = <[q := b]> (awaiters w) ∧
    match r with
    | BeginSuspended => ∃ id, id ∉ dom (slots_ (chan w)) ∧ slots_ (chan w') = <[id := q]> (slots_ (chan w)) ∧
        pending_as b id ∧ header_ b = header_ a ∧ question_ b = question_ a ∧
        (id_state (chan w) id = IdFree ∨ reclaimable now (chan w) id)
    | _ => slots_ (chan w') = slots_ (chan w) ∧ not_pending b
    end.

Lemma begin_spec q task same send now now' thread w a :
  chan_ok w → awaiters w !! q = Some a → state_ a ≠ Pending →
  ∃ r w', begin q task same send now now' thread w = Val (r, w') ∧ begun q now a w r w'.
Proof.
  intros Hok Ha Hst. unfold begin, begun.
  assert (∀ r, r ≠ BeginSuspended →
    ∃ r' w', (Val (r, w) : total _) = Val (r', w') ∧ begun q now a w r' w') as Hsame.
  { intros r Hr. unfold begun. exists r, w. split_and!; try done; [by intros r' |]. exists a. rewrite insert_id by done.
    split; [done |]. destruct r; try done; split; try done; by right. }
  destruct (_ || _); [by apply Hsame |]. destruct (negb (on_owner_thread thread (chan w))); [by apply Hsame |].
  destruct (_ || _); [by apply Hsame |]. clear Hsame.
  rewrite Ha. cbn [from_option_ub mbind outcome_bind].
  pose proof (allocate_id_spec now (chan w) _ (co_pool _ Hok) (reflexivity _)) as Halloc.
  destruct (allocate_id now (chan w)) as [[id |] c1].
  2: { destruct Halloc as ((Hsl & Hcfg & Hpc & Hl & _) & Hkeep & Hp & _).
       eexists _, _. split; [done |]. cbn [chan set_chan awaiters]. split_and!; try done.
       - apply (pool_change_ok w); try done. by eapply same_core_pool; [apply count_core |].
       - exists a. rewrite insert_id by done. split_and!; try done. by right. }
  destruct Halloc as ((Hsl & Hcfg & Hpc & Hl & _) & Hkeep & Hid & Hrange & Hp & Hwhy).
  pose proof (serialize_query_defined (upstream_header (header_ a) id) [question_ a] kUpstreamQueryBudget) as Hdef.
  destruct (serialize_query _ _ _) as [wire | e |]; [| | done].
  2: { pose proof (release_rest c1 _ id now false Hp) as (Hsl' & Hcfg' & Hpc' & Hl' & _).
       pose proof (release_id_ok c1 _ id now false Hp Hid) as Hp'.
       assert (retired_ids_ (release_id id now false c1) = retired_ids_ c1) as Hret'.
       { unfold release_id. destruct (_ || _); [done |]. cbn [negb orb].
         destruct (insert_free_id_spec id (set_states (<[id:=IdFree]> (id_states_ c1)) c1)) as (l & e' & -> & _). done. }
       eexists _, _. split; [done |]. cbn [chan set_chan awaiters]. split_and!.
       - apply (pool_change_ok w); try done; cbn [chan set_chan]; congruence.
       - congruence.
       - unfold keeps_retired. by rewrite Hret'.
       - exists a. rewrite insert_id by done. split_and!; [done | congruence | by right]. }
  cbn [chan set_chan awaiters set_awaiter runtime].
  set (b := mkQueryAwaiter true (Some task) _ _ _ _ id Pending).
  set (w1 := set_chan (set_slots _ _ _) (set_awaiter q b _)).
  assert (chan_ok w1) as Hok1.
  { eapply (insert_slot_ok q id a b w w1 Hok Ha Hst); cbn [chan set_chan awaiters set_awaiter w1 slots_ set_slots config_ life_ pending_count_];
      [by split_and! | done | | congruence | done | done | congruence | done].
    by destruct Hp. }
  assert (awaiters w1 !! q = Some b) as Hb1 by (cbn [awaiters set_chan set_awaiter w1]; by rewrite lookup_insert_eq).
  destruct (rt_arm (runtime w) q (deadline_ a)) as [armed rt].
  set (w2 := set_runtime rt w1).
  assert (chan_ok w2) as Hok2 by (by apply (same_core_ok w1)).
  assert (∃ w' a', rollback_begin q now' w2 = Val w' ∧ chan_ok w' ∧ config_ (chan w') = config_ (chan w) ∧
    keeps_retired now (chan w) (chan w') ∧ slots_ (chan w') = slots_ (chan w) ∧
    awaiters w' = <[q := a']> (awaiters w) ∧ owner_ a' = false ∧ state_ a' = Idle) as Hroll.
  { destruct (rollback_spec q now' w2 b id Hok2 Hb1) as (w' & a' & Heq & Hok' & Hcfg' & Hret' & Hsl' & Haw' & Ho' & Hs').
    { by split_and!. }
    exists w', a'. cbn [chan w2 w1 set_runtime set_chan set_awaiter awaiters retired_ids_ set_slots config_ slots_] in *.
    split_and!; try done.
    - congruence.
    - unfold keeps_retired. by rewrite Hret'.
    - rewrite Hsl', Hsl, delete_insert_id; [done |]. by apply not_elem_of_dom.
    - by rewrite Haw', insert_insert_eq. }
  destruct armed.
  - destruct (send wire) as [sent errno]. destruct (negb _) eqn:Hsent.
    + destruct Hroll as (w' & a' & -> & Hok' & Hcfg' & Hkeep' & Hsl' & Haw' & Ho' & Hs').
      cbn [mbind outcome_bind]. rewrite Haw', lookup_insert_eq. cbn [from_option_ub outcome_bind].
      eexists _, _. split; [done |]. cbn [chan set_chan awaiters set_awaiter]. split_and!; try done.
      * eapply (idle_awaiter_ok q a' _ w'); try done; [by rewrite Haw', lookup_insert_eq | by left | by left].
      * eexists. rewrite Haw', insert_insert_eq. split_and!; [done | done |]. by left.
    + eexists _, _. split; [done |]. split_and!.
      * by apply (same_core_ok w2).
      * done.
      * done.
      * exists b. split; [done |]. exists id. split_and!; try done. cbn. by rewrite Hsl.
  - destruct Hroll as (w' & a' & -> & Hok' & Hcfg' & Hkeep' & Hsl' & Haw' & Ho' & Hs').
    eexists _, _. split; [done |]. split_and!; try done. exists a'. split_and!; try done. by left.
  - destruct Hroll as (w' & a' & -> & Hok' & Hcfg' & Hkeep' & Hsl' & Haw' & Ho' & Hs').
    eexists _, _. split; [done |]. split_and!; try done. exists a'. split_and!; try done. by left.
Qed.

(** Replace the first two bytes by an ID. *)
Definition with_id (id : Z) (packet : list byte) : list byte :=
  z2b (Z.shiftr id 8) :: z2b id :: drop 2 packet.

Lemma rewrite_id_spec packet id :
  (2 ≤ length packet)%nat → rewrite_transaction_id packet id = Val (with_id id packet).
Proof.
  intros Hlen. destruct packet as [| b0 [| b1 rest]]; simpl in Hlen; try lia.
  unfold rewrite_transaction_id. rewrite (proj2 (Nat.ltb_ge _ _)) by (simpl; lia).
  unfold with_id. cbn [drop insert list_insert]. rewrite !land_ff.
  assert (∀ z, z2b (z mod 256) = z2b z) as Hz by (intros z; unfold z2b; by rewrite Z.mod_mod).
  by rewrite !Hz.
Qed.

Definition is_transaction_id (packet : list byte) (id : Z) : Prop :=
  ∃ b0 b1 rest, packet = b0 :: b1 :: rest ∧ id = b2z b0 * 256 + b2z b1.

(** A datagram that completes a query was a valid response to it. *)
Definition accepted_response (w : World) (packet : list byte) (id : Z) (q : nat) (a : QueryAwaiter) : Prop :=
  is_transaction_id packet id ∧ slots_ (chan w) !! id = Some q ∧ awaiters w !! q = Some a ∧
  (length packet ≤ kUpstreamReceiveBufferSize)%nat ∧
  ∃ m, parse_message packet upstream_limits = Val m ∧
       validate_upstream_response m id (opcode (header_ a)) (question_ a) = Val tt.

(** What a received datagram may change. *)
Definition handled (packet : list byte) (tr : bool) (now : Z) (w : World) (r : PacketResult) (w' : World) : Prop :=
  chan_ok w' ∧ config_ (chan w') = config_ (chan w) ∧ dom (awaiters w') = dom (awaiters w) ∧
  (∀ x, x ∈ retired_ids_ (chan w) → x ∈ retired_ids_ (chan w')) ∧
  match r with
  | Completed => tr = false ∧ ∃ id q a, accepted_response w packet id q a ∧
      awaiters w' = <[q := completed_as a Response (with_id (DnsMessage.id (header_ a)) packet) 0]> (awaiters w) ∧
      slots_ (chan w') = delete id (slots_ (chan w)) ∧
      mkRetiredId (guarded_reuse_time (chan w) now) id ∈ retired_ids_ (chan w')
  | Invalid | Unmatched => awaiters w' = awaiters w ∧ same_core (chan w) (chan w')
  | InvariantFailure => True
  end.

Lemma handle_datagram_spec packet tr now thread w :
  chan_ok w → ∃ r w', handle_datagram packet tr now thread w = Val (r, w') ∧ handled packet tr now w r w'.
Proof.
  intros Hok. unfold handle_datagram, handled.
  destruct (_ || _). { exists InvariantFailure, w. by split_and!. }
  assert (∀ r k, (r = Invalid ∨ r = Unmatched) →
    ∃ r' w', (Val (r, set_chan (count k (chan w)) w) : total _) = Val (r', w') ∧ handled packet tr now w r' w') as Hcount.
  { intros r k Hr. unfold handled. eexists r, _. split; [done |]. split_and!; try done; [by apply (same_core_ok w) |].
    by destruct Hr as [-> | ->]. }
  destruct (tr || _) eqn:Htr; [apply Hcount; by left |]. apply orb_false_iff in Htr as [-> Hsize]. bool_hyps.
  destruct (decide (2 ≤ length packet)%nat) as [Hlen | Hlen].
  2: { unfold transaction_id. rewrite (proj2 (Nat.ltb_lt _ _)) by lia. cbn [mbind outcome_bind option_bind].
       apply Hcount. by right. }
  destruct (transaction_id_spec (E := Empty_set) packet Hlen) as (b0 & b1 & rest & Hpk & ->).
  cbn [mbind outcome_bind option_bind]. set (id := b2z b0 * 256 + b2z b1).
  destruct (in_capacity (chan w) id) eqn:Hcap; [| apply Hcount; by right].
  destruct (slots_ (chan w) !! id) as [q |] eqn:Hslot; [| apply Hcount; by right]. cbn [mbind option_bind].
  pose proof Hslot as (a & Ha & Hpend)%(co_slot _ Hok). rewrite Ha. cbn [from_option_ub mbind outcome_bind].
  pose proof (parse_message_defined packet upstream_limits) as Hdef.
  destruct (parse_message packet upstream_limits) as [m | e |] eqn:Hparse; [| apply Hcount; by left | done].
  pose proof (validate_upstream_response_defined m id (opcode (header_ a)) (question_ a)) as Hdef'.
  destruct (validate_upstream_response m id (opcode (header_ a)) (question_ a)) as [[] | e |] eqn:Hval;
    [| apply Hcount; by left | done].
  pose proof (mok_image _ _ _ (parse_message_inv _ _ _ Hparse)) as ->. rewrite rewrite_id_spec by done.
  destruct (finish_spec q Response (with_id (DnsMessage.id (header_ a)) packet) 0 now w a Hok Ha)
    as (ok & w' & -> & Hok' & Hcfg & _ & Hret & Hdone).
  destruct Hpend as (Hown & Hst & Hid & _). rewrite Hown, (bool_decide_eq_true_2 _ Hst) in Hdone.
  cbn [andb] in Hdone. destruct Hdone as (Haw & Hsl & Hr). cbn [mbind outcome_bind]. rewrite Hid in *.
  eexists _, w'. split; [done |]. split_and!; try done.
  - rewrite Haw, dom_insert_L. apply elem_of_dom_2 in Ha. set_solver.
  - destruct ok; [| done]. split; [done |]. exists id, q, a. split_and!; try done.
    split_and!; [by exists b0, b1, rest | done | done | done |]. by exists m.
Qed.

(** ** Runs of the channel *)
Inductive ChanOp :=
  | OpQuery (q : nat) (header : Header) (question : Question) (now : Z)
  | OpSuspend (q task : nat) (bound stopping same_scheduler : bool) (send : list byte → Z * Z) (now now' thread : Z)
  | OpDatagram (packet : list byte) (truncated : bool) (now thread : Z)
  | OpDeadline (q : nat) (completion : TimerCompletion) (now : Z)
  | OpFailAll (out : QueryOutcome) (err now thread : Z)
  | OpDestroy (q : nat) (now : Z).

Definition op_time (op : ChanOp) : Z :=
  match op with
  | OpQuery _ _ _ now | OpDatagram _ _ now _ | OpDeadline _ _ now | OpFailAll _ _ now _ | OpDestroy _ now => now
  | OpSuspend _ _ _ _ _ _ now _ _ => now
  end.

(** A new awaiter has a new address, a coroutine awaits an awaiter once, callbacks and
    destructors run on live awaiters. *)
Definition op_ok (w : World) (op : ChanOp) : Prop :=
  match op with
  | OpQuery q _ _ _ => awaiters w !! q = None
  | OpSuspend q _ _ _ _ _ _ _ _ => ∃ a, awaiters w !! q = Some a ∧ state_ a ≠ Pending
  | OpDeadline q _ _ | OpDestroy q _ => is_Some (awaiters w !! q)
  | OpDatagram _ _ _ _ | OpFailAll _ _ _ _ => True
  end.

Definition run_op (w : World) (op : ChanOp) : total World :=
  match op with
  | OpQuery q header question now => Val (set_awaiter q (query (chan w) header question now) w)
  | OpSuspend q task bound stopping same send now now' thread =>
      '(_, w) ← await_suspend q task bound stopping same send now now' thread w; Val w
  | OpDatagram packet truncated now thread => '(_, w) ← handle_datagram packet truncated now thread w; Val w
  | OpDeadline q completion now => '(_, w) ← deadline_complete q completion now w; Val w
  | OpFailAll out err now thread => '(_, w) ← fail_all out err now thread w; Val w
  | OpDestroy q now => w ← abandon q now w; Val (mkWorld (chan w) (delete q (awaiters w)) (runtime w))
  end.

Inductive runs : World → list ChanOp → World → Prop :=
  | runs_nil w : runs w [] w
  | runs_cons w op w1 ops w2 : op_ok w op → run_op w op = Val w1 → runs w1 ops w2 → runs w (op :: ops) w2.

Lemma keeps_retired_all now c c' : (∀ r, r ∈ retired_ids_ c → r ∈ retired_ids_ c') → keeps_retired now c c'.
Proof. intros Hr r Hin _. auto. Qed.

Lemma finish_awaiter_ok q st out w a :
  chan_ok w → awaiters w !! q = Some a → not_pending a →
  ∃ w', finish_awaiter q st out w = Val w' ∧ chan_ok w' ∧ chan w' = chan w.
Proof.
  intros Hok Ha Hnp. unfold finish_awaiter. rewrite Ha. eexists. split; [done |]. split; [| done].
  eapply (idle_awaiter_ok q a _ w _ Hok Ha Hnp); [| done | reflexivity]. by left.
Qed.

Lemma await_suspend_ok q task bound stopping same send now now' thread w a :
  chan_ok w → awaiters w !! q = Some a → state_ a ≠ Pending →
  ∃ r w', await_suspend q task bound stopping same send now now' thread w = Val (r, w') ∧ chan_ok w' ∧
          keeps_retired now (chan w) (chan w').
Proof.
  intros Hok Ha Hst. unfold await_suspend.
  assert (∀ st out w1 a1, chan_ok w1 → awaiters w1 !! q = Some a1 → not_pending a1 → keeps_retired now (chan w) (chan w1) →
    ∃ r w', (w2 ← finish_awaiter q st out w1; Val (false, w2)) = Val (r, w') ∧ chan_ok w' ∧ keeps_retired now (chan w) (chan w'))
    as Hfin.
  { intros st out w1 a1 Hok1 Ha1 Hnp Hkeep. destruct (finish_awaiter_ok q st out w1 a1 Hok1 Ha1 Hnp) as (w' & -> & Hok' & Hc').
    exists false, w'. rewrite Hc'. by split_and!. }
  destruct (negb bound); [apply (Hfin _ _ w a Hok Ha (or_intror Hst)); by intros r |].
  destruct stopping; [apply (Hfin _ _ w a Hok Ha (or_intror Hst)); by intros r |].
  unfold awaiter_begin. rewrite Ha. cbn [from_option_ub mbind outcome_bind].
  destruct (_ || _).
  { eexists _, _. split; [done |]. split; [| by intros r].
    eapply (idle_awaiter_ok q a _ w _ Hok Ha (or_intror Hst)); [| done | reflexivity]. by right. }
  destruct (begin_spec q task same send now now' thread w a Hok Ha Hst) as (r & w1 & -> & Hok1 & _ & Hkeep & b & Haw & Hr).
  cbn [mbind outcome_bind].
  assert (awaiters w1 !! q = Some b) as Hb by (by rewrite Haw, lookup_insert_eq).
  destruct r; try (eapply (Hfin _ _ w1 b); [done | done | by apply Hr | done]).
  by exists true, w1.
Qed.

Lemma run_op_spec w op :
  chan_ok w → op_ok w op →
  ∃ w', run_op w op = Val w' ∧ chan_ok w' ∧ keeps_retired (op_time op) (chan w) (chan w').
Proof.
  intros Hok Hop. destruct op as [q h qu now | q task bd st sm send now now' th | p tr now th | q c now | o e now th | q now];
    cbn [run_op op_ok op_time] in *.
  - eexists. split; [done |]. split; [| by intros r]. destruct Hok as [H1 H2 H3 H4 H5 H6]. split; cbn [chan set_awaiter awaiters]; try done.
    + intros i p. rewrite H3. split; intros (b & Hb & Hpb); exists b; (split; [| done]).
      * rewrite lookup_insert_ne; [done |]. intros ->. congruence.
      * apply lookup_insert_Some in Hb as [[<- <-] | [_ Hb]]; [by destruct Hpb as (_ & ? & _) | done].
    + intros p b [[<- <-] | [_ Hb]]%lookup_insert_Some; [done | by eapply H4].
  - destruct Hop as (a & Ha & Hst).
    destruct (await_suspend_ok q task bd st sm send now now' th w a Hok Ha Hst) as (r & w' & -> & Hok' & Hk). by exists w'.
  - destruct (handle_datagram_spec p tr now th w Hok) as (r & w' & -> & Hok' & _ & _ & Hret & _).
    exists w'. split_and!; try done. by apply keeps_retired_all.
  - destruct Hop as [a Ha]. unfold deadline_complete. rewrite Ha. cbn [from_option_ub mbind outcome_bind].
    destruct (owner_ a); [| exists w; split_and!; [done | done | by intros r]]. unfold finish_deadline.
    destruct (finish_spec q (match c with TimerExpired => Timeout | TimerCancelled => Cancelled end) [] 0 now w a Hok Ha)
      as (ok & w' & -> & Hok' & _ & _ & Hret & _).
    exists w'. split_and!; try done. by apply keeps_retired_all.
  - unfold fail_all. destruct (_ || _); [exists w; split_and!; [done | done | by intros r] |].
    destruct (fail_loop_spec (seqZ 0 (transaction_id_capacity (config_ (chan w)))) o e now 0 w Hok)
      as (m & w' & -> & Hok' & _ & Hret & _). exists w'. split_and!; try done. by apply keeps_retired_all.
  - destruct Hop as [a Ha]. destruct (abandon_spec q now w a Hok Ha) as (w' & -> & Hok' & _ & Hret & b & Haw & Hb).
    eexists. split; [done |]. cbn [chan]. split; [| by apply keeps_retired_all].
    assert (awaiters w' !! q = Some b) as Hqb by (by rewrite Haw, lookup_insert_eq).
    destruct Hok' as [H1 H2 H3 H4 H5 H6]. split; cbn [chan awaiters]; try done.
    + intros i p. rewrite H3. split; intros (x & Hx & Hpx); exists x; (split; [| done]).
      * rewrite lookup_delete_ne; [done |]. intros ->. assert (x = b) as -> by congruence.
        destruct Hpx as (? & ? & _), Hb; congruence.
      * by apply lookup_delete_Some in Hx as [_ ?].
    + intros p x [_ Hx]%lookup_delete_Some. by eapply H4.
Qed.

Lemma runs_spec w ops w' :
  chan_ok w → runs w ops w' →
  chan_ok w' ∧ ∀ r, r ∈ retired_ids_ (chan w) → Forall (λ op, op_time op < reusable_at r) ops → r ∈ retired_ids_ (chan w').
Proof.
  intros Hok Hruns. induction Hruns as [w | w op w1 ops w2 Hop Hrun Hruns IH]; [done |].
  destruct (run_op_spec w op Hok Hop) as (w1' & Heq & Hok1 & Hkeep). rewrite Hrun in Heq. injection Heq as <-.
  destruct (IH Hok1) as [Hok2 Hret]. split; [done |]. intros r Hr [Ht Hts]%Forall_cons_iff. apply Hret; [| done].
  by apply Hkeep.
Qed.

Lemma retired_no_slot w r : chan_ok w → r ∈ retired_ids_ (chan w) → slots_ (chan w) !! retired_id r = None.
Proof.
  intros Hok Hr. apply not_elem_of_dom. rewrite (po_pending _ _ (co_pool _ Hok)).
  assert (id_state (chan w) (retired_id r) = IdRetired) as Hs; [| congruence].
  apply (po_retired _ _ (co_pool _ Hok)). unfold retired_set. by apply list_elem_of_fmap_2.
Qed.
End channel.
Arguments World RT : clear implicits.
End Upstream.
