(* ===== verification/UpstreamClaims.v ===== *)
(** * Properties of the upstream channel

    Start-up of a fresh channel, and the properties of its runs. *)
From S2P Require Import Prelude DomainName DnsMessage DnsParser DnsWriter DnsQuery UpstreamChannel.
From Stdlib Require Import Strings.Byte.
Import Upstream.

(** ** The audit accepts a consistent idle pool *)
Lemma audit_ids_some ids capacity st (c : UpstreamChannel) seen :
  NoDup ids → (∀ id, id ∈ ids → id < capacity ∧ id ∉ seen ∧ id_state c id = st ∧ slots_ c !! id = None) →
  audit_ids ids capacity st c seen = Some (list_to_set ids ∪ seen).
Proof.
  intros Hnd. revert seen. induction Hnd as [| id ids Hid Hnd IH]; intros seen Hall; cbn [audit_ids].
  { f_equal. set_solver. }
  destruct (Hall id) as (Hlt & Hseen & Hst & Hslot); [set_solver |].
  rewrite (proj2 (Z.leb_gt _ _)) by done. rewrite (bool_decide_eq_false_2 (id ∈ seen)) by done.
  rewrite (bool_decide_eq_true_2 (id_state c id = st)) by done.
  rewrite (bool_decide_eq_false_2 (is_Some _)) by (rewrite Hslot; by intros [? ?]). cbn [negb orb].
  rewrite IH.
  - f_equal. cbn [list_to_set]. set_solver.
  - intros i Hi. destruct (Hall i) as (? & ? & ? & ?); [set_solver |]. split_and!; try done. set_solver.
Qed.

Lemma idle_pool_ids (c : UpstreamChannel) :
  pool_ok c ∅ → free_ids_ c ++ retired_set c ≡ₚ seqZ 0 (transaction_id_capacity (config_ c)).
Proof.
  intros Hp. apply NoDup_Permutation.
  - apply list.NoDup_app. split_and!; [apply (po_free_nodup _ _ Hp) | | apply (po_retired_nodup _ _ Hp)].
    intros i Hf Hr. apply (po_free _ _ Hp) in Hf. apply (po_retired _ _ Hp) in Hr. congruence.
  - apply NoDup_seqZ.
  - intros i. rewrite elem_of_app, (po_free _ _ Hp), (po_retired _ _ Hp), elem_of_seqZ.
    pose proof (po_range _ _ Hp i) as Hr. pose proof (po_pending _ _ Hp i) as Hpe.
    rewrite Z.add_0_l. destruct (id_state c i) eqn:Hs; naive_solver (set_solver || congruence).
Qed.

Lemma validate_idle (c : UpstreamChannel) :
  pool_ok c ∅ → slots_ c = ∅ → pending_count_ c = 0 → is_sorted (retired_ids_ c) = true →
  validate_id_pool (transaction_id_capacity (config_ c)) c = true.
Proof.
  intros Hp Hsl Hpc Hsort. set (cap := transaction_id_capacity (config_ c)).
  pose proof (po_capacity _ _ Hp) as Hcap. fold cap in Hcap.
  pose proof (idle_pool_ids c Hp) as Hperm. fold cap in Hperm.
  assert (Z.of_nat (length (free_ids_ c)) + Z.of_nat (length (retired_ids_ c)) = cap) as Hlen.
  { apply Permutation_length in Hperm. rewrite length_app, length_seqZ in Hperm. unfold retired_set in Hperm.
    rewrite length_map in Hperm. lia. }
  unfold validate_id_pool. rewrite (proj2 (Z.eqb_neq cap 0)), (proj2 (Z.ltb_ge _ _)) by lia.
  rewrite Hpc, Hlen, !Z.eqb_refl, Hsort. cbn [negb orb].
  assert (∀ id, id_state c id ≠ Unavailable → id < cap) as Hlt by (intros id H%(po_range _ _ Hp); lia).
  rewrite audit_ids_some; [| apply (po_free_nodup _ _ Hp) |].
  2: { intros id Hid%(po_free _ _ Hp). split_and!; [apply Hlt; congruence | set_solver | done | by rewrite Hsl]. }
  cbn [mbind option_bind]. fold (retired_set c). rewrite audit_ids_some; [| apply (po_retired_nodup _ _ Hp) |].
  2: { intros id Hid%(po_retired _ _ Hp). split_and!; [apply Hlt; congruence | | done | by rewrite Hsl].
       rewrite elem_of_union, elem_of_list_to_set, (po_free _ _ Hp). intros [? | ?]; [congruence | set_solver]. }
  set (seen := _ ∪ _). assert (∀ i, i ∈ seen ↔ 0 ≤ i < cap) as Hseen.
  { intros i. subst seen. rewrite !elem_of_union, !elem_of_list_to_set.
    transitivity (i ∈ free_ids_ c ++ retired_set c); [set_solver |]. rewrite Hperm, elem_of_seqZ. by rewrite Z.add_0_l. }
  apply andb_true_iff. split.
  - apply forallb_forall. intros id Hid%list_elem_of_In%elem_of_seqZ. rewrite Hsl, lookup_empty.
    rewrite (bool_decide_eq_false_2 (is_Some None)) by (by intros [? ?]). cbn [negb].
    destruct (cap <=? id) eqn:Hc; bool_hyps; rewrite ?andb_true_r.
    + apply bool_decide_eq_true. destruct (decide (id_state c id = Unavailable)) as [| Hne]; [done |].
      apply Hlt in Hne. lia.
    + apply andb_true_iff. split; [apply bool_decide_eq_true, Hseen; lia |].
      apply negb_true_iff, bool_decide_eq_false. rewrite <- (po_pending _ _ Hp). set_solver.
  - apply Z.eqb_eq. assert (seen = list_to_set (seqZ 0 cap)) as ->.
    { apply set_eq. intros i. rewrite Hseen, elem_of_list_to_set, elem_of_seqZ. by rewrite Z.add_0_l. }
    rewrite size_list_to_set by apply NoDup_seqZ. rewrite length_seqZ. lia.
Qed.

Lemma free_states free (id : Z) :
  default Unavailable (foldl (λ (m : gmap Z IdState) i, <[i := IdFree]> m) ∅ free !! id) = if decide (id ∈ free) then IdFree else Unavailable.
Proof.
  assert (∀ m : gmap Z IdState, (foldl (λ m i, <[i := IdFree]> m) m free !! id) =
    if decide (id ∈ free) then Some IdFree else m !! id) as Hfold.
  { induction free as [| x free IH]; intros m; cbn [foldl]; [by rewrite decide_False by set_solver |].
    rewrite IH. destruct (decide (id ∈ free)); [by rewrite decide_True by set_solver |].
    destruct (decide (id = x)) as [-> |]; [rewrite decide_True by set_solver; by rewrite lookup_insert_eq |].
    rewrite decide_False by set_solver. by rewrite lookup_insert_ne. }
  rewrite Hfold. by destruct (decide _).
Qed.

(** The rotated list of the deterministic mode holds every ID once. *)
Lemma rotated_ids first cap :
  0 < cap → map (λ r, (first mod cap + r - 1) mod cap) (rev (seqZ 1 cap)) ≡ₚ seqZ 0 cap.
Proof.
  intros Hcap. rewrite <- (Permutation_rev (seqZ 1 cap)). apply NoDup_Permutation.
  - apply NoDup_fmap_2_strong; [| apply NoDup_seqZ].
    intros a b Ha%elem_of_seqZ Hb%elem_of_seqZ Heq.
    assert ((a - b) mod cap = 0) as Hd.
    { replace (a - b) with ((first mod cap + a - 1) - (first mod cap + b - 1)) by lia.
      rewrite Zminus_mod, Heq, Z.sub_diag. by apply Z.mod_0_l; lia. }
    apply Z.mod_divide in Hd as [k Hk]; [| lia]. assert (k = 0) by nia. lia.
  - apply NoDup_seqZ.
  - intros i. rewrite elem_of_seqZ, Z.add_0_l. split.
    + intros (r & -> & _)%list_elem_of_fmap. by apply Z.mod_pos_bound.
    + intros Hi. apply list_elem_of_fmap. exists ((i - first mod cap) mod cap + 1). split.
      * replace (first mod cap + ((i - first mod cap) mod cap + 1) - 1) with (first mod cap + (i - first mod cap) mod cap) by lia.
        rewrite Zplus_mod_idemp_r. replace (first mod cap + (i - first mod cap)) with i by lia.
        symmetry. by apply Z.mod_small.
      * rewrite elem_of_seqZ. pose proof (Z.mod_pos_bound (i - first mod cap) cap Hcap). lia.
Qed.

Section start.
Context {RT : Type} `{Runtime RT}.
Context (engine_next : Z → Z * Z) (shuffle : Z → list Z → list Z * Z).
Hypothesis shuffle_permutes : ∀ seed l, (shuffle seed l).1 ≡ₚ l.

(** A channel as constructed. *)
Definition new_channel (config : ChannelConfig) : UpstreamChannel :=
  mkChannel ∅ ∅ [] [] 0 config (λ _, 0) 0 (mkLifecycle false false None (-1) false false false).

Definition new_world (config : ChannelConfig) (rt : RT) : World RT := mkWorld (new_channel config) ∅ rt.

Lemma initialize_pool config seed c :
  0 < transaction_id_capacity config ≤ kTransactionIdSpace → config_ c = config →
  pool_ok (initialize_id_pool shuffle config seed c) ∅ ∧ retired_ids_ (initialize_id_pool shuffle config seed c) = [].
Proof using shuffle_permutes.
  intros Hcap Hcfg. unfold initialize_id_pool.
  set (pair := if randomize_transaction_ids config then _ else _).
  assert (pair.1 ≡ₚ seqZ 0 (transaction_id_capacity config)) as Hperm.
  { subst pair. destruct (randomize_transaction_ids config); [apply shuffle_permutes |].
    cbn [fst]. apply rotated_ids. lia. }
  destruct pair as [free engine]. cbn [fst] in Hperm. split; [| done].
  assert (∀ id, id ∈ free ↔ 0 ≤ id < transaction_id_capacity config) as Hin.
  { intros id. rewrite Hperm, elem_of_seqZ. by rewrite Z.add_0_l. }
  split; unfold id_state, retired_set; cbn [id_states_ free_ids_ retired_ids_ config_ map]; rewrite ?Hcfg; try done.
  - intros id. rewrite free_states, <- Hin. by destruct (decide (id ∈ free)).
  - rewrite Hperm. apply NoDup_seqZ.
  - intros id. rewrite free_states. by destruct (decide (id ∈ free)).
  - constructor.
  - intros id. rewrite free_states. split; [set_solver |]. by destruct (decide (id ∈ free)).
  - intros id. rewrite free_states. split; [set_solver |]. by destruct (decide (id ∈ free)).
Qed.

Definition config_ok (config : ChannelConfig) : Prop :=
  0 < query_timeout config ≤ id_reuse_guard config ∧ 0 < transaction_id_capacity config ≤ kTransactionIdSpace.

(** The channel after a successful first [start]. *)
Definition started_world (config : ChannelConfig) (fd seed thread : Z) (rt : RT) : World RT :=
  let c := initialize_id_pool shuffle config seed (new_channel config) in
  set_chan (mkChannel (slots_ c) (id_states_ c) (free_ids_ c) (retired_ids_ c) (random_engine_ c) config
              (stats_ c) 0 (mkLifecycle true true (Some thread) fd true true true)) (new_world config rt).

Lemma start_fresh fd config input seed now thread rt :
  config_ok config → 0 ≤ fd → rt_bound rt = true → discard_socket_input input = true →
  ∃ w, w = started_world config fd seed thread rt ∧ start engine_next shuffle fd true config input seed now thread (new_world config rt) = (true, w) ∧ chan_ok w ∧
       running_ (life_ (chan w)) = true ∧ on_owner_thread thread (chan w) = true ∧ config_ (chan w) = config ∧
       awaiters w = ∅ ∧ slots_ (chan w) = ∅.
Proof using shuffle_permutes.
  intros [Ht Hcap] Hfd Hb Hin. unfold start. cbn [chan new_world new_channel life_ running_ pending_count_ has_started_ runtime].
  rewrite Hb, Hin. rewrite (proj2 (Z.ltb_ge fd 0)), (proj2 (Z.leb_gt (query_timeout config) 0)),
    (proj2 (Z.ltb_ge (id_reuse_guard config) _)), (proj2 (Z.eqb_neq (transaction_id_capacity config) 0)),
    (proj2 (Z.ltb_ge kTransactionIdSpace _)) by lia. cbn [Z.eqb negb orb andb].
  set (c0 := mkChannel _ _ _ _ _ _ _ _ _). change c0 with (new_channel config). clear c0. set (c0 := new_channel config).
  destruct (initialize_pool config seed c0 Hcap eq_refl) as [Hp Hret].
  assert (slots_ (initialize_id_pool shuffle config seed c0) = ∅ ∧ pending_count_ (initialize_id_pool shuffle config seed c0) = 0 ∧
    config_ (initialize_id_pool shuffle config seed c0) = config) as (Hsl & Hpc & Hcfg).
  { unfold initialize_id_pool. destruct (if randomize_transaction_ids config then _ else _) as [free e]. done. }
  set (c1 := initialize_id_pool shuffle config seed c0) in *.
  pose proof (validate_idle c1 Hp Hsl Hpc) as Hval. rewrite Hret, Hcfg in Hval. rewrite Hval by done. cbn [negb].
  eexists. split; [reflexivity |]. split; [done |].
  split_and!; try done; [| cbn; by apply bool_decide_eq_true].
  unfold started_world. fold c0. fold c1.
  split; cbn [chan set_chan slots_ config_ awaiters pending_count_ life_ scheduler_ timers_ new_world]; rewrite ?Hsl.
  - rewrite dom_empty_L. destruct Hp as [H1 H2 H3 H4 H5 H6 H7]. unfold id_state, retired_set in *.
    split; cbn [id_states_ free_ids_ retired_ids_ config_]; rewrite ?Hcfg in *; done.
  - lia.
  - intros id q. rewrite lookup_empty. split; [done |]. intros (a & Ha & _). by rewrite lookup_empty in Ha.
  - intros q a Ha. by rewrite lookup_empty in Ha.
  - by rewrite map_size_empty.
  - done.
Qed.
End start.

(** ** Properties *)
Section properties.
Context {RT : Type} `{Runtime RT}.
Context (engine_next : Z → Z * Z) (shuffle : Z → list Z → list Z * Z).



(** Quarantine.  The ID of a completed query is not given to another query before
    its reuse time: after any run of operations that all happen before then, a second
    datagram with the same ID (a duplicate, a late or a forged answer) is [Unmatched]
    and changes no query. *)
Theorem duplicate_unmatched packet now thread (w w1 w2 : World RT) ops packet' id now' thread' :
  chan_ok w → handle_datagram engine_next packet false now thread w = Val (Completed, w1) →
  is_transaction_id packet id → is_transaction_id packet' id →
  runs engine_next w1 ops w2 → Forall (λ op, op_time op < guarded_reuse_time (chan w) now) ops →
  running_ (life_ (chan w2)) = true → on_owner_thread thread' (chan w2) = true →
  (length packet' ≤ kUpstreamReceiveBufferSize)%nat →
  ∃ w3, handle_datagram engine_next packet' false now' thread' w2 = Val (Unmatched, w3) ∧ awaiters w3 = awaiters w2.
Proof.
  intros Hok Hd Hid Hid' Hruns Htimes Hrun Hown Hlen.
  destruct (handle_datagram_spec engine_next packet false now thread w Hok) as (r & w1' & Heq & Hh).
  rewrite Hd in Heq. injection Heq as <- <-.
  destruct Hh as (Hok1 & _ & _ & _ & _ & i & q & a & Hacc & _ & _ & Hret).
  assert (i = id) as ->.
  { destruct Hacc as ((b0 & b1 & rest & -> & ->) & _), Hid as (c0 & c1 & rest' & Heq & ->). congruence. }
  destruct (runs_spec engine_next w1 ops w2 Hok1 Hruns) as [Hok2 Hkeep].
  pose proof (retired_no_slot w2 _ Hok2 (Hkeep _ Hret Htimes)) as Hnone. cbn [retired_id] in Hnone.
  destruct Hid' as (b0 & b1 & rest & -> & Hidv).
  unfold handle_datagram. rewrite Hrun, Hown, (proj2 (Nat.ltb_ge _ _)) by done. cbn [negb orb].
  destruct (transaction_id_spec (E := Empty_set) (b0 :: b1 :: rest)) as (c0 & c1 & rest' & Heq & ->); [simpl; lia |].
  injection Heq as <- <- <-. cbn [mbind outcome_bind option_bind]. rewrite <- Hidv, Hnone.
  destruct (in_capacity (chan w2) id); (eexists; split; [done |]; done).
Qed.

(** [fail_all] (and [cancel_all]) completes everything in flight: afterwards no
    slot is taken, [pending_count_] is zero and no awaiter that owns the channel is
    pending. *)
Theorem fail_all_completes out err now thread (w : World RT) :
  chan_ok w → running_ (life_ (chan w)) = true → on_owner_thread thread (chan w) = true →
  out = Cancelled ∨ out = SocketError →
  ∃ n w', fail_all engine_next out err now thread w = Val (n, w') ∧ slots_ (chan w') = ∅ ∧ pending_count_ (chan w') = 0 ∧
    ∀ q a, awaiters w' !! q = Some a → owner_ a = true → state_ a ≠ Pending.
Proof.
  intros Hok Hrun Hown Hout. unfold fail_all. rewrite Hrun, Hown.
  replace (match out with Cancelled | SocketError => true | _ => false end) with true by (by destruct Hout as [-> | ->]).
  cbn [negb orb].
  destruct (fail_loop_spec engine_next (seqZ 0 (transaction_id_capacity (config_ (chan w)))) out err now 0 w Hok)
    as (n & w' & -> & Hok' & Hcfg & _ & Hnone & _).
  assert (slots_ (chan w') = ∅) as Hempty.
  { apply map_empty. intros id. destruct (slots_ (chan w') !! id) as [q |] eqn:Hs; [| done].
    assert (id ∈ dom (slots_ (chan w'))) as Hd by (by apply elem_of_dom_2 in Hs).
    apply (po_pending _ _ (co_pool _ Hok')) in Hd.
    assert (0 ≤ id < transaction_id_capacity (config_ (chan w'))) as Hr
      by (apply (po_range _ _ (co_pool _ Hok')); congruence).
    rewrite Hnone in Hs; [done |]. rewrite elem_of_seqZ, <- Hcfg. lia. }
  exists n, w'. split_and!; try done.
  - by rewrite (co_count _ Hok'), Hempty, map_size_empty.
  - intros q a Ha Hownq Hst. pose proof (co_pending _ Hok' q a Ha Hst Hownq) as Htask.
    assert (slots_ (chan w') !! transaction_id_ a = Some q) as Hs.
    { apply (co_slot _ Hok'). exists a. split; [done |]. by split_and!. }
    by rewrite Hempty, lookup_empty in Hs.
Qed.
End properties.

(** ** An ideal runtime and a sample run *)
Definition ideal_rt : Type := gset nat * list nat.

#[local, refine] Instance ideal_runtime : Runtime ideal_rt := {|
  rt_bound _ := true;
  rt_arm rt q _ := (Armed, ({[q]} ∪ rt.1, rt.2));
  rt_disarm rt q := (bool_decide (q ∈ rt.1), (rt.1 ∖ {[q]}, rt.2));
  rt_schedule rt t := (true, (rt.1, rt.2 ++ [t]));
  rt_armed rt q := bool_decide (q ∈ rt.1);
|}.
Proof.
  - intros rt q d p. cbn [fst]. rewrite <- bool_decide_or. apply bool_decide_ext. set_solver.
  - intros rt q. split; [done |]. intros p. cbn [fst]. rewrite <- bool_decide_not, <- bool_decide_and.
    apply bool_decide_ext. set_solver.
  - done.
Defined.

Definition rt0 : ideal_rt := (∅, []).

Lemma rt0_bound : rt_bound rt0 = true.
Proof. reflexivity. Qed.

Definition toy_engine (s : Z) : Z * Z := (s * 7 + 3, s + 1).
Definition toy_shuffle (s : Z) (l : list Z) : list Z * Z := (rev l, s).

Lemma toy_shuffle_permutes s l : (toy_shuffle s l).1 ≡ₚ l.
Proof. symmetry. apply Permutation_rev. Qed.

Definition sample_config : ChannelConfig := mkChannelConfig 2000 4000 4 0 true.

Lemma sample_config_ok : config_ok sample_config.
Proof. unfold config_ok, kTransactionIdSpace. simpl. lia. Qed.


(** A query for [a], type A, answered by its echo with the QR bit set. *)
Definition sample_name : DomainName := mkDomainName [[x61]] 3 [x01; x61; x00].
Definition sample_question : Question := mkQuestion sample_name 1 1.
Definition sample_header : Header := mkHeader 0x1234 false 0 false false true false false false false 0.
Definition sample_reply (b1 : byte) : list byte :=
  [x00; b1; x81; x80; x00; x01; x00; x00; x00; x00; x00; x00; x01; x61; x00; x00; x01; x00; x01].

Definition world0 : World ideal_rt := started_world toy_shuffle sample_config 3 0 1 rt0.

Definition step (w : World ideal_rt) (op : ChanOp) : World ideal_rt :=
  match run_op toy_engine w op with Val w' => w' | _ => w end.

Definition world1 : World ideal_rt :=
  step (step world0 (OpQuery 7 sample_header sample_question 100))
    (OpSuspend 7 1 true false true (λ wire, (Z.of_nat (length wire), 0)) 100 100 1).

Lemma step_ok w op : chan_ok w → op_ok w op → chan_ok (step w op).
Proof.
  intros Hok Hop. destruct (run_op_spec toy_engine w op Hok Hop) as (w' & Hrun & Hok' & _).
  unfold step. by rewrite Hrun.
Qed.

Lemma world0_ok : chan_ok world0.
Proof.
  destruct (start_fresh toy_engine toy_shuffle toy_shuffle_permutes 3 sample_config [] 0 0 1 rt0
              sample_config_ok ltac:(lia) rt0_bound eq_refl) as (w0 & -> & _ & Hok & _). exact Hok.
Qed.

Lemma world1_ok : chan_ok world1.
Proof.
  apply step_ok; [apply step_ok; [apply world0_ok | vm_compute; reflexivity] |].
  exists (query (chan world0) sample_header sample_question 100). split; [vm_compute; reflexivity | discriminate].
Qed.

Definition completed_world (o : outcome Empty_set (PacketResult * World ideal_rt)) (w : World ideal_rt) : World ideal_rt :=
  match o with Val (_, w') => w' | _ => w end.

Definition world2 : World ideal_rt :=
  completed_world (handle_datagram toy_engine (sample_reply x00) false 200 1 world1) world1.

Lemma completed_intro o w :
  match o with Val (Completed, _) => true | _ => false end = true → o = Val (Completed, completed_world o w).
Proof. by destruct o as [[[] ?] | |]. Qed.

Lemma world2_reply : handle_datagram toy_engine (sample_reply x00) false 200 1 world1 = Val (Completed, world2).
Proof. apply completed_intro. vm_compute. reflexivity. Qed.


Lemma duplicate_unmatched_witness :
  ∃ w3, handle_datagram toy_engine (sample_reply x00) false 300 1 world2 = Val (Unmatched, w3) ∧ awaiters w3 = awaiters world2.
Proof.
  apply (duplicate_unmatched toy_engine (sample_reply x00) 200 1 world1 world2 world2 [] (sample_reply x00) 0 300 1).
  - exact world1_ok.
  - exact world2_reply.
  - by exists x00, x00, (drop 2 (sample_reply x00)).
  - by exists x00, x00, (drop 2 (sample_reply x00)).
  - constructor.
  - constructor.
  - vm_compute. reflexivity.
  - vm_compute. reflexivity.
  - vm_compute. lia.
Defined.

Lemma fail_all_completes_witness :
  ∃ n w', fail_all toy_engine SocketError 104 200 1 world1 = Val (n, w') ∧ slots_ (chan w') = ∅ ∧ pending_count_ (chan w') = 0 ∧
    ∀ q a, awaiters w' !! q = Some a → owner_ a = true → state_ a ≠ Pending.
Proof.
  apply (fail_all_completes toy_engine SocketError 104 200 1 world1).
  - exact world1_ok.
  - vm_compute. reflexivity.
  - vm_compute. reflexivity.
  - right. reflexivity.
Defined.
