(* ===== verification/TimerQueue.v ===== *)
(** * The timer queue (runtime/TimerQueue.h, runtime/TimerQueue.cpp)

    Module [Timers]: a binary heap of borrowed registrations, each of which carries its
    own position in the heap.  Registrations live in a [Store] keyed by address; a
    registration that was destroyed is absent, and dereferencing it is undefined.  The
    index [not_in_heap] (SIZE_MAX) is [None].  The completion callbacks act on an
    environment of their own: they enqueue work and do not touch the queue. *)
From S2P Require Import Prelude.

(** ** Binary heaps of keys

    The heap argument on its own: positions are numbers, [f i] is the key at position [i],
    keys are compared lexicographically. *)
Module HeapOrder.

Definition klt (a b : Z * Z) : Prop := a.1 < b.1 ∨ (a.1 = b.1 ∧ a.2 < b.2).
Definition kle (a b : Z * Z) : Prop := ¬ klt b a.

Definition parent (i : nat) : nat := ((i - 1) / 2)%nat.

Lemma parent_child j i : (0 < j)%nat → parent j = i ↔ j = (2 * i + 1)%nat ∨ j = (2 * i + 2)%nat.
Proof.
  intros Hj. unfold parent.
  pose proof (Nat.div_mod_eq (j - 1) 2). pose proof (Nat.mod_upper_bound (j - 1) 2). lia.
Qed.

Lemma parent_lt j : (0 < j)%nat → (parent j < j)%nat.
Proof. intros Hj. pose proof (proj1 (parent_child j _ Hj) eq_refl). lia. Qed.

Lemma kle_refl a : kle a a.
Proof. unfold kle, klt. lia. Qed.

Lemma kle_trans a b c : kle a b → kle b c → kle a c.
Proof. unfold kle, klt. lia. Qed.

Lemma klt_kle a b : klt a b → kle a b.
Proof. unfold kle, klt. lia. Qed.

Lemma klt_trans a b c : klt a b → klt b c → klt a c.
Proof. unfold klt. lia. Qed.

Lemma klt_irrefl a : ¬ klt a a.
Proof. unfold klt. lia. Qed.

Lemma kle_eq_or_lt a b : kle a b → a = b ∨ klt a b.
Proof.
  destruct a as [x y], b as [z t]. unfold kle, klt. simpl. intros Hle.
  destruct (decide ((x, y) = (z, t))) as [E | Hne]; [by left |]. right.
  destruct (decide (x = z)) as [-> | Hx]; [| lia].
  destruct (decide (y = t)) as [-> | Hy]; [done | lia].
Qed.

#[export] Instance klt_dec a b : Decision (klt a b).
Proof. unfold klt. apply _. Defined.

Definition fswap {A} (f : nat → A) (i j : nat) : nat → A :=
  λ x, if decide (x = i) then f j else if decide (x = j) then f i else f x.

(** Every node but the root is no earlier than its parent. *)
Definition ordered (n : nat) (f : nat → Z * Z) : Prop :=
  ∀ j, (0 < j < n)%nat → kle (f (parent j)) (f j).

(** The children of [i] respect the parent of [i]. *)
Definition bridged (n : nat) (f : nat → Z * Z) (i : nat) : Prop :=
  ∀ j, (0 < j < n)%nat → parent j = i → (0 < i)%nat → kle (f (parent i)) (f j).

(** Order except between [i] and its parent, and except between [i] and its children. *)
Definition up_inv (n : nat) (f : nat → Z * Z) (i : nat) : Prop :=
  (∀ j, (0 < j < n)%nat → j ≠ i → kle (f (parent j)) (f j)) ∧ bridged n f i.
Definition down_inv (n : nat) (f : nat → Z * Z) (i : nat) : Prop :=
  (∀ j, (0 < j < n)%nat → parent j ≠ i → kle (f (parent j)) (f j)) ∧ bridged n f i.

Lemma up_step n f i :
  up_inv n f i → (0 < i < n)%nat → klt (f i) (f (parent i)) →
  up_inv n (fswap f i (parent i)) (parent i).
Proof.
  intros [Hord Hbr] Hi Hlt. pose proof (parent_lt i (proj1 Hi)) as Hp.
  split; intros j Hj.
  - intros Hne. unfold fswap. pose proof (parent_lt j (proj1 Hj)).
    destruct (decide (parent j = i)) as [E | E].
    + rewrite !(decide_False (P := j = _)) by lia. apply Hbr; lia.
    + destruct (decide (parent j = parent i)) as [E2 | E2].
      * destruct (decide (j = i)) as [-> | Hji]; [by apply klt_kle |].
        rewrite decide_False by lia. eapply kle_trans; [by apply klt_kle |].
        rewrite <- E2. by apply Hord.
      * destruct (decide (j = i)) as [-> |]; [done |]. rewrite decide_False by done.
        by apply Hord.
  - intros E H0. pose proof (parent_lt (parent i) H0). unfold fswap.
    rewrite !(decide_False (P := parent (parent i) = _)) by lia.
    assert (kle (f (parent (parent i))) (f (parent i))) as Hpp by (apply Hord; lia).
    destruct (decide (j = i)) as [-> |]; [done |].
    rewrite decide_False by (pose proof (parent_lt j (proj1 Hj)); lia).
    eapply kle_trans; [done |]. rewrite <- E. by apply Hord.
Qed.

Lemma up_done n f i :
  up_inv n f i → (i = 0%nat ∨ ¬ klt (f i) (f (parent i))) → ordered n f.
Proof.
  intros [Hord _] Hend j Hj. destruct (decide (j = i)) as [-> | Hne]; [| by apply Hord].
  destruct Hend as [-> | Hn]; [lia | exact Hn].
Qed.

Lemma down_step n f i c :
  down_inv n f i → (0 < c < n)%nat → parent c = i →
  (∀ j, (0 < j < n)%nat → parent j = i → kle (f c) (f j)) → klt (f c) (f i) →
  down_inv n (fswap f i c) c.
Proof.
  intros [Hord Hbr] Hc Hpc Hmin Hlt. pose proof (parent_lt c (proj1 Hc)) as Hp.
  split; intros j Hj.
  - intros Hne. unfold fswap. rewrite (decide_False (P := parent j = c)) by done.
    destruct (decide (parent j = i)) as [E | E].
    + destruct (decide (j = i)) as [-> |]; [pose proof (parent_lt i (proj1 Hj)); lia |].
      destruct (decide (j = c)) as [-> |]; [by apply klt_kle | by apply Hmin].
    + destruct (decide (j = i)) as [-> |].
      * apply Hbr; lia.
      * rewrite decide_False by congruence. by apply Hord.
  - intros E _. unfold fswap. rewrite decide_True by done.
    pose proof (parent_lt j (proj1 Hj)). rewrite !decide_False by lia.
    rewrite <- E. apply Hord; [done | lia].
Qed.

Lemma down_done n f i :
  down_inv n f i → (∀ j, (0 < j < n)%nat → parent j = i → kle (f i) (f j)) → ordered n f.
Proof.
  intros [Hord _] Hend j Hj. destruct (decide (parent j = i)) as [E | Hne]; [| by apply Hord].
  rewrite E. by apply Hend.
Qed.

Lemma root_earliest n f i : ordered n f → (i < n)%nat → kle (f 0%nat) (f i).
Proof.
  intros Hord. induction (lt_wf i) as [i _ IH]. intros Hi.
  destruct i as [| i]; [apply kle_refl |].
  pose proof (parent_lt (S i) ltac:(lia)). eapply kle_trans; [apply (IH (parent (S i))); lia |].
  apply Hord. lia.
Qed.

(** Replacing one key of an ordered heap leaves one place to repair. *)
Lemma replace_up n f i k :
  ordered n f → (0 < i < n)%nat → klt k (f (parent i)) →
  up_inv n (λ x, if decide (x = i) then k else f x) i.
Proof.
  intros Hord Hi Hlt. pose proof (Hord i Hi) as Hpi. split; intros j Hj.
  - intros Hne. rewrite (decide_False (P := j = i)) by done. destruct (decide (parent j = i)) as [E |].
    + eapply kle_trans; [by apply klt_kle |]. eapply kle_trans; [done |]. rewrite <- E. by apply Hord.
    + by apply Hord.
  - intros E _. pose proof (parent_lt i (proj1 Hi)). pose proof (parent_lt j (proj1 Hj)).
    rewrite !decide_False by lia. eapply kle_trans; [done |]. rewrite <- E. by apply Hord.
Qed.

Lemma replace_down n f i k :
  ordered n f → (i = 0%nat ∨ ¬ klt k (f (parent i))) →
  down_inv n (λ x, if decide (x = i) then k else f x) i.
Proof.
  intros Hord Hk. split; intros j Hj.
  - intros Hne. rewrite (decide_False (P := parent j = i)) by done. destruct (decide (j = i)) as [-> |].
    + destruct Hk as [-> | Hk]; [lia | exact Hk].
    + by apply Hord.
  - intros E H0. pose proof (parent_lt i H0). pose proof (parent_lt j (proj1 Hj)).
    rewrite !decide_False by lia.
    eapply kle_trans; [apply Hord | rewrite <- E; apply Hord]; lia.
Qed.

Lemma ordered_shrink n m f : ordered n f → (m ≤ n)%nat → ordered m f.
Proof. intros Hord Hle j Hj. apply Hord. lia. Qed.

Lemma ordered_ext n f g : (∀ i, (i < n)%nat → f i = g i) → ordered n f → ordered n g.
Proof.
  intros E Hord j Hj. pose proof (parent_lt j (proj1 Hj)). rewrite <- !E by lia. by apply Hord.
Qed.

Lemma up_inv_ext n f g i : (∀ x, (x < n)%nat → f x = g x) → up_inv n f i → up_inv n g i.
Proof.
  intros E [Hord Hbr]. split; intros j Hj; pose proof (parent_lt j (proj1 Hj)).
  - rewrite <- !E by lia. by apply Hord.
  - intros Ej Hi. pose proof (parent_lt i Hi). rewrite <- !E by lia. by apply Hbr.
Qed.

Lemma down_inv_ext n f g i : (∀ x, (x < n)%nat → f x = g x) → down_inv n f i → down_inv n g i.
Proof.
  intros E [Hord Hbr]. split; intros j Hj; pose proof (parent_lt j (proj1 Hj)).
  - rewrite <- !E by lia. by apply Hord.
  - intros Ej Hi. pose proof (parent_lt i Hi). rewrite <- !E by lia. by apply Hbr.
Qed.

End HeapOrder.

Module Timers.
Import HeapOrder.

(** ** Data *)
Inductive TimerCompletion := Expired | Cancelled.
#[export] Instance TimerCompletion_eq_dec : EqDecision TimerCompletion.
Proof. solve_decision. Defined.

(** Queues, callbacks and contexts are named by their addresses. *)
Record TimerRegistration := mkReg {
  owner_ : option nat;
  deadline_ : Z;
  sequence_ : Z;
  heap_index_ : option nat;
  completion_ : option nat;
  context_ : option nat;
}.

Definition fresh_registration : TimerRegistration := mkReg None 0 0 None None None.

Definition armed (r : TimerRegistration) : bool := bool_decide (owner_ r ≠ None).

Inductive ArmResult := Armed | NotRunning | Closed | WrongThread | AlreadyArmed | InvalidCallback.
#[export] Instance ArmResult_eq_dec : EqDecision ArmResult.
Proof. solve_decision. Defined.

Record DispatchResult := mkDispatch {
  dispatched : Z;
  schedule_failures : Z;
  has_due : bool;
}.

Record TimerQueue := mkQueue {
  heap_ : list nat;
  scheduler_ : option nat;
  owner_thread_ : option nat;
  next_sequence_ : Z;
  invariant_failures_ : Z;
  running_ : bool;
  accepting_ : bool;
}.

Definition TimerQueue_init : TimerQueue := mkQueue [] None None 0 0 false false.

Notation Store := (gmap nat TimerRegistration).

(** [std::terminate] ends the process. *)
Inductive Terminated := terminate.
Notation result := (outcome Terminated).

Definition with_index (i : option nat) (r : TimerRegistration) : TimerRegistration :=
  mkReg (owner_ r) (deadline_ r) (sequence_ r) i (completion_ r) (context_ r).
Definition with_owner (o : option nat) (r : TimerRegistration) : TimerRegistration :=
  mkReg o (deadline_ r) (sequence_ r) (heap_index_ r) (completion_ r) (context_ r).
Definition without_callback (r : TimerRegistration) : TimerRegistration :=
  mkReg (owner_ r) (deadline_ r) (sequence_ r) (heap_index_ r) None None.

Definition with_heap (h : list nat) (q : TimerQueue) : TimerQueue :=
  mkQueue h (scheduler_ q) (owner_thread_ q) (next_sequence_ q) (invariant_failures_ q)
    (running_ q) (accepting_ q).
Definition with_accepting (b : bool) (q : TimerQueue) : TimerQueue :=
  mkQueue (heap_ q) (scheduler_ q) (owner_thread_ q) (next_sequence_ q) (invariant_failures_ q)
    (running_ q) b.
Definition invariant_failure (q : TimerQueue) : TimerQueue :=
  mkQueue (heap_ q) (scheduler_ q) (owner_thread_ q) (next_sequence_ q)
    (wrap64 (invariant_failures_ q + 1)) (running_ q) (accepting_ q).

(** ** The heap

    The heap operations act on the vector and on the registrations it points to. *)
Definition deref (st : Store) (id : nat) : result TimerRegistration := from_option_ub (st !! id).
Definition at_index (h : list nat) (i : nat) : result nat := from_option_ub (h !! i).
Definition update (id : nat) (f : TimerRegistration → TimerRegistration) (st : Store) : result Store :=
  r ← deref st id; Val (<[id := f r]> st).

Definition earlier (left right : TimerRegistration) : bool :=
  if negb (deadline_ left =? deadline_ right) then deadline_ left <? deadline_ right
  else sequence_ left <? sequence_ right.

Definition earlier_at (h : list nat) (st : Store) (i j : nat) : result bool :=
  a ← at_index h i; b ← at_index h j;
  ra ← deref st a; rb ← deref st b;
  Val (earlier ra rb).

Definition swap_nodes (left right : nat) (hs : list nat * Store) : result (list nat * Store) :=
  let '(h, st) := hs in
  a ← at_index h left; b ← at_index h right;
  let h' := <[right := a]> (<[left := b]> h) in
  st1 ← update b (with_index (Some left)) st;
  st2 ← update a (with_index (Some right)) st1;
  Val (h', st2).

Fixpoint sift_up (fuel index : nat) (hs : list nat * Store) : result (list nat * Store) :=
  match fuel with
  | O => Undef
  | S fuel =>
      if (index =? 0)%nat then Val hs else
      let parent := ((index - 1) / 2)%nat in
      e ← earlier_at hs.1 hs.2 index parent;
      if negb e then Val hs else
      hs' ← swap_nodes index parent hs;
      sift_up fuel parent hs'
  end.

Fixpoint sift_down (fuel index : nat) (hs : list nat * Store) : result (list nat * Store) :=
  match fuel with
  | O => Undef
  | S fuel =>
      let left := (index * 2 + 1)%nat in
      if (length hs.1 <=? left)%nat then Val hs else
      let right := (left + 1)%nat in
      earliest ← (if (right <? length hs.1)%nat
                  then e ← earlier_at hs.1 hs.2 right left; Val (if e : bool then right else left)
                  else Val left);
      e ← earlier_at hs.1 hs.2 earliest index;
      if negb e then Val hs else
      hs' ← swap_nodes index earliest hs;
      sift_down fuel earliest hs'
  end.

Definition remove_at (index : nat) (hs : list nat * Store) : result (nat * (list nat * Store)) :=
  let '(h, st) := hs in
  removed ← at_index h index;
  tail ← at_index h (length h - 1);
  let h1 := take (length h - 1) h in
  hs2 ← (if (index <? length h1)%nat
         then
           let h2 := <[index := tail]> h1 in
           st2 ← update tail (with_index (Some index)) st;
           up ← (if (index =? 0)%nat then Val false
                 else earlier_at h2 st2 index ((index - 1) / 2));
           if up : bool then sift_up (S index) index (h2, st2)
           else sift_down (S (length h2)) index (h2, st2)
         else Val (h1, st));
  st3 ← update removed (λ r, with_index None (with_owner None r)) hs2.2;
  Val (removed, (hs2.1, st3)).

(** ** The operations *)
Section queue.

(** The queue's address, and what a completion callback does: its result and its effect on
    the environment. *)
Context (self : nat) {E : Type}
  (invoke : nat → option nat → TimerCompletion → E → bool * E).

Record State := mkState {
  queue : TimerQueue;
  regs : Store;
  env : E;
}.

Definition on_owner_thread (me : nat) (q : TimerQueue) : bool :=
  running_ q && bool_decide (owner_thread_ q = Some me).

Definition heap_store (s : State) : list nat * Store := (heap_ (queue s), regs s).
Definition set_heap_store (hs : list nat * Store) (s : State) : State :=
  mkState (with_heap hs.1 (queue s)) hs.2 (env s).

(** [start]; [owns] is [scheduler.owns_current_thread()]. *)
Definition start (me scheduler : nat) (owns : bool) (s : State) : bool * State :=
  let q := queue s in
  if running_ q || negb (bool_decide (heap_ q = [])) || negb owns then (false, s)
  else (true, mkState (mkQueue (heap_ q) (Some scheduler) (Some me) 0 0 true true) (regs s) (env s)).

Definition close (me : nat) (s : State) : bool * State :=
  let q := queue s in
  if running_ q && negb (on_owner_thread me q) then (false, s)
  else (true, mkState (with_accepting false q) (regs s) (env s)).

Definition stop (me : nat) (s : State) : bool * State :=
  let q := queue s in
  if running_ q && negb (on_owner_thread me q) then (false, s)
  else if negb (bool_decide (heap_ q = [])) then (false, s)
  else (true, mkState (mkQueue (heap_ q) None None (next_sequence_ q) (invariant_failures_ q)
                         false false) (regs s) (env s)).

Definition arm (me id : nat) (deadline : Z) (completion context : option nat) (s : State) :
    result (ArmResult * State) :=
  let q := queue s in
  if negb (running_ q) then Val (NotRunning, s)
  else if negb (on_owner_thread me q) then Val (WrongThread, s)
  else if negb (accepting_ q) then Val (Closed, s)
  else
    r ← deref (regs s) id;
    if bool_decide (owner_ r ≠ None) || bool_decide (heap_index_ r ≠ None)
    then Val (AlreadyArmed, s)
    else if bool_decide (completion = None) then Val (InvalidCallback, s)
    else
      let index := length (heap_ q) in
      let r' := mkReg (Some self) deadline (next_sequence_ q) (Some index) completion context in
      hs ← sift_up (S index) index (heap_ q ++ [id], <[id := r']> (regs s));
      let q' := mkQueue hs.1 (scheduler_ q) (owner_thread_ q) (wrap64 (next_sequence_ q + 1))
                  (invariant_failures_ q) (running_ q) (accepting_ q) in
      Val (Armed, mkState q' hs.2 (env s)).

(** The position a registration claims is the one it has. *)
Definition at_claimed_index (h : list nat) (r : TimerRegistration) (id : nat) : option nat :=
  index ← heap_index_ r; if bool_decide (h !! index = Some id) then Some index else None.

Definition disarm (me id : nat) (s : State) : result (bool * State) :=
  let q := queue s in
  if negb (running_ q) || negb (on_owner_thread me q) then Val (false, s)
  else
    r ← deref (regs s) id;
    if negb (bool_decide (owner_ r = Some self)) then Val (false, s)
    else
      match at_claimed_index (heap_ q) r id with
      | None => Val (false, mkState (invariant_failure q) (regs s) (env s))
      | Some index =>
          '(_, hs) ← remove_at index (heap_store s);
          st ← update id without_callback hs.2;
          Val (true, set_heap_store (hs.1, st) s)
      end.

Definition complete_front (completion : TimerCompletion) (rs : DispatchResult * State) :
    result (DispatchResult * State) :=
  let '(res, s) := rs in
  '(id, hs) ← remove_at 0 (heap_store s);
  r ← deref hs.2 id;
  st ← update id without_callback hs.2;
  let s1 := set_heap_store (hs.1, st) s in
  let res1 := mkDispatch (dispatched res + 1) (schedule_failures res) (has_due res) in
  let '(ok, env') := match completion_ r with
                     | None => (false, env s1)
                     | Some callback => invoke callback (context_ r) completion (env s1)
                     end in
  if ok : bool then Val (res1, mkState (queue s1) (regs s1) env')
  else Val (mkDispatch (dispatched res1) (schedule_failures res1 + 1) (has_due res1),
            mkState (invariant_failure (queue s1)) (regs s1) env').

Definition front_due (now : Z) (s : State) : result bool :=
  match heap_ (queue s) with
  | [] => Val false
  | id :: _ => r ← deref (regs s) id; Val (deadline_ r <=? now)
  end.

Fixpoint expire_loop (fuel : nat) (now budget : Z) (rs : DispatchResult * State) :
    result (DispatchResult * State) :=
  match fuel with
  | O => Undef
  | S fuel =>
      due ← (if dispatched rs.1 <? budget then front_due now rs.2 else Val false);
      if due : bool
      then rs' ← complete_front Expired rs; expire_loop fuel now budget rs'
      else Val rs
  end.

Definition expire (me : nat) (now budget : Z) (s : State) : result (DispatchResult * State) :=
  let q := queue s in
  if negb (running_ q) || negb (on_owner_thread me q) then Val (mkDispatch 0 0 false, s)
  else
    '(res, s') ← expire_loop (S (length (heap_ q))) now budget (mkDispatch 0 0 false, s);
    due ← front_due now s';
    Val (mkDispatch (dispatched res) (schedule_failures res) due, s').

Fixpoint cancel_loop (fuel : nat) (rs : DispatchResult * State) : result (DispatchResult * State) :=
  match fuel with
  | O => Undef
  | S fuel =>
      if bool_decide (heap_ (queue rs.2) = []) then Val rs
      else rs' ← complete_front Cancelled rs; cancel_loop fuel rs'
  end.

Definition cancel_all (me : nat) (s : State) : result (DispatchResult * State) :=
  let q := queue s in
  if negb (running_ q) || negb (on_owner_thread me q) then Val (mkDispatch 0 0 false, s)
  else cancel_loop (S (length (heap_ q))) (mkDispatch 0 0 false, s).

(** [std::find] over the heap. *)
Fixpoint find_index (id : nat) (h : list nat) : option nat :=
  match h with
  | [] => None
  | x :: h => if decide (x = id) then Some O else S <$> find_index id h
  end.

Definition abandon (me id : nat) (s : State) : result State :=
  let q := queue s in
  r ← deref (regs s) id;
  if negb (bool_decide (owner_ r = Some self)) then Val s
  else if running_ q && negb (on_owner_thread me q) then Err terminate
  else
    let remove index s :=
      '(_, hs) ← remove_at index (heap_store s);
      st ← update id without_callback hs.2;
      Val (set_heap_store (hs.1, st) s) in
    match at_claimed_index (heap_ q) r id with
    | Some index => remove index s
    | None =>
        let s' := mkState (invariant_failure q) (regs s) (env s) in
        match find_index id (heap_ q) with
        | None =>
            Val (mkState (invariant_failure q)
                   (<[id := mkReg None (deadline_ r) (sequence_ r) None None None]> (regs s)) (env s))
        | Some index => remove index s'
        end
    end.

(** Construction and destruction of a registration.  Another queue's registration is
    abandoned by that queue. *)
Definition construct_registration (id : nat) (s : State) : State :=
  mkState (queue s) (<[id := fresh_registration]> (regs s)) (env s).

Definition destroy_registration (me id : nat) (s : State) : result State :=
  r ← deref (regs s) id;
  s' ← (if bool_decide (owner_ r = Some self) then abandon me id s else Val s);
  Val (mkState (queue s') (delete id (regs s')) (env s')).

(** [~TimerQueue]. *)
Fixpoint destroy_loop (fuel : nat) (hs : list nat * Store) : result (list nat * Store) :=
  match fuel with
  | O => Undef
  | S fuel =>
      if bool_decide (hs.1 = []) then Val hs
      else
        '(id, hs') ← remove_at 0 hs;
        st ← update id without_callback hs'.2;
        destroy_loop fuel (hs'.1, st)
  end.

Definition destroy_queue (s : State) : result Store :=
  hs ← destroy_loop (S (length (heap_ (queue s)))) (heap_store s); Val hs.2.

Definition next_deadline (s : State) : result (option Z) :=
  match heap_ (queue s) with
  | [] => Val None
  | id :: _ => r ← deref (regs s) id; Val (Some (deadline_ r))
  end.

Definition is_bound_to (scheduler : nat) (s : State) : bool :=
  running_ (queue s) && bool_decide (scheduler_ (queue s) = Some scheduler).

(** ** Waiting

    Times and durations are signed 64-bit nanosecond counts; an overflow is undefined. *)
Definition int64_min : Z := - 2 ^ 63.
Definition int64_max : Z := 2 ^ 63 - 1.
Definition int64 (z : Z) : Prop := int64_min ≤ z ≤ int64_max.
Definition INT_MAX : Z := 2 ^ 31 - 1.
Definition nanoseconds_per_millisecond : Z := 1000000.

Definition signed64 (z : Z) : result Z :=
  if (int64_min <=? z) && (z <=? int64_max) then Val z else Undef.

(** [std::chrono::ceil<milliseconds>]: truncate, then round up what was cut off. *)
Definition ceil_milliseconds (d : Z) : Z :=
  let t := Z.quot d nanoseconds_per_millisecond in
  if t * nanoseconds_per_millisecond <? d then t + 1 else t.

Definition maximum_wait : Z := INT_MAX * nanoseconds_per_millisecond.

Definition wait_timeout (now : Z) (s : State) : result Z :=
  match heap_ (queue s) with
  | [] => Val (-1)
  | id :: _ =>
      r ← deref (regs s) id;
      let deadline := deadline_ r in
      if deadline <=? now then Val 0
      else if (now <? 0) && (0 <=? deadline) &&
              ((maximum_wait <=? deadline) || (now <=? - maximum_wait)) then Val INT_MAX
      else
        wait_duration ← signed64 (deadline - now);
        if maximum_wait <=? wait_duration then Val INT_MAX
        else
          let wait := ceil_milliseconds wait_duration in
          if INT_MAX <=? wait then Val INT_MAX else Val wait
  end.

(** The deadline [sleep_for] computes from the current time. *)
Definition sleep_for_deadline (now delay : Z) : result Z :=
  if delay <=? 0 then Val now
  else
    room ← (if 0 <? now then signed64 (int64_max - now) else Val int64_max);
    if (0 <? now) && (room <? delay) then Val int64_max
    else signed64 (now + delay).

(** ** Sleeping

    The awaiter of [sleep_until]: its registration lives at the address [registration_], and
    the queue calls [complete] with the awaiter as the context. *)
Inductive SleepState := SleepIdle | SleepPending | SleepExpired | SleepCancelled | SleepFailed.
Inductive SleepError :=
  | NotBoundToScheduler | OtherScheduler | QueueNotRunning | NonOwnerThread | ArmedTwice
  | CallbackInvalid.

Record SleepAwaiter := mkSleep {
  sleep_deadline_ : Z;
  registration_ : nat;
  task_ : option nat;
  error_ : option SleepError;
  state_ : SleepState;
}.

Definition sleep_until (deadline : Z) (registration : nat) : SleepAwaiter :=
  mkSleep deadline registration None None SleepIdle.

Definition sleep_end (state : SleepState) (error : option SleepError) (a : SleepAwaiter) : SleepAwaiter :=
  mkSleep (sleep_deadline_ a) (registration_ a) None error state.

(** [await_suspend] of the coroutine [task], whose scheduler and stop flag are given;
    [complete] is the callback's address and [this] the awaiter's. *)
Definition sleep_suspend (me task : nat) (scheduler : option nat) (stop_requested : bool)
    (complete this : nat) (a : SleepAwaiter) (s : State) : result (bool * SleepAwaiter * State) :=
  match scheduler with
  | None => Val (false, mkSleep (sleep_deadline_ a) (registration_ a) (task_ a)
                          (Some NotBoundToScheduler) SleepFailed, s)
  | Some sched =>
      if stop_requested then
        Val (false, mkSleep (sleep_deadline_ a) (registration_ a) (task_ a) (error_ a)
                      SleepCancelled, s)
      else if negb (is_bound_to sched s) then
        Val (false, mkSleep (sleep_deadline_ a) (registration_ a) (task_ a)
                      (Some OtherScheduler) SleepFailed, s)
      else
        '(r, s') ← arm me (registration_ a) (sleep_deadline_ a) (Some complete) (Some this) s;
        match r with
        | Armed => Val (true, mkSleep (sleep_deadline_ a) (registration_ a) (Some task) (error_ a)
                                SleepPending, s')
        | Closed => Val (false, sleep_end SleepCancelled (error_ a) a, s')
        | NotRunning => Val (false, sleep_end SleepFailed (Some QueueNotRunning) a, s')
        | WrongThread => Val (false, sleep_end SleepFailed (Some NonOwnerThread) a, s')
        | AlreadyArmed => Val (false, sleep_end SleepFailed (Some ArmedTwice) a, s')
        | InvalidCallback => Val (false, sleep_end SleepFailed (Some CallbackInvalid) a, s')
        end
  end.

(** [complete]; [schedule] is the scheduler of the task, if it has one. *)
Definition sleep_complete (schedule : nat → E → option (bool * E)) (completion : TimerCompletion)
    (a : SleepAwaiter) (e : E) : bool * SleepAwaiter * E :=
  let a' := sleep_end (match completion with Expired => SleepExpired | Cancelled => SleepCancelled end)
              (error_ a) a in
  match task_ a with
  | None => (false, a', e)
  | Some task =>
      match schedule task e with
      | None => (false, a', e)
      | Some (ok, e') => (ok, a', e')
      end
  end.

Inductive SleepOutcome :=
  | SleepReturns
  | ThrowsOperationCancelled
  | ThrowsLogicError (e : option SleepError)
  | ThrowsNeverArmed
  | ThrowsResumedEarly.

Definition sleep_resume (a : SleepAwaiter) : SleepOutcome :=
  match state_ a with
  | SleepExpired => SleepReturns
  | SleepCancelled => ThrowsOperationCancelled
  | SleepFailed => ThrowsLogicError (error_ a)
  | SleepIdle => ThrowsNeverArmed
  | SleepPending => ThrowsResumedEarly
  end.

End queue.

End Timers.
