(* ===== verification/TimerClaims.v ===== *)
(** * Properties of the timer queue

    The invariant of the indexed heap, the abstract queue it refines (the list of armed
    registrations in the order of deadline and age), and the waiting time. *)
From stdpp Require Import sorting.
From S2P Require Import Prelude TimerQueue.
Import HeapOrder Timers.

Notation Store := (gmap nat TimerRegistration).

(** ** Stores up to heap positions *)
Definition erase (r : TimerRegistration) : TimerRegistration := with_index None r.

Definition store_sim (st st' : Store) : Prop := ∀ id, erase <$> st !! id = erase <$> st' !! id.

#[export] Instance store_sim_equiv : Equivalence store_sim.
Proof.
  split; [by intros st id | by intros st st' H id |].
  intros a b c H1 H2 id. by rewrite H1.
Qed.

(** What the heap compares: deadline, then age. *)
Definition key (st : Store) (id : nat) : Z * Z :=
  match st !! id with Some r => (deadline_ r, sequence_ r) | None => (0, 0) end.

#[export] Instance key_proper : Proper (store_sim ==> eq ==> eq) key.
Proof.
  intros st st' H id _ <-. unfold key. specialize (H id).
  destruct (st !! id), (st' !! id); simpl in H; try done.
  injection H. intros. congruence.
Qed.

Lemma store_sim_lookup st st' id r :
  store_sim st st' → st !! id = Some r → ∃ r', st' !! id = Some r' ∧ erase r = erase r'.
Proof.
  intros H E. specialize (H id). rewrite E in H. destruct (st' !! id) as [r' |]; [| done].
  exists r'. split; [done |]. simpl in H. congruence.
Qed.

Lemma earlier_spec a b :
  earlier a b = bool_decide (klt (deadline_ a, sequence_ a) (deadline_ b, sequence_ b)).
Proof.
  unfold earlier. destruct (Z.eqb_spec (deadline_ a) (deadline_ b)) as [E | E]; simpl.
  - destruct (Z.ltb_spec (sequence_ a) (sequence_ b)); symmetry;
      [apply bool_decide_eq_true | apply bool_decide_eq_false]; unfold klt; simpl; lia.
  - destruct (Z.ltb_spec (deadline_ a) (deadline_ b)); symmetry;
      [apply bool_decide_eq_true | apply bool_decide_eq_false]; unfold klt; simpl; lia.
Qed.

(** ** Indexed heaps *)
Definition indexed (h : list nat) (st : Store) : Prop :=
  ∀ i id, h !! i = Some id → ∃ r, st !! id = Some r ∧ heap_index_ r = Some i.

Lemma indexed_NoDup h st : indexed h st → NoDup h.
Proof.
  intros H. apply NoDup_alt. intros i j id Hi Hj.
  destruct (H i id Hi) as (r & E & Ei), (H j id Hj) as (r' & E' & Ej). congruence.
Qed.

Definition keyf (h : list nat) (st : Store) (i : nat) : Z * Z := key st (h !!! i).

Lemma lookup_lt_total (h : list nat) i : (i < length h)%nat → h !! i = Some (h !!! i).
Proof. intros Hi. by apply list_lookup_lookup_total_lt. Qed.

Lemma earlier_at_ok h st i j :
  indexed h st → (i < length h)%nat → (j < length h)%nat →
  earlier_at h st i j = Val (bool_decide (klt (keyf h st i) (keyf h st j))).
Proof.
  intros Hix Hi Hj. unfold earlier_at, at_index, deref.
  rewrite (lookup_lt_total h i), (lookup_lt_total h j) by done. simpl.
  destruct (Hix i _ (lookup_lt_total h i Hi)) as (ra & Ea & _).
  destruct (Hix j _ (lookup_lt_total h j Hj)) as (rb & Eb & _).
  unfold keyf, key. rewrite Ea, Eb. simpl. by rewrite earlier_spec.
Qed.

(** What a heap operation may do: permute the vector and renumber the registrations in
    it. *)
Record moved (h : list nat) (st : Store) (h' : list nat) (st' : Store) : Prop := {
  moved_perm : h' ≡ₚ h;
  moved_indexed : indexed h' st';
  moved_sim : store_sim st st';
  moved_frame : ∀ id, id ∉ h → st' !! id = st !! id;
}.

Lemma moved_refl h st : indexed h st → moved h st h st.
Proof. by intros H; split. Qed.

Lemma moved_trans h st h1 st1 h2 st2 :
  moved h st h1 st1 → moved h1 st1 h2 st2 → moved h st h2 st2.
Proof.
  intros [P1 I1 S1 F1] [P2 I2 S2 F2]. split; [by rewrite P2 | done | by rewrite S1 |].
  intros id Hid. rewrite F2; [by apply F1 | by rewrite P1].
Qed.

Lemma moved_length h st h' st' : moved h st h' st' → length h' = length h.
Proof. intros H. apply Permutation_length, (moved_perm _ _ _ _ H). Qed.

Lemma swap_nodes_ok h st i j :
  indexed h st → (i < length h)%nat → (j < length h)%nat → i ≠ j →
  ∃ h' st', swap_nodes i j (h, st) = Val (h', st') ∧ moved h st h' st' ∧
    ∀ x, h' !!! x = fswap (λ x, h !!! x) i j x.
Proof.
  intros Hix Hi Hj Hij.
  pose proof (lookup_lt_total h i Hi) as Ei. pose proof (lookup_lt_total h j Hj) as Ej.
  destruct (Hix i _ Ei) as (ra & Ea & Hra). destruct (Hix j _ Ej) as (rb & Eb & Hrb).
  set (a := h !!! i) in *. set (b := h !!! j) in *.
  assert (a ≠ b) as Hab by (intros E; rewrite E in Ea; congruence).
  unfold swap_nodes, at_index, update, deref. rewrite Ei, Ej. simpl. rewrite Eb. simpl.
  rewrite lookup_insert_ne by done. rewrite Ea. simpl.
  eexists _, _. split; [done |].
  assert (∀ x, <[j:=a]> (<[i:=b]> h) !! x =
    if decide (x = i) then Some b else if decide (x = j) then Some a else h !! x) as Hl.
  { intros x. destruct (decide (x = i)) as [-> | Hxi].
    - rewrite list_lookup_insert_ne by done. by apply list_lookup_insert_eq.
    - destruct (decide (x = j)) as [-> | Hxj].
      + apply list_lookup_insert_eq. by rewrite length_insert.
      + by rewrite !list_lookup_insert_ne by done. }
  assert (indexed (<[j:=a]> (<[i:=b]> h))
    (<[a:=with_index (Some j) ra]> (<[b:=with_index (Some i) rb]> st))) as Hix'.
  { intros x id. rewrite Hl. intros Hx.
    destruct (decide (x = i)) as [-> |]; [simplify_eq; rewrite lookup_insert_ne, lookup_insert by done; rewrite ?decide_True by done; eauto |].
    destruct (decide (x = j)) as [-> |]; [simplify_eq; rewrite lookup_insert, decide_True by done; eauto |].
    destruct (Hix x id Hx) as (r & Er & Hr). exists r.
    rewrite !lookup_insert_ne; [done | |]; intros <-; congruence. }
  split.
  - split; [| done | |].
    + apply NoDup_Permutation; [by eapply indexed_NoDup | by eapply indexed_NoDup |].
      intros id. rewrite !list_elem_of_lookup. setoid_rewrite Hl. split.
      * intros (x & Hx). repeat case_decide; simplify_eq; eauto.
      * intros (x & Hx). destruct (decide (x = i)) as [-> |]; [exists j | destruct (decide (x = j)) as [-> |]; [exists i | exists x]]; repeat case_decide; congruence.
    + intros id. rewrite !lookup_insert. repeat case_decide; subst; by rewrite ?Ea, ?Eb.
    + intros id Hid. rewrite !lookup_insert_ne; [done | |]; intros <-; apply Hid;
        eapply list_elem_of_lookup_2; eassumption.
  - intros x. rewrite list_lookup_total_alt, Hl. unfold fswap.
    repeat case_decide; subst; try done. by rewrite list_lookup_total_alt.
Qed.

Lemma swap_nodes_keys h st i j :
  indexed h st → (i < length h)%nat → (j < length h)%nat → i ≠ j →
  ∃ h' st', swap_nodes i j (h, st) = Val (h', st') ∧ moved h st h' st' ∧
    ∀ x, keyf h' st' x = fswap (keyf h st) i j x.
Proof.
  intros Hix Hi Hj Hij. destruct (swap_nodes_ok h st i j Hix Hi Hj Hij) as (h' & st' & E & Hm & Hx).
  exists h', st'. split; [done |]. split; [done |]. intros x. unfold keyf.
  rewrite Hx, <- (moved_sim _ _ _ _ Hm). unfold fswap. by repeat case_decide.
Qed.

Lemma sift_up_ok fuel i h st :
  indexed h st → (i < length h)%nat → (i < fuel)%nat → up_inv (length h) (keyf h st) i →
  ∃ h' st', sift_up fuel i (h, st) = Val (h', st') ∧ moved h st h' st' ∧
    ordered (length h') (keyf h' st').
Proof.
  revert i h st. induction fuel as [| fuel IH]; intros i h st Hix Hi Hf Hup; [lia |].
  cbn [sift_up fst snd].
  destruct (Nat.eqb_spec i 0) as [-> | Hi0].
  { exists h, st. split; [done |]. split; [by apply moved_refl |]. by eapply up_done; eauto. }
  change ((i - 1) `div` 2)%nat with (parent i). pose proof (parent_lt i ltac:(lia)) as Hp.
  rewrite earlier_at_ok by (done || lia). cbn [mbind outcome_bind].
  case_bool_decide as Hlt; cbn [negb].
  - destruct (swap_nodes_keys h st i (parent i)) as (h1 & st1 & E1 & Hm1 & Hk1); [done | lia.. |].
    rewrite E1. cbn [mbind outcome_bind].
    destruct (IH (parent i) h1 st1) as (h2 & st2 & E2 & Hm2 & Ho2).
    + by apply (moved_indexed _ _ _ _ Hm1).
    + rewrite (moved_length _ _ _ _ Hm1). lia.
    + lia.
    + rewrite (moved_length _ _ _ _ Hm1).
      eapply up_inv_ext; [| by apply up_step; [| lia |]]. intros x _. by rewrite Hk1.
    + exists h2, st2. split; [done |]. split; [by eapply moved_trans | done].
  - exists h, st. split; [done |]. split; [by apply moved_refl |]. by eapply up_done; eauto.
Qed.

(** The child [sift_down] descends to is the earliest one. *)
Lemma earliest_child h st i (e : bool) :
  (2 * i + 1 < length h)%nat →
  e = bool_decide ((2 * i + 2 < length h)%nat ∧ klt (keyf h st (2 * i + 2)) (keyf h st (2 * i + 1))) →
  let c := if e then (2 * i + 2)%nat else (2 * i + 1)%nat in
  (c < length h)%nat ∧ parent c = i ∧
  ∀ j, (0 < j < length h)%nat → parent j = i → kle (keyf h st c) (keyf h st j).
Proof.
  intros Hl -> c. subst c. case_bool_decide as Hc.
  - split; [lia |]. split; [apply parent_child; lia |]. intros j Hj.
    rewrite parent_child by lia. intros [-> | ->]; [apply klt_kle, Hc | apply kle_refl].
  - split; [lia |]. split; [apply parent_child; lia |]. intros j Hj.
    rewrite parent_child by lia. intros [-> | ->]; [apply kle_refl |]. intros Hlt. apply Hc. by split; [lia |].
Qed.

Lemma sift_down_child h st i :
  indexed h st → (2 * i + 1 < length h)%nat →
  (if (i * 2 + 1 + 1 <? length h)%nat
   then e ← earlier_at h st (i * 2 + 1 + 1) (i * 2 + 1);
        Val (if e : bool then (i * 2 + 1 + 1)%nat else (i * 2 + 1)%nat)
   else Val (i * 2 + 1)%nat) =
  Val (if bool_decide ((2 * i + 2 < length h)%nat ∧ klt (keyf h st (2 * i + 2)) (keyf h st (2 * i + 1)))
       then (2 * i + 2)%nat else (2 * i + 1)%nat).
Proof.
  intros Hix Hl. replace (i * 2 + 1 + 1)%nat with (2 * i + 2)%nat by lia.
  replace (i * 2 + 1)%nat with (2 * i + 1)%nat by lia.
  destruct (Nat.ltb_spec (2 * i + 2) (length h)) as [Hr | Hr].
  - rewrite earlier_at_ok by (done || lia). cbn [mbind outcome_bind].
    repeat case_bool_decide; try done; naive_solver.
  - rewrite bool_decide_eq_false_2 by lia. done.
Qed.

Lemma sift_down_ok fuel i h st :
  indexed h st → (i < length h)%nat → (length h < fuel + i)%nat → down_inv (length h) (keyf h st) i →
  ∃ h' st', sift_down fuel i (h, st) = Val (h', st') ∧ moved h st h' st' ∧
    ordered (length h') (keyf h' st').
Proof.
  revert i h st. induction fuel as [| fuel IH]; intros i h st Hix Hi Hf Hdown; [lia |].
  cbn [sift_down fst snd]. destruct (Nat.leb_spec (length h) (i * 2 + 1)) as [Hl | Hl].
  { exists h, st. split; [done |]. split; [by apply moved_refl |]. eapply down_done; [done |].
    intros j Hj. rewrite parent_child by lia. lia. }
  rewrite sift_down_child by (done || lia). cbn [mbind outcome_bind].
  destruct (earliest_child h st i _ ltac:(lia) eq_refl) as (Hc & Hpc & Hmin). cbv zeta in Hc, Hpc, Hmin.
  set (c := if bool_decide _ then _ else _) in *.
  assert (0 < c)%nat as Hc0 by (subst c; case_bool_decide; lia).
  pose proof (parent_lt c Hc0) as Hic. rewrite Hpc in Hic.
  rewrite earlier_at_ok by (done || lia). cbn [mbind outcome_bind].
  case_bool_decide as Hlt; cbn [negb].
  - destruct (swap_nodes_keys h st i c) as (h1 & st1 & E1 & Hm1 & Hk1); [done | lia.. |].
    rewrite E1. cbn [mbind outcome_bind].
    destruct (IH c h1 st1) as (h2 & st2 & E2 & Hm2 & Ho2).
    + by apply (moved_indexed _ _ _ _ Hm1).
    + rewrite (moved_length _ _ _ _ Hm1). lia.
    + rewrite (moved_length _ _ _ _ Hm1). lia.
    + rewrite (moved_length _ _ _ _ Hm1).
      eapply down_inv_ext; [| by apply (down_step _ (keyf h st) i c)]. intros x _. by rewrite Hk1.
    + exists h2, st2. split; [done |]. split; [by eapply moved_trans | done].
  - exists h, st. split; [done |]. split; [by apply moved_refl |]. eapply down_done; [done |].
    intros j Hj Hpj. eapply kle_trans; [exact Hlt | by apply Hmin].
Qed.

(** *** Removal *)
Lemma indexed_take h st n : indexed h st → indexed (take n h) st.
Proof. intros Hix i id Hi. apply lookup_take_Some in Hi as [Hi _]. by apply Hix. Qed.

(** The last registration moves into the hole. *)
Lemma fill_hole h st i tl rt :
  indexed h st → (S i < length h)%nat → h !! (length h - 1)%nat = Some tl → st !! tl = Some rt →
  let h2 := <[i := tl]> (take (length h - 1) h) in
  let st2 := <[tl := with_index (Some i) rt]> st in
  indexed h2 st2 ∧ store_sim st st2 ∧ (h !!! i) :: h2 ≡ₚ h ∧
  ∀ x, (x < length h2)%nat → keyf h2 st2 x = (if decide (x = i) then key st tl else keyf h st x).
Proof.
  intros Hix Hi Htl Ert h2 st2.
  assert (store_sim st st2) as Hsim.
  { intros p. subst st2. rewrite lookup_insert. case_decide; [subst; by rewrite Ert | done]. }
  assert (∀ x, h2 !! x = if decide (x = i) then Some tl
                        else if decide (x < length h - 1)%nat then h !! x else None) as Hl.
  { intros x. subst h2. destruct (decide (x = i)) as [-> | Hx].
    - apply list_lookup_insert_eq. rewrite length_take. lia.
    - rewrite list_lookup_insert_ne by done. case_decide; [by apply lookup_take_lt |].
      apply lookup_take_ge. lia. }
  assert (indexed h2 st2) as Hix2.
  { intros x p. rewrite Hl. intros Hx. subst st2. destruct (decide (x = i)) as [-> |].
    - simplify_eq. rewrite lookup_insert, decide_True by done. eauto.
    - case_decide; [| done]. destruct (Hix x p Hx) as (r & Er & Hr). exists r. split; [| done].
      rewrite lookup_insert_ne; [done |]. intros <-.
      pose proof (NoDup_lookup h _ _ _ (indexed_NoDup h st Hix) Hx Htl). lia. }
  split; [done |]. split; [done |]. split.
  - pose proof (lookup_lt_total h i ltac:(lia)) as Ei.
    pose proof (indexed_NoDup h st Hix) as Hnd.
    apply NoDup_Permutation; [constructor; [| by eapply indexed_NoDup] | done |].
    + rewrite list_elem_of_lookup. intros (x & Hx). rewrite Hl in Hx. repeat case_decide; try done.
      * simplify_eq. pose proof (NoDup_lookup h _ _ _ Hnd Ei Htl). lia.
      * pose proof (NoDup_lookup h _ _ _ Hnd Ei Hx). lia.
    + intros p. rewrite elem_of_cons, !list_elem_of_lookup. setoid_rewrite Hl. split.
      * intros [-> | (x & Hx)]; [by exists i |]. repeat case_decide; simplify_eq; eauto.
      * intros (x & Hx). destruct (decide (x = i)) as [-> |]; [left; congruence |]. right.
        destruct (decide (x = length h - 1)%nat) as [-> |].
        -- exists i. rewrite decide_True by done. congruence.
        -- exists x. apply lookup_lt_Some in Hx as Hlt. rewrite decide_False, decide_True by (done || lia). done.
  - intros x Hx. unfold keyf. rewrite <- Hsim. rewrite !list_lookup_total_alt, Hl.
    subst h2. rewrite length_insert, length_take in Hx. case_decide; [done |].
    by rewrite decide_True by lia.
Qed.

(** Order is restored around the hole. *)
Lemma repair_ok h st i k f :
  indexed h st → (i < length h)%nat → ordered (length h) f →
  (∀ x, (x < length h)%nat → keyf h st x = (if decide (x = i) then k else f x)) →
  ∃ h' st',
    (up ← (if (i =? 0)%nat then Val false else earlier_at h st i ((i - 1) / 2));
     if up : bool then sift_up (S i) i (h, st) else sift_down (S (length h)) i (h, st)) =
    Val (h', st') ∧ moved h st h' st' ∧ ordered (length h') (keyf h' st').
Proof.
  intros Hix Hi Hord Hk. change ((i - 1) / 2)%nat with (parent i).
  assert (keyf h st i = k) as Eki by (rewrite Hk, decide_True by done; done).
  destruct (Nat.eqb_spec i 0) as [-> | Hi0]; cbn [mbind outcome_bind].
  - apply sift_down_ok; [done | lia.. |].
    eapply down_inv_ext; [| apply (replace_down (length h) f 0 k); [done | by left]].
    intros x Hx. by rewrite Hk.
  - pose proof (parent_lt i ltac:(lia)) as Hp.
    assert (keyf h st (parent i) = f (parent i)) as Ekp by (rewrite Hk, decide_False by lia; done).
    rewrite earlier_at_ok by (done || lia). cbn [mbind outcome_bind]. case_bool_decide as Hlt.
    + apply sift_up_ok; [done | lia.. |].
      eapply up_inv_ext; [| apply (replace_up (length h) f i k); [done | lia | congruence]].
      intros x Hx. by rewrite Hk.
    + apply sift_down_ok; [done | lia.. |].
      eapply down_inv_ext; [| apply (replace_down (length h) f i k); [done | right; congruence]].
      intros x Hx. by rewrite Hk.
Qed.

(** What removal leaves: the other registrations, in order, and the removed one detached. *)
Record removed_from (h : list nat) (st : Store) (id : nat) (h' : list nat) (st' : Store) : Prop := {
  rem_perm : id :: h' ≡ₚ h;
  rem_indexed : indexed h' st';
  rem_ordered : ordered (length h') (keyf h' st');
  rem_removed : ∃ r, st !! id = Some r ∧ st' !! id = Some (with_index None (with_owner None r));
  rem_sim : ∀ p, p ≠ id → erase <$> st !! p = erase <$> st' !! p;
  rem_frame : ∀ p, p ∉ h → st' !! p = st !! p;
}.

Lemma update_val st id f r : st !! id = Some r → update id f st = Val (<[id := f r]> st).
Proof. intros E. unfold update, deref. by rewrite E. Qed.

Lemma key_insert_ne st id r p : p ≠ id → key (<[id := r]> st) p = key st p.
Proof. intros H. unfold key. by rewrite lookup_insert_ne. Qed.

(** The final detachment, once [id] is out of the heap. *)
Lemma detach_removed h st id h1 st1 h' st' :
  indexed h st → store_sim st st1 → id :: h1 ≡ₚ h → (∀ p, p ∉ h → st1 !! p = st !! p) →
  st1 !! id = st !! id →
  moved h1 st1 h' st' → ordered (length h') (keyf h' st') → is_Some (st !! id) →
  ∃ st3, update id (λ r, with_index None (with_owner None r)) st' = Val st3 ∧
    removed_from h st id h' st3.
Proof.
  intros Hix Hsim Hperm Hframe Eid Hm Hord [r Er].
  assert (NoDup (id :: h1)) as Hnd by (rewrite Hperm; by eapply indexed_NoDup).
  apply list.NoDup_cons in Hnd as [Hid _].
  assert (id ∉ h') as Hid' by (by rewrite (moved_perm _ _ _ _ Hm)).
  assert (st' !! id = Some r) as E' by (rewrite (moved_frame _ _ _ _ Hm), Eid by done; done).
  rewrite (update_val _ _ _ _ E'). eexists. split; [done |]. split.
  - by rewrite (moved_perm _ _ _ _ Hm).
  - intros i p Hp. destruct (moved_indexed _ _ _ _ Hm i p Hp) as (rp & Ep & Hrp). exists rp.
    rewrite lookup_insert_ne; [done |]. intros <-. apply Hid'. by eapply list_elem_of_lookup_2.
  - eapply ordered_ext; [| done]. intros i Hi. unfold keyf. rewrite key_insert_ne; [done |].
    intros E. apply Hid'. rewrite <- E. apply list_elem_of_lookup_2 with i. by apply lookup_lt_total.
  - exists r. by rewrite lookup_insert, decide_True.
  - intros p Hp. rewrite lookup_insert_ne by done. rewrite Hsim. apply (moved_sim _ _ _ _ Hm).
  - intros p Hp. rewrite <- Hperm, not_elem_of_cons in Hp. destruct Hp as [Hp1 Hp2].
    rewrite lookup_insert_ne by done. rewrite (moved_frame _ _ _ _ Hm) by done.
    apply Hframe. rewrite <- Hperm. by apply not_elem_of_cons.
Qed.

Lemma remove_at_ok h st i id :
  indexed h st → h !! i = Some id → ordered (length h) (keyf h st) →
  ∃ h' st', remove_at i (h, st) = Val (id, (h', st')) ∧ removed_from h st id h' st'.
Proof.
  intros Hix Ei Hord. pose proof (lookup_lt_Some _ _ _ Ei) as Hi.
  destruct (lookup_lt_is_Some_2 h (length h - 1)) as [tl Etl]; [lia |].
  destruct (Hix _ _ Etl) as (rt & Ert & _). destruct (Hix _ _ Ei) as (r & Er & _).
  pose proof (list_lookup_total_correct _ _ _ Ei) as Eti.
  unfold remove_at, at_index. rewrite Ei, Etl. cbn [mbind outcome_bind from_option_ub].
  rewrite length_take, Nat.min_l by lia. destruct (Nat.ltb_spec i (length h - 1)) as [Hlt | Hge].
  - rewrite (update_val _ _ _ _ Ert). cbn [mbind outcome_bind].
    destruct (fill_hole h st i tl rt Hix ltac:(lia) Etl Ert) as (Hix2 & Hsim & Hperm & Hk).
    rewrite Eti in Hperm. set (h2 := <[i:=tl]> _) in *. set (st2 := <[tl:=_]> st) in *.
    assert (length h2 = (length h - 1)%nat) as Hlen
      by (subst h2; rewrite length_insert, length_take; lia).
    destruct (repair_ok h2 st2 i (key st tl) (keyf h st)) as (h' & st' & E & Hm & Ho);
      [done | lia | eapply ordered_shrink; [done | lia] | done |].
    rewrite E. cbn [mbind outcome_bind fst snd].
    assert (id ≠ tl) as Hne.
    { intros ->. pose proof (NoDup_lookup h _ _ _ (indexed_NoDup _ _ Hix) Ei Etl). lia. }
    destruct (detach_removed h st id h2 st2 h' st') as (st3 & E3 & Hrem); try done.
    + intros p Hp. subst st2. rewrite lookup_insert_ne; [done |]. intros <-. apply Hp.
      by eapply list_elem_of_lookup_2.
    + subst st2. by rewrite lookup_insert_ne.
    + rewrite E3. cbn [mbind outcome_bind]. eauto.
  - cbn [mbind outcome_bind fst snd].
    assert (id :: take (length h - 1) h ≡ₚ h) as Hperm.
    { assert (drop (length h - 1) h = [id]) as Ed.
      { rewrite (drop_S h id) by (rewrite <- Ei; f_equal; lia). by rewrite drop_ge by lia. }
      pose proof (take_drop (length h - 1) h) as Etd. rewrite Ed in Etd.
      rewrite <- Etd at 3. by rewrite Permutation_app_comm. }
    destruct (detach_removed h st id (take (length h - 1) h) st (take (length h - 1) h) st)
      as (st3 & E3 & Hrem); try done.
    + by apply moved_refl, indexed_take.
    + rewrite length_take, Nat.min_l by lia. eapply ordered_ext; [| eapply ordered_shrink; [exact Hord | lia]].
      intros x Hx. unfold keyf. by rewrite !list_lookup_total_alt, lookup_take_lt by lia.
    + rewrite E3. cbn [mbind outcome_bind]. eauto.
Qed.

(** ** The abstract queue

    The armed registrations as a list in the order in which they fall due; registrations
    with the same deadline keep the order in which they were armed. *)
Record Entry := mkEntry {
  entry_id : nat;
  entry_deadline : Z;
  entry_callback : option nat;
  entry_context : option nat;
}.

Fixpoint abs_insert (e : Entry) (A : list Entry) : list Entry :=
  match A with
  | [] => [e]
  | x :: A' => if entry_deadline x <=? entry_deadline e then x :: abs_insert e A' else e :: A
  end.

Definition abs_arm (e : Entry) (A : list Entry) : ArmResult * list Entry :=
  if bool_decide (entry_id e ∈ entry_id <$> A) then (AlreadyArmed, A)
  else if bool_decide (entry_callback e = None) then (InvalidCallback, A)
  else (Armed, abs_insert e A).

Definition abs_disarm (id : nat) (A : list Entry) : bool * list Entry :=
  (bool_decide (id ∈ entry_id <$> A), filter (λ e, entry_id e ≠ id) A).

Section spec.
Context {E : Type} (invoke : nat → option nat → TimerCompletion → E → bool * E).

Definition abs_call (c : TimerCompletion) (x : Entry) (e : E) : bool * E :=
  match entry_callback x with
  | None => (false, e)
  | Some cb => invoke cb (entry_context x) c e
  end.

(** Complete entries from the front while [go] allows it; the counts are calls made and
    calls that failed. *)
Fixpoint abs_dispatch (c : TimerCompletion) (go : Z → Entry → bool) (n f : Z) (A : list Entry) (e : E) :
    Z * Z * list Entry * E :=
  match A with
  | [] => (n, f, [], e)
  | x :: A' =>
      if go n x then
        let '(ok, e') := abs_call c x e in
        abs_dispatch c go (n + 1) (if ok : bool then f else f + 1) A' e'
      else (n, f, A, e)
  end.

Definition due (now : Z) (x : Entry) : bool := entry_deadline x <=? now.

Definition abs_expire (now budget : Z) (A : list Entry) (e : E) : DispatchResult * (list Entry * E) :=
  let '(n, f, A', e') := abs_dispatch Expired (λ n x, (n <? budget) && due now x) 0 0 A e in
  (mkDispatch n f (match A' with [] => false | x :: _ => due now x end), (A', e')).

Definition abs_cancel_all (A : list Entry) (e : E) : DispatchResult * (list Entry * E) :=
  let '(n, f, A', e') := abs_dispatch Cancelled (λ _ _, true) 0 0 A e in
  (mkDispatch n f false, (A', e')).

End spec.

(** ** The invariant of the queue *)
Section claims.
Context (self : nat) {E : Type}
  (invoke : nat → option nat → TimerCompletion → E → bool * E).

Record wf (q : TimerQueue) (st : Store) : Prop := {
  wf_indexed : indexed (heap_ q) st;
  wf_owned : ∀ id r, st !! id = Some r → owner_ r = Some self ↔ id ∈ heap_ q;
  wf_detached : ∀ id r, st !! id = Some r → owner_ r = None → heap_index_ r = None;
  wf_callbacks : ∀ id r, st !! id = Some r → id ∈ heap_ q → completion_ r ≠ None;
  wf_ordered : ordered (length (heap_ q)) (keyf (heap_ q) st);
  wf_running : heap_ q ≠ [] ∨ accepting_ q = true → running_ q = true;
}.

Lemma wf_init : wf TimerQueue_init ∅.
Proof.
  split; simpl; try done.
  - intros j Hj. simpl in Hj. lia.
  - by intros [H | H].
Qed.

(** Only the heap and the two flags matter. *)
Lemma wf_ext q q' st :
  heap_ q = heap_ q' → running_ q = running_ q' → accepting_ q = accepting_ q' → wf q st → wf q' st.
Proof.
  intros Eh Er Ea [H1 H2 H3 H4 H5 H6]. split; rewrite <- ?Eh, <- ?Er, <- ?Ea; done.
Qed.

Lemma wf_heap_lookup q st id :
  wf q st → id ∈ heap_ q → ∃ i r, heap_ q !! i = Some id ∧ st !! id = Some r ∧
    heap_index_ r = Some i ∧ owner_ r = Some self.
Proof.
  intros W Hin. apply list_elem_of_lookup in Hin as [i Hi].
  destruct (wf_indexed _ _ W _ _ Hi) as (r & Er & Hr). exists i, r.
  split; [done |]. split; [done |]. split; [done |].
  apply (wf_owned _ _ W _ _ Er). by eapply list_elem_of_lookup_2.
Qed.

Lemma erase_fields r r' :
  erase r = erase r' →
  owner_ r = owner_ r' ∧ deadline_ r = deadline_ r' ∧ sequence_ r = sequence_ r' ∧
  completion_ r = completion_ r' ∧ context_ r = context_ r'.
Proof. intros H. injection H. intros. naive_solver. Qed.

(** Stores that agree on every registration but [id], up to heap positions. *)
Definition agree_but (id : nat) (st st' : Store) : Prop :=
  ∀ p, p ≠ id → erase <$> st !! p = erase <$> st' !! p.

Lemma agree_lookup id st st' p r' :
  agree_but id st st' → p ≠ id → st' !! p = Some r' → ∃ r, st !! p = Some r ∧ erase r = erase r'.
Proof.
  intros H Hp E'. specialize (H p Hp). rewrite E' in H. destruct (st !! p) as [r |]; [| done].
  exists r. split; [done |]. simpl in H. congruence.
Qed.

Lemma agree_key id st st' p : agree_but id st st' → p ≠ id → key st' p = key st p.
Proof.
  intros H Hp. specialize (H p Hp). unfold key.
  destruct (st !! p) as [r |], (st' !! p) as [r' |]; simpl in H; try done.
  injection H. intros. congruence.
Qed.

(** Taking one registration out of the heap. *)
Lemma take_out q st i id :
  wf q st → heap_ q !! i = Some id →
  ∃ r h' st', st !! id = Some r ∧
    remove_at i (heap_ q, st) = Val (id, (h', st')) ∧
    st' !! id = Some (with_index None (with_owner None r)) ∧
    update id without_callback st' =
      Val (<[id := without_callback (with_index None (with_owner None r))]> st') ∧
    let st'' := <[id := without_callback (with_index None (with_owner None r))]> st' in
    wf (with_heap h' q) st'' ∧ id :: h' ≡ₚ heap_ q ∧ agree_but id st st''.
Proof.
  intros W Hi. destruct (remove_at_ok _ _ _ _ (wf_indexed _ _ W) Hi (wf_ordered _ _ W))
    as (h' & st' & Eq & [Hp Hix Ho (r & Er & Er') Hsim Hfr]).
  exists r, h', st'. split; [done |]. split; [done |]. split; [done |].
  split; [by apply update_val |]. intros st''.
  assert (id ∉ h') as Hid.
  { assert (NoDup (id :: h')) as Hnd by (rewrite Hp; exact (indexed_NoDup _ _ (wf_indexed _ _ W))).
    by apply list.NoDup_cons in Hnd as [? _]. }
  assert (agree_but id st st'') as Hag.
  { intros p Hne. subst st''. rewrite lookup_insert_ne by done. by apply Hsim. }
  split; [| done]. split; simpl.
  - intros j p Hj. destruct (Hix j p Hj) as (rp & Ep & Hrp). exists rp. subst st''.
    rewrite lookup_insert_ne; [done |]. intros <-. apply Hid. by eapply list_elem_of_lookup_2.
  - intros p rp Ep. destruct (decide (p = id)) as [-> | Hne].
    + subst st''. rewrite lookup_insert, decide_True in Ep by done. simplify_eq. by simpl.
    + destruct (agree_lookup _ _ _ _ _ Hag Hne Ep) as (r0 & E0 & H0%erase_fields).
      destruct H0 as (-> & _) || destruct H0 as (<- & _).
      rewrite (wf_owned _ _ W _ _ E0), <- Hp, elem_of_cons. naive_solver.
  - intros p rp Ep. subst st''. rewrite lookup_insert in Ep. case_decide as Hne; [by simplify_eq |].
    destruct (decide (p ∈ heap_ q)) as [Hin | Hin].
    + destruct (agree_lookup id st st' p rp Hsim) as (r0 & E0 & H0%erase_fields); [done.. |].
      destruct H0 as (Ho0 & _). rewrite <- Ho0. intros Hn.
      pose proof (proj2 (wf_owned _ _ W _ _ E0) Hin). congruence.
    + rewrite Hfr in Ep by done. exact (wf_detached _ _ W p rp Ep).
  - intros p rp Ep Hin. assert (p ≠ id) as Hne by (intros ->; done).
    destruct (agree_lookup _ _ _ _ _ Hag Hne Ep) as (r0 & E0 & H0%erase_fields).
    destruct H0 as (_ & _ & _ & Hc & _). rewrite <- Hc. apply (wf_callbacks _ _ W p r0 E0).
    rewrite <- Hp. by apply elem_of_cons; right.
  - eapply ordered_ext; [| exact Ho]. intros j Hj. unfold keyf. subst st''.
    rewrite key_insert_ne; [done |]. intros Ej. apply Hid. rewrite <- Ej.
    apply list_elem_of_lookup_2 with j. by apply lookup_lt_total.
  - intros _. apply (wf_running _ _ W). left. intros Hnil. rewrite Hnil in Hi. done.
Qed.

(** ** Refinement *)
Definition entry (st : Store) (id : nat) : Entry :=
  match st !! id with
  | Some r => mkEntry id (deadline_ r) (completion_ r) (context_ r)
  | None => mkEntry id 0 None None
  end.

Lemma entry_id_of st id : entry_id (entry st id) = id.
Proof. unfold entry. by destruct (st !! id). Qed.

Lemma entry_ids st (L : list nat) : entry_id <$> (entry st <$> L) = L.
Proof.
  rewrite <- list_fmap_compose. rewrite <- (list_fmap_id L) at 2.
  apply list_fmap_ext. intros ? id _. apply entry_id_of.
Qed.

Lemma entry_deadline_key st id : entry_deadline (entry st id) = (key st id).1.
Proof. unfold entry, key. by destruct (st !! id). Qed.

Lemma agree_entry id st st' p : agree_but id st st' → p ≠ id → entry st' p = entry st p.
Proof.
  intros H Hp. specialize (H p Hp). unfold entry.
  destruct (st !! p) as [r |], (st' !! p) as [r' |]; simpl in H; try done.
  injection H. intros. congruence.
Qed.

Lemma agree_entries id st st' (L : list nat) : agree_but id st st' → id ∉ L → entry st' <$> L = entry st <$> L.
Proof.
  intros H Hid. apply list_fmap_ext. intros i p Hp. eapply agree_entry; [done |].
  intros ->. apply Hid. by eapply list_elem_of_lookup_2.
Qed.

Definition before (st : Store) (a b : nat) : Prop := klt (key st a) (key st b).

(** [L] lists the armed registrations in the order of their keys; no other queue owns a
    registration of the store, and the sequence numbers in use are old. *)
Record timeline (q : TimerQueue) (st : Store) (L : list nat) : Prop := {
  tl_wf : wf q st;
  tl_perm : L ≡ₚ heap_ q;
  tl_sorted : StronglySorted (before st) L;
  tl_sole : ∀ id r, st !! id = Some r → owner_ r = None ∨ owner_ r = Some self;
  tl_sequence : ∀ id r, st !! id = Some r → id ∈ heap_ q → 0 ≤ sequence_ r < next_sequence_ q;
}.

Lemma timeline_NoDup q st L : timeline q st L → NoDup L.
Proof.
  intros T. rewrite (tl_perm _ _ _ T). exact (indexed_NoDup _ _ (wf_indexed _ _ (tl_wf _ _ _ T))).
Qed.

(** The root of the heap is the head of the list. *)
Lemma timeline_front q st x L : timeline q st (x :: L) → ∃ h, heap_ q = x :: h.
Proof.
  intros T. pose proof (tl_perm _ _ _ T) as Hp. pose proof (tl_wf _ _ _ T) as W.
  destruct (heap_ q) as [| y h] eqn:Eh; [by apply Permutation_length in Hp |].
  exists h. f_equal. destruct (decide (y = x)) as [-> | Hne]; [done |]. exfalso.
  assert (y ∈ L) as Hy.
  { assert (y ∈ x :: L) as [-> | Hy]%elem_of_cons by (rewrite Hp; by left); done. }
  assert (before st x y) as Hxy.
  { pose proof (tl_sorted _ _ _ T) as [Hall _]%StronglySorted_cons.
    rewrite list.Forall_forall in Hall. by apply Hall. }
  assert (x ∈ y :: h) as [i Hi]%list_elem_of_lookup by (rewrite <- Hp; by left).
  pose proof (wf_ordered _ _ W) as Ho. rewrite Eh in Ho.
  apply (root_earliest _ _ i Ho); [by eapply lookup_lt_Some |].
  unfold keyf. rewrite (list_lookup_total_correct _ _ _ Hi). exact Hxy.
Qed.

Lemma timeline_nil q st : timeline q st [] → heap_ q = [].
Proof. intros T. apply Permutation_nil_r. symmetry. exact (tl_perm _ _ _ T). Qed.

Lemma StronglySorted_same (R R' : nat → nat → Prop) L :
  (∀ a b, a ∈ L → b ∈ L → R a b → R' a b) → StronglySorted R L → StronglySorted R' L.
Proof.
  induction L as [| x L IH]; intros Himp Hs; [constructor |].
  apply StronglySorted_cons in Hs as [Hall Hs]. apply StronglySorted_cons. split.
  - rewrite list.Forall_forall in *. intros y Hy. apply Himp; [by left | by right | by apply Hall].
  - apply IH; [| done]. intros a b Ha Hb. apply Himp; by right.
Qed.

(** Taking [id] out of the heap takes it out of the list. *)
Lemma timeline_take_out q st L1 id L2 i :
  timeline q st (L1 ++ id :: L2) → heap_ q !! i = Some id →
  ∃ r h' st', st !! id = Some r ∧ remove_at i (heap_ q, st) = Val (id, (h', st')) ∧
    st' !! id = Some (with_index None (with_owner None r)) ∧
    let st'' := <[id := without_callback (with_index None (with_owner None r))]> st' in
    update id without_callback st' = Val st'' ∧
    timeline (with_heap h' q) st'' (L1 ++ L2) ∧ agree_but id st st'' ∧ dom st'' = dom st.
Proof.
  intros T Hi. destruct (take_out q st i id (tl_wf _ _ _ T) Hi)
    as (r & h' & st' & Er & Eq & Er' & Eu & W' & Hp & Hag).
  exists r, h', st'. split; [done |]. split; [done |]. split; [done |]. split; [done |].
  assert (id ∉ L1 ++ L2) as Hid.
  { pose proof (timeline_NoDup _ _ _ T) as Hnd.
    rewrite <- Permutation_middle in Hnd. by apply list.NoDup_cons in Hnd as [? _]. }
  set (st'' := <[id:=_]> st') in *.
  split; [split | split; [done |]].
  - done.
  - simpl. apply (Permutation_cons_inv (a := id)).
    rewrite Hp, <- (tl_perm _ _ _ T). by rewrite Permutation_middle.
  - eapply (StronglySorted_same (before st)).
    + intros a b Ha Hb. unfold before. rewrite !(agree_key id st st'') by (done || congruence). done.
    + pose proof (tl_sorted _ _ _ T) as (Hab & H1 & H2)%StronglySorted_app.
      apply StronglySorted_cons in H2 as [_ H2]. apply StronglySorted_app. split; [| done].
      intros a b Ha Hb. apply Hab; [done | by right].
  - intros p rp Ep. destruct (decide (p = id)) as [-> | Hne].
    + subst st''. rewrite lookup_insert, decide_True in Ep by done. simplify_eq. by left.
    + destruct (agree_lookup _ _ _ _ _ Hag Hne Ep) as (r0 & E0 & (<- & _)%erase_fields).
      exact (tl_sole _ _ _ T _ _ E0).
  - intros p rp Ep Hin. simpl in Hin. assert (p ∈ heap_ q) by (rewrite <- Hp; by right).
    destruct (decide (p = id)) as [-> | Hne].
    + subst st''. rewrite lookup_insert, decide_True in Ep by done. simplify_eq. simpl.
      exact (tl_sequence _ _ _ T _ _ Er H).
    + destruct (agree_lookup _ _ _ _ _ Hag Hne Ep) as (r0 & E0 & (_ & _ & <- & _)%erase_fields).
      exact (tl_sequence _ _ _ T _ _ E0 H).
  - apply set_eq. intros p. rewrite !elem_of_dom. destruct (decide (p = id)) as [-> | Hne].
    + subst st''. rewrite lookup_insert, decide_True, Er by done. by split; eexists.
    + specialize (Hag p Hne). by destruct (st !! p), (st'' !! p).
Qed.

(** *** Dispatch *)
Notation State := (@State E).

(** What the heap operations leave alone. *)
Definition control (q : TimerQueue) : option nat * option nat * Z * bool * bool :=
  (scheduler_ q, owner_thread_ q, next_sequence_ q, running_ q, accepting_ q).

(** The concrete state [s'] comes from [s] and represents the abstract queue [A'] with the
    environment [e']. *)
Record represents (s s' : State) (A' : list Entry) (e' : E) : Prop := {
  rep_list : ∃ L', timeline (queue s') (regs s') L' ∧ entry (regs s') <$> L' = A';
  rep_env : env s' = e';
  rep_control : control (queue s') = control (queue s);
  rep_dom : dom (regs s') = dom (regs s);
}.

Lemma represents_trans s s1 s2 A1 e1 A2 e2 :
  represents s s1 A1 e1 → represents s1 s2 A2 e2 → represents s s2 A2 e2.
Proof.
  intros [_ _ C1 D1] [L2 E2 C2 D2]. split; [done | done | by rewrite C2 | by rewrite D2].
Qed.

Lemma timeline_ext q q' st L :
  heap_ q = heap_ q' → control q = control q' → timeline q st L → timeline q' st L.
Proof.
  intros Eh Ec [W Hp Hs Hso Hsq]. injection Ec. intros Ea Er En _ _.
  split; rewrite <- ?Eh, <- ?En; try done. by eapply wf_ext.
Qed.

Lemma complete_front_sim c n f b (s : State) x L :
  timeline (queue s) (regs s) (x :: L) →
  let '(ok, e') := abs_call invoke c (entry (regs s) x) (env s) in
  ∃ s', complete_front invoke c (mkDispatch n f b, s) =
      Val (mkDispatch (n + 1) (if ok : bool then f else f + 1) b, s') ∧
    represents s s' (entry (regs s) <$> L) e'.
Proof.
  intros T. destruct (timeline_front _ _ _ _ T) as [h Eh].
  destruct (timeline_take_out _ _ [] x L 0 T) as (r & h' & st' & Er & Eq & Er' & Eu & T' & Hag & Hd);
    [by rewrite Eh |].
  assert (x ∉ L) as Hx by (pose proof (timeline_NoDup _ _ _ T) as [? _]%list.NoDup_cons; done).
  unfold abs_call, entry at 1 2. rewrite Er. cbn [entry_callback entry_context].
  unfold complete_front, heap_store. rewrite Eq. cbn [mbind outcome_bind fst snd].
  unfold deref. rewrite Er'. cbn [mbind outcome_bind from_option_ub]. rewrite Eu.
  cbn [mbind outcome_bind fst snd set_heap_store completion_ context_ with_index with_owner env].
  destruct (completion_ r) as [cb |]; [destruct (invoke cb (context_ r) c (env s)) as [[] e'] |];
    eexists; (split; [done |]); (split; [| done | done | done]); exists L;
    (split; [eapply timeline_ext; [| | exact T']; done | by apply agree_entries with x]).
Qed.

Lemma front_due_sim now (s : State) L :
  timeline (queue s) (regs s) L →
  front_due now s = Val (match entry (regs s) <$> L with [] => false | x :: _ => due now x end).
Proof.
  intros T. unfold front_due. destruct L as [| x L].
  - by rewrite (timeline_nil _ _ T).
  - destruct (timeline_front _ _ _ _ T) as [h Eh]. rewrite Eh.
    destruct (wf_indexed _ _ (tl_wf _ _ _ T) 0%nat x) as (r & Er & _); [by rewrite Eh |].
    unfold deref, due, entry. rewrite fmap_cons, Er. done.
Qed.

Lemma represents_refl (s : State) L :
  timeline (queue s) (regs s) L → represents s s (entry (regs s) <$> L) (env s).
Proof. intros T. split; eauto. Qed.

Lemma expire_loop_sim fuel now budget n f s L :
  timeline (queue s) (regs s) L → (length L < fuel)%nat →
  let '(n', f', A', e') :=
    abs_dispatch invoke Expired (λ n x, (n <? budget) && due now x) n f (entry (regs s) <$> L) (env s) in
  ∃ s', expire_loop invoke fuel now budget (mkDispatch n f false, s) = Val (mkDispatch n' f' false, s') ∧
    represents s s' A' e'.
Proof.
  revert n f s L. induction fuel as [| fuel IH]; intros n f s L T Hf; [lia |].
  cbn [expire_loop fst snd dispatched]. rewrite (front_due_sim _ _ _ T).
  pose proof (represents_refl _ _ T) as Hrefl.
  destruct L as [| x L]; cbn [fmap list_fmap abs_dispatch].
  { destruct (n <? budget); cbn [mbind outcome_bind]; eauto. }
  change (list_fmap _ _ (entry (regs s)) L) with (entry (regs s) <$> L) in *.
  destruct (n <? budget); cbn [mbind outcome_bind andb]; [| eauto].
  destruct (due now (entry (regs s) x)); [| eauto].
  pose proof (complete_front_sim Expired n f false s x L T) as Hc.
  destruct (abs_call invoke Expired (entry (regs s) x) (env s)) as [ok e'].
  destruct Hc as (s1 & E1 & R1). rewrite E1. cbn [mbind outcome_bind].
  destruct (rep_list _ _ _ _ R1) as (L1 & T1 & EL1).
  assert (length L1 = length L) as Hlen by (rewrite <- (length_fmap (entry (regs s1))), EL1; apply length_fmap).
  specialize (IH (n + 1) (if ok then f else f + 1) s1 L1 T1 ltac:(simpl in Hf; lia)).
  rewrite EL1, (rep_env _ _ _ _ R1) in IH.
  destruct (abs_dispatch _ _ _ _ _ _ _) as [[[n' f'] A'] e2]. destruct IH as (s2 & E2 & R2).
  exists s2. split; [done |]. by eapply represents_trans.
Qed.

Lemma cancel_loop_sim fuel n f s L :
  timeline (queue s) (regs s) L → (length L < fuel)%nat →
  let '(n', f', A', e') :=
    abs_dispatch invoke Cancelled (λ _ _, true) n f (entry (regs s) <$> L) (env s) in
  ∃ s', cancel_loop invoke fuel (mkDispatch n f false, s) = Val (mkDispatch n' f' false, s') ∧
    represents s s' A' e'.
Proof.
  revert n f s L. induction fuel as [| fuel IH]; intros n f s L T Hf; [lia |].
  cbn [cancel_loop snd]. pose proof (represents_refl _ _ T) as Hrefl.
  destruct L as [| x L]; cbn [fmap list_fmap abs_dispatch].
  { rewrite (timeline_nil _ _ T), bool_decide_true by done. eauto. }
  change (list_fmap _ _ (entry (regs s)) L) with (entry (regs s) <$> L) in *.
  destruct (timeline_front _ _ _ _ T) as [h Eh]. rewrite bool_decide_false by (by rewrite Eh).
  pose proof (complete_front_sim Cancelled n f false s x L T) as Hc.
  destruct (abs_call invoke Cancelled (entry (regs s) x) (env s)) as [ok e'].
  destruct Hc as (s1 & E1 & R1). rewrite E1. cbn [mbind outcome_bind].
  destruct (rep_list _ _ _ _ R1) as (L1 & T1 & EL1).
  assert (length L1 = length L) as Hlen by (rewrite <- (length_fmap (entry (regs s1))), EL1; apply length_fmap).
  specialize (IH (n + 1) (if ok then f else f + 1) s1 L1 T1 ltac:(simpl in Hf; lia)).
  rewrite EL1, (rep_env _ _ _ _ R1) in IH.
  destruct (abs_dispatch _ _ _ _ _ _ _) as [[[n' f'] A'] e2]. destruct IH as (s2 & E2 & R2).
  exists s2. split; [done |]. by eapply represents_trans.
Qed.

(** *** Arming *)
Lemma push_indexed q st id r :
  wf q st → id ∉ heap_ q → heap_index_ r = Some (length (heap_ q)) →
  indexed (heap_ q ++ [id]) (<[id := r]> st) ∧
  up_inv (length (heap_ q ++ [id])) (keyf (heap_ q ++ [id]) (<[id := r]> st)) (length (heap_ q)).
Proof.
  intros W Hid Hr. split.
  - intros i p Hi. apply lookup_app_Some in Hi as [Hi | [Hge Hi]].
    + destruct (wf_indexed _ _ W i p Hi) as (rp & Ep & Hp). exists rp.
      rewrite lookup_insert_ne; [done |]. intros <-. apply Hid. by eapply list_elem_of_lookup_2.
    + apply list_lookup_singleton_Some in Hi as [Hi <-]. exists r.
      rewrite lookup_insert, decide_True by done. split; [done |]. rewrite Hr. f_equal. lia.
  - rewrite length_app. simpl. split; intros j Hj.
    + intros Hne. pose proof (parent_lt j (proj1 Hj)).
      assert (∀ x, (x < length (heap_ q))%nat →
        keyf (heap_ q ++ [id]) (<[id := r]> st) x = keyf (heap_ q) st x) as Hk.
      { intros x Hx. unfold keyf. rewrite lookup_total_app_l by done.
        apply key_insert_ne. intros Ex. apply Hid. rewrite <- Ex.
        apply list_elem_of_lookup_2 with x. by apply lookup_lt_total. }
      rewrite !Hk by lia. apply (wf_ordered _ _ W). lia.
    + rewrite parent_child by lia. lia.
Qed.

Lemma put_in q st id r r' :
  wf q st → running_ q = true → st !! id = Some r → owner_ r = None →
  owner_ r' = Some self → heap_index_ r' = Some (length (heap_ q)) → completion_ r' ≠ None →
  ∃ h' st', sift_up (S (length (heap_ q))) (length (heap_ q)) (heap_ q ++ [id], <[id := r']> st) =
      Val (h', st') ∧
    wf (with_heap h' q) st' ∧ h' ≡ₚ id :: heap_ q ∧ agree_but id st st' ∧
    ∃ r'', st' !! id = Some r'' ∧ erase r'' = erase r'.
Proof.
  intros W Hrun Er Hnone Hown Hix' Hcb.
  assert (id ∉ heap_ q) as Hid by (rewrite <- (wf_owned _ _ W _ _ Er); congruence).
  destruct (push_indexed q st id r' W Hid Hix') as [Hix Hup].
  destruct (sift_up_ok (S (length (heap_ q))) (length (heap_ q)) _ _ Hix) as (h' & st' & Eq & Hm & Ho);
    [rewrite length_app; simpl; lia | lia | done |].
  assert (h' ≡ₚ id :: heap_ q) as Hperm by (rewrite (moved_perm _ _ _ _ Hm); by rewrite Permutation_app_comm).
  assert (agree_but id st st') as Hag.
  { intros p Hp. rewrite <- (moved_sim _ _ _ _ Hm p). by rewrite lookup_insert_ne. }
  destruct (store_sim_lookup _ _ id r' (moved_sim _ _ _ _ Hm)) as (r'' & Er'' & He);
    [by rewrite lookup_insert, decide_True |].
  exists h', st'. split; [done |]. split; [| by eauto 6]. split; simpl.
  - exact (moved_indexed _ _ _ _ Hm).
  - intros p rp Ep. rewrite Hperm, elem_of_cons. destruct (decide (p = id)) as [-> | Hne].
    + assert (rp = r'') as -> by congruence. apply erase_fields in He as [He _]. split; [by left | intros _; congruence].
    + destruct (agree_lookup _ _ _ _ _ Hag Hne Ep) as (r0 & E0 & (<- & _)%erase_fields).
      rewrite (wf_owned _ _ W _ _ E0). naive_solver.
  - intros p rp Ep Hn. destruct (decide (p = id)) as [-> | Hne].
    + assert (rp = r'') as -> by congruence. apply erase_fields in He as [He _]. congruence.
    + destruct (agree_lookup _ _ _ _ _ Hag Hne Ep) as (r0 & E0 & (Ho0 & _)%erase_fields).
      assert (p ∉ heap_ q) as Hp.
      { intros Hin. pose proof (proj2 (wf_owned _ _ W _ _ E0) Hin). congruence. }
      rewrite (moved_frame _ _ _ _ Hm), lookup_insert_ne in Ep; [| done |].
      * exact (wf_detached _ _ W _ _ Ep Hn).
      * rewrite elem_of_app, list_elem_of_singleton. naive_solver.
  - intros p rp Ep. rewrite Hperm, elem_of_cons. destruct (decide (p = id)) as [-> | Hne].
    + assert (rp = r'') as -> by congruence. apply erase_fields in He as (_ & _ & _ & He & _). congruence.
    + intros [-> | Hin]; [done |].
      destruct (agree_lookup _ _ _ _ _ Hag Hne Ep) as (r0 & E0 & (_ & _ & _ & <- & _)%erase_fields).
      exact (wf_callbacks _ _ W _ _ E0 Hin).
  - exact Ho.
  - done.
Qed.

Lemma abs_insert_split st e L :
  StronglySorted (before st) L →
  ∃ L1 L2, L = L1 ++ L2 ∧
    abs_insert e (entry st <$> L) = (entry st <$> L1) ++ e :: (entry st <$> L2) ∧
    (∀ a, a ∈ L1 → (key st a).1 ≤ entry_deadline e) ∧ (∀ b, b ∈ L2 → entry_deadline e < (key st b).1).
Proof.
  induction L as [| x L IH]; intros Hs.
  { exists [], []. split; [done |]. split; [done |]. split; by intros ? ?%elem_of_nil. }
  apply StronglySorted_cons in Hs as [Hall Hs]. rewrite fmap_cons. cbn [abs_insert].
  rewrite entry_deadline_key. destruct (Z.leb_spec (key st x).1 (entry_deadline e)) as [Hle | Hgt].
  - destruct (IH Hs) as (L1 & L2 & -> & E2 & H1 & H2). exists (x :: L1), L2.
    split; [done |]. split; [by rewrite E2 |]. split; [| done].
    intros a [-> | Ha]%elem_of_cons; [done | by apply H1].
  - exists [], (x :: L). split; [done |]. split; [done |]. split; [by intros ? ?%elem_of_nil |].
    rewrite list.Forall_forall in Hall. intros b [-> | Hb]%elem_of_cons; [done |].
    specialize (Hall b Hb). unfold before, klt in Hall. lia.
Qed.

Lemma timeline_put_in q st id r r' L1 L2 h' st' :
  timeline q st (L1 ++ L2) → st !! id = Some r → owner_ r = None →
  sequence_ r' = next_sequence_ q → 0 ≤ next_sequence_ q → owner_ r' = Some self →
  (∀ a, a ∈ L1 → (key st a).1 ≤ deadline_ r') → (∀ b, b ∈ L2 → deadline_ r' < (key st b).1) →
  wf (with_heap h' q) st' → h' ≡ₚ id :: heap_ q → agree_but id st st' →
  (∃ r'', st' !! id = Some r'' ∧ erase r'' = erase r') →
  timeline (mkQueue h' (scheduler_ q) (owner_thread_ q) (next_sequence_ q + 1)
              (invariant_failures_ q) (running_ q) (accepting_ q)) st' (L1 ++ id :: L2).
Proof.
  intros T Er Hn Hseq H0 Hown H1 H2 W' Hp Hag (r'' & Er'' & He).
  apply erase_fields in He as (Eo & Ed & Es & _).
  assert (key st' id = (deadline_ r', sequence_ r')) as Hk by (unfold key; rewrite Er''; congruence).
  assert (∀ a, a ∈ L1 ++ L2 → a ≠ id ∧ key st' a = key st a) as Hother.
  { intros a Ha. assert (a ≠ id) as Hne.
    { intros ->. rewrite (tl_perm _ _ _ T) in Ha.
      pose proof (proj2 (wf_owned _ _ (tl_wf _ _ _ T) _ _ Er) Ha). congruence. }
    split; [done |]. by apply agree_key with id. }
  assert (∀ a, a ∈ L1 ++ L2 → (key st a).2 < next_sequence_ q) as Hold.
  { intros a Ha. rewrite (tl_perm _ _ _ T) in Ha.
    destruct (wf_heap_lookup _ _ _ (tl_wf _ _ _ T) Ha) as (i & ra & _ & Ea & _).
    unfold key. rewrite Ea. simpl. exact (proj2 (tl_sequence _ _ _ T _ _ Ea Ha)). }
  split; simpl.
  - by eapply wf_ext; [| | | exact W'].
  - rewrite Hp, <- (tl_perm _ _ _ T). by rewrite Permutation_middle.
  - pose proof (tl_sorted _ _ _ T) as (Hab & Hs1 & Hs2)%StronglySorted_app.
    apply StronglySorted_app. split; [| split].
    + intros a b Ha Hb. destruct (Hother a) as [_ Eka]; [by apply elem_of_app; left |].
      unfold before. rewrite Eka. apply elem_of_cons in Hb as [-> | Hb].
      * rewrite Hk. specialize (H1 a Ha). specialize (Hold a ltac:(apply elem_of_app; by left)).
        unfold klt. simpl. lia.
      * destruct (Hother b) as [_ ->]; [by apply elem_of_app; right |]. by apply Hab.
    + eapply StronglySorted_same; [| exact Hs1]. intros a b Ha Hb. unfold before.
      rewrite (proj2 (Hother a ltac:(apply elem_of_app; by left))).
      by rewrite (proj2 (Hother b ltac:(apply elem_of_app; by left))).
    + apply StronglySorted_cons. split.
      * apply list.Forall_forall. intros b Hb. unfold before.
        rewrite Hk, (proj2 (Hother b ltac:(apply elem_of_app; by right))).
        specialize (H2 b Hb). left. simpl. lia.
      * eapply StronglySorted_same; [| exact Hs2]. intros a b Ha Hb. unfold before.
        rewrite (proj2 (Hother a ltac:(apply elem_of_app; by right))).
        by rewrite (proj2 (Hother b ltac:(apply elem_of_app; by right))).
  - intros p rp Ep. destruct (decide (p = id)) as [-> | Hne].
    + right. congruence.
    + destruct (agree_lookup _ _ _ _ _ Hag Hne Ep) as (r0 & E0 & (<- & _)%erase_fields).
      exact (tl_sole _ _ _ T _ _ E0).
  - intros p rp Ep. rewrite Hp, elem_of_cons. destruct (decide (p = id)) as [-> | Hne].
    + assert (rp = r'') as -> by congruence. intros _. lia.
    + intros [-> | Hin]; [done |].
      destruct (agree_lookup _ _ _ _ _ Hag Hne Ep) as (r0 & E0 & (_ & _ & <- & _)%erase_fields).
      pose proof (tl_sequence _ _ _ T _ _ E0 Hin). lia.
Qed.

(** The queue runs, accepts, and the caller is its owner. *)
Definition ready (me : nat) (s : State) : Prop :=
  running_ (queue s) = true ∧ accepting_ (queue s) = true ∧ owner_thread_ (queue s) = Some me.

Lemma ready_owner me s : ready me s → on_owner_thread me (queue s) = true.
Proof. intros (Hr & _ & Ho). unfold on_owner_thread. rewrite Hr, Ho. by rewrite bool_decide_true. Qed.

(** One step of the queue: [s'] represents [A'] and at most one sequence number is used. *)
Record stepped (s s' : State) (A' : list Entry) (e' : E) : Prop := {
  st_list : ∃ L', timeline (queue s') (regs s') L' ∧ entry (regs s') <$> L' = A';
  st_env : env s' = e';
  st_ready : ∀ me, ready me s → ready me s';
  st_sequence : next_sequence_ (queue s) ≤ next_sequence_ (queue s') ≤ next_sequence_ (queue s) + 1;
  st_dom : dom (regs s') = dom (regs s);
}.

Lemma represents_stepped s s' A' e' : represents s s' A' e' → stepped s s' A' e'.
Proof.
  intros [HL HE HC HD]. injection HC. intros Ea Er En Eo _. split; try done; [| lia].
  intros me (? & ? & ?). unfold ready. rewrite Ea, Er, Eo. done.
Qed.

Lemma arm_sim me id d cb ctx (s : State) L :
  timeline (queue s) (regs s) L → ready me s → id ∈ dom (regs s) →
  0 ≤ next_sequence_ (queue s) < 2 ^ 64 - 1 →
  let '(r, A') := abs_arm (mkEntry id d cb ctx) (entry (regs s) <$> L) in
  ∃ s', arm self me id d cb ctx s = Val (r, s') ∧ stepped s s' A' (env s).
Proof.
  intros T Hready [r Er]%elem_of_dom Hseq. pose proof (ready_owner _ _ Hready) as Hown.
  destruct Hready as (Hrun & Hacc & Hme). pose proof (tl_wf _ _ _ T) as W.
  pose proof (represents_stepped _ _ _ _ (represents_refl _ _ T)) as Hsame.
  unfold abs_arm. rewrite entry_ids. cbn [entry_id entry_callback].
  unfold arm. rewrite Hrun, Hown, Hacc. cbn [negb]. unfold deref. rewrite Er.
  cbn [mbind outcome_bind from_option_ub].
  destruct (tl_sole _ _ _ T _ _ Er) as [Hn | Hs].
  2: { rewrite (bool_decide_true (id ∈ L)) by
         (rewrite (tl_perm _ _ _ T); by apply (wf_owned _ _ W _ _ Er)).
       rewrite Hs, bool_decide_true by done. simpl. eauto. }
  rewrite (bool_decide_false (id ∈ L)) by
    (rewrite (tl_perm _ _ _ T), <- (wf_owned _ _ W _ _ Er); congruence).
  rewrite Hn, (wf_detached _ _ W _ _ Er Hn), !(bool_decide_false (None ≠ None)) by naive_solver. cbn [orb].
  destruct cb as [cb |]; [rewrite bool_decide_false by done | rewrite bool_decide_true by done; eauto].
  set (r' := mkReg _ _ _ _ _ _).
  destruct (put_in (queue s) (regs s) id r r') as (h' & st' & E' & W' & Hp & Hag & Hr''); try done.
  rewrite E'. cbn [mbind outcome_bind fst snd]. unfold wrap64. rewrite Z.mod_small by lia.
  destruct (abs_insert_split (regs s) (mkEntry id d (Some cb) ctx) L (tl_sorted _ _ _ T))
    as (L1 & L2 & -> & EA & H1 & H2).
  eexists. split; [done |].
  pose proof (timeline_put_in _ _ id r r' L1 L2 h' st' T Er Hn eq_refl (proj1 Hseq) eq_refl H1 H2 W' Hp Hag Hr'') as T'.
  rewrite Hrun, Hacc in T'.
  split; simpl.
  - exists (L1 ++ id :: L2). split; [exact T' |]. rewrite EA, fmap_app, fmap_cons.
    pose proof (timeline_NoDup _ _ _ T') as Hnd. rewrite <- Permutation_middle in Hnd.
    apply list.NoDup_cons in Hnd as [Hnd _]. rewrite not_elem_of_app in Hnd.
    rewrite !(agree_entries id (regs s) st') by naive_solver. f_equal. f_equal.
    destruct Hr'' as (r'' & Er'' & (_ & Ed & _ & Ec & Ex)%erase_fields).
    unfold entry. rewrite Er'', Ed, Ec, Ex. done.
  - done.
  - intros me' (? & ? & ?). by repeat split.
  - lia.
  - apply set_eq. intros p. rewrite !elem_of_dom. destruct (decide (p = id)) as [-> | Hne].
    + destruct Hr'' as (r'' & -> & _). rewrite Er. by split; eexists.
    + specialize (Hag p Hne). by destruct (regs s !! p), (st' !! p).
Qed.

Lemma entries_without st id (L : list nat) :
  id ∉ L → filter (λ e, entry_id e ≠ id) (entry st <$> L) = entry st <$> L.
Proof.
  induction L as [| x L IH]; intros Hid; [done |]. apply not_elem_of_cons in Hid as [Hx HL].
  rewrite fmap_cons, filter_cons_True by (rewrite entry_id_of; congruence). by rewrite IH.
Qed.

Lemma disarm_sim me id (s : State) L :
  timeline (queue s) (regs s) L → ready me s → id ∈ dom (regs s) →
  let '(b, A') := abs_disarm id (entry (regs s) <$> L) in
  ∃ s', disarm self me id s = Val (b, s') ∧ stepped s s' A' (env s).
Proof.
  intros T Hready [r Er]%elem_of_dom. pose proof (ready_owner _ _ Hready) as Hown.
  destruct Hready as (Hrun & Hacc & Hme). pose proof (tl_wf _ _ _ T) as W.
  unfold abs_disarm. rewrite entry_ids. unfold disarm. rewrite Hrun, Hown. cbn [negb orb].
  unfold deref. rewrite Er. cbn [mbind outcome_bind from_option_ub].
  destruct (decide (id ∈ L)) as [Hin | Hnin].
  - rewrite (bool_decide_true (id ∈ L)) by done.
    assert (id ∈ heap_ (queue s)) as Hin' by (by rewrite <- (tl_perm _ _ _ T)).
    destruct (wf_heap_lookup _ _ _ W Hin') as (i & r0 & Hi & Er0 & Hix & Ho).
    assert (r0 = r) as -> by congruence. rewrite Ho, bool_decide_true by done. cbn [negb].
    unfold at_claimed_index. rewrite Hix. cbn [mbind option_bind]. rewrite bool_decide_true by done.
    apply list_elem_of_split in Hin as (L1 & L2 & ->).
    destruct (timeline_take_out _ _ L1 id L2 i T Hi) as (r1 & h' & st' & _ & Eq & _ & Eu & T' & Hag & Hd).
    unfold heap_store. rewrite Eq. cbn [mbind outcome_bind fst snd]. rewrite Eu.
    cbn [mbind outcome_bind fst snd]. eexists. split; [done |].
    apply represents_stepped. split; [| done | done | done]. exists (L1 ++ L2). split; [exact T' |].
    pose proof (timeline_NoDup _ _ _ T) as Hnd. rewrite <- Permutation_middle in Hnd.
    apply list.NoDup_cons in Hnd as [Hnd _].
    cbn [set_heap_store regs snd]. rewrite (agree_entries id _ _ _ Hag Hnd).
    rewrite !fmap_app, fmap_cons, list.filter_app, filter_cons_False by (rewrite entry_id_of; naive_solver).
    rewrite <- list.filter_app, <- fmap_app. by rewrite entries_without.
  - rewrite (bool_decide_false (id ∈ L)) by done.
    rewrite bool_decide_false by (rewrite (wf_owned _ _ W _ _ Er), <- (tl_perm _ _ _ T); done).
    cbn [negb]. exists s. split; [done |].
    rewrite entries_without by done. by apply represents_stepped, represents_refl.
Qed.

Lemma expire_sim me now budget (s : State) L :
  timeline (queue s) (regs s) L → ready me s →
  let '(d, (A', e')) := abs_expire invoke now budget (entry (regs s) <$> L) (env s) in
  ∃ s', expire invoke me now budget s = Val (d, s') ∧ stepped s s' A' e'.
Proof.
  intros T Hready. pose proof (ready_owner _ _ Hready) as Hown. destruct Hready as (Hrun & _).
  unfold abs_expire, expire. rewrite Hrun, Hown. cbn [negb orb].
  pose proof (expire_loop_sim (S (length (heap_ (queue s)))) now budget 0 0 s L T) as Hl.
  rewrite (Permutation_length (tl_perm _ _ _ T)) in Hl. specialize (Hl ltac:(lia)).
  destruct (abs_dispatch _ _ _ _ _ _ _) as [[[n f] A'] e']. destruct Hl as (s' & Eq & R).
  rewrite Eq. cbn [mbind outcome_bind]. destruct (rep_list _ _ _ _ R) as (L' & T' & EL').
  rewrite (front_due_sim _ _ _ T'), EL'. cbn [mbind outcome_bind dispatched schedule_failures].
  exists s'. split; [done |]. by apply represents_stepped.
Qed.

Lemma cancel_all_sim me (s : State) L :
  timeline (queue s) (regs s) L → ready me s →
  let '(d, (A', e')) := abs_cancel_all invoke (entry (regs s) <$> L) (env s) in
  ∃ s', cancel_all invoke me s = Val (d, s') ∧ stepped s s' A' e'.
Proof.
  intros T Hready. pose proof (ready_owner _ _ Hready) as Hown. destruct Hready as (Hrun & _).
  unfold abs_cancel_all, cancel_all. rewrite Hrun, Hown. cbn [negb orb].
  pose proof (cancel_loop_sim (S (length (heap_ (queue s)))) 0 0 s L T) as Hl.
  rewrite (Permutation_length (tl_perm _ _ _ T)) in Hl. specialize (Hl ltac:(lia)).
  destruct (abs_dispatch _ _ _ _ _ _ _) as [[[n f] A'] e']. destruct Hl as (s' & Eq & R).
  exists s'. split; [done |]. by apply represents_stepped.
Qed.

(** *** Traces *)
Inductive TimerOp :=
  | OpArm (id : nat) (deadline : Z) (completion context : option nat)
  | OpDisarm (id : nat)
  | OpExpire (now budget : Z)
  | OpCancelAll.

Inductive TimerReply :=
  | RArm (r : ArmResult)
  | RDisarm (b : bool)
  | RDispatch (d : DispatchResult).

Definition timer_step (me : nat) (op : TimerOp) (s : State) : result (TimerReply * State) :=
  match op with
  | OpArm id d cb ctx => '(r, s') ← arm self me id d cb ctx s; Val (RArm r, s')
  | OpDisarm id => '(b, s') ← disarm self me id s; Val (RDisarm b, s')
  | OpExpire now budget => '(d, s') ← expire invoke me now budget s; Val (RDispatch d, s')
  | OpCancelAll => '(d, s') ← cancel_all invoke me s; Val (RDispatch d, s')
  end.

Fixpoint timer_run (me : nat) (ops : list TimerOp) (s : State) : result (list TimerReply * State) :=
  match ops with
  | [] => Val ([], s)
  | op :: ops =>
      '(r, s1) ← timer_step me op s;
      '(rs, s2) ← timer_run me ops s1;
      Val (r :: rs, s2)
  end.

Definition abs_step (op : TimerOp) (A : list Entry) (e : E) : TimerReply * (list Entry * E) :=
  match op with
  | OpArm id d cb ctx => let '(r, A') := abs_arm (mkEntry id d cb ctx) A in (RArm r, (A', e))
  | OpDisarm id => let '(b, A') := abs_disarm id A in (RDisarm b, (A', e))
  | OpExpire now budget => let '(d, Ae) := abs_expire invoke now budget A e in (RDispatch d, Ae)
  | OpCancelAll => let '(d, Ae) := abs_cancel_all invoke A e in (RDispatch d, Ae)
  end.

Fixpoint abs_run (ops : list TimerOp) (A : list Entry) (e : E) : list TimerReply * (list Entry * E) :=
  match ops with
  | [] => ([], (A, e))
  | op :: ops =>
      let '(r, (A1, e1)) := abs_step op A e in
      let '(rs, Ae2) := abs_run ops A1 e1 in
      (r :: rs, Ae2)
  end.

(** The registration an operation names exists. *)
Definition live (st : Store) (op : TimerOp) : Prop :=
  match op with OpArm id _ _ _ | OpDisarm id => id ∈ dom st | _ => True end.

Lemma timer_step_sim me op s L :
  timeline (queue s) (regs s) L → ready me s → live (regs s) op →
  0 ≤ next_sequence_ (queue s) < 2 ^ 64 - 1 →
  let '(r, (A', e')) := abs_step op (entry (regs s) <$> L) (env s) in
  ∃ s', timer_step me op s = Val (r, s') ∧ stepped s s' A' e'.
Proof.
  intros T Hr Hl Hseq. destruct op as [id d cb ctx | id | now budget |]; cbn [abs_step timer_step].
  - pose proof (arm_sim me id d cb ctx s L T Hr Hl Hseq) as H.
    destruct (abs_arm _ _) as [r A']. destruct H as (s' & -> & H). by exists s'.
  - pose proof (disarm_sim me id s L T Hr Hl) as H.
    destruct (abs_disarm _ _) as [r A']. destruct H as (s' & -> & H). by exists s'.
  - pose proof (expire_sim me now budget s L T Hr) as H.
    destruct (abs_expire _ _ _ _ _) as [r [A' e']]. destruct H as (s' & -> & H). by exists s'.
  - pose proof (cancel_all_sim me s L T Hr) as H.
    destruct (abs_cancel_all _ _ _) as [r [A' e']]. destruct H as (s' & -> & H). by exists s'.
Qed.

(** The state represents the abstract queue [A]. *)
Definition queue_is (s : State) (A : list Entry) : Prop :=
  ∃ L, timeline (queue s) (regs s) L ∧ entry (regs s) <$> L = A.

Lemma timer_run_sim me ops s A :
  queue_is s A → ready me s → Forall (live (regs s)) ops →
  0 ≤ next_sequence_ (queue s) → next_sequence_ (queue s) + Z.of_nat (length ops) < 2 ^ 64 →
  ∃ rs s', timer_run me ops s = Val (rs, s') ∧ ready me s' ∧
    ∃ A', abs_run ops A (env s) = (rs, (A', env s')) ∧ queue_is s' A'.
Proof.
  revert s A. induction ops as [| op ops IH]; intros s A HA Hr Hl H0 Hlen.
  { exists [], s. split; [done |]. split; [done |]. exists A. by split. }
  apply Forall_cons_1 in Hl as [Hop Hl]. destruct HA as (L & T & <-). simpl in Hlen.
  pose proof (timer_step_sim me op s L T Hr Hop ltac:(lia)) as Hs. cbn [timer_run abs_run].
  destruct (abs_step op _ _) as [r [A1 e1]]. destruct Hs as (s1 & -> & [HL1 <- Hr1 Hsq Hd]).
  cbn [mbind outcome_bind].
  destruct (IH s1 A1 HL1 (Hr1 me Hr)) as (rs & s2 & -> & Hr2 & A2 & EA2 & HA2); [| lia | lia |].
  { eapply Forall_impl; [| exact Hl]. intros o. unfold live. by rewrite Hd. }
  cbn [mbind outcome_bind]. exists (r :: rs), s2. split; [done |]. split; [done |].
  exists A2. by rewrite EA2.
Qed.

(** ** The whole life of a queue

    Every operation, from any thread.  A step that would use a registration that does not
    exist, or construct one over another, is not a program step. *)
Inductive LifeOp :=
  | LStart (me scheduler : nat) (owns : bool)
  | LClose (me : nat)
  | LStop (me : nat)
  | LArm (me id : nat) (deadline : Z) (completion context : option nat)
  | LDisarm (me id : nat)
  | LExpire (me : nat) (now budget : Z)
  | LCancelAll (me : nat)
  | LConstruct (id : nat)
  | LDestroy (me id : nat).

Definition life_possible (op : LifeOp) (s : State) : bool :=
  match op with
  | LArm _ id _ _ _ | LDisarm _ id | LDestroy _ id => bool_decide (id ∈ dom (regs s))
  | LConstruct id => bool_decide (id ∉ dom (regs s))
  | _ => true
  end.

Definition life_step (op : LifeOp) (s : State) : result State :=
  if negb (life_possible op s) then Val s else
  match op with
  | LStart me sched owns => Val (start me sched owns s).2
  | LClose me => Val (close me s).2
  | LStop me => Val (stop me s).2
  | LArm me id d cb ctx => '(_, s') ← arm self me id d cb ctx s; Val s'
  | LDisarm me id => '(_, s') ← disarm self me id s; Val s'
  | LExpire me now budget => '(_, s') ← expire invoke me now budget s; Val s'
  | LCancelAll me => '(_, s') ← cancel_all invoke me s; Val s'
  | LConstruct id => Val (construct_registration id s)
  | LDestroy me id => destroy_registration self me id s
  end.

Fixpoint life_run (ops : list LifeOp) (s : State) : result State :=
  match ops with
  | [] => Val s
  | op :: ops => s' ← life_step op s; life_run ops s'
  end.

(** The invariant, and the count of failures while every callback succeeds. *)
Definition healthy (s : State) : Prop :=
  wf (queue s) (regs s) ∧
  ((∀ cb ctx c e, (invoke cb ctx c e).1 = true) → invariant_failures_ (queue s) = 0).

Definition thread_of (s : State) : bool * option nat := (running_ (queue s), owner_thread_ (queue s)).

Lemma arm_healthy me id d cb ctx (s : State) :
  healthy s → id ∈ dom (regs s) →
  ∃ r s', arm self me id d cb ctx s = Val (r, s') ∧ healthy s' ∧ thread_of s' = thread_of s.
Proof.
  intros Hh [r Er]%elem_of_dom. pose proof Hh as [W Hf]. unfold arm.
  destruct (running_ (queue s)) eqn:Hrun; cbn [negb]; [| by eauto].
  destruct (on_owner_thread me (queue s)); cbn [negb]; [| by eauto].
  destruct (accepting_ (queue s)) eqn:Hacc; cbn [negb]; [| by eauto].
  unfold deref. rewrite Er. cbn [mbind outcome_bind from_option_ub].
  destruct (owner_ r) eqn:Hn; [rewrite bool_decide_true by done; cbn [orb]; by eauto |].
  rewrite (wf_detached _ _ W _ _ Er Hn), !(bool_decide_false (None ≠ None)) by naive_solver. cbn [orb].
  destruct cb as [cb |]; [rewrite bool_decide_false by done | rewrite bool_decide_true by done; by eauto].
  set (r' := mkReg _ _ _ _ _ _).
  destruct (put_in (queue s) (regs s) id r r') as (h' & st' & E' & W' & _); try done.
  rewrite E'. cbn [mbind outcome_bind fst snd]. eexists _, _. split; [done |].
  split; [| by unfold thread_of; rewrite Hrun]. split; simpl; [| done].
  by eapply wf_ext; [| | | exact W'].
Qed.

(** Removal of an armed registration by its claimed position. *)
Lemma remove_armed (s : State) id r :
  wf (queue s) (regs s) → regs s !! id = Some r → owner_ r = Some self →
  ∃ i h' st' st'', at_claimed_index (heap_ (queue s)) r id = Some i ∧
    remove_at i (heap_store s) = Val (id, (h', st')) ∧
    update id without_callback st' = Val st'' ∧ wf (with_heap h' (queue s)) st'' ∧
    id ∉ h' ∧ agree_but id (regs s) st'' ∧ ∃ r', st'' !! id = Some r' ∧ owner_ r' = None.
Proof.
  intros W Er Ho. apply (wf_owned _ _ W _ _ Er) in Ho as Hin.
  destruct (wf_heap_lookup _ _ _ W Hin) as (i & r0 & Hi & Er0 & Hix & _).
  assert (r0 = r) as -> by congruence.
  destruct (take_out _ _ i id W Hi) as (r1 & h' & st' & _ & Eq & Er1 & Eu & W' & Hp & Hag).
  exists i, h', st', (<[id := without_callback (with_index None (with_owner None r1))]> st').
  split; [unfold at_claimed_index; rewrite Hix; simpl; by rewrite bool_decide_true |].
  split; [done |]. split; [done |]. split; [done |]. split; [| split; [done |]].
  - assert (NoDup (id :: h')) as [? _]%list.NoDup_cons
      by (rewrite Hp; exact (indexed_NoDup _ _ (wf_indexed _ _ W))). done.
  - eexists. rewrite lookup_insert, decide_True by done. by split.
Qed.

Lemma disarm_healthy me id (s : State) :
  healthy s → id ∈ dom (regs s) → 
  ∃ b s', disarm self me id s = Val (b, s') ∧ healthy s' ∧ thread_of s' = thread_of s.
Proof.
  intros Hh [r Er]%elem_of_dom. pose proof Hh as [W Hf]. unfold disarm.
  destruct (negb _ || negb _); [by eauto |]. unfold deref. rewrite Er.
  cbn [mbind outcome_bind from_option_ub]. case_bool_decide as Ho; cbn [negb]; [| by eauto].
  destruct (remove_armed s id r W Er Ho) as (i & h' & st' & st'' & -> & Eq & Eu & W' & _).
  rewrite Eq. cbn [mbind outcome_bind fst snd]. rewrite Eu. cbn [mbind outcome_bind].
  eexists _, _. split; [done |]. by split; [split |].
Qed.

Lemma complete_front_healthy c res (s : State) :
  healthy s → heap_ (queue s) ≠ [] →
  ∃ res' s', complete_front invoke c (res, s) = Val (res', s') ∧ healthy s' ∧
    S (length (heap_ (queue s'))) = length (heap_ (queue s)) ∧ thread_of s' = thread_of s.
Proof.
  intros [W Hf] Hne. destruct (heap_ (queue s)) as [| x h] eqn:Eh; [done |].
  destruct (take_out _ _ 0%nat x W) as (r & h' & st' & Er & Eq & Er' & Eu & W' & Hp & _); [by rewrite Eh |].
  unfold complete_front, heap_store. rewrite Eq. cbn [mbind outcome_bind fst snd].
  unfold deref. rewrite Er'. cbn [mbind outcome_bind from_option_ub]. rewrite Eu.
  cbn [mbind outcome_bind fst snd set_heap_store completion_ context_ with_index with_owner env].
  apply Permutation_length in Hp. rewrite Eh in Hp. simpl in Hp.
  assert (completion_ r ≠ None) as Hcb by (apply (wf_callbacks _ _ W _ _ Er); rewrite Eh; by left).
  destruct (completion_ r) as [cb |]; [| done].
  destruct (invoke cb (context_ r) c (env s)) as [ok e'] eqn:Ei.
  destruct ok; eexists _, _; (split; [done |]); simpl; (split; [split; simpl | split; [lia | done]]).
  - done.
  - done.
  - by eapply wf_ext; [| | | exact W'].
  - intros Hall. specialize (Hall cb (context_ r) c (env s)). by rewrite Ei in Hall.
Qed.

Lemma front_due_val now (s : State) : wf (queue s) (regs s) → ∃ b, front_due now s = Val b ∧ (b = true → heap_ (queue s) ≠ []).
Proof.
  intros W. unfold front_due. destruct (heap_ (queue s)) as [| x h] eqn:Eh; [by exists false |].
  destruct (wf_indexed _ _ W 0%nat x) as (r & Er & _); [by rewrite Eh |].
  unfold deref. rewrite Er. simpl. eauto.
Qed.

Lemma expire_loop_healthy fuel now budget res (s : State) :
  healthy s → (length (heap_ (queue s)) < fuel)%nat →
  ∃ res' s', expire_loop invoke fuel now budget (res, s) = Val (res', s') ∧ healthy s' ∧
    thread_of s' = thread_of s.
Proof.
  revert res s. induction fuel as [| fuel IH]; intros res s Hh Hf; [lia |].
  cbn [expire_loop fst snd]. destruct (front_due_val now s (proj1 Hh)) as (b & Eb & Hb). rewrite Eb.
  destruct (dispatched res <? budget); cbn [mbind outcome_bind]; [| by eauto].
  destruct b; [| by eauto].
  destruct (complete_front_healthy Expired res s Hh (Hb eq_refl)) as (res1 & s1 & -> & Hh1 & Hl & <-).
  apply IH; [done | lia].
Qed.

Lemma cancel_loop_healthy fuel res (s : State) :
  healthy s → (length (heap_ (queue s)) < fuel)%nat →
  ∃ res' s', cancel_loop invoke fuel (res, s) = Val (res', s') ∧ healthy s' ∧
    thread_of s' = thread_of s.
Proof.
  revert res s. induction fuel as [| fuel IH]; intros res s Hh Hf; [lia |].
  cbn [cancel_loop snd]. case_bool_decide as Hn; [by eauto |].
  destruct (complete_front_healthy Cancelled res s Hh Hn) as (res1 & s1 & -> & Hh1 & Hl & <-).
  apply IH; [done | lia].
Qed.

Lemma wf_delete q st id : wf q st → id ∉ heap_ q → wf q (delete id st).
Proof.
  intros W Hid. assert (∀ p r, delete id st !! p = Some r → st !! p = Some r) as Hl
    by (intros p r [_ ?]%lookup_delete_Some; done).
  split.
  - intros i p Hi. destruct (wf_indexed _ _ W i p Hi) as (r & Er & Hr). exists r. split; [| done].
    rewrite lookup_delete_ne; [done |]. intros ->. apply Hid. by eapply list_elem_of_lookup_2.
  - intros p r Ep. exact (wf_owned _ _ W _ _ (Hl _ _ Ep)).
  - intros p r Ep. exact (wf_detached _ _ W _ _ (Hl _ _ Ep)).
  - intros p r Ep. exact (wf_callbacks _ _ W _ _ (Hl _ _ Ep)).
  - eapply ordered_ext; [| exact (wf_ordered _ _ W)]. intros i Hi. unfold keyf, key.
    rewrite lookup_delete_ne; [done |]. intros ->. apply Hid.
    apply list_elem_of_lookup_2 with i. by apply lookup_lt_total.
  - exact (wf_running _ _ W).
Qed.

Lemma wf_construct q st id : wf q st → id ∉ dom st → wf q (<[id := fresh_registration]> st).
Proof.
  intros W Hid. apply not_elem_of_dom in Hid.
  assert (id ∉ heap_ q) as Hh.
  { intros Hin. destruct (wf_heap_lookup _ _ _ W Hin) as (i & r & _ & Er & _). congruence. }
  split.
  - intros i p Hi. destruct (wf_indexed _ _ W i p Hi) as (r & Er & Hr). exists r. split; [| done].
    rewrite lookup_insert_ne; [done |]. intros ->. congruence.
  - intros p r [[<- <-] | [_ Ep]]%lookup_insert_Some; [by split | exact (wf_owned _ _ W _ _ Ep)].
  - intros p r [[<- <-] | [_ Ep]]%lookup_insert_Some; [done | exact (wf_detached _ _ W _ _ Ep)].
  - intros p r [[<- <-] | [_ Ep]]%lookup_insert_Some; [done | exact (wf_callbacks _ _ W _ _ Ep)].
  - eapply ordered_ext; [| exact (wf_ordered _ _ W)]. intros i Hi. unfold keyf.
    rewrite key_insert_ne; [done |]. intros Ei. apply Hh. rewrite <- Ei.
    apply list_elem_of_lookup_2 with i. by apply lookup_lt_total.
  - exact (wf_running _ _ W).
Qed.

(** Destruction detaches; only a foreign thread is stopped, by ending the process. *)
Lemma destroy_healthy me id (s : State) :
  healthy s → id ∈ dom (regs s) →
  (∃ s', destroy_registration self me id s = Val s' ∧ healthy s' ∧
    control (queue s') = control (queue s)) ∨
  destroy_registration self me id s = Err terminate ∧
    running_ (queue s) = true ∧ owner_thread_ (queue s) ≠ Some me.
Proof.
  intros Hh [r Er]%elem_of_dom. pose proof Hh as [W Hf]. unfold destroy_registration, abandon, deref.
  rewrite Er. cbn [mbind outcome_bind from_option_ub].
  case_bool_decide as Ho; cbn [negb mbind outcome_bind].
  - destruct (running_ (queue s) && negb (on_owner_thread me (queue s))) eqn:Et.
    { right. split; [done |]. bool_hyps. split; [done |]. unfold on_owner_thread in *.
      intros Hme. rewrite H, Hme, bool_decide_true in H0; done. }
    destruct (remove_armed s id r W Er Ho) as (i & h' & st' & st'' & -> & Eq & Eu & W' & Hid & _).
    rewrite Eq. cbn [mbind outcome_bind fst snd]. rewrite Eu. cbn [mbind outcome_bind]. left.
    eexists. split; [done |]. split; [| done]. split; simpl; [| done]. by apply wf_delete.
  - left. eexists. split; [done |]. split; [| done]. split; simpl; [| done].
    apply wf_delete; [done |]. by rewrite <- (wf_owned _ _ W _ _ Er).
Qed.

Lemma destroy_loop_ok fuel q st :
  wf q st → (length (heap_ q) < fuel)%nat →
  ∃ st', destroy_loop fuel (heap_ q, st) = Val ([], st') ∧ wf (with_heap [] q) st'.
Proof.
  revert q st. induction fuel as [| fuel IH]; intros q st W Hf; [lia |]. cbn [destroy_loop fst snd].
  case_bool_decide as Hn; [exists st; rewrite Hn; split; [done |]; by eapply wf_ext; [| | | exact W] |].
  destruct (heap_ q) as [| x h] eqn:Eh; [done |].
  destruct (take_out q st 0%nat x W) as (r & h' & st' & Er & Eq & Er' & Eu & W' & Hp & _); [by rewrite Eh |].
  rewrite Eh in Eq. rewrite Eq. cbn [mbind outcome_bind fst snd]. rewrite Eu. cbn [mbind outcome_bind].
  apply Permutation_length in Hp. rewrite Eh in Hp. simpl in Hp, Hf.
  destruct (IH _ _ W') as (st2 & E2 & W2); [simpl; lia |]. exists st2. split; [exact E2 | exact W2].
Qed.

Lemma destroy_queue_ok (s : State) :
  wf (queue s) (regs s) →
  ∃ st, destroy_queue s = Val st ∧ ∀ id r, st !! id = Some r → owner_ r ≠ Some self.
Proof.
  intros W. unfold destroy_queue, heap_store.
  destruct (destroy_loop_ok (S (length (heap_ (queue s)))) _ _ W) as (st & -> & W'); [lia |].
  exists st. split; [done |]. intros id r Er Ho. apply (wf_owned _ _ W' _ _ Er) in Ho. simpl in Ho.
  by apply elem_of_nil in Ho.
Qed.

Definition op_thread (op : LifeOp) : option nat :=
  match op with
  | LStart me _ _ | LClose me | LStop me | LArm me _ _ _ _ | LDisarm me _ | LExpire me _ _
  | LCancelAll me | LDestroy me _ => Some me
  | LConstruct _ => None
  end.

(** Whoever runs the queue is [me]. *)
Definition held (me : nat) (s : State) : Prop :=
  running_ (queue s) = true → owner_thread_ (queue s) = Some me.

Lemma held_thread me s s' : thread_of s' = thread_of s → held me s → held me s'.
Proof. intros Et. injection Et. intros Eo Er. unfold held. by rewrite Eo, Er. Qed.

Definition is_control (op : LifeOp) : bool :=
  match op with LStart _ _ _ | LClose _ | LStop _ => true | _ => false end.

(** The control operations touch the heap in no way. *)
Lemma control_step op (s s' : State) :
  life_step op s = Val s' → is_control op = true →
  healthy s → healthy s' ∧ ∀ me, op_thread op = Some me → held me s → held me s'.
Proof.
  intros Hs Hop Hh0. pose proof Hh0 as [W Hf]. destruct op; try done; unfold life_step in Hs; cbn [life_possible negb] in Hs;
    injection Hs as <-; [unfold start | unfold close | unfold stop].
  - destruct (running_ (queue s)) eqn:Hrun; cbn [orb]; [by split; [exact Hh0 |] |].
    case_bool_decide as Hh; cbn [negb orb]; [| by split; [exact Hh0 |]]. destruct owns; [| by split; [exact Hh0 |]].
    split; [split; simpl; [| done] | by intros me' [= <-] _].
    destruct W as [H1 H2 H3 H4 H5 H6]. by split.
  - destruct (_ && _); [by split; [exact Hh0 |] |]. simpl. split; [| done]. split; simpl; [| done].
    destruct W as [H1 H2 H3 H4 H5 H6]. split; simpl; try done. intros [H | H]; [by apply H6; left | done].
  - destruct (_ && _); [by split; [exact Hh0 |] |]. case_bool_decide as Hh; cbn [negb]; [| by split; [exact Hh0 |]].
    simpl. split; [| done]. split; simpl; [| done].
    destruct W as [H1 H2 H3 H4 H5 H6]. split; simpl; try done. by intros [H | H].
Qed.

Lemma life_step_ok op (s : State) :
  healthy s →
  (∃ s', life_step op s = Val s' ∧ healthy s' ∧
    ∀ me, (op_thread op = Some me ∨ op_thread op = None) → held me s → held me s') ∨
  life_step op s = Err terminate ∧ ∀ me, op_thread op = Some me → ¬ held me s.
Proof.
  intros Hh. destruct (life_possible op s) eqn:Hp; cycle 1.
  { left. exists s. unfold life_step. rewrite Hp. by split. }
  destruct (is_control op) eqn:Hc.
  { assert (∃ s', life_step op s = Val s') as [s' Hs'] by (unfold life_step; rewrite Hp; destruct op; try done; eauto).
    left. exists s'. split; [done |]. destruct (control_step op s s' Hs' Hc Hh) as [Hh' Ht]. split; [done |].
    intros me [Hme | Hme]; [by apply Ht | by destruct op]. }
  pose proof Hh as [W Hf]. unfold life_step. rewrite Hp. cbn [negb].
  destruct op as [| | | me id d cb ctx | me id | me now budget | me | id | me id]; try done; simpl in Hp.
  - apply bool_decide_eq_true in Hp.
    destruct (arm_healthy me id d cb ctx s Hh Hp) as (r & s' & -> & Hh' & Ht). left. exists s'.
    split; [done |]. split; [done |]. intros me' _. by apply held_thread.
  - apply bool_decide_eq_true in Hp.
    destruct (disarm_healthy me id s Hh Hp) as (r & s' & -> & Hh' & Ht). left. exists s'.
    split; [done |]. split; [done |]. intros me' _. by apply held_thread.
  - left. unfold expire. destruct (_ || _); [by exists s |].
    destruct (expire_loop_healthy (S (length (heap_ (queue s)))) now budget (mkDispatch 0 0 false) s Hh)
      as (r & s' & -> & Hh' & Ht); [lia |]. cbn [mbind outcome_bind].
    destruct (front_due_val now s' (proj1 Hh')) as (b & -> & _). exists s'.
    split; [done |]. split; [done |]. intros me' _. by apply held_thread.
  - left. unfold cancel_all. destruct (_ || _); [by exists s |].
    destruct (cancel_loop_healthy (S (length (heap_ (queue s)))) (mkDispatch 0 0 false) s Hh)
      as (r & s' & -> & Hh' & Ht); [lia |]. exists s'.
    split; [done |]. split; [done |]. intros me' _. by apply held_thread.
  - left. exists (construct_registration id s). split; [done |]. split; [| done].
    split; [| done]. apply wf_construct; [done |]. by apply bool_decide_eq_true in Hp.
  - apply bool_decide_eq_true in Hp.
    destruct (destroy_healthy me id s Hh Hp) as [(s' & -> & Hh' & Ht) | (-> & Hrun & Hown)].
    + left. exists s'. split; [done |]. split; [done |]. intros me' _. apply held_thread.
      injection Ht. intros. unfold thread_of. congruence.
    + right. split; [done |]. intros me' [= <-] Hheld. by apply Hown, Hheld.
Qed.

Lemma life_run_ok ops (s : State) :
  healthy s →
  match life_run ops s with
  | Val s' => healthy s'
  | Err terminate => ∀ me, held me s → ¬ Forall (λ op, op_thread op = Some me ∨ op_thread op = None) ops
  | Undef => False
  end.
Proof.
  revert s. induction ops as [| op ops IH]; intros s Hh; [done |]. cbn [life_run].
  destruct (life_step_ok op s Hh) as [(s' & -> & Hh' & Hheld) | [Ee Hn]];
    [| rewrite Ee]; cbn [mbind outcome_bind].
  - specialize (IH s' Hh'). destruct (life_run ops s') as [s2 | [] |]; [done | | done].
    intros me Hm [Hop Hops]%Forall_cons_1. apply (IH me); [by apply Hheld | done].
  - intros me Hm [[Hop | Hop] _]%Forall_cons_1; [by apply (Hn me) |].
    destruct op; try done. unfold life_step in Ee. by destruct (life_possible _ _).
Qed.

End claims.

(** ** Waiting *)
Lemma ceil_milliseconds_spec d :
  0 < d → let t := ceil_milliseconds d in
  0 < t ∧ (t - 1) * nanoseconds_per_millisecond < d ≤ t * nanoseconds_per_millisecond.
Proof.
  intros Hd. unfold ceil_milliseconds, nanoseconds_per_millisecond. rewrite Z.quot_div_nonneg by lia.
  destruct (Z.ltb_spec (d / 1000000 * 1000000) d); dlia.
Qed.

Lemma signed64_small z : int64 z → signed64 z = Val z.
Proof.
  intros [H1 H2]. unfold signed64.
  by rewrite (proj2 (Z.leb_le _ _) H1), (proj2 (Z.leb_le _ _) H2).
Qed.

(** The waiting time for the earliest deadline [d]. *)
Definition exact_wait (now d t : Z) : Prop :=
  0 ≤ t ≤ INT_MAX ∧ (t = 0 ↔ d ≤ now) ∧
  (0 < t → now + (t - 1) * nanoseconds_per_millisecond < d) ∧
  (t < INT_MAX → d ≤ now + t * nanoseconds_per_millisecond).

Lemma saturated_wait now d :
  maximum_wait ≤ d - now → exact_wait now d INT_MAX.
Proof.
  unfold exact_wait, maximum_wait, INT_MAX, nanoseconds_per_millisecond. intros H. repeat split; lia.
Qed.

Lemma wait_timeout_deadline {E} now d (s : @State E) id h r :
  heap_ (queue s) = id :: h → regs s !! id = Some r → deadline_ r = d → int64 now → int64 d →
  ∃ t, wait_timeout now s = Val t ∧ exact_wait now d t.
Proof.
  intros Eh Er <- Hnow Hd. unfold wait_timeout, deref. rewrite Eh, Er. cbn [mbind outcome_bind from_option_ub].
  destruct (Z.leb_spec (deadline_ r) now) as [Hle | Hlt].
  { exists 0. split; [done |]. unfold exact_wait, INT_MAX. repeat split; lia. }
  assert (maximum_wait = 2147483647000000) as Emax by reflexivity.
  destruct (_ && _ && _) eqn:Eb.
  { exists INT_MAX. split; [done |]. apply saturated_wait. rewrite Emax in *.
    apply andb_true_iff in Eb as [Eb Eo]. apply orb_true_iff in Eo. bool_hyps.
    destruct Eo as [Eo | Eo]; bool_hyps; lia. }
  rewrite signed64_small; cycle 1.
  { unfold int64, int64_min, int64_max in *. split; [lia |]. rewrite Emax in Eb.
    destruct (Z.ltb_spec now 0), (Z.leb_spec 0 (deadline_ r)); cbn [andb] in Eb; lia. }
  cbn [mbind outcome_bind]. destruct (Z.leb_spec maximum_wait (deadline_ r - now)) as [Hm | Hm].
  { exists INT_MAX. split; [done |]. by apply saturated_wait. }
  destruct (ceil_milliseconds_spec (deadline_ r - now)) as (Ht0 & Ht1 & Ht2); [lia |].
  set (t := ceil_milliseconds _) in *. rewrite Emax in Hm. unfold nanoseconds_per_millisecond in *.
  exists t. destruct (Z.leb_spec INT_MAX t) as [Hs | Hs]; unfold exact_wait, INT_MAX, nanoseconds_per_millisecond in *.
  - assert (t = 2147483647) as -> by lia. split; [done |]. repeat split; lia.
  - split; [done |]. repeat split; lia.
Qed.

(** [sleep_for] never overflows: the deadline saturates. *)
Lemma sleep_for_deadline_exact now delay :
  int64 now → int64 delay →
  sleep_for_deadline now delay = Val (Z.min int64_max (now + Z.max 0 delay)).
Proof.
  intros Hn Hd. unfold sleep_for_deadline. unfold int64, int64_min, int64_max in *.
  destruct (Z.leb_spec delay 0); [f_equal; lia |].
  destruct (Z.ltb_spec 0 now); cbn [andb].
  - rewrite (signed64_small (2 ^ 63 - 1 - now)) by (unfold int64, int64_min, int64_max; lia). cbn [mbind outcome_bind].
    destruct (Z.ltb_spec (2 ^ 63 - 1 - now) delay); [f_equal; lia |].
    rewrite signed64_small by (unfold int64, int64_min, int64_max; lia). f_equal. lia.
  - cbn [mbind outcome_bind]. rewrite signed64_small by (unfold int64, int64_min, int64_max; lia). f_equal. lia.
Qed.

(** ** Claims *)

(** C19: however arming, disarming, expiry and cancellation follow each other on a running
    queue, the indexed heap answers exactly like a list kept in the order of deadlines, oldest
    first among equals: the same replies, the same callbacks in the same order, the same
    failure counts, and never an out-of-range access; fewer than 2^64 arms since [start]. *)
Theorem timer_queue_refines self {E} (invoke : nat → option nat → TimerCompletion → E → bool * E)
    me ops s A :
  queue_is self s A → ready me s → Forall (live (regs s)) ops →
  0 ≤ next_sequence_ (queue s) → next_sequence_ (queue s) + Z.of_nat (length ops) < 2 ^ 64 →
  ∃ rs s' A', timer_run self invoke me ops s = Val (rs, s') ∧
    abs_run invoke ops A (env s) = (rs, (A', env s')) ∧ queue_is self s' A'.
Proof.
  intros HA Hr Hl H0 Hlen.
  destruct (timer_run_sim self invoke me ops s A HA Hr Hl H0 Hlen) as (rs & s' & E1 & _ & A' & E2 & HA').
  by exists rs, s', A'.
Qed.

(** A running queue with three registrations, and callbacks that log what they are told. *)
Definition log_call (cb : nat) (ctx : option nat) (c : TimerCompletion) (e : list (nat * TimerCompletion)) :
    bool * list (nat * TimerCompletion) := (true, e ++ [(cb, c)]).
Definition sample_state : @State (list (nat * TimerCompletion)) :=
  mkState (mkQueue [] (Some 1%nat) (Some 7%nat) 0 0 true true)
    {[1%nat := fresh_registration; 2%nat := fresh_registration; 3%nat := fresh_registration]} [].
Definition sample_ops : list TimerOp :=
  [OpArm 1 50 (Some 11%nat) None; OpArm 2 20 (Some 12%nat) None; OpArm 3 20 (Some 13%nat) None;
   OpArm 3 5 (Some 13%nat) None; OpExpire 30 10; OpDisarm 2; OpCancelAll].

Lemma sample_queue_is : queue_is 0 sample_state [].
Proof.
  assert (∀ id r, regs sample_state !! id = Some r → r = fresh_registration) as Hr.
  { intros id r. simpl.
    rewrite !lookup_insert_Some, lookup_singleton_Some. naive_solver. }
  exists []. split; [| done]. split; [split | done | constructor | |]; simpl; try done.
  - intros id r Er. apply Hr in Er as ->. split; [done | by intros ?%elem_of_nil].
  - intros id r Er. by apply Hr in Er as ->.
  - intros id r _ ?%elem_of_nil. done.
  - intros j Hj. simpl in Hj. lia.
  - intros id r Er. apply Hr in Er as ->. by left.
  - intros id r _ ?%elem_of_nil. done.
Qed.

Lemma timer_queue_refines_witness :
  (∃ rs s' A', timer_run 0 log_call 7 sample_ops sample_state = Val (rs, s') ∧
    abs_run log_call sample_ops [] [] = (rs, (A', env s')) ∧ queue_is 0 s' A') ∧
  (abs_run log_call sample_ops [] []).2.2 = [(12%nat, Expired); (13%nat, Expired); (11%nat, Cancelled)].
Proof.
  split; [| vm_compute; reflexivity].
  apply (timer_queue_refines 0 log_call 7 sample_ops sample_state []).
  - exact sample_queue_is.
  - repeat split.
  - repeat constructor; simpl; set_solver.
  - done.
  - simpl. lia.
Defined.


(** The time an event loop may wait is computed without overflow for every pair of
    clock values; it is 0 exactly when a timer is due, at least the remaining time rounded up
    to milliseconds otherwise, saturated at INT_MAX, and -1 without timers; no armed
    registration has an earlier deadline than the one waited for. *)
Theorem wait_timeout_exact self {E} (s : @State E) now :
  wf self (queue s) (regs s) → int64 now →
  (∀ id r, id ∈ heap_ (queue s) → regs s !! id = Some r → int64 (deadline_ r)) →
  match heap_ (queue s) with
  | [] => wait_timeout now s = Val (-1)
  | _ => ∃ d t, next_deadline s = Val (Some d) ∧ wait_timeout now s = Val t ∧ exact_wait now d t ∧
      ∀ id r, id ∈ heap_ (queue s) → regs s !! id = Some r → d ≤ deadline_ r
  end.
Proof.
  intros W Hnow Hall. destruct (heap_ (queue s)) as [| x h] eqn:Eh; [unfold wait_timeout; by rewrite Eh |].
  destruct (wf_indexed _ _ _ W 0%nat x) as (rx & Erx & _); [by rewrite Eh |].
  destruct (wait_timeout_deadline now (deadline_ rx) s x h rx Eh Erx eq_refl Hnow) as (t & Et & Hx).
  { apply (Hall x); [by left | done]. }
  exists (deadline_ rx), t. unfold next_deadline, deref. rewrite Eh, Erx. split; [done |].
  split; [done |]. split; [done |]. intros id r [i Hi]%list_elem_of_lookup Er.
  pose proof (wf_ordered _ _ _ W) as Ho. rewrite Eh in Ho.
  pose proof (root_earliest _ _ i Ho (lookup_lt_Some _ _ _ Hi)) as Hle. unfold keyf, key in Hle.
  rewrite (list_lookup_total_correct _ _ _ Hi), Er in Hle. simpl in Hle. rewrite Erx in Hle.
  unfold kle, klt in Hle. simpl in Hle. lia.
Qed.

Definition waiting_ops : list LifeOp :=
  [LConstruct 1; LConstruct 2; LStart 7 1 true; LArm 7 2 900000000 (Some 12%nat) None;
   LArm 7 1 5000001 (Some 11%nat) None].
Definition waiting_state : @State (list (nat * TimerCompletion)) :=
  match life_run 0 log_call waiting_ops (mkState TimerQueue_init ∅ []) with
  | Val s => s
  | _ => mkState TimerQueue_init ∅ []
  end.

Lemma waiting_state_wf : wf 0 (queue waiting_state) (regs waiting_state).
Proof.
  pose proof (life_run_ok 0 log_call waiting_ops (mkState TimerQueue_init ∅ [])
    (conj (wf_init 0) (λ _, eq_refl))) as H.
  unfold waiting_state. destruct (life_run _ _ _ _) as [s | [] |]; [exact (proj1 H) | apply wf_init.. ].
Qed.

Lemma wait_timeout_exact_witness :
  wait_timeout 1000000 waiting_state = Val 5 ∧
  ∃ d t, next_deadline waiting_state = Val (Some d) ∧ wait_timeout 1000000 waiting_state = Val t ∧
    exact_wait 1000000 d t.
Proof.
  split; [vm_compute; reflexivity |].
  destruct (wait_timeout_exact 0 waiting_state 1000000 waiting_state_wf) as (d & t & H1 & H2 & H3 & _).
  - unfold int64, int64_min, int64_max. lia.
  - assert (map_Forall (λ _ r, int64 (deadline_ r)) (regs waiting_state)) as H.
    { assert (bool_decide (map_Forall (λ _ r, int64_min ≤ deadline_ r ≤ int64_max)
        (regs waiting_state)) = true) as Hb by (vm_compute; reflexivity).
      by apply bool_decide_eq_true in Hb. }
    intros id r _ Er. exact (H id r Er).
  - by exists d, t.
Defined.
