(* ===== verification/Scheduler.v ===== *)
(** * Tasks and their scheduler ([runtime/Task.h], [runtime/Scheduler.h],
      [runtime/Scheduler.cpp])

    Module [Sched]: coroutine frames live in a store and are named by their addresses; the
    ready queue and the list of roots are the intrusive lists of the code, threaded through
    the promises of the frames, and a pointer that is followed after its frame is gone is
    [Undef].  What a coroutine body does is a parameter, [behave]: from its local state and
    the answer to its last request it makes the next request.  A step of a running body is
    one request; everything else happens between two steps.

    Stop callbacks that bodies register on their token are not modelled; no code of the
    service registers one. *)
From S2P Require Import Prelude.

Module Sched.

(** ** Data *)
Inductive ScheduleResult := Scheduled | Duplicate | NotRunning | WrongScheduler | WrongThread | Completed.
#[export] Instance ScheduleResult_eq_dec : EqDecision ScheduleResult.
Proof. solve_decision. Defined.

Inductive SpawnResult := Spawned | EmptyTask | NotAccepting | SpawnWrongThread | InvalidTask.

Record RunResult := mkRunResult { resumed : Z; has_ready_result : bool }.

(** The texts of the [std::logic_error]s. *)
Inductive LogicError :=
  | AwaitedEmpty | ParentUnbound | ChildOfOther | ChildNotScheduled
  | ResumedEmpty | ResumedEarly | NoResult | TaskUnbound | CouldNotYield.

Inductive Exception := Logic (e : LogicError) | OperationCancelled | Other (n : nat).

Record TaskPromiseBase := mkPromise {
  scheduler_ : option nat;
  stop_token_ : option nat;
  handle_ : bool;
  exception_ : option Exception;
  continuation_ : option nat;
  ready_next_ : option nat;
  root_previous_ : option nat;
  root_next_ : option nat;
  queued_ : bool;
  root_ : bool;
}.

Definition new_promise : TaskPromiseBase := mkPromise None None true None None None None None false false.

(** [Task::Awaiter]. *)
Record Awaiter := mkAwaiter { awaited_ : option nat; error_ : option LogicError }.

(** Where a coroutine is.  [Parked]: in an awaiter of a timer or of the upstream channel,
    which will schedule it. *)
Inductive Point :=
  | Initial
  | AwaitingChild (a : Awaiter)
  | Yielded
  | Parked
  | Executing
  | Final.

(** What a body is told. *)
Inductive Answer :=
  | Continue
  | SpawnAnswer (r : SpawnResult)
  | AwaitAnswer (value : option nat)
  | Raised (e : Exception)
  | TokenAnswer (token : option nat)
  | ScheduleAnswer (r : ScheduleResult)
  | BoolAnswer (b : bool)
  | SizeAnswer (n : Z)
  | RunAnswer (r : RunResult).

(** What a body asks for.  Its [Task] variables are named by numbers.  [NewTask x b void]:
    call a coroutine function with local state [b] and keep the task in [x]; [void]: it is a
    [Task<void>]. *)
Inductive Request (B : Type) :=
  | NewTask (x : nat) (b : B) (void : bool)
  | MoveTask (x y : nat)
  | ResetTask (x : nat)
  | SpawnTask (x : nat)
  | AwaitTask (x : nat)
  | Yield
  | GetStopToken
  | CancellationPoint
  | Park
  | WakeUp (task : nat)
  | CloseScheduler
  | ShutdownScheduler
  | CancelTasks
  | RunNested
  | ReturnValue (v : nat)
  | ThrowException (e : Exception).
Arguments NewTask {B} _ _ _.
Arguments MoveTask {B} _ _.
Arguments ResetTask {B} _.
Arguments SpawnTask {B} _.
Arguments AwaitTask {B} _.
Arguments Yield {B}.
Arguments GetStopToken {B}.
Arguments CancellationPoint {B}.
Arguments Park {B}.
Arguments WakeUp {B} _.
Arguments CloseScheduler {B}.
Arguments ShutdownScheduler {B}.
Arguments CancelTasks {B}.
Arguments RunNested {B}.
Arguments ReturnValue {B} _.
Arguments ThrowException {B} _.

(** [tasks]: the frames that its [Task] variables own. *)
Record Frame (B : Type) := mkFrame {
  promise : TaskPromiseBase;
  void_ : bool;
  result_ : option nat;
  point : Point;
  local : B;
  answer : Answer;
  tasks : gmap nat nat;
}.
Arguments mkFrame {B} _ _ _ _ _ _ _.
Arguments promise {B} _.
Arguments void_ {B} _.
Arguments result_ {B} _.
Arguments point {B} _.
Arguments local {B} _.
Arguments answer {B} _.
Arguments tasks {B} _.

(** Stop sources and threads are named by numbers; [external_stop_callback_]: whether the
    callback is registered. *)
Record Scheduler := mkScheduler {
  ready_head_ : option nat;
  ready_tail_ : option nat;
  root_head_ : option nat;
  ready_count_ : Z;
  active_count_ : Z;
  unhandled_root_exceptions_ : Z;
  invariant_failures_ : Z;
  last_unhandled_exception_ : option Exception;
  stop_source_ : nat;
  sched_stop_token_ : option nat;
  external_stop_pending_ : bool;
  external_stop_callback_ : bool;
  owner_thread_ : option nat;
  running_ : bool;
  accepting_ : bool;
  dispatching_ : bool;
  cancel_pending_ : bool;
  shutdown_pending_ : bool;
}.

(** Where a call of [run_ready] returns to: its caller, or the loop of [shutdown]. *)
Inductive Caller := Direct | FromShutdown (resume_budget total : Z).

(** What the owner thread does: code outside of coroutines, or [run_ready] with a task
    that executes. *)
Inductive Control :=
  | Outside
  | Dispatching (thread task : nat) (root : bool) (budget count : Z) (caller : Caller).

(** The order of events of the ready queue, and the nested calls of [run_ready]; no code reads
    it. *)
Inductive Event := EvScheduled (task : nat) | EvResumed (task : nat) | EvCleared | EvNested.

(** [main_tasks]: the [Task] variables outside of coroutines.  [stops]: the stop sources
    with a stop request.  [reply]: what the last call outside of coroutines returned. *)
Record World (B : Type) := mkWorld {
  sched : Scheduler;
  frames : gmap nat (Frame B);
  main_tasks : gmap nat nat;
  next_frame : nat;
  next_source : nat;
  stops : gset nat;
  control : Control;
  reply : Answer;
  history : list Event;
}.
Arguments mkWorld {B} _ _ _ _ _ _ _ _ _.
Arguments sched {B} _.
Arguments frames {B} _.
Arguments main_tasks {B} _.
Arguments next_frame {B} _.
Arguments next_source {B} _.
Arguments stops {B} _.
Arguments control {B} _.
Arguments reply {B} _.
Arguments history {B} _.

(** A single scheduler. *)
Definition this : nat := 0.

Notation result := (outcome unit).

(** ** Updates *)
Definition set_ready_link (next : option nat) (queued : bool) (p : TaskPromiseBase) : TaskPromiseBase :=
  mkPromise (scheduler_ p) (stop_token_ p) (handle_ p) (exception_ p) (continuation_ p) next (root_previous_ p) (root_next_ p) queued (root_ p).
Definition set_root_links (previous next : option nat) (root : bool) (p : TaskPromiseBase) : TaskPromiseBase :=
  mkPromise (scheduler_ p) (stop_token_ p) (handle_ p) (exception_ p) (continuation_ p) (ready_next_ p) previous next (queued_ p) root.
Definition set_continuation (c : option nat) (p : TaskPromiseBase) : TaskPromiseBase :=
  mkPromise (scheduler_ p) (stop_token_ p) (handle_ p) (exception_ p) c (ready_next_ p) (root_previous_ p) (root_next_ p) (queued_ p) (root_ p).
Definition set_exception (e : option Exception) (p : TaskPromiseBase) : TaskPromiseBase :=
  mkPromise (scheduler_ p) (stop_token_ p) (handle_ p) e (continuation_ p) (ready_next_ p) (root_previous_ p) (root_next_ p) (queued_ p) (root_ p).
Definition set_handle (h : bool) (p : TaskPromiseBase) : TaskPromiseBase :=
  mkPromise (scheduler_ p) (stop_token_ p) h (exception_ p) (continuation_ p) (ready_next_ p) (root_previous_ p) (root_next_ p) (queued_ p) (root_ p).
Definition set_binding (s token : option nat) (p : TaskPromiseBase) : TaskPromiseBase :=
  mkPromise s token (handle_ p) (exception_ p) (continuation_ p) (ready_next_ p) (root_previous_ p) (root_next_ p) (queued_ p) (root_ p).

Definition set_ready (head tail : option nat) (count : Z) (s : Scheduler) : Scheduler :=
  mkScheduler head tail (root_head_ s) count (active_count_ s) (unhandled_root_exceptions_ s) (invariant_failures_ s)
    (last_unhandled_exception_ s) (stop_source_ s) (sched_stop_token_ s) (external_stop_pending_ s) (external_stop_callback_ s)
    (owner_thread_ s) (running_ s) (accepting_ s) (dispatching_ s) (cancel_pending_ s) (shutdown_pending_ s).
Definition set_roots (head : option nat) (count : Z) (s : Scheduler) : Scheduler :=
  mkScheduler (ready_head_ s) (ready_tail_ s) head (ready_count_ s) count (unhandled_root_exceptions_ s) (invariant_failures_ s)
    (last_unhandled_exception_ s) (stop_source_ s) (sched_stop_token_ s) (external_stop_pending_ s) (external_stop_callback_ s)
    (owner_thread_ s) (running_ s) (accepting_ s) (dispatching_ s) (cancel_pending_ s) (shutdown_pending_ s).
Definition set_faults (unhandled failures : Z) (last : option Exception) (s : Scheduler) : Scheduler :=
  mkScheduler (ready_head_ s) (ready_tail_ s) (root_head_ s) (ready_count_ s) (active_count_ s) unhandled failures last
    (stop_source_ s) (sched_stop_token_ s) (external_stop_pending_ s) (external_stop_callback_ s)
    (owner_thread_ s) (running_ s) (accepting_ s) (dispatching_ s) (cancel_pending_ s) (shutdown_pending_ s).
Definition set_modes (running accepting dispatching cancel shutdown : bool) (s : Scheduler) : Scheduler :=
  mkScheduler (ready_head_ s) (ready_tail_ s) (root_head_ s) (ready_count_ s) (active_count_ s) (unhandled_root_exceptions_ s)
    (invariant_failures_ s) (last_unhandled_exception_ s) (stop_source_ s) (sched_stop_token_ s) (external_stop_pending_ s)
    (external_stop_callback_ s) (owner_thread_ s) running accepting dispatching cancel shutdown.
Definition set_session (source : nat) (token : option nat) (pending callback : bool) (owner : option nat) (s : Scheduler) : Scheduler :=
  mkScheduler (ready_head_ s) (ready_tail_ s) (root_head_ s) (ready_count_ s) (active_count_ s) (unhandled_root_exceptions_ s)
    (invariant_failures_ s) (last_unhandled_exception_ s) source token pending callback owner (running_ s) (accepting_ s)
    (dispatching_ s) (cancel_pending_ s) (shutdown_pending_ s).

Definition set_accepting (b : bool) (s : Scheduler) : Scheduler :=
  set_modes (running_ s) b (dispatching_ s) (cancel_pending_ s) (shutdown_pending_ s) s.
Definition set_dispatching (b : bool) (s : Scheduler) : Scheduler :=
  set_modes (running_ s) (accepting_ s) b (cancel_pending_ s) (shutdown_pending_ s) s.
Definition record_invariant_failure (s : Scheduler) : Scheduler :=
  set_faults (unhandled_root_exceptions_ s) (wrap64 (invariant_failures_ s + 1)) (last_unhandled_exception_ s) s.

Definition on_owner_thread (thread : nat) (s : Scheduler) : bool :=
  running_ s && bool_decide (owner_thread_ s = Some thread).
Definition has_ready (s : Scheduler) : bool := bool_decide (ready_head_ s ≠ None).

Section operations.
Context {B : Type}.
Implicit Types w : World B.
Implicit Types f : Frame B.

Definition with_promise (g : TaskPromiseBase → TaskPromiseBase) (f : Frame B) : Frame B :=
  mkFrame (g (promise f)) (void_ f) (result_ f) (point f) (local f) (answer f) (tasks f).
Definition with_point (p : Point) (f : Frame B) : Frame B :=
  mkFrame (promise f) (void_ f) (result_ f) p (local f) (answer f) (tasks f).
Definition with_answer (a : Answer) (f : Frame B) : Frame B :=
  mkFrame (promise f) (void_ f) (result_ f) (point f) (local f) a (tasks f).
Definition with_local (b : B) (f : Frame B) : Frame B :=
  mkFrame (promise f) (void_ f) (result_ f) (point f) b (answer f) (tasks f).
Definition with_tasks (t : gmap nat nat) (f : Frame B) : Frame B :=
  mkFrame (promise f) (void_ f) (result_ f) (point f) (local f) (answer f) t.
Definition with_result (r : option nat) (f : Frame B) : Frame B :=
  mkFrame (promise f) (void_ f) r (point f) (local f) (answer f) (tasks f).

Definition set_sched (s : Scheduler) (w : World B) : World B :=
  mkWorld s (frames w) (main_tasks w) (next_frame w) (next_source w) (stops w) (control w) (reply w) (history w).
Definition set_frames (m : gmap nat (Frame B)) (w : World B) : World B :=
  mkWorld (sched w) m (main_tasks w) (next_frame w) (next_source w) (stops w) (control w) (reply w) (history w).
Definition set_control (c : Control) (w : World B) : World B :=
  mkWorld (sched w) (frames w) (main_tasks w) (next_frame w) (next_source w) (stops w) c (reply w) (history w).
Definition set_reply (a : Answer) (w : World B) : World B :=
  mkWorld (sched w) (frames w) (main_tasks w) (next_frame w) (next_source w) (stops w) (control w) a (history w).
Definition set_main (m : gmap nat nat) (w : World B) : World B :=
  mkWorld (sched w) (frames w) m (next_frame w) (next_source w) (stops w) (control w) (reply w) (history w).
Definition log (e : Event) (w : World B) : World B :=
  mkWorld (sched w) (frames w) (main_tasks w) (next_frame w) (next_source w) (stops w) (control w) (reply w) (history w ++ [e]).

Definition deref (i : nat) (w : World B) : result (Frame B) := from_option_ub (frames w !! i).
Definition update (i : nat) (g : Frame B → Frame B) (w : World B) : result (World B) :=
  f ← deref i w; Val (set_frames (<[i := g f]> (frames w)) w).
Definition update_promise (i : nat) (g : TaskPromiseBase → TaskPromiseBase) (w : World B) : result (World B) :=
  update i (with_promise g) w.

(** [coroutine_handle::done]. *)
Definition done (f : Frame B) : bool := match point f with Final => true | _ => false end.

(** ** Stop tokens *)
Definition request_stop (source : nat) (w : World B) : World B :=
  mkWorld (sched w) (frames w) (main_tasks w) (next_frame w) (next_source w) ({[source]} ∪ stops w) (control w) (reply w) (history w).

(** An empty token is never stopped. *)
Definition stop_requested (token : option nat) (w : World B) : bool :=
  match token with Some t => bool_decide (t ∈ stops w) | None => false end.

Definition observe_external_stop (w : World B) : World B :=
  if external_stop_pending_ (sched w)
  then let w := request_stop (stop_source_ (sched w)) w in set_sched (set_accepting false (sched w)) w
  else w.

(** [TaskPromiseBase::stop_token]. *)
Definition promise_stop_token (i : nat) (w : World B) : result (option nat * World B) :=
  f ← deref i w;
  Val (stop_token_ (promise f), if scheduler_ (promise f) then observe_external_stop w else w).

(** ** Ready queue and roots *)

(** [TaskPromiseBase::bind]. *)
Definition bind (i : nat) (token : option nat) (w : World B) : result (bool * World B) :=
  f ← deref i w;
  if bool_decide (scheduler_ (promise f) ≠ None) && negb (bool_decide (scheduler_ (promise f) = Some this)) then Val (false, w)
  else w ← update_promise i (set_binding (Some this) token) w; Val (true, w).

Definition schedule (thread task : nat) (w : World B) : result (ScheduleResult * World B) :=
  let s := sched w in
  if negb (running_ s) then Val (NotRunning, w)
  else if negb (on_owner_thread thread s) then Val (WrongThread, w)
  else
    f ← deref task w;
    if negb (bool_decide (scheduler_ (promise f) = Some this)) then Val (WrongScheduler, w)
    else if negb (handle_ (promise f)) || done f then Val (Completed, w)
    else if queued_ (promise f) then Val (Duplicate, w)
    else
      w ← update_promise task (set_ready_link None true) w;
      '(head, w) ← match ready_tail_ s with
                   | Some tail => w ← update_promise tail (λ p, set_ready_link (Some task) (queued_ p) p) w; Val (ready_head_ s, w)
                   | None => Val (Some task, w)
                   end;
      Val (Scheduled, log (EvScheduled task) (set_sched (set_ready head (Some task) (wrap64 (ready_count_ s + 1)) (sched w)) w)).

Definition link_root (task : nat) (w : World B) : result (World B) :=
  let s := sched w in
  w ← update_promise task (set_root_links None (root_head_ s) true) w;
  w ← match root_head_ s with
      | Some head => update_promise head (λ p, set_root_links (Some task) (root_next_ p) (root_ p) p) w
      | None => Val w
      end;
  Val (set_sched (set_roots (Some task) (wrap64 (active_count_ s + 1)) (sched w)) w).

Definition unlink_root (task : nat) (w : World B) : result (World B) :=
  f ← deref task w;
  let p := promise f in
  if negb (root_ p) then Val w
  else
    w ← match root_previous_ p with
        | Some previous => update_promise previous (λ q, set_root_links (root_previous_ q) (root_next_ p) (root_ q) q) w
        | None => Val (set_sched (set_roots (root_next_ p) (active_count_ (sched w)) (sched w)) w)
        end;
    w ← match root_next_ p with
        | Some next => update_promise next (λ q, set_root_links (root_previous_ p) (root_next_ q) (root_ q) q) w
        | None => Val w
        end;
    w ← update_promise task (set_root_links None None false) w;
    Val (set_sched (set_roots (root_head_ (sched w)) (wrap64 (active_count_ (sched w) - 1)) (sched w)) w).

Fixpoint clear_ready_loop (fuel : nat) (w : World B) : result (World B) :=
  match fuel with
  | O => Undef
  | S fuel =>
      match ready_head_ (sched w) with
      | None => Val w
      | Some task =>
          f ← deref task w;
          let w := set_sched (set_ready (ready_next_ (promise f)) (ready_tail_ (sched w)) (ready_count_ (sched w)) (sched w)) w in
          w ← update_promise task (set_ready_link None false) w;
          clear_ready_loop fuel w
      end
  end.

Definition clear_ready (w : World B) : result (World B) :=
  w ← clear_ready_loop (S (size (frames w))) w;
  Val (log EvCleared (set_sched (set_ready (ready_head_ (sched w)) None 0 (sched w)) w)).

(** ** Frames *)

(** The frames a frame owns: through the awaiter it is suspended in, and through its [Task]
    variables. *)
Definition awaiter_owned (p : Point) : list nat :=
  match p with AwaitingChild a => option_list (awaited_ a) | _ => [] end.
Definition task_list (m : gmap nat nat) : list nat := (map_to_list m).*2.
Definition owned_frames (f : Frame B) : list nat := awaiter_owned (point f) ++ task_list (tasks f).

(** [coroutine_handle::destroy] on each of the frames: awaiters and tasks in a frame are
    destroyed with it.  Destroying a coroutine that executes is undefined. *)
Fixpoint destroy_frames (fuel : nat) (work : list nat) (w : World B) : result (World B) :=
  match work with
  | [] => Val w
  | i :: work =>
      match fuel with
      | O => Undef
      | S fuel =>
          f ← deref i w;
          match point f with
          | Executing => Undef
          | _ => destroy_frames fuel (owned_frames f ++ work) (set_frames (delete i (frames w)) w)
          end
      end
  end.

Definition destroy (work : list nat) (w : World B) : result (World B) := destroy_frames (size (frames w)) work w.

Fixpoint destroy_roots (fuel : nat) (w : World B) : result (World B) :=
  match fuel with
  | O => Undef
  | S fuel =>
      match root_head_ (sched w) with
      | None => Val w
      | Some root =>
          w ← unlink_root root w;
          w ← update_promise root (set_handle false) w;
          w ← destroy [root] w;
          destroy_roots fuel w
      end
  end.

Definition cancel_all_now (w : World B) : result (World B) :=
  w ← clear_ready w;
  destroy_roots (S (size (frames w))) w.

Definition deactivate (w : World B) : World B :=
  let s := set_modes false false false false false (sched w) in
  set_sched (set_session (stop_source_ s) None false false None s) w.

Definition finish_root (task : nat) (w : World B) : result (World B) :=
  f ← deref task w;
  let s := sched w in
  let w := match exception_ (promise f) with
           | Some e => set_sched (set_faults (wrap64 (unhandled_root_exceptions_ s + 1)) (invariant_failures_ s) (Some e) s) w
           | None => w
           end in
  w ← unlink_root task w;
  w ← update_promise task (set_handle false) w;
  destroy [task] w.

(** [TaskPromiseBase::schedule_continuation]. *)
Definition schedule_continuation (thread task : nat) (w : World B) : result (World B) :=
  f ← deref task w;
  match continuation_ (promise f) with
  | None => Val w
  | Some parent =>
      match scheduler_ (promise f) with
      | None => Val w
      | Some _ =>
          '(r, w) ← schedule thread parent w;
          Val (if bool_decide (r = Scheduled) then w else set_sched (record_invariant_failure (sched w)) w)
      end
  end.

(** ** Tasks *)

(** A coroutine function is called: it suspends at once. *)
Definition new_frame (b : B) (void : bool) (w : World B) : nat * World B :=
  let i := next_frame w in
  (i, mkWorld (sched w) (<[i := mkFrame new_promise void None Initial b Continue ∅]> (frames w)) (main_tasks w) (S i)
        (next_source w) (stops w) (control w) (reply w) (history w)).

(** [Task::reset] and move assignment on the variables [m]; the frames to destroy are the
    first component. *)
Definition reset_task (x : nat) (m : gmap nat nat) : list nat * gmap nat nat := (option_list (m !! x), delete x m).
Definition move_task (x y : nat) (m : gmap nat nat) : list nat * gmap nat nat :=
  if decide (x = y) then ([], m)
  else (option_list (m !! x), match m !! y with Some i => <[x := i]> (delete y m) | None => delete x m end).

(** [Scheduler::spawn] on the task in the variable; [true]: the scheduler has taken it. *)
Definition spawn (thread : nat) (task : option nat) (w : World B) : result (SpawnResult * bool * World B) :=
  match task with
  | None => Val (EmptyTask, false, w)
  | Some i =>
      if running_ (sched w) && negb (on_owner_thread thread (sched w)) then Val (SpawnWrongThread, false, w)
      else if negb (running_ (sched w)) then Val (NotAccepting, false, w)
      else
        let w := observe_external_stop w in
        if negb (accepting_ (sched w)) || stop_requested (sched_stop_token_ (sched w)) w then Val (NotAccepting, false, w)
        else
          '(bound, w) ← bind i (sched_stop_token_ (sched w)) w;
          f ← deref i w;
          if negb bound || root_ (promise f) || queued_ (promise f) || done f then Val (InvalidTask, false, w)
          else
            w ← link_root i w;
            '(scheduled, w) ← schedule thread i w;
            if bool_decide (scheduled = Scheduled) then Val (Spawned, true, w)
            else
              w ← unlink_root i w;
              Val (if bool_decide (scheduled = WrongThread) then SpawnWrongThread else InvalidTask, false, w)
  end.

(** [Task::Awaiter::await_suspend]: whether the parent stays suspended. *)
Definition await_suspend (thread parent : nat) (child : option nat) (w : World B) : result (Awaiter * bool * World B) :=
  match child with
  | None => Val (mkAwaiter None (Some AwaitedEmpty), false, w)
  | Some c =>
      pf ← deref parent w;
      match scheduler_ (promise pf) with
      | None => Val (mkAwaiter child (Some ParentUnbound), false, w)
      | Some _ =>
          '(token, w) ← promise_stop_token parent w;
          '(bound, w) ← bind c token w;
          if negb (bound : bool) then Val (mkAwaiter child (Some ChildOfOther), false, w)
          else
            w ← update_promise c (set_continuation (Some parent)) w;
            '(r, w) ← schedule thread c w;
            if bool_decide (r = Scheduled) then Val (mkAwaiter child None, true, w)
            else
              w ← update_promise c (set_continuation None) w;
              Val (mkAwaiter child (Some ChildNotScheduled), false, w)
      end
  end.

(** [Task::Awaiter::await_resume] and the destructor of the awaiter: the answer, and the
    child destroyed. *)
Definition await_resume (a : Awaiter) (w : World B) : result (Answer * World B) :=
  ans ← match error_ a with
        | Some e => Val (Raised (Logic e))
        | None =>
            match awaited_ a with
            | None => Val (Raised (Logic ResumedEmpty))
            | Some c =>
                f ← deref c w;
                Val (if negb (done f) then Raised (Logic ResumedEarly)
                     else match exception_ (promise f) with
                          | Some e => Raised e
                          | None =>
                              if void_ f then AwaitAnswer None
                              else match result_ f with Some v => AwaitAnswer (Some v) | None => Raised (Logic NoResult) end
                          end)
            end
        end;
  w ← destroy (option_list (awaited_ a)) w;
  Val (ans, w).

(** ** Dispatch *)

(** Task [i] is resumed: the end of the await expression it is suspended in. *)
Definition resume (i : nat) (w : World B) : result (World B) :=
  f ← deref i w;
  match point f with
  | Executing | Final => Undef
  | AwaitingChild a =>
      w ← update i (with_point Executing) w;
      '(ans, w) ← await_resume a w;
      update i (with_answer ans) w
  | _ => update i (λ f, with_answer Continue (with_point Executing f)) w
  end.

(** One turn of the loop of [run_ready] up to the body of the task. *)
Definition dispatch (thread task : nat) (budget count : Z) (caller : Caller) (w : World B) : result (World B) :=
  f ← deref task w;
  let s := sched w in
  let head := ready_next_ (promise f) in
  let tail := if head then ready_tail_ s else None in
  w ← update_promise task (set_ready_link None false) w;
  let w := log (EvResumed task) (set_sched (set_dispatching true (set_ready head tail (wrap64 (ready_count_ s - 1)) s)) w) in
  w ← resume task w;
  Val (set_control (Dispatching thread task (root_ (promise f)) budget count caller) w).

(** The end of [shutdown]. *)
Definition finish_shutdown (total : Z) (w : World B) : result (World B) :=
  w ← (if running_ (sched w) then w ← cancel_all_now w; Val (deactivate w) else Val w);
  Val (set_control Outside (set_reply (SizeAnswer total) w)).

(** [run_ready] returns [count] to its caller. *)
Definition run_return (thread : nat) (count : Z) (caller : Caller) (w : World B) : result (World B) :=
  match caller with
  | Direct => Val (set_control Outside (set_reply (RunAnswer (mkRunResult count (has_ready (sched w)))) w))
  | FromShutdown resume_budget total =>
      if count =? 0 then finish_shutdown total w
      else
        let total := total + count in
        match ready_head_ (sched w) with
        | Some task =>
            if running_ (sched w) && (total <? resume_budget)
            then dispatch thread task (resume_budget - total) 0 (FromShutdown resume_budget total) (observe_external_stop w)
            else finish_shutdown total w
        | None => finish_shutdown total w
        end
  end.

(** The head of the loop of [run_ready]. *)
Definition run_loop (thread : nat) (budget count : Z) (caller : Caller) (w : World B) : result (World B) :=
  match ready_head_ (sched w) with
  | Some task => if count <? budget then dispatch thread task budget count caller w else run_return thread count caller w
  | None => run_return thread count caller w
  end.

(** The rest of a turn, once the task is suspended or at its end. *)
Definition suspended (thread task : nat) (root : bool) (budget count : Z) (caller : Caller) (w : World B) : result (World B) :=
  let w := set_sched (set_dispatching false (sched w)) w in
  let count := count + 1 in
  w ← (if root then f ← deref task w; if done f then finish_root task w else Val w else Val w);
  let s := sched w in
  if cancel_pending_ s then
    let deactivate_scheduler := shutdown_pending_ s in
    let w := set_sched (set_modes (running_ s) (accepting_ s) (dispatching_ s) false false s) w in
    w ← cancel_all_now w;
    run_return thread count caller (if deactivate_scheduler then deactivate w else w)
  else run_loop thread budget count caller w.

(** ** The calls *)
Definition start (thread : nat) (stopped : bool) (w : World B) : bool * World B :=
  let s := sched w in
  if running_ s || bool_decide (ready_head_ s ≠ None) || bool_decide (root_head_ s ≠ None) then (false, w)
  else
    let source := next_source w in
    let s := set_session source (Some source) stopped true (Some thread) s in
    let s := set_modes true (accepting_ s) (dispatching_ s) (cancel_pending_ s) (shutdown_pending_ s) s in
    let w := mkWorld s (frames w) (main_tasks w) (next_frame w) (S source) (stops w) (control w) (reply w) (history w) in
    let w := observe_external_stop w in
    (true, set_sched (set_accepting (negb (stop_requested (sched_stop_token_ (sched w)) w)) (sched w)) w).

Definition close (thread : nat) (w : World B) : bool * World B :=
  if running_ (sched w) && negb (on_owner_thread thread (sched w)) then (false, w)
  else (true, set_sched (set_accepting false (sched w)) w).

Definition run_ready (thread : nat) (budget : Z) (w : World B) : result (World B) :=
  let s := sched w in
  if negb (running_ s) || negb (on_owner_thread thread s) then Val (set_reply (RunAnswer (mkRunResult 0 (has_ready s))) w)
  else if dispatching_ s then
    Val (set_reply (RunAnswer (mkRunResult 0 (has_ready s))) (log EvNested (set_sched (record_invariant_failure s) w)))
  else run_loop thread budget 0 Direct (observe_external_stop w).

(** What [shutdown] and [cancel_all] do first; [None]: not on the owner thread. *)
Definition stop_all (thread : nat) (w : World B) : option (World B) :=
  if running_ (sched w) && negb (on_owner_thread thread (sched w)) then None
  else let w := request_stop (stop_source_ (sched w)) w in Some (set_sched (set_accepting false (sched w)) w).

Definition set_pending (shutdown : bool) (s : Scheduler) : Scheduler :=
  set_modes (running_ s) (accepting_ s) (dispatching_ s) true (shutdown || shutdown_pending_ s) s.

Definition shutdown (thread : nat) (resume_budget : Z) (w : World B) : result (World B) :=
  match stop_all thread w with
  | None => Val (set_reply (SizeAnswer 0) w)
  | Some w =>
      if dispatching_ (sched w) then Val (set_reply (SizeAnswer 0) (set_sched (set_pending true (sched w)) w))
      else
        match ready_head_ (sched w) with
        | Some task =>
            if running_ (sched w) && (0 <? resume_budget)
            then dispatch thread task resume_budget 0 (FromShutdown resume_budget 0) (observe_external_stop w)
            else finish_shutdown 0 w
        | None => finish_shutdown 0 w
        end
  end.

Definition cancel_all (thread : nat) (w : World B) : result (World B) :=
  match stop_all thread w with
  | None => Val (set_reply (BoolAnswer false) w)
  | Some w =>
      if dispatching_ (sched w) then Val (set_reply (BoolAnswer true) (set_sched (set_pending false (sched w)) w))
      else w ← cancel_all_now w; Val (set_reply (BoolAnswer true) w)
  end.

(** [Scheduler::~Scheduler]. *)
Definition destroy_scheduler (w : World B) : result (World B) :=
  let w := request_stop (stop_source_ (sched w)) w in
  w ← cancel_all_now (set_sched (set_accepting false (sched w)) w);
  Val (deactivate w).

(** The awaiter of a parked task completes. *)
Definition wake (thread task : nat) (w : World B) : result (Answer * World B) :=
  match frames w !! task with
  | Some f => match point f with
              | Parked => '(r, w) ← schedule thread task w; Val (ScheduleAnswer r, w)
              | _ => Val (Continue, w)
              end
  | None => Val (Continue, w)
  end.

(** ** The body of the executing task *)
Variable behave : B → Answer → Request B * B.

(** The task goes on with an answer. *)
Definition proceed (i : nat) (a : Answer) (w : World B) : result (World B) := update i (with_answer a) w.

Definition change_tasks (i : nat) (change : gmap nat nat → list nat * gmap nat nat) (w : World B) : result (World B) :=
  f ← deref i w;
  let '(dropped, m) := change (tasks f) in
  w ← update i (with_tasks m) w;
  w ← destroy dropped w;
  proceed i Continue w.

(** The end of a body: its variables go, then the final suspension. *)
Definition finish_body (thread i : nat) (g : Frame B → Frame B) (w : World B) : result (World B) :=
  f ← deref i w;
  w ← update i (with_tasks ∅) w;
  w ← destroy (task_list (tasks f)) w;
  w ← update i (λ f, with_point Final (g f)) w;
  schedule_continuation thread i w.

Definition body_await (thread i x : nat) (next : World B → result (World B)) (w : World B) : result (World B) :=
  f ← deref i w;
  let child := tasks f !! x in
  w ← update i (with_tasks (delete x (tasks f))) w;
  ready ← match child with None => Val true | Some c => g ← deref c w; Val (done g) end;
  if (ready : bool) then '(ans, w) ← await_resume (mkAwaiter child None) w; proceed i ans w
  else
    w ← update i (with_point (AwaitingChild (mkAwaiter child None))) w;
    '(a, stays, w) ← await_suspend thread i child w;
    if (stays : bool) then w ← update i (with_point (AwaitingChild a)) w; next w
    else
      w ← update i (with_point Executing) w;
      '(ans, w) ← await_resume a w;
      proceed i ans w.

Definition body_yield (thread i : nat) (next : World B → result (World B)) (w : World B) : result (World B) :=
  f ← deref i w;
  w ← update i (with_point Yielded) w;
  '(r, w) ← match scheduler_ (promise f) with Some _ => schedule thread i w | None => Val (NotRunning, w) end;
  if bool_decide (r = Scheduled) then next w
  else w ← update i (with_point Executing) w; proceed i (Raised (Logic CouldNotYield)) w.

(** [this_coro::stop_token] and [this_coro::cancellation_point]. *)
Definition get_stop_token (i : nat) (w : World B) : result (World B) :=
  f ← deref i w;
  '(token, w) ← promise_stop_token i w;
  proceed i (if scheduler_ (promise f) then TokenAnswer token else Raised (Logic TaskUnbound)) w.

Definition cancellation_point (i : nat) (w : World B) : result (World B) :=
  f ← deref i w;
  '(token, w) ← promise_stop_token i w;
  proceed i (if scheduler_ (promise f) then if stop_requested token w then Raised OperationCancelled else Continue
             else Raised (Logic TaskUnbound)) w.

Definition body_step (w : World B) : result (World B) :=
  match control w with
  | Outside => Val w
  | Dispatching thread i root budget count caller =>
      let next := suspended thread i root budget count caller in
      f ← deref i w;
      let '(request, b) := behave (local f) (answer f) in
      w ← update i (with_local b) w;
      match request with
      | NewTask x b void =>
          let '(c, w) := new_frame b void w in
          change_tasks i (λ m, (option_list (m !! x), <[x := c]> m)) w
      | MoveTask x y => change_tasks i (move_task x y) w
      | ResetTask x => change_tasks i (reset_task x) w
      | SpawnTask x =>
          '(r, taken, w) ← spawn thread (tasks f !! x) w;
          w ← (if (taken : bool) then update i (λ f, with_tasks (delete x (tasks f)) f) w else Val w);
          proceed i (SpawnAnswer r) w
      | AwaitTask x => body_await thread i x next w
      | Yield => body_yield thread i next w
      | GetStopToken => get_stop_token i w
      | CancellationPoint => cancellation_point i w
      | Park => w ← update i (with_point Parked) w; next w
      | WakeUp j => '(a, w) ← wake thread j w; proceed i a w
      | CloseScheduler => let '(b, w) := close thread w in proceed i (BoolAnswer b) w
      | ShutdownScheduler => w ← shutdown thread 1024 w; proceed i (reply w) w
      | CancelTasks => w ← cancel_all thread w; proceed i (reply w) w
      | RunNested => w ← run_ready thread 1 w; proceed i (reply w) w
      | ReturnValue v =>
          w ← finish_body thread i (λ f, if void_ f then f else with_result (Some v) f) w; next w
      | ThrowException e =>
          w ← finish_body thread i (with_promise (set_exception (Some e))) w; next w
      end
  end.

(** ** Steps *)

(** What the owner thread and others do outside of coroutines, the external stop, and
    [Step], a request of the executing task. *)
Inductive Action :=
  | Start (thread : nat) (stopped : bool)
  | MainNew (x : nat) (b : B) (void : bool)
  | MainMove (x y : nat)
  | MainReset (x : nat)
  | MainSpawn (thread x : nat)
  | MainWake (thread task : nat)
  | RunReady (thread : nat) (budget : Z)
  | Close (thread : nat)
  | Shutdown (thread : nat) (resume_budget : Z)
  | CancelAll (thread : nat)
  | DestroyScheduler
  | ExternalStop
  | Step.

Definition main_change (change : gmap nat nat → list nat * gmap nat nat) (w : World B) : result (World B) :=
  let '(dropped, m) := change (main_tasks w) in destroy dropped (set_main m w).

Definition main_act (a : Action) (w : World B) : result (World B) :=
  match a with
  | Start thread stopped => let '(b, w) := start thread stopped w in Val (set_reply (BoolAnswer b) w)
  | MainNew x b void => let '(c, w) := new_frame b void w in main_change (λ m, (option_list (m !! x), <[x := c]> m)) w
  | MainMove x y => main_change (move_task x y) w
  | MainReset x => main_change (reset_task x) w
  | MainSpawn thread x =>
      '(r, taken, w) ← spawn thread (main_tasks w !! x) w;
      Val (set_reply (SpawnAnswer r) (if (taken : bool) then set_main (delete x (main_tasks w)) w else w))
  | MainWake thread task => '(a, w) ← wake thread task w; Val (set_reply a w)
  | RunReady thread budget => run_ready thread budget w
  | Close thread => let '(b, w) := close thread w in Val (set_reply (BoolAnswer b) w)
  | Shutdown thread resume_budget => shutdown thread resume_budget w
  | CancelAll thread => cancel_all thread w
  | DestroyScheduler => destroy_scheduler w
  | ExternalStop | Step => Val w
  end.

(** [ForwardStop]. *)
Definition external_stop (w : World B) : World B :=
  let s := sched w in
  if external_stop_callback_ s
  then set_sched (set_session (stop_source_ s) (sched_stop_token_ s) true true (owner_thread_ s) s) w
  else w.

(** While a task executes, the code outside waits for [run_ready]. *)
Definition act (a : Action) (w : World B) : result (World B) :=
  match a, control w with
  | ExternalStop, _ => Val (external_stop w)
  | Step, _ => body_step w
  | _, Outside => main_act a w
  | _, Dispatching _ _ _ _ _ _ => Val w
  end.

Fixpoint run_actions (l : list Action) (w : World B) : result (World B) :=
  match l with [] => Val w | a :: l => w ← act a w; run_actions l w end.

Definition new_scheduler : Scheduler :=
  mkScheduler None None None 0 0 0 0 None 0 None false false None false false false false false.

Definition initial_world : World B := mkWorld new_scheduler ∅ ∅ 0 1 ∅ Outside Continue [].

End operations.

End Sched.
