(* ===== verification/SchedulerLists.v ===== *)
(** * The intrusive lists of the scheduler

    The links in the promises represent a queue [rq] and a list of roots [rt] ([links]); the
    operations on them are those on lists.  [core] is the store of frames without the links.
    Then the destruction of frames with all they own. *)
From S2P Require Import Prelude Scheduler.
Import Sched.

Section links.
Context {B : Type}.
Implicit Types w : World B.
Implicit Types f g : Frame B.
Implicit Types m : gmap nat (Frame B).
Implicit Types rq rt : list nat.

(** ** Representation *)
Record links m (s : Scheduler) rq rt : Prop := {
  lk_head : ready_head_ s = list.head rq;
  lk_tail : ready_tail_ s = list.last rq;
  lk_count : ready_count_ s = wrap64 (Z.of_nat (length rq));
  lk_nodup : NoDup rq;
  lk_next l1 i l2 : rq = l1 ++ i :: l2 → ∃ f, m !! i = Some f ∧ ready_next_ (promise f) = list.head l2;
  lk_root_head : root_head_ s = list.head rt;
  lk_root_count : active_count_ s = wrap64 (Z.of_nat (length rt));
  lk_root_nodup : NoDup rt;
  lk_root_links l1 i l2 : rt = l1 ++ i :: l2 →
    ∃ f, m !! i = Some f ∧ root_next_ (promise f) = list.head l2 ∧ root_previous_ (promise f) = list.last l1;
  lk_flags i f : m !! i = Some f → queued_ (promise f) = bool_decide (i ∈ rq) ∧ root_ (promise f) = bool_decide (i ∈ rt);
}.

(** A frame without its links. *)
Definition erase_links (p : TaskPromiseBase) : TaskPromiseBase :=
  mkPromise (scheduler_ p) (stop_token_ p) (handle_ p) (exception_ p) (continuation_ p) None None None false false.
Definition erase (f : Frame B) : Frame B := with_promise erase_links f.
Definition core m : gmap nat (Frame B) := erase <$> m.

(** A scheduler without its lists. *)
Definition rest (s : Scheduler) : Scheduler := set_ready None None 0 (set_roots None 0 s).

(** The update keeps the links. *)
Definition keeps_links (g : Frame B → Frame B) : Prop :=
  ∀ f, ready_next_ (promise (g f)) = ready_next_ (promise f) ∧ root_previous_ (promise (g f)) = root_previous_ (promise f) ∧
       root_next_ (promise (g f)) = root_next_ (promise f) ∧ queued_ (promise (g f)) = queued_ (promise f) ∧
       root_ (promise (g f)) = root_ (promise f).

Lemma core_lookup m i : core m !! i = erase <$> m !! i.
Proof. apply lookup_fmap. Qed.

Lemma core_Some m i f : m !! i = Some f → core m !! i = Some (erase f).
Proof. intros H. by rewrite core_lookup, H. Qed.

Lemma core_inv m i g : core m !! i = Some g → ∃ f, m !! i = Some f ∧ g = erase f.
Proof. rewrite core_lookup. destruct (m !! i) as [f |]; [| done]. intros [= <-]. by exists f. Qed.

Lemma core_insert m i f : core (<[i := f]> m) = <[i := erase f]> (core m).
Proof. apply fmap_insert. Qed.

Lemma core_delete m i : core (delete i m) = delete i (core m).
Proof. apply fmap_delete. Qed.

(** A change of the links only. *)
Lemma core_same_insert m i f f' : m !! i = Some f → erase f' = erase f → core (<[i := f']> m) = core m.
Proof. intros H He. rewrite core_insert, He. apply insert_id. by apply core_Some. Qed.

Lemma links_live m s rq rt i : links m s rq rt → i ∈ rq ∨ i ∈ rt → is_Some (m !! i).
Proof.
  intros H [Hi | Hi]; apply list_elem_of_split in Hi as (l1 & l2 & ->).
  - destruct (lk_next _ _ _ _ H l1 i l2 eq_refl) as (f & -> & _). by eexists.
  - destruct (lk_root_links _ _ _ _ H l1 i l2 eq_refl) as (f & -> & _). by eexists.
Qed.

Lemma links_update m s rq rt i f (g : Frame B → Frame B) :
  links m s rq rt → m !! i = Some f → keeps_links g → links (<[i := g f]> m) s rq rt.
Proof.
  intros H Hi Hg. destruct (Hg f) as (G1 & G2 & G3 & G4 & G5). destruct H as [H1 H2 H3 H4 H5 H6 H7 H8 H9 H10]. split; try done.
  - intros l1 j l2 E. destruct (H5 _ _ _ E) as (f0 & Hf0 & Hn). rewrite lookup_insert. case_decide as Hd; [| by eauto].
    exists (g f). split; [done |]. subst j. rewrite Hi in Hf0. injection Hf0 as <-. by rewrite G1.
  - intros l1 j l2 E. destruct (H9 _ _ _ E) as (f0 & Hf0 & Hn & Hp). rewrite lookup_insert. case_decide as Hd; [| by eauto].
    exists (g f). split; [done |]. subst j. rewrite Hi in Hf0. injection Hf0 as <-. by rewrite G2, G3.
  - intros j f0. rewrite lookup_insert. case_decide as Hd; [| by apply H10]. intros [= <-]. subst j. rewrite G4, G5. by apply H10.
Qed.

Lemma links_sched m s s' rq rt :
  links m s rq rt → ready_head_ s' = ready_head_ s → ready_tail_ s' = ready_tail_ s → ready_count_ s' = ready_count_ s →
  root_head_ s' = root_head_ s → active_count_ s' = active_count_ s → links m s' rq rt.
Proof. intros [] E1 E2 E3 E4 E5. split; try done; congruence. Qed.

(** Frames outside of both lists come and go. *)
Lemma links_new m s rq rt i f :
  links m s rq rt → m !! i = None → queued_ (promise f) = false → root_ (promise f) = false → links (<[i := f]> m) s rq rt.
Proof.
  intros H Hi Hq Hr. assert (i ∉ rq ∧ i ∉ rt) as [Niq Nit].
  { split; intros Hin; destruct (links_live _ _ _ _ i H) as [? ?]; try congruence; auto. }
  destruct H as [H1 H2 H3 H4 H5 H6 H7 H8 H9 H10]. split; try done.
  - intros l1 j l2 E. destruct (H5 _ _ _ E) as (f0 & Hf0 & Hn). exists f0. rewrite lookup_insert_ne; [done | congruence].
  - intros l1 j l2 E. destruct (H9 _ _ _ E) as (f0 & Hf0 & Hn). exists f0. rewrite lookup_insert_ne; [done | congruence].
  - intros j f0. rewrite lookup_insert. case_decide as Hd; [| by apply H10]. intros [= <-]. subst j.
    rewrite Hq, Hr, !bool_decide_false by done. done.
Qed.

Lemma links_sub m m' s rq rt :
  links m s rq rt → m' ⊆ m → (∀ i, i ∈ rq ∨ i ∈ rt → is_Some (m' !! i)) → links m' s rq rt.
Proof.
  intros [H1 H2 H3 H4 H5 H6 H7 H8 H9 H10] Hsub Hlive. split; try done.
  - intros l1 j l2 E. destruct (H5 _ _ _ E) as (f0 & Hf0 & Hn). destruct (Hlive j) as [f1 Hf1]; [left; rewrite E; set_solver |].
    exists f1. split; [done |]. pose proof (lookup_weaken _ _ _ _ Hf1 Hsub). congruence.
  - intros l1 j l2 E. destruct (H9 _ _ _ E) as (f0 & Hf0 & Hn). destruct (Hlive j) as [f1 Hf1]; [right; rewrite E; set_solver |].
    exists f1. split; [done |]. pose proof (lookup_weaken _ _ _ _ Hf1 Hsub). congruence.
  - intros j f0 Hf0. apply H10. by eapply lookup_weaken.
Qed.

(** ** Scheduling *)
Lemma wrap64_add_r a b : wrap64 (wrap64 a + b) = wrap64 (a + b).
Proof. unfold wrap64. by rewrite Zplus_mod_idemp_l. Qed.

(** What [schedule] may do: nothing, with the reason, or append the task. *)
Definition appended (i : nat) w w' rq rt : Prop :=
  ∃ m s, w' = log (EvScheduled i) (set_sched s (set_frames m w)) ∧ core m = core (frames w) ∧ rest s = rest (sched w) ∧
    links m s (rq ++ [i]) rt.

Lemma app_cons_snoc (l1 l2 l : list nat) i j :
  l ++ [i] = l1 ++ j :: l2 → (l2 = [] ∧ j = i ∧ l1 = l) ∨ ∃ l3, l2 = l3 ++ [i] ∧ l = l1 ++ j :: l3.
Proof.
  intros E. destruct (decide (l2 = [])) as [-> | Hne].
  - left. apply app_inj_tail in E as [-> ->]. done.
  - right. destruct (exists_last Hne) as (l3 & k & ->). rewrite app_comm_cons, app_assoc in E. apply app_inj_tail in E as [-> ->].
    by exists l3.
Qed.

(** A change of the queue that leaves the roots alone. *)
Lemma relink m m' s s' rq rq' rt :
  links m s rq rt →
  (∀ j f', m' !! j = Some f' → ∃ f, m !! j = Some f ∧ root_next_ (promise f') = root_next_ (promise f) ∧
     root_previous_ (promise f') = root_previous_ (promise f) ∧ root_ (promise f') = root_ (promise f) ∧
     queued_ (promise f') = bool_decide (j ∈ rq')) →
  (∀ j, is_Some (m !! j) → is_Some (m' !! j)) →
  NoDup rq' → (∀ l1 j l2, rq' = l1 ++ j :: l2 → ∃ f', m' !! j = Some f' ∧ ready_next_ (promise f') = list.head l2) →
  ready_head_ s' = list.head rq' → ready_tail_ s' = list.last rq' → ready_count_ s' = wrap64 (Z.of_nat (length rq')) →
  root_head_ s' = root_head_ s → active_count_ s' = active_count_ s → links m' s' rq' rt.
Proof.
  intros [H1 H2 H3 H4 H5 H6 H7 H8 H9 H10] Hf Hd Hn Hnext E1 E2 E3 E4 E5. split; try done; try congruence.
  - intros l1 j l2 E. destruct (H9 _ _ _ E) as (f & Hj & Hl & Hp). destruct (Hd j) as [f' Hf']; [by eexists |].
    exists f'. destruct (Hf _ _ Hf') as (f0 & Hf0 & -> & -> & _). assert (f0 = f) as -> by congruence. done.
  - intros j f' Hj. destruct (Hf _ _ Hj) as (f0 & Hf0 & _ & _ & -> & ->). split; [done |]. by apply H10.
Qed.

Lemma bool_decide_snoc (j i : nat) (l : list nat) : bool_decide (j ∈ l ++ [i]) = bool_decide (j ∈ l) || bool_decide (j = i).
Proof. rewrite <- bool_decide_or. apply bool_decide_ext. rewrite elem_of_app, list_elem_of_singleton. done. Qed.

(** Appending to the queue: the links of the new task and of the old tail. *)
Lemma append_links m s rq rt i f :
  links m s rq rt → m !! i = Some f → i ∉ rq →
  let m1 := <[i := with_promise (set_ready_link None true) f]> m in
  match ready_tail_ s with
  | Some t => ∃ g, m1 !! t = Some g ∧
      let m2 := <[t := with_promise (λ p, set_ready_link (Some i) (queued_ p) p) g]> m1 in
      core m2 = core m ∧ links m2 (set_ready (ready_head_ s) (Some i) (wrap64 (ready_count_ s + 1)) s) (rq ++ [i]) rt
  | None => core m1 = core m ∧ links m1 (set_ready (Some i) (Some i) (wrap64 (ready_count_ s + 1)) s) (rq ++ [i]) rt
  end.
Proof.
  intros H Hi Hq m1. assert (core m1 = core m) as Hc1 by (by eapply core_same_insert).
  pose proof H as [H1 H2 H3 H4 H5 H6 H7 H8 H9 H10].
  assert (wrap64 (ready_count_ s + 1) = wrap64 (Z.of_nat (length (rq ++ [i])))) as Hcount.
  { rewrite H3, wrap64_add_r, length_app. simpl. f_equal. lia. }
  assert (NoDup (rq ++ [i])) as Hnd.
  { apply list.NoDup_app. split; [done |]. split; [| apply NoDup_singleton]. intros j Hj Hx. apply list_elem_of_singleton in Hx. by subst. }
  assert (∀ j f', m1 !! j = Some f' → ∃ f0, m !! j = Some f0 ∧ root_next_ (promise f') = root_next_ (promise f0) ∧
    root_previous_ (promise f') = root_previous_ (promise f0) ∧ root_ (promise f') = root_ (promise f0) ∧
    queued_ (promise f') = bool_decide (j ∈ rq ++ [i])) as Hm1.
  { intros j f'. unfold m1. rewrite lookup_insert, bool_decide_snoc. case_decide as Hd.
    - intros [= <-]. subst j. exists f. simpl. rewrite (bool_decide_true (i = i)), orb_true_r by done. done.
    - intros Hj. exists f'. rewrite (bool_decide_false (j = i)), orb_false_r by done. destruct (H10 _ _ Hj). done. }
  destruct rq as [| r rq'] using rev_ind.
  - rewrite H2. simpl. split; [done |]. apply (relink m m1 s _ []); try done.
    + intros j [f0 Hf0]. unfold m1. rewrite lookup_insert. case_decide; by eexists.
    + intros l1 j l2 E. destruct (app_cons_snoc l1 l2 [] i j E) as [(-> & -> & ->) | (l3 & _ & E')]; [| by destruct l1].
      exists (with_promise (set_ready_link None true) f). unfold m1. by rewrite lookup_insert_eq.
  - clear IHrq'. rewrite H2, last_snoc. destruct (H5 rq' r [] eq_refl) as (g & Hg & Hgn).
    assert (r ≠ i) as Hri by (intros ->; apply Hq; set_solver).
    exists g. assert (m1 !! r = Some g) as Hg1 by (unfold m1; by rewrite lookup_insert_ne). split; [done |].
    intros m2. split; [unfold m2; rewrite <- Hc1; by eapply core_same_insert |].
    apply (relink m m2 s _ (rq' ++ [r])); try done.
    + intros j f'. unfold m2. rewrite lookup_insert. case_decide as Hd; [| by apply Hm1]. intros [= <-]. subst j.
      destruct (Hm1 _ _ Hg1) as (f0 & Hf0 & ? & ? & ? & ?). by exists f0.
    + intros j [f0 Hf0]. unfold m2, m1. rewrite !lookup_insert. repeat case_decide; by eexists.
    + intros l1 j l2 E. destruct (app_cons_snoc l1 l2 _ i j E) as [(-> & -> & ->) | (l3 & -> & E')].
      { exists (with_promise (set_ready_link None true) f). unfold m2, m1. rewrite lookup_insert_ne, lookup_insert_eq by done. done. }
      destruct (app_cons_snoc l1 l3 rq' r j E') as [(-> & -> & ->) | (l4 & -> & E4)].
      { eexists. unfold m2. rewrite lookup_insert_eq. done. }
      destruct (H5 l1 j (l4 ++ [r]) E') as (f0 & Hf0 & Hn0).
      assert (j ∈ rq') as Hj by (rewrite E4; set_solver).
      assert (j ≠ r) as Hjr. { intros ->. apply list.NoDup_app in H4 as (_ & Hx & _). apply (Hx r Hj). by left. }
      assert (j ≠ i) as Hji. { intros ->. apply Hq. set_solver. }
      exists f0. unfold m2, m1. rewrite !lookup_insert_ne by done. split; [done |]. rewrite Hn0. by destruct l4.
    + simpl. rewrite H1. by destruct rq'.
    + simpl. by rewrite last_snoc.
Qed.

Lemma schedule_appends thread i w f rq rt :
  links (frames w) (sched w) rq rt → running_ (sched w) = true → owner_thread_ (sched w) = Some thread →
  frames w !! i = Some f → scheduler_ (promise f) = Some this → handle_ (promise f) = true → done f = false → i ∉ rq →
  ∃ w', schedule thread i w = Val (Scheduled, w') ∧ appended i w w' rq rt.
Proof.
  intros H Hr Ho Hi Hs Hh Hd Hq. unfold schedule, on_owner_thread. rewrite Hr, Ho, bool_decide_true by done. cbn [negb andb].
  unfold deref. rewrite Hi. cbn [from_option_ub mbind outcome_bind]. rewrite Hs, bool_decide_true by done. cbn [negb]. rewrite Hh, Hd. cbn [negb orb].
  destruct (lk_flags _ _ _ _ H _ _ Hi) as [-> _]. rewrite bool_decide_false by done. unfold update_promise, update, deref. rewrite Hi.
  cbn [from_option_ub mbind outcome_bind].
  pose proof (append_links _ _ _ _ _ _ H Hi Hq) as Ha. cbn zeta in Ha. cbn [frames set_frames].
  destruct (ready_tail_ (sched w)) as [t |].
  - destruct Ha as (g & Hg & Hc & Hl). rewrite Hg. cbn [from_option_ub mbind outcome_bind].
    eexists. split; [reflexivity |]. by eexists _, _.
  - destruct Ha as (Hc & Hl). cbn [mbind outcome_bind]. eexists. split; [reflexivity |]. by eexists _, _.
Qed.

(** Taking the head off the queue. *)
Lemma pop_links m s i rq rt f :
  links m s (i :: rq) rt → m !! i = Some f →
  ready_next_ (promise f) = list.head rq ∧
  let m1 := <[i := with_promise (set_ready_link None false) f]> m in
  core m1 = core m ∧
  links m1 (set_ready (list.head rq) (if list.head rq then ready_tail_ s else None) (wrap64 (ready_count_ s - 1)) s) rq rt.
Proof.
  intros H Hi. pose proof H as [H1 H2 H3 H4 H5 H6 H7 H8 H9 H10]. apply list.NoDup_cons in H4 as [Hni Hnd].
  destruct (H5 [] i rq eq_refl) as (f0 & Hf0 & Hn). assert (f0 = f) as -> by congruence. split; [done |].
  intros m1. split; [by eapply core_same_insert |]. apply (relink m m1 s _ (i :: rq)); try done.
  - intros j f'. unfold m1. rewrite lookup_insert. case_decide as Hd.
    + intros [= <-]. subst j. exists f. simpl. by rewrite bool_decide_false.
    + intros Hj. exists f'. destruct (H10 _ _ Hj) as [-> _]. split_and!; try done. apply bool_decide_ext. set_solver.
  - intros j [f' Hf']. unfold m1. rewrite lookup_insert. case_decide; by eexists.
  - intros l1 j l2 E. destruct (H5 (i :: l1) j l2) as (f' & Hf' & Hn'); [by rewrite E |]. exists f'. unfold m1.
    rewrite lookup_insert_ne; [done |]. intros <-. apply Hni. rewrite E. set_solver.
  - simpl. rewrite H2. by destruct rq.
  - simpl. rewrite H3. cbn [length]. unfold wrap64. rewrite Zminus_mod_idemp_l. f_equal. lia.
Qed.

(** A change of the roots that leaves the queue alone. *)
Lemma reroot m m' s s' rq rt rt' :
  links m s rq rt →
  (∀ j f', m' !! j = Some f' → ∃ f, m !! j = Some f ∧ ready_next_ (promise f') = ready_next_ (promise f) ∧
     queued_ (promise f') = queued_ (promise f) ∧ root_ (promise f') = bool_decide (j ∈ rt')) →
  (∀ j, is_Some (m !! j) → is_Some (m' !! j)) →
  NoDup rt' → (∀ l1 j l2, rt' = l1 ++ j :: l2 → ∃ f', m' !! j = Some f' ∧
     root_next_ (promise f') = list.head l2 ∧ root_previous_ (promise f') = list.last l1) →
  root_head_ s' = list.head rt' → active_count_ s' = wrap64 (Z.of_nat (length rt')) →
  ready_head_ s' = ready_head_ s → ready_tail_ s' = ready_tail_ s → ready_count_ s' = ready_count_ s → links m' s' rq rt'.
Proof.
  intros [H1 H2 H3 H4 H5 H6 H7 H8 H9 H10] Hf Hd Hn Hl E1 E2 E3 E4 E5. split; try done; try congruence.
  - intros l1 j l2 E. destruct (H5 _ _ _ E) as (f & Hj & Hx). destruct (Hd j) as [f' Hf']; [by eexists |].
    exists f'. destruct (Hf _ _ Hf') as (f0 & Hf0 & -> & _). assert (f0 = f) as -> by congruence. done.
  - intros j f' Hj. destruct (Hf _ _ Hj) as (f0 & Hf0 & _ & -> & ->). split; [| done]. by apply H10.
Qed.

(** What the operations on the roots leave alone. *)
Definition relisted w w' rq rt : Prop :=
  ∃ m s, w' = set_sched s (set_frames m w) ∧ core m = core (frames w) ∧ rest s = rest (sched w) ∧ links m s rq rt.

Lemma link_root_ok i w f rq rt :
  links (frames w) (sched w) rq rt → frames w !! i = Some f → i ∉ rt →
  ∃ w', link_root i w = Val w' ∧ relisted w w' rq (i :: rt).
Proof.
  intros H Hi Hni. pose proof H as [H1 H2 H3 H4 H5 H6 H7 H8 H9 H10]. unfold link_root, update_promise, update, deref. rewrite Hi.
  cbn [from_option_ub mbind outcome_bind frames set_frames].
  set (f1 := with_promise (set_root_links None (root_head_ (sched w)) true) f). set (m1 := <[i := f1]> (frames w)).
  assert (core m1 = core (frames w)) as Hc1 by (by eapply core_same_insert).
  assert (wrap64 (active_count_ (sched w) + 1) = wrap64 (Z.of_nat (length (i :: rt)))) as Hcount.
  { rewrite H7, wrap64_add_r. cbn [length]. f_equal. lia. }
  assert (NoDup (i :: rt)) as Hnd by (by apply list.NoDup_cons).
  assert (∀ j f', m1 !! j = Some f' → ∃ f0, frames w !! j = Some f0 ∧ ready_next_ (promise f') = ready_next_ (promise f0) ∧
     queued_ (promise f') = queued_ (promise f0) ∧ root_ (promise f') = bool_decide (j ∈ i :: rt)) as Hm1.
  { intros j f'. unfold m1. rewrite lookup_insert. case_decide as Hd.
    - intros [= <-]. subst j. exists f. simpl. by rewrite bool_decide_true by (by left).
    - intros Hj. exists f'. destruct (H10 _ _ Hj) as [_ ->]. split_and!; try done. apply bool_decide_ext. set_solver. }
  destruct rt as [| h rt'].
  - rewrite H6. cbn [list.head]. eexists. split; [reflexivity |]. exists m1, (set_roots (Some i) (wrap64 (active_count_ (sched w) + 1)) (sched w)).
    split_and!; try done. apply (reroot (frames w) m1 (sched w) _ rq []); try done.
    + intros j [f' Hf']. unfold m1. rewrite lookup_insert. case_decide; by eexists.
    + intros [| k l1] j l2 E; [| by destruct l1]. injection E as <- <-. exists f1. unfold m1. rewrite lookup_insert_eq. split; [done |].
      unfold f1. simpl. by rewrite H6.
  - destruct (H9 [] h rt' eq_refl) as (g & Hg & Hgn & Hgp). assert (h ≠ i) as Hhi by set_solver.
    assert (m1 !! h = Some g) as Hg1 by (unfold m1; by rewrite lookup_insert_ne).
    rewrite H6. cbn [list.head]. rewrite Hg1. cbn [from_option_ub mbind outcome_bind].
    set (m2 := <[h := _]> m1). eexists. split; [reflexivity |].
    exists m2, (set_roots (Some i) (wrap64 (active_count_ (sched w) + 1)) (sched w)).
    split_and!; [done | unfold m2; rewrite <- Hc1; by eapply core_same_insert | done |].
    apply (reroot (frames w) m2 (sched w) _ rq (h :: rt')); try done.
    + intros j f'. unfold m2. rewrite lookup_insert. case_decide as Hd; [| by apply Hm1]. intros [= <-]. subst j. by apply Hm1 in Hg1.
    + intros j [f' Hf']. unfold m2, m1. rewrite !lookup_insert. repeat case_decide; by eexists.
    + intros [| k l1] j l2 E; injection E as <- E.
      { subst l2. exists f1. unfold m2, m1. rewrite lookup_insert_ne, lookup_insert_eq by done. split; [done |]. unfold f1. simpl. by rewrite H6. }
      destruct (H9 l1 j l2 E) as (f0 & Hf0 & Hn0 & Hp0). destruct l1 as [| k l1]; injection E as <- E.
      { eexists. unfold m2. rewrite lookup_insert_eq. split; [done |]. simpl. assert (f0 = g) as -> by congruence. done. }
      assert (j ∈ rt') as Hj by (rewrite E; set_solver).
      exists f0. unfold m2, m1. rewrite !lookup_insert_ne; [| by set_solver |]; [split_and!; [done | done |] |].
      * rewrite Hp0. by destruct l1.
      * intros <-. apply list.NoDup_cons in H8 as [H8 _]. done.
Qed.

Lemma NoDup_mid (l1 l2 : list nat) i : NoDup (l1 ++ i :: l2) → i ∉ l1 ∧ i ∉ l2 ∧ NoDup (l1 ++ l2) ∧ ∀ j, j ∈ l1 → j ∉ l2.
Proof.
  intros H. apply list.NoDup_app in H as (Ha & Hb & Hc). apply list.NoDup_cons in Hc as [Hc Hd].
  split_and!; [intros Hi; apply (Hb i Hi); by left | done | | intros j Hj Hj'; apply (Hb j Hj); by right].
  apply list.NoDup_app. split_and!; try done. intros j Hj Hj'. apply (Hb j Hj). by right.
Qed.

(** The neighbours close the gap. *)
Definition unlinked (i : nat) (l1 l2 : list nat) (j : nat) (f : Frame B) : Frame B :=
  if decide (j = i) then with_promise (set_root_links None None false) f
  else if decide (list.last l1 = Some j) then with_promise (λ q, set_root_links (root_previous_ q) (list.head l2) (root_ q) q) f
  else if decide (list.head l2 = Some j) then with_promise (λ q, set_root_links (list.last l1) (root_next_ q) (root_ q) q) f
  else f.

Lemma unlink_root_steps i w f rq l1 l2 :
  links (frames w) (sched w) rq (l1 ++ i :: l2) → frames w !! i = Some f →
  ∃ m, unlink_root i w =
    Val (set_sched (set_roots (list.head (l1 ++ l2)) (wrap64 (active_count_ (sched w) - 1)) (sched w)) (set_frames m w)) ∧
    ∀ j, m !! j = unlinked i l1 l2 j <$> frames w !! j.
Proof.
  intros H Hi. pose proof H as [_ _ _ _ _ H6 _ H8 H9 H10]. destruct (NoDup_mid _ _ _ H8) as (N1 & N2 & _ & N12).
  destruct (H9 l1 i l2 eq_refl) as (f0 & Hf0 & Hn & Hp). assert (f0 = f) as -> by congruence.
  unfold unlink_root, update_promise, update, deref. rewrite Hi. cbn [from_option_ub mbind outcome_bind].
  destruct (H10 _ _ Hi) as [_ ->]. rewrite bool_decide_true by set_solver. cbn [negb]. rewrite Hn, Hp.
  assert (∀ p l, l1 = l ++ [p] → ∃ g, frames w !! p = Some g ∧ p ≠ i) as Hprev.
  { intros p l ->. destruct (H9 l p (i :: l2)) as (g & Hg & _); [by rewrite <- app_assoc |]. exists g. split; [done | set_solver]. }
  assert (∀ n l, l2 = n :: l → ∃ g, frames w !! n = Some g ∧ n ≠ i) as Hnext.
  { intros n l ->. destruct (H9 (l1 ++ [i]) n l) as (g & Hg & _); [by rewrite <- app_assoc |]. exists g. split; [done | set_solver]. }
  destruct l1 as [| p l _] using rev_ind; [| rewrite last_snoc; destruct (Hprev p l eq_refl) as (gp & Hgp & Hpi)];
    (destruct l2 as [| n l']; [| destruct (Hnext n l' eq_refl) as (gn & Hgn & Hni)]); cbn [list.last list.head].
  - cbn [from_option_ub mbind outcome_bind frames set_sched set_frames]. rewrite Hi. cbn [from_option_ub mbind outcome_bind]. exists (<[i := with_promise (set_root_links None None false) f]> (frames w)). split; [reflexivity |].
    intros j. unfold unlinked. rewrite lookup_insert. destruct (decide (i = j)) as [<- |].
    + rewrite Hi. simpl. by rewrite decide_True.
    + destruct (frames w !! j); [| done]. simpl. by rewrite (decide_False (P := j = i)).
  - cbn [from_option_ub mbind outcome_bind frames set_sched set_frames]. rewrite Hgn. cbn [from_option_ub mbind outcome_bind frames set_sched set_frames]. rewrite lookup_insert_ne by done. rewrite Hi.
    cbn [from_option_ub mbind outcome_bind]. exists (<[i := with_promise (set_root_links None None false) f]> (<[n := with_promise (λ q, set_root_links None (root_next_ q) (root_ q) q) gn]> (frames w))). split; [reflexivity |]. intros j. unfold unlinked. rewrite !lookup_insert. destruct (decide (i = j)) as [<- |]; [by rewrite Hi; simpl; rewrite decide_True |].
    destruct (decide (n = j)) as [<- |]; [by rewrite Hgn; simpl; rewrite (decide_False (P := n = i)), decide_True by done |].
    destruct (frames w !! j); [| done]. simpl. rewrite (decide_False (P := j = i)), decide_False by congruence. done.
  - cbn [from_option_ub mbind outcome_bind frames set_sched set_frames]. rewrite Hgp. cbn [from_option_ub mbind outcome_bind frames set_sched set_frames]. rewrite lookup_insert_ne by done. rewrite Hi.
    cbn [from_option_ub mbind outcome_bind]. exists (<[i := with_promise (set_root_links None None false) f]> (<[p := with_promise (λ q, set_root_links (root_previous_ q) None (root_ q) q) gp]> (frames w))). split.
    { f_equal. unfold set_sched. cbn. rewrite H6. rewrite app_nil_r. by destruct l. }
    intros j. unfold unlinked. rewrite !lookup_insert, last_snoc. destruct (decide (i = j)) as [<- |]; [by rewrite Hi; simpl; rewrite decide_True |].
    destruct (decide (p = j)) as [<- |]; [by rewrite Hgp; simpl; rewrite (decide_False (P := p = i)), decide_True by done |].
    destruct (frames w !! j); [| done]. simpl. rewrite (decide_False (P := j = i)), decide_False by congruence. done.
  - assert (p ≠ n) as Hpn. { intros ->. apply (N12 n); set_solver. }
    cbn [from_option_ub mbind outcome_bind frames set_sched set_frames]. rewrite Hgp. cbn [from_option_ub mbind outcome_bind frames set_sched set_frames]. rewrite lookup_insert_ne by done. rewrite Hgn.
    cbn [from_option_ub mbind outcome_bind frames set_sched set_frames]. rewrite !lookup_insert_ne by done. rewrite Hi.
    cbn [from_option_ub mbind outcome_bind]. exists (<[i := with_promise (set_root_links None None false) f]> (<[n := with_promise (λ q, set_root_links (Some p) (root_next_ q) (root_ q) q) gn]> (<[p := with_promise (λ q, set_root_links (root_previous_ q) (Some n) (root_ q) q) gp]> (frames w)))). split.
    { f_equal. unfold set_sched. cbn. rewrite H6. by destruct l. }
    intros j. unfold unlinked. rewrite !lookup_insert, last_snoc. destruct (decide (i = j)) as [<- |]; [by rewrite Hi; simpl; rewrite decide_True |].
    destruct (decide (n = j)) as [<- |].
    { rewrite Hgn. simpl. rewrite (decide_False (P := n = i)), (decide_False (P := Some p = Some n)), decide_True by congruence. done. }
    destruct (decide (p = j)) as [<- |]; [by rewrite Hgp; simpl; rewrite (decide_False (P := p = i)), decide_True by done |].
    destruct (frames w !! j); [| done]. simpl. rewrite (decide_False (P := j = i)), !decide_False by congruence. done.
Qed.

Lemma app_split (l1 l2 k1 k2 : list nat) j :
  l1 ++ l2 = k1 ++ j :: k2 →
  (∃ k3, l1 = k1 ++ j :: k3 ∧ k2 = k3 ++ l2) ∨ (∃ k3, l2 = k3 ++ j :: k2 ∧ k1 = l1 ++ k3).
Proof.
  revert k1. induction l1 as [| a l1 IH]; intros k1 E; simpl in E; [right; by exists k1 |].
  destruct k1 as [| b k1]; injection E as -> E; [left; by exists l1 |].
  destruct (IH _ E) as [(k3 & -> & ->) | (k3 & -> & ->)]; [left | right]; by exists k3.
Qed.

Lemma unlink_root_ok i w f rq l1 l2 :
  links (frames w) (sched w) rq (l1 ++ i :: l2) → frames w !! i = Some f →
  ∃ w', unlink_root i w = Val w' ∧ relisted w w' rq (l1 ++ l2).
Proof.
  intros H Hi. destruct (unlink_root_steps _ _ _ _ _ _ H Hi) as (m & -> & Hm). eexists. split; [reflexivity |].
  exists m. eexists. split; [reflexivity |]. pose proof H as [_ _ _ _ _ H6 H7 H8 H9 H10].
  destruct (NoDup_mid _ _ _ H8) as (N1 & N2 & N3 & N12).
  assert (∀ j f, erase (unlinked i l1 l2 j f) = erase f) as Her by (intros j f0; unfold unlinked; repeat case_decide; done).
  split_and!; [| done |].
  { apply map_eq. intros j. rewrite !core_lookup, Hm. destruct (frames w !! j); simpl; [by rewrite Her | done]. }
  apply (reroot (frames w) m (sched w) _ rq (l1 ++ i :: l2)); try done.
  - intros j f'. rewrite Hm. destruct (frames w !! j) as [f0 |] eqn:Hj; [| done]. intros [= <-]. exists f0. split; [done |].
    destruct (H10 _ _ Hj) as [_ Hr]. unfold unlinked. destruct (decide (j = i)) as [-> |].
    { simpl. split_and!; try done. rewrite bool_decide_false; [done | set_solver]. }
    assert (bool_decide (j ∈ l1 ++ i :: l2) = bool_decide (j ∈ l1 ++ l2)) as E by (apply bool_decide_ext; set_solver).
    rewrite E in Hr. repeat case_decide; done.
  - intros j [f0 Hf0]. rewrite Hm, Hf0. by eexists.
  - intros k1 j k2 E.
    assert (j ≠ i) as Hji. { intros ->. assert (i ∈ l1 ++ l2) by (rewrite E; set_solver). set_solver. }
    assert (NoDup (k1 ++ j :: k2)) as Hnd by (by rewrite <- E).
    destruct (NoDup_mid _ _ _ Hnd) as (K1 & K2 & _ & _). unfold unlinked in Hm.
    destruct (app_split _ _ _ _ _ E) as [(k3 & -> & ->) | (k3 & -> & ->)].
    + destruct (H9 k1 j (k3 ++ i :: l2)) as (f0 & Hf0 & Hn0 & Hp0); [by rewrite <- app_assoc |].
      rewrite Hm, Hf0. simpl. eexists. split; [reflexivity |]. rewrite (decide_False (P := j = i)) by done.
      destruct k3 as [| a k3]; [rewrite last_snoc, decide_True by done; done |].
      rewrite decide_False by (intros Hl; apply last_Some in Hl as [l' Hl']; apply K2;
        assert (j ∈ a :: k3) as Hin by (apply (f_equal list.last) in Hl'; rewrite last_snoc, last_app_cons, last_cons_cons in Hl'; by apply last_Some_elem_of in Hl'); set_solver).
      rewrite decide_False by (intros Hh; apply head_Some in Hh as [l' ->]; apply (N12 j); set_solver). done.
    + destruct (H9 (l1 ++ i :: k3) j k2) as (f0 & Hf0 & Hn0 & Hp0); [by rewrite <- app_assoc |].
      rewrite Hm, Hf0. simpl. eexists. split; [reflexivity |]. rewrite (decide_False (P := j = i)) by done.
      rewrite decide_False by (intros Hl; apply (N12 j); [by apply last_Some_elem_of in Hl | set_solver]).
      destruct k3 as [| a k3]; [simpl; rewrite decide_True, app_nil_r by done; done |].
      rewrite decide_False by (intros [= ->]; apply K1; set_solver).
      split; [done |]. rewrite Hp0, !last_app_cons. done.
  - simpl. rewrite H7. unfold wrap64. rewrite Zminus_mod_idemp_l. f_equal. rewrite !length_app. cbn [length]. lia.
Qed.

Lemma length_le_size m (l : list nat) : NoDup l → (∀ i, i ∈ l → is_Some (m !! i)) → (length l ≤ size m)%nat.
Proof.
  intros Hn Hl. rewrite <- size_dom. assert (size (list_to_set l : gset nat) = length l) as <- by (by apply size_list_to_set).
  apply subseteq_size.
  intros i. rewrite elem_of_list_to_set, elem_of_dom. apply Hl.
Qed.

(** ** Clearing the queue *)
Lemma clear_ready_loop_ok rt rq fuel w :
  (length rq < fuel)%nat → ready_head_ (sched w) = list.head rq →
  links (frames w) (set_ready (list.head rq) (list.last rq) (wrap64 (Z.of_nat (length rq))) (sched w)) rq rt →
  ∃ m s, clear_ready_loop fuel w = Val (set_sched s (set_frames m w)) ∧ core m = core (frames w) ∧ rest s = rest (sched w) ∧
    ready_head_ s = None ∧ links m (set_ready None None 0 s) [] rt.
Proof.
  revert fuel w. induction rq as [| i rq IH]; intros [| fuel] w Hf Hh Hl; try (simpl in Hf; lia); cbn [clear_ready_loop]; rewrite Hh.
  - cbn [list.head]. exists (frames w), (sched w). split_and!; try done. by destruct w.
  - cbn [list.head]. destruct (lk_next _ _ _ _ Hl [] i rq eq_refl) as (f & Hi & _).
    destruct (pop_links _ _ _ _ _ _ Hl Hi) as (Hn & Hc & Hl1). unfold deref. rewrite Hi. cbn [from_option_ub mbind outcome_bind].
    unfold update_promise, update, deref. cbn [frames set_sched set_frames]. rewrite Hi. cbn [from_option_ub mbind outcome_bind].
    match goal with |- ∃ m s, clear_ready_loop _ ?w1 = _ ∧ _ => set (w1' := w1) end.
    destruct (IH fuel w1') as (m & s & E & Hc' & Hr' & Hh' & Hl').
    + simpl in Hf. lia.
    + simpl. by rewrite Hn.
    + simpl. eapply links_sched; [exact Hl1 | done | | | done | done]; simpl.
      * by destruct rq.
      * unfold wrap64. rewrite Zminus_mod_idemp_l. f_equal. cbn [length]. lia.
    + exists m, s. rewrite E. split_and!; try done. by rewrite Hc'.
Qed.

Lemma clear_ready_ok w rq rt :
  links (frames w) (sched w) rq rt →
  ∃ m s, clear_ready w = Val (log EvCleared (set_sched s (set_frames m w))) ∧ core m = core (frames w) ∧ rest s = rest (sched w) ∧
    links m s [] rt.
Proof.
  intros H. destruct (clear_ready_loop_ok rt rq (S (size (frames w))) w) as (m & s & E & Hc & Hr & Hh & Hl).
  - enough (length rq ≤ size (frames w))%nat by lia. apply length_le_size; [apply H |]. intros i Hi. eapply links_live; [done | by left].
  - apply H.
  - eapply links_sched; [exact H | | | | done | done]; simpl; symmetry; apply H.
  - unfold clear_ready. rewrite E. cbn [mbind outcome_bind]. exists m. eexists. split; [reflexivity |]. split_and!; try done.
    eapply links_sched; [exact Hl | | done.. ]. done.
Qed.

(** ** Owners and destruction *)
Definition frame_owned m : list nat := concat ((λ kv, owned_frames kv.2) <$> map_to_list m).

Lemma concat_permutation {A} (l l' : list (list A)) : l ≡ₚ l' → concat l ≡ₚ concat l'.
Proof.
  induction 1; simpl; [done | by apply Permutation_app_head | | by etransitivity].
  rewrite !app_assoc. by apply Permutation_app_tail, Permutation_app_comm.
Qed.

Lemma frame_owned_insert m i f : frame_owned (<[i := f]> m) ≡ₚ owned_frames f ++ frame_owned (delete i m).
Proof.
  unfold frame_owned. rewrite <- insert_delete_eq.
  rewrite (concat_permutation _ ((λ kv, owned_frames kv.2) <$> ((i, f) :: map_to_list (delete i m)))); [done |].
  apply fmap_Permutation, map_to_list_insert, lookup_delete_eq.
Qed.

Lemma frame_owned_delete m i f : m !! i = Some f → frame_owned m ≡ₚ owned_frames f ++ frame_owned (delete i m).
Proof. intros H. rewrite <- frame_owned_insert. by rewrite insert_id. Qed.

Lemma frame_owned_elem m j : j ∈ frame_owned m ↔ ∃ i f, m !! i = Some f ∧ j ∈ owned_frames f.
Proof.
  unfold frame_owned. rewrite list_elem_of_In, in_concat. split.
  - intros (l & Hl & Hj). apply list_elem_of_In, list_elem_of_fmap in Hl as ([i f] & -> & Hl). apply elem_of_map_to_list in Hl.
    exists i, f. split; [done |]. by apply list_elem_of_In.
  - intros (i & f & Hi & Hj). exists (owned_frames f). split; [| by apply list_elem_of_In]. apply list_elem_of_In, list_elem_of_fmap.
    exists (i, f). split; [done |]. by apply elem_of_map_to_list.
Qed.

Lemma elements_dom_delete m i f : m !! i = Some f → elements (dom m) ≡ₚ i :: elements (dom (delete i m)).
Proof.
  intros H. rewrite <- (insert_id m i f H) at 1. rewrite <- insert_delete_eq, dom_insert_L.
  rewrite elements_union_singleton; [done |]. rewrite not_elem_of_dom. apply lookup_delete_eq.
Qed.

(** Destroying what has no other owner, with all it owns. *)
Lemma destroy_frames_ok fuel work extra w :
  (∀ i f, frames w !! i = Some f → point f ≠ Executing) →
  work ++ extra ++ frame_owned (frames w) ≡ₚ elements (dom (frames w)) → (size (frames w) ≤ fuel)%nat →
  ∃ m, destroy_frames fuel work w = Val (set_frames m w) ∧ m ⊆ frames w ∧ (∀ j, j ∈ work → m !! j = None) ∧
    extra ++ frame_owned m ≡ₚ elements (dom m).
Proof.
  revert work w. induction fuel as [| fuel IH]; intros work w Hex Hown Hsize; destruct work as [| i work].
  - exists (frames w). split_and!; try done; [by destruct w |]. intros j Hj. by apply list_elem_of_In in Hj.
  - assert (i ∈ dom (frames w)) as Hi by (rewrite <- elem_of_elements, <- Hown; by left).
    apply elem_of_dom in Hi as [f Hi]. assert (frames w = ∅) as E by (apply map_size_empty_iff; lia). by rewrite E in Hi.
  - exists (frames w). split_and!; try done; [by destruct w |]. intros j Hj. by apply list_elem_of_In in Hj.
  - assert (i ∈ dom (frames w)) as Hi by (rewrite <- elem_of_elements, <- Hown; by left).
    apply elem_of_dom in Hi as [f Hi]. cbn [destroy_frames]. unfold deref. rewrite Hi. cbn [from_option_ub mbind outcome_bind].
    destruct (IH (owned_frames f ++ work) (set_frames (delete i (frames w)) w)) as (m & E & Hsub & Hgone & Hown').
    + intros j g. simpl. rewrite lookup_delete. case_decide; [done | apply Hex].
    + simpl. rewrite (elements_dom_delete _ _ _ Hi), (frame_owned_delete _ _ _ Hi) in Hown. simpl in Hown.
      apply Permutation_cons_inv in Hown. rewrite <- Hown. rewrite <- !app_assoc. 
      rewrite (Permutation_app_swap_app (owned_frames f)). apply Permutation_app_head, Permutation_app_swap_app.
    + simpl. rewrite map_size_delete, Hi. lia.
    + exists m. split_and!; [| | | done].
      * destruct (point f) eqn:Hp; try exact E. by destruct (Hex _ _ Hi).
      * etrans; [exact Hsub |]. simpl. apply delete_subseteq.
      * intros j [-> | Hj]%elem_of_cons; [| apply Hgone; apply elem_of_app; by right].
        destruct (m !! i) eqn:Hm; [| done]. eapply lookup_weaken in Hm; [| exact Hsub]. simpl in Hm. by rewrite lookup_delete_eq in Hm.
Qed.

(** Destroying leaves. *)
Lemma destroy_leaves l w :
  NoDup l → (∀ i, i ∈ l → ∃ f, frames w !! i = Some f ∧ point f ≠ Executing ∧ owned_frames f = []) →
  ∃ m, destroy l w = Val (set_frames m w) ∧ ∀ j, m !! j = if decide (j ∈ l) then None else frames w !! j.
Proof.
  intros Hn Hl. unfold destroy. assert (length l ≤ size (frames w))%nat as Hs.
  { apply length_le_size; [done |]. intros i Hi. destruct (Hl i Hi) as (f & -> & _). by eexists. }
  revert Hs. generalize (size (frames w)) as fuel. intros fuel. revert w fuel Hl.
  induction l as [| i l IH]; intros w fuel Hl Hs.
  - exists (frames w). split; [by destruct w, fuel |]. intros j. rewrite decide_False; [done | set_solver].
  - apply list.NoDup_cons in Hn as [Hni Hn]. destruct fuel as [| fuel]; [simpl in Hs; lia |]. cbn [destroy_frames].
    destruct (Hl i) as (f & Hi & Hp & Ho); [by left |]. unfold deref. rewrite Hi. cbn [from_option_ub mbind outcome_bind]. rewrite Ho.
    destruct (IH Hn (set_frames (delete i (frames w)) w) fuel) as (m & E & Hm).
    + intros j Hj. destruct (Hl j) as (g & Hg & Hr); [by right |]. exists g. simpl. rewrite lookup_delete_ne by set_solver. done.
    + simpl in Hs. lia.
    + exists m. split; [by destruct (point f) |]. intros j. rewrite Hm. simpl. rewrite lookup_delete.
      destruct (decide (j ∈ l)) as [Hj | Hj]; [by rewrite decide_True by (by right) |].
      destruct (decide (i = j)) as [-> | Hij]; [by rewrite decide_True by (by left) |]. rewrite decide_False by set_solver. done.
Qed.

End links.
