(* ===== verification/SchedulerTasks.v ===== *)
(** * Tasks without the lists: what holds of the frames, whatever the bodies do

    The frames with the links erased ([core]), the queue [rq] and the roots [rt]: who owns
    which frame ([mem_ok]) and who is in the queue ([queue_ok]), and the lemmas for each kind
    of change. *)
From S2P Require Import Prelude Scheduler SchedulerLists.
Import Sched.

Section tasks.
Context {B : Type}.
Implicit Types w : World B.
Implicit Types f g : Frame B.
Implicit Types c : gmap nat (Frame B).
Implicit Types rq rt : list nat.
Implicit Types mt : gmap nat nat.

Notation awaiting j := (AwaitingChild (mkAwaiter (Some j) None)).

(** ** Tasks *)

(** A task in a variable has not been started and is in neither list. *)
Definition unstarted c rq rt (j : nat) : Prop :=
  ∃ g, c !! j = Some g ∧ point g = Initial ∧ j ∉ rq ∧ j ∉ rt ∧ continuation_ (promise g) = None.

Record frame_ok c rq rt (i : nat) f : Prop := {
  fo_handle : handle_ (promise f) = true;
  fo_sched : scheduler_ (promise f) = None ∨ scheduler_ (promise f) = Some this;
  fo_tasks x j : tasks f !! x = Some j → (i < j)%nat ∧ unstarted c rq rt j;
  fo_leaf : point f = Initial ∨ point f = Final → tasks f = ∅;
  fo_bound : point f ≠ Initial → scheduler_ (promise f) = Some this;
  fo_parent p : continuation_ (promise f) = Some p → ∃ g, c !! p = Some g ∧ point g = awaiting i;
  fo_child a : point f = AwaitingChild a → ∃ j g, a = mkAwaiter (Some j) None ∧ (i < j)%nat ∧ c !! j = Some g ∧
    continuation_ (promise g) = Some i ∧ scheduler_ (promise g) = Some this ∧ j ∉ rt;
}.

(** [fl]: tasks in the hands of an operation that is under way. *)
Record mem_ok (fl : list nat) c rq rt mt (nf : nat) (exec : option nat) : Prop := {
  mo_owned : fl ++ rt ++ task_list mt ++ frame_owned c ≡ₚ elements (dom c);
  mo_floating j : j ∈ fl → unstarted c rq rt j;
  mo_fresh i f : c !! i = Some f → (i < nf)%nat;
  mo_frame i f : c !! i = Some f → frame_ok c rq rt i f;
  mo_main x j : mt !! x = Some j → unstarted c rq rt j;
  mo_queued i : i ∈ rq → ∃ f, c !! i = Some f ∧ scheduler_ (promise f) = Some this ∧ point f ≠ Executing ∧ point f ≠ Final;
  mo_roots i : i ∈ rt → ∃ f, c !! i = Some f ∧ scheduler_ (promise f) = Some this ∧ continuation_ (promise f) = None;
  mo_exec i f : c !! i = Some f → point f = Executing ↔ exec = Some i;
  mo_live i : exec = Some i → is_Some (c !! i);
}.

(** Who is in the queue. *)
Record queue_ok c rq rt : Prop := {
  qo_yield i f : c !! i = Some f → point f = Yielded → i ∈ rq;
  qo_await i f j g : c !! i = Some f → point f = awaiting j → c !! j = Some g → i ∈ rq ↔ point g = Final;
  qo_root i f : i ∈ rt → c !! i = Some f → point f = Initial → i ∈ rq;
  qo_child i f p : c !! i = Some f → continuation_ (promise f) = Some p → point f = Initial → i ∈ rq;
}.

Lemma frame_ok_move c c' rq rq' rt rt' i f :
  frame_ok c rq rt i f →
  (∀ x j, tasks f !! x = Some j → unstarted c rq rt j → unstarted c' rq' rt' j) →
  (∀ p g, c !! p = Some g → point g = awaiting i → continuation_ (promise f) = Some p → ∃ g', c' !! p = Some g' ∧ point g' = awaiting i) →
  (∀ j g, point f = awaiting j → c !! j = Some g → continuation_ (promise g) = Some i → scheduler_ (promise g) = Some this → j ∉ rt →
     ∃ g', c' !! j = Some g' ∧ continuation_ (promise g') = Some i ∧ scheduler_ (promise g') = Some this ∧ j ∉ rt') →
  frame_ok c' rq' rt' i f.
Proof.
  intros [H1 H2 H3 H4 H5 H6 H7] Ht Hp Hc. split; try done.
  - intros x j Hx. destruct (H3 _ _ Hx). eauto.
  - intros p Hcp. destruct (H6 _ Hcp) as (g & Hg & Hpt). eauto.
  - intros a Ha. destruct (H7 _ Ha) as (j & g & -> & Hlt & Hj & Hcj & Hsj & Hrj). destruct (Hc j g) as (g' & ? & ? & ? & ?); try done.
    by exists j, g'.
Qed.

(** ** Steps that change nothing of this *)
Definition key f := (point f, tasks f, continuation_ (promise f), handle_ (promise f)).

Lemma unstarted_key c rq rt i f f' j :
  c !! i = Some f → key f' = key f → unstarted c rq rt j → unstarted (<[i := f']> c) rq rt j.
Proof.
  intros Hi [= Kp Kt Kc Kh] (g & Hj & Hp & Hq & Hr & Hc). unfold unstarted. rewrite lookup_insert. case_decide; [| by exists g].
  subst j. assert (g = f) as -> by congruence. exists f'. rewrite Kp, Kc. done.
Qed.

Lemma frame_owned_key c i f f' : c !! i = Some f → key f' = key f → frame_owned (<[i := f']> c) ≡ₚ frame_owned c.
Proof.
  intros Hi [= Kp Kt _ _]. rewrite frame_owned_insert, (frame_owned_delete _ _ _ Hi). unfold owned_frames. by rewrite Kp, Kt.
Qed.

Lemma dom_update c i f f' : c !! i = Some f → dom (<[i := f']> c) = dom c.
Proof. intros Hi. rewrite dom_insert_L. apply subseteq_union_1_L, singleton_subseteq_l, elem_of_dom. by eexists. Qed.

(** [f'] differs from [f] in fields the invariant does not mention, or is bound now. *)
Lemma mem_key fl c rq rt mt nf exec i f f' :
  mem_ok fl c rq rt mt nf exec → c !! i = Some f → key f' = key f →
  scheduler_ (promise f') = scheduler_ (promise f) ∨ scheduler_ (promise f') = Some this →
  mem_ok fl (<[i := f']> c) rq rt mt nf exec.
Proof.
  intros [H1 H0 H2 H3 H4 H5 H6 H7 H8] Hi Hk Hs. pose proof Hk as [= Kp Kt Kc Kh].
  assert (scheduler_ (promise f) = Some this → scheduler_ (promise f') = Some this) as Hs' by (intros E; destruct Hs; congruence).
  split.
  - by rewrite (frame_owned_key _ _ _ _ Hi Hk), (dom_update _ _ _ _ Hi).
  - intros j Hj. apply unstarted_key with f; auto.
  - intros j g. rewrite lookup_insert. case_decide; [intros _; subst; by eapply H2 | apply H2].
  - assert (∀ j g, frame_ok c rq rt j g → frame_ok (<[i := f']> c) rq rt j g) as Hmove.
    { intros j g Hg. apply (frame_ok_move c _ rq _ rt); try done.
      - intros x k _. by apply unstarted_key with f.
      - intros p g0 Hp Hpt _. rewrite lookup_insert. case_decide; [| by eauto]. subst p. exists f'. split; [done |]. congruence.
      - intros k g0 _ Hk0 Hck Hsk Hrk. rewrite lookup_insert. case_decide; [| by eauto]. subst k. exists f'.
        assert (g0 = f) as -> by congruence. split_and!; try done; [by rewrite Kc | by apply Hs']. }
    intros j g. rewrite lookup_insert. case_decide; [| intros Hj; by apply Hmove, H3]. intros [= <-]. subst j.
    pose proof (Hmove _ _ (H3 _ _ Hi)) as [M1 M2 M3 M4 M5 M6 M7].
    split; rewrite ?Kp, ?Kt, ?Kc, ?Kh; try done; [destruct Hs as [-> | ->]; auto | intros Hp; by apply Hs', M5].
  - intros x j Hx. apply unstarted_key with f; eauto.
  - intros j Hj. destruct (H5 _ Hj) as (g & Hg & Hsg & P1 & P2). rewrite lookup_insert. case_decide; [| by eauto]. subst j.
    exists f'. assert (g = f) as -> by congruence. rewrite Kp. eauto.
  - intros j Hj. destruct (H6 _ Hj) as (g & Hg & Hsg & P1). rewrite lookup_insert. case_decide; [| by eauto]. subst j.
    exists f'. assert (g = f) as -> by congruence. rewrite Kc. eauto.
  - intros j g. rewrite lookup_insert. case_decide; [| apply H7]. intros [= <-]. subst j. rewrite Kp. by apply H7.
  - intros j Hj. destruct (H8 _ Hj) as [h Hh]. rewrite lookup_insert. case_decide; by eexists.
Qed.

Lemma queue_points c rq rt i f f' :
  queue_ok c rq rt → c !! i = Some f → point f' = point f → continuation_ (promise f') = continuation_ (promise f) →
  queue_ok (<[i := f']> c) rq rt.
Proof.
  intros [H1 H2 H3 H4] Hi Kp Kc.
  assert (∀ j g, <[i := f']> c !! j = Some g → ∃ g0, c !! j = Some g0 ∧ point g = point g0 ∧
    continuation_ (promise g) = continuation_ (promise g0)) as Hlook.
  { intros j g. rewrite lookup_insert. case_decide; [| by eauto]. intros [= <-]. subst j. by exists f. }
  split.
  - intros j g Hj. destruct (Hlook _ _ Hj) as (g0 & Hg0 & -> & _). by apply H1.
  - intros j g k h Hj Hp Hk. destruct (Hlook _ _ Hj) as (g0 & Hg0 & E & _), (Hlook _ _ Hk) as (h0 & Hh0 & -> & _).
    rewrite E in Hp. by eapply H2.
  - intros j g Hr Hj. destruct (Hlook _ _ Hj) as (g0 & Hg0 & -> & _). by apply H3.
  - intros j g p Hj. destruct (Hlook _ _ Hj) as (g0 & Hg0 & -> & ->). by apply H4.
Qed.

(** ** Who owns a task *)
Lemma mem_NoDup fl c rq rt mt nf exec : mem_ok fl c rq rt mt nf exec → NoDup (fl ++ rt ++ task_list mt ++ frame_owned c).
Proof. intros H. rewrite (mo_owned _ _ _ _ _ _ _ H). apply NoDup_elements. Qed.

Lemma task_list_elem (m : gmap nat nat) j : j ∈ task_list m ↔ ∃ x, m !! x = Some j.
Proof.
  unfold task_list. rewrite list_elem_of_fmap. split.
  - intros ([x j'] & -> & H). apply elem_of_map_to_list in H. by exists x.
  - intros [x Hx]. exists (x, j). split; [done |]. by apply elem_of_map_to_list.
Qed.

Lemma task_list_insert (m : gmap nat nat) x j : m !! x = None → task_list (<[x := j]> m) ≡ₚ j :: task_list m.
Proof. intros H. unfold task_list. by rewrite map_to_list_insert. Qed.

Lemma task_list_delete (m : gmap nat nat) x j : m !! x = Some j → task_list m ≡ₚ j :: task_list (delete x m).
Proof. intros H. rewrite <- (insert_id m x j H) at 1. rewrite <- insert_delete_eq, task_list_insert; [done | apply lookup_delete_eq]. Qed.

Lemma owned_by_tasks c i f x j : c !! i = Some f → tasks f !! x = Some j → j ∈ frame_owned c.
Proof.
  intros Hi Hx. apply frame_owned_elem. exists i, f. split; [done |]. unfold owned_frames. apply elem_of_app. right.
  apply task_list_elem. by exists x.
Qed.

Lemma unstarted_queue c rq rq' rt rt' j :
  unstarted c rq rt j → (j ∈ rq' → j ∈ rq) → (j ∈ rt' → j ∈ rt) → unstarted c rq' rt' j.
Proof. intros (g & Hj & Hp & Hq & Hr & Hc) H1 H2. exists g. split_and!; try done; intros Hx; auto. Qed.

(** Moving a task between variables and hands changes neither lists nor frames. *)
Lemma take_main fl c rq rt mt nf exec x j :
  mem_ok fl c rq rt mt nf exec → mt !! x = Some j → mem_ok (j :: fl) c rq rt (delete x mt) nf exec.
Proof.
  intros [H1 H0 H2 H3 H4 H5 H6 H7 H8] Hx. split; try done.
  - rewrite <- H1, (task_list_delete _ _ _ Hx). simpl. by rewrite !Permutation_middle.
  - intros k [-> | Hk]%elem_of_cons; [by eapply H4 | by apply H0].
  - intros y k. rewrite lookup_delete. case_decide; [done | apply H4].
Qed.

Lemma put_main fl c rq rt mt nf exec x j :
  mem_ok (j :: fl) c rq rt mt nf exec → mt !! x = None → mem_ok fl c rq rt (<[x := j]> mt) nf exec.
Proof.
  intros [H1 H0 H2 H3 H4 H5 H6 H7 H8] Hx. split; try done.
  - rewrite <- H1, (task_list_insert _ _ _ Hx). simpl. by rewrite !Permutation_middle.
  - intros k Hk. apply H0. by right.
  - intros y k. rewrite lookup_insert. case_decide; [intros [= <-]; apply H0; by left | apply H4].
Qed.

(** A change of the variables of frame [i]. *)
Lemma mem_tasks fl fl' c rq rt mt nf exec i f m :
  mem_ok fl c rq rt mt nf exec → c !! i = Some f → point f ≠ Initial → point f ≠ Final →
  fl' ++ task_list m ≡ₚ fl ++ task_list (tasks f) →
  (∀ j, j ∈ fl' → unstarted c rq rt j) → (∀ x j, m !! x = Some j → (i < j)%nat ∧ unstarted c rq rt j) →
  mem_ok fl' (<[i := with_tasks m f]> c) rq rt mt nf exec.
Proof.
  intros [H1 H0 H2 H3 H4 H5 H6 H7 H8] Hi Hp1 Hp2 Hperm Hfl Hm.
  assert (∀ j, unstarted c rq rt j → unstarted (<[i := with_tasks m f]> c) rq rt j) as Hun.
  { intros j (g & Hj & Hp & Hr). exists g. rewrite lookup_insert_ne by congruence. done. }
  assert (∀ j g, frame_ok c rq rt j g → frame_ok (<[i := with_tasks m f]> c) rq rt j g) as Hmove.
  { intros j g Hg. apply (frame_ok_move c _ rq _ rt); try done.
    - intros x k _. apply Hun.
    - intros p g0 Hp Hpt _. rewrite lookup_insert. case_decide; [| by eauto]. subst p. exists (with_tasks m f). split; [done |].
      simpl. congruence.
    - intros k g0 _ Hk0 Hck Hsk Hrk. rewrite lookup_insert. case_decide; [| by eauto]. subst k. exists (with_tasks m f).
      assert (g0 = f) as -> by congruence. done. }
  split; try done.
  - rewrite (dom_update _ _ _ _ Hi), <- H1, frame_owned_insert, (frame_owned_delete _ _ _ Hi). unfold owned_frames. simpl.
    rewrite <- !app_assoc. rewrite !(app_assoc rt), !(app_assoc (rt ++ _)). set (K := (rt ++ task_list mt) ++ awaiter_owned (point f)).
    rewrite !(Permutation_app_swap_app _ K). apply Permutation_app_head. rewrite !(app_assoc _ (task_list _)). by rewrite Hperm.
  - intros j Hj. by apply Hun, Hfl.
  - intros j g. rewrite lookup_insert. case_decide; [intros _; subst; by eapply H2 | apply H2].
  - intros j g. rewrite lookup_insert. case_decide; [| intros Hj; by apply Hmove, H3]. intros [= <-]. subst j.
    pose proof (Hmove _ _ (H3 _ _ Hi)) as [M1 M2 M3 M4 M5 M6 M7]. split; try done.
    + intros x j Hx. destruct (Hm _ _ Hx). auto.
    + simpl. intros [Hp | Hp]; done.
  - intros x j Hx. eapply Hun; eauto.
  - intros j Hj. destruct (H5 _ Hj) as (g & Hg & Hr). rewrite lookup_insert. case_decide; [| by eauto]. subst j.
    exists (with_tasks m f). assert (g = f) as -> by congruence. done.
  - intros j Hj. destruct (H6 _ Hj) as (g & Hg & Hr). rewrite lookup_insert. case_decide; [| by eauto]. subst j.
    exists (with_tasks m f). assert (g = f) as -> by congruence. done.
  - intros j g. rewrite lookup_insert. case_decide; [| apply H7]. intros [= <-]. subst j. simpl. by apply H7.
  - intros j Hj. destruct (H8 _ Hj) as [h Hh]. rewrite lookup_insert. case_decide; by eexists.
Qed.

(** A new frame. *)
Lemma mem_new fl c rq rt mt nf exec b void :
  mem_ok fl c rq rt mt nf exec →
  mem_ok (nf :: fl) (<[nf := mkFrame new_promise void None Initial b Continue ∅]> c) rq rt mt (S nf) exec ∧ c !! nf = None.
Proof.
  intros [H1 H0 H2 H3 H4 H5 H6 H7 H8].
  assert (c !! nf = None) as Hn by (destruct (c !! nf) eqn:Hc; [apply H2 in Hc; lia | done]). split; [| done].
  set (g := mkFrame _ _ _ _ _ _ _).
  assert (∀ j, unstarted c rq rt j → unstarted (<[nf := g]> c) rq rt j) as Hun.
  { intros j (h & Hj & Hr). exists h. rewrite lookup_insert_ne by congruence. done. }
  assert (nf ∉ rq ∧ nf ∉ rt) as [Nq Nt].
  { split; intros Hx; [apply H5 in Hx as (h & Hh & _) | apply H6 in Hx as (h & Hh & _)]; congruence. }
  split.
  - rewrite frame_owned_insert, dom_insert_L. rewrite elements_union_singleton by (by rewrite not_elem_of_dom).
    rewrite delete_id by done. by rewrite <- H1.
  - intros j [-> | Hj]%elem_of_cons; [| by apply Hun, H0]. exists g. by rewrite lookup_insert_eq.
  - intros j h. rewrite lookup_insert. case_decide; [intros _; lia |]. intros Hj. apply H2 in Hj. lia.
  - intros j h. rewrite lookup_insert. case_decide.
    + intros [= <-]. subst j. split; simpl; try done; by left.
    + intros Hj. apply (frame_ok_move c _ rq _ rt); [by apply H3 | intros x k _; apply Hun | |].
      * intros p g0 Hp. exists g0. rewrite lookup_insert_ne by congruence. done.
      * intros k g0 _ Hk. exists g0. rewrite lookup_insert_ne by congruence. done.
  - intros x j Hx. by eapply Hun, H4.
  - intros j Hj. destruct (H5 _ Hj) as (h & Hh & Hr). exists h. rewrite lookup_insert_ne by congruence. done.
  - intros j Hj. destruct (H6 _ Hj) as (h & Hh & Hr). exists h. rewrite lookup_insert_ne by congruence. done.
  - intros j h. rewrite lookup_insert. case_decide; [| apply H7]. intros [= <-]. subst j. simpl. split; [done |]. intros Hx.
    destruct (H8 _ Hx). congruence.
  - intros j Hj. destruct (H8 _ Hj) as [h Hh]. rewrite lookup_insert. case_decide; by eexists.
Qed.

(** A task in hand is destroyed: it owns nothing. *)
Lemma unstarted_leaf c rq rt j fl mt nf exec :
  mem_ok fl c rq rt mt nf exec → unstarted c rq rt j → ∃ g, c !! j = Some g ∧ point g = Initial ∧ owned_frames g = [].
Proof.
  intros H (g & Hj & Hp & _). exists g. split_and!; try done. destruct (mo_frame _ _ _ _ _ _ _ H _ _ Hj) as [_ _ _ Hl _ _ _].
  unfold owned_frames. rewrite Hp, Hl by (by left). done.
Qed.

(** Frame [i], that nobody awaits and no variable holds, is gone. *)
Lemma frames_delete fl c rq rt mt nf exec i f :
  mem_ok fl c rq rt mt nf exec → c !! i = Some f → i ∉ rq → owned_frames f = [] →
  (∀ p, continuation_ (promise f) ≠ Some p) → (∀ a, point f ≠ AwaitingChild a) → i ∉ frame_owned c →
  ∀ rt' j g, (∀ k, k ∈ rt' → k ∈ rt) → j ≠ i → c !! j = Some g → frame_ok (delete i c) rq rt' j g.
Proof.
  intros H Hi Hq Ho Hc Ha Hno rt' j g Hrt Hji Hj.
  apply (frame_ok_move c _ rq _ rt); [by eapply mo_frame | | |].
  - intros x k Hx (h & Hk & Hp & Hr). apply (unstarted_queue _ rq _ rt); [| done | by apply Hrt]. exists h. rewrite lookup_delete_ne; [done |].
    intros <-. apply Hno. exact (owned_by_tasks _ _ _ _ _ Hj Hx).
  - intros p g0 Hp Hpt _. exists g0. rewrite lookup_delete_ne; [done |]. intros ->. apply (Ha (mkAwaiter (Some j) None)). congruence.
  - intros k g0 _ Hk Hck Hsk Hrk. exists g0. rewrite lookup_delete_ne; [split_and!; try done; intros Hx; by apply Hrk, Hrt |].
    intros ->. apply (Hc j). congruence.
Qed.

Lemma mem_delete fl c rq rt mt nf exec i f rt' fl' :
  mem_ok fl c rq rt mt nf exec → c !! i = Some f → i ∉ rq → owned_frames f = [] →
  (∀ p, continuation_ (promise f) ≠ Some p) → (∀ a, point f ≠ AwaitingChild a) → point f ≠ Executing →
  (∀ k, k ∈ rt' → k ∈ rt) → (∀ k, k ∈ fl' → k ∈ fl) → fl ++ rt ≡ₚ i :: fl' ++ rt' →
  mem_ok fl' (delete i c) rq rt' mt nf exec.
Proof.
  intros H Hi Hq Ho Hc Ha Hx Hrt Hfl Hperm. pose proof (mem_NoDup _ _ _ _ _ _ _ H) as Hnd.
  rewrite app_assoc, Hperm in Hnd. simpl in Hnd. apply list.NoDup_cons in Hnd as [Hni Hnd].
  assert (i ∉ frame_owned c) as Hno by (intros Hin; apply Hni; rewrite !elem_of_app; auto).
  pose proof H as [H1 H0 H2 H3 H4 H5 H6 H7 H8].
  assert (∀ j, j ≠ i → unstarted c rq rt j → unstarted (delete i c) rq rt' j) as Hun.
  { intros j Hji Hj. apply (unstarted_queue _ rq _ rt); [| done | by apply Hrt]. destruct Hj as (g & Hj & Hr). exists g.
    by rewrite lookup_delete_ne. }
  split.
  - rewrite (elements_dom_delete _ _ _ Hi), app_assoc, Hperm, (frame_owned_delete _ _ _ Hi), Ho in H1. simpl in H1.
    apply Permutation_cons_inv in H1. by rewrite <- H1, <- app_assoc.
  - intros j Hj. apply Hun; [| by apply H0, Hfl]. intros ->. apply Hni. rewrite !elem_of_app. auto.
  - intros j g. rewrite lookup_delete. case_decide; [done | apply H2].
  - intros j g. rewrite lookup_delete. case_decide as Hd; [done |]. intros Hj. eapply frames_delete; try done.
  - intros x j Hj. apply Hun; [| by eapply H4]. intros ->. apply Hni. rewrite !elem_of_app. right. left. apply task_list_elem. by exists x.
  - intros j Hj. destruct (H5 _ Hj) as (g & Hg & Hr). exists g. rewrite lookup_delete_ne; [done |]. by intros ->.
  - intros j Hj. destruct (H6 _ (Hrt _ Hj)) as (g & Hg & Hr). exists g. rewrite lookup_delete_ne; [done |]. intros ->. apply Hni.
    rewrite !elem_of_app. auto.
  - intros j g. rewrite lookup_delete. case_decide; [done | apply H7].
  - intros j Hj. rewrite lookup_delete. case_decide; [| by apply H8]. subst j. destruct Hx. by apply (H7 _ _ Hi).
Qed.

Lemma queue_delete c rq rt rt' i :
  queue_ok c rq rt → (∀ j g, c !! j = Some g → point g ≠ awaiting i) → (∀ k, k ∈ rt' → k ∈ rt) → queue_ok (delete i c) rq rt'.
Proof.
  intros [H1 H2 H3 H4] Hno Hrt. split.
  - intros j g. rewrite lookup_delete. case_decide; [done | apply H1].
  - intros j g k h. rewrite !lookup_delete. repeat case_decide; try done. apply H2.
  - intros j g Hj. rewrite lookup_delete. case_decide; [done |]. by apply H3, Hrt.
  - intros j g p. rewrite lookup_delete. case_decide; [done | apply H4].
Qed.

(** ** The queue *)
Lemma unstarted_enqueue c rq rt i j : unstarted c rq rt j → j ≠ i → unstarted c (rq ++ [i]) rt j.
Proof. intros H Hji. eapply unstarted_queue; [done | | done]. set_solver. Qed.

Lemma mem_enqueue fl c rq rt mt nf exec i f :
  mem_ok fl c rq rt mt nf exec → c !! i = Some f → scheduler_ (promise f) = Some this → point f ≠ Executing → point f ≠ Final →
  ¬ unstarted c rq rt i → mem_ok fl c (rq ++ [i]) rt mt nf exec.
Proof.
  intros [H1 H0 H2 H3 H4 H5 H6 H7 H8] Hi Hs Hp1 Hp2 Hnu.
  assert (∀ j, unstarted c rq rt j → unstarted c (rq ++ [i]) rt j) as Hun.
  { intros j Hj. apply unstarted_enqueue; [done |]. by intros ->. }
  split; try done.
  - intros j Hj. by apply Hun, H0.
  - intros j g Hj. apply (frame_ok_move c _ rq _ rt); [by apply H3 | intros x k _; apply Hun | by eauto | by eauto].
  - intros x j Hj. by eapply Hun, H4.
  - intros j. rewrite elem_of_app, list_elem_of_singleton. intros [Hj | ->]; [by apply H5 | by exists f].
Qed.

Lemma mem_dequeue fl c rq rt mt nf exec i : mem_ok fl c (i :: rq) rt mt nf exec → mem_ok fl c rq rt mt nf exec.
Proof.
  intros [H1 H0 H2 H3 H4 H5 H6 H7 H8].
  assert (∀ j, unstarted c (i :: rq) rt j → unstarted c rq rt j) as Hun.
  { intros j Hj. eapply unstarted_queue; [done | set_solver | done]. }
  split; try done.
  - intros j Hj. by apply Hun, H0.
  - intros j g Hj. apply (frame_ok_move c _ (i :: rq) _ rt); [by apply H3 | intros x k _; apply Hun | by eauto | by eauto].
  - intros x j Hj. by eapply Hun, H4.
  - intros j Hj. apply H5. by right.
Qed.

Lemma mem_clear fl c rq rt mt nf exec : mem_ok fl c rq rt mt nf exec → mem_ok fl c [] rt mt nf exec.
Proof. induction rq as [| i rq IH]; [done |]. intros H. by eapply IH, mem_dequeue. Qed.

(** ** Points *)

(** No variable holds frame [i]. *)
Definition unheld (fl : list nat) c (mt : gmap nat nat) (i : nat) : Prop :=
  i ∉ fl ∧ (∀ x, mt !! x ≠ Some i) ∧ (∀ k g x, c !! k = Some g → tasks g !! x ≠ Some i).

Lemma started_unheld fl c rq rt mt nf exec i : mem_ok fl c rq rt mt nf exec → ¬ unstarted c rq rt i → unheld fl c mt i.
Proof.
  intros H Hn. split_and!.
  - intros Hi. by apply Hn, (mo_floating _ _ _ _ _ _ _ H).
  - intros x Hx. by eapply Hn, (mo_main _ _ _ _ _ _ _ H).
  - intros k g x Hk Hx. apply Hn. by apply (fo_tasks _ _ _ _ _ (mo_frame _ _ _ _ _ _ _ H _ _ Hk)) in Hx as [_ Hx].
Qed.

Lemma not_initial_unheld fl c rq rt mt nf exec i f :
  mem_ok fl c rq rt mt nf exec → c !! i = Some f → point f ≠ Initial → unheld fl c mt i.
Proof. intros H Hi Hp. eapply started_unheld; [done |]. intros (g & Hg & Hpg & _). congruence. Qed.

Lemma queued_unheld fl c rq rt mt nf exec i : mem_ok fl c rq rt mt nf exec → i ∈ rq → unheld fl c mt i.
Proof. intros H Hi. eapply started_unheld; [done |]. intros (g & _ & _ & Hq & _). done. Qed.

(** A frame moves to another point; neither is an await. *)
Lemma mem_point fl c rq rt mt nf exec exec' i f f' :
  mem_ok fl c rq rt mt nf exec → c !! i = Some f → unheld fl c mt i →
  (∀ a, point f ≠ AwaitingChild a) → (∀ a, point f' ≠ AwaitingChild a) → point f' ≠ Initial → tasks f' = tasks f →
  continuation_ (promise f') = continuation_ (promise f) → handle_ (promise f') = true → scheduler_ (promise f') = Some this →
  (point f' = Final → tasks f = ∅) → (i ∈ rq → point f' ≠ Executing ∧ point f' ≠ Final) →
  (point f' = Executing ↔ exec' = Some i) → (∀ j, j ≠ i → exec = Some j ↔ exec' = Some j) →
  mem_ok fl (<[i := f']> c) rq rt mt nf exec'.
Proof.
  intros [H1 H0 H2 H3 H4 H5 H6 H7 H8] Hi (Nfl & Nmt & Ntk) Ha Ha' Hin Kt Kc Kh Ks Hfin Hq Hex Hexo.
  assert (∀ j, j ≠ i → unstarted c rq rt j → unstarted (<[i := f']> c) rq rt j) as Hun.
  { intros j Hji (g & Hg & Hr). exists g. by rewrite lookup_insert_ne. }
  assert (owned_frames f' = owned_frames f) as Ho.
  { unfold owned_frames. rewrite Kt. destruct (point f') eqn:E1, (point f) eqn:E2; try done; (by destruct (Ha a)) || (by destruct (Ha' a)). }
  assert (∀ j g, c !! j = Some g → frame_ok c rq rt j g → frame_ok (<[i := f']> c) rq rt j g) as Hmove.
  { intros j g Hj Hg. apply (frame_ok_move c _ rq _ rt); try done.
    - intros x k Hx. apply Hun. intros ->. by eapply Ntk.
    - intros p g0 Hp Hpt _. exists g0. rewrite lookup_insert_ne; [done |]. intros <-. apply (Ha (mkAwaiter (Some j) None)). congruence.
    - intros k g0 _ Hk0 Hck Hsk Hrk. rewrite lookup_insert. case_decide; [| by eauto]. subst k. exists f'.
      assert (g0 = f) as -> by congruence. split_and!; try done. by rewrite Kc. }
  split; try done.
  - by rewrite (dom_update _ _ _ _ Hi), <- H1, frame_owned_insert, (frame_owned_delete _ _ _ Hi), Ho.
  - intros j Hj. apply Hun; [by intros -> | by apply H0].
  - intros j g. rewrite lookup_insert. case_decide; [intros _; subst; by eapply H2 | apply H2].
  - intros j g. rewrite lookup_insert. case_decide; [| intros Hj; by apply Hmove; [| apply H3]]. intros [= <-]. subst j.
    pose proof (Hmove _ _ Hi (H3 _ _ Hi)) as [M1 M2 M3 M4 M5 M6 M7]. split; rewrite ?Kt, ?Kc; try done.
    + by right.
    + intros [? | Hf]; [done | by apply Hfin].
    + intros a Hpa. by destruct (Ha' a).
  - intros x j Hx. apply Hun; [intros ->; by eapply Nmt | by eapply H4].
  - intros j Hj. destruct (H5 _ Hj) as (g & Hg & Hr). rewrite lookup_insert. case_decide; [| by eauto]. subst j. exists f'.
    destruct (Hq Hj). done.
  - intros j Hj. destruct (H6 _ Hj) as (g & Hg & Hs & Hc). rewrite lookup_insert. case_decide; [| by eauto]. subst j. exists f'.
    assert (g = f) as -> by congruence. by rewrite Kc.
  - intros j g. rewrite lookup_insert. case_decide.
    + intros [= <-]. by subst j.
    + intros Hj. rewrite (H7 _ _ Hj). apply Hexo. done.
  - intros j Hj. rewrite lookup_insert. case_decide as Hd; [by eexists |]. apply H8. apply Hexo; [by apply not_eq_sym | done].
Qed.

(** A bound task in hand becomes a root. *)
Lemma mem_spawn fl c rq rt mt nf exec i f :
  mem_ok (i :: fl) c rq rt mt nf exec → c !! i = Some f → scheduler_ (promise f) = Some this →
  mem_ok fl c (rq ++ [i]) (i :: rt) mt nf exec.
Proof.
  intros H Hi Hs. pose proof (mem_NoDup _ _ _ _ _ _ _ H) as Hnd. simpl in Hnd. apply list.NoDup_cons in Hnd as [Hni _].
  rewrite !elem_of_app in Hni. pose proof H as [H1 H0 H2 H3 H4 H5 H6 H7 H8].
  destruct (H0 i) as (f0 & Hf0 & Hp & Hq & Hr & Hc); [by left |]. assert (f0 = f) as -> by congruence.
  assert (∀ j, unstarted c rq rt j → j ≠ i → unstarted c (rq ++ [i]) (i :: rt) j) as Hun.
  { intros j Hj Hji. eapply unstarted_queue; [done | set_solver | set_solver]. }
  split; try done.
  - rewrite <- H1. simpl. symmetry. apply Permutation_middle.
  - intros j Hj. apply Hun; [apply H0; by right |]. intros ->. auto.
  - intros j g Hj. apply (frame_ok_move c _ rq _ rt); [by apply H3 | | by eauto |].
    + intros x k Hx Hk. apply Hun; [done |]. intros ->. apply Hni. do 3 right. exact (owned_by_tasks _ _ _ _ _ Hj Hx).
    + intros k g0 _ Hk Hck Hsk Hrk. exists g0. split_and!; try done. intros [-> | ?]%elem_of_cons; [congruence | done].
  - intros x j Hx. apply Hun; [by eapply H4 |]. intros ->. apply Hni. do 2 right. left. apply task_list_elem. by exists x.
  - intros j. rewrite elem_of_app, list_elem_of_singleton. intros [Hj | ->]; [by apply H5 |]. exists f. by rewrite Hp.
  - intros j [-> | Hj]%elem_of_cons; [by exists f | by apply H6].
Qed.

Lemma queue_spawn c rq rt i f :
  queue_ok c rq rt → c !! i = Some f → point f = Initial → queue_ok c (rq ++ [i]) (i :: rt).
Proof.
  intros [H1 H2 H3 H4] Hi Hp. split.
  - intros j g Hj Hpj. apply elem_of_app. left. by eapply H1.
  - intros j g k h Hj Hpj Hk. rewrite elem_of_app, list_elem_of_singleton, (H2 _ _ _ _ Hj Hpj Hk). split; [| auto].
    intros [? | ->]; [done | congruence].
  - intros j g Hj Hg Hpg. rewrite elem_of_app, list_elem_of_singleton. apply elem_of_cons in Hj as [-> | Hj]; [auto | left; by eapply H3].
  - intros j g p Hj Hc Hpj. apply elem_of_app. left. by eapply H4.
Qed.

(** The executing task awaits a task in hand. *)
Lemma mem_await fl c rq rt mt nf k j f g f' g' :
  mem_ok (j :: fl) c rq rt mt nf (Some k) → c !! k = Some f → c !! j = Some g → (k < j)%nat →
  tasks f' = tasks f → continuation_ (promise f') = continuation_ (promise f) → handle_ (promise f') = true →
  scheduler_ (promise f') = Some this → point f' = awaiting j →
  tasks g' = tasks g → continuation_ (promise g') = Some k → handle_ (promise g') = true →
  scheduler_ (promise g') = Some this → point g' = Initial →
  mem_ok fl (<[k := f']> (<[j := g']> c)) (rq ++ [j]) rt mt nf None.
Proof.
  intros H Hk Hj Hkj Tf Cf Hf Sf Pf Tg Cg Hg Sg Pg.
  pose proof (mem_NoDup _ _ _ _ _ _ _ H) as Hnd. simpl in Hnd. apply list.NoDup_cons in Hnd as [Hni _]. rewrite !elem_of_app in Hni.
  pose proof H as [H1 H0 H2 H3 H4 H5 H6 H7 H8]. pose proof (proj2 (H7 _ _ Hk) eq_refl) as Pk.
  destruct (H0 j) as (g0 & Hg0 & Pj & Qj & Rj & Cj); [by left |]. assert (g0 = g) as -> by congruence. clear Hg0.
  set (c' := <[k := f']> (<[j := g']> c)).
  assert (c' !! k = Some f') as Ek by (unfold c'; by rewrite lookup_insert_eq).
  assert (c' !! j = Some g') as Ej by (unfold c'; rewrite lookup_insert_ne, lookup_insert_eq by lia; done).
  assert (∀ i, i ≠ k → i ≠ j → c' !! i = c !! i) as Eo by (intros; unfold c'; by rewrite !lookup_insert_ne).
  assert (∀ i, unstarted c rq rt i → i ≠ j → unstarted c' (rq ++ [j]) rt i) as Hun.
  { intros i (h & Hi & Hp & Hq & Hr & Hc) Hij. exists h. rewrite Eo; [| congruence | done]. split_and!; try done. set_solver. }
  assert (∀ i h, frame_ok c rq rt i h → i ≠ k → c !! i = Some h → frame_ok c' (rq ++ [j]) rt i h) as Hmove.
  { intros i h Hh Hik Hci. apply (frame_ok_move c _ rq _ rt); try done.
    - intros x l Hx Hl. apply Hun; [done |]. intros ->. apply Hni. do 3 right. exact (owned_by_tasks _ _ _ _ _ Hci Hx).
    - intros p h0 Hp Hpt _. exists h0. rewrite Eo; [done | congruence | congruence].
    - intros l h0 _ Hl Hcl Hsl Hrl. destruct (decide (l = k)) as [-> |].
      + exists f'. assert (h0 = f) as -> by congruence. split_and!; try done. by rewrite Cf.
      + exists h0. rewrite Eo; [done | done | congruence]. }
  split.
  - assert (dom c' = dom c) as -> by (unfold c'; rewrite (dom_update _ k f), (dom_update _ j g); [done | done | by rewrite lookup_insert_ne by lia]).
    rewrite <- H1. unfold c'. rewrite frame_owned_insert, delete_insert_ne, frame_owned_insert by lia.
    rewrite (frame_owned_delete c k f Hk), (frame_owned_delete (delete k c) j g) by (by rewrite lookup_delete_ne by lia).
    unfold owned_frames. rewrite Pf, Tf, Pg, Tg, Pk, Pj. simpl. solve_Permutation.
  - intros i Hi. apply Hun; [apply H0; by right |]. intros ->. auto.
  - intros i h Hi. destruct (decide (i = k)) as [-> |]; [by eapply H2 |]. destruct (decide (i = j)) as [-> |]; [by eapply H2 |].
    rewrite Eo in Hi by done. by eapply H2.
  - intros i h Hi. destruct (decide (i = k)) as [-> |].
    { rewrite Ek in Hi. injection Hi as <-. pose proof (H3 _ _ Hk) as [M1 M2 M3 M4 M5 M6 M7]. split; try done; rewrite ?Tf, ?Cf, ?Pf.
      - by right.
      - intros x l Hx. destruct (M3 _ _ Hx) as [? Hl]. split; [done |]. apply Hun; [done |]. intros ->. apply Hni. do 3 right. exact (owned_by_tasks _ _ _ _ _ Hk Hx).
      - by intros [? | ?].
      - intros p Hp. destruct (M6 p Hp) as (h & Hh & Hpt). exists h. rewrite Eo; [done | congruence | congruence].
      - intros a [= <-]. exists j, g'. done. }
    destruct (decide (i = j)) as [-> |].
    { rewrite Ej in Hi. injection Hi as <-. pose proof (H3 _ _ Hj) as [M1 M2 M3 M4 M5 M6 M7]. split; try done; rewrite ?Tg, ?Cg, ?Pg.
      - by right.
      - intros x l. rewrite M4 by auto. by rewrite lookup_empty.
      - intros _. by apply M4; left.
      - intros p [= <-]. by exists f'.
      - done. }
    rewrite Eo in Hi by done. by apply Hmove; [apply H3 | |].
  - intros x i Hx. apply Hun; [by eapply H4 |]. intros ->. apply Hni. do 2 right. left. apply task_list_elem. by exists x.
  - intros i. rewrite elem_of_app, list_elem_of_singleton. intros [Hi | ->]; [| exists g'; by rewrite Pg].
    destruct (H5 _ Hi) as (h & Hh & Hsh & P1 & P2). exists h. rewrite Eo; [done | congruence | set_solver].
  - intros i Hi. destruct (H6 _ Hi) as (h & Hh & Hsh & Hch). destruct (decide (i = k)) as [-> |].
    + exists f'. assert (h = f) as -> by congruence. by rewrite Cf.
    + exists h. rewrite Eo; [done | done | set_solver].
  - intros i h Hi. split; [| done]. intros Hp. destruct (decide (i = k)) as [-> |]; [congruence |]. destruct (decide (i = j)) as [-> |]; [congruence |].
    rewrite Eo in Hi by done. apply (H7 _ _ Hi) in Hp. congruence.
  - done.
Qed.

(** Every frame has one owner. *)
Lemma owner_unique c i k f g j :
  NoDup (frame_owned c) → c !! i = Some f → c !! k = Some g → j ∈ owned_frames f → j ∈ owned_frames g → i = k.
Proof.
  intros Hn Hi Hk Hf Hg. destruct (decide (i = k)) as [| Hne]; [done |]. exfalso.
  rewrite (frame_owned_delete _ _ _ Hi) in Hn. apply list.NoDup_app in Hn as (_ & Hx & _). apply (Hx j Hf), frame_owned_elem.
  exists k, g. by rewrite lookup_delete_ne.
Qed.

Lemma mem_owner fl c rq rt mt nf exec i k f g j :
  mem_ok fl c rq rt mt nf exec → c !! i = Some f → c !! k = Some g → j ∈ owned_frames f → j ∈ owned_frames g → i = k.
Proof.
  intros H. apply owner_unique. pose proof (mem_NoDup _ _ _ _ _ _ _ H) as Hn. rewrite !app_assoc in Hn. by apply list.NoDup_app in Hn as (_ & _ & ?).
Qed.

Lemma awaits_owns f j : point f = awaiting j → j ∈ owned_frames f.
Proof. intros H. unfold owned_frames. rewrite H. by left. Qed.

Lemma one_awaits fl c rq rt mt nf exec i k f g j :
  mem_ok fl c rq rt mt nf exec → c !! i = Some f → c !! k = Some g → point f = awaiting j → point g = awaiting j → i = k.
Proof. intros H Hi Hk Hf Hg. by eapply mem_owner; [done | exact Hi | exact Hk | apply awaits_owns | apply awaits_owns]. Qed.

(** The task [i] resumes after its child [j], which goes. *)
Lemma mem_child_done fl c rq rt mt nf i j f g f' :
  mem_ok fl c rq rt mt nf None → c !! i = Some f → c !! j = Some g → point f = awaiting j → point g = Final → i ∉ rq →
  tasks f' = tasks f → continuation_ (promise f') = continuation_ (promise f) → handle_ (promise f') = true →
  scheduler_ (promise f') = Some this → point f' = Executing →
  mem_ok fl (<[i := f']> (delete j c)) rq rt mt nf (Some i).
Proof.
  intros H Hi Hj Pf Pg Hiq Tf Cf Hf Sf Pf'. pose proof H as [H1 H0 H2 H3 H4 H5 H6 H7 H8].
  pose proof (H3 _ _ Hi) as Fi. destruct (fo_child _ _ _ _ _ Fi _ Pf) as (? & g0 & [= <-] & Hij & Hj0 & Cg & Sg & Rj).
  assert (g0 = g) as -> by congruence. clear Hj0.
  assert (tasks g = ∅) as Tg by (apply (fo_leaf _ _ _ _ _ (H3 _ _ Hj)); auto).
  destruct (not_initial_unheld _ _ _ _ _ _ _ _ _ H Hi) as (Ifl & Imt & Itk); [congruence |].
  destruct (not_initial_unheld _ _ _ _ _ _ _ _ _ H Hj) as (Jfl & Jmt & Jtk); [congruence |].
  set (c' := <[i := f']> (delete j c)).
  assert (c' !! i = Some f') as Ei by (unfold c'; by rewrite lookup_insert_eq).
  assert (c' !! j = None) as Ej by (unfold c'; rewrite lookup_insert_ne, lookup_delete_eq by lia; done).
  assert (∀ k, k ≠ i → k ≠ j → c' !! k = c !! k) as Eo by (intros; unfold c'; by rewrite lookup_insert_ne, lookup_delete_ne).
  assert (∀ k, k ≠ i → k ≠ j → unstarted c rq rt k → unstarted c' rq rt k) as Hun.
  { intros k Hki Hkj (h & Hk & Hr). exists h. by rewrite Eo. }
  assert (∀ k h x l, c !! k = Some h → tasks h !! x = Some l → unstarted c rq rt l → unstarted c' rq rt l) as Htk.
  { intros k h x l Hk Hx. apply Hun; intros ->; [by eapply Itk | by eapply Jtk]. }
  split.
  - rewrite (elements_dom_delete _ _ _ Hj), (frame_owned_delete _ _ _ Hi) in H1.
    assert (delete j c !! i = Some f) as Hi' by (rewrite lookup_delete_ne by lia; done).
    unfold c'. rewrite (dom_update _ _ _ _ Hi'), frame_owned_insert.
    assert (delete i c !! j = Some g) as Hj' by (rewrite lookup_delete_ne by lia; done).
    rewrite (frame_owned_delete _ _ _ Hj'), (delete_delete c j i) in H1. unfold owned_frames in *. rewrite Pf, Pg, Tg in H1. rewrite Pf', Tf.
    simpl in *. apply (Permutation_cons_inv (a := j)). rewrite <- H1. unfold task_list at 5. rewrite map_to_list_empty. simpl. solve_Permutation.
  - intros k Hk. apply Hun; [by intros -> | by intros -> | by apply H0].
  - intros k h Hk. destruct (decide (k = i)) as [-> |]; [by eapply H2 |]. destruct (decide (k = j)) as [-> |]; [congruence |].
    rewrite Eo in Hk by done. by eapply H2.
  - intros k h Hk. destruct (decide (k = i)) as [-> |].
    { rewrite Ei in Hk. injection Hk as <-. destruct Fi as [M1 M2 M3 M4 M5 M6 M7]. split; try done; rewrite ?Tf, ?Cf, ?Pf'.
      - by right.
      - intros x l Hx. destruct (M3 _ _ Hx) as [? Hu]. split; [done |]. exact (Htk _ _ _ _ Hi Hx Hu).
      - intros [? | ?]; done.
      - intros p Hp. destruct (M6 p Hp) as (h & Hh & Hpt). exists h. assert (p ≠ i) by congruence.
        rewrite Eo; [done | done |]. intros ->. assert (h = g) as -> by congruence. congruence.
      - done. }
    destruct (decide (k = j)) as [-> |]; [congruence |]. rewrite Eo in Hk by done.
    apply (frame_ok_move c _ rq _ rt); [by apply H3 | intros x l Hx; exact (Htk _ _ _ _ Hk Hx) | |].
    + intros p h0 Hp Hpt _. exists h0. rewrite Eo; [done | |]; intros ->; [| congruence].
      assert (h0 = f) as -> by congruence. rewrite Pf in Hpt. congruence.
    + intros l h0 Hl Hc0 Hcl Hsl Hrl. destruct (decide (l = i)) as [-> |].
      * exists f'. assert (h0 = f) as -> by congruence. split_and!; try done. by rewrite Cf.
      * exists h0. rewrite Eo; [done | done |]. intros ->. assert (h0 = g) as -> by congruence. congruence.
  - intros x k Hx. apply Hun; [intros ->; by eapply Imt | intros ->; by eapply Jmt | by eapply H4].
  - intros k Hk. destruct (H5 _ Hk) as (h & Hh & Sh & P1 & P2). exists h. rewrite Eo; [done | |]; intros ->; [done | congruence].
  - intros k Hk. destruct (H6 _ Hk) as (h & Hh & Sh & Ch). destruct (decide (k = i)) as [-> |].
    + exists f'. assert (h = f) as -> by congruence. by rewrite Cf.
    + exists h. rewrite Eo; [done | done |]. by intros ->.
  - intros k h Hk. destruct (decide (k = i)) as [-> |]; [by split; intros; congruence |]. destruct (decide (k = j)) as [-> |]; [congruence |].
    rewrite Eo in Hk by done. rewrite (H7 _ _ Hk). split; [done | congruence].
  - intros k [= <-]. by eexists.
Qed.

(** ** Cancellation *)

(** A root goes with all it owns; nothing else changes. *)
Lemma mem_sub c c' rt rt' mt nf :
  mem_ok [] c [] rt mt nf None → c' ⊆ c → (∀ j, j ∈ rt' → j ∈ rt) → rt' ++ task_list mt ++ frame_owned c' ≡ₚ elements (dom c') →
  mem_ok [] c' [] rt' mt nf None.
Proof.
  intros H Hsub Hrt Hown. pose proof H as [H1 H0 H2 H3 H4 H5 H6 H7 H8].
  assert (∀ j, j ∈ rt' ++ task_list mt ++ frame_owned c' → ∃ f, c' !! j = Some f ∧ c !! j = Some f) as Hin.
  { intros j. rewrite Hown, elem_of_elements, elem_of_dom. intros [f Hf]. exists f. split; [done |]. by eapply lookup_weaken. }
  assert (∀ j, j ∈ rt' ++ task_list mt ++ frame_owned c' → unstarted c [] rt j → unstarted c' [] rt' j) as Hun.
  { intros j Hj (g & Hg & Hr). destruct (Hin j Hj) as (f & Hf & Hfc). assert (f = g) as -> by congruence. exists g.
    destruct Hr as (? & ? & ? & ?). split_and!; auto. }
  split; try done.
  - intros j Hj. by apply list_elem_of_In in Hj.
  - intros j f Hj. eapply H2. by eapply lookup_weaken.
  - intros j f Hj. assert (c !! j = Some f) as Hjc by (by eapply lookup_weaken).
    assert (∀ l, l ∈ owned_frames f → l ∈ rt' ++ task_list mt ++ frame_owned c') as Hof.
    { intros l Hl. rewrite !elem_of_app, frame_owned_elem. eauto 10. }
    apply (frame_ok_move c _ [] _ rt); [by apply H3 | | |].
    + intros x l Hx. apply Hun, Hof. apply elem_of_app. right. apply task_list_elem. by exists x.
    + intros p g Hp Hpt Hc. assert (j ∈ rt' ++ task_list mt ++ frame_owned c') as Hj' by (rewrite Hown, elem_of_elements, elem_of_dom; by eexists).
      rewrite !elem_of_app in Hj'. destruct Hj' as [Hj' | [Hj' | Hj']].
      * destruct (H6 _ (Hrt _ Hj')) as (f0 & Hf0 & _ & Hc0). congruence.
      * apply task_list_elem in Hj' as [x Hx]. destruct (H4 _ _ Hx) as (f0 & Hf0 & _ & _ & _ & Hc0). congruence.
      * apply frame_owned_elem in Hj' as (k & h & Hk & Hjh). assert (c !! k = Some h) as Hkc by (by eapply lookup_weaken).
        assert (k = p) as -> by (eapply mem_owner; [exact H | exact Hkc | exact Hp | exact Hjh | by apply awaits_owns]).
        exists g. assert (h = g) as -> by congruence. done.
    + intros l g Hp Hl Hc Hs Hr. exists g. destruct (Hin l) as (g' & Hg' & Hgc); [by apply Hof, awaits_owns |].
      assert (g' = g) as -> by congruence. split_and!; auto.
  - intros x j Hx. apply Hun; [| by eapply H4]. rewrite !elem_of_app, task_list_elem. eauto.
  - intros j Hj. apply list_elem_of_In in Hj. done.
  - intros j Hj. destruct (H6 _ (Hrt _ Hj)) as (f & Hf & Hr). destruct (Hin j) as (f' & Hf' & Hfc); [by apply elem_of_app; left |].
    assert (f' = f) as -> by congruence. by exists f.
  - intros j f Hj. apply H7. by eapply lookup_weaken.
Qed.

(** Without roots, only tasks in variables outside of coroutines are left. *)
Lemma only_main c mt nf j f : mem_ok [] c [] [] mt nf None → c !! j = Some f → ∃ x, mt !! x = Some j.
Proof.
  intros H. revert f. induction (lt_wf j) as [j _ IH]. intros f Hj. pose proof H as [H1 H0 H2 H3 H4 H5 H6 H7 H8].
  assert (j ∈ elements (dom c)) as Hin by (rewrite elem_of_elements, elem_of_dom; by eexists).
  rewrite <- H1 in Hin. simpl in Hin. apply elem_of_app in Hin as [Hin | Hin]; [by apply task_list_elem |]. exfalso.
  apply frame_owned_elem in Hin as (i & g & Hi & Hjg). pose proof (H3 _ _ Hi) as Fi.
  assert (i < j)%nat as Hlt.
  { unfold owned_frames in Hjg. apply elem_of_app in Hjg as [Hjg | Hjg].
    - destruct (point g) eqn:Hp; simpl in Hjg; try (by apply list_elem_of_In in Hjg).
      destruct (fo_child _ _ _ _ _ Fi _ Hp) as (k & h & -> & Hik & _). simpl in Hjg. apply list_elem_of_singleton in Hjg. by subst.
    - apply task_list_elem in Hjg as [x Hx]. by apply (fo_tasks _ _ _ _ _ Fi) in Hx as [? _]. }
  destruct (IH i Hlt g Hi) as [x Hx]. destruct (unstarted_leaf _ _ _ _ _ _ _ _ H (H4 _ _ Hx)) as (g' & Hg' & _ & Ho).
  assert (g' = g) as -> by congruence. rewrite Ho in Hjg. by apply list_elem_of_In in Hjg.
Qed.

Lemma only_main_unstarted c mt nf j : mem_ok [] c [] [] mt nf None → is_Some (c !! j) → unstarted c [] [] j.
Proof. intros H [f Hf]. destruct (only_main _ _ _ _ _ H Hf) as [x Hx]. by eapply mo_main. Qed.

Lemma queue_cancelled c mt nf : mem_ok [] c [] [] mt nf None → queue_ok c [] [].
Proof.
  intros H. assert (∀ j f, c !! j = Some f → point f = Initial ∧ continuation_ (promise f) = None) as Hc.
  { intros j f Hj. destruct (only_main_unstarted _ _ _ j H) as (g & Hg & ? & _ & _ & ?); [by eexists |].
    assert (g = f) as -> by congruence. done. }
  split.
  - intros i f Hi. destruct (Hc _ _ Hi). congruence.
  - intros i f j g Hi. destruct (Hc _ _ Hi). congruence.
  - intros i f Hi. by apply list_elem_of_In in Hi.
  - intros i f p Hi. destruct (Hc _ _ Hi). congruence.
Qed.

(** ** The queue after each change *)
Lemma queue_new fl c rq rt mt nf exec b void :
  mem_ok fl c rq rt mt nf exec → queue_ok c rq rt → queue_ok (<[nf := mkFrame new_promise void None Initial b Continue ∅]> c) rq rt.
Proof.
  intros M [H1 H2 H3 H4]. assert (c !! nf = None) as Hn by (by eapply mem_new).
  split.
  - intros i f. rewrite lookup_insert. case_decide; [by intros [= <-] | apply H1].
  - intros i f j g. rewrite lookup_insert. case_decide; [by intros [= <-] |]. intros Hi Hp. rewrite lookup_insert. case_decide.
    + subst j. destruct (fo_child _ _ _ _ _ (mo_frame _ _ _ _ _ _ _ M _ _ Hi) _ Hp) as (k & h & [= <-] & _ & Hk & _). congruence.
    + by eapply H2.
  - intros i f Hr. rewrite lookup_insert. case_decide; [| by eapply H3]. subst i. destruct (mo_roots _ _ _ _ _ _ _ M _ Hr) as (h & Hh & _). congruence.
  - intros i f p. rewrite lookup_insert. case_decide; [by intros [= <-] | apply H4].
Qed.

(** A task joins the queue; if it awaits, its child is done. *)
Lemma queue_enqueue c rq rt i :
  queue_ok c rq rt → (∀ f k g, c !! i = Some f → point f = awaiting k → c !! k = Some g → point g = Final) → queue_ok c (rq ++ [i]) rt.
Proof.
  intros [H1 H2 H3 H4] Hi. split.
  - intros j f Hj Hp. apply elem_of_app. left. by eapply H1.
  - intros j f k g Hj Hp Hk. rewrite elem_of_app, list_elem_of_singleton, (H2 _ _ _ _ Hj Hp Hk). split; [| auto].
    intros [? | ->]; [done | by eapply Hi].
  - intros j f Hr Hj Hp. apply elem_of_app. left. by eapply H3.
  - intros j f p Hj Hc Hp. apply elem_of_app. left. by eapply H4.
Qed.

(** The executing task parks, yields or ends. *)
Lemma queue_park c rq rt i f f' :
  queue_ok c rq rt → c !! i = Some f → point f = Executing → point f' = Parked → queue_ok (<[i := f']> c) rq rt.
Proof.
  intros [H1 H2 H3 H4] Hi Hp Hp'. split.
  - intros j g. rewrite lookup_insert. case_decide; [intros [= <-]; congruence | apply H1].
  - intros j g k h. rewrite lookup_insert. case_decide; [intros [= <-]; congruence |]. intros Hj Hpj. rewrite lookup_insert. case_decide; [| by eapply H2].
    intros [= <-]. subst k. rewrite (H2 _ _ _ _ Hj Hpj Hi). split; congruence.
  - intros j g Hr. rewrite lookup_insert. case_decide; [intros [= <-]; congruence | by eapply H3].
  - intros j g p. rewrite lookup_insert. case_decide; [intros [= <-]; congruence | apply H4].
Qed.

Lemma queue_yield c rq rt i f f' :
  queue_ok c rq rt → c !! i = Some f → point f = Executing → point f' = Yielded → queue_ok (<[i := f']> c) (rq ++ [i]) rt.
Proof.
  intros [H1 H2 H3 H4] Hi Hp Hp'. split.
  - intros j g. rewrite lookup_insert, elem_of_app, list_elem_of_singleton. case_decide; [auto |]. left. by eapply H1.
  - intros j g k h. rewrite lookup_insert. case_decide; [intros [= <-]; congruence |]. intros Hj Hpj.
    rewrite lookup_insert, elem_of_app, list_elem_of_singleton. case_decide.
    + intros [= <-]. subst k. rewrite (H2 _ _ _ _ Hj Hpj Hi). split; [intros [? | ?]; congruence | congruence].
    + intros Hk. rewrite (H2 _ _ _ _ Hj Hpj Hk). split; [intros [? | ?]; congruence | auto].
  - intros j g Hr. rewrite lookup_insert, elem_of_app. case_decide; [intros [= <-]; congruence |]. left. by eapply H3.
  - intros j g p. rewrite lookup_insert, elem_of_app. case_decide; [intros [= <-]; congruence |]. left. by eapply H4.
Qed.

Lemma queue_final fl c rq rt mt nf exec i f f' :
  mem_ok fl c rq rt mt nf exec → queue_ok c rq rt → c !! i = Some f → point f = Executing → point f' = Final →
  queue_ok (<[i := f']> c) (rq ++ option_list (continuation_ (promise f))) rt.
Proof.
  intros M [H1 H2 H3 H4] Hi Hp Hp'. split.
  - intros j g. rewrite lookup_insert, elem_of_app. case_decide; [intros [= <-]; congruence |]. left. by eapply H1.
  - intros j g k h. rewrite lookup_insert. case_decide; [intros [= <-]; congruence |]. intros Hj Hpj.
    destruct (fo_child _ _ _ _ _ (mo_frame _ _ _ _ _ _ _ M _ _ Hj) _ Hpj) as (k' & h' & [= <-] & _ & Hk' & Hck & _).
    rewrite lookup_insert, elem_of_app. case_decide as Hik.
    + intros [= <-]. subst k. assert (h' = f) as -> by congruence. rewrite Hck. simpl. rewrite list_elem_of_singleton. split; auto.
    + intros Hk. assert (h' = h) as -> by congruence. rewrite (H2 _ _ _ _ Hj Hpj Hk). split; [| auto]. intros [? | Hx]; [done |]. exfalso.
      destruct (continuation_ (promise f)) as [p |] eqn:Hc; [| by apply list_elem_of_In in Hx]. apply list_elem_of_singleton in Hx. subst p.
      destruct (fo_parent _ _ _ _ _ (mo_frame _ _ _ _ _ _ _ M _ _ Hi) _ Hc) as (q & Hq & Hpq). congruence.
  - intros j g Hr. rewrite lookup_insert, elem_of_app. case_decide; [intros [= <-]; congruence |]. left. by eapply H3.
  - intros j g p. rewrite lookup_insert, elem_of_app. case_decide; [intros [= <-]; congruence |]. left. by eapply H4.
Qed.

(** The executing task [k] awaits [j], which starts. *)
Lemma queue_await fl c rq rt mt nf exec k j f g f' g' :
  mem_ok (j :: fl) c rq rt mt nf exec → queue_ok c rq rt → c !! k = Some f → c !! j = Some g → point f = Executing →
  point f' = awaiting j → point g' = Initial → queue_ok (<[k := f']> (<[j := g']> c)) (rq ++ [j]) rt.
Proof.
  intros M [H1 H2 H3 H4] Hk Hj Pf Pf' Pg'. destruct (mo_floating _ _ _ _ _ _ _ M j) as (g0 & Hg0 & Pg & Jq & Jr & _); [by left |].
  assert (g0 = g) as -> by congruence.
  assert (∀ i h, c !! i = Some h → point h ≠ awaiting j) as Hno.
  { intros i h Hi Hp. pose proof (mem_NoDup _ _ _ _ _ _ _ M) as Hn. simpl in Hn. apply list.NoDup_cons in Hn as [Hn _]. apply Hn.
    rewrite !elem_of_app, frame_owned_elem. do 3 right. exists i, h. split; [done |]. by apply awaits_owns. }
  assert (k ∉ rq) as Kq by (intros Hq; destruct (mo_queued _ _ _ _ _ _ _ M _ Hq) as (h & Hh & _ & ? & _); congruence).
  split.
  - intros i h. rewrite !lookup_insert, elem_of_app. repeat case_decide; [intros [= <-]; congruence | intros [= <-]; congruence |]. left. by eapply H1.
  - intros i h l u. rewrite (lookup_insert _ k i). case_decide.
    + intros [= <-]. rewrite Pf'. intros [= <-]. subst i. assert (k ≠ j) as Hkj by congruence.
      rewrite lookup_insert_ne, lookup_insert_eq by done. intros [= <-]. rewrite Pg', elem_of_app, list_elem_of_singleton. split; [| done].
      intros [? | ?]; [done | congruence].
    + rewrite (lookup_insert _ j i). case_decide; [intros [= <-]; congruence |]. intros Hi Hp Hl.
      assert (l ≠ j) as Hlj by (intros ->; by eapply Hno). rewrite elem_of_app, list_elem_of_singleton. rewrite lookup_insert in Hl. case_decide.
      * injection Hl as <-. subst l. rewrite (H2 _ _ _ _ Hi Hp Hk). split; [intros [? | ?]; congruence | congruence].
      * rewrite lookup_insert_ne in Hl by done. rewrite (H2 _ _ _ _ Hi Hp Hl). split; [intros [? | ?]; congruence | auto].
  - intros i h Hr. rewrite !lookup_insert, elem_of_app, list_elem_of_singleton. repeat case_decide; [intros [= <-]; congruence | auto |].
    left. by eapply H3.
  - intros i h p. rewrite !lookup_insert, elem_of_app, list_elem_of_singleton. repeat case_decide; [intros [= <-]; congruence | auto |].
    left. by eapply H4.
Qed.

(** The first task of the queue resumes. *)
Lemma queue_resume c rq rt i f f' :
  queue_ok c (i :: rq) rt → i ∉ rq → c !! i = Some f → point f ≠ Final → point f' = Executing → queue_ok (<[i := f']> c) rq rt.
Proof.
  intros [H1 H2 H3 H4] Hn Hi Hp Hp'.
  assert (∀ j, i ≠ j → j ∈ i :: rq ↔ j ∈ rq) as Hq by (intros j Hij; rewrite elem_of_cons; split; [intros [-> | ?]; done | auto]).
  split.
  - intros j g. rewrite lookup_insert. case_decide; [intros [= <-]; congruence |]. intros Hj Hpj. apply Hq; [done |]. by eapply H1.
  - intros j g k h. rewrite lookup_insert. case_decide as Hij; [intros [= <-]; congruence |]. intros Hj Hpj. rewrite <- (Hq _ Hij), lookup_insert.
    case_decide; [| by eapply H2]. intros [= <-]. subst k. rewrite (H2 _ _ _ _ Hj Hpj Hi). split; congruence.
  - intros j g Hr. rewrite lookup_insert. case_decide; [intros [= <-]; congruence |]. intros Hj Hpj. apply Hq; [done |]. by eapply H3.
  - intros j g p. rewrite lookup_insert. case_decide; [intros [= <-]; congruence |]. intros Hj Hc Hpj. apply Hq; [done |]. by eapply H4.
Qed.

End tasks.
