(* ===== verification/SchedulerInvariant.v ===== *)
(** * The invariant of the scheduler's world

    [state]: the lists ([SchedulerLists]), the frames ([SchedulerTasks]) and the history
    agree.  Every call is shown to be defined from a good state and to leave one, as a triple
    [ensures call post]; [world_ok] adds the modes. *)
From S2P Require Import Prelude Scheduler SchedulerLists SchedulerTasks.
Import Sched.

Section ensures.

(** The call returns, with a value of which [Q] holds. *)
Definition ensures {A} (o : result A) (Q : A → Prop) : Prop := ∃ a, o = Val a ∧ Q a.

Lemma ensures_val {A} (a : A) (Q : A → Prop) : Q a → ensures (Val a) Q.
Proof. intros H. by exists a. Qed.

Lemma ensures_bind {A C} (o : result A) (k : A → result C) (P : A → Prop) (Q : C → Prop) :
  ensures o P → (∀ a, P a → ensures (k a) Q) → ensures (o ≫= k) Q.
Proof. intros (a & -> & Ha) Hk. by apply Hk. Qed.

Lemma ensures_mono {A} (o : result A) (P Q : A → Prop) : ensures o P → (∀ a, P a → Q a) → ensures o Q.
Proof. intros (a & -> & Ha) H. exists a. auto. Qed.

End ensures.

(** ** History *)

(** The queue after the events, if they are those of a FIFO queue without duplicates. *)
Fixpoint replay (l : list Event) (q : list nat) : option (list nat) :=
  match l with
  | [] => Some q
  | EvScheduled i :: l => if decide (i ∈ q) then None else replay l (q ++ [i])
  | EvResumed i :: l => match q with j :: q => if decide (i = j) then replay l q else None | [] => None end
  | EvCleared :: l => replay l []
  | EvNested :: l => replay l q
  end.

Definition is_nested (e : Event) : bool := match e with EvNested => true | _ => false end.
Definition nested (l : list Event) : Z := Z.of_nat (length (filter (λ e, Is_true (is_nested e)) l)).

Lemma nested_app l e : nested (l ++ [e]) = nested l + if is_nested e then 1 else 0.
Proof. unfold nested. rewrite list.filter_app, length_app. destruct e; simpl; lia. Qed.

Lemma replay_app l l' q : replay (l ++ l') q = replay l q ≫= replay l'.
Proof.
  revert q. induction l as [| e l IH]; intros q; [done |]. destruct e; simpl; [| | by rewrite IH | by rewrite IH].
  - case_decide; [done | by rewrite IH].
  - destruct q as [| j q]; [done |]. case_decide; [by rewrite IH | done].
Qed.

Section state.
Context {B : Type}.
Implicit Types w : World B.
Implicit Types f g : Frame B.
Implicit Types rq rt fl : list nat.

Notation awaiting j := (AwaitingChild (mkAwaiter (Some j) None)).

Record state fl rq rt (exec : option nat) w : Prop := {
  st_links : links (frames w) (sched w) rq rt;
  st_mem : mem_ok fl (core (frames w)) rq rt (main_tasks w) (next_frame w) exec;
  st_queue : queue_ok (core (frames w)) rq rt;
  st_replay : replay (history w) [] = Some rq;
  st_failures : invariant_failures_ (sched w) = wrap64 (nested (history w));
  st_running : running_ (sched w) = false → rq = [] ∧ rt = [];
}.

(** What the calls on tasks and queue leave alone. *)
Definition mode (s : Scheduler) := (running_ s, owner_thread_ s, dispatching_ s, cancel_pending_ s, shutdown_pending_ s).
Definition keeps w w' : Prop := mode (sched w') = mode (sched w) ∧ control w' = control w ∧ main_tasks w' = main_tasks w.

Lemma keeps_refl w : keeps w w.
Proof. done. Qed.

Lemma keeps_trans w1 w2 w3 : keeps w1 w2 → keeps w2 w3 → keeps w1 w3.
Proof. unfold keeps. intros (-> & -> & ->). done. Qed.

Lemma keeps_rest w s m : rest s = rest (sched w) → keeps w (set_sched s (set_frames m w)).
Proof. intros [=]. unfold keeps, mode. cbn. split_and!; congruence. Qed.

(** Changes outside of the lists and the frames. *)
Lemma state_same fl rq rt exec w w' :
  state fl rq rt exec w → frames w' = frames w → main_tasks w' = main_tasks w → next_frame w' = next_frame w → history w' = history w →
  ready_head_ (sched w') = ready_head_ (sched w) → ready_tail_ (sched w') = ready_tail_ (sched w) →
  ready_count_ (sched w') = ready_count_ (sched w) → root_head_ (sched w') = root_head_ (sched w) →
  active_count_ (sched w') = active_count_ (sched w) → invariant_failures_ (sched w') = invariant_failures_ (sched w) →
  (running_ (sched w') = false → running_ (sched w) = false ∨ rq = [] ∧ rt = []) → state fl rq rt exec w'.
Proof.
  intros [H1 H2 H3 H4 H5 H6] E1 E2 E3 E4 E5 E6 E7 E8 E9 E10 E11. split.
  - rewrite E1. by eapply links_sched.
  - by rewrite E1, E2, E3.
  - by rewrite E1.
  - by rewrite E4.
  - by rewrite E4, E10.
  - intros Hr. destruct (E11 Hr); auto.
Qed.

Lemma observe_state fl rq rt exec w : state fl rq rt exec w → state fl rq rt exec (observe_external_stop w).
Proof. intros H. unfold observe_external_stop. case_match; [| done]. eapply state_same; eauto. Qed.

Lemma observe_keeps w : keeps w (observe_external_stop w).
Proof. unfold observe_external_stop. by case_match. Qed.

Lemma observe_frames w : frames (observe_external_stop w) = frames w.
Proof. unfold observe_external_stop. by case_match. Qed.

Lemma observe_core w : core (frames (observe_external_stop w)) = core (frames w).
Proof. by rewrite observe_frames. Qed.

Lemma update_eq i (u : Frame B → Frame B) w f : frames w !! i = Some f → update i u w = Val (set_frames (<[i := u f]> (frames w)) w).
Proof. intros H. unfold update, deref. by rewrite H. Qed.

Lemma deref_eq i w f : frames w !! i = Some f → deref i w = Val f.
Proof. intros H. unfold deref. by rewrite H. Qed.

(** A change of a frame that neither lists nor the invariant mention. *)
Lemma update_key fl rq rt exec w i f (u : Frame B → Frame B) :
  state fl rq rt exec w → frames w !! i = Some f → keeps_links u → key (u f) = key f →
  scheduler_ (promise (u f)) = scheduler_ (promise f) ∨ scheduler_ (promise (u f)) = Some this →
  ensures (update i u w) (λ w', state fl rq rt exec w' ∧ keeps w w' ∧ frames w' = <[i := u f]> (frames w)).
Proof.
  intros [H1 H2 H3 H4 H5 H6] Hi Hl Hk Hs. rewrite (update_eq _ _ _ _ Hi). apply ensures_val. split; [| done].
  pose proof Hk as [= Kp Kt Kc Kh]. split; simpl; try done.
  - by apply links_update.
  - rewrite core_insert. eapply mem_key; [done | by apply core_Some | done | done].
  - rewrite core_insert. eapply queue_points; [done | by apply core_Some | done | done].
Qed.

Lemma answer_links a : keeps_links (B := B) (with_answer a).
Proof. intros f. done. Qed.
Lemma point_links p : keeps_links (B := B) (with_point p).
Proof. intros f. done. Qed.
Lemma local_links b : keeps_links (B := B) (with_local b).
Proof. intros f. done. Qed.
Lemma tasks_links m : keeps_links (B := B) (with_tasks m).
Proof. intros f. done. Qed.
Hint Resolve answer_links point_links local_links tasks_links keeps_refl observe_keeps : core.

Lemma proceed_state fl rq rt exec w i a :
  state fl rq rt exec w → is_Some (frames w !! i) → ensures (proceed i a w) (λ w', state fl rq rt exec w' ∧ keeps w w').
Proof.
  intros H [f Hi]. eapply ensures_mono; [eapply update_key; [done | done | done | done | by left] |]. by intros w' (? & ? & _).
Qed.

Lemma bind_eq i token w f :
  frames w !! i = Some f → scheduler_ (promise f) = None ∨ scheduler_ (promise f) = Some this →
  bind i token w = Val (true, set_frames (<[i := with_promise (set_binding (Some this) token) f]> (frames w)) w).
Proof.
  intros Hi Hs. unfold bind. rewrite (deref_eq _ _ _ Hi). cbn [mbind outcome_bind].
  replace (bool_decide (scheduler_ (promise f) ≠ None) && negb (bool_decide (scheduler_ (promise f) = Some this))) with false.
  - unfold update_promise. by rewrite (update_eq _ _ _ _ Hi).
  - destruct Hs as [-> | ->]; done.
Qed.

(** ** Scheduling *)
Definition books rq w : Prop := replay (history w) [] = Some rq ∧ invariant_failures_ (sched w) = wrap64 (nested (history w)).

Lemma state_books fl rq rt exec w : state fl rq rt exec w → books rq w.
Proof. by intros []. Qed.

Lemma appended_state fl rq rt exec w w' i :
  books rq w → running_ (sched w) = true → appended i w w' rq rt →
  mem_ok fl (core (frames w)) (rq ++ [i]) rt (main_tasks w) (next_frame w) exec → queue_ok (core (frames w)) (rq ++ [i]) rt →
  state fl (rq ++ [i]) rt exec w'.
Proof.
  intros [H4 H5] Hr (m & s & -> & Hc & Hrest & Hl) Hm Hq. split; simpl; try done.
  - by rewrite Hc.
  - by rewrite Hc.
  - rewrite replay_app, H4. simpl. rewrite decide_False; [done |]. pose proof (lk_nodup _ _ _ _ Hl) as Hn.
    apply list.NoDup_app in Hn as (_ & Hx & _). intros Hi. apply (Hx i Hi). by left.
  - rewrite nested_app, Z.add_0_r. pose proof (f_equal invariant_failures_ Hrest) as E. simpl in E. congruence.
  - intros Hrs. pose proof (f_equal running_ Hrest) as E. simpl in E. congruence.
Qed.

Lemma not_initial_started c rq rt i f : c !! i = Some f → point f ≠ Initial → ¬ unstarted c rq rt i.
Proof. intros Hi Hp (g & Hg & Hpg & _). congruence. Qed.

Lemma state_frame fl rq rt exec w i f : state fl rq rt exec w → frames w !! i = Some f → frame_ok (core (frames w)) rq rt i (erase f).
Proof. intros H Hi. eapply mo_frame; [apply H | by apply core_Some]. Qed.

Lemma schedule_ok thread fl rq rt exec w i f :
  state fl rq rt exec w → frames w !! i = Some f → point f ≠ Initial → point f ≠ Executing → point f ≠ Final →
  (∀ k g, point f = awaiting k → frames w !! k = Some g → point g = Final) →
  ensures (schedule thread i w) (λ '(r, w'), keeps w w' ∧ if decide (r = Scheduled) then state fl (rq ++ [i]) rt exec w' else w' = w).
Proof.
  intros H Hi P1 P2 P3 Ha. pose proof (state_frame _ _ _ _ _ _ _ H Hi) as Hf. pose proof (fo_bound _ _ _ _ _ Hf P1) as Hs. simpl in Hs.
  destruct (running_ (sched w)) eqn:Hr; [| unfold schedule; rewrite Hr; by apply ensures_val].
  destruct (decide (owner_thread_ (sched w) = Some thread)) as [Ho |];
    [| unfold schedule, on_owner_thread; rewrite Hr, bool_decide_false by done; by apply ensures_val].
  destruct (decide (i ∈ rq)) as [Hq | Hq].
  - unfold schedule, on_owner_thread. rewrite Hr, bool_decide_true by done. cbn [negb andb]. rewrite (deref_eq _ _ _ Hi). cbn [mbind outcome_bind].
    rewrite Hs, bool_decide_true by done. cbn [negb]. pose proof (fo_handle _ _ _ _ _ Hf) as Hh. simpl in Hh.
    rewrite Hh. destruct (lk_flags _ _ _ _ (st_links _ _ _ _ _ H) _ _ Hi) as [-> _]. rewrite bool_decide_true by done.
    replace (done f) with false by (unfold done; by destruct (point f)). by apply ensures_val.
  - destruct (schedule_appends thread i w f rq rt) as (w' & -> & Hw); try done; [by apply H | by apply (fo_handle _ _ _ _ _ Hf) | | ].
    { unfold done. by destruct (point f). }
    apply ensures_val. split; [destruct Hw as (m & s & -> & _ & Hrest & _); by apply (keeps_rest w s m) in Hrest |].
    rewrite decide_True by done. pose proof (core_Some _ _ _ Hi) as Hc. eapply appended_state; [by eapply state_books | done | done | |].
    + eapply mem_enqueue; [apply H | done | done | done | done |]. by eapply not_initial_started.
    + apply queue_enqueue; [apply H |]. intros f0 k g Hf0 Hp Hk. apply core_inv in Hk as (g0 & Hg0 & ->). simpl.
      assert (f0 = erase f) as -> by congruence. by eapply Ha.
Qed.

Lemma wake_ok thread fl rq rt exec w j :
  state fl rq rt exec w → ensures (wake thread j w) (λ '(_, w'), keeps w w' ∧ ∃ rq', state fl rq' rt exec w').
Proof.
  intros H. unfold wake. destruct (frames w !! j) as [f |] eqn:Hj; [| apply ensures_val; eauto].
  destruct (point f) eqn:Hp; try (apply ensures_val; by eauto).
  eapply ensures_bind; [eapply schedule_ok; [done | exact Hj | by rewrite Hp ..] |].
  intros [r w'] [Hk Hs]. apply ensures_val. split; [done |]. case_decide; [by eauto |]. subst w'. eauto.
Qed.

(** [spawn] with a task that has not been started: refused at once, or a new root. *)
Lemma spawn_cases thread c w f rq rt :
  links (frames w) (sched w) rq rt → frames w !! c = Some f → handle_ (promise f) = true → point f = Initial →
  scheduler_ (promise f) = None ∨ scheduler_ (promise f) = Some this → c ∉ rq → c ∉ rt →
  let w1 := observe_external_stop w in
  ∃ r taken w', spawn thread (Some c) w = Val (r, taken, w') ∧
    if taken : bool then
      r = Spawned ∧ running_ (sched w) = true ∧ owner_thread_ (sched w) = Some thread ∧ accepting_ (sched w1) = true ∧
      ∃ m s, w' = log (EvScheduled c) (set_sched s (set_frames m w1)) ∧ rest s = rest (sched w1) ∧
        core m = <[c := erase (with_promise (set_binding (Some this) (sched_stop_token_ (sched w1))) f)]> (core (frames w)) ∧
        links m s (rq ++ [c]) (c :: rt)
    else r ≠ Spawned ∧ (w' = w ∨ w' = w1).
Proof.
  intros H Hc Hh Hp Hs Hq Ht w1. unfold spawn, on_owner_thread. destruct (running_ (sched w)) eqn:Hr; cbn [andb negb].
  2: { eexists _, false, w. split; [reflexivity | auto]. }
  case_bool_decide as Ho; cbn [negb]. 2: { eexists _, false, w. split; [reflexivity | auto]. }
  fold w1. assert (frames w1 = frames w) as Ef by apply observe_frames. set (token := sched_stop_token_ (sched w1)).
  destruct (negb (accepting_ (sched w1)) || stop_requested token w1) eqn:Ha; [eexists _, false, w1; split; [reflexivity | auto] |].
  apply orb_false_iff in Ha as [Ha _]. apply negb_false_iff in Ha.
  rewrite (bind_eq c _ _ f) by (by rewrite ?Ef). cbn [mbind outcome_bind]. rewrite Ef. set (f1 := with_promise _ f).
  set (w2 := set_frames _ w1). assert (frames w2 !! c = Some f1) as Hc2 by (apply lookup_insert_eq).
  assert (links (frames w2) (sched w2) rq rt) as H2.
  { apply (links_update (frames w) (sched w1) rq rt c f (with_promise (set_binding (Some this) token))); [| done | by intros ?].
    unfold w1. eapply links_sched; [done | | | | |]; unfold observe_external_stop; by case_match. }
  rewrite (deref_eq _ _ _ Hc2). cbn [mbind outcome_bind negb orb]. destruct (lk_flags _ _ _ _ H2 _ _ Hc2) as [-> ->].
  rewrite !bool_decide_false by done. cbn [orb]. replace (done f1) with false by (unfold done; simpl; by rewrite Hp).
  destruct (link_root_ok c w2 f1 rq rt H2 Hc2 Ht) as (w3 & -> & m3 & s3 & -> & C3 & R3 & L3). cbn [mbind outcome_bind].
  assert (is_Some (m3 !! c)) as [f3 Hf3] by (eapply links_live; [exact L3 | right; by left]).
  assert (erase f3 = erase f1) as E3.
  { pose proof (core_Some _ _ _ Hf3) as X. rewrite C3 in X. rewrite (core_Some _ _ _ Hc2) in X. congruence. }
  assert (running_ s3 = true ∧ owner_thread_ s3 = Some thread) as [Rs Os].
  { pose proof (f_equal running_ R3) as X. pose proof (f_equal owner_thread_ R3) as Y. simpl in X, Y. rewrite X, Y. unfold w1, observe_external_stop.
    case_match; done. }
  destruct (schedule_appends thread c (set_sched s3 (set_frames m3 w2)) f3 rq (c :: rt)) as (w4 & -> & m4 & s4 & -> & C4 & R4 & L4); try done.
  { by apply (f_equal (λ g, scheduler_ (promise g))) in E3. }
  { apply (f_equal (λ g, handle_ (promise g))) in E3. simpl in E3. congruence. }
  { unfold done. apply (f_equal point) in E3. simpl in E3. by rewrite E3, Hp. }
  cbn [mbind outcome_bind]. rewrite bool_decide_true by done. eexists _, true, _. split; [reflexivity |]. cbn beta iota. split_and!; try done.
  exists m4, s4. split_and!; [done | | | done].
  - simpl in R4. by rewrite R4.
  - simpl in C4. rewrite C4, C3. unfold w2. simpl. apply core_insert.
Qed.

(** ** Variables of tasks *)

(** The change drops, keeps and stores: no task is lost or copied. *)
Definition rearranges fl (change : gmap nat nat → list nat * gmap nat nat) : Prop :=
  ∀ m, (change m).1 ++ task_list (change m).2 ≡ₚ fl ++ task_list m.

Lemma task_list_empty : task_list ∅ = [].
Proof. unfold task_list. by rewrite map_to_list_empty. Qed.

Lemma task_list_drop (m : gmap nat nat) x : option_list (m !! x) ++ task_list (delete x m) ≡ₚ task_list m.
Proof.
  destruct (m !! x) as [j |] eqn:Hx; simpl; [by rewrite (task_list_delete m x j) | by rewrite delete_id].
Qed.

Lemma rearranges_reset x : rearranges [] (reset_task x).
Proof. intros m. apply task_list_drop. Qed.

Lemma rearranges_new x c : rearranges [c] (λ m, (option_list (m !! x), <[x := c]> m)).
Proof.
  intros m. simpl. rewrite <- insert_delete_eq, task_list_insert by apply lookup_delete_eq. rewrite <- (task_list_drop m x). solve_Permutation.
Qed.

Lemma rearranges_move x y : rearranges [] (move_task x y).
Proof.
  intros m. unfold move_task. case_decide as Hxy; [done |]. simpl. destruct (m !! y) as [i |] eqn:Hy; [| apply task_list_drop].
  rewrite <- insert_delete_eq, task_list_insert by apply lookup_delete_eq.
  rewrite (task_list_delete m y i Hy), <- (task_list_drop (delete y m) x), lookup_delete_ne by done. solve_Permutation.
Qed.

(** The tasks in hand are destroyed. *)
Lemma destroy_links fl l rq rt exec w m :
  state (l ++ fl) rq rt exec w → (∀ j, m !! j = if decide (j ∈ l) then None else frames w !! j) → links m (sched w) rq rt.
Proof.
  intros H Hm. eapply links_sub; [apply H | |].
  - apply map_subseteq_spec. intros i f. rewrite Hm. by case_decide.
  - intros i Hi. rewrite Hm. case_decide as Hl; [| by eapply links_live; [apply H |]].
    destruct (mo_floating _ _ _ _ _ _ _ (st_mem _ _ _ _ _ H) i) as (g & _ & _ & ? & ? & _); [by apply elem_of_app; left |]. by destruct Hi.
Qed.

Lemma delete_all (l : list nat) fl c c' rq rt mt nf exec :
  mem_ok (l ++ fl) c rq rt mt nf exec → queue_ok c rq rt → (∀ j, c' !! j = if decide (j ∈ l) then None else c !! j) →
  mem_ok (B := B) fl c' rq rt mt nf exec ∧ queue_ok c' rq rt.
Proof.
  revert c. induction l as [| i l IH]; intros c M Q Hc.
  - assert (c' = c) as -> by (apply map_eq; intros j; rewrite Hc, decide_False; [done | set_solver]). done.
  - destruct (mo_floating _ _ _ _ _ _ _ M i) as (g & Hg & Hp & Hq & Hr & Hcn); [by left |].
    destruct (unstarted_leaf _ _ _ i _ _ _ _ M) as (g0 & Hg0 & _ & Ho); [by exists g |]. assert (g0 = g) as -> by congruence.
    assert (mem_ok (l ++ fl) (delete i c) rq rt mt nf exec) as M'.
    { eapply mem_delete; [exact M | done | done | done | congruence | congruence | congruence | done | | done]. intros k Hk. by right. }
    apply (IH (delete i c)); [done | |].
    + apply (queue_delete c rq rt rt); [done | | done]. intros j h Hj Hpj. pose proof (mem_NoDup _ _ _ _ _ _ _ M) as Hn. simpl in Hn.
      apply list.NoDup_cons in Hn as [Hn _]. apply Hn. rewrite !elem_of_app, frame_owned_elem. do 3 right. exists j, h.
      split; [done |]. by apply awaits_owns.
    + intros j. rewrite Hc, lookup_delete. destruct (decide (j ∈ l)) as [Hl | Hl]; [by rewrite decide_True by (by right) |].
      destruct (decide (i = j)) as [-> | Hij]; [by rewrite decide_True by (by left) |]. rewrite decide_False by set_solver. done.
Qed.

Lemma destroy_state l fl rq rt exec w :
  state (l ++ fl) rq rt exec w →
  ensures (destroy l w) (λ w', state fl rq rt exec w' ∧ keeps w w' ∧ ∀ j, frames w' !! j = if decide (j ∈ l) then None else frames w !! j).
Proof.
  intros H. pose proof (st_mem _ _ _ _ _ H) as M. pose proof (mem_NoDup _ _ _ _ _ _ _ M) as Hn. rewrite <- app_assoc in Hn.
  apply list.NoDup_app in Hn as (Hn & _ & _). destruct (destroy_leaves l w Hn) as (m & -> & Hm).
  { intros i Hi. destruct (unstarted_leaf _ _ _ i _ _ _ _ M) as (g & Hg & Hp & Ho); [apply (mo_floating _ _ _ _ _ _ _ M), elem_of_app; by left |].
    apply core_inv in Hg as (f & Hf & ->). exists f. split_and!; [done | | done]. simpl in Hp. congruence. }
  apply ensures_val. split; [| by split; [| exact Hm]].
  destruct (delete_all l fl (core (frames w)) (core m) rq rt (main_tasks w) (next_frame w) exec) as [M' Q'];
    [done | apply H | intros j; rewrite !core_lookup, Hm; by case_decide |].
  destruct H as [H1 H2 H3 H4 H5 H6]. split; simpl; try done. eapply destroy_links; [by split | done].
Qed.

Lemma change_tasks_ok fl rq rt w i f change :
  state fl rq rt (Some i) w → frames w !! i = Some f → rearranges fl change → (∀ j, j ∈ fl → (i < j)%nat) →
  ensures (change_tasks i change w) (λ w', state [] rq rt (Some i) w' ∧ keeps w w').
Proof.
  intros H Hi Hch Hfl. unfold change_tasks. rewrite (deref_eq _ _ _ Hi). cbn [mbind outcome_bind]. specialize (Hch (tasks f)).
  destruct (change (tasks f)) as [dropped m]. simpl in Hch. rewrite (update_eq _ _ _ _ Hi). cbn [mbind outcome_bind].
  set (w1 := set_frames _ w). pose proof (st_mem _ _ _ _ _ H) as M. pose proof (core_Some _ _ _ Hi) as Hc.
  pose proof (proj2 (mo_exec _ _ _ _ _ _ _ M _ _ Hc) eq_refl) as Hp. pose proof (mo_frame _ _ _ _ _ _ _ M _ _ Hc) as Hf.
  assert (∀ j, j ∈ dropped ++ task_list m → (i < j)%nat ∧ unstarted (core (frames w)) rq rt j) as Hun.
  { intros j. rewrite Hch, elem_of_app, task_list_elem. intros [Hj | [x Hx]].
    - split; [auto |]. by apply (mo_floating _ _ _ _ _ _ _ M).
    - by apply (fo_tasks _ _ _ _ _ Hf x j). }
  assert (state dropped rq rt (Some i) w1) as H1.
  { destruct H as [K1 K2 K3 K4 K5 K6]. split; simpl; try done.
    - by apply links_update.
    - rewrite core_insert. eapply (mem_tasks fl dropped _ _ _ _ _ _ i (erase f)); [done | done | by rewrite Hp | by rewrite Hp | done | |].
      + intros j Hj. apply Hun, elem_of_app. by left.
      + intros x j Hx. apply Hun, elem_of_app. right. apply task_list_elem. by exists x.
    - rewrite core_insert. by eapply queue_points. }
  assert (i ∉ dropped) as Hid by (intros Hx; destruct (Hun i) as [? _]; [apply elem_of_app; by left | lia]).
  eapply ensures_bind; [apply (destroy_state dropped []); by rewrite app_nil_r |].
  intros w2 (H2 & K2 & Hf2). eapply ensures_mono; [apply proceed_state; [done |] |].
  - rewrite Hf2, decide_False by done. unfold w1. simpl. rewrite lookup_insert_eq. by eexists.
  - intros w3 (H3 & K3). split; [done |]. eapply keeps_trans; [exact K2 | exact K3].
Qed.

Lemma main_change_ok fl rq rt exec w change :
  state fl rq rt exec w → rearranges fl change →
  ensures (main_change change w) (λ w', state [] rq rt exec w' ∧ mode (sched w') = mode (sched w) ∧ control w' = control w).
Proof.
  intros H Hch. unfold main_change. specialize (Hch (main_tasks w)). destruct (change (main_tasks w)) as [dropped m]. simpl in Hch.
  eapply ensures_mono; [eapply (destroy_state dropped [] rq rt exec); rewrite app_nil_r | by intros w' (? & (? & ? & _) & _)].
  destruct H as [K1 [H1 H0 H2 H3 H4 H5 H6 H7 H8] K3 K4 K5 K6]. split; simpl; try done.
  assert (∀ j, j ∈ dropped ++ task_list m → unstarted (core (frames w)) rq rt j) as Hun.
  { intros j. rewrite Hch, elem_of_app, task_list_elem. intros [Hj | [x Hx]]; [by apply H0 | by eapply H4]. }
  split; try done.
  - rewrite <- H1. transitivity (rt ++ (dropped ++ task_list m) ++ frame_owned (core (frames w))); [solve_Permutation |].
    rewrite Hch. solve_Permutation.
  - intros j Hj. apply Hun, elem_of_app. by left.
  - intros x j Hx. apply Hun, elem_of_app. right. apply task_list_elem. by exists x.
Qed.

(** ** The executing task *)
Lemma executing_frame fl rq rt i w :
  state fl rq rt (Some i) w → ∃ f, frames w !! i = Some f ∧ point f = Executing ∧ scheduler_ (promise f) = Some this ∧ i ∉ rq.
Proof.
  intros H. pose proof (st_mem _ _ _ _ _ H) as M. destruct (mo_live _ _ _ _ _ _ _ M i eq_refl) as [g Hg].
  pose proof (proj2 (mo_exec _ _ _ _ _ _ _ M _ _ Hg) eq_refl) as Hp. apply core_inv in Hg as (f & Hf & ->). simpl in Hp.
  exists f. split_and!; [done | done | |].
  - apply (fo_bound _ _ _ _ _ (state_frame _ _ _ _ _ _ _ H Hf)). simpl. congruence.
  - intros Hq. destruct (mo_queued _ _ _ _ _ _ _ M _ Hq) as (h & Hh & _ & ? & _). apply core_Some in Hf. assert (h = erase f) as -> by congruence. done.
Qed.

(** It leaves [Executing]: the frame alone. *)
Lemma leave_state fl rq rt i w f (u : Frame B → Frame B) :
  state fl rq rt (Some i) w → frames w !! i = Some f → keeps_links u →
  tasks (u f) = tasks f → continuation_ (promise (u f)) = continuation_ (promise f) → handle_ (promise (u f)) = handle_ (promise f) →
  scheduler_ (promise (u f)) = scheduler_ (promise f) →
  point (u f) = Parked ∨ point (u f) = Yielded ∨ point (u f) = Final ∧ tasks f = ∅ →
  let m := <[i := u f]> (frames w) in
  links m (sched w) rq rt ∧ mem_ok fl (core m) rq rt (main_tasks w) (next_frame w) None.
Proof.
  intros H Hi Hl Kt Kc Kh Ks Hp m. split; [apply links_update; [apply H | done | done] |]. unfold m. rewrite core_insert.
  pose proof (st_mem _ _ _ _ _ H) as M. pose proof (core_Some _ _ _ Hi) as Hc.
  destruct (executing_frame _ _ _ _ _ H) as (f0 & Hf0 & Pf & Sf & Hq). assert (f0 = f) as -> by congruence.
  pose proof (state_frame _ _ _ _ _ _ _ H Hi) as Hf.
  eapply (mem_point fl (core (frames w)) rq rt _ _ (Some i) None i (erase f)); simpl; try done.
  - eapply not_initial_unheld; [exact M | exact Hc | simpl; congruence].
  - congruence.
  - intros a. destruct Hp as [-> | [-> | [-> _]]]; done.
  - destruct Hp as [-> | [-> | [-> _]]]; done.
  - rewrite Kh. apply (fo_handle _ _ _ _ _ Hf).
  - congruence.
  - destruct Hp as [-> | [-> | [_ ?]]]; done.
  - destruct Hp as [-> | [-> | [-> _]]]; done.
  - intros j Hj. split; congruence.
Qed.

Lemma park_ok fl rq rt i w :
  state fl rq rt (Some i) w → ensures (update i (with_point Parked) w) (λ w', state fl rq rt None w' ∧ keeps w w').
Proof.
  intros H. destruct (executing_frame _ _ _ _ _ H) as (f & Hi & Pf & Sf & Hq). rewrite (update_eq _ _ _ _ Hi). apply ensures_val. split; [| done].
  destruct (leave_state _ _ _ _ _ _ (with_point Parked) H Hi) as [L M]; auto.
  pose proof H as [K1 K2 K3 K4 K5 K6]. split; simpl; try done. rewrite core_insert. eapply queue_park; [done | by apply core_Some | done | done].
Qed.

(** A task is put in the queue, which makes the queue good again. *)
Lemma enqueue_ok thread fl rq rt exec w i f :
  books rq w → links (frames w) (sched w) rq rt → mem_ok fl (core (frames w)) (rq ++ [i]) rt (main_tasks w) (next_frame w) exec →
  queue_ok (core (frames w)) (rq ++ [i]) rt → running_ (sched w) = true → owner_thread_ (sched w) = Some thread →
  frames w !! i = Some f → i ∉ rq →
  ∃ w', schedule thread i w = Val (Scheduled, w') ∧ state fl (rq ++ [i]) rt exec w' ∧ keeps w w' ∧ core (frames w') = core (frames w).
Proof.
  intros Hb Hl M Q Hr Ho Hi Hq. pose proof (core_Some _ _ _ Hi) as Hc.
  destruct (mo_queued _ _ _ _ _ _ _ M i) as (g & Hg & Sg & Pg1 & Pg2); [set_solver |]. assert (g = erase f) as -> by congruence.
  pose proof (fo_handle _ _ _ _ _ (mo_frame _ _ _ _ _ _ _ M _ _ Hc)) as Hh. simpl in Sg, Pg1, Pg2, Hh.
  destruct (schedule_appends thread i w f rq rt) as (w' & -> & Hw); try done; [unfold done; by destruct (point f) |].
  exists w'. split; [done |]. split; [by eapply appended_state |]. destruct Hw as (m & s & -> & Hcm & Hrest & _).
  split; [by apply (keeps_rest w s m) in Hrest | done].
Qed.

Lemma yield_ok thread fl rq rt i w (next : World B → result (World B)) Q :
  state fl rq rt (Some i) w → running_ (sched w) = true → owner_thread_ (sched w) = Some thread →
  (∀ w', state fl (rq ++ [i]) rt None w' → keeps w w' → ensures (next w') Q) → ensures (body_yield thread i next w) Q.
Proof.
  intros H Hr Ho Hn. destruct (executing_frame _ _ _ _ _ H) as (f & Hi & Pf & Sf & Hq). unfold body_yield.
  rewrite (deref_eq _ _ _ Hi), (update_eq _ _ _ _ Hi). cbn [mbind outcome_bind]. rewrite Sf.
  destruct (leave_state _ _ _ _ _ _ (with_point Yielded) H Hi) as [L M]; auto. set (w1 := set_frames _ w).
  pose proof (core_insert (frames w) i (with_point Yielded f)) as Ec. pose proof (core_Some _ _ _ Hi) as Hc.
  destruct (enqueue_ok thread fl rq rt None w1 i (with_point Yielded f)) as (w2 & -> & H2 & K2 & _); try done.
  - exact (state_books _ _ _ _ _ H).
  - simpl. eapply mem_enqueue; [exact M | by apply core_Some, lookup_insert_eq | done | done | done |].
    eapply not_initial_started; [by apply core_Some, lookup_insert_eq | done].
  - simpl. rewrite Ec. eapply queue_yield; [apply H | done | done | done].
  - apply lookup_insert_eq.
  - cbn [mbind outcome_bind]. rewrite bool_decide_true by done. by apply Hn.
Qed.

(** ** The end of a body *)
Lemma end_ok thread fl rq rt i w f (u : Frame B → Frame B) :
  state fl rq rt (Some i) w → running_ (sched w) = true → owner_thread_ (sched w) = Some thread → frames w !! i = Some f →
  keeps_links u → key (u f) = (Final, tasks f, continuation_ (promise f), handle_ (promise f)) →
  scheduler_ (promise (u f)) = scheduler_ (promise f) → tasks f = ∅ →
  ensures (w ← update i u w; schedule_continuation thread i w)
    (λ w', state fl (rq ++ option_list (continuation_ (promise f))) rt None w' ∧ keeps w w').
Proof.
  intros H Hr Ho Hi Hl [= Kp Kt Kc Kh] Ks Ht. rewrite (update_eq _ _ _ _ Hi). cbn [mbind outcome_bind].
  destruct (executing_frame _ _ _ _ _ H) as (f0 & Hf0 & Pf & Sf & Hq). assert (f0 = f) as -> by congruence. clear Hf0.
  pose proof (core_Some _ _ _ Hi) as Hc. destruct (leave_state _ _ _ _ _ _ u H Hi) as [L M]; auto.
  pose proof (core_insert (frames w) i (u f)) as Ec. set (w1 := set_frames _ w).
  assert (queue_ok (core (frames w1)) (rq ++ option_list (continuation_ (promise f))) rt) as Q.
  { simpl. rewrite Ec. eapply (queue_final _ _ _ _ _ _ _ i (erase f)); [apply H | apply H | done | done | done]. }
  unfold schedule_continuation. rewrite (deref_eq i w1 (u f)) by apply lookup_insert_eq. cbn [mbind outcome_bind]. rewrite Kc.
  destruct (continuation_ (promise f)) as [p |] eqn:Hcont.
  - rewrite Ks, Sf. destruct (fo_parent _ _ _ _ _ (state_frame _ _ _ _ _ _ _ H Hi) p Hcont) as (g & Hg & Pg).
    apply core_inv in Hg as (h & Hh & ->). simpl in Pg.
    assert (p ≠ i) as Hpi by (intros ->; congruence).
    assert (frames w1 !! p = Some h) as Hp1 by (simpl; by rewrite lookup_insert_ne).
    assert (p ∉ rq) as Hpq.
    { intros Hx. apply (qo_await _ _ _ (st_queue _ _ _ _ _ H) p (erase h) i (erase f)) in Hx; [simpl in Hx; congruence | by apply core_Some | done | done]. }
    destruct (enqueue_ok thread fl rq rt None w1 p h) as (w2 & -> & H2 & K2 & _); try done.
    + exact (state_books _ _ _ _ _ H).
    + simpl. pose proof (core_Some _ _ _ Hp1) as Hc1. eapply mem_enqueue; [exact M | exact Hc1 | | simpl; congruence | simpl; congruence |].
      * eapply (fo_bound _ _ _ _ _ (mo_frame _ _ _ _ _ _ _ M _ _ Hc1)). simpl. congruence.
      * eapply not_initial_started; [exact Hc1 | simpl; congruence].
    + cbn [mbind outcome_bind]. rewrite bool_decide_true by done. apply ensures_val. done.
  - apply ensures_val. split; [| done]. cbn [option_list] in *. rewrite app_nil_r in *. pose proof H as [K1 K2 K3 K4 K5 K6]. by split.
Qed.

Lemma finish_body_ok thread rq rt i w u :
  state [] rq rt (Some i) w → running_ (sched w) = true → owner_thread_ (sched w) = Some thread → keeps_links u →
  (∀ f, key (u f) = key f ∧ scheduler_ (promise (u f)) = scheduler_ (promise f)) →
  ensures (finish_body thread i u w) (λ w', ∃ rq', state [] rq' rt None w' ∧ keeps w w').
Proof.
  intros H Hr Ho Hu Hk. destruct (executing_frame _ _ _ _ _ H) as (f & Hi & Pf & Sf & Hq). unfold finish_body.
  rewrite (deref_eq _ _ _ Hi), (update_eq _ _ _ _ Hi). cbn [mbind outcome_bind]. set (w1 := set_frames _ w).
  pose proof (core_Some _ _ _ Hi) as Hc. pose proof (st_mem _ _ _ _ _ H) as M.
  assert (state (task_list (tasks f)) rq rt (Some i) w1) as H1.
  { pose proof H as [K1 K2 K3 K4 K5 K6]. split; simpl; try done.
    - by apply links_update.
    - rewrite core_insert. eapply (mem_tasks [] (task_list (tasks f)) _ _ _ _ _ _ i (erase f) ∅); [done | done | simpl; congruence | simpl; congruence | | |].
      + rewrite task_list_empty, app_nil_r. done.
      + intros j [x Hx]%task_list_elem. by apply (fo_tasks _ _ _ _ _ (mo_frame _ _ _ _ _ _ _ M _ _ Hc) x j).
      + intros x j. by rewrite lookup_empty.
    - rewrite core_insert. by eapply queue_points. }
  assert (i ∉ task_list (tasks f)) as Hni.
  { intros [x Hx]%task_list_elem. destruct (fo_tasks _ _ _ _ _ (mo_frame _ _ _ _ _ _ _ M _ _ Hc) x i) as [? _]; [done | lia]. }
  eapply ensures_bind; [apply (destroy_state _ []); by rewrite app_nil_r |]. intros w2 (H2 & K2 & Hf2).
  specialize (Hf2 i). rewrite decide_False in Hf2 by done. unfold w1 in Hf2. simpl in Hf2. rewrite lookup_insert_eq in Hf2.
  destruct (Hk (with_tasks ∅ f)) as [[= Kp Kt Kc Kh] Ks]. destruct K2 as (E1 & E2 & E3). simpl in E1, E2, E3. unfold mode in E1.
  eapply ensures_mono; [eapply (end_ok thread [] rq rt i w2 (with_tasks ∅ f)); [exact H2 | congruence | congruence | exact Hf2 | | | |] |].
  - intros g. apply (Hu g).
  - unfold key. simpl. by rewrite Kt, Kc, Kh.
  - done.
  - done.
  - intros w3 [H3 K3]. eexists. split; [exact H3 |]. eapply keeps_trans; [| exact K3]. by split_and!.
Qed.

(** ** Awaiting *)
Lemma core_frame w i g : core (frames w) !! i = Some g → ∃ f, frames w !! i = Some f ∧ erase f = g.
Proof. intros H. apply core_inv in H as (f & Hf & ->). by exists f. Qed.

(** The child [c] is in hand. *)
Lemma suspend_ok thread rq rt i c w :
  state [c] rq rt (Some i) w → running_ (sched w) = true → owner_thread_ (sched w) = Some thread → (i < c)%nat →
  ensures (w ← update i (with_point (awaiting c)) w; await_suspend thread i (Some c) w)
    (λ '(a, stays, w'), a = mkAwaiter (Some c) None ∧ stays = true ∧ state [] (rq ++ [c]) rt None w' ∧ keeps w w' ∧
       ∃ f, frames w' !! i = Some f ∧ point f = awaiting c).
Proof.
  intros H Hr Ho Hic. destruct (executing_frame _ _ _ _ _ H) as (f & Hi & Pf & Sf & Hq). pose proof (st_mem _ _ _ _ _ H) as M.
  destruct (mo_floating _ _ _ _ _ _ _ M c) as (g0 & Hg0 & Pg & Cq & Cr & Cc); [by left |]. apply core_inv in Hg0 as (g & Hc & ->). simpl in Pg, Cc.
  pose proof (state_frame _ _ _ _ _ _ _ H Hc) as Fg. pose proof (state_frame _ _ _ _ _ _ _ H Hi) as Fi.
  rewrite (update_eq _ _ _ _ Hi). cbn [mbind outcome_bind]. set (f1 := with_point (awaiting c) f). set (w1 := set_frames _ w).
  unfold await_suspend. rewrite (deref_eq i w1 f1) by apply lookup_insert_eq. cbn [mbind outcome_bind].
  unfold promise_stop_token. rewrite (deref_eq i w1 f1) by apply lookup_insert_eq. cbn [mbind outcome_bind].
  unfold f1 at 1 3. cbn [promise with_point]. rewrite Sf. cbn beta iota. set (w2 := observe_external_stop w1).
  assert (frames w2 !! c = Some g) as Hc2 by (unfold w2; rewrite observe_frames; simpl; by rewrite lookup_insert_ne by lia).
  rewrite (bind_eq c _ w2 g Hc2) by apply (fo_sched _ _ _ _ _ Fg). cbn [mbind outcome_bind negb].
  unfold update_promise. set (g1 := with_promise _ g). rewrite (update_eq c _ _ g1) by apply lookup_insert_eq. cbn [mbind outcome_bind].
  set (g2 := with_promise _ g1). set (w3 := set_frames _ (set_frames _ _)).
  assert (core (frames w3) = <[i := erase f1]> (<[c := erase g2]> (core (frames w)))) as Ec.
  { unfold w3. simpl. rewrite insert_insert_eq, core_insert. unfold w2. rewrite observe_core. unfold w1. simpl. rewrite core_insert.
    by rewrite insert_insert_ne by lia. }
  assert (links (frames w3) (sched w3) rq rt) as L3.
  { unfold w3. simpl. rewrite insert_insert_eq.
    apply (links_update _ _ _ _ c g (λ g, with_promise (set_continuation (Some i)) (with_promise (set_binding (Some this) (stop_token_ (promise f1))) g))); [| done | by intros ?].
    unfold w2. rewrite observe_frames. eapply (links_sched _ (sched w)); [by apply links_update; [apply H | | apply point_links] | | | | |];
      unfold observe_external_stop; by case_match. }
  assert (running_ (sched w3) = true ∧ owner_thread_ (sched w3) = Some thread) as [R3 O3].
  { unfold w3, w2. simpl. unfold observe_external_stop. by case_match. }
  assert (main_tasks w3 = main_tasks w ∧ next_frame w3 = next_frame w) as [E1 E2].
  { unfold w3, w2. simpl. unfold observe_external_stop. by case_match. }
  assert (frames w3 !! c = Some g2) as Hc3 by (unfold w3; apply lookup_insert_eq).
  destruct (enqueue_ok thread [] rq rt None w3 c g2) as (w4 & -> & H4 & K4 & C4); try done.
  - unfold books, w3, w2. simpl. pose proof (state_books _ _ _ _ _ H) as [? ?]. unfold observe_external_stop. by case_match.
  - rewrite Ec, E1, E2. pose proof (core_Some _ _ _ Hi) as Hci. pose proof (core_Some _ _ _ Hc) as Hcc.
    eapply (mem_await [] _ _ _ _ _ i c (erase f) (erase g)); try done; [apply (fo_handle _ _ _ _ _ Fi) | apply (fo_handle _ _ _ _ _ Fg)].
  - rewrite Ec. pose proof (core_Some _ _ _ Hi) as Hci. pose proof (core_Some _ _ _ Hc) as Hcc.
    eapply (queue_await [] _ _ _ _ _ _ i c (erase f) (erase g)); [exact M | apply H | done..].
  - cbn [mbind outcome_bind]. rewrite bool_decide_true by done. apply ensures_val. split_and!; try done.
    + eapply keeps_trans; [| exact K4]. unfold w3, w2, keeps. simpl. unfold observe_external_stop. by case_match.
    + destruct (core_frame w4 i (erase f1)) as (h & Hh & Eh); [by rewrite C4, Ec, lookup_insert_eq |]. exists h. split; [done |].
      by apply (f_equal point) in Eh.
Qed.

Lemma destroy_nil w : destroy [] w = Val w.
Proof. unfold destroy. by destruct (size (frames w)). Qed.

Lemma await_ok thread rq rt i x w (next : World B → result (World B)) Q :
  state [] rq rt (Some i) w → running_ (sched w) = true → owner_thread_ (sched w) = Some thread →
  (∀ w', state [] rq rt (Some i) w' → keeps w w' → Q w') →
  (∀ c w', state [] (rq ++ [c]) rt None w' → keeps w w' → ensures (next w') Q) → ensures (body_await thread i x next w) Q.
Proof.
  intros H Hr Ho Hstay Hnext. destruct (executing_frame _ _ _ _ _ H) as (f & Hi & Pf & Sf & Hq). unfold body_await.
  rewrite (deref_eq _ _ _ Hi). cbn [mbind outcome_bind]. rewrite (update_eq _ _ _ _ Hi). cbn [mbind outcome_bind]. set (w1 := set_frames _ w).
  pose proof (core_Some _ _ _ Hi) as Hc. pose proof (st_mem _ _ _ _ _ H) as M. pose proof (state_frame _ _ _ _ _ _ _ H Hi) as Fi.
  assert (∀ j, tasks f !! x = Some j → (i < j)%nat ∧ unstarted (core (frames w)) rq rt j) as Hx by apply (fo_tasks _ _ _ _ _ Fi).
  assert (state (option_list (tasks f !! x)) rq rt (Some i) w1) as H1.
  { pose proof H as [K1 K2 K3 K4 K5 K6]. split; simpl; try done.
    - by apply links_update.
    - rewrite core_insert. eapply (mem_tasks [] _ _ _ _ _ _ _ i (erase f) (delete x (tasks f))); [done | done | simpl; congruence | simpl; congruence | | |].
      + apply task_list_drop.
      + intros j. destruct (tasks f !! x) as [k |] eqn:E; simpl; [| by intros Hj%list_elem_of_In]. intros Hj%list_elem_of_singleton. subst. by apply Hx.
      + intros y j. rewrite lookup_delete. case_decide; [done |]. apply (fo_tasks _ _ _ _ _ Fi).
    - rewrite core_insert. by eapply queue_points. }
  destruct (tasks f !! x) as [c |] eqn:E; simpl in H1.
  - destruct (Hx c eq_refl) as [Hic (g0 & Hg0 & Pg & _)]. apply core_inv in Hg0 as (g & Hg & ->). simpl in Pg.
    rewrite (deref_eq c w1 g) by (simpl; by rewrite lookup_insert_ne by lia). cbn [mbind outcome_bind].
    replace (done g) with false by (unfold done; by rewrite Pg).
    destruct (suspend_ok thread rq rt i c w1 H1) as ([[a stays] w2] & E2 & -> & -> & H2 & K2 & h & Hh & Ph); try done.
    destruct (update i (with_point (awaiting c)) w1) as [wa | |] eqn:Ea; try done. cbn [mbind outcome_bind] in *. rewrite E2. cbn [mbind outcome_bind].
    eapply ensures_bind; [eapply (update_key _ _ _ _ w2 i h); [exact H2 | done | done | | by left] |].
    + unfold key. simpl. by rewrite Ph.
    + intros w3 (H3 & K3 & _). eapply Hnext; [exact H3 |]. eapply keeps_trans; [exact K2 | exact K3].
  - cbn [mbind outcome_bind]. unfold await_resume. cbn [error_ awaited_ mbind outcome_bind option_list]. rewrite destroy_nil.
    cbn [mbind outcome_bind]. eapply ensures_mono; [apply (proceed_state [] rq rt (Some i)); [exact H1 |] |].
    + simpl. rewrite lookup_insert_eq. by eexists.
    + intros w2 [H2 K2]. by apply Hstay.
Qed.

(** ** Resuming *)

(** What a child that is done tells its parent. *)
Definition child_answer f : Answer :=
  match exception_ (promise f) with
  | Some e => Raised e
  | None => if void_ f then AwaitAnswer None
            else match result_ f with Some v => AwaitAnswer (Some v) | None => Raised (Logic NoResult) end
  end.

Lemma await_resume_done j g w w' :
  frames w !! j = Some g → point g = Final → destroy [j] w = Val w' →
  await_resume (mkAwaiter (Some j) None) w = Val (child_answer g, w').
Proof.
  intros Hj Hp Hd. unfold await_resume. cbn [error_ awaited_ option_list]. rewrite (deref_eq _ _ _ Hj). cbn [mbind outcome_bind].
  replace (done g) with true by (unfold done; by rewrite Hp). cbn [negb]. cbn [mbind outcome_bind]. change (option_list (Some j)) with [j]. rewrite Hd. reflexivity.
Qed.

(** [m] is the store after the first task has left the queue. *)
Lemma resume_plain rq rt w i f :
  links (frames w) (sched w) rq rt → mem_ok [] (core (frames w)) (i :: rq) rt (main_tasks w) (next_frame w) None →
  queue_ok (core (frames w)) (i :: rq) rt → i ∉ rq → frames w !! i = Some f →
  point f = Initial ∨ point f = Yielded ∨ point f = Parked →
  ∃ m, resume i w = Val (set_frames m w) ∧ links m (sched w) rq rt ∧
    mem_ok [] (core m) rq rt (main_tasks w) (next_frame w) (Some i) ∧ queue_ok (core m) rq rt.
Proof.
  intros L M Q Hn Hi Hp. unfold resume. rewrite (deref_eq _ _ _ Hi). cbn [mbind outcome_bind]. exists (<[i := with_answer Continue (with_point Executing f)]> (frames w)).
  pose proof (core_Some _ _ _ Hi) as Hc. destruct (mo_queued _ _ _ _ _ _ _ M i) as (g & Hg & Sg & Pg1 & Pg2); [by left |].
  assert (g = erase f) as -> by congruence. split_and!.
  - destruct Hp as [-> | [-> | ->]]; by rewrite (update_eq _ _ _ _ Hi).
  - apply (links_update _ _ _ _ i f (λ f, with_answer Continue (with_point Executing f))); [done | done | by intros ?].
  - rewrite core_insert. eapply (mem_point [] _ rq rt _ _ None (Some i) i (erase f)); simpl; try done.
    + by eapply mem_dequeue.
    + eapply queued_unheld; [exact M | by left].
    + intros a Ha. destruct Hp as [E | [E | E]]; congruence.
    + apply (fo_handle _ _ _ _ _ (mo_frame _ _ _ _ _ _ _ M _ _ Hc)).
    + intros j Hj. split; congruence.
  - rewrite core_insert. eapply queue_resume; [exact Q | done | exact Hc | done | done].
Qed.

Lemma resume_parent rq rt w i f j :
  links (frames w) (sched w) rq rt → mem_ok [] (core (frames w)) (i :: rq) rt (main_tasks w) (next_frame w) None →
  queue_ok (core (frames w)) (i :: rq) rt → i ∉ rq → frames w !! i = Some f → point f = awaiting j →
  ∃ g m, resume i w = Val (set_frames m w) ∧ frames w !! j = Some g ∧ point g = Final ∧
    (∃ h, m !! i = Some h ∧ answer h = child_answer g) ∧ m !! j = None ∧ links m (sched w) rq rt ∧
    mem_ok [] (core m) rq rt (main_tasks w) (next_frame w) (Some i) ∧ queue_ok (core m) rq rt.
Proof.
  intros L M Q Hn Hi Hp. pose proof (core_Some _ _ _ Hi) as Hc. pose proof (mo_frame _ _ _ _ _ _ _ M _ _ Hc) as Fi.
  destruct (fo_child _ _ _ _ _ Fi _ Hp) as (j' & g0 & [= <-] & Hij & Hj & Cg & Sg & Rg). pose proof Hj as Hjc. apply core_inv in Hj as (g & Hj & ->).
  assert (point g = Final) as Pg by (apply (qo_await _ _ _ Q i (erase f) j (erase g)); [done | done | done | by left]).
  pose proof (mo_frame _ _ _ _ _ _ _ M _ _ Hjc) as Fj.
  set (f1 := with_point Executing f). set (w1 := set_frames (<[i := f1]> (frames w)) w).
  assert (frames w1 !! j = Some g) as Hj1 by (simpl; by rewrite lookup_insert_ne by lia).
  assert (j ∉ rq ∧ j ∉ rt) as [Jq _].
  { split; [| done]. intros Hx. destruct (mo_queued _ _ _ _ _ _ _ M j) as (h & Hh & _ & _ & ?); [by right |]. assert (h = erase g) as -> by congruence. done. }
  destruct (destroy_leaves [j] w1) as (m1 & Ed & Hm1); [apply NoDup_singleton | |].
  { intros k ->%list_elem_of_singleton. exists g. split; [done |]. split; [congruence |]. unfold owned_frames. rewrite Pg.
    pose proof (fo_leaf _ _ _ _ _ Fj) as Ht. simpl in Ht. rewrite Ht by auto. apply task_list_empty. }
  assert (m1 = delete j (<[i := f1]> (frames w))) as ->.
  { apply map_eq. intros k. rewrite Hm1, lookup_delete. unfold w1. simpl. destruct (decide (j = k)) as [-> |].
    - by rewrite decide_True by set_solver.
    - rewrite decide_False by set_solver. done. }
  set (f2 := with_answer (child_answer g) f1). exists g, (<[i := f2]> (delete j (<[i := f1]> (frames w)))).
  assert (<[i := f2]> (delete j (<[i := f1]> (frames w))) = <[i := f2]> (delete j (frames w))) as Em.
  { by rewrite delete_insert_ne, insert_insert_eq by lia. }
  assert (core (<[i := f2]> (delete j (frames w))) = <[i := erase f2]> (delete j (core (frames w)))) as Ec by (by rewrite core_insert, core_delete).
  split_and!; try done.
  - unfold resume. rewrite (deref_eq _ _ _ Hi). cbn [mbind outcome_bind]. rewrite Hp, (update_eq _ _ _ _ Hi). cbn [mbind outcome_bind].
    change (set_frames (<[i := with_point Executing f]> (frames w)) w) with w1. rewrite (await_resume_done j g _ _ Hj1 Pg Ed). cbn [mbind outcome_bind]. rewrite (update_eq i _ _ f1); [done |]. simpl.
    by rewrite lookup_delete_ne, lookup_insert_eq by lia.
  - exists f2. rewrite lookup_insert_eq. done.
  - by rewrite lookup_insert_ne, lookup_delete_eq by lia.
  - rewrite Em. apply (links_update _ _ _ _ i f (λ f, with_answer (child_answer g) (with_point Executing f))); [| by rewrite lookup_delete_ne by lia | by intros ?].
    eapply links_sub; [exact L | apply delete_subseteq |]. intros k Hk. destruct (links_live _ _ _ _ _ L Hk) as [h Hh].
    exists h. rewrite lookup_delete_ne; [done |]. intros <-. by destruct Hk.
  - rewrite Em, Ec. eapply (mem_child_done [] _ rq rt _ _ i j (erase f) (erase g)); try done; [by eapply mem_dequeue | |].
    + apply (fo_handle _ _ _ _ _ Fi).
    + apply (fo_bound _ _ _ _ _ Fi). simpl. congruence.
  - rewrite Em, Ec, <- delete_insert_ne by lia. apply (queue_delete _ rq rt rt); [| | done].
    + eapply queue_resume; [exact Q | done | exact Hc | simpl; congruence | done].
    + intros k h. rewrite lookup_insert. case_decide as Hik; [by intros [= <-] |]. intros Hk Hpk.
      apply Hik. symmetry. eapply one_awaits; [exact M | exact Hk | exact Hc | done | done].
Qed.

(** The parent [i] gets what its child left. *)
Definition delivered i w w' : Prop :=
  ∀ f j, frames w !! i = Some f → point f = awaiting j →
    ∃ g h, frames w !! j = Some g ∧ point g = Final ∧ frames w' !! j = None ∧ frames w' !! i = Some h ∧ answer h = child_answer g.

Lemma dispatch_ok thread i budget count caller rq rt w :
  state [] (i :: rq) rt None w →
  ensures (dispatch thread i budget count caller w) (λ w', state [] rq rt (Some i) w' ∧
    mode (sched w') = mode (set_dispatching true (sched w)) ∧ main_tasks w' = main_tasks w ∧
    control w' = Dispatching thread i (bool_decide (i ∈ rt)) budget count caller ∧ delivered i w w').
Proof.
  intros H. pose proof H as [L M Q K4 K5 K6]. pose proof (lk_nodup _ _ _ _ L) as Hnd. apply list.NoDup_cons in Hnd as [Hn _].
  destruct (mo_queued _ _ _ _ _ _ _ M i) as (g & Hg & Sg & Pg1 & Pg2); [by left |]. apply core_inv in Hg as (f & Hi & ->). simpl in Pg1, Pg2.
  destruct (pop_links _ _ _ _ _ _ L Hi) as (Hnext & Ec & L1). unfold dispatch. rewrite (deref_eq _ _ _ Hi). cbn [mbind outcome_bind].
  rewrite Hnext. destruct (lk_flags _ _ _ _ L _ _ Hi) as [_ ->].
  unfold update_promise. rewrite (update_eq _ _ _ _ Hi). cbn [mbind outcome_bind]. set (f1 := with_promise _ f) in *. set (w1 := log _ _).
  assert (links (frames w1) (sched w1) rq rt) as L1' by (by eapply links_sched).
  assert (frames w1 !! i = Some f1) as Hi1 by apply lookup_insert_eq.
  assert (∃ m, resume i w1 = Val (set_frames m w1) ∧ links m (sched w1) rq rt ∧
    mem_ok [] (core m) rq rt (main_tasks w1) (next_frame w1) (Some i) ∧ queue_ok (core m) rq rt ∧
    delivered i w (set_frames m w1)) as (m & -> & Lm & Mm & Qm & Dm).
  { assert (mem_ok [] (core (frames w1)) (i :: rq) rt (main_tasks w1) (next_frame w1) None) as M1 by (simpl; by rewrite Ec).
    assert (queue_ok (core (frames w1)) (i :: rq) rt) as Q1 by (simpl; by rewrite Ec).
    destruct (point f) eqn:Hp; try done.
    2: { destruct (fo_child _ _ _ _ _ (mo_frame _ _ _ _ _ _ _ M _ _ (core_Some _ _ _ Hi)) a Hp) as (j & g & -> & Hij & _).
         destruct (resume_parent rq rt w1 i f1 j) as (g' & m & E & Hg' & Pg' & (h & Hh & Ah) & Hj & ? & ? & ?); try done. exists m.
         split_and!; try done. intros f0 j0 Hf0 Hp0. assert (f0 = f) as -> by congruence. assert (j0 = j) as -> by congruence. exists g', h.
         split_and!; try done. simpl in Hg'. by rewrite lookup_insert_ne in Hg' by lia. }
    all: destruct (resume_plain rq rt w1 i f1) as (m & ? & ? & ? & ?); [done.. | by simpl; rewrite Hp; auto |]; exists m; split_and!; try done;
      intros f0 j0 Hf0 Hp0; congruence. }
  cbn [mbind outcome_bind]. apply ensures_val. split; [| done]. split; simpl; try done.
  - rewrite replay_app, K4. simpl. by rewrite decide_True.
  - by rewrite nested_app, Z.add_0_r.
  - intros Hr. by destruct (K6 Hr).
Qed.

(** ** Roots at their end, and cancellation *)
Lemma relisted_keeps w w' rq rt : relisted w w' rq rt → keeps w w'.
Proof. intros (m & s & -> & _ & Hrest & _). by apply keeps_rest. Qed.

Lemma handle_links b : keeps_links (B := B) (with_promise (set_handle b)).
Proof. by intros f. Qed.

Lemma finish_root_ok rq l1 l2 i f w :
  state [] rq (l1 ++ i :: l2) None w → frames w !! i = Some f → point f = Final →
  ensures (finish_root i w) (λ w', state [] rq (l1 ++ l2) None w' ∧ keeps w w').
Proof.
  intros H Hi Hp. pose proof H as [L M Q K4 K5 K6]. pose proof (core_Some _ _ _ Hi) as Hc. pose proof (mo_frame _ _ _ _ _ _ _ M _ _ Hc) as Fi.
  destruct (mo_roots _ _ _ _ _ _ _ M i) as (g & Hg & Sg & Cg); [set_solver |]. assert (g = erase f) as -> by congruence. simpl in Cg.
  unfold finish_root. rewrite (deref_eq _ _ _ Hi). cbn [mbind outcome_bind].
  match goal with |- ensures (mbind _ (unlink_root i ?W)) _ => set (w1 := W) end.
  assert (frames w1 = frames w ∧ main_tasks w1 = main_tasks w ∧ next_frame w1 = next_frame w ∧ history w1 = history w ∧ keeps w w1 ∧
    invariant_failures_ (sched w1) = invariant_failures_ (sched w) ∧ running_ (sched w1) = running_ (sched w)) as (E1 & E2 & E3 & E4 & Ek & E5 & E6).
  { unfold w1. by destruct (exception_ (promise f)). }
  assert (links (frames w1) (sched w1) rq (l1 ++ i :: l2)) as L1.
  { rewrite E1. eapply links_sched; [exact L | | | | |]; unfold w1; by destruct (exception_ (promise f)). }
  assert (frames w1 !! i = Some f) as Hi1 by (by rewrite E1).
  destruct (unlink_root_ok i w1 f rq l1 l2 L1 Hi1) as (w2 & -> & R). pose proof (relisted_keeps _ _ _ _ R) as Kr.
  destruct R as (m2 & s2 & -> & C2 & R2 & L2). cbn [mbind outcome_bind].
  assert (core m2 !! i = Some (erase f)) as Hc2 by (rewrite C2; by apply core_Some). apply core_inv in Hc2 as (f2 & Hf2 & Ef2).
  unfold update_promise. rewrite (update_eq _ _ (set_sched s2 (set_frames m2 w1)) f2 Hf2). cbn [mbind outcome_bind]. set (f3 := with_promise _ f2). set (w3 := set_frames _ _).
  assert (frames w3 !! i = Some f3) as Hi3 by apply lookup_insert_eq.
  assert (point f3 = Final ∧ tasks f3 = ∅) as [P3 T3].
  { unfold f3. simpl. pose proof (f_equal point Ef2) as X. pose proof (f_equal tasks Ef2) as Y. simpl in X, Y. rewrite <- X, <- Y.
    split; [done |]. apply (fo_leaf _ _ _ _ _ Fi). auto. }
  destruct (destroy_leaves [i] w3) as (m4 & Ed & Hm4); [apply NoDup_singleton | |].
  { intros k ->%list_elem_of_singleton. exists f3. split; [done |]. rewrite P3. split; [done |]. unfold owned_frames. rewrite P3, T3. apply task_list_empty. }
  rewrite Ed. apply ensures_val. assert (m4 = delete i m2) as ->.
  { apply map_eq. intros k. rewrite Hm4, lookup_delete. unfold w3. simpl. destruct (decide (i = k)) as [-> |]; [by rewrite decide_True by set_solver |].
    rewrite decide_False by set_solver. by rewrite lookup_insert_ne. }
  assert (core (delete i m2) = delete i (core (frames w))) as Ec by (by rewrite core_delete, C2, E1).
  assert (i ∉ rq) as Hq. { intros Hx. destruct (mo_queued _ _ _ _ _ _ _ M _ Hx) as (h & Hh & _ & _ & ?). assert (h = erase f) as -> by congruence. done. }
  assert (i ∉ l1 ++ l2) as Hl. { destruct (NoDup_mid _ _ _ (lk_root_nodup _ _ _ _ L)) as (? & ? & _). set_solver. }
  assert (mem_ok [] (delete i (core (frames w))) rq (l1 ++ l2) (main_tasks w) (next_frame w) None) as M4.
  { eapply (mem_delete [] _ rq (l1 ++ i :: l2) _ _ None i (erase f)); try done; simpl; try congruence.
    - unfold owned_frames. simpl. rewrite Hp. pose proof (fo_leaf _ _ _ _ _ Fi) as Ht. simpl in Ht. rewrite Ht by auto. apply task_list_empty.
    - set_solver.
    - by rewrite Permutation_middle. }
  split; [| by eapply keeps_trans]. split; simpl.
  - eapply links_sub; [exact L2 | apply delete_subseteq |]. intros k Hk. destruct (links_live _ _ _ _ _ L2 Hk) as [h Hh].
    exists h. rewrite lookup_delete_ne; [done |]. intros <-. by destruct Hk.
  - by rewrite Ec, E2, E3.
  - rewrite Ec. apply (queue_delete _ rq (l1 ++ i :: l2)); [done | | set_solver]. intros k h Hk Hpk.
    destruct (fo_child _ _ _ _ _ (mo_frame _ _ _ _ _ _ _ M _ _ Hk) _ Hpk) as (j & g & [= <-] & _ & Hg' & Cg' & _).
    assert (g = erase f) as -> by congruence. simpl in Cg'. congruence.
  - by rewrite E4.
  - rewrite E4. pose proof (f_equal invariant_failures_ R2) as X. simpl in X. congruence.
  - pose proof (f_equal running_ R2) as X. simpl in X. intros Hr. destruct K6 as [_ K6]; [congruence |]. by destruct l1.
Qed.

Lemma frame_owned_core (m : gmap nat (Frame B)) : frame_owned (core m) = frame_owned m.
Proof.
  unfold frame_owned, core. rewrite map_to_list_fmap, <- list_fmap_compose. apply f_equal, list_fmap_ext. by intros _ [i f] _.
Qed.

Lemma core_sub (m m' : gmap nat (Frame B)) : m ⊆ m' → core m ⊆ core m'.
Proof. apply map_fmap_mono. Qed.

Lemma destroy_roots_ok rt fuel w :
  (length rt < fuel)%nat → links (frames w) (sched w) [] rt → mem_ok [] (core (frames w)) [] rt (main_tasks w) (next_frame w) None →
  ∃ m s, destroy_roots fuel w = Val (set_sched s (set_frames m w)) ∧ rest s = rest (sched w) ∧ links m s [] [] ∧
    mem_ok [] (core m) [] [] (main_tasks w) (next_frame w) None.
Proof.
  revert fuel w. induction rt as [| r rt IH]; intros [| fuel] w Hf L M; try (simpl in Hf; lia); cbn [destroy_roots]; rewrite (lk_root_head _ _ _ _ L); cbn [list.head].
  - exists (frames w), (sched w). split_and!; try done. by destruct w.
  - destruct (links_live _ _ _ _ r L) as [f Hi]; [right; by left |].
    destruct (unlink_root_ok r w f [] [] rt L Hi) as (w1 & -> & m1 & s1 & -> & C1 & R1 & L1). cbn [mbind outcome_bind app] in *.
    assert (core m1 !! r = Some (erase f)) as Hc1 by (rewrite C1; by apply core_Some). apply core_inv in Hc1 as (f1 & Hf1 & _).
    unfold update_promise. rewrite (update_eq _ _ (set_sched s1 (set_frames m1 w)) f1 Hf1). cbn [mbind outcome_bind]. set (w2 := set_frames _ _).
    assert (dom (frames w2) = dom (core (frames w))) as Hd by (simpl; rewrite (dom_update _ _ _ _ Hf1), <- C1; unfold core; by rewrite dom_fmap_L).
    assert (frame_owned (frames w2) ≡ₚ frame_owned (core (frames w))) as Ho.
    { simpl. by rewrite frame_owned_insert, <- C1, frame_owned_core, (frame_owned_delete _ _ _ Hf1). }
    destruct (destroy_frames_ok (size (frames w2)) [r] (rt ++ task_list (main_tasks w)) w2) as (m3 & Ed & Hsub & Hgone & Hown); [| | done |].
    { intros j g Hj Hp. simpl in Hj. rewrite lookup_insert in Hj. case_decide.
      - injection Hj as <-. simpl in Hp. subst j. apply core_Some in Hf1. rewrite C1 in Hf1.
        by apply (mo_exec _ _ _ _ _ _ _ M _ _ Hf1) in Hp.
      - apply core_Some in Hj. rewrite C1 in Hj. by apply (mo_exec _ _ _ _ _ _ _ M _ _ Hj) in Hp. }
    { rewrite Ho, Hd, <- (mo_owned _ _ _ _ _ _ _ M). by rewrite <- app_assoc. }
    unfold destroy. rewrite Ed. cbn [mbind outcome_bind].
    assert (m3 ⊆ m1) as Hsub1.
    { apply map_subseteq_spec. intros k h Hk. pose proof (lookup_weaken _ _ _ _ Hk Hsub) as Hk2. simpl in Hk2. rewrite lookup_insert_ne in Hk2; [done |].
      intros <-. rewrite Hgone in Hk by (by left). done. }
    destruct (IH fuel (set_frames m3 w2)) as (m & s & E & Hr & Hl & Hm).
    + simpl in Hf. lia.
    + simpl. eapply links_sub; [exact L1 | done |]. intros k [Hk | Hk]; [by apply list_elem_of_In in Hk |].
      apply elem_of_dom. rewrite <- elem_of_elements, <- Hown, !elem_of_app. auto.
    + simpl. eapply mem_sub; [exact M | rewrite <- C1; by apply core_sub | intros k Hk; by right |].
      rewrite frame_owned_core. unfold core. rewrite dom_fmap_L, <- Hown. by rewrite <- app_assoc.
    + exists m, s. rewrite E. split_and!; try done. simpl in Hr. congruence.
Qed.

Lemma cancel_ok rq rt w :
  state [] rq rt None w → ensures (cancel_all_now w) (λ w', state [] [] [] None w' ∧ keeps w w').
Proof.
  intros [L M Q K4 K5 K6]. unfold cancel_all_now. destruct (clear_ready_ok w rq rt L) as (m1 & s1 & -> & C1 & R1 & L1). cbn [mbind outcome_bind].
  set (w1 := log _ _).
  destruct (destroy_roots_ok rt (S (size (frames w1))) w1) as (m & s & -> & R & Lm & Mm).
  - enough (length rt ≤ size (frames w1))%nat by lia. apply length_le_size; [apply L |]. intros i Hi. eapply links_live; [exact L1 | by right].
  - exact L1.
  - simpl. rewrite C1. by eapply mem_clear.
  - apply ensures_val. split; [| unfold w1; simpl in R; apply (keeps_rest w s m); congruence]. split; simpl; try done.
    + by eapply queue_cancelled.
    + rewrite replay_app, K4. done.
    + rewrite nested_app, Z.add_0_r. simpl in R. pose proof (f_equal invariant_failures_ R) as X. pose proof (f_equal invariant_failures_ R1) as Y.
      simpl in X, Y. congruence.
Qed.

(** ** Between two tasks *)
Record idle (thread : nat) rq rt w : Prop := {
  id_state : state [] rq rt None w;
  id_dispatching : dispatching_ (sched w) = false;
  id_cancel : cancel_pending_ (sched w) = false;
  id_shutdown : shutdown_pending_ (sched w) = false;
  id_owner : running_ (sched w) = true → owner_thread_ (sched w) = Some thread;
}.

(** The budget left to [run_ready] by its caller. *)
Definition caller_ok (caller : Caller) (budget : Z) : Prop :=
  match caller with Direct => True | FromShutdown resume_budget total => 0 ≤ total ≤ Z.max 0 resume_budget ∧ budget = resume_budget - total end.

Definition executing (c : Control) : option nat := match c with Outside => None | Dispatching _ i _ _ _ _ => Some i end.

Definition mode_ok rt w : Prop :=
  match control w with
  | Outside => dispatching_ (sched w) = false ∧ cancel_pending_ (sched w) = false ∧ shutdown_pending_ (sched w) = false
  | Dispatching thread i root budget count caller =>
      running_ (sched w) = true ∧ owner_thread_ (sched w) = Some thread ∧ dispatching_ (sched w) = true ∧
      root = bool_decide (i ∈ rt) ∧ 0 ≤ count < budget ∧ caller_ok caller budget ∧
      (shutdown_pending_ (sched w) = true → cancel_pending_ (sched w) = true)
  end.

Definition world_ok w : Prop := ∃ rq rt, state [] rq rt (executing (control w)) w ∧ mode_ok rt w.

(** What the end of a turn of [run_ready] leads to: the next turn, or the return. *)
Definition run_post (thread : nat) (budget : Z) (caller : Caller) w : Prop :=
  match control w, caller with
  | Outside, Direct => ∃ n, reply w = RunAnswer (mkRunResult n (has_ready (sched w))) ∧ 0 ≤ n ≤ Z.max 0 budget ∧
      (n < budget → has_ready (sched w) = false)
  | Outside, FromShutdown resume_budget _ => running_ (sched w) = false ∧ ∃ n, reply w = SizeAnswer n ∧ 0 ≤ n ≤ Z.max 0 resume_budget
  | Dispatching thread' _ _ budget' _ caller', Direct => thread' = thread ∧ budget' = budget ∧ caller' = Direct
  | Dispatching thread' _ _ _ _ caller', FromShutdown resume_budget _ => thread' = thread ∧ ∃ n, caller' = FromShutdown resume_budget n
  end.

Lemma idle_observe thread rq rt w : idle thread rq rt w → idle thread rq rt (observe_external_stop w).
Proof.
  intros [H1 H2 H3 H4 H5]. pose proof (observe_keeps w) as ([=] & _ & _). split; try congruence; [by apply observe_state |].
  intros Hr. rewrite <- H5; congruence.
Qed.

Lemma deactivate_state rq rt w exec : state [] [] [] exec w → state [] [] [] exec (deactivate w).
Proof. intros H. eapply state_same; eauto. Qed.

Lemma dispatch_world thread i budget count caller rq rt w :
  idle thread (i :: rq) rt w → running_ (sched w) = true → 0 ≤ count < budget → caller_ok caller budget →
  ensures (dispatch thread i budget count caller w) (λ w', world_ok w' ∧ ∃ root, control w' = Dispatching thread i root budget count caller).
Proof.
  intros [H1 H2 H3 H4 H5] Hr Hc Hca. eapply ensures_mono; [by apply dispatch_ok |]. intros w' (H & [=] & E2 & E3 & _). simpl in *.
  split; [| by eexists]. exists rq, rt. rewrite E3. split; [done |]. unfold mode_ok. rewrite E3. split_and!; try done; try congruence; [| lia..].
  rewrite <- H5 by done. congruence.
Qed.

Lemma finish_shutdown_ok thread rq rt total w :
  idle thread rq rt w →
  ensures (finish_shutdown total w) (λ w', world_ok w' ∧ control w' = Outside ∧ running_ (sched w') = false ∧ reply w' = SizeAnswer total).
Proof.
  intros [H1 H2 H3 H4 H5]. unfold finish_shutdown. destruct (running_ (sched w)) eqn:Hr.
  - eapply (ensures_bind _ _ (λ w', state [] [] [] None w' ∧ running_ (sched w') = false ∧ dispatching_ (sched w') = false ∧
      cancel_pending_ (sched w') = false ∧ shutdown_pending_ (sched w') = false)).
    + eapply ensures_bind; [by eapply cancel_ok |]. intros w1 [K1 _]. apply ensures_val. split; [| done]. eapply (deactivate_state [] []); done.
    + intros w1 (K1 & K2 & K3 & K4 & K5). apply ensures_val. split_and!; try done. exists [], []. split; [by eapply state_same; eauto | done].
  - cbn [mbind outcome_bind]. apply ensures_val. split_and!; try done. exists rq, rt. split; [by eapply state_same; eauto | done].
Qed.

Lemma ready_head_cons fl rq rt exec w i : state fl rq rt exec w → ready_head_ (sched w) = Some i → ∃ rq', rq = i :: rq'.
Proof. intros H E. rewrite (lk_head _ _ _ _ (st_links _ _ _ _ _ H)) in E. destruct rq as [| j rq]; [done |]. injection E as ->. by exists rq. Qed.

Lemma ready_head_nil fl rq rt exec w : state fl rq rt exec w → ready_head_ (sched w) = None → rq = [].
Proof. intros H E. rewrite (lk_head _ _ _ _ (st_links _ _ _ _ _ H)) in E. by destruct rq. Qed.

Lemma run_return_ok thread budget count caller rq rt w :
  idle thread rq rt w → 0 ≤ count ≤ Z.max 0 budget → caller_ok caller budget → (count < budget → ready_head_ (sched w) = None) →
  ensures (run_return thread count caller w) (λ w', world_ok w' ∧ run_post thread budget caller w').
Proof.
  intros H Hc Hca Hlow. pose proof H as [H1 H2 H3 H4 H5]. destruct caller as [| rb total]; cbn [run_return].
  - apply ensures_val. split.
    + exists rq, rt. split; [by eapply state_same; eauto | done].
    + exists count. split_and!; try done; try lia. intros Hlt. unfold has_ready. simpl. by rewrite Hlow.
  - destruct Hca as [Ht ->].
    assert (∀ n, 0 ≤ n ≤ Z.max 0 rb → ensures (finish_shutdown n w) (λ w', world_ok w' ∧ run_post thread (rb - total) (FromShutdown rb total) w')) as Hfin.
    { intros n Hn. eapply ensures_mono; [by eapply finish_shutdown_ok |]. intros w' (K1 & K2 & K3 & K4). split; [done |]. unfold run_post.
      rewrite K2. split; [done |]. exists n. split; [done | lia]. }
    destruct (count =? 0) eqn:E0; [apply Hfin; lia |]. cbn zeta. destruct (ready_head_ (sched w)) as [i |] eqn:Eh; [| apply Hfin; lia].
    destruct (running_ (sched w) && (total + count <? rb)) eqn:Eg; [| apply Hfin; lia]. apply andb_true_iff in Eg as [Er El].
    destruct (ready_head_cons _ _ _ _ _ _ H1 Eh) as [rq' ->].
    eapply ensures_mono; [eapply (dispatch_world thread i (rb - (total + count)) 0 (FromShutdown rb (total + count)) rq' rt) |].
    + by apply idle_observe.
    + pose proof (observe_keeps w) as ([=] & _ & _). congruence.
    + lia.
    + simpl. lia.
    + intros w' (K1 & root & K2). split; [done |]. unfold run_post. rewrite K2. split; [done |]. by eexists.
Qed.

Lemma run_loop_ok thread budget count caller rq rt w :
  idle thread rq rt w → running_ (sched w) = true → 0 ≤ count ≤ Z.max 0 budget → caller_ok caller budget →
  ensures (run_loop thread budget count caller w) (λ w', world_ok w' ∧ run_post thread budget caller w').
Proof.
  intros H Hr Hc Hca. pose proof H as [H1 H2 H3 H4 H5]. unfold run_loop. destruct (ready_head_ (sched w)) as [i |] eqn:Eh; [| by eapply run_return_ok].
  destruct (count <? budget) eqn:E; [| eapply run_return_ok; [done | lia | done | lia]].
  destruct (ready_head_cons _ _ _ _ _ _ H1 Eh) as [rq' ->].
  eapply ensures_mono; [eapply dispatch_world; [done | done | lia | done] |].
  intros w' (K1 & root & K2). split; [done |]. unfold run_post. rewrite K2. destruct caller; [done |]. split; [done | by eexists].
Qed.

Lemma suspended_ok thread i budget count caller rq rt w :
  state [] rq rt None w → running_ (sched w) = true → owner_thread_ (sched w) = Some thread → 0 ≤ count < budget → caller_ok caller budget →
  (shutdown_pending_ (sched w) = true → cancel_pending_ (sched w) = true) →
  ensures (suspended thread i (bool_decide (i ∈ rt)) budget count caller w) (λ w', world_ok w' ∧ run_post thread budget caller w').
Proof.
  intros H Hr Ho Hc Hca Hsp. unfold suspended. set (w0 := set_sched _ w).
  assert (state [] rq rt None w0) as H0 by (by eapply state_same; eauto).
  eapply (ensures_bind _ _ (λ w1, (∃ rt', state [] rq rt' None w1) ∧ keeps w0 w1)).
  - case_bool_decide as Hi; [| by apply ensures_val; eauto]. destruct (links_live _ _ _ _ i (st_links _ _ _ _ _ H)) as [f Hf]; [by right |].
    rewrite (deref_eq i w0 f) by done. cbn [mbind outcome_bind]. destruct (done f) eqn:Hd; [| by apply ensures_val; eauto].
    apply list_elem_of_split in Hi as (l1 & l2 & ->). eapply ensures_mono; [eapply (finish_root_ok rq l1 l2 i f); [done | done |] |].
    + unfold done in Hd. by destruct (point f).
    + intros w' [K1 K2]. split; [by eexists | done].
  - intros w1 ([rt' H1] & ([=] & _ & _)). simpl in *. destruct (cancel_pending_ (sched w1)) eqn:Hcan.
    + eapply ensures_bind; [eapply cancel_ok; eapply state_same; eauto |]. intros w2 [K1 ([=] & _ & _)]. simpl in *.
      assert (idle thread [] [] (if shutdown_pending_ (sched w1) then deactivate w2 else w2)) as Hidle.
      { destruct (shutdown_pending_ (sched w1)); split; try done; try congruence. by apply (deactivate_state [] []). }
      eapply run_return_ok; [exact Hidle | lia | done |]. intros _. pose proof (id_state _ _ _ _ Hidle) as K. 
      by rewrite (lk_head _ _ _ _ (st_links _ _ _ _ _ K)).
    + apply run_loop_ok with rq rt'; [| congruence | lia | done]. split; [done | congruence | done | | congruence].
      destruct (shutdown_pending_ (sched w1)) eqn:E; [| done]. assert (cancel_pending_ (sched w) = true) by (apply Hsp; congruence). congruence.
Qed.

(** ** [spawn] *)
Lemma spawn_mem fl c rq rt mt nf exec i g g' :
  mem_ok (B := B) (i :: fl) c rq rt mt nf exec → queue_ok c rq rt → c !! i = Some g → key g' = key g → scheduler_ (promise g') = Some this →
  mem_ok fl (<[i := g']> c) (rq ++ [i]) (i :: rt) mt nf exec ∧ queue_ok (<[i := g']> c) (rq ++ [i]) (i :: rt).
Proof.
  intros M Q Hi Hk Hs. pose proof Hk as [= Kp Kt Kc Kh].
  assert (mem_ok (i :: fl) (<[i := g']> c) rq rt mt nf exec) as M' by (eapply mem_key; [exact M | exact Hi | exact Hk | by right]).
  split; [eapply mem_spawn; [done | apply lookup_insert_eq | done] |].
  eapply queue_spawn; [by eapply queue_points | apply lookup_insert_eq |]. rewrite Kp.
  destruct (mo_floating _ _ _ _ _ _ _ M i) as (h & Hh & Hp & _); [by left |]. congruence.
Qed.

Lemma spawned_books rq w w1 c : books rq w → history w1 = history w → invariant_failures_ (sched w1) = invariant_failures_ (sched w) → c ∉ rq →
  ∀ s m, rest s = rest (sched w1) → books (rq ++ [c]) (log (EvScheduled c) (set_sched s (set_frames m w1))).
Proof.
  intros [H1 H2] E1 E2 Hc s m R. split; simpl.
  - rewrite replay_app, E1, H1. simpl. by rewrite decide_False.
  - rewrite nested_app, Z.add_0_r, E1. pose proof (f_equal invariant_failures_ R) as X. simpl in X. congruence.
Qed.

Lemma observe_rest w : main_tasks (observe_external_stop w) = main_tasks w ∧ next_frame (observe_external_stop w) = next_frame w ∧
  history (observe_external_stop w) = history w ∧ invariant_failures_ (sched (observe_external_stop w)) = invariant_failures_ (sched w).
Proof. unfold observe_external_stop. by case_match. Qed.

(** The task in hand, or in a variable, as [spawn] finds it. *)
Lemma unstarted_spawn fl rq rt exec w c :
  state fl rq rt exec w → unstarted (core (frames w)) rq rt c →
  ∃ f, frames w !! c = Some f ∧ handle_ (promise f) = true ∧ point f = Initial ∧
    (scheduler_ (promise f) = None ∨ scheduler_ (promise f) = Some this) ∧ c ∉ rq ∧ c ∉ rt.
Proof.
  intros H (g & Hg & Hp & Hq & Hr & _). apply core_inv in Hg as (f & Hf & ->). exists f. pose proof (state_frame _ _ _ _ _ _ _ H Hf) as Ff.
  split_and!; try done; [apply (fo_handle _ _ _ _ _ Ff) | apply (fo_sched _ _ _ _ _ Ff)].
Qed.

Lemma body_spawn_ok thread rq rt i x w f :
  state [] rq rt (Some i) w → frames w !! i = Some f →
  ensures ('(r, taken, w) ← spawn thread (tasks f !! x) w;
           w ← (if (taken : bool) then update i (λ f, with_tasks (delete x (tasks f)) f) w else Val w);
           proceed i (SpawnAnswer r) w)
    (λ w', ∃ rq' rt', state [] rq' rt' (Some i) w' ∧ keeps w w' ∧ (i ∈ rt' ↔ i ∈ rt)).
Proof.
  intros H Hi. pose proof (state_frame _ _ _ _ _ _ _ H Hi) as Fi. pose proof (core_Some _ _ _ Hi) as Hci.
  assert (∀ a w', state [] rq rt (Some i) w' → keeps w w' → is_Some (frames w' !! i) →
    ensures (proceed i a w') (λ w', ∃ rq' rt', state [] rq' rt' (Some i) w' ∧ keeps w w' ∧ (i ∈ rt' ↔ i ∈ rt))) as Hstay.
  { intros a w' H' K' Hs. eapply ensures_mono; [by apply proceed_state |]. intros w2 [H2 K2]. exists rq, rt. split_and!; try done. by eapply keeps_trans. }
  destruct (tasks f !! x) as [c |] eqn:Hx.
  2: { cbn [spawn mbind outcome_bind]. apply Hstay; [done | done | by eexists]. }
  destruct (fo_tasks _ _ _ _ _ Fi _ _ Hx) as [Hic Hun]. destruct (unstarted_spawn _ _ _ _ _ _ H Hun) as (g & Hg & Gh & Gp & Gs & Gq & Gr).
  destruct (spawn_cases thread c w g rq rt) as (r & taken & w' & -> & Hcase); [apply H | done.. |]. cbn [mbind outcome_bind].
  destruct taken.
  2: { destruct Hcase as (_ & [-> | ->]); cbn [mbind outcome_bind].
       - apply Hstay; [done | done | by eexists].
       - apply Hstay; [by apply observe_state | done | rewrite observe_frames; by eexists]. }
  destruct Hcase as (_ & Hr & Ho & _ & m & s & -> & R & C & L). set (w1 := observe_external_stop w) in *. set (w2 := log _ _).
  set (g' := with_promise _ g) in *. destruct (observe_rest w) as (E1 & E2 & E3 & E4). fold w1 in E1, E2, E3, E4.
  assert (core m !! i = Some (erase f)) as Hmi by (rewrite C, lookup_insert_ne by lia; done). apply core_inv in Hmi as (fi & Hmi & Efi).
  assert (tasks fi = tasks f) as Eti by (by apply (f_equal tasks) in Efi).
  rewrite (update_eq i _ w2 fi) by done. cbn [mbind outcome_bind]. set (w3 := set_frames _ w2).
  assert (core (frames w3) = <[c := erase g']> (<[i := erase (with_tasks (delete x (tasks f)) f)]> (core (frames w)))) as Ec.
  { simpl. rewrite core_insert, C, insert_insert_ne by lia. do 2 f_equal. rewrite Eti. 
    change (with_tasks (delete x (tasks f)) (erase fi) = with_tasks (delete x (tasks f)) (erase f)). by rewrite Efi. }
  pose proof (st_mem _ _ _ _ _ H) as M. pose proof (proj2 (mo_exec _ _ _ _ _ _ _ M _ _ Hci) eq_refl) as Pi. simpl in Pi.
  assert (mem_ok [c] (<[i := erase (with_tasks (delete x (tasks f)) f)]> (core (frames w))) rq rt (main_tasks w) (next_frame w) (Some i)) as M1.
  { eapply (mem_tasks [] [c] _ _ _ _ _ _ i (erase f) (delete x (tasks f))); [done | done | simpl; congruence | simpl; congruence | | |].
    - simpl. by rewrite <- (task_list_delete _ _ _ Hx).
    - by intros j ->%list_elem_of_singleton.
    - intros y j. rewrite lookup_delete. case_decide; [done |]. apply (fo_tasks _ _ _ _ _ Fi). }
  assert (queue_ok (<[i := erase (with_tasks (delete x (tasks f)) f)]> (core (frames w))) rq rt) as Q1 by (eapply queue_points; [apply H | done..]).
  destruct (spawn_mem [] _ rq rt _ _ _ c (erase g) (erase g') M1 Q1) as [M3 Q3]; [rewrite lookup_insert_ne by lia; by apply core_Some | done | done |].
  assert (state [] (rq ++ [c]) (c :: rt) (Some i) w3) as H3.
  { destruct (spawned_books rq w w1 c (state_books _ _ _ _ _ H) E3 E4 Gq s m R) as [B1 B2]. split; try done.
    - simpl. apply (links_update _ _ _ _ i fi (λ f, with_tasks (delete x (tasks f)) f)); [done | done | by intros ?].
    - rewrite Ec. unfold w3, w2. simpl. by rewrite E1, E2.
    - by rewrite Ec.
    - intros Hs. pose proof (f_equal running_ R) as X. simpl in X, Hs. pose proof (observe_keeps w) as (Km & _ & _). fold w1 in Km. injection Km as X1 _ _ _ _. congruence. }
  eapply ensures_mono; [apply proceed_state; [exact H3 |] |].
  - simpl. rewrite lookup_insert_eq. by eexists.
  - intros w4 [H4 K4]. exists (rq ++ [c]), (c :: rt). split_and!; [done | |].
    + eapply keeps_trans; [| exact K4]. eapply keeps_trans; [apply observe_keeps |]. fold w1. by apply (keeps_rest w1 s).
    + rewrite elem_of_cons. split; [intros [-> | ?]; [lia | done] | auto].
Qed.

Lemma main_spawn_ok thread rq rt x w :
  state [] rq rt None w →
  ensures ('(r, taken, w) ← spawn thread (main_tasks w !! x) w;
           Val (set_reply (SpawnAnswer r) (if (taken : bool) then set_main (delete x (main_tasks w)) w else w)))
    (λ w', ∃ rq' rt', state [] rq' rt' None w' ∧ mode (sched w') = mode (sched w) ∧ control w' = control w).
Proof.
  intros H. pose proof (st_mem _ _ _ _ _ H) as M.
  assert (∀ a w', state [] rq rt None w' → keeps w w' →
    ensures (Val (set_reply a w')) (λ w', ∃ rq' rt', state [] rq' rt' None w' ∧ mode (sched w') = mode (sched w) ∧ control w' = control w)) as Hstay.
  { intros a w' H' (K1 & K2 & _). apply ensures_val. exists rq, rt. split; [by eapply state_same; eauto | done]. }
  destruct (main_tasks w !! x) as [c |] eqn:Hx; [| by apply Hstay].
  pose proof (mo_main _ _ _ _ _ _ _ M _ _ Hx) as Hun. destruct (unstarted_spawn _ _ _ _ _ _ H Hun) as (g & Hg & Gh & Gp & Gs & Gq & Gr).
  destruct (spawn_cases thread c w g rq rt) as (r & taken & w' & -> & Hcase); [apply H | done.. |]. cbn [mbind outcome_bind].
  destruct taken; [| destruct Hcase as (_ & [-> | ->]); apply Hstay; by auto using observe_state].
  destruct Hcase as (_ & Hr & Ho & _ & m & s & -> & R & C & L). set (w1 := observe_external_stop w) in *. set (w2 := log _ _).
  destruct (observe_rest w) as (E1 & E2 & E3 & E4). fold w1 in E1, E2, E3, E4. pose proof (observe_keeps w) as (Km & Kc & _). fold w1 in Km, Kc.
  apply ensures_val. exists (rq ++ [c]), (c :: rt). destruct (spawned_books rq w w1 c (state_books _ _ _ _ _ H) E3 E4 Gq s m R) as [B1 B2].
  pose proof (take_main _ _ _ _ _ _ _ _ _ M Hx) as M1.
  set (g' := with_promise _ g) in *.
  destruct (spawn_mem [] _ rq rt _ _ _ c (erase g) (erase g') M1 (st_queue _ _ _ _ _ H)) as [M3 Q3]; [by apply core_Some | done | done |].
  rewrite <- C in M3, Q3. pose proof (f_equal running_ R) as X. simpl in X. pose proof Km as Km'. injection Km' as X1 _ _ _ _. split_and!.
  - split; simpl; try done; [by rewrite E1, E2 | congruence].
  - pose proof (keeps_rest w1 s m R) as (Y & _ & _). simpl in Y. simpl. by rewrite Y.
  - simpl. by rewrite Kc.
Qed.

(** ** Calls on the scheduler *)
Lemma reply_state fl rq rt exec a w : state fl rq rt exec w → state fl rq rt exec (set_reply a w).
Proof. intros H. by eapply state_same; eauto. Qed.

Lemma close_ok thread fl rq rt exec w :
  state fl rq rt exec w → state fl rq rt exec (close thread w).2 ∧ keeps w (close thread w).2 ∧ frames (close thread w).2 = frames w.
Proof. intros H. unfold close. case_match; [done |]. split; [by eapply state_same; eauto | done]. Qed.

Lemma stop_all_ok thread fl rq rt exec w w' :
  state fl rq rt exec w → stop_all thread w = Some w' →
  state fl rq rt exec w' ∧ keeps w w' ∧ frames w' = frames w ∧ (running_ (sched w) = true → owner_thread_ (sched w) = Some thread).
Proof.
  intros H. unfold stop_all, on_owner_thread. destruct (running_ (sched w)) eqn:Hr; cbn [andb negb].
  - case_bool_decide as Ho; [| done]. intros [= <-]. split_and!; try done. by eapply state_same; eauto.
  - intros [= <-]. split_and!; try done. by eapply state_same; eauto.
Qed.

(** While a task executes, the calls only note what is to be done. *)
Definition noted w w' : Prop :=
  running_ (sched w') = running_ (sched w) ∧ owner_thread_ (sched w') = owner_thread_ (sched w) ∧
  dispatching_ (sched w') = dispatching_ (sched w) ∧ control w' = control w ∧ main_tasks w' = main_tasks w ∧
  ((shutdown_pending_ (sched w) = true → cancel_pending_ (sched w) = true) →
   shutdown_pending_ (sched w') = true → cancel_pending_ (sched w') = true).

Lemma keeps_noted w w' : keeps w w' → noted w w'.
Proof.
  intros ([=] & ? & ?). unfold noted. split_and!; try congruence. intros Hs ?.
  assert (cancel_pending_ (sched w) = true) by (apply Hs; congruence). congruence.
Qed.

Lemma noted_trans w1 w2 w3 : noted w1 w2 → noted w2 w3 → noted w1 w3.
Proof. unfold noted. intros (-> & -> & -> & -> & -> & H1) (-> & -> & -> & -> & -> & H2). split_and!; auto. Qed.

Lemma shutdown_noted thread n fl rq rt exec w :
  state fl rq rt exec w → dispatching_ (sched w) = true → ensures (shutdown thread n w) (λ w', state fl rq rt exec w' ∧ noted w w' ∧ frames w' = frames w).
Proof.
  intros H Hd. unfold shutdown. destruct (stop_all thread w) as [w1 |] eqn:E; [| apply ensures_val; split_and!; by auto using reply_state, keeps_noted].
  destruct (stop_all_ok _ _ _ _ _ _ _ H E) as (H1 & ([=] & ? & ?) & ? & _). replace (dispatching_ (sched w1)) with true by congruence.
  apply ensures_val. split; [apply reply_state; by eapply state_same; eauto |]. split; [| done]. unfold noted. simpl. split_and!; congruence.
Qed.

Lemma cancel_noted thread fl rq rt exec w :
  state fl rq rt exec w → dispatching_ (sched w) = true → ensures (cancel_all thread w) (λ w', state fl rq rt exec w' ∧ noted w w' ∧ frames w' = frames w).
Proof.
  intros H Hd. unfold cancel_all. destruct (stop_all thread w) as [w1 |] eqn:E; [| apply ensures_val; split_and!; by auto using reply_state, keeps_noted].
  destruct (stop_all_ok _ _ _ _ _ _ _ H E) as (H1 & ([=] & ? & ?) & ? & _). replace (dispatching_ (sched w1)) with true by congruence.
  apply ensures_val. split; [apply reply_state; by eapply state_same; eauto |]. split; [| done]. unfold noted. simpl. split_and!; congruence.
Qed.

Lemma nested_ok thread fl rq rt exec w :
  state fl rq rt exec w → dispatching_ (sched w) = true → running_ (sched w) = true → owner_thread_ (sched w) = Some thread →
  ensures (run_ready thread 1 w) (λ w', state fl rq rt exec w' ∧ noted w w' ∧ frames w' = frames w ∧ reply w' = RunAnswer (mkRunResult 0 (has_ready (sched w))) ∧
    history w' = history w ++ [EvNested]).
Proof.
  intros [H1 H2 H3 H4 H5 H6] Hd Hr Ho. unfold run_ready, on_owner_thread. rewrite Hr, Ho, bool_decide_true, Hd by done. cbn [negb andb orb].
  apply ensures_val. split_and!; try done. split; simpl; try done.
  - by eapply links_sched.
  - by rewrite replay_app, H4.
  - by rewrite nested_app, H5, wrap64_add_r.
Qed.

Lemma token_ok fl rq rt exec i w :
  state fl rq rt exec w → is_Some (frames w !! i) →
  ensures (promise_stop_token i w) (λ '(_, w'), state fl rq rt exec w' ∧ keeps w w' ∧ frames w' = frames w).
Proof.
  intros H [f Hf]. unfold promise_stop_token. rewrite (deref_eq _ _ _ Hf). cbn [mbind outcome_bind]. apply ensures_val.
  destruct (scheduler_ (promise f)); split_and!; try done; [by apply observe_state | apply observe_frames].
Qed.

Lemma new_frame_ok b void rq rt exec w :
  state [] rq rt exec w →
  let '(c, w') := new_frame b void w in
  state [c] rq rt exec w' ∧ keeps w w' ∧ c = next_frame w ∧ ∀ i f, frames w !! i = Some f → frames w' !! i = Some f ∧ (i < c)%nat.
Proof.
  intros [H1 H2 H3 H4 H5 H6]. destruct (mem_new _ _ _ _ _ _ _ b void H2) as [M Hn]. simpl.
  assert (frames w !! next_frame w = None) as Hn'.
  { destruct (frames w !! next_frame w) eqn:E; [| done]. apply core_Some in E. congruence. }
  split_and!; try done.
  - split; simpl; try done.
    + by apply links_new.
    + by rewrite core_insert.
    + rewrite core_insert. by eapply queue_new.
  - intros i f Hi. rewrite lookup_insert_ne by congruence. split; [done |]. eapply (mo_fresh _ _ _ _ _ _ _ H2). by apply core_Some.
Qed.

(** ** One request of the executing task *)
Variable behave : B → Answer → Request B * B.

Definition step_post w w' : Prop :=
  match control w with Dispatching thread _ _ budget _ caller => run_post thread budget caller w' | Outside => w' = w end.

Lemma stay_post w w' : control w ≠ Outside → control w' = control w → step_post w w'.
Proof.
  unfold step_post, run_post. intros Hc E. rewrite E. destruct (control w) as [| thread i root budget count caller]; [done |].
  destruct caller; [done |]. split; [done | by eexists].
Qed.

Lemma body_step_ok w : world_ok w → ensures (body_step behave w) (λ w', world_ok w' ∧ step_post w w').
Proof.
  intros (rq & rt & H & Hm). unfold body_step. destruct (control w) as [| thread i root budget count caller] eqn:Ec.
  { apply ensures_val. split; [| unfold step_post; by rewrite Ec]. exists rq, rt. by rewrite Ec. }
  unfold mode_ok in Hm. rewrite Ec in Hm. destruct Hm as (Hr & Ho & Hd & -> & Hcnt & Hca & Hsp). cbn [executing] in H.
  destruct (executing_frame _ _ _ _ _ H) as (f & Hi & Pf & Sf & Hq). rewrite (deref_eq _ _ _ Hi). cbn [mbind outcome_bind].
  destruct (behave (local f) (answer f)) as [request b]. rewrite (update_eq _ _ _ _ Hi). cbn [mbind outcome_bind]. set (w0 := set_frames _ w).
  set (f0 := with_local b f). assert (frames w0 !! i = Some f0) as Hi0 by apply lookup_insert_eq.
  assert (state [] rq rt (Some i) w0) as H0.
  { destruct (update_key [] rq rt (Some i) w i f (with_local b) H Hi) as (w0' & E & S & _ & _); auto. rewrite (update_eq _ _ _ _ Hi) in E.
    injection E as <-. exact S. }
  set (next := suspended thread i (bool_decide (i ∈ rt)) budget count caller).
  assert (∀ w' rq' rt', state [] rq' rt' (Some i) w' → noted w0 w' → (i ∈ rt' ↔ i ∈ rt) → world_ok w' ∧ step_post w w') as Hstay.
  { intros w' rq' rt' H' (K1 & K2 & K3 & K4 & _ & K6) Hrt. simpl in *.
    split; [| apply stay_post; [by rewrite Ec | done]]. exists rq', rt'. unfold mode_ok. rewrite K4, Ec. split; [done |].
    rewrite (bool_decide_ext (i ∈ rt') (i ∈ rt)) by done. split_and!; try done; try congruence; [lia.. | by apply K6]. }
  assert (∀ w' rq', state [] rq' rt None w' → keeps w0 w' → ensures (next w') (λ w', world_ok w' ∧ step_post w w')) as Hnext.
  { intros w' rq' H' ([=] & _ & _). simpl in *. eapply ensures_mono; [eapply suspended_ok; [done | congruence | congruence | done | done |] |].
    - intros ?. assert (cancel_pending_ (sched w) = true) by (apply Hsp; congruence). congruence.
    - intros w2 [K1 K2]. split; [done |]. unfold step_post. by rewrite Ec. }
  assert (∀ a w' rq', state [] rq' rt (Some i) w' → noted w0 w' → frames w' !! i = Some f0 →
    ensures (proceed i a w') (λ w', world_ok w' ∧ step_post w w')) as Hproceed.
  { intros a w' rq' H' K' Ef. eapply ensures_mono; [apply proceed_state; [exact H' | by eexists] |]. intros w2 [H2 K2].
    eapply Hstay; [exact H2 | | done]. eapply noted_trans; [exact K' | by apply keeps_noted]. }
  destruct request as [x b' void | x y | x | x | x | | | | | j | | | | | v | e].
  - pose proof (new_frame_ok b' void rq rt _ w0 H0) as Hn. destruct (new_frame b' void w0) as [c w1]. destruct Hn as (H1 & K1 & _ & Hfr).
    eapply ensures_mono; [eapply (change_tasks_ok [c] rq rt w1 i f0); [exact H1 | by apply Hfr | apply rearranges_new |] |].
    + intros j ->%list_elem_of_singleton. by apply (Hfr i f0).
    + intros w2 [H2 K2]. eapply Hstay; [exact H2 | | done]. by eapply keeps_noted, keeps_trans.
  - eapply ensures_mono; [eapply (change_tasks_ok [] rq rt w0 i f0); [done | done | apply rearranges_move | set_solver] |].
    intros w2 [H2 K2]. eapply Hstay; [exact H2 | by apply keeps_noted | done].
  - eapply ensures_mono; [eapply (change_tasks_ok [] rq rt w0 i f0); [done | done | apply rearranges_reset | set_solver] |].
    intros w2 [H2 K2]. eapply Hstay; [exact H2 | by apply keeps_noted | done].
  - eapply ensures_mono; [exact (body_spawn_ok thread rq rt i x w0 f0 H0 Hi0) |].
    intros w2 (rq' & rt' & H2 & K2 & Hrt). eapply Hstay; [exact H2 | by apply keeps_noted | done].
  - eapply await_ok; [exact H0 | done | done | |].
    + intros w' H' K'. eapply Hstay; [exact H' | by apply keeps_noted | done].
    + intros c w' H' K'. by eapply Hnext.
  - eapply yield_ok; [exact H0 | done | done |]. intros w' H' K'. by eapply Hnext.
  - unfold get_stop_token. rewrite (deref_eq _ _ _ Hi0). cbn [mbind outcome_bind]. eapply ensures_bind; [eapply token_ok; [exact H0 | by eexists] |]. intros [token w1] (H1 & K1 & E1).
    eapply Hproceed; [exact H1 | by apply keeps_noted | by rewrite E1].
  - unfold cancellation_point. rewrite (deref_eq _ _ _ Hi0). cbn [mbind outcome_bind]. eapply ensures_bind; [eapply token_ok; [exact H0 | by eexists] |]. intros [token w1] (H1 & K1 & E1).
    eapply Hproceed; [exact H1 | by apply keeps_noted | by rewrite E1].
  - eapply ensures_bind; [by eapply park_ok |]. intros w1 [H1 K1]. by eapply Hnext.
  - eapply ensures_bind; [by eapply wake_ok |]. intros [a w1] (K1 & rq' & H1).
    eapply ensures_mono; [eapply proceed_state; [exact H1 |] |].
    + destruct (executing_frame _ _ _ _ _ H1) as (f1 & -> & _). by eexists.
    + intros w2 [H2 K2]. eapply Hstay; [exact H2 | | done]. by eapply keeps_noted, keeps_trans.
  - destruct (close_ok thread _ _ _ _ _ H0) as (H1 & K1 & E1). destruct (close thread w0) as [a w1]. simpl in *.
    eapply Hproceed; [exact H1 | by apply keeps_noted | by rewrite E1].
  - eapply ensures_bind; [by eapply shutdown_noted |]. intros w1 (H1 & K1 & E1). eapply Hproceed; [exact H1 | done | by rewrite E1].
  - eapply ensures_bind; [by eapply cancel_noted |]. intros w1 (H1 & K1 & E1). eapply Hproceed; [exact H1 | done | by rewrite E1].
  - eapply ensures_bind; [by eapply nested_ok |]. intros w1 (H1 & K1 & E1 & _). eapply Hproceed; [exact H1 | done | by rewrite E1].
  - eapply ensures_bind; [eapply finish_body_ok; [exact H0 | done | done | |] |].
    + intros g. by destruct (void_ g).
    + intros g. by destruct (void_ g).
    + intros w1 (rq' & H1 & K1). by eapply Hnext.
  - eapply ensures_bind; [eapply finish_body_ok; [exact H0 | done | done | by intros g | by intros g] |].
    intros w1 (rq' & H1 & K1). by eapply Hnext.
Qed.

(** ** Actions *)
Lemma outside_ok rq rt w w' :
  state [] rq rt None w' → control w' = Outside → mode (sched w') = mode (sched w) →
  dispatching_ (sched w) = false ∧ cancel_pending_ (sched w) = false ∧ shutdown_pending_ (sched w) = false → world_ok w'.
Proof. intros H Hc [=] ?. exists rq, rt. unfold mode_ok. rewrite Hc. split; [done | split_and!; intuition congruence]. Qed.

Lemma start_ok thread stopped rq rt w :
  state [] rq rt None w → state [] rq rt None (start thread stopped w).2 ∧ control (start thread stopped w).2 = control w ∧
    dispatching_ (sched (start thread stopped w).2) = dispatching_ (sched w) ∧
    cancel_pending_ (sched (start thread stopped w).2) = cancel_pending_ (sched w) ∧
    shutdown_pending_ (sched (start thread stopped w).2) = shutdown_pending_ (sched w).
Proof.
  intros H. unfold start. case_match; [done |]. cbn zeta. simpl.
  match goal with |- state _ _ _ _ (set_sched _ (observe_external_stop ?W)) ∧ _ => set (w1 := W) end.
  assert (state [] rq rt None w1) as H1 by (eapply state_same; eauto; done).
  pose proof (observe_state _ _ _ _ _ H1) as H2. pose proof (observe_keeps w1) as ([=] & Kc & _). simpl in *.
  split_and!; try congruence. eapply state_same; eauto.
Qed.

Lemma destroy_scheduler_ok rq rt w :
  state [] rq rt None w → control w = Outside →
  ensures (destroy_scheduler w) (λ w', world_ok w' ∧ state [] [] [] None w' ∧ control w' = Outside ∧ running_ (sched w') = false).
Proof.
  intros H Ec. unfold destroy_scheduler. eapply ensures_bind; [eapply (cancel_ok rq rt); eapply state_same; eauto |].
  intros w1 [H1 (_ & K2 & _)]. simpl in K2. apply ensures_val. pose proof (deactivate_state [] [] _ _ H1) as H2.
  split_and!; [| done | simpl; congruence | done]. exists [], []. unfold mode_ok. simpl. rewrite K2, Ec. done.
Qed.

Lemma main_shutdown_ok thread n rq rt w :
  state [] rq rt None w → control w = Outside →
  dispatching_ (sched w) = false ∧ cancel_pending_ (sched w) = false ∧ shutdown_pending_ (sched w) = false →
  ensures (shutdown thread n w) (λ w', world_ok w' ∧
    ((running_ (sched w) = true → owner_thread_ (sched w) = Some thread) → run_post thread n (FromShutdown n 0) w')).
Proof.
  intros H Ec Hm. pose proof Hm as (Hd & Hcan & Hsh). unfold shutdown. destruct (stop_all thread w) as [w1 |] eqn:E.
  2: { apply ensures_val. split; [eapply (outside_ok _ _ w); [by apply reply_state | exact Ec | done | exact Hm] |]. intros Ho. exfalso.
       unfold stop_all, on_owner_thread in E. destruct (running_ (sched w)); [| done]. rewrite Ho, bool_decide_true in E by done. done. }
  destruct (stop_all_ok _ _ _ _ _ _ _ H E) as (H1 & (K1 & K2 & _) & _ & Ho). pose proof K1 as [=].
  replace (dispatching_ (sched w1)) with false by congruence.
  assert (idle thread rq rt w1) as Hid by (split; [done | congruence | congruence | congruence | intros ?; transitivity (owner_thread_ (sched w)); [congruence | apply Ho; congruence]]).
  assert (ensures (finish_shutdown 0 w1) (λ w', world_ok w' ∧ run_post thread n (FromShutdown n 0) w')) as Hfin.
  { eapply ensures_mono; [by eapply finish_shutdown_ok |]. intros w' (F1 & F2 & F3 & F4). split; [done |]. unfold run_post. rewrite F2.
    split; [done |]. exists 0. split; [done | lia]. }
  assert (ensures (match ready_head_ (sched w1) with
    | Some task => if running_ (sched w1) && (0 <? n) then dispatch thread task n 0 (FromShutdown n 0) (observe_external_stop w1) else finish_shutdown 0 w1
    | None => finish_shutdown 0 w1 end) (λ w', world_ok w' ∧ run_post thread n (FromShutdown n 0) w')) as Hgo.
  { destruct (ready_head_ (sched w1)) as [i |] eqn:Eh; [| done]. destruct (running_ (sched w1) && (0 <? n)) eqn:Eg; [| done].
    apply andb_true_iff in Eg as [Er En]. destruct (ready_head_cons _ _ _ _ _ _ H1 Eh) as [rq' ->].
    eapply ensures_mono; [eapply (dispatch_world thread i n 0 (FromShutdown n 0) rq' rt); [by apply idle_observe | | lia | simpl; lia] |].
    - pose proof (observe_keeps w1) as ([=] & _ & _). congruence.
    - intros w' (F1 & root & F2). split; [done |]. unfold run_post. rewrite F2. split; [done | by eexists]. }
  eapply ensures_mono; [exact Hgo |]. by intros w' [? ?].
Qed.

Lemma main_act_ok a w : world_ok w → control w = Outside → ensures (main_act a w) (λ w', world_ok w').
Proof.
  intros (rq & rt & H & Hm) Ec. unfold mode_ok in Hm. rewrite Ec in H, Hm. cbn [executing] in H. pose proof Hm as (Hd & Hcan & Hsh).
  destruct a as [thread stopped | x b void | x y | x | thread x | thread j | thread budget | thread | thread n | thread | | |]; cbn [main_act].
  - destruct (start_ok thread stopped _ _ _ H) as (H1 & E1 & E2 & E3 & E4). destruct (start thread stopped w) as [r w1]. simpl in *.
    apply ensures_val. exists rq, rt. unfold mode_ok. simpl. rewrite E1, Ec. split; [by apply reply_state | split_and!; congruence].
  - pose proof (new_frame_ok b void rq rt _ w H) as Hn. destruct (new_frame b void w) as [c w1]. destruct Hn as (H1 & (K1 & K2 & _) & _).
    eapply ensures_mono; [eapply (main_change_ok [c]); [exact H1 | apply rearranges_new] |]. intros w2 (H2 & E1 & E2).
    eapply outside_ok; [exact H2 | congruence | | exact Hm]. congruence.
  - eapply ensures_mono; [eapply (main_change_ok []); [exact H | apply rearranges_move] |]. intros w2 (H2 & E1 & E2).
    eapply outside_ok; [exact H2 | congruence | exact E1 | exact Hm].
  - eapply ensures_mono; [eapply (main_change_ok []); [exact H | apply rearranges_reset] |]. intros w2 (H2 & E1 & E2).
    eapply outside_ok; [exact H2 | congruence | exact E1 | exact Hm].
  - eapply ensures_mono; [by eapply main_spawn_ok |]. intros w2 (rq' & rt' & H2 & E1 & E2).
    eapply outside_ok; [exact H2 | congruence | exact E1 | exact Hm].
  - eapply ensures_bind; [by eapply wake_ok |]. intros [r w1] ((K1 & K2 & _) & rq' & H1). apply ensures_val.
    eapply (outside_ok _ _ w); [by apply reply_state | simpl; congruence | exact K1 | exact Hm].
  - unfold run_ready. destruct (running_ (sched w)) eqn:Hr; cbn [negb orb].
    2: { apply ensures_val. eapply (outside_ok _ _ w); [by apply reply_state | exact Ec | done | exact Hm]. }
    unfold on_owner_thread. rewrite Hr. case_bool_decide as Ho; cbn [negb andb].
    2: { apply ensures_val. eapply (outside_ok _ _ w); [by apply reply_state | exact Ec | done | exact Hm]. }
    rewrite Hd. assert (idle thread rq rt w) as Hid by (by split).
    eapply ensures_mono; [eapply (run_loop_ok thread budget 0 Direct rq rt); [by apply idle_observe | | lia | done] | by intros w' [? _]].
    pose proof (observe_keeps w) as ([=] & _ & _). congruence.
  - destruct (close_ok thread _ _ _ _ _ H) as (H1 & (K1 & K2 & _) & _). destruct (close thread w) as [r w1]. simpl in *. apply ensures_val.
    eapply (outside_ok _ _ w); [by apply reply_state | simpl; congruence | exact K1 | exact Hm].
  - eapply ensures_mono; [by eapply main_shutdown_ok | by intros w' [? _]].
  - unfold cancel_all. destruct (stop_all thread w) as [w1 |] eqn:E.
    2: { apply ensures_val. eapply (outside_ok _ _ w); [by apply reply_state | exact Ec | done | exact Hm]. }
    destruct (stop_all_ok _ _ _ _ _ _ _ H E) as (H1 & (K1 & K2 & _) & _). pose proof K1 as [=]. replace (dispatching_ (sched w1)) with false by congruence.
    eapply ensures_bind; [by eapply cancel_ok |]. intros w2 [F2 (E1 & E2 & _)]. apply ensures_val.
    eapply (outside_ok _ _ w); [apply reply_state; exact F2 | simpl; congruence | simpl; congruence | exact Hm].
  - eapply ensures_mono; [by eapply destroy_scheduler_ok | by intros w' [? _]].
  - apply ensures_val. exists rq, rt. rewrite Ec. split; [done |]. unfold mode_ok. by rewrite Ec.
  - apply ensures_val. exists rq, rt. rewrite Ec. split; [done |]. unfold mode_ok. by rewrite Ec.
Qed.

Lemma act_ok a w : world_ok w → ensures (act behave a w) world_ok.
Proof.
  intros H. unfold act. destruct a; try (destruct (control w) eqn:Ec; [by apply main_act_ok | by apply ensures_val]).
  - apply ensures_val. destruct H as (rq & rt & H & Hm). exists rq, rt. unfold external_stop. case_match; [| done].
    split; [by eapply state_same; eauto | done].
  - eapply ensures_mono; [by apply body_step_ok | by intros w' [? _]].
Qed.

Lemma run_actions_ok l w : world_ok w → ensures (run_actions behave l w) world_ok.
Proof.
  revert w. induction l as [| a l IH]; intros w H; cbn [run_actions]; [by apply ensures_val |].
  eapply ensures_bind; [by apply act_ok | apply IH].
Qed.

Lemma initial_world_ok : world_ok initial_world.
Proof.
  exists [], []. split; [| done]. split; try done.
  - split; try done; [constructor | by intros [] | constructor | by intros []].
  - split; try done; set_solver.
Qed.

End state.
