(* ===== verification/SchedulerClaims.v ===== *)
(** * What the scheduler promises

    For every behaviour of the coroutine bodies and every sequence of calls: no undefined
    behaviour, a first-in first-out queue, no lost task, results that are there when they
    are delivered, and a shutdown that leaves nothing behind. *)
From S2P Require Import Prelude Scheduler SchedulerLists SchedulerTasks SchedulerInvariant.
Import Sched.

Section observations.
Context {B : Type}.
Implicit Types w : World B.
Implicit Types f g : Frame B.

(** The lists of the code, followed through the promises. *)
Fixpoint walk (next : TaskPromiseBase → option nat) (m : gmap nat (Frame B)) (fuel : nat) (head : option nat) : option (list nat) :=
  match head with
  | None => Some []
  | Some i =>
      match fuel with
      | O => None
      | S fuel => f ← m !! i; l ← walk next m fuel (next (promise f)); Some (i :: l)
      end
  end.

Definition ready_queue w : option (list nat) := walk ready_next_ (frames w) (size (frames w)) (ready_head_ (sched w)).
Definition root_list w : option (list nat) := walk root_next_ (frames w) (size (frames w)) (root_head_ (sched w)).

Definition reachable (behave : B → Answer → Request B * B) w : Prop := ∃ l, run_actions behave l initial_world = Val w.

Lemma walk_list next (m : gmap nat (Frame B)) fuel l :
  (∀ l1 i l2, l = l1 ++ i :: l2 → ∃ f, m !! i = Some f ∧ next (promise f) = list.head l2) → (length l ≤ fuel)%nat →
  walk next m fuel (list.head l) = Some l.
Proof.
  revert fuel. induction l as [| i l IH]; intros fuel Hl Hf; [by destruct fuel |]. destruct fuel as [| fuel]; [simpl in Hf; lia |].
  destruct (Hl [] i l eq_refl) as (f & Hi & Hn). cbn [list.head walk]. rewrite Hi. cbn [mbind option_bind]. rewrite Hn, IH; [done | | simpl in Hf; lia].
  intros l1 j l2 ->. apply (Hl (i :: l1)). done.
Qed.

Lemma state_ready fl rq rt exec w : state fl rq rt exec w → ready_queue w = Some rq.
Proof.
  intros H. destruct (st_links _ _ _ _ _ H) as [L1 L2 L3 L4 L5 L6 L7 L8 L9 L10]. unfold ready_queue. rewrite L1. apply walk_list; [done |].
  apply length_le_size; [done |]. intros i Hi. eapply links_live; [apply H | by left].
Qed.

Lemma state_roots fl rq rt exec w : state fl rq rt exec w → root_list w = Some rt.
Proof.
  intros H. destruct (st_links _ _ _ _ _ H) as [L1 L2 L3 L4 L5 L6 L7 L8 L9 L10]. unfold root_list. rewrite L6. apply walk_list.
  - intros l1 i l2 E. destruct (L9 l1 i l2 E) as (f & Hf & Hn & _). by exists f.
  - apply length_le_size; [done |]. intros i Hi. eapply links_live; [apply H | by right].
Qed.

Lemma reachable_ok behave w : reachable behave w → world_ok w.
Proof. intros [l E]. destruct (run_actions_ok behave l _ initial_world_ok) as (w' & E' & H). congruence. Qed.

(** Nothing is left but tasks that were never started, in variables outside of coroutines. *)
Definition stopped w : Prop :=
  running_ (sched w) = false ∧ ready_head_ (sched w) = None ∧ root_head_ (sched w) = None ∧
  ∀ i f, frames w !! i = Some f → point f = Initial ∧ ∃ x, main_tasks w !! x = Some i.

Lemma not_running_stopped w : world_ok w → running_ (sched w) = false → stopped w.
Proof.
  intros (rq & rt & H & Hm) Hr. destruct (st_running _ _ _ _ _ H Hr) as [-> ->]. pose proof (st_links _ _ _ _ _ H) as [L1 _ _ _ _ L6 _ _ _ _].
  assert (executing (control w) = None) as E.
  { unfold mode_ok in Hm. destruct (control w); [done |]. destruct Hm as [? _]. congruence. }
  rewrite E in H. split_and!; try done. intros i f Hi. pose proof (core_Some _ _ _ Hi) as Hc. pose proof (st_mem _ _ _ _ _ H) as M.
  split; [| by eapply only_main]. destruct (only_main_unstarted _ _ _ i M) as (g & Hg & Hp & _); [by eexists |].
  assert (g = erase f) as -> by congruence. done.
Qed.

(** ** Claims *)

(** C7: Whatever the bodies and the callers do, no frame that is gone is touched and no
    executing frame is destroyed; every frame has one owner; and the failures that the
    scheduler counts are the nested calls of [run_ready], so the continuation of a task that
    ends is always scheduled. *)
Theorem scheduler_safe (behave : B → Answer → Request B * B) (l : list (Action (B := B))) :
  ∃ w r, run_actions behave l initial_world = Val w ∧ root_list w = Some r ∧
    r ++ task_list (main_tasks w) ++ frame_owned (frames w) ≡ₚ elements (dom (frames w)) ∧
    invariant_failures_ (sched w) = wrap64 (nested (history w)).
Proof.
  destruct (run_actions_ok behave l _ initial_world_ok) as (w & E & rq & rt & H & Hm). exists w, rt. split_and!; [done | by eapply state_roots | | apply H].
  pose proof (mo_owned _ _ _ _ _ _ _ (st_mem _ _ _ _ _ H)) as Ho. rewrite frame_owned_core in Ho. unfold core in Ho. by rewrite dom_fmap_L in Ho.
Qed.

(** C26: The ready queue is first-in first-out without duplicates: replaying the history gives
    the queue that is threaded through the promises; counts, tail and flags agree with it. *)
Theorem ready_queue_fifo (behave : B → Answer → Request B * B) w : reachable behave w →
  ∃ q r, ready_queue w = Some q ∧ replay (history w) [] = Some q ∧ root_list w = Some r ∧ NoDup q ∧ NoDup r ∧
    ready_tail_ (sched w) = list.last q ∧ ready_count_ (sched w) = wrap64 (Z.of_nat (length q)) ∧
    active_count_ (sched w) = wrap64 (Z.of_nat (length r)) ∧
    ∀ i f, frames w !! i = Some f → queued_ (promise f) = bool_decide (i ∈ q) ∧ root_ (promise f) = bool_decide (i ∈ r).
Proof.
  intros Hr. destruct (reachable_ok _ _ Hr) as (rq & rt & H & Hm). exists rq, rt. pose proof (st_links _ _ _ _ _ H) as [L1 L2 L3 L4 L5 L6 L7 L8 L9 L10].
  split_and!; try done; [by eapply state_ready | apply H | by eapply state_roots].
Qed.

(** C27: No task is lost: one that yielded, that was spawned or awaited and has not begun, or
    whose child is done, is in the queue; and one whose child is not done is not. *)
Theorem no_lost_task (behave : B → Answer → Request B * B) w i f : reachable behave w → frames w !! i = Some f →
  match point f with
  | Yielded => queued_ (promise f) = true
  | Initial => root_ (promise f) = true ∨ continuation_ (promise f) ≠ None → queued_ (promise f) = true
  | AwaitingChild a => ∃ j g, a = mkAwaiter (Some j) None ∧ frames w !! j = Some g ∧ continuation_ (promise g) = Some i ∧
      queued_ (promise f) = done g
  | Executing | Final => queued_ (promise f) = false
  | Parked => True
  end.
Proof.
  intros Hr Hi. destruct (reachable_ok _ _ Hr) as (rq & rt & H & _). pose proof (core_Some _ _ _ Hi) as Hc.
  destruct (lk_flags _ _ _ _ (st_links _ _ _ _ _ H) _ _ Hi) as [Eq Er]. rewrite Eq. pose proof (st_queue _ _ _ _ _ H) as [Q1 Q2 Q3 Q4].
  assert (∀ p, point f = p → p = Executing ∨ p = Final → bool_decide (i ∈ rq) = false) as Hno.
  { intros p E Hp. apply bool_decide_false. intros Hq. destruct (mo_queued _ _ _ _ _ _ _ (st_mem _ _ _ _ _ H) _ Hq) as (g & Hg & _ & P1 & P2).
    assert (g = erase f) as -> by congruence. simpl in P1, P2. destruct Hp; congruence. }
  destruct (point f) as [| a | | | |] eqn:Hp; try done; [| | | by eapply Hno; auto | by eapply Hno; auto].
  - intros [Hx | Hx]; apply bool_decide_true.
    + rewrite Er in Hx. apply bool_decide_eq_true in Hx. by eapply Q3.
    + destruct (continuation_ (promise f)) as [p |] eqn:E; [| done]. by eapply Q4.
  - pose proof (state_frame _ _ _ _ _ _ _ H Hi) as Ff. destruct (fo_child _ _ _ _ _ Ff _ Hp) as (j & g & -> & _ & Hj & Cg & _).
    pose proof Hj as Hj'. apply core_inv in Hj' as (g' & Hg' & ->). exists j, g'. split_and!; try done.
    pose proof (Q2 _ _ _ _ Hc Hp Hj) as Hiff. simpl in Hiff. unfold done. case_bool_decide as Hq.
    + apply Hiff in Hq. by rewrite Hq.
    + destruct (point g') eqn:E; try done. by destruct Hq; apply Hiff.
  - apply bool_decide_true. by eapply Q1.
Qed.

(** When [run_ready] comes to a task that awaits, the child is done: the parent gets the
    child's result or exception, and the child is gone. *)
Theorem await_delivers (behave : B → Answer → Request B * B) w thread budget i f a :
  reachable behave w → control w = Outside → running_ (sched w) = true → owner_thread_ (sched w) = Some thread → 0 < budget →
  ready_head_ (sched w) = Some i → frames w !! i = Some f → point f = AwaitingChild a →
  ∃ w' j g h, act behave (RunReady thread budget) w = Val w' ∧ a = mkAwaiter (Some j) None ∧ frames w !! j = Some g ∧ point g = Final ∧
    frames w' !! j = None ∧ frames w' !! i = Some h ∧ answer h = child_answer g ∧ executing (control w') = Some i.
Proof.
  intros Hr Ec Hrun Ho Hb Hh Hi Hp. destruct (reachable_ok _ _ Hr) as (rq & rt & H & Hm). unfold mode_ok in Hm. rewrite Ec in H, Hm.
  destruct (ready_head_cons _ _ _ _ _ _ H Hh) as [rq' ->]. destruct (fo_child _ _ _ _ _ (state_frame _ _ _ _ _ _ _ H Hi) _ Hp) as (j & g0 & -> & _).
  pose proof (observe_keeps w) as (Km & _ & _). pose proof (observe_state _ _ _ _ _ H) as H1. set (w1 := observe_external_stop w) in *.
  assert (frames w1 = frames w) as Ef by apply observe_frames.
  destruct (dispatch_ok thread i budget 0 Direct rq' rt w1 H1) as (w' & E & _ & _ & _ & Ec' & Hd).
  destruct (Hd f j) as (g & h & Hg & Pg & Hj & Hh' & Ha); [by rewrite Ef | done |]. exists w', j, g, h. rewrite Ec', <- Ef. split_and!; try done.
  cbn [act]. rewrite Ec. cbn [main_act]. unfold run_ready, on_owner_thread. rewrite Hrun, Ho, bool_decide_true by done. cbn [negb andb orb].
  destruct Hm as [-> _]. fold w1. unfold run_loop. replace (ready_head_ (sched w1)) with (Some i).
  - replace (0 <? budget) with true by lia. exact E.
  - rewrite (lk_head _ _ _ _ (st_links _ _ _ _ _ H1)). done.
Qed.

(** [run_ready] resumes at most [budget] tasks, returns whether tasks are ready, and stops
    early only when none is. *)
Theorem run_ready_budget (behave : B → Answer → Request B * B) w thread i root budget count :
  reachable behave w → control w = Dispatching thread i root budget count Direct →
  0 ≤ count < budget ∧ ∃ w', act behave Step w = Val w' ∧
    match control w' with
    | Outside => ∃ n, reply w' = RunAnswer (mkRunResult n (has_ready (sched w'))) ∧ 0 ≤ n ≤ budget ∧ (n < budget → has_ready (sched w') = false)
    | Dispatching thread' _ _ budget' _ caller => thread' = thread ∧ budget' = budget ∧ caller = Direct
    end.
Proof.
  intros Hr Ec. pose proof (reachable_ok _ _ Hr) as Hok. destruct (body_step_ok behave w Hok) as (w' & E & _ & Hs).
  destruct Hok as (rq & rt & H & Hm). unfold mode_ok in Hm. rewrite Ec in Hm. destruct Hm as (_ & _ & _ & _ & Hc & _). split; [done |].
  exists w'. split; [done |]. unfold step_post, run_post in Hs. rewrite Ec in Hs. destruct (control w'); [| done].
  destruct Hs as (n & ? & ? & ?). exists n. split_and!; try done; lia.
Qed.

(** What a call of [shutdown] comes to: it is still running tasks, or it has returned how
    many it resumed and nothing is left. *)
Definition shutdown_post (resume_budget : Z) w : Prop :=
  match control w with
  | Outside => stopped w ∧ ∃ n, reply w = SizeAnswer n ∧ 0 ≤ n ≤ Z.max 0 resume_budget
  | Dispatching _ _ _ _ _ caller => ∃ n, caller = FromShutdown resume_budget n
  end.

(** C28: [shutdown] on the owner thread, and every step of a task that it runs: within the
    budget, and when it returns the scheduler has stopped with no task left. *)
Theorem shutdown_stops (behave : B → Answer → Request B * B) w n : reachable behave w →
  (∀ thread, control w = Outside → (running_ (sched w) = true → owner_thread_ (sched w) = Some thread) →
    ∃ w', act behave (Shutdown thread n) w = Val w' ∧ shutdown_post n w') ∧
  (∀ thread i root budget count total, control w = Dispatching thread i root budget count (FromShutdown n total) →
    ∃ w', act behave Step w = Val w' ∧ shutdown_post n w').
Proof.
  intros Hr. pose proof (reachable_ok _ _ Hr) as Hok.
  assert (∀ thread budget total w', world_ok w' → run_post thread budget (FromShutdown n total) w' → shutdown_post n w') as Hpost.
  { intros thread budget total w' Hw Hp. unfold shutdown_post. unfold run_post in Hp. destruct (control w'); [| by destruct Hp].
    destruct Hp as [Hp Hn]. split; [by apply not_running_stopped | done]. }
  split.
  - intros thread Ec Ho. destruct Hok as (rq & rt & H & Hm). unfold mode_ok in Hm. rewrite Ec in H, Hm.
    destruct (main_shutdown_ok thread n rq rt w H Ec Hm) as (w' & E & Hw & Hp). exists w'. split; [cbn [act]; by rewrite Ec |]. eauto.
  - intros thread i root budget count total Ec. destruct (body_step_ok behave w Hok) as (w' & E & Hw & Hp). exists w'. split; [done |].
    unfold step_post in Hp. rewrite Ec in Hp. eauto.
Qed.

End observations.

(** ** A scenario: a root that awaits a child, which yields before it returns 7 *)
Definition sample (b : nat) (a : Answer) : Request nat * nat :=
  match b with
  | 0 => (NewTask 0 10 false, 1)
  | 1 => (AwaitTask 0, 2)
  | 2 => (match a with AwaitAnswer (Some v) => ReturnValue v | _ => ThrowException (Other 1) end, 3)
  | 10 => (Yield, 11)
  | 11 => (ReturnValue 7, 12)
  | _ => (Park, b)
  end%nat.

Definition after (l : list (Action (B := nat))) : World nat :=
  match run_actions sample l initial_world with Val w => w | _ => initial_world end.

Lemma after_reachable l : reachable sample (after l).
Proof. destruct (run_actions_ok sample l _ initial_world_ok) as (w & E & _). exists l. unfold after. by rewrite E. Qed.

Definition spawned : list (Action (B := nat)) := [Start 1 false; MainNew 0 0%nat true; MainSpawn 1 0; MainNew 0 0%nat true; MainSpawn 1 0].
Definition awaiting_child : list (Action (B := nat)) := [Start 1 false; MainNew 0 0%nat true; MainSpawn 1 0; RunReady 1 1; Step; Step].
Definition child_done : list (Action (B := nat)) := awaiting_child ++ [RunReady 1 1; Step; RunReady 1 1; Step].

Example root_finishes :
  let w := after (child_done ++ [RunReady 1 5; Step]) in
  stopped (after (child_done ++ [RunReady 1 5; Step; Shutdown 1 5])) ∧ reply w = RunAnswer (mkRunResult 1 false) ∧ size (frames w) = 0%nat.
Proof.
  split_and!; [| vm_compute; done | vm_compute; done]. apply not_running_stopped; [by eapply reachable_ok, after_reachable | vm_compute; done].
Qed.

Lemma ready_queue_fifo_witness : ∃ q r, ready_queue (after spawned) = Some q ∧ q = [0; 1]%nat ∧ root_list (after spawned) = Some r ∧ r = [1; 0]%nat.
Proof.
  destruct (ready_queue_fifo sample (after spawned) (after_reachable spawned)) as (q & r & Hq & _ & Hr & _).
  exists q, r. assert (ready_queue (after spawned) = Some [0; 1]%nat) as E1 by (vm_compute; reflexivity).
  assert (root_list (after spawned) = Some [1; 0]%nat) as E2 by (vm_compute; reflexivity). split_and!; congruence.
Defined.

(** The child of the root is not done: the root is not in the queue. *)
Lemma no_lost_task_witness : ∃ f, frames (after awaiting_child) !! 0%nat = Some f ∧ queued_ (promise f) = false ∧
  ∃ j g, frames (after awaiting_child) !! j = Some g ∧ queued_ (promise f) = done g.
Proof.
  destruct (frames (after awaiting_child) !! 0%nat) as [f |] eqn:E; [| vm_compute in E; discriminate E].
  pose proof (no_lost_task sample (after awaiting_child) 0 f (after_reachable _) E) as H.
  vm_compute in E. injection E as <-. destruct H as (j & g & _ & Hj & _ & Hq). eexists. split; [reflexivity |]. split; [reflexivity |].
  exists j, g. split; [exact Hj | exact Hq].
Defined.

Lemma await_delivers_witness : ∃ w' h, act sample (RunReady 1 5) (after child_done) = Val w' ∧ frames w' !! 0%nat = Some h ∧ answer h = AwaitAnswer (Some 7%nat).
Proof.
  destruct (frames (after child_done) !! 0%nat) as [f |] eqn:E; [| vm_compute in E; discriminate E].
  assert (point f = AwaitingChild (mkAwaiter (Some 1%nat) None)) as Hp by (vm_compute in E; by injection E as <-).
  destruct (await_delivers sample (after child_done) 1 5 0 f (mkAwaiter (Some 1%nat) None) (after_reachable _)) as (w' & j & g & h & Ha & Ej & Hg & _ & _ & Hh & Hans & _);
    [vm_compute; reflexivity | vm_compute; reflexivity | vm_compute; reflexivity | lia | vm_compute; reflexivity | exact E | exact Hp |].
  exists w', h. split; [exact Ha |]. split; [exact Hh |]. injection Ej as <-. vm_compute in Hg. injection Hg as <-. by rewrite Hans.
Defined.

Lemma run_ready_budget_witness : ∃ w', act sample Step (after (child_done ++ [RunReady 1 5])) = Val w' ∧ control w' = Outside.
Proof.
  destruct (run_ready_budget sample (after (child_done ++ [RunReady 1 5])) 1 0 true 5 0 (after_reachable _)) as (_ & w' & E & _); [vm_compute; reflexivity |].
  exists w'. split; [exact E |]. vm_compute in E. by injection E as <-.
Defined.

Lemma shutdown_stops_witness : ∃ w', act sample (Shutdown 1 0) (after awaiting_child) = Val w' ∧ stopped w'.
Proof.
  destruct (shutdown_stops sample (after awaiting_child) 0 (after_reachable _)) as [H _].
  destruct (H 1%nat) as (w' & E & Hp); [vm_compute; reflexivity | intros _; vm_compute; reflexivity |].
  exists w'. split; [exact E |]. unfold shutdown_post in Hp. assert (control w' = Outside) as Ec by (vm_compute in E; by injection E as <-).
  rewrite Ec in Hp. by destruct Hp.
Defined.
