(* ===== verification/WorkerLoop.v ===== *)
(** * The worker: from a client datagram to a response ([WorkerLoop.h], [WorkerLoop.cpp])

    The coroutine [process_datagram] runs in two parts, up to its [co_await] of the
    upstream query and from there; between them other tasks of the worker may change
    the shard, the snapshot and the counters, so the second part takes the worker as it
    then is.  System-call results, clock readings and stop tokens are arguments.
    [std::bad_alloc] is not modelled. *)
From S2P Require Import Prelude Wire DomainName DnsMessage DnsParser DnsWriter DnsQuery DnsCache CachePolicy.
From S2P Require Import CuckooFilter RadixTree DomainBlocklist UpstreamChannel.
From Stdlib Require Import Strings.Byte.

Module Worker.

Record UpstreamConfig := mkUpstreamConfig {
  address : list byte;
  port : Z;
  query_timeout : Z;
  id_reuse_guard : Z;
  transaction_id_capacity : Z;
}.

(** [inet_pton text]: [::inet_pton(AF_INET, text, ...) == 1]. *)
Definition is_valid_upstream_config (inet_pton : list byte → bool) (config : UpstreamConfig) : bool :=
  if is_empty (address config) || (port config =? 0) || (query_timeout config <=? 0) ||
     (id_reuse_guard config <? query_timeout config) || (transaction_id_capacity config =? 0) ||
     (Upstream.kTransactionIdSpace <? transaction_id_capacity config)
  then false
  else inet_pton (address config).

Inductive WorkerStat :=
  | received_datagrams | truncated_datagrams | parse_errors | unsupported_queries | accepted_queries
  | blocked_queries | cache_hits | cache_misses | cache_bypasses | cache_inserts | responses_sent
  | oversized_responses | send_errors | upstream_queries | upstream_responses | upstream_timeouts
  | upstream_cancellations | upstream_send_errors | upstream_socket_errors | upstream_overloaded
  | upstream_invalid_responses | upstream_unmatched_responses | internal_errors.

#[export] Instance worker_stat_eq_dec : EqDecision WorkerStat.
Proof. solve_decision. Defined.

Inductive DatagramOutcome := Dropped | Truncated | Malformed | Unsupported | Accepted | InternalError.

Record DatagramDecision := mkDecision {
  decision_outcome : DatagramOutcome;
  decision_response : list byte;
  request : option Message;
}.

Definition kDownstreamReceiveBufferSize : nat := kClassicDnsUdpPayloadLimit.
Definition kDownstreamResponseBudget : nat := kClassicDnsUdpPayloadLimit.
Definition kReceiveBudget : nat := 64.

(** The loop of [make_cache_hit_response] over the addresses. *)
Fixpoint answer_views (type : Z) (addresses : list IPAddress) : option (list (list byte)) :=
  match addresses with
  | [] => Some []
  | address :: addresses =>
      view ← (if (type =? record_type_value A) && is_v4 address then Some (take 4 (addr_bytes address))
              else if (type =? record_type_value AAAA) && is_v6 address then Some (addr_bytes address)
              else None);
      views ← answer_views type addresses;
      Some (view :: views)
  end.

Definition make_cache_hit_response (request : Message) (hit : CacheHit) (maximum_size : nat)
    : outcome WriteError (list byte) :=
  if negb (length (questions request) =? 1)%nat then write_failure WriteErrorCode.WrongQuestionCount
  else
    q ← from_option_ub (head (questions request));
    match answer_views (qtype q) (hit_addresses hit) with
    | None => write_failure WriteErrorCode.InvalidAddressLength
    | Some answers => make_address_response request answers (remaining_ttl hit) true maximum_size
    end.

Abbreviation total A := (outcome Empty_set A).

(** The value of a [WriteResult], or an empty vector. *)
Definition value_or_empty (r : outcome WriteError (list byte)) : total (list byte) :=
  match r with Val v => Val v | Err _ => Val [] | Undef => Undef end.

Definition evaluate_datagram (packet : list byte) (truncated : bool) : total DatagramDecision :=
  if truncated || (kDownstreamReceiveBufferSize <? length packet)%nat then
    response_prefix ← (if (length packet <? 3)%nat then Val true
                       else flags ← WireReader.byte_at packet 2; Val (negb (Z.land flags 0x80 =? 0)));
    if (response_prefix : bool) then Val (mkDecision Dropped [] None)
    else
      r ← value_or_empty (make_header_only_error_response packet FormErr true kDownstreamResponseBudget);
      Val (mkDecision Truncated r None)
  else
    match parse_message packet default_limits with
    | Undef => Undef
    | Err _ =>
        r ← value_or_empty (make_format_error_response packet true kDownstreamResponseBudget);
        Val (mkDecision Malformed r None)
    | Val parsed =>
        match validate_mvp_query parsed with
        | Undef => Undef
        | Err e =>
            if bool_decide (qe_code e = QueryErrorCode.NotAQuery) then Val (mkDecision Dropped [] None)
            else
              match make_error_response parsed (response_code_for (qe_code e)) true kDownstreamResponseBudget with
              | Val r => Val (mkDecision Unsupported r None)
              | Err _ => Val (mkDecision InternalError [] None)
              | Undef => Undef
              end
        | Val _ => Val (mkDecision Accepted [] (Some parsed))
        end
    end.

Section worker.
Context {F : Type} `{Prefilter F}.

(** The members the data path uses.  [outbox] lists what was passed to [::sendto]. *)
Record WorkerLoop := mkWorkerLoop {
  cache_shard_ : CacheShard;
  local_filter_snapshot_ : option (FilterContext F);
  upstream_usable_ : bool;
  listener_pending_ : bool;
  stats_ : WorkerStat → Z;
  outbox : list (list byte * Z);
}.

Definition count (k : WorkerStat) (w : WorkerLoop) : WorkerLoop :=
  mkWorkerLoop (cache_shard_ w) (local_filter_snapshot_ w) (upstream_usable_ w) (listener_pending_ w) (bump k (stats_ w)) (outbox w).
Definition set_shard (s : CacheShard) (w : WorkerLoop) : WorkerLoop :=
  mkWorkerLoop s (local_filter_snapshot_ w) (upstream_usable_ w) (listener_pending_ w) (stats_ w) (outbox w).
Definition set_pending (b : bool) (w : WorkerLoop) : WorkerLoop :=
  mkWorkerLoop (cache_shard_ w) (local_filter_snapshot_ w) (upstream_usable_ w) b (stats_ w) (outbox w).
Definition push_outbox (m : list byte * Z) (w : WorkerLoop) : WorkerLoop :=
  mkWorkerLoop (cache_shard_ w) (local_filter_snapshot_ w) (upstream_usable_ w) (listener_pending_ w) (stats_ w) (outbox w ++ [m]).

Definition matches_filter (w : WorkerLoop) (name : DomainName) : total bool :=
  match local_filter_snapshot_ w with
  | None => Val false
  | Some snapshot => matches (blocklist snapshot) name
  end.

(** [sent]: the result of the last [::sendto] of the retry loop. *)
Definition send_response (response : list byte) (client : Z) (sent : Z) (w : WorkerLoop) : WorkerLoop :=
  if (kDownstreamResponseBudget <? length response)%nat then count oversized_responses w
  else
    let w := push_outbox (response, client) w in
    if sent =? Z.of_nat (length response) then count responses_sent w else count send_errors w.

Record ClientDatagram := mkClientDatagram { packet : list byte; client_address : Z; datagram_truncated : bool }.

(** Where [process_datagram] stands: finished, or suspended in the upstream query. *)
Record Suspended := mkSuspended {
  sus_request : Message;
  sus_question : Question;
  sus_cache_key : option CacheKey;
  sus_client : Z;
}.

Inductive Progress := Finished (w : WorkerLoop) | AwaitUpstream (w : WorkerLoop) (s : Suspended).

(** The end of the coroutine: send what there is, unless a stop was requested. *)
Definition deliver (response : list byte) (client : Z) (stop : bool) (sent : Z) (w : WorkerLoop) : WorkerLoop :=
  if negb (is_empty response) && negb stop then send_response response client sent w else w.

(** From the second [if (decision.response.empty())] on: SERVFAIL when nothing answered. *)
Definition finish_query (req : Message) (response : list byte) (client : Z) (stop : bool) (sent : Z) (w : WorkerLoop)
    : total WorkerLoop :=
  if is_empty response then
    match make_error_response req ServFail true kDownstreamResponseBudget with
    | Undef => Undef
    | Err _ => Val (count internal_errors w)
    | Val servfail => Val (deliver servfail client stop sent w)
    end
  else Val (deliver response client stop sent w).

(** The cache lookup: the response found, if any; [None] is the [co_return] after an
    unusable entry. *)
Definition lookup_cache (req : Message) (question : Question) (now : Z) (w : WorkerLoop)
    : total (option (list byte * option CacheKey) * WorkerLoop) :=
  let eligible := negb (capacity_ (cache_shard_ w) =? 0)%nat && negb (authenticated_data (header req)) &&
                  negb (checking_disabled (header req)) in
  if eligible then
    let key := cache_key (qname question) (qtype question) (question_class question) in
    '(cache_hit, s) ← get (cache_shard_ w) key now;
    let w := set_shard s w in
    match cache_hit with
    | None => Val (Some ([], Some key), count cache_misses w)
    | Some hit =>
        match make_cache_hit_response req hit kDownstreamResponseBudget with
        | Undef => Undef
        | Val response => Val (Some (response, Some key), count cache_hits w)
        | Err e =>
            if bool_decide (we_code e = WriteErrorCode.MessageTooLarge)
            then Val (Some ([], Some key), count cache_misses w)
            else Val (None, count internal_errors w)
        end
    end
  else Val (Some ([], None), count cache_bypasses w).

(** An accepted query: filter, then cache, then upstream. *)
Definition process_accepted (req : Message) (client : Z) (stop : bool) (now sent : Z) (w : WorkerLoop) : total Progress :=
  match questions req with
  | [question] =>
      blocked ← matches_filter w (qname question);
      refused ←
        (if (blocked : bool) then
           let w := count blocked_queries w in
           match make_error_response req Refused true kDownstreamResponseBudget with
           | Undef => Undef
           | Err _ => Val (None, count internal_errors w)
           | Val refused => Val (Some refused, w)
           end
         else Val (Some [], w));
      match refused with
      | (None, w) => Val (Finished w)
      | (Some response, w) =>
          if is_empty response then
            '(found, w) ← lookup_cache req question now w;
            match found with
            | None => Val (Finished w)
            | Some (response, key) =>
                if is_empty response && upstream_usable_ w
                then Val (AwaitUpstream w (mkSuspended req question key client))
                else w ← finish_query req response client stop sent w; Val (Finished w)
            end
          else w ← finish_query req response client stop sent w; Val (Finished w)
      end
  | _ => Val (Finished (count internal_errors w))
  end.

(** [process_datagram] up to its suspension; [stop] and [stop'] are the two polls of the
    stop token. *)
Definition process_datagram (datagram : ClientDatagram) (stop stop' : bool) (now sent : Z) (w : WorkerLoop) : total Progress :=
  if stop then Val (Finished w)
  else
    decision ← evaluate_datagram (packet datagram) (datagram_truncated datagram);
    let client := client_address datagram in
    let reply w := Val (Finished (deliver (decision_response decision) client stop' sent w)) in
    match decision_outcome decision with
    | Dropped => Val (Finished w)
    | Truncated => reply (count truncated_datagrams w)
    | Malformed => reply (count parse_errors w)
    | Unsupported => reply (count unsupported_queries w)
    | InternalError => Val (Finished (count internal_errors w))
    | Accepted =>
        let w := count accepted_queries w in
        match request decision with
        | None => Val (Finished (count internal_errors w))
        | Some req => process_accepted req client stop' now sent w
        end
    end.

(** Storing an upstream response in the shard. *)
Definition store_response (response : list byte) (s : Suspended) (key : CacheKey) (now : Z) (w : WorkerLoop) : total WorkerLoop :=
  match parse_message response default_limits with
  | Undef => Undef
  | Err _ => Val w
  | Val parsed =>
      match cacheable_address_set parsed (sus_question s) with
      | None => Val w
      | Some cacheable =>
          let candidate := mkCacheHit (set_addresses cacheable) (set_ttl cacheable) in
          match make_cache_hit_response (sus_request s) candidate kDownstreamResponseBudget with
          | Undef => Undef
          | Err _ => Val w
          | Val _ =>
              shard ← put (cache_shard_ w) key (hit_addresses candidate) (remaining_ttl candidate) now;
              Val (count cache_inserts (set_shard shard w))
          end
      end
  end.

(** The rest of [process_datagram], once [await_resume] has returned or thrown. *)
Definition resume_datagram (s : Suspended) (result : outcome Upstream.ResumeException Upstream.QueryResult)
    (stop : bool) (now sent : Z) (w : WorkerLoop) : total WorkerLoop :=
  match result with
  | Undef => Undef
  | Err Upstream.OperationCancelled => Val w
  | Err Upstream.logic_error => Val (count internal_errors w)
  | Val r =>
      match Upstream.result_outcome r with
      | Upstream.Response =>
          let response := Upstream.response r in
          w ← (match sus_cache_key s with
               | Some key => store_response response s key now w
               | None => Val w
               end);
          finish_query (sus_request s) response (sus_client s) stop sent w
      | _ => finish_query (sus_request s) [] (sus_client s) stop sent w
      end
  end.

(** [drain_listener]: the kernel's queue of datagrams (full length, client) and errors;
    an exhausted queue is EAGAIN.  [spawn] is [Scheduler::spawn] on the task of the datagram:
    whether it was spawned, and the scheduler afterwards. *)
Inductive ListenerEvent := Datagram (bytes : list byte) (client : Z) | ListenerError (errno : Z).

Fixpoint drain_loop {S} (spawn : ClientDatagram → S → bool * S) (input : list ListenerEvent) (datagrams : nat) (t : StopToken)
    (s : S) (w : WorkerLoop) : StopToken * S * WorkerLoop :=
  let '(stop, t) := stop_requested t in
  if stop || negb (datagrams <? kReceiveBudget)%nat
  then let '(stop, t) := stop_requested t in (t, s, set_pending (negb stop) w)
  else
    match input with
    | [] => (t, s, set_pending false w)
    | ListenerError errno :: input =>
        if errno =? Upstream.EINTR then drain_loop spawn input datagrams t s w else (t, s, set_pending false w)
    | Datagram bytes client :: input =>
        let w := count received_datagrams w in
        let truncated := (kDownstreamReceiveBufferSize <? length bytes)%nat in
        let datagram := mkClientDatagram (take kDownstreamReceiveBufferSize bytes) client truncated in
        let '(spawned, s) := spawn datagram s in
        if (spawned : bool) then drain_loop spawn input (datagrams + 1) t s w
        else
          let '(stopping, t) := stop_requested t in
          drain_loop spawn input (datagrams + 1) t s (if stopping then w else count internal_errors w)
    end.

Definition drain_listener {S} (spawn : ClientDatagram → S → bool * S) (input : list ListenerEvent) (t : StopToken) (s : S)
    (w : WorkerLoop) : StopToken * S * WorkerLoop := drain_loop spawn input 0 t s w.
End worker.
Arguments WorkerLoop F : clear implicits.
Arguments Progress F : clear implicits.
End Worker.
