(* ===== verification/WorkerClaims.v ===== *)
(** * Properties of the data path of a worker *)
From S2P Require Import Prelude Wire DomainName DnsMessage DnsParser DnsWriter DnsQuery DnsRoundtrip DnsCache CachePolicy.
From S2P Require Import CuckooFilter RadixTree DomainBlocklist UpstreamChannel WorkerLoop.
From Stdlib Require Import Strings.Byte.
Import Worker.

(** ** The QR bit *)
Lemma land_bit x n : 0 ≤ n → (Z.land x (2 ^ n) =? 0) = negb (Z.testbit x n).
Proof.
  intros Hn. destruct (Z.testbit x n) eqn:Hb; simpl.
  - apply Z.eqb_neq. intros H. assert (Z.testbit (Z.land x (2 ^ n)) n = false) as Hf by (by rewrite H, Z.bits_0).
    by rewrite Z.land_spec, Hb, Z.pow2_bits_true in Hf by done.
  - apply Z.eqb_eq, Z.bits_inj'. intros i Hi. rewrite Z.land_spec, Z.bits_0.
    destruct (decide (i = n)) as [-> | Hne]; [by rewrite Hb |]. rewrite Z.pow2_bits_false by lia. apply andb_false_r.
Qed.

(** The packet claims to be a response: QR is set in its third byte. *)
Definition claims_response (packet : list byte) : bool :=
  match packet !! 2%nat with Some b => Z.testbit (b2z b) 7 | None => false end.

Lemma parsed_qr packet limits m :
  parse_message packet limits = Val m → is_response (header m) = claims_response packet.
Proof.
  intros (b0 & b1 & b2 & b3 & rest & -> & ->)%parse_message_prefix. cbn [decode_flags is_response claims_response lookup list_lookup].
  change 0x8000 with (2 ^ 15). rewrite land_bit, negb_involutive by lia.
  unfold claims_response. cbn [lookup list_lookup].
  replace (b2z b2 * 256 + b2z b3) with (Z.lor (Z.shiftl (b2z b2) 8) (b2z b3)) by (apply Facts.be16_add; apply b2z_range).
  rewrite Z.lor_spec, Z.shiftl_spec by lia. rewrite (Z.bits_above_log2 (b2z b3) 15), orb_false_r; [done | apply b2z_range |].
  pose proof (b2z_range b3). destruct (decide (b2z b3 = 0)) as [-> |]; [done |]. apply Z.log2_lt_pow2; lia.
Qed.

Lemma parsed_id packet limits m :
  parse_message packet limits = Val m → Upstream.is_transaction_id packet (id (header m)).
Proof. intros (b0 & b1 & b2 & b3 & rest & -> & ->)%parse_message_prefix. by exists b0, b1, (b2 :: b3 :: rest). Qed.

(** ** Locally generated responses *)

(** [r] is a response with the given header and question section and nothing else. *)
Definition is_reply (r : list byte) (h : Header) (qs : list Question) : Prop :=
  parse_message r default_limits = Val (mkMessage h qs [] [] [] r) ∧ (length r ≤ kDownstreamResponseBudget)%nat.

Lemma write_question_message_reply h qs :
  header_fits h → Forall question_fits qs → (length qs ≤ 16)%nat →
  match write_question_message h qs kDownstreamResponseBudget with
  | Val r => is_reply r h qs
  | Err e => we_code e = WriteErrorCode.MessageTooLarge ∧
             ∀ f, (kDownstreamResponseBudget < length (question_message_bytes h f qs))%nat
  | Undef => False
  end.
Proof.
  intros Hh Hq Hn. rewrite write_question_message_spec.
  rewrite (proj2 (Z.ltb_ge _ _)) by (vm_compute; congruence). rewrite (proj2 (Z.ltb_ge _ _)) by lia.
  destruct (flags_roundtrip h Hh) as (f & -> & Hf & Hdec). cbn [mbind outcome_bind].
  assert (∀ f', length (question_message_bytes h f' qs) = length (question_message_bytes h f qs)) as Hlenf.
  { intros f'. unfold question_message_bytes. by rewrite !length_app, !header_bytes_length. }
  destruct (length (question_message_bytes h f qs) <=? kDownstreamResponseBudget)%nat eqn:Hlen; bool_hyps.
  - split; [| done]. rewrite parse_question_message; try done.
    + by rewrite Hdec.
    + change (maximum_packet_size default_limits) with (N.to_nat 65535). unfold kDownstreamResponseBudget, kClassicDnsUdpPayloadLimit in Hlen. lia.
    + unfold kDownstreamResponseBudget, kClassicDnsUdpPayloadLimit in Hlen. lia.
  - split; [done |]. intros f'. by rewrite Hlenf.
Qed.

Lemma empty_message_fits h f : (length (question_message_bytes h f []) ≤ kDownstreamResponseBudget)%nat.
Proof. unfold question_message_bytes. rewrite length_app, header_bytes_length. simpl. unfold kDownstreamResponseBudget, kClassicDnsUdpPayloadLimit. lia. Qed.

Lemma valid_question_fits_budget h f q :
  question_fits q → (length (question_message_bytes h f [q]) ≤ kDownstreamResponseBudget)%nat.
Proof.
  intros (Hv & _ & _). unfold question_message_bytes. rewrite length_app, header_bytes_length. cbn [flat_map].
  rewrite app_nil_r. unfold question_bytes. rewrite !length_app, length_name_bytes, !enc2_length.
  apply valid_spec in Hv as (_ & Hs & _). unfold kDownstreamResponseBudget, kClassicDnsUdpPayloadLimit. lia.
Qed.

(** [make_error_response] always answers a query: with its question if that fits, else
    with the header alone. *)
Lemma make_error_response_reply req code :
  is_response (header req) = false → header_fits (header req) → Forall question_fits (questions req) →
  (length (questions req) ≤ 16)%nat →
  ∃ r qs, make_error_response req code true kDownstreamResponseBudget = Val r ∧
    is_reply r (response_header (header req) true code) qs ∧ (qs = questions req ∨ qs = []) ∧
    ((length (questions req) ≤ 1)%nat → qs = questions req).
Proof.
  intros Hqr Hh Hq Hn. unfold make_error_response. rewrite Hqr. set (h := response_header _ _ _).
  assert (header_fits h) as Hhf by (by apply response_header_fits).
  pose proof (write_question_message_reply h (questions req) Hhf Hq Hn) as Hw.
  destruct (write_question_message h (questions req) kDownstreamResponseBudget) as [r | e |]; [| | done].
  - exists r, (questions req). split_and!; try done. by left.
  - destruct Hw as [Hcode Hbig]. rewrite bool_decide_eq_true_2 by done.
    pose proof (write_question_message_reply h [] Hhf (Forall_nil _) ltac:(simpl; lia)) as Hw0.
    destruct (write_question_message h [] kDownstreamResponseBudget) as [r | e' |]; [| | done].
    + exists r, []. split_and!; try done; [by right |]. intros Hle.
      destruct (questions req) as [| q [| q' qs]]; [done | | simpl in Hle; lia].
      apply Forall_cons_iff in Hq as [Hq _]. pose proof (valid_question_fits_budget h 0 q Hq).
      specialize (Hbig 0). lia.
    + destruct Hw0 as [_ Hbig0]. pose proof (empty_message_fits h 0). specialize (Hbig0 0). lia.
Qed.

Lemma high_bit b : negb (Z.land (b2z b) 0x80 =? 0) = Z.testbit (b2z b) 7.
Proof. change 0x80 with (2 ^ 7). by rewrite land_bit, negb_involutive by lia. Qed.

Lemma land_15_range z : 0 ≤ Z.land z 15 < 16.
Proof. change 15 with (Z.ones 4). rewrite Z.land_ones by lia. apply Z.mod_pos_bound. lia. Qed.

(** The header recovered from a prefix. *)
Lemma prefix_header_spec packet code :
  (2 ≤ length packet)%nat →
  if claims_response packet then ∃ e, prefix_header packet code true = Err e
  else ∃ h, prefix_header packet code true = Val h ∧ header_fits h ∧ is_response h = true ∧
            response_code h = response_code_value code ∧ Upstream.is_transaction_id packet (id h).
Proof.
  intros Hlen. destruct packet as [| b0 [| b1 rest]]; simpl in Hlen; try lia.
  assert (Z.lor (Z.shiftl (b2z b0) 8) (b2z b1) = b2z b0 * 256 + b2z b1) as Hid
    by (apply Facts.be16_add; apply b2z_range).
  assert (u16 (b2z b0 * 256 + b2z b1)) as H16
    by (pose proof (b2z_range b0); pose proof (b2z_range b1); unfold u16; lia).
  assert (0 ≤ response_code_value code < 16) as Hc by (destruct code; simpl; lia).
  unfold prefix_header, WireReader.byte_at.
  cbn [lookup list_lookup from_option_ub mbind outcome_bind]. rewrite Hid.
  destruct rest as [| b2 rest]; cbn [length Nat.leb lookup list_lookup from_option_ub mbind outcome_bind claims_response].
  { unfold claims_response. cbn. eexists. split; [done |]. split_and!; first [done | cbn; lia | by eexists _, _, _]. }
  rewrite high_bit. unfold claims_response. cbn [lookup list_lookup].
  destruct (Z.testbit (b2z b2) 7); [eexists; done |]. cbn [mbind outcome_bind].
  destruct rest as [| b3 rest]; cbn [length Nat.leb lookup list_lookup from_option_ub mbind outcome_bind];
    (eexists; split; [done |]; split_and!; first [done | split; [done | split; [apply land_15_range | exact Hc]] | by eexists _, _, _]).
Qed.

Lemma header_only_reply packet code :
  match make_header_only_error_response packet code true kDownstreamResponseBudget with
  | Val r => claims_response packet = false ∧
      ∃ h, is_reply r h [] ∧ is_response h = true ∧ response_code h = response_code_value code ∧
           Upstream.is_transaction_id packet (id h)
  | Err _ => claims_response packet = true ∨ (length packet < 2)%nat
  | Undef => False
  end.
Proof.
  unfold make_header_only_error_response. destruct (length packet <? 2)%nat eqn:Hlen; bool_hyps; [by right |].
  pose proof (prefix_header_spec packet code Hlen) as Hp. destruct (claims_response packet).
  - destruct Hp as [e ->]. by left.
  - destruct Hp as (h & -> & Hfits & Hqr & Hrc & Hid). cbn [mbind outcome_bind].
    pose proof (write_question_message_reply h [] Hfits (Forall_nil _) ltac:(simpl; lia)) as Hw.
    destruct (write_question_message h [] kDownstreamResponseBudget) as [r | e |]; [| | done].
    + split; [done |]. exists h. done.
    + destruct Hw as [_ Hbig]. pose proof (empty_message_fits h 0). specialize (Hbig 0). lia.
Qed.

(** ** The decision on a datagram *)

(** A reply to [packet] made without consulting anybody: a parseable response of at most
    512 bytes with the packet's ID, to a packet that does not itself claim to be a
    response. *)
Definition local_reply (packet r : list byte) : Prop :=
  claims_response packet = false ∧
  ∃ h qs, is_reply r h qs ∧ is_response h = true ∧ Upstream.is_transaction_id packet (id h).

Lemma reply_nonempty r h qs : is_reply r h qs → r ≠ [].
Proof. intros [Hp _] ->. apply parse_message_prefix in Hp as (? & ? & ? & ? & ? & ? & _). done. Qed.

Definition accepted_query (packet : list byte) (m : Message) (q : Question) : Prop :=
  parse_message packet default_limits = Val m ∧ mvp_query m q ∧ header_fits (header m) ∧ question_fits q.

Lemma accepted_query_intro packet m q :
  parse_message packet default_limits = Val m → validate_mvp_query m = Val q → accepted_query packet m q.
Proof.
  intros Hparse Hval. pose proof (parse_message_inv _ _ _ Hparse) as Hok. apply validate_mvp_query_val in Hval.
  split_and!; try done; [apply Hok |]. pose proof (mok_questions _ _ _ Hok) as Hqs.
  rewrite (mvp_question _ _ Hval) in Hqs. by apply Forall_cons_iff in Hqs as [? _].
Qed.

Lemma evaluate_spec packet tr :
  ∃ d, evaluate_datagram packet tr = Val d ∧
    match decision_outcome d with
    | Accepted => tr = false ∧ decision_response d = [] ∧ ∃ m q, request d = Some m ∧ accepted_query packet m q
    | Dropped => decision_response d = [] ∧ (claims_response packet = true ∨ (length packet < 3)%nat)
    | InternalError => False
    | _ => local_reply packet (decision_response d) ∨
           decision_response d = [] ∧ (claims_response packet = true ∨ (length packet < 2)%nat)
    end.
Proof.
  unfold evaluate_datagram. destruct (tr || _) eqn:Htr.
  - destruct (length packet <? 3)%nat eqn:H3; bool_hyps; cbn [mbind outcome_bind].
    { eexists. split; [done |]. cbn. split; [done |]. by right. }
    destruct (lookup_lt_is_Some_2 packet 2) as [b2 Hb2]; [lia |].
    unfold WireReader.byte_at. rewrite Hb2. cbn [from_option_ub mbind outcome_bind]. rewrite high_bit.
    destruct (Z.testbit (b2z b2) 7) eqn:Hbit.
    { eexists. split; [done |]. cbn. split; [done |]. left. unfold claims_response. by rewrite Hb2. }
    pose proof (header_only_reply packet FormErr) as Hr.
    destruct (make_header_only_error_response packet FormErr true kDownstreamResponseBudget) as [r | e |]; [| | done];
      cbn [value_or_empty mbind outcome_bind]; (eexists; split; [done |]); cbn [decision_outcome decision_response].
    + left. destruct Hr as (Hc & h & Hrep & Hqr & _ & Hid). split; [done |]. by exists h, [].
    + by right.
  - apply orb_false_iff in Htr as [-> Hsize]. bool_hyps.
    pose proof (parse_message_defined packet default_limits) as Hdef.
    destruct (parse_message packet default_limits) as [m | e |] eqn:Hparse; [| | done].
    + pose proof (parse_message_inv _ _ _ Hparse) as Hok.
      pose proof (validate_mvp_query_defined m) as Hdefq.
      destruct (validate_mvp_query m) as [q | e |] eqn:Hval; [| | done].
      * eexists. split; [done |]. cbn. split_and!; try done. exists m, q.
        split; [done |]. by apply accepted_query_intro.
      * destruct (bool_decide _) eqn:Hnq.
        { apply bool_decide_eq_true in Hnq. eexists. split; [done |]. cbn. split; [done |]. left.
          rewrite <- (parsed_qr _ _ _ Hparse). by apply (validate_mvp_query_qr m e). }
        apply bool_decide_eq_false in Hnq.
        assert (is_response (header m) = false) as Hqr.
        { apply not_true_iff_false. by rewrite <- (validate_mvp_query_qr m e Hval). }
        destruct (make_error_response_reply m (response_code_for (qe_code e))) as (r & qs & -> & Hrep & _); try done.
        { apply Hok. } { apply Hok. } { apply (mok_question_count _ _ _ Hok). }
        eexists. split; [done |]. cbn [decision_outcome decision_response]. left.
        split; [by rewrite <- (parsed_qr _ _ _ Hparse) |]. eexists _, qs. split_and!; [done | done |].
        by apply (parsed_id _ _ _ Hparse).
    + pose proof (header_only_reply packet FormErr) as Hr. unfold make_format_error_response.
      destruct (make_header_only_error_response packet FormErr true kDownstreamResponseBudget) as [r | e' |]; [| | done];
        cbn [value_or_empty mbind outcome_bind]; (eexists; split; [done |]); cbn [decision_outcome decision_response].
      * left. destruct Hr as (Hc & h & Hrep & Hqr & _ & Hid). split; [done |]. by exists h, [].
      * by right.
Qed.

(** ** Answers from the cache *)

(** Address sets as [store_response] writes them: nonempty, of the family of the key's
    type, in whole 16-byte arrays. *)
Definition typed_addresses (type : Z) (addresses : list IPAddress) : Prop :=
  addresses ≠ [] ∧ Z.of_nat (length addresses) ≤ 65535 ∧
  Forall (λ a, length (addr_bytes a) = 16%nat ∧
               ((type = record_type_value A ∧ is_v4 a = true) ∨ (type = record_type_value AAAA ∧ is_v6 a = true))) addresses.

(** The RDATA a cached address is sent as. *)
Definition address_rdata (type : Z) (a : IPAddress) : list byte :=
  if type =? record_type_value A then take 4 (addr_bytes a) else addr_bytes a.

Lemma answer_views_typed type addresses :
  Forall (λ a, length (addr_bytes a) = 16%nat ∧
               ((type = record_type_value A ∧ is_v4 a = true) ∨ (type = record_type_value AAAA ∧ is_v6 a = true))) addresses →
  answer_views type addresses = Some (map (address_rdata type) addresses).
Proof.
  induction 1 as [| a addresses [Hlen Ha] _ IH]; cbn [answer_views map]; [done |]. rewrite IH.
  destruct Ha as [[-> Ha] | [-> Ha]]; unfold address_rdata; rewrite Ha; done.
Qed.

Lemma typed_sizes type addresses size :
  typed_addresses type addresses → expected_address_size type = Some size →
  Forall (λ a, length a = size) (map (address_rdata type) addresses).
Proof.
  intros (_ & _ & Hall) Hsize. apply Forall_map. eapply Forall_impl; [| exact Hall]. intros a [Hlen Ha].
  unfold address_rdata. destruct Ha as [[-> _] | [-> _]]; cbn in Hsize; injection Hsize as <-; cbn; [| done].
  rewrite length_take. lia.
Qed.

Lemma typed_type type addresses : typed_addresses type addresses → ∃ size, expected_address_size type = Some size.
Proof.
  intros (Hne & _ & Hall). destruct addresses as [| a l]; [done |].
  apply Forall_cons_iff in Hall as [[_ [[-> _] | [-> _]]] _]; cbn; eauto.
Qed.

(** A cached set is answered with its addresses, or is too large for a datagram. *)
Lemma cache_hit_response_spec m q packet hit :
  accepted_query packet m q → typed_addresses (qtype q) (hit_addresses hit) → u32 (remaining_ttl hit) →
  match make_cache_hit_response m hit kDownstreamResponseBudget with
  | Val r => (length r ≤ kDownstreamResponseBudget)%nat ∧ r ≠ [] ∧
      ∃ records, parse_message r default_limits =
        Val (mkMessage (response_header (header m) true NoError) [q] records [] [] r) ∧
        Forall2 (answer_of q (remaining_ttl hit)) records (map (address_rdata (qtype q)) (hit_addresses hit))
  | Err e => we_code e = WriteErrorCode.MessageTooLarge
  | Undef => False
  end.
Proof.
  intros (_ & Hm & Hh & Hq) Hty Httl. unfold make_cache_hit_response.
  rewrite (mvp_question _ _ Hm). cbn [length Nat.eqb negb head from_option_ub mbind outcome_bind].
  rewrite answer_views_typed by apply Hty. set (ans := map _ _).
  destruct (make_address_response m ans (remaining_ttl hit) true kDownstreamResponseBudget) as [r | e |] eqn:Hr.
  - destruct (address_response_parses m q ans (remaining_ttl hit) true kDownstreamResponseBudget r Hr (mvp_question _ _ Hm) Hh Hq Httl)
      as (records & Hp & Hall & Hlen).
    split_and!; [done | | by exists records]. intros ->. by apply parse_message_prefix in Hp as (? & ? & ? & ? & ? & ? & _).
  - destruct (typed_type _ _ Hty) as [size Hsize]. pose proof (typed_sizes _ _ _ Hty Hsize) as Hsizes. fold ans in Hsizes.
    unfold make_address_response in Hr. rewrite (mvp_qr _ _ Hm), (mvp_question _ _ Hm) in Hr.
    cbn [length Nat.eqb negb head from_option_ub mbind outcome_bind] in Hr. unfold write_address_message in Hr.
    rewrite (proj2 (Z.ltb_ge _ _)) in Hr by (vm_compute; congruence).
    destruct Hty as (Hne & Hmax & _).
    assert (length ans = length (hit_addresses hit)) as Hla by apply length_map.
    rewrite (proj2 (Nat.eqb_neq _ _)) in Hr by (rewrite Hla; by destruct (hit_addresses hit)).
    rewrite (proj2 (Z.ltb_ge _ _)) in Hr by (rewrite Hla; lia). rewrite Hsize in Hr.
    replace (existsb _ ans) with false in Hr.
    2: { symmetry. apply not_true_iff_false. intros (a & Ha & Hl)%existsb_exists.
         eapply Forall_forall in Hsizes; [| exact Ha]. by rewrite Hsizes, Nat.eqb_refl in Hl. }
    destruct (flags_roundtrip _ (response_header_fits _ true NoError Hh)) as (f & Hf & _). rewrite Hf in Hr.
    cbn [mbind outcome_bind] in Hr. unfold finish_message in Hr. destruct (_ ≫= _) in Hr; [done |]. by injection Hr as <-.
  - unfold make_address_response in Hr. rewrite (mvp_qr _ _ Hm), (mvp_question _ _ Hm) in Hr.
    cbn [length Nat.eqb negb head from_option_ub mbind outcome_bind] in Hr. unfold write_address_message in Hr.
    destruct (flags_roundtrip _ (response_header_fits _ true NoError Hh)) as (f & Hf & _). rewrite Hf in Hr.
    repeat (case_hyp Hr; [done |]). cbn [mbind outcome_bind finish_message] in Hr. unfold finish_message in Hr.
    by destruct (expected_address_size (qtype q)); [destruct (existsb _ ans); [| destruct (_ ≫= _) in Hr] |].
Qed.

Section data_path.
Context {F : Type} `{Prefilter F}.

(** ** The worker's invariant *)
Definition snapshot_ok (s : FilterContext F) : Prop :=
  ∃ names, blocks (blocklist s) names ∧ Forall (λ n, valid n ∧ is_root n = false) names.

Record worker_ok (w : WorkerLoop F) : Prop := {
  wk_shard : shard_wf (cache_shard_ w);
  wk_expiry : expiries_ok (cache_shard_ w);
  wk_typed : map_Forall (λ k v, typed_addresses (key_qtype k) v.1) (view (cache_shard_ w));
  wk_snapshot s : local_filter_snapshot_ w = Some s → snapshot_ok s;
}.

(** Only counters and the outbox differ. *)
Definition same_data (w w' : WorkerLoop F) : Prop :=
  cache_shard_ w' = cache_shard_ w ∧ local_filter_snapshot_ w' = local_filter_snapshot_ w ∧
  upstream_usable_ w' = upstream_usable_ w.

Lemma same_data_ok w w' : same_data w w' → worker_ok w → worker_ok w'.
Proof. intros (Hc & Hs & _) [H1 H2 H3 H4]. split; rewrite ?Hc, ?Hs; done. Qed.

(** [r] went out to [client], once. *)
Definition sent_to (client : Z) (r : list byte) (w w' : WorkerLoop F) : Prop :=
  outbox w' = outbox w ++ [(r, client)].

Lemma deliver_spec r client sent w :
  r ≠ [] → (length r ≤ kDownstreamResponseBudget)%nat →
  same_data w (deliver r client false sent w) ∧ sent_to client r w (deliver r client false sent w).
Proof.
  intros Hne Hlen. unfold deliver. destruct r as [| b r]; [done |]. cbn [is_empty negb andb].
  unfold send_response. rewrite (proj2 (Nat.ltb_ge _ _)) by done.
  destruct (sent =? _); by split_and!.
Qed.

(** What the client of an accepted query gets when nothing answered. *)
Definition error_reply (m : Message) (q : Question) (code : ResponseCode) (r : list byte) : Prop :=
  is_reply r (response_header (header m) true code) [q].

Lemma make_error_reply packet m q code :
  accepted_query packet m q →
  ∃ r, make_error_response m code true kDownstreamResponseBudget = Val r ∧ error_reply m q code r.
Proof.
  intros (Hp & Hm & Hh & Hq).
  destruct (make_error_response_reply m code) as (r & qs & Hr & Hrep & _ & Hqs).
  - apply (mvp_qr _ _ Hm).
  - done.
  - rewrite (mvp_question _ _ Hm). apply Forall_cons_iff. by split; [| constructor].
  - rewrite (mvp_question _ _ Hm). simpl. lia.
  - exists r. split; [done |]. unfold error_reply. rewrite (mvp_question _ _ Hm) in Hqs.
    rewrite Hqs in Hrep by (simpl; lia). done.
Qed.

Lemma finish_query_spec packet m q r client sent w :
  accepted_query packet m q → (length r ≤ kDownstreamResponseBudget)%nat →
  ∃ w', finish_query m r client false sent w = Val w' ∧ same_data w w' ∧
    ∃ r', sent_to client r' w w' ∧ if is_empty r then error_reply m q ServFail r' else r' = r.
Proof.
  intros Hacc Hlen. unfold finish_query. destruct (is_empty r) eqn:He.
  - destruct (make_error_reply packet m q ServFail Hacc) as (r' & -> & Hrep).
    destruct (deliver_spec r' client sent w) as [Hs Ho]; [by eapply reply_nonempty | apply Hrep |].
    eexists. split; [done |]. split; [done |]. by exists r'.
  - destruct (deliver_spec r client sent w) as [Hs Ho]; [by intros -> | done |].
    eexists. split; [done |]. split; [done |]. by exists r.
Qed.

Lemma matches_filter_spec w name :
  worker_ok w → valid name → ∃ b, matches_filter w name = Val b ∧ (local_filter_snapshot_ w = None → b = false).
Proof.
  intros Hok Hn. unfold matches_filter. destruct (local_filter_snapshot_ w) as [s |] eqn:Hs; [| by exists false].
  destruct (wk_snapshot _ Hok s Hs) as (names & Hb & Hall).
  destruct (matches_spec (blocklist s) names name Hb Hall Hn) as (r & -> & _). by exists r.
Qed.

(** The cache is consulted unless it is off or the query sets AD or CD. *)
Definition cache_eligible (m : Message) (w : WorkerLoop F) : bool :=
  negb (capacity_ (cache_shard_ w) =? 0)%nat && negb (authenticated_data (header m)) && negb (checking_disabled (header m)).

Definition question_key (q : Question) : CacheKey := cache_key (qname q) (qtype q) (question_class q).

(** A response rebuilt from the cache entry [v] at time [now]. *)
Definition cached_reply (m : Message) (q : Question) (v : list IPAddress * Z) (now : Z) (r : list byte) : Prop :=
  (length r ≤ kDownstreamResponseBudget)%nat ∧ r ≠ [] ∧
  ∃ records, parse_message r default_limits =
    Val (mkMessage (response_header (header m) true NoError) [q] records [] [] r) ∧
    Forall2 (answer_of q (remaining_ttl (hit_of v now))) records (map (address_rdata (qtype q)) v.1).

Lemma lookup_cache_spec packet m q now w :
  worker_ok w → accepted_query packet m q → clock_ok now →
  ∃ r key w', lookup_cache m q now w = Val (Some (r, key), w') ∧ worker_ok w' ∧ outbox w' = outbox w ∧
    local_filter_snapshot_ w' = local_filter_snapshot_ w ∧ upstream_usable_ w' = upstream_usable_ w ∧
    key = (if cache_eligible m w then Some (question_key q) else None) ∧
    (r = [] ∨ (cache_eligible m w = true ∧
               ∃ v, view (cache_shard_ w) !! question_key q = Some v ∧ now < v.2 ∧ cached_reply m q v now r)).
Proof.
  intros Hok Hacc Hnow. unfold lookup_cache. fold (cache_eligible m w).
  destruct (cache_eligible m w).
  2: { eexists [], None, _. split; [done |]. split_and!; try done; [by apply (same_data_ok w) | by left]. }
  fold (question_key q).
  pose proof (get_spec (cache_shard_ w) (question_key q) now (wk_shard _ Hok) (wk_expiry _ Hok) Hnow) as Hget.
  destruct (view (cache_shard_ w) !! question_key q) as [v |] eqn:Hv.
  2: { rewrite Hget. cbn [mbind outcome_bind]. eexists [], _, _. split; [done |].
       split_and!; try done; [| by left]. destruct Hok as [H1 H2 H3 H4]. by split. }
  destruct (v.2 <=? now) eqn:Hexp; destruct Hget as (s' & Hg & Hwf' & Hv'); rewrite Hg; cbn [mbind outcome_bind].
  - eexists [], _, _. split; [done |]. split_and!; try done; [| by left].
    destruct Hok as [H1 H2 H3 H4]. split; cbn [cache_shard_ count set_shard local_filter_snapshot_]; try done.
    + unfold expiries_ok. rewrite Hv'. by apply map_Forall_delete.
    + rewrite Hv'. by apply map_Forall_delete.
  - bool_hyps. assert (worker_ok (set_shard s' w)) as Hok'.
    { destruct Hok as [H1 H2 H3 H4]. split; cbn [cache_shard_ set_shard local_filter_snapshot_]; try done.
      - unfold expiries_ok. by rewrite Hv'.
      - by rewrite Hv'. }
    assert (typed_addresses (qtype q) (hit_addresses (hit_of v now))) as Hty by (by apply (wk_typed _ Hok _ _ Hv)).
    assert (u32 (remaining_ttl (hit_of v now))) as H32 by (unfold u32, hit_of, uint32_max; cbn [remaining_ttl]; lia).
    pose proof (cache_hit_response_spec m q packet (hit_of v now) Hacc Hty H32) as Hhit.
    destruct (make_cache_hit_response m (hit_of v now) kDownstreamResponseBudget) as [r | e |]; [| | done].
    + exists r, (Some (question_key q)). eexists. split; [done |].
      split_and!; try done; [by apply (same_data_ok (set_shard s' w)) |]. right. split; [done |]. by exists v.
    + rewrite bool_decide_eq_true_2 by done. eexists [], _, _. split; [done |].
      split_and!; try done; [by apply (same_data_ok (set_shard s' w)) | by left].
Qed.

(** ** An accepted query, up to its answer or its suspension *)
Inductive answered (packet : list byte) (m : Message) (q : Question) (client now : Z) (w : WorkerLoop F) : Progress F → Prop :=
  | answered_refused w' r :
      matches_filter w (qname q) = Val true → same_data w w' → sent_to client r w w' → error_reply m q Refused r →
      answered packet m q client now w (Finished w')
  | answered_cached w' v r :
      matches_filter w (qname q) = Val false → cache_eligible m w = true →
      view (cache_shard_ w) !! question_key q = Some v → now < v.2 → sent_to client r w w' → cached_reply m q v now r →
      answered packet m q client now w (Finished w')
  | answered_servfail w' r :
      matches_filter w (qname q) = Val false → upstream_usable_ w = false → sent_to client r w w' →
      error_reply m q ServFail r → answered packet m q client now w (Finished w')
  | answered_later w' :
      matches_filter w (qname q) = Val false → upstream_usable_ w = true → outbox w' = outbox w →
      answered packet m q client now w
        (AwaitUpstream w' (mkSuspended m q (if cache_eligible m w then Some (question_key q) else None) client)).

Lemma process_accepted_spec packet m q client now sent w :
  worker_ok w → accepted_query packet m q → clock_ok now →
  ∃ p, process_accepted m client false now sent w = Val p ∧ answered packet m q client now w p ∧
       match p with Finished w' | AwaitUpstream w' _ => worker_ok w' end.
Proof.
  intros Hok Hacc Hnow. pose proof Hacc as (_ & Hm & _ & Hq). unfold process_accepted. rewrite (mvp_question _ _ Hm).
  destruct (matches_filter_spec w (qname q) Hok (proj1 Hq)) as (b & Hmf & _). rewrite Hmf. cbn [mbind outcome_bind].
  destruct b.
  - destruct (make_error_reply packet m q Refused Hacc) as (r & -> & Hrep). cbn [mbind outcome_bind].
    pose proof (reply_nonempty _ _ _ Hrep) as Hne. destruct (is_empty r) eqn:He; [by apply is_empty_true in He |].
    destruct (finish_query_spec packet m q r client sent (count blocked_queries w) Hacc (proj2 Hrep))
      as (w' & -> & Hsame & r' & Hsent & Hr'). rewrite He in Hr'. subst r'. cbn [mbind outcome_bind].
    eexists. split; [done |]. split; [by eapply answered_refused | exact (same_data_ok w w' Hsame Hok)].
  - cbn [mbind outcome_bind is_empty].
    destruct (lookup_cache_spec packet m q now w Hok Hacc Hnow)
      as (r & key & w1 & -> & Hok1 & Hout & Hsnap & Hup & Hkey & Hr). cbn [mbind outcome_bind].
    destruct (is_empty r) eqn:He; cbn [andb].
    + apply is_empty_true in He as ->. destruct (upstream_usable_ w1) eqn:Hup1.
      { eexists. split; [done |]. split; [| done]. rewrite Hkey. apply answered_later; [done | congruence | done]. }
      destruct (finish_query_spec packet m q [] client sent w1 Hacc ltac:(cbn; lia)) as (w' & -> & Hsame & r' & Hsent & Hr').
      cbn [mbind outcome_bind]. eexists. split; [done |]. split; [| by apply (same_data_ok w1)].
      eapply answered_servfail; [done | congruence | | exact Hr']. unfold sent_to in *. congruence.
    + destruct Hr as [-> | (Hel & v & Hv & Hexp & Hrep)]; [done |].
      destruct (finish_query_spec packet m q r client sent w1 Hacc (proj1 Hrep)) as (w' & -> & Hsame & r' & Hsent & Hr').
      rewrite He in Hr'. subst r'. cbn [mbind outcome_bind]. eexists. split; [done |]. split; [| by apply (same_data_ok w1)].
      eapply answered_cached; try done. unfold sent_to in *. congruence.
Qed.

(** ** After the upstream query *)
Lemma admitted_typed response q res : admitted response q res → typed_addresses (qtype q) (set_addresses res).
Proof.
  intros ((_ & _ & _ & _ & _ & _ & Hlen & Hmax & Hall) & -> & _). split_and!.
  - by destruct (answers response); [simpl in Hlen; lia |].
  - by rewrite length_map.
  - apply Forall_map. eapply Forall_impl; [| exact Hall]. intros r (_ & Ht & _ & _ & Hr). unfold address_of. rewrite Ht in *.
    destruct Hr as [[-> Hl] | [-> Hl]].
    + change (record_type_value A =? record_type_value A) with true. split; [| by left].
      cbn [addr_bytes v4]. rewrite length_app, length_drop, length_replicate. lia.
    + change (record_type_value AAAA =? record_type_value A) with false. split; [done | by right].
Qed.

Lemma store_response_spec packet m q client r now w :
  worker_ok w → accepted_query packet m q → clock_ok now →
  ∃ w', store_response r (mkSuspended m q (Some (question_key q)) client) (question_key q) now w = Val w' ∧ worker_ok w' ∧
    outbox w' = outbox w ∧
    (same_data w w' ∨
     ∃ parsed res, parse_message r default_limits = Val parsed ∧ admitted parsed q res ∧
       (capacity_ (cache_shard_ w) ≠ 0%nat →
        view (cache_shard_ w') !! question_key q = Some (set_addresses res, now + set_ttl res * nanos))).
Proof.
  intros Hok Hacc Hnow. unfold store_response. cbn [sus_question sus_request].
  pose proof (parse_message_defined r default_limits) as Hdef.
  destruct (parse_message r default_limits) as [parsed | |] eqn:Hparse;
    [| exists w; split_and!; try done; by left | done].
  assert (Forall record_fits (answers parsed)) as Hfits.
  { pose proof (mok_records _ _ _ (parse_message_inv _ _ _ Hparse)) as Hr. by apply Forall_app in Hr as [? _]. }
  destruct (cacheable_address_set parsed q) as [res |] eqn:Hres;
    [| exists w; split_and!; try done; by left].
  apply cacheable_admitted in Hres as Hadm; [| done]. pose proof (admitted_typed _ _ _ Hadm) as Hty.
  pose proof Hadm as (_ & _ & _ & rr & Hrr & Httl).
  assert (u32 (set_ttl res) ∧ set_ttl res ≠ 0) as [Hu32 Hnz].
  { rewrite Httl. apply list_elem_of_In in Hrr.
    pose proof Hadm as ((_ & _ & _ & _ & _ & _ & _ & _ & Hall) & _).
    eapply Forall_forall in Hfits; [| exact Hrr]. eapply Forall_forall in Hall; [| exact Hrr].
    split; [apply Hfits | apply Hall]. }
  pose proof (cache_hit_response_spec m q packet (mkCacheHit (set_addresses res) (set_ttl res)) Hacc Hty Hu32) as Hhit.
  destruct (make_cache_hit_response _ _ _) as [wire | e |]; [| exists w; split_and!; try done; by left | done].
  cbn [hit_addresses remaining_ttl].
  destruct (put_spec (cache_shard_ w) (question_key q) (set_addresses res) (set_ttl res) now (wk_shard _ Hok) Hnow)
    as (s' & -> & Hwf' & _ & Hv); [unfold u32 in Hu32; unfold uint32_max; lia |].
  cbn [mbind outcome_bind]. eexists. split; [done |]. cbn [count set_shard cache_shard_ outbox].
  destruct (capacity_ (cache_shard_ w) =? 0)%nat eqn:H0; bool_hyps.
  { subst s'. split_and!; [by apply (same_data_ok w) | done | by left]. }
  rewrite (proj2 (Z.eqb_neq _ _)), bool_decide_eq_false_2 in Hv by (done || apply Hty). cbn [orb] in Hv.
  destruct Hv as (victim & Hv & _).
  assert (∀ P : CacheKey → list IPAddress * Z → Prop, map_Forall P (view (cache_shard_ w)) →
    P (question_key q) (set_addresses res, now + set_ttl res * nanos) → map_Forall P (view s')) as HP.
  { intros P Hm Hp. rewrite Hv. apply map_Forall_insert_2; [done |]. destruct victim; [by apply map_Forall_delete | done]. }
  split_and!; [| done | right; exists parsed, res; split_and!; try done; intros _; by rewrite Hv, lookup_insert_eq].
  destruct Hok as [H1 H2 H3 H4]. split; cbn [cache_shard_ local_filter_snapshot_ count set_shard]; try done.
  - apply HP; [done |]. cbn [snd]. unfold clock_ok, u32, int64_max, uint32_max, nanos in *. lia.
  - by apply HP.
Qed.

(** How the client of a suspended query is served. *)
Definition served (m : Message) (q : Question) (client : Z)
    (result : outcome Upstream.ResumeException Upstream.QueryResult) (w w' : WorkerLoop F) : Prop :=
  match result with
  | Val r =>
      match Upstream.result_outcome r with
      | Upstream.Response => sent_to client (Upstream.response r) w w'
      | _ => cache_shard_ w' = cache_shard_ w ∧ ∃ servfail, sent_to client servfail w w' ∧ error_reply m q ServFail servfail
      end
  | _ => outbox w' = outbox w ∧ cache_shard_ w' = cache_shard_ w
  end.

Lemma resume_spec packet m q client eligible result now sent w :
  worker_ok w → accepted_query packet m q → clock_ok now → defined result →
  (∀ r, result = Val r → Upstream.result_outcome r = Upstream.Response →
        Upstream.response r ≠ [] ∧ (length (Upstream.response r) ≤ kDownstreamResponseBudget)%nat) →
  ∃ w', resume_datagram (mkSuspended m q (if (eligible : bool) then Some (question_key q) else None) client) result false now sent w = Val w' ∧
    worker_ok w' ∧ served m q client result w w' ∧
    (cache_shard_ w' = cache_shard_ w ∨
     ∃ r parsed res, result = Val r ∧ Upstream.result_outcome r = Upstream.Response ∧ eligible = true ∧
       parse_message (Upstream.response r) default_limits = Val parsed ∧ admitted parsed q res ∧
       (capacity_ (cache_shard_ w) ≠ 0%nat →
        view (cache_shard_ w') !! question_key q = Some (set_addresses res, now + set_ttl res * nanos))).
Proof.
  intros Hok Hacc Hnow Hdef Hresp. unfold resume_datagram, served.
  destruct result as [r | e |]; [| | done].
  2: { destruct e; eexists; (split; [done |]); split_and!; try done; try (by left). by apply (same_data_ok w). }
  cbn [sus_cache_key sus_request sus_client].
  destruct (decide (Upstream.result_outcome r = Upstream.Response)) as [Hr | Hr].
  - rewrite Hr. destruct (Hresp r eq_refl Hr) as [Hne Hlen].
    assert (is_empty (Upstream.response r) = false) as He by (by destruct (Upstream.response r)).
    destruct eligible.
    + destruct (store_response_spec packet m q client (Upstream.response r) now w Hok Hacc Hnow)
        as (w1 & -> & Hok1 & Hout & Hst). cbn [mbind outcome_bind].
      destruct (finish_query_spec packet m q (Upstream.response r) client sent w1 Hacc Hlen)
        as (w' & -> & Hsame & r' & Hsent & Hr'). rewrite He in Hr'. subst r'.
      exists w'. split; [done |]. split; [by apply (same_data_ok w1) |]. split; [unfold sent_to in *; congruence |].
      destruct Hsame as (Hc & _). rewrite Hc. destruct Hst as [(? & _) | (parsed & res & ? & ? & ?)]; [by left |].
      right. by exists r, parsed, res.
    + cbn [mbind outcome_bind]. destruct (finish_query_spec packet m q (Upstream.response r) client sent w Hacc Hlen)
        as (w' & -> & Hsame & r' & Hsent & Hr'). rewrite He in Hr'. subst r'.
      exists w'. split; [done |]. split; [by apply (same_data_ok w) |]. split; [done |]. left. apply Hsame.
  - destruct (finish_query_spec packet m q [] client sent w Hacc ltac:(cbn; lia)) as (w' & Heq & Hsame & r' & Hsent & Hr').
    exists w'. destruct (Upstream.result_outcome r); try done;
      (split; [exact Heq |]; split; [by apply (same_data_ok w) |]; split; [split; [apply Hsame | by exists r'] | left; apply Hsame]).
Qed.
End data_path.

(** ** Properties *)

(** The decision on a datagram.  [evaluate_datagram] is defined for every packet.
    A packet it rejects is answered with a parseable response of at most 512 bytes that
    has the packet's ID, unless the packet sets the QR bit or has no room for an ID:
    those are never answered, so two servers cannot keep answering each other.  A packet is accepted only if it is whole, parses and is
    a standard query with one IN question of type A or AAAA; the internal-error outcome
    cannot happen. *)
Theorem evaluate_datagram_correct packet tr :
  ∃ d, evaluate_datagram packet tr = Val d ∧
    match decision_outcome d with
    | Accepted => tr = false ∧ decision_response d = [] ∧ ∃ m q, request d = Some m ∧ accepted_query packet m q
    | Dropped => decision_response d = [] ∧ (claims_response packet = true ∨ (length packet < 3)%nat)
    | InternalError => False
    | _ => local_reply packet (decision_response d) ∨
           decision_response d = [] ∧ (claims_response packet = true ∨ (length packet < 2)%nat)
    end.
Proof. apply evaluate_spec. Qed.


(** C35: after the upstream query.  A response of the upstream is passed to the client as
    it is; a timeout, an overload or a socket error becomes exactly one SERVFAIL; a
    cancelled query is not answered.  The cache changes only through a response that
    [cacheable_address_set] admits for the question, and then holds its addresses until
    the smallest TTL has passed. *)
Theorem resumed_query_served {F} `{Prefilter F} packet m q client eligible result now sent (w : WorkerLoop F) :
  worker_ok w → accepted_query packet m q → clock_ok now → defined result →
  (∀ r, result = Val r → Upstream.result_outcome r = Upstream.Response →
        Upstream.response r ≠ [] ∧ (length (Upstream.response r) ≤ kDownstreamResponseBudget)%nat) →
  ∃ w', resume_datagram (mkSuspended m q (if (eligible : bool) then Some (question_key q) else None) client) result false now sent w = Val w' ∧
    worker_ok w' ∧ served m q client result w w' ∧
    (cache_shard_ w' = cache_shard_ w ∨
     ∃ r parsed res, result = Val r ∧ Upstream.result_outcome r = Upstream.Response ∧ eligible = true ∧
       parse_message (Upstream.response r) default_limits = Val parsed ∧ admitted parsed q res ∧
       (capacity_ (cache_shard_ w) ≠ 0%nat →
        view (cache_shard_ w') !! question_key q = Some (set_addresses res, now + set_ttl res * nanos))).
Proof. apply resume_spec. Qed.

(** What the loop makes of a received datagram. *)
Definition to_client_datagram (e : list byte * Z) : ClientDatagram :=
  mkClientDatagram (take kDownstreamReceiveBufferSize e.1) e.2 (kDownstreamReceiveBufferSize <? length e.1)%nat.

(** A scheduler that takes every task and lists them. *)
Definition take_all (d : ClientDatagram) (l : list ClientDatagram) : bool * list ClientDatagram := (true, l ++ [d]).

Lemma drain_loop_spec {F} `{Prefilter F} input n l (w : WorkerLoop F) :
  (n ≤ kReceiveBudget)%nat →
  ∃ w', drain_loop take_all (map (λ e, Datagram e.1 e.2) input) n None l w =
      (None, l ++ map to_client_datagram (take (kReceiveBudget - n) input), w') ∧
    listener_pending_ w' = (kReceiveBudget - n <=? length input)%nat ∧ cache_shard_ w' = cache_shard_ w ∧ outbox w' = outbox w.
Proof.
  revert n l w. induction input as [| e input IH]; intros n l w Hn; cbn [drain_loop map stop_requested orb negb].
  - rewrite take_nil, app_nil_r. destruct (n <? kReceiveBudget)%nat eqn:Hlt; bool_hyps; cbn [negb];
      eexists; (split; [done |]); cbn [listener_pending_ set_pending length]; split_and!; try done; symmetry;
      [apply Nat.leb_gt | apply Nat.leb_le]; lia.
  - destruct (n <? kReceiveBudget)%nat eqn:Hlt; bool_hyps; cbn [negb].
    + destruct (IH (n + 1)%nat (l ++ [to_client_datagram e]) (count received_datagrams w)) as (w' & Heq & Hp & Hc & Ho); [lia |].
      unfold take_all at 1. fold (to_client_datagram e). rewrite Heq. exists w'.
      replace (kReceiveBudget - n)%nat with (S (kReceiveBudget - (n + 1))) by lia.
      cbn [take map length]. rewrite <- (assoc_L (++)). by split_and!.
    + replace (kReceiveBudget - n)%nat with 0%nat by lia. eexists. cbn [take map]. rewrite app_nil_r. by split.
Qed.

(** The receive budget.  One call of [drain_listener] hands at most 64 datagrams to
    new tasks, in order, each cut to 512 bytes with the truncation flag telling exactly
    whether it was longer, and asks to be called again exactly when the budget ran out
    first. *)
Theorem drain_listener_budget {F} `{Prefilter F} input (w : WorkerLoop F) :
  ∃ w', drain_listener take_all (map (λ e, Datagram e.1 e.2) input) None [] w =
      (None, map to_client_datagram (take 64 input), w') ∧
    listener_pending_ w' = (64 <=? length input)%nat ∧ outbox w' = outbox w.
Proof. destruct (drain_loop_spec input 0 [] w) as (w' & H1 & H2 & _ & H3); [unfold kReceiveBudget; lia |]. by exists w'. Qed.

(** ** Concrete instances *)

#[local] Existing Instance toy_prefilter.

(** A worker with a filter that does not block the sample query, an empty cache and a
    usable upstream. *)
Definition sample_worker : WorkerLoop Cuckoo.CuckooFilter :=
  mkWorkerLoop (new_shard 4) (Some (mkFilterContext 1 9 sample_build)) true false (λ _, 0) [].

Definition sample_message : Message :=
  match parse_message sample_query default_limits with Val m => m | _ => mkMessage (decode_flags 0 0) [] [] [] [] [] end.

Lemma sample_accepted : accepted_query sample_query sample_message sample_question.
Proof. apply accepted_query_intro; vm_compute; reflexivity. Qed.

Lemma sample_worker_ok : worker_ok sample_worker.
Proof.
  split; cbn [cache_shard_ sample_worker local_filter_snapshot_].
  - apply (new_shard_refines 4).
  - intros k v Hk. vm_compute in Hk. done.
  - intros k v Hk. vm_compute in Hk. done.
  - intros s [= <-]. pose proof (build_spec sample_rules None) as Hb. rewrite sample_build_ok in Hb.
    destruct Hb as (names & Hc & Hb). exists names. split; [exact Hb |]. apply (comp_valid _ _ Hc).
Qed.


Lemma resumed_query_served_witness :
  ∃ w', resume_datagram (mkSuspended sample_message sample_question (Some (question_key sample_question)) 7)
          (Val (Upstream.mkQueryResult Upstream.Timeout [] 0)) false 1000 19 sample_worker = Val w' ∧
    worker_ok w' ∧
    served sample_message sample_question 7 (Val (Upstream.mkQueryResult Upstream.Timeout [] 0)) sample_worker w' ∧
    cache_shard_ w' = cache_shard_ sample_worker.
Proof.
  destruct (resumed_query_served sample_query sample_message sample_question 7 true
    (Val (Upstream.mkQueryResult Upstream.Timeout [] 0)) 1000 19 sample_worker) as (w' & H1 & H2 & H3 & H4).
  - exact sample_worker_ok.
  - exact sample_accepted.
  - unfold clock_ok. vm_compute. split; congruence.
  - done.
  - intros r [= <-]. done.
  - exists w'. split; [exact H1 |]. split; [exact H2 |]. split; [exact H3 |].
    destruct H4 as [H4 | (r & parsed & res & Hr & Ho & _)]; [exact H4 |]. injection Hr as <-. discriminate Ho.
Defined.
