(* ===== verification/FilterPublication.v ===== *)
(** * Publication and reclamation of filter snapshots ([FilterPublication.h],
      [FilterPublication.cpp])

    Writer thread A commits a new snapshot, the workers move to it one by one, and
    reclaimer thread B destroys the old one once every worker that could still hold it
    has moved on or has ended.  The model is a state machine whose steps are the
    critical sections of the two mutexes; what [publication_mutex_] protects is the
    record [Publication], what [retirement_mutex_] protects is [Retirement].  B does not
    take [publication_mutex_], so each of its loads of a worker's epoch is a step of its
    own, and so is every stretch in which it has given [retirement_mutex_] up.

    A [std::shared_ptr] is the number of its allocation, [heap] gives the immutable
    object, and [use_count] counts the owners in the world.  Loads and stores are
    sequentially consistent; allocation failures are not modelled. *)
From stdpp Require Import functions.
From Stdlib Require Import Strings.Byte.
From S2P Require Import Prelude Wire DomainName CuckooFilter RadixTree DomainBlocklist.

Module Publication.

(** ** Data *)

Abbreviation Snap := nat (only parsing).
Abbreviation FilterSnapshot := (option nat) (only parsing).

Definition kUnobservedFilterGeneration : Z := 0.
Definition uint64_max : Z := 2 ^ 64 - 1.

Inductive WorkerRegistrationState := Unregistered | Starting | Registered.

#[global] Instance registration_state_eq_dec : EqDecision WorkerRegistrationState.
Proof. solve_decision. Defined.

Record WorkerEpoch := mkWorkerEpoch {
  published_instance_id : Z;
  observed_generation : Z;
  registration_state : WorkerRegistrationState;
  quiesced_through_instance_id : Z;
}.

Definition new_epoch : WorkerEpoch := mkWorkerEpoch 0 kUnobservedFilterGeneration Unregistered 0.

Record FilterVersion := mkFilterVersion { version_generation : Z; version_rule_count : nat }.

#[global] Instance filter_version_eq_dec : EqDecision FilterVersion.
Proof. solve_decision. Defined.

Record FilterWorkerRegistration := mkRegistration { reg_snapshot : nat; reg_generation : Z }.

Inductive FilterCommitError := NoRetirementCredit | PublicationSealed | InvalidCandidate | GenerationMismatch.

Inductive FilterGenerationWaitResult := Converged | ReclaimerUnavailable | InternalError.

Record PendingFilterParticipant := mkPendingParticipant {
  pending_worker_id : nat;
  pending_instance_id : Z;
  pending_observed_generation : Z;
}.

Record FilterGraceDiagnostic := mkGraceDiagnostic {
  target_generation : Z;
  diagnostic_retired_bytes : Z;
  waited : Z;
  diagnostic_pending : list PendingFilterParticipant;
}.

Inductive SnapshotReclaimerExitCode := RequestedStop | GracePeriodStalled | FatalExit.

Record SnapshotReclaimerResult := mkReclaimerResult {
  exit_code : SnapshotReclaimerExitCode;
  diagnostic : option FilterGraceDiagnostic;
}.

Record CohortMember := mkCohortMember {
  member_worker_id : nat;
  member_instance_id : Z;
  member_epoch : option nat;
}.

Record RetirementRecord := mkRetirementRecord {
  owner : FilterSnapshot;
  version : FilterVersion;
  published_normalized_rule_bytes : Z;
  retired_bytes : Z;
  cohort : list CohortMember;
  committed_at : Z;
  pending : bool;
  destroying : bool;
  terminal : bool;
}.

Definition no_version : FilterVersion := mkFilterVersion 0 0.
Definition new_record : RetirementRecord := mkRetirementRecord None no_version 0 0 [] 0 false false false.

(** What [publication_mutex_] protects. *)
Record Publication := mkPublication {
  active_snapshot_ : FilterSnapshot;
  registry_ : list (option nat);
  publication_sink_ : bool;
  current_generation_ : Z;
  current_rule_count_ : nat;
  current_normalized_rule_bytes_ : Z;
  publication_sealed_ : bool;
}.

(** What [retirement_mutex_] protects. *)
Record Retirement := mkRetirement {
  retired_ : RetirementRecord;
  terminal_ : RetirementRecord;
  retirement_credit_held_ : bool;
  retired_bytes_ : Z;
  progress_sequence_ : Z;
  last_converged_generation_ : Z;
  last_reclaimed_generation_ : Z;
  reclaimer_shutdown_requested_ : bool;
  reclaimer_failure_requested_ : bool;
  reclaimer_failure_after_commit_requested_ : bool;
  reclaimer_started_ : bool;
  reclaimer_active_ : bool;
}.

Inductive RecordName := Retired | Terminal.

#[global] Instance record_name_eq_dec : EqDecision RecordName.
Proof. solve_decision. Defined.

(** The loads [member_complete] has done. *)
Inductive MemberLoads :=
  | LoadQuiesced
  | LoadFirst
  | LoadObserved (first : Z)
  | LoadSecond (first observed : Z).

(** Where B is inside [run_reclaimer].  [Unlocked]: it is about to take
    [retirement_mutex_] and go to the head of the loop, at its start or out of
    [retirement_changed_.wait]. *)
Inductive Reclaimer :=
  | Stopped (result : option SnapshotReclaimerResult)
  | LoopHead
  | Checking (which : RecordName) (todo : list CohortMember) (loads : MemberLoads)
  | Incomplete (which : RecordName)
  | WaitingProgress (which : RecordName) (observed_sequence : Z)
  | Unlocked
  | Destroying (which : RecordName) (gen bytes : Z) (sole_owner : FilterSnapshot)
  | Exiting (result : SnapshotReclaimerResult).

(** The state with what the protocol shares with the outside: the workers' epochs
    (one per worker record, so its number names it), the snapshots the workers own, and
    the candidates that are built and not committed.  [progress_owed] counts the calls
    that have left their critical section and not yet done their [publish_progress];
    [total_progress] is [progress_sequence_] without the wrap-around. *)
Record World := mkWorld {
  maximum_workers : nat;
  grace_timeout : Z;
  publication : Publication;
  retirement : Retirement;
  epochs : nat → WorkerEpoch;
  locals : gmap (nat * Z) nat;
  candidates : list nat;
  reclaimer : Reclaimer;
  progress_owed : nat;
  total_progress : Z;
}.

Definition set_publication (p : Publication) (w : World) : World :=
  mkWorld (maximum_workers w) (grace_timeout w) p (retirement w) (epochs w) (locals w) (candidates w) (reclaimer w)
    (progress_owed w) (total_progress w).
Definition set_retirement (r : Retirement) (w : World) : World :=
  mkWorld (maximum_workers w) (grace_timeout w) (publication w) r (epochs w) (locals w) (candidates w) (reclaimer w)
    (progress_owed w) (total_progress w).
Definition set_epoch (e : nat) (v : WorkerEpoch) (w : World) : World :=
  mkWorld (maximum_workers w) (grace_timeout w) (publication w) (retirement w) (<[e := v]> (epochs w)) (locals w)
    (candidates w) (reclaimer w) (progress_owed w) (total_progress w).
Definition set_locals (l : gmap (nat * Z) nat) (w : World) : World :=
  mkWorld (maximum_workers w) (grace_timeout w) (publication w) (retirement w) (epochs w) l (candidates w) (reclaimer w)
    (progress_owed w) (total_progress w).
Definition set_candidates (l : list nat) (w : World) : World :=
  mkWorld (maximum_workers w) (grace_timeout w) (publication w) (retirement w) (epochs w) (locals w) l (reclaimer w)
    (progress_owed w) (total_progress w).
Definition set_reclaimer (b : Reclaimer) (w : World) : World :=
  mkWorld (maximum_workers w) (grace_timeout w) (publication w) (retirement w) (epochs w) (locals w) (candidates w) b
    (progress_owed w) (total_progress w).
Definition owe (n : nat) (w : World) : World :=
  mkWorld (maximum_workers w) (grace_timeout w) (publication w) (retirement w) (epochs w) (locals w) (candidates w)
    (reclaimer w) n (total_progress w).

Definition set_registry (l : list (option nat)) (p : Publication) : Publication :=
  mkPublication (active_snapshot_ p) l (publication_sink_ p) (current_generation_ p) (current_rule_count_ p)
    (current_normalized_rule_bytes_ p) (publication_sealed_ p).
Definition set_active (s : FilterSnapshot) (p : Publication) : Publication :=
  mkPublication s (registry_ p) (publication_sink_ p) (current_generation_ p) (current_rule_count_ p)
    (current_normalized_rule_bytes_ p) (publication_sealed_ p).
Definition set_sealed (p : Publication) : Publication :=
  mkPublication (active_snapshot_ p) (registry_ p) (publication_sink_ p) (current_generation_ p) (current_rule_count_ p)
    (current_normalized_rule_bytes_ p) true.

Definition set_credit (b : bool) (r : Retirement) : Retirement :=
  mkRetirement (retired_ r) (terminal_ r) b (retired_bytes_ r) (progress_sequence_ r) (last_converged_generation_ r)
    (last_reclaimed_generation_ r) (reclaimer_shutdown_requested_ r) (reclaimer_failure_requested_ r)
    (reclaimer_failure_after_commit_requested_ r) (reclaimer_started_ r) (reclaimer_active_ r).
Definition set_running (started active : bool) (r : Retirement) : Retirement :=
  mkRetirement (retired_ r) (terminal_ r) (retirement_credit_held_ r) (retired_bytes_ r) (progress_sequence_ r)
    (last_converged_generation_ r) (last_reclaimed_generation_ r) (reclaimer_shutdown_requested_ r)
    (reclaimer_failure_requested_ r) (reclaimer_failure_after_commit_requested_ r) started active.
Definition set_requests (shutdown failure failure_after_commit : bool) (r : Retirement) : Retirement :=
  mkRetirement (retired_ r) (terminal_ r) (retirement_credit_held_ r) (retired_bytes_ r) (progress_sequence_ r)
    (last_converged_generation_ r) (last_reclaimed_generation_ r) shutdown failure failure_after_commit
    (reclaimer_started_ r) (reclaimer_active_ r).

Definition record_of (which : RecordName) (r : Retirement) : RetirementRecord :=
  match which with Retired => retired_ r | Terminal => terminal_ r end.
Definition set_record (which : RecordName) (x : RetirementRecord) (r : Retirement) : Retirement :=
  mkRetirement (match which with Retired => x | Terminal => retired_ r end)
    (match which with Retired => terminal_ r | Terminal => x end)
    (retirement_credit_held_ r) (retired_bytes_ r) (progress_sequence_ r) (last_converged_generation_ r)
    (last_reclaimed_generation_ r) (reclaimer_shutdown_requested_ r) (reclaimer_failure_requested_ r)
    (reclaimer_failure_after_commit_requested_ r) (reclaimer_started_ r) (reclaimer_active_ r).

(** ** Owners *)

Definition option_count (o : FilterSnapshot) (s : nat) : nat := if decide (o = Some s) then 1 else 0.

(** The owner B has moved to its stack. *)
Definition sole_of (b : Reclaimer) : FilterSnapshot := match b with Destroying _ _ _ sole => sole | _ => None end.

(** [std::shared_ptr::use_count]: the owners of [s] in the world. *)
Definition use_count (w : World) (s : nat) : nat :=
  option_count (active_snapshot_ (publication w)) s +
  option_count (owner (retired_ (retirement w))) s +
  option_count (owner (terminal_ (retirement w))) s +
  option_count (sole_of (reclaimer w)) s +
  size (filter (λ kv : (nat * Z) * nat, kv.2 = s) (locals w)) +
  length (filter (λ c, c = s) (candidates w)).

Section operations.
Context {F : Type}.
Variable heap : nat → FilterContext F.

Definition snap_generation (s : nat) : Z := generation (heap s).
Definition snap_rule_count (s : nat) : nat := rule_count_ (blocklist (heap s)).
Definition snap_bytes (s : nat) : Z := Z.of_nat (normalized_rule_bytes (heap s)).

(** [FilterPublicationState::FilterPublicationState]; [Err]: std::invalid_argument. *)
Definition make_publication_state (initial_snapshot : FilterSnapshot) (workers : nat) (timeout : Z) : outcome unit World :=
  match initial_snapshot with
  | None => Err ()
  | Some s =>
      if (snap_generation s =? 0) || (timeout <=? 0) then Err ()
      else Val (mkWorld workers timeout
        (mkPublication (Some s) (replicate workers None) false (snap_generation s) (snap_rule_count s) (snap_bytes s) false)
        (mkRetirement new_record new_record false 0 0 0 0 false false false false false)
        (λ _, new_epoch) ∅ [] (Stopped None) 0 0)
  end.

Definition registry_at (p : Publication) (worker_id : nat) : option nat :=
  match registry_ p !! worker_id with Some e => e | None => None end.

(** The check of the destructor: [true] when it does not call std::terminate. *)
Definition may_be_destroyed (w : World) : bool :=
  let r := retirement w in
  negb (reclaimer_active_ r || pending (retired_ r) || destroying (retired_ r) || pending (terminal_ r) ||
        destroying (terminal_ r) || existsb (λ e : option nat, bool_decide (e ≠ None)) (registry_ (publication w))).

Definition set_publication_sink (sink : bool) (w : World) : World :=
  let p := publication w in
  set_publication (mkPublication (active_snapshot_ p) (registry_ p) sink (current_generation_ p) (current_rule_count_ p)
    (current_normalized_rule_bytes_ p) (publication_sealed_ p)) w.

(** ** Registration of workers *)

Definition register_worker (worker_id : nat) (instance_id : Z) (epoch : nat) (w : World)
    : option FilterWorkerRegistration * World :=
  let p := publication w in
  if (length (registry_ p) <=? worker_id)%nat || (instance_id =? 0) || bool_decide (registry_at p worker_id ≠ None) ||
     publication_sealed_ p
  then (None, w)
  else match active_snapshot_ p with
  | None => (None, w)
  | Some snapshot =>
      let w := set_epoch epoch (mkWorkerEpoch instance_id kUnobservedFilterGeneration Starting
                                  (quiesced_through_instance_id (epochs w epoch))) w in
      (Some (mkRegistration snapshot (current_generation_ p)),
       set_publication (set_registry (<[worker_id := Some epoch]> (registry_ p)) p) w)
  end.

Definition mark_worker_registered (worker_id : nat) (instance_id : Z) (epoch : nat) (w : World) : bool * World :=
  let p := publication w in
  let e := epochs w epoch in
  if (length (registry_ p) <=? worker_id)%nat || bool_decide (registry_at p worker_id ≠ Some epoch) ||
     negb (published_instance_id e =? instance_id) || bool_decide (registration_state e ≠ Starting)
  then (false, w)
  else
    let first := published_instance_id e in
    let observed := observed_generation e in
    let second := published_instance_id e in
    let gen := current_generation_ p in
    if negb (first =? instance_id) || negb (second =? instance_id) || (observed <? gen) then (false, w)
    else (true, set_epoch epoch (mkWorkerEpoch (published_instance_id e) observed Registered (quiesced_through_instance_id e)) w).

Definition publish_progress (w : World) : World :=
  let r := retirement w in
  let w := set_retirement (mkRetirement (retired_ r) (terminal_ r) (retirement_credit_held_ r) (retired_bytes_ r)
    (wrap64 (progress_sequence_ r + 1)) (last_converged_generation_ r) (last_reclaimed_generation_ r)
    (reclaimer_shutdown_requested_ r) (reclaimer_failure_requested_ r) (reclaimer_failure_after_commit_requested_ r)
    (reclaimer_started_ r) (reclaimer_active_ r)) w in
  mkWorld (maximum_workers w) (grace_timeout w) (publication w) (retirement w) (epochs w) (locals w) (candidates w)
    (reclaimer w) (progress_owed w) (total_progress w + 1).

(** The critical section of [quiesce_worker], which [publish_progress] follows. *)
Definition quiesce_locked (worker_id : nat) (instance_id : Z) (epoch : nat) (w : World) : World :=
  let p := publication w in
  let e := epochs w epoch in
  if (worker_id <? length (registry_ p))%nat && bool_decide (registry_at p worker_id = Some epoch) &&
     (published_instance_id e =? instance_id)
  then set_publication (set_registry (<[worker_id := None]> (registry_ p)) p)
         (set_epoch epoch (mkWorkerEpoch (published_instance_id e) (observed_generation e) Unregistered instance_id) w)
  else w.

Definition quiesce_worker (worker_id : nat) (instance_id : Z) (epoch : nat) (w : World) : World :=
  publish_progress (quiesce_locked worker_id instance_id epoch w).

(** The critical section of [refresh_worker_snapshot]: its result, [advanced], the new
    local snapshot and the world. *)
Definition refresh_locked (local_snapshot : FilterSnapshot) (instance_id : Z) (epoch : nat) (w : World)
    : bool * bool * FilterSnapshot * World :=
  let e := epochs w epoch in
  if negb (published_instance_id e =? instance_id) || bool_decide (registration_state e = Unregistered)
  then (false, false, local_snapshot, w)
  else match active_snapshot_ (publication w), local_snapshot with
  | Some next, Some current =>
      let observed := observed_generation e in
      if (snap_generation next <? snap_generation current) || (snap_generation current <? observed)
      then (false, false, local_snapshot, w)
      else
        let current := if decide (current = next) then current else next in
        if observed <? snap_generation current
        then (true, true, Some current,
              set_epoch epoch (mkWorkerEpoch (published_instance_id e) (snap_generation current) (registration_state e)
                                 (quiesced_through_instance_id e)) w)
        else (true, false, Some current, w)
  | _, _ => (false, false, local_snapshot, w)
  end.

Definition refresh_worker_snapshot (local_snapshot : FilterSnapshot) (instance_id : Z) (epoch : nat) (w : World)
    : bool * FilterSnapshot * World :=
  let '(result, advanced, local_snapshot, w) := refresh_locked local_snapshot instance_id epoch w in
  (result, local_snapshot, if (advanced : bool) then publish_progress w else w).

Definition worker_needs_refresh (instance_id : Z) (e : WorkerEpoch) (w : World) : bool :=
  let first := published_instance_id e in
  let observed := observed_generation e in
  let second := published_instance_id e in
  (first =? instance_id) && (second =? instance_id) && (observed <? current_generation_ (publication w)).

(** ** The writer *)

(** [None]: the call waits. *)
Definition acquire_retirement_credit (stop : bool) (w : World) : option (bool * World) :=
  let r := retirement w in
  let sealed := publication_sealed_ (publication w) in
  let ready := negb (retirement_credit_held_ r) || sealed in
  if negb ready && negb stop then None
  else if negb ready || sealed || stop then Some (false, w)
  else Some (true, set_retirement (set_credit true r) w).

Definition release_uncommitted_credit (w : World) : World :=
  let r := retirement w in
  if negb (pending (retired_ r)) then set_retirement (set_credit false r) w else w.

(** The loop over the registry of [commit] and [detach_terminal_snapshot]. *)
Fixpoint collect_cohort (registry : list (option nat)) (worker_id : nat) (es : nat → WorkerEpoch) : list CohortMember :=
  match registry with
  | [] => []
  | None :: registry => collect_cohort registry (S worker_id) es
  | Some epoch :: registry =>
      let registration := registration_state (es epoch) in
      let instance_id := published_instance_id (es epoch) in
      (if negb (instance_id =? 0) && (bool_decide (registration = Starting) || bool_decide (registration = Registered))
       then [mkCohortMember worker_id instance_id (Some epoch)] else []) ++
      collect_cohort registry (S worker_id) es
  end.

(** The notification of the sink is the second component of the result. *)
Definition commit (candidate : FilterSnapshot) (now : Z) (w : World)
    : outcome FilterCommitError (FilterVersion * option Z) * World :=
  let r := retirement w in
  let p := publication w in
  if negb (retirement_credit_held_ r) || pending (retired_ r) then (Err NoRetirementCredit, w)
  else if publication_sealed_ p then (Err PublicationSealed, w)
  else match candidate with
  | None => (Err InvalidCandidate, w)
  | Some s =>
      if snap_generation s =? 0 then (Err InvalidCandidate, w)
      else
        let current := current_generation_ p in
        if (current =? uint64_max) || negb (snap_generation s =? current + 1) then (Err GenerationMismatch, w)
        else
          let published := mkFilterVersion (snap_generation s) (snap_rule_count s) in
          let record := mkRetirementRecord (active_snapshot_ p) published (snap_bytes s)
            (current_normalized_rule_bytes_ p) (collect_cohort (registry_ p) 0 (epochs w)) now true false false in
          let p := mkPublication (Some s) (registry_ p) (publication_sink_ p) (version_generation published)
            (version_rule_count published) (published_normalized_rule_bytes record) (publication_sealed_ p) in
          let r := mkRetirement record (terminal_ r) (retirement_credit_held_ r) (retired_bytes record)
            (progress_sequence_ r) (last_converged_generation_ r) (last_reclaimed_generation_ r)
            (reclaimer_shutdown_requested_ r) (reclaimer_failure_requested_ r)
            (reclaimer_failure_after_commit_requested_ r) (reclaimer_started_ r) (reclaimer_active_ r) in
          (Val (published, if publication_sink_ p then Some (version_generation published) else None),
           set_publication p (set_retirement r w))
  end.

(** [None]: the call waits. *)
Definition wait_until_reclaimed (gen : Z) (w : World) : option FilterGenerationWaitResult :=
  let r := retirement w in
  if (gen <=? last_reclaimed_generation_ r) || (reclaimer_started_ r && negb (reclaimer_active_ r))
  then Some (if gen <=? last_reclaimed_generation_ r then Converged else ReclaimerUnavailable)
  else None.

Definition wait_until_converged (gen : Z) (w : World) : option FilterGenerationWaitResult :=
  let r := retirement w in
  if (gen <=? last_converged_generation_ r) || (reclaimer_started_ r && negb (reclaimer_active_ r))
  then Some (if gen <=? last_converged_generation_ r then Converged else ReclaimerUnavailable)
  else None.

Definition seal_publication (w : World) : World := set_publication (set_sealed (publication w)) w.

Definition detach_terminal_snapshot (now : Z) (w : World) : bool * World :=
  let r := retirement w in
  let p := publication w in
  if pending (terminal_ r) then (true, w)
  else match active_snapshot_ p with
  | None => (true, w)
  | Some active =>
      let record := mkRetirementRecord (Some active) (mkFilterVersion (snap_generation active) (snap_rule_count active))
        (snap_bytes active) (snap_bytes active) (collect_cohort (registry_ p) 0 (epochs w)) now true false true in
      let bytes := if uint64_max - retired_bytes_ r <? retired_bytes record then uint64_max
                   else retired_bytes_ r + retired_bytes record in
      let r := mkRetirement (retired_ r) record (retirement_credit_held_ r) bytes
        (progress_sequence_ r) (last_converged_generation_ r) (last_reclaimed_generation_ r)
        (reclaimer_shutdown_requested_ r) (reclaimer_failure_requested_ r)
        (reclaimer_failure_after_commit_requested_ r) (reclaimer_started_ r) (reclaimer_active_ r) in
      (true, set_publication (set_active None p) (set_retirement r w))
  end.

(** ** Completion of a cohort *)

Definition member_complete (es : nat → WorkerEpoch) (gen : Z) (is_terminal : bool) (m : CohortMember) : bool :=
  match member_epoch m with
  | None => false
  | Some e =>
      if member_instance_id m <=? quiesced_through_instance_id (es e) then true
      else if is_terminal then false
      else (published_instance_id (es e) =? member_instance_id m) && (gen <=? observed_generation (es e))
  end.

Definition cohort_complete (es : nat → WorkerEpoch) (record : RetirementRecord) : bool :=
  forallb (member_complete es (version_generation (version record)) (terminal record)) (cohort record).

Definition nanos_per_milli : Z := 1000000.

Definition make_diagnostic (record : RetirementRecord) (now : Z) (es : nat → WorkerEpoch) : FilterGraceDiagnostic :=
  mkGraceDiagnostic (version_generation (version record)) (retired_bytes record)
    (Z.quot (now - committed_at record) nanos_per_milli)
    (map (λ m, mkPendingParticipant (member_worker_id m) (member_instance_id m)
                 (match member_epoch m with
                  | Some e => observed_generation (es e)
                  | None => kUnobservedFilterGeneration
                  end))
       (List.filter (λ m, negb (member_complete es (version_generation (version record)) (terminal record) m)) (cohort record))).

Definition next_pending_record (r : Retirement) : option RecordName :=
  if pending (retired_ r) then Some Retired else if pending (terminal_ r) then Some Terminal else None.

(** One load of [member_complete] ([None]: the next load is due; [Some]: the verdict). *)
Definition member_load (es : nat → WorkerEpoch) (gen : Z) (is_terminal : bool) (m : CohortMember) (loads : MemberLoads)
    : MemberLoads + bool :=
  match member_epoch m with
  | None => inr false
  | Some e =>
      match loads with
      | LoadQuiesced => if member_instance_id m <=? quiesced_through_instance_id (es e) then inr true
                        else if is_terminal then inr false else inl LoadFirst
      | LoadFirst => inl (LoadObserved (published_instance_id (es e)))
      | LoadObserved first => inl (LoadSecond first (observed_generation (es e)))
      | LoadSecond first observed =>
          inr ((first =? member_instance_id m) && (published_instance_id (es e) =? member_instance_id m) && (gen <=? observed))
      end
  end.

(** The fields of a record once it is reclaimed, and the retirement bookkeeping. *)
Definition clear_record (which : RecordName) (gen bytes : Z) (r : Retirement) : Retirement :=
  let record := record_of which r in
  let r := set_record which (mkRetirementRecord (owner record) no_version 0 0 [] (committed_at record) false false false) r in
  mkRetirement (retired_ r) (terminal_ r)
    (match which with Retired => false | Terminal => retirement_credit_held_ r end)
    (retired_bytes_ r - Z.min (retired_bytes_ r) bytes) (progress_sequence_ r) (last_converged_generation_ r)
    (match which with Retired => Z.max (last_reclaimed_generation_ r) gen | Terminal => last_reclaimed_generation_ r end)
    (reclaimer_shutdown_requested_ r) (reclaimer_failure_requested_ r) (reclaimer_failure_after_commit_requested_ r)
    (reclaimer_started_ r) (reclaimer_active_ r).

(** The record whose cohort is complete gives its owner up, and the generation has
    converged. *)
Definition claim_record (which : RecordName) (r : Retirement) : Retirement :=
  let record := record_of which r in
  let r := set_record which (mkRetirementRecord None (version record) (published_normalized_rule_bytes record)
             (retired_bytes record) (cohort record) (committed_at record) (pending record) true (terminal record)) r in
  match which with
  | Terminal => r
  | Retired =>
      mkRetirement (retired_ r) (terminal_ r) (retirement_credit_held_ r) (retired_bytes_ r) (progress_sequence_ r)
        (Z.max (last_converged_generation_ r) (version_generation (version record))) (last_reclaimed_generation_ r)
        (reclaimer_shutdown_requested_ r) (reclaimer_failure_requested_ r)
        (reclaimer_failure_after_commit_requested_ r) (reclaimer_started_ r) (reclaimer_active_ r)
  end.

(** ** The reclaimer *)

Definition exit_with (code : SnapshotReclaimerExitCode) (diagnostic : option FilterGraceDiagnostic) (w : World) : World :=
  set_reclaimer (Exiting (mkReclaimerResult code diagnostic)) w.

(** The entry of [run_reclaimer]: [false] when B runs already. *)
Definition run_reclaimer_begin (w : World) : bool * World :=
  let r := retirement w in
  if reclaimer_active_ r then (false, w)
  else (true, set_reclaimer Unlocked (set_retirement (set_running true true r) w)).

(** The callback of the stop token. *)
Definition wake_on_stop (w : World) : World := publish_progress w.

Definition deadline (record : RetirementRecord) (w : World) : Z := committed_at record + grace_timeout w * nanos_per_milli.

(** What [run_reclaimer] does up to its next access to memory shared without
    [retirement_mutex_], or until it gives that mutex up. *)
Definition reclaimer_step (now : Z) (stop : bool) (w : World) : World :=
  let r := retirement w in
  match reclaimer w with
  | Stopped _ => w
  | LoopHead =>
      if reclaimer_failure_requested_ r then exit_with FatalExit None w
      else if reclaimer_failure_after_commit_requested_ r && pending (retired_ r)
      then exit_with FatalExit None
             (set_retirement (set_requests (reclaimer_shutdown_requested_ r) (reclaimer_failure_requested_ r) false r) w)
      else match next_pending_record r with
      | Some which => set_reclaimer (Checking which (cohort (record_of which r)) LoadQuiesced) w
      | None => if reclaimer_shutdown_requested_ r || stop then exit_with RequestedStop None w
                else set_reclaimer Unlocked w
      end
  | Checking which [] _ =>
      let record := record_of which r in
      match owner record with
      | Some s =>
          if (use_count w s =? 1)%nat
          then set_reclaimer (Destroying which (version_generation (version record)) (retired_bytes record) (Some s))
                 (set_retirement (claim_record which r) w)
          else exit_with FatalExit None w
      | None => set_reclaimer (Destroying which (version_generation (version record)) (retired_bytes record) None)
                  (set_retirement (claim_record which r) w)
      end
  | Checking which (m :: todo) loads =>
      let record := record_of which r in
      match member_load (epochs w) (version_generation (version record)) (terminal record) m loads with
      | inl loads => set_reclaimer (Checking which (m :: todo) loads) w
      | inr true => set_reclaimer (Checking which todo LoadQuiesced) w
      | inr false => set_reclaimer (Incomplete which) w
      end
  | Incomplete which =>
      let record := record_of which r in
      if deadline record w <=? now
      then exit_with GracePeriodStalled (Some (make_diagnostic record now (epochs w))) w
      else set_reclaimer (WaitingProgress which (progress_sequence_ r)) w
  | WaitingProgress which observed_sequence =>
      if reclaimer_failure_requested_ r || negb (progress_sequence_ r =? observed_sequence) ||
         (deadline (record_of which r) w <=? now)
      then set_reclaimer LoopHead w else w
  | Unlocked => set_reclaimer LoopHead w
  | Destroying which gen bytes _ => set_reclaimer LoopHead (set_retirement (clear_record which gen bytes r) w)
  | Exiting result => set_reclaimer (Stopped (Some result)) (set_retirement (set_running (reclaimer_started_ r) false r) w)
  end.

Definition request_reclaimer_shutdown (w : World) : World :=
  let r := retirement w in
  set_retirement (set_requests true (reclaimer_failure_requested_ r) (reclaimer_failure_after_commit_requested_ r) r) w.
Definition inject_reclaimer_failure_for_testing (w : World) : World :=
  let r := retirement w in
  set_retirement (set_requests (reclaimer_shutdown_requested_ r) true (reclaimer_failure_after_commit_requested_ r) r) w.
Definition inject_reclaimer_failure_after_next_commit_for_testing (w : World) : World :=
  let r := retirement w in
  set_retirement (set_requests (reclaimer_shutdown_requested_ r) (reclaimer_failure_requested_ r) true r) w.

(** ** Emergency takeover *)

Definition reclaim_record (which : RecordName) (r : Retirement) : Retirement :=
  let record := record_of which r in
  let gen := version_generation (version record) in
  let r := clear_record which gen (retired_bytes record) r in
  let record := record_of which r in
  let r := set_record which (mkRetirementRecord None (version record) (published_normalized_rule_bytes record)
             (retired_bytes record) (cohort record) (committed_at record) (pending record) (destroying record)
             (terminal record)) r in
  match which with
  | Terminal => r
  | Retired =>
      mkRetirement (retired_ r) (terminal_ r) (retirement_credit_held_ r) (retired_bytes_ r) (progress_sequence_ r)
        (Z.max (last_converged_generation_ r) gen) (last_reclaimed_generation_ r) (reclaimer_shutdown_requested_ r)
        (reclaimer_failure_requested_ r) (reclaimer_failure_after_commit_requested_ r) (reclaimer_started_ r)
        (reclaimer_active_ r)
  end.

Definition sole_or_empty (w : World) (record : RetirementRecord) : bool :=
  match owner record with Some s => (use_count w s =? 1)%nat | None => true end.

Definition reclaim_converged_locked (w : World) : bool * World :=
  let r := retirement w in
  if pending (retired_ r) && negb (cohort_complete (epochs w) (retired_ r)) then (false, w)
  else if pending (terminal_ r) && negb (cohort_complete (epochs w) (terminal_ r)) then (false, w)
  else if negb (sole_or_empty w (retired_ r)) || negb (sole_or_empty w (terminal_ r)) then (false, w)
  else
    let r := if pending (retired_ r) then reclaim_record Retired r else r in
    let r := if pending (terminal_ r) then reclaim_record Terminal r else r in
    (true, set_retirement r w).

Definition emergency_reclaim_converged (w : World) : bool * World :=
  if reclaimer_active_ (retirement w) || negb (publication_sealed_ (publication w)) then (false, w)
  else reclaim_converged_locked w.

(** ** Observers *)

Definition current_version (w : World) : FilterVersion :=
  mkFilterVersion (current_generation_ (publication w)) (current_rule_count_ (publication w)).
Definition current_generation (w : World) : Z := current_generation_ (publication w).

Definition current_matches `{Prefilter F} (domain : list byte) (w : World) : outcome Empty_set bool :=
  match active_snapshot_ (publication w) with
  | Some current => matches_text (blocklist (heap current)) domain
  | None => Val false
  end.

Record FilterRetirementStats := mkRetirementStats {
  unreclaimed_generations : nat;
  stats_retired_bytes : Z;
  stats_progress_sequence : Z;
  stats_last_converged_generation : Z;
  stats_last_reclaimed_generation : Z;
  stats_retirement_credit_held : bool;
  terminal_owner_pending : bool;
}.

Definition retirement_stats (w : World) : FilterRetirementStats :=
  let r := retirement w in
  mkRetirementStats (if pending (retired_ r) then 1 else 0) (retired_bytes_ r) (progress_sequence_ r)
    (last_converged_generation_ r) (last_reclaimed_generation_ r) (retirement_credit_held_ r) (pending (terminal_ r)).

(** ** Steps of the threads

    The guards state what the callers do: instance ids of a worker grow
    ([WorkerSupervisor::create_worker]); a worker is quiesced after its instance and
    with it its local snapshot is gone ([WorkerSupervisor::join_and_reset]); the active
    snapshot is detached after publication is sealed ([FilterUpdateController::seal]
    before [terminal_detach_requested_]; [DNS] in the emergency path); a candidate is a
    fresh allocation.  A step that needs [retirement_mutex_] waits while B holds it. *)
Inductive Action :=
  | Register (worker_id : nat) (instance_id : Z)
  | MarkRegistered (worker_id : nat) (instance_id : Z)
  | Refresh (worker_id : nat) (instance_id : Z)
  | ReleaseLocal (worker_id : nat) (instance_id : Z)
  | Quiesce (worker_id : nat) (instance_id : Z)
  | PublishProgress
  | AcquireCredit (stop : bool)
  | ReleaseCredit
  | BuildCandidate (s : nat)
  | DropCandidate (s : nat)
  | Commit (s : nat) (now : Z)
  | Seal
  | Detach (now : Z)
  | StartReclaimer
  | ReclaimerStep (now : Z) (stop : bool)
  | WakeOnStop
  | RequestShutdown
  | InjectFailure
  | InjectFailureAfterCommit
  | EmergencyReclaim.

Definition retirement_mutex_free (w : World) : bool :=
  match reclaimer w with
  | LoopHead | Checking _ _ _ | Incomplete _ => false
  | _ => true
  end.

Definition set_local (k : nat * Z) (local : FilterSnapshot) (w : World) : World :=
  set_locals (match local with Some s => <[k := s]> (locals w) | None => delete k (locals w) end) w.

Definition drop_candidate (s : nat) (w : World) : World := set_candidates (List.filter (λ c, negb (c =? s)%nat) (candidates w)) w.

Definition guarded (b : bool) (w : World) : option World := if b then Some w else None.

Definition act (a : Action) (w : World) : option World :=
  match a with
  | Register wid i =>
      if published_instance_id (epochs w wid) <? i then
        match register_worker wid i wid w with
        | (Some registration, w) => Some (set_local (wid, i) (Some (reg_snapshot registration)) w)
        | (None, w) => Some w
        end
      else None
  | MarkRegistered wid i => Some (mark_worker_registered wid i wid w).2
  | Refresh wid i =>
      match locals w !! (wid, i) with
      | Some s =>
          let '(_, advanced, local, w) := refresh_locked (Some s) i wid w in
          let w := set_local (wid, i) local w in
          Some (if (advanced : bool) then owe (S (progress_owed w)) w else w)
      | None => None
      end
  | ReleaseLocal wid i => Some (set_local (wid, i) None w)
  | Quiesce wid i =>
      if decide (locals w !! (wid, i) = None)
      then let w := quiesce_locked wid i wid w in Some (owe (S (progress_owed w)) w)
      else None
  | PublishProgress =>
      match progress_owed w with
      | S n => guarded (retirement_mutex_free w) (publish_progress (owe n w))
      | O => None
      end
  | AcquireCredit stop => if retirement_mutex_free w then snd <$> acquire_retirement_credit stop w else None
  | ReleaseCredit => guarded (retirement_mutex_free w) (release_uncommitted_credit w)
  | BuildCandidate s => guarded (use_count w s =? 0)%nat (set_candidates (s :: candidates w) w)
  | DropCandidate s => Some (drop_candidate s w)
  | Commit s now =>
      if decide (s ∈ candidates w) then guarded (retirement_mutex_free w) (commit (Some s) now (drop_candidate s w)).2 else None
  | Seal => guarded (retirement_mutex_free w) (seal_publication w)
  | Detach now =>
      guarded (retirement_mutex_free w && publication_sealed_ (publication w)) (detach_terminal_snapshot now w).2
  | StartReclaimer => guarded (retirement_mutex_free w) (run_reclaimer_begin w).2
  | ReclaimerStep now stop => Some (reclaimer_step now stop w)
  | WakeOnStop => guarded (retirement_mutex_free w) (wake_on_stop w)
  | RequestShutdown => guarded (retirement_mutex_free w) (request_reclaimer_shutdown w)
  | InjectFailure => guarded (retirement_mutex_free w) (inject_reclaimer_failure_for_testing w)
  | InjectFailureAfterCommit => guarded (retirement_mutex_free w) (inject_reclaimer_failure_after_next_commit_for_testing w)
  | EmergencyReclaim => guarded (retirement_mutex_free w) (emergency_reclaim_converged w).2
  end.

Inductive reachable (w0 : World) : World → Prop :=
  | reachable_refl : reachable w0 w0
  | reachable_step w a w' : reachable w0 w → act a w = Some w' → reachable w0 w'.
End operations.
End Publication.
