(* ===== verification/PublicationClaims.v ===== *)
(** * Properties of snapshot publication and reclamation *)
From stdpp Require Import functions.
From S2P Require Import Prelude CuckooFilter RadixTree DomainBlocklist FilterPublication.
Import Publication.

(** ** Epochs only move forward *)

Record epoch_le (e e' : WorkerEpoch) : Prop := {
  el_quiesced : quiesced_through_instance_id e ≤ quiesced_through_instance_id e';
  el_published : published_instance_id e ≤ published_instance_id e';
  el_observed : published_instance_id e = published_instance_id e' → observed_generation e ≤ observed_generation e';
  el_replaced : published_instance_id e < published_instance_id e' → published_instance_id e ≤ quiesced_through_instance_id e';
}.

Definition epochs_le (es es' : nat → WorkerEpoch) : Prop := ∀ i, epoch_le (es i) (es' i).

#[export] Instance epochs_le_refl : Reflexive epochs_le.
Proof. intros es i. split; lia. Qed.

Lemma epochs_le_insert es k e : epoch_le (es k) e → epochs_le es (<[k := e]> es).
Proof.
  intros H i. destruct (decide (i = k)) as [-> | Hne]; [by rewrite fn_lookup_insert |].
  rewrite fn_lookup_insert_ne by done. apply epochs_le_refl.
Qed.

(** A member of a cohort: its instance was published, and was replaced only after it
    was quiesced. *)
Record member_ok (es : nat → WorkerEpoch) (m : CohortMember) : Prop := {
  mo_epoch : member_epoch m = Some (member_worker_id m);
  mo_published : member_instance_id m ≤ published_instance_id (es (member_worker_id m));
  mo_replaced : member_instance_id m < published_instance_id (es (member_worker_id m)) →
                member_instance_id m ≤ quiesced_through_instance_id (es (member_worker_id m));
}.

Lemma member_ok_le es es' m : epochs_le es es' → member_ok es m → member_ok es' m.
Proof. intros Hle [H1 H2 H3]. destruct (Hle (member_worker_id m)). split; [done | lia | lia]. Qed.

Lemma member_complete_spec es g t m :
  member_ok es m →
  member_complete es g t m = true ↔
  member_instance_id m ≤ quiesced_through_instance_id (es (member_worker_id m)) ∨
  t = false ∧ published_instance_id (es (member_worker_id m)) = member_instance_id m ∧
  g ≤ observed_generation (es (member_worker_id m)).
Proof.
  intros [H1 _ _]. unfold member_complete. rewrite H1.
  destruct (_ <=? _) eqn:Hq; bool_hyps; [split; auto |].
  destruct t; [split; [done | intros [? | [? _]]; [lia | done]] |].
  rewrite andb_true_iff, Z.eqb_eq, Z.leb_le. split; [auto | intros [? | (_ & ? & ?)]; [lia | done]].
Qed.

(** Completion is stable: this is why B may read the epochs one load at a time. *)
Lemma member_complete_le es es' g t m :
  epochs_le es es' → member_ok es m → member_complete es g t m = true → member_complete es' g t m = true.
Proof.
  intros Hle Hok. rewrite !member_complete_spec by (done || by eapply member_ok_le).
  destruct (Hle (member_worker_id m)). destruct Hok as [_ H2 H3]. intros [? | (-> & ? & ?)]; [left; lia |].
  destruct (decide (published_instance_id (es (member_worker_id m)) = published_instance_id (es' (member_worker_id m))));
    [right; split_and!; [done | lia | lia] | left; lia].
Qed.

(** ** The invariant *)
Section invariant.
Context {F : Type} (heap : nat → FilterContext F).
Local Abbreviation gen := (snap_generation heap).

Record epochs_ok (p : Publication) (es : nat → WorkerEpoch) : Prop := {
  eo_in wid e : registry_at p wid = Some e →
    e = wid ∧ registration_state (es wid) ≠ Unregistered ∧
    quiesced_through_instance_id (es wid) < published_instance_id (es wid);
  eo_out wid : registry_at p wid = None → registration_state (es wid) = Unregistered ∧
    published_instance_id (es wid) = quiesced_through_instance_id (es wid);
  eo_pos wid : 0 ≤ quiesced_through_instance_id (es wid) ∧ 0 ≤ published_instance_id (es wid);
}.

Record pub_ok (p : Publication) : Prop := {
  po_pos : 0 < current_generation_ p;
  po_active s : active_snapshot_ p = Some s → gen s = current_generation_ p;
  po_open : active_snapshot_ p = None → publication_sealed_ p = true;
}.

Definition is_terminal (which : RecordName) : bool := match which with Retired => false | Terminal => true end.

(** Generation of the snapshot a record owns. *)
Definition owned_generation (which : RecordName) (p : Publication) : Z :=
  match which with Retired => current_generation_ p - 1 | Terminal => current_generation_ p end.

Record record_ok (p : Publication) (r : Retirement) (es : nat → WorkerEpoch) (which : RecordName) : Prop := {
  ro_idle : pending (record_of which r) = false → owner (record_of which r) = None ∧ destroying (record_of which r) = false;
  ro_owner : pending (record_of which r) = true → destroying (record_of which r) = bool_decide (owner (record_of which r) = None);
  ro_version : pending (record_of which r) = true → version_generation (version (record_of which r)) = current_generation_ p;
  ro_terminal : pending (record_of which r) = true → terminal (record_of which r) = is_terminal which;
  ro_members : pending (record_of which r) = true → Forall (member_ok es) (cohort (record_of which r));
  ro_generation s : owner (record_of which r) = Some s → gen s = owned_generation which p;
  ro_slot : pending (record_of which r) = true →
    match which with Retired => retirement_credit_held_ r = true | Terminal => active_snapshot_ p = None end;
}.

(** The owner a worker may have: the active snapshot, or that of a record whose cohort
    waits for the worker. *)
Definition holds (p : Publication) (r : Retirement) (es : nat → WorkerEpoch) (wid : nat) (i : Z) (s : nat) : Prop :=
  active_snapshot_ p = Some s ∨
  ∃ which, owner (record_of which r) = Some s ∧
    mkCohortMember wid i (Some wid) ∈ cohort (record_of which r) ∧
    (which = Retired → observed_generation (es wid) < current_generation_ p).

Definition locals_ok (p : Publication) (r : Retirement) (es : nat → WorkerEpoch) (l : gmap (nat * Z) nat) : Prop :=
  ∀ wid i s, l !! (wid, i) = Some s →
    registry_at p wid = Some wid ∧ published_instance_id (es wid) = i ∧ observed_generation (es wid) ≤ gen s ∧
    holds p r es wid i s.

Definition candidates_ok (p : Publication) (r : Retirement) (b : Reclaimer) (l : list nat) : Prop :=
  NoDup l ∧ ∀ s, s ∈ l → active_snapshot_ p ≠ Some s ∧ (∀ which, owner (record_of which r) ≠ Some s) ∧ sole_of b ≠ Some s.

Definition complete (r : Retirement) (es : nat → WorkerEpoch) (which : RecordName) (m : CohortMember) : Prop :=
  member_complete es (version_generation (version (record_of which r))) (is_terminal which) m = true.

(** What the loads done so far tell. *)
Definition loads_ok (r : Retirement) (es : nat → WorkerEpoch) (which : RecordName) (todo : list CohortMember)
    (loads : MemberLoads) : Prop :=
  (which = Terminal → loads = LoadQuiesced) ∧
  match loads, todo with
  | LoadSecond first observed, m :: _ =>
      first = member_instance_id m → version_generation (version (record_of which r)) ≤ observed → complete r es which m
  | _, _ => True
  end.

Definition none_destroying (r : Retirement) : Prop := ∀ which, destroying (record_of which r) = false.

Definition reclaimer_ok (p : Publication) (r : Retirement) (es : nat → WorkerEpoch) (b : Reclaimer) : Prop :=
  reclaimer_active_ r = (match b with Stopped _ => false | _ => true end) ∧
  match b with
  | Destroying which g _ sole =>
      (∀ other, destroying (record_of other r) = bool_decide (other = which)) ∧ pending (record_of which r) = true ∧
      g = current_generation_ p ∧ ∃ s, sole = Some s ∧ gen s = owned_generation which p
  | Checking which todo loads =>
      none_destroying r ∧ pending (record_of which r) = true ∧ loads_ok r es which todo loads ∧
      ∃ done, cohort (record_of which r) = done ++ todo ∧ Forall (complete r es which) done
  | Incomplete which | WaitingProgress which _ => none_destroying r ∧ pending (record_of which r) = true
  | _ => none_destroying r
  end.

Record inv (w : World) : Prop := {
  inv_pub : pub_ok (publication w);
  inv_epochs : epochs_ok (publication w) (epochs w);
  inv_record which : record_ok (publication w) (retirement w) (epochs w) which;
  inv_locals : locals_ok (publication w) (retirement w) (epochs w) (locals w);
  inv_candidates : candidates_ok (publication w) (retirement w) (reclaimer w) (candidates w);
  inv_reclaimer : reclaimer_ok (publication w) (retirement w) (epochs w) (reclaimer w);
}.

(** ** Steps of the workers *)

(** What a step on the epochs has to show. *)
Lemma inv_epoch_move w w' :
  inv w → retirement w' = retirement w → reclaimer w' = reclaimer w → candidates w' = candidates w →
  active_snapshot_ (publication w') = active_snapshot_ (publication w) →
  current_generation_ (publication w') = current_generation_ (publication w) →
  publication_sealed_ (publication w') = publication_sealed_ (publication w) →
  epochs_le (epochs w) (epochs w') → epochs_ok (publication w') (epochs w') →
  locals_ok (publication w') (retirement w') (epochs w') (locals w') → inv w'.
Proof.
  intros [H1 H2 H3 H4 H5 H6] Hr Hb Hc Ha Hg Hs Hle He Hl.
  split; try done.
  - destruct H1 as [P1 P2 P3]. split; rewrite ?Ha, ?Hg, ?Hs; done.
  - intros which. destruct (H3 which) as [R1 R2 R3 R4 R5 R6 R7]. rewrite Hr. split; try done.
    + intros Hp. rewrite Hg. by apply R3.
    + intros Hp. eapply Forall_impl; [| by apply R5]. intros m Hm. by eapply member_ok_le.
    + intros s Hs'. rewrite (R6 s Hs'). destruct which; simpl; by rewrite Hg.
    + intros Hp. specialize (R7 Hp). destruct which; [done | congruence].
  - rewrite Hc. destruct H5 as [D H5]. split; [done |]. intros s Hin. specialize (H5 s Hin). by rewrite Ha, Hr, Hb.
  - destruct H6 as [A6 H6]. rewrite Hb. split; [by rewrite Hr |]. rewrite Hr. destruct (reclaimer w); try done.
    + destruct H6 as (N & P & L & dn & Hd & Hall). split_and!; try done.
      * destruct L as [LT L]. split; [done |]. destruct loads; try done. destruct todo as [| m todo]; [done |].
        intros E1 E2. eapply member_complete_le; [done | | by apply L].
        pose proof (ro_members _ _ _ _ (H3 which) P) as Hm. rewrite Hd in Hm. apply Forall_app in Hm as [_ Hm].
        by apply Forall_cons_iff in Hm as [? _].
      * exists dn. split; [done |]. pose proof (ro_members _ _ _ _ (H3 which) P) as Hm. rewrite Hd in Hm.
        apply Forall_app in Hm as [Hm _]. apply list.Forall_forall. intros m Hin.
        eapply member_complete_le; [done | by eapply list.Forall_forall in Hm |]. by eapply list.Forall_forall in Hall.
    + destruct H6 as (N & P & -> & s & -> & Hgs). split_and!; try done. exists s. split; [done |]. rewrite Hgs. destruct which; simpl; by rewrite Hg.
Qed.

Lemma registry_at_insert p wid v i :
  (wid < length (registry_ p))%nat →
  registry_at (set_registry (<[wid := v]> (registry_ p)) p) i = if decide (i = wid) then v else registry_at p i.
Proof.
  intros Hlt. unfold registry_at. cbn [set_registry registry_]. case_decide as Hd.
  - subst. by rewrite list_lookup_insert_eq.
  - by rewrite list_lookup_insert_ne.
Qed.

Lemma registry_at_lt p wid e : registry_at p wid = Some e → (wid < length (registry_ p))%nat.
Proof. unfold registry_at. destruct (registry_ p !! wid) eqn:Hl; [| done]. intros _. by eapply lookup_lt_Some. Qed.

Lemma epochs_ok_registry p p' es : registry_ p' = registry_ p → epochs_ok p es → epochs_ok p' es.
Proof.
  intros Hr [E1 E2 E3]. assert (∀ i, registry_at p' i = registry_at p i) as Hat by (intros i; unfold registry_at; by rewrite Hr).
  split; [intros wid e | intros wid | done]; rewrite Hat; auto.
Qed.

(** Epochs of other workers do not matter to a local owner. *)
Lemma holds_other p p' r es es' wid i s :
  active_snapshot_ p' = active_snapshot_ p → current_generation_ p' = current_generation_ p → es' wid = es wid →
  holds p r es wid i s → holds p' r es' wid i s.
Proof. intros Ha Hg He [H | (which & H1 & H2 & H3)]; [left; congruence |]. right. exists which. by rewrite He, Hg. Qed.

Lemma register_inv w wid i w' : inv w → act heap (Register wid i) w = Some w' → inv w'.
Proof.
  intros Hinv. cbn [act]. destruct (_ <? i) eqn:Hlt; [| done]. bool_hyps. unfold register_worker.
  destruct (_ || publication_sealed_ _) eqn:Hguard; [intros [= <-]; done |]. bool_hyps.
  match goal with H : bool_decide _ = false |- _ => apply bool_decide_eq_false in H; rename H into Hreg end.
  apply dec_stable in Hreg.
  destruct (active_snapshot_ (publication w)) as [s |] eqn:Ha; [| by intros [= <-]]. intros [= <-].
  destruct (eo_out _ _ (inv_epochs _ Hinv) wid Hreg) as [Hst Hq]. pose proof (eo_pos _ _ (inv_epochs _ Hinv) wid) as Hpos.
  assert (epochs_le (epochs w) (<[wid := mkWorkerEpoch i kUnobservedFilterGeneration Starting
    (quiesced_through_instance_id (epochs w wid))]> (epochs w))) as Hle.
  { apply epochs_le_insert. split; simpl; lia. }
  apply (inv_epoch_move w); try done.
  - split; cbn [set_local set_locals set_publication set_epoch publication epochs reg_snapshot].
    + intros j e. rewrite registry_at_insert by done. destruct (decide (j = wid)) as [-> | Hne].
      * intros [= <-]. rewrite fn_lookup_insert. simpl. split_and!; [done | done | lia].
      * rewrite fn_lookup_insert_ne by done. apply (inv_epochs _ Hinv).
    + intros j. rewrite registry_at_insert by done. destruct (decide (j = wid)) as [-> | Hne]; [done |].
      rewrite fn_lookup_insert_ne by done. apply (inv_epochs _ Hinv).
    + intros j. destruct (decide (j = wid)) as [-> | Hne]; [rewrite fn_lookup_insert; simpl; lia |].
      rewrite fn_lookup_insert_ne by done. apply (inv_epochs _ Hinv).
  - intros j k t. cbn [set_local set_locals set_publication set_epoch publication epochs reg_snapshot locals retirement].
    rewrite registry_at_insert by done. rewrite lookup_insert_Some. intros [[[= <- <-] <-] | [Hne Hl]].
    + rewrite decide_True by done. rewrite fn_lookup_insert. cbn. split_and!; try done; [| by left].
      rewrite (po_active _ (inv_pub _ Hinv) s Ha). pose proof (po_pos _ (inv_pub _ Hinv)). unfold kUnobservedFilterGeneration. lia.
    + destruct (inv_locals _ Hinv j k t Hl) as (L1 & L2 & L3 & L4).
      destruct (decide (j = wid)) as [-> | Hj]; [congruence |]. rewrite fn_lookup_insert_ne by done.
      split_and!; try done. eapply holds_other; [| | | exact L4]; try done. by rewrite fn_lookup_insert_ne.
Qed.

(** An update of a registered epoch that keeps its instance. *)
Lemma epochs_ok_update p es wid e :
  epochs_ok p es → registry_at p wid = Some wid → published_instance_id e = published_instance_id (es wid) →
  quiesced_through_instance_id e = quiesced_through_instance_id (es wid) → registration_state e ≠ Unregistered →
  epochs_ok p (<[wid := e]> es).
Proof.
  intros [E1 E2 E3] Hreg Hp Hq Hs. split; intros j; destruct (decide (j = wid)) as [-> | Hne];
    rewrite ?fn_lookup_insert, ?fn_lookup_insert_ne by done; try done; try (by apply E1); try (by apply E2); try (by apply E3).
  - intros x Hx. destruct (E1 wid x Hx) as (-> & _ & ?). split_and!; [done | done | lia].
  - congruence.
  - rewrite Hp, Hq. apply E3.
Qed.

Lemma locals_ok_update p r es l wid e :
  locals_ok p r es l → published_instance_id e = published_instance_id (es wid) →
  observed_generation e = observed_generation (es wid) → locals_ok p r (<[wid := e]> es) l.
Proof.
  intros H Hp Ho j k t Hl. destruct (H j k t Hl) as (L1 & L2 & L3 & L4). destruct (decide (j = wid)) as [-> | Hne].
  - rewrite fn_lookup_insert, Hp, Ho. split_and!; try done. destruct L4 as [? | (which & A & B & C)]; [by left |].
    right. exists which. rewrite fn_lookup_insert, Ho. done.
  - rewrite fn_lookup_insert_ne by done. split_and!; try done. eapply holds_other; [| | | exact L4]; try done. by rewrite fn_lookup_insert_ne.
Qed.

Lemma mark_inv w wid i w' : inv w → act heap (MarkRegistered wid i) w = Some w' → inv w'.
Proof.
  intros Hinv [= <-]. unfold mark_worker_registered.
  destruct (_ || bool_decide (registration_state _ ≠ _)) eqn:Hguard; [done |]. bool_hyps.
  repeat match goal with H : bool_decide _ = false |- _ => apply bool_decide_eq_false in H; apply dec_stable in H end.
  destruct (_ || (_ <? _)) eqn:Hguard2; [done |].
  apply (inv_epoch_move w); try done; cbn [snd set_epoch publication epochs retirement locals].
  - apply epochs_le_insert. split; simpl; lia.
  - by apply epochs_ok_update; [apply Hinv | | | |].
  - by apply locals_ok_update; [apply Hinv | |].
Qed.

Lemma locals_ok_delete p r es l k : locals_ok p r es l → locals_ok p r es (delete k l).
Proof. intros H j i s [_ Hl]%lookup_delete_Some. by apply H. Qed.

Lemma release_inv w wid i w' : inv w → act heap (ReleaseLocal wid i) w = Some w' → inv w'.
Proof.
  intros Hinv [= <-]. apply (inv_epoch_move w); try done; [apply Hinv |]. apply locals_ok_delete. apply Hinv.
Qed.

(** What [refresh_worker_snapshot] does for a worker that owns a snapshot while one is
    active: it always succeeds. *)
Lemma refresh_spec w wid i s next :
  inv w → locals w !! (wid, i) = Some s → active_snapshot_ (publication w) = Some next →
  let advanced := observed_generation (epochs w wid) <? gen next in
  observed_generation (epochs w wid) ≤ gen next ∧
  refresh_locked heap (Some s) i wid w =
    (true, advanced, Some next,
     if advanced then set_epoch wid (mkWorkerEpoch i (gen next) (registration_state (epochs w wid))
                        (quiesced_through_instance_id (epochs w wid))) w else w).
Proof.
  intros Hinv Hl Ha. destruct (inv_locals _ Hinv wid i s Hl) as (Hreg & Hpub & Hobs & Hh).
  destruct (eo_in _ _ (inv_epochs _ Hinv) wid wid Hreg) as (_ & Hst & _).
  pose proof (po_active _ (inv_pub _ Hinv) next Ha) as Hg.
  assert (gen s ≤ gen next) as Hle.
  { destruct Hh as [Hs | (which & Ho & _)]; [rewrite Ha in Hs; injection Hs as ->; done |].
    rewrite (ro_generation _ _ _ _ (inv_record _ Hinv which) s Ho), Hg. destruct which; simpl; lia. }
  split; [lia |].
  unfold refresh_locked. rewrite (proj2 (Z.eqb_eq _ _) Hpub), bool_decide_eq_false_2 by done. cbn [negb orb].
  rewrite Ha, (proj2 (Z.ltb_ge _ _)), (proj2 (Z.ltb_ge _ _)) by lia. cbn [orb].
  replace (if decide (s = next) then s else next) with next by (by case_decide).
  rewrite Hpub. by destruct (_ <? gen next).
Qed.

Lemma locals_ok_refresh p r es es' l wid i next :
  locals_ok p r es l → registry_at p wid = Some wid → published_instance_id (es wid) = i → active_snapshot_ p = Some next →
  (∀ j, j ≠ wid → es' j = es j) → published_instance_id (es' wid) = i → observed_generation (es' wid) ≤ gen next →
  locals_ok p r es' (<[(wid, i) := next]> l).
Proof.
  intros H Hreg Hp Ha Hes Hp' Ho j k t. rewrite lookup_insert_Some. intros [[[= <- <-] <-] | [Hne Hl]].
  - split_and!; try done. by left.
  - destruct (H j k t Hl) as (L1 & L2 & L3 & L4). destruct (decide (j = wid)) as [-> | Hj]; [congruence |].
    rewrite (Hes j Hj). split_and!; try done. eapply holds_other; [| | | exact L4]; try done. by apply Hes.
Qed.

Lemma refresh_inv w wid i w' : inv w → act heap (Refresh wid i) w = Some w' → inv w'.
Proof.
  intros Hinv. cbn [act]. destruct (locals w !! (wid, i)) as [s |] eqn:Hl; [| done].
  destruct (inv_locals _ Hinv wid i s Hl) as (Hreg & Hpub & Hobs & Hh).
  destruct (eo_in _ _ (inv_epochs _ Hinv) wid wid Hreg) as (_ & Hst & _).
  destruct (active_snapshot_ (publication w)) as [next |] eqn:Ha.
  - destruct (refresh_spec w wid i s next Hinv Hl Ha) as [Hle ->].
    destruct (_ <? gen next); intros [= <-]; apply (inv_epoch_move w); try done;
      cbn [owe set_local set_locals set_epoch publication epochs retirement locals].
    + apply epochs_le_insert. split; simpl; lia.
    + by apply epochs_ok_update; [apply Hinv | | | |].
    + eapply locals_ok_refresh; [apply Hinv | try done.. | |]; rewrite ?fn_lookup_insert; try done.
      intros j Hj. by rewrite fn_lookup_insert_ne.
    + apply Hinv.
    + by eapply locals_ok_refresh; [apply Hinv | ..].
  - unfold refresh_locked. rewrite Ha. rewrite (proj2 (Z.eqb_eq _ _) Hpub), bool_decide_eq_false_2 by done.
    intros [= <-]. apply (inv_epoch_move w); try done; [apply Hinv |]. cbn [set_local set_locals locals].
    rewrite insert_id by done. apply Hinv.
Qed.

Lemma quiesce_locked_inv w wid i : inv w → locals w !! (wid, i) = None → inv (quiesce_locked wid i wid w).
Proof.
  intros Hinv Hl. unfold quiesce_locked. destruct (_ && _) eqn:Hguard; [| done]. bool_hyps.
  match goal with H : bool_decide _ = true |- _ => apply bool_decide_eq_true in H; rename H into Hreg end.
  destruct (eo_in _ _ (inv_epochs _ Hinv) wid wid Hreg) as (_ & Hst & Hq). pose proof (eo_pos _ _ (inv_epochs _ Hinv) wid).
  apply (inv_epoch_move w); try done; cbn [set_publication set_epoch publication epochs retirement locals].
  - apply epochs_le_insert. split; simpl; lia.
  - split; intros j; rewrite ?registry_at_insert by done; destruct (decide (j = wid)) as [-> | Hne];
      rewrite ?fn_lookup_insert, ?fn_lookup_insert_ne by done; try apply (inv_epochs _ Hinv);
      cbn [quiesced_through_instance_id published_instance_id registration_state]; [done | | lia].
    intros _. split; [done | lia].
  - intros j k t Ht. destruct (inv_locals _ Hinv j k t Ht) as (L1 & L2 & L3 & L4).
    rewrite registry_at_insert by done. destruct (decide (j = wid)) as [-> | Hne]; [congruence |].
    rewrite fn_lookup_insert_ne by done. split_and!; try done.
    eapply holds_other; [| | | exact L4]; try done. by rewrite fn_lookup_insert_ne.
Qed.

(** Only the bookkeeping of progress changes. *)
Lemma inv_owe n w : inv w → inv (owe n w).
Proof. intros []. by split. Qed.

Lemma quiesce_inv w wid i w' : inv w → act heap (Quiesce wid i) w = Some w' → inv w'.
Proof.
  intros Hinv. cbn [act]. destruct (decide _) as [Hl |]; [| done]. intros [= <-].
  apply inv_owe. by apply quiesce_locked_inv.
Qed.

(** ** Steps of the writer and of the coordinator *)

(** What a step that leaves the records alone has to show. *)
Lemma inv_bookkeeping w w' :
  inv w → publication w' = publication w → epochs w' = epochs w → locals w' = locals w → candidates w' = candidates w →
  reclaimer w' = reclaimer w → retired_ (retirement w') = retired_ (retirement w) →
  terminal_ (retirement w') = terminal_ (retirement w) → reclaimer_active_ (retirement w') = reclaimer_active_ (retirement w) →
  (pending (retired_ (retirement w)) = true → retirement_credit_held_ (retirement w') = true) → inv w'.
Proof.
  intros [H1 H2 H3 H4 H5 H6] Hp He Hl Hc Hb Hr Ht Ha Hcr.
  assert (∀ which, record_of which (retirement w') = record_of which (retirement w)) as Hrec by (by intros []).
  split; rewrite ?Hp, ?He, ?Hl, ?Hc, ?Hb; try done.
  - intros which. destruct (H3 which) as [R1 R2 R3 R4 R5 R6 R7]. split; rewrite Hrec; try done.
    destruct which; [done | exact R7].
  - intros j k t Hj. destruct (H4 j k t Hj) as (L1 & L2 & L3 & L4). split_and!; try done.
    destruct L4 as [? | (which & A & B & C)]; [by left |]. right. exists which. by rewrite Hrec.
  - destruct H5 as [D H5]. split; [done |]. intros s Hin. destruct (H5 s Hin) as (A & B & C). split_and!; try done.
    intros which. by rewrite Hrec.
  - destruct H6 as [A6 H6]. split; [by rewrite Ha |].
    assert (none_destroying (retirement w) → none_destroying (retirement w')) as Hn by (intros Hn which; by rewrite Hrec).
    destruct (reclaimer w); rewrite ?Hrec; try (by apply Hn).
    + unfold loads_ok, complete in *. rewrite Hrec. naive_solver.
    + naive_solver.
    + naive_solver.
    + destruct H6 as (N & P & G & s & Hs). split_and!; [| done | done | by exists s]. intros other. by rewrite Hrec.
Qed.

Lemma publish_progress_inv w : inv w → inv (publish_progress w).
Proof. intros Hinv. apply (inv_bookkeeping w); try done. apply (ro_slot _ _ _ _ (inv_record _ Hinv Retired)). Qed.

Lemma acquire_inv w stop b w' : inv w → acquire_retirement_credit stop w = Some (b, w') → inv w'.
Proof.
  intros Hinv. unfold acquire_retirement_credit. repeat case_match; intros [= <- <-]; try done.
  by apply (inv_bookkeeping w).
Qed.

Lemma release_credit_inv w : inv w → inv (release_uncommitted_credit w).
Proof.
  intros Hinv. unfold release_uncommitted_credit. destruct (negb _) eqn:Hp; [| done]. bool_hyps.
  apply (inv_bookkeeping w); try done. congruence.
Qed.

Lemma set_requests_inv w a b c : inv w → inv (set_retirement (set_requests a b c (retirement w)) w).
Proof. intros Hinv. apply (inv_bookkeeping w); try done. apply (ro_slot _ _ _ _ (inv_record _ Hinv Retired)). Qed.

Lemma candidates_inv w l :
  inv w → candidates_ok (publication w) (retirement w) (reclaimer w) l → inv (set_candidates l w).
Proof. intros [] H. by split. Qed.

Lemma option_count_0 o s : option_count o s = 0%nat → o ≠ Some s.
Proof. unfold option_count. by case_decide. Qed.

Lemma build_inv w s w' : inv w → act heap (BuildCandidate s) w = Some w' → inv w'.
Proof.
  intros Hinv. cbn [act guarded]. destruct (_ =? _)%nat eqn:Hu; [| done]. intros [= <-]. bool_hyps.
  apply candidates_inv; [done |]. destruct (inv_candidates _ Hinv) as [D H]. unfold use_count in Hu. split.
  - apply list.NoDup_cons. split; [| done]. intros Hin.
    assert (s ∈ filter (λ c, c = s) (candidates w)) as Hf by (by apply list_elem_of_filter).
    destruct (filter _ (candidates w)); [by apply elem_of_nil in Hf | simpl in Hu; lia].
  - intros t [-> | Hin]%elem_of_cons; [| by apply H].
    pose proof (λ o, option_count_0 o s) as Ho.
    split; [apply Ho; lia |]. split; [| apply Ho; lia]. intros which. destruct which; apply Ho; simpl; lia.
Qed.

Lemma drop_candidate_inv w s : inv w → inv (drop_candidate s w).
Proof.
  intros Hinv. apply candidates_inv; [done |]. destruct (inv_candidates _ Hinv) as [D H]. split.
  - apply NoDup_ListNoDup. apply List.NoDup_filter. by apply NoDup_ListNoDup.
  - intros t Hin. apply H. apply list_elem_of_In in Hin. apply filter_In in Hin as [Hin _]. by apply list_elem_of_In.
Qed.

Lemma dropped_candidate w s : s ∉ candidates (drop_candidate s w).
Proof. intros Hin. apply list_elem_of_In in Hin. apply filter_In in Hin as [_ Hin]. bool_hyps. done. Qed.

Lemma seal_inv w : inv w → inv (seal_publication w).
Proof.
  intros [H1 H2 H3 H4 H5 H6]. split; try done.
  - destruct H1. by split.
  - destruct H2. by split.
  - intros which. destruct (H3 which). by split.
Qed.

(** ** Taking a cohort *)

Lemma collect_cohort_elem registry wid es m :
  m ∈ collect_cohort registry wid es ↔
  ∃ i e, registry !! i = Some (Some e) ∧ m = mkCohortMember (wid + i) (published_instance_id (es e)) (Some e) ∧
    published_instance_id (es e) ≠ 0 ∧ registration_state (es e) ≠ Unregistered.
Proof.
  revert wid. induction registry as [| [e |] registry IH]; intros wid; cbn [collect_cohort].
  - split; [by intros ?%elem_of_nil | by intros (i & e & ? & _)].
  - rewrite elem_of_app, IH. split.
    + intros [Hin | (i & e' & Hi & -> & H)].
      * destruct (_ && _) eqn:Hg; [| by apply elem_of_nil in Hin]. apply list_elem_of_singleton in Hin as ->. bool_hyps.
        exists 0%nat, e. split_and!; [done | f_equal; lia | done |]. intros Hu. rewrite Hu in *. done.
      * exists (S i), e'. split_and!; [done | f_equal; lia | apply H | apply H].
    + intros ([| i] & e' & Hi & -> & Hp & Hr).
      * injection Hi as ->. left. rewrite (proj2 (Z.eqb_neq _ _) Hp). cbn [negb andb].
        rewrite Nat.add_0_r. destruct (registration_state (es e')); [done | |]; apply list_elem_of_singleton; done.
      * right. exists i, e'. split_and!; [done | f_equal; lia | done | done].
  - rewrite IH. split.
    + intros (i & e' & Hi & -> & H). exists (S i), e'. split_and!; [done | f_equal; lia | apply H | apply H].
    + intros ([| i] & e' & Hi & -> & H); [done |]. exists i, e'. split_and!; [done | f_equal; lia | apply H | apply H].
Qed.

Lemma cohort_members p es : epochs_ok p es → Forall (member_ok es) (collect_cohort (registry_ p) 0 es).
Proof.
  intros [E1 _ _]. apply list.Forall_forall. intros m (i & e & Hi & -> & Hp & _)%collect_cohort_elem.
  destruct (E1 i e) as (-> & _ & Hq); [by unfold registry_at; rewrite Hi |].
  split; cbn [member_epoch member_worker_id member_instance_id Nat.add]; [done | done | lia].
Qed.

(** Every worker that owns a snapshot is in the cohort. *)
Lemma cohort_takes p es wid :
  epochs_ok p es → registry_at p wid = Some wid →
  mkCohortMember wid (published_instance_id (es wid)) (Some wid) ∈ collect_cohort (registry_ p) 0 es.
Proof.
  intros [E1 _ E3] Hreg. destruct (E1 wid wid Hreg) as (_ & Hs & Hq). destruct (E3 wid).
  apply collect_cohort_elem. exists wid, wid. split_and!; [| done | lia | done].
  unfold registry_at in Hreg. destruct (registry_ p !! wid) eqn:Hl; [by rewrite Hreg | done].
Qed.

Lemma owner_pending w which s : inv w → owner (record_of which (retirement w)) = Some s → pending (record_of which (retirement w)) = true.
Proof.
  intros Hinv Ho. apply not_false_iff_true. intros Hp.
  destruct (ro_idle _ _ _ _ (inv_record _ Hinv which) Hp). congruence.
Qed.

Lemma open_no_terminal w : inv w → publication_sealed_ (publication w) = false → pending (terminal_ (retirement w)) = false.
Proof.
  intros Hinv Hs. apply not_true_iff_false. intros Hp. pose proof (ro_slot _ _ _ _ (inv_record _ Hinv Terminal) Hp) as Ha.
  simpl in Ha. by rewrite (po_open _ (inv_pub _ Hinv) Ha) in Hs.
Qed.

(** While no record is pending, B neither waits for one nor destroys one. *)
Lemma idle_reclaimer w :
  inv w → retirement_mutex_free w = true → (∀ which, pending (record_of which (retirement w)) = false) →
  match reclaimer w with Stopped _ | Unlocked | Exiting _ => True | _ => False end.
Proof.
  intros Hinv Hm Hp. destruct (inv_reclaimer _ Hinv) as [_ Hb]. unfold retirement_mutex_free in Hm.
  destruct (reclaimer w); try done.
  - destruct Hb as [_ Hb]. by rewrite Hp in Hb.
  - destruct Hb as (_ & Hb & _). by rewrite Hp in Hb.
Qed.

(** The world after a successful commit. *)
Record committed (s : nat) (now : Z) (w w' : World) : Prop := {
  cm_active : active_snapshot_ (publication w') = Some s;
  cm_version : current_version w' = mkFilterVersion (current_generation w + 1) (snap_rule_count heap s);
  cm_registry : registry_ (publication w') = registry_ (publication w);
  cm_open : publication_sealed_ (publication w') = false ∧ publication_sealed_ (publication w) = false;
  cm_generation : gen s = current_generation w + 1;
  cm_retired : retired_ (retirement w') =
    mkRetirementRecord (active_snapshot_ (publication w)) (current_version w') (snap_bytes heap s)
      (current_normalized_rule_bytes_ (publication w)) (collect_cohort (registry_ (publication w)) 0 (epochs w)) now
      true false false;
  cm_terminal : terminal_ (retirement w') = terminal_ (retirement w);
  cm_idle : pending (retired_ (retirement w)) = false;
  cm_credit : retirement_credit_held_ (retirement w) = true ∧ retirement_credit_held_ (retirement w') = true;
  cm_active_flag : reclaimer_active_ (retirement w') = reclaimer_active_ (retirement w);
  cm_rest : epochs w' = epochs w ∧ locals w' = locals w ∧ candidates w' = candidates w ∧ reclaimer w' = reclaimer w;
}.

Lemma commit_cases s now w :
  (∃ e, commit heap (Some s) now w = (Err e, w)) ∨
  ∃ v n w', commit heap (Some s) now w = (Val (v, n), w') ∧ committed s now w w'.
Proof.
  unfold commit. destruct (_ || pending _) eqn:H1; [left; by eexists |]. bool_hyps.
  destruct (publication_sealed_ _) eqn:H2; [left; by eexists |].
  destruct (snap_generation heap s =? 0) eqn:H3; [left; by eexists |].
  destruct (_ || negb _) eqn:H4; [left; by eexists |]. bool_hyps. right. eexists _, _, _. split; [done |].
  split; unfold current_version, current_generation; cbn; try done; congruence.
Qed.

Lemma commit_inv s now w : inv w → s ∉ candidates w → retirement_mutex_free w = true → inv (commit heap (Some s) now w).2.
Proof.
  intros Hinv Hs Hm. destruct (commit_cases s now w) as [[e ->] | (v & n & w' & -> & [A V R [O O'] G Re T I [C C'] Fl (E & L & Ca & B)])];
    [done |]. cbn [snd]. unfold current_version, current_generation in *. injection V as Vg Vr.
  pose proof (open_no_terminal w Hinv O') as Ht.
  assert (∀ which, pending (record_of which (retirement w)) = false) as Hidle by (intros []; done).
  pose proof (idle_reclaimer w Hinv Hm Hidle) as Hb. pose proof (po_pos _ (inv_pub _ Hinv)) as Hpos.
  split.
  - split; [lia | by intros t; rewrite A; intros [= <-]; lia | congruence].
  - rewrite E. by apply (epochs_ok_registry (publication w)), Hinv.
  - rewrite E. intros []; split; cbn [record_of]; rewrite ?Re, ?T; cbn; try done.
    + intros _. symmetry. apply bool_decide_eq_false. intros Ha. apply (po_open _ (inv_pub _ Hinv)) in Ha. congruence.
    + intros _. apply cohort_members, Hinv.
    + intros t Ha. apply (po_active _ (inv_pub _ Hinv)) in Ha. lia.
    + apply (inv_record _ Hinv Terminal).
    + by rewrite Ht.
    + by rewrite Ht.
    + by rewrite Ht.
    + by rewrite Ht.
    + intros t Ho. apply (owner_pending w Terminal) in Ho; [| done]. simpl in Ho. congruence.
    + by rewrite Ht.
  - rewrite E, L. intros j k t Hj. destruct (inv_locals _ Hinv j k t Hj) as (L1 & L2 & L3 & L4).
    split_and!; try done; [by unfold registry_at in *; rewrite R |]. right. exists Retired. cbn [record_of]. rewrite Re. cbn.
    destruct L4 as [Ha | (which & Ho & _)].
    + split_and!; [done | |].
      * rewrite <- L2. by apply cohort_takes; [apply Hinv |].
      * intros _. apply (po_active _ (inv_pub _ Hinv)) in Ha. lia.
    + apply (owner_pending w which) in Ho; [| done]. destruct which; simpl in Ho; congruence.
  - rewrite Ca, B. destruct (inv_candidates _ Hinv) as [D H]. split; [done |]. intros t Hin.
    destruct (H t Hin) as (K1 & K2 & K3). split; [congruence |]. split; [| done].
    intros []; cbn [record_of]; rewrite ?Re, ?T; [done | apply (K2 Terminal)].
  - destruct (inv_reclaimer _ Hinv) as [F1 F2]. rewrite B. split; [by rewrite Fl |].
    assert (none_destroying (retirement w) → none_destroying (retirement w')) as Hn.
    { intros Hn []; cbn [record_of]; rewrite ?Re, ?T; [done | apply (Hn Terminal)]. }
    destruct (reclaimer w); try done; by apply Hn.
Qed.

Lemma detach_inv now w :
  inv w → publication_sealed_ (publication w) = true → retirement_mutex_free w = true →
  inv (detach_terminal_snapshot heap now w).2.
Proof.
  intros Hinv Hs Hm. unfold detach_terminal_snapshot. destruct (pending (terminal_ _)) eqn:Hp; [done |].
  destruct (active_snapshot_ (publication w)) as [s |] eqn:Ha; [| done]. cbn [snd].
  pose proof (po_active _ (inv_pub _ Hinv) s Ha) as Hg.
  assert (∀ t, owner (terminal_ (retirement w)) ≠ Some t) as Hno.
  { intros t Ho. apply (owner_pending w Terminal t Hinv) in Ho. simpl in Ho. congruence. }
  split; cbn [set_publication set_retirement publication retirement epochs locals candidates reclaimer].
  - destruct (inv_pub _ Hinv). by split.
  - by apply (epochs_ok_registry (publication w)), Hinv.
  - intros []; [destruct (inv_record _ Hinv Retired) as [R1 R2 R3 R4 R5 R6 R7]; by split |].
    split; cbn; try done.
    + intros _. by apply cohort_members, Hinv.
    + by intros t [= <-].
  - intros j k t Hj. destruct (inv_locals _ Hinv j k t Hj) as (L1 & L2 & L3 & L4). split_and!; try done.
    right. destruct L4 as [Ht | ([] & Ho & L4)].
    + exists Terminal. cbn. rewrite Ha in Ht. injection Ht as ->. split_and!; [done | | done].
      rewrite <- L2. by apply cohort_takes; [apply Hinv |].
    + by exists Retired.
    + by apply Hno in Ho.
  - destruct (inv_candidates _ Hinv) as [D H]. split; [done |]. intros t Hin. destruct (H t Hin) as (K1 & K2 & K3).
    split; [done |]. split; [| done]. intros []; [apply (K2 Retired) | cbn; congruence].
  - destruct (inv_reclaimer _ Hinv) as [F1 F2]. split; [done |]. unfold retirement_mutex_free in Hm.
    assert (∀ r', retired_ r' = retired_ (retirement w) → destroying (terminal_ r') = false → none_destroying (retirement w) →
      none_destroying r') as Hn by (intros r' E1 E2 Hn []; cbn [record_of]; [rewrite E1; apply (Hn Retired) | done]).
    destruct (reclaimer w) as [| | | | [] | | [] |]; try done; try (by apply Hn).
    + destruct F2 as [N P]. split; [by apply Hn | done].
    + destruct F2 as [_ P]. simpl in P. congruence.
    + destruct F2 as (N & P & G & K). split_and!; try done. intros []; [apply (N Retired) | done].
    + destruct F2 as (_ & P & _). simpl in P. congruence.
Qed.

(** ** The last owner *)

(** Once the cohort is complete no worker owns the snapshot. *)
Lemma complete_no_local w which s wid i :
  inv w → owner (record_of which (retirement w)) = Some s →
  Forall (complete (retirement w) (epochs w) which) (cohort (record_of which (retirement w))) →
  locals w !! (wid, i) ≠ Some s.
Proof.
  intros Hinv Ho Hall Hl. destruct (inv_locals _ Hinv wid i s Hl) as (L1 & L2 & L3 & L4).
  pose proof (owner_pending w which s Hinv Ho) as Hp.
  pose proof (ro_generation _ _ _ _ (inv_record _ Hinv which) s Ho) as Hg.
  destruct L4 as [Ha | (which' & Ho' & Hin & Hobs)].
  - pose proof (po_active _ (inv_pub _ Hinv) s Ha) as Hg'. destruct which; simpl in Hg; [lia |].
    pose proof (ro_slot _ _ _ _ (inv_record _ Hinv Terminal) Hp) as Hs. simpl in Hs. congruence.
  - pose proof (ro_generation _ _ _ _ (inv_record _ Hinv which') s Ho') as Hg'.
    assert (which' = which) as -> by (destruct which, which'; simpl in *; (done || lia)).
    eapply list.Forall_forall in Hall; [| exact Hin].
    pose proof (ro_members _ _ _ _ (inv_record _ Hinv which) Hp) as Hm. eapply list.Forall_forall in Hm; [| exact Hin].
    apply member_complete_spec in Hall; [| done]. cbn [member_instance_id member_worker_id] in Hall.
    destruct (eo_in _ _ (inv_epochs _ Hinv) wid wid L1) as (_ & _ & Hq).
    destruct Hall as [Hall | (Ht & _ & Hall)]; [lia |].
    rewrite (ro_version _ _ _ _ (inv_record _ Hinv which) Hp) in Hall. destruct which; [| done]. specialize (Hobs eq_refl). lia.
Qed.

Lemma option_count_ne o s : o ≠ Some s → option_count o s = 0%nat.
Proof. intros H. unfold option_count. by rewrite decide_False. Qed.

Lemma option_count_eq s : option_count (Some s) s = 1%nat.
Proof. unfold option_count. by rewrite decide_True. Qed.

Lemma locals_count_0 (l : gmap (nat * Z) nat) s :
  (∀ wid i, l !! (wid, i) ≠ Some s) → size (filter (λ kv : (nat * Z) * nat, kv.2 = s) l) = 0%nat.
Proof.
  intros H. apply map_size_empty_iff. apply map_eq. intros [wid i]. rewrite lookup_empty.
  apply map_lookup_filter_None. right. intros t Ht Heq. simpl in Heq. subst. by apply H in Ht.
Qed.

Lemma candidates_count_0 (l : list nat) s : s ∉ l → length (filter (λ c, c = s) l) = 0%nat.
Proof.
  intros H. apply length_zero_iff_nil. destruct (filter (λ c, c = s) l) as [| c l'] eqn:Hf; [done |].
  assert (c ∈ filter (λ c, c = s) l) as Hc by (rewrite Hf; left).
  by apply list_elem_of_filter in Hc as [-> Hc].
Qed.

(** ... and the record is its only owner, so B does not give up. *)
Lemma complete_sole_owner w which s :
  inv w → owner (record_of which (retirement w)) = Some s →
  Forall (complete (retirement w) (epochs w) which) (cohort (record_of which (retirement w))) → use_count w s = 1%nat.
Proof.
  intros Hinv Ho Hall. pose proof (owner_pending w which s Hinv Ho) as Hp.
  pose proof (ro_generation _ _ _ _ (inv_record _ Hinv which) s Ho) as Hg. unfold use_count.
  rewrite locals_count_0 by (intros ? ?; by eapply complete_no_local).
  rewrite candidates_count_0 by (intros Hin; destruct (inv_candidates _ Hinv) as [_ H]; by destruct (H s Hin) as (_ & K & _); apply (K which)).
  assert (active_snapshot_ (publication w) ≠ Some s) as Ha.
  { intros Ha. pose proof (po_active _ (inv_pub _ Hinv) s Ha). destruct which; simpl in Hg; [lia |].
    pose proof (ro_slot _ _ _ _ (inv_record _ Hinv Terminal) Hp) as Hs. simpl in Hs. congruence. }
  assert (∀ other, other ≠ which → owner (record_of other (retirement w)) ≠ Some s) as Hother.
  { intros other Hne Ho'. pose proof (ro_generation _ _ _ _ (inv_record _ Hinv other) s Ho').
    destruct which, other; simpl in *; (done || lia). }
  assert (sole_of (reclaimer w) ≠ Some s) as Hsole.
  { destruct (inv_reclaimer _ Hinv) as [_ Hb]. destruct (reclaimer w) as [| | | | | | which' g b sole |]; try done.
    destruct Hb as (N & _ & _ & t & -> & Ht). cbn [sole_of]. intros [= ->].
    destruct (decide (which' = which)) as [-> | Hne]; [| destruct which, which'; simpl in *; (done || lia)].
    pose proof (ro_owner _ _ _ _ (inv_record _ Hinv which) Hp) as Hd. rewrite N, bool_decide_eq_true_2 in Hd by done.
    symmetry in Hd. apply bool_decide_eq_true in Hd. congruence. }
  rewrite (option_count_ne _ _ Ha), (option_count_ne _ _ Hsole). destruct which; cbn [record_of] in Ho; rewrite Ho, option_count_eq.
  - pose proof (option_count_ne _ _ (Hother Terminal ltac:(done))) as Hc. cbn [record_of] in Hc. lia.
  - pose proof (option_count_ne _ _ (Hother Retired ltac:(done))) as Hc. cbn [record_of] in Hc. lia.
Qed.

(** ** Steps of the reclaimer *)

Lemma set_reclaimer_inv w b :
  inv w → sole_of b = None → reclaimer_ok (publication w) (retirement w) (epochs w) b → inv (set_reclaimer b w).
Proof.
  intros [H1 H2 H3 H4 [D H5] H6] Hs Hb. split; try done. split; [done |]. intros s Hin. cbn [set_reclaimer reclaimer].
  rewrite Hs. destruct (H5 s Hin) as (? & ? & _). done.
Qed.

(** Exiting, or going back to the head of the loop, while no record is destroyed. *)
Lemma leave_inv w b :
  inv w → none_destroying (retirement w) → reclaimer_active_ (retirement w) = true →
  match b with LoopHead | Unlocked | Exiting _ => True | _ => False end → inv (set_reclaimer b w).
Proof. intros Hinv Hn Ha Hb. apply set_reclaimer_inv; [done | by destruct b | split; by destruct b]. Qed.

Lemma claim_inv w which :
  inv w → none_destroying (retirement w) → reclaimer_active_ (retirement w) = true →
  pending (record_of which (retirement w)) = true →
  Forall (complete (retirement w) (epochs w) which) (cohort (record_of which (retirement w))) →
  ∃ s, owner (record_of which (retirement w)) = Some s ∧
    inv (set_reclaimer (Destroying which (version_generation (version (record_of which (retirement w))))
           (retired_bytes (record_of which (retirement w))) (Some s)) (set_retirement (claim_record which (retirement w)) w)).
Proof.
  intros Hinv Hn Hact Hp Hall. pose proof (inv_record _ Hinv which) as [R1 R2 R3 R4 R5 R6 R7].
  specialize (R2 Hp). rewrite (Hn which) in R2. symmetry in R2. apply bool_decide_eq_false in R2.
  destruct (owner (record_of which (retirement w))) as [s |] eqn:Ho; [| done]. exists s. split; [done |].
  assert (∀ other, other ≠ which → record_of other (claim_record which (retirement w)) = record_of other (retirement w)) as Hother
    by (intros other; by destruct which, other).
  assert (owner (record_of which (claim_record which (retirement w))) = None) as Hnone by (by destruct which).
  split; cbn [set_reclaimer set_retirement publication retirement epochs locals candidates reclaimer]; try apply Hinv.
  - intros other. destruct (decide (other = which)) as [-> | Hne].
    + destruct which; cbn [record_of] in *; split; cbn; (done || congruence).
    + destruct (inv_record _ Hinv other) as [Q1 Q2 Q3 Q4 Q5 Q6 Q7]. split; rewrite (Hother other Hne); try done.
      intros Hp'. specialize (Q7 Hp'). by destruct which, other.
  - intros j k t Hj. destruct (inv_locals _ Hinv j k t Hj) as (L1 & L2 & L3 & L4). split_and!; try done.
    destruct L4 as [Ha | (other & Ho' & Hc)]; [by left |]. right. exists other.
    destruct (decide (other = which)) as [-> | Hne]; [| by rewrite (Hother other Hne)].
    rewrite Ho in Ho'. injection Ho' as ->. by eapply complete_no_local in Hj.
  - destruct (inv_candidates _ Hinv) as [D H]. split; [done |]. intros t Hin. destruct (H t Hin) as (K1 & K2 & _).
    split; [done |]. split.
    + intros other. destruct (decide (other = which)) as [-> | Hne]; [by rewrite Hnone |]. rewrite (Hother other Hne). apply K2.
    + cbn [sole_of]. intros [= ->]. by apply (K2 which).
  - split; [by destruct which |]. split.
    + intros other. destruct (decide (other = which)) as [-> | Hne];
        [rewrite bool_decide_eq_true_2 by done; by destruct which |].
      rewrite bool_decide_eq_false_2 by done. rewrite (Hother other Hne). apply Hn.
    + split; [by destruct which |]. split; [by apply R3 |]. exists s. split; [done |]. by apply R6.
Qed.

(** A record whose snapshot no worker owns goes idle. *)
Lemma clear_inv w which r' b :
  inv w → (∀ wid i s, locals w !! (wid, i) = Some s → owner (record_of which (retirement w)) ≠ Some s) →
  (∀ other, other ≠ which → record_of other r' = record_of other (retirement w) ∧ destroying (record_of other r') = false) →
  owner (record_of which r') = None → pending (record_of which r') = false → destroying (record_of which r') = false →
  (which = Terminal → retirement_credit_held_ r' = retirement_credit_held_ (retirement w)) →
  reclaimer_active_ r' = (match b with Stopped _ => false | _ => true end) →
  match b with Stopped _ | LoopHead => True | _ => False end → inv (set_reclaimer b (set_retirement r' w)).
Proof.
  intros Hinv Ho Hother Ho' Hp' Hd' Hcr Ha Hb.
  split; cbn [set_reclaimer set_retirement publication retirement epochs locals candidates reclaimer]; try apply Hinv.
  - intros other. destruct (decide (other = which)) as [-> | Hne].
    + split; rewrite ?Ho', ?Hp'; done.
    + destruct (Hother other Hne) as [Hr _]. destruct (inv_record _ Hinv other) as [Q1 Q2 Q3 Q4 Q5 Q6 Q7].
      split; rewrite Hr; try done. intros Hp. specialize (Q7 Hp). destruct other; [| done]. destruct which; [done |]. by rewrite Hcr.
  - intros j k t Hj. destruct (inv_locals _ Hinv j k t Hj) as (L1 & L2 & L3 & L4). split_and!; try done.
    destruct L4 as [Ht | (other & Hot & Hc)]; [by left |]. right. exists other.
    destruct (decide (other = which)) as [-> | Hne]; [by apply Ho in Hj |]. by rewrite (proj1 (Hother other Hne)).
  - destruct (inv_candidates _ Hinv) as [D H]. split; [done |]. intros t Hin. destruct (H t Hin) as (K1 & K2 & _).
    split; [done |]. split; [| by destruct b]. intros other.
    destruct (decide (other = which)) as [-> | Hne]; [by rewrite Ho' |]. rewrite (proj1 (Hother other Hne)). apply K2.
  - split; [done |]. assert (none_destroying r') as Hn.
    { intros other. destruct (decide (other = which)) as [-> | Hne]; [done | apply (Hother other Hne)]. }
    by destruct b.
Qed.

(** The loads of [member_complete], one by one, agree with [member_complete]. *)
Lemma member_load_spec w which m todo loads dn :
  inv w → pending (record_of which (retirement w)) = true → cohort (record_of which (retirement w)) = dn ++ m :: todo →
  loads_ok (retirement w) (epochs w) which (m :: todo) loads →
  match member_load (epochs w) (version_generation (version (record_of which (retirement w)))) (is_terminal which) m loads with
  | inl loads' => loads_ok (retirement w) (epochs w) which (m :: todo) loads'
  | inr true => complete (retirement w) (epochs w) which m
  | inr false => True
  end.
Proof.
  intros Hinv Hp Hc Hl. pose proof (ro_members _ _ _ _ (inv_record _ Hinv which) Hp) as Hm. rewrite Hc in Hm.
  apply Forall_app in Hm as [_ Hm]. apply Forall_cons_iff in Hm as [Hm _]. pose proof Hm as [M1 M2 M3].
  unfold member_load. rewrite M1. destruct Hl as [HT Hl]. destruct loads as [| | first | first observed].
  - destruct (_ <=? _) eqn:Hq; [| by destruct which]. bool_hyps. apply member_complete_spec; [done |]. by left.
  - split; [intros ->; by specialize (HT eq_refl) | done].
  - split; [intros ->; by specialize (HT eq_refl) |]. intros -> Hge. destruct which; [| by specialize (HT eq_refl)].
    apply member_complete_spec; [done |].
    destruct (decide (published_instance_id (epochs w (member_worker_id m)) = member_instance_id m));
      [right; done | left; lia].
  - destruct (_ && _) eqn:Hg; [| done]. bool_hyps. by apply Hl.
Qed.

(** B starts or ends. *)
Lemma switch_inv w b started active :
  inv w → none_destroying (retirement w) → active = (match b with Stopped _ => false | _ => true end) →
  match b with Stopped _ | Unlocked => True | _ => False end →
  inv (set_reclaimer b (set_retirement (set_running started active (retirement w)) w)).
Proof.
  intros [H1 H2 H3 H4 [D H5] H6] Hn Ha Hb. split; try done.
  - intros which. destruct (H3 which) as [Q1 Q2 Q3 Q4 Q5 Q6 Q7]. by destruct which; split.
  - split; [done |]. intros s Hin. destruct (H5 s Hin) as (K1 & K2 & _). split_and!; try done. by destruct b.
  - split; [done |]. assert (none_destroying (set_running started active (retirement w))) by (intros which; by rewrite <- (Hn which)).
    by destruct b.
Qed.

Lemma reclaimer_step_inv w now stop : inv w → inv (reclaimer_step now stop w).
Proof.
  intros Hinv. unfold reclaimer_step. destruct (inv_reclaimer _ Hinv) as [Hact Hb].
  destruct (reclaimer w) as [res | | which [| m todo] loads | which | which seq | | which g bytes sole | res] eqn:Hpc.
  - done.
  - destruct (reclaimer_failure_requested_ _); [by apply leave_inv |].
    destruct (reclaimer_failure_after_commit_requested_ _ && _); [apply leave_inv; try done; by apply set_requests_inv |].
    destruct (next_pending_record _) as [which |] eqn:Hn.
    + apply set_reclaimer_inv; [done | done |]. split; [done |]. split; [done |].
      assert (pending (record_of which (retirement w)) = true) as Hp.
      { unfold next_pending_record in Hn. repeat case_match; simplify_eq; done. }
      split_and!; try done. by exists [].
    + destruct (_ || stop); by apply leave_inv.
  - destruct Hb as (N & P & _ & dn & Hc & Hall). rewrite app_nil_r in Hc. rewrite <- Hc in Hall.
    destruct (claim_inv w which Hinv N Hact P Hall) as (s & Ho & Hi). rewrite Ho.
    rewrite (complete_sole_owner w which s Hinv Ho Hall). done.
  - destruct Hb as (N & P & Hl & dn & Hc & Hall).
    rewrite (ro_terminal _ _ _ _ (inv_record _ Hinv which) P).
    pose proof (member_load_spec w which m todo loads dn Hinv P Hc Hl) as Hm.
    destruct (member_load _ _ _ m loads) as [loads' | []].
    + apply set_reclaimer_inv; [done | done |]. split; [done |]. split_and!; try done. by exists dn.
    + apply set_reclaimer_inv; [done | done |]. split; [done |]. split; [done |]. split; [done |]. split; [by destruct todo |].
      exists (dn ++ [m]). rewrite <- app_assoc. split; [done |]. apply Forall_app. split; [done |]. by constructor.
    + by apply set_reclaimer_inv.
  - destruct Hb as [N P]. destruct (_ <=? now); [by apply leave_inv |]. by apply set_reclaimer_inv.
  - destruct Hb as [N P]. destruct (_ || _); [by apply leave_inv | done].
  - by apply leave_inv.
  - destruct Hb as (N & P & -> & s & -> & Hg).
    pose proof (ro_owner _ _ _ _ (inv_record _ Hinv which) P) as Hd. rewrite N, bool_decide_eq_true_2 in Hd by done.
    symmetry in Hd. apply bool_decide_eq_true in Hd.
    apply (clear_inv w which); try done; try (by destruct which); [by intros; rewrite Hd |].
    intros other Hne. split; [by destruct which, other |].
    transitivity (destroying (record_of other (retirement w))); [by destruct which, other |].
    rewrite N. by apply bool_decide_eq_false.
  - by apply switch_inv.
Qed.

Lemma start_inv w : inv w → inv (run_reclaimer_begin w).2.
Proof.
  intros Hinv. unfold run_reclaimer_begin. destruct (inv_reclaimer _ Hinv) as [Hact Hb].
  destruct (reclaimer_active_ (retirement w)); [done |]. apply switch_inv; try done. by destruct (reclaimer w).
Qed.

Lemma cohort_complete_spec w which :
  inv w → pending (record_of which (retirement w)) = true →
  cohort_complete (epochs w) (record_of which (retirement w)) = true ↔
  Forall (complete (retirement w) (epochs w) which) (cohort (record_of which (retirement w))).
Proof.
  intros Hinv Hp. unfold cohort_complete. rewrite (ro_terminal _ _ _ _ (inv_record _ Hinv which) Hp).
  rewrite forallb_forall, list.Forall_forall. by setoid_rewrite list_elem_of_In.
Qed.

(** [reclaim_record] on a complete record while B is not running. *)
Lemma reclaim_record_inv w which :
  inv w → none_destroying (retirement w) → reclaimer_active_ (retirement w) = false →
  pending (record_of which (retirement w)) = true →
  Forall (complete (retirement w) (epochs w) which) (cohort (record_of which (retirement w))) →
  inv (set_retirement (reclaim_record which (retirement w)) w).
Proof.
  intros Hinv Hn Ha Hp Hall. destruct (inv_reclaimer _ Hinv) as [Hact _]. rewrite Ha in Hact.
  destruct (reclaimer w) as [res | | | | | | |] eqn:Hpc; try done.
  replace (set_retirement (reclaim_record which (retirement w)) w)
    with (set_reclaimer (Stopped res) (set_retirement (reclaim_record which (retirement w)) w))
    by (destruct w; simpl in Hpc; by rewrite Hpc).
  apply (clear_inv w which); try done; try (by destruct which).
  - intros wid i s Hl Ho. by apply (complete_no_local w which s wid i Hinv Ho Hall).
  - intros other Hne. specialize (Hn other). by destruct which, other.
Qed.

(** One record of [reclaim_converged_locked]. *)
Definition reclaims (which : RecordName) (w w' : World) : Prop :=
  pending (record_of which (retirement w)) = false ∧ w' = w ∨
  pending (record_of which (retirement w)) = true ∧ none_destroying (retirement w) ∧
  reclaimer_active_ (retirement w) = false ∧
  Forall (complete (retirement w) (epochs w) which) (cohort (record_of which (retirement w))) ∧
  w' = set_retirement (reclaim_record which (retirement w)) w.

Lemma set_retirement_id w : set_retirement (retirement w) w = w.
Proof. by destruct w. Qed.

Lemma emergency_cases w :
  inv w → (emergency_reclaim_converged w) = (false, w) ∨
  ∃ w1 w2, emergency_reclaim_converged w = (true, w2) ∧ reclaims Retired w w1 ∧ reclaims Terminal w1 w2.
Proof.
  intros Hinv. unfold emergency_reclaim_converged. destruct (_ || _) eqn:Hg; [by left |]. bool_hyps.
  unfold reclaim_converged_locked.
  destruct (pending (retired_ _) && _) eqn:H1; [by left |]. destruct (pending (terminal_ _) && _) eqn:H2; [by left |].
  destruct (_ || _) eqn:H3; [by left |]. apply andb_false_iff in H1, H2. rewrite negb_false_iff in H1, H2. right.
  assert (none_destroying (retirement w)) as Hn.
  { destruct (inv_reclaimer _ Hinv) as [Hact Hb]. destruct (reclaimer w); try done; congruence. }
  set (r1 := if pending (retired_ (retirement w)) then _ else _).
  assert (reclaims Retired w (set_retirement r1 w) ∧ none_destroying r1 ∧ reclaimer_active_ r1 = false ∧
          terminal_ r1 = terminal_ (retirement w)) as (Hr & Hn1 & Ha1 & Ht1).
  { subst r1. destruct (pending (retired_ (retirement w))) eqn:Hp.
    - split_and!; [right | by intros []; [| apply (Hn Terminal)] | done | done]. split_and!; try done.
      apply (cohort_complete_spec w Retired Hinv Hp). naive_solver.
    - split_and!; try done. left. by rewrite set_retirement_id. }
  exists (set_retirement r1 w). eexists. split; [done |]. split; [done |]. unfold reclaims. cbn [record_of retirement set_retirement].
  rewrite !Ht1. destruct (pending (terminal_ (retirement w))) eqn:Hp; [right | by left]. split_and!; try done.
  pose proof (cohort_complete_spec w Terminal Hinv Hp) as Hc. unfold complete in *. cbn [record_of epochs set_retirement] in *.
  rewrite Ht1. apply Hc. naive_solver.
Qed.

Lemma reclaims_inv which w w' : inv w → reclaims which w w' → inv w'.
Proof. intros Hinv [[_ ->] | (P & N & A & C & ->)]; [done | by apply reclaim_record_inv]. Qed.

Lemma emergency_inv w : inv w → inv (emergency_reclaim_converged w).2.
Proof.
  intros Hinv. destruct (emergency_cases w Hinv) as [-> | (w1 & w2 & -> & H1 & H2)]; [done |].
  eapply reclaims_inv; [| exact H2]. by eapply reclaims_inv.
Qed.

Lemma act_inv a w w' : inv w → act heap a w = Some w' → inv w'.
Proof.
  intros Hinv Hact. destruct a; [by eapply register_inv | by eapply mark_inv | by eapply refresh_inv | by eapply release_inv |
    by eapply quiesce_inv | ..]; cbn [act guarded] in Hact; unfold guarded in Hact.
  - destruct (progress_owed w) as [| n]; [done |]. case_match; simplify_eq. by apply publish_progress_inv, inv_owe.
  - case_match; [| done]. destruct (acquire_retirement_credit stop w) as [[b w1] |] eqn:Hc; [| done]. simplify_eq/=.
    by eapply acquire_inv.
  - case_match; simplify_eq. by apply release_credit_inv.
  - by apply (build_inv w s).
  - simplify_eq. by apply drop_candidate_inv.
  - case_decide; [| done]. case_match; simplify_eq. apply commit_inv; [by apply drop_candidate_inv | apply dropped_candidate | done].
  - case_match; simplify_eq. by apply seal_inv.
  - case_match; simplify_eq. bool_hyps. by apply detach_inv.
  - case_match; simplify_eq. by apply start_inv.
  - simplify_eq. by apply reclaimer_step_inv.
  - case_match; simplify_eq. by apply publish_progress_inv.
  - case_match; simplify_eq. by apply set_requests_inv.
  - case_match; simplify_eq. by apply set_requests_inv.
  - case_match; simplify_eq. by apply set_requests_inv.
  - case_match; simplify_eq. by apply emergency_inv.
Qed.

Lemma initial_inv initial workers timeout w :
  (∀ s, 0 ≤ gen s) → make_publication_state heap initial workers timeout = Val w → inv w.
Proof.
  intros Hpos. unfold make_publication_state. destruct initial as [s |]; [| done].
  destruct (_ || _) eqn:Hg; [done |]. bool_hyps. intros [= <-]. specialize (Hpos s).
  assert (∀ i, registry_at (mkPublication (Some s) (replicate workers None) false (gen s) (snap_rule_count heap s)
    (snap_bytes heap s) false) i = None) as Hreg.
  { intros i. unfold registry_at. cbn [registry_]. destruct (replicate workers None !! i) as [o |] eqn:Hi; [| done].
    by apply lookup_replicate in Hi as [-> _]. }
  split; cbn.
  - split; cbn; [lia | by intros t [= ->] | done].
  - split; cbn; [intros wid e; by rewrite Hreg | done | done].
  - intros []; split; done.
  - intros wid i t. by rewrite lookup_empty.
  - split; [constructor | by intros t ?%elem_of_nil].
  - split; [done |]. by intros [].
Qed.

Lemma reachable_inv w0 w : inv w0 → reachable heap w0 w → inv w.
Proof. intros H0. induction 1 as [| w a w' _ IH Hact]; [done |]. by eapply act_inv. Qed.
End invariant.

(** ** No lost wake-up

    B reads the epochs without the mutex of the workers and then sleeps.  Whatever
    completes the cohort behind its back either is still to publish its progress, or has
    changed the sequence number B waits on. *)
Section wake.
Context {F : Type} (heap : nat → FilterContext F).

Definition all_complete (w : World) (which : RecordName) : Prop :=
  Forall (complete (retirement w) (epochs w) which) (cohort (record_of which (retirement w))).

(** What B has missed since a load must still be announced. *)
Definition loads_seen (w : World) (which : RecordName) (m : CohortMember) (loads : MemberLoads) : Prop :=
  let owed := (0 < progress_owed w)%nat in
  let unseen := member_instance_id m ≤ quiesced_through_instance_id (epochs w (member_worker_id m)) → owed in
  match loads with
  | LoadQuiesced => True
  | LoadFirst => unseen
  | LoadObserved first => unseen ∧ (first = member_instance_id m ∨ owed)
  | LoadSecond first observed =>
      unseen ∧ (first = member_instance_id m ∨ owed) ∧
      (observed < version_generation (version (record_of which (retirement w))) →
       complete (retirement w) (epochs w) which m → owed)
  end.

Definition wake_ok (w : World) : Prop :=
  0 ≤ total_progress w ∧ progress_sequence_ (retirement w) = wrap64 (total_progress w) ∧
  match reclaimer w with
  | Checking which (m :: _) loads => loads_seen w which m loads
  | Incomplete which => all_complete w which → (0 < progress_owed w)%nat
  | WaitingProgress which seq =>
      ∃ n, seq = wrap64 n ∧ 0 ≤ n ≤ total_progress w ∧
           (all_complete w which → (0 < progress_owed w)%nat ∨ n < total_progress w)
  | _ => True
  end.

(** A step on the epochs that announces itself, or completes no member. *)
Lemma wake_epoch_move w w' :
  inv heap w → wake_ok w → retirement w' = retirement w → reclaimer w' = reclaimer w → total_progress w' = total_progress w →
  (0 < progress_owed w')%nat ∨ progress_owed w' = progress_owed w ∧
    (∀ i, quiesced_through_instance_id (epochs w' i) = quiesced_through_instance_id (epochs w i)) ∧
    (∀ g t m, member_ok (epochs w) m → member_complete (epochs w') g t m = true → member_complete (epochs w) g t m = true) →
  wake_ok w'.
Proof.
  intros Hinv (Ht & Hs & Hw) Hr Hb Htot Hcase. unfold wake_ok. rewrite Hr, Hb, Htot. split_and!; try done.
  destruct Hcase as [Hpos | (Ho & Hq & Hc)].
  - destruct (reclaimer w) as [| | which [| m todo] loads | which | which seq | | |]; try done.
    + destruct loads; cbn; naive_solver.
    + destruct Hw as (n & ? & ? & _). exists n. split_and!; naive_solver.
  - destruct (inv_reclaimer _ _ Hinv) as [_ Hok].
    assert (∀ which, pending (record_of which (retirement w)) = true → all_complete w' which → all_complete w which) as Hall.
    { intros which Hp. unfold all_complete. rewrite Hr. pose proof (ro_members _ _ _ _ _ (inv_record _ _ Hinv which) Hp) as Hm.
      rewrite !list.Forall_forall in *. intros Hw' m Hin. unfold complete. apply Hc; [by apply Hm |].
      exact (Hw' m Hin). }
    destruct (reclaimer w) as [| | which [| m todo] loads | which | which seq | | |]; try done.
    + destruct Hok as (_ & Hp & _ & dn & Hcoh & _).
      pose proof (ro_members _ _ _ _ _ (inv_record _ _ Hinv which) Hp) as Hm. rewrite Hcoh in Hm.
      apply Forall_app in Hm as [_ Hm]. apply Forall_cons_iff in Hm as [Hm _].
      unfold loads_seen in *. rewrite Ho, Hq, Hr. destruct loads; try done.
      destruct Hw as (W1 & W2 & W3). split_and!; try done. intros H1 H2. apply W3; [done |]. by apply Hc.
    + destruct Hok as [_ Hp]. rewrite Ho. auto.
    + destruct Hok as [_ Hp]. destruct Hw as (n & ? & ? & Hn). exists n. split_and!; try done; rewrite ?Ho; auto; lia.
Qed.

(** A step of another thread under [retirement_mutex_] that keeps the record B waits for. *)
Lemma wake_locked w w' :
  wake_ok w → retirement_mutex_free w = true → reclaimer w' = reclaimer w → epochs w' = epochs w →
  (∀ which seq, reclaimer w = WaitingProgress which seq → record_of which (retirement w') = record_of which (retirement w)) →
  progress_sequence_ (retirement w') = wrap64 (total_progress w') →
  total_progress w' = total_progress w ∧ progress_owed w' = progress_owed w ∨ total_progress w < total_progress w' →
  wake_ok w'.
Proof.
  intros (Ht & Hs & Hw) Hm Hb He Hrec Hseq Hcase. unfold wake_ok. rewrite Hb. split_and!; [lia | done |].
  unfold retirement_mutex_free in Hm. destruct (reclaimer w) as [| | | | which seq | | |]; try done.
  specialize (Hrec which seq eq_refl). destruct Hw as (n & ? & ? & Hn). exists n. split_and!; [done | lia | lia |].
  unfold all_complete, complete in *. rewrite Hrec, He. destruct Hcase as [[E1 E2] | E]; [rewrite E1, E2; done |]. intros _. right. lia.
Qed.

Lemma wrap64_succ n : wrap64 (wrap64 n + 1) = wrap64 (n + 1).
Proof. unfold wrap64. by rewrite Zplus_mod_idemp_l. Qed.

Lemma publish_progress_wake w n :
  wake_ok w → retirement_mutex_free w = true → wake_ok (publish_progress (owe n w)).
Proof.
  intros Hw Hm. apply (wake_locked w); try done; cbn; [| right; lia].
  destruct Hw as (_ & -> & _). apply wrap64_succ.
Qed.

Lemma reclaimer_step_wake w now stop : inv heap w → wake_ok w → wake_ok (reclaimer_step now stop w).
Proof.
  intros Hinv Hw. pose proof Hw as (Ht & Hs & Hpc). unfold reclaimer_step. destruct (inv_reclaimer _ _ Hinv) as [_ Hok].
  destruct (reclaimer w) as [res | | which [| m todo] loads | which | which seq | | which g bytes sole | res] eqn:Hb.
  - done.
  - repeat case_match; split_and!; try done. cbn. by case_match.
  - repeat case_match; split_and!; try done; by destruct which.
  - destruct Hok as (_ & Hp & Hl & dn & Hc & _). rewrite (ro_terminal _ _ _ _ _ (inv_record _ _ Hinv which) Hp).
    pose proof (ro_members _ _ _ _ _ (inv_record _ _ Hinv which) Hp) as Hm. rewrite Hc in Hm.
    apply Forall_app in Hm as [_ Hm]. apply Forall_cons_iff in Hm as [Hm _]. pose proof Hm as [M1 M2 M3].
    assert (all_complete w which → complete (retirement w) (epochs w) which m) as Hall.
    { unfold all_complete. rewrite Hc. intros Ha. apply Forall_app in Ha as [_ Ha]. by apply Forall_cons_iff in Ha as [? _]. }
    unfold member_load. rewrite M1. destruct loads as [| | first | first observed]; cbn [loads_seen] in Hpc.
    + destruct (_ <=? _) eqn:Hq; bool_hyps; [split_and!; try done; cbn; by case_match |].
      destruct which; split_and!; try done; cbn; [lia |]. intros Ha. apply Hall, member_complete_spec in Ha; [| done]. destruct Ha as [? | [? _]]; [lia | done].
    + split_and!; try done; cbn. split; [done |]. destruct (decide (published_instance_id (epochs w (member_worker_id m)) = member_instance_id m));
        [by left | right; apply Hpc; lia].
    + split_and!; try done; cbn. split; [apply Hpc |]. split; [apply Hpc |]. intros Hlt Hcm. apply member_complete_spec in Hcm; [| done].
      destruct Hcm as [? | (_ & _ & ?)]; [by apply Hpc | lia].
    + destruct (_ && _) eqn:Hg; [split_and!; try done; cbn; by case_match |]. split_and!; try done. cbn.
      destruct Hpc as (W1 & W2 & W3). change (all_complete w which → (0 < progress_owed w)%nat).
      apply andb_false_iff in Hg. rewrite andb_false_iff in Hg. destruct Hg as [[Hg | Hg] | Hg]; bool_hyps.
      * destruct W2; [done | auto].
      * intros _. apply W1. lia.
      * intros Ha. apply W3; [lia |]. by apply Hall.
  - case_match; split_and!; try done. cbn. exists (total_progress w). split_and!; try done. intros Ha. left. by apply Hpc.
  - case_match; [split_and!; done | done].
  - done.
  - split_and!; by destruct which.
  - done.
Qed.

Lemma register_wake w wid i w' : inv heap w → wake_ok w → act heap (Register wid i) w = Some w' → wake_ok w'.
Proof.
  intros Hinv Hw. cbn [act]. destruct (_ <? i) eqn:Hlt; [| done]. bool_hyps. unfold register_worker.
  destruct (_ || publication_sealed_ _) eqn:Hguard; [intros [= <-]; done |]. bool_hyps.
  match goal with H : bool_decide _ = false |- _ => apply bool_decide_eq_false in H; rename H into Hreg end.
  apply dec_stable in Hreg.
  destruct (active_snapshot_ (publication w)) as [s |]; [| by intros [= <-]]. intros [= <-].
  destruct (eo_out _ _ (inv_epochs _ _ Hinv) wid Hreg) as [_ Hq].
  apply (wake_epoch_move w); try done. right. cbn. split_and!; try done.
  - intros j. destruct (decide (j = wid)) as [-> | Hne]; [by rewrite fn_lookup_insert | by rewrite fn_lookup_insert_ne].
  - intros g t m Hm. destruct (decide (member_worker_id m = wid)) as [<- | Hne].
    + intros _. apply member_complete_spec; [done |]. left. destruct Hm as [_ Hm _]. lia.
    + unfold member_complete. rewrite (mo_epoch _ _ Hm). by rewrite fn_lookup_insert_ne.
Qed.

Lemma refresh_wake w wid i w' : inv heap w → wake_ok w → act heap (Refresh wid i) w = Some w' → wake_ok w'.
Proof.
  intros Hinv Hw. cbn [act]. destruct (locals w !! (wid, i)) as [s |] eqn:Hl; [| done].
  destruct (active_snapshot_ (publication w)) as [next |] eqn:Ha.
  - destruct (refresh_spec heap w wid i s next Hinv Hl Ha) as [_ ->].
    destruct (_ <? snap_generation heap next); intros [= <-]; apply (wake_epoch_move w); try done; [left; cbn; lia | by right].
  - unfold refresh_locked. rewrite Ha. intros H. destruct (_ || _) in H; injection H as <-; apply (wake_epoch_move w); try done; by right.
Qed.

Lemma mark_wake w wid i : inv heap w → wake_ok w → wake_ok (mark_worker_registered wid i wid w).2.
Proof.
  intros Hinv Hw. unfold mark_worker_registered. do 2 (case_match; [done |]). apply (wake_epoch_move w); try done.
  right. cbn. split_and!; try done.
  - intros j. destruct (decide (j = wid)) as [-> | Hne]; [by rewrite fn_lookup_insert | by rewrite fn_lookup_insert_ne].
  - intros g t m Hm. unfold member_complete. rewrite (mo_epoch _ _ Hm).
    destruct (decide (member_worker_id m = wid)) as [-> | Hne]; [by rewrite fn_lookup_insert | by rewrite fn_lookup_insert_ne].
Qed.

Lemma commit_wake s now w :
  inv heap w → wake_ok w → retirement_mutex_free w = true → wake_ok (commit heap (Some s) now w).2.
Proof.
  intros Hinv Hw Hm. destruct (commit_cases heap s now w) as [[e ->] | (v & n & w' & Heq & Hc)]; [done |].
  rewrite Heq. cbn [snd]. destruct Hc as [_ _ _ [_ O] _ _ _ I _ _ (E & _ & _ & B)].
  assert (∀ which, pending (record_of which (retirement w)) = false) as Hidle
    by (intros []; [done | by apply (open_no_terminal heap w Hinv)]).
  pose proof (idle_reclaimer heap w Hinv Hm Hidle) as Hb.
  assert (total_progress w' = total_progress w ∧ progress_owed w' = progress_owed w ∧
          progress_sequence_ (retirement w') = progress_sequence_ (retirement w)) as (T1 & T2 & T3).
  { unfold commit in Heq. repeat case_match; simplify_eq; done. }
  apply (wake_locked w); try done.
  - intros which seq Hs. by rewrite Hs in Hb.
  - rewrite T1, T3. apply Hw.
  - by left.
Qed.

Lemma detach_wake now w : inv heap w → wake_ok w → retirement_mutex_free w = true → wake_ok (detach_terminal_snapshot heap now w).2.
Proof.
  intros Hinv Hw Hm. unfold detach_terminal_snapshot. destruct (pending (terminal_ _)) eqn:Hp; [done |].
  destruct (active_snapshot_ (publication w)) as [s |]; [| done]. apply (wake_locked w); try done; [| apply Hw | by left].
  intros [] seq Hs; [done |]. destruct (inv_reclaimer _ _ Hinv) as [_ Hb]. rewrite Hs in Hb. destruct Hb as [_ Hb]. simpl in Hb. congruence.
Qed.

Lemma emergency_wake w : inv heap w → wake_ok w → retirement_mutex_free w = true → wake_ok (emergency_reclaim_converged w).2.
Proof.
  intros Hinv Hw Hm. unfold emergency_reclaim_converged. destruct (_ || _) eqn:Hg; [done |]. bool_hyps.
  destruct (inv_reclaimer _ _ Hinv) as [Hact _]. unfold reclaim_converged_locked.
  destruct (pending (retired_ _) && _); [done |]. destruct (pending (terminal_ _) && _); [done |].
  destruct (_ || _); [done |]. cbn [snd].
  apply (wake_locked w); try done; [| | by left].
  - intros which seq Hs. rewrite Hs in Hact. congruence.
  - destruct Hw as (_ & Hs & _). cbn. repeat case_match; done.
Qed.

Lemma act_wake a w w' : inv heap w → wake_ok w → act heap a w = Some w' → wake_ok w'.
Proof.
  intros Hinv Hw Hact.
  destruct a; [by eapply register_wake | | by eapply refresh_wake | ..]; cbn [act guarded] in Hact; unfold guarded in Hact.
  - simplify_eq. by apply mark_wake.
  - simplify_eq. apply (wake_epoch_move w); try done; by right.
  - case_decide; [| done]. simplify_eq. unfold quiesce_locked.
    case_match; apply (wake_epoch_move w); try done; left; cbn; lia.
  - destruct (progress_owed w) as [| n]; [done |]. case_match; simplify_eq. by apply publish_progress_wake.
  - case_match; [| done]. unfold acquire_retirement_credit in Hact.
    repeat case_match; simplify_eq/=; [done |]. apply (wake_locked w); try done; [apply Hw | by left].
  - case_match; simplify_eq. unfold release_uncommitted_credit. case_match; [| done].
    apply (wake_locked w); try done; [apply Hw | by left].
  - case_match; simplify_eq. apply (wake_epoch_move w); try done; by right.
  - simplify_eq. apply (wake_epoch_move w); try done; by right.
  - case_decide; [| done]. case_match; simplify_eq. apply commit_wake; [by apply drop_candidate_inv | | done].
    apply (wake_epoch_move w); try done; by right.
  - case_match; simplify_eq. apply (wake_epoch_move w); try done; by right.
  - case_match; simplify_eq. bool_hyps. by apply detach_wake.
  - case_match; simplify_eq. unfold run_reclaimer_begin. case_match; [done |]. destruct Hw as (? & ? & _). by split_and!.
  - simplify_eq. by apply reclaimer_step_wake.
  - case_match; simplify_eq. change (wake_ok (publish_progress w)).
    apply (wake_locked w); try done; cbn; [| right; lia]. destruct Hw as (_ & -> & _). apply wrap64_succ.
  - case_match; simplify_eq. apply (wake_locked w); try done; [apply Hw | by left].
  - case_match; simplify_eq. apply (wake_locked w); try done; [apply Hw | by left].
  - case_match; simplify_eq. apply (wake_locked w); try done; [apply Hw | by left].
  - case_match; simplify_eq. by apply emergency_wake.
Qed.

Lemma reachable_wake w0 w : inv heap w0 → wake_ok w0 → reachable heap w0 w → wake_ok w.
Proof.
  intros H0 W0. induction 1 as [| w a w' Hr IH Hact]; [done |].
  eapply act_wake; [| exact IH | exact Hact]. by eapply reachable_inv.
Qed.

Lemma initial_wake initial workers timeout w : make_publication_state heap initial workers timeout = Val w → wake_ok w.
Proof. unfold make_publication_state. repeat case_match; intros; simplify_eq. by split_and!. Qed.
End wake.

(** ** Convergence *)
Section convergence.
Context {F : Type} (heap : nat → FilterContext F).

(** A generation is called converged only when no worker is behind it. *)
Record conv_ok (w : World) : Prop := {
  cv_reclaimed : last_reclaimed_generation_ (retirement w) ≤ last_converged_generation_ (retirement w);
  cv_converged : last_converged_generation_ (retirement w) ≤ current_generation w;
  cv_locals wid i s : locals w !! (wid, i) = Some s → last_converged_generation_ (retirement w) ≤ snap_generation heap s;
  cv_destroying g b sole : reclaimer w = Destroying Retired g b sole → g ≤ last_converged_generation_ (retirement w);
}.

(** Steps that do not announce convergence. *)
Lemma conv_move w w' :
  conv_ok w → last_reclaimed_generation_ (retirement w') = last_reclaimed_generation_ (retirement w) →
  last_converged_generation_ (retirement w') = last_converged_generation_ (retirement w) →
  current_generation w ≤ current_generation w' →
  (∀ wid i s, locals w' !! (wid, i) = Some s →
     (∃ wid' i', locals w !! (wid', i') = Some s) ∨ current_generation w' ≤ snap_generation heap s) →
  (∀ g b sole, reclaimer w' = Destroying Retired g b sole → reclaimer w = Destroying Retired g b sole) → conv_ok w'.
Proof.
  intros [C1 C2 C3 C4] Hr Hc Hg Hl Hb. split; rewrite ?Hr, ?Hc; [done | lia | |].
  - intros wid i s [(wid' & i' & Hin) | Hge]%Hl; [by eapply C3 | lia].
  - intros g b sole Heq. apply Hb in Heq. by eapply C4.
Qed.

(** A worker step moves local owners to the active snapshot. *)
Lemma conv_local w w' k t :
  inv heap w → conv_ok w → retirement w' = retirement w → reclaimer w' = reclaimer w →
  current_generation w' = current_generation w → active_snapshot_ (publication w) = Some t →
  locals w' = <[k := t]> (locals w) → conv_ok w'.
Proof.
  intros Hinv Hcv Hr Hb Hg Ha Hl. apply (conv_move w); rewrite ?Hr, ?Hb, ?Hg; try done.
  intros wid i s. rewrite Hl, lookup_insert_Some. intros [[_ <-] | [_ Hin]]; [right | left; eauto].
  by rewrite (po_active _ _ (inv_pub _ _ Hinv) t Ha).
Qed.

Ltac conv_same w := apply (conv_move w); try done; eauto.

Lemma reclaimer_step_conv w now stop : inv heap w → conv_ok w → conv_ok (reclaimer_step now stop w).
Proof.
  intros Hinv Hcv. unfold reclaimer_step. destruct (inv_reclaimer _ _ Hinv) as [Hact Hb].
  destruct (reclaimer w) as [res | | which [| m todo] loads | which | which seq | | which g bytes sole | res] eqn:Hpc.
  - done.
  - repeat case_match; conv_same w.
  - destruct Hb as (N & P & _ & dn & Hc & Hall). rewrite app_nil_r in Hc. rewrite <- Hc in Hall.
    destruct (claim_inv heap w which Hinv N Hact P Hall) as (s & Ho & _). rewrite Ho.
    rewrite (complete_sole_owner heap w which s Hinv Ho Hall). cbn [Nat.eqb].
    destruct Hcv as [C1 C2 C3 C4]. pose proof (ro_version _ _ _ _ _ (inv_record _ _ Hinv which) P) as Hv.
    unfold current_generation in *. destruct which; cbn [record_of] in *; split; cbn; try done; try (by intros; simplify_eq; lia);
      try (by eapply C3); unfold current_generation; cbn; try lia.
    intros wid i t Hl. destruct (inv_locals _ _ Hinv wid i t Hl) as (_ & _ & _ & [Ha | (other & Ho' & _)]).
    + rewrite (po_active _ _ (inv_pub _ _ Hinv) t Ha). lia.
    + rewrite (ro_generation _ _ _ _ _ (inv_record _ _ Hinv other) t Ho'). destruct other; simpl; [| lia].
      exfalso. cbn in Ho'. rewrite Ho in Ho'. injection Ho' as ->. by apply (complete_no_local heap w Retired t wid i Hinv Ho Hall).
  - repeat case_match; conv_same w.
  - repeat case_match; conv_same w.
  - case_match; [conv_same w | done].
  - conv_same w.
  - destruct Hcv as [C1 C2 C3 C4]. destruct which; split; cbn; try done; try (by eapply C3).
    specialize (C4 g bytes sole Hpc). lia.
  - conv_same w.
Qed.

Lemma reclaim_record_conv w which :
  inv heap w → conv_ok w → pending (record_of which (retirement w)) = true →
  Forall (complete (retirement w) (epochs w) which) (cohort (record_of which (retirement w))) →
  conv_ok (set_retirement (reclaim_record which (retirement w)) w).
Proof.
  intros Hinv [C1 C2 C3 C4] P Hall. pose proof (ro_version _ _ _ _ _ (inv_record _ _ Hinv which) P) as Hv.
  unfold current_generation in *. destruct which; cbn [record_of] in *; [| by split].
  split; cbn; unfold current_generation; cbn; [lia | lia | |].
  - intros wid i t Hl. specialize (C3 wid i t Hl). destruct (inv_locals _ _ Hinv wid i t Hl) as (_ & _ & _ & [Ha | (other & Ho' & _)]).
    + rewrite (po_active _ _ (inv_pub _ _ Hinv) t Ha) in *. lia.
    + rewrite (ro_generation _ _ _ _ _ (inv_record _ _ Hinv other) t Ho') in *. destruct other; simpl in *; [| lia].
      exfalso. by apply (complete_no_local heap w Retired t wid i Hinv Ho' Hall).
  - intros g b sole Heq. specialize (C4 g b sole Heq). lia.
Qed.
Lemma act_conv a w w' : inv heap w → conv_ok w → act heap a w = Some w' → conv_ok w'.
Proof.
  intros Hinv Hcv Hact. destruct a; cbn [act guarded] in Hact; unfold guarded in Hact.
  - case_match; [| done]. destruct (register_worker _ _ _ _) as [[reg |] w1] eqn:Hreg; unfold register_worker in Hreg;
      repeat case_match; simplify_eq; try done. by eapply (conv_local w).
  - simplify_eq. unfold mark_worker_registered. repeat case_match; conv_same w.
  - destruct (locals w !! (worker_id, instance_id)) as [s |] eqn:Hl; [| done].
    destruct (active_snapshot_ (publication w)) as [t |] eqn:Ha.
    + destruct (refresh_spec heap w _ _ s t Hinv Hl Ha) as [_ Heq]. rewrite Heq in Hact. clear Heq.
      destruct (_ <? snap_generation heap t); injection Hact as <-; by eapply (conv_local w).
    + unfold refresh_locked in Hact. rewrite Ha in Hact. destruct (_ || _) in Hact; injection Hact as <-;
        (apply (conv_move w); try done; cbn; rewrite insert_id by done; eauto).
  - simplify_eq. apply (conv_move w); try done. cbn. intros wid i s [_ ?]%lookup_delete_Some. eauto.
  - case_decide; simplify_eq. unfold quiesce_locked. case_match; conv_same w.
  - repeat case_match; simplify_eq. conv_same w.
  - case_match; [| done]. unfold acquire_retirement_credit in Hact. repeat case_match; simplify_eq/=; [done | conv_same w].
  - case_match; simplify_eq. unfold release_uncommitted_credit. case_match; [conv_same w | done].
  - case_match; simplify_eq. conv_same w.
  - simplify_eq. conv_same w.
  - case_decide; [| done]. case_match; simplify_eq. unfold commit. repeat case_match; cbn [snd]; try (by conv_same w);
      bool_hyps; apply (conv_move w); try done; eauto; unfold current_generation; cbn in *; lia.
  - case_match; simplify_eq. conv_same w.
  - case_match; simplify_eq. unfold detach_terminal_snapshot. repeat case_match; conv_same w.
  - case_match; simplify_eq. unfold run_reclaimer_begin. case_match; conv_same w.
  - simplify_eq. by apply reclaimer_step_conv.
  - case_match; simplify_eq. conv_same w.
  - case_match; simplify_eq. conv_same w.
  - case_match; simplify_eq. conv_same w.
  - case_match; simplify_eq. conv_same w.
  - case_match; simplify_eq. destruct (emergency_cases heap w Hinv) as [-> | (w1 & w2 & -> & H1 & H2)]; [done |]. cbn [snd].
    assert (∀ which x x', inv heap x → conv_ok x → reclaims which x x' → conv_ok x') as Hstep.
    { intros which x x' Hx Hcx [[_ ->] | (P & _ & _ & C & ->)]; [done | by apply reclaim_record_conv]. }
    eapply Hstep; [| | exact H2]; [by eapply reclaims_inv | by eapply Hstep].
Qed.

Lemma reachable_conv w0 w : inv heap w0 → conv_ok w0 → reachable heap w0 w → conv_ok w.
Proof.
  intros H0 W0. induction 1 as [| w a w' Hr IH Hact]; [done |].
  eapply act_conv; [| exact IH | exact Hact]. by eapply reachable_inv.
Qed.

Lemma initial_conv initial workers timeout w :
  (∀ s, 0 ≤ snap_generation heap s) → make_publication_state heap initial workers timeout = Val w → conv_ok w.
Proof. intros Hpos. unfold make_publication_state. repeat case_match; intros; simplify_eq. split; cbn; done || apply Hpos. Qed.
End convergence.

(** ** Progress of the reclaimer *)
Section liveness.
Context {F : Type} (heap : nat → FilterContext F).

Lemma set_reclaimer_twice b b' w : set_reclaimer b (set_reclaimer b' w) = set_reclaimer b w.
Proof. done. Qed.

(** B runs alone for [n] steps. *)
Definition run_alone (now : Z) (stop : bool) (n : nat) (w : World) : World := Nat.iter n (reclaimer_step now stop) w.

Lemma run_alone_add now stop n k w : run_alone now stop (n + k) w = run_alone now stop n (run_alone now stop k w).
Proof. apply Nat.iter_add. Qed.

Lemma checking_step w which m todo loads now stop :
  reclaimer_step now stop (set_reclaimer (Checking which (m :: todo) loads) w) =
  match member_load (epochs w) (version_generation (version (record_of which (retirement w))))
          (terminal (record_of which (retirement w))) m loads with
  | inl loads => set_reclaimer (Checking which (m :: todo) loads) w
  | inr true => set_reclaimer (Checking which todo LoadQuiesced) w
  | inr false => set_reclaimer (Incomplete which) w
  end.
Proof. done. Qed.

Lemma check_member w which m todo now stop :
  terminal (record_of which (retirement w)) = is_terminal which → member_ok (epochs w) m →
  complete (retirement w) (epochs w) which m →
  ∃ n, (n ≤ 4)%nat ∧ run_alone now stop n (set_reclaimer (Checking which (m :: todo) LoadQuiesced) w) =
       set_reclaimer (Checking which todo LoadQuiesced) w.
Proof.
  intros Ht Hm Hc. apply member_complete_spec in Hc; [| done]. pose proof (mo_epoch _ _ Hm) as He.
  destruct (member_instance_id m <=? quiesced_through_instance_id (epochs w (member_worker_id m))) eqn:Hq.
  - exists 1%nat. split; [lia |]. change (run_alone now stop 1 ?x) with (reclaimer_step now stop x).
    rewrite checking_step. unfold member_load. by rewrite He, Hq.
  - destruct Hc as [Hc | (Hw & Hp & Hg)]; [bool_hyps; lia |]. exists 4%nat. split; [lia |].
    change (run_alone now stop 4 ?x) with
      (reclaimer_step now stop (reclaimer_step now stop (reclaimer_step now stop (reclaimer_step now stop x)))).
    do 4 (rewrite checking_step; unfold member_load at 1; rewrite He, ?Hq, ?Ht, ?Hw).
    by rewrite Hp, Z.eqb_refl, (proj2 (Z.leb_le _ _) Hg).
Qed.

Lemma check_cohort w which todo now stop :
  terminal (record_of which (retirement w)) = is_terminal which → Forall (member_ok (epochs w)) todo →
  Forall (complete (retirement w) (epochs w) which) todo →
  ∃ n, (n ≤ 4 * length todo)%nat ∧ run_alone now stop n (set_reclaimer (Checking which todo LoadQuiesced) w) =
       set_reclaimer (Checking which [] LoadQuiesced) w.
Proof.
  intros Ht. induction todo as [| m todo IH]; intros Hm Hc; [by exists 0%nat |].
  apply Forall_cons_iff in Hm as [Hm Hms]. apply Forall_cons_iff in Hc as [Hc Hcs].
  destruct (check_member w which m todo now stop Ht Hm Hc) as (n1 & Hn1 & H1). destruct (IH Hms Hcs) as (n2 & Hn2 & H2).
  exists (n2 + n1)%nat. split; [simpl length; lia |]. by rewrite run_alone_add, H1.
Qed.

Lemma reclaim_progress w which now stop :
  inv heap w → reclaimer w = LoopHead → reclaimer_failure_requested_ (retirement w) = false →
  reclaimer_failure_after_commit_requested_ (retirement w) = false → next_pending_record (retirement w) = Some which →
  cohort_complete (epochs w) (record_of which (retirement w)) = true →
  ∃ n, (n ≤ 4 * length (cohort (record_of which (retirement w))) + 3)%nat ∧
    let w' := run_alone now stop n w in
    reclaimer w' = LoopHead ∧ pending (record_of which (retirement w')) = false ∧ owner (record_of which (retirement w')) = None ∧
    (which = Retired → retirement_credit_held_ (retirement w') = false ∧
       current_generation w ≤ last_converged_generation_ (retirement w') ∧
       current_generation w ≤ last_reclaimed_generation_ (retirement w')).
Proof.
  intros Hinv Hpc Hf1 Hf2 Hn Hc. pose proof (inv_reclaimer _ _ Hinv) as [Hact Hb]. rewrite Hpc in Hact, Hb.
  assert (pending (record_of which (retirement w)) = true) as Hp.
  { unfold next_pending_record in Hn. repeat case_match; simplify_eq; done. }
  apply (cohort_complete_spec heap w which Hinv Hp) in Hc.
  destruct (check_cohort w which _ now stop (ro_terminal _ _ _ _ _ (inv_record _ _ Hinv which) Hp)
    (ro_members _ _ _ _ _ (inv_record _ _ Hinv which) Hp) Hc) as (n & Hle & Hrun).
  exists (2 + (n + 1))%nat. split; [lia |]. rewrite !run_alone_add.
  assert (run_alone now stop 1 w = set_reclaimer (Checking which (cohort (record_of which (retirement w))) LoadQuiesced) w) as ->.
  { cbn. unfold reclaimer_step. by rewrite Hpc, Hf1, Hf2, Hn. }
  rewrite Hrun. set (w1 := set_reclaimer (Checking which [] LoadQuiesced) w).
  destruct (claim_inv heap w which Hinv Hb Hact Hp Hc) as (s & Ho & _).
  assert (use_count w1 s = 1%nat) as Hu.
  { rewrite <- (complete_sole_owner heap w which s Hinv Ho Hc). unfold use_count. cbn. by rewrite Hpc. }
  assert (reclaimer_step now stop w1 = set_reclaimer (Destroying which (version_generation (version (record_of which (retirement w))))
    (retired_bytes (record_of which (retirement w))) (Some s)) (set_retirement (claim_record which (retirement w)) w)) as Hs.
  { unfold reclaimer_step. cbn [reclaimer w1 set_reclaimer retirement]. rewrite Ho. change (set_reclaimer _ w) with w1. by rewrite Hu. }
  change (run_alone now stop 2 w1) with (reclaimer_step now stop (reclaimer_step now stop w1)). rewrite Hs.
  pose proof (ro_version _ _ _ _ _ (inv_record _ _ Hinv which) Hp) as Hv. unfold current_generation.
  destruct which; cbn in *; split_and!; try done. intros _. split_and!; [done | lia | lia].
Qed.
End liveness.

(** ** Properties *)

Section shared.
Context {F : Type} (heap : nat → FilterContext F).

(** The snapshot B destroys has no other owner. *)
Lemma destroying_sole_owner w which g b sole :
  inv heap w → reclaimer w = Destroying which g b sole → ∃ s, sole = Some s ∧ use_count w s = 1%nat.
Proof.
  intros Hinv Hpc. destruct (inv_reclaimer _ _ Hinv) as [_ Hb]. rewrite Hpc in Hb.
  destruct Hb as (N & P & -> & s & -> & Hg). exists s. split; [done |].
  pose proof (ro_owner _ _ _ _ _ (inv_record _ _ Hinv which) P) as Hd. rewrite N, bool_decide_eq_true_2 in Hd by done.
  symmetry in Hd. apply bool_decide_eq_true in Hd.
  assert (active_snapshot_ (publication w) ≠ Some s) as Ha.
  { intros Ha. pose proof (po_active _ _ (inv_pub _ _ Hinv) s Ha). destruct which; simpl in Hg; [lia |].
    pose proof (ro_slot _ _ _ _ _ (inv_record _ _ Hinv Terminal) P) as Hs. simpl in Hs. congruence. }
  assert (∀ other, owner (record_of other (retirement w)) ≠ Some s) as Hother.
  { intros other Ho'. pose proof (ro_generation _ _ _ _ _ (inv_record _ _ Hinv other) s Ho').
    destruct which, other; simpl in *; congruence || lia. }
  assert (∀ wid i, locals w !! (wid, i) ≠ Some s) as Hl.
  { intros wid i Hl. destruct (inv_locals _ _ Hinv wid i s Hl) as (_ & _ & _ & [? | (other & ? & _)]); [done |]. by apply (Hother other). }
  unfold use_count. rewrite locals_count_0 by done. rewrite Hpc. cbn [sole_of].
  rewrite (option_count_ne _ _ Ha). pose proof (option_count_ne _ _ (Hother Retired)) as H1.
  pose proof (option_count_ne _ _ (Hother Terminal)) as H2. cbn [record_of] in H1, H2.
  rewrite H1, H2, candidates_count_0, option_count_eq; [done |].
  intros Hin. destruct (inv_candidates _ _ Hinv) as [_ H]. destruct (H s Hin) as (_ & _ & H3). by rewrite Hpc in H3.
Qed.

Fixpoint run_actions (l : list Action) (w : World) : option World :=
  match l with
  | [] => Some w
  | a :: l => w' ← act heap a w; run_actions l w'
  end.

Lemma run_actions_reachable l w0 w w' : reachable heap w0 w → run_actions l w = Some w' → reachable heap w0 w'.
Proof.
  revert w. induction l as [| a l IH]; intros w Hr; simpl; [by intros [= <-] |].
  destruct (act heap a w) as [w1 |] eqn:Ha; [| done]. simpl. apply IH. by eapply reachable_step.
Qed.
End shared.

(** A publication state as its constructor makes it; generations are unsigned. *)
Definition initial_state {F} (heap : nat → FilterContext F) (w : World) : Prop :=
  (∀ s, 0 ≤ snap_generation heap s) ∧ ∃ initial workers timeout, make_publication_state heap initial workers timeout = Val w.

Lemma initial_state_inv {F} (heap : nat → FilterContext F) w0 w :
  initial_state heap w0 → reachable heap w0 w → inv heap w ∧ wake_ok w ∧ conv_ok heap w.
Proof.
  intros (Hpos & i & n & t & H) Hr. pose proof (initial_inv heap i n t w0 Hpos H) as Hi. split_and!.
  - by eapply reachable_inv.
  - eapply reachable_wake; [done | by eapply initial_wake | done].
  - eapply reachable_conv; [done | by eapply initial_conv | done].
Qed.

(** C1: grace period.  In every interleaving of writer, reclaimer, supervisor and
    workers: once the cohort recorded at the commit (or at the terminal detach) is
    complete, no worker owns the replaced snapshot any more and the record is its only
    owner. *)
Theorem grace_period_safety {F} (heap : nat → FilterContext F) w0 w which s :
  initial_state heap w0 → reachable heap w0 w →
  owner (record_of which (retirement w)) = Some s →
  cohort_complete (epochs w) (record_of which (retirement w)) = true →
  (∀ worker_id instance_id, locals w !! (worker_id, instance_id) ≠ Some s) ∧ use_count w s = 1%nat.
Proof.
  intros H0 Hr Ho Hc. destruct (initial_state_inv heap w0 w H0 Hr) as (Hinv & _).
  apply (cohort_complete_spec heap w which Hinv) in Hc; [| by eapply owner_pending].
  split; [intros wid i; by eapply complete_no_local | by eapply complete_sole_owner].
Qed.

(** C30: destruction on the reclaimer.  Although the reclaimer reads the epochs load by
    load and without the workers' mutex, the snapshot it destroys never has another
    owner, and it never gives up because of one. *)
Theorem reclaimer_sole_owner {F} (heap : nat → FilterContext F) w0 w :
  initial_state heap w0 → reachable heap w0 w →
  match reclaimer w with
  | Destroying _ _ _ sole => ∃ s, sole = Some s ∧ use_count w s = 1%nat
  | Checking which [] _ => ∀ now stop, ∃ g b s, reclaimer (reclaimer_step now stop w) = Destroying which g b (Some s)
  | _ => True
  end.
Proof.
  intros H0 Hr. destruct (initial_state_inv heap w0 w H0 Hr) as (Hinv & _).
  destruct (reclaimer w) as [| | which [| m todo] loads | | | | which g b sole |] eqn:Hpc; try done.
  - intros now stop. destruct (inv_reclaimer _ _ Hinv) as [Hact Hb]. rewrite Hpc in Hact, Hb.
    destruct Hb as (N & P & _ & dn & Hc & Hall). rewrite app_nil_r in Hc. rewrite <- Hc in Hall.
    destruct (claim_inv heap w which Hinv N Hact P Hall) as (s & Ho & _).
    unfold reclaimer_step. rewrite Hpc, Ho, (complete_sole_owner heap w which s Hinv Ho Hall). by eexists _, _, _.
  - by eapply destroying_sole_owner.
Qed.

(** Meaning of convergence.  When the writer is told that a generation has
    converged, no worker owns a snapshot of an older generation, and the generation is
    not newer than the current one. *)
Theorem converged_sound {F} (heap : nat → FilterContext F) w0 w g :
  initial_state heap w0 → reachable heap w0 w → wait_until_converged g w = Some Converged →
  g ≤ current_generation w ∧
  ∀ worker_id instance_id s, locals w !! (worker_id, instance_id) = Some s → g ≤ snap_generation heap s.
Proof.
  intros H0 Hr Hw. destruct (initial_state_inv heap w0 w H0 Hr) as (_ & _ & [C1 C2 C3 C4]).
  unfold wait_until_converged in Hw. destruct (g <=? _) eqn:Hg; [| by repeat case_match]. bool_hyps.
  split; [lia |]. intros wid i s Hl. specialize (C3 wid i s Hl). lia.
Qed.

(** C31: no lost wake-up.  If the reclaimer sleeps on a progress number and the cohort
    it waits for is complete, then a worker or the supervisor is still about to publish
    its progress, or the condition of the sleep is already true and the next step
    wakes it. *)
Theorem no_lost_wakeup {F} (heap : nat → FilterContext F) w0 w which seq :
  initial_state heap w0 → reachable heap w0 w → total_progress w < 2 ^ 64 →
  reclaimer w = WaitingProgress which seq → cohort_complete (epochs w) (record_of which (retirement w)) = true →
  (0 < progress_owed w)%nat ∨ ∀ now stop, reclaimer (reclaimer_step now stop w) = LoopHead.
Proof.
  intros H0 Hr Hlt Hpc Hc. destruct (initial_state_inv heap w0 w H0 Hr) as (Hinv & (Ht & Hs & Hw) & _).
  destruct (inv_reclaimer _ _ Hinv) as [_ Hb]. rewrite Hpc in Hw, Hb. destruct Hb as [_ Hp].
  apply (cohort_complete_spec heap w which Hinv Hp) in Hc.
  destruct Hw as (n & -> & Hn & [Ho | Hlt']%(λ H, H Hc)); [by left |]. right. intros now stop.
  unfold reclaimer_step. rewrite Hpc, Hs. unfold wrap64. rewrite !Z.mod_small by lia.
  rewrite (proj2 (Z.eqb_neq (total_progress w) n)) by lia. cbn [negb]. by rewrite orb_true_r.
Qed.

(** The reclaimer makes progress.  With a complete cohort and no failure injected,
    at most four steps per member and three more take it through the check and the
    destruction, even if nobody else moves: the record is free, the retirement credit is
    back and the generation counts as converged and reclaimed. *)
Theorem reclaim_liveness {F} (heap : nat → FilterContext F) w0 w which now stop :
  initial_state heap w0 → reachable heap w0 w →
  reclaimer w = LoopHead → reclaimer_failure_requested_ (retirement w) = false →
  reclaimer_failure_after_commit_requested_ (retirement w) = false → next_pending_record (retirement w) = Some which →
  cohort_complete (epochs w) (record_of which (retirement w)) = true →
  ∃ n, (n ≤ 4 * length (cohort (record_of which (retirement w))) + 3)%nat ∧
    let w' := run_alone now stop n w in
    reclaimer w' = LoopHead ∧ pending (record_of which (retirement w')) = false ∧ owner (record_of which (retirement w')) = None ∧
    (which = Retired → retirement_credit_held_ (retirement w') = false ∧
       current_generation w ≤ last_converged_generation_ (retirement w') ∧
       current_generation w ≤ last_reclaimed_generation_ (retirement w')).
Proof. intros H0 Hr. destruct (initial_state_inv heap w0 w H0 Hr) as (Hinv & _). by apply (reclaim_progress heap). Qed.

(** a worker follows.  While a snapshot is active, [refresh_worker_snapshot] of a
    worker that owns one always succeeds: the worker then owns the active snapshot, has
    acknowledged the current generation, and no cohort of a commit waits for it. *)
Theorem refresh_follows {F} (heap : nat → FilterContext F) w0 w worker_id instance_id s next :
  initial_state heap w0 → reachable heap w0 w →
  locals w !! (worker_id, instance_id) = Some s → active_snapshot_ (publication w) = Some next →
  ∃ w', refresh_worker_snapshot heap (Some s) instance_id worker_id w = (true, Some next, w') ∧
    observed_generation (epochs w' worker_id) = current_generation w ∧
    worker_needs_refresh instance_id (epochs w' worker_id) w' = false ∧
    (pending (retired_ (retirement w)) = true →
     member_complete (epochs w') (version_generation (version (retired_ (retirement w)))) false
       (mkCohortMember worker_id instance_id (Some worker_id)) = true).
Proof.
  intros H0 Hr Hl Ha. destruct (initial_state_inv heap w0 w H0 Hr) as (Hinv & _).
  destruct (refresh_spec heap w worker_id instance_id s next Hinv Hl Ha) as [Hle Heq].
  destruct (inv_locals _ _ Hinv _ _ _ Hl) as (_ & Hp & _).
  pose proof (po_active _ _ (inv_pub _ _ Hinv) next Ha) as Hg. unfold refresh_worker_snapshot. rewrite Heq.
  set (w1 := if _ <? _ then set_epoch _ _ w else w). set (w' := if _ <? _ then publish_progress w1 else w1).
  assert (published_instance_id (epochs w' worker_id) = instance_id ∧ observed_generation (epochs w' worker_id) = current_generation_ (publication w)
    ∧ publication w' = publication w) as (E1 & E2 & E3).
  { subst w' w1. destruct (_ <? _) eqn:Hlt; bool_hyps;
      cbn [epochs publish_progress set_retirement set_epoch publication]; rewrite ?fn_lookup_insert;
      cbn [published_instance_id observed_generation]; split_and!; (done || lia). }
  exists w'. split_and!; try done.
  - unfold worker_needs_refresh. rewrite E2, E3. unfold current_generation. rewrite Z.ltb_irrefl. by rewrite andb_false_r.
  - intros Hpend. pose proof (ro_version _ _ _ _ _ (inv_record _ _ Hinv Retired) Hpend) as Hv. cbn [record_of] in Hv.
    unfold member_complete. cbn [member_epoch member_instance_id]. rewrite E1, E2, Hv, Z.eqb_refl, Z.leb_refl. by destruct (_ <=? _).
Qed.

(** [commit] is all or nothing.  It fails without changing anything exactly when no
    retirement credit is free, publication is sealed, the candidate is null or of
    generation 0, or its generation is not the successor of the current one; otherwise
    the candidate is active under the next generation, the old snapshot is retired with
    the cohort of the registered workers, and the sink is told. *)
Theorem commit_outcomes {F} (heap : nat → FilterContext F) candidate now w :
  match commit heap candidate now w with
  | (Val (v, notified), w') =>
      ∃ s, candidate = Some s ∧ committed heap s now w w' ∧ v = current_version w' ∧
           notified = (if publication_sink_ (publication w) then Some (version_generation v) else None)
  | (Err e, w') =>
      w' = w ∧
      match e with
      | NoRetirementCredit => retirement_credit_held_ (retirement w) = false ∨ pending (retired_ (retirement w)) = true
      | PublicationSealed => publication_sealed_ (publication w) = true
      | InvalidCandidate => ∀ s, candidate = Some s → snap_generation heap s = 0
      | GenerationMismatch => ∃ s, candidate = Some s ∧
          (current_generation w = uint64_max ∨ snap_generation heap s ≠ current_generation w + 1)
      end
  | (Undef, _) => False
  end.
Proof.
  destruct candidate as [s |].
  - destruct (commit_cases heap s now w) as [[e Heq] | (v & n & w' & Heq & Hc)]; rewrite Heq.
    + split; [done |]. unfold commit in Heq. destruct (_ || pending _) eqn:H1 in Heq; simplify_eq.
      { apply orb_true_iff in H1 as [H1 | H1]; [left; by apply negb_true_iff | by right]. }
      destruct (publication_sealed_ _) eqn:H2 in Heq; simplify_eq; [done |].
      destruct (snap_generation heap s =? 0) eqn:H3 in Heq; simplify_eq; [bool_hyps; by intros t [= <-] |].
      destruct (_ || negb _) eqn:H4 in Heq; simplify_eq. exists s. split; [done |].
      apply orb_true_iff in H4 as [H4 | H4]; bool_hyps; [by left | by right].
    + exists s. split; [done |]. split; [done |]. unfold commit in Heq. repeat case_match; simplify_eq; done.
  - unfold commit. repeat case_match; simplify_eq; try done; split; try done.
    match goal with H : _ || _ = true |- _ => apply orb_true_iff in H as [H | H] end; [left; by apply negb_true_iff | by right].
Qed.

(** Bounded retention.  At every moment the active snapshot has the current
    generation, every worker has that one or its predecessor, and while a snapshot waits
    for reclamation no other one can be committed. *)
Theorem retention_bounds {F} (heap : nat → FilterContext F) w0 w :
  initial_state heap w0 → reachable heap w0 w →
  (∀ s, active_snapshot_ (publication w) = Some s → snap_generation heap s = current_generation w) ∧
  (∀ worker_id instance_id s, locals w !! (worker_id, instance_id) = Some s →
     current_generation w - 1 ≤ snap_generation heap s ≤ current_generation w) ∧
  (pending (retired_ (retirement w)) = true →
     retirement_credit_held_ (retirement w) = true ∧ ∀ candidate now, commit heap candidate now w = (Err NoRetirementCredit, w)).
Proof.
  intros H0 Hr. destruct (initial_state_inv heap w0 w H0 Hr) as (Hinv & _). split; [apply Hinv |]. split.
  - intros wid i s Hl. destruct (inv_locals _ _ Hinv wid i s Hl) as (_ & _ & _ & [Ha | (which & Ho & _)]).
    + rewrite (po_active _ _ (inv_pub _ _ Hinv) s Ha). unfold current_generation. lia.
    + rewrite (ro_generation _ _ _ _ _ (inv_record _ _ Hinv which) s Ho). unfold current_generation. destruct which; simpl; lia.
  - intros Hp. split; [apply (ro_slot _ _ _ _ _ (inv_record _ _ Hinv Retired) Hp) |].
    intros candidate now. unfold commit. by rewrite Hp, orb_true_r.
Qed.

Lemma quiesced_complete {F} (heap : nat → FilterContext F) w which :
  inv heap w → (∀ wid, registry_at (publication w) wid = None) → pending (record_of which (retirement w)) = true →
  Forall (complete (retirement w) (epochs w) which) (cohort (record_of which (retirement w))).
Proof.
  intros Hinv Hreg Hp. pose proof (ro_members _ _ _ _ _ (inv_record _ _ Hinv which) Hp) as Hm.
  rewrite list.Forall_forall in *. intros m Hin. apply member_complete_spec; [by apply Hm |]. left.
  destruct (Hm m Hin) as [_ Hle _]. destruct (eo_out _ _ (inv_epochs _ _ Hinv) _ (Hreg (member_worker_id m))). lia.
Qed.

Lemma quiesced_teardown {F} (heap : nat → FilterContext F) w : inv heap w → publication_sealed_ (publication w) = true →
  (∀ worker_id, registry_at (publication w) worker_id = None) → reclaimer_active_ (retirement w) = false →
  ∃ w', emergency_reclaim_converged w = (true, w') ∧ may_be_destroyed w' = true.
Proof.
  intros Hinv Hs Hreg Hact.
  pose proof (λ which Hp, quiesced_complete heap w which Hinv Hreg Hp) as Hall.
  assert (∀ which, pending (record_of which (retirement w)) &&
    negb (cohort_complete (epochs w) (record_of which (retirement w))) = false) as Hc.
  { intros which. destruct (pending (record_of which _)) eqn:Hp; [| done].
    by rewrite (proj2 (cohort_complete_spec heap w which Hinv Hp) (Hall which Hp)). }
  assert (∀ which, sole_or_empty w (record_of which (retirement w)) = true) as Hsole.
  { intros which. unfold sole_or_empty. destruct (owner _) as [s |] eqn:Ho; [| done]. apply Nat.eqb_eq.
    apply (complete_sole_owner heap w which s Hinv Ho), Hall. by apply (owner_pending heap w which s). }
  unfold emergency_reclaim_converged, reclaim_converged_locked. rewrite Hs, Hact. cbn [orb negb].
  pose proof (Hc Retired) as C1. pose proof (Hc Terminal) as C2. pose proof (Hsole Retired) as S1.
  pose proof (Hsole Terminal) as S2. cbn [record_of] in *. rewrite C1, C2, S1, S2. cbn [negb orb]. eexists. split; [done |].
  assert (existsb (λ e : option nat, bool_decide (e ≠ None)) (registry_ (publication w)) = false) as Hex.
  { apply not_true_iff_false. intros (e & Hin & He)%existsb_exists. apply bool_decide_eq_true in He.
    apply list_elem_of_In, list_elem_of_lookup in Hin as [i Hi]. specialize (Hreg i). unfold registry_at in Hreg. by rewrite Hi in Hreg. }
  unfold may_be_destroyed. cbn [set_retirement publication retirement]. rewrite Hex.
  destruct (pending (retired_ (retirement w))) eqn:P1.
  - cbn [terminal_ reclaim_record]. cbn. destruct (pending (terminal_ (retirement w))) eqn:P2; cbn; rewrite ?Hact, ?P2; [done |].
    destruct (ro_idle _ _ _ _ _ (inv_record _ _ Hinv Terminal) P2) as [_ D2]. cbn [record_of] in D2. by rewrite D2.
  - destruct (ro_idle _ _ _ _ _ (inv_record _ _ Hinv Retired) P1) as [_ D1]. cbn [record_of] in D1.
    destruct (pending (terminal_ (retirement w))) eqn:P2; cbn; rewrite ?Hact, ?P1, ?P2, ?D1; [done |].
    destruct (ro_idle _ _ _ _ _ (inv_record _ _ Hinv Terminal) P2) as [_ D2]. cbn [record_of] in D2. by rewrite D2.
Qed.

(** Teardown.  Once publication is sealed, every worker is quiesced and the
    reclaimer has ended, for whatever reason, the emergency takeover succeeds, and after
    it the state may be destroyed: its destructor does not call std::terminate. *)
Theorem emergency_teardown {F} (heap : nat → FilterContext F) w0 w :
  initial_state heap w0 → reachable heap w0 w → publication_sealed_ (publication w) = true →
  (∀ worker_id, registry_at (publication w) worker_id = None) → reclaimer_active_ (retirement w) = false →
  ∃ w', emergency_reclaim_converged w = (true, w') ∧ may_be_destroyed w' = true.
Proof. intros H0 Hr. destruct (initial_state_inv heap w0 w H0 Hr) as (Hinv & _). by apply (quiesced_teardown heap). Qed.

(** ** Concrete instances *)

(** Snapshot [n] has generation [n + 1]. *)
Definition sample_heap (n : nat) : FilterContext Cuckoo.CuckooFilter := mkFilterContext (Z.of_nat n + 1) 9 sample_build.

Definition sample_start : World :=
  mkWorld 2 1000 (mkPublication (Some 0%nat) [None; None] false 1 2 9 false)
    (mkRetirement new_record new_record false 0 0 0 0 false false false false false) (λ _, new_epoch) ∅ [] (Stopped None) 0 0.

Lemma sample_initial : initial_state sample_heap sample_start.
Proof.
  split; [intros s; unfold snap_generation, sample_heap; simpl; lia |]. exists (Some 0%nat), 2%nat, 1000.
  vm_compute. reflexivity.
Qed.

Definition sample_world (l : list Action) : World := default sample_start (run_actions sample_heap l sample_start).

Lemma sample_reachable l : reachable sample_heap sample_start (sample_world l).
Proof.
  unfold sample_world. destruct (run_actions sample_heap l sample_start) as [w |] eqn:Hr; [| constructor].
  eapply run_actions_reachable; [constructor | exact Hr].
Qed.

(** Worker 0 starts with snapshot 0; snapshot 1 is committed. *)
Definition sample_commit : list Action :=
  [Register 0 1; Refresh 0 1; PublishProgress; MarkRegistered 0 1; AcquireCredit false; BuildCandidate 1; Commit 1 5].
(** B looks and sleeps; then the worker refreshes. *)
Definition sample_sleep : list Action :=
  sample_commit ++ StartReclaimer :: replicate 7 (ReclaimerStep 6 false) ++ [Refresh 0 1].

Lemma grace_period_safety_witness :
  (∀ worker_id instance_id, locals (sample_world (sample_commit ++ [Refresh 0 1])) !! (worker_id, instance_id) ≠ Some 0%nat) ∧
  use_count (sample_world (sample_commit ++ [Refresh 0 1])) 0 = 1%nat.
Proof.
  apply (grace_period_safety sample_heap sample_start (sample_world (sample_commit ++ [Refresh 0 1])) Retired 0).
  - exact sample_initial.
  - apply sample_reachable.
  - vm_compute. reflexivity.
  - vm_compute. reflexivity.
Defined.

Definition sample_destroy : World :=
  sample_world (sample_commit ++ [Refresh 0 1; StartReclaimer; ReclaimerStep 6 false; ReclaimerStep 6 false; ReclaimerStep 6 false;
    ReclaimerStep 6 false; ReclaimerStep 6 false; ReclaimerStep 6 false; ReclaimerStep 6 false]).

Lemma reclaimer_sole_owner_witness :
  sole_of (reclaimer sample_destroy) = Some 0%nat ∧
  match reclaimer sample_destroy with
  | Destroying _ _ _ sole => ∃ s, sole = Some s ∧ use_count sample_destroy s = 1%nat
  | Checking which [] _ => ∀ now stop, ∃ g b s, reclaimer (reclaimer_step now stop sample_destroy) = Destroying which g b (Some s)
  | _ => True
  end.
Proof.
  split; [vm_compute; reflexivity |].
  exact (reclaimer_sole_owner sample_heap sample_start sample_destroy sample_initial (sample_reachable _)).
Defined.

Lemma converged_sound_witness :
  2 ≤ current_generation sample_destroy ∧
  ∀ worker_id instance_id s, locals sample_destroy !! (worker_id, instance_id) = Some s → 2 ≤ snap_generation sample_heap s.
Proof.
  apply (converged_sound sample_heap sample_start sample_destroy 2 sample_initial (sample_reachable _)).
  vm_compute. reflexivity.
Defined.

Lemma no_lost_wakeup_witness :
  (0 < progress_owed (sample_world sample_sleep))%nat ∨
  ∀ now stop, reclaimer (reclaimer_step now stop (sample_world sample_sleep)) = LoopHead.
Proof.
  apply (no_lost_wakeup sample_heap sample_start (sample_world sample_sleep) Retired 1 sample_initial (sample_reachable _)).
  - vm_compute. reflexivity.
  - vm_compute. reflexivity.
  - vm_compute. reflexivity.
Defined.

Lemma reclaim_liveness_witness :
  let w := sample_world (sample_commit ++ [Refresh 0 1; StartReclaimer; ReclaimerStep 6 false]) in
  ∃ n, (n ≤ 4 * length (cohort (record_of Retired (retirement w))) + 3)%nat ∧
    let w' := run_alone 6 false n w in
    reclaimer w' = LoopHead ∧ pending (record_of Retired (retirement w')) = false ∧ owner (record_of Retired (retirement w')) = None ∧
    (Retired = Retired → retirement_credit_held_ (retirement w') = false ∧
       current_generation w ≤ last_converged_generation_ (retirement w') ∧
       current_generation w ≤ last_reclaimed_generation_ (retirement w')).
Proof.
  apply (reclaim_liveness sample_heap sample_start (sample_world (sample_commit ++ [Refresh 0 1; StartReclaimer; ReclaimerStep 6 false])) Retired 6 false
    sample_initial (sample_reachable _)); vm_compute; reflexivity.
Defined.

Lemma refresh_follows_witness :
  let w := sample_world sample_commit in
  ∃ w', refresh_worker_snapshot sample_heap (Some 0%nat) 1 0 w = (true, Some 1%nat, w') ∧
    observed_generation (epochs w' 0%nat) = current_generation w ∧
    worker_needs_refresh 1 (epochs w' 0%nat) w' = false ∧
    (pending (retired_ (retirement w)) = true →
     member_complete (epochs w') (version_generation (version (retired_ (retirement w)))) false
       (mkCohortMember 0 1 (Some 0%nat)) = true).
Proof.
  apply (refresh_follows sample_heap sample_start (sample_world sample_commit) 0 1 0 1 sample_initial (sample_reachable _));
    vm_compute; reflexivity.
Defined.

Lemma retention_bounds_witness :
  let w := sample_world sample_commit in
  (∀ s, active_snapshot_ (publication w) = Some s → snap_generation sample_heap s = current_generation w) ∧
  (∀ worker_id instance_id s, locals w !! (worker_id, instance_id) = Some s →
     current_generation w - 1 ≤ snap_generation sample_heap s ≤ current_generation w) ∧
  (pending (retired_ (retirement w)) = true →
     retirement_credit_held_ (retirement w) = true ∧ ∀ candidate now, commit sample_heap candidate now w = (Err NoRetirementCredit, w)).
Proof. exact (retention_bounds sample_heap sample_start (sample_world sample_commit) sample_initial (sample_reachable _)). Defined.

Definition sample_teardown : World :=
  sample_world (sample_commit ++ [Seal; Detach 7; ReleaseLocal 0 1; Quiesce 0 1]).

Lemma emergency_teardown_witness :
  ∃ w', emergency_reclaim_converged sample_teardown = (true, w') ∧ may_be_destroyed w' = true.
Proof.
  apply (emergency_teardown sample_heap sample_start sample_teardown sample_initial (sample_reachable _)).
  - vm_compute. reflexivity.
  - intros [| [| [| i]]]; vm_compute; reflexivity.
  - vm_compute. reflexivity.
Defined.
