(* ===== verification/FilterUpdateController.v ===== *)
(** * Replacement of the filter rules ([FilterUpdateController.h],
      [FilterUpdateController.cpp])

    Clients submit rule sets, writer thread A takes them one at a time, compiles and
    publishes them, and answers each client through a promise; teardown seals the
    controller, lets A detach the active snapshot and completes what A left committed.

    Module [Update] is a state machine over [Publication.World].  Every call in progress
    is an entry of [calls] with a program counter; a step is one critical section of
    [mutex_], one call into the publication state, or one promise that is set.  The
    builder is a [std::function]: its result is an input of the step that calls it.
    Allocation failures are not modelled. *)
From Stdlib Require Import Strings.Byte.
From S2P Require Import Prelude Wire DomainName CuckooFilter RadixTree DomainBlocklist FilterPublication.
Import Publication.

Module Update.

(** ** Data *)
Inductive FilterRunnerExitCode := RequestedStop | FatalExit.

Record FilterUpdateLimits := mkLimits {
  maximum_rule_count : Z;
  maximum_normalized_rule_bytes : Z;
  maximum_queued_rule_bytes : Z;
}.

Definition default_limits : FilterUpdateLimits := mkLimits 100000 (16 * 1024 * 1024) (64 * 1024 * 1024).

Inductive FilterUpdateErrorCode :=
  | ServiceNotRunning | ControlPlaneDisabled | ShuttingDown | BuildFailed | GenerationExhausted
  | QueueFull | RuleCountLimitExceeded | RuleBytesLimitExceeded | QueueBytesLimitExceeded
  | InternalError.

Record FilterUpdateError := mkUpdateError {
  code : FilterUpdateErrorCode;
  build_error : option BlocklistBuildError;
  actual : Z;
  limit : Z;
}.

Definition FilterUpdateResult : Type := FilterVersion + FilterUpdateError.

Inductive FilterSuccessorCompletionResult :=
  | SuccessorCompleted | SuccessorReclaimerUnavailable | WriterStillRunning | SuccessorInternalError.

Record FilterRuleMeasurement := mkMeasurement { raw_bytes : Z; normalized_bytes : Z }.

Inductive CommandPhase := Queued | Building | Publishing | Committed | Completed.
#[export] Instance CommandPhase_eq_dec : EqDecision CommandPhase.
Proof. solve_decision. Defined.

(** [completion] names the promise. *)
Record Command := mkCommand {
  rules : list (list byte);
  accounted_bytes : Z;
  phase : CommandPhase;
  target : option FilterVersion;
  published : option FilterVersion;
  completion : nat;
}.

#[export] Instance build_error_code_eq_dec : EqDecision BlocklistBuildErrorCode.code.
Proof. solve_decision. Defined.

Definition kMaximumPendingUpdates : nat := 64.

Definition update_error (c : FilterUpdateErrorCode) (b : option BlocklistBuildError) : FilterUpdateResult :=
  inr (mkUpdateError c b 0 0).

(** ** Measuring a rule set *)
Definition size_t_max : Z := 2 ^ 64 - 1.

Definition saturated_add (lhs rhs : Z) : Z := if size_t_max - lhs <? rhs then size_t_max else lhs + rhs.

(** The check both counters share: [bytes] more would pass the limit. *)
Definition exceeds (bytes measured limit : Z) : bool := limit - Z.min measured limit <? bytes.

Fixpoint measure_rules (rules : list (list byte)) (limits : FilterUpdateLimits) (measured : FilterRuleMeasurement) :
    outcome FilterUpdateError FilterRuleMeasurement :=
  match rules with
  | [] => Val measured
  | rule :: rules =>
      let size := Z.of_nat (length rule) in
      if exceeds size (raw_bytes measured) (maximum_normalized_rule_bytes limits)
      then Err (mkUpdateError RuleBytesLimitExceeded None (saturated_add (raw_bytes measured) size)
                  (maximum_normalized_rule_bytes limits))
      else
        let measured := mkMeasurement (wrap64 (raw_bytes measured + size)) (normalized_bytes measured) in
        match from_text rule with
        | Undef => Undef
        | Err _ => measure_rules rules limits measured
        | Val normalized =>
            let bytes := Z.of_nat (length (canonical_key_ normalized)) in
            if exceeds bytes (normalized_bytes measured) (maximum_normalized_rule_bytes limits)
            then Err (mkUpdateError RuleBytesLimitExceeded None
                        (saturated_add (normalized_bytes measured) bytes) (maximum_normalized_rule_bytes limits))
            else measure_rules rules limits
                   (mkMeasurement (raw_bytes measured) (wrap64 (normalized_bytes measured + bytes)))
        end
  end.

Definition validate_filter_rule_set (rules : list (list byte)) (limits : FilterUpdateLimits) :
    outcome FilterUpdateError FilterRuleMeasurement :=
  let count := Z.of_nat (length rules) in
  if maximum_rule_count limits <? count
  then Err (mkUpdateError RuleCountLimitExceeded None count (maximum_rule_count limits))
  else measure_rules rules limits (mkMeasurement 0 0).

(** ** State *)

(** What [mutex_] protects, with the stop source of the builds, the failure seam and the
    promises: [promises] maps a promise to the value it was given. *)
Record Controller := mkController {
  limits_ : FilterUpdateLimits;
  pending_ : list Command;
  inflight_ : option Command;
  queued_rule_bytes_ : Z;
  build_stop_requested : bool;
  sealed_ : bool;
  sealed_acknowledged_ : bool;
  terminal_detach_requested_ : bool;
  runner_active_ : bool;
  fail_after_commit_for_testing_ : bool;
  promises : gmap nat FilterUpdateResult;
}.

(** What a call of the builder does: it throws, reports an error, or returns a pointer. *)
Inductive BuilderResult :=
  | BuilderThrows
  | BuilderError (e : BlocklistBuildError)
  | BuilderNull
  | BuilderSnapshot (s : nat).

(** Where a call of [seal] is. *)
Inductive SealPc :=
  | SealStopBuild
  | SealPublication
  | SealLocked
  | SealCancelling (cancelled : list Command).

(** What [apply] returns after [release_credit]. *)
Inductive AfterRelease :=
  | ReturnResult (r : FilterUpdateResult)
  | ReturnBuildError (e : BlocklistBuildError)
  | ReturnCaught.

(** Where [apply] is. *)
Inductive ApplyPc :=
  | ApplyStart
  | ApplyVersion
  | ApplyCredit (current : Z)
  | ApplyBuild (next_generation : Z)
  | ApplyCandidate (s : nat)
  | ApplyCommit (s : nat)
  | ApplyFailpoint (v : FilterVersion)
  | ApplyConverge (v : FilterVersion)
  | ApplyRelease (candidate : option nat) (after : AfterRelease)
  | ApplyReturn (after : AfterRelease).

Inductive FinishPc :=
  | FinishSeal (pc : SealPc)
  | FinishCancelLocked
  | FinishCancelling (cancelled : list Command)
  | FinishReconcile.

(** Where [run] is. *)
Inductive RunPc :=
  | RunForward (pc : SealPc)
  | RunForwardTerminal
  | RunLoop
  | RunDetach
  | RunApply (pc : ApplyPc)
  | RunApplied (r : FilterUpdateResult)
  | RunReset
  | RunFinish (result : FilterRunnerExitCode) (pc : FinishPc).

Inductive SuccessorPc :=
  | SuccessorLocked
  | SuccessorFailing (c : Command)
  | SuccessorWaiting (v : FilterVersion)
  | SuccessorRelocked (v : FilterVersion)
  | SuccessorCompleting (c : Command) (v : FilterVersion).

Inductive CallResult :=
  | FutureOf (completion : nat)
  | RunResult (c : FilterRunnerExitCode)
  | SealReturned
  | SuccessorResult (r : FilterSuccessorCompletionResult)
  | DestructorReturned.

Inductive Call :=
  | Submitting (c : Command)
  | Rejecting (c : Command) (e : FilterUpdateError)
  | Running (pc : RunPc)
  | Sealing (pc : SealPc) (terminal : bool)
  | TerminalLocked
  | Succeeding (pc : SuccessorPc)
  | Destroying (pc : option SealPc)
  | DestroyTerminal
  | Returned (r : CallResult).

(** [next_promise]: the next unused promise.  [commit_log]: which command published which
    version, in order; no code reads it. *)
Record UpdateWorld := mkUpdateWorld {
  controller : Controller;
  world : World;
  calls : gmap nat Call;
  next_promise : nat;
  commit_log : list (nat * FilterVersion);
}.

Definition set_controller (c : Controller) (u : UpdateWorld) : UpdateWorld :=
  mkUpdateWorld c (world u) (calls u) (next_promise u) (commit_log u).
Definition set_world (w : World) (u : UpdateWorld) : UpdateWorld :=
  mkUpdateWorld (controller u) w (calls u) (next_promise u) (commit_log u).
Definition set_call (t : nat) (c : Call) (u : UpdateWorld) : UpdateWorld :=
  mkUpdateWorld (controller u) (world u) (<[t := c]> (calls u)) (next_promise u) (commit_log u).

Definition set_queue (pending : list Command) (inflight : option Command) (bytes : Z) (c : Controller) : Controller :=
  mkController (limits_ c) pending inflight bytes (build_stop_requested c) (sealed_ c) (sealed_acknowledged_ c)
    (terminal_detach_requested_ c) (runner_active_ c) (fail_after_commit_for_testing_ c) (promises c).
Definition set_inflight (inflight : option Command) (c : Controller) : Controller :=
  set_queue (pending_ c) inflight (queued_rule_bytes_ c) c.
Definition set_flags (build_stop sealed acknowledged terminal active failpoint : bool) (c : Controller) : Controller :=
  mkController (limits_ c) (pending_ c) (inflight_ c) (queued_rule_bytes_ c) build_stop sealed acknowledged terminal active
    failpoint (promises c).

(** [complete]: [set_value] on a satisfied promise throws and the exception is dropped. *)
Definition complete (id : nat) (r : FilterUpdateResult) (c : Controller) : Controller :=
  match promises c !! id with
  | Some _ => c
  | None =>
      mkController (limits_ c) (pending_ c) (inflight_ c) (queued_rule_bytes_ c) (build_stop_requested c) (sealed_ c)
        (sealed_acknowledged_ c) (terminal_detach_requested_ c) (runner_active_ c) (fail_after_commit_for_testing_ c)
        (<[id := r]> (promises c))
  end.

Definition with_phase (p : CommandPhase) (t v : option FilterVersion) (c : Command) : Command :=
  mkCommand (rules c) (accounted_bytes c) p t v (completion c).

(** [FilterUpdateController::FilterUpdateController]; [Err]: std::invalid_argument. *)
Definition make_controller (w : World) (limits : FilterUpdateLimits) : outcome unit UpdateWorld :=
  if (current_generation w =? 0) || (maximum_rule_count limits =? 0) ||
     (maximum_normalized_rule_bytes limits =? 0) || (maximum_queued_rule_bytes limits =? 0)
  then Err ()
  else Val (mkUpdateWorld
    (mkController limits [] None 0 false false false false false false ∅) w ∅ 0 []).

Section operations.
Context {F : Type}.
Variable heap : nat → FilterContext F.

(** ** Submitting *)

(** The critical section of [submit_replace]: [None] when the command is queued. *)
Definition submit_locked (c : Command) (k : Controller) : option FilterUpdateError * Controller :=
  if sealed_ k then (Some (mkUpdateError ShuttingDown None 0 0), k)
  else if (kMaximumPendingUpdates <=? length (pending_ k))%nat
  then (Some (mkUpdateError QueueFull None (Z.of_nat (length (pending_ k)) + 1) (Z.of_nat kMaximumPendingUpdates)), k)
  else if exceeds (accounted_bytes c) (queued_rule_bytes_ k) (maximum_queued_rule_bytes (limits_ k))
  then (Some (mkUpdateError QueueBytesLimitExceeded None (saturated_add (queued_rule_bytes_ k) (accounted_bytes c))
                (maximum_queued_rule_bytes (limits_ k))), k)
  else (None, set_queue (pending_ k ++ [c]) (inflight_ k) (wrap64 (queued_rule_bytes_ k + accounted_bytes c)) k).

(** The part of [submit_replace] before the lock: a rule set that fails validation gets a
    promise that is set already. *)
Definition submit_begin (t : nat) (new_rules : list (list byte)) (u : UpdateWorld) : option UpdateWorld :=
  let id := next_promise u in
  let u := mkUpdateWorld (controller u) (world u) (calls u) (S id) (commit_log u) in
  match validate_filter_rule_set new_rules (limits_ (controller u)) with
  | Val measured =>
      Some (set_call t (Submitting (mkCommand new_rules (raw_bytes measured) Queued None None id)) u)
  | Err e => Some (set_call t (Returned (FutureOf id)) (set_controller (complete id (inr e) (controller u)) u))
  | Undef => None
  end.

(** ** Sealing *)

(** One step of [seal]; [None] in the pair: it has returned. *)
Definition seal_step (pc : SealPc) (u : UpdateWorld) : option (option SealPc * UpdateWorld) :=
  let k := controller u in
  match pc with
  | SealStopBuild =>
      Some (Some SealPublication,
            set_controller (set_flags true (sealed_ k) (sealed_acknowledged_ k) (terminal_detach_requested_ k)
                              (runner_active_ k) (fail_after_commit_for_testing_ k) k) u)
  | SealPublication => w ← act heap Seal (world u); Some (Some SealLocked, set_world w u)
  | SealLocked =>
      let '(cancelled, k) :=
        if negb (sealed_ k)
        then (pending_ k, set_queue [] (inflight_ k) 0
                            (set_flags (build_stop_requested k) true (sealed_acknowledged_ k) (terminal_detach_requested_ k)
                               (runner_active_ k) (fail_after_commit_for_testing_ k) k))
        else ([], k) in
      Some (Some (SealCancelling cancelled),
            set_controller (set_flags (build_stop_requested k) (sealed_ k) true (terminal_detach_requested_ k)
                              (runner_active_ k) (fail_after_commit_for_testing_ k) k) u)
  | SealCancelling [] => Some (None, u)
  | SealCancelling (c :: cancelled) =>
      Some (Some (SealCancelling cancelled), set_controller (complete (completion c) (update_error ShuttingDown None) k) u)
  end.

(** The critical section of [request_terminal_detach]. *)
Definition terminal_locked (k : Controller) : Controller :=
  set_flags (build_stop_requested k) (sealed_ k) (sealed_acknowledged_ k) true (runner_active_ k)
    (fail_after_commit_for_testing_ k) k.

(** [wait_until_sealed]; [None]: the call waits. *)
Definition wait_until_sealed (stop : bool) (k : Controller) : option bool :=
  if sealed_acknowledged_ k then Some true else if stop then Some false else None.

(** ** The writer *)

Definition map_inflight (f : Command → Command) (k : Controller) : Controller :=
  set_inflight (f <$> inflight_ k) k.

(** One step of [apply] on the command in flight: the next place, or the result. *)
Definition apply_step (pc : ApplyPc) (now : Z) (b : BuilderResult) (u : UpdateWorld) :
    option ((ApplyPc + FilterUpdateResult) * UpdateWorld) :=
  let k := controller u in
  let stop := build_stop_requested k in
  match pc with
  | ApplyStart =>
      Some (if stop then inr (update_error ShuttingDown None) else inl ApplyVersion, u)
  | ApplyVersion =>
      let current := current_version (world u) in
      Some (if version_generation current =? uint64_max then inr (update_error GenerationExhausted None)
            else inl (ApplyCredit (version_generation current)), u)
  | ApplyCredit current =>
      if negb (retirement_mutex_free (world u)) then None else
      '(acquired, w) ← acquire_retirement_credit stop (world u);
      Some (if (acquired : bool) then inl (ApplyBuild (current + 1)) else inr (update_error ShuttingDown None), set_world w u)
  | ApplyBuild next_generation =>
      match b with
      | BuilderThrows => Some (inl (ApplyRelease None ReturnCaught), u)
      | BuilderError e => Some (inl (ApplyRelease None (ReturnBuildError e)), u)
      | BuilderNull => Some (inl (ApplyRelease None (ReturnResult (update_error InternalError None))), u)
      | BuilderSnapshot s =>
          w ← act heap (BuildCandidate s) (world u);
          Some (if negb (snap_generation heap s =? next_generation)
                then inl (ApplyRelease (Some s) (ReturnResult (update_error InternalError None)))
                else inl (ApplyCandidate s), set_world w u)
      end
  | ApplyCandidate s =>
      if stop then Some (inl (ApplyRelease (Some s) (ReturnResult (update_error ShuttingDown None))), u)
      else
        let v := mkFilterVersion (snap_generation heap s) (snap_rule_count heap s) in
        Some (inl (ApplyCommit s),
              set_controller (map_inflight (λ c, with_phase Publishing (Some v) (published c) c) k) u)
  | ApplyCommit s =>
      if negb (retirement_mutex_free (world u)) then None else
      let '(committed, w) := commit heap (Some s) now (drop_candidate s (world u)) in
      match committed with
      | Val (v, _) =>
          Some (inl (ApplyFailpoint v),
                mkUpdateWorld (map_inflight (λ c, with_phase Committed (target c) (Some v) c) k) w (calls u) (next_promise u)
                  (commit_log u ++ match inflight_ k with Some c => [(completion c, v)] | None => [] end))
      | Err e =>
          Some (inl (ApplyRelease None (ReturnResult (update_error
                      (match e with PublicationSealed => ShuttingDown | _ => InternalError end) None))),
                set_world w (set_controller (map_inflight (λ c, with_phase Building None (published c) c) k) u))
      | Undef => None
      end
  | ApplyFailpoint v =>
      if fail_after_commit_for_testing_ k
      then Some (inl (ApplyReturn ReturnCaught),
                 set_controller (set_flags stop (sealed_ k) (sealed_acknowledged_ k) (terminal_detach_requested_ k)
                                   (runner_active_ k) false k) u)
      else Some (inl (ApplyConverge v), u)
  | ApplyConverge v =>
      if negb (retirement_mutex_free (world u)) then None else
      r ← wait_until_converged (version_generation v) (world u);
      Some (match r with Converged => inr (inl v) | _ => inr (update_error InternalError None) end, u)
  | ApplyRelease candidate after =>
      if negb (retirement_mutex_free (world u)) then None else
      let w := release_uncommitted_credit (world u) in
      Some (inl (ApplyReturn after),
            set_world (match candidate with Some s => drop_candidate s w | None => w end) u)
  | ApplyReturn after =>
      Some (inr (match after with
                 | ReturnResult r => r
                 | ReturnBuildError e =>
                     if stop || bool_decide (build_code e = BlocklistBuildErrorCode.Cancelled) then update_error ShuttingDown None
                     else update_error BuildFailed (Some e)
                 | ReturnCaught => update_error (if stop then ShuttingDown else InternalError) None
                 end), u)
  end.

(** The critical section at the head of the loop of [run]; [None]: it waits. *)
Definition next_command (k : Controller) : option (RunPc * Controller) :=
  match pending_ k with
  | c :: pending =>
      Some (RunApply ApplyStart,
            set_queue pending (Some (with_phase Building (target c) (published c) c))
              (queued_rule_bytes_ k - Z.min (queued_rule_bytes_ k) (accounted_bytes c)) k)
  | [] => if terminal_detach_requested_ k then Some (RunDetach, k) else None
  end.

Definition reconcile_inflight_after_writer_exit (w : World) (k : Controller) : Controller :=
  match inflight_ k with
  | Some c =>
      match phase c, target c with
      | Publishing, Some v =>
          if decide (current_version w = v) then set_inflight (Some (with_phase Committed (Some v) (Some v) c)) k
          else set_inflight (Some (with_phase Building None (published c) c)) k
      | _, _ => k
      end
  | None => k
  end.

Definition set_active_runner (b : bool) (k : Controller) : Controller :=
  set_flags (build_stop_requested k) (sealed_ k) (sealed_acknowledged_ k) (terminal_detach_requested_ k) b
    (fail_after_commit_for_testing_ k) k.

(** The last critical section of [finish_run]. *)
Definition finish_locked (w : World) (k : Controller) : Controller :=
  let k := reconcile_inflight_after_writer_exit w k in
  let k := match inflight_ k with
           | Some c => if bool_decide (phase c = Committed) then k
                       else set_inflight None (complete (completion c) (update_error InternalError None) k)
           | None => k
           end in
  set_active_runner false k.

Definition finish_step (pc : FinishPc) (u : UpdateWorld) : option (option FinishPc * UpdateWorld) :=
  let k := controller u in
  match pc with
  | FinishSeal pc =>
      '(next, u) ← seal_step pc u;
      Some (Some (match next with Some pc => FinishSeal pc | None => FinishCancelLocked end), u)
  | FinishCancelLocked =>
      Some (Some (FinishCancelling (pending_ k)), set_controller (set_queue [] (inflight_ k) 0 k) u)
  | FinishCancelling [] => Some (Some FinishReconcile, u)
  | FinishCancelling (c :: cancelled) =>
      Some (Some (FinishCancelling cancelled), set_controller (complete (completion c) (update_error ShuttingDown None) k) u)
  | FinishReconcile => Some (None, set_controller (finish_locked (world u) k) u)
  end.

(** The entry of [run]; [stopped]: its stop token is set already, so that the callback
    runs at once. *)
Definition run_begin (t : nat) (stopped : bool) (u : UpdateWorld) : UpdateWorld :=
  let k := controller u in
  if runner_active_ k then set_call t (Returned (RunResult FatalExit)) u
  else set_call t (Running (if stopped then RunForward SealStopBuild else RunLoop))
         (set_controller (set_active_runner true k) u).

Definition run_step (pc : RunPc) (now : Z) (b : BuilderResult) (u : UpdateWorld) : option (Call * UpdateWorld) :=
  let k := controller u in
  match pc with
  | RunForward pc =>
      '(next, u) ← seal_step pc u;
      Some (Running (match next with Some pc => RunForward pc | None => RunForwardTerminal end), u)
  | RunForwardTerminal => Some (Running RunLoop, set_controller (terminal_locked k) u)
  | RunLoop => '(pc, k) ← next_command k; Some (Running pc, set_controller k u)
  | RunDetach =>
      if negb (retirement_mutex_free (world u)) then None else
      let '(ok, w) := detach_terminal_snapshot heap now (world u) in
      Some (Running (RunFinish (if (ok : bool) then RequestedStop else FatalExit) (FinishSeal SealStopBuild)), set_world w u)
  | RunApply pc =>
      '(next, u) ← apply_step pc now b u;
      Some (Running (match next with inl pc => RunApply pc | inr r => RunApplied r end), u)
  | RunApplied r =>
      match inflight_ k with
      | None => None
      | Some c =>
          match r with
          | inr _ =>
              if bool_decide (phase c = Committed)
              then Some (Running (RunFinish FatalExit (FinishSeal SealStopBuild)), u)
              else Some (Running RunReset, set_controller (complete (completion c) r k) u)
          | inl _ => Some (Running RunReset, set_controller (complete (completion c) r k) u)
          end
      end
  | RunReset => Some (Running RunLoop, set_controller (set_inflight None k) u)
  | RunFinish result pc =>
      '(next, u) ← finish_step pc u;
      Some (match next with Some pc => Running (RunFinish result pc) | None => Returned (RunResult result) end, u)
  end.

(** ** The successor of the writer *)
Definition successor_locked (w : World) (k : Controller) : (SuccessorPc + FilterSuccessorCompletionResult) * Controller :=
  if runner_active_ k then (inr WriterStillRunning, k)
  else
    let k := reconcile_inflight_after_writer_exit w k in
    match inflight_ k with
    | None => (inr SuccessorCompleted, k)
    | Some c =>
        match phase c, published c with
        | Committed, Some v => (inl (SuccessorWaiting v), k)
        | _, _ => (inl (SuccessorFailing (with_phase Completed (target c) (published c) c)), set_inflight None k)
        end
    end.

Definition successor_relocked (v : FilterVersion) (k : Controller) :
    (SuccessorPc + FilterSuccessorCompletionResult) * Controller :=
  match inflight_ k with
  | None => (inr SuccessorCompleted, k)
  | Some c =>
      if bool_decide (phase c = Committed) && bool_decide (published c = Some v)
      then (inl (SuccessorCompleting (with_phase Completed (target c) (published c) c) v), set_inflight None k)
      else (inr SuccessorInternalError, k)
  end.

Definition successor_step (pc : SuccessorPc) (u : UpdateWorld) :
    option ((SuccessorPc + FilterSuccessorCompletionResult) * UpdateWorld) :=
  let k := controller u in
  match pc with
  | SuccessorLocked => let '(next, k) := successor_locked (world u) k in Some (next, set_controller k u)
  | SuccessorFailing c =>
      Some (inr SuccessorCompleted, set_controller (complete (completion c) (update_error InternalError None) k) u)
  | SuccessorWaiting v =>
      if negb (retirement_mutex_free (world u)) then None else
      r ← wait_until_converged (version_generation v) (world u);
      Some (match r with
            | ReclaimerUnavailable => inr SuccessorReclaimerUnavailable
            | Converged => inl (SuccessorRelocked v)
            | Publication.InternalError => inr SuccessorInternalError
            end, u)
  | SuccessorRelocked v => let '(next, k) := successor_relocked v k in Some (next, set_controller k u)
  | SuccessorCompleting c v => Some (inr SuccessorCompleted, set_controller (complete (completion c) (inl v) k) u)
  end.

(** ** Steps *)
Definition call_step (c : Call) (now : Z) (b : BuilderResult) (u : UpdateWorld) : option (Call * UpdateWorld) :=
  let k := controller u in
  match c with
  | Submitting c =>
      let '(rejection, k) := submit_locked c k in
      Some (match rejection with None => Returned (FutureOf (completion c)) | Some e => Rejecting c e end, set_controller k u)
  | Rejecting c e => Some (Returned (FutureOf (completion c)), set_controller (complete (completion c) (inr e) k) u)
  | Running pc => run_step pc now b u
  | Sealing pc is_terminal =>
      '(next, u) ← seal_step pc u;
      Some (match next with
            | Some pc => Sealing pc is_terminal
            | None => if is_terminal then TerminalLocked else Returned SealReturned
            end, u)
  | TerminalLocked => Some (Returned SealReturned, set_controller (terminal_locked k) u)
  | Succeeding pc =>
      '(next, u) ← successor_step pc u;
      Some (match next with inl pc => Succeeding pc | inr r => Returned (SuccessorResult r) end, u)
  | Destroying (Some pc) =>
      '(next, u) ← seal_step pc u;
      Some (match next with Some pc => Destroying (Some pc) | None => DestroyTerminal end, u)
  | DestroyTerminal => Some (Destroying None, set_controller (terminal_locked k) u)
  | Destroying None => if runner_active_ k then None else Some (Returned DestructorReturned, u)
  | Returned _ => None
  end.

(** [Environment]: a step of the workers, the supervisor, the reclaimer or the emergency
    teardown on the publication state; the writer's own operations are not among them. *)
Inductive UpdateAction :=
  | SubmitReplace (t : nat) (rules : list (list byte))
  | Run (t : nat) (stopped : bool)
  | SealCall (t : nat)
  | RequestTerminalDetach (t : nat)
  | CompleteCommittedBySuccessor (t : nat)
  | Destroy (t : nat)
  | InjectPostcommitFailure
  | Advance (t : nat) (now : Z) (b : BuilderResult)
  | Environment (a : Action).

Definition environment_action (a : Action) : bool :=
  match a with
  | AcquireCredit _ | ReleaseCredit | BuildCandidate _ | DropCandidate _ | Commit _ _ => false
  | _ => true
  end.

(** A thread makes one call at a time. *)
Definition idle (t : nat) (u : UpdateWorld) : bool :=
  match calls u !! t with None | Some (Returned _) => true | _ => false end.

Definition update_act (a : UpdateAction) (u : UpdateWorld) : option UpdateWorld :=
  let k := controller u in
  match a with
  | SubmitReplace t rules => if idle t u then submit_begin t rules u else None
  | Run t stopped => if idle t u then Some (run_begin t stopped u) else None
  | SealCall t => if idle t u then Some (set_call t (Sealing SealStopBuild false) u) else None
  | RequestTerminalDetach t => if idle t u then Some (set_call t (Sealing SealStopBuild true) u) else None
  | CompleteCommittedBySuccessor t => if idle t u then Some (set_call t (Succeeding SuccessorLocked) u) else None
  | Destroy t => if idle t u then Some (set_call t (Destroying (Some SealStopBuild)) u) else None
  | InjectPostcommitFailure =>
      Some (set_controller (set_flags (build_stop_requested k) (sealed_ k) (sealed_acknowledged_ k)
                              (terminal_detach_requested_ k) (runner_active_ k) true k) u)
  | Advance t now b =>
      c ← calls u !! t;
      '(c, u) ← call_step c now b u;
      Some (set_call t c u)
  | Environment a =>
      if environment_action a then w ← act heap a (world u); Some (set_world w u) else None
  end.

Inductive update_reachable (u0 : UpdateWorld) : UpdateWorld → Prop :=
  | update_refl : update_reachable u0 u0
  | update_step u a u' : update_reachable u0 u → update_act a u = Some u' → update_reachable u0 u'.

End operations.

End Update.
