(* ===== verification/UpdateInvariant.v ===== *)
(** * Properties of the rule updates

    Promises, truth of the results, bounds of the queue, and progress of the writer, over
    every interleaving of clients, writer, teardown, workers and reclaimer. *)
From Stdlib Require Import Strings.Byte.
From S2P Require Import Prelude Wire DomainName CuckooFilter RadixTree DomainBlocklist FilterPublication PublicationClaims FilterUpdateController.
Import Publication Update.

Section claims.
Context {F : Type} (heap : nat → FilterContext F).
Notation update_act := (update_act heap).
Notation update_reachable := (update_reachable heap).

(** Split a step in the option monad. *)
Ltac inv_some :=
  repeat match goal with
  | H : _ ≫= _ = Some _ |- _ => apply bind_Some in H as (? & ? & ?)
  | H : (let '(_, _) := ?p in _) = Some _ |- _ => destruct p eqn:?
  | H : Some _ = Some _ |- _ => injection H as H; try subst
  | H : None = Some _ |- _ => discriminate H
  end.

(** ** Sealing

    The flags go up in a fixed order: builds are stopped, publication is sealed, the queue
    is closed, the terminal detach is requested. *)
Definition seal_pc_ok (pc : SealPc) (u : UpdateWorld) : Prop :=
  match pc with
  | SealStopBuild => True
  | SealPublication => build_stop_requested (controller u) = true
  | SealLocked => build_stop_requested (controller u) = true ∧ publication_sealed_ (publication (world u)) = true
  | SealCancelling _ => sealed_ (controller u) = true
  end.

Definition seal_call_ok (c : Call) (u : UpdateWorld) : Prop :=
  match c with
  | Running (RunForward pc) | Running (RunFinish _ (FinishSeal pc)) | Sealing pc _ | Update.Destroying (Some pc) => seal_pc_ok pc u
  | Running RunDetach => terminal_detach_requested_ (controller u) = true
  | Running RunForwardTerminal | Running (RunFinish _ _) | TerminalLocked | DestroyTerminal => sealed_ (controller u) = true
  | _ => True
  end.

Record seal_ok (u : UpdateWorld) : Prop := {
  so_sealed : sealed_ (controller u) = true →
    build_stop_requested (controller u) = true ∧ publication_sealed_ (publication (world u)) = true ∧
    pending_ (controller u) = [] ∧ queued_rule_bytes_ (controller u) = 0;
  so_terminal : terminal_detach_requested_ (controller u) = true → sealed_ (controller u) = true;
  so_acknowledged : sealed_acknowledged_ (controller u) = sealed_ (controller u);
  so_calls t c : calls u !! t = Some c → seal_call_ok c u;
}.

(** Flags only go up. *)
Record flags_le (u u' : UpdateWorld) : Prop := {
  fl_build : build_stop_requested (controller u) = true → build_stop_requested (controller u') = true;
  fl_publication : publication_sealed_ (publication (world u)) = true → publication_sealed_ (publication (world u')) = true;
  fl_sealed : sealed_ (controller u) = true → sealed_ (controller u') = true;
  fl_terminal : terminal_detach_requested_ (controller u) = true → terminal_detach_requested_ (controller u') = true;
}.

#[local] Instance flags_le_refl : Reflexive flags_le.
Proof. by split. Qed.
#[local] Instance flags_le_trans : Transitive flags_le.
Proof. intros u v w [] []. split; auto. Qed.

Lemma seal_pc_ok_le pc u u' : flags_le u u' → seal_pc_ok pc u → seal_pc_ok pc u'.
Proof. intros [] H. destruct pc; simpl in *; naive_solver. Qed.

Lemma seal_call_ok_le c u u' : flags_le u u' → seal_call_ok c u → seal_call_ok c u'.
Proof.
  intros Hle H. pose proof Hle as []. destruct c as [| | [] | | | | [] | |]; simpl in *; eauto using seal_pc_ok_le.
  case_match; eauto using seal_pc_ok_le.
Qed.

(** ** The publication side of a step *)

(** What the controller relies on: the seal stays, convergence is never taken back, and
    nobody but the writer changes the version or takes the writer's credit. *)
Record pub_le (w w' : World) : Prop := {
  pl_sealed : publication_sealed_ (publication w) = true → publication_sealed_ (publication w') = true;
  pl_converged : last_converged_generation_ (retirement w) ≤ last_converged_generation_ (retirement w');
}.

Record pub_same (w w' : World) : Prop := {
  ps_generation : current_generation w' = current_generation w;
  ps_credit : retirement_credit_held_ (retirement w) = true → pending (retired_ (retirement w)) = false →
    retirement_credit_held_ (retirement w') = true ∧ pending (retired_ (retirement w')) = false;
  ps_candidates : candidates w' = candidates w;
}.

Lemma pub_keep w w' :
  publication_sealed_ (publication w') = publication_sealed_ (publication w) →
  retirement w' = retirement w → current_generation w' = current_generation w → candidates w' = candidates w →
  pub_le w w' ∧ pub_same w w'.
Proof. intros H1 H2 H3 H4. split; split; rewrite ?H1, ?H2; auto. lia. Qed.

Lemma clear_record_le which g b w :
  inv heap w → (which = Retired → pending (retired_ (retirement w)) = true) →
  pub_le w (set_retirement (clear_record which g b (retirement w)) w) ∧
  pub_same w (set_retirement (clear_record which g b (retirement w)) w).
Proof.
  intros _ Hp. split; split; simpl; try done; try lia. destruct which; simpl; [| done].
  intros _ H. rewrite Hp in H; done.
Qed.

Lemma reclaimer_step_le now stop w :
  inv heap w → pub_le w (reclaimer_step now stop w) ∧ pub_same w (reclaimer_step now stop w).
Proof.
  intros Hinv. destruct (inv_reclaimer _ _ Hinv) as [_ Hb]. unfold reclaimer_step.
  destruct (reclaimer w) as [| | which todo loads | which | which seq | | which g b sole |] eqn:Hpc;
    try (apply pub_keep; repeat case_match; done).
  - destruct (reclaimer_failure_requested_ _); [by apply pub_keep |].
    destruct (_ && _); [| repeat case_match; by apply pub_keep].
    split; split; simpl; auto; lia.
  - destruct todo as [| m todo]; [| repeat case_match; by apply pub_keep].
    assert (pub_le w (set_retirement (claim_record which (retirement w)) w) ∧
            pub_same w (set_retirement (claim_record which (retirement w)) w)) as Hclaim.
    { split; split; destruct which; simpl; auto; lia. }
    destruct (owner _); [case_match |]; try by apply pub_keep.
    + destruct Hclaim as [[] []]. by split; split.
    + destruct Hclaim as [[] []]. by split; split.
  - destruct Hb as (_ & Hp & _).
    destruct (clear_record_le which g b w Hinv) as [[] []]; [intros ->; exact Hp |].
    by split; split.
  - split; split; simpl; auto; lia.
Qed.

Lemma emergency_le w :
  inv heap w → pub_le w (emergency_reclaim_converged w).2 ∧ pub_same w (emergency_reclaim_converged w).2.
Proof.
  intros Hinv. unfold emergency_reclaim_converged, reclaim_converged_locked.
  repeat (case_match; [by apply pub_keep |]). cbn [snd].
  split; split; simpl; auto; repeat case_match; simpl; try lia; try congruence; auto.
Qed.

Lemma act_le a w w' :
  inv heap w → act heap a w = Some w' → pub_le w w' ∧ (environment_action a = true → pub_same w w').
Proof.
  intros Hinv H.
  assert (∀ w', pub_le w w' ∧ pub_same w w' → pub_le w w' ∧ (environment_action a = true → pub_same w w')) as Hboth
    by naive_solver.
  destruct a; simpl in H; unfold guarded in H.
  - apply Hboth. unfold register_worker in H. repeat case_match; simplify_eq; by apply pub_keep.
  - apply Hboth. injection H as <-. unfold mark_worker_registered. repeat case_match; by apply pub_keep.
  - apply Hboth. unfold refresh_locked in H. repeat case_match; simplify_eq; by apply pub_keep.
  - apply Hboth. injection H as <-. by apply pub_keep.
  - apply Hboth. unfold quiesce_locked in H. repeat case_match; simplify_eq; by apply pub_keep.
  - apply Hboth. repeat case_match; simplify_eq. split; split; simpl; (done || lia || auto).
  - split; [| done]. unfold acquire_retirement_credit in H. repeat case_match; simplify_eq; simpl in *;
      inv_some; simplify_eq; split; simpl; (done || lia || auto).
  - split; [| done]. unfold release_uncommitted_credit in H. repeat case_match; simplify_eq; split; simpl; (done || lia || auto).
  - split; [| done]. repeat case_match; simplify_eq. split; simpl; (done || lia || auto).
  - split; [| done]. simplify_eq. split; simpl; (done || lia || auto).
  - split; [| done]. repeat case_match; simplify_eq. unfold commit. repeat case_match; split; simpl in *; (done || lia || congruence).
  - apply Hboth. repeat case_match; simplify_eq. split; split; simpl; (done || lia || auto).
  - apply Hboth. repeat case_match; simplify_eq. unfold detach_terminal_snapshot. repeat case_match; split; split; simpl; (done || lia || auto).
  - apply Hboth. repeat case_match; simplify_eq. unfold run_reclaimer_begin. repeat case_match; split; split; simpl; (done || lia || auto).
  - apply Hboth. simplify_eq. by apply reclaimer_step_le.
  - apply Hboth. repeat case_match; simplify_eq. split; split; simpl; (done || lia || auto).
  - apply Hboth. repeat case_match; simplify_eq. split; split; simpl; (done || lia || auto).
  - apply Hboth. repeat case_match; simplify_eq. split; split; simpl; (done || lia || auto).
  - apply Hboth. repeat case_match; simplify_eq. split; split; simpl; (done || lia || auto).
  - apply Hboth. repeat case_match; simplify_eq. by apply emergency_le.
Qed.

Lemma reachable_le w w' : inv heap w → reachable heap w w' → inv heap w' ∧ pub_le w w'.
Proof.
  intros Hinv H. induction H as [| w1 a w2 H [IH1 IH2] Hact]; [split; [done | split; auto; lia] |].
  split; [by eapply act_inv |]. destruct (act_le _ _ _ IH1 Hact) as [[] _], IH2. split; [auto | lia].
Qed.

Lemma reachable_one a w w' : act heap a w = Some w' → reachable heap w w'.
Proof. intros H. eapply reachable_step; [apply reachable_refl | done]. Qed.

Lemma reachable_trans w1 w2 w3 : reachable heap w1 w2 → reachable heap w2 w3 → reachable heap w1 w3.
Proof. intros H1 H2. induction H2; [done | by eapply reachable_step]. Qed.

(** ** One call at a time

    What [seal_step] does: flags up, the queue moved out once, promises set one by one. *)
Definition seal_owned (pc : SealPc) : list Command := match pc with SealCancelling l => l | _ => [] end.

Definition same_but_queue (k k' : Controller) : Prop :=
  limits_ k' = limits_ k ∧ inflight_ k' = inflight_ k ∧ runner_active_ k' = runner_active_ k ∧
  terminal_detach_requested_ k' = terminal_detach_requested_ k.

Inductive seal_effect (pc : SealPc) (k : Controller) : option SealPc → Controller → Prop :=
  | seal_flags next k' :
      seal_owned pc = [] → (∀ pc', next = Some pc' → seal_owned pc' = []) →
      pending_ k' = pending_ k → queued_rule_bytes_ k' = queued_rule_bytes_ k → promises k' = promises k →
      same_but_queue k k' → sealed_ k' = sealed_ k → seal_effect pc k next k'
  | seal_closes k' :
      pc = SealLocked → sealed_ k = false → pending_ k' = [] → queued_rule_bytes_ k' = 0 → promises k' = promises k →
      same_but_queue k k' → seal_effect pc k (Some (SealCancelling (pending_ k))) k'
  | seal_completes c l :
      pc = SealCancelling (c :: l) →
      seal_effect pc k (Some (SealCancelling l)) (complete (completion c) (update_error ShuttingDown None) k).

Lemma seal_step_spec pc u next u' :
  seal_step heap pc u = Some (next, u') →
  seal_effect pc (controller u) next (controller u') ∧
  (world u' = world u ∨ act heap Seal (world u) = Some (world u')) ∧
  calls u' = calls u ∧ next_promise u' = next_promise u ∧ commit_log u' = commit_log u.
Proof.
  intros H. destruct pc as [| | | [| c l]]; cbn [seal_step] in H; inv_some.
  - split; [| split_and!; auto]. apply seal_flags; try done.
    intros pc' [= <-]. done.
  - split; [| split_and!; auto]. apply seal_flags; try done.
    intros pc' [= <-]. done.
  - destruct (sealed_ (controller u)) eqn:Hs; simpl in *; simplify_eq;
      (split; [| split_and!; auto]).
    + apply seal_flags; try done. intros pc' [= <-]. done.
    + by apply seal_closes.
  - split; [| split_and!; auto]. by apply seal_flags.
  - split; [| split_and!; auto]. by apply seal_completes.
Qed.

(** ** The command in flight *)
Definition committed_command (c : Command) : Prop := phase c = Committed ∧ ∃ v, published c = Some v.

Definition at_rest (u : UpdateWorld) : Prop :=
  inflight_ (controller u) = None ∨ ∃ c, inflight_ (controller u) = Some c ∧ committed_command c.

(** Outside [apply] a command in flight is one the writer left committed before it exited. *)
Definition parked (u : UpdateWorld) : Prop :=
  inflight_ (controller u) = None ∨
  sealed_ (controller u) = true ∧ ∃ c, inflight_ (controller u) = Some c ∧ committed_command c.

Definition credit_ready (w : World) : Prop :=
  retirement_credit_held_ (retirement w) = true ∧ pending (retired_ (retirement w)) = false ∧
  current_generation w ≠ uint64_max.

Definition after_error (a : AfterRelease) : Prop :=
  match a with ReturnResult (inl _) => False | _ => True end.

Definition candidate_ready (s : nat) (w : World) : Prop :=
  snap_generation heap s = current_generation w + 1 ∧ credit_ready w ∧ s ∈ candidates w.

Definition converged (v : FilterVersion) (w : World) : Prop :=
  version_generation v ≤ last_converged_generation_ (retirement w).

Definition apply_inv (a : ApplyPc) (c : Command) (w : World) : Prop :=
  match a with
  | ApplyStart | ApplyVersion => phase c = Building
  | ApplyCredit current => phase c = Building ∧ current = current_generation w ∧ current ≠ uint64_max
  | ApplyBuild next => phase c = Building ∧ next = current_generation w + 1 ∧ credit_ready w
  | ApplyCandidate s => phase c = Building ∧ candidate_ready s w
  | ApplyCommit s => phase c = Publishing ∧ candidate_ready s w
  | ApplyFailpoint v | ApplyConverge v => phase c = Committed ∧ published c = Some v
  | ApplyRelease _ after => phase c = Building ∧ after_error after
  | ApplyReturn after => (phase c = Building ∨ committed_command c) ∧ after_error after
  end.

Definition run_inv (pc : RunPc) (u : UpdateWorld) : Prop :=
  match pc with
  | RunForward _ | RunForwardTerminal | RunLoop | RunDetach => parked u
  | RunFinish _ _ => at_rest u
  | RunApply a => ∃ c, inflight_ (controller u) = Some c ∧ apply_inv a c (world u)
  | RunApplied (inl v) =>
      ∃ c, inflight_ (controller u) = Some c ∧ phase c = Committed ∧ published c = Some v ∧ converged v (world u)
  | RunApplied (inr _) => ∃ c, inflight_ (controller u) = Some c ∧ (phase c = Building ∨ committed_command c)
  | RunReset => ∃ c, inflight_ (controller u) = Some c ∧ promises (controller u) !! completion c ≠ None
  end.

Definition applying (pc : RunPc) : bool :=
  match pc with RunApply _ | RunApplied _ | RunReset => true | _ => false end.

Definition successor_inv (pc : SuccessorPc) (u : UpdateWorld) : Prop :=
  match pc with
  | SuccessorFailing _ => False
  | SuccessorWaiting _ => sealed_ (controller u) = true ∧ ∀ t pc, calls u !! t = Some (Running pc) → applying pc = false
  | SuccessorRelocked v =>
      sealed_ (controller u) = true ∧ (∀ t pc, calls u !! t = Some (Running pc) → applying pc = false) ∧ converged v (world u)
  | SuccessorCompleting c v => converged v (world u)
  | SuccessorLocked => True
  end.

Record ctl_ok (w0 : World) (u : UpdateWorld) : Prop := {
  co_world : reachable heap w0 (world u);
  co_seal : seal_ok u;
  co_unique t t' pc pc' : calls u !! t = Some (Running pc) → calls u !! t' = Some (Running pc') → t = t';
  co_active t pc : calls u !! t = Some (Running pc) → runner_active_ (controller u) = true;
  co_run t pc : calls u !! t = Some (Running pc) → run_inv pc u;
  co_parked : (∀ t pc, calls u !! t ≠ Some (Running pc)) → parked u;
  co_successor t pc : calls u !! t = Some (Succeeding pc) → successor_inv pc u;
}.

(** Steps that leave the command in flight and the writer's hold on the publication
    alone. *)
Record quiet (u u' : UpdateWorld) : Prop := {
  qu_inflight : inflight_ (controller u') = inflight_ (controller u);
  qu_flags : flags_le u u';
  qu_pub : pub_le (world u) (world u');
  qu_same : pub_same (world u) (world u');
  qu_promises id : promises (controller u) !! id ≠ None → promises (controller u') !! id ≠ None;
}.

Lemma parked_quiet u u' : quiet u u' → parked u → parked u'.
Proof. intros [E [] _ _ _] [H | [Hs H]]; unfold parked; rewrite E; [by left | right; auto]. Qed.

Lemma at_rest_quiet u u' : quiet u u' → at_rest u → at_rest u'.
Proof. intros [E _ _ _ _] H. unfold at_rest. by rewrite E. Qed.

Lemma credit_ready_same w w' : pub_same w w' → credit_ready w → credit_ready w'.
Proof. intros [Hg H _] (H1 & H2 & H3). unfold credit_ready. rewrite Hg. naive_solver. Qed.

Lemma candidate_ready_same s w w' : pub_same w w' → candidate_ready s w → candidate_ready s w'.
Proof.
  intros Hs (H1 & H2 & H3). split_and!; [by rewrite (ps_generation _ _ Hs) | by eapply credit_ready_same | by rewrite (ps_candidates _ _ Hs)].
Qed.

Lemma converged_le v w w' : pub_le w w' → converged v w → converged v w'.
Proof. intros [_ H]. unfold converged. lia. Qed.

Lemma apply_inv_same a c w w' : pub_le w w' → pub_same w w' → apply_inv a c w → apply_inv a c w'.
Proof.
  intros Hle Hs. destruct a; simpl; rewrite ?(ps_generation _ _ Hs);
    intuition eauto using credit_ready_same, candidate_ready_same.
Qed.

Lemma run_inv_quiet pc u u' : quiet u u' → run_inv pc u → run_inv pc u'.
Proof.
  intros Hq. pose proof Hq as [E Hf Hle Hs Hp].
  destruct pc as [| | | | a | [v | e] | |]; simpl;
    eauto using parked_quiet, at_rest_quiet; rewrite E.
  - intros (c & Ec & Ha). exists c. split; [done |]. by eapply apply_inv_same.
  - intros (c & Ec & H1 & H2 & H3). exists c. split_and!; try done. by eapply converged_le.
  - done.
  - intros (c & Ec & H1). exists c. split; [done |]. by apply Hp.
Qed.

Lemma flags_le_call u u1 t c : flags_le u u1 → flags_le u (set_call t c u1).
Proof. by intros []; split. Qed.

(** Assembling the state after one step of thread [t]. *)
Definition is_running (c : Call) : bool := match c with Running _ => true | _ => false end.

Lemma successor_inv_le pc u u' :
  flags_le u u' → pub_le (world u) (world u') →
  (∀ t pc', calls u' !! t = Some (Running pc') → applying pc' = true →
     sealed_ (controller u) = true → ∃ t' pc0, calls u !! t' = Some (Running pc0) ∧ applying pc0 = true) →
  successor_inv pc u → successor_inv pc u'.
Proof.
  intros [] Hle Happ. destruct pc as [| | v | v | c v]; simpl; try done; [| | by apply converged_le].
  - intros [Hs Hno]. split; [auto |]. intros t pc' Hpc. destruct (applying pc') eqn:Ea; [| done].
    destruct (Happ t pc' Hpc Ea Hs) as (t' & pc0 & H0 & Ha0). by rewrite (Hno _ _ H0) in Ha0.
  - intros (Hs & Hno & Hc). split_and!; [auto | | by eapply converged_le].
    intros t pc' Hpc. destruct (applying pc') eqn:Ea; [| done].
    destruct (Happ t pc' Hpc Ea Hs) as (t' & pc0 & H0 & Ha0). by rewrite (Hno _ _ H0) in Ha0.
Qed.

(** A step of a thread that does not run the writer. *)
Lemma ctl_other w0 u u1 t c' :
  ctl_ok w0 u → quiet u u1 → calls u1 = calls u →
  (∀ c, calls u !! t = Some c → is_running c = false) → is_running c' = false →
  reachable heap (world u) (world u1) → seal_ok (set_call t c' u1) →
  runner_active_ (controller u1) = runner_active_ (controller u) →
  (∀ pc, c' = Succeeding pc → successor_inv pc u1) →
  ctl_ok w0 (set_call t c' u1).
Proof.
  intros [Hw Hs Hu Ha Hr Hp Hsu] Hq Ec Hc Hc' Hw1 Hs1 Eact Hsucc.
  assert (∀ t' pc, calls (set_call t c' u1) !! t' = Some (Running pc) ↔ calls u !! t' = Some (Running pc)) as Hrun.
  { intros t' pc. simpl. rewrite Ec, lookup_insert. case_decide; [| done]. subst t'. split.
    - intros [= ->]. done.
    - intros H. by specialize (Hc _ H). }
  split; simpl.
  - by eapply reachable_trans.
  - done.
  - intros t1 t2 pc1 pc2 H1%Hrun H2%Hrun. by eapply Hu.
  - intros t1 pc1 H1%Hrun. rewrite Eact. by eapply Ha.
  - intros t1 pc1 H1%Hrun. apply Hr in H1. eapply run_inv_quiet in H1; [| exact Hq]. done.
  - intros Hno. assert (parked u) as H by (apply Hp; intros t1 pc1 H1%Hrun; by eapply Hno).
    eapply parked_quiet in H; [| exact Hq]. done.
  - intros t1 pc1. rewrite Ec, lookup_insert. case_decide.
    + intros [= ->]. specialize (Hsucc pc1 eq_refl).
      eapply (successor_inv_le _ u1); [done | by split; simpl; [done | lia] | | done].
      intros t2 pc2 H2%Hrun Happ Hse. rewrite <- Ec in H2. by eauto.
    + intros H1. apply Hsu in H1. eapply (successor_inv_le _ u); [| | | exact H1].
      * by destruct Hq as [_ [] _ _ _].
      * apply Hq.
      * intros t2 pc2 H2%Hrun Happ Hse. by eauto.
Qed.

(** A step of the writer that goes on running. *)
Lemma ctl_running w0 u u1 t pc pc' :
  ctl_ok w0 u → calls u !! t = Some (Running pc) → calls u1 = calls u →
  reachable heap (world u) (world u1) → inv heap (world u) → seal_ok (set_call t (Running pc') u1) → flags_le u u1 →
  runner_active_ (controller u1) = runner_active_ (controller u) → run_inv pc' u1 →
  (applying pc' = true → applying pc = true ∨ sealed_ (controller u) = false) →
  ctl_ok w0 (set_call t (Running pc') u1).
Proof.
  intros [Hw Hs Hu Ha Hr Hp Hsu] Hpc Ec Hw1 Hinv Hs1 Hf Eact Hrun' Happ.
  assert (∀ t' pc0, calls (set_call t (Running pc') u1) !! t' = Some (Running pc0) → t' = t ∧ pc0 = pc') as Hrun.
  { intros t' pc0. simpl. rewrite Ec, lookup_insert. case_decide as Ht; [by intros [= ->] |].
    intros H. by destruct Ht; eapply Hu. }
  split; simpl.
  - by eapply reachable_trans.
  - done.
  - intros t1 t2 pc1 pc2 [-> _]%Hrun [-> _]%Hrun. done.
  - intros t1 pc1 _. rewrite Eact. exact (Ha t pc Hpc).
  - intros t1 pc1 [-> ->]%Hrun. exact Hrun'.
  - intros Hno. destruct (Hno t pc'). by rewrite lookup_insert, decide_True.
  - intros t1 pc1. rewrite Ec, lookup_insert. case_decide; [done |].
    intros H1. apply Hsu in H1. eapply (successor_inv_le _ u); [by apply flags_le_call | by apply reachable_le | | exact H1].
    intros t2 pc2 [-> ->]%Hrun Happ' Hse. destruct (Happ Happ') as [Hap | Hns]; [by eauto | congruence].
Qed.

(** The writer returns. *)
Lemma ctl_returns w0 u u1 t pc r :
  ctl_ok w0 u → calls u !! t = Some (Running pc) → calls u1 = calls u → world u1 = world u →
  seal_ok (set_call t (Returned r) u1) → flags_le u u1 → parked u1 →
  ctl_ok w0 (set_call t (Returned r) u1).
Proof.
  intros [Hw Hs Hu Ha Hr Hp Hsu] Hpc Ec Ew Hs1 Hf Hparked.
  assert (∀ t' pc0, calls (set_call t (Returned r) u1) !! t' ≠ Some (Running pc0)) as Hno.
  { intros t' pc0. simpl. rewrite Ec, lookup_insert. case_decide as Ht; [done |].
    intros H. by destruct Ht; eapply Hu. }
  split; simpl.
  - by rewrite Ew.
  - done.
  - intros t1 t2 pc1 pc2 H1. by destruct (Hno t1 pc1).
  - intros t1 pc1 H1. by destruct (Hno t1 pc1).
  - intros t1 pc1 H1. by destruct (Hno t1 pc1).
  - intros _. exact Hparked.
  - intros t1 pc1. rewrite Ec, lookup_insert. case_decide; [done |].
    intros H1. apply Hsu in H1. eapply (successor_inv_le _ u); [by apply flags_le_call | | | exact H1].
    + simpl. rewrite Ew. by split; [| lia].
    + intros t2 pc2 H2. by destruct (Hno t2 pc2).
Qed.

(** ** Sealing, step by step *)
Record seal_shared (u : UpdateWorld) : Prop := {
  ss_sealed : sealed_ (controller u) = true →
    build_stop_requested (controller u) = true ∧ publication_sealed_ (publication (world u)) = true ∧
    pending_ (controller u) = [] ∧ queued_rule_bytes_ (controller u) = 0;
  ss_terminal : terminal_detach_requested_ (controller u) = true → sealed_ (controller u) = true;
  ss_acknowledged : sealed_acknowledged_ (controller u) = sealed_ (controller u);
}.

Lemma seal_ok_shared u : seal_ok u → seal_shared u.
Proof. by intros []. Qed.

Lemma seal_ok_step u u1 t c' :
  seal_ok u → seal_shared u1 → flags_le u u1 → calls u1 = calls u → seal_call_ok c' u1 →
  seal_ok (set_call t c' u1).
Proof.
  intros Hs [S1 S2 S3] Hf Ec Hc. split; try done. intros t' c. simpl. rewrite Ec, lookup_insert. case_decide.
  - intros [= <-]. eapply seal_call_ok_le; [| exact Hc]. by split.
  - intros H0. eapply seal_call_ok_le; [by apply flags_le_call |]. by eapply so_calls.
Qed.

Lemma complete_flags id r u : flags_le u (set_controller (complete id r (controller u)) u).
Proof. unfold complete. case_match; by split. Qed.

Lemma complete_shared id r u : seal_shared u → seal_shared (set_controller (complete id r (controller u)) u).
Proof. intros [S1 S2 S3]. unfold complete. split; simpl; repeat case_match; auto. Qed.

Lemma seal_step_flags pc u next u1 :
  seal_step heap pc u = Some (next, u1) → inv heap (world u) → seal_shared u → seal_pc_ok pc u →
  flags_le u u1 ∧ seal_shared u1 ∧
  match next with Some pc' => seal_pc_ok pc' u1 | None => sealed_ (controller u1) = true end.
Proof.
  intros H Hinv Hs Hpc. pose proof Hs as [S1 S2 S3].
  destruct pc as [| | | [| c l]]; cbn [seal_step] in H; inv_some; simpl in Hpc.
  - split_and!; [by split | split; simpl; naive_solver | done].
  - match goal with H : act _ _ _ = Some _ |- _ => rename H into Hact end.
    destruct (act_le _ _ _ Hinv Hact) as [[Hle _] _].
    assert (publication_sealed_ (publication x) = true) as Hx
      by (simpl in Hact; unfold guarded in Hact; case_match; by simplify_eq).
    split_and!; [by split | split; simpl; naive_solver | done].
  - destruct Hpc as [Hb Hp]. destruct (sealed_ (controller u)) eqn:Hse; simpl in *; simplify_eq; cbn [seal_pc_ok controller set_controller].
    + split_and!; [by split | split; simpl; naive_solver | done].
    + split_and!; [split; simpl; naive_solver | split; simpl; naive_solver | done].
  - done.
  - split_and!; [apply complete_flags | by apply complete_shared |]. simpl. unfold complete. by case_match.
Qed.

Lemma pub_le_refl w : pub_le w w.
Proof. by split; [| lia]. Qed.
Lemma pub_same_refl w : pub_same w w.
Proof. by split. Qed.

Lemma complete_promise id r k p : promises k !! p ≠ None → promises (complete id r k) !! p ≠ None.
Proof.
  unfold complete. case_match; [done |]. simpl. rewrite lookup_insert. by case_decide.
Qed.

Lemma complete_sets id r k : promises (complete id r k) !! id ≠ None.
Proof.
  unfold complete. destruct (promises k !! id) eqn:E0; [by rewrite E0 |]. simpl. by rewrite lookup_insert, decide_True.
Qed.

Lemma complete_fields id r k :
  limits_ (complete id r k) = limits_ k ∧ pending_ (complete id r k) = pending_ k ∧
  inflight_ (complete id r k) = inflight_ k ∧ queued_rule_bytes_ (complete id r k) = queued_rule_bytes_ k ∧
  sealed_ (complete id r k) = sealed_ k ∧ runner_active_ (complete id r k) = runner_active_ k ∧
  terminal_detach_requested_ (complete id r k) = terminal_detach_requested_ k.
Proof. unfold complete. case_match; split_and!; done. Qed.

Lemma quiet_complete id r u : quiet u (set_controller (complete id r (controller u)) u).
Proof.
  split; [apply complete_fields | apply complete_flags | apply pub_le_refl | apply pub_same_refl |].
  intros p. apply complete_promise.
Qed.

Lemma seal_step_quiet pc u next u1 :
  seal_step heap pc u = Some (next, u1) → inv heap (world u) → seal_shared u → seal_pc_ok pc u →
  quiet u u1 ∧ reachable heap (world u) (world u1) ∧ runner_active_ (controller u1) = runner_active_ (controller u).
Proof.
  intros H Hinv Hs Hpc. destruct (seal_step_flags _ _ _ _ H Hinv Hs Hpc) as (Hf & _ & _).
  destruct (seal_step_spec _ _ _ _ H) as (He & Hw & _).
  assert (pub_le (world u) (world u1) ∧ pub_same (world u) (world u1) ∧ reachable heap (world u) (world u1)) as (H1 & H2 & H3).
  { destruct Hw as [-> | Hact]; [split_and!; [apply pub_le_refl | apply pub_same_refl | apply reachable_refl] |].
    destruct (act_le _ _ _ Hinv Hact) as [? Hsame]. split_and!; [done | by apply Hsame | by eapply reachable_one]. }
  assert (inflight_ (controller u1) = inflight_ (controller u) ∧
          runner_active_ (controller u1) = runner_active_ (controller u) ∧
          ∀ p, promises (controller u) !! p ≠ None → promises (controller u1) !! p ≠ None) as (Ei & Er & Ep).
  { destruct He as [nx k' _ _ _ _ Ep (_ & Ei & Er & _) _ | k' _ _ _ _ Ep (_ & Ei & Er & _) | c l _].
    - split_and!; try done. intros p. by rewrite Ep.
    - split_and!; try done. intros p. by rewrite Ep.
    - split_and!; [apply complete_fields | apply complete_fields |]. intros p. apply complete_promise. }
  by split_and!.
Qed.

(** ** The steps of [apply] *)
Lemma map_inflight_some f k c : inflight_ k = Some c → inflight_ (map_inflight f k) = Some (f c).
Proof. unfold map_inflight. simpl. by intros ->. Qed.

Lemma acquire_credit_spec stop w b w' :
  inv heap w → retirement_mutex_free w = true → acquire_retirement_credit stop w = Some (b, w') →
  act heap (AcquireCredit stop) w = Some w' ∧
  (b = true → current_generation w ≠ uint64_max → credit_ready w' ∧ current_generation w' = current_generation w).
Proof.
  intros Hinv Hm H. split; [simpl; by rewrite Hm, H |]. intros -> Hmax.
  unfold acquire_retirement_credit in H. destruct (negb _ && negb stop); [done |].
  destruct (_ || stop) eqn:Ho; [by simplify_eq |]. simplify_eq. split; [| done]. split_and!; [done | | done]. simpl.
  destruct (publication_sealed_ (publication w)), stop; rewrite ?orb_true_r in Ho; try done.
  rewrite !orb_false_r in Ho. bool_hyps.
  destruct (pending (retired_ (retirement w))) eqn:Hp; [| done].
  pose proof (ro_slot _ _ _ _ _ (inv_record _ _ Hinv Retired) Hp). simpl in *. congruence.
Qed.

Lemma commit_step s now w :
  s ∈ candidates w → retirement_mutex_free w = true →
  reachable heap w (commit heap (Some s) now (drop_candidate s w)).2.
Proof. intros Hs Hm. apply (reachable_one (Commit s now)). simpl. by rewrite decide_True, Hm. Qed.

Lemma release_step candidate w :
  retirement_mutex_free w = true →
  reachable heap w (match candidate with Some s => drop_candidate s (release_uncommitted_credit w) | None => release_uncommitted_credit w end).
Proof.
  intros Hm. assert (reachable heap w (release_uncommitted_credit w)) as H.
  { apply (reachable_one ReleaseCredit). simpl. by rewrite Hm. }
  destruct candidate as [s |]; [| done]. eapply reachable_step; [exact H |]. by instantiate (1 := DropCandidate s).
Qed.

(** What a step of [apply] leaves. *)
Definition applied (next : ApplyPc + FilterUpdateResult) (u1 : UpdateWorld) : Prop :=
  match next with
  | inl a => run_inv (RunApply a) u1
  | inr r => run_inv (RunApplied r) u1
  end.

(** The fields [apply] does not touch. *)
Definition apply_frame (u u1 : UpdateWorld) : Prop :=
  calls u1 = calls u ∧ next_promise u1 = next_promise u ∧ pending_ (controller u1) = pending_ (controller u) ∧
  queued_rule_bytes_ (controller u1) = queued_rule_bytes_ (controller u) ∧ promises (controller u1) = promises (controller u) ∧
  limits_ (controller u1) = limits_ (controller u) ∧ sealed_ (controller u1) = sealed_ (controller u) ∧
  sealed_acknowledged_ (controller u1) = sealed_acknowledged_ (controller u) ∧
  build_stop_requested (controller u1) = build_stop_requested (controller u) ∧
  terminal_detach_requested_ (controller u1) = terminal_detach_requested_ (controller u) ∧
  runner_active_ (controller u1) = runner_active_ (controller u) ∧
  (completion <$> inflight_ (controller u1)) = (completion <$> inflight_ (controller u)).

Lemma apply_frame_refl u : apply_frame u u.
Proof. by unfold apply_frame. Qed.

Lemma apply_frame_world u w : apply_frame u (set_world w u).
Proof. by unfold apply_frame. Qed.

Lemma apply_frame_map u f c w :
  inflight_ (controller u) = Some c → completion (f c) = completion c →
  apply_frame u (set_world w (set_controller (map_inflight f (controller u)) u)).
Proof. intros Ec Ef. unfold apply_frame. simpl. rewrite Ec. split_and!; try done. simpl. by rewrite Ef. Qed.

Lemma apply_step_ok a now b u next u1 :
  inv heap (world u) → run_inv (RunApply a) u → apply_step heap a now b u = Some (next, u1) →
  applied next u1 ∧ reachable heap (world u) (world u1) ∧ apply_frame u u1.
Proof.
  intros Hinv (c & Ec & Ha) H. pose proof (reachable_refl heap (world u)) as Hrefl.
  pose proof (apply_frame_refl u) as Hfr.
  destruct a as [| | cur | nx | s | s | v | v | cand after | after]; cbn [apply_step] in H; simpl in Ha.
  - injection H as <- <-. split_and!; try done. case_match; simpl; eauto.
  - injection H as <- <-. split_and!; try done.
    destruct (Z.eqb_spec (current_generation_ (publication (world u))) uint64_max) as [Hm | Hm]; simpl; [by eauto 7 |].
    exists c. by split_and!.
  - destruct (retirement_mutex_free (world u)) eqn:Hm; [| done]. cbn [negb] in H.
    apply bind_Some in H as ([acq w] & Hacq & H). simplify_eq.
    destruct (acquire_credit_spec _ _ _ _ Hinv Hm Hacq) as [Hact Hok].
    split_and!; [| by eapply reachable_one | done]. destruct Ha as (Hp & -> & Hmax).
    destruct acq; simpl; [| by eauto].
    destruct (Hok eq_refl Hmax) as (H1 & H2). exists c. split_and!; try done; [by rewrite H2 | apply H1..].
  - destruct Ha as (Hp & -> & Hcr). destruct b as [| e | | s];
      try (injection H as <- <-; split_and!; try done; exists c; by split_and!).
    apply bind_Some in H as (w & Hact & H).
    assert (w = set_candidates (s :: candidates (world u)) (world u)) as ->
      by (unfold act, guarded in Hact; destruct (use_count _ _ =? 0)%nat; congruence).
    simplify_eq. split_and!; [| by eapply reachable_one | done].
    destruct (Z.eqb_spec (snap_generation heap s) (current_generation (world u) + 1)) as [Hg | Hg]; simpl; [| by eauto 7].
    exists c. split; [done |]. split; [done |]. split; [done |]. split; [exact Hcr |]. simpl. by left.
  - destruct Ha as (Hp & Hready). case_match; simplify_eq.
    + split_and!; try done. simpl. by eauto 7.
    + split_and!; try done.
      * simpl. rewrite Ec. eexists. split; [done |]. by split.
      * unfold apply_frame. simpl. by rewrite Ec.
  - destruct Ha as (Hp & Hgen & (Hcr & Hpe & Hmax) & Hin). destruct (retirement_mutex_free (world u)) eqn:Hm; [| done]. cbn [negb] in H.
    pose proof (commit_step s now (world u) Hin Hm) as Hreach.
    destruct (commit heap (Some s) now (drop_candidate s (world u))) as [[[v n] | e |] w] eqn:Hcommit; simplify_eq.
    + split_and!; [| done |].
      * simpl. rewrite Ec. eexists. split; [done |]. by split.
      * unfold apply_frame. simpl. by rewrite Ec.
    + split_and!; [| done |].
      * simpl. rewrite Ec. eexists. split; [done |]. by split.
      * unfold apply_frame. simpl. by rewrite Ec.
  - destruct Ha as (Hp & Hv). case_match; simplify_eq; split_and!; try done; simpl; [| by eauto].
    exists c. split_and!; try done. right. split; [done | by exists v].
  - destruct Ha as (Hp & Hv). destruct (retirement_mutex_free (world u)) eqn:Hm; [| done]. cbn [negb] in H.
    apply bind_Some in H as (r & Hwait & H). injection H as <- <-. split_and!; try done. unfold wait_until_converged in Hwait.
    destruct (Z.leb_spec (version_generation v) (last_converged_generation_ (retirement (world u)))) as [Hle | Hgt]; simpl in Hwait.
    + simplify_eq. simpl. by eauto 6.
    + case_match; simplify_eq. simpl. exists c. split; [done |]. right. split; [done | by exists v].
  - destruct Ha as (Hp & Hafter). destruct (retirement_mutex_free (world u)) eqn:Hm; [| done]. cbn [negb] in H. simplify_eq.
    split_and!; [| by apply release_step | done]. simpl. by eauto 6.
  - destruct Ha as (Hp & Hafter). injection H as <- <-. split_and!; try done.
    destruct after as [[v | e] | e |]; simpl in *; try done; repeat case_match; by eauto.
Qed.

(** ** The writer *)
Lemma apply_frame_flags u u1 :
  inv heap (world u) → reachable heap (world u) (world u1) → apply_frame u u1 → seal_shared u →
  flags_le u u1 ∧ seal_shared u1.
Proof.
  intros Hinv Hr (_ & _ & Ep & Eq & _ & _ & Es & Eack & Eb & Et & _) [S1 S2 S3].
  destruct (reachable_le _ _ Hinv Hr) as [_ [Hle _]].
  split; split; rewrite ?Es, ?Eb, ?Et, ?Ep, ?Eq, ?Eack; auto. intros H. destruct (S1 H) as (? & ? & ? & ?). auto.
Qed.

Lemma flags_inflight u i : flags_le u (set_controller (set_inflight i (controller u)) u) ∧
  (seal_shared u → seal_shared (set_controller (set_inflight i (controller u)) u)).
Proof. split; [by split |]. by intros [S1 S2 S3]. Qed.

Lemma next_command_ok pc k u :
  next_command (controller u) = Some (pc, k) → seal_shared u → parked u →
  run_inv pc (set_controller k u) ∧ flags_le u (set_controller k u) ∧ seal_shared (set_controller k u) ∧
  runner_active_ k = runner_active_ (controller u) ∧
  (applying pc = true → sealed_ (controller u) = false) ∧ seal_call_ok (Running pc) (set_controller k u).
Proof.
  unfold next_command. intros H [S1 S2 S3] Hp. destruct (pending_ (controller u)) as [| c l] eqn:El.
  - case_match; simplify_eq. split_and!; try done. all: split; simpl; [intros Hs; destruct (S1 Hs) as (? & ? & ? & ?) | |]; auto.
  - simplify_eq. destruct (sealed_ (controller u)) eqn:Hs; [by destruct (S1 eq_refl) as (_ & _ & ? & _) |].
    split_and!; try done.
    + simpl. eexists. by split.
    + split; simpl; rewrite ?Hs; auto. intros Ht. by rewrite S2 in Hs.
Qed.

Lemma terminal_locked_ok u :
  seal_shared u → sealed_ (controller u) = true →
  quiet u (set_controller (terminal_locked (controller u)) u) ∧
  seal_shared (set_controller (terminal_locked (controller u)) u).
Proof.
  intros [S1 S2 S3] Hs. split; split; simpl; auto; try by split.
Qed.

(** At rest, the end of [finish_run] only clears the flag. *)
Lemma finish_locked_rest u : at_rest u → finish_locked (world u) (controller u) = set_active_runner false (controller u).
Proof.
  unfold finish_locked, reconcile_inflight_after_writer_exit. intros [Hn | (c & Hc & Hp & _)].
  - by rewrite Hn, Hn.
  - rewrite Hc, Hp, Hc, bool_decide_true by done. done.
Qed.

Lemma finish_step_ok pc u next u1 :
  finish_step heap pc u = Some (next, u1) → inv heap (world u) → seal_ok u → at_rest u →
  seal_call_ok (Running (RunFinish RequestedStop pc)) u →
  reachable heap (world u) (world u1) ∧ calls u1 = calls u ∧ flags_le u u1 ∧ seal_shared u1 ∧ at_rest u1 ∧
  match next with
  | Some pc' => runner_active_ (controller u1) = runner_active_ (controller u) ∧
                seal_call_ok (Running (RunFinish RequestedStop pc')) u1
  | None => world u1 = world u ∧ sealed_ (controller u1) = true
  end.
Proof.
  intros H Hinv Hs Hrest Hc. apply seal_ok_shared in Hs. destruct pc as [pc | | [| c l] |]; cbn [finish_step] in H; simpl in Hc.
  - apply bind_Some in H as ([nx u2] & Hstep & H). simplify_eq.
    destruct (seal_step_flags _ _ _ _ Hstep Hinv Hs Hc) as (Hf & Hs1 & Hnx).
    destruct (seal_step_quiet _ _ _ _ Hstep Hinv Hs Hc) as (Hq & Hr & Ha).
    destruct (seal_step_spec _ _ _ _ Hstep) as (_ & _ & Ec & _).
    split_and!; try done; [by eapply at_rest_quiet |]. by destruct nx.
  - simplify_eq. destruct Hs as [S1 S2 S3]. destruct (S1 Hc) as (B & P & E1 & E2).
    split_and!; try done; try apply reachable_refl. all: by split; simpl; auto.
  - simplify_eq. split_and!; try done; apply reachable_refl.
  - simplify_eq. split_and!; try done; [apply reachable_refl | apply complete_flags | by apply complete_shared | | |].
    + eapply at_rest_quiet; [apply quiet_complete | done].
    + simpl. apply complete_fields.
    + simpl. by rewrite (proj1 (proj2 (proj2 (proj2 (proj2 (complete_fields _ _ _)))))).
  - simplify_eq. rewrite (finish_locked_rest u Hrest).
    split_and!; try done; try apply reachable_refl. all: by destruct Hs; split.
Qed.

Lemma detach_step now w :
  retirement_mutex_free w = true → publication_sealed_ (publication w) = true →
  act heap (Detach now) w = Some (detach_terminal_snapshot heap now w).2.
Proof. intros Hm Hs. simpl. by rewrite Hm, Hs. Qed.

Lemma run_step_ok w0 u t pc now b c' u1 :
  inv heap (world u) → ctl_ok w0 u → calls u !! t = Some (Running pc) →
  run_step heap pc now b u = Some (c', u1) → ctl_ok w0 (set_call t c' u1).
Proof.
  intros Hinv Hok Hpc H. pose proof (co_seal _ _ Hok) as Hs. pose proof (seal_ok_shared _ Hs) as Hsh.
  pose proof (co_run _ _ Hok _ _ Hpc) as Hrun. pose proof (so_calls _ Hs _ _ Hpc) as Hcall.
  pose proof (reachable_refl heap (world u)) as Hrefl.
  destruct pc as [pc | | | | a | r | | result pc]; cbn [run_step] in H; simpl in Hcall.
  - apply bind_Some in H as ([nx u2] & Hstep & H). injection H as <- <-.
    destruct (seal_step_flags _ _ _ _ Hstep Hinv Hsh Hcall) as (Hf & Hs1 & Hnx).
    destruct (seal_step_quiet _ _ _ _ Hstep Hinv Hsh Hcall) as (Hq & Hr & Ha).
    destruct (seal_step_spec _ _ _ _ Hstep) as (_ & _ & Ec & _).
    eapply (ctl_running w0 u _ t _ _ Hok Hpc); [exact Ec | exact Hr | exact Hinv |  | exact Hf | exact Ha |  | ];
      [apply (seal_ok_step u); try done; by destruct nx | destruct nx; by apply (parked_quiet u) | by destruct nx].
  - injection H as <- <-. destruct (terminal_locked_ok u Hsh Hcall) as (Hq & Hs1).
    pose proof (qu_flags _ _ Hq) as Hf.
    eapply (ctl_running w0 u _ t _ _ Hok Hpc); [done | exact Hrefl | exact Hinv |  | exact Hf | done |  | ];
      [by apply (seal_ok_step u) | by apply (parked_quiet u) | done].
  - apply bind_Some in H as ([pc k] & Hnext & H). injection H as <- <-.
    destruct (next_command_ok _ _ _ Hnext Hsh Hrun) as (Hrun' & Hf & Hs1 & Ha & Happ & Hc').
    eapply (ctl_running w0 u _ t _ _ Hok Hpc); [done | exact Hrefl | exact Hinv |  | exact Hf | exact Ha | exact Hrun' | ]; [by apply (seal_ok_step u) |].
    by right; auto.
  - destruct (retirement_mutex_free (world u)) eqn:Hm; [| done]. cbn [negb] in H.
    destruct (ss_sealed _ Hsh (ss_terminal _ Hsh Hcall)) as (Hb & Hp & Hq & Hz).
    pose proof (detach_step now _ Hm Hp) as Hact.
    destruct (detach_terminal_snapshot heap now (world u)) as [ok w] eqn:Hdet. cbn [snd] in Hact. injection H as <- <-.
    destruct (act_le _ _ _ Hinv Hact) as [[Hle _] _].
    assert (flags_le u (set_world w u)) as Hf by (split; auto).
    assert (seal_shared (set_world w u)) as Hs1.
    { destruct Hsh as [S1 S2 S3]. split; simpl; auto. }
    eapply (ctl_running w0 u _ t _ _ Hok Hpc); [done | exact (reachable_one _ _ _ Hact) | exact Hinv |  | exact Hf | done |  | ];
      [by apply (seal_ok_step u) | | done].
    destruct Hrun as [Hn | (_ & c & Hc & Hcm)]; [by left | right; by exists c].
  - apply bind_Some in H as ([nx u2] & Hstep & H). injection H as <- <-.
    destruct (apply_step_ok _ _ _ _ _ _ Hinv Hrun Hstep) as (Happ & Hr & Hfr).
    destruct (apply_frame_flags _ _ Hinv Hr Hfr Hsh) as [Hf Hs1].
    destruct Hfr as (Ec & _ & _ & _ & _ & _ & _ & _ & _ & _ & Ha & _).
    eapply (ctl_running w0 u _ t _ _ Hok Hpc); [exact Ec | exact Hr | exact Hinv |  | exact Hf | exact Ha |  | ];
      [apply (seal_ok_step u); try done; by destruct nx | by destruct nx | by left].
  - assert (∃ c, inflight_ (controller u) = Some c) as [c Ec] by (destruct r; naive_solver).
    rewrite Ec in H.
    assert (∀ r', ctl_ok w0 (set_call t (Running RunReset) (set_controller (complete (completion c) r' (controller u)) u))) as Hreset.
    { intros r'. eapply (ctl_running w0 u _ t _ _ Hok Hpc); [done | exact Hrefl | exact Hinv |  | exact (complete_flags _ _ _) |  |  | ].
      - apply (seal_ok_step u); try done; [by apply complete_shared | apply complete_flags].
      - simpl. apply complete_fields.
      - simpl. exists c. rewrite (proj1 (proj2 (proj2 (complete_fields _ _ _)))). split; [done |]. apply complete_sets.
      - by left. }
    destruct r as [v | e]; [injection H as <- <-; apply Hreset |].
    case_bool_decide as Hph; injection H as <- <-; [| apply Hreset].
    destruct Hrun as (c0 & Ec0 & Hc0). assert (c0 = c) as -> by congruence.
    eapply (ctl_running w0 u _ t _ _ Hok Hpc); [done | exact Hrefl | exact Hinv |  | exact (reflexivity _) | done |  | ];
      [by apply (seal_ok_step u) | | done]. right. exists c. split; [done |].
    destruct Hc0 as [Hb | Hcm]; [congruence | done].
  - injection H as <- <-. destruct (flags_inflight u None) as [Hf Hs1].
    eapply (ctl_running w0 u _ t _ _ Hok Hpc); [done | exact Hrefl | exact Hinv |  | exact Hf | done |  | ];
      [apply (seal_ok_step u); try done; by apply Hs1 | by left | done].
  - apply bind_Some in H as ([nx u2] & Hstep & H). injection H as <- <-.
    destruct (finish_step_ok _ _ _ _ Hstep Hinv Hs Hrun Hcall) as (Hr & Ec & Hf & Hs1 & Hrest & Hnx).
    destruct nx as [pc' |].
    + destruct Hnx as [Ha Hc']. eapply (ctl_running w0 u _ t _ _ Hok Hpc); [exact Ec | exact Hr | exact Hinv |  | exact Hf | exact Ha | exact Hrest | ]; [| done].
      by apply (seal_ok_step u).
    + destruct Hnx as [Ew Hse]. refine (ctl_returns w0 u u2 t _ _ Hok Hpc Ec Ew _ Hf _); [by apply (seal_ok_step u) |].
      destruct Hrest as [Hn | Hc]; [by left | by right].
Qed.

(** ** The other calls *)
Lemma quiet_refl u : quiet u u.
Proof. by split. Qed.

Ltac other_step w0 u :=
  apply (ctl_other w0 u); try done; try apply quiet_refl; try apply reachable_refl; try apply quiet_complete;
  try (simpl; apply complete_fields);
  try (apply (seal_ok_step u); try done;
       try (by apply complete_shared, seal_ok_shared); try (by apply seal_ok_shared); try apply complete_flags).

(** The successor takes the command the writer left. *)
Lemma ctl_taken w0 u t c v :
  ctl_ok w0 u → calls u !! t = Some (Succeeding (SuccessorRelocked v)) →
  ctl_ok w0 (set_call t (Succeeding (SuccessorCompleting c v)) (set_controller (set_inflight None (controller u)) u)).
Proof.
  intros Hok Hpc. pose proof Hok as [Hw Hs Hu Ha Hr Hp Hsu]. destruct (Hsu _ _ Hpc) as (Hse & Hno & Hc).
  assert (∀ t' pc, <[t := Succeeding (SuccessorCompleting c v)]> (calls u) !! t' = Some (Running pc) → calls u !! t' = Some (Running pc)) as Hrun.
  { intros t' pc. rewrite lookup_insert. by case_decide. }
  destruct (flags_inflight u None) as [Hf Hs1].
  split; simpl.
  - done.
  - apply (seal_ok_step u); try done. by apply Hs1, seal_ok_shared.
  - intros t1 t2 pc1 pc2 H1%Hrun H2%Hrun. by eapply Hu.
  - intros t1 pc1 H1%Hrun. by eapply Ha.
  - intros t1 pc1 H1%Hrun. specialize (Hno _ _ H1). destruct pc1; try done; by left.
  - intros _. by left.
  - intros t1 pc1. rewrite lookup_insert. case_decide; [by intros [= <-] |]. intros H1. apply Hsu in H1.
    eapply (successor_inv_le _ u); [by apply flags_le_call | apply pub_le_refl | | exact H1].
    intros t2 pc2 H2%Hrun Happ _. by eauto.
Qed.

Lemma successor_step_ok w0 u t pc next u1 :
  ctl_ok w0 u → calls u !! t = Some (Succeeding pc) →
  successor_step pc u = Some (next, u1) →
  ctl_ok w0 (set_call t (match next with inl pc => Succeeding pc | inr r => Returned (SuccessorResult r) end) u1).
Proof.
  intros Hok Hpc H. pose proof (co_seal _ _ Hok) as Hs. pose proof (co_successor _ _ Hok _ _ Hpc) as Hsu.
  assert (∀ c, calls u !! t = Some c → is_running c = false) as Hnr by (intros c; rewrite Hpc; by intros [= <-]).
  assert (∀ c', is_running c' = false → seal_call_ok c' u → (∀ pc, c' = Succeeding pc → successor_inv pc u) →
            ctl_ok w0 (set_call t c' u)) as Hstay.
  { intros c' Hc' Hse Hsucc. other_step w0 u. }
  destruct pc as [| c | v | v | c v]; cbn [successor_step] in H; simpl in Hsu.
  - unfold successor_locked in H. destruct (runner_active_ (controller u)) eqn:Hact.
    { injection H as <- <-. replace (set_controller (controller u) u) with u by (by destruct u). by apply Hstay. }
    assert (∀ t' pc', calls u !! t' ≠ Some (Running pc')) as Hno.
    { intros t' pc' H'. apply (co_active _ _ Hok) in H'. congruence. }
    destruct (co_parked _ _ Hok Hno) as [Hn | (Hse & c & Hc & Hph & v & Hv)]; unfold reconcile_inflight_after_writer_exit in H.
    + rewrite Hn, Hn in H. injection H as <- <-. replace (set_controller (controller u) u) with u by (by destruct u). by apply Hstay.
    + rewrite Hc, Hph, Hc, Hph, Hv in H. injection H as <- <-.
      replace (set_controller (controller u) u) with u by (by destruct u). apply Hstay; [done.. |].
      intros pc [= <-]. split; [done |]. intros t' pc' H'. by destruct (Hno t' pc').
  - done.
  - destruct (retirement_mutex_free (world u)); [| done]. cbn [negb] in H. apply bind_Some in H as (r & Hwait & H).
    injection H as <- <-. unfold wait_until_converged in Hwait.
    destruct (Z.leb_spec (version_generation v) (last_converged_generation_ (retirement (world u)))) as [Hle | Hgt]; simpl in Hwait.
    + simplify_eq. apply Hstay; [done.. |]. intros pc [= <-]. by destruct Hsu.
    + case_match; simplify_eq. by apply Hstay.
  - unfold successor_relocked in H. destruct (inflight_ (controller u)) as [c |] eqn:Hi.
    + destruct (bool_decide (phase c = Committed) && bool_decide (published c = Some v)); injection H as <- <-.
      * by apply ctl_taken.
      * replace (set_controller (controller u) u) with u by (by destruct u). by apply Hstay.
    + injection H as <- <-. replace (set_controller (controller u) u) with u by (by destruct u). by apply Hstay.
  - injection H as <- <-. other_step w0 u.
Qed.

(** A step of [seal] in a thread other than the writer's. *)
Lemma sealing_ok w0 u t c pc next u1 (k : option SealPc → Call) :
  inv heap (world u) → ctl_ok w0 u → calls u !! t = Some c → is_running c = false → seal_pc_ok pc u →
  seal_step heap pc u = Some (next, u1) →
  (∀ n, is_running (k n) = false) → (∀ n pc, k n ≠ Succeeding pc) →
  (∀ pc', seal_pc_ok pc' u1 → seal_call_ok (k (Some pc')) u1) →
  (sealed_ (controller u1) = true → seal_call_ok (k None) u1) →
  ctl_ok w0 (set_call t (k next) u1).
Proof.
  intros Hinv Hok Hpc Hc Hcall Hstep Hk1 Hk2 Hk3 Hk4. pose proof (co_seal _ _ Hok) as Hs. pose proof (seal_ok_shared _ Hs) as Hsh.
  destruct (seal_step_flags _ _ _ _ Hstep Hinv Hsh Hcall) as (Hf & Hs1 & Hnx).
  destruct (seal_step_quiet _ _ _ _ Hstep Hinv Hsh Hcall) as (Hq & Hr & Ha).
  destruct (seal_step_spec _ _ _ _ Hstep) as (_ & _ & Ec & _).
  apply (ctl_other w0 u); try done.
  - intros c0. rewrite Hpc. by intros [= <-].
  - apply (seal_ok_step u); try done. destruct next; auto.
  - intros pc' Hn. by destruct (Hk2 next pc').
Qed.

Lemma submit_locked_ok c u k r :
  submit_locked c (controller u) = (r, k) → seal_shared u →
  quiet u (set_controller k u) ∧ seal_shared (set_controller k u) ∧ runner_active_ k = runner_active_ (controller u).
Proof.
  unfold submit_locked. intros H [S1 S2 S3].
  assert (quiet u (set_controller (controller u) u)) as Hid by (destruct u; apply quiet_refl).
  assert (seal_shared (set_controller (controller u) u)) as Hsh by (by split).
  destruct (sealed_ (controller u)) eqn:Hs; [by simplify_eq |].
  repeat case_match; simplify_eq; try done. split_and!; [| | done].
  - by split.
  - split; simpl; rewrite ?Hs; auto. intros Ht. by rewrite S2 in Hs.
Qed.

Lemma call_step_ok w0 u t c now b c' u1 :
  inv heap (world u) → ctl_ok w0 u → calls u !! t = Some c →
  call_step heap c now b u = Some (c', u1) → ctl_ok w0 (set_call t c' u1).
Proof.
  intros Hinv Hok Hpc H. pose proof (co_seal _ _ Hok) as Hs. pose proof (seal_ok_shared _ Hs) as Hsh.
  pose proof (so_calls _ Hs _ _ Hpc) as Hcall. pose proof (reachable_refl heap (world u)) as Hrefl.
  assert (is_running c = false → ∀ c0, calls u !! t = Some c0 → is_running c0 = false) as Hnr
    by (intros Hc c0; rewrite Hpc; by intros [= <-]).
  destruct c as [c | c e | pc | pc tm | | pc | [pc |] | | r]; cbn [call_step] in H; simpl in Hcall.
  - destruct (submit_locked c (controller u)) as [rej k] eqn:Hsub. injection H as <- <-.
    destruct (submit_locked_ok _ _ _ _ Hsub Hsh) as (Hq & Hs1 & Ha).
    other_step w0 u; try apply Hq; try (by apply Hnr); by destruct rej.
  - injection H as <- <-. other_step w0 u. by apply Hnr.
  - by eapply run_step_ok.
  - apply bind_Some in H as ([nx u2] & Hstep & H). injection H as <- <-.
    eapply (sealing_ok w0 u t _ pc nx u2 (λ n, match n with Some pc => Sealing pc tm | None => if tm then TerminalLocked else Returned SealReturned end));
      try done; intros; repeat case_match; done.
  - injection H as <- <-. destruct (terminal_locked_ok u Hsh Hcall) as (Hq & Hs1).
    other_step w0 u; try apply Hq; by apply Hnr.
  - apply bind_Some in H as ([nx u2] & Hstep & H). injection H as <- <-. by eapply successor_step_ok.
  - apply bind_Some in H as ([nx u2] & Hstep & H). injection H as <- <-.
    eapply (sealing_ok w0 u t _ pc nx u2 (λ n, match n with Some pc => Update.Destroying (Some pc) | None => DestroyTerminal end));
      try done; intros; repeat case_match; done.
  - destruct (runner_active_ (controller u)); [done |]. injection H as <- <-.
    other_step w0 u. by apply Hnr.
  - injection H as <- <-. destruct (terminal_locked_ok u Hsh Hcall) as (Hq & Hs1).
    other_step w0 u; try apply Hq; by apply Hnr.
  - done.
Qed.

(** Steps that touch no call. *)
Lemma ctl_quiet w0 u u1 :
  ctl_ok w0 u → quiet u u1 → calls u1 = calls u → reachable heap (world u) (world u1) → seal_shared u1 →
  runner_active_ (controller u1) = runner_active_ (controller u) → ctl_ok w0 u1.
Proof.
  intros [Hw Hs Hu Ha Hr Hp Hsu] Hq Ec Hw1 [S1 S2 S3] Eact. pose proof (qu_flags _ _ Hq) as Hf. split.
  - by eapply reachable_trans.
  - split; try done. intros t c. rewrite Ec. intros Hc. eapply seal_call_ok_le; [exact Hf |]. by eapply so_calls.
  - intros t t' pc pc'. rewrite Ec. apply Hu.
  - intros t pc. rewrite Ec, Eact. apply Ha.
  - intros t pc. rewrite Ec. intros H. eapply run_inv_quiet; [exact Hq | by eapply Hr].
  - rewrite Ec. intros Hno. eapply parked_quiet; [exact Hq | by apply Hp].
  - intros t pc. rewrite Ec. intros H. eapply successor_inv_le; [exact Hf | apply Hq | | by eapply Hsu].
    intros t2 pc2. rewrite Ec. by eauto.
Qed.

Lemma idle_not_running t u : idle t u = true → ∀ c, calls u !! t = Some c → is_running c = false.
Proof. unfold idle. intros H c Hc. rewrite Hc in H. by destruct c. Qed.

Lemma run_begin_ok w0 u t stopped : ctl_ok w0 u → idle t u = true → ctl_ok w0 (run_begin t stopped u).
Proof.
  intros Hok Hidle. pose proof (idle_not_running _ _ Hidle) as Hnr. pose proof (seal_ok_shared _ (co_seal _ _ Hok)) as Hsh.
  unfold run_begin. destruct (runner_active_ (controller u)) eqn:Hact.
  { pose proof (co_seal _ _ Hok) as Hs. other_step w0 u. }
  pose proof Hok as [Hw Hs Hu Ha Hr Hp Hsu].
  assert (∀ t' pc, calls u !! t' ≠ Some (Running pc)) as Hno by (intros t' pc Hx; apply Ha in Hx; congruence).
  set (pc0 := if stopped then _ else _). set (u1 := set_controller _ u).
  assert (flags_le u u1 ∧ seal_shared u1) as [Hf Hs1] by (split; [by split | by destruct Hsh; split]).
  assert (∀ t' pc, calls (set_call t (Running pc0) u1) !! t' = Some (Running pc) → t' = t ∧ pc = pc0) as Hrun.
  { intros t' pc. simpl. rewrite lookup_insert. case_decide; [by intros [= <-] |]. intros Hx. by destruct (Hno t' pc). }
  split; simpl.
  - done.
  - apply (seal_ok_step u); try done. subst pc0. by destruct stopped.
  - by intros t1 t2 pc1 pc2 [-> _]%Hrun [-> _]%Hrun.
  - done.
  - intros t1 pc1 [-> ->]%Hrun. subst pc0. destruct (Hp Hno) as [H | H]; destruct stopped; simpl; (by left) || (by right).
  - intros Hn. destruct (Hn t pc0). by rewrite lookup_insert, decide_True.
  - intros t1 pc1. rewrite lookup_insert. case_decide; [done |]. intros H1. apply Hsu in H1.
    eapply (successor_inv_le _ u); [by apply flags_le_call | apply pub_le_refl | | exact H1].
    intros t2 pc2 [-> ->]%Hrun. subst pc0. by destruct stopped.
Qed.

Lemma update_act_ok w0 a u u' : inv heap (world u) → ctl_ok w0 u → update_act a u = Some u' → ctl_ok w0 u'.
Proof.
  intros Hinv Hok H. pose proof (co_seal _ _ Hok) as Hs. pose proof (seal_ok_shared _ Hs) as Hsh.
  destruct a as [t rs | t stopped | t | t | t | t | | t now b | a]; cbn [Update.update_act] in H;
    try (destruct (idle t u) eqn:Hidle; [| done]; pose proof (idle_not_running _ _ Hidle) as Hnr).
  - unfold submit_begin in H.
    set (u0 := mkUpdateWorld (controller u) (world u) (calls u) (S (next_promise u)) (commit_log u)) in *.
    assert (ctl_ok w0 u0) as Hok0.
    { apply (ctl_quiet w0 u); try done; [apply reachable_refl | by destruct Hsh; split]. }
    pose proof (co_seal _ _ Hok0) as Hs0.
    destruct (validate_filter_rule_set _ _); simplify_eq; other_step w0 u0.
  - injection H as <-. by apply run_begin_ok.
  - injection H as <-. other_step w0 u.
  - injection H as <-. other_step w0 u.
  - injection H as <-. other_step w0 u. by intros pc [= <-].
  - injection H as <-. other_step w0 u.
  - injection H as <-. apply (ctl_quiet w0 u); try done; [apply reachable_refl | by destruct Hsh; split].
  - apply bind_Some in H as (c & Hc & H). apply bind_Some in H as ([c' u1] & Hstep & H). injection H as <-.
    by eapply call_step_ok.
  - destruct (environment_action a) eqn:He; [| done]. apply bind_Some in H as (w & Hact & H). injection H as <-.
    destruct (act_le _ _ _ Hinv Hact) as [Hle Hsame]. apply (ctl_quiet w0 u); try done.
    + split; try done; [| by apply Hsame]. destruct Hle. by split.
    + by eapply reachable_one.
    + destruct Hsh as [S1 S2 S3], Hle as [Hle _]. split; simpl; auto. intros H. destruct (S1 H) as (? & ? & ? & ?). auto.
Qed.

Definition update_initial (u0 : UpdateWorld) : Prop :=
  ∃ w0 limits, initial_state heap w0 ∧ make_controller w0 limits = Val u0.

Lemma initial_ctl w0 limits u0 : make_controller w0 limits = Val u0 → world u0 = w0 ∧ ctl_ok w0 u0.
Proof.
  unfold make_controller. intros H. case_match; [done |]. simplify_eq. split; [done |].
  split; simpl; try (intros *; by rewrite lookup_empty); [apply reachable_refl | | by left].
  by split.
Qed.

Lemma reachable_ctl w0 u0 u : initial_state heap w0 → ctl_ok w0 u0 → update_reachable u0 u → ctl_ok w0 u.
Proof.
  intros H0 Hok Hr. induction Hr as [| u1 a u2 Hr IH Hstep]; [done |]. eapply update_act_ok; [| exact IH | exact Hstep].
  by destruct (initial_state_inv heap w0 _ H0 (co_world _ _ IH)).
Qed.

(** ** Who holds a promise

    Every promise ever made is in exactly one place: in the queue, in flight, in the hands
    of a call, or set. *)
Definition call_owned (c : Call) : list nat :=
  match c with
  | Submitting c | Rejecting c _ => [completion c]
  | Running (RunForward pc) | Running (RunFinish _ (FinishSeal pc)) | Sealing pc _ | Update.Destroying (Some pc) =>
      completion <$> seal_owned pc
  | Running (RunFinish _ (FinishCancelling l)) => completion <$> l
  | Succeeding (SuccessorFailing c) | Succeeding (SuccessorCompleting c _) => [completion c]
  | _ => []
  end.

Definition calls_owned (m : gmap nat Call) : list nat := concat ((λ kv, call_owned kv.2) <$> map_to_list m).

Definition inflight_token (k : Controller) : list nat :=
  match inflight_ k with
  | Some c => if promises k !! completion c then [] else [completion c]
  | None => []
  end.

Definition ctl_tokens (k : Controller) : list nat :=
  (completion <$> pending_ k) ++ inflight_token k ++ elements (dom (promises k)).

Definition tokens (u : UpdateWorld) : list nat := calls_owned (calls u) ++ ctl_tokens (controller u).

Record tok_ok (u : UpdateWorld) : Prop := {
  tk_perm : tokens u ≡ₚ seq 0 (next_promise u);
  tk_unset c : inflight_ (controller u) = Some c → (∀ t, calls u !! t ≠ Some (Running RunReset)) →
    promises (controller u) !! completion c = None;
}.

Lemma concat_perm {A} (l l' : list (list A)) : l ≡ₚ l' → concat l ≡ₚ concat l'.
Proof.
  induction 1; simpl; [done | by apply Permutation_app_head | | by etransitivity].
  rewrite !app_assoc. by apply Permutation_app_tail, Permutation_app_comm.
Qed.

Lemma calls_owned_insert m t c : calls_owned (<[t := c]> m) ≡ₚ call_owned c ++ calls_owned (delete t m).
Proof.
  unfold calls_owned. rewrite <- insert_delete_eq.
  rewrite (concat_perm _ ((λ kv, call_owned kv.2) <$> ((t, c) :: map_to_list (delete t m)))); [done |].
  apply fmap_Permutation, map_to_list_insert, lookup_delete_eq.
Qed.

Lemma calls_owned_lookup m t c : m !! t = Some c → calls_owned m ≡ₚ call_owned c ++ calls_owned (delete t m).
Proof. intros H. rewrite <- calls_owned_insert. by rewrite insert_id. Qed.

(** The holdings of thread [t] before the step. *)
Definition owned_by (t : nat) (u : UpdateWorld) : list nat :=
  match calls u !! t with Some c => call_owned c | None => [] end.

Lemma calls_owned_at t u : calls_owned (calls u) ≡ₚ owned_by t u ++ calls_owned (delete t (calls u)).
Proof.
  unfold owned_by. destruct (calls u !! t) eqn:Hc; [by apply calls_owned_lookup |]. by rewrite delete_id.
Qed.

Lemma tokens_NoDup u : tok_ok u → NoDup (tokens u).
Proof. intros [H _]. rewrite H. apply NoDup_seq. Qed.

(** A step that moves promises between thread [t] and the controller. *)
Lemma tok_step u u1 t c' :
  tok_ok u → calls u1 = calls u → next_promise u1 = next_promise u →
  owned_by t u ++ ctl_tokens (controller u) ≡ₚ call_owned c' ++ ctl_tokens (controller u1) →
  (∀ c, inflight_ (controller u1) = Some c → (∀ t', calls (set_call t c' u1) !! t' ≠ Some (Running RunReset)) →
     promises (controller u1) !! completion c = None) →
  tok_ok (set_call t c' u1).
Proof.
  intros [Hp Hu] Ec En Hloc Hun. split; [| exact Hun]. unfold tokens. simpl. rewrite Ec, En, calls_owned_insert, <- Hp.
  unfold tokens. rewrite (calls_owned_at t u), <- !app_assoc.
  rewrite (Permutation_app_comm (calls_owned _) (ctl_tokens (controller u1))), app_assoc, <- Hloc.
  rewrite <- app_assoc. apply Permutation_app_head, Permutation_app_comm.
Qed.

(** What thread [t] holds is neither set nor anywhere else. *)
Lemma held_unset u t id :
  tok_ok u → id ∈ owned_by t u →
  promises (controller u) !! id = None ∧ id ∉ completion <$> pending_ (controller u) ∧
  ∀ c, inflight_ (controller u) = Some c → completion c ≠ id.
Proof.
  clear heap F.
  intros Hok Hin. pose proof (tokens_NoDup _ Hok) as Hnd. unfold tokens in Hnd. rewrite (calls_owned_at t u), <- app_assoc in Hnd.
  apply list.NoDup_app in Hnd as (_ & Hdis & _). specialize (Hdis id Hin). rewrite elem_of_app in Hdis.
  unfold ctl_tokens in Hdis. rewrite !elem_of_app, elem_of_elements, elem_of_dom in Hdis.
  assert (promises (controller u) !! id = None) as Hn by (apply eq_None_not_Some; naive_solver).
  split_and!; [done | naive_solver |]. intros c Hc Heq. apply Hdis. right. right. left. unfold inflight_token.
  rewrite Hc, Heq, Hn. by left.
Qed.

Lemma complete_unset id r k :
  promises k !! id = None → promises (complete id r k) = <[id := r]> (promises k).
Proof. unfold complete. by intros ->. Qed.

(** Setting a promise held elsewhere. *)
Lemma ctl_tokens_complete id r k :
  promises k !! id = None → (∀ c, inflight_ k = Some c → completion c ≠ id) →
  ctl_tokens (complete id r k) ≡ₚ id :: ctl_tokens k.
Proof.
  intros Hn Hi. unfold ctl_tokens, inflight_token.
  destruct (complete_fields id r k) as (_ & -> & -> & _). rewrite (complete_unset _ _ _ Hn), dom_insert_L.
  rewrite elements_union_singleton by (by rewrite not_elem_of_dom).
  destruct (inflight_ k) as [c |]; [| by rewrite !Permutation_middle].
  rewrite lookup_insert_ne by (apply not_eq_sym; by apply Hi). by rewrite !Permutation_middle.
Qed.

(** Setting the promise in flight. *)
Lemma ctl_tokens_inflight c r k :
  inflight_ k = Some c → promises k !! completion c = None → ctl_tokens (complete (completion c) r k) ≡ₚ ctl_tokens k.
Proof.
  intros Hc Hn. unfold ctl_tokens, inflight_token.
  destruct (complete_fields (completion c) r k) as (_ & -> & -> & _). rewrite (complete_unset _ _ _ Hn), dom_insert_L, Hc, Hn.
  rewrite elements_union_singleton by (by rewrite not_elem_of_dom).
  rewrite lookup_insert, decide_True by done. done.
Qed.

Lemma ctl_tokens_same k k1 :
  pending_ k1 = pending_ k → (completion <$> inflight_ k1) = (completion <$> inflight_ k) → promises k1 = promises k →
  ctl_tokens k1 = ctl_tokens k.
Proof.
  intros E1 E2 E3. unfold ctl_tokens, inflight_token. rewrite E1, E3.
  destruct (inflight_ k1), (inflight_ k); simpl in E2; simplify_eq; [by rewrite E2 | done].
Qed.

(** The promise in flight stays unset through a step that keeps it in flight. *)
Lemma unset_keep u u1 t c' c :
  tok_ok u → calls u1 = calls u → calls u !! t ≠ Some (Running RunReset) →
  (∀ t', calls (set_call t c' u1) !! t' ≠ Some (Running RunReset)) →
  inflight_ (controller u) = Some c → promises (controller u) !! completion c = None.
Proof.
  intros Hok Ec Ht Hno Hc. apply (tk_unset _ Hok); [done |]. intros t' H'. destruct (decide (t' = t)) as [-> | Hne]; [done |].
  apply (Hno t'). simpl. by rewrite Ec, lookup_insert_ne.
Qed.

(** Steps that leave queue, promise in flight and promises alone. *)
Lemma tok_same u u1 t c' :
  tok_ok u → calls u1 = calls u → next_promise u1 = next_promise u → calls u !! t ≠ Some (Running RunReset) →
  owned_by t u = call_owned c' → pending_ (controller u1) = pending_ (controller u) →
  (completion <$> inflight_ (controller u1)) = (completion <$> inflight_ (controller u)) →
  promises (controller u1) = promises (controller u) → tok_ok (set_call t c' u1).
Proof.
  intros Hok Ec En Ht Ho Ep Ei Er. apply (tok_step u); try done.
  - by rewrite Ho, (ctl_tokens_same _ _ Ep Ei Er).
  - intros c Hc Hno. rewrite Er. rewrite Hc in Ei.
    destruct (inflight_ (controller u)) as [c0 |] eqn:Hc0; simpl in Ei; [| done]. injection Ei as ->.
    by eapply (unset_keep u u1 t c').
Qed.

(** A step that sets the promise [id] out of the hands of thread [t]. *)
Lemma tok_complete u t c' id r rest :
  tok_ok u → calls u !! t ≠ Some (Running RunReset) → owned_by t u ≡ₚ id :: rest → call_owned c' = rest →
  tok_ok (set_call t c' (set_controller (complete id r (controller u)) u)).
Proof.
  intros Hok Ht Ho Hc'. destruct (held_unset u t id Hok) as (Hn & _ & Hi); [rewrite Ho; by left |].
  apply (tok_step u); try done.
  - simpl. rewrite (ctl_tokens_complete id r _ Hn Hi), Ho, Hc'. simpl. by rewrite Permutation_middle.
  - intros c. simpl. rewrite (proj1 (proj2 (proj2 (complete_fields id r (controller u))))), (complete_unset _ _ _ Hn).
    intros Hc Hno. rewrite lookup_insert_ne by (apply not_eq_sym; by apply Hi).
    by eapply (unset_keep u (set_controller (complete id r (controller u)) u) t c').
Qed.

Lemma tok_seal u t c pc next u1 (k : option SealPc → Call) :
  tok_ok u → calls u !! t = Some c → c ≠ Running RunReset → call_owned c = completion <$> seal_owned pc →
  seal_step heap pc u = Some (next, u1) →
  (∀ pc', call_owned (k (Some pc')) = completion <$> seal_owned pc') → call_owned (k None) = [] →
  tok_ok (set_call t (k next) u1).
Proof.
  intros Hok Hpc Hc Ho Hstep Hk Hk0. destruct (seal_step_spec _ _ _ _ Hstep) as (He & _ & Ec & En & _).
  assert (calls u !! t ≠ Some (Running RunReset)) as Ht by congruence.
  assert (owned_by t u = completion <$> seal_owned pc) as Hown by (unfold owned_by; by rewrite Hpc).
  remember (controller u1) as k1 eqn:Ek. destruct He as [nx k' Eo Enx Ep _ Er (_ & Ei & _) _ | k' Epc Hs Ep _ Er (_ & Ei & _) | c0 l Epc].
  - apply (tok_same u); try done; rewrite <- ?Ek; try done; [| by rewrite Ei].
    rewrite Hown, Eo. destruct nx as [pc' |]; [by rewrite Hk, (Enx _ eq_refl) | by rewrite Hk0].
  - apply (tok_step u); try done.
    + rewrite Hown, Epc, Hk, <- Ek. simpl. unfold ctl_tokens, inflight_token. by rewrite Ep, Er, Ei.
    + rewrite <- Ek, Ei, Er. intros c0 Hc0 Hno. by eapply (unset_keep u u1 t).
  - assert (u1 = set_controller (complete (completion c0) (update_error ShuttingDown None) (controller u)) u) as ->.
    { subst pc. cbn [seal_step] in Hstep. by simplify_eq. }
    apply (tok_complete u t _ _ _ (completion <$> l)); try done. by rewrite Hown, Epc.
Qed.

Lemma tok_finish w0 u t result pc next u1 :
  tok_ok u → ctl_ok w0 u → calls u !! t = Some (Running (RunFinish result pc)) →
  finish_step heap pc u = Some (next, u1) →
  tok_ok (set_call t (match next with Some pc => Running (RunFinish result pc) | None => Returned (RunResult result) end) u1).
Proof.
  intros Hok Hctl Hpc H. pose proof (co_run _ _ Hctl _ _ Hpc) as Hrest. pose proof (so_calls _ (co_seal _ _ Hctl) _ _ Hpc) as Hcall.
  assert (calls u !! t ≠ Some (Running RunReset)) as Ht by congruence.
  assert (owned_by t u = call_owned (Running (RunFinish result pc))) as Hown by (unfold owned_by; by rewrite Hpc).
  destruct pc as [pc | | [| c l] |]; cbn [finish_step] in H; simpl in Hcall.
  - apply bind_Some in H as ([nx u2] & Hstep & H). injection H as <- <-.
    apply (tok_seal u t (Running (RunFinish result (FinishSeal pc))) pc nx u2
      (λ n, Running (RunFinish result (match n with Some pc => FinishSeal pc | None => FinishCancelLocked end)))); done.
  - injection H as <- <-. destruct (so_sealed _ (co_seal _ _ Hctl) Hcall) as (_ & _ & Ep & _).
    apply (tok_same u); try done; by rewrite ?Hown, Ep.
  - injection H as <- <-. by apply (tok_same u).
  - injection H as <- <-. by apply (tok_complete u t _ _ _ (completion <$> l)); rewrite ?Hown.
  - injection H as <- <-. rewrite (finish_locked_rest u Hrest). by apply (tok_same u).
Qed.

Lemma no_other_reset w0 u t pc : ctl_ok w0 u → calls u !! t = Some (Running pc) → pc ≠ RunReset →
  ∀ t', calls u !! t' ≠ Some (Running RunReset).
Proof.
  intros Hctl Hpc Hne t' Ht'. pose proof (co_unique _ _ Hctl _ _ _ _ Hpc Ht') as <-. congruence.
Qed.

Lemma tok_run w0 u t pc now b c' u1 :
  tok_ok u → inv heap (world u) → ctl_ok w0 u → calls u !! t = Some (Running pc) →
  run_step heap pc now b u = Some (c', u1) → tok_ok (set_call t c' u1).
Proof.
  intros Hok Hinv Hctl Hpc H. pose proof (co_run _ _ Hctl _ _ Hpc) as Hrun.
  pose proof (seal_ok_shared _ (co_seal _ _ Hctl)) as Hsh.
  assert (owned_by t u = call_owned (Running pc)) as Hown by (unfold owned_by; by rewrite Hpc).
  assert (pc ≠ RunReset → calls u !! t ≠ Some (Running RunReset)) as Ht by congruence.
  destruct pc as [pc | | | | a | r | | result pc]; cbn [run_step] in H.
  - apply bind_Some in H as ([nx u2] & Hstep & H). injection H as <- <-.
    apply (tok_seal u t (Running (RunForward pc)) pc nx u2
      (λ n, Running (match n with Some pc => RunForward pc | None => RunForwardTerminal end))); done.
  - injection H as <- <-. apply (tok_same u); try done. by apply Ht.
  - apply bind_Some in H as ([pc k] & Hnext & H). injection H as <- <-. unfold next_command in Hnext.
    destruct (pending_ (controller u)) as [| c l] eqn:El.
    { destruct (terminal_detach_requested_ _); [| done]. simplify_eq. apply (tok_same u); try done. by apply Ht. }
    injection Hnext as <- <-.
    assert (sealed_ (controller u) = false) as Hns.
    { destruct (sealed_ (controller u)) eqn:Hs; [| done]. destruct (ss_sealed _ Hsh Hs) as (_ & _ & ? & _). congruence. }
    assert (inflight_ (controller u) = None) as Hni by (destruct Hrun as [? | [? _]]; [done | congruence]).
    assert (promises (controller u) !! completion c = None) as Hun.
    { pose proof (tokens_NoDup _ Hok) as Hnd. unfold tokens, ctl_tokens in Hnd. rewrite El in Hnd.
      apply list.NoDup_app in Hnd as (_ & _ & Hnd). rewrite fmap_cons in Hnd. simpl in Hnd.
      apply list.NoDup_cons in Hnd as [Hnd _]. rewrite !elem_of_app, elem_of_elements, elem_of_dom in Hnd.
      apply eq_None_not_Some. naive_solver. }
    apply (tok_step u); try done.
    + rewrite Hown. unfold ctl_tokens, inflight_token. simpl. rewrite Hni, El, Hun. simpl. by rewrite Permutation_middle.
    + simpl. intros c0 [= <-] _. done.
  - destruct (retirement_mutex_free (world u)); [| done]. cbn [negb] in H.
    destruct (detach_terminal_snapshot heap now (world u)). injection H as <- <-. apply (tok_same u); try done. by apply Ht.
  - apply bind_Some in H as ([nx u2] & Hstep & H). injection H as <- <-.
    destruct (apply_step_ok _ _ _ _ _ _ Hinv Hrun Hstep) as (_ & _ & Hfr).
    destruct Hfr as (Ec & En & Ep & _ & Er & _ & _ & _ & _ & _ & _ & Ei).
    apply (tok_same u); try done; [by apply Ht | by destruct nx].
  - assert (∃ c, inflight_ (controller u) = Some c) as [c Hc] by (destruct r; naive_solver). rewrite Hc in H.
    pose proof (tk_unset _ Hok c Hc (no_other_reset w0 u t _ Hctl Hpc ltac:(done))) as Hun.
    assert (∀ r', tok_ok (set_call t (Running RunReset) (set_controller (complete (completion c) r' (controller u)) u))) as Hreset.
    { intros r'. apply (tok_step u); try done.
      - simpl. by rewrite Hown, (ctl_tokens_inflight c r' _ Hc Hun).
      - intros c0 _ Hno. destruct (Hno t). simpl. by rewrite lookup_insert, decide_True. }
    destruct r as [v | e]; [injection H as <- <-; apply Hreset |].
    case_bool_decide; injection H as <- <-; [| apply Hreset]. apply (tok_same u); try done. by apply Ht.
  - injection H as <- <-. destruct Hrun as (c & Hc & Hset). apply (tok_step u); try done.
    rewrite Hown. unfold ctl_tokens, inflight_token. simpl. rewrite Hc.
    destruct (promises (controller u) !! completion c); done.
  - apply bind_Some in H as ([nx u2] & Hstep & H). injection H as <- <-. by eapply tok_finish.
Qed.

Lemma tok_successor w0 u t pc next u1 :
  tok_ok u → ctl_ok w0 u → calls u !! t = Some (Succeeding pc) →
  successor_step pc u = Some (next, u1) →
  tok_ok (set_call t (match next with inl pc => Succeeding pc | inr r => Returned (SuccessorResult r) end) u1).
Proof.
  intros Hok Hctl Hpc H. pose proof (co_successor _ _ Hctl _ _ Hpc) as Hsu.
  assert (calls u !! t ≠ Some (Running RunReset)) as Ht by congruence.
  assert (owned_by t u = call_owned (Succeeding pc)) as Hown by (unfold owned_by; by rewrite Hpc).
  destruct pc as [| c | v | v | c v]; cbn [successor_step] in H; simpl in Hsu; [| done | | |].
  - unfold successor_locked in H. destruct (runner_active_ (controller u)) eqn:Hact.
    { injection H as <- <-. by apply (tok_same u). }
    assert (∀ t' pc', calls u !! t' ≠ Some (Running pc')) as Hno.
    { intros t' pc' H'. apply (co_active _ _ Hctl) in H'. congruence. }
    destruct (co_parked _ _ Hctl Hno) as [Hn | (Hse & c & Hc & Hph & v & Hv)]; unfold reconcile_inflight_after_writer_exit in H.
    + rewrite Hn, Hn in H. injection H as <- <-. by apply (tok_same u).
    + rewrite Hc, Hph, Hc, Hph, Hv in H. injection H as <- <-. by apply (tok_same u).
  - destruct (retirement_mutex_free (world u)); [| done]. cbn [negb] in H. apply bind_Some in H as (r & Hwait & H).
    injection H as <- <-. apply (tok_same u); try done. by destruct r.
  - unfold successor_relocked in H. destruct (inflight_ (controller u)) as [c |] eqn:Hi;
      [| injection H as <- <-; by apply (tok_same u)].
    destruct (_ && _); injection H as <- <-; [| by apply (tok_same u)].
    destruct Hsu as (_ & Hnap & _).
    assert (promises (controller u) !! completion c = None) as Hun.
    { apply (tk_unset _ Hok); [done |]. intros t' Ht'. by specialize (Hnap _ _ Ht'). }
    apply (tok_step u); try done. rewrite Hown. unfold ctl_tokens, inflight_token. simpl. rewrite Hi, Hun. simpl.
    by rewrite Permutation_middle.
  - injection H as <- <-. by apply (tok_complete u t _ _ _ []); rewrite ?Hown.
Qed.

Lemma tok_call w0 u t c now b c' u1 :
  tok_ok u → inv heap (world u) → ctl_ok w0 u → calls u !! t = Some c →
  call_step heap c now b u = Some (c', u1) → tok_ok (set_call t c' u1).
Proof.
  intros Hok Hinv Hctl Hpc H.
  assert (owned_by t u = call_owned c) as Hown by (unfold owned_by; by rewrite Hpc).
  assert (is_running c = false → calls u !! t ≠ Some (Running RunReset)) as Ht by (rewrite Hpc; intros Hr [= ->]; done).
  destruct c as [c | c e | pc | pc tm | | pc | [pc |] | | r]; cbn [call_step] in H.
  - unfold submit_locked in H. specialize (Ht eq_refl).
    destruct (sealed_ _); [injection H as <- <-; by apply (tok_same u) |].
    destruct (_ <=? _)%nat; [injection H as <- <-; by apply (tok_same u) |].
    destruct (exceeds _ _ _); [injection H as <- <-; by apply (tok_same u) |]. injection H as <- <-.
    apply (tok_step u); try done.
    + rewrite Hown. unfold ctl_tokens, inflight_token. simpl. rewrite fmap_app, <- app_assoc. simpl. by rewrite Permutation_middle.
    + intros c0 Hc0 Hno. exact (unset_keep u u t _ c0 Hok eq_refl Ht Hno Hc0).
  - injection H as <- <-. specialize (Ht eq_refl). by apply (tok_complete u t _ _ _ []); rewrite ?Hown.
  - by eapply tok_run.
  - apply bind_Some in H as ([nx u2] & Hstep & H). injection H as <- <-.
    apply (tok_seal u t (Sealing pc tm) pc nx u2
      (λ n, match n with Some pc => Sealing pc tm | None => if tm then TerminalLocked else Returned SealReturned end)); try done.
    by destruct tm.
  - injection H as <- <-. apply (tok_same u); try done. by apply Ht.
  - apply bind_Some in H as ([nx u2] & Hstep & H). injection H as <- <-. by eapply tok_successor.
  - apply bind_Some in H as ([nx u2] & Hstep & H). injection H as <- <-.
    by apply (tok_seal u t (Update.Destroying (Some pc)) pc nx u2
      (λ n, match n with Some pc => Update.Destroying (Some pc) | None => DestroyTerminal end)).
  - destruct (runner_active_ (controller u)); [done |]. injection H as <- <-. apply (tok_same u); try done. by apply Ht.
  - injection H as <- <-. apply (tok_same u); try done. by apply Ht.
  - done.
Qed.

Lemma idle_owned t u : idle t u = true → owned_by t u = [] ∧ calls u !! t ≠ Some (Running RunReset).
Proof. unfold idle, owned_by. destruct (calls u !! t) as [[] |]; naive_solver. Qed.

(** A new promise is a promise nobody has. *)
Lemma fresh_promise u : tok_ok u → promises (controller u) !! next_promise u = None ∧
  ∀ c, inflight_ (controller u) = Some c → completion c ≠ next_promise u.
Proof.
  intros [Hp _]. assert (next_promise u ∉ tokens u) as Hn by (rewrite Hp, elem_of_seq; lia).
  unfold tokens, ctl_tokens in Hn. rewrite !elem_of_app, elem_of_elements, elem_of_dom in Hn.
  assert (promises (controller u) !! next_promise u = None) as Hs by (apply eq_None_not_Some; naive_solver).
  split; [done |]. intros c Hc He. apply Hn. right. right. left. unfold inflight_token. rewrite Hc, He, Hs. by left.
Qed.

Lemma tok_submit u t rs u' : tok_ok u → idle t u = true → submit_begin t rs u = Some u' → tok_ok u'.
Proof.
  intros Hok Hidle H. destruct (idle_owned _ _ Hidle) as [Hown Ht]. destruct (fresh_promise u Hok) as [Hf Hfi].
  unfold submit_begin in H. cbn [controller] in H. destruct (validate_filter_rule_set _ _) as [m | e |]; simplify_eq.
  - split; [| intros c Hc Hno; exact (unset_keep u u t _ c Hok eq_refl Ht Hno Hc)]. destruct Hok as [Hp Hu].
    unfold tokens. cbn [next_promise calls controller set_call]. rewrite calls_owned_insert, seq_S, <- Hp. simpl. unfold tokens.
    rewrite (calls_owned_at t u), Hown. simpl. by rewrite <- (Permutation_cons_append (_ ++ _)).
  - split.
    + unfold tokens. cbn [next_promise calls controller set_call set_controller].
      rewrite calls_owned_insert, (ctl_tokens_complete _ _ _ Hf Hfi), seq_S, <- (tk_perm _ Hok).
      unfold tokens. rewrite (calls_owned_at t u), Hown. simpl. rewrite <- Permutation_middle.
      by rewrite <- (Permutation_cons_append (_ ++ _)).
    + simpl. intros c. rewrite (proj1 (proj2 (proj2 (complete_fields _ _ _)))), (complete_unset _ _ _ Hf).
      intros Hc Hno. rewrite lookup_insert_ne by (apply not_eq_sym; by apply Hfi).
      exact (unset_keep u u t _ c Hok eq_refl Ht Hno Hc).
Qed.

Lemma tok_act w0 a u u' : tok_ok u → inv heap (world u) → ctl_ok w0 u → update_act a u = Some u' → tok_ok u'.
Proof.
  intros Hok Hinv Hctl H.
  destruct a as [t rs | t stopped | t | t | t | t | | t now b | a]; cbn [Update.update_act] in H;
    try (destruct (idle t u) eqn:Hidle; [| done]; destruct (idle_owned _ _ Hidle) as [Hown Ht]).
  - by eapply tok_submit.
  - injection H as <-. unfold run_begin. destruct (runner_active_ _); apply (tok_same u); try done; by destruct stopped.
  - injection H as <-. by apply (tok_same u).
  - injection H as <-. by apply (tok_same u).
  - injection H as <-. by apply (tok_same u).
  - injection H as <-. by apply (tok_same u).
  - injection H as <-. by destruct Hok as [Hp Hu]; split.
  - apply bind_Some in H as (c & Hc & H). apply bind_Some in H as ([c' u1] & Hstep & H). injection H as <-.
    by eapply tok_call.
  - destruct (environment_action a) eqn:He; [| done]. apply bind_Some in H as (w & Hact & H). injection H as <-.
    by destruct Hok as [Hp Hu]; split.
Qed.

(** ** What was published

    Every version in the commit log is accounted for: it is the value of a set promise, the
    command in flight that is committed, or in the hands of a successor. *)
Definition call_committed (c : Call) : list (nat * FilterVersion) :=
  match c with Succeeding (SuccessorCompleting c v) => [(completion c, v)] | _ => [] end.

Definition calls_committed (m : gmap nat Call) : list (nat * FilterVersion) :=
  concat ((λ kv, call_committed kv.2) <$> map_to_list m).

Definition inflight_committed (k : Controller) : list (nat * FilterVersion) :=
  match inflight_ k with
  | Some c =>
      match promises k !! completion c, phase c, published c with
      | None, Committed, Some v => [(completion c, v)]
      | _, _, _ => []
      end
  | None => []
  end.

Definition success (kv : nat * FilterUpdateResult) : option (nat * FilterVersion) :=
  match kv.2 with inl v => Some (kv.1, v) | inr _ => None end.

Definition promises_committed (m : gmap nat FilterUpdateResult) : list (nat * FilterVersion) :=
  omap success (map_to_list m).

Definition ctl_committed (k : Controller) : list (nat * FilterVersion) :=
  inflight_committed k ++ promises_committed (promises k).

Definition committed_all (u : UpdateWorld) : list (nat * FilterVersion) :=
  calls_committed (calls u) ++ ctl_committed (controller u).

Record log_ok (g0 : Z) (u : UpdateWorld) : Prop := {
  lg_perm : committed_all u ≡ₚ commit_log u;
  lg_converged id v : promises (controller u) !! id = Some (inl v) → converged v (world u);
  lg_generations : (version_generation ∘ snd) <$> commit_log u = seqZ (g0 + 1) (Z.of_nat (length (commit_log u)));
  lg_current : current_generation (world u) = g0 + Z.of_nat (length (commit_log u));
}.

Lemma calls_committed_insert m t c :
  calls_committed (<[t := c]> m) ≡ₚ call_committed c ++ calls_committed (delete t m).
Proof.
  unfold calls_committed. rewrite <- insert_delete_eq.
  rewrite (concat_perm _ ((λ kv, call_committed kv.2) <$> ((t, c) :: map_to_list (delete t m)))); [done |].
  apply fmap_Permutation, map_to_list_insert, lookup_delete_eq.
Qed.

Definition committed_by (t : nat) (u : UpdateWorld) : list (nat * FilterVersion) :=
  match calls u !! t with Some c => call_committed c | None => [] end.

Lemma calls_committed_at t u : calls_committed (calls u) ≡ₚ committed_by t u ++ calls_committed (delete t (calls u)).
Proof.
  unfold committed_by. destruct (calls u !! t) eqn:Hc; [| by rewrite delete_id].
  rewrite <- calls_committed_insert. by rewrite insert_id.
Qed.

Definition keeps_truth (u u1 : UpdateWorld) : Prop :=
  ∀ id v, promises (controller u1) !! id = Some (inl v) → promises (controller u) !! id = Some (inl v) ∨ converged v (world u1).

(** A step of thread [t] that appends [new] to the log. *)
Lemma log_step g0 u u1 t c' new :
  log_ok g0 u → calls u1 = calls u → commit_log u1 = commit_log u ++ new →
  committed_by t u ++ ctl_committed (controller u) ++ new ≡ₚ call_committed c' ++ ctl_committed (controller u1) →
  pub_le (world u) (world u1) → keeps_truth u u1 →
  current_generation (world u1) = current_generation (world u) + Z.of_nat (length new) →
  (version_generation ∘ snd) <$> new = seqZ (current_generation (world u) + 1) (Z.of_nat (length new)) →
  log_ok g0 (set_call t c' u1).
Proof.
  intros [Hp Hc Hg Hn] Ec El Hloc Hle Hk Hcur Hnew. split; cbn [calls controller world commit_log set_call].
  - unfold committed_all. cbn [calls controller set_call]. rewrite Ec, El, calls_committed_insert, <- Hp. unfold committed_all.
    rewrite (calls_committed_at t u), <- !app_assoc.
    rewrite (Permutation_app_comm (calls_committed _) (ctl_committed (controller u1))), app_assoc, <- Hloc.
    rewrite <- !app_assoc. apply Permutation_app_head. rewrite (app_assoc (ctl_committed _) new). apply Permutation_app_comm.
  - intros id v Hv. destruct (Hk id v Hv) as [H | H]; [| done]. eapply converged_le; [done | by eapply Hc].
  - rewrite El, fmap_app, length_app, Nat2Z.inj_add, seqZ_app, <- Hg, Hnew, Hn by lia. do 2 f_equal. lia.
  - rewrite El, length_app. lia.
Qed.

(** A step that publishes nothing. *)
Lemma log_quiet g0 u u1 t c' :
  log_ok g0 u → calls u1 = calls u → commit_log u1 = commit_log u →
  committed_by t u ++ ctl_committed (controller u) ≡ₚ call_committed c' ++ ctl_committed (controller u1) →
  pub_le (world u) (world u1) → keeps_truth u u1 → current_generation (world u1) = current_generation (world u) →
  log_ok g0 (set_call t c' u1).
Proof.
  intros Hok Ec El Hloc Hle Hk Hcur. apply (log_step g0 u u1 t c' []); try done; rewrite ?app_nil_r; try done. simpl. lia.
Qed.

(** A step that sets no promise and leaves the command in flight as committed as it was. *)
Lemma log_same g0 u u1 t c' :
  log_ok g0 u → calls u1 = calls u → commit_log u1 = commit_log u → committed_by t u = call_committed c' →
  inflight_committed (controller u1) = inflight_committed (controller u) → promises (controller u1) = promises (controller u) →
  pub_le (world u) (world u1) → current_generation (world u1) = current_generation (world u) →
  log_ok g0 (set_call t c' u1).
Proof.
  intros Hok Ec El Ho Ei Ep Hle Hcur. apply (log_quiet g0 u); try done.
  - unfold ctl_committed. by rewrite Ho, Ei, Ep.
  - intros id v. rewrite Ep. by left.
Qed.

(** Setting a promise that is held by a call. *)
Lemma ctl_committed_complete id r k :
  promises k !! id = None → (∀ c, inflight_ k = Some c → completion c ≠ id) →
  ctl_committed (complete id r k) ≡ₚ match r with inl v => [(id, v)] | inr _ => [] end ++ ctl_committed k.
Proof.
  intros Hn Hi. unfold ctl_committed, inflight_committed.
  destruct (complete_fields id r k) as (_ & _ & -> & _). rewrite (complete_unset _ _ _ Hn).
  assert (promises_committed (<[id := r]> (promises k)) ≡ₚ
          match r with inl v => [(id, v)] | inr _ => [] end ++ promises_committed (promises k)) as Hpr.
  { unfold promises_committed. rewrite map_to_list_insert by done. by destruct r. }
  destruct (inflight_ k) as [c |]; [| done]. rewrite lookup_insert_ne by (apply not_eq_sym; by apply Hi).
  by rewrite Hpr, (Permutation_app_swap_app _ (match r with inl _ => _ | _ => _ end)).
Qed.

Lemma keeps_complete id r u :
  (∀ v, r = inl v → converged v (world u)) → keeps_truth u (set_controller (complete id r (controller u)) u).
Proof.
  intros Hr id' v. simpl. unfold complete. destruct (promises (controller u) !! id); [by left |]. simpl.
  rewrite lookup_insert. case_decide; [| by left]. intros [= ->]. right. by apply Hr.
Qed.

Lemma log_complete g0 u t c' id r rest :
  log_ok g0 u → tok_ok u → owned_by t u ≡ₚ id :: rest → (∀ v, r = inl v → converged v (world u)) →
  committed_by t u = match r with inl v => [(id, v)] | inr _ => [] end → call_committed c' = [] →
  log_ok g0 (set_call t c' (set_controller (complete id r (controller u)) u)).
Proof.
  intros Hok Htok Ho Hr Hb Hc'. destruct (held_unset u t id Htok) as (Hn & _ & Hi); [rewrite Ho; by left |].
  apply (log_quiet g0 u); try done; [| by apply keeps_complete].
  cbn [controller set_controller]. by rewrite (ctl_committed_complete id r _ Hn Hi), Hc', Hb.
Qed.

Lemma log_seal g0 u t c pc next u1 (k : option SealPc → Call) :
  log_ok g0 u → tok_ok u → inv heap (world u) → seal_shared u → seal_pc_ok pc u →
  calls u !! t = Some c → call_owned c = completion <$> seal_owned pc → call_committed c = [] →
  seal_step heap pc u = Some (next, u1) → (∀ n, call_committed (k n) = []) →
  log_ok g0 (set_call t (k next) u1).
Proof.
  intros Hok Htok Hinv Hsh Hpcok Hc Ho Hcc Hstep Hk. destruct (seal_step_spec _ _ _ _ Hstep) as (He & _ & Ec & En & El).
  destruct (seal_step_quiet _ _ _ _ Hstep Hinv Hsh Hpcok) as (Hq & _ & _).
  assert (committed_by t u = []) as Hb by (unfold committed_by; by rewrite Hc).
  remember (controller u1) as k1 eqn:Ek. destruct He as [nx k' _ _ _ _ Er (_ & Ei & _) _ | k' _ _ _ _ Er (_ & Ei & _) | c0 l Epc].
  - apply (log_same g0 u); try done; rewrite <- ?Ek; try done; [by rewrite Hb, Hk | | apply Hq | apply Hq].
    unfold inflight_committed. by rewrite Ei, Er.
  - apply (log_same g0 u); try done; rewrite <- ?Ek; try done; [by rewrite Hb, Hk | | apply Hq | apply Hq].
    unfold inflight_committed. by rewrite Ei, Er.
  - assert (u1 = set_controller (complete (completion c0) (update_error ShuttingDown None) (controller u)) u) as ->.
    { subst pc. cbn [seal_step] in Hstep. by simplify_eq. }
    apply (log_complete g0 u t _ _ _ (completion <$> l)); try done.
    unfold owned_by. by rewrite Hc, Ho, Epc.
Qed.

(** A step of [apply]: it publishes, or leaves the log alone. *)
Lemma apply_step_log a now b u next u1 :
  inv heap (world u) → run_inv (RunApply a) u → apply_step heap a now b u = Some (next, u1) →
  (∀ c, inflight_ (controller u) = Some c → promises (controller u) !! completion c = None) →
  ∃ new, commit_log u1 = commit_log u ++ new ∧
    inflight_committed (controller u) ++ new = inflight_committed (controller u1) ∧
    current_generation (world u1) = current_generation (world u) + Z.of_nat (length new) ∧
    (version_generation ∘ snd) <$> new = seqZ (current_generation (world u) + 1) (Z.of_nat (length new)).
Proof.
  intros Hinv (c & Ec & Ha) H Hun. specialize (Hun c Ec).
  assert (∀ u', commit_log u' = commit_log u → current_generation (world u') = current_generation (world u) →
    inflight_committed (controller u') = inflight_committed (controller u) →
    ∃ new, commit_log u' = commit_log u ++ new ∧
      inflight_committed (controller u) ++ new = inflight_committed (controller u') ∧
      current_generation (world u') = current_generation (world u) + Z.of_nat (length new) ∧
      (version_generation ∘ snd) <$> new = seqZ (current_generation (world u) + 1) (Z.of_nat (length new))) as Hnil.
  { intros u' -> -> ->. exists []. rewrite !app_nil_r. simpl. split_and!; try done. lia. }
  destruct a as [| | cur | nx | s | s | v | v | cand after | after]; cbn [apply_step] in H; simpl in Ha.
  - injection H as <- <-. by apply Hnil.
  - injection H as <- <-. by apply Hnil.
  - destruct (retirement_mutex_free (world u)) eqn:Hm; [| done]. cbn [negb] in H.
    apply bind_Some in H as ([acq w] & Hacq & H). injection H as <- <-. apply Hnil; try done. simpl.
    unfold acquire_retirement_credit in Hacq. repeat case_match; by simplify_eq.
  - destruct b as [| e | | s]; try (injection H as <- <-; by apply Hnil).
    apply bind_Some in H as (w & Hact & H). injection H as <- <-. apply Hnil; try done. simpl in *.
    unfold guarded in Hact. case_match; by simplify_eq.
  - destruct (build_stop_requested _); injection H as <- <-; [by apply Hnil |]. apply Hnil; try done.
    unfold inflight_committed. simpl. rewrite Ec. simpl. destruct Ha as [-> _]. by rewrite Hun.
  - destruct Ha as (Hp & Hgen & (Hcr & Hpe & Hmax) & Hin). destruct (retirement_mutex_free (world u)) eqn:Hm; [| done]. cbn [negb] in H.
    destruct (commit_cases heap s now (drop_candidate s (world u))) as [[e Heq] | (v & n & w & Heq & Hc)]; rewrite Heq in H;
      injection H as <- <-.
    + apply Hnil; try done. unfold inflight_committed. simpl. rewrite Ec. simpl. by rewrite Hp, Hun.
    + exists [(completion c, v)]. simpl. rewrite Ec. split_and!; try done.
      * unfold inflight_committed. simpl. rewrite Ec. simpl. by rewrite Hun, Hp.
      * pose proof (cm_version _ _ _ _ _ Hc) as Hv. injection Hv as Hv _. exact Hv.
      * assert (version_generation v = current_generation (world u) + 1) as ->.
        { unfold commit in Heq. repeat case_match; by simplify_eq. }
        rewrite (seqZ_cons _ 1) by lia. done.
  - destruct (fail_after_commit_for_testing_ _); injection H as <- <-; by apply Hnil.
  - destruct (retirement_mutex_free (world u)) eqn:Hm; [| done]. cbn [negb] in H.
    apply bind_Some in H as (r & Hwait & H). injection H as <- <-. by apply Hnil.
  - destruct (retirement_mutex_free (world u)) eqn:Hm; [| done]. cbn [negb] in H. injection H as <- <-. apply Hnil; try done.
    simpl. unfold release_uncommitted_credit. repeat case_match; done.
  - injection H as <- <-. by apply Hnil.
Qed.

Lemma log_run w0 g0 u t pc now b c' u1 :
  log_ok g0 u → tok_ok u → inv heap (world u) → ctl_ok w0 u → calls u !! t = Some (Running pc) →
  run_step heap pc now b u = Some (c', u1) → log_ok g0 (set_call t c' u1).
Proof.
  intros Hok Htok Hinv Hctl Hpc H. pose proof (co_run _ _ Hctl _ _ Hpc) as Hrun.
  pose proof (seal_ok_shared _ (co_seal _ _ Hctl)) as Hsh. pose proof (so_calls _ (co_seal _ _ Hctl) _ _ Hpc) as Hcall.
  assert (committed_by t u = []) as Hb by (unfold committed_by; by rewrite Hpc).
  pose proof (pub_le_refl (world u)) as Hle.
  destruct pc as [pc | | | | a | r | | result pc]; cbn [run_step] in H; simpl in Hcall.
  - apply bind_Some in H as ([nx u2] & Hstep & H). injection H as <- <-.
    apply (log_seal g0 u t (Running (RunForward pc)) pc nx u2
      (λ n, Running (match n with Some pc => RunForward pc | None => RunForwardTerminal end))); done.
  - injection H as <- <-. by apply (log_same g0 u).
  - apply bind_Some in H as ([pc k] & Hnext & H). injection H as <- <-. unfold next_command in Hnext.
    destruct (pending_ (controller u)) as [| c l] eqn:El.
    { destruct (terminal_detach_requested_ _); [| done]. injection Hnext as <- <-. by apply (log_same g0 u). }
    injection Hnext as <- <-.
    assert (inflight_ (controller u) = None) as Hni.
    { destruct Hrun as [? | [Hs _]]; [done |]. destruct (ss_sealed _ Hsh Hs) as (_ & _ & ? & _). congruence. }
    apply (log_same g0 u); try done. unfold inflight_committed. simpl. rewrite Hni. by case_match.
  - destruct (retirement_mutex_free (world u)) eqn:Hm; [| done]. cbn [negb] in H.
    destruct (ss_sealed _ Hsh (ss_terminal _ Hsh Hcall)) as (_ & Hp & _).
    pose proof (detach_step now _ Hm Hp) as Hact. destruct (act_le _ _ _ Hinv Hact) as [Hle' Hsame].
    destruct (detach_terminal_snapshot heap now (world u)). injection H as <- <-.
    apply (log_same g0 u); try done. by apply Hsame.
  - apply bind_Some in H as ([nx u2] & Hstep & H). injection H as <- <-.
    pose proof (no_other_reset w0 u t _ Hctl Hpc ltac:(done)) as Hno.
    destruct (apply_step_log _ _ _ _ _ _ Hinv Hrun Hstep) as (new & El & Ei & Eg & Egs).
    { intros c Hc. by apply (tk_unset _ Htok). }
    destruct (apply_step_ok _ _ _ _ _ _ Hinv Hrun Hstep) as (_ & Hr & Ec & _ & _ & _ & Er & _).
    apply (log_step g0 u _ _ _ new); try done; [| by apply (reachable_le _ _ Hinv Hr) | by intros id v; rewrite Er; left].
    rewrite Hb. unfold ctl_committed. simpl. rewrite Er, <- Ei, <- !app_assoc.
    by rewrite (Permutation_app_comm (promises_committed _)).
  - assert (∃ c, inflight_ (controller u) = Some c) as [c Hc] by (destruct r; naive_solver). rewrite Hc in H.
    pose proof (tk_unset _ Htok c Hc (no_other_reset w0 u t _ Hctl Hpc ltac:(done))) as Hun.
    assert (∀ r', inflight_committed (controller u) = match r' with inl v => [(completion c, v)] | inr _ => [] end →
      (∀ v, r' = inl v → converged v (world u)) →
      log_ok g0 (set_call t (Running RunReset) (set_controller (complete (completion c) r' (controller u)) u))) as Hreset.
    { intros r' Ei Hr'. apply (log_quiet g0 u); try done; [| by apply keeps_complete]. rewrite Hb. unfold ctl_committed.
      rewrite Ei. unfold inflight_committed. cbn [controller set_controller].
      rewrite (proj1 (proj2 (proj2 (complete_fields _ _ _)))), (complete_unset _ _ _ Hun), Hc, lookup_insert, decide_True by done.
      unfold promises_committed. simpl. rewrite map_to_list_insert by done. by destruct r'. }
    destruct r as [v | e].
    + injection H as <- <-. destruct Hrun as (c0 & Hc0 & Hph & Hpu & Hcv). assert (c0 = c) as -> by congruence.
      apply Hreset; [| by intros v0 [= <-]]. unfold inflight_committed. by rewrite Hc, Hun, Hph, Hpu.
    + case_bool_decide as Hph; injection H as <- <-; [by apply (log_same g0 u) |].
      apply Hreset; [| done]. unfold inflight_committed. rewrite Hc, Hun. by destruct (phase c).
  - injection H as <- <-. destruct Hrun as (c & Hc & Hset). apply (log_same g0 u); try done.
    unfold inflight_committed. simpl. rewrite Hc. by destruct (promises (controller u) !! completion c).
  - apply bind_Some in H as ([nx u2] & Hstep & H). injection H as <- <-.
    destruct pc as [pc | | [| c l] |]; cbn [finish_step] in Hstep; simpl in Hcall.
    + apply bind_Some in Hstep as ([n u3] & Hstep & H). injection H as <- <-.
      apply (log_seal g0 u t (Running (RunFinish result (FinishSeal pc))) pc n u3
        (λ n, Running (RunFinish result (match n with Some pc => FinishSeal pc | None => FinishCancelLocked end)))); done.
    + injection Hstep as <- <-. by apply (log_same g0 u).
    + injection Hstep as <- <-. by apply (log_same g0 u).
    + injection Hstep as <- <-. apply (log_complete g0 u t _ _ _ (completion <$> l)); try done.
      unfold owned_by. by rewrite Hpc.
    + injection Hstep as <- <-. rewrite (finish_locked_rest u Hrun). by apply (log_same g0 u).
Qed.

Lemma log_successor w0 g0 u t pc next u1 :
  log_ok g0 u → tok_ok u → ctl_ok w0 u → calls u !! t = Some (Succeeding pc) →
  successor_step pc u = Some (next, u1) →
  log_ok g0 (set_call t (match next with inl pc => Succeeding pc | inr r => Returned (SuccessorResult r) end) u1).
Proof.
  intros Hok Htok Hctl Hpc H. pose proof (co_successor _ _ Hctl _ _ Hpc) as Hsu. pose proof (pub_le_refl (world u)) as Hle.
  assert (owned_by t u = call_owned (Succeeding pc)) as Hown by (unfold owned_by; by rewrite Hpc).
  assert (committed_by t u = call_committed (Succeeding pc)) as Hb by (unfold committed_by; by rewrite Hpc).
  destruct pc as [| c | v | v | c v]; cbn [successor_step] in H; simpl in Hsu; [| done | | |].
  - unfold successor_locked in H. destruct (runner_active_ (controller u)) eqn:Hact.
    { injection H as <- <-. by apply (log_same g0 u). }
    assert (∀ t' pc', calls u !! t' ≠ Some (Running pc')) as Hno.
    { intros t' pc' H'. apply (co_active _ _ Hctl) in H'. congruence. }
    destruct (co_parked _ _ Hctl Hno) as [Hn | (Hse & c & Hc & Hph & v & Hv)]; unfold reconcile_inflight_after_writer_exit in H.
    + rewrite Hn, Hn in H. injection H as <- <-. by apply (log_same g0 u).
    + rewrite Hc, Hph, Hc, Hph, Hv in H. injection H as <- <-. by apply (log_same g0 u).
  - destruct (retirement_mutex_free (world u)); [| done]. cbn [negb] in H. apply bind_Some in H as (r & Hwait & H).
    injection H as <- <-. apply (log_same g0 u); try done. by destruct r.
  - unfold successor_relocked in H. destruct (inflight_ (controller u)) as [c |] eqn:Hi;
      [| injection H as <- <-; by apply (log_same g0 u)].
    destruct (_ && _) eqn:Hm; injection H as <- <-; [| by apply (log_same g0 u)].
    apply andb_true_iff in Hm as [Hph%bool_decide_eq_true Hpu%bool_decide_eq_true]. destruct Hsu as (_ & Hnap & _).
    assert (promises (controller u) !! completion c = None) as Hun.
    { apply (tk_unset _ Htok); [done |]. intros t' Ht'. by specialize (Hnap _ _ Ht'). }
    apply (log_quiet g0 u); try done; [| by left]. rewrite Hb. unfold ctl_committed, inflight_committed. simpl.
    by rewrite Hi, Hun, Hph, Hpu.
  - injection H as <- <-. apply (log_complete g0 u t _ _ _ []); rewrite ?Hown, ?Hb; try done. by intros v0 [= <-].
Qed.

Lemma log_call w0 g0 u t c now b c' u1 :
  log_ok g0 u → tok_ok u → inv heap (world u) → ctl_ok w0 u → calls u !! t = Some c →
  call_step heap c now b u = Some (c', u1) → log_ok g0 (set_call t c' u1).
Proof.
  intros Hok Htok Hinv Hctl Hpc H. pose proof (pub_le_refl (world u)) as Hle.
  pose proof (seal_ok_shared _ (co_seal _ _ Hctl)) as Hsh. pose proof (so_calls _ (co_seal _ _ Hctl) _ _ Hpc) as Hcall.
  assert (owned_by t u = call_owned c) as Hown by (unfold owned_by; by rewrite Hpc).
  assert (committed_by t u = call_committed c) as Hb by (unfold committed_by; by rewrite Hpc).
  destruct c as [c | c e | pc | pc tm | | pc | [pc |] | | r]; cbn [call_step] in H; simpl in Hcall.
  - unfold submit_locked in H.
    destruct (sealed_ _); [injection H as <- <-; by apply (log_same g0 u) |].
    destruct (_ <=? _)%nat; [injection H as <- <-; by apply (log_same g0 u) |].
    destruct (exceeds _ _ _); injection H as <- <-; by apply (log_same g0 u).
  - injection H as <- <-. by apply (log_complete g0 u t _ _ _ []); rewrite ?Hown.
  - by eapply log_run.
  - apply bind_Some in H as ([nx u2] & Hstep & H). injection H as <- <-.
    apply (log_seal g0 u t (Sealing pc tm) pc nx u2
      (λ n, match n with Some pc => Sealing pc tm | None => if tm then TerminalLocked else Returned SealReturned end)); try done.
    intros []; [done |]. by destruct tm.
  - injection H as <- <-. by apply (log_same g0 u).
  - apply bind_Some in H as ([nx u2] & Hstep & H). injection H as <- <-. by eapply log_successor.
  - apply bind_Some in H as ([nx u2] & Hstep & H). injection H as <- <-.
    apply (log_seal g0 u t (Update.Destroying (Some pc)) pc nx u2
      (λ n, match n with Some pc => Update.Destroying (Some pc) | None => DestroyTerminal end)); try done. by intros [].
  - destruct (runner_active_ (controller u)); [done |]. injection H as <- <-. by apply (log_same g0 u).
  - injection H as <- <-. by apply (log_same g0 u).
  - done.
Qed.

Lemma idle_committed t u : idle t u = true → committed_by t u = [].
Proof. unfold idle, committed_by. by destruct (calls u !! t) as [[] |]. Qed.

Lemma log_world g0 u w :
  log_ok g0 u → pub_le (world u) w → pub_same (world u) w → log_ok g0 (set_world w u).
Proof.
  intros [Hp Hc Hg Hn] Hle Hs. split; try done; [| transitivity (current_generation (world u)); [apply Hs | exact Hn]].
  intros id v Hv. eapply converged_le; [done | by eapply Hc].
Qed.

Lemma log_act w0 g0 a u u' :
  log_ok g0 u → tok_ok u → inv heap (world u) → ctl_ok w0 u → update_act a u = Some u' → log_ok g0 u'.
Proof.
  intros Hok Htok Hinv Hctl H. pose proof (pub_le_refl (world u)) as Hle.
  destruct a as [t rs | t stopped | t | t | t | t | | t now b | a]; cbn [Update.update_act] in H;
    try (destruct (idle t u) eqn:Hidle; [| done]; pose proof (idle_committed _ _ Hidle) as Hb).
  - destruct (fresh_promise u Htok) as [Hf Hfi]. unfold submit_begin in H. cbn [controller] in H.
    destruct (validate_filter_rule_set _ _) as [m | e |]; [| | done]; injection H as <-.
    + by apply (log_same g0 u (mkUpdateWorld (controller u) (world u) (calls u) (S (next_promise u)) (commit_log u))).
    + apply (log_quiet g0 u (set_controller (complete (next_promise u) (inr e) (controller u))
        (mkUpdateWorld (controller u) (world u) (calls u) (S (next_promise u)) (commit_log u)))); try done.
      * cbn [controller set_controller]. by rewrite Hb, (ctl_committed_complete _ _ _ Hf Hfi).
      * by apply (keeps_complete (next_promise u) (inr e) u).
  - injection H as <-. unfold run_begin. destruct (runner_active_ _); by apply (log_same g0 u).
  - injection H as <-. by apply (log_same g0 u).
  - injection H as <-. by apply (log_same g0 u).
  - injection H as <-. by apply (log_same g0 u).
  - injection H as <-. by apply (log_same g0 u).
  - injection H as <-. by destruct Hok as [Hp Hc Hg Hn]; split.
  - apply bind_Some in H as (c & Hc & H). apply bind_Some in H as ([c' u1] & Hstep & H). injection H as <-.
    by eapply log_call.
  - destruct (environment_action a) eqn:He; [| done]. apply bind_Some in H as (w & Hact & H). injection H as <-.
    destruct (act_le _ _ _ Hinv Hact) as [Hle' Hsame]. apply log_world; auto.
Qed.

(** A published command is listed once, and its promise is not an error. *)
Lemma committed_tokens u : (committed_all u).*1 ⊆+ tokens u.
Proof.
  unfold committed_all, tokens, ctl_committed, ctl_tokens. rewrite !fmap_app. apply submseteq_app.
  - unfold calls_committed, calls_owned. induction (map_to_list (calls u)) as [| [t c] l IH]; [done |].
    rewrite !fmap_cons. simpl. rewrite fmap_app. apply submseteq_app; [| done].
    destruct c as [| | | | | [] | | |]; try apply submseteq_nil_l; done.
  - apply submseteq_inserts_l, submseteq_app.
    + unfold inflight_committed, inflight_token. repeat case_match; try apply submseteq_nil_l; done.
    + apply NoDup_submseteq.
      * apply (sublist_NoDup _ (map_to_list (promises (controller u))).*1); [apply NoDup_fst_map_to_list |].
        unfold promises_committed. induction (map_to_list (promises (controller u))) as [| [id r] l IH]; [done |].
        destruct r as [v | e]; simpl; [by apply sublist_skip | by apply sublist_cons].
      * intros id. rewrite elem_of_elements, elem_of_dom, list_elem_of_fmap.
        intros ([id' v] & -> & Hin). unfold promises_committed in Hin. apply list_elem_of_omap in Hin as ([i r] & Hin & Hr).
        apply elem_of_map_to_list in Hin. destruct r as [v' | e]; unfold success in Hr; simpl in Hr; simplify_eq. by eexists.
Qed.

(** ** The queue *)
Definition sum_of {A} (f : A → Z) (l : list A) : Z := foldr (λ x n, f x + n) 0 l.
Definition total_bytes (rules : list (list byte)) : Z := sum_of (λ r, Z.of_nat (length r)) rules.
Definition canonical_bytes (rule : list byte) : Z :=
  match from_text rule with Val n => Z.of_nat (length (canonical_key_ n)) | _ => 0 end.
Definition queue_bytes (l : list Command) : Z := sum_of accounted_bytes l.

Lemma sum_of_nonneg {A} (f : A → Z) l : Forall (λ x, 0 ≤ f x) l → 0 ≤ sum_of f l.
Proof. induction 1; simpl; unfold sum_of in *; simpl; lia. Qed.

Lemma sum_of_app {A} (f : A → Z) l l' : sum_of f (l ++ l') = sum_of f l + sum_of f l'.
Proof. induction l as [| x l IH]; [done |]. unfold sum_of in *. simpl. lia. Qed.

Lemma canonical_bytes_nonneg r : 0 ≤ canonical_bytes r.
Proof. unfold canonical_bytes. case_match; lia. Qed.

(** The limits are [size_t] values. *)
Record limits_wf (l : FilterUpdateLimits) : Prop := {
  lw_bytes : 0 ≤ maximum_normalized_rule_bytes l ≤ size_t_max;
  lw_queued : 0 ≤ maximum_queued_rule_bytes l ≤ size_t_max;
}.

Lemma exceeds_spec bytes measured limit :
  0 ≤ measured ≤ limit → exceeds bytes measured limit = false ↔ measured + bytes ≤ limit.
Proof. intros H. unfold exceeds. rewrite Z.min_l by lia. rewrite Z.ltb_ge. lia. Qed.

(** Measuring succeeds exactly within the limits, and then the counters are exact. *)
Lemma measure_rules_spec limits rules m m' :
  limits_wf limits → 0 ≤ raw_bytes m ≤ maximum_normalized_rule_bytes limits →
  0 ≤ normalized_bytes m ≤ maximum_normalized_rule_bytes limits →
  measure_rules rules limits m = Val m' ↔
  raw_bytes m + total_bytes rules ≤ maximum_normalized_rule_bytes limits ∧
  normalized_bytes m + sum_of canonical_bytes rules ≤ maximum_normalized_rule_bytes limits ∧
  m' = mkMeasurement (raw_bytes m + total_bytes rules) (normalized_bytes m + sum_of canonical_bytes rules).
Proof.
  intros [[_ Hmax] _]. revert m. unfold size_t_max in Hmax. induction rules as [| r rules IH]; intros m Hr Hn.
  - unfold total_bytes, sum_of. simpl. rewrite !Z.add_0_r. destruct m. naive_solver.
  - pose proof (sum_of_nonneg (λ r, Z.of_nat (length r)) rules) as Ht.
    rewrite list.Forall_forall in Ht. specialize (Ht ltac:(intros; lia)).
    pose proof (sum_of_nonneg canonical_bytes rules) as Hc.
    rewrite list.Forall_forall in Hc. specialize (Hc ltac:(intros; apply canonical_bytes_nonneg)).
    assert (total_bytes (r :: rules) = Z.of_nat (length r) + total_bytes rules) as -> by done.
    assert (sum_of canonical_bytes (r :: rules) = canonical_bytes r + sum_of canonical_bytes rules) as -> by done.
    cbn [measure_rules]. fold (total_bytes rules) in Ht.
    pose proof (canonical_bytes_nonneg r) as Hcr.
    destruct (exceeds (Z.of_nat (length r)) _ _) eqn:Hex.
    { split; [done |]. intros (H & _). assert (exceeds (Z.of_nat (length r)) (raw_bytes m) (maximum_normalized_rule_bytes limits) = false);
        [apply exceeds_spec; lia | congruence]. }
    apply exceeds_spec in Hex; [| done]. unfold canonical_bytes in *. cbn [raw_bytes normalized_bytes].
    assert (wrap64 (raw_bytes m + Z.of_nat (length r)) = raw_bytes m + Z.of_nat (length r)) as -> by (apply Z.mod_small; lia).
    pose proof (from_text_defined r) as Hdef. destruct (from_text r) as [n | e |]; [| | done].
    + destruct (exceeds (Z.of_nat (length (canonical_key_ n))) _ _) eqn:Hex2.
      { split; [done |]. intros (_ & H & _).
        assert (exceeds (Z.of_nat (length (canonical_key_ n))) (normalized_bytes m) (maximum_normalized_rule_bytes limits) = false);
          [apply exceeds_spec; lia | congruence]. }
      apply exceeds_spec in Hex2; [| done].
      assert (wrap64 (normalized_bytes m + Z.of_nat (length (canonical_key_ n))) = normalized_bytes m + Z.of_nat (length (canonical_key_ n))) as ->
        by (apply Z.mod_small; lia).
      rewrite IH by (simpl; lia). cbn [raw_bytes normalized_bytes]. rewrite !Z.add_assoc. done.
    + rewrite IH by (simpl; lia). cbn [raw_bytes normalized_bytes]. rewrite !Z.add_assoc, Z.add_0_r. done.
Qed.

Lemma total_bytes_nonneg rules : 0 ≤ total_bytes rules.
Proof. apply sum_of_nonneg, list.Forall_forall. intros; lia. Qed.

Lemma validate_spec limits rules m :
  limits_wf limits →
  validate_filter_rule_set rules limits = Val m ↔
  Z.of_nat (length rules) ≤ maximum_rule_count limits ∧
  total_bytes rules ≤ maximum_normalized_rule_bytes limits ∧
  sum_of canonical_bytes rules ≤ maximum_normalized_rule_bytes limits ∧
  m = mkMeasurement (total_bytes rules) (sum_of canonical_bytes rules).
Proof.
  intros Hl. unfold validate_filter_rule_set. destruct (Z.ltb_spec (maximum_rule_count limits) (Z.of_nat (length rules))).
  - split; [done | lia].
  - rewrite measure_rules_spec by (try done; simpl; pose proof (lw_bytes _ Hl); lia). simpl. naive_solver.
Qed.

(** A command that passed validation. *)
Definition command_ok (limits : FilterUpdateLimits) (c : Command) : Prop :=
  accounted_bytes c = total_bytes (rules c) ∧ total_bytes (rules c) ≤ maximum_normalized_rule_bytes limits ∧
  Z.of_nat (length (rules c)) ≤ maximum_rule_count limits.

Record queue_ctl (limits : FilterUpdateLimits) (pending : list Command) (queued : Z) : Prop := {
  qc_length : (length pending ≤ kMaximumPendingUpdates)%nat;
  qc_sum : queued = queue_bytes pending;
  qc_bound : queued ≤ maximum_queued_rule_bytes limits;
  qc_commands : Forall (command_ok limits) pending;
}.

Record queue_ok (limits : FilterUpdateLimits) (u : UpdateWorld) : Prop := {
  qo_limits : limits_ (controller u) = limits;
  qo_queue : queue_ctl limits (pending_ (controller u)) (queued_rule_bytes_ (controller u));
  qo_submitting t c : calls u !! t = Some (Submitting c) → command_ok limits c;
}.

Lemma queue_bytes_nonneg limits l : Forall (command_ok limits) l → 0 ≤ queue_bytes l.
Proof.
  intros H. apply sum_of_nonneg. eapply list.Forall_impl; [exact H |]. intros c (-> & _). apply total_bytes_nonneg.
Qed.

Lemma queue_step limits u u1 t c' :
  queue_ok limits u → calls u1 = calls u → limits_ (controller u1) = limits_ (controller u) →
  queue_ctl limits (pending_ (controller u1)) (queued_rule_bytes_ (controller u1)) →
  (∀ c, c' = Submitting c → command_ok limits c) → queue_ok limits (set_call t c' u1).
Proof.
  intros [Hl Hq Hs] Ec El Hq1 Hc. split; [by rewrite <- Hl, <- El | done |]. intros t' c. simpl. rewrite Ec, lookup_insert.
  case_decide; [by intros [= ->]; apply Hc | apply Hs].
Qed.

Lemma queue_same limits u u1 t c' :
  queue_ok limits u → calls u1 = calls u → limits_ (controller u1) = limits_ (controller u) →
  pending_ (controller u1) = pending_ (controller u) → queued_rule_bytes_ (controller u1) = queued_rule_bytes_ (controller u) →
  (∀ c, c' ≠ Submitting c) → queue_ok limits (set_call t c' u1).
Proof.
  intros Hok Ec El Ep Eq Hc. apply (queue_step limits u); try done; [rewrite Ep, Eq; apply Hok |].
  intros c Hc'. by destruct (Hc c).
Qed.

Lemma queue_empty limits : limits_wf limits → queue_ctl limits [] 0.
Proof. intros Hl. split; simpl; try done; [lia | apply Hl]. Qed.

Lemma queue_complete limits u t c' id r :
  queue_ok limits u → (∀ c, c' ≠ Submitting c) →
  queue_ok limits (set_call t c' (set_controller (complete id r (controller u)) u)).
Proof.
  intros Hok Hc. destruct (complete_fields id r (controller u)) as (E1 & E2 & _ & E4 & _). by apply (queue_same limits u).
Qed.

Lemma queue_seal limits u t pc next u1 c' :
  limits_wf limits → queue_ok limits u → seal_step heap pc u = Some (next, u1) → (∀ c, c' ≠ Submitting c) →
  queue_ok limits (set_call t c' u1).
Proof.
  intros Hl Hok Hstep Hc. destruct (seal_step_spec _ _ _ _ Hstep) as (He & _ & Ec & _).
  remember (controller u1) as k1 eqn:Ek. destruct He as [nx k' _ _ Ep Eq _ (El & _) _ | k' _ _ Ep Eq _ (El & _) | c0 l Epc].
  - apply (queue_same limits u); try done; by rewrite <- Ek.
  - apply (queue_step limits u); try done; [by rewrite <- Ek | rewrite <- Ek, Ep, Eq; by apply queue_empty |].
    intros c Hc'. by destruct (Hc c).
  - assert (u1 = set_controller (complete (completion c0) (update_error ShuttingDown None) (controller u)) u) as ->.
    { subst pc. cbn [seal_step] in Hstep. by simplify_eq. }
    by apply queue_complete.
Qed.

Lemma queue_submit limits u t c k rej :
  limits_wf limits → queue_ok limits u → command_ok limits c → submit_locked c (controller u) = (rej, k) →
  queue_ok limits (set_call t (match rej with None => Returned (FutureOf (completion c)) | Some e => Rejecting c e end) (set_controller k u)).
Proof.
  intros Hl Hok Hc H. pose proof Hok as [El [Hlen Hsum Hb Hcs] Hs]. unfold submit_locked in H.
  destruct (sealed_ _); [injection H as <- <-; by apply (queue_same limits u) |].
  destruct (Nat.leb_spec kMaximumPendingUpdates (length (pending_ (controller u)))); [injection H as <- <-; by apply (queue_same limits u) |].
  destruct (exceeds _ _ _) eqn:Hex; injection H as <- <-; [by apply (queue_same limits u) |].
  pose proof (queue_bytes_nonneg _ _ Hcs) as Hnn. rewrite El in Hex. apply exceeds_spec in Hex; [| lia].
  apply (queue_step limits u); try done. simpl.
  assert (wrap64 (queued_rule_bytes_ (controller u) + accounted_bytes c) = queued_rule_bytes_ (controller u) + accounted_bytes c) as ->.
  { pose proof (lw_queued _ Hl) as Hw. unfold size_t_max in Hw. apply Z.mod_small. split; [| lia].
    destruct Hc as (-> & _). pose proof (total_bytes_nonneg (rules c)). lia. }
  split.
  - rewrite length_app. simpl. lia.
  - unfold queue_bytes in *. rewrite sum_of_app, Hsum. unfold sum_of. simpl. lia.
  - done.
  - apply list.Forall_app. split; [done |]. by constructor.
Qed.

Lemma queue_run w0 limits u t pc now b c' u1 :
  limits_wf limits → queue_ok limits u → inv heap (world u) → ctl_ok w0 u → calls u !! t = Some (Running pc) →
  run_step heap pc now b u = Some (c', u1) → queue_ok limits (set_call t c' u1).
Proof.
  intros Hl Hok Hinv Hctl Hpc H. pose proof (co_run _ _ Hctl _ _ Hpc) as Hrun.
  destruct pc as [pc | | | | a | r | | result pc]; cbn [run_step] in H.
  - apply bind_Some in H as ([nx u2] & Hstep & H). injection H as <- <-. by eapply queue_seal.
  - injection H as <- <-. by apply (queue_same limits u).
  - apply bind_Some in H as ([pc k] & Hnext & H). injection H as <- <-. unfold next_command in Hnext.
    destruct (pending_ (controller u)) as [| c l] eqn:El.
    { destruct (terminal_detach_requested_ _); [| done]. injection Hnext as <- <-. by apply (queue_same limits u). }
    injection Hnext as <- <-. pose proof Hok as [Eli [Hlen Hsum Hb Hcs] Hs]. rewrite El in *.
    apply list.Forall_cons in Hcs as [(Hc & _) Hcs]. pose proof (queue_bytes_nonneg _ _ Hcs) as Hnn.
    pose proof (total_bytes_nonneg (rules c)) as Hnc. assert (queue_bytes (c :: l) = accounted_bytes c + queue_bytes l) as Eq by done.
    apply (queue_step limits u); try done. simpl in *. rewrite Z.min_r by lia. split; try done; simpl in *; lia.
  - destruct (retirement_mutex_free (world u)); [| done]. cbn [negb] in H.
    destruct (detach_terminal_snapshot heap now (world u)). injection H as <- <-. by apply (queue_same limits u).
  - apply bind_Some in H as ([nx u2] & Hstep & H). injection H as <- <-.
    destruct (apply_step_ok _ _ _ _ _ _ Hinv Hrun Hstep) as (_ & _ & Ec & _ & Ep & Eq & _ & El & _).
    by apply (queue_same limits u).
  - destruct (inflight_ (controller u)); [| done].
    destruct r as [v | e]; [injection H as <- <-; by apply queue_complete |].
    case_bool_decide; injection H as <- <-; [by apply (queue_same limits u) | by apply queue_complete].
  - injection H as <- <-. by apply (queue_same limits u).
  - apply bind_Some in H as ([nx u2] & Hstep & H). injection H as <- <-.
    assert (∀ c, match nx with Some pc => Running (RunFinish result pc) | None => Returned (RunResult result) end ≠ Submitting c) as Hns by by destruct nx.
    destruct pc as [pc | | [| c l] |]; cbn [finish_step] in Hstep.
    + apply bind_Some in Hstep as ([n u3] & Hstep & H). injection H as <- <-. by eapply queue_seal.
    + injection Hstep as <- <-. apply (queue_step limits u); try done. by apply queue_empty.
    + injection Hstep as <- <-. by apply (queue_same limits u).
    + injection Hstep as <- <-. by apply queue_complete.
    + injection Hstep as <- <-. rewrite (finish_locked_rest u Hrun). by apply (queue_same limits u).
Qed.

Lemma reconcile_fields w k :
  limits_ (reconcile_inflight_after_writer_exit w k) = limits_ k ∧
  pending_ (reconcile_inflight_after_writer_exit w k) = pending_ k ∧
  queued_rule_bytes_ (reconcile_inflight_after_writer_exit w k) = queued_rule_bytes_ k.
Proof. unfold reconcile_inflight_after_writer_exit. repeat case_match; done. Qed.

Lemma queue_successor limits u t pc next u1 c' :
  queue_ok limits u → successor_step pc u = Some (next, u1) → (∀ c, c' ≠ Submitting c) →
  queue_ok limits (set_call t c' u1).
Proof.
  intros Hok H Hc. destruct (reconcile_fields (world u) (controller u)) as (R1 & R2 & R3).
  destruct pc as [| c | v | v | c v]; cbn [successor_step] in H.
  - unfold successor_locked in H. destruct (runner_active_ (controller u)); [injection H as <- <-; by apply (queue_same limits u) |].
    destruct (inflight_ _) as [c |]; [| injection H as <- <-; by apply (queue_same limits u)].
    destruct (phase c), (published c); injection H as <- <-; by apply (queue_same limits u).
  - injection H as <- <-. by apply queue_complete.
  - destruct (retirement_mutex_free (world u)); [| done]. cbn [negb] in H. apply bind_Some in H as (r & Hwait & H).
    injection H as <- <-. by apply (queue_same limits u).
  - unfold successor_relocked in H. destruct (inflight_ (controller u)) as [c |]; [| injection H as <- <-; by apply (queue_same limits u)].
    destruct (_ && _); injection H as <- <-; by apply (queue_same limits u).
  - injection H as <- <-. by apply queue_complete.
Qed.

Lemma queue_call w0 limits u t c now b c' u1 :
  limits_wf limits → queue_ok limits u → inv heap (world u) → ctl_ok w0 u → calls u !! t = Some c →
  call_step heap c now b u = Some (c', u1) → queue_ok limits (set_call t c' u1).
Proof.
  intros Hl Hok Hinv Hctl Hpc H.
  destruct c as [c | c e | pc | pc tm | | pc | [pc |] | | r]; cbn [call_step] in H.
  - destruct (submit_locked c (controller u)) as [rej k] eqn:Hsub. injection H as <- <-.
    apply queue_submit; try done. by eapply qo_submitting.
  - injection H as <- <-. by apply queue_complete.
  - by eapply queue_run.
  - apply bind_Some in H as ([nx u2] & Hstep & H). injection H as <- <-. eapply queue_seal; try done.
    destruct nx; [done |]. by destruct tm.
  - injection H as <- <-. by apply (queue_same limits u).
  - apply bind_Some in H as ([nx u2] & Hstep & H). injection H as <- <-. eapply queue_successor; try done. by destruct nx.
  - apply bind_Some in H as ([nx u2] & Hstep & H). injection H as <- <-. eapply queue_seal; try done. by destruct nx.
  - destruct (runner_active_ (controller u)); [done |]. injection H as <- <-. by apply (queue_same limits u).
  - injection H as <- <-. by apply (queue_same limits u).
  - done.
Qed.

Lemma queue_act w0 limits a u u' :
  limits_wf limits → queue_ok limits u → inv heap (world u) → ctl_ok w0 u → update_act a u = Some u' → queue_ok limits u'.
Proof.
  intros Hl Hok Hinv Hctl H. pose proof (qo_limits _ _ Hok) as El.
  destruct a as [t rs | t stopped | t | t | t | t | | t now b | a]; cbn [Update.update_act] in H;
    try (destruct (idle t u) eqn:Hidle; [| done]).
  - unfold submit_begin in H. cbn [controller] in H. set (u0 := mkUpdateWorld _ _ _ _ _) in *.
    assert (queue_ok limits u0) as Hok0 by (by destruct Hok; split).
    destruct (validate_filter_rule_set _ _) as [m | e |] eqn:Hv; [| | done]; injection H as <-.
    + rewrite El in Hv. apply (validate_spec _ _ _ Hl) in Hv as (V1 & V2 & _ & ->).
      apply (queue_step limits u0); try done; [apply Hok |]. by intros c [= <-].
    + by apply (queue_complete limits u0).
  - injection H as <-. unfold run_begin. destruct (runner_active_ _); by apply (queue_same limits u).
  - injection H as <-. by apply (queue_same limits u).
  - injection H as <-. by apply (queue_same limits u).
  - injection H as <-. by apply (queue_same limits u).
  - injection H as <-. by apply (queue_same limits u).
  - injection H as <-. by destruct Hok; split.
  - apply bind_Some in H as (c & Hc & H). apply bind_Some in H as ([c' u1] & Hstep & H). injection H as <-.
    by eapply queue_call.
  - destruct (environment_action a); [| done]. apply bind_Some in H as (w & Hact & H). injection H as <-. by destruct Hok; split.
Qed.

(** ** All of it *)
Record update_inv (w0 : World) (limits : FilterUpdateLimits) (u : UpdateWorld) : Prop := {
  ui_ctl : ctl_ok w0 u;
  ui_tok : tok_ok u;
  ui_log : log_ok (current_generation w0) u;
  ui_queue : queue_ok limits u;
}.

Lemma initial_update_inv w0 limits u0 :
  limits_wf limits → make_controller w0 limits = Val u0 → update_inv w0 limits u0.
Proof.
  intros Hl H. destruct (initial_ctl _ _ _ H) as [_ Hctl]. unfold make_controller in H. destruct (_ || _); [done |]. simplify_eq.
  split; [done | | |].
  - split; [| done]. unfold tokens, ctl_tokens, calls_owned. simpl. by rewrite dom_empty_L, elements_empty.
  - split; simpl; try done; lia.
  - split; simpl; try done. by apply queue_empty.
Qed.

Lemma update_inv_act w0 limits a u u' :
  initial_state heap w0 → limits_wf limits → update_inv w0 limits u → update_act a u = Some u' → update_inv w0 limits u'.
Proof.
  intros H0 Hl [Hc Ht Hg Hq] H. assert (inv heap (world u)) as Hinv
    by (by destruct (initial_state_inv heap w0 _ H0 (co_world _ _ Hc))).
  split; [by eapply update_act_ok | by eapply tok_act | by eapply log_act | by eapply queue_act].
Qed.

Lemma reachable_update_inv w0 limits u0 u :
  initial_state heap w0 → limits_wf limits → make_controller w0 limits = Val u0 → update_reachable u0 u →
  update_inv w0 limits u.
Proof.
  intros H0 Hl Hm Hr. induction Hr as [| u1 a u2 Hr IH Hstep]; [by apply initial_update_inv | by eapply update_inv_act].
Qed.

End claims.
