(* ===== verification/UpdateClaims.v ===== *)
(** * Properties of the rule updates

    Promises, truth of the results, bounds of the queue, and the end of the writer, over
    every interleaving of clients, writer, teardown, workers and reclaimer. *)
From Stdlib Require Import Strings.Byte.
From S2P Require Import Prelude Wire DomainName CuckooFilter RadixTree DomainBlocklist FilterPublication PublicationClaims FilterUpdateController UpdateInvariant.
Import Publication Update.

Section lemmas.
Context {F : Type} (heap : nat → FilterContext F).

(** ** What no step takes back

    A set promise keeps its value, and a terminal detach stays requested. *)
Record ctl_le (k k' : Controller) : Prop := {
  cl_promises p v : promises k !! p = Some v → promises k' !! p = Some v;
  cl_terminal : terminal_detach_requested_ k = true → terminal_detach_requested_ k' = true;
}.

#[local] Instance ctl_le_refl : Reflexive ctl_le.
Proof. by split. Qed.

Lemma ctl_le_same k k' :
  promises k' = promises k → (terminal_detach_requested_ k = true → terminal_detach_requested_ k' = true) → ctl_le k k'.
Proof. intros E H. split; [by rewrite E | done]. Qed.

Lemma complete_le id r k : ctl_le k (complete id r k).
Proof.
  unfold complete. destruct (promises k !! id) eqn:Hid; [done |]. split; [| done]. intros p v H. simpl.
  rewrite lookup_insert_ne; [done |]. intros ->. congruence.
Qed.

Lemma complete_inflight_le id r i k : ctl_le k (set_inflight i (complete id r k)).
Proof. destruct (complete_le id r k). by split. Qed.

Hint Resolve complete_le complete_inflight_le ctl_le_refl : core.
Hint Extern 5 (ctl_le _ _) => apply ctl_le_same; [done | done] : core.

Lemma seal_step_le pc u next u1 : seal_step heap pc u = Some (next, u1) → ctl_le (controller u) (controller u1).
Proof.
  intros H. destruct (seal_step_spec _ _ _ _ _ H) as (He & _).
  destruct He as [nx k' _ _ _ _ Ep (_ & _ & _ & Et) _ | k' _ _ _ _ Ep (_ & _ & _ & Et) | c l _];
    [apply ctl_le_same; [done | by rewrite Et].. | auto].
Qed.

Lemma apply_step_le a now b u next u1 :
  apply_step heap a now b u = Some (next, u1) → ctl_le (controller u) (controller u1).
Proof.
  destruct a; cbn [apply_step]; intros H; repeat (case_match; try done); simplify_eq; auto;
    apply bind_Some in H as (x & _ & H); repeat (case_match; try done); simplify_eq; auto.
Qed.

Lemma reconcile_le w k :
  promises (reconcile_inflight_after_writer_exit w k) = promises k ∧
  terminal_detach_requested_ (reconcile_inflight_after_writer_exit w k) = terminal_detach_requested_ k.
Proof. unfold reconcile_inflight_after_writer_exit. repeat case_match; done. Qed.

Lemma finish_step_le pc u next u1 :
  finish_step heap pc u = Some (next, u1) → ctl_le (controller u) (controller u1).
Proof.
  intros H. destruct pc as [pc | | [| c l] |]; cbn [finish_step] in H; simplify_eq; auto.
  - apply bind_Some in H as ([nx u2] & Hstep & H). simplify_eq. by eapply seal_step_le.
  - apply complete_le.
  - simpl. unfold finish_locked. destruct (reconcile_le (world u) (controller u)) as [Ep Et].
    set (k := reconcile_inflight_after_writer_exit _ _) in *.
    destruct (inflight_ k) as [c |]; [case_bool_decide |];
      try (apply ctl_le_same; simpl; by rewrite ?Ep, ?Et).
    destruct (complete_le (completion c) (update_error InternalError None) k) as [H1 H2]. rewrite Ep, Et in *. by split.
Qed.

Lemma run_step_le pc now b u c' u1 :
  run_step heap pc now b u = Some (c', u1) → ctl_le (controller u) (controller u1).
Proof.
  intros H. destruct pc as [pc | | | | a | r | | result pc]; cbn [run_step] in H; simplify_eq; auto.
  - apply bind_Some in H as ([nx u2] & Hstep & H). simplify_eq. by eapply seal_step_le.
  - apply bind_Some in H as ([pc k] & Hn & H). simplify_eq. unfold next_command in Hn. repeat case_match; simplify_eq; simpl; auto.
  - repeat (case_match; try done); simplify_eq; simpl; auto.
  - apply bind_Some in H as ([nx u2] & Hstep & H). simplify_eq. by eapply apply_step_le.
  - repeat (case_match; try done); simplify_eq; simpl; auto.
  - apply bind_Some in H as ([nx u2] & Hstep & H). simplify_eq. by eapply finish_step_le.
Qed.

Lemma successor_step_le pc u next u1 : successor_step pc u = Some (next, u1) → ctl_le (controller u) (controller u1).
Proof.
  intros H. destruct pc as [| c | w | w | c w]; cbn [successor_step] in H; simplify_eq; simpl; auto.
  - destruct (reconcile_le (world u) (controller u)) as [Ep Et].
    unfold successor_locked in H. repeat case_match; simplify_eq; simpl; try done; apply ctl_le_same; simpl; by rewrite ?Ep, ?Et.
  - case_match; [done |]. apply bind_Some in H as (r & _ & H). by simplify_eq.
  - unfold successor_relocked in H. repeat case_match; simplify_eq; simpl; auto.
Qed.

Lemma call_step_le c now b u c' u1 : call_step heap c now b u = Some (c', u1) → ctl_le (controller u) (controller u1).
Proof.
  intros H. destruct c as [c | c e | pc | pc tm | | pc | [pc |] | | r]; cbn [call_step] in H; simplify_eq; simpl; auto.
  - unfold submit_locked in H. repeat case_match; simplify_eq; simpl; auto.
  - by eapply run_step_le.
  - apply bind_Some in H as ([nx u2] & Hstep & H). simplify_eq. by eapply seal_step_le.
  - apply bind_Some in H as ([nx u2] & Hstep & H). simplify_eq. by eapply successor_step_le.
  - apply bind_Some in H as ([nx u2] & Hstep & H). simplify_eq. by eapply seal_step_le.
  - case_match; by simplify_eq.
Qed.

Lemma update_act_le a u u' : update_act heap a u = Some u' → ctl_le (controller u) (controller u').
Proof.
  intros H. destruct a as [t rs | t stopped | t | t | t | t | | t now b | a]; cbn [update_act] in H;
    try (destruct (idle t u); [| done]); simplify_eq; simpl; auto.
  - unfold submit_begin in H. cbn [controller] in H. repeat case_match; simplify_eq; simpl; auto.
  - unfold run_begin. case_match; simpl; auto.
  - apply bind_Some in H as (c & _ & H). apply bind_Some in H as ([c' u1] & Hstep & H). simplify_eq. simpl. by eapply call_step_le.
  - case_match; [| done]. apply bind_Some in H as (w & _ & H). by simplify_eq.
Qed.

(** ** The way of the writer to its exit

    Steps left, once the queue is sealed and the terminal detach is requested. *)
Definition seal_rank (pc : SealPc) : nat :=
  match pc with SealStopBuild => 4 | SealPublication => 3 | SealLocked => 2 | SealCancelling l => 1 + length l end.

Definition finish_rank (pc : FinishPc) : nat :=
  match pc with
  | FinishSeal pc => 3 + seal_rank pc
  | FinishCancelLocked => 3
  | FinishCancelling l => 2 + length l
  | FinishReconcile => 1
  end.

Definition apply_rank (a : ApplyPc) : nat :=
  match a with
  | ApplyStart => 8 | ApplyVersion => 7 | ApplyCredit _ => 6 | ApplyBuild _ => 5 | ApplyCandidate _ => 4 | ApplyCommit _ => 3
  | ApplyFailpoint _ | ApplyRelease _ _ => 2
  | ApplyConverge _ | ApplyReturn _ => 1
  end.

Definition run_rank (pc : RunPc) : nat :=
  match pc with
  | RunForward pc => 10 + seal_rank pc
  | RunForwardTerminal | RunReset => 10
  | RunLoop => 9
  | RunDetach => 8
  | RunApply a => 11 + apply_rank a
  | RunApplied _ => 11
  | RunFinish _ pc => finish_rank pc
  end.

Definition writer_rank (c : Call) : nat := match c with Running pc => run_rank pc | _ => 0 end.

(** Where the writer waits for somebody else: the retirement mutex, or convergence. *)
Definition writer_waits (pc : RunPc) (u : UpdateWorld) : Prop :=
  retirement_mutex_free (world u) = false ∨
  ∃ v, pc = RunApply (ApplyConverge v) ∧ wait_until_converged (version_generation v) (world u) = None.

Lemma seal_rank_step pc u next u1 :
  sealed_ (controller u) = true → seal_step heap pc u = Some (next, u1) →
  match next with Some pc' => (seal_rank pc' < seal_rank pc)%nat | None => (1 ≤ seal_rank pc)%nat end.
Proof.
  intros Hs H. destruct pc as [| | | [| c l]]; cbn [seal_step] in H; rewrite ?Hs in H; cbn [negb] in H; simplify_eq; simpl; try lia.
  apply bind_Some in H as (w & _ & H). simplify_eq. simpl. lia.
Qed.

Lemma apply_rank_step a now b u next u1 :
  apply_step heap a now b u = Some (next, u1) →
  match next with inl a' => (apply_rank a' < apply_rank a)%nat | inr _ => (1 ≤ apply_rank a)%nat end.
Proof.
  destruct a; cbn [apply_step]; intros H; repeat (case_match; try done); simplify_eq; simpl; try lia;
    apply bind_Some in H as (x & _ & H); repeat (case_match; try done); simplify_eq; simpl; lia.
Qed.

Lemma run_rank_step pc now b u c' u1 :
  seal_shared u → sealed_ (controller u) = true →
  run_step heap pc now b u = Some (c', u1) → (writer_rank c' < run_rank pc)%nat.
Proof.
  intros Hsh Hs H. destruct (ss_sealed _ Hsh Hs) as (_ & _ & Hp & _).
  destruct pc as [pc | | | | a | r | | result pc]; cbn [run_step] in H; simplify_eq; simpl; try lia.
  - apply bind_Some in H as ([nx u2] & Hstep & H). simplify_eq. pose proof (seal_rank_step _ _ _ _ Hs Hstep). destruct nx; simpl; lia.
  - unfold next_command in H. rewrite Hp in H. apply bind_Some in H as ([pc k] & Hn & H). case_match; simplify_eq. simpl. lia.
  - repeat (case_match; try done); simplify_eq; simpl; lia.
  - apply bind_Some in H as ([nx u2] & Hstep & H). simplify_eq. pose proof (apply_rank_step _ _ _ _ _ _ Hstep). destruct nx; simpl; lia.
  - repeat (case_match; try done); simplify_eq; simpl; lia.
  - apply bind_Some in H as ([nx u2] & Hstep & H). simplify_eq.
    destruct pc as [pc | | [| c l] |]; cbn [finish_step] in Hstep; simplify_eq; rewrite ?Hp; simpl; try lia.
    apply bind_Some in Hstep as ([n u3] & Hstep & H). simplify_eq. pose proof (seal_rank_step _ _ _ _ Hs Hstep). destruct n; simpl; lia.
Qed.

Lemma seal_enabled pc u : retirement_mutex_free (world u) = true → ∃ r, seal_step heap pc u = Some r.
Proof.
  intros Hm. destruct pc as [| | | [| c l]]; cbn [seal_step]; try by eexists.
  - simpl. rewrite Hm. by eexists.
  - destruct (negb _); by eexists.
Qed.

(** With the builds stopped, the writer waits for nothing else. *)
Lemma run_enabled w0 u pc now t :
  initial_state heap w0 → ctl_ok heap w0 u → calls u !! t = Some (Running pc) →
  terminal_detach_requested_ (controller u) = true →
  writer_waits pc u ∨ ∃ r, run_step heap pc now BuilderThrows u = Some r.
Proof.
  intros H0 Hctl Hpc Ht. destruct (retirement_mutex_free (world u)) eqn:Hm; [| by left; left].
  pose proof (seal_ok_shared _ (co_seal _ _ _ Hctl)) as Hsh. pose proof (ss_terminal _ Hsh Ht) as Hs.
  destruct (ss_sealed _ Hsh Hs) as (Hb & _ & Hp & _). pose proof (co_run _ _ _ Hctl _ _ Hpc) as Hrun.
  destruct pc as [pc | | | | a | r | | result pc]; cbn [run_step].
  - right. destruct (seal_enabled pc u Hm) as [[nx u1] ->]. by eexists.
  - right. by eexists.
  - right. unfold next_command. rewrite Hp, Ht. by eexists.
  - right. rewrite Hm. simpl. case_match. by eexists.
  - destruct a; cbn [apply_step]; rewrite ?Hm; simpl; try (right; by eexists).
    + right. unfold acquire_retirement_credit. rewrite Hb, andb_false_r, orb_true_r. simpl. by eexists.
    + right. destruct (build_stop_requested _); by eexists.
    + right. destruct (commit_cases heap s now (drop_candidate s (world u))) as [[e ->] | (v & n & w' & -> & _)]; by eexists.
    + right. destruct (fail_after_commit_for_testing_ _); by eexists.
    + destruct (wait_until_converged (version_generation v) (world u)) eqn:Hw; [right; simpl; by eexists |].
      left. right. by exists v.
  - right. assert (∃ c, inflight_ (controller u) = Some c) as [c ->] by (destruct r; naive_solver).
    destruct r; [by eexists |]. case_bool_decide; by eexists.
  - right. by eexists.
  - right. destruct pc as [pc | | [| c l] |]; cbn [finish_step]; simpl; try by eexists.
    destruct (seal_enabled pc u Hm) as [[nx u1] ->]. by eexists.
Qed.

Lemma finish_step_calls pc u next u1 : finish_step heap pc u = Some (next, u1) → calls u1 = calls u.
Proof.
  intros H. destruct pc as [pc | | [| c l] |]; cbn [finish_step] in H; simplify_eq; try done.
  apply bind_Some in H as ([nx u2] & Hstep & H). simplify_eq. by destruct (seal_step_spec _ _ _ _ _ Hstep) as (_ & _ & ? & _).
Qed.

Lemma apply_step_calls a now b u next u1 : apply_step heap a now b u = Some (next, u1) → calls u1 = calls u.
Proof.
  destruct a; cbn [apply_step]; intros H; repeat (case_match; try done); simplify_eq; try done;
    apply bind_Some in H as (x & _ & H); repeat (case_match; try done); by simplify_eq.
Qed.

Lemma call_step_calls c now b u c' u1 : call_step heap c now b u = Some (c', u1) → calls u1 = calls u.
Proof.
  assert (∀ pc nx u2, seal_step heap pc u = Some (nx, u2) → calls u2 = calls u) as Hseal.
  { intros pc nx u2 Hstep. by destruct (seal_step_spec _ _ _ _ _ Hstep) as (_ & _ & ? & _). }
  intros H. destruct c as [c | c e | pc | pc tm | | pc | [pc |] | | r]; cbn [call_step] in H; simplify_eq; try done.
  - case_match. by simplify_eq.
  - destruct pc as [pc | | | | a | r | | result pc]; cbn [run_step] in H; simplify_eq; try done;
      try (apply bind_Some in H as ([nx u2] & Hstep & H); simplify_eq; by eauto using finish_step_calls, apply_step_calls).
    + repeat (case_match; try done); by simplify_eq.
    + repeat (case_match; try done); by simplify_eq.
  - apply bind_Some in H as ([nx u2] & Hstep & H). simplify_eq. by eauto.
  - apply bind_Some in H as ([nx u2] & Hstep & H). simplify_eq.
    destruct pc; cbn [successor_step] in Hstep; repeat (case_match; try done); simplify_eq; try done.
    apply bind_Some in Hstep as (r & _ & Hr). by simplify_eq.
  - apply bind_Some in H as ([nx u2] & Hstep & H). simplify_eq. by eauto.
  - case_match; by simplify_eq.
Qed.

(** Nobody else moves the writer. *)
Lemma other_call a u u' t pc :
  (∀ now b, a ≠ Advance t now b) → calls u !! t = Some (Running pc) → update_act heap a u = Some u' →
  calls u' !! t = Some (Running pc).
Proof.
  intros Ha Hpc H. assert (∀ t' c, t' ≠ t → <[t' := c]> (calls u) !! t = Some (Running pc)) as Hset
    by (intros t' c Hne; by rewrite lookup_insert_ne).
  assert (∀ t', idle t' u = true → t' ≠ t) as Hidle by (intros t' Hi ->; unfold idle in Hi; by rewrite Hpc in Hi).
  destruct a as [t' rs | t' stopped | t' | t' | t' | t' | | t' now b | a]; cbn [update_act] in H;
    try (destruct (idle t' u) eqn:Hi; [| done]; specialize (Hidle _ Hi)); simplify_eq; simpl; auto.
  - unfold submit_begin in H. cbn [controller] in H. repeat case_match; simplify_eq; simpl; auto.
  - unfold run_begin. case_match; simpl; auto.
  - apply bind_Some in H as (c & Hc & H). apply bind_Some in H as ([c' u1] & Hstep & H). simplify_eq. simpl.
    rewrite lookup_insert_ne; [| intros ->; by destruct (Ha now b)]. by rewrite (call_step_calls _ _ _ _ _ _ Hstep).
  - case_match; [| done]. apply bind_Some in H as (w & _ & H). by simplify_eq.
Qed.

End lemmas.

(** ** The theorems *)

(** A controller as its constructor makes it, and what it can become. *)
Definition update_state {F} (heap : nat → FilterContext F) (w0 : World) (limits : FilterUpdateLimits) (u : UpdateWorld) : Prop :=
  initial_state heap w0 ∧ limits_wf limits ∧ ∃ u0, make_controller w0 limits = Val u0 ∧ update_reachable heap u0 u.

Lemma update_state_inv {F} (heap : nat → FilterContext F) w0 limits u :
  update_state heap w0 limits u →
  update_inv heap w0 limits u ∧ inv heap (world u) ∧ conv_ok heap (world u) ∧ initial_state heap w0.
Proof.
  intros (H0 & Hl & u0 & Hm & Hr). pose proof (reachable_update_inv heap _ _ _ _ H0 Hl Hm Hr) as Hi.
  destruct (initial_state_inv heap w0 _ H0 (co_world _ _ _ (ui_ctl _ _ _ _ Hi))) as (? & _ & ?). done.
Qed.

Lemma error_not_committed u id e :
  tok_ok u → promises (controller u) !! id = Some (inr e) → id ∉ (committed_all u).*1.
Proof.
  intros Htok He Hin. apply list_elem_of_fmap in Hin as ([id' v] & -> & Hin). simpl in He.
  unfold committed_all, ctl_committed in Hin. rewrite !elem_of_app in Hin. destruct Hin as [Hin | [Hin | Hin]].
  - unfold calls_committed in Hin. apply list_elem_of_In, in_concat in Hin as (l & Hl & Hin).
    apply list_elem_of_In, list_elem_of_fmap in Hl as ([t c] & -> & Hl). apply elem_of_map_to_list in Hl. simpl in Hin.
    destruct c as [| | | | | [| | | | c v'] | | |]; try done. destruct Hin as [[= <- <-] | []].
    destruct (held_unset u t (completion c) Htok) as (Hn & _); [unfold owned_by; rewrite Hl; by left | by pose proof (eq_trans (eq_sym Hn) He)].
  - unfold inflight_committed in Hin. destruct (inflight_ (controller u)) as [c |]; [| by apply list_elem_of_In in Hin].
    destruct (promises (controller u) !! completion c) eqn:Hn; [by apply list_elem_of_In in Hin |].
    destruct (phase c), (published c); try by apply list_elem_of_In in Hin.
    apply list_elem_of_singleton in Hin as [= -> ->]. by pose proof (eq_trans (eq_sym Hn) He).
  - unfold promises_committed in Hin. apply list_elem_of_omap in Hin as ([i [v' | e']] & Hin & Hs); unfold success in Hs; simpl in Hs; simplify_eq.
    apply elem_of_map_to_list in Hin. by pose proof (eq_trans (eq_sym Hin) He).
Qed.

(** C29: one answer per request.  Every promise ever made is in exactly one place: queued, in
    flight, in the hands of one call in progress, or set.  A promise that is set keeps its
    value through every further step.  When no call holds one and nothing is queued or in
    flight, every promise is set. *)
Theorem update_promises {F} (heap : nat → FilterContext F) w0 limits u :
  update_state heap w0 limits u →
  tokens u ≡ₚ seq 0 (next_promise u) ∧
  (∀ a u' id r, update_act heap a u = Some u' → promises (controller u) !! id = Some r →
     promises (controller u') !! id = Some r) ∧
  ((∀ t c, calls u !! t = Some c → call_owned c = []) → pending_ (controller u) = [] → inflight_ (controller u) = None →
   ∀ id, (id < next_promise u)%nat → is_Some (promises (controller u) !! id)).
Proof.
  intros H. destruct (update_state_inv _ _ _ _ H) as ([_ [Hp _] _ _] & _). split_and!; [done | |].
  - intros a u' id r Ha. by apply update_act_le in Ha as [Hle _]; apply Hle.
  - intros Hc Hq Hf id Hid. assert (id ∈ tokens u) as Hin by (rewrite Hp, elem_of_seq; lia).
    unfold tokens, ctl_tokens, inflight_token, calls_owned in Hin. rewrite Hq, Hf in Hin. simpl in Hin.
    rewrite elem_of_app, elem_of_elements, elem_of_dom in Hin. destruct Hin as [Hin | Hin]; [| done].
    apply list_elem_of_In, in_concat in Hin as (l & Hl & Hin). apply list_elem_of_In, list_elem_of_fmap in Hl as ([t c] & -> & Hl).
    apply elem_of_map_to_list in Hl. simpl in Hin. by rewrite (Hc _ _ Hl) in Hin.
Qed.

(** C8: the results are true.  A promise that holds a version belongs to the command that
    published this version, and no worker has a snapshot of an older generation.  A promise
    that holds an error belongs to a command that published nothing.  No command publishes
    twice, and the published generations follow one another without a gap. *)
Theorem update_result_truthful {F} (heap : nat → FilterContext F) w0 limits u :
  update_state heap w0 limits u →
  (∀ id v, promises (controller u) !! id = Some (inl v) →
     (id, v) ∈ commit_log u ∧
     ∀ worker_id instance_id s, locals (world u) !! (worker_id, instance_id) = Some s →
       version_generation v ≤ snap_generation heap s) ∧
  (∀ id e, promises (controller u) !! id = Some (inr e) → id ∉ (commit_log u).*1) ∧
  NoDup (commit_log u).*1 ∧
  (version_generation ∘ snd) <$> commit_log u = seqZ (current_generation w0 + 1) (Z.of_nat (length (commit_log u))) ∧
  current_generation (world u) = current_generation w0 + Z.of_nat (length (commit_log u)).
Proof.
  intros H. destruct (update_state_inv _ _ _ _ H) as ([_ Htok [Hp Hc Hg Hn] _] & _ & Hconv & _).
  split_and!; [| | | done | done].
  - intros id v Hv. split.
    + rewrite <- Hp. unfold committed_all, ctl_committed. rewrite !elem_of_app. right. right.
      apply list_elem_of_omap. exists (id, inl v). by rewrite elem_of_map_to_list.
    + intros wid i s Hs. pose proof (cv_locals _ _ Hconv _ _ _ Hs). pose proof (Hc _ _ Hv) as Hcv. unfold converged in Hcv. lia.
  - intros id e He Hin. rewrite <- Hp in Hin. exact (error_not_committed _ _ _ Htok He Hin).
  - rewrite <- Hp. pose proof (tokens_NoDup _ Htok) as Hnd.
    destruct (submseteq_Permutation _ _ (committed_tokens u)) as [k Hk]. rewrite Hk in Hnd. by apply list.NoDup_app in Hnd as [? _].
Qed.

(** Limits.  Validation succeeds exactly within the limits and measures exactly.  In
    every state at most 64 commands wait, each of them passed validation, and the byte
    counter of the queue is the sum of their sizes and within its limit, whatever the order
    of submissions, completions and teardown. *)
Theorem update_queue_bounds {F} (heap : nat → FilterContext F) w0 limits u :
  update_state heap w0 limits u →
  (∀ rules m, validate_filter_rule_set rules limits = Val m ↔
     Z.of_nat (length rules) ≤ maximum_rule_count limits ∧
     total_bytes rules ≤ maximum_normalized_rule_bytes limits ∧
     sum_of canonical_bytes rules ≤ maximum_normalized_rule_bytes limits ∧
     m = mkMeasurement (total_bytes rules) (sum_of canonical_bytes rules)) ∧
  (length (pending_ (controller u)) ≤ kMaximumPendingUpdates)%nat ∧
  queued_rule_bytes_ (controller u) = queue_bytes (pending_ (controller u)) ∧
  0 ≤ queued_rule_bytes_ (controller u) ≤ maximum_queued_rule_bytes limits ∧
  Forall (command_ok limits) (pending_ (controller u)).
Proof.
  intros H. destruct (update_state_inv _ _ _ _ H) as ([_ _ _ [_ [Q1 Q2 Q3 Q4] _]] & _). destruct H as (_ & Hl & _).
  split_and!; try done; [intros rs m; by apply validate_spec |]. rewrite Q2. by eapply queue_bytes_nonneg.
Qed.

(** The writer ends.  Once the terminal detach is requested, every step of the writer
    brings it closer to its return, nobody else moves it or withdraws the request, and it can
    always make a step unless the retirement mutex is held or it waits for the convergence of
    a version it has published. *)
Theorem writer_exit {F} (heap : nat → FilterContext F) w0 limits u t pc :
  update_state heap w0 limits u → calls u !! t = Some (Running pc) → terminal_detach_requested_ (controller u) = true →
  (∀ now b u', update_act heap (Advance t now b) u = Some u' →
     ∃ c, calls u' !! t = Some c ∧ (writer_rank c < run_rank pc)%nat) ∧
  (∀ a u', update_act heap a u = Some u' →
     terminal_detach_requested_ (controller u') = true ∧
     ((∀ now b, a ≠ Advance t now b) → calls u' !! t = Some (Running pc))) ∧
  (∀ now, writer_waits pc u ∨ ∃ u', update_act heap (Advance t now BuilderThrows) u = Some u').
Proof.
  intros H Hpc Ht. destruct (update_state_inv _ _ _ _ H) as ([Hctl _ _ _] & Hinv & _ & H0).
  pose proof (seal_ok_shared _ (co_seal _ _ _ Hctl)) as Hsh. split_and!.
  - intros now b u' Ha. cbn [update_act] in Ha. rewrite Hpc in Ha. cbn [mbind option_bind call_step] in Ha.
    apply bind_Some in Ha as ([c' u1] & Hstep & Ha). injection Ha as <-. exists c'. split; [by apply lookup_insert_eq |].
    by eapply run_rank_step; [| apply (ss_terminal _ Hsh Ht) |].
  - intros a u' Ha. split; [by apply update_act_le in Ha as [_ Hle]; apply Hle | intros Hne; by eapply other_call].
  - intros now. destruct (run_enabled heap w0 u pc now t H0 Hctl Hpc Ht) as [Hw | [[c' u1] Hr]]; [by left |]. right.
    cbn [update_act]. rewrite Hpc. cbn [mbind option_bind call_step]. rewrite Hr. by eexists.
Qed.

(** a commit of the writer is refused only by the seal.  When the writer reaches the
    commit and the mutex is free, it holds the credit, its candidate is the next generation,
    and the commit publishes it unless publication was sealed in between. *)
Theorem writer_commit_refused_only_sealed {F} (heap : nat → FilterContext F) w0 limits u t s now :
  update_state heap w0 limits u → calls u !! t = Some (Running (RunApply (ApplyCommit s))) →
  let '(r, w) := commit heap (Some s) now (drop_candidate s (world u)) in
  if publication_sealed_ (publication (world u)) then r = Err PublicationSealed ∧ w = drop_candidate s (world u)
  else ∃ n, r = Val (mkFilterVersion (current_generation (world u) + 1) (snap_rule_count heap s), n) ∧
    active_snapshot_ (publication w) = Some s.
Proof.
  intros H Hpc. destruct (update_state_inv _ _ _ _ H) as ([Hctl _ _ _] & Hinv & _).
  destruct (co_run _ _ _ Hctl _ _ Hpc) as (c & _ & _ & Hgen & (Hcr & Hpe & Hmax) & _).
  pose proof (po_pos _ _ (inv_pub _ _ Hinv)) as Hpos. unfold commit. simpl. unfold current_generation in *. rewrite Hcr, Hpe. simpl.
  destruct (publication_sealed_ _); [done |]. rewrite Hgen.
  destruct (Z.eqb_spec (current_generation_ (publication (world u)) + 1) 0); [lia |].
  destruct (Z.eqb_spec (current_generation_ (publication (world u))) uint64_max); [done |].
  rewrite Z.eqb_refl. simpl. by eexists.
Qed.

(** ** Concrete instances *)
Fixpoint run_updates {F} (heap : nat → FilterContext F) (l : list UpdateAction) (u : UpdateWorld) : option UpdateWorld :=
  match l with [] => Some u | a :: l => u ← update_act heap a u; run_updates heap l u end.

Lemma run_updates_reachable {F} (heap : nat → FilterContext F) l u0 u u' :
  update_reachable heap u0 u → run_updates heap l u = Some u' → update_reachable heap u0 u'.
Proof.
  revert u. induction l as [| a l IH]; intros u Hr H; [by injection H as <- |].
  simpl in H. apply bind_Some in H as (u1 & Ha & H). eapply IH; [by eapply update_step | done].
Qed.

(** One rule, [a]; a limit on the queue that two such commands would pass. *)
Definition sample_limits : FilterUpdateLimits := mkLimits 4 8 1.
Definition sample_controller : UpdateWorld :=
  mkUpdateWorld (mkController sample_limits [] None 0 false false false false false false ∅) sample_start ∅ 0 [].
Definition sample_updated (l : list UpdateAction) : UpdateWorld :=
  default sample_controller (run_updates sample_heap l sample_controller).

Lemma sample_updated_state l : update_state sample_heap sample_start sample_limits (sample_updated l).
Proof.
  split; [exact sample_initial |]. split; [by split; unfold size_t_max; simpl; lia |].
  exists sample_controller. split; [vm_compute; reflexivity |]. unfold sample_updated.
  destruct (run_updates sample_heap l sample_controller) as [u |] eqn:Hr; [| constructor].
  eapply run_updates_reachable; [constructor | exact Hr].
Qed.

Definition step (t : nat) : UpdateAction := Advance t 5 (BuilderSnapshot 1).

(** Worker 0 runs; thread 10 submits a rule set, a second one is too large for the queue;
    thread 20 runs the writer up to the commit. *)
Definition sample_to_commit : list UpdateAction :=
  (Environment <$> [Register 0 1; Refresh 0 1; PublishProgress; MarkRegistered 0 1]) ++
  [SubmitReplace 10 [[x61]]; step 10; SubmitReplace 11 [[x62]]; step 11; step 11; Run 20 false] ++ replicate 6 (step 20).
(** The commit; the worker takes the new snapshot, the reclaimer announces convergence, and
    the promise is set. *)
Definition sample_answered : list UpdateAction :=
  sample_to_commit ++ replicate 2 (step 20) ++
  (Environment <$> [Refresh 0 1; PublishProgress; StartReclaimer] ++ replicate 7 (ReclaimerStep 6 false)) ++ replicate 3 (step 20).
(** Teardown while the writer waits for convergence. *)
Definition sample_ending : list UpdateAction :=
  sample_to_commit ++ replicate 2 (step 20) ++ [RequestTerminalDetach 30] ++ replicate 5 (step 30).

Lemma update_promises_witness :
  next_promise (sample_updated sample_answered) = 2%nat ∧
  ∀ id, (id < 2)%nat → is_Some (promises (controller (sample_updated sample_answered)) !! id).
Proof.
  split; [vm_compute; reflexivity |].
  destruct (update_promises sample_heap sample_start sample_limits (sample_updated sample_answered) (sample_updated_state _))
    as (_ & _ & Hall).
  apply Hall; try (vm_compute; reflexivity). intros t c Hc. apply elem_of_map_to_list in Hc.
  assert (Forall (λ kv, call_owned kv.2 = []) (map_to_list (calls (sample_updated sample_answered)))) as Hf
    by (vm_compute; repeat constructor).
  rewrite list.Forall_forall in Hf. exact (Hf _ Hc).
Defined.

Lemma update_result_truthful_witness :
  promises (controller (sample_updated sample_answered)) !! 0%nat = Some (inl (mkFilterVersion 2 2)) ∧
  (0%nat, mkFilterVersion 2 2) ∈ commit_log (sample_updated sample_answered) ∧
  locals (world (sample_updated sample_answered)) !! (0%nat, 1) = Some 1%nat ∧ 2 ≤ snap_generation sample_heap 1 ∧
  1%nat ∉ (commit_log (sample_updated sample_answered)).*1.
Proof.
  destruct (update_result_truthful sample_heap sample_start sample_limits (sample_updated sample_answered) (sample_updated_state _))
    as (Hv & He & _).
  split; [vm_compute; reflexivity |]. destruct (Hv 0%nat (mkFilterVersion 2 2)) as [Hin Hl]; [vm_compute; reflexivity |].
  split; [exact Hin |]. split; [vm_compute; reflexivity |].
  split; [apply (Hl 0%nat 1); vm_compute; reflexivity |]. eapply (He 1%nat). vm_compute. reflexivity.
Defined.

Lemma update_queue_bounds_witness :
  length (pending_ (controller (sample_updated (take 6 sample_to_commit)))) = 1%nat ∧
  queued_rule_bytes_ (controller (sample_updated (take 6 sample_to_commit))) = 1 ∧
  queued_rule_bytes_ (controller (sample_updated (take 6 sample_to_commit))) ≤ maximum_queued_rule_bytes sample_limits.
Proof.
  split; [vm_compute; reflexivity |]. split; [vm_compute; reflexivity |].
  apply (update_queue_bounds sample_heap sample_start sample_limits (sample_updated (take 6 sample_to_commit)) (sample_updated_state _)).
Defined.

Lemma writer_exit_witness :
  let pc := RunApply (ApplyConverge (mkFilterVersion 2 2)) in
  calls (sample_updated sample_ending) !! 20%nat = Some (Running pc) ∧
  ∀ a u', update_act sample_heap a (sample_updated sample_ending) = Some u' →
    terminal_detach_requested_ (controller u') = true ∧
    ((∀ now b, a ≠ Advance 20 now b) → calls u' !! 20%nat = Some (Running pc)).
Proof.
  intros pc. split; [vm_compute; reflexivity |].
  apply (writer_exit sample_heap sample_start sample_limits (sample_updated sample_ending) 20 pc (sample_updated_state _));
    vm_compute; reflexivity.
Defined.

Lemma writer_commit_refused_only_sealed_witness :
  ∃ n w, commit sample_heap (Some 1%nat) 5 (drop_candidate 1 (world (sample_updated sample_to_commit))) =
           (Val (mkFilterVersion 2 2, n), w) ∧
    active_snapshot_ (publication w) = Some 1%nat.
Proof.
  pose proof (writer_commit_refused_only_sealed sample_heap sample_start sample_limits (sample_updated sample_to_commit) 20 1 5
    (sample_updated_state _)) as H.
  destruct (commit sample_heap (Some 1%nat) 5 (drop_candidate 1 (world (sample_updated sample_to_commit)))) as [r w] eqn:Hc.
  assert (publication_sealed_ (publication (world (sample_updated sample_to_commit))) = false) as Hs by (vm_compute; reflexivity).
  rewrite Hs in H. destruct H as (n & -> & Ha); [vm_compute; reflexivity |]. exists n, w. split; [| exact Ha]. f_equal.
Defined.
