(* ===== verification/Concurrency.v ===== *)
(** * Programs of one thread among others

    [prog]: the program of a thread as a tree of atomic actions on a shared state, with
    loops.  Between two actions the other threads may do any number of the steps [env].  [wp]
    is a weakest precondition under that interference, with an invariant that every step
    keeps; [adequacy] carries it to all interleavings. *)
From stdpp Require Import relations.
From S2P Require Import Prelude.

Section programs.
Context {S E : Type}.

(** [Act f k]: the state [f] acts on goes with an input, what the action finds outside of
    the state (a clock, the result of a system call); [None]: the action waits.
    [While body k]: [body] until it returns [Some x], then [k x]. *)
Inductive prog : Type → Type :=
  | Ret {A} (a : A) : prog A
  | Act {A X} (f : E → S → option (X * S)) (k : X → prog A) : prog A
  | While {A X} (body : prog (option X)) (k : X → prog A) : prog A.

Fixpoint bind {A C} (c : prog A) : (A → prog C) → prog C :=
  match c in prog A return (A → prog C) → prog C with
  | Ret a => λ g, g a
  | Act f k => λ g, Act f (λ x, bind (k x) g)
  | While body k => λ g, While body (λ x, bind (k x) g)
  end.

Definition iterate {X A} (body : prog (option X)) (k : X → prog A) (o : option X) : prog A :=
  match o with Some x => k x | None => While body k end.

(** A step; a program that has returned makes none. *)
Definition step {A} (e : E) (c : prog A) (s : S) : option (prog A * S) :=
  match c in prog A return option (prog A * S) with
  | Ret _ => None
  | Act f k => match f e s with Some (x, s') => Some (k x, s') | None => None end
  | While body k => Some (bind body (iterate body k), s)
  end.

(** Every action of the program is in [R]. *)
Fixpoint every (R : relation S) {A} (c : prog A) : Prop :=
  match c with
  | Ret _ => True
  | Act f k => (∀ e s x s', f e s = Some (x, s') → R s s') ∧ ∀ x, every R (k x)
  | While body k => every R body ∧ ∀ x, every R (k x)
  end.

Lemma every_bind R {A C} (c : prog A) (g : A → prog C) : every R c → (∀ a, every R (g a)) → every R (bind c g).
Proof.
  revert C g. induction c as [A a | A X f k IH | A X body IHb k IHk]; intros C g; cbn [every bind]; [auto | |].
  - intros [Hf Hk] Hg. split; [done |]. auto.
  - intros [Hb Hk] Hg. split; [done |]. auto.
Qed.

Lemma every_step R `{!Reflexive R} {A} (c c' : prog A) e s s' : every R c → step e c s = Some (c', s') → R s s' ∧ every R c'.
Proof.
  destruct c as [A a | A X f k | A X body k]; cbn [every step]; [done | |].
  - intros [Hf Hk] H. destruct (f e s) as [[x s1] |] eqn:E1; [| done]. injection H as <- <-. eauto.
  - intros [Hb Hk] [= <- <-]. split; [done |]. apply every_bind; [done |]. by intros [x |]; cbn.
Qed.

(** ** Interleavings *)
Context {V : Type}.
Variable env : V → S → option S.

(** Who makes the next step. *)
Inductive choice := Others (v : V) | Mine (e : E).

Definition move {A} (x : choice) (c : prog A) (s : S) : option (prog A * S) :=
  match x with
  | Others v => match env v s with Some s' => Some (c, s') | None => None end
  | Mine e => step e c s
  end.

Fixpoint moves {A} (l : list choice) (c : prog A) (s : S) : option (prog A * S) :=
  match l with
  | [] => Some (c, s)
  | x :: l => match move x c s with Some (c, s) => moves l c s | None => None end
  end.

(** ** Weakest preconditions *)
Variable inv : S → Prop.

(** What the others may do, as far as the thread is concerned. *)
Variable rely : relation S.
Context `{!PreOrder rely}.

Fixpoint wp {A} (c : prog A) : (A → S → Prop) → S → Prop :=
  match c in prog A return (A → S → Prop) → S → Prop with
  | Ret a => λ Q s, ∀ s', rely s s' → inv s' → Q a s'
  | Act f k => λ Q s, ∀ s', rely s s' → inv s' → ∀ e x s'', f e s' = Some (x, s'') → inv s'' ∧ wp (k x) Q s''
  | While body k => λ Q s, ∃ I : S → Prop, I s ∧ (∀ s1 s2, I s1 → rely s1 s2 → inv s2 → I s2) ∧
      ∀ s, inv s → I s → wp body (λ o s, match o with Some x => wp (k x) Q s | None => I s end) s
  end.

Lemma wp_rely {A} (c : prog A) Q s s' : wp c Q s → rely s s' → inv s' → wp c Q s'.
Proof.
  destruct c as [A a | A X f k | A X body k]; cbn [wp].
  - intros H Hr _ s2 Hs2. apply H. by etrans.
  - intros H Hr _ s2 Hs2. apply H. by etrans.
  - intros (I & Hi & Hst & Hb) Hr Hv. exists I. split; [by eapply Hst |]. done.
Qed.

Lemma wp_mono {A} (c : prog A) Q Q' s : (∀ a s, inv s → Q a s → Q' a s) → wp c Q s → wp c Q' s.
Proof.
  revert Q Q' s. induction c as [A a | A X f k IH | A X body IHb k IHk]; cbn [wp]; intros Q Q' s HQ H.
  - intros s' Hr Hv. apply HQ; [done | by apply H].
  - intros s' Hr Hv e x s'' Hf. destruct (H s' Hr Hv e x s'' Hf) as [? Hk]. split; [done |]. by eapply IH.
  - destruct H as (I & Hi & Hst & Hb). exists I. split_and!; try done. intros s1 Hv Hi1. eapply IHb; [| by apply Hb].
    intros [x |] s2 _ Hx; [by eapply IHk | done].
Qed.

Lemma wp_bind {A C} (c : prog A) (g : A → prog C) Q s : wp c (λ a s, wp (g a) Q s) s → inv s → wp (bind c g) Q s.
Proof.
  revert C g Q s. induction c as [A a | A X f k IH | A X body IHb k IHk]; intros C g Q s H Hv; cbn [wp bind] in *.
  - apply H; [reflexivity | done].
  - intros s' Hr Hv' e x s'' Hf. destruct (H s' Hr Hv' e x s'' Hf) as [Hv'' Hk]. split; [done |]. by apply IH.
  - destruct H as (I & Hi & Hst & Hb). exists I. split_and!; try done. intros s1 Hv1 Hi1. eapply wp_mono; [| by apply Hb].
    intros [x |] s2 Hv2 Hx; [by apply IHk | done].
Qed.

Lemma wp_step {A} (c : prog A) Q s e c' s' : inv s → wp c Q s → step e c s = Some (c', s') → inv s' ∧ wp c' Q s'.
Proof.
  destruct c as [A a | A X f k | A X body k]; cbn [wp step]; [done | |].
  - intros Hv H Hf. destruct (f e s) as [[x s1] |] eqn:E1; [| done]. injection Hf as <- <-. by eapply H.
  - intros Hv (I & Hi & Hst & Hb) [= <- <-]. split; [done |]. apply wp_bind; [| done]. eapply wp_mono; [| by apply Hb].
    intros [x |] s2 Hv2 Hx; cbn [iterate]; [done |]. exists I. done.
Qed.

Theorem adequacy {A} l (c c' : prog A) Q s s' :
  (∀ v s1 s2, inv s1 → env v s1 = Some s2 → inv s2 ∧ rely s1 s2) →
  inv s → wp c Q s → moves l c s = Some (c', s') → inv s' ∧ wp c' Q s'.
Proof.
  intros Henv. revert c s. induction l as [| x l IH]; intros c s Hv H Hl; cbn [moves] in Hl; [by injection Hl as <- <- |].
  destruct (move x c s) as [[c1 s1] |] eqn:E1; [| done]. destruct x as [v | e]; cbn [move] in E1.
  - destruct (env v s) as [s2 |] eqn:E2; [| done]. injection E1 as <- <-. destruct (Henv _ _ _ Hv E2) as [Hv2 Hr].
    eapply IH; [done | | exact Hl]. by eapply wp_rely.
  - destruct (wp_step _ _ _ _ _ _ Hv H E1) as [Hv1 H1]. by eapply IH.
Qed.

(** What the program returns, whatever the state is. *)
Fixpoint returns {A} (c : prog A) : (A → Prop) → Prop :=
  match c in prog A return (A → Prop) → Prop with
  | Ret a => λ R, R a
  | Act f k => λ R, ∀ e s x s', f e s = Some (x, s') → returns (k x) R
  | While body k => λ R, returns body (λ o, match o with Some x => returns (k x) R | None => True end)
  end.

Lemma returns_mono {A} (c : prog A) (R R' : A → Prop) : (∀ a, R a → R' a) → returns c R → returns c R'.
Proof.
  revert R R'. induction c as [A a | A X f k IH | A X body IHb k IHk]; cbn [returns]; intros R R' HR H; [auto | |].
  - intros e s x s' Hf. eapply IH; [done | by eapply H].
  - eapply IHb; [| exact H]. intros [x |]; [by apply IHk | done].
Qed.

Lemma returns_bind {A C} (c : prog A) (g : A → prog C) (R : C → Prop) : returns c (λ a, returns (g a) R) → returns (bind c g) R.
Proof.
  revert C g R. induction c as [A a | A X f k IH | A X body IHb k IHk]; intros C g R H; cbn [returns bind] in *; [done | |].
  - intros e s x s' Hf. apply IH. by eapply H.
  - eapply returns_mono; [| exact H]. intros [x |]; [by apply IHk | done].
Qed.

Lemma wp_returns {A} (c : prog A) Q R s : returns c R → wp c Q s → wp c (λ a s, Q a s ∧ R a) s.
Proof.
  revert Q R s. induction c as [A a | A X f k IH | A X body IHb k IHk]; cbn [returns wp]; intros Q R s HR H.
  - intros s' Hr Hv. split; [by apply H | done].
  - intros s' Hr Hv e x s'' Hf. destruct (H s' Hr Hv e x s'' Hf) as [Hv' Hk]. split; [done |]. apply IH; [by eapply HR | done].
  - destruct H as (I & Hi & Hst & Hb). exists I. split_and!; try done. intros s1 Hv1 Hi1.
    eapply wp_mono; [| apply IHb; [exact HR | by apply Hb]]. intros [x |] s2 _ [H1 H2]; [by apply IHk | done].
Qed.

Lemma wp_ret_now {A} (a : A) Q s : inv s → wp (Ret a) Q s → Q a s.
Proof. intros Hv H. by apply H. Qed.

End programs.
Arguments prog : clear implicits.
Arguments choice : clear implicits.
