(* ===== verification/WorkerSupervisor.v ===== *)
(** * The worker supervisor ([WorkerSupervisor.h], [WorkerSupervisor.cpp], [WorkerRecovery.h])

    Module [Supervisor].  Thread C, the body of [run], is a program ([Concurrency.prog]) whose
    atomic actions are the critical sections of [mutex_] and what it does between them.  The
    other threads are the steps [external_step]: the workers with the control flow of
    [WorkerLoop::run], callers of the public methods, and the threads that share the
    publication state.  A call into [FilterPublicationState] is the step of
    [Publication.act] and [Undef] where its protocol is not kept.

    Waiting on the condition variable is going round the loop again.  In
    [monitor_active_workers] each record is examined in critical sections of its own, which
    only adds interleavings.  The barriers of lifecycle tests ([recovery_probe]) and the
    statistics of a worker are left out. *)
From S2P Require Import Prelude DomainBlocklist FilterPublication Concurrency.

Module Supervisor.

(** ** Data *)
Inductive WorkerRecordState := Offline | Creating | Starting | Ready | Running | Stopping | Exited | Joined | Backoff.
#[global] Instance WorkerRecordState_eq_dec : EqDecision WorkerRecordState.
Proof. solve_decision. Defined.

Inductive WorkerInitStep :=
  | CreateSocket | ConfigureSocket | BindSocket | ReadBoundAddress | CreateEpoll | CreateWakeEvent | CreateGenerationEvent
  | ValidateUpstream | CreateUpstreamSocket | ConnectUpstream | RegisterListener | RegisterWakeEvent | RegisterGenerationEvent
  | RegisterUpstream.

Record WorkerInitError := mkInitError { init_step : WorkerInitStep; init_error_number : Z }.

Module WorkerRuntimeStep.
Inductive t :=
  | StartScheduler | StartTimerQueue | StartUpstreamChannel | AwaitActivation | SynchronizeFilter | WaitForEvents
  | RuntimeInvariant | UnhandledException | Shutdown | UnexpectedStop.
End WorkerRuntimeStep.

Record WorkerRuntimeError := mkRuntimeError { runtime_step : WorkerRuntimeStep.t; runtime_error_number : Z }.

Inductive WorkerReadyOutcome := ReadyOutcome | InitErrorOutcome.
Record WorkerReadyResult := mkReadyResult { ready_outcome : WorkerReadyOutcome; ready_error : option WorkerRuntimeError }.

Module WorkerRunOutcome.
Inductive t := RequestedStop | FatalExit.
End WorkerRunOutcome.
Record WorkerRunResult := mkRunResult { run_outcome : WorkerRunOutcome.t; run_error : option WorkerRuntimeError }.

Inductive GateAction := GateStop | RefreshFilter | GateProceed.

Module StartupErrorCode.
Inductive t :=
  | Cancelled | InvalidConfiguration | InstanceIdExhausted | WorkerCreateFailed | WorkerThreadStartFailed | WorkerInitFailed
  | WorkerExitedBeforeReady | InternalError.
#[global] Instance eq_dec : EqDecision t.
Proof. solve_decision. Defined.
End StartupErrorCode.

(** [None]: [kInvalidWorkerId]. *)
Record SupervisorStartupError := mkStartupError {
  startup_code : StartupErrorCode.t;
  startup_worker_id : option nat;
  startup_instance_id : Z;
  startup_error_number : Z;
  startup_create_error : option WorkerInitError;
  startup_runtime_error : option WorkerRuntimeError;
}.

Record SupervisorStartupInfo := mkStartupInfo { startup_bound_port : Z; startup_worker_count : nat }.
Definition SupervisorStartupResult : Type := SupervisorStartupInfo + SupervisorStartupError.

Module ActivationErrorCode.
Inductive t := Cancelled | WorkerExitedBeforeActivation | InternalError.
#[global] Instance eq_dec : EqDecision t.
Proof. solve_decision. Defined.
End ActivationErrorCode.

Record SupervisorActivationError := mkActivationError {
  activation_code : ActivationErrorCode.t;
  activation_worker_id : option nat;
  activation_instance_id : Z;
  activation_worker_result : option WorkerRunResult;
}.
Definition SupervisorActivationResult : Type := unit + SupervisorActivationError.

Module RunOutcome.
Inductive t := RequestedStop | StartupFailure | FatalExit.
#[global] Instance eq_dec : EqDecision t.
Proof. solve_decision. Defined.
End RunOutcome.

Module RunErrorCode.
Inductive t := None | AlreadyRunning | UnexpectedWorkerStop | WorkerFatalExit | WorkerJoinFailed | InternalError.
#[global] Instance eq_dec : EqDecision t.
Proof. solve_decision. Defined.
End RunErrorCode.

Record SupervisorRunResult := mkSupervisorRunResult {
  outcome_ : RunOutcome.t;
  error_code : RunErrorCode.t;
  result_worker_id : option nat;
  result_instance_id : Z;
  result_error_number : Z;
  result_startup_error : option SupervisorStartupError;
  result_worker_result : option WorkerRunResult;
}.

Inductive WorkerFailurePolicy := FailService | Restart.
#[global] Instance WorkerFailurePolicy_eq_dec : EqDecision WorkerFailurePolicy.
Proof. solve_decision. Defined.

Module WorkerFailureCode.
Inductive t := UnexpectedStop | FatalExit | CreateFailed | ThreadStartFailed | InitFailed | InstanceIdExhausted | JoinFailed.
#[global] Instance eq_dec : EqDecision t.
Proof. solve_decision. Defined.
End WorkerFailureCode.

(** Durations in milliseconds. *)
Record WorkerRecoveryConfig := mkRecoveryConfig {
  policy : WorkerFailurePolicy;
  max_attempts : Z;
  initial_backoff : Z;
  max_backoff : Z;
  stability_window : Z;
}.

Definition is_valid_recovery_config (c : WorkerRecoveryConfig) : bool :=
  bool_decide (policy c = FailService) ||
  bool_decide (policy c = Restart) && negb (max_attempts c =? 0) && (0 <=? initial_backoff c) &&
    (initial_backoff c <=? max_backoff c) && (0 <=? stability_window c).

Record WorkerFailure := mkFailure {
  failure_code : WorkerFailureCode.t;
  failure_worker_id : option nat;
  failure_instance_id : Z;
  failure_error_number : Z;
  failure_create_error : option WorkerInitError;
  failure_runtime_error : option WorkerRuntimeError;
  budget_exhausted : bool;
}.

Record SupervisorHealthSnapshot := mkHealth {
  available_workers : Z;
  restart_count : Z;
  restart_success_count : Z;
  restart_failure_count : Z;
  last_error : option WorkerFailure;
}.

Record WorkerSupervisorFaultHooks := mkHooks {
  failure_from_instance : Z;
  create_failure_worker : option nat;
  create_failure_step : WorkerInitStep;
  create_failure_error : Z;
  thread_failure_worker : option nat;
  thread_failure_error : Z;
  runtime_init_failure_worker : option nat;
  runtime_init_failure_step : WorkerRuntimeStep.t;
  runtime_init_failure_error : Z;
}.

(** [cache_shards], [filter_publication]: of the cache, if there is one, the number of shards;
    whether there is a publication state. *)
Record Config := mkConfig {
  worker_count : nat;
  requested_port : Z;
  cache_shards : option nat;
  filter_publication : bool;
  recovery : WorkerRecoveryConfig;
  fault_hooks : WorkerSupervisorFaultHooks;
  has_fatal_reporter : bool;
  has_health_reporter : bool;
}.

(** What the supervisor keeps of a [WorkerLoop]: its port and its [stop_source_]. *)
Record WorkerLoop := mkLoop { bound_port : Z; loop_stop : bool }.

(** Where a worker thread is in [worker_entry] and [WorkerLoop::run].  [WSync]: in
    [refresh_filter_snapshot], with the place it returns to. *)
Inductive SyncPoint := ToReady | ToActivation | ToDataPlane | ToService.
Inductive WorkerPc :=
  | WStart
  | WSync (next : SyncPoint)
  | WReportReady
  | WReportInitError (error : WorkerRuntimeError)
  | WGateActivation
  | WReportActivated
  | WGateDataPlane
  | WServing
  | WShutdown (result : WorkerRunResult)
  | WCompletion (result : WorkerRunResult)
  | WDone.

Record Thread := mkThread { thread_instance : Z; pc : WorkerPc }.

(** A slot is [Some] when it is published, with its instance; the completion with its time.
    Time points are nanoseconds. *)
Record WorkerRecord := mkRecord {
  state_ : WorkerRecordState;
  instance_id_ : Z;
  current_instance_ : option WorkerLoop;
  current_thread_ : option Thread;
  instance_stop_ : bool;
  observer_instance_ : Z;
  ready_ : option (Z * WorkerReadyResult);
  activated_ : option Z;
  completion_ : option (Z * WorkerRunResult * Z);
  activation_allowed_ : bool;
  data_plane_allowed_ : bool;
  last_result_ : option WorkerRunResult;
  recovery_episode_ : bool;
  recovery_attempts_ : Z;
  next_backoff_ : Z;
  restart_at_ : Z;
  stable_at_ : Z;
}.

Inductive Report := HealthReport (snapshot : SupervisorHealthSnapshot) | FatalReport (failure : WorkerFailure).

(** [pub]: the publication state; the epoch of a record is the one with its number there.
    [reports], [join_failed]: the calls of the reporters, and whether a join has failed; no
    code reads them. *)
Record State := mkState {
  config_ : Config;
  records_ : list WorkerRecord;
  startup_result_ : option SupervisorStartupResult;
  activation_result_ : option SupervisorActivationResult;
  activation_requested_ : bool;
  data_plane_released_ : bool;
  stop_requested_ : bool;
  service_stop_ : bool;
  run_started_ : bool;
  run_active_ : bool;
  abrupt_exit_requested_ : bool;
  abrupt_exit_after_publication_requested_ : bool;
  emergency_join_failure_once_ : bool;
  unexpected_stop_worker_ : option nat;
  unexpected_stop_instance_ : Z;
  join_failure_worker_once_ : option nat;
  effective_bound_port_ : Z;
  health_ : SupervisorHealthSnapshot;
  published_generation_ : Z;
  snapshot_publication_pending_ : bool;
  pub : Publication.World;
  reports : list Report;
  join_failed : bool;
}.

(** ** Updates *)
Definition set_state (v : WorkerRecordState) (x : WorkerRecord) : WorkerRecord :=
  mkRecord v (instance_id_ x) (current_instance_ x) (current_thread_ x) (instance_stop_ x) (observer_instance_ x) (ready_ x) (activated_
    x) (completion_ x) (activation_allowed_ x) (data_plane_allowed_ x) (last_result_ x) (recovery_episode_ x) (recovery_attempts_ x)
    (next_backoff_ x) (restart_at_ x) (stable_at_ x).
Definition set_instance_id (v : Z) (x : WorkerRecord) : WorkerRecord :=
  mkRecord (state_ x) v (current_instance_ x) (current_thread_ x) (instance_stop_ x) (observer_instance_ x) (ready_ x) (activated_ x)
    (completion_ x) (activation_allowed_ x) (data_plane_allowed_ x) (last_result_ x) (recovery_episode_ x) (recovery_attempts_ x)
    (next_backoff_ x) (restart_at_ x) (stable_at_ x).
Definition set_current_instance (v : option WorkerLoop) (x : WorkerRecord) : WorkerRecord :=
  mkRecord (state_ x) (instance_id_ x) v (current_thread_ x) (instance_stop_ x) (observer_instance_ x) (ready_ x) (activated_ x)
    (completion_ x) (activation_allowed_ x) (data_plane_allowed_ x) (last_result_ x) (recovery_episode_ x) (recovery_attempts_ x)
    (next_backoff_ x) (restart_at_ x) (stable_at_ x).
Definition set_current_thread (v : option Thread) (x : WorkerRecord) : WorkerRecord :=
  mkRecord (state_ x) (instance_id_ x) (current_instance_ x) v (instance_stop_ x) (observer_instance_ x) (ready_ x) (activated_ x)
    (completion_ x) (activation_allowed_ x) (data_plane_allowed_ x) (last_result_ x) (recovery_episode_ x) (recovery_attempts_ x)
    (next_backoff_ x) (restart_at_ x) (stable_at_ x).
Definition set_instance_stop (v : bool) (x : WorkerRecord) : WorkerRecord :=
  mkRecord (state_ x) (instance_id_ x) (current_instance_ x) (current_thread_ x) v (observer_instance_ x) (ready_ x) (activated_ x)
    (completion_ x) (activation_allowed_ x) (data_plane_allowed_ x) (last_result_ x) (recovery_episode_ x) (recovery_attempts_ x)
    (next_backoff_ x) (restart_at_ x) (stable_at_ x).
Definition set_observer_instance (v : Z) (x : WorkerRecord) : WorkerRecord :=
  mkRecord (state_ x) (instance_id_ x) (current_instance_ x) (current_thread_ x) (instance_stop_ x) v (ready_ x) (activated_ x)
    (completion_ x) (activation_allowed_ x) (data_plane_allowed_ x) (last_result_ x) (recovery_episode_ x) (recovery_attempts_ x)
    (next_backoff_ x) (restart_at_ x) (stable_at_ x).
Definition set_ready (v : option (Z * WorkerReadyResult)) (x : WorkerRecord) : WorkerRecord :=
  mkRecord (state_ x) (instance_id_ x) (current_instance_ x) (current_thread_ x) (instance_stop_ x) (observer_instance_ x) v (activated_
    x) (completion_ x) (activation_allowed_ x) (data_plane_allowed_ x) (last_result_ x) (recovery_episode_ x) (recovery_attempts_ x)
    (next_backoff_ x) (restart_at_ x) (stable_at_ x).
Definition set_activated (v : option Z) (x : WorkerRecord) : WorkerRecord :=
  mkRecord (state_ x) (instance_id_ x) (current_instance_ x) (current_thread_ x) (instance_stop_ x) (observer_instance_ x) (ready_ x) v
    (completion_ x) (activation_allowed_ x) (data_plane_allowed_ x) (last_result_ x) (recovery_episode_ x) (recovery_attempts_ x)
    (next_backoff_ x) (restart_at_ x) (stable_at_ x).
Definition set_completion (v : option (Z * WorkerRunResult * Z)) (x : WorkerRecord) : WorkerRecord :=
  mkRecord (state_ x) (instance_id_ x) (current_instance_ x) (current_thread_ x) (instance_stop_ x) (observer_instance_ x) (ready_ x)
    (activated_ x) v (activation_allowed_ x) (data_plane_allowed_ x) (last_result_ x) (recovery_episode_ x) (recovery_attempts_ x)
    (next_backoff_ x) (restart_at_ x) (stable_at_ x).
Definition set_activation_allowed (v : bool) (x : WorkerRecord) : WorkerRecord :=
  mkRecord (state_ x) (instance_id_ x) (current_instance_ x) (current_thread_ x) (instance_stop_ x) (observer_instance_ x) (ready_ x)
    (activated_ x) (completion_ x) v (data_plane_allowed_ x) (last_result_ x) (recovery_episode_ x) (recovery_attempts_ x)
    (next_backoff_ x) (restart_at_ x) (stable_at_ x).
Definition set_data_plane_allowed (v : bool) (x : WorkerRecord) : WorkerRecord :=
  mkRecord (state_ x) (instance_id_ x) (current_instance_ x) (current_thread_ x) (instance_stop_ x) (observer_instance_ x) (ready_ x)
    (activated_ x) (completion_ x) (activation_allowed_ x) v (last_result_ x) (recovery_episode_ x) (recovery_attempts_ x)
    (next_backoff_ x) (restart_at_ x) (stable_at_ x).
Definition set_last_result (v : option WorkerRunResult) (x : WorkerRecord) : WorkerRecord :=
  mkRecord (state_ x) (instance_id_ x) (current_instance_ x) (current_thread_ x) (instance_stop_ x) (observer_instance_ x) (ready_ x)
    (activated_ x) (completion_ x) (activation_allowed_ x) (data_plane_allowed_ x) v (recovery_episode_ x) (recovery_attempts_ x)
    (next_backoff_ x) (restart_at_ x) (stable_at_ x).
Definition set_recovery_episode (v : bool) (x : WorkerRecord) : WorkerRecord :=
  mkRecord (state_ x) (instance_id_ x) (current_instance_ x) (current_thread_ x) (instance_stop_ x) (observer_instance_ x) (ready_ x)
    (activated_ x) (completion_ x) (activation_allowed_ x) (data_plane_allowed_ x) (last_result_ x) v (recovery_attempts_ x)
    (next_backoff_ x) (restart_at_ x) (stable_at_ x).
Definition set_recovery_attempts (v : Z) (x : WorkerRecord) : WorkerRecord :=
  mkRecord (state_ x) (instance_id_ x) (current_instance_ x) (current_thread_ x) (instance_stop_ x) (observer_instance_ x) (ready_ x)
    (activated_ x) (completion_ x) (activation_allowed_ x) (data_plane_allowed_ x) (last_result_ x) (recovery_episode_ x) v
    (next_backoff_ x) (restart_at_ x) (stable_at_ x).
Definition set_next_backoff (v : Z) (x : WorkerRecord) : WorkerRecord :=
  mkRecord (state_ x) (instance_id_ x) (current_instance_ x) (current_thread_ x) (instance_stop_ x) (observer_instance_ x) (ready_ x)
    (activated_ x) (completion_ x) (activation_allowed_ x) (data_plane_allowed_ x) (last_result_ x) (recovery_episode_ x)
    (recovery_attempts_ x) v (restart_at_ x) (stable_at_ x).
Definition set_restart_at (v : Z) (x : WorkerRecord) : WorkerRecord :=
  mkRecord (state_ x) (instance_id_ x) (current_instance_ x) (current_thread_ x) (instance_stop_ x) (observer_instance_ x) (ready_ x)
    (activated_ x) (completion_ x) (activation_allowed_ x) (data_plane_allowed_ x) (last_result_ x) (recovery_episode_ x)
    (recovery_attempts_ x) (next_backoff_ x) v (stable_at_ x).
Definition set_stable_at (v : Z) (x : WorkerRecord) : WorkerRecord :=
  mkRecord (state_ x) (instance_id_ x) (current_instance_ x) (current_thread_ x) (instance_stop_ x) (observer_instance_ x) (ready_ x)
    (activated_ x) (completion_ x) (activation_allowed_ x) (data_plane_allowed_ x) (last_result_ x) (recovery_episode_ x)
    (recovery_attempts_ x) (next_backoff_ x) (restart_at_ x) v.

Definition set_records (v : list WorkerRecord) (x : State) : State :=
  mkState (config_ x) v (startup_result_ x) (activation_result_ x) (activation_requested_ x) (data_plane_released_ x) (stop_requested_
    x) (service_stop_ x) (run_started_ x) (run_active_ x) (abrupt_exit_requested_ x) (abrupt_exit_after_publication_requested_ x)
    (emergency_join_failure_once_ x) (unexpected_stop_worker_ x) (unexpected_stop_instance_ x) (join_failure_worker_once_ x)
    (effective_bound_port_ x) (health_ x) (published_generation_ x) (snapshot_publication_pending_ x) (pub x) (reports x) (join_failed
    x).
Definition set_startup_result (v : option SupervisorStartupResult) (x : State) : State :=
  mkState (config_ x) (records_ x) v (activation_result_ x) (activation_requested_ x) (data_plane_released_ x) (stop_requested_ x)
    (service_stop_ x) (run_started_ x) (run_active_ x) (abrupt_exit_requested_ x) (abrupt_exit_after_publication_requested_ x)
    (emergency_join_failure_once_ x) (unexpected_stop_worker_ x) (unexpected_stop_instance_ x) (join_failure_worker_once_ x)
    (effective_bound_port_ x) (health_ x) (published_generation_ x) (snapshot_publication_pending_ x) (pub x) (reports x) (join_failed
    x).
Definition set_activation_result (v : option SupervisorActivationResult) (x : State) : State :=
  mkState (config_ x) (records_ x) (startup_result_ x) v (activation_requested_ x) (data_plane_released_ x) (stop_requested_ x)
    (service_stop_ x) (run_started_ x) (run_active_ x) (abrupt_exit_requested_ x) (abrupt_exit_after_publication_requested_ x)
    (emergency_join_failure_once_ x) (unexpected_stop_worker_ x) (unexpected_stop_instance_ x) (join_failure_worker_once_ x)
    (effective_bound_port_ x) (health_ x) (published_generation_ x) (snapshot_publication_pending_ x) (pub x) (reports x) (join_failed
    x).
Definition set_activation_requested (v : bool) (x : State) : State :=
  mkState (config_ x) (records_ x) (startup_result_ x) (activation_result_ x) v (data_plane_released_ x) (stop_requested_ x)
    (service_stop_ x) (run_started_ x) (run_active_ x) (abrupt_exit_requested_ x) (abrupt_exit_after_publication_requested_ x)
    (emergency_join_failure_once_ x) (unexpected_stop_worker_ x) (unexpected_stop_instance_ x) (join_failure_worker_once_ x)
    (effective_bound_port_ x) (health_ x) (published_generation_ x) (snapshot_publication_pending_ x) (pub x) (reports x) (join_failed
    x).
Definition set_data_plane_released (v : bool) (x : State) : State :=
  mkState (config_ x) (records_ x) (startup_result_ x) (activation_result_ x) (activation_requested_ x) v (stop_requested_ x)
    (service_stop_ x) (run_started_ x) (run_active_ x) (abrupt_exit_requested_ x) (abrupt_exit_after_publication_requested_ x)
    (emergency_join_failure_once_ x) (unexpected_stop_worker_ x) (unexpected_stop_instance_ x) (join_failure_worker_once_ x)
    (effective_bound_port_ x) (health_ x) (published_generation_ x) (snapshot_publication_pending_ x) (pub x) (reports x) (join_failed
    x).
Definition set_stop_requested (v : bool) (x : State) : State :=
  mkState (config_ x) (records_ x) (startup_result_ x) (activation_result_ x) (activation_requested_ x) (data_plane_released_ x) v
    (service_stop_ x) (run_started_ x) (run_active_ x) (abrupt_exit_requested_ x) (abrupt_exit_after_publication_requested_ x)
    (emergency_join_failure_once_ x) (unexpected_stop_worker_ x) (unexpected_stop_instance_ x) (join_failure_worker_once_ x)
    (effective_bound_port_ x) (health_ x) (published_generation_ x) (snapshot_publication_pending_ x) (pub x) (reports x) (join_failed
    x).
Definition set_service_stop (v : bool) (x : State) : State :=
  mkState (config_ x) (records_ x) (startup_result_ x) (activation_result_ x) (activation_requested_ x) (data_plane_released_ x)
    (stop_requested_ x) v (run_started_ x) (run_active_ x) (abrupt_exit_requested_ x) (abrupt_exit_after_publication_requested_ x)
    (emergency_join_failure_once_ x) (unexpected_stop_worker_ x) (unexpected_stop_instance_ x) (join_failure_worker_once_ x)
    (effective_bound_port_ x) (health_ x) (published_generation_ x) (snapshot_publication_pending_ x) (pub x) (reports x) (join_failed
    x).
Definition set_run_started (v : bool) (x : State) : State :=
  mkState (config_ x) (records_ x) (startup_result_ x) (activation_result_ x) (activation_requested_ x) (data_plane_released_ x)
    (stop_requested_ x) (service_stop_ x) v (run_active_ x) (abrupt_exit_requested_ x) (abrupt_exit_after_publication_requested_ x)
    (emergency_join_failure_once_ x) (unexpected_stop_worker_ x) (unexpected_stop_instance_ x) (join_failure_worker_once_ x)
    (effective_bound_port_ x) (health_ x) (published_generation_ x) (snapshot_publication_pending_ x) (pub x) (reports x) (join_failed
    x).
Definition set_run_active (v : bool) (x : State) : State :=
  mkState (config_ x) (records_ x) (startup_result_ x) (activation_result_ x) (activation_requested_ x) (data_plane_released_ x)
    (stop_requested_ x) (service_stop_ x) (run_started_ x) v (abrupt_exit_requested_ x) (abrupt_exit_after_publication_requested_ x)
    (emergency_join_failure_once_ x) (unexpected_stop_worker_ x) (unexpected_stop_instance_ x) (join_failure_worker_once_ x)
    (effective_bound_port_ x) (health_ x) (published_generation_ x) (snapshot_publication_pending_ x) (pub x) (reports x) (join_failed
    x).
Definition set_abrupt_exit_requested (v : bool) (x : State) : State :=
  mkState (config_ x) (records_ x) (startup_result_ x) (activation_result_ x) (activation_requested_ x) (data_plane_released_ x)
    (stop_requested_ x) (service_stop_ x) (run_started_ x) (run_active_ x) v (abrupt_exit_after_publication_requested_ x)
    (emergency_join_failure_once_ x) (unexpected_stop_worker_ x) (unexpected_stop_instance_ x) (join_failure_worker_once_ x)
    (effective_bound_port_ x) (health_ x) (published_generation_ x) (snapshot_publication_pending_ x) (pub x) (reports x) (join_failed
    x).
Definition set_abrupt_exit_after_publication_requested (v : bool) (x : State) : State :=
  mkState (config_ x) (records_ x) (startup_result_ x) (activation_result_ x) (activation_requested_ x) (data_plane_released_ x)
    (stop_requested_ x) (service_stop_ x) (run_started_ x) (run_active_ x) (abrupt_exit_requested_ x) v (emergency_join_failure_once_ x)
    (unexpected_stop_worker_ x) (unexpected_stop_instance_ x) (join_failure_worker_once_ x) (effective_bound_port_ x) (health_ x)
    (published_generation_ x) (snapshot_publication_pending_ x) (pub x) (reports x) (join_failed x).
Definition set_emergency_join_failure_once (v : bool) (x : State) : State :=
  mkState (config_ x) (records_ x) (startup_result_ x) (activation_result_ x) (activation_requested_ x) (data_plane_released_ x)
    (stop_requested_ x) (service_stop_ x) (run_started_ x) (run_active_ x) (abrupt_exit_requested_ x)
    (abrupt_exit_after_publication_requested_ x) v (unexpected_stop_worker_ x) (unexpected_stop_instance_ x) (join_failure_worker_once_
    x) (effective_bound_port_ x) (health_ x) (published_generation_ x) (snapshot_publication_pending_ x) (pub x) (reports x)
    (join_failed x).
Definition set_unexpected_stop_worker (v : option nat) (x : State) : State :=
  mkState (config_ x) (records_ x) (startup_result_ x) (activation_result_ x) (activation_requested_ x) (data_plane_released_ x)
    (stop_requested_ x) (service_stop_ x) (run_started_ x) (run_active_ x) (abrupt_exit_requested_ x)
    (abrupt_exit_after_publication_requested_ x) (emergency_join_failure_once_ x) v (unexpected_stop_instance_ x)
    (join_failure_worker_once_ x) (effective_bound_port_ x) (health_ x) (published_generation_ x) (snapshot_publication_pending_ x) (pub
    x) (reports x) (join_failed x).
Definition set_unexpected_stop_instance (v : Z) (x : State) : State :=
  mkState (config_ x) (records_ x) (startup_result_ x) (activation_result_ x) (activation_requested_ x) (data_plane_released_ x)
    (stop_requested_ x) (service_stop_ x) (run_started_ x) (run_active_ x) (abrupt_exit_requested_ x)
    (abrupt_exit_after_publication_requested_ x) (emergency_join_failure_once_ x) (unexpected_stop_worker_ x) v
    (join_failure_worker_once_ x) (effective_bound_port_ x) (health_ x) (published_generation_ x) (snapshot_publication_pending_ x) (pub
    x) (reports x) (join_failed x).
Definition set_join_failure_worker_once (v : option nat) (x : State) : State :=
  mkState (config_ x) (records_ x) (startup_result_ x) (activation_result_ x) (activation_requested_ x) (data_plane_released_ x)
    (stop_requested_ x) (service_stop_ x) (run_started_ x) (run_active_ x) (abrupt_exit_requested_ x)
    (abrupt_exit_after_publication_requested_ x) (emergency_join_failure_once_ x) (unexpected_stop_worker_ x) (unexpected_stop_instance_
    x) v (effective_bound_port_ x) (health_ x) (published_generation_ x) (snapshot_publication_pending_ x) (pub x) (reports x)
    (join_failed x).
Definition set_effective_bound_port (v : Z) (x : State) : State :=
  mkState (config_ x) (records_ x) (startup_result_ x) (activation_result_ x) (activation_requested_ x) (data_plane_released_ x)
    (stop_requested_ x) (service_stop_ x) (run_started_ x) (run_active_ x) (abrupt_exit_requested_ x)
    (abrupt_exit_after_publication_requested_ x) (emergency_join_failure_once_ x) (unexpected_stop_worker_ x) (unexpected_stop_instance_
    x) (join_failure_worker_once_ x) v (health_ x) (published_generation_ x) (snapshot_publication_pending_ x) (pub x) (reports x)
    (join_failed x).
Definition set_health (v : SupervisorHealthSnapshot) (x : State) : State :=
  mkState (config_ x) (records_ x) (startup_result_ x) (activation_result_ x) (activation_requested_ x) (data_plane_released_ x)
    (stop_requested_ x) (service_stop_ x) (run_started_ x) (run_active_ x) (abrupt_exit_requested_ x)
    (abrupt_exit_after_publication_requested_ x) (emergency_join_failure_once_ x) (unexpected_stop_worker_ x) (unexpected_stop_instance_
    x) (join_failure_worker_once_ x) (effective_bound_port_ x) v (published_generation_ x) (snapshot_publication_pending_ x) (pub x)
    (reports x) (join_failed x).
Definition set_published_generation (v : Z) (x : State) : State :=
  mkState (config_ x) (records_ x) (startup_result_ x) (activation_result_ x) (activation_requested_ x) (data_plane_released_ x)
    (stop_requested_ x) (service_stop_ x) (run_started_ x) (run_active_ x) (abrupt_exit_requested_ x)
    (abrupt_exit_after_publication_requested_ x) (emergency_join_failure_once_ x) (unexpected_stop_worker_ x) (unexpected_stop_instance_
    x) (join_failure_worker_once_ x) (effective_bound_port_ x) (health_ x) v (snapshot_publication_pending_ x) (pub x) (reports x)
    (join_failed x).
Definition set_snapshot_publication_pending (v : bool) (x : State) : State :=
  mkState (config_ x) (records_ x) (startup_result_ x) (activation_result_ x) (activation_requested_ x) (data_plane_released_ x)
    (stop_requested_ x) (service_stop_ x) (run_started_ x) (run_active_ x) (abrupt_exit_requested_ x)
    (abrupt_exit_after_publication_requested_ x) (emergency_join_failure_once_ x) (unexpected_stop_worker_ x) (unexpected_stop_instance_
    x) (join_failure_worker_once_ x) (effective_bound_port_ x) (health_ x) (published_generation_ x) v (pub x) (reports x) (join_failed
    x).
Definition set_pub (v : Publication.World) (x : State) : State :=
  mkState (config_ x) (records_ x) (startup_result_ x) (activation_result_ x) (activation_requested_ x) (data_plane_released_ x)
    (stop_requested_ x) (service_stop_ x) (run_started_ x) (run_active_ x) (abrupt_exit_requested_ x)
    (abrupt_exit_after_publication_requested_ x) (emergency_join_failure_once_ x) (unexpected_stop_worker_ x) (unexpected_stop_instance_
    x) (join_failure_worker_once_ x) (effective_bound_port_ x) (health_ x) (published_generation_ x) (snapshot_publication_pending_ x) v
    (reports x) (join_failed x).
Definition set_reports (v : list Report) (x : State) : State :=
  mkState (config_ x) (records_ x) (startup_result_ x) (activation_result_ x) (activation_requested_ x) (data_plane_released_ x)
    (stop_requested_ x) (service_stop_ x) (run_started_ x) (run_active_ x) (abrupt_exit_requested_ x)
    (abrupt_exit_after_publication_requested_ x) (emergency_join_failure_once_ x) (unexpected_stop_worker_ x) (unexpected_stop_instance_
    x) (join_failure_worker_once_ x) (effective_bound_port_ x) (health_ x) (published_generation_ x) (snapshot_publication_pending_ x)
    (pub x) v (join_failed x).
Definition set_join_failed (v : bool) (x : State) : State :=
  mkState (config_ x) (records_ x) (startup_result_ x) (activation_result_ x) (activation_requested_ x) (data_plane_released_ x)
    (stop_requested_ x) (service_stop_ x) (run_started_ x) (run_active_ x) (abrupt_exit_requested_ x)
    (abrupt_exit_after_publication_requested_ x) (emergency_join_failure_once_ x) (unexpected_stop_worker_ x) (unexpected_stop_instance_
    x) (join_failure_worker_once_ x) (effective_bound_port_ x) (health_ x) (published_generation_ x) (snapshot_publication_pending_ x)
    (pub x) (reports x) v.

Definition get_record (r : nat) (s : State) : outcome unit WorkerRecord := from_option_ub (records_ s !! r).
Definition update_record (r : nat) (g : WorkerRecord → WorkerRecord) (s : State) : State := set_records (alter g r (records_ s)) s.
Definition update_all (g : WorkerRecord → WorkerRecord) (s : State) : State := set_records (g <$> records_ s) s.
Definition report (x : Report) (s : State) : State := set_reports (reports s ++ [x]) s.

Definition joinable (rec : WorkerRecord) : bool := bool_decide (is_Some (current_thread_ rec)).
Definition stop_requested_locked (s : State) : bool := stop_requested_ s || service_stop_ s.

(** A slot is of the current instance. *)
Definition ready_now (rec : WorkerRecord) : option WorkerReadyResult :=
  match ready_ rec with Some (i, result) => if i =? instance_id_ rec then Some result else None | None => None end.
Definition activated_now (rec : WorkerRecord) : bool :=
  match activated_ rec with Some i => i =? instance_id_ rec | None => false end.
Definition completed_now (rec : WorkerRecord) : option WorkerRunResult :=
  match completion_ rec with Some (i, result, _) => if i =? instance_id_ rec then Some result else None | None => None end.
Definition completion_published (rec : WorkerRecord) : bool := bool_decide (is_Some (completion_ rec)).
Definition completed_at (rec : WorkerRecord) : Z := match completion_ rec with Some (_, _, at_) => at_ | None => 0 end.
Definition error_number_of (e : option WorkerRuntimeError) : Z := match e with Some e => runtime_error_number e | None => 0 end.

(** ** Time *)
Definition time_max : Z := 2 ^ 63 - 1.

Definition deadline_after (now delay : Z) : Z :=
  let remaining := Z.quot (time_max - now) 1000000 in
  if remaining <=? delay then time_max else now + delay * 1000000.

Definition doubled_backoff (current maximum : Z) : Z := if maximum - current <=? current then maximum else current + current.

(** ** Results *)
Definition EIO : Z := 5.
Definition EAGAIN : Z := 11.

Definition creation_failure (e : SupervisorStartupError) : WorkerFailure :=
  mkFailure
    (if decide (startup_code e = StartupErrorCode.InstanceIdExhausted) then WorkerFailureCode.InstanceIdExhausted
     else if decide (startup_code e = StartupErrorCode.WorkerThreadStartFailed) then WorkerFailureCode.ThreadStartFailed
     else WorkerFailureCode.CreateFailed)
    (startup_worker_id e) (startup_instance_id e) (startup_error_number e) (startup_create_error e) (startup_runtime_error e) false.

Definition configured_error_or (configured fallback : Z) : Z := if configured =? 0 then fallback else configured.

Definition startup_error (c : StartupErrorCode.t) : SupervisorStartupError := mkStartupError c None 0 0 None None.
Definition cancelled_startup : SupervisorStartupError := startup_error StartupErrorCode.Cancelled.
Definition activation_error (c : ActivationErrorCode.t) : SupervisorActivationError := mkActivationError c None 0 None.
Definition cancelled_activation : SupervisorActivationError := activation_error ActivationErrorCode.Cancelled.
Definition requested_stop_result : SupervisorRunResult :=
  mkSupervisorRunResult RunOutcome.RequestedStop RunErrorCode.None None 0 0 None None.
Definition startup_failure_result (e : SupervisorStartupError) : SupervisorRunResult :=
  mkSupervisorRunResult RunOutcome.StartupFailure RunErrorCode.None (startup_worker_id e) (startup_instance_id e)
    (startup_error_number e) (Some e) None.
Definition fatal_result (c : RunErrorCode.t) : SupervisorRunResult :=
  mkSupervisorRunResult RunOutcome.FatalExit c None 0 0 None None.

(** ** Programs of thread C *)

(** What an action finds outside of the state. *)
Inductive CreateOutcome := Created (port : Z) | CreateError (e : WorkerInitError) | CreateThrows (error_number : Z).
Record Input := mkInput {
  now_ : Z;
  create_outcome : CreateOutcome;
  thread_error : option Z;
  join_throws : bool;
  refresh_error : nat → option Z;
}.

(** [Err]: [InjectedSupervisorFailure] is thrown. *)
Definition M (A : Type) : Type := prog State Input (outcome unit A).
#[export] Instance M_ret : MRet M := λ A a, Ret (Val a).
#[export] Instance M_bind : MBind M := λ A C k c,
  bind c (λ o, match o with Val a => k a | Err e => Ret (Err e) | Undef => Ret Undef end).

Definition atomically {A} (f : Input → State → outcome unit (A * State)) : M A :=
  Act (λ e s, Some (match f e s with Val (a, s') => (Val a, s') | Err u => (Err u, s) | Undef => (Undef, s) end)) Ret.
Definition locked {A} (f : State → outcome unit (A * State)) : M A := atomically (λ _, f).

(** The action waits while [f] is [None]. *)
Definition wait_for {A} (f : Input → State → option (A * State)) : M A :=
  Act (λ e s, '(a, s') ← f e s; Some (Val a, s')) Ret.

Definition loop {X} (body : M (option X)) : M X :=
  While (bind body (λ o, match o with
    | Val None => Ret None
    | Val (Some x) => Ret (Some (Val x))
    | Err e => Ret (Some (Err e))
    | Undef => Ret (Some Undef)
    end)) Ret.

(** [for] with an early return. *)
Fixpoint for_each {X} (l : list nat) (body : nat → M (option X)) : M (option X) :=
  match l with
  | [] => mret None
  | r :: l => o ← body r; match o with Some x => mret (Some x) | None => for_each l body end
  end.

Definition all_records (s : State) : list nat := seq 0 (length (records_ s)).

(** A loop over the records. *)
Definition for_records {X} (body : nat → M (option X)) : M (option X) :=
  l ← locked (λ s, Val (all_records s, s)); for_each l body.

Section programs.
Context {F : Type}.
Variable heap : nat → FilterContext F.

(** *** The publication state *)
Definition publication_step (a : Publication.Action) (s : State) : outcome unit State :=
  p ← from_option_ub (Publication.act heap a (pub s)); Val (set_pub p s).

(** [config_.filter_publication->register_worker], or the stores without one. *)
Definition register_worker (r : nat) (s : State) : outcome unit (bool * State) :=
  rec ← get_record r s;
  let i := instance_id_ rec in
  if filter_publication (config_ s)
  then
    let ok := bool_decide (is_Some (Publication.register_worker r i r (pub s)).1) in
    s ← publication_step (Publication.Register r i) s;
    Val (ok, s)
  else
    let e := Publication.mkWorkerEpoch i Publication.kUnobservedFilterGeneration Publication.Starting
               (Publication.quiesced_through_instance_id (Publication.epochs (pub s) r)) in
    Val (true, set_pub (Publication.set_epoch r e (pub s)) s).

Definition mark_worker_registered (r : nat) (s : State) : outcome unit (bool * State) :=
  rec ← get_record r s;
  let i := instance_id_ rec in
  if filter_publication (config_ s)
  then
    let ok := (Publication.mark_worker_registered r i r (pub s)).1 in
    s ← publication_step (Publication.MarkRegistered r i) s;
    Val (ok, s)
  else
    let e := Publication.epochs (pub s) r in
    Val (true, set_pub (Publication.set_epoch r (Publication.mkWorkerEpoch (Publication.published_instance_id e)
      (Publication.observed_generation e) Publication.Registered (Publication.quiesced_through_instance_id e)) (pub s)) s).

(** The snapshot of the instance is released, in its registration or its [WorkerLoop]. *)
Definition release_snapshot (r : nat) (s : State) : outcome unit State :=
  rec ← get_record r s;
  if filter_publication (config_ s) then publication_step (Publication.ReleaseLocal r (instance_id_ rec)) s else Val s.

Definition quiesce_worker (r : nat) (s : State) : outcome unit State :=
  rec ← get_record r s;
  let i := instance_id_ rec in
  if filter_publication (config_ s) then publication_step (Publication.Quiesce r i) s
  else
    let e := Publication.epochs (pub s) r in
    Val (set_pub (Publication.set_epoch r (Publication.mkWorkerEpoch (Publication.published_instance_id e)
      (Publication.observed_generation e) Publication.Unregistered i) (pub s)) s).

(** *** Health *)
Definition worker_available (rec : WorkerRecord) : bool :=
  bool_decide (state_ rec = Running) && data_plane_allowed_ rec && negb (bool_decide (is_Some (completed_now rec))).

Definition count_available (s : State) : Z := Z.of_nat (length (filter (λ rec, Is_true (worker_available rec)) (records_ s))).

Definition count_health (restarts successes failures : Z) (h : SupervisorHealthSnapshot) : SupervisorHealthSnapshot :=
  mkHealth (available_workers h) (wrap64 (restart_count h + restarts)) (wrap64 (restart_success_count h + successes))
    (wrap64 (restart_failure_count h + failures)) (last_error h).
Definition set_last_error (f : WorkerFailure) (h : SupervisorHealthSnapshot) : SupervisorHealthSnapshot :=
  mkHealth (available_workers h) (restart_count h) (restart_success_count h) (restart_failure_count h) (Some f).

Definition publish_health : M unit :=
  snapshot ← locked (λ s,
    let h := health_ s in
    let h := mkHealth (count_available s) (restart_count h) (restart_success_count h) (restart_failure_count h) (last_error h) in
    Val (h, set_health h s));
  locked (λ s, Val ((), if has_health_reporter (config_ s) then report (HealthReport snapshot) s else s)).

(** *** Creating a worker *)
Definition creation_error (r : nat) (rec : WorkerRecord) (c : StartupErrorCode.t) (error_number : Z)
    (create_error : option WorkerInitError) : SupervisorStartupError :=
  mkStartupError c (Some r) (instance_id_ rec) error_number create_error None.

(** The slot is made ready for the next instance. *)
Definition next_instance (rec : WorkerRecord) : WorkerRecord :=
  mkRecord Creating (instance_id_ rec + 1) (current_instance_ rec) (current_thread_ rec) false (observer_instance_ rec)
    None None None false false (last_result_ rec) (recovery_episode_ rec) (recovery_attempts_ rec) (next_backoff_ rec)
    (restart_at_ rec) (stable_at_ rec).

Definition begin_creation (r : nat) (s : State) : outcome unit (option SupervisorStartupError * State) :=
  rec ← get_record r s;
  if abrupt_exit_requested_ s then Err ()
  else if stop_requested_locked s then Val (Some cancelled_startup, s)
  else
    let s := if recovery_episode_ rec
             then set_health (count_health 1 0 0 (health_ s))
                    (update_record r (set_recovery_attempts (recovery_attempts_ rec + 1)) s)
             else s in
    if instance_id_ rec =? 2 ^ 64 - 1 then Val (Some (creation_error r rec StartupErrorCode.InstanceIdExhausted 0 None), s)
    else if bool_decide (is_Some (current_instance_ rec)) || joinable rec
    then Val (Some (creation_error r rec StartupErrorCode.InternalError 0 None), s)
    else Val (None, update_record r next_instance s).

(** [WorkerLoop::create]: its port, or the error. *)
Definition create_loop (r : nat) (e : Input) (s : State) : outcome unit ((Z + SupervisorStartupError) * State) :=
  rec ← get_record r s;
  let hooks := fault_hooks (config_ s) in
  let failed error_number create_error :=
    s ← release_snapshot r s;
    Val (inr (creation_error r rec StartupErrorCode.WorkerCreateFailed error_number create_error), s) in
  if (failure_from_instance hooks <=? instance_id_ rec) && bool_decide (create_failure_worker hooks = Some r)
  then
    let n := configured_error_or (create_failure_error hooks) EIO in
    failed n (Some (mkInitError (create_failure_step hooks) n))
  else
    match cache_shards (config_ s) with
    | None => Undef
    | Some shards =>
        if (shards <=? r)%nat then Undef
        else
          match create_outcome e with
          | Created port => Val (inl port, s)
          | CreateError error => failed (init_error_number error) (Some error)
          | CreateThrows error_number => failed error_number None
          end
    end.

Definition create_worker (r : nat) (port : Z) : M (option SupervisorStartupError) :=
  error ← locked (begin_creation r);
  match error with
  | Some error => mret (Some error)
  | None =>
      registered ← locked (register_worker r);
      if negb registered
      then locked (λ s, rec ← get_record r s; Val (Some (creation_error r rec StartupErrorCode.InternalError 0 None), s))
      else
        created ← atomically (create_loop r);
        match created with
        | inr error => mret (Some error)
        | inl bound =>
            locked (λ s, Val (None, update_record r (λ rec, set_state Starting (set_current_instance (Some (mkLoop bound false)) rec)) s))
        end
  end.

(** The port that the first worker got, or an error. *)
Definition create_workers : M (option SupervisorStartupError) :=
  l ← locked (λ s, Val (all_records s, s));
  port ← locked (λ s, Val (requested_port (config_ s), s));
  (fix create (l : list nat) (port : Z) : M (option SupervisorStartupError) :=
     match l with
     | [] => mret None
     | r :: l =>
         error ← create_worker r port;
         match error with
         | Some error => mret (Some error)
         | None =>
             port ← locked (λ s,
               if (r =? 0)%nat && (requested_port (config_ s) =? 0)
               then rec ← get_record r s; instance ← from_option_ub (current_instance_ rec); Val (bound_port instance, s)
               else Val (port, s));
             create l port
         end
     end) l port.

(** The thread is created; [Some]: it could not be.  To assign to a joinable thread would
    be to join it. *)
Definition launch (r : nat) (e : Input) (s : State) : outcome unit (option SupervisorStartupError * State) :=
  rec ← get_record r s;
  let hooks := fault_hooks (config_ s) in
  let s := update_record r (set_observer_instance (instance_id_ rec)) s in
  let failure error_number := creation_error r rec StartupErrorCode.WorkerThreadStartFailed error_number None in
  if (failure_from_instance hooks <=? instance_id_ rec) && bool_decide (thread_failure_worker hooks = Some r)
  then Val (Some (failure (configured_error_or (thread_failure_error hooks) EAGAIN)), s)
  else
    match thread_error e with
    | Some error_number => Val (Some (failure error_number), s)
    | None =>
        if joinable rec then Undef
        else Val (None, update_record r (set_current_thread (Some (mkThread (instance_id_ rec) WStart))) s)
    end.

Definition start_worker_thread (r : nat) : M (option SupervisorStartupError) :=
  error ← locked (λ s,
    if abrupt_exit_requested_ s then Err ()
    else if stop_requested_locked s then Val (Some cancelled_startup, s)
    else Val (None, s));
  match error with
  | Some error => mret (Some error)
  | None => atomically (launch r)
  end.

Definition start_worker_threads : M (option SupervisorStartupError) := for_records start_worker_thread.

(** *** Waiting for the workers *)

(** One pass over the records; [Some]: the error that ends the wait. *)
Fixpoint scan_readiness (l : list nat) (s : State) : outcome unit (option SupervisorStartupError * State) :=
  match l with
  | [] => Val (None, s)
  | r :: l =>
      rec ← get_record r s;
      if bool_decide (state_ rec = Ready) then scan_readiness l s
      else
        match ready_now rec with
        | Some result =>
            match ready_outcome result with
            | InitErrorOutcome =>
                Val (Some (mkStartupError StartupErrorCode.WorkerInitFailed (Some r) (instance_id_ rec)
                             (error_number_of (ready_error result)) None (ready_error result)), s)
            | ReadyOutcome =>
                '(registered, s) ← mark_worker_registered r s;
                scan_readiness l (if (registered : bool) then update_record r (set_state Ready) s else s)
            end
        | None =>
            match completed_now rec with
            | Some result =>
                Val (Some (mkStartupError StartupErrorCode.WorkerExitedBeforeReady (Some r) (instance_id_ rec)
                             (error_number_of (run_error result)) None (run_error result)),
                     update_record r (λ rec, set_last_result (Some result) (set_state Exited rec)) s)
            | None => scan_readiness l s
            end
        end
  end.

Definition all_in (st : WorkerRecordState) (s : State) : bool := forallb (λ rec, bool_decide (state_ rec = st)) (records_ s).

Definition await_worker_readiness : M (option SupervisorStartupError) :=
  loop (locked (λ s,
    if abrupt_exit_requested_ s then Err ()
    else if stop_requested_locked s then Val (Some (Some cancelled_startup), s)
    else
      '(error, s) ← scan_readiness (all_records s) s;
      match error with
      | Some error => Val (Some (Some error), s)
      | None => Val (if all_in Ready s then Some None else None, s)
      end)).

Fixpoint find_exited (l : list nat) (s : State) : outcome unit (option SupervisorActivationError * State) :=
  match l with
  | [] => Val (None, s)
  | r :: l =>
      rec ← get_record r s;
      match completed_now rec with
      | Some result =>
          Val (Some (mkActivationError ActivationErrorCode.WorkerExitedBeforeActivation (Some r) (instance_id_ rec) (Some result)),
               update_record r (λ rec, set_last_result (Some result) (set_state Exited rec)) s)
      | None => find_exited l s
      end
  end.

Definition note_activated (rec : WorkerRecord) : WorkerRecord := if activated_now rec then set_state Running rec else rec.

Definition await_activation_command_and_workers : M (option SupervisorActivationError) :=
  loop (locked (λ s,
    if abrupt_exit_requested_ s then Err ()
    else if stop_requested_locked s then Val (Some (Some cancelled_activation), s)
    else
      '(error, s) ← find_exited (all_records s) s;
      match error with
      | Some error => Val (Some (Some error), s)
      | None =>
          if negb (activation_requested_ s) then Val (None, s)
          else
            let s := update_all note_activated s in
            Val (if all_in Running s then Some None else None, s)
      end)).

(** *** Stopping and joining *)
Definition request_worker_stop (r : nat) : M (option unit) :=
  locked (λ s, Val (None, update_record r (set_instance_stop true) s)).
Definition request_all_worker_stops : M unit := _ ← for_records request_worker_stop; mret ().

Definition join_failure (s : State) : State := set_join_failed true s.

(** [current_thread_.join()]: [false]: it throws. *)
Definition join_thread (r : nat) (e : Input) (s : State) : option (bool * State) :=
  match records_ s !! r ≫= current_thread_ with
  | None => Some (true, s)
  | Some t =>
      if join_throws e then Some (false, join_failure s)
      else match pc t with WDone => Some (true, update_record r (set_current_thread None) s) | _ => None end
  end.

Definition join_and_reset (r : nat) : M bool :=
  _ ← locked (λ s, Val ((), update_record r (set_instance_stop true) s));
  failed ← locked (λ s,
    rec ← get_record r s;
    if bool_decide (join_failure_worker_once_ s = Some r)
    then Val (true, join_failure (set_join_failure_worker_once None s))
    else Val (false, if joinable rec && negb (bool_decide (state_ rec = Exited)) then update_record r (set_state Stopping) s else s));
  if (failed : bool) then mret false
  else
    joined ← wait_for (join_thread r);
    if negb joined then mret false
    else
      _ ← locked (λ s, Val ((), update_record r (λ rec,
            set_state Joined (match completed_now rec with Some result => set_last_result (Some result) rec | None => rec end)) s));
      _ ← locked (λ s,
            rec ← get_record r s;
            s ← (if current_instance_ rec then release_snapshot r s else Val s);
            Val ((), update_record r (set_current_instance None) s));
      _ ← locked (λ s, s ← quiesce_worker r s; Val ((), s));
      locked (λ s, Val (true, update_record r (λ rec, set_state Offline (set_activation_allowed false (set_data_plane_allowed false rec))) s)).

Definition join_and_reset_all : M bool :=
  l ← locked (λ s, Val (all_records s, s));
  (fix go (l : list nat) (success : bool) : M bool :=
     match l with
     | [] => mret success
     | r :: l => b ← join_and_reset r; go l (b && success)
     end) l true.

(** *** Failures *)
Definition fail_worker_service (f : WorkerFailure) : M SupervisorRunResult :=
  reporting ← locked (λ s, Val (data_plane_released_ s && negb (stop_requested_locked s), set_health (set_last_error f (health_ s)) s));
  _ ← publish_health;
  _ ← locked (λ s, Val ((), if (reporting : bool) && has_fatal_reporter (config_ s) then report (FatalReport f) s else s));
  mret (mkSupervisorRunResult RunOutcome.FatalExit
    (if decide (failure_code f = WorkerFailureCode.JoinFailed) then RunErrorCode.WorkerJoinFailed
     else if decide (failure_code f = WorkerFailureCode.UnexpectedStop) then RunErrorCode.UnexpectedWorkerStop
     else RunErrorCode.WorkerFatalExit)
    (failure_worker_id f) (failure_instance_id f) (failure_error_number f) None
    (Some (mkRunResult WorkerRunOutcome.FatalExit (failure_runtime_error f)))).

Definition set_failure_code (c : WorkerFailureCode.t) (f : WorkerFailure) : WorkerFailure :=
  mkFailure c (failure_worker_id f) (failure_instance_id f) (failure_error_number f) (failure_create_error f)
    (failure_runtime_error f) (budget_exhausted f).
Definition set_budget_exhausted (f : WorkerFailure) : WorkerFailure :=
  mkFailure (failure_code f) (failure_worker_id f) (failure_instance_id f) (failure_error_number f) (failure_create_error f)
    (failure_runtime_error f) true.

(** The first critical section of [handle_worker_failure]: [true]: stop. *)
Definition note_failure (r : nat) (f : WorkerFailure) (s : State) : outcome unit (bool * State) :=
  rec ← get_record r s;
  if stop_requested_locked s then Val (true, s)
  else
    let s := if 1 <? instance_id_ rec then set_health (count_health 0 0 1 (health_ s)) s else s in
    let rec := if bool_decide (state_ rec = Running) && recovery_episode_ rec && (stable_at_ rec <=? completed_at rec)
               then set_recovery_attempts 0 (set_recovery_episode false rec) else rec in
    let rec := if negb (recovery_episode_ rec)
               then set_next_backoff (initial_backoff (recovery (config_ s))) (set_recovery_episode (data_plane_released_ s) rec) else rec in
    let rec := set_state (if completion_published rec then Exited else Stopping) rec in
    Val (false, set_health (set_last_error f (health_ s)) (update_record r (λ _, rec) s)).

Inductive AfterFailure := StopNow | RestartLater | GiveUp (budget : bool).

(** The last one. *)
Definition decide_restart (r : nat) (f : WorkerFailure) (e : Input) (s : State) : outcome unit (AfterFailure * State) :=
  rec ← get_record r s;
  let c := failure_code f in
  let s := if bool_decide (c = WorkerFailureCode.UnexpectedStop) || bool_decide (c = WorkerFailureCode.FatalExit) ||
              bool_decide (c = WorkerFailureCode.InitFailed)
           then update_record r (set_last_result (Some (mkRunResult WorkerRunOutcome.FatalExit (failure_runtime_error f)))) s else s in
  let conf := recovery (config_ s) in
  if stop_requested_locked s then Val (StopNow, s)
  else if data_plane_released_ s && recovery_episode_ rec && bool_decide (policy conf = Restart) &&
          negb (bool_decide (c = WorkerFailureCode.InstanceIdExhausted))
  then
    if recovery_attempts_ rec <? max_attempts conf
    then Val (RestartLater, update_record r (λ rec,
           set_next_backoff (doubled_backoff (next_backoff_ rec) (max_backoff conf))
             (set_restart_at (deadline_after (now_ e) (next_backoff_ rec)) (set_state Backoff rec))) s)
    else Val (GiveUp true, s)
  else Val (GiveUp false, s).

Definition handle_worker_failure (r : nat) (f : WorkerFailure) : M (option SupervisorRunResult) :=
  stop ← locked (note_failure r f);
  if (stop : bool) then mret (Some requested_stop_result)
  else
    _ ← publish_health;
    joined ← join_and_reset r;
    if negb joined then (result ← fail_worker_service (set_failure_code WorkerFailureCode.JoinFailed f); mret (Some result))
    else
      after ← atomically (decide_restart r f);
      match after with
      | StopNow => mret (Some requested_stop_result)
      | RestartLater => mret None
      | GiveUp budget => result ← fail_worker_service (if (budget : bool) then set_budget_exhausted f else f); mret (Some result)
      end.

(** *** Monitoring *)
Definition live (rec : WorkerRecord) : bool :=
  bool_decide (state_ rec = Starting) || bool_decide (state_ rec = Ready) || bool_decide (state_ rec = Running).

(** The failure of a worker that the supervisor sees in its slots. *)
Definition observed_failure (r : nat) (rec : WorkerRecord) : option WorkerFailure :=
  let failure c e := Some (mkFailure c (Some r) (instance_id_ rec) (error_number_of e) None e false) in
  if negb (live rec) then None
  else
    let of_completion :=
      match completed_now rec with
      | Some result =>
          match run_outcome result with
          | WorkerRunOutcome.RequestedStop =>
              failure WorkerFailureCode.UnexpectedStop (Some (mkRuntimeError WorkerRuntimeStep.UnexpectedStop 0))
          | WorkerRunOutcome.FatalExit => failure WorkerFailureCode.FatalExit (run_error result)
          end
      | None => None
      end in
    match ready_now rec with
    | Some result => match ready_outcome result with
                     | InitErrorOutcome => failure WorkerFailureCode.InitFailed (ready_error result)
                     | ReadyOutcome => of_completion
                     end
    | None => of_completion
    end.

(** Where the turn for a record goes on: with the next step ([true]: there was progress),
    with the next record, out of the loop, or out of the function. *)
Inductive Turn := Onward (progressed : bool) | NextRecord | Leave | Finish (result : SupervisorRunResult).

Definition ready_waits (rec : WorkerRecord) : bool := bool_decide (state_ rec = Starting) && bool_decide (is_Some (ready_now rec)).

Definition accept_ready (r : nat) (waits : bool) : M Turn :=
  if negb waits then mret (Onward false)
  else
    locked (λ s,
      rec ← get_record r s;
      if stop_requested_locked s then Val (Finish requested_stop_result, s)
      else if completion_published rec then Val (Leave, s)
      else
        '(registered, s) ← mark_worker_registered r s;
        if negb registered then Val (NextRecord, s)
        else Val (Onward true, update_record r (λ rec, set_activation_allowed true (set_state Ready rec)) s)).

Definition accept_activated (r : nat) : M Turn :=
  waiting ← locked (λ s, rec ← get_record r s; Val (bool_decide (state_ rec = Ready) && activated_now rec, s));
  if negb waiting then mret (Onward false)
  else
    turn ← atomically (λ e s,
      rec ← get_record r s;
      if stop_requested_locked s then Val (Finish requested_stop_result, s)
      else if completion_published rec then Val (Leave, s)
      else
        let s := update_record r (λ rec,
                   set_stable_at (deadline_after (now_ e) (stability_window (recovery (config_ s))))
                     (set_data_plane_allowed true (set_state Running rec))) s in
        Val (Onward true, set_health (count_health 0 1 0 (health_ s)) s));
    match turn with Onward _ => _ ← publish_health; mret turn | _ => mret turn end.

(** Stability and backoff. *)
Inductive Timing := Completed | Restarting | Waiting (deadline : option Z).

Definition check_times (r : nat) (e : Input) (s : State) : outcome unit (Timing * State) :=
  rec ← get_record r s;
  let now := now_ e in
  if bool_decide (state_ rec = Running) && completion_published rec then Val (Completed, s)
  else if bool_decide (state_ rec = Running) && recovery_episode_ rec
  then
    if stable_at_ rec <=? now
    then Val (Waiting None, update_record r (λ rec,
           set_next_backoff (initial_backoff (recovery (config_ s))) (set_recovery_attempts 0 (set_recovery_episode false rec))) s)
    else Val (Waiting (Some (stable_at_ rec)), s)
  else if negb (bool_decide (state_ rec = Backoff)) then Val (Waiting None, s)
  else if now <? restart_at_ rec then Val (Waiting (Some (restart_at_ rec)), s)
  else Val (Restarting, s).

Definition restart_worker (r : nat) : M Turn :=
  port ← locked (λ s, Val (effective_bound_port_ s, s));
  error ← create_worker r port;
  _ ← publish_health;
  error ← match error with None => start_worker_thread r | Some error => mret (Some error) end;
  match error with
  | None => mret Leave
  | Some error =>
      if decide (startup_code error = StartupErrorCode.Cancelled) then mret (Finish requested_stop_result)
      else
        terminal ← handle_worker_failure r (creation_failure error);
        mret match terminal with Some result => Finish result | None => Leave end
  end.

(** The turn for a record: what is left to do in the loop, and its deadline. *)
Definition monitor_record (r : nat) : M (Turn * option Z) :=
  '(failure, waits) ← locked (λ s, rec ← get_record r s; Val ((observed_failure r rec, ready_waits rec), s));
  match failure with
  | Some f =>
      terminal ← handle_worker_failure r f;
      mret (match terminal with Some result => Finish result | None => Leave end, None)
  | None =>
      first ← accept_ready r waits;
      match first with
      | Onward p =>
          second ← accept_activated r;
          match second with
          | Onward q =>
              timing ← atomically (check_times r);
              match timing with
              | Completed => mret (Leave, None)
              | Waiting deadline => mret (Onward (p || q), deadline)
              | Restarting => turn ← restart_worker r; mret (turn, None)
              end
          | _ => mret (second, None)
          end
      | _ => mret (first, None)
      end
  end.

Definition sooner (a b : option Z) : option Z :=
  match a, b with Some a, Some b => Some (Z.min a b) | Some a, None => Some a | None, b => b end.

(** The loop over the records: the result of the function, or whether there was progress,
    and the deadline. *)
Fixpoint monitor_records (l : list nat) (progressed : bool) (deadline : option Z) : M (SupervisorRunResult + bool * option Z) :=
  match l with
  | [] => mret (inr (progressed, deadline))
  | r :: l =>
      '(turn, d) ← monitor_record r;
      match turn with
      | Finish result => mret (inl result)
      | Leave => mret (inr (true, deadline))
      | NextRecord => monitor_records l progressed deadline
      | Onward p => monitor_records l (progressed || p) (sooner deadline d)
      end
  end.

(** [request_filter_refresh] on every instance; [Some]: the record for which it failed. *)
Fixpoint request_refreshes (l : list nat) (e : Input) (s : State) : outcome unit (option SupervisorRunResult) :=
  match l with
  | [] => Val None
  | r :: l =>
      rec ← get_record r s;
      match current_instance_ rec, refresh_error e r with
      | Some _, Some error_number =>
          Val (Some (mkSupervisorRunResult RunOutcome.FatalExit RunErrorCode.InternalError (Some r) (instance_id_ rec) error_number None None))
      | _, _ => request_refreshes l e s
      end
  end.

(** What precedes the loop over the records: a worker to be stopped, or a result. *)
Inductive MonitorStart := GoOn | StopWorker (r : nat) (instance_id : Z) | Return (result : SupervisorRunResult).

Definition monitor_begin (e : Input) (s : State) : outcome unit (MonitorStart * State) :=
  if abrupt_exit_requested_ s then Err ()
  else if stop_requested_locked s then Val (Return requested_stop_result, s)
  else
    failed ← (if snapshot_publication_pending_ s then request_refreshes (all_records s) e s else Val None);
    let s := set_snapshot_publication_pending false s in
    match failed with
    | Some result => Val (Return result, s)
    | None =>
        match unexpected_stop_worker_ s with
        | Some r => Val (StopWorker r (unexpected_stop_instance_ s), set_unexpected_stop_worker None s)
        | None => Val (GoOn, s)
        end
    end.

Definition stop_loop (rec : WorkerRecord) : WorkerRecord :=
  match current_instance_ rec with Some l => set_current_instance (Some (mkLoop (bound_port l) true)) rec | None => rec end.

Definition monitor_active_workers : M SupervisorRunResult :=
  loop (
    start ← atomically monitor_begin;
    match start with
    | Return result => mret (Some result)
    | StopWorker r i =>
        _ ← locked (λ s, rec ← get_record r s; Val ((), if instance_id_ rec =? i then update_record r stop_loop s else s));
        mret None
    | GoOn =>
        l ← locked (λ s, Val (all_records s, s));
        o ← monitor_records l false None;
        mret match o with inl result => Some result | inr _ => None end
    end).

(** *** [run] *)
Definition publish_startup (result : SupervisorStartupResult) : M unit :=
  locked (λ s, Val ((), match startup_result_ s with Some _ => s | None => set_startup_result (Some result) s end)).
Definition publish_activation (result : SupervisorActivationResult) : M unit :=
  locked (λ s, Val ((), match activation_result_ s with Some _ => s | None => set_activation_result (Some result) s end)).
Definition publish_abrupt_failure : M unit :=
  _ ← publish_startup (inr (startup_error StartupErrorCode.InternalError));
  publish_activation (inr (activation_error ActivationErrorCode.InternalError)).
Definition finish_run : M unit := locked (λ s, Val ((), set_run_active false s)).

Definition valid_configuration (c : Config) : bool :=
  negb (worker_count c =? 0)%nat && match cache_shards c with Some n => (worker_count c <=? n)%nat | None => false end &&
  is_valid_recovery_config (recovery c).

Definition stop_and_join : M bool := _ ← request_all_worker_stops; join_and_reset_all.

Definition startup_failed (e : SupervisorStartupError) : M SupervisorRunResult :=
  let cancelled := bool_decide (startup_code e = StartupErrorCode.Cancelled) in
  _ ← publish_startup (inr e);
  _ ← publish_activation (inr (if cancelled then cancelled_activation
        else mkActivationError ActivationErrorCode.InternalError (startup_worker_id e) (startup_instance_id e) None));
  _ ← stop_and_join;
  mret (if cancelled then requested_stop_result else startup_failure_result e).

Definition activation_failed (e : SupervisorActivationError) : M SupervisorRunResult :=
  _ ← publish_activation (inr e);
  stopping ← locked (λ s, Val (stop_requested_locked s, s));
  _ ← stop_and_join;
  if stopping || bool_decide (activation_code e = ActivationErrorCode.Cancelled) then mret requested_stop_result
  else
    let normalized := default (mkRunResult WorkerRunOutcome.FatalExit (Some (mkRuntimeError WorkerRuntimeStep.AwaitActivation 0)))
                        (activation_worker_result e) in
    let '(normalized, c) :=
      match run_outcome normalized with
      | WorkerRunOutcome.RequestedStop =>
          (mkRunResult WorkerRunOutcome.FatalExit (run_error normalized), RunErrorCode.UnexpectedWorkerStop)
      | WorkerRunOutcome.FatalExit => (normalized, RunErrorCode.WorkerFatalExit)
      end in
    mret (mkSupervisorRunResult RunOutcome.FatalExit c (activation_worker_id e) (activation_instance_id e) 0 None (Some normalized)).

Definition run_active_workers : M SupervisorRunResult :=
  _ ← publish_activation (inl ());
  result ← monitor_active_workers;
  _ ← request_all_worker_stops;
  if decide (error_code result = RunErrorCode.WorkerJoinFailed) then mret result
  else
    joined ← join_and_reset_all;
    mret (if negb joined && negb (bool_decide (outcome_ result = RunOutcome.FatalExit)) then fatal_result RunErrorCode.InternalError else result).

Definition start_up : M (option SupervisorStartupError) :=
  error ← create_workers;
  error ← match error with None => start_worker_threads | Some error => mret (Some error) end;
  match error with None => await_worker_readiness | Some error => mret (Some error) end.

Definition run_impl : M SupervisorRunResult :=
  stopped ← locked (λ s, Val (stop_requested_locked s, s));
  if (stopped : bool) then
    _ ← publish_startup (inr cancelled_startup);
    _ ← publish_activation (inr cancelled_activation);
    mret requested_stop_result
  else
    valid ← locked (λ s, if abrupt_exit_requested_ s then Err () else Val (valid_configuration (config_ s), s));
    if negb valid then
      let e := startup_error StartupErrorCode.InvalidConfiguration in
      _ ← publish_startup (inr e);
      _ ← publish_activation (inr (activation_error ActivationErrorCode.InternalError));
      mret (startup_failure_result e)
    else
      error ← start_up;
      match error with
      | Some e => startup_failed e
      | None =>
          info ← locked (λ s,
            rec ← get_record 0 s; instance ← from_option_ub (current_instance_ rec);
            Val (mkStartupInfo (bound_port instance) (length (records_ s)), s));
          _ ← publish_startup (inl info);
          error ← await_activation_command_and_workers;
          match error with
          | Some e => activation_failed e
          | None => run_active_workers
          end
      end.

Definition run : M SupervisorRunResult :=
  started ← locked (λ s, Val (negb (run_started_ s), if run_started_ s then s else set_run_active true (set_run_started true s)));
  if negb started then mret (fatal_result RunErrorCode.AlreadyRunning)
  else
    bind run_impl (λ o,
      match o with
      | Val result => _ ← finish_run; mret result
      | Err e => _ ← publish_abrupt_failure; _ ← request_all_worker_stops; _ ← finish_run; (Ret (Err e) : M SupervisorRunResult)
      | Undef => (Ret Undef : M SupervisorRunResult)
      end).

(** *** The successor of thread C *)
Definition emergency_join_all : M bool :=
  active ← locked (λ s, Val (run_active_ s, s));
  if (active : bool) then mret false
  else
    _ ← locked (λ s, Val ((), set_stop_requested true s));
    _ ← request_all_worker_stops;
    failing ← locked (λ s, Val (emergency_join_failure_once_ s, set_emergency_join_failure_once false s));
    if (failing : bool) then mret false else join_and_reset_all.

(** ** Callbacks of the workers ([WorkerRecordObserver]) *)
Definition report_worker_ready (r : nat) (i : Z) (result : WorkerReadyResult) (s : State) : State :=
  match records_ s !! r with
  | None => s
  | Some rec =>
      if negb (i =? instance_id_ rec) || bool_decide (is_Some (ready_ rec)) then s
      else
        let hooks := fault_hooks (config_ s) in
        let injected := match ready_outcome result with ReadyOutcome => true | InitErrorOutcome => false end &&
                        (failure_from_instance hooks <=? instance_id_ rec) && bool_decide (runtime_init_failure_worker hooks = Some r) in
        if injected
        then
          let error := mkRuntimeError (runtime_init_failure_step hooks) (configured_error_or (runtime_init_failure_error hooks) EIO) in
          update_record r (λ rec, set_instance_stop true (set_ready (Some (i, mkReadyResult InitErrorOutcome (Some error))) rec)) s
        else update_record r (set_ready (Some (i, result))) s
  end.

Definition report_worker_activated (r : nat) (i : Z) (s : State) : State :=
  match records_ s !! r with
  | None => s
  | Some rec =>
      if negb (i =? instance_id_ rec) || bool_decide (is_Some (activated_ rec)) then s
      else update_record r (set_activated (Some i)) s
  end.

Definition report_worker_completion (r : nat) (i : Z) (result : WorkerRunResult) (now : Z) (s : State) : State :=
  match records_ s !! r with
  | None => s
  | Some rec =>
      if negb (i =? instance_id_ rec) || completion_published rec then s
      else update_record r (set_completion (Some (i, result, now))) s
  end.

Definition needs_refresh (r : nat) (i : Z) (s : State) : bool :=
  filter_publication (config_ s) && Publication.worker_needs_refresh i (Publication.epochs (pub s) r) (pub s).

(** The gates: [None] while the worker waits; [stop_token]: its stop is requested. *)
Definition await_worker_activation (r : nat) (i : Z) (stop_token : bool) (s : State) : option GateAction :=
  rec ← records_ s !! r;
  let ready := negb (i =? instance_id_ rec) || activation_allowed_ rec || stop_requested_locked s || instance_stop_ rec ||
               needs_refresh r i s in
  if negb ready && negb stop_token then None
  else if negb ready || negb (i =? instance_id_ rec) || stop_requested_locked s || instance_stop_ rec then Some GateStop
  else if needs_refresh r i s then Some RefreshFilter
  else Some (if activation_allowed_ rec then GateProceed else GateStop).

Definition await_worker_data_plane (r : nat) (i : Z) (stop_token : bool) (s : State) : option GateAction :=
  rec ← records_ s !! r;
  let released := negb (i =? instance_id_ rec) || data_plane_allowed_ rec || stop_requested_locked s || abrupt_exit_requested_ s ||
                  instance_stop_ rec || needs_refresh r i s in
  if negb released && negb stop_token then None
  else if negb released || negb (i =? instance_id_ rec) || stop_requested_locked s || abrupt_exit_requested_ s || instance_stop_ rec
  then Some GateStop
  else if needs_refresh r i s then Some RefreshFilter
  else Some (if data_plane_allowed_ rec then GateProceed else GateStop).

(** *** The thread of a worker: [worker_entry] and the control flow of [WorkerLoop::run] *)

(** What happens to the worker.  [worker_throws]: an exception; [start_error]: of the start of
    the runtime; [service]: in the event loop; [shutdown_error]: after it. *)
Inductive ServiceEvent := GenerationEvent | ServiceError (e : WorkerRuntimeError) | SeeStop.
Record WorkerChoice := mkChoice {
  worker_now : Z;
  worker_throws : bool;
  start_error : option WorkerRuntimeStep.t;
  service : ServiceEvent;
  shutdown_error : option WorkerRuntimeStep.t;
}.

Definition requested_stop : WorkerRunResult := mkRunResult WorkerRunOutcome.RequestedStop None.
Definition fatal_exit (step : WorkerRuntimeStep.t) (n : Z) : WorkerRunResult :=
  mkRunResult WorkerRunOutcome.FatalExit (Some (mkRuntimeError step n)).

(** The stop token of the running [WorkerLoop]: its own source, to which the one of the
    instance is forwarded. *)
Definition loop_stop_requested (rec : WorkerRecord) : bool :=
  instance_stop_ rec || match current_instance_ rec with Some l => loop_stop l | None => false end.

Definition set_pc (r : nat) (p : WorkerPc) (s : State) : State :=
  update_record r (λ rec, match current_thread_ rec with
                          | Some t => set_current_thread (Some (mkThread (thread_instance t) p)) rec
                          | None => rec
                          end) s.

(** [refresh_filter_snapshot]. *)
Definition refresh_filter_snapshot (r : nat) (i : Z) (s : State) : bool * State :=
  let '(ok, advanced, local, p) := Publication.refresh_locked heap (Publication.locals (pub s) !! (r, i)) i r (pub s) in
  let p := Publication.set_local (r, i) local p in
  (ok, set_pub (if (advanced : bool) then Publication.owe (S (Publication.progress_owed p)) p else p) s).

Definition after_sync (next : SyncPoint) : WorkerPc :=
  match next with ToReady => WReportReady | ToActivation => WGateActivation | ToDataPlane => WGateDataPlane | ToService => WServing end.

(** An exception leaves [run] for its handler, which reports ready if that is not done. *)
Definition throw_from (p : WorkerPc) : WorkerPc :=
  match p with
  | WStart | WSync ToReady | WReportReady => WReportInitError (mkRuntimeError WorkerRuntimeStep.UnhandledException 0)
  | _ => WShutdown (fatal_exit WorkerRuntimeStep.UnhandledException 0)
  end.

Definition leave_gate (rec : WorkerRecord) (a : GateAction) (refresh : SyncPoint) (proceed : WorkerPc) : WorkerPc :=
  match a with
  | RefreshFilter => WSync refresh
  | GateStop => WShutdown (if loop_stop_requested rec then requested_stop else fatal_exit WorkerRuntimeStep.AwaitActivation 0)
  | GateProceed => if loop_stop_requested rec then WShutdown requested_stop else proceed
  end.

Definition worker_step (r : nat) (ch : WorkerChoice) (s : State) : option State :=
  rec ← records_ s !! r;
  t ← current_thread_ rec;
  let i := observer_instance_ rec in
  let goto p s := Some (set_pc r p s) in
  match pc t with
  | WDone => None
  | WCompletion result => goto WDone (report_worker_completion r (thread_instance t) result (worker_now ch) s)
  | WShutdown result =>
      goto (WCompletion match run_outcome result, shutdown_error ch with
                        | WorkerRunOutcome.RequestedStop, Some step => fatal_exit step 0
                        | _, _ => result
                        end) s
  | WReportInitError error =>
      goto (WShutdown (mkRunResult WorkerRunOutcome.FatalExit (Some error)))
        (report_worker_ready r i (mkReadyResult InitErrorOutcome (Some error)) s)
  | p =>
      if worker_throws ch then goto (throw_from p) s
      else
        match p with
        | WStart =>
            match start_error ch with
            | Some step => goto (WReportInitError (mkRuntimeError step 0)) s
            | None => goto (if filter_publication (config_ s) then WSync ToReady else WReportReady) s
            end
        | WSync next =>
            let '(ok, s) := refresh_filter_snapshot r (thread_instance t) s in
            goto (if (ok : bool) then after_sync next
                  else match next with
                       | ToReady => WReportInitError (mkRuntimeError WorkerRuntimeStep.SynchronizeFilter 0)
                       | _ => WShutdown (fatal_exit WorkerRuntimeStep.SynchronizeFilter 0)
                       end) s
        | WReportReady => goto WGateActivation (report_worker_ready r i (mkReadyResult ReadyOutcome None) s)
        | WGateActivation =>
            a ← await_worker_activation r i (loop_stop_requested rec) s;
            goto (leave_gate rec a ToActivation WReportActivated) s
        | WReportActivated => goto WGateDataPlane (report_worker_activated r i s)
        | WGateDataPlane =>
            a ← await_worker_data_plane r i (loop_stop_requested rec) s;
            goto (leave_gate rec a ToDataPlane WServing) s
        | WServing =>
            match service ch with
            | GenerationEvent => goto (if loop_stop_requested rec then WShutdown requested_stop else WSync ToService) s
            | ServiceError e => goto (WShutdown (mkRunResult WorkerRunOutcome.FatalExit (Some e))) s
            | SeeStop => if loop_stop_requested rec then goto (WShutdown requested_stop) s else None
            end
        | _ => None
        end
  end.

(** ** Calls from other threads *)
Definition request_activation (s : State) : bool * State :=
  if stop_requested_locked s || activation_requested_ s || bool_decide (is_Some (activation_result_ s)) || negb (run_active_ s) ||
     match startup_result_ s with Some (inl _) => false | _ => true end
  then (false, s)
  else (true, update_all (set_activation_allowed true) (set_activation_requested true s)).

(** [wait_for_startup], [wait_for_activation]: [None] while the caller waits. *)
Definition wait_for_startup (stop_token : bool) (s : State) : option SupervisorStartupResult :=
  match startup_result_ s with Some result => Some result | None => if stop_token then Some (inr cancelled_startup) else None end.
Definition wait_for_activation (stop_token : bool) (s : State) : option SupervisorActivationResult :=
  match activation_result_ s with Some result => Some result | None => if stop_token then Some (inr cancelled_activation) else None end.

(** The first record, from number [r] on, that keeps the data plane closed. *)
Fixpoint not_running (r : nat) (l : list WorkerRecord) : option SupervisorActivationError :=
  match l with
  | [] => None
  | rec :: l =>
      let completion := completed_now rec in
      if negb (bool_decide (state_ rec = Running)) || bool_decide (is_Some completion)
      then Some (mkActivationError ActivationErrorCode.WorkerExitedBeforeActivation (Some r) (instance_id_ rec)
                   (match completion with Some result => Some result | None => last_result_ rec end))
      else not_running (S r) l
  end.

Definition release_data_plane (s : State) : SupervisorActivationResult * State :=
  if stop_requested_locked s then (inr cancelled_activation, s)
  else if abrupt_exit_requested_ s then (inr (activation_error ActivationErrorCode.InternalError), s)
  else
    match not_running 0 (records_ s) with
    | Some e => (inr e, s)
    | None =>
        if data_plane_released_ s || negb (run_active_ s) || match activation_result_ s with Some (inl _) => false | _ => true end
        then (inr (activation_error ActivationErrorCode.InternalError), s)
        else
          let port := match startup_result_ s with Some (inl info) => startup_bound_port info | _ => requested_port (config_ s) end in
          (inl (), update_all (set_data_plane_allowed true) (set_effective_bound_port port (set_data_plane_released true s)))
    end.

Definition snapshot_published (generation : Z) (s : State) : State :=
  if generation <=? published_generation_ s then s
  else
    let s := set_snapshot_publication_pending true (set_published_generation generation s) in
    if abrupt_exit_after_publication_requested_ s
    then set_abrupt_exit_requested true (set_abrupt_exit_after_publication_requested false s)
    else s.

Definition inject_worker_unexpected_stop (r : nat) (s : State) : State :=
  match records_ s !! r with
  | Some rec =>
      if negb (run_active_ s) || bool_decide (is_Some (unexpected_stop_worker_ s)) || negb (data_plane_released_ s) then s
      else if negb (bool_decide (state_ rec = Running)) || completion_published rec then s
      else set_unexpected_stop_instance (instance_id_ rec) (set_unexpected_stop_worker (Some r) s)
  | None => s
  end.

Definition inject_worker_precommit_failure (r : nat) (s : State) : State :=
  match records_ s !! r with
  | Some rec =>
      if negb (run_active_ s) || data_plane_released_ s || match activation_result_ s with Some (inl _) => false | _ => true end then s
      else if negb (bool_decide (state_ rec = Running)) || completion_published rec then s
      else update_record r (set_completion (Some (instance_id_ rec, fatal_exit WorkerRuntimeStep.AwaitActivation EIO, 0))) s
  | None => s
  end.

(** Steps of threads other than C.  [StopRecord]: [request_all_worker_stops] in [request_stop],
    one record at a time; [ServiceStop]: the stop token of the service;
    [Publish]: a step of the writer, of the reclaimer or of a call's [publish_progress]. *)
Inductive External :=
  | WorkerStep (r : nat) (ch : WorkerChoice)
  | RequestStop
  | StopRecord (r : nat)
  | ServiceStop
  | RequestActivation
  | ReleaseDataPlane
  | SnapshotPublished (generation : Z)
  | InjectAbruptExit
  | InjectAbruptExitAfterPublication
  | InjectUnexpectedStop (r : nat)
  | InjectPrecommitFailure (r : nat)
  | InjectEmergencyJoinFailure
  | InjectJoinFailure (r : nat)
  | Publish (a : Publication.Action).

(** The steps of [Publication.act] that neither the supervisor nor the workers make. *)
Definition publishers_step (a : Publication.Action) : bool :=
  match a with
  | Publication.Register _ _ | Publication.MarkRegistered _ _ | Publication.Refresh _ _ | Publication.ReleaseLocal _ _
  | Publication.Quiesce _ _ => false
  | _ => true
  end.

Definition external_step (v : External) (s : State) : option State :=
  match v with
  | WorkerStep r ch => worker_step r ch s
  | RequestStop => Some (set_stop_requested true s)
  | StopRecord r => if stop_requested_ s then Some (update_record r (set_instance_stop true) s) else None
  | ServiceStop => Some (set_service_stop true s)
  | RequestActivation => Some (request_activation s).2
  | ReleaseDataPlane => Some (release_data_plane s).2
  | SnapshotPublished generation => Some (snapshot_published generation s)
  | InjectAbruptExit => Some (set_abrupt_exit_requested true s)
  | InjectAbruptExitAfterPublication => Some (set_abrupt_exit_after_publication_requested true s)
  | InjectUnexpectedStop r => Some (inject_worker_unexpected_stop r s)
  | InjectPrecommitFailure r => Some (inject_worker_precommit_failure r s)
  | InjectEmergencyJoinFailure => Some (set_emergency_join_failure_once true s)
  | InjectJoinFailure r => Some (set_join_failure_worker_once (Some r) s)
  | Publish a => if publishers_step a then p ← Publication.act heap a (pub s); Some (set_pub p s) else None
  end.

(** ** Construction *)
Definition new_record : WorkerRecord :=
  mkRecord Offline 0 None None false 0 None None None false false None false 0 0 0 0.

Definition new_health : SupervisorHealthSnapshot := mkHealth 0 0 0 0 None.

Definition make_supervisor (c : Config) (p : Publication.World) : State :=
  mkState c (replicate (worker_count c) new_record) None None false false false false false false false false false None 0 None 0
    new_health
    (if filter_publication c then Publication.current_generation_ (Publication.publication p) else kInitialFilterGeneration)
    false p [] false.

End programs.
End Supervisor.
