(* ===== verification/SupervisorInvariant.v ===== *)
(** * The state of the supervisor: its invariants, and what other threads leave alone

    [inv]: what holds in every state.  [rely]: what the steps of other threads do not
    change, as far as thread C is concerned: the fields that only C writes ([shell]), the
    slots once they are published, and the snapshots and epochs of workers without a
    thread.  [external_safe]: every step of another thread keeps [inv] and is in [rely]. *)
From stdpp Require Import relations functions.
From S2P Require Import Prelude DomainBlocklist FilterPublication Concurrency WorkerSupervisor.
Import Supervisor.

(** ** Records *)

(** The fields that only C writes. *)
Definition shell (rec : WorkerRecord) : WorkerRecord :=
  mkRecord (state_ rec) (instance_id_ rec) (current_instance_ rec)
    ((λ t, mkThread (thread_instance t) WDone) <$> current_thread_ rec) false (observer_instance_ rec) None None None false false
    (last_result_ rec) (recovery_episode_ rec) (recovery_attempts_ rec) (next_backoff_ rec) (restart_at_ rec) (stable_at_ rec).

Definition may_run (st : WorkerRecordState) : bool :=
  match st with Starting | Ready | Running | Stopping | Exited => true | _ => false end.
Definition has_instance (st : WorkerRecordState) : bool := may_run st || bool_decide (st = Joined).

Definition ready_ok (rec : WorkerRecord) : Prop := ∃ x, ready_ rec = Some (instance_id_ rec, x) ∧ ready_outcome x = ReadyOutcome.
Definition activation_passed (rec : WorkerRecord) : Prop := ready_ok rec ∧ activation_allowed_ rec = true.
Definition activation_reported (rec : WorkerRecord) : Prop := activation_passed rec ∧ is_Some (activated_ rec).

(** What a worker has done and been allowed when it gets to a point of [run]. *)
Definition pc_ok (rec : WorkerRecord) (p : WorkerPc) : Prop :=
  match p with
  | WStart | WSync ToReady | WReportReady | WReportInitError _ => ready_ rec = None
  | WGateActivation | WSync ToActivation => is_Some (ready_ rec) ∧ (ready_ok rec ∨ instance_stop_ rec = true)
  | WReportActivated => activation_passed rec
  | WGateDataPlane | WSync ToDataPlane => activation_reported rec
  | WServing | WSync ToService => activation_reported rec ∧ data_plane_allowed_ rec = true
  | WShutdown _ | WCompletion _ => True
  | WDone => is_Some (completion_ rec)
  end.

(** The slots are of the current instance. *)
Definition slots_mine (rec : WorkerRecord) : Prop :=
  (∀ i x, ready_ rec = Some (i, x) → i = instance_id_ rec) ∧
  (∀ i, activated_ rec = Some i → i = instance_id_ rec) ∧
  (∀ i x n, completion_ rec = Some (i, x, n) → i = instance_id_ rec).

Definition slots_empty (rec : WorkerRecord) : Prop := ready_ rec = None ∧ activated_ rec = None ∧ completion_ rec = None.

(** What is published stays, what is allowed or requested stays so. *)
Record slots_later (rec rec' : WorkerRecord) : Prop := {
  later_ready : ∀ x, ready_ rec = Some x → ready_ rec' = Some x;
  later_activated : ∀ x, activated_ rec = Some x → activated_ rec' = Some x;
  later_completion : ∀ x, completion_ rec = Some x → completion_ rec' = Some x;
  later_stop : instance_stop_ rec = true → instance_stop_ rec' = true;
  later_activation : activation_allowed_ rec = true → activation_allowed_ rec' = true;
  later_data_plane : data_plane_allowed_ rec = true → data_plane_allowed_ rec' = true;
}.

#[global] Instance slots_later_preorder : PreOrder slots_later.
Proof. split; [by intros x; split | intros x y z [] []; split; auto]. Qed.

(** [requested], [released]: the activation is requested, the data plane released. *)
Record rec_ok (c : Config) (requested released : bool) (rec : WorkerRecord) : Prop := {
  ok_id : 0 ≤ instance_id_ rec < 2 ^ 64;
  ok_thread : ∀ t, current_thread_ rec = Some t →
    is_Some (current_instance_ rec) ∧ thread_instance t = instance_id_ rec ∧ observer_instance_ rec = instance_id_ rec ∧
    may_run (state_ rec) = true;
  ok_instance : is_Some (current_instance_ rec) → has_instance (state_ rec) = true;
  ok_starting : state_ rec = Starting → is_Some (current_instance_ rec);
  ok_slots : slots_mine rec;
  ok_fresh : current_thread_ rec = None → state_ rec = Creating ∨ state_ rec = Starting → slots_empty rec;
  ok_ready : state_ rec = Ready ∨ state_ rec = Running → is_Some (current_thread_ rec) ∧ ready_ok rec;
  ok_running : state_ rec = Running → is_Some (activated_ rec);
  ok_pc : ∀ t, current_thread_ rec = Some t → pc_ok rec (pc t);
  ok_activation : activation_allowed_ rec = true → requested = true;
  ok_data_plane : data_plane_allowed_ rec = true → released = true;
  ok_episode : recovery_episode_ rec = true → released = true;
  ok_attempts : 0 ≤ recovery_attempts_ rec ≤ max_attempts (recovery c);
  ok_backoff : state_ rec = Backoff → recovery_episode_ rec = true ∧ policy (recovery c) = Restart;
  ok_delay : is_valid_recovery_config (recovery c) = true → policy (recovery c) = Restart →
    0 ≤ next_backoff_ rec ≤ max_backoff (recovery c);
}.

Lemma shell_thread rec rec' : shell rec' = shell rec → is_Some (current_thread_ rec') ↔ is_Some (current_thread_ rec).
Proof.
  intros Hs. assert (is_Some (current_thread_ (shell rec')) ↔ is_Some (current_thread_ (shell rec))) as H by by rewrite Hs.
  unfold shell in H. cbn in H. by rewrite !fmap_is_Some in H.
Qed.

Lemma shell_no_thread rec rec' : shell rec' = shell rec → current_thread_ rec = None → current_thread_ rec' = None.
Proof. intros H. rewrite !eq_None_not_Some. by rewrite (shell_thread _ _ H). Qed.

Lemma ready_ok_later rec rec' : shell rec' = shell rec → slots_later rec rec' → ready_ok rec → ready_ok rec'.
Proof. intros [= _ Hi _ _ _ _ _ _ _ _ _] Hl (x & Hx & Ho). exists x. rewrite Hi. split; [by apply Hl | done]. Qed.

Lemma later_is_ready rec rec' : slots_later rec rec' → is_Some (ready_ rec) → is_Some (ready_ rec').
Proof. intros Hl [x Hx]. exists x. by apply Hl. Qed.
Lemma later_is_activated rec rec' : slots_later rec rec' → is_Some (activated_ rec) → is_Some (activated_ rec').
Proof. intros Hl [x Hx]. exists x. by apply Hl. Qed.
Lemma later_is_completed rec rec' : slots_later rec rec' → is_Some (completion_ rec) → is_Some (completion_ rec').
Proof. intros Hl [x Hx]. exists x. by apply Hl. Qed.

Create HintDb supervisor.
#[export] Hint Resolve ready_ok_later later_is_ready later_is_activated later_is_completed later_stop later_activation
  later_data_plane : supervisor.

(** Points after the report of readiness are kept by later slots. *)
Lemma pc_ok_later rec rec' p : shell rec' = shell rec → slots_later rec rec' →
  (ready_ rec = None → ready_ rec' = None) → pc_ok rec p → pc_ok rec' p.
Proof.
  intros Hs Hl Hn. destruct p as [| [] | | | | | | | | |]; cbn [pc_ok]; unfold activation_reported, activation_passed;
    try (intros; tauto || auto); intuition eauto with supervisor.
Qed.

Lemma rec_ok_others c q d q' d' rec rec' : rec_ok c q d rec → shell rec' = shell rec → slots_later rec rec' → slots_mine rec' →
  (activation_allowed_ rec' = true → q' = true) → (data_plane_allowed_ rec' = true → d' = true) → (d = true → d' = true) →
  (current_thread_ rec = None → slots_empty rec → slots_empty rec') → (∀ t, current_thread_ rec' = Some t → pc_ok rec' (pc t)) →
  rec_ok c q' d' rec'.
Proof.
  intros [] Hs Hl Hm Hq Hd Hdd Hn Hp. pose proof (shell_thread _ _ Hs) as Ht. pose proof (ready_ok_later _ _ Hs Hl) as Hr.
  pose proof (shell_no_thread _ _ (eq_sym Hs)) as Hnt.
  pose proof Hs as [= Hst Hid Hci Hth Hob Hlr Hep Hat Hnb Hra Hsa].
  split; rewrite ?Hst, ?Hid, ?Hci, ?Hob, ?Hep, ?Hat, ?Hnb; try done; eauto with supervisor.
  - intros t' Et. destruct (current_thread_ rec) as [t |] eqn:E1; rewrite Et in Hth; [| done]. injection Hth as ->. by apply ok_thread0.
  - intros H. destruct (ok_ready0 H). rewrite Ht. auto.
Qed.

(** ** The publication state *)

(** What concerns worker [r]. *)
Record same_at (r : nat) (p p' : Publication.World) : Prop := {
  same_locals : ∀ i, Publication.locals p' !! (r, i) = Publication.locals p !! (r, i);
  same_published : Publication.published_instance_id (Publication.epochs p' r) = Publication.published_instance_id (Publication.epochs p r);
  same_registry : Publication.registry_at (Publication.publication p') r = Publication.registry_at (Publication.publication p) r;
}.

#[global] Instance same_at_equiv r : Equivalence (same_at r).
Proof. split; [by split | by intros p p' []; split | by intros p p' p'' [] []; split; etrans; eauto]. Qed.

Record pub_ok (p : Publication.World) (r : nat) (rec : WorkerRecord) : Prop := {
  pub_published : Publication.published_instance_id (Publication.epochs p r) ≤ instance_id_ rec;
  pub_local : ∀ i, is_Some (Publication.locals p !! (r, i)) → i = instance_id_ rec;
  pub_instance : is_Some (current_instance_ rec) → is_Some (Publication.locals p !! (r, instance_id_ rec));
  pub_registry : ∀ e, Publication.registry_at (Publication.publication p) r = Some e →
    e = r ∧ Publication.published_instance_id (Publication.epochs p r) = instance_id_ rec ∧
    state_ rec ≠ Offline ∧ state_ rec ≠ Backoff;
}.

Lemma pub_ok_same p p' r rec : same_at r p p' → pub_ok p r rec → pub_ok p' r rec.
Proof. intros [Hl Hp Hr] []. split; [by rewrite Hp | intros i; rewrite Hl; auto | by rewrite Hl | by rewrite Hr, Hp]. Qed.

Lemma pub_ok_shell p r rec rec' : shell rec' = shell rec → pub_ok p r rec → pub_ok p r rec'.
Proof. intros [= Hst Hid Hci _ _ _ _ _ _ _ _] []. split; by rewrite ?Hst, ?Hid, ?Hci. Qed.

(** ** The invariant *)
Section invariant.
Context {F : Type}.
Variables (heap : nat → FilterContext F) (c : Config) (p0 : Publication.World).

Record inv (s : State) : Prop := {
  inv_config : config_ s = c;
  inv_length : length (records_ s) = worker_count c;
  inv_records : ∀ r rec, records_ s !! r = Some rec → rec_ok c (activation_requested_ s) (data_plane_released_ s) rec;
  inv_pub : filter_publication c = true → ∀ r rec, records_ s !! r = Some rec → pub_ok (pub s) r rec;
  inv_reachable : filter_publication c = true → Publication.reachable heap p0 (pub s);
  inv_activated : activation_result_ s = Some (inl ()) →
    (∃ info, startup_result_ s = Some (inl info)) ∧ activation_requested_ s = true;
  inv_released : data_plane_released_ s = true → activation_result_ s = Some (inl ());
  inv_unexpected : ∀ r, unexpected_stop_worker_ s = Some r → (r < worker_count c)%nat;
}.

(** What the results and requests are. *)
Definition flags (s : State) :=
  (startup_result_ s, activation_result_ s, activation_requested_ s, data_plane_released_ s, stop_requested_ s, service_stop_ s,
   run_started_ s, run_active_ s).

Record rely (s s' : State) : Prop := {
  rely_config : config_ s' = config_ s;
  rely_length : length (records_ s') = length (records_ s);
  rely_records : ∀ r rec, records_ s !! r = Some rec →
    ∃ rec', records_ s' !! r = Some rec' ∧ shell rec' = shell rec ∧ slots_later rec rec';
  rely_idle : ∀ r rec, records_ s !! r = Some rec → current_thread_ rec = None → same_at r (pub s) (pub s');
  rely_startup : startup_result_ s' = startup_result_ s;
  rely_activation : activation_result_ s' = activation_result_ s;
  rely_requested : activation_requested_ s = true → activation_requested_ s' = true;
  rely_released : data_plane_released_ s = true → data_plane_released_ s' = true;
  rely_stop : stop_requested_locked s = true → stop_requested_locked s' = true;
  rely_started : run_started_ s' = run_started_ s;
  rely_active : run_active_ s' = run_active_ s;
  rely_join : join_failed s' = join_failed s;
}.

#[export] Instance rely_preorder : PreOrder rely.
Proof.
  split.
  - intros s. split; try done. intros r rec H. by exists rec.
  - intros s1 s2 s3 [] []. split; try (etrans; eassumption); eauto.
    + intros r rec H. destruct (rely_records0 _ _ H) as (rec2 & H2 & Hs2 & Hl2).
      destruct (rely_records1 _ _ H2) as (rec3 & H3 & Hs3 & Hl3). exists rec3. split; [done |]. split; [congruence | by etrans].
    + intros r rec H Ht. destruct (rely_records0 _ _ H) as (rec2 & H2 & Hs2 & _).
      etrans; [by eapply rely_idle0 |]. eapply rely_idle1; [exact H2 |]. by eapply shell_no_thread.
Qed.

Lemma update_lookup r g s j :
  records_ (update_record r g s) !! j = if decide (r = j) then g <$> records_ s !! r else records_ s !! j.
Proof. apply list_lookup_alter. Qed.

Lemma update_found r g s j x : records_ (update_record r g s) !! j = Some x →
  (j = r ∧ ∃ rec, records_ s !! r = Some rec ∧ x = g rec) ∨ (j ≠ r ∧ records_ s !! j = Some x).
Proof.
  rewrite update_lookup. destruct (decide (r = j)) as [<- |]; [| auto].
  destruct (records_ s !! r) as [rec |] eqn:E; [| done]. intros [= <-]. left. split; [done |]. by exists rec.
Qed.

(** A change to record [r], and to what the publication state has of it, that is not C's. *)
Lemma other_update s r rec rec' p : inv s → records_ s !! r = Some rec →
  shell rec' = shell rec → slots_later rec rec' → slots_mine rec' →
  (activation_allowed_ rec' = true → activation_requested_ s = true) → (data_plane_allowed_ rec' = true → data_plane_released_ s = true) →
  (current_thread_ rec = None → slots_empty rec → slots_empty rec') → (∀ t, current_thread_ rec' = Some t → pc_ok rec' (pc t)) →
  (∀ j, j ≠ r ∨ current_thread_ rec = None → same_at j (pub s) p) →
  (filter_publication c = true → pub_ok p r rec ∧ Publication.reachable heap p0 p) →
  let s' := update_record r (λ _, rec') (set_pub p s) in inv s' ∧ rely s s'.
Proof.
  intros [] Hr Hs Hl Hm Hq Hd Hn Hp Hsame Hpub s'. split.
  - split; try done.
    + unfold s', update_record. cbn. by rewrite length_alter.
    + intros j x [[-> (? & ? & ->)] | [_ H]]%update_found; [| by eapply inv_records0]. 
      apply (rec_ok_others c (activation_requested_ s) (data_plane_released_ s) _ _ rec); try done. by eapply inv_records0.
    + intros Hc j x [[-> (? & ? & ->)] | [Hj H]]%update_found; [eapply pub_ok_shell; [done |]; by apply Hpub |].
      eapply pub_ok_same; [apply Hsame; by left |]. by eapply inv_pub0.
    + intros Hc. by apply Hpub.
  - split; try done.
    + unfold s', update_record. cbn. by rewrite length_alter.
    + intros j x H. unfold s'. rewrite update_lookup. destruct (decide (r = j)) as [<- |]; cbn; [| by exists x].
      rewrite Hr in H |- *. injection H as <-. by exists rec'.
    + intros j x H Ht. apply Hsame. destruct (decide (j = r)) as [-> |]; [right | by left]. by rewrite Hr in H; injection H as ->.
Qed.

Lemma other_record s r rec rec' : inv s → records_ s !! r = Some rec →
  shell rec' = shell rec → slots_later rec rec' → slots_mine rec' →
  (activation_allowed_ rec' = true → activation_requested_ s = true) → (data_plane_allowed_ rec' = true → data_plane_released_ s = true) →
  (current_thread_ rec = None → slots_empty rec → slots_empty rec') → (∀ t, current_thread_ rec' = Some t → pc_ok rec' (pc t)) →
  let s' := update_record r (λ _, rec') s in inv s' ∧ rely s s'.
Proof.
  intros Hv Hr Hs Hl Hm Hq Hd Hn Hp. replace s with (set_pub (pub s) s) at 2 4 by by destruct s.
  apply (other_update s r rec rec' (pub s)); try done. intros Hc. split; [by eapply inv_pub | by apply inv_reachable].
Qed.

(** ** Steps of the publishers *)
Definition shared (w : Publication.World) :=
  (Publication.epochs w, Publication.locals w, Publication.registry_ (Publication.publication w)).

Lemma shared_same r w w' : shared w' = shared w → same_at r w w'.
Proof. intros [= He Hl Hr]. split; unfold Publication.registry_at; by rewrite ?He, ?Hl, ?Hr. Qed.

Lemma reclaimer_shared now stop w : shared (Publication.reclaimer_step now stop w) = shared w.
Proof. unfold Publication.reclaimer_step. repeat case_goal; done. Qed.

Lemma commit_shared x now w : shared (Publication.commit heap x now w).2 = shared w.
Proof. unfold Publication.commit. repeat case_goal; done. Qed.

Lemma publishers_shared a w w' : publishers_step a = true → Publication.act heap a w = Some w' → shared w' = shared w.
Proof.
  destruct a; cbn [publishers_step Publication.act]; try done; intros _.
  - destruct (Publication.progress_owed w); [done |]. unfold Publication.guarded. case_match; [| done]. by intros [= <-].
  - case_match; [| done]. unfold Publication.acquire_retirement_credit.
    repeat case_match; simplify_eq/=; try done; by intros [= <-].
  - unfold Publication.guarded, Publication.release_uncommitted_credit. repeat case_match; try done; by intros [= <-].
  - unfold Publication.guarded. case_match; [| done]. by intros [= <-].
  - by intros [= <-].
  - case_match; [| done]. unfold Publication.guarded. case_match; [| done]. intros [= <-]. by rewrite commit_shared.
  - unfold Publication.guarded. case_match; [| done]. by intros [= <-].
  - unfold Publication.guarded, Publication.detach_terminal_snapshot. case_match; [| done]. repeat case_match; by intros [= <-].
  - unfold Publication.guarded, Publication.run_reclaimer_begin. case_match; [| done]. repeat case_match; by intros [= <-].
  - intros [= <-]. apply reclaimer_shared.
  - unfold Publication.guarded. case_match; [| done]. by intros [= <-].
  - unfold Publication.guarded. case_match; [| done]. by intros [= <-].
  - unfold Publication.guarded. case_match; [| done]. by intros [= <-].
  - unfold Publication.guarded. case_match; [| done]. by intros [= <-].
  - unfold Publication.guarded, Publication.emergency_reclaim_converged, Publication.reclaim_converged_locked.
    case_match; [| done]. repeat case_match; by intros [= <-].
Qed.

(** ** Refreshing the snapshot of a worker *)
Lemma refresh_locked_spec local i r w : ∃ ok advanced local' w',
  Publication.refresh_locked heap local i r w = (ok, advanced, local', w') ∧ (is_Some local' ↔ is_Some local) ∧
  Publication.locals w' = Publication.locals w ∧ Publication.publication w' = Publication.publication w ∧
  (∀ j, Publication.published_instance_id (Publication.epochs w' j) = Publication.published_instance_id (Publication.epochs w j)) ∧
  Publication.progress_owed w' = Publication.progress_owed w.
Proof.
  unfold Publication.refresh_locked. repeat case_match; do 4 eexists; (split; [reflexivity |]); split_and!; try done; try (by split; eauto).
  all: intros j; cbn; destruct (decide (r = j)) as [<- |]; [by rewrite fn_lookup_insert | by rewrite fn_lookup_insert_ne].
Qed.

Lemma snapshot_refresh_spec r i s : ∃ ok p, refresh_filter_snapshot heap r i s = (ok, set_pub p s) ∧
  (∀ j, j ≠ r → same_at j (pub s) p) ∧
  (∀ k, is_Some (Publication.locals p !! (r, k)) ↔ is_Some (Publication.locals (pub s) !! (r, k))) ∧
  Publication.published_instance_id (Publication.epochs p r) = Publication.published_instance_id (Publication.epochs (pub s) r) ∧
  Publication.registry_at (Publication.publication p) r = Publication.registry_at (Publication.publication (pub s)) r ∧
  (is_Some (Publication.locals (pub s) !! (r, i)) → Publication.act heap (Publication.Refresh r i) (pub s) = Some p).
Proof.
  unfold refresh_filter_snapshot. cbn [Publication.act].
  destruct (refresh_locked_spec (Publication.locals (pub s) !! (r, i)) i r (pub s)) as (ok & adv & local & w & E & Hl & Hls & Hp & He & Ho).
  rewrite E. eexists ok, _. split; [reflexivity |].
  assert (∀ b w', Publication.locals (if b : bool then Publication.owe (S (Publication.progress_owed w')) w' else w') = Publication.locals w') as H1 by by intros [].
  assert (∀ b w', Publication.epochs (if b : bool then Publication.owe (S (Publication.progress_owed w')) w' else w') = Publication.epochs w') as H2 by by intros [].
  assert (∀ b w', Publication.publication (if b : bool then Publication.owe (S (Publication.progress_owed w')) w' else w') = Publication.publication w') as H3 by by intros [].
  assert (∀ k, k ≠ (r, i) → Publication.locals (Publication.set_local (r, i) local w) !! k = Publication.locals (pub s) !! k) as Hk.
  { intros k Hk. unfold Publication.set_local. cbn. rewrite Hls. destruct local; [by rewrite lookup_insert_ne | by rewrite lookup_delete_ne]. }
  split; [| split; [| split; [| split]]].
  - intros j Hj. split; rewrite ?H1, ?H2, ?H3.
    + intros k. apply Hk. congruence.
    + apply He.
    + cbn. by rewrite Hp.
  - intros k. rewrite H1. destruct (decide (k = i)) as [-> |]; [| rewrite Hk by congruence; done].
    rewrite <- Hl. unfold Publication.set_local. cbn. rewrite Hls. destruct local; [by rewrite lookup_insert_eq | by rewrite lookup_delete_eq].
  - rewrite H2. apply He.
  - rewrite H3. cbn. by rewrite Hp.
  - intros [x Hx]. rewrite Hx in E |- *. by rewrite E.
Qed.

(** ** Steps of the workers *)
Lemma update_const r g s rec : records_ s !! r = Some rec → update_record r g s = update_record r (λ _, g rec) s.
Proof.
  intros Hr. unfold update_record. f_equal. apply list_alter_ext; [| done]. intros x Hx. rewrite Hr in Hx. by injection Hx as ->.
Qed.

Lemma update_twice r f g s : update_record r f (update_record r g s) = update_record r (λ x, f (g x)) s.
Proof. unfold update_record, set_records. cbn. by rewrite list_alter_alter_eq. Qed.

Definition at_pc (p : WorkerPc) (t : Thread) (rec : WorkerRecord) : WorkerRecord :=
  set_current_thread (Some (mkThread (thread_instance t) p)) rec.

(** The worker of record [r] writes its slots with [g] and goes to [p]. *)
Lemma worker_writes r g p s rec t q : inv s → records_ s !! r = Some rec → current_thread_ rec = Some t →
  shell (g rec) = shell rec → current_thread_ (g rec) = Some t → slots_later rec (g rec) → slots_mine (g rec) →
  activation_allowed_ (g rec) = activation_allowed_ rec → data_plane_allowed_ (g rec) = data_plane_allowed_ rec → pc_ok (g rec) p →
  (∀ j, j ≠ r → same_at j (pub s) q) →
  (filter_publication c = true → pub_ok q r rec ∧ Publication.reachable heap p0 q) →
  let s' := set_pc r p (update_record r g (set_pub q s)) in inv s' ∧ rely s s'.
Proof.
  intros Hv Hr Ht Hs Hgt Hl Hm Ha Hd Hp Hsame Hpub s'.
  assert (s' = update_record r (λ _, at_pc p t (g rec)) (set_pub q s)) as ->.
  { unfold s', set_pc. rewrite update_twice. rewrite (update_const r _ (set_pub q s) rec) by done. by rewrite Hgt. }
  pose proof (inv_records _ Hv _ _ Hr) as Hok.
  apply (other_update s r rec (at_pc p t (g rec)) q); try done.
  - rewrite <- Hs. unfold shell, at_pc. cbn. by rewrite Hgt.
  - etrans; [exact Hl |]. by split.
  - cbn. rewrite Ha. by apply Hok.
  - cbn. rewrite Hd. by apply Hok.
  - by rewrite Ht.
  - intros t' [= <-]. by destruct p as [| [] | | | | | | | | |].
  - intros j [Hj | Hj]; [by apply Hsame | by rewrite Ht in Hj].
Qed.

Lemma worker_moves r p s rec t : inv s → records_ s !! r = Some rec → current_thread_ rec = Some t → pc_ok rec p →
  let s' := set_pc r p s in inv s' ∧ rely s s'.
Proof.
  intros Hv Hr Ht Hp. assert (set_pc r p s = set_pc r p (update_record r (λ x, x) (set_pub (pub s) s))) as ->.
  { f_equal. destruct s. unfold update_record, set_records. cbn. f_equal. symmetry. by apply list_alter_id. }
  pose proof (inv_records _ Hv _ _ Hr) as Hok.
  eapply worker_writes; try done; [by apply Hok |]. intros Hc. split; [by eapply inv_pub | by apply inv_reachable].
Qed.

Lemma report_ready_writes r res s rec : records_ s !! r = Some rec → ready_ rec = None → ∃ g res',
  report_worker_ready r (instance_id_ rec) res s = update_record r g s ∧
  ((g = set_ready (Some (instance_id_ rec, res'))) ∧ res' = res ∨
   g = (λ rec', set_instance_stop true (set_ready (Some (instance_id_ rec, res')) rec'))).
Proof.
  intros Hr Hn. unfold report_worker_ready. rewrite Hr, Z.eqb_refl, Hn. cbn [negb orb].
  rewrite bool_decide_eq_false_2 by by intros [? [=]]. case_match; do 2 eexists; (split; [reflexivity |]); auto.
Qed.

Lemma pub_keeps s r rec : inv s → records_ s !! r = Some rec →
  filter_publication c = true → pub_ok (pub s) r rec ∧ Publication.reachable heap p0 (pub s).
Proof. intros Hv Hr Hc. split; [by eapply inv_pub | by apply inv_reachable]. Qed.

(** The same, without a change of the publication state. *)
Lemma worker_reports r g p s rec t : inv s → records_ s !! r = Some rec → current_thread_ rec = Some t →
  shell (g rec) = shell rec → current_thread_ (g rec) = Some t → slots_later rec (g rec) → slots_mine (g rec) →
  activation_allowed_ (g rec) = activation_allowed_ rec → data_plane_allowed_ (g rec) = data_plane_allowed_ rec → pc_ok (g rec) p →
  let s' := set_pc r p (update_record r g s) in inv s' ∧ rely s s'.
Proof.
  intros. replace (update_record r g s) with (update_record r g (set_pub (pub s) s)) by by destruct s.
  eapply worker_writes; try done. by apply pub_keeps.
Qed.

Lemma report_ready_safe r res p s rec t : inv s → records_ s !! r = Some rec → current_thread_ rec = Some t → ready_ rec = None →
  p = WGateActivation ∧ res = mkReadyResult ReadyOutcome None ∨ (∃ e, p = WShutdown e) →
  let s' := set_pc r p (report_worker_ready r (observer_instance_ rec) res s) in inv s' ∧ rely s s'.
Proof.
  intros Hv Hr Ht Hn Hp. pose proof (inv_records _ Hv _ _ Hr) as Hok. destruct (ok_thread _ _ _ _ Hok _ Ht) as (_ & _ & Hob & _).
  rewrite Hob. destruct (report_ready_writes r res s rec Hr Hn) as (g & res' & -> & Hg).
  assert (slots_mine rec) as (H1 & H2 & H3) by apply Hok.
  destruct Hg as [[-> ->] | ->]; eapply worker_reports; try done; try (by split; cbn; [rewrite Hn | ..]);
    try (split_and!; cbn; [by intros ? ? [= <- <-] | done | done]).
  - destruct Hp as [[-> ->] | [e ->]]; [| done]. cbn. split; [done |]. left. by eexists.
  - destruct Hp as [[-> _] | [e ->]]; [| done]. cbn. split; [done |]. by right.
Qed.

Lemma gate_activation_ok r s rec i st a : records_ s !! r = Some rec → pc_ok rec WGateActivation →
  await_worker_activation r i st s = Some a → pc_ok rec (leave_gate rec a ToActivation WReportActivated).
Proof.
  intros Hr (H1 & H2) Ha. unfold await_worker_activation in Ha. rewrite Hr in Ha. cbn in Ha.
  destruct a; cbn [leave_gate]; [done | done |].
  destruct (loop_stop_requested rec) eqn:Es; [done |]. cbn. unfold activation_passed.
  repeat case_match; simplify_eq; bool_hyps; try done.
  destruct H2 as [H2 | H2]; [done | congruence].
Qed.

Lemma gate_data_plane_ok r s rec i st a : records_ s !! r = Some rec → pc_ok rec WGateDataPlane →
  await_worker_data_plane r i st s = Some a → pc_ok rec (leave_gate rec a ToDataPlane WServing).
Proof.
  intros Hr H Ha. unfold await_worker_data_plane in Ha. rewrite Hr in Ha. cbn in Ha.
  destruct a; cbn [leave_gate]; [done | done |].
  destruct (loop_stop_requested rec) eqn:Es; [done |]. cbn. split; [done |].
  repeat case_match; simplify_eq; bool_hyps; done.
Qed.

Lemma sync_safe r next s rec t ch : inv s → records_ s !! r = Some rec → current_thread_ rec = Some t → pc t = WSync next →
  worker_throws ch = false → ∀ s', worker_step heap r ch s = Some s' → inv s' ∧ rely s s'.
Proof.
  intros Hv Hr Ht Hpc Hch s' Hs. unfold worker_step in Hs. rewrite Hr in Hs. cbn in Hs. rewrite Ht in Hs. cbn in Hs.
  rewrite Hpc, Hch in Hs. pose proof (inv_records _ Hv _ _ Hr) as Hok.
  destruct (ok_thread _ _ _ _ Hok _ Ht) as (Hci & Hti & _ & _).
  destruct (snapshot_refresh_spec r (thread_instance t) s) as (ok & p & E & Hoth & Hloc & Hpid & Hreg & Hact). rewrite E in Hs. injection Hs as <-.
  pose proof (ok_pc _ _ _ _ Hok _ Ht) as Hp. rewrite Hpc in Hp.
  replace (set_pub p s) with (update_record r (λ x, x) (set_pub p s)).
  2:{ unfold update_record, set_records. by rewrite list_alter_id. }
  eapply worker_writes; try done; [by apply Hok | |].
  - destruct ok, next; done.
  - intros Hc. destruct (pub_keeps s r rec Hv Hr Hc) as ([] & Hre). split.
    + split; [by rewrite Hpid | intros i Hi; apply pub_local0; by apply Hloc | intros Hi; apply Hloc; auto | by rewrite Hreg, Hpid].
    + eapply Publication.reachable_step; [exact Hre | apply Hact]. rewrite Hti. auto.
Qed.

Lemma worker_safe r ch s s' : inv s → worker_step heap r ch s = Some s' → inv s' ∧ rely s s'.
Proof.
  intros Hv Hs. pose proof Hs as Hs0. unfold worker_step in Hs.
  destruct (records_ s !! r) as [rec |] eqn:Hr; [| done]. cbn in Hs.
  destruct (current_thread_ rec) as [t |] eqn:Ht; [| done]. cbn in Hs.
  pose proof (inv_records _ Hv _ _ Hr) as Hok. destruct (ok_thread _ _ _ _ Hok _ Ht) as (_ & Hti & Hob & _).
  pose proof (ok_pc _ _ _ _ Hok _ Ht) as Hp. destruct (pc t) as [| next | | e | | | | | res | res |] eqn:Hpc.
  - destruct (worker_throws ch); [injection Hs as <-; by eapply worker_moves |].
    destruct (start_error ch); injection Hs as <-; [by eapply worker_moves |]. eapply worker_moves; try done. by case_match.
  - destruct (worker_throws ch) eqn:Hth; [| by eapply sync_safe]. injection Hs as <-. eapply worker_moves; try done. by destruct next.
  - destruct (worker_throws ch); injection Hs as <-; [by eapply worker_moves |]. eapply report_ready_safe; try done. by left.
  - injection Hs as <-. eapply report_ready_safe; try done. right. by eexists.
  - destruct (worker_throws ch); [injection Hs as <-; by eapply worker_moves |].
    destruct (await_worker_activation _ _ _ _) as [a |] eqn:Ea; [| done]. injection Hs as <-.
    eapply worker_moves; try done. by eapply gate_activation_ok.
  - destruct (worker_throws ch); [injection Hs as <-; by eapply worker_moves |]. injection Hs as <-.
    unfold report_worker_activated. rewrite Hr, Hob, Z.eqb_refl. cbn [negb orb].
    destruct (activated_ rec) as [x |] eqn:Ha.
    + rewrite bool_decide_eq_true_2 by eauto. by eapply worker_moves.
    + rewrite bool_decide_eq_false_2 by by intros [? [=]]. assert (slots_mine rec) as (H1 & H2 & H3) by apply Hok.
      eapply worker_reports; try done; [by split; cbn; [| rewrite Ha | ..] | split_and!; cbn; [done | by intros ? [= <-] | done]].
  - destruct (worker_throws ch); [injection Hs as <-; by eapply worker_moves |].
    destruct (await_worker_data_plane _ _ _ _) as [a |] eqn:Ea; [| done]. injection Hs as <-.
    eapply worker_moves; try done. by eapply gate_data_plane_ok.
  - destruct (worker_throws ch); [injection Hs as <-; by eapply worker_moves |].
    destruct (service ch).
    + injection Hs as <-. eapply worker_moves; try done. by case_match.
    + injection Hs as <-. by eapply worker_moves.
    + case_match; [| done]. injection Hs as <-. by eapply worker_moves.
  - injection Hs as <-. by eapply worker_moves.
  - injection Hs as <-. unfold report_worker_completion. rewrite Hr, Hti, Z.eqb_refl. cbn [negb orb].
    destruct (completion_published rec) eqn:Ec; [eapply worker_moves; try done; by apply bool_decide_eq_true in Ec |].
    apply bool_decide_eq_false, eq_None_not_Some in Ec. assert (slots_mine rec) as (H1 & H2 & H3) by apply Hok.
    eapply worker_reports; try done; [by split; cbn; [.. | rewrite Ec | | |] | split_and!; cbn; [done | done | by intros ? ? ? [= <- _ _]] | by eexists].
  - done.
Qed.

(** ** Steps of the callers of public methods *)
Lemma other_flags s s' : inv s → config_ s' = config_ s → records_ s' = records_ s → pub s' = pub s →
  (startup_result_ s', activation_result_ s', activation_requested_ s', data_plane_released_ s', run_started_ s', run_active_ s', join_failed s') =
  (startup_result_ s, activation_result_ s, activation_requested_ s, data_plane_released_ s, run_started_ s, run_active_ s, join_failed s) →
  (∀ r, unexpected_stop_worker_ s' = Some r → (r < worker_count c)%nat) → (stop_requested_locked s = true → stop_requested_locked s' = true) →
  inv s' ∧ rely s s'.
Proof.
  intros [] Hc Hr Hp [= Hsr Har Hq Hd Hst Ha Hj] Hu Hs. split.
  - split; rewrite ?Hc, ?Hr, ?Hp, ?Hq, ?Hd, ?Har, ?Hsr; done.
  - split; rewrite ?Hc, ?Hr, ?Hp, ?Hq, ?Hd; try done. intros r rec H. by exists rec.
Qed.

(** A field of every record and a flag with it are set. *)
Lemma other_all g s s' : inv s → config_ s' = config_ s → records_ s' = g <$> records_ s → pub s' = pub s →
  (startup_result_ s', activation_result_ s', unexpected_stop_worker_ s', run_started_ s', run_active_ s', join_failed s') =
  (startup_result_ s, activation_result_ s, unexpected_stop_worker_ s, run_started_ s, run_active_ s, join_failed s) →
  (stop_requested_ s', service_stop_ s') = (stop_requested_ s, service_stop_ s) →
  (activation_requested_ s = true → activation_requested_ s' = true) → (data_plane_released_ s = true → data_plane_released_ s' = true) →
  (data_plane_released_ s' = true → activation_result_ s = Some (inl ())) →
  (∀ rec, shell (g rec) = shell rec ∧ slots_later rec (g rec) ∧ current_thread_ (g rec) = current_thread_ rec ∧
     ready_ (g rec) = ready_ rec ∧ activated_ (g rec) = activated_ rec ∧ completion_ (g rec) = completion_ rec) →
  (∀ rec, rec_ok c (activation_requested_ s) (data_plane_released_ s) rec →
     (activation_allowed_ (g rec) = true → activation_requested_ s' = true) ∧
     (data_plane_allowed_ (g rec) = true → data_plane_released_ s' = true)) →
  inv s' ∧ rely s s'.
Proof.
  intros [] Hc Hr Hp [= Hsr Har Hu Hst Ha Hj] [= Hs1 Hs2] Hq Hd Hrel Hg Hok. split.
  - split; rewrite ?Hc, ?Hp, ?Har, ?Hsr, ?Hu; try done.
    + by rewrite Hr, length_fmap.
    + intros r rec' H. rewrite Hr, list_lookup_fmap in H. destruct (records_ s !! r) as [rec |] eqn:E; [| done]. injection H as <-.
      pose proof (inv_records0 _ _ E) as Hrec. destruct (Hg rec) as (G1 & G2 & G3 & G4 & G5 & G6). destruct (Hok _ Hrec) as [O1 O2].
      eapply rec_ok_others; try done.
      * destruct Hrec. unfold slots_mine. rewrite G4, G5, G6. cbn in G1. injection G1 as _ Hi. by rewrite Hi.
      * intros _. unfold slots_empty. by rewrite G4, G5, G6.
      * intros t Ht. eapply pc_ok_later; [done | done | by rewrite G4 |]. destruct Hrec. apply ok_pc0. by rewrite <- G3.
    + intros Hf r rec' H. rewrite Hr, list_lookup_fmap in H. destruct (records_ s !! r) as [rec |] eqn:E; [| done]. injection H as <-.
      eapply pub_ok_shell; [apply Hg |]. by apply inv_pub0.
    + intros Hx. split; [by apply inv_activated0 | by apply Hq, inv_activated0].
  - split; rewrite ?Hc, ?Hp; try done.
    + by rewrite Hr, length_fmap.
    + intros r rec H. exists (g rec). rewrite Hr, list_lookup_fmap, H. split; [done |]. split; apply Hg.
    + unfold stop_requested_locked. by rewrite Hs1, Hs2.
Qed.

Lemma stop_record_safe r s : inv s → let s' := update_record r (set_instance_stop true) s in inv s' ∧ rely s s'.
Proof.
  intros Hv. destruct (records_ s !! r) as [rec |] eqn:Hr.
  - rewrite (update_const _ _ _ rec) by done. pose proof (inv_records _ Hv _ _ Hr) as Hok.
    apply (other_record s r rec); try done; try apply Hok. intros t Ht. eapply pc_ok_later; [| | | by apply Hok]; done.
  - replace (update_record r _ s) with s; [by split |]. unfold update_record, set_records.
    destruct s. cbn. f_equal. apply list_eq. intros j. rewrite list_lookup_alter. destruct (decide (r = j)) as [<- |]; [| done].
    cbn in Hr. by rewrite Hr.
Qed.

Lemma request_activation_safe s : inv s → let s' := (request_activation s).2 in inv s' ∧ rely s s'.
Proof.
  intros Hv. unfold request_activation. case_match; [by split |]. eapply (other_all (set_activation_allowed true)); try done; [apply Hv |].
  intros rec Hok. split; [done | apply Hok].
Qed.

Lemma release_data_plane_safe s : inv s → let s' := (release_data_plane s).2 in inv s' ∧ rely s s'.
Proof.
  intros Hv. unfold release_data_plane. destruct (stop_requested_locked s); [by split |]. destruct (abrupt_exit_requested_ s); [by split |].
  destruct (not_running _ _); [by split |]. destruct (_ || _ || _) eqn:E; [by split |].
  apply orb_false_iff in E as [_ Ea]. assert (activation_result_ s = Some (inl ())) by (destruct (activation_result_ s) as [[[] |] |]; done).
  eapply (other_all (set_data_plane_allowed true)); try done. intros rec Hok. split; [apply Hok | done].
Qed.

Lemma precommit_failure_safe r s : inv s → let s' := inject_worker_precommit_failure r s in inv s' ∧ rely s s'.
Proof.
  intros Hv. unfold inject_worker_precommit_failure. destruct (records_ s !! r) as [rec |] eqn:Hr; [| by split].
  case_match; [by split |]. destruct (negb (bool_decide _) || _) eqn:Ec; [by split |].
  pose proof (inv_records _ Hv _ _ Hr) as Hok. rewrite (update_const _ _ _ rec) by done.
  apply orb_false_iff in Ec as [Est Hc]. apply negb_false_iff, bool_decide_eq_true in Est.
  apply bool_decide_eq_false, eq_None_not_Some in Hc. destruct (ok_ready _ _ _ _ Hok (or_intror Est)) as [[t Ht] _].
  assert (slots_mine rec) as (H1 & H2 & H3) by apply Hok.
  assert (slots_later rec (set_completion (Some (instance_id_ rec, fatal_exit WorkerRuntimeStep.AwaitActivation EIO, 0)) rec)) as Hl
    by by split; cbn; [.. | rewrite Hc | | |].
  apply (other_record s r rec); try done; try apply Hok.
  - split_and!; cbn; [done | done | by intros ? ? ? [= <- _ _]].
  - by rewrite Ht.
  - intros t' Ht'. apply (pc_ok_later rec); try done. by apply Hok.
Qed.

Lemma external_safe v s s' : inv s → external_step heap v s = Some s' → inv s' ∧ rely s s'.
Proof.
  intros Hv Hs. destruct v; cbn [external_step] in Hs.
  - by eapply worker_safe.
  - injection Hs as <-. apply other_flags; try done; apply Hv.
  - case_match; [| done]. injection Hs as <-. by apply stop_record_safe.
  - injection Hs as <-. apply other_flags; try done; [apply Hv |]. unfold stop_requested_locked. cbn. by rewrite orb_true_r.
  - injection Hs as <-. by apply request_activation_safe.
  - injection Hs as <-. by apply release_data_plane_safe.
  - injection Hs as <-. unfold snapshot_published. repeat case_match; try (by split); apply other_flags; try done; apply Hv.
  - injection Hs as <-. apply other_flags; try done; apply Hv.
  - injection Hs as <-. apply other_flags; try done; apply Hv.
  - injection Hs as <-. unfold inject_worker_unexpected_stop. destruct (records_ s !! r) as [rec |] eqn:Hr; [| by split].
    repeat case_match; try (by split). apply other_flags; try done. cbn. intros r' [= <-].
    rewrite <- (inv_length _ Hv). by eapply lookup_lt_Some.
  - injection Hs as <-. by apply precommit_failure_safe.
  - injection Hs as <-. apply other_flags; try done; apply Hv.
  - injection Hs as <-. apply other_flags; try done; apply Hv.
  - destruct (publishers_step a) eqn:Ea; [| done]. destruct (Publication.act heap a (pub s)) as [p |] eqn:Ep; [| done].
    injection Hs as <-. pose proof (publishers_shared _ _ _ Ea Ep) as Hsh. split.
    + destruct Hv. split; try done.
      * intros Hc r rec Hr. eapply pub_ok_same; [by apply shared_same |]. by apply inv_pub0.
      * intros Hc. eapply Publication.reachable_step; [by apply inv_reachable0 | exact Ep].
    + split; try done; [intros r rec Hr; by exists rec | intros; by apply shared_same].
Qed.

End invariant.
