(* ===== verification/SupervisorThread.v ===== *)
(** * The programs of thread C keep the invariant

    A triple [spec P m Q]: from a state with [inv] and [P], whatever the other threads do,
    every action of [m] is defined and keeps [inv], and [m] returns only with [Q].  The
    assertions are stable: what C knows of the fields that only it writes ([holds]), with
    the snapshots of workers without an instance released ([settled]). *)
From stdpp Require Import relations functions.
From S2P Require Import Prelude DomainBlocklist FilterPublication Concurrency WorkerSupervisor SupervisorInvariant.
Import Supervisor.

Lemma alter_insert {A} (f : A → A) (l : list A) r x : l !! r = Some x → alter f r l = <[r := f x]> l.
Proof.
  intros Hr. apply list_eq. intros j. rewrite list_lookup_alter. destruct (decide (r = j)) as [<- |].
  - rewrite Hr, list_lookup_insert_eq by by eapply lookup_lt_Some. done.
  - by rewrite list_lookup_insert_ne.
Qed.

(** The record of [changed] below is the one that the updates give; the assertions of the rule
    [L] are stable. *)
Ltac changes := split; cbn; [done | rewrite ?list_alter_alter_eq; erewrite alter_insert by eassumption; reflexivity | done.. ].
Tactic Notation "triple" uconstr(L) := eapply L; [solve [apply _ | intros; cbv beta; apply _] .. |].

Section thread.
Context {F : Type}.
Variables (heap : nat → FilterContext F) (c : Config) (p0 : Publication.World).
Abbreviation inv := (inv heap c p0).

(** ** Assertions *)

(** No snapshot is held for a record without an instance, record [o] apart. *)
Definition settled (o : option nat) (s : State) : Prop := filter_publication c = true → ∀ r rec, records_ s !! r = Some rec →
  o ≠ Some r → current_instance_ rec = None → Publication.locals (pub s) !! (r, instance_id_ rec) = None.

Definition all_recs (Φ : nat → WorkerRecord → Prop) (s : State) : Prop := ∀ r rec, records_ s !! r = Some rec → Φ r (shell rec).

Definition upd (r : nat) (φ : WorkerRecord → Prop) (Φ : nat → WorkerRecord → Prop) : nat → WorkerRecord → Prop :=
  λ j x, if decide (j = r) then φ x else Φ j x.

Class Stable (P : State → Prop) := stable : ∀ s s', inv s → inv s' → rely s s' → P s → P s'.

Lemma stable_use P `{HP : Stable P} s s' : rely s s' → inv s → inv s' → P s → P s'.
Proof. intros Hr Hv Hv' H. by apply (stable s s'). Qed.

(** Assertions on the results and requests. *)
Class Flag (G : State → Prop) := {
  flag_same : ∀ s s', flags s' = flags s → (join_failed s = true → join_failed s' = true) → G s → G s';
  flag_stable : Stable G;
}.
#[global] Existing Instance flag_stable.

Definition holds (o : option nat) (G : State → Prop) (Φ : nat → WorkerRecord → Prop) (s : State) : Prop :=
  settled o s ∧ G s ∧ all_recs Φ s.

Lemma rely_back s s' r rec' : rely s s' → records_ s' !! r = Some rec' →
  ∃ rec, records_ s !! r = Some rec ∧ shell rec' = shell rec ∧ slots_later rec rec'.
Proof.
  intros Hr H. assert (r < length (records_ s))%nat as [rec E]%lookup_lt_is_Some_2.
  { rewrite <- (rely_length _ _ Hr). by eapply lookup_lt_Some. }
  destruct (rely_records _ _ Hr _ _ E) as (x & Hx & ? & ?). rewrite H in Hx. injection Hx as <-. by exists rec.
Qed.

Lemma no_instance_no_thread s r rec : inv s → records_ s !! r = Some rec → current_instance_ rec = None → current_thread_ rec = None.
Proof.
  intros Hv Hr Hn. destruct (current_thread_ rec) as [t |] eqn:Ht; [| done]. pose proof (inv_records _ _ _ _ Hv _ _ Hr) as Hok.
  destruct (ok_thread _ _ _ _ Hok _ Ht) as ([? ?] & _). congruence.
Qed.

#[export] Instance settled_stable o : Stable (settled o).
Proof.
  intros s s' Hv _ Hr H Hc r rec' Hrec' Ho Hi. destruct (rely_back _ _ _ _ Hr Hrec') as (rec & Hrec & Hs & _).
  assert (instance_id_ rec' = instance_id_ rec ∧ current_instance_ rec' = current_instance_ rec) as [Hid Hci] by by injection Hs.
  rewrite Hci in Hi. rewrite Hid. pose proof (no_instance_no_thread _ _ _ Hv Hrec Hi) as Ht.
  rewrite (same_locals _ _ _ (rely_idle _ _ Hr _ _ Hrec Ht)). by apply H.
Qed.

#[export] Instance all_recs_stable Φ : Stable (all_recs Φ).
Proof. intros s s' _ _ Hr H r rec' Hrec'. destruct (rely_back _ _ _ _ Hr Hrec') as (rec & Hrec & -> & _). by apply H. Qed.

#[export] Instance and_stable P Q : Stable P → Stable Q → Stable (λ s, P s ∧ Q s).
Proof. intros H1 H2 s s' Hv Hv' Hr [HP HQ]. split; [exact (H1 s s' Hv Hv' Hr HP) | exact (H2 s s' Hv Hv' Hr HQ)]. Qed.
#[export] Instance pure_stable φ : Stable (λ _, φ).
Proof. by intros s s'. Qed.
#[export] Instance impl_stable φ P : Stable P → Stable (λ s, φ → P s).
Proof. intros H s s' Hv Hv' Hr HP Hφ. exact (H s s' Hv Hv' Hr (HP Hφ)). Qed.
#[export] Instance exist_stable {A} (P : A → State → Prop) : (∀ a, Stable (P a)) → Stable (λ s, ∃ a, P a s).
Proof. intros H s s' Hv Hv' Hr [a HP]. exists a. exact (H a s s' Hv Hv' Hr HP). Qed.
#[export] Instance holds_stable o G Φ : Flag G → Stable (holds o G Φ).
Proof. intros HG. unfold holds. apply _. Qed.

Hint Extern 0 (Stable _) => lazymatch goal with |- Stable (λ s, ?P s) => change (Stable P) end : typeclass_instances.

Hint Extern 1 (Stable _) => match goal with |- Stable (λ s, match ?x with _ => _ end) => destruct x end : typeclass_instances.

(** The stop is requested; a join has failed. *)
Definition stopping (s : State) : Prop := stop_requested_locked s = true.
#[export] Instance stopping_flag : Flag stopping.
Proof.
  split; [| intros s s' _ _ Hr H; by apply (rely_stop _ _ Hr)]. unfold stopping, stop_requested_locked. intros s s' [= _ _ _ _ -> -> _ _] _. done.
Qed.
#[export] Instance stopping_stable : Stable stopping.
Proof. apply flag_stable. Qed.
#[export] Instance join_failed_stable b : Stable (λ s, join_failed s = b).
Proof. intros s s' _ _ Hr H. by rewrite (rely_join _ _ Hr). Qed.
#[export] Instance true_flag : Flag (λ _, True).
Proof. by split; [| apply _]. Qed.
#[export] Instance and_flag G K : Flag G → Flag K → Flag (λ s, G s ∧ K s).
Proof. intros [] []. split; [| by apply and_stable]. intros s s' E Hj [? ?]. eauto. Qed.

(** ** Triples *)
Abbreviation wp := (wp inv rely).

Definition spec {A} (P : State → Prop) (m : M A) (Q : A → State → Prop) : Prop := ∀ s, inv s → P s →
  wp m (λ o s, match o with Val a => Q a s | Err _ => settled None s | Undef => False end) s.

Lemma spec_conseq {A} (P P' : State → Prop) (m : M A) Q Q' : spec P' m Q' →
  (∀ s, inv s → P s → P' s) → (∀ a s, inv s → Q' a s → Q a s) → spec P m Q.
Proof. intros H HP HQ s Hv Hs. eapply wp_mono; [| by apply H; auto]. intros [a | e |] s' Hv' H'; auto. Qed.

Lemma spec_pre {A} (P P' : State → Prop) (m : M A) Q : spec P' m Q → (∀ s, inv s → P s → P' s) → spec P m Q.
Proof. intros H HP. by eapply spec_conseq. Qed.
Lemma spec_post {A} P (m : M A) (Q Q' : A → State → Prop) : spec P m Q' → (∀ a s, inv s → Q' a s → Q a s) → spec P m Q.
Proof. intros H HQ. by eapply spec_conseq. Qed.

Lemma spec_ret {A} (P : State → Prop) (a : A) (Q : A → State → Prop) (HP : Stable P) : (∀ s, inv s → P s → Q a s) → spec P (mret a) Q.
Proof. intros H s Hv Hs s' Hr Hv'. apply H; [done |]. by eapply stable_use. Qed.

Lemma spec_bind {A C} P (m : M A) (k : A → M C) Q R : spec P m Q → (∀ a, spec (Q a) (k a) R) → spec P (m ≫= k) R.
Proof.
  intros Hm Hk s Hv Hs. apply wp_bind; [apply _ | | done]. eapply wp_mono; [| by apply Hm].
  intros [a | e |] s' Hv' H; [by apply Hk | | done]. intros s'' Hr Hv''. by eapply (stable_use (settled None)).
Qed.

Definition action_ok {A} (P : State → Prop) (f : Input → State → outcome unit (A * State)) (Q : A → State → Prop) : Prop :=
  ∀ e s, inv s → P s → match f e s with Val (a, s') => inv s' ∧ Q a s' | Err _ => settled None s | Undef => False end.

Lemma spec_atomically {A} (P : State → Prop) f (Q : A → State → Prop) (HP : Stable P) (HQ : ∀ a, Stable (Q a)) :
  action_ok P f Q → spec P (atomically f) Q.
Proof.
  intros H s Hv Hs s1 Hr Hv1 e x s2 E. pose proof (H e s1 Hv1 ltac:(by eapply (stable_use P))) as Hf.
  destruct (f e s1) as [[a s'] | u |]; [| | done]; injection E as <- <-.
  - destruct Hf as [Hv' Hq]. split; [done |]. intros s3 Hr3 Hv3. by eapply stable_use.
  - split; [done |]. intros s3 Hr3 Hv3. by eapply (stable_use (settled None)).
Qed.

Lemma spec_locked {A} (P : State → Prop) f (Q : A → State → Prop) (HP : Stable P) (HQ : ∀ a, Stable (Q a)) :
  (∀ s, inv s → P s → match f s with Val (a, s') => inv s' ∧ Q a s' | Err _ => settled None s | Undef => False end) →
  spec P (locked f) Q.
Proof. intros H. apply spec_atomically; [done.. |]. intros _ s. apply H. Qed.

(** An action that only looks. *)
Lemma spec_look {A} (P : State → Prop) (f : State → A) (Q : A → State → Prop) (HP : Stable P) (HQ : ∀ a, Stable (Q a)) :
  (∀ s, inv s → P s → Q (f s) s) → spec P (locked (λ s, Val (f s, s))) Q.
Proof. intros H. apply spec_locked; [done.. |]. intros s Hv Hs. auto. Qed.

Lemma spec_wait_for {A} (P : State → Prop) f (Q : A → State → Prop) (HP : Stable P) (HQ : ∀ a, Stable (Q a)) :
  (∀ e s a s', inv s → P s → f e s = Some (a, s') → inv s' ∧ Q a s') → spec P (wait_for f) Q.
Proof.
  intros H s Hv Hs s1 Hr Hv1 e x s2 E. destruct (f e s1) as [[a s'] |] eqn:Ef; [| done]. injection E as <- <-.
  destruct (H e s1 a s' Hv1 ltac:(by eapply (stable_use P)) Ef) as [Hv' Hq]. split; [done |]. intros s3 Hr3 Hv3. by eapply stable_use.
Qed.

Lemma spec_loop {X} (I : State → Prop) (body : M (option X)) (Q : X → State → Prop) (HI : Stable I) (HQ : ∀ x, Stable (Q x)) :
  spec I body (λ o s, match o with Some x => Q x s | None => I s end) → spec I (loop body) Q.
Proof.
  intros H s Hv Hs. exists (λ s, inv s ∧ I s). split; [done |]. split.
  { intros s1 s2 [Hv1 H1] Hr Hv2. split; [done | by eapply (stable_use I)]. }
  intros s1 Hv1 [_ H1]. apply wp_bind; [apply _ | | done]. eapply wp_mono; [| by apply H].
  intros [[x |] | e |] s2 Hv2 H2; [| | | done]; intros s3 Hr3 Hv3; cbn.
  - intros s4 Hr4 Hv4. assert (Q x s3) by by eapply stable_use. by eapply stable_use.
  - split; [done | by eapply (stable_use I)].
  - assert (settled None s3) by by eapply (stable_use (settled None)). intros s4 Hr4 Hv4. by eapply (stable_use (settled None)).
Qed.

(** A loop over the numbers from [k] on; [P i]: before the turn of [i]. *)
Lemma spec_for_each {X} (P : nat → State → Prop) (body : nat → M (option X)) (Q : X → State → Prop) n k
    (HP : ∀ i, Stable (P i)) (HQ : ∀ x, Stable (Q x)) :
  (∀ i, (k ≤ i < k + n)%nat → spec (P i) (body i) (λ o s, match o with Some x => Q x s | None => P (S i) s end)) →
  spec (P k) (for_each (seq k n) body) (λ o s, match o with Some x => Q x s | None => P (k + n)%nat s end).
Proof.
  revert k. induction n as [| n IH]; intros k H; cbn [seq for_each].
  - apply spec_ret; [apply _ |]. intros s _ Hs. by rewrite Nat.add_0_r.
  - eapply spec_bind; [apply H; lia |]. intros [x |]; cbn.
    + apply spec_ret; [apply _ | done].
    + rewrite Nat.add_succ_r, <- Nat.add_succ_l. apply IH. intros i Hi. apply H. lia.
Qed.

Lemma spec_for_records {X} (P : nat → State → Prop) (body : nat → M (option X)) (Q : X → State → Prop)
    (HP : ∀ i, Stable (P i)) (HQ : ∀ x, Stable (Q x)) :
  (∀ i, (i < worker_count c)%nat → spec (P i) (body i) (λ o s, match o with Some x => Q x s | None => P (S i) s end)) →
  spec (P 0%nat) (for_records body) (λ o s, match o with Some x => Q x s | None => P (worker_count c) s end).
Proof.
  intros H. eapply (spec_bind _ _ _ (λ l s, l = seq 0 (worker_count c) ∧ P 0%nat s)).
  - triple (spec_look (P 0%nat) all_records). intros s Hv Hs. unfold all_records. by rewrite (inv_length _ _ _ _ Hv).
  - intros l s Hv [-> Hs]. revert s Hv Hs. apply (spec_for_each P body Q (worker_count c) 0); [done.. |]. intros i Hi. apply H. lia.
Qed.

Lemma upd_here r φ Φ s rec : all_recs (upd r φ Φ) s → records_ s !! r = Some rec → φ (shell rec).
Proof. intros H Hr. specialize (H _ _ Hr). unfold upd in H. by rewrite decide_True in H. Qed.

Lemma all_recs_mono (Φ Ψ : nat → WorkerRecord → Prop) s : (∀ r x, Φ r x → Ψ r x) → all_recs Φ s → all_recs Ψ s.
Proof. intros H Ha r rec Hr. by apply H, Ha. Qed.

Lemma holds_mono o G Φ Ψ s : (∀ r x, Φ r x → Ψ r x) → holds o G Φ s → holds o G Ψ s.
Proof. intros H (? & ? & ?). split_and!; [done.. |]. by eapply all_recs_mono. Qed.

Lemma holds_again o G r φ ψ Φ s : holds o G (upd r φ (upd r ψ Φ)) s → holds o G (upd r φ Φ) s.
Proof. apply holds_mono. intros j x. unfold upd. by repeat case_decide. Qed.

Lemma holds_at o G r φ ψ Φ s : (∀ x, φ x → ψ x) → holds o G (upd r φ Φ) s → holds o G (upd r ψ Φ) s.
Proof. intros H. apply holds_mono. intros j x. unfold upd. case_decide; auto. Qed.

Lemma found s r : inv s → (r < worker_count c)%nat → ∃ rec, records_ s !! r = Some rec.
Proof. intros Hv Hr. apply lookup_lt_is_Some_2. by rewrite (inv_length _ _ _ _ Hv). Qed.

(** ** Actions of C on one record *)

(** [s'] is [s] but for record [r], what the publication state has of it, and what neither
    the invariant nor the assertions see. *)
Record changed (s : State) (r : nat) (rec' : WorkerRecord) (s' : State) : Prop := {
  changed_config : config_ s' = config_ s;
  changed_records : records_ s' = <[r := rec']> (records_ s);
  changed_flags : flags s' = flags s;
  changed_unexpected : unexpected_stop_worker_ s' = unexpected_stop_worker_ s;
  changed_join : join_failed s' = join_failed s;
}.

Record pub_change (o : option nat) (r : nat) (rec' : WorkerRecord) (p : Publication.World) : Prop := {
  change_ok : pub_ok p r rec';
  change_reachable : Publication.reachable heap p0 p;
  change_settled : o ≠ Some r → current_instance_ rec' = None → Publication.locals p !! (r, instance_id_ rec') = None;
}.

Lemma own_update o o' G Φ φ r rec rec' s s' : Flag G → inv s → holds o G Φ s → records_ s !! r = Some rec → changed s r rec' s' →
  rec_ok c (activation_requested_ s) (data_plane_released_ s) rec' →
  (∀ j, j ≠ r → same_at j (pub s) (pub s')) → (filter_publication c = true → pub_change o' r rec' (pub s')) →
  (∀ j, j ≠ r → o' ≠ Some j → o ≠ Some j) → φ (shell rec') → inv s' ∧ holds o' G (upd r φ Φ) s'.
Proof.
  intros HG Hv (Hset & Hg & Hall) Hr [Hc Hrec Hf Hu Hjf] Hok Hsame Hpub Ho Hφ.
  assert (∀ j x, records_ s' !! j = Some x → (j = r ∧ x = rec') ∨ (j ≠ r ∧ records_ s !! j = Some x)) as Hj.
  { intros j x. rewrite Hrec. intros [(-> & <- & _) | [Hj Hx]]%list_lookup_insert_Some; [by left | right]. by split. }
  split; [| split_and!].
  - pose proof Hf as [= Hf1 Hf2 Hf3 Hf4 _ _ _ _]. destruct Hv. split.
    + by rewrite Hc.
    + by rewrite Hrec, length_insert.
    + intros j x [[-> ->] | [_ H]]%Hj; rewrite Hf3, Hf4; [done | by eapply inv_records].
    + intros Hfp j x [[-> ->] | [Hjr H]]%Hj; [by apply Hpub |]. eapply pub_ok_same; [by apply Hsame |]. by apply inv_pub.
    + intros Hfp. by apply Hpub.
    + rewrite Hf1, Hf2, Hf3. done.
    + by rewrite Hf2, Hf4.
    + by rewrite Hu.
  - intros Hfp j x [[-> ->] | [Hjr H]]%Hj Hoj; [by apply Hpub |]. intros Hi. rewrite (same_locals _ _ _ (Hsame _ Hjr)). apply Hset; auto.
  - apply (flag_same s); [done | by rewrite Hjf | done].
  - intros j x [[-> ->] | [Hjr H]]%Hj; unfold upd; [by rewrite decide_True | rewrite decide_False by done; by apply Hall].
Qed.

Lemma own_again o o' G Φ ψ φ r rec rec' s s' : Flag G → inv s → holds o G (upd r ψ Φ) s → records_ s !! r = Some rec →
  changed s r rec' s' → rec_ok c (activation_requested_ s) (data_plane_released_ s) rec' →
  (∀ j, j ≠ r → same_at j (pub s) (pub s')) → (filter_publication c = true → pub_change o' r rec' (pub s')) →
  (∀ j, j ≠ r → o' ≠ Some j → o ≠ Some j) → φ (shell rec') → inv s' ∧ holds o' G (upd r φ Φ) s'.
Proof.
  intros HG Hv Hh Hr Hch Hok Hsame Hpub Ho Hφ. destruct (own_update o o' G (upd r ψ Φ) φ r rec rec' s s') as [? H]; try done.
  split; [done |]. revert H. apply holds_mono. intros j x. unfold upd. by repeat case_decide.
Qed.

Lemma insert_update r rec s : (r < length (records_ s))%nat → records_ (update_record r (λ _, rec) s) = <[r := rec]> (records_ s).
Proof.
  intros H. apply list_eq. intros j. rewrite update_lookup. destruct (decide (r = j)) as [<- |].
  - rewrite list_lookup_insert_eq by done. apply lookup_lt_is_Some_2 in H as [x ->]. done.
  - by rewrite list_lookup_insert_ne.
Qed.

(** The publication state stays. *)
Lemma own_record o G Φ φ r rec rec' s s' : Flag G → inv s → holds o G Φ s → records_ s !! r = Some rec → changed s r rec' s' →
  pub s' = pub s → rec_ok c (activation_requested_ s) (data_plane_released_ s) rec' →
  instance_id_ rec' = instance_id_ rec →
  (current_instance_ rec' = current_instance_ rec ∨ is_Some (current_instance_ rec) ∧ is_Some (current_instance_ rec')) →
  (state_ rec' = Offline ∨ state_ rec' = Backoff → filter_publication c = true →
   Publication.registry_at (Publication.publication (pub s)) r = None) → φ (shell rec') → inv s' ∧ holds o G (upd r φ Φ) s'.
Proof.
  intros HG Hv Hh Hr Hch Hp Hok Hid Hci Hst Hφ. eapply own_update; try done; rewrite Hp; [done |]. intros Hfp.
  destruct (inv_pub _ _ _ _ Hv Hfp _ _ Hr). split.
  - split; rewrite ?Hid; try done.
    + intros H. apply pub_instance. destruct Hci as [Hci | [? _]]; [by rewrite <- Hci | done].
    + intros e He. destruct (pub_registry _ He) as (? & ? & ? & ?). split_and!; try done; intros Hs; rewrite Hst in He by auto; done.
  - by apply (inv_reachable _ _ _ _ Hv).
  - intros Ho Hn. rewrite Hid. destruct Hh as (Hset & _). apply Hset; [done.. |]. destruct Hci as [Hci | [_ [? ?]]]; congruence.
Qed.

Lemma own_at o G Φ ψ φ r rec rec' s s' : Flag G → inv s → holds o G (upd r ψ Φ) s → records_ s !! r = Some rec → changed s r rec' s' →
  pub s' = pub s → rec_ok c (activation_requested_ s) (data_plane_released_ s) rec' →
  instance_id_ rec' = instance_id_ rec →
  (current_instance_ rec' = current_instance_ rec ∨ is_Some (current_instance_ rec) ∧ is_Some (current_instance_ rec')) →
  (state_ rec' = Offline ∨ state_ rec' = Backoff → filter_publication c = true →
   Publication.registry_at (Publication.publication (pub s)) r = None) → φ (shell rec') → inv s' ∧ holds o G (upd r φ Φ) s'.
Proof.
  intros HG Hv Hh Hr Hch Hp Hok Hid Hci Hst Hφ. destruct (own_record o G (upd r ψ Φ) φ r rec rec' s s') as [? H]; try done.
  split; [done |]. revert H. apply holds_mono. intros j x. unfold upd. by repeat case_decide.
Qed.

(** What only other fields of the state show. *)
Lemma own_flags o G Φ s s' : Flag G → inv s → holds o G Φ s → config_ s' = config_ s → records_ s' = records_ s → pub s' = pub s →
  flags s' = flags s → (∀ r, unexpected_stop_worker_ s' = Some r → (r < worker_count c)%nat) → (join_failed s = true → join_failed s' = true) →
  inv s' ∧ holds o G Φ s'.
Proof.
  intros HG [] (Hset & Hg & Hall) Hc Hr Hp Hf Hu Hjf. pose proof Hf as [= Hf1 Hf2 Hf3 Hf4 _ _ _ _]. split.
  - split; rewrite ?Hc, ?Hr, ?Hp, ?Hf1, ?Hf2, ?Hf3, ?Hf4; done.
  - split_and!; [by unfold settled; rewrite Hr, Hp | by apply (flag_same s) | by unfold all_recs; rewrite Hr].
Qed.

(** ** Health *)
Lemma publish_health_spec o G Φ : Flag G → spec (holds o G Φ) publish_health (λ _, holds o G Φ).
Proof.
  intros HG. unfold publish_health. eapply spec_bind.
  - triple (spec_locked (holds o G Φ) _ (λ _, holds o G Φ)). intros s Hv Hh. by apply (own_flags o G Φ s); try done; apply Hv.
  - intros h. triple (spec_locked (holds o G Φ) _ (λ _, holds o G Φ)). intros s Hv Hh. case_match; [| done].
    by apply (own_flags o G Φ s); try done; apply Hv.
Qed.

(** ** Creating a worker *)
Definition anything (x : WorkerRecord) : Prop := True.
Definition idle (x : WorkerRecord) : Prop := current_instance_ x = None ∧ current_thread_ x = None.
Definition creatable (x : WorkerRecord) : Prop := idle x ∧ (state_ x = Offline ∨ state_ x = Backoff) ∧
  (recovery_episode_ x = true → recovery_attempts_ x < max_attempts (recovery c)).
Definition created (x : WorkerRecord) : Prop := idle x ∧ state_ x = Creating.
Definition begun (x : WorkerRecord) : Prop := is_Some (current_instance_ x) ∧ current_thread_ x = None ∧ state_ x = Starting.

(** Nothing of the new instance is in the publication state; its snapshot is. *)
Definition unregistered (r : nat) (s : State) : Prop := ∃ rec, records_ s !! r = Some rec ∧ current_thread_ rec = None ∧
  (filter_publication c = true → Publication.published_instance_id (Publication.epochs (pub s) r) < instance_id_ rec).
Definition registered (r : nat) (s : State) : Prop := ∃ rec, records_ s !! r = Some rec ∧ current_thread_ rec = None ∧
  (filter_publication c = true → is_Some (Publication.locals (pub s) !! (r, instance_id_ rec))).

#[local] Instance unregistered_stable r : Stable (unregistered r).
Proof.
  intros s s' _ _ Hr (rec & Hrec & Ht & H). destruct (rely_records _ _ Hr _ _ Hrec) as (rec' & Hrec' & Hs & _).
  exists rec'. split; [done |]. split; [by eapply shell_no_thread |]. rewrite (same_published _ _ _ (rely_idle _ _ Hr _ _ Hrec Ht)).
  by assert (instance_id_ rec' = instance_id_ rec) as -> by by injection Hs.
Qed.
#[local] Instance registered_stable r : Stable (registered r).
Proof.
  intros s s' _ _ Hr (rec & Hrec & Ht & H). destruct (rely_records _ _ Hr _ _ Hrec) as (rec' & Hrec' & Hs & _).
  exists rec'. split; [done |]. split; [by eapply shell_no_thread |]. rewrite (same_locals _ _ _ (rely_idle _ _ Hr _ _ Hrec Ht)).
  by assert (instance_id_ rec' = instance_id_ rec) as -> by by injection Hs.
Qed.

Lemma shell_thread_none rec : current_thread_ (shell rec) = None ↔ current_thread_ rec = None.
Proof. unfold shell. cbn. by destruct (current_thread_ rec). Qed.

(** Facts about the updated record. *)
Lemma begin_ok q d rec : rec_ok c q d rec → current_instance_ rec = None → current_thread_ rec = None →
  instance_id_ rec ≠ 2 ^ 64 - 1 → rec_ok c q d (next_instance rec).
Proof.
  intros [] Hi Ht Hid. split; cbn; rewrite ?Hi, ?Ht; try done; try lia; try by intros [? ?].
  by intros [|].
Qed.

Lemma count_attempt_ok q d rec : rec_ok c q d rec → recovery_attempts_ rec < max_attempts (recovery c) →
  rec_ok c q d (set_recovery_attempts (recovery_attempts_ rec + 1) rec).
Proof. intros [] H. split; try done. cbn. lia. Qed.

(** The count of the attempt, if it is one. *)
Definition counted (rec : WorkerRecord) : WorkerRecord :=
  if recovery_episode_ rec then set_recovery_attempts (recovery_attempts_ rec + 1) rec else rec.

Lemma begin_creation_eq r s rec : records_ s !! r = Some rec → creatable (shell rec) → ∃ h,
  begin_creation r s =
    if abrupt_exit_requested_ s then Err ()
    else if stop_requested_locked s then Val (Some cancelled_startup, s)
    else let s1 := set_health h (update_record r (λ _, counted rec) s) in
         if instance_id_ rec =? 2 ^ 64 - 1 then Val (Some (creation_error r rec StartupErrorCode.InstanceIdExhausted 0 None), s1)
         else Val (None, update_record r next_instance s1).
Proof.
  intros Hr ((Hi & Ht) & _). rewrite shell_thread_none in Ht. cbn in Hi. unfold begin_creation, get_record. rewrite Hr. cbn.
  unfold joinable, counted. rewrite Hi, Ht. rewrite bool_decide_eq_false_2 by by intros [? ?]. cbn [orb].
  destruct (recovery_episode_ rec).
  - exists (count_health 1 0 0 (health_ s)). rewrite (update_const _ _ _ rec) by done. done.
  - exists (health_ s). replace (set_health (health_ s) (update_record r (λ _, rec) s)) with s; [done |].
    unfold update_record, set_records, set_health. destruct s. cbn. f_equal. symmetry. apply list_eq. intros j.
    rewrite list_lookup_alter. destruct (decide (r = j)) as [<- |]; [| done]. cbn in Hr. by rewrite Hr.
Qed.

Lemma counted_ok q d rec : rec_ok c q d rec → creatable (shell rec) → rec_ok c q d (counted rec).
Proof. intros Hok (_ & _ & Hep). unfold counted. case_match eqn:E; [| done]. apply count_attempt_ok; [done |]. by apply Hep. Qed.

Lemma begin_creation_spec r G Φ : Flag G → (r < worker_count c)%nat → spec (holds None G (upd r creatable Φ)) (locked (begin_creation r))
  (λ e s, match e with
          | None => holds None G (upd r created Φ) s ∧ unregistered r s
          | Some e => holds None G (upd r anything Φ) s ∧ (startup_code e = StartupErrorCode.Cancelled → stopping s)
          end).
Proof.
  intros HG Hlt. triple (spec_locked _ _ _). intros s Hv Hh. destruct (found s r Hv Hlt) as [rec Hr].
  pose proof (upd_here _ _ _ _ _ (proj2 (proj2 Hh)) Hr) as Hc. destruct (begin_creation_eq r s rec Hr Hc) as [h ->].
  pose proof (inv_records _ _ _ _ Hv _ _ Hr) as Hok. pose proof (counted_ok _ _ _ Hok Hc) as Hok'.
  destruct (abrupt_exit_requested_ s); [by destruct Hh |]. destruct (stop_requested_locked s) eqn:Es.
  { split; [done |]. split; [by eapply holds_at | done]. }
  assert (current_instance_ rec = None ∧ current_thread_ rec = None) as [Hi Ht].
  { destruct Hc as ((Hi & Ht) & _). by rewrite shell_thread_none in Ht. }
  assert (state_ (counted rec) = state_ rec ∧ instance_id_ (counted rec) = instance_id_ rec ∧ current_instance_ (counted rec) = None ∧
    current_thread_ (counted rec) = None) as (S1 & S2 & S3 & S4) by (unfold counted; by case_match).
  assert (state_ rec = Offline ∨ state_ rec = Backoff) as Hst by apply Hc.
  assert (filter_publication c = true → Publication.registry_at (Publication.publication (pub s)) r = None) as Hreg.
  { intros Hfp. destruct (Publication.registry_at _ _) as [e |] eqn:E; [| done].
    destruct (pub_registry _ _ _ (inv_pub _ _ _ _ Hv Hfp _ _ Hr) _ E) as (_ & _ & ? & ?). destruct Hst; done. }
  cbv zeta. destruct (instance_id_ rec =? 2 ^ 64 - 1) eqn:Eid; bool_hyps.
  - apply and_assoc. split; [| done]. eapply own_at; [done | done | exact Hh | exact Hr | changes | done | exact Hok' | exact S2 | left; congruence | auto | done].
  - apply and_assoc. split.
    + eapply (own_again _ _ _ _ _ _ _ rec (next_instance (counted rec)));
        [done | done | exact Hh | exact Hr | changes | apply begin_ok; [done.. | by rewrite S2] | done | | done |
         split; [split; [exact S3 | by rewrite shell_thread_none] | done]].
      intros Hfp. pose proof (inv_pub _ _ _ _ Hv Hfp _ _ Hr) as []. destruct Hh as (Hset & _).
      assert (∀ i, Publication.locals (pub s) !! (r, i) = None) as Hn.
      { intros i. destruct (Publication.locals (pub s) !! (r, i)) eqn:E; [| done]. pose proof (pub_local i ltac:(by eexists)) as ->.
        by rewrite (Hset Hfp _ _ Hr) in E by done. }
      split; [split; cbn; rewrite ?S2, ?S3 | by apply (inv_reachable _ _ _ _ Hv) | intros _ _; apply Hn].
      * lia.
      * intros i. rewrite Hn. by intros [? ?].
      * by intros [? ?].
      * intros e. by rewrite Hreg.
    + exists (next_instance (counted rec)). split; [| split; [done |]].
      * cbn. rewrite list_alter_alter_eq, list_lookup_alter, decide_True, Hr by done. done.
      * intros Hfp. cbn. rewrite S2. pose proof (inv_pub _ _ _ _ Hv Hfp _ _ Hr) as []. lia.
Qed.

Lemma set_epoch_same r e j w : j ≠ r → same_at j w (Publication.set_epoch r e w).
Proof. intros Hj. by split; cbn; rewrite ?fn_lookup_insert_ne by done. Qed.

Lemma register_cases r i w : Publication.published_instance_id (Publication.epochs w r) < i →
  let o := (Publication.register_worker r i r w).1 in
  (o = None ∧ Publication.act heap (Publication.Register r i) w = Some w) ∨
  (is_Some o ∧ ∃ w', Publication.act heap (Publication.Register r i) w = Some w' ∧ (∀ j, j ≠ r → same_at j w w') ∧
     (∀ j, is_Some (Publication.locals w' !! (r, j)) ↔ j = i ∨ is_Some (Publication.locals w !! (r, j))) ∧
     Publication.published_instance_id (Publication.epochs w' r) = i ∧
     (∀ e, Publication.registry_at (Publication.publication w') r = Some e → e = r)).
Proof.
  intros Hlt. cbn [Publication.act]. rewrite (proj2 (Z.ltb_lt _ _) Hlt). unfold Publication.register_worker.
  destruct (_ || _) eqn:E0; [by left |]. destruct (Publication.active_snapshot_ _) as [snap |]; [right | by left].
  split; [by eexists |]. eexists. split; [reflexivity |].
  repeat (apply orb_false_iff in E0 as [E0 _]). apply Nat.leb_gt in E0. split_and!.
  - intros j Hj. split; cbn.
    + intros k. by rewrite lookup_insert_ne by congruence.
    + by rewrite fn_lookup_insert_ne.
    + unfold Publication.registry_at. cbn. by rewrite list_lookup_insert_ne.
  - intros j. cbn. destruct (decide (j = i)) as [-> |].
    + rewrite lookup_insert_eq. split; [by left | by eexists].
    + rewrite lookup_insert_ne by congruence. split; [by right | by intros [? | ?]].
  - cbn. by rewrite fn_lookup_insert.
  - intros e. unfold Publication.registry_at. cbn. rewrite list_lookup_insert_eq by done. by intros [= <-].
Qed.

Lemma update_nothing s r rec : records_ s !! r = Some rec → <[r := rec]> (records_ s) = records_ s.
Proof. apply list_insert_id. Qed.

(** Only the publication state changes. *)
Lemma own_pub o o' G φ Φ r rec p s : Flag G → inv s → holds o G (upd r φ Φ) s → records_ s !! r = Some rec →
  (∀ j, j ≠ r → same_at j (pub s) p) → (filter_publication c = true → pub_change o' r rec p) → (∀ j, j ≠ r → o' ≠ Some j → o ≠ Some j) →
  inv (set_pub p s) ∧ holds o' G (upd r φ Φ) (set_pub p s).
Proof.
  intros HG Hv Hh Hr Hsame Hpub Ho. apply (own_again o o' G Φ φ φ r rec rec s); try done.
  - split; [done | | done..]. cbn. by rewrite update_nothing.
  - exact (inv_records _ _ _ _ Hv _ _ Hr).
  - exact (upd_here r φ Φ s rec (proj2 (proj2 Hh)) Hr).
Qed.

Lemma register_worker_spec r G Φ : Flag G → (r < worker_count c)%nat →
  spec (λ s, holds None G (upd r created Φ) s ∧ unregistered r s) (locked (register_worker heap r))
    (λ b s, match b with
            | true => holds (Some r) G (upd r created Φ) s ∧ registered r s
            | false => holds None G (upd r created Φ) s
            end).
Proof.
  intros HG Hlt. triple (spec_locked _ _ _). intros s Hv (Hh & rec & Hr & Ht & Hun).
  pose proof (upd_here _ _ _ _ _ (proj2 (proj2 Hh)) Hr) as [[Hi _] Hst]. cbn in Hi, Hst.
  unfold register_worker, get_record. rewrite Hr. cbn. rewrite (inv_config _ _ _ _ Hv).
  destruct (filter_publication c) eqn:Hfp.
  - specialize (Hun eq_refl). unfold publication_step.
    destruct (register_cases r (instance_id_ rec) (pub s) Hun) as [[E1 E2] | (E1 & w & E2 & Hsame & Hloc & Hpid & Hreg)]; rewrite E2; cbn.
    + rewrite E1, bool_decide_eq_false_2 by by intros [? ?].
      replace (set_pub (pub s) s) with s by by destruct s. done.
    + rewrite bool_decide_eq_true_2 by done. apply and_assoc. split.
      * eapply own_pub; try done. intros _. pose proof (inv_pub _ _ _ _ Hv Hfp _ _ Hr) as [].
        split; [split | | done].
        -- by rewrite Hpid.
        -- intros j Hj%Hloc. destruct Hj; auto.
        -- intros _. apply Hloc. by left.
        -- intros e He%Hreg. subst e. rewrite Hst. by rewrite Hpid.
        -- eapply Publication.reachable_step; [by apply (inv_reachable _ _ _ _ Hv) | done].
      * exists rec. split; [done |]. split; [done |]. intros _. apply Hloc. by left.
  - cbn. apply and_assoc. split.
    + eapply own_pub; try done; [intros j; apply set_epoch_same | congruence].
    + exists rec. split_and!; [done.. | congruence].
Qed.

Lemma release_eq r s rec : inv s → records_ s !! r = Some rec → ∃ p, release_snapshot heap r s = Val (set_pub p s) ∧
  (∀ j, j ≠ r → same_at j (pub s) p) ∧
  (filter_publication c = true → (∀ i, Publication.locals p !! (r, i) = None ∨ i ≠ instance_id_ rec ∧
     Publication.locals p !! (r, i) = Publication.locals (pub s) !! (r, i)) ∧
   Publication.published_instance_id (Publication.epochs p r) = Publication.published_instance_id (Publication.epochs (pub s) r) ∧
   Publication.registry_at (Publication.publication p) r = Publication.registry_at (Publication.publication (pub s)) r ∧
   Publication.reachable heap p0 p).
Proof.
  intros Hv Hr. unfold release_snapshot, get_record. rewrite Hr. cbn. rewrite (inv_config _ _ _ _ Hv).
  destruct (filter_publication c) eqn:Hfp; [| exists (pub s); by destruct s].
  eexists. split; [reflexivity |]. split.
  - intros j Hj. split; [| done | done]. intros k. cbn. by rewrite lookup_delete_ne by congruence.
  - intros _. split; [| split; [done |]; split; [done |]].
    + intros i. cbn. destruct (decide (i = instance_id_ rec)) as [-> |]; [left; by rewrite lookup_delete_eq | right].
      by rewrite lookup_delete_ne by congruence.
    + apply (Publication.reachable_step heap p0 (pub s) (Publication.ReleaseLocal r (instance_id_ rec))); [by apply (inv_reachable _ _ _ _ Hv) | done].
Qed.

(** The snapshot of a record without an instance is released. *)
Lemma release_settles o G φ Φ r s rec : Flag G → inv s → holds o G (upd r φ Φ) s → records_ s !! r = Some rec →
  current_instance_ rec = None → o = None ∨ o = Some r →
  ∃ s', release_snapshot heap r s = Val s' ∧ inv s' ∧ holds None G (upd r φ Φ) s' ∧ records_ s' = records_ s.
Proof.
  intros HG Hv Hh Hr Hi Ho. destruct (release_eq r s rec Hv Hr) as (p & E & Hsame & Hp). exists (set_pub p s). split; [done |].
  apply and_assoc. split; [| done]. eapply own_pub; try done; [| intros j Hj _; destruct Ho as [-> | ->]; congruence].
  intros Hfp. destruct (Hp Hfp) as (Hl & Hpid & Hreg & Hre). destruct (inv_pub _ _ _ _ Hv Hfp _ _ Hr).
  split; [split; rewrite ?Hpid, ?Hreg; try done | done |].
  - intros i [x Hx]. destruct (Hl i) as [Hn | [_ Hn]]; [congruence |]. apply pub_local. rewrite <- Hn. by eexists.
  - rewrite Hi. by intros [? ?].
  - intros _ _. destruct (Hl (instance_id_ rec)) as [Hn | [? _]]; done.
Qed.

Lemma valid_cache r : valid_configuration c = true → (r < worker_count c)%nat → ∃ n, cache_shards c = Some n ∧ (n <=? r)%nat = false.
Proof.
  unfold valid_configuration. destruct (cache_shards c) as [n |]; intros H Hr; bool_hyps; [| done]. exists n. split; [done |].
  apply Nat.leb_gt. lia.
Qed.

Lemma create_loop_spec r G Φ : Flag G → (r < worker_count c)%nat → valid_configuration c = true →
  spec (λ s, holds (Some r) G (upd r created Φ) s ∧ registered r s) (atomically (create_loop heap r))
    (λ o s, match o with
            | inl _ => holds (Some r) G (upd r created Φ) s ∧ registered r s
            | inr e => holds None G (upd r anything Φ) s ∧ startup_code e ≠ StartupErrorCode.Cancelled
            end).
Proof.
  intros HG Hlt Hval. triple (spec_atomically _ _ _). intros e s Hv [Hh Hreg]. pose proof Hreg as (rec & Hr & _).
  pose proof (upd_here _ _ _ _ _ (proj2 (proj2 Hh)) Hr) as [[Hi _] Hst]. cbn in Hi.
  destruct (release_settles _ _ _ _ _ _ _ HG Hv Hh Hr Hi (or_intror eq_refl)) as (s' & Es & Hv' & Hh' & _).
  unfold create_loop, get_record. rewrite Hr. cbn. rewrite (inv_config _ _ _ _ Hv), Es. cbn.
  assert (holds None G (upd r anything Φ) s') as Hh2 by by eapply holds_at.
  destruct (_ && _); [by split_and! |]. destruct (valid_cache r Hval Hlt) as (n & -> & ->). destruct (create_outcome e); cbn; by split_and!.
Qed.

Lemma place_ok q d rec bound : rec_ok c q d rec → created (shell rec) → rec_ok c q d (set_state Starting (set_current_instance (Some (mkLoop bound false)) rec)).
Proof.
  intros [] ((Hi & Ht) & Hst). cbn in Hi, Hst. rewrite shell_thread_none in Ht. split; cbn; try done; try by intros [].
  - intros t E. by rewrite Ht in E.
  - intros _ _. apply ok_fresh; auto.
Qed.

Lemma create_worker_spec r port G Φ : Flag G → (r < worker_count c)%nat → valid_configuration c = true →
  spec (holds None G (upd r creatable Φ)) (create_worker heap r port)
    (λ e s, match e with
            | None => holds None G (upd r begun Φ) s
            | Some e => holds None G (upd r anything Φ) s ∧ (startup_code e = StartupErrorCode.Cancelled → stopping s)
            end).
Proof.
  intros HG Hlt Hval. unfold create_worker. eapply spec_bind; [by apply begin_creation_spec |]. intros [error |].
  { triple (spec_ret _ _ _). auto. }
  eapply spec_bind; [by apply register_worker_spec |]. intros [|]; cbn [negb].
  2:{ triple (spec_locked _ _ _). intros s Hv Hh. destruct (found s r Hv Hlt) as [rec Hr]. unfold get_record. rewrite Hr. cbn.
      split; [done |]. split; [by eapply holds_at | done]. }
  eapply spec_bind; [by apply create_loop_spec |]. intros [bound | error].
  2:{ triple (spec_ret _ _ _). intros s Hv [Hh He]. by split. }
  triple (spec_locked _ _ _). intros s Hv [Hh (rec & Hr & Ht & Hloc)].
  pose proof (upd_here _ _ _ _ _ (proj2 (proj2 Hh)) Hr) as Hc. pose proof (inv_records _ _ _ _ Hv _ _ Hr) as Hok.
  eapply (own_again (Some r) None _ _ _ _ r rec); [done | done | exact Hh | exact Hr | changes | by apply place_ok | done | | congruence |].
  - intros Hfp. destruct (inv_pub _ _ _ _ Hv Hfp _ _ Hr). split; [split; cbn; try done | by apply (inv_reachable _ _ _ _ Hv) | done].
    + intros _. by apply Hloc.
    + intros e He. destruct (pub_registry _ He) as (? & ? & _). done.
  - split; [by eexists |]. by rewrite shell_thread_none.
Qed.

(** ** Starting the threads *)
Definition threaded (x : WorkerRecord) : Prop := (state_ x = Starting ∨ state_ x = Ready) ∧ is_Some (current_thread_ x).

Lemma shell_thread_some rec : is_Some (current_thread_ (shell rec)) ↔ is_Some (current_thread_ rec).
Proof. unfold shell. cbn. by rewrite fmap_is_Some. Qed.

Lemma bind_observer_ok q d rec i : rec_ok c q d rec → current_thread_ rec = None → rec_ok c q d (set_observer_instance i rec).
Proof. intros [] Ht. split; try done. cbn. intros t E. by rewrite Ht in E. Qed.

Lemma launch_ok q d rec : rec_ok c q d rec → begun (shell rec) →
  rec_ok c q d (set_current_thread (Some (mkThread (instance_id_ rec) WStart)) (set_observer_instance (instance_id_ rec) rec)).
Proof.
  intros [] (Hi & Ht & Hst). cbn in Hi, Hst. rewrite shell_thread_none in Ht. split; cbn; try done.
  - intros t [= <-]. by rewrite Hst.
  - intros [H | H]; congruence.
  - intros t [= <-]. cbn. apply ok_fresh; auto.
Qed.

Lemma start_worker_thread_spec r G Φ : Flag G → (r < worker_count c)%nat →
  spec (holds None G (upd r begun Φ)) (start_worker_thread r)
    (λ e s, match e with
            | None => holds None G (upd r (λ x, state_ x = Starting ∧ is_Some (current_thread_ x)) Φ) s
            | Some e => holds None G (upd r anything Φ) s ∧ (startup_code e = StartupErrorCode.Cancelled → stopping s)
            end).
Proof.
  intros HG Hlt. unfold start_worker_thread. eapply (spec_bind _ _ _ (λ e s, match e with
    | None => holds None G (upd r begun Φ) s
    | Some e => holds None G (upd r anything Φ) s ∧ (startup_code e = StartupErrorCode.Cancelled → stopping s) end)).
  - triple (spec_locked _ _ _). intros s Hv Hh. destruct (abrupt_exit_requested_ s); [by apply Hh |].
    destruct (stop_requested_locked s) eqn:Es; [| done]. split; [done |]. split; [by eapply holds_at | done].
  - intros [error |]; [triple (spec_ret _ _ _); auto |]. triple (spec_atomically _ _ _). intros e s Hv Hh.
    destruct (found s r Hv Hlt) as [rec Hr]. pose proof (upd_here _ _ _ _ _ (proj2 (proj2 Hh)) Hr) as Hb.
    pose proof Hb as (Hi & Ht & Hst). rewrite shell_thread_none in Ht. pose proof (inv_records _ _ _ _ Hv _ _ Hr) as Hok.
    unfold launch, get_record. rewrite Hr. cbn.
    assert (∀ err, startup_code err = StartupErrorCode.WorkerThreadStartFailed →
      let s' := update_record r (set_observer_instance (instance_id_ rec)) s in
      inv s' ∧ holds None G (upd r anything Φ) s' ∧ (startup_code err = StartupErrorCode.Cancelled → stopping s')) as Hfail.
    { intros err Herr s'. rewrite Herr. apply and_assoc. split; [| done]. eapply own_at; [done | done | exact Hh | exact Hr | changes | done |
        by apply bind_observer_ok | done | by left | cbn in *; intros [H | H]; congruence | done]. }
    destruct (_ && _); [by apply Hfail |]. destruct (thread_error e) as [n |]; [by apply Hfail |].
    unfold joinable. rewrite Ht, bool_decide_eq_false_2 by by intros [? ?].
    eapply own_at; [done | done | exact Hh | exact Hr | changes | done | by apply launch_ok | done | by left | | ].
    + cbn in *. intros [H1 | H1]; congruence.
    + split; [done |]. rewrite shell_thread_some. by eexists.
Qed.

(** ** Waiting *)

(** The assertions of a loop over all the records, of which those before [i] are done. *)
Definition split_at (i : nat) (φ ψ : WorkerRecord → Prop) : nat → WorkerRecord → Prop :=
  λ j x, if decide (j < i)%nat then φ x else ψ x.

Lemma split_upd i φ ψ j x : split_at i φ ψ j x → upd i ψ (split_at i φ ψ) j x.
Proof. unfold split_at, upd. repeat case_decide; subst; try done; lia. Qed.

Lemma split_next i φ ψ j x : upd i φ (split_at i φ ψ) j x → split_at (S i) φ ψ j x.
Proof. unfold split_at, upd. repeat case_decide; subst; try done; lia. Qed.

Lemma split_all o G φ ψ s : inv s → holds o G (split_at (worker_count c) φ ψ) s → holds o G (λ _, φ) s.
Proof.
  intros Hv (? & ? & H). split_and!; [done.. |]. intros r rec Hr. specialize (H _ _ Hr). unfold split_at in H.
  rewrite decide_True in H; [done |]. rewrite <- (inv_length _ _ _ _ Hv). by eapply lookup_lt_Some.
Qed.

Lemma split_none o G φ ψ s : holds o G (λ _, ψ) s → holds o G (split_at 0 φ ψ) s.
Proof. apply holds_mono. intros j x H. unfold split_at. by rewrite decide_False by lia. Qed.

Lemma holds_any o G Φ s : holds o G Φ s → holds o G (λ _, anything) s.
Proof. by apply holds_mono. Qed.

Lemma start_worker_threads_spec G : Flag G → spec (holds None G (λ _, begun)) start_worker_threads
  (λ e s, match e with
          | None => holds None G (λ _, threaded) s
          | Some e => holds None G (λ _, anything) s ∧ (startup_code e = StartupErrorCode.Cancelled → stopping s)
          end).
Proof.
  intros HG. unfold start_worker_threads. eapply spec_conseq.
  - apply (spec_for_records (λ i, holds None G (split_at i threaded begun)) _
      (λ e s, holds None G (λ _, anything) s ∧ (startup_code e = StartupErrorCode.Cancelled → stopping s))); [apply _ .. |].
    intros i Hi. eapply spec_conseq; [by apply (start_worker_thread_spec i G (split_at i threaded begun)) | |].
    + intros s _. apply holds_mono. intros j x. apply split_upd.
    + intros [e |] s _; cbn; [intros [H ?]; split; [by eapply holds_any | done] |]. apply holds_mono. intros j x H. apply split_next.
      unfold upd in *. case_decide; [| done]. destruct H. split; auto.
  - intros s _. apply split_none.
  - intros [e |] s Hv; [done | by apply split_all].
Qed.

Lemma ready_now_eq rec x : ready_now rec = Some x → ready_ rec = Some (instance_id_ rec, x).
Proof. unfold ready_now. repeat case_match; try done. intros [= <-]. bool_hyps. congruence. Qed.

Lemma activated_now_eq rec : activated_now rec = true → is_Some (activated_ rec).
Proof. unfold activated_now. case_match; [by eexists | done]. Qed.

(** Changes of the state of a record. *)
Lemma ready_state_ok q d rec : rec_ok c q d rec → is_Some (current_thread_ rec) → ready_ok rec → rec_ok c q d (set_state Ready rec).
Proof.
  intros Hok [t Ht] Hr. destruct (ok_thread _ _ _ _ Hok _ Ht) as (Hi & _). destruct Hok. split; cbn; try done.
  - intros t' Ht'. by destruct (ok_thread _ Ht') as (? & ? & ? & ?).
  - by intros _ [|].
Qed.

Lemma running_state_ok q d rec : rec_ok c q d rec → state_ rec = Ready ∨ state_ rec = Running → is_Some (activated_ rec) →
  rec_ok c q d (set_state Running rec).
Proof.
  intros Hok Hst Ha. destruct (ok_ready _ _ _ _ Hok Hst) as ([t Ht] & Hr). destruct (ok_thread _ _ _ _ Hok _ Ht) as (Hi & _).
  destruct Hok. split; cbn; try done.
  - intros t' Ht'. by destruct (ok_thread _ Ht') as (? & ? & ? & ?).
  - by intros _ [|].
Qed.

Lemma ended_state_ok q d rec st : rec_ok c q d rec → st = Exited ∨ st = Stopping → rec_ok c q d (set_state st rec).
Proof.
  intros [] Hst. assert (may_run st = true ∧ has_instance st = true) as [H1 H2] by by destruct Hst as [-> | ->].
  split; cbn; try done; try by (destruct Hst as [-> | ->]; intros; intuition congruence).
  intros t Ht. destruct (ok_thread _ Ht) as (? & ? & ? & ?). done.
Qed.

Lemma last_result_ok q d rec x : rec_ok c q d rec → rec_ok c q d (set_last_result x rec).
Proof. by intros []. Qed.

(** The publication state changes in nothing that the invariant sees. *)
Lemma own_same o G Φ p s : Flag G → inv s → holds o G Φ s → (∀ j, same_at j (pub s) p) →
  (filter_publication c = true → Publication.reachable heap p0 p) → inv (set_pub p s) ∧ holds o G Φ (set_pub p s).
Proof.
  intros HG [] (Hset & Hg & Hall) Hsame Hre. split; [| split_and!].
  - split; try done. intros Hfp r rec Hr. eapply pub_ok_same; [apply Hsame |]. by apply inv_pub.
  - intros Hfp r rec Hr Ho Hi. cbn. rewrite (same_locals _ _ _ (Hsame r)). by apply Hset.
  - by apply (flag_same s).
  - done.
Qed.

Lemma mark_eq r s rec : inv s → records_ s !! r = Some rec → ∃ b p, mark_worker_registered heap r s = Val (b, set_pub p s) ∧
  (∀ j, same_at j (pub s) p) ∧ (filter_publication c = true → Publication.reachable heap p0 p).
Proof.
  intros Hv Hr. unfold mark_worker_registered, get_record. rewrite Hr. cbn. rewrite (inv_config _ _ _ _ Hv).
  destruct (filter_publication c) eqn:Hfp.
  - do 2 eexists. split; [reflexivity |]. split.
    + intros j. unfold Publication.mark_worker_registered. repeat case_match; try done; cbn; split; cbn; try done;
        destruct (decide (r = j)) as [<- |]; by rewrite ?fn_lookup_insert, ?fn_lookup_insert_ne.
    + intros _. apply (Publication.reachable_step heap p0 (pub s) (Publication.MarkRegistered r (instance_id_ rec))); [| done].
      by apply (inv_reachable _ _ _ _ Hv).
  - do 2 eexists. split; [reflexivity |]. split; [| done]. intros j. split; cbn; try done.
    destruct (decide (r = j)) as [<- |]; by rewrite ?fn_lookup_insert, ?fn_lookup_insert_ne.
Qed.

Lemma mark_safe o G Φ r s rec : Flag G → inv s → holds o G Φ s → records_ s !! r = Some rec → ∃ b s',
  mark_worker_registered heap r s = Val (b, s') ∧ inv s' ∧ holds o G Φ s' ∧ records_ s' = records_ s ∧
  activation_requested_ s' = activation_requested_ s ∧ data_plane_released_ s' = data_plane_released_ s.
Proof.
  intros HG Hv Hh Hr. destruct (mark_eq r s rec Hv Hr) as (b & p & E & Hsame & Hre). exists b, (set_pub p s). split; [done |].
  apply and_assoc. split; [| done]. by apply own_same.
Qed.

Lemma upd_all r φ Φ o G s : holds o G (upd r φ Φ) s → (∀ x, φ x → Φ r x) → holds o G Φ s.
Proof. intros H Hφ. revert H. apply holds_mono. intros j x. unfold upd. case_decide; subst; auto. Qed.

Lemma holds_upd r Φ o G s : holds o G Φ s → holds o G (upd r (Φ r) Φ) s.
Proof. apply holds_mono. intros j x. unfold upd. case_decide; by subst. Qed.

Lemma scan_readiness_ok l G s : Flag G → inv s → holds None G (λ _, threaded) s → Forall (λ r, r < worker_count c)%nat l →
  match scan_readiness heap l s with
  | Val (None, s') => inv s' ∧ holds None G (λ _, threaded) s'
  | Val (Some e, s') => inv s' ∧ holds None G (λ _, anything) s' ∧ startup_code e ≠ StartupErrorCode.Cancelled
  | _ => False
  end.
Proof.
  intros HG. revert s. induction l as [| r l IH]; intros s Hv Hh Hl; cbn [scan_readiness]; [done |].
  apply list.Forall_cons in Hl as [Hlt Hl]. destruct (found s r Hv Hlt) as [rec Hr]. unfold get_record. rewrite Hr. cbn.
  case_bool_decide as Hst; [by apply IH |]. pose proof (proj2 (proj2 Hh) _ _ Hr) as [Hst' Ht]. rewrite shell_thread_some in Ht. cbn in Hst'.
  destruct (ready_now rec) as [x |] eqn:Ex.
  - destruct (ready_outcome x) eqn:Eo; [| by split; [| split; [eapply holds_any |]]].
    destruct (mark_safe None G (λ _, threaded) r s rec HG Hv Hh Hr) as (b & s1 & -> & Hv1 & Hh1 & Hr1 & _ & _). cbn.
    destruct b; [| by apply IH]. rewrite <- Hr1 in Hr. pose proof (inv_records _ _ _ _ Hv1 _ _ Hr) as Hok.
    destruct (own_record None G (λ _, threaded) threaded r rec (set_state Ready rec) s1 (update_record r (set_state Ready) s1))
      as [Hv2 Hh2]; try done; [changes | | by left | by intros [|] | split; [by right | by rewrite shell_thread_some] |].
    + apply ready_state_ok; [done.. |]. exists x. split; [by apply ready_now_eq | done].
    + apply IH; [done | | done]. by eapply upd_all.
  - destruct (completed_now rec) as [x |]; [| by apply IH]. pose proof (inv_records _ _ _ _ Hv _ _ Hr) as Hok.
    apply and_assoc. split; [| done]. apply (holds_upd r) in Hh.
    destruct (own_at None G (λ _, threaded) threaded anything r rec (set_last_result (Some x) (set_state Exited rec)) s
      (update_record r (λ rec, set_last_result (Some x) (set_state Exited rec)) s)) as [Hv2 Hh2]; try done;
      [changes | apply last_result_ok, ended_state_ok; auto | by left | by intros [|] |].
    split; [done |]. by eapply holds_any.
Qed.

Definition active (x : WorkerRecord) : Prop := state_ x = Ready ∨ state_ x = Running.
Definition requested (s : State) : Prop := activation_requested_ s = true.
#[export] Instance requested_flag : Flag requested.
Proof.
  split; [| intros s s' _ _ Hr H; by apply (rely_requested _ _ Hr)]. unfold requested. intros s s' [= _ _ -> _ _ _ _ _] _. done.
Qed.
Hint Extern 0 (Flag _) => lazymatch goal with |- Flag (λ s, ?P s) => change (Flag P) end : typeclass_instances.
#[export] Instance requested_stable : Stable requested.
Proof. apply flag_stable. Qed.

Lemma all_in_spec st o G Φ s : all_in st s = true → holds o G Φ s → holds o G (λ _ x, state_ x = st) s.
Proof.
  intros H (? & ? & _). split_and!; [done.. |]. intros r rec Hr. unfold all_in in H. rewrite forallb_forall in H.
  specialize (H rec). rewrite <- list_elem_of_In in H. apply list_elem_of_lookup_2 in Hr. by apply H, bool_decide_eq_true in Hr.
Qed.

Lemma all_records_lt s : inv s → Forall (λ r, r < worker_count c)%nat (all_records s).
Proof. intros Hv. apply list.Forall_forall. intros r Hr. unfold all_records in Hr. rewrite elem_of_seq, (inv_length _ _ _ _ Hv) in Hr. lia. Qed.

(** The wait of [await_worker_readiness] and [await_activation_command_and_workers]. *)
Lemma await_worker_readiness_spec G : Flag G → spec (holds None G (λ _, threaded)) (await_worker_readiness heap)
  (λ e s, match e with
          | None => holds None G (λ _ x, state_ x = Ready) s
          | Some e => holds None G (λ _, anything) s ∧ (startup_code e = StartupErrorCode.Cancelled → stopping s)
          end).
Proof.
  intros HG. unfold await_worker_readiness. triple (spec_loop _ _ _). triple (spec_locked _ _ _). intros s Hv Hh.
  destruct (abrupt_exit_requested_ s); [by apply Hh |]. destruct (stop_requested_locked s) eqn:Es.
  { split; [done |]. split; [by eapply holds_any | done]. }
  pose proof (scan_readiness_ok (all_records s) G s HG Hv Hh (all_records_lt s Hv)) as H.
  destruct (scan_readiness heap (all_records s) s) as [[[e |] s'] | |]; cbn; [| | done..].
  - destruct H as (? & ? & ?). by split_and!.
  - destruct H as (? & ?). destruct (all_in Ready s') eqn:E; [| done]. split; [done |]. by eapply all_in_spec.
Qed.

Lemma find_exited_ok l G s : Flag G → inv s → holds None G (λ _, active) s → Forall (λ r, r < worker_count c)%nat l →
  match find_exited l s with
  | Val (None, s') => s' = s
  | Val (Some e, s') => inv s' ∧ holds None G (λ _, anything) s' ∧ activation_code e ≠ ActivationErrorCode.Cancelled
  | _ => False
  end.
Proof.
  intros HG Hv Hh. induction l as [| r l IH]; intros Hl; cbn [find_exited]; [done |].
  apply list.Forall_cons in Hl as [Hlt Hl]. destruct (found s r Hv Hlt) as [rec Hr]. unfold get_record. rewrite Hr. cbn.
  destruct (completed_now rec) as [x |]; [| by apply IH]. pose proof (inv_records _ _ _ _ Hv _ _ Hr) as Hok.
  apply and_assoc. split; [| done]. apply (holds_upd r) in Hh.
  destruct (own_at None G (λ _, active) active anything r rec (set_last_result (Some x) (set_state Exited rec)) s
    (update_record r (λ rec, set_last_result (Some x) (set_state Exited rec)) s)) as [Hv2 Hh2]; try done;
    [changes | apply last_result_ok, ended_state_ok; auto | by left | by intros [|] |].
  split; [done |]. by eapply holds_any.
Qed.

Lemma note_activated_ok G s : Flag G → inv s → holds None G (λ _, active) s →
  let s' := update_all note_activated s in inv s' ∧ holds None G (λ _, active) s'.
Proof.
  intros HG [] (Hset & Hg & Hall) s'.
  assert (∀ r x, records_ s' !! r = Some x → ∃ rec, records_ s !! r = Some rec ∧
    (x = rec ∨ x = set_state Running rec ∧ is_Some (activated_ rec))) as Hj.
  { intros r x. unfold s', update_all. cbn. rewrite list_lookup_fmap. destruct (records_ s !! r) as [rec |] eqn:E; [| done].
    intros [= <-]. exists rec. split; [done |]. unfold note_activated. case_match; [right | by left].
    split; [done | by apply activated_now_eq]. }
  split; [| split_and!].
  - split; try done.
    + unfold s', update_all. cbn. by rewrite length_fmap.
    + intros r x (rec & Hr & [-> | [-> Ha]])%Hj; [by eapply inv_records |]. apply running_state_ok; [by eapply inv_records | | done].
      by apply (Hall _ _ Hr).
    + intros Hfp r x (rec & Hr & [-> | [-> Ha]])%Hj; [by apply inv_pub |]. destruct (inv_pub Hfp _ _ Hr). split; try done.
      intros e He. destruct (pub_registry _ He) as (? & ? & ?). done.
  - intros Hfp r x (rec & Hr & [-> | [-> Ha]])%Hj; exact (Hset Hfp r rec Hr).
  - by apply (flag_same s).
  - intros r x (rec & Hr & [-> | [-> Ha]])%Hj; [exact (Hall _ _ Hr) | by right].
Qed.

Lemma await_activation_spec G : Flag G → spec (holds None G (λ _ x, state_ x = Ready)) await_activation_command_and_workers
  (λ e s, match e with
          | None => holds None G (λ _ x, state_ x = Running) s ∧ requested s
          | Some e => holds None G (λ _, anything) s ∧ (activation_code e = ActivationErrorCode.Cancelled → stopping s)
          end).
Proof.
  intros HG. unfold await_activation_command_and_workers. apply (spec_pre _ (holds None G (λ _, active))).
  2:{ intros s _. apply holds_mono. intros r x H. by left. }
  triple (spec_loop _ _ _). triple (spec_locked _ _ _). intros s Hv Hh.
  destruct (abrupt_exit_requested_ s); [by apply Hh |]. destruct (stop_requested_locked s) eqn:Es.
  { split; [done |]. split; [by eapply holds_any | done]. }
  pose proof (find_exited_ok (all_records s) G s HG Hv Hh (all_records_lt s Hv)) as H.
  destruct (find_exited (all_records s) s) as [[[e |] s'] | |]; cbn; [| | done..].
  { destruct H as (? & ? & ?). by split_and!. }
  subst s'. destruct (activation_requested_ s) eqn:Eq; cbn [negb]; [| done].
  destruct (note_activated_ok G s HG Hv Hh) as [Hv' Hh'].
  change (forallb _ (note_activated <$> records_ s)) with (all_in Running (update_all note_activated s)).
  destruct (all_in Running (update_all note_activated s)) eqn:E; [| done].
  split; [done |]. split; [by eapply all_in_spec | exact Eq].
Qed.
End thread.

#[export] Hint Extern 0 (Stable _ _ _ _) =>
  lazymatch goal with |- Stable ?h ?c ?p (λ s, ?P s) => change (Stable h c p P) end : typeclass_instances.
#[export] Hint Extern 1 (Stable _ _ _ _) =>
  match goal with |- Stable _ _ _ (λ s, match ?x with _ => _ end) => destruct x end : typeclass_instances.
#[export] Hint Extern 0 (Flag _ _ _ _) =>
  lazymatch goal with |- Flag ?h ?c ?p (λ s, ?P s) => change (Flag h c p P) end : typeclass_instances.
