(* ===== verification/SupervisorMonitor.v ===== *)
(** * Joining workers, their failures, and the loop of [monitor_active_workers]

    The triples of what thread C does after the start-up, down to [run] and
    [emergency_join_all]. *)
From stdpp Require Import relations functions.
From S2P Require Import Prelude DomainBlocklist FilterPublication Concurrency WorkerSupervisor SupervisorInvariant SupervisorThread.
Import Supervisor.

Section monitor.
Context {F : Type}.
Variables (heap : nat → FilterContext F) (c : Config) (p0 : Publication.World).
Abbreviation inv := (inv heap c p0).
Abbreviation Stable := (Stable heap c p0).
Abbreviation Flag := (Flag heap c p0).
Abbreviation holds := (holds c).
Abbreviation spec := (spec heap c p0).
Abbreviation settled := (settled c).

(** ** Stopping and joining *)
Definition failed (s : State) : Prop := join_failed s = true.

Lemma stop_flag_ok q d rec : rec_ok c q d rec → rec_ok c q d (set_instance_stop true rec).
Proof.
  intros []. split; try done. intros t Ht. apply (pc_ok_later rec); [done | by split | done |]. by apply ok_pc.
Qed.

Lemma stop_worker r o G Φ s : Flag G → inv s → holds o G Φ s → (r < worker_count c)%nat →
  let s' := update_record r (set_instance_stop true) s in inv s' ∧ holds o G Φ s'.
Proof.
  intros HG Hv Hh Hlt s'. destruct (found heap c p0 s r Hv Hlt) as [rec Hr]. pose proof (inv_records _ _ _ _ Hv _ _ Hr) as Hok.
  destruct (own_record heap c p0 o G Φ (Φ r) r rec (set_instance_stop true rec) s s') as [Hv' Hh']; try done;
    [changes | by apply stop_flag_ok | by left | | exact (proj2 (proj2 Hh) _ _ Hr) | split; [done |]; by eapply upd_all].
  intros Hst Hfp. cbn in Hst. destruct (Publication.registry_at _ _) as [e |] eqn:E; [| done].
  destruct (pub_registry _ _ _ (inv_pub _ _ _ _ Hv Hfp _ _ Hr) _ E) as (_ & _ & ? & ?). by destruct Hst.
Qed.

Lemma request_all_worker_stops_spec o G Φ : Flag G → spec (holds o G Φ) request_all_worker_stops (λ _, holds o G Φ).
Proof.
  intros HG. unfold request_all_worker_stops.
  eapply (spec_bind heap c p0 _ _ _ (λ x s, match x with Some _ => False | None => holds o G Φ s end)).
  - apply (spec_for_records heap c p0 (λ _, holds o G Φ) _ (λ _ _, False)); [apply _ .. |]. intros r Hr.
    triple (spec_locked heap c p0 _ _ _). intros s Hv Hh. by apply stop_worker.
  - intros [x |]; triple (spec_ret heap c p0 _ _ _); auto. done.
Qed.

Definition may_join (x : WorkerRecord) : Prop := is_Some (current_thread_ x) → state_ x = Exited ∨ state_ x = Stopping.
Definition unthreaded (x : WorkerRecord) : Prop := current_thread_ x = None.
Definition joined (x : WorkerRecord) : Prop := current_thread_ x = None ∧ state_ x = Joined.
Definition reset (x : WorkerRecord) : Prop := idle x ∧ state_ x = Joined.
Definition offline (x : WorkerRecord) : Prop := idle x ∧ state_ x = Offline.

Lemma unthread_ok q d rec : rec_ok c q d rec → state_ rec = Exited ∨ state_ rec = Stopping → rec_ok c q d (set_current_thread None rec).
Proof. intros [] Hst. split; try done; cbn; destruct Hst as [Hst | Hst]; intros; intuition congruence. Qed.

Lemma joined_ok q d rec : rec_ok c q d rec → current_thread_ rec = None → rec_ok c q d (set_state Joined rec).
Proof. intros [] Ht. split; try done; cbn; try (by intros [|]); try (intros t E; by rewrite Ht in E). by intros _ [|]. Qed.

Lemma reset_ok q d rec : rec_ok c q d rec → current_thread_ rec = None → state_ rec = Joined → rec_ok c q d (set_current_instance None rec).
Proof.
  intros [] Ht Hst. split; try done; cbn; try (intros t E; by rewrite Ht in E); try (by intros [? ?]); by rewrite Hst.
Qed.

Lemma offline_ok q d rec : rec_ok c q d rec → current_instance_ rec = None → current_thread_ rec = None →
  rec_ok c q d (set_state Offline (set_activation_allowed false (set_data_plane_allowed false rec))).
Proof.
  intros [] Hi Ht. split; try done; cbn; try (intros t E; by rewrite Ht in E); try (by intros [|]); rewrite ?Hi; try (by intros [? ?]).
  by intros _ [|].
Qed.

Lemma idle_shell rec : idle (shell rec) ↔ current_instance_ rec = None ∧ current_thread_ rec = None.
Proof. unfold idle. rewrite shell_thread_none. done. Qed.

(** The worker has left the registry. *)
Definition quiesced (r : nat) (s : State) : Prop := ∃ rec, records_ s !! r = Some rec ∧ current_thread_ rec = None ∧
  (filter_publication c = true → Publication.registry_at (Publication.publication (pub s)) r = None).

#[local] Instance quiesced_stable r : Stable (quiesced r).
Proof.
  intros s s' _ _ Hr (rec & Hrec & Ht & H). destruct (rely_records _ _ Hr _ _ Hrec) as (rec' & Hrec' & Hs & _).
  exists rec'. split; [done |]. split; [by eapply shell_no_thread |]. by rewrite (same_registry _ _ _ (rely_idle _ _ Hr _ _ Hrec Ht)).
Qed.

Lemma quiesce_spec r G Φ : Flag G → (r < worker_count c)%nat → spec (holds None G (upd r reset Φ))
  (locked (λ s, s ← quiesce_worker heap r s; Val ((), s))) (λ _ s, holds None G (upd r reset Φ) s ∧ quiesced r s).
Proof.
  intros HG Hlt. triple (spec_locked heap c p0 _ _ _). intros s Hv Hh. destruct (found heap c p0 s r Hv Hlt) as [rec Hr].
  pose proof (upd_here r _ _ _ _ (proj2 (proj2 Hh)) Hr) as [Hi Hst]. rewrite idle_shell in Hi. destruct Hi as [Hi Ht].
  unfold quiesce_worker, get_record. rewrite Hr. cbn. rewrite (inv_config _ _ _ _ Hv).
  destruct (filter_publication c) eqn:Hfp.
  - pose proof (proj1 Hh Hfp r rec Hr ltac:(done) Hi) as Hloc. unfold publication_step.
    set (a := Publication.Quiesce r (instance_id_ rec)).
    assert (∃ w, Publication.act heap a (pub s) = Some w ∧ (∀ j, j ≠ r → same_at j (pub s) w) ∧
      Publication.locals w = Publication.locals (pub s) ∧
      Publication.published_instance_id (Publication.epochs w r) = Publication.published_instance_id (Publication.epochs (pub s) r) ∧
      Publication.registry_at (Publication.publication w) r = None) as (w & Ew & Hsame & Hl & Hp & Hreg).
    { cbn. rewrite decide_True by done. eexists. split; [reflexivity |]. unfold Publication.quiesce_locked.
      destruct (inv_pub _ _ _ _ Hv Hfp _ _ Hr). destruct (_ && _) eqn:E; bool_hyps.
      - split_and!; [| done | by cbn; rewrite fn_lookup_insert |].
        + intros j Hj. split; cbn; [done | by rewrite fn_lookup_insert_ne |]. unfold Publication.registry_at. cbn. by rewrite list_lookup_insert_ne.
        + unfold Publication.registry_at. cbn. by rewrite list_lookup_insert_eq.
      - split_and!; try done. cbn. destruct (Publication.registry_at _ r) as [e |] eqn:E2; [| done].
        destruct (pub_registry _ eq_refl) as (-> & Hpid & _). rewrite Hpid, Z.eqb_refl, bool_decide_eq_true_2, !andb_true_r in E by done.
        apply Nat.ltb_ge in E. unfold Publication.registry_at in E2. by rewrite lookup_ge_None_2 in E2. }
    rewrite Ew. cbn. apply and_assoc. split; [| by exists rec]. eapply own_pub; try done.
    intros _. destruct (inv_pub _ _ _ _ Hv Hfp _ _ Hr). split; [split; rewrite ?Hl, ?Hp, ?Hreg; done | | by rewrite Hl].
    eapply Publication.reachable_step; [by apply (inv_reachable _ _ _ _ Hv) | exact Ew].
  - cbn. apply and_assoc. split; [| exists rec; split_and!; [done.. | congruence]].
    eapply own_pub; try done; [intros j; apply set_epoch_same | congruence].
Qed.

(** The snapshot of the instance goes before the instance does. *)
Lemma reset_spec r G Φ : Flag G → (r < worker_count c)%nat → spec (holds None G (upd r joined Φ))
  (locked (λ s,
     rec ← get_record r s;
     s ← (if current_instance_ rec then release_snapshot heap r s else Val s);
     Val ((), update_record r (set_current_instance None) s))) (λ _, holds None G (upd r reset Φ)).
Proof.
  intros HG Hlt. triple (spec_locked heap c p0 _ _ _). intros s Hv Hh. destruct (found heap c p0 s r Hv Hlt) as [rec Hr].
  pose proof (upd_here r _ _ _ _ (proj2 (proj2 Hh)) Hr) as [Ht Hst]. rewrite shell_thread_none in Ht. cbn in Hst.
  pose proof (inv_records _ _ _ _ Hv _ _ Hr) as Hok. pose proof (reset_ok _ _ _ Hok Ht Hst) as Hok'.
  unfold get_record. rewrite Hr. cbn. destruct (current_instance_ rec) as [x |] eqn:Hi.
  - destruct (release_eq heap c p0 r s rec Hv Hr) as (p & E & Hsame & Hp). rewrite E. cbn.
    eapply (own_again heap c p0 None None G Φ joined reset r rec (set_current_instance None rec));
      [done | done | exact Hh | exact Hr | changes | exact Hok' | exact Hsame | | done | by split; [rewrite idle_shell |]].
    intros Hfp. destruct (Hp Hfp) as (Hl & Hpid & Hreg & Hre). destruct (inv_pub _ _ _ _ Hv Hfp _ _ Hr).
    split; [split; cbn; rewrite ?Hpid, ?Hreg; try done | done |].
    + intros i [y Hy]. destruct (Hl i) as [Hn | [_ Hn]]; [congruence |]. apply pub_local. rewrite <- Hn. by eexists.
    + intros _ _. destruct (Hl (instance_id_ rec)) as [Hn | [? _]]; done.
  - cbn. eapply (own_at heap c p0 None G Φ joined reset r rec (set_current_instance None rec));
      [done | done | exact Hh | exact Hr | changes | done | exact Hok' | done | by left | cbn; rewrite Hst; by intros [|] |
       by split; [rewrite idle_shell |]].
Qed.

Lemma join_failure_safe o G Φ s : Flag G → inv s → holds o G Φ s → inv (join_failure s) ∧ holds o G Φ (join_failure s) ∧ failed (join_failure s).
Proof. intros HG Hv Hh. apply and_assoc. split; [| done]. apply (own_flags heap c p0 o G Φ s); try done. apply Hv. Qed.

#[local] Instance failed_flag : Flag failed.
Proof. split; [auto |]. intros s s' _ _ Hr H. unfold failed. by rewrite (rely_join _ _ Hr). Qed.
#[local] Instance failed_stable : Stable failed.
Proof. by destruct failed_flag. Qed.

Lemma join_thread_spec r G Φ : Flag G → (r < worker_count c)%nat → spec (holds None G (upd r may_join Φ)) (wait_for (join_thread r))
  (λ b s, match b with
          | true => holds None G (upd r unthreaded Φ) s
          | false => holds None G (upd r anything Φ) s ∧ failed s
          end).
Proof.
  intros HG Hlt. triple (spec_wait_for heap c p0 _ _ _). intros e s a s' Hv Hh Hj.
  destruct (found heap c p0 s r Hv Hlt) as [rec Hr]. pose proof (upd_here r _ _ _ _ (proj2 (proj2 Hh)) Hr) as Hm.
  unfold may_join in Hm. rewrite shell_thread_some in Hm. unfold join_thread in Hj. rewrite Hr in Hj. cbn in Hj.
  destruct (current_thread_ rec) as [t |] eqn:Ht.
  - destruct (join_throws e).
    + injection Hj as <- <-. apply join_failure_safe; [done.. |]. by eapply holds_at.
    + destruct (pc t); try done. injection Hj as <- <-. pose proof (inv_records _ _ _ _ Hv _ _ Hr) as Hok.
      specialize (Hm ltac:(by eexists)). cbn in Hm. eapply own_at; [done | done | exact Hh | exact Hr | changes | done |
        by apply unthread_ok | done | by left | cbn; intros [H | H]; destruct Hm; congruence | done].
  - injection Hj as <- <-. split; [done |]. apply (holds_upd c r) in Hh. unfold upd at 1 in Hh.
    destruct Hh as (? & ? & Hall). split_and!; [done.. |]. intros j x Hx. specialize (Hall j x Hx). unfold upd in *.
    case_decide; [| done]. subst j. unfold unthreaded. rewrite shell_thread_none. rewrite Hr in Hx. by injection Hx as <-.
Qed.

Lemma join_and_reset_spec r G Φ : Flag G → (r < worker_count c)%nat → spec (holds None G (upd r anything Φ)) (join_and_reset heap r)
  (λ b s, match b with
          | true => holds None G (upd r offline Φ) s
          | false => holds None G (upd r anything Φ) s ∧ failed s
          end).
Proof.
  intros HG Hlt. unfold join_and_reset.
  eapply (spec_bind heap c p0 _ _ _ (λ _, holds None G (upd r anything Φ))).
  { triple (spec_locked heap c p0 _ _ _). intros s Hv Hh. by apply stop_worker. }
  intros _. eapply (spec_bind heap c p0 _ _ _ (λ b s, match b with
    | true => holds None G (upd r anything Φ) s ∧ failed s | false => holds None G (upd r may_join Φ) s end)).
  { triple (spec_locked heap c p0 _ _ _). intros s Hv Hh. destruct (found heap c p0 s r Hv Hlt) as [rec Hr].
    unfold get_record. rewrite Hr. cbn. case_bool_decide.
    { pose proof (own_flags heap c p0 None G (upd r anything Φ) s (join_failure (set_join_failure_worker_once None s)) HG Hv Hh) as [? ?]; try done.
      apply Hv. }
    pose proof (inv_records _ _ _ _ Hv _ _ Hr) as Hok. unfold joinable. case_bool_decide as Ht; cbn [andb].
    - case_bool_decide as Hst; cbn [negb].
      + split; [done |]. destruct Hh as (? & ? & Hall). split_and!; [done.. |]. intros j x Hx. specialize (Hall j x Hx).
        unfold upd in *. case_decide; [| done]. subst j. rewrite Hr in Hx. injection Hx as <-. intros _. by left.
      + eapply own_at; [done | done | exact Hh | exact Hr | changes | done | apply ended_state_ok; auto | done | by left | by intros [|] | intros _; by right].
    - split; [done |]. destruct Hh as (? & ? & Hall). split_and!; [done.. |]. intros j x Hx. specialize (Hall j x Hx).
      unfold upd in *. case_decide; [| done]. subst j. rewrite Hr in Hx. injection Hx as <-. unfold may_join. by rewrite shell_thread_some. }
  intros [|]; [triple (spec_ret heap c p0 _ _ _); auto |].
  eapply spec_bind; [by apply join_thread_spec |]. intros [|]; cbn [negb]; [| triple (spec_ret heap c p0 _ _ _); auto].
  eapply (spec_bind heap c p0 _ _ _ (λ _, holds None G (upd r joined Φ))).
  { triple (spec_locked heap c p0 _ _ _). intros s Hv Hh. destruct (found heap c p0 s r Hv Hlt) as [rec Hr].
    pose proof (upd_here r _ _ _ _ (proj2 (proj2 Hh)) Hr) as Ht. unfold unthreaded in Ht. rewrite shell_thread_none in Ht.
    pose proof (inv_records _ _ _ _ Hv _ _ Hr) as Hok.
    set (noted := λ rec, match completed_now rec with Some result => set_last_result (Some result) rec | None => rec end).
    assert (rec_ok c (activation_requested_ s) (data_plane_released_ s) (noted rec) ∧ current_thread_ (noted rec) = None ∧
      instance_id_ (noted rec) = instance_id_ rec ∧ current_instance_ (noted rec) = current_instance_ rec) as (N1 & N2 & N3 & N4).
    { unfold noted. destruct (completed_now rec); split_and!; try done. by apply last_result_ok. }
    eapply (own_at heap c p0 None G Φ unthreaded joined r rec (set_state Joined (noted rec)));
      [done | done | exact Hh | exact Hr | changes | done | by apply joined_ok | done | by left | by intros [|] | by split; [rewrite shell_thread_none |]]. }
  intros _. eapply spec_bind; [by apply reset_spec |]. intros []. eapply spec_bind; [by apply quiesce_spec |]. intros [].
  triple (spec_locked heap c p0 _ _ _). intros s Hv [Hh (rec & Hr & _ & Hq)].
  pose proof (upd_here r _ _ _ _ (proj2 (proj2 Hh)) Hr) as [Hi Hst]. rewrite idle_shell in Hi. destruct Hi as [Hi Ht].
  pose proof (inv_records _ _ _ _ Hv _ _ Hr) as Hok. eapply own_at; [done | done | exact Hh | exact Hr | changes | done |
    by apply offline_ok | done | by left | done | by split; [rewrite idle_shell |]].
Qed.

(** The loop of [join_and_reset_all], with its result. *)
Lemma join_and_reset_all_spec G : Flag G → spec (holds None G (λ _, anything)) (join_and_reset_all heap)
  (λ b s, match b with
          | true => holds None G (λ _, offline) s
          | false => holds None G (λ _, anything) s ∧ failed s
          end).
Proof.
  intros HG. unfold join_and_reset_all. eapply (spec_bind heap c p0 _ _ _ (λ l s, l = seq 0 (worker_count c) ∧
    (match true with true => holds None G (split_at 0 offline anything) s | false => holds None G (λ _, anything) s ∧ failed s end))).
  { triple (spec_look heap c p0 _ all_records _). intros s Hv Hs. split; [| by apply split_none].
    unfold all_records. by rewrite (inv_length _ _ _ _ Hv). }
  set (go := fix go (l : list nat) (success : bool) : M bool := _).
  assert (∀ n k b, (k + n = worker_count c)%nat → spec
    (λ s, match b with true => holds None G (split_at k offline anything) s | false => holds None G (λ _, anything) s ∧ failed s end)
    (go (seq k n) b) (λ b s, match b with true => holds None G (λ _, offline) s | false => holds None G (λ _, anything) s ∧ failed s end)) as Hgo.
  { intros n. induction n as [| n IH]; intros k b Hk; cbn [seq go].
    - triple (spec_ret heap c p0 _ _ _). intros s Hv H. destruct b; [| done]. rewrite Nat.add_0_r in Hk. subst k. by eapply split_all.
    - destruct b.
      + eapply spec_bind.
        * eapply spec_pre; [apply (join_and_reset_spec k G (split_at k offline anything)); [done | lia] |].
          intros s _. apply holds_mono. intros j x. apply split_upd.
        * intros b. rewrite andb_true_r. eapply spec_pre; [apply (IH (S k) b); lia |]. intros s Hv. destruct b.
          -- apply holds_mono. intros j x. apply split_next.
          -- intros [H ?]. split; [by eapply holds_any | done].
      + eapply (spec_bind heap c p0 _ _ _ (λ b s, holds None G (λ _, anything) s ∧ failed s)).
        * eapply spec_conseq; [apply (join_and_reset_spec k (λ s, G s ∧ failed s) (λ _, anything)); [apply _ | lia] | |].
          -- intros s _ [(? & ? & ?) ?]. split_and!; [done.. |]. by intros j x _; unfold upd; case_decide.
          -- intros [|] s _; [intros (? & [? ?] & ?) | intros [(? & [? ?] & ?) _]]; by split; [split_and! |].
        * intros b. rewrite andb_false_r. apply (IH (S k) false). lia. }
  intros l s Hv [-> H]. exact (Hgo (worker_count c) 0%nat true eq_refl s Hv H).
Qed.

(** ** Failures *)
Context (Hmax : 0 ≤ max_attempts (recovery c)).

Lemma spec_exists {A I} (P : I → State → Prop) (m : M A) Q : (∀ i, spec (P i) m Q) → spec (λ s, ∃ i, P i s) m Q.
Proof. intros H s Hv [i Hi]. by apply (H i). Qed.

Definition released_if (d : bool) (s : State) : Prop := d = true → data_plane_released_ s = true.
#[local] Instance released_if_flag d : Flag (released_if d).
Proof.
  split; [| intros s s' _ _ Hr H Hd; by apply (rely_released _ _ Hr), H]. unfold released_if. intros s s' [= _ _ _ -> _ _ _ _] _. done.
Qed.

(** Between two turns of the monitor: a worker in back-off has attempts left; workers are
    replaced only once the data plane is released ([d]). *)
Definition replacing (st : WorkerRecordState) : Prop := st = Creating ∨ st = Starting ∨ st = Ready ∨ st = Backoff.
Definition mon (d : bool) (x : WorkerRecord) : Prop :=
  (state_ x = Backoff → recovery_attempts_ x < max_attempts (recovery c)) ∧ (replacing (state_ x) → d = true).
Definition monitored_flags (G : State → Prop) (d : bool) (s : State) : Prop := (G s ∧ requested s) ∧ released_if d s.
Definition mon_at (r : nat) (φ : WorkerRecord → Prop) (G : State → Prop) (d : bool) : State → Prop :=
  holds None (monitored_flags G d) (upd r φ (λ _, mon d)).
Definition mon_all (G : State → Prop) (s : State) : Prop := ∃ d, holds None (monitored_flags G d) (λ _, mon d) s.

#[local] Instance monitored_flags_flag G d : Flag G → Flag (monitored_flags G d).
Proof. intros HG. unfold monitored_flags. apply _. Qed.
#[local] Instance mon_at_stable r φ G d : Flag G → Stable (mon_at r φ G d).
Proof. intros HG. unfold mon_at. apply _. Qed.
#[local] Instance mon_all_stable G : Flag G → Stable (mon_all G).
Proof. intros HG. unfold mon_all. apply _. Qed.

(** What the results of the monitor mean. *)
Definition result_ok (result : SupervisorRunResult) (s : State) : Prop :=
  ((outcome_ result = RunOutcome.RequestedStop → stopping s) ∧ (error_code result = RunErrorCode.WorkerJoinFailed → failed s)) ∧
  outcome_ result ≠ RunOutcome.StartupFailure.
#[local] Instance result_ok_stable result : Stable (result_ok result).
Proof. unfold result_ok. apply _. Qed.

Definition finished (G : State → Prop) (result : SupervisorRunResult) (s : State) : Prop :=
  holds None G (λ _, anything) s ∧ result_ok result s.
#[local] Instance finished_stable G result : Flag G → Stable (finished G result).
Proof. intros HG. unfold finished. apply _. Qed.

Lemma holds_flag o (G K : State → Prop) Φ s : (G s → K s) → holds o G Φ s → holds o K Φ s.
Proof. intros H (? & ? & ?). split_and!; auto. Qed.

Lemma mon_finished r φ G d result s : mon_at r φ G d s → result_ok result s → finished G result s.
Proof. intros (? & [[? _] _] & ?) Hres. split; [| done]. by split_and!. Qed.

Lemma stop_finished r φ G d s : mon_at r φ G d s → stopping s → finished G requested_stop_result s.
Proof. intros Hm Hs. by eapply mon_finished; [| split; [split |]]. Qed.

Lemma mon_all_intro G d s : holds None (monitored_flags G d) (λ _, mon d) s → mon_all G s.
Proof. by exists d. Qed.

Lemma mon_here r φ G d s : (∀ x, φ x → mon d x) → mon_at r φ G d s → mon_all G s.
Proof. intros H Hm. exists d. eapply upd_all; [exact Hm |]. apply H. Qed.

Lemma fail_worker_service_spec f o G Φ : Flag G → spec (holds o G Φ) (fail_worker_service f)
  (λ result s, holds o G Φ s ∧ outcome_ result = RunOutcome.FatalExit ∧
     (error_code result = RunErrorCode.WorkerJoinFailed → failure_code f = WorkerFailureCode.JoinFailed)).
Proof.
  intros HG. unfold fail_worker_service. eapply (spec_bind heap c p0 _ _ _ (λ _, holds o G Φ)).
  { triple (spec_locked heap c p0 _ _ _). intros s Hv Hh. apply (own_flags heap c p0 o G Φ s); try done. apply Hv. }
  intros reporting. eapply spec_bind; [by apply publish_health_spec |]. intros [].
  eapply (spec_bind heap c p0 _ _ _ (λ _, holds o G Φ)).
  { triple (spec_locked heap c p0 _ _ _). intros s Hv Hh. case_match; [| done]. apply (own_flags heap c p0 o G Φ s); try done. apply Hv. }
  intros []. triple (spec_ret heap c p0 _ _ _). intros s Hv Hh. split_and!; [done.. |]. cbn. by repeat case_decide.
Qed.

Lemma valid_delay : is_valid_recovery_config (recovery c) = true → policy (recovery c) = Restart →
  0 ≤ initial_backoff (recovery c) ≤ max_backoff (recovery c).
Proof. unfold is_valid_recovery_config. intros H Hp.
  rewrite Hp, bool_decide_eq_false_2, bool_decide_eq_true_2 in H by done. cbn [orb andb] in H. bool_hyps. lia.
Qed.

Lemma clear_episode_ok q d rec : rec_ok c q d rec → state_ rec ≠ Backoff → rec_ok c q d (set_recovery_attempts 0 (set_recovery_episode false rec)).
Proof. intros [] Hst. split; try done. Qed.

Lemma begin_episode_ok q d rec : rec_ok c q d rec → recovery_episode_ rec = false →
  rec_ok c q d (set_next_backoff (initial_backoff (recovery c)) (set_recovery_episode d rec)).
Proof. intros [] He. split; try done; cbn; [intros H; by destruct (ok_backoff H); congruence |]. intros; by apply valid_delay. Qed.

Lemma note_failure_spec r f G d : Flag G → (r < worker_count c)%nat → spec (mon_at r anything G d) (locked (note_failure r f))
  (λ stop s, match stop with true => mon_at r anything G d s ∧ stopping s | false => mon_at r anything G d s end).
Proof.
  intros HG Hlt. triple (spec_locked heap c p0 _ _ _). intros s Hv Hh. destruct (found heap c p0 s r Hv Hlt) as [rec Hr].
  unfold note_failure, get_record. rewrite Hr. cbn. destruct (stop_requested_locked s) eqn:Es; [done |].
  pose proof (inv_records _ _ _ _ Hv _ _ Hr) as Hok.
  assert (∃ h, (if 1 <? instance_id_ rec then set_health (count_health 0 0 1 (health_ s)) s else s) = set_health h s) as [h ->].
  { case_match; [by eexists | exists (health_ s); by destruct s]. }
  cbn. rewrite (inv_config _ _ _ _ Hv).
  set (rec1 := if _ && _ && _ then set_recovery_attempts 0 (set_recovery_episode false rec) else rec).
  assert (rec_ok c (activation_requested_ s) (data_plane_released_ s) rec1 ∧ instance_id_ rec1 = instance_id_ rec ∧
    current_instance_ rec1 = current_instance_ rec) as (H1 & I1 & C1).
  { unfold rec1. destruct (_ && _) eqn:E; [| done]. split_and!; try done. apply clear_episode_ok; [done |].
    intros Hst. rewrite Hst in E. by rewrite bool_decide_eq_false_2 in E by done. }
  set (rec2 := if negb (recovery_episode_ rec1) then _ else rec1).
  assert (rec_ok c (activation_requested_ s) (data_plane_released_ s) rec2 ∧ instance_id_ rec2 = instance_id_ rec ∧
    current_instance_ rec2 = current_instance_ rec) as (H2 & I2 & C2).
  { unfold rec2. destruct (recovery_episode_ rec1) eqn:E; cbn [negb]; [done |]. split_and!; try done.
    by apply begin_episode_ok. }
  assert (∀ st, st = Exited ∨ st = Stopping → rec_ok c (activation_requested_ s) (data_plane_released_ s) (set_state st rec2)) as H3
    by (intros; by apply ended_state_ok).
  eapply own_at; [apply _ | done | exact Hh | exact Hr | changes | done | apply H3; case_match; auto | done |
    by left | cbn; case_match; by intros [|] | done].
Qed.

Lemma doubled_range cur maximum : 0 ≤ cur ≤ maximum → cur ≤ doubled_backoff cur maximum ≤ maximum.
Proof. intros H. unfold doubled_backoff. destruct (_ <=? _) eqn:E; bool_hyps; lia. Qed.

Definition after_ok (r : nat) (G : State → Prop) (after : AfterFailure) (s : State) : Prop :=
  match after with
  | StopNow => finished G requested_stop_result s
  | RestartLater => mon_all G s
  | GiveUp _ => holds None G (λ _, anything) s
  end.
#[local] Instance after_ok_stable r G after : Flag G → Stable (after_ok r G after).
Proof. intros HG. destruct after; apply _. Qed.

Lemma backoff_ok q d rec at_ : rec_ok c q d rec → idle (shell rec) → recovery_episode_ rec = true → policy (recovery c) = Restart →
  rec_ok c q d (set_next_backoff (doubled_backoff (next_backoff_ rec) (max_backoff (recovery c))) (set_restart_at at_ (set_state Backoff rec))).
Proof.
  rewrite idle_shell. intros [] [Hi Ht] He Hp. split; try done; cbn; try (intros t E; by rewrite Ht in E); rewrite ?Hi; try (by intros [? ?]); try (by intros [|]).
  - by intros _ [|].
  - intros Hvalid _. specialize (ok_delay Hvalid Hp). pose proof (doubled_range _ _ ok_delay). lia.
Qed.

Lemma decide_restart_spec r f G d : Flag G → (r < worker_count c)%nat →
  spec (mon_at r offline G d) (atomically (decide_restart r f)) (after_ok r G).
Proof.
  intros HG Hlt. triple (spec_atomically heap c p0 _ _ _). intros e s Hv Hh. destruct (found heap c p0 s r Hv Hlt) as [rec Hr].
  pose proof (upd_here r _ _ _ _ (proj2 (proj2 Hh)) Hr) as [Hidle Hst]. cbn in Hst. pose proof (inv_records _ _ _ _ Hv _ _ Hr) as Hok.
  unfold decide_restart, get_record. rewrite Hr. cbn.
  assert (filter_publication c = true → Publication.registry_at (Publication.publication (pub s)) r = None) as Hreg.
  { intros Hfp. destruct (Publication.registry_at _ _) as [x |] eqn:E; [| done].
    destruct (pub_registry _ _ _ (inv_pub _ _ _ _ Hv Hfp _ _ Hr) _ E) as (_ & _ & ? & ?). done. }
  set (s1 := if _ || _ || _ then _ else s).
  assert (∃ rec1, records_ s1 !! r = Some rec1 ∧ (rec1 = rec ∨ ∃ x, rec1 = set_last_result x rec) ∧ inv s1 ∧ mon_at r offline G d s1 ∧
    config_ s1 = config_ s ∧ pub s1 = pub s ∧ stop_requested_locked s1 = stop_requested_locked s ∧ data_plane_released_ s1 = data_plane_released_ s ∧
    activation_requested_ s1 = activation_requested_ s) as (rec1 & Hr1 & Hrec1 & Hv1 & Hh1 & E1 & E2 & E3 & E4 & E5).
  { unfold s1. destruct (_ || _ || _).
    - eexists. split; [rewrite update_lookup, decide_True, Hr by done; reflexivity |]. split; [right; by eexists |].
      apply and_assoc. split; [| done]. eapply own_at; [apply _ | done | exact Hh | exact Hr | changes | done | by apply last_result_ok | done |
        by left | done | done].
    - exists rec. split_and!; auto. }
  assert (rec_ok c (activation_requested_ s1) (data_plane_released_ s1) rec1) as Hok1 by exact (inv_records _ _ _ _ Hv1 _ _ Hr1).
  assert (idle (shell rec1) ∧ state_ rec1 = Offline ∧ recovery_episode_ rec1 = recovery_episode_ rec ∧ next_backoff_ rec1 = next_backoff_ rec ∧
    recovery_attempts_ rec1 = recovery_attempts_ rec ∧ instance_id_ rec1 = instance_id_ rec) as (Q1 & Q2 & Q3 & Q4 & Q5 & Q6)
    by (destruct Hrec1 as [-> | [? ->]]; done).
  clearbody s1. rewrite E1, (inv_config _ _ _ _ Hv). destruct (stop_requested_locked s1) eqn:Es.
  { split; [done |]. by eapply stop_finished. }
  destruct (_ && _ && _) eqn:Ec; [| split; [done |]; destruct Hh1 as (? & [[? _] _] & ?); by split_and!].
  apply andb_true_iff in Ec as [[[Hd He]%andb_true_iff Hp]%andb_true_iff _]. apply bool_decide_eq_true in Hp.
  destruct (recovery_attempts_ rec <? _) eqn:Ea; [| split; [done |]; destruct Hh1 as (? & [[? _] _] & ?); by split_and!].
  bool_hyps. assert (recovery_episode_ rec1 = true) as He1 by congruence.
  destruct (own_at heap c p0 None (monitored_flags G true) (λ _, mon true) offline (mon true) r rec1
    (set_next_backoff (doubled_backoff (next_backoff_ rec1) (max_backoff (recovery c)))
       (set_restart_at (deadline_after (now_ e) (next_backoff_ rec1)) (set_state Backoff rec1))) s1
    (update_record r (λ rec0, set_next_backoff (doubled_backoff (next_backoff_ rec0) (max_backoff (recovery c)))
       (set_restart_at (deadline_after (now_ e) (next_backoff_ rec0)) (set_state Backoff rec0))) s1)) as [Hv2 Hh2];
    [apply _ | done | | exact Hr1 | changes | done | by apply backoff_ok | done | by left | | | ].
  - destruct Hh1 as (? & [? _] & Hall). split_and!; [done | by split; [| intros _; congruence] |]. revert Hall. apply all_recs_mono.
    intros j x. unfold upd. case_decide; [done |]. by intros [? ?].
  - intros _ Hfp. rewrite E2. auto.
  - split; [intros _; cbn; lia | done].
  - split; [done |]. exists true. eapply upd_all; [exact Hh2 | done].
Qed.

#[local] Instance impl_flag φ K : Flag K → Flag (λ s, φ → K s).
Proof. intros []. split; [intros s s' E Hj H Hφ; eauto | by apply impl_stable]. Qed.

Lemma fail_finished f G Φ : Flag G → spec (λ s, holds None G Φ s ∧ (failure_code f = WorkerFailureCode.JoinFailed → failed s))
  (result ← fail_worker_service f; mret (Some result)) (λ x s, match x with Some result => finished G result s | None => False end).
Proof.
  intros HG. eapply (spec_bind heap c p0 _ _ _ (finished G)).
  - eapply spec_conseq; [apply (fail_worker_service_spec f None (λ s, G s ∧ (failure_code f = WorkerFailureCode.JoinFailed → failed s)) Φ), _ | |].
    + intros s _ [(? & ? & ?) ?]. by split_and!.
    + intros result s _ ((Hs & [Hg Hf] & Ha) & Ho & He). split; [by split_and! |]. split; [split; [by rewrite Ho | auto] | by rewrite Ho].
  - intros result. by triple (spec_ret heap c p0 _ _ _).
Qed.

Lemma handle_worker_failure_spec r f G d : Flag G → (r < worker_count c)%nat → failure_code f ≠ WorkerFailureCode.JoinFailed →
  spec (mon_at r anything G d) (handle_worker_failure heap r f)
    (λ x s, match x with Some result => finished G result s | None => mon_all G s end).
Proof.
  intros HG Hlt Hf. unfold handle_worker_failure. eapply spec_bind; [by apply note_failure_spec |]. intros [|].
  { triple (spec_ret heap c p0 _ _ _). intros s _ [Hh Hs]. by eapply stop_finished. }
  eapply spec_bind; [apply publish_health_spec, _ |]. intros []. eapply spec_bind; [apply join_and_reset_spec; [apply _ | done] |].
  intros [|]; cbn [negb].
  - eapply spec_bind; [by apply decide_restart_spec |]. intros [| | budget]; cbn [after_ok].
    + by triple (spec_ret heap c p0 _ _ _).
    + by triple (spec_ret heap c p0 _ _ _).
    + eapply spec_conseq; [apply (fail_finished _ G (λ _, anything) HG) | | by intros [result |]].
      intros s _ Hh. split_and!; [done.. |]. by destruct budget.
  - eapply spec_conseq; [apply (fail_finished _ G (λ _, anything) HG) | | by intros [result |]].
    intros s _ [(? & [[? _] _] & ?) Hfail]. by split_and!.
Qed.

(** ** A turn of the monitor *)
Definition turn_ok (G : State → Prop) (turn : Turn) (s : State) : Prop :=
  match turn with Finish result => finished G result s | _ => mon_all G s end.
#[local] Instance turn_ok_stable G turn : Flag G → Stable (turn_ok G turn).
Proof. intros HG. destruct turn; apply _. Qed.

Lemma mon_at_all r G d s : holds None (monitored_flags G d) (λ _, mon d) s → mon_at r (mon d) G d s.
Proof. apply (holds_upd c r (λ _, mon d)). Qed.

Lemma finished_now G s : mon_all G s → stopping s → finished G requested_stop_result s.
Proof. intros [d Hm] Hs. apply (stop_finished 0 (mon d) G d); [by apply mon_at_all | done]. Qed.

(** What C has seen of a slot stays. *)
Definition seen (r : nat) (st : WorkerRecordState) (P : WorkerRecord → Prop) (s : State) : Prop :=
  ∃ rec, records_ s !! r = Some rec ∧ state_ rec = st ∧ P rec.

#[local] Instance seen_ready_stable r st : Stable (seen r st ready_ok).
Proof.
  intros s s' _ _ Hr (rec & Hrec & Hst & H). destruct (rely_records _ _ Hr _ _ Hrec) as (rec' & Hrec' & Hs & Hl).
  exists rec'. split_and!; [done | by injection Hs as -> | by eapply ready_ok_later].
Qed.
#[local] Instance seen_activated_stable r st : Stable (seen r st (λ rec, is_Some (activated_ rec))).
Proof.
  intros s s' _ _ Hr (rec & Hrec & Hst & H). destruct (rely_records _ _ Hr _ _ Hrec) as (rec' & Hrec' & Hs & Hl).
  exists rec'. split_and!; [done | by injection Hs as -> | by eapply later_is_activated].
Qed.

Lemma allow_ok q d rec : rec_ok c q d rec → q = true → is_Some (current_thread_ rec) → rec_ok c q d (set_activation_allowed true rec).
Proof. intros [] Hq Ht. split; try done. intros t Et. apply (pc_ok_later rec); [done | by split | done |]. by apply ok_pc. Qed.

Lemma allow_data_ok q d rec : rec_ok c q d rec → d = true → is_Some (current_thread_ rec) → rec_ok c q d (set_data_plane_allowed true rec).
Proof. intros [] Hq Ht. split; try done. intros t Et. apply (pc_ok_later rec); [done | by split | done |]. by apply ok_pc. Qed.

Lemma stable_at_ok q d rec x : rec_ok c q d rec → rec_ok c q d (set_stable_at x rec).
Proof. intros []. by split. Qed.

(** A slot of the current instance is filled only if its thread is there. *)
Lemma ready_has_thread q d rec : rec_ok c q d rec → state_ rec = Starting → ready_ok rec → is_Some (current_thread_ rec).
Proof.
  intros [] Hst (x & Hx & _). destruct (current_thread_ rec) as [t |] eqn:Ht; [by eexists |].
  destruct (ok_fresh eq_refl (or_intror Hst)) as [? _]. congruence.
Qed.

Lemma accept_ready_spec r waits G : Flag G → (r < worker_count c)%nat →
  spec (λ s, mon_all G s ∧ (waits = true → seen r Starting ready_ok s)) (accept_ready heap r waits) (turn_ok G).
Proof.
  intros HG Hlt. unfold accept_ready. destruct waits; cbn [negb]; [| triple (spec_ret heap c p0 _ _ _); by intros s _ [? _]].
  triple (spec_locked heap c p0 _ _ _). intros s Hv [Hh Hseen]. destruct (Hseen eq_refl) as (rec & Hr & Hst & Hready).
  unfold get_record. rewrite Hr. cbn. destruct (stop_requested_locked s) eqn:Es; [split; [done |]; by apply finished_now |].
  destruct (completion_published rec); [done |]. destruct Hh as [d Hh].
  destruct (mark_safe heap c p0 None (monitored_flags G d) (λ _, mon d) r s rec ltac:(apply _) Hv Hh Hr)
    as (b & s1 & -> & Hv1 & Hh1 & Hr1 & Hq & _). cbn. destruct b; cbn [negb]; [| by split; [| exists d]].
  rewrite <- Hr1 in Hr. pose proof (inv_records _ _ _ _ Hv1 _ _ Hr) as Hok. pose proof (proj2 (proj2 Hh1) _ _ Hr) as [_ Hd]. cbn in Hd.
  pose proof (ready_has_thread _ _ _ Hok Hst Hready) as Ht. apply (mon_at_all r) in Hh1.
  destruct (own_at heap c p0 None (monitored_flags G d) (λ _, mon d) (mon d) (mon d) r rec (set_activation_allowed true (set_state Ready rec)) s1
    (update_record r (λ rec, set_activation_allowed true (set_state Ready rec)) s1)) as [Hv2 Hh2];
    [apply _ | done | exact Hh1 | exact Hr | changes | done | | done | by left | by intros [|] | | split; [done |]; by eapply mon_here].
  - apply allow_ok; [by apply ready_state_ok | | done]. apply Hh1.
  - split; [done |]. intros _. apply Hd. rewrite Hst. right. by left.
Qed.

Lemma accept_activated_spec r G : Flag G → (r < worker_count c)%nat → spec (mon_all G) (accept_activated r) (turn_ok G).
Proof.
  intros HG Hlt. unfold accept_activated.
  eapply (spec_bind heap c p0 _ _ _ (λ b s, mon_all G s ∧ (b = true → seen r Ready (λ rec, is_Some (activated_ rec)) s))).
  { triple (spec_locked heap c p0 _ _ _). intros s Hv Hh. destruct (found heap c p0 s r Hv Hlt) as [rec Hr].
    unfold get_record. rewrite Hr. cbn. split; [done |]. split; [done |]. intros [Hst Ha]%andb_true_iff.
    apply bool_decide_eq_true in Hst. apply activated_now_eq in Ha. by exists rec. }
  intros [|]; cbn [negb]; [| triple (spec_ret heap c p0 _ _ _); by intros s _ [? _]].
  eapply (spec_bind heap c p0 _ _ _ (turn_ok G)).
  - triple (spec_atomically heap c p0 _ _ _). intros e s Hv [Hh Hseen]. destruct (Hseen eq_refl) as (rec & Hr & Hst & Ha).
    unfold get_record. rewrite Hr. cbn. destruct (stop_requested_locked s) eqn:Es; [split; [done |]; by apply finished_now |].
    destruct (completion_published rec); [done |]. destruct Hh as [d Hh]. pose proof (inv_records _ _ _ _ Hv _ _ Hr) as Hok.
    pose proof (proj2 (proj2 Hh) _ _ Hr) as [_ Hd]. cbn in Hd. destruct (ok_ready _ _ _ _ Hok (or_introl Hst)) as [Ht _].
    assert (d = true) as -> by (apply Hd; rewrite Hst; right; right; by left). apply (mon_at_all r) in Hh.
    assert (data_plane_released_ s = true) as Hrel by by apply Hh.
    destruct (own_at heap c p0 None (monitored_flags G true) (λ _, mon true) (mon true) (mon true) r rec
      (set_stable_at (deadline_after (now_ e) (stability_window (recovery (config_ s)))) (set_data_plane_allowed true (set_state Running rec))) s
      (set_health (count_health 0 1 0 (health_ s)) (update_record r (λ rec,
         set_stable_at (deadline_after (now_ e) (stability_window (recovery (config_ s)))) (set_data_plane_allowed true (set_state Running rec))) s)))
      as [Hv2 Hh2]; [apply _ | done | exact Hh | exact Hr | changes | done | | done | by left | by intros [|] | by split |
        split; [done |]; by eapply mon_here].
    apply stable_at_ok, allow_data_ok; [| done | done]. apply running_state_ok; auto.
  - intros turn. destruct turn as [p | | | result]; try (by triple (spec_ret heap c p0 _ _ _)).
    eapply (spec_bind heap c p0 _ _ _ (λ _, mon_all G)); [| intros []; by triple (spec_ret heap c p0 _ _ _)].
    apply spec_exists. intros d. eapply spec_post; [apply publish_health_spec, _ |]. intros [] s _ H. by exists d.
Qed.

Definition timing_ok (r : nat) (G : State → Prop) (timing : Timing) (s : State) : Prop :=
  match timing with
  | Restarting => mon_at r (creatable c) G true s
  | _ => mon_all G s
  end.
#[local] Instance timing_ok_stable r G timing : Flag G → Stable (timing_ok r G timing).
Proof. intros HG. destruct timing; apply _. Qed.

Lemma end_episode_ok q d rec : rec_ok c q d rec → state_ rec = Running →
  rec_ok c q d (set_next_backoff (initial_backoff (recovery c)) (set_recovery_attempts 0 (set_recovery_episode false rec))).
Proof. intros [] Hst. split; try done; cbn; [congruence |]. intros; by apply valid_delay. Qed.

Lemma check_times_spec r G : Flag G → (r < worker_count c)%nat → spec (mon_all G) (atomically (check_times r)) (timing_ok r G).
Proof.
  intros HG Hlt. triple (spec_atomically heap c p0 _ _ _). intros e s Hv Hh. destruct (found heap c p0 s r Hv Hlt) as [rec Hr].
  pose proof (inv_records _ _ _ _ Hv _ _ Hr) as Hok. unfold check_times, get_record. rewrite Hr. cbn. rewrite (inv_config _ _ _ _ Hv).
  destruct (_ && completion_published rec); [done |]. destruct (_ && recovery_episode_ rec) eqn:Ee.
  - destruct (stable_at_ rec <=? now_ e); [| done]. apply andb_true_iff in Ee as [Hst%bool_decide_eq_true _]. destruct Hh as [d Hh].
    apply (mon_at_all r) in Hh.
    destruct (own_at heap c p0 None (monitored_flags G d) (λ _, mon d) (mon d) (mon d) r rec
      (set_next_backoff (initial_backoff (recovery c)) (set_recovery_attempts 0 (set_recovery_episode false rec))) s
      (update_record r (λ rec, set_next_backoff (initial_backoff (recovery c)) (set_recovery_attempts 0 (set_recovery_episode false rec))) s))
      as [Hv2 Hh2]; [apply _ | done | exact Hh | exact Hr | changes | done | by apply end_episode_ok | done | by left |
        cbn; rewrite Hst; by intros [|] | | split; [done |]; by eapply mon_here].
    split; cbn; [congruence |]. unfold replacing. rewrite Hst. intuition congruence.
  - destruct (bool_decide (state_ rec = Backoff)) eqn:Hb; cbn [negb]; [apply bool_decide_eq_true in Hb | done]. destruct (now_ e <? restart_at_ rec); [done |]. split; [done |].
    destruct Hh as [d Hh]. pose proof (proj2 (proj2 Hh) _ _ Hr) as [Hatt Hd]. cbn in Hatt, Hd.
    assert (d = true) as -> by (apply Hd; rewrite Hb; right; right; by right).
    assert (current_instance_ rec = None) as Hi.
    { destruct (current_instance_ rec) as [x |] eqn:E; [| done]. pose proof (ok_instance _ _ _ _ Hok ltac:(by eexists)) as H. by rewrite Hb in H. }
    pose proof (no_instance_no_thread _ _ _ _ _ _ Hv Hr Hi) as Ht. destruct Hh as (Hset & Hg & Hall).
    split; [exact Hset |]. split; [exact Hg |]. intros j x Hx. specialize (Hall j x Hx). unfold upd.
    destruct (decide (j = r)) as [-> |]; [| exact Hall]. rewrite Hr in Hx. injection Hx as <-.
    split; [by rewrite idle_shell |]. split; [by right |]. intros _. cbn. auto.
Qed.

Context (Hvalid : valid_configuration c = true).

Lemma creation_failure_code e : failure_code (creation_failure e) ≠ WorkerFailureCode.JoinFailed.
Proof. unfold creation_failure. cbn. by repeat case_decide. Qed.

Lemma restart_worker_spec r G : Flag G → (r < worker_count c)%nat → spec (mon_at r (creatable c) G true) (restart_worker heap r) (turn_ok G).
Proof.
  intros HG Hlt. unfold restart_worker. eapply (spec_bind heap c p0 _ _ _ (λ _, mon_at r (creatable c) G true)).
  { by triple (spec_look heap c p0 _ effective_bound_port_ _). }
  intros port. eapply spec_bind; [apply create_worker_spec; [apply _ | done..] |]. intros error.
  set (failing := λ (e : SupervisorStartupError) s, mon_at r anything G true s ∧ (startup_code e = StartupErrorCode.Cancelled → stopping s)).
  eapply (spec_bind heap c p0 _ _ _ (λ _ s, match error with None => mon_at r begun G true s | Some e => failing e s end)).
  { destruct error as [e |]; [| apply publish_health_spec, _]. eapply spec_conseq;
      [apply (publish_health_spec heap c p0 None (λ s, monitored_flags G true s ∧ (startup_code e = StartupErrorCode.Cancelled → stopping s))
                (upd r anything (λ _, mon true))), _ | |].
    - intros s _ [(? & ? & ?) ?]. by split_and!.
    - intros [] s _ (? & [? ?] & ?). by split; [split_and! |]. }
  intros []. eapply (spec_bind heap c p0 _ _ _ (λ error s, match error with None => mon_all G s | Some e => failing e s end)).
  - destruct error as [e |]; [triple (spec_ret heap c p0 _ _ _); done |].
    eapply spec_post; [apply start_worker_thread_spec; [apply _ | done] |]. intros [e |] s _ H; [done |].
    eapply mon_here; [| exact H]. intros x [Hst _]. split; [intros Hb; congruence | done].
  - intros [e |]; [| by triple (spec_ret heap c p0 _ _ _)]. case_decide as Hc.
    + triple (spec_ret heap c p0 _ _ _). intros s _ [Hm Hs]. eapply stop_finished; [exact Hm | auto].
    + eapply (spec_bind heap c p0 _ _ _ (λ x s, match x with Some result => finished G result s | None => mon_all G s end)).
      * eapply spec_pre; [apply (handle_worker_failure_spec r _ G true HG Hlt), creation_failure_code |]. by intros s _ [? _].
      * intros [result |]; by triple (spec_ret heap c p0 _ _ _).
Qed.

Lemma observed_failure_code r rec f : observed_failure r rec = Some f → failure_code f ≠ WorkerFailureCode.JoinFailed.
Proof. unfold observed_failure. repeat case_match; try done; by intros [= <-]. Qed.

Lemma ready_waits_ok r rec : observed_failure r rec = None → ready_waits rec = true → state_ rec = Starting ∧ ready_ok rec.
Proof.
  unfold observed_failure, ready_waits. intros Ho [Hst%bool_decide_eq_true [x Hx]%bool_decide_eq_true]%andb_true_iff. split; [done |].
  unfold live in Ho. rewrite Hst, bool_decide_eq_true_2 in Ho by done. cbn [orb negb] in Ho. rewrite Hx in Ho.
  exists x. split; [by apply ready_now_eq |]. by destruct (ready_outcome x).
Qed.

Lemma monitor_record_spec r G : Flag G → (r < worker_count c)%nat → spec (mon_all G) (monitor_record heap r) (λ x s, turn_ok G x.1 s).
Proof.
  intros HG Hlt. unfold monitor_record.
  eapply (spec_bind heap c p0 _ _ _ (λ x s, match x.1 with
    | Some f => (∃ d, mon_at r anything G d s) ∧ failure_code f ≠ WorkerFailureCode.JoinFailed
    | None => mon_all G s ∧ (x.2 = true → seen r Starting ready_ok s) end)).
  { triple (spec_locked heap c p0 _ _ _). intros s Hv Hh. destruct (found heap c p0 s r Hv Hlt) as [rec Hr].
    unfold get_record. rewrite Hr. cbn. split; [done |]. destruct (observed_failure r rec) as [f |] eqn:E.
    - split; [| by eapply observed_failure_code]. destruct Hh as [d Hh]. exists d. apply (mon_at_all r) in Hh. revert Hh. by apply holds_at.
    - split; [done |]. intros Hw. destruct (ready_waits_ok _ _ E Hw). by exists rec. }
  intros [[f |] waits]; cbn [fst snd].
  - eapply (spec_bind heap c p0 _ _ _ (λ x s, match x with Some result => finished G result s | None => mon_all G s end)).
    + intros s Hv [[d Hh] Hf]. by apply (handle_worker_failure_spec r f G d).
    + intros [result |]; by triple (spec_ret heap c p0 _ _ _).
  - eapply spec_bind; [by apply accept_ready_spec |].
    intros [p | | | result]; [| by triple (spec_ret heap c p0 _ _ _) ..].
    eapply spec_bind; [by apply accept_activated_spec |].
    intros [q | | | result]; [| by triple (spec_ret heap c p0 _ _ _) ..].
    eapply spec_bind; [by apply check_times_spec |].
    intros [| | deadline]; [by triple (spec_ret heap c p0 _ _ _) | | by triple (spec_ret heap c p0 _ _ _)].
    eapply spec_bind; [by apply restart_worker_spec |]. intros turn. by triple (spec_ret heap c p0 _ _ _).
Qed.

Lemma monitor_records_spec l G progressed deadline : Flag G → Forall (λ r, r < worker_count c)%nat l →
  spec (mon_all G) (monitor_records heap l progressed deadline)
    (λ x s, match x with inl result => finished G result s | inr _ => mon_all G s end).
Proof.
  intros HG. revert progressed deadline. induction l as [| r l IH]; intros progressed deadline Hl; cbn [monitor_records].
  - by triple (spec_ret heap c p0 _ _ _).
  - apply list.Forall_cons in Hl as [Hlt Hl]. eapply spec_bind; [by apply monitor_record_spec |]. intros [turn d].
    destruct turn; cbn [fst turn_ok]; [by apply IH | by apply IH | by triple (spec_ret heap c p0 _ _ _) ..].
Qed.

Lemma request_refreshes_ok l e s : inv s → Forall (λ r, r < worker_count c)%nat l →
  match request_refreshes l e s with
  | Val (Some result) => outcome_ result = RunOutcome.FatalExit ∧ error_code result = RunErrorCode.InternalError
  | Val None => True
  | _ => False
  end.
Proof.
  intros Hv. induction l as [| r l IH]; intros Hl; cbn [request_refreshes]; [done |]. apply list.Forall_cons in Hl as [Hlt Hl].
  destruct (found heap c p0 s r Hv Hlt) as [rec Hr]. unfold get_record. rewrite Hr. cbn.
  destruct (current_instance_ rec), (refresh_error e r); [done | by apply IH ..].
Qed.

Definition start_ok (G : State → Prop) (start : MonitorStart) (s : State) : Prop :=
  match start with
  | Return result => finished G result s
  | StopWorker r _ => mon_all G s ∧ (r < worker_count c)%nat
  | GoOn => mon_all G s
  end.
#[local] Instance start_ok_stable G start : Flag G → Stable (start_ok G start).
Proof. intros HG. destruct start; apply _. Qed.

Lemma monitor_begin_spec G : Flag G → spec (mon_all G) (atomically monitor_begin) (start_ok G).
Proof.
  intros HG. triple (spec_atomically heap c p0 _ _ _). intros e s Hv Hh. unfold monitor_begin.
  destruct (abrupt_exit_requested_ s); [destruct Hh as [d Hh]; apply Hh |].
  destruct (stop_requested_locked s) eqn:Es; [split; [done |]; by apply finished_now |].
  destruct Hh as [d Hh]. pose proof (request_refreshes_ok (all_records s) e s Hv (all_records_lt _ _ _ s Hv)) as Hreq.
  set (o := if snapshot_publication_pending_ s then _ else _).
  assert (match o with Val (Some result) => outcome_ result = RunOutcome.FatalExit ∧ error_code result = RunErrorCode.InternalError
                     | Val None => True | _ => False end) as Ho by by unfold o; destruct (snapshot_publication_pending_ s).
  clearbody o. destruct o as [[result |] | |]; try done; cbn.
  - destruct (own_flags heap c p0 None (monitored_flags G d) (λ _, mon d) s (set_snapshot_publication_pending false s)) as [Hv' Hh'];
      try done; [apply _ | apply Hv |]. split; [done |]. destruct Ho as [O1 O2]. apply (mon_at_all 0) in Hh'.
    eapply mon_finished; [exact Hh' |]. unfold result_ok. rewrite O1, O2. done.
  - destruct (unexpected_stop_worker_ s) as [r |] eqn:Eu.
    + apply and_assoc. split; [| by apply (inv_unexpected _ _ _ _ Hv)].
      destruct (own_flags heap c p0 None (monitored_flags G d) (λ _, mon d) s
        (set_unexpected_stop_worker None (set_snapshot_publication_pending false s))) as [Hv' Hh']; try done; [apply _ |]. split; [done | by exists d].
    + destruct (own_flags heap c p0 None (monitored_flags G d) (λ _, mon d) s (set_snapshot_publication_pending false s)) as [Hv' Hh'];
        try done; [apply _ | cbn; by rewrite Eu |]. split; [done | by exists d].
Qed.

Lemma stop_loop_ok q d rec : rec_ok c q d rec → rec_ok c q d (stop_loop rec).
Proof.
  intros Hok. unfold stop_loop. destruct (current_instance_ rec) as [x |] eqn:E; [| done]. destruct Hok. split; try done; cbn.
  - intros t Ht. destruct (ok_thread t Ht) as (_ & ? & ? & ?). split_and!; [by eexists | done..].
  - intros _. apply ok_instance. by eexists.
Qed.

Lemma monitor_active_workers_spec G : Flag G → spec (mon_all G) (monitor_active_workers heap) (finished G).
Proof.
  intros HG. unfold monitor_active_workers. triple (spec_loop heap c p0 _ _ _). eapply spec_bind; [by apply monitor_begin_spec |].
  intros [| r i | result].
  - eapply (spec_bind heap c p0 _ _ _ (λ l s, mon_all G s ∧ Forall (λ r, r < worker_count c)%nat l)).
    { triple (spec_look heap c p0 _ all_records _). intros s Hv Hh. split; [done |]. by eapply all_records_lt. }
    intros l. eapply (spec_bind heap c p0 _ _ _ (λ x s, match x with inl result => finished G result s | inr _ => mon_all G s end)).
    { intros s Hv [Hh Hl]. by apply (monitor_records_spec l G). }
    intros [result | x]; by triple (spec_ret heap c p0 _ _ _).
  - eapply (spec_bind heap c p0 _ _ _ (λ _, mon_all G)); [| intros []; by triple (spec_ret heap c p0 _ _ _)].
    triple (spec_locked heap c p0 _ _ _). intros s Hv [[d Hh] Hlt]. destruct (found heap c p0 s r Hv Hlt) as [rec Hr].
    unfold get_record. rewrite Hr. cbn. destruct (instance_id_ rec =? i); [| split; [done | by exists d]].
    pose proof (inv_records _ _ _ _ Hv _ _ Hr) as Hok. pose proof (proj2 (proj2 Hh) _ _ Hr) as Hm.
    assert (state_ (stop_loop rec) = state_ rec ∧ instance_id_ (stop_loop rec) = instance_id_ rec ∧
      recovery_attempts_ (stop_loop rec) = recovery_attempts_ rec) as (S1 & S2 & S3) by (unfold stop_loop; by case_match).
    apply (mon_at_all r) in Hh.
    destruct (own_at heap c p0 None (monitored_flags G d) (λ _, mon d) (mon d) (mon d) r rec (stop_loop rec) s (update_record r stop_loop s))
      as [Hv2 Hh2]; [apply _ | done | exact Hh | exact Hr | changes | done | by apply stop_loop_ok | done | | | | split; [done |]; by eapply mon_here].
    + unfold stop_loop. destruct (current_instance_ rec) as [x |] eqn:E; [right; by split; [eexists | eexists] | left; by rewrite E].
    + rewrite S1. intros Hst Hfp. destruct (Publication.registry_at _ _) as [y |] eqn:E; [| done].
      destruct (pub_registry _ _ _ (inv_pub _ _ _ _ Hv Hfp _ _ Hr) _ E) as (_ & _ & ? & ?). by destruct Hst.
    + unfold mon in *. cbn in *. by rewrite S1, S3.
  - by triple (spec_ret heap c p0 _ _ _).
Qed.

End monitor.
