(* ===== verification/SupervisorRun.v ===== *)
(** * [run] and [emergency_join_all] as a whole

    [run_spec], [emergency_spec]: what thread C and its successor leave behind. *)
From stdpp Require Import relations functions.
From S2P Require Import Prelude DomainBlocklist FilterPublication Concurrency WorkerSupervisor SupervisorInvariant SupervisorThread SupervisorMonitor.
Import Supervisor.

Section run.
Context {F : Type}.
Variables (heap : nat → FilterContext F) (c : Config) (p0 : Publication.World).
Context (Hmax : 0 ≤ max_attempts (recovery c)).
Abbreviation inv := (inv heap c p0).
Abbreviation Stable := (Stable heap c p0).
Abbreviation Flag := (Flag heap c p0).
Abbreviation holds := (holds c).
Abbreviation spec := (spec heap c p0).
Abbreviation settled := (settled c).

(** ** Publishing the results *)
Definition results (x : option SupervisorStartupResult) (y : option SupervisorActivationResult) (s : State) : Prop :=
  startup_result_ s = x ∧ activation_result_ s = y.

#[local] Instance results_flag x y : Flag (results x y).
Proof.
  split.
  - intros s s' [= Hx Hy _ _ _ _ _ _] _ [<- <-]. done.
  - intros s s' _ _ Hr [<- <-]. split; [by apply rely_startup | by apply rely_activation].
Qed.

Definition first {A} (o : option A) (a : A) : option A := Some (default a o).

(** What the publication of a result leaves alone. *)
Definition requests (s : State) := (activation_requested_ s, stop_requested_ s, service_stop_ s, join_failed s).
Class Request (K : State → Prop) := request_same : ∀ s s', requests s' = requests s → K s → K s'.
#[local] Instance requested_request : Request requested.
Proof. unfold requested. by intros s s' [= -> _ _ _]. Qed.
#[local] Instance stopping_request : Request stopping.
Proof. unfold stopping, stop_requested_locked. by intros s s' [= _ -> -> _]. Qed.
#[local] Instance if_request φ K : Request K → Request (λ s, φ → K s).
Proof. intros H s s' E HK Hφ. exact (H s s' E (HK Hφ)). Qed.
#[local] Instance if_flag φ K : Flag K → Flag (λ s, φ → K s).
Proof. intros []. split; [intros s s' E Hj H Hφ; eauto | by apply impl_stable]. Qed.
#[local] Instance true_request : Request (λ _, True).
Proof. by intros s s'. Qed.

Definition with_results x y (K : State → Prop) (s : State) : Prop := results x y s ∧ K s.
#[local] Instance with_results_flag x y K : Flag K → Flag (with_results x y K).
Proof. intros H. unfold with_results. apply _. Qed.

Lemma publish_startup_spec x y v K Φ : Flag K → Request K →
  spec (holds None (with_results x y K) Φ) (publish_startup v) (λ _, holds None (with_results (first x v) y K) Φ).
Proof.
  intros HF HK. triple (spec_locked heap c p0 _ _ _). intros s Hv (Hset & [[Hx Hy] Hk] & Hall). rewrite Hx. destruct x as [x |]; cbn.
  { by split_and!. }
  split.
  - destruct Hv. split; try done. cbn. intros Ha. destruct (inv_activated Ha) as [[info Hi] ?]. congruence.
  - split_and!; [done | split; [done | by apply (HK s)] | done].
Qed.

Lemma publish_activation_spec x y v K Φ : Flag K → Request K → (v = inl () → (∃ info, x = Some (inl info)) ∧ ∀ s, K s → requested s) →
  spec (holds None (with_results x y K) Φ) (publish_activation v) (λ _, holds None (with_results x (first y v) K) Φ).
Proof.
  intros HF HK Hinl. triple (spec_locked heap c p0 _ _ _). intros s Hv (Hset & [[Hx Hy] Hk] & Hall). rewrite Hy. destruct y as [y |]; cbn.
  { by split_and!. }
  split.
  - destruct Hv. split; try done; cbn.
    + intros [= Hv]. destruct (Hinl Hv) as [[info ->] Hq]. split; [by exists info | by apply Hq].
    + intros Hr. specialize (inv_released Hr). congruence.
  - split_and!; [done | split; [done | by apply (HK s)] | done].
Qed.

(** ** The start-up *)
Definition fresh (x : WorkerRecord) : Prop := offline x ∧ recovery_episode_ x = false.

Lemma fresh_creatable x : fresh x → creatable c x.
Proof. intros [[Hi Hst] He]. split; [done |]. split; [by left |]. by rewrite He. Qed.

Definition error_ok (e : SupervisorStartupError) (G : State → Prop) (s : State) : Prop :=
  holds None G (λ _, anything) s ∧ (startup_code e = StartupErrorCode.Cancelled → stopping s).
#[local] Instance error_ok_stable e G : Flag G → Stable (error_ok e G).
Proof. intros HG. unfold error_ok. apply _. Qed.

Lemma create_workers_spec G : Flag G → valid_configuration c = true → spec (holds None G (λ _, fresh)) (create_workers heap)
  (λ e s, match e with None => holds None G (λ _, begun) s | Some e => error_ok e G s end).
Proof.
  intros HG Hval. unfold create_workers. eapply (spec_bind heap c p0 _ _ _ (λ l s, l = seq 0 (worker_count c) ∧ holds None G (split_at 0 begun fresh) s)).
  { triple (spec_look heap c p0 _ all_records _). intros s Hv Hs. split; [| by apply split_none].
    unfold all_records. by rewrite (inv_length _ _ _ _ Hv). }
  intros l. eapply (spec_bind heap c p0 _ _ _ (λ _ s, l = seq 0 (worker_count c) ∧ holds None G (split_at 0 begun fresh) s)).
  { by triple (spec_look heap c p0 _ (λ s, requested_port (config_ s)) _). }
  intros port. set (go := fix create (l : list nat) (port : Z) : M (option SupervisorStartupError) := _).
  assert (∀ n k port, (k + n = worker_count c)%nat → spec (holds None G (split_at k begun fresh)) (go (seq k n) port)
    (λ e s, match e with None => holds None G (λ _, begun) s | Some e => error_ok e G s end)) as Hgo.
  { intros n. induction n as [| n IH]; intros k port' Hk; cbn [seq go].
    - triple (spec_ret heap c p0 _ _ _). intros s Hv H. rewrite Nat.add_0_r in Hk. subst k. by eapply split_all.
    - eapply (spec_bind heap c p0 _ _ _ (λ e s, match e with None => holds None G (upd k begun (split_at k begun fresh)) s | Some e => error_ok e G s end)).
      + eapply spec_conseq; [apply (create_worker_spec heap c p0 k port' G (split_at k begun fresh)); [done | lia | done] | |].
        * intros s _. apply holds_mono. intros j x H. unfold upd. case_decide; [| done]. subst j. unfold split_at in H.
          rewrite decide_False in H by lia. by apply fresh_creatable.
        * intros [e |] s _; [| done]. intros [H ?]. split; [by eapply holds_any | done].
      + intros [e |]; [by triple (spec_ret heap c p0 _ _ _) |].
        eapply (spec_bind heap c p0 _ _ _ (λ _, holds None G (split_at (S k) begun fresh))); [| intros port''; apply (IH (S k)); lia].
        triple (spec_locked heap c p0 _ _ _). intros s Hv Hh. assert (k < worker_count c)%nat as Hlt by lia.
        destruct (found heap c p0 s k Hv Hlt) as [rec Hr]. pose proof (upd_here k _ _ _ _ (proj2 (proj2 Hh)) Hr) as [[loop Hi] _]. cbn in Hi.
        assert (holds None G (split_at (S k) begun fresh) s) by (revert Hh; apply holds_mono; intros j x; apply split_next).
        destruct (_ && _); [| done]. unfold get_record. rewrite Hr. cbn. by rewrite Hi. }
  intros s Hv [-> Hh]. exact (Hgo (worker_count c) 0%nat port eq_refl s Hv Hh).
Qed.

Lemma start_up_spec G : Flag G → valid_configuration c = true → spec (holds None G (λ _, fresh)) (start_up heap)
  (λ e s, match e with None => holds None G (λ _ x, state_ x = Ready) s | Some e => error_ok e G s end).
Proof.
  intros HG Hval. unfold start_up. eapply spec_bind; [by apply create_workers_spec |]. intros error.
  eapply (spec_bind heap c p0 _ _ _ (λ e s, match e with None => holds None G (λ _, threaded) s | Some e => error_ok e G s end)).
  { destruct error as [e |]; [by triple (spec_ret heap c p0 _ _ _) | by apply start_worker_threads_spec]. }
  intros [e |]; [by triple (spec_ret heap c p0 _ _ _) | by apply await_worker_readiness_spec].
Qed.

(** ** Stopping and joining everything *)
Definition joined_all (s : State) : Prop := join_failed s = false → all_recs (λ _, offline) s.
#[local] Instance joined_all_stable : Stable joined_all.
Proof.
  intros s s' Hv Hv' Hr H Hj. eapply (stable_use heap c p0 (all_recs (λ _, offline)) s); try done. apply H. by rewrite <- (rely_join _ _ Hr).
Qed.

Lemma stop_and_join_spec G : Flag G → spec (holds None G (λ _, anything)) (stop_and_join heap)
  (λ _ s, holds None G (λ _, anything) s ∧ joined_all s).
Proof.
  intros HG. unfold stop_and_join. eapply spec_bind; [by apply request_all_worker_stops_spec |]. intros [].
  eapply spec_post; [by apply join_and_reset_all_spec |]. intros [|] s _.
  - intros H. split; [by eapply holds_any |]. intros _. apply H.
  - intros [H Hf]. split; [done |]. intros Hj. unfold failed in Hf. congruence.
Qed.

(** ** The outcomes of [run_impl] *)
Definition published (s : State) : Prop := is_Some (startup_result_ s) ∧ is_Some (activation_result_ s).
#[local] Instance published_flag : Flag published.
Proof.
  split.
  - intros s s' [= Hx Hy _ _ _ _ _ _] _. unfold published. by rewrite Hx, Hy.
  - intros s s' _ _ Hr. unfold published. by rewrite (rely_startup _ _ Hr), (rely_activation _ _ Hr).
Qed.

(** What the result says of the results published, of the stop and of the join. *)
Definition result_true (result : SupervisorRunResult) (s : State) : Prop :=
  match outcome_ result with
  | RunOutcome.RequestedStop => stopping s
  | RunOutcome.StartupFailure => ∃ e, result_startup_error result = Some e ∧ startup_result_ s = Some (inr e)
  | RunOutcome.FatalExit => ∃ info, startup_result_ s = Some (inl info)
  end.
#[local] Instance startup_is_flag x : Flag (λ s, startup_result_ s = x).
Proof. split; [by intros s s' [= -> _ _ _ _ _ _ _] | by intros s s' _ _ Hr; rewrite (rely_startup _ _ Hr)]. Qed.
#[local] Instance result_true_stable result : Stable (result_true result).
Proof. unfold result_true. destruct (outcome_ result); apply _. Qed.

Definition over (result : SupervisorRunResult) (s : State) : Prop :=
  (holds None published (λ _, anything) s ∧ joined_all s) ∧ result_true result s.
#[local] Instance over_stable result : Stable (over result).
Proof. unfold over. apply _. Qed.

Lemma results_published x y s : results (Some x) (Some y) s → published s.
Proof. intros [Hx Hy]. unfold published. rewrite Hx, Hy. by split; eexists. Qed.

(** What [over] needs of a state in which nothing has been started. *)
Lemma over_fresh result x y s : holds None (results (Some x) (Some y)) (λ _, fresh) s → result_true result s → over result s.
Proof.
  intros (? & Hres & Hall) Ht. split; [split |]; [| | done].
  - split_and!; [done | by eapply results_published | done].
  - intros _. revert Hall. apply all_recs_mono. by intros j x' [? _].
Qed.

Lemma error_into (G : State → Prop) φ s : holds None G (λ _, anything) s ∧ (φ → stopping s) →
  holds None (λ s, G s ∧ (φ → stopping s)) (λ _, anything) s.
Proof. intros [(? & ? & ?) ?]. by split_and!. Qed.

Lemma startup_failed_spec e : spec (error_ok e (results None None)) (startup_failed heap e) over.
Proof.
  unfold startup_failed. set (K := λ s : State, startup_code e = StartupErrorCode.Cancelled → stopping s).
  eapply (spec_bind heap c p0 _ _ _ (λ _, holds None (with_results (Some (inr e)) None K) (λ _, anything))).
  { eapply spec_pre; [apply (publish_startup_spec None None (inr e) K); apply _ | intros s _; exact (error_into (results None None) _ s)]. }
  intros []. eapply spec_bind; [apply (publish_activation_spec (Some (inr e)) None); [apply _ .. | done] |].
  intros []. eapply spec_bind; [apply stop_and_join_spec, _ |]. intros b. triple (spec_ret heap c p0 _ _ _).
  intros s Hv [Hh Hj]. split; [split; [|done] |].
  - revert Hh. apply holds_flag. intros [H _]. by eapply results_published.
  - destruct Hh as (_ & [[Hx _] Hk] & _). case_bool_decide as Hc; cbn; [by apply Hk | by exists e].
Qed.

Lemma activation_failed_spec e info : spec (λ s, holds None (results (Some (inl info)) None) (λ _, anything) s ∧
    (activation_code e = ActivationErrorCode.Cancelled → stopping s)) (activation_failed heap e) over.
Proof.
  unfold activation_failed. set (K := λ s : State, activation_code e = ActivationErrorCode.Cancelled → stopping s).
  eapply (spec_bind heap c p0 _ _ _ (λ _, holds None (with_results (Some (inl info)) (Some (inr e)) K) (λ _, anything))).
  { eapply spec_pre; [apply (publish_activation_spec (Some (inl info)) None (inr e) K); [apply _ .. | done] | intros s _; exact (error_into (results (Some (inl info)) None) _ s)]. }
  intros []. eapply (spec_bind heap c p0 _ _ _ (λ b, holds None (λ s, with_results (Some (inl info)) (Some (inr e)) K s ∧ (b = true → stopping s)) (λ _, anything))).
  { triple (spec_look heap c p0 _ stop_requested_locked _). intros s Hv (? & ? & ?). by split_and!. }
  intros b. eapply spec_bind; [apply stop_and_join_spec, _ |]. intros joined. cbv beta. clear joined.
  assert (∀ result, (outcome_ result = RunOutcome.RequestedStop → b = true ∨ activation_code e = ActivationErrorCode.Cancelled) →
    outcome_ result ≠ RunOutcome.StartupFailure → spec (λ s, holds None (λ s, with_results (Some (inl info)) (Some (inr e)) K s ∧ (b = true → stopping s))
      (λ _, anything) s ∧ joined_all s) (mret result) over) as Hret.
  { intros result Hstop Hnot. triple (spec_ret heap c p0 _ _ _). intros s Hv [Hh Hj]. split; [split; [| done] |].
    - revert Hh. apply holds_flag. intros [[H _] _]. by eapply results_published.
    - destruct Hh as (_ & [[[Hx _] Hk] Hb] & _). unfold result_true. destruct (outcome_ result); [| done | by exists info].
      destruct (Hstop eq_refl); auto. }
  destruct (_ || _) eqn:E.
  - apply Hret; [intros _ | done]. apply orb_true_iff in E as [? | ?%bool_decide_eq_true]; auto.
  - by destruct (run_outcome _); apply Hret.
Qed.

Definition joins_failed (result : SupervisorRunResult) (s : State) : Prop := error_code result = RunErrorCode.WorkerJoinFailed → failed s.
Definition stop_seen (result : SupervisorRunResult) (s : State) : Prop := outcome_ result = RunOutcome.RequestedStop → stopping s.

#[local] Instance failed_flag : Flag failed.
Proof. split; [auto |]. intros s s' _ _ Hr H. unfold failed. by rewrite (rely_join _ _ Hr). Qed.

Lemma run_active_workers_spec info : valid_configuration c = true → spec (λ s, holds None (results (Some (inl info)) None) (λ _ x, state_ x = Running) s ∧ requested s)
  (run_active_workers heap) over.
Proof.
  intros Hval. unfold run_active_workers. set (G := results (Some (inl info)) (Some (inl ()))).
  assert (∀ s, G s → published s) as Hpub by (intros s; apply results_published).
  eapply (spec_bind heap c p0 _ _ _ (λ _, holds None (with_results (Some (inl info)) (Some (inl ())) requested) (λ _ x, state_ x = Running))).
  { eapply spec_pre; [apply (publish_activation_spec (Some (inl info)) None (inl ()) requested); [apply _ .. |] |].
    - intros _. split; [by exists info | done].
    - intros s _ [(? & ? & ?) ?]. by split_and!. }
  intros []. eapply (spec_bind heap c p0 _ _ _ (finished c G)).
  { eapply spec_pre; [apply monitor_active_workers_spec; [done | done | apply _] |]. intros s _ (Hset & Hg & Hall). exists false.
    split_and!; [done | done |]. revert Hall. apply all_recs_mono. intros j x Hst. unfold mon, replacing. rewrite Hst.
    split; [done | by intros [|[|[|]]]]. }
  intros result. set (K := λ s, (G s ∧ joins_failed result s) ∧ stop_seen result s).
  assert (∀ r s, holds None K (λ _, anything) s → joined_all s → outcome_ result ≠ RunOutcome.StartupFailure →
    (r = result ∨ outcome_ r = RunOutcome.FatalExit) → over r s) as Hover.
  { intros r s (? & [[Hg _] Hs] & ?) Hj Hne Hr. split; [split; [by split_and!; auto | done] |]. unfold result_true.
    destruct Hr as [-> | ->]; [| exists info; apply Hg]. destruct (outcome_ result) eqn:E; [by apply Hs | done | exists info; apply Hg]. }
  eapply (spec_bind heap c p0 _ _ _ (λ _ s, holds None K (λ _, anything) s ∧ outcome_ result ≠ RunOutcome.StartupFailure)).
  { intros s Hv (Hh & [Hstop Hj] & Hne). eapply wp_mono; [| apply (request_all_worker_stops_spec heap c p0 None K (λ _, anything) _ s Hv)].
    - intros [[] | e |] s' _; auto.
    - destruct Hh as (? & ? & ?). by split_and!. }
  intros []. case_decide as He.
  - triple (spec_ret heap c p0 _ _ _). intros s Hv [Hh Hne]. apply Hover; try done; [| by left]. intros Hj.
    destruct Hh as (_ & [[_ Hf] _] & _). specialize (Hf He). unfold failed in Hf. congruence.
  - eapply (spec_bind heap c p0 _ _ _ (λ b s, (holds None K (λ _, anything) s ∧ joined_all s) ∧ outcome_ result ≠ RunOutcome.StartupFailure)).
    + intros s Hv [Hh Hne]. eapply wp_mono; [| by apply (join_and_reset_all_spec heap c p0 K _ s Hv)].
      intros [b | e |] s' _ H; [| done..]. split; [| done]. destruct b.
      * split; [by eapply holds_any | intros _; apply H].
      * destruct H as [H Hf]. split; [done |]. intros Hj. unfold failed in Hf. congruence.
    + intros joined. triple (spec_ret heap c p0 _ _ _). intros s Hv [[Hh Hj] Hne]. apply Hover; try done.
      case_match; [by right | by left].
Qed.

Definition ready_to_run (s : State) : Prop := holds None (results None None) (λ _, fresh) s.

Lemma run_impl_spec : spec ready_to_run (run_impl heap) over.
Proof.
  unfold run_impl, ready_to_run.
  eapply (spec_bind heap c p0 _ _ _ (λ b s, holds None (with_results None None (λ s, b = true → stopping s)) (λ _, fresh) s)).
  { triple (spec_look heap c p0 _ stop_requested_locked _). intros s Hv (? & ? & ?). by split_and!. }
  intros [|].
  { eapply spec_bind; [apply publish_startup_spec; apply _ |]. intros []. eapply spec_bind; [by apply publish_activation_spec; [apply _ .. |] |].
    intros []. triple (spec_ret heap c p0 _ _ _). intros s Hv (? & [Hres Hs] & Hall). eapply over_fresh; [split_and!; [done | exact Hres | done] |].
    by apply Hs. }
  eapply (spec_bind heap c p0 _ _ _ (λ b s, holds None (with_results None None (λ _, True)) (λ _, fresh) s ∧ b = valid_configuration c)).
  { triple (spec_locked heap c p0 _ _ _). intros s Hv Hh. destruct (abrupt_exit_requested_ s); [apply Hh |]. split; [done |]. destruct Hh as (? & [? ?] & ?).
    rewrite (inv_config _ _ _ _ Hv). by split_and!. }
  intros b. destruct (decide (b = valid_configuration c)) as [-> |]; [| by intros s _ [_ ?]].
  destruct (valid_configuration c) eqn:Hval; cbn [negb].
  2:{ set (e := startup_error StartupErrorCode.InvalidConfiguration).
    eapply (spec_bind heap c p0 _ _ _ (λ _, holds None (with_results (Some (inr e)) None (λ _, True)) (λ _, fresh))).
    { eapply spec_pre; [apply (publish_startup_spec None None); apply _ |]. by intros s _ [? _]. }
    intros []. eapply spec_bind; [by apply publish_activation_spec; [apply _ .. |] |].
    intros []. triple (spec_ret heap c p0 _ _ _). intros s Hv (? & [Hres _] & Hall). eapply over_fresh; [split_and!; [done | exact Hres | done] |].
    exists e. split; [done | apply Hres]. }
  eapply (spec_bind heap c p0 _ _ _ (λ e s, match e with None => holds None (results None None) (λ _ x, state_ x = Ready) s
                                                  | Some e => error_ok e (results None None) s end)).
  { eapply spec_pre; [apply start_up_spec; [apply _ | done] |]. intros s _ [(? & [? _] & ?) _]. by split_and!. }
  intros [e |]; [apply startup_failed_spec |].
  eapply (spec_bind heap c p0 _ _ _ (λ info, holds None (with_results None None (λ _, True)) (λ _ x, state_ x = Ready))).
  { triple (spec_locked heap c p0 _ _ _). intros s Hv Hh.
    assert (0 < worker_count c)%nat as Hlt.
    { unfold valid_configuration in Hval. apply andb_true_iff in Hval as [[Hz _]%andb_true_iff _]. apply negb_true_iff, Nat.eqb_neq in Hz. lia. }
    destruct (found heap c p0 s 0 Hv Hlt) as [rec Hr]. unfold get_record. rewrite Hr. cbn.
    pose proof (inv_records _ _ _ _ Hv _ _ Hr) as Hok. destruct Hh as (Hset & Hg & Hall). pose proof (Hall _ _ Hr) as Hst. cbn in Hst.
    destruct (ok_ready _ _ _ _ Hok (or_introl Hst)) as ([t Ht] & _). destruct (ok_thread _ _ _ _ Hok _ Ht) as ([l ->] & _).
    split; [done |]. by split_and!. }
  intros info. eapply spec_bind; [apply (publish_startup_spec None None (inl info)); apply _ |]. intros [].
  eapply spec_bind.
  { eapply spec_pre; [apply (await_activation_spec heap c p0 (results (Some (inl info)) None)), _ |]. intros s _. apply holds_flag. by intros [? _]. }
  intros [e |]; [apply activation_failed_spec | by apply run_active_workers_spec].
Qed.

(** ** [run] *)
Definition not_started (s : State) : Prop := run_started_ s = false.
#[local] Instance not_started_stable : Stable not_started.
Proof. intros s s' _ _ Hr H. unfold not_started. by rewrite (rely_started _ _ Hr). Qed.
Definition inactive (s : State) : Prop := run_active_ s = false.
#[local] Instance inactive_stable : Stable inactive.
Proof. intros s s' _ _ Hr H. unfold inactive. by rewrite (rely_active _ _ Hr). Qed.

(** However [run] is left, the results are published and it is no longer active. *)
Definition final (o : outcome unit SupervisorRunResult) (s : State) : Prop :=
  match o with
  | Val result => inactive s ∧ over result s
  | Err _ => inactive s ∧ holds None published (λ _, anything) s
  | Undef => False
  end.

Lemma inactive_inv s b : inv s → inv (set_run_active b s).
Proof. by intros []. Qed.

(** *** Programs that do not throw *)
Abbreviation wp := (Concurrency.wp inv rely).
Definition sure {A} (P : State → Prop) (m : M A) (Q : A → State → Prop) : Prop := ∀ s, inv s → P s →
  wp m (λ o s, match o with Val a => Q a s | _ => False end) s.

Lemma sure_ret {A} (a : A) (Q : A → State → Prop) : Stable (Q a) → sure (Q a) (mret a) Q.
Proof. intros HQ s Hv Hs s' Hr Hv'. by eapply stable_use. Qed.

Lemma sure_bind {A C} P (m : M A) (k : A → M C) Q R : sure P m Q → (∀ a, sure (Q a) (k a) R) → sure P (m ≫= k) R.
Proof.
  intros Hm Hk s Hv Hs. apply wp_bind; [apply _ | | done]. eapply wp_mono; [| by apply Hm].
  intros [a | e |] s' Hv' H; [by apply Hk | done..].
Qed.

Lemma sure_then {A C} P (m : M A) (k : A → M C) Q R s : sure P m Q → inv s → P s → (∀ a s, inv s → Q a s → wp (k a) R s) →
  wp (m ≫= k) R s.
Proof.
  intros Hm Hv Hs Hk. apply wp_bind; [apply _ | | done]. eapply wp_mono; [| by apply Hm].
  intros [a | e |] s' Hv' H; [by apply Hk | done..].
Qed.

Lemma sure_locked {A} (P : State → Prop) f (Q : A → State → Prop) (HP : Stable P) (HQ : ∀ a, Stable (Q a)) :
  (∀ s, inv s → P s → match f s with Val (a, s') => inv s' ∧ Q a s' | _ => False end) → sure P (locked f) Q.
Proof.
  intros H s Hv Hs s1 Hr Hv1 e x s2 E. pose proof (H s1 Hv1 ltac:(by eapply (stable_use heap c p0 P))) as Hf.
  destruct (f s1) as [[a s'] | u |]; [| done..]. injection E as <- <-. destruct Hf as [Hv' Hq]. split; [done |].
  intros s3 Hr3 Hv3. by eapply stable_use.
Qed.

Lemma sure_for_each (P : State → Prop) (body : nat → M (option unit)) l (HP : Stable P) :
  Forall (λ r, sure P (body r) (λ o s, o = None ∧ P s)) l → sure P (for_each l body) (λ o s, o = None ∧ P s).
Proof.
  induction l as [| r l IH]; intros H; cbn [for_each].
  - intros s Hv Hs s' Hr Hv'. split; [done | by eapply (stable_use heap c p0 P)].
  - apply list.Forall_cons in H as [Hb H]. eapply sure_bind; [exact Hb |]. intros [x |]; [by intros s _ [? _] |].
    intros s Hv [_ Hs]. by apply IH.
Qed.

Lemma request_stops_sure o G Φ : Flag G → sure (holds o G Φ) request_all_worker_stops (λ _, holds o G Φ).
Proof.
  intros HG. unfold request_all_worker_stops, for_records. eapply (sure_bind _ _ _ (λ x s, x = None ∧ holds o G Φ s)).
  - eapply (sure_bind _ _ _ (λ l s, holds o G Φ s ∧ l = seq 0 (worker_count c))).
    + apply sure_locked; [apply _ .. |]. intros s Hv Hh. split; [done |]. split; [done |]. unfold all_records. by rewrite (inv_length _ _ _ _ Hv).
    + intros l s Hv [Hh ->]. revert s Hv Hh. apply sure_for_each; [apply _ |]. apply list.Forall_forall. intros r [_ Hr]%elem_of_seq.
      apply sure_locked; [apply _ .. |]. intros s Hv Hh. by apply and_comm, and_assoc, (conj eq_refl), and_comm, stop_worker.
  - intros x s Hv [-> Hh]. revert s Hv Hh. apply (sure_ret () (λ _, holds o G Φ)), _.
Qed.

#[local] Instance some_startup_flag : Flag (λ s, is_Some (startup_result_ s)).
Proof. split; [by intros s s' [= -> _ _ _ _ _ _ _] | intros s s' _ _ Hr; by rewrite (rely_startup _ _ Hr)]. Qed.

Lemma publish_abrupt_sure : sure (holds None (λ _, True) (λ _, anything)) publish_abrupt_failure (λ _, holds None published (λ _, anything)).
Proof.
  unfold publish_abrupt_failure. eapply (sure_bind _ _ _ (λ _, holds None (λ s, is_Some (startup_result_ s)) (λ _, anything))).
  - apply sure_locked; [apply _ .. |]. intros s Hv (Hset & _ & Hall).
    destruct (startup_result_ s) as [x |] eqn:E; [by split_and!|].
    split; [| by split_and!]. destruct Hv. split; try done. cbn. intros Ha. destruct (inv_activated Ha) as [[info ?] ?]. congruence.
  - intros []. apply sure_locked; [apply _ .. |]. intros s Hv (Hset & Hx & Hall).
    destruct (activation_result_ s) as [y |] eqn:E; [split; [done |]; split_and!; [done | split; [done | by rewrite E] | done] |].
    split; [| split_and!; [done | split; [done | by eexists] | done]]. destruct Hv. split; try done.
    intros Hr. cbn in *. specialize (inv_released Hr). congruence.
Qed.

Lemma finish_run_sure (P : State → Prop) : Stable P → (∀ s, P s → P (set_run_active false s)) → sure P finish_run (λ _ s, inactive s ∧ P s).
Proof. intros HP Hset. apply sure_locked; [apply _ .. |]. intros s Hv Hs. split; [by apply inactive_inv | split; [done | by apply Hset]]. Qed.

Definition start_of (s : State) : Prop := ready_to_run s ∧ not_started s.
#[export] Instance start_of_stable : Stable start_of.
Proof. apply _. Qed.

Lemma run_wp s : inv s → start_of s → Concurrency.wp inv rely (run heap) final s.
Proof.
  intros Hv Hs. unfold run. apply wp_bind; [apply _ | | done].
  eapply wp_mono; [| apply (sure_locked start_of _ (λ b s, ready_to_run s ∧ b = true)); [apply _ | intros; apply _ | | done | exact Hs]].
  2:{ intros s1 Hv1 [(? & ? & ?) ->]. cbn. split; [by destruct Hv1 | by split_and!]. }
  intros [started | e |] s1 Hv1 Hs1; [| done..]. destruct Hs1 as [Hs1 ->]. cbn [negb]. apply wp_bind; [apply _ | | done].
  eapply wp_mono; [| by apply run_impl_spec]. intros [result | e |] s2 Hv2 Hs2; [| | done].
  - assert (sure (over result) (finish_run ≫= λ _, mret result) (λ r s, inactive s ∧ over r s)) as H.
    { eapply sure_bind; [by apply finish_run_sure; [apply _ |] |]. intros [].
      apply (sure_ret result (λ r s, inactive s ∧ over r s)), _. }
    eapply wp_mono; [| by apply H]. by intros [r | |] s3 Hv3 H3.
  - assert (holds None (λ _, True) (λ _, anything) s2) as H2 by by split_and!.
    eapply sure_then; [apply publish_abrupt_sure | done | exact H2 |]. intros [] s3 Hv3 H3.
    eapply sure_then; [apply (request_stops_sure None published (λ _, anything)), _ | done | exact H3 |]. intros [] s4 Hv4 H4.
    eapply sure_then; [by apply finish_run_sure; [apply (holds_stable heap c p0 None published (λ _, anything)), _ |] | done | exact H4 |].
    intros [] s5 Hv5 [H5 H5']. intros s6 Hr Hv6. split; [by eapply (stable_use heap c p0 inactive) |
      by eapply (stable_use heap c p0 (holds None published (λ _, anything)))].
Qed.

(** ** Thread C is gone: [emergency_join_all] *)
#[local] Instance inactive_flag : Flag inactive.
Proof. split; [by intros s s' [= _ _ _ _ _ _ _ Ha] _; unfold inactive; rewrite Ha | apply _]. Qed.

Lemma emergency_spec : spec (holds None (λ _, True) (λ _, anything)) (emergency_join_all heap)
  (λ b s, if b : bool then inactive s ∧ all_recs (λ _, offline) s ∧ settled None s else settled None s).
Proof.
  unfold emergency_join_all. eapply (spec_bind heap c p0 _ _ _ (λ b s, holds None (λ _, True) (λ _, anything) s ∧ (b = false → inactive s))).
  { triple (spec_look heap c p0 _ run_active_ _). by intros s Hv Hh. }
  intros [|]; [triple (spec_ret heap c p0 _ _ _); by intros s _ [[? _] _] |].
  eapply (spec_bind heap c p0 _ _ _ (λ _, holds None inactive (λ _, anything))).
  { triple (spec_locked heap c p0 _ _ _). intros s Hv [(? & _ & ?) Ha]. split; [by destruct Hv | split_and!; [done | by apply Ha | done]]. }
  intros []. eapply spec_bind; [apply request_all_worker_stops_spec, _ |]. intros [].
  eapply (spec_bind heap c p0 _ _ _ (λ _, holds None inactive (λ _, anything))).
  { triple (spec_locked heap c p0 _ _ _). intros s Hv Hh. apply (own_flags heap c p0 None inactive (λ _, anything) s); try done; [apply _ |].
    apply Hv. }
  intros [|]; [triple (spec_ret heap c p0 _ _ _); by intros s _ [? _] |].
  eapply spec_post; [apply join_and_reset_all_spec, _ |]. intros [|] s _; [intros (? & ? & ?); by split_and! | by intros [[? _] _]].
Qed.
End run.

(** ** Construction *)
Definition clean (p : Publication.World) : Prop := ∀ r,
  (∀ i, Publication.locals p !! (r, i) = None) ∧ Publication.published_instance_id (Publication.epochs p r) = 0 ∧
  Publication.registry_at (Publication.publication p) r = None.

Lemma make_inv {F} (heap : nat → FilterContext F) c p : 0 ≤ max_attempts (recovery c) → clean p →
  inv heap c p (make_supervisor c p) ∧ start_of c (make_supervisor c p).
Proof.
  intros Hmax Hp.
  assert (∀ r rec, records_ (make_supervisor c p) !! r = Some rec → rec = new_record) as Hnew
    by by intros r rec [-> _]%lookup_replicate.
  split; [| split; [split_and! |]]; try done.
  - split; try done.
    + apply length_replicate.
    + intros r rec ->%Hnew. split; try done; cbn; try lia; try (by intros [? ?]); try by intros [|].
      intros Hv Hr. unfold is_valid_recovery_config in Hv. rewrite Hr, bool_decide_eq_false_2, bool_decide_eq_true_2 in Hv by done.
      cbn [orb andb] in Hv. bool_hyps. lia.
    + intros _ r rec ->%Hnew. destruct (Hp r) as (Hl & Hid & Hreg). split; cbn; [lia | | by intros [? ?] | by rewrite Hreg].
      intros i. rewrite Hl. by intros [? ?].
    + intros _. constructor.
  - intros _ r rec ->%Hnew _ _. apply Hp.
  - by intros r rec ->%Hnew.
Qed.
