(* ===== verification/SupervisorClaims.v ===== *)
(** * What the supervisor does, in every interleaving

    [start_state]: a configuration with the publication state made for it.  The theorems
    are about all the interleavings [moves] of [run], and of [emergency_join_all] after
    it, with the steps of the workers and of the callers. *)
From stdpp Require Import relations functions.
From S2P Require Import Prelude DomainBlocklist FilterPublication PublicationClaims Concurrency WorkerSupervisor SupervisorInvariant SupervisorThread SupervisorMonitor SupervisorRun.
Import Supervisor.

Section claims.
Context {F : Type}.
Variable heap : nat → FilterContext F.

(** The number of attempts is unsigned, and so are generations. *)
Definition start_state (c : Config) (p : Publication.World) : Prop :=
  0 ≤ max_attempts (recovery c) ∧ (∀ s, 0 ≤ Publication.snap_generation heap s) ∧
  ∃ initial timeout, Publication.make_publication_state heap initial (worker_count c) timeout = Val p.

Lemma start_clean c p : start_state c p → clean p.
Proof.
  intros (_ & _ & initial & timeout & H) r. unfold Publication.make_publication_state in H. destruct initial; [| done].
  case_match; [done |]. injection H as <-. split_and!; [done.. |]. unfold Publication.registry_at. cbn.
  destruct (replicate _ _ !! r) as [e |] eqn:E; [| done]. by apply lookup_replicate in E as [-> _].
Qed.

Definition run_to (c : Config) (p : Publication.World) l (m : M SupervisorRunResult) (s : State) : Prop :=
  moves (external_step heap) l (run heap) (make_supervisor c p) = Some (m, s).

Lemma run_adequate c p l m s : start_state c p → run_to c p l m s → inv heap c p s ∧ wp (inv heap c p) rely m (final c) s.
Proof.
  intros Hst Hl. destruct (make_inv heap c p (proj1 Hst) (start_clean _ _ Hst)) as [Hv Hs].
  eapply (adequacy (external_step heap) (inv heap c p) rely); [| exact Hv | apply run_wp; [apply Hst | exact Hv | exact Hs] | exact Hl].
  intros v s1 s2 Hv1 E. by eapply external_safe.
Qed.

(** The protocol between the supervisor, its workers and the publication state is
    kept.  Thread C never assigns to a joinable thread, never uses a missing instance, and
    every call it makes into the publication state is one that the state allows. *)
Theorem run_defined c p l m s : start_state c p → run_to c p l m s → m ≠ Ret Undef.
Proof.
  intros Hst Hl ->. destruct (run_adequate _ _ _ _ _ Hst Hl) as [Hv H]. apply (H s); [reflexivity | done].
Qed.

(** C20: instances are told apart.  A worker thread is of the current instance of its
    record, which exists, and it is its id that the thread and its observer report with;
    every slot that is published is of that instance.  A worker with an instance has its
    snapshot, a snapshot is of the current instance, and so is the entry of the registry,
    which a worker that is offline or in back-off does not have. *)
Theorem workers_exact c p l m s r rec : start_state c p → run_to c p l m s → records_ s !! r = Some rec →
  (∀ t, current_thread_ rec = Some t →
     is_Some (current_instance_ rec) ∧ thread_instance t = instance_id_ rec ∧ observer_instance_ rec = instance_id_ rec) ∧
  (∀ i x, ready_ rec = Some (i, x) → i = instance_id_ rec) ∧ (∀ i, activated_ rec = Some i → i = instance_id_ rec) ∧
  (∀ i x now, completion_ rec = Some (i, x, now) → i = instance_id_ rec) ∧
  (filter_publication c = true →
     (is_Some (current_instance_ rec) → is_Some (Publication.locals (pub s) !! (r, instance_id_ rec))) ∧
     (∀ i, is_Some (Publication.locals (pub s) !! (r, i)) → i = instance_id_ rec) ∧
     ∀ e, Publication.registry_at (Publication.publication (pub s)) r = Some e →
       e = r ∧ Publication.published_instance_id (Publication.epochs (pub s) r) = instance_id_ rec ∧
       state_ rec ≠ Offline ∧ state_ rec ≠ Backoff).
Proof.
  intros Hst Hl Hr. destruct (run_adequate _ _ _ _ _ Hst Hl) as [Hv _]. destruct (inv_records _ _ _ _ Hv _ _ Hr).
  destruct ok_slots as (? & ? & ?). split_and!; try done.
  - intros t Ht. destruct (ok_thread t Ht) as (? & ? & ? & _). done.
  - intros Hfp. destruct (inv_pub _ _ _ _ Hv Hfp _ _ Hr). done.
Qed.

(** C15: no query is served too early.  A worker that serves has reported that it is ready
    and activated; the start-up has succeeded, the activation was requested and has
    succeeded, and the data plane is released. *)
Theorem serving_released c p l m s r rec t : start_state c p → run_to c p l m s → records_ s !! r = Some rec →
  current_thread_ rec = Some t → pc t = WServing →
  (∃ x, ready_ rec = Some (instance_id_ rec, x) ∧ ready_outcome x = ReadyOutcome) ∧ is_Some (activated_ rec) ∧
  (∃ info, startup_result_ s = Some (inl info)) ∧ activation_requested_ s = true ∧ activation_result_ s = Some (inl ()) ∧
  data_plane_released_ s = true.
Proof.
  intros Hst Hl Hr Ht Hpc. destruct (run_adequate _ _ _ _ _ Hst Hl) as [Hv _]. destruct (inv_records _ _ _ _ Hv _ _ Hr).
  pose proof (ok_pc t Ht) as Hp. rewrite Hpc in Hp. destruct Hp as [[[Hready _] Hact] Hd].
  pose proof (inv_released _ _ _ _ Hv (ok_data_plane Hd)) as Har. destruct (inv_activated _ _ _ _ Hv Har) as [Hsr Hq]. split_and!; auto.
Qed.

(** C23: restarts are bounded.  A worker has at most the configured number of attempts in an
    episode, and its back-off is at most the configured maximum; it is in back-off only
    when the policy is to restart, and only once the data plane is released. *)
Theorem restart_budget c p l m s r rec : start_state c p → run_to c p l m s → records_ s !! r = Some rec →
  0 ≤ recovery_attempts_ rec ≤ max_attempts (recovery c) ∧
  (is_valid_recovery_config (recovery c) = true → policy (recovery c) = Restart → 0 ≤ next_backoff_ rec ≤ max_backoff (recovery c)) ∧
  (recovery_episode_ rec = true → data_plane_released_ s = true) ∧
  (state_ rec = Backoff → recovery_episode_ rec = true ∧ policy (recovery c) = Restart).
Proof.
  intros Hst Hl Hr. destruct (run_adequate _ _ _ _ _ Hst Hl) as [Hv _]. by destruct (inv_records _ _ _ _ Hv _ _ Hr).
Qed.


(** ** The end *)
Lemma act_registry_length a w w' : Publication.act heap a w = Some w' →
  length (Publication.registry_ (Publication.publication w')) = length (Publication.registry_ (Publication.publication w)).
Proof.
  intros H. destruct (publishers_step a) eqn:Ea.
  { pose proof (publishers_shared heap _ _ _ Ea H) as [= _ _ Hr]. by rewrite Hr. }
  destruct a; try done; cbn in H.
  - case_match; [| done]. unfold Publication.register_worker in H. repeat case_match; simplify_eq/=; by rewrite ?length_insert.
  - injection H as <-. unfold Publication.mark_worker_registered. by repeat case_match.
  - unfold Publication.refresh_locked in H. repeat case_match; by simplify_eq/=.
  - unfold Publication.guarded in H. repeat case_match; by simplify_eq/=.
  - case_match; [| done]. injection H as <-. unfold Publication.quiesce_locked. case_match; [| done]. cbn. by rewrite length_insert.
Qed.

Lemma reachable_registry_length w0 w : Publication.reachable heap w0 w →
  length (Publication.registry_ (Publication.publication w)) = length (Publication.registry_ (Publication.publication w0)).
Proof. intros H. induction H as [| w a w' _ IH Ha]; [done |]. by rewrite (act_registry_length _ _ _ Ha). Qed.

Lemma start_registry c p : start_state c p → length (Publication.registry_ (Publication.publication p)) = worker_count c.
Proof.
  intros (_ & _ & initial & timeout & H). unfold Publication.make_publication_state in H. destruct initial; [| done].
  case_match; [done |]. injection H as <-. apply length_replicate.
Qed.

(** C14: the end of the service.  When [emergency_join_all] succeeds after [run], however
    that has ended, every worker is offline, without a thread, an instance or a snapshot;
    and if publication is sealed and the reclaimer has ended, then what is left to reclaim
    can be reclaimed, and the publication state may be destroyed. *)
Theorem service_end c p l o s l' s' : start_state c p → run_to c p l (Ret o) s →
  moves (external_step heap) l' (emergency_join_all heap) s = Some (Ret (Val true), s') →
  (∀ r rec, records_ s' !! r = Some rec → state_ rec = Offline ∧ current_thread_ rec = None ∧ current_instance_ rec = None ∧
     (filter_publication c = true → ∀ i, Publication.locals (pub s') !! (r, i) = None)) ∧
  (filter_publication c = true → Publication.publication_sealed_ (Publication.publication (pub s')) = true →
   Publication.reclaimer_active_ (Publication.retirement (pub s')) = false →
   ∃ w, Publication.emergency_reclaim_converged (pub s') = (true, w) ∧ Publication.may_be_destroyed w = true).
Proof.
  intros Hst Hl Hl'. destruct (run_adequate _ _ _ _ _ Hst Hl) as [Hv H]. specialize (H s ltac:(reflexivity) Hv).
  assert (settled c None s) as Hset by (destruct o as [result | e |]; [apply H.. | done]).
  destruct (adequacy (external_step heap) (inv heap c p) rely l' (emergency_join_all heap) (Ret (Val true))
    (λ o s, match o with Val b => if b : bool then inactive s ∧ all_recs (λ _, offline) s ∧ settled c None s else settled c None s
                       | Err _ => settled c None s | Undef => False end) s s') as [Hv' H'];
    [intros v s1 s2 Hv1 E; by eapply external_safe | exact Hv | | exact Hl' |].
  { apply (emergency_spec heap c p s Hv). by split_and!. }
  destruct (H' s' ltac:(reflexivity) Hv') as (_ & Hall & Hset').
  assert (∀ r rec, records_ s' !! r = Some rec → state_ rec = Offline ∧ current_thread_ rec = None ∧ current_instance_ rec = None) as Hoff.
  { intros r rec Hr. destruct (Hall r rec Hr) as [[Hi Hth] Hst']. rewrite shell_thread_none in Hth. done. }
  split.
  - intros r rec Hr. destruct (Hoff r rec Hr) as (H1 & H2 & H3). split_and!; try done. intros Hfp i.
    destruct (Publication.locals (pub s') !! (r, i)) eqn:E; [| done].
    pose proof (pub_local _ _ _ (inv_pub _ _ _ _ Hv' Hfp _ _ Hr) i ltac:(by eexists)) as ->. by rewrite (Hset' Hfp r rec Hr) in E.
  - intros Hfp Hs Ha. pose proof (inv_reachable _ _ _ _ Hv' Hfp) as Hreach. destruct Hst as (Hmax & Hpos & Hmake).
    destruct (initial_state_inv heap p (pub s')) as (Hpv & _); [| exact Hreach |].
    { destruct Hmake as (initial & timeout & Hmake). split; [done |]. by exists initial, (worker_count c), timeout. }
    apply (quiesced_teardown heap); try done. intros r. destruct (decide (r < worker_count c)%nat) as [Hlt | Hge].
    + destruct (found heap c p s' r Hv' Hlt) as [rec Hr]. destruct (Publication.registry_at _ r) as [e |] eqn:E; [| done].
      destruct (pub_registry _ _ _ (inv_pub _ _ _ _ Hv' Hfp _ _ Hr) _ E) as (_ & _ & Hno & _). by destruct (Hoff r rec Hr).
    + unfold Publication.registry_at. rewrite lookup_ge_None_2; [done |]. rewrite (reachable_registry_length _ _ Hreach).
      rewrite (start_registry c p); [lia | by split_and!].
Qed.

(** ** Workers end *)

(** The steps that a worker asked to stop has left. *)
Definition steps_left (p : WorkerPc) : nat :=
  match p with
  | WDone => 0
  | WCompletion _ => 1
  | WShutdown _ => 2
  | WReportInitError _ | WGateActivation | WGateDataPlane | WServing => 3
  | WReportReady | WReportActivated | WSync ToActivation | WSync ToDataPlane | WSync ToService => 4
  | WSync ToReady => 5
  | WStart => 6
  end.

Lemma steps_left_max p : (steps_left p ≤ 6)%nat.
Proof. destruct p as [| [] | | | | | | | | |]; cbn; lia. Qed.

(** The threads are where they were. *)
Definition same_threads (s s' : State) : Prop := ∀ r rec, records_ s !! r = Some rec →
  ∃ rec', records_ s' !! r = Some rec' ∧ current_thread_ rec' = current_thread_ rec.

#[local] Instance same_threads_preorder : PreOrder same_threads.
Proof.
  split; [intros s r rec Hr; by exists rec |]. intros s1 s2 s3 H1 H2 r rec Hr. destruct (H1 r rec Hr) as (rec2 & Hr2 & E2).
  destruct (H2 r rec2 Hr2) as (rec3 & Hr3 & E3). exists rec3. split; [done | congruence].
Qed.

Lemma same_records s s' : records_ s' = records_ s → same_threads s s'.
Proof. intros E r rec Hr. exists rec. by rewrite E. Qed.

Lemma update_threads r g s : (∀ rec, current_thread_ (g rec) = current_thread_ rec) → same_threads s (update_record r g s).
Proof.
  intros Hg j rec Hj. rewrite update_lookup. destruct (decide (r = j)) as [<- |]; [rewrite Hj | by exists rec].
  eexists. by split; [| apply Hg].
Qed.

Lemma report_ready_threads r i x s : same_threads s (report_worker_ready r i x s).
Proof. unfold report_worker_ready. repeat case_match; try done; by apply update_threads. Qed.
Lemma report_activated_threads r i s : same_threads s (report_worker_activated r i s).
Proof. unfold report_worker_activated. repeat case_match; try done; by apply update_threads. Qed.
Lemma report_completion_threads r i x now s : same_threads s (report_worker_completion r i x now s).
Proof. unfold report_worker_completion. repeat case_match; try done; by apply update_threads. Qed.
Lemma refresh_records r i s : records_ (refresh_filter_snapshot heap r i s).2 = records_ s.
Proof. unfold refresh_filter_snapshot. by destruct (Publication.refresh_locked _ _ _ _ _) as [[[? []] ?] ?]. Qed.

(** Both gates let a worker out that is to stop. *)
Lemma activation_gate_stops r i st s rec : records_ s !! r = Some rec → instance_stop_ rec = true →
  await_worker_activation r i st s = Some GateStop.
Proof. intros Hr Hs. unfold await_worker_activation. rewrite Hr. cbn. by rewrite Hs, !orb_true_r. Qed.
Lemma data_plane_gate_stops r i st s rec : records_ s !! r = Some rec → instance_stop_ rec = true →
  await_worker_data_plane r i st s = Some GateStop.
Proof. intros Hr Hs. unfold await_worker_data_plane. rewrite Hr. cbn. by rewrite Hs, !orb_true_r. Qed.

(** A worker's step, and how far it gets once the stop is requested. *)
Lemma worker_step_goes r ch s s' rec t : records_ s !! r = Some rec → current_thread_ rec = Some t → worker_step heap r ch s = Some s' →
  ∃ p s1, s' = set_pc r p s1 ∧ same_threads s s1 ∧ (instance_stop_ rec = true → steps_left p < steps_left (pc t))%nat.
Proof.
  intros Hr Ht Hs. unfold worker_step in Hs. rewrite Hr in Hs. cbn in Hs. rewrite Ht in Hs. cbn in Hs.
  assert (instance_stop_ rec = true → loop_stop_requested rec = true) as Hl by (unfold loop_stop_requested; by intros ->).
  destruct (pc t) as [| next | | e | | | | | res | res |] eqn:Hpc; try destruct (worker_throws ch);
    try done; try (injection Hs as <-; do 2 eexists; split; [reflexivity |]; split;
      [first [apply report_ready_threads | apply report_activated_threads | apply report_completion_threads | done] |
       by intros _; try destruct next; cbn; lia]).
  - destruct (start_error ch); injection Hs as <-; do 2 eexists; (split; [reflexivity |]); (split; [done |]); intros _; [| case_match]; cbn; lia.
  - destruct (refresh_filter_snapshot heap r (thread_instance t) s) as [ok s1] eqn:E. injection Hs as <-.
    do 2 eexists. split; [reflexivity |]. split; [apply same_records; by rewrite <- (refresh_records r (thread_instance t) s), E |].
    intros _. destruct ok, next; cbn; lia.
  - destruct (await_worker_activation _ _ _ _) as [a |] eqn:E; [| done]. injection Hs as <-. do 2 eexists. split; [reflexivity |].
    split; [done |]. intros Hstop. rewrite (activation_gate_stops _ _ _ _ rec) in E by done. injection E as <-. cbn. lia.
  - destruct (await_worker_data_plane _ _ _ _) as [a |] eqn:E; [| done]. injection Hs as <-. do 2 eexists. split; [reflexivity |].
    split; [done |]. intros Hstop. rewrite (data_plane_gate_stops _ _ _ _ rec) in E by done. injection E as <-. cbn. lia.
  - destruct (service ch).
    + injection Hs as <-. do 2 eexists. split; [reflexivity |]. split; [done |]. intros Hstop. rewrite Hl by done. cbn. lia.
    + injection Hs as <-. do 2 eexists. split; [reflexivity |]. split; [done |]. intros _. cbn. lia.
    + case_match; [| done]. injection Hs as <-. do 2 eexists. split; [reflexivity |]. split; [done |]. intros _. cbn. lia.
Qed.

(** Until it has ended it is never kept waiting. *)
Lemma stopping_never_waits r ch s rec t : records_ s !! r = Some rec → current_thread_ rec = Some t → instance_stop_ rec = true →
  pc t ≠ WDone → is_Some (worker_step heap r ch s).
Proof.
  intros Hr Ht Hstop Hpc. unfold worker_step. rewrite Hr. cbn. rewrite Ht. cbn.
  assert (loop_stop_requested rec = true) as Hl by (unfold loop_stop_requested; by rewrite Hstop).
  destruct (pc t) as [| next | | e | | | | | res | res |]; try done; try destruct (worker_throws ch); try by eexists.
  - destruct (start_error ch); by eexists.
  - destruct (refresh_filter_snapshot _ _ _ _). by eexists.
  - rewrite (activation_gate_stops _ _ _ _ rec) by done. by eexists.
  - rewrite (data_plane_gate_stops _ _ _ _ rec) by done. by eexists.
  - rewrite Hl. destruct (service ch); by eexists.
Qed.

(** What concerns the worker: the steps that are its own. *)
Definition step_of (r : nat) (v : External) : bool := match v with WorkerStep j _ => bool_decide (j = r) | _ => false end.

Lemma set_pc_other r j p s : j ≠ r → records_ (set_pc r p s) !! j = records_ s !! j.
Proof. intros H. unfold set_pc. by rewrite update_lookup, decide_False by done. Qed.

Lemma set_pc_here r p s rec t : records_ s !! r = Some rec → current_thread_ rec = Some t →
  ∃ rec', records_ (set_pc r p s) !! r = Some rec' ∧ current_thread_ rec' = Some (mkThread (thread_instance t) p).
Proof. intros Hr Ht. unfold set_pc. rewrite update_lookup, decide_True, Hr by done. eexists. split; [reflexivity |]. by rewrite Ht. Qed.

(** The steps of the others leave the thread where it is. *)
Lemma other_threads v s s' r rec : step_of r v = false → external_step heap v s = Some s' → records_ s !! r = Some rec →
  ∃ rec', records_ s' !! r = Some rec' ∧ current_thread_ rec' = current_thread_ rec.
Proof.
  intros Hv Hs Hr. destruct v as [j ch | | j | | | | g | | | j | j | | j | a]; cbn in Hv, Hs.
  { apply bool_decide_eq_false in Hv.
    destruct (records_ s !! j) as [x |] eqn:Hj; [| unfold worker_step in Hs; by rewrite Hj in Hs].
    destruct (current_thread_ x) as [t |] eqn:Ht; [| unfold worker_step in Hs; rewrite Hj in Hs; cbn in Hs; by rewrite Ht in Hs].
    destruct (worker_step_goes j ch s s' x t Hj Ht Hs) as (p & s1 & -> & Hsame & _). rewrite set_pc_other by done. by apply Hsame. }
  all: cut (same_threads s s'); [by intros H; apply H |].
  all: try (injection Hs as <-).
  - by apply same_records.
  - case_match; [| done]. injection Hs as <-. by apply update_threads.
  - by apply same_records.
  - unfold request_activation. case_match; [done |]. intros i x Hx. cbn. rewrite list_lookup_fmap. cbn. rewrite Hx. by eexists.
  - unfold release_data_plane. repeat (case_match; try by apply same_records);
      intros i x Hx; cbn; rewrite list_lookup_fmap; cbn; rewrite Hx; by eexists.
  - unfold snapshot_published. repeat case_match; by apply same_records.
  - by apply same_records.
  - by apply same_records.
  - unfold inject_worker_unexpected_stop. repeat case_match; by apply same_records.
  - unfold inject_worker_precommit_failure. repeat (case_match; try done); by apply update_threads.
  - by apply same_records.
  - by apply same_records.
  - case_match; [| done]. destruct (Publication.act heap a (pub s)); [| done]. injection Hs as <-. by apply same_records.
Qed.

Fixpoint others (l : list External) (s : State) : option State :=
  match l with [] => Some s | v :: l => s ← external_step heap v s; others l s end.

(** C22: a worker that is asked to stop ends.  Whatever the others do meanwhile, it is kept
    waiting nowhere, it has at most six steps left, and then its thread can be joined. *)
Theorem stopped_worker_ends c p l m s r rec t vs s' : start_state c p → run_to c p l m s → records_ s !! r = Some rec →
  current_thread_ rec = Some t → instance_stop_ rec = true → others vs s = Some s' →
  ∃ rec' t', records_ s' !! r = Some rec' ∧ current_thread_ rec' = Some t' ∧
    (length (filter (λ v, step_of r v) vs) + steps_left (pc t') ≤ steps_left (pc t) ≤ 6)%nat ∧
    (pc t' ≠ WDone → ∀ ch, is_Some (worker_step heap r ch s')) ∧
    (pc t' = WDone → ∀ e, is_Some (join_thread r e s')).
Proof.
  intros Hst Hl Hr Ht Hstop Hvs. destruct (run_adequate _ _ _ _ _ Hst Hl) as [Hv _]. clear Hl.
  revert s rec t Hv Hr Ht Hstop Hvs. induction vs as [| v vs IH]; intros s rec t Hv Hr Ht Hstop Hvs; cbn in Hvs.
  - injection Hvs as <-. exists rec, t. split_and!; try done.
    + apply steps_left_max.
    + intros Hpc ch. by eapply stopping_never_waits.
    + intros Hpc e. unfold join_thread. rewrite Hr. cbn. rewrite Ht, Hpc. by destruct (join_throws e).
  - destruct (external_step heap v s) as [s1 |] eqn:E1; [| done]. cbn in Hvs. destruct (external_safe heap c p v s s1 Hv E1) as [Hv1 Hrely].
    destruct (rely_records _ _ Hrely _ _ Hr) as (rec1 & Hr1 & _ & Hlater). pose proof (later_stop _ _ Hlater Hstop) as Hstop1.
    destruct (step_of r v) eqn:Ev.
    + destruct v as [j ch | | | | | | | | | | | | |]; try done. apply bool_decide_eq_true in Ev as ->. cbn in E1.
      destruct (worker_step_goes r ch s s1 rec t Hr Ht E1) as (q & s2 & -> & Hsame & Hlt). specialize (Hlt Hstop).
      destruct (Hsame _ _ Hr) as (rec2 & Hr2 & Ht2). rewrite Ht in Ht2.
      destruct (set_pc_here r q s2 rec2 t Hr2 Ht2) as (rec3 & Hr3 & Ht3). rewrite Hr1 in Hr3. injection Hr3 as <-.
      destruct (IH _ rec1 _ Hv1 Hr1 Ht3 Hstop1 Hvs) as (rec' & t' & H1 & H2 & H3 & H4 & H5). exists rec', t'. split_and!; try done.
      * rewrite filter_cons_True by (by cbn; rewrite bool_decide_eq_true_2). cbn [length pc] in *. lia.
      * apply steps_left_max.
    + destruct (other_threads v s s1 r rec Ev E1 Hr) as (rec2 & Hr2 & Ht2). rewrite Hr1 in Hr2. injection Hr2 as <-.
      destruct (IH _ rec1 t Hv1 Hr1 ltac:(congruence) Hstop1 Hvs) as (rec' & t' & H1 & H2 & H3 & H4 & H5). exists rec', t'.
      split_and!; try done; [| apply steps_left_max]. rewrite filter_cons_False by (rewrite Ev; by intros []). apply H3.
Qed.
End claims.

(** ** Concrete instances *)

(** Two workers; a worker that fails is restarted at most twice. *)
Definition sample_hooks : WorkerSupervisorFaultHooks :=
  mkHooks 100 None CreateSocket 0 None 0 None WorkerRuntimeStep.StartScheduler 0.
Definition sample_config : Config :=
  mkConfig 2 0 (Some 2%nat) true (mkRecoveryConfig Restart 2 10 40 1000) sample_hooks true true.

Definition calm (now : Z) : Input := mkInput now (Created 5300) None false (λ _, None).
Definition mine (n : nat) (now : Z) : list (choice Input External) := replicate n (Mine (calm now)).
Definition quiet : WorkerChoice := mkChoice 0 false None SeeStop None.
Definition broken : WorkerChoice := mkChoice 50 false None (ServiceError (mkRuntimeError WorkerRuntimeStep.WaitForEvents 5)) None.
Definition works (n : nat) (r : nat) (ch : WorkerChoice) : list (choice Input External) := replicate n (Others (WorkerStep r ch)).

Definition sample_ready : list (choice Input External) := mine 40 0 ++ works 3 0 quiet ++ works 3 1 quiet ++ mine 30 0.
Definition sample_serving : list (choice Input External) :=
  sample_ready ++ Others RequestActivation :: works 2 0 quiet ++ works 2 1 quiet ++ mine 20 0 ++
  Others ReleaseDataPlane :: works 1 0 quiet ++ works 1 1 quiet.
(** Worker 0 fails, and is in back-off; then it is replaced. *)
Definition sample_backoff : list (choice Input External) := sample_serving ++ works 3 0 broken ++ mine 30 100.
Definition sample_restarted : list (choice Input External) :=
  sample_backoff ++ mine 60 20000000 ++ works 3 0 quiet ++ mine 20 20000000 ++ works 2 0 quiet ++ mine 20 20000000 ++ works 1 0 quiet.
Definition sample_life : list (choice Input External) :=
  sample_restarted ++ Others ServiceStop :: mine 12 20000000 ++ works 3 0 quiet ++ mine 7 20000000 ++ works 3 1 quiet ++ mine 6 20000000.

Lemma sample_started : start_state sample_heap sample_config sample_start.
Proof. split; [done |]. split; [apply sample_initial |]. exists (Some 0%nat), 1000. by vm_compute. Qed.

Definition sample_state (l : list (choice Input External)) : option (M SupervisorRunResult * State) :=
  moves (external_step sample_heap) l (run sample_heap) (make_supervisor sample_config sample_start).
Definition seen_there {A B} (o : option (B * State)) (f : State → option A) : bool :=
  match o with Some (_, s) => match f s with Some _ => true | None => false end | None => false end.

Lemma sample_reaches {A} l (f : State → option A) : seen_there (sample_state l) f = true →
  ∃ m s a, run_to sample_heap sample_config sample_start l m s ∧ f s = Some a.
Proof.
  unfold run_to. fold (sample_state l). destruct (sample_state l) as [[m s] |]; [| done]. cbn. destruct (f s) as [a |] eqn:E; [| done].
  intros _. by exists m, s, a.
Qed.

Lemma run_defined_witness : ∃ m s, run_to sample_heap sample_config sample_start sample_life m s ∧ m ≠ Ret Undef.
Proof.
  destruct (sample_reaches sample_life (λ s, Some s)) as (m & s & a & Hl & _); [vm_compute; reflexivity |].
  exists m, s. split; [exact Hl |]. exact (run_defined sample_heap sample_config sample_start sample_life m s sample_started Hl).
Defined.

Lemma workers_exact_witness : ∃ m s rec, run_to sample_heap sample_config sample_start sample_restarted m s ∧ records_ s !! 0%nat = Some rec ∧
  ∀ t, current_thread_ rec = Some t →
     is_Some (current_instance_ rec) ∧ thread_instance t = instance_id_ rec ∧ observer_instance_ rec = instance_id_ rec.
Proof.
  destruct (sample_reaches sample_restarted (λ s, records_ s !! 0%nat)) as (m & s & rec & Hl & Hr); [vm_compute; reflexivity |].
  exists m, s, rec. split; [exact Hl |]. split; [exact Hr |].
  exact (proj1 (workers_exact sample_heap sample_config sample_start sample_restarted m s 0 rec sample_started Hl Hr)).
Defined.

Definition serving_thread (r : nat) (s : State) : option (WorkerRecord * Thread) :=
  rec ← records_ s !! r; t ← current_thread_ rec; match pc t with WServing => Some (rec, t) | _ => None end.
Lemma serving_thread_spec r s rec t : serving_thread r s = Some (rec, t) →
  records_ s !! r = Some rec ∧ current_thread_ rec = Some t ∧ pc t = WServing.
Proof.
  unfold serving_thread. destruct (records_ s !! r) as [x |]; [| done]. cbn. destruct (current_thread_ x) as [y |] eqn:E; [| done]. cbn.
  destruct (pc y) eqn:Hp; try done. intros [= <- <-]. done.
Qed.

Lemma serving_released_witness : ∃ m s, run_to sample_heap sample_config sample_start sample_serving m s ∧
  activation_result_ s = Some (inl ()) ∧ data_plane_released_ s = true.
Proof.
  destruct (sample_reaches sample_serving (serving_thread 1)) as (m & s & [rec t] & Hl & Hr); [vm_compute; reflexivity |].
  exists m, s. split; [exact Hl |]. destruct (serving_thread_spec 1 s rec t Hr) as (H1 & H2 & H3).
  destruct (serving_released sample_heap sample_config sample_start sample_serving m s 1 rec t sample_started Hl H1 H2 H3)
    as (_ & _ & _ & _ & H4 & H5). exact (conj H4 H5).
Defined.

Lemma restart_budget_witness : ∃ m s rec, run_to sample_heap sample_config sample_start sample_backoff m s ∧ records_ s !! 0%nat = Some rec ∧
  state_ rec = Backoff ∧ next_backoff_ rec = 20 ∧ 0 ≤ recovery_attempts_ rec ≤ 2.
Proof.
  destruct (sample_reaches sample_backoff (λ s, rec ← records_ s !! 0%nat;
    if decide (state_ rec = Backoff ∧ next_backoff_ rec = 20) then Some rec else None)) as (m & s & rec & Hl & Hr); [vm_compute; reflexivity |].
  exists m, s, rec. split; [exact Hl |]. destruct (records_ s !! 0%nat) as [x |] eqn:E; [cbn in Hr | discriminate].
  destruct (decide _) as [[H1 H2] |]; [injection Hr as -> | discriminate]. split; [reflexivity |]. split; [exact H1 |]. split; [exact H2 |].
  exact (proj1 (restart_budget sample_heap sample_config sample_start sample_backoff m s 0 rec sample_started Hl E)).
Defined.

Definition value {A} (m : prog State Input A) : option A := match m in prog _ _ A return option A with Ret a => Some a | _ => None end.
Lemma value_ret {A} (m : prog State Input A) a : value m = Some a → m = Ret a.
Proof. by destruct m; intros [= ->]. Qed.

Definition ends {A C} (o : option (prog State Input A * State)) (f : A → State → option C) : option C :=
  match o with Some (m, s) => match value m with Some a => f a s | None => None end | None => None end.
Lemma ends_spec {A C} (o : option (prog State Input A * State)) (f : A → State → option C) x : ends o f = Some x →
  ∃ a s, o = Some (Ret a, s) ∧ f a s = Some x.
Proof.
  destruct o as [[m s] |]; [| done]. unfold ends. cbn. destruct (value m) as [a |] eqn:E; [| done]. intros H. exists a, s.
  by rewrite (value_ret m a E).
Qed.

Lemma sample_run_to l m s : sample_state l = Some (m, s) → run_to sample_heap sample_config sample_start l m s.
Proof. by unfold run_to, sample_state. Qed.

Definition the_outcome (o : outcome unit SupervisorRunResult) (_ : State) : option SupervisorRunResult := match o with Val r => Some r | _ => None end.


(** After [run] publication is sealed; the reclaimer has never run. *)
Definition sample_end : list (choice Input External) :=
  mine 1 0 ++ Others (Publish Publication.Seal) :: Others (Publish (Publication.Detach 7)) :: mine 20 0.
Definition sample_emergency (s : State) : option (prog State Input (outcome unit bool) * State) :=
  moves (external_step sample_heap) sample_end (emergency_join_all sample_heap) s.
Lemma sample_emergency_moves s x : sample_emergency s = x → moves (external_step sample_heap) sample_end (emergency_join_all sample_heap) s = x.
Proof. done. Qed.
Definition sealed_and_joined (o : outcome unit bool) (s : State) : option unit :=
  match o with
  | Val true => if Publication.publication_sealed_ (Publication.publication (pub s)) &&
                   negb (Publication.reclaimer_active_ (Publication.retirement (pub s))) then Some () else None
  | _ => None
  end.

Lemma service_end_witness : ∃ o s s', run_to sample_heap sample_config sample_start sample_life (Ret o) s ∧
  sample_emergency s = Some (Ret (Val true), s') ∧
  ∃ w, Publication.emergency_reclaim_converged (pub s') = (true, w) ∧ Publication.may_be_destroyed w = true.
Proof.
  set (f := λ (_ : outcome unit SupervisorRunResult) s, ends (sample_emergency s) sealed_and_joined).
  assert (ends (sample_state sample_life) f = Some ()) as H by (vm_compute; reflexivity).
  destruct (ends_spec _ _ _ H) as (o & s & Hl & Hf). clear H. destruct (ends_spec _ _ _ Hf) as (o' & s' & Hl' & Hs').
  apply sample_run_to in Hl. exists o, s, s'. split; [exact Hl |].
  unfold sealed_and_joined in Hs'. destruct o' as [[|] | |]; try discriminate Hs'. split; [exact Hl' |].
  destruct (Publication.publication_sealed_ (Publication.publication (pub s'))) eqn:E1; [| discriminate Hs'].
  destruct (Publication.reclaimer_active_ (Publication.retirement (pub s'))) eqn:E2; [discriminate Hs' |].
  exact (proj2 (service_end sample_heap sample_config sample_start sample_life o s sample_end s' sample_started Hl
    (sample_emergency_moves s _ Hl')) eq_refl E1 E2).
Defined.

(** Worker 1 is asked to stop while it serves. *)
Definition sample_stopping : list (choice Input External) := sample_restarted ++ Others ServiceStop :: mine 11 20000000.
Definition sample_leaves : list External := [WorkerStep 1 quiet; RequestStop; WorkerStep 1 quiet; SnapshotPublished 7; WorkerStep 1 quiet].
Definition stopping_thread (s : State) : option (WorkerRecord * Thread * State) :=
  match serving_thread 1 s, others sample_heap sample_leaves s with
  | Some (rec, t), Some s' => if instance_stop_ rec then Some (rec, t, s') else None
  | _, _ => None
  end.

Lemma stopped_worker_ends_witness : ∃ m s s' rec' t', run_to sample_heap sample_config sample_start sample_stopping m s ∧
  others sample_heap sample_leaves s = Some s' ∧ records_ s' !! 1%nat = Some rec' ∧ current_thread_ rec' = Some t' ∧
  (3 + steps_left (pc t') ≤ 6)%nat.
Proof.
  destruct (sample_reaches sample_stopping stopping_thread) as (m & s & [[rec t] s'] & Hl & Hf); [vm_compute; reflexivity |].
  unfold stopping_thread in Hf. destruct (serving_thread 1 s) as [[x y] |] eqn:E; [| discriminate Hf].
  destruct (others sample_heap sample_leaves s) as [z |] eqn:Ev; [| discriminate Hf].
  destruct (instance_stop_ x) eqn:Es; [| discriminate Hf]. injection Hf as -> -> ->.
  destruct (serving_thread_spec 1 s rec t E) as (H1 & H2 & H3).
  destruct (stopped_worker_ends sample_heap sample_config sample_start sample_stopping m s 1 rec t sample_leaves s' sample_started Hl H1 H2 Es Ev)
    as (rec' & t' & R1 & R2 & [R3 R4] & _ & _).
  exists m, s, s', rec', t'. split; [exact Hl |]. split; [exact Ev |]. split; [exact R1 |]. split; [exact R2 |].
  exact (Nat.le_trans _ _ _ R3 R4).
Defined.
