(* ===== verification/ChannelEffects.v ===== *)
(** * What the channel does to its runtime

    Beyond [chan_ok] of [UpstreamChannel]: which timers the operations of the channel arm and
    disarm, which tasks they schedule, that they count no invariant failure, and that the IDs
    in quarantine stay in the order of their times. *)
From stdpp Require Import sorting.
From S2P Require Import Prelude DnsMessage DnsParser DnsWriter DnsQuery UpstreamChannel.
From Stdlib Require Import Strings.Byte.
Import Upstream.

(** ** The order of the quarantine *)
Definition retired_le (a b : RetiredId) : Prop := retired_before a b = true.

Lemma retired_le_iff a b : retired_le a b ↔ reusable_at a < reusable_at b ∨ reusable_at a = reusable_at b ∧ retired_id a ≤ retired_id b.
Proof. unfold retired_le, retired_before. rewrite orb_true_iff, andb_true_iff, Z.ltb_lt, Z.eqb_eq, Z.leb_le. done. Qed.

Definition quarantine_ok (l : list RetiredId) : Prop := StronglySorted retired_le l.

Lemma push_retired_ok r l : quarantine_ok l → quarantine_ok (push_retired r l).
Proof.
  unfold quarantine_ok. induction l as [| x l IH]; intros Hl; cbn [push_retired]; [by repeat constructor |].
  apply StronglySorted_cons in Hl as [Hx Hl]. destruct (retired_before r x) eqn:E.
  - apply StronglySorted_cons. split; [| by apply StronglySorted_cons]. constructor; [done |].
    eapply Forall_impl; [| exact Hx]. intros y Hy. change (retired_le r x) in E. rewrite retired_le_iff in *. lia.
  - apply StronglySorted_cons. split; [| by apply IH]. rewrite list.Forall_forall in *. intros y [-> | Hy]%push_retired_in; [| by apply Hx].
    apply not_true_iff_false in E. change (¬ retired_le r x) in E. rewrite retired_le_iff in *. lia.
Qed.

Lemma StronglySorted_sublist {A} (R : A → A → Prop) l l' : l' `sublist_of` l → StronglySorted R l → StronglySorted R l'.
Proof.
  induction 1 as [| x l' l Hs IH | x l' l Hs IH]; intros Hl; [done | |]; apply StronglySorted_cons in Hl as [Hx Hl]; [| by apply IH].
  apply StronglySorted_cons. split; [| by apply IH]. rewrite list.Forall_forall in *. intros y Hy. apply Hx. by eapply elem_of_sublist.
Qed.

Lemma quarantine_sorted l : quarantine_ok l → is_sorted l = true.
Proof.
  unfold quarantine_ok. induction l as [| x [| y l] IH]; intros Hl; [done.. |]. apply StronglySorted_cons in Hl as [Hx Hl].
  change (retired_before x y && is_sorted (y :: l) = true). apply andb_true_iff. split; [by apply Forall_cons_iff in Hx as [? _] | by apply IH].
Qed.

Section effects.
Context {RT : Type} `{Runtime RT}.
Context (engine_next : Z → Z * Z).
Notation World := (World RT).

(** No invariant failure has been counted, and the quarantine is in order. *)
Definition no_failures (w : World) : Prop := stats_ (chan w) invariant_failures = 0 ∧ quarantine_ok (retired_ids_ (chan w)).

(** The runtime once the timer of [q] has been disarmed, if it is armed. *)
Definition disarmed (q : nat) (rt : RT) : RT := if rt_armed rt q then (rt_disarm rt q).2 else rt.

Lemma disarm_query_effect q (w : World) : timers_ (life_ (chan w)) = true → disarm_query q w = set_runtime (disarmed q (runtime w)) w.
Proof.
  intros Ht. unfold disarm_query, disarmed. rewrite Ht, andb_true_r. destruct (rt_armed (runtime w) q) eqn:E; [| by destruct w].
  pose proof (rt_disarm_spec (runtime w) q) as Hd. destruct (rt_disarm (runtime w) q) as [ok rt]. destruct Hd as [Hd _]. by rewrite Hd.
Qed.

Lemma release_quarantine id now quarantine c :
  quarantine_ok (retired_ids_ c) → quarantine_ok (retired_ids_ (release_id engine_next id now quarantine c)).
Proof.
  intros Hq. unfold release_id. destruct (_ || _); [done |]. destruct (_ || _).
  - by destruct (insert_free_id_spec engine_next id (set_states (<[id:=IdFree]> (id_states_ c)) c)) as (l & e & -> & _).
  - by apply push_retired_ok.
Qed.

Lemma release_keeps_failures c P id now quarantine : pool_ok c ({[id]} ∪ P) →
  stats_ (release_id engine_next id now quarantine c) = stats_ c.
Proof. intros Hp. apply (release_rest engine_next c P id now quarantine Hp). Qed.

Lemma pool_with_slot (w : World) id q : chan_ok w → slots_ (chan w) !! id = Some q →
  pool_ok (chan w) ({[id]} ∪ dom (delete id (slots_ (chan w)))).
Proof.
  intros Hok Hs. replace ({[id]} ∪ dom (delete id (slots_ (chan w)))) with (dom (slots_ (chan w))); [apply Hok |].
  rewrite dom_delete_L. apply set_eq. intros i. destruct (decide (i = id)) as [-> |]; [| set_solver].
  split; [set_solver |]. intros _. by apply elem_of_dom_2 in Hs.
Qed.

Lemma detach_effect q id now w : chan_ok w → slots_ (chan w) !! id = Some q → timers_ (life_ (chan w)) = true → no_failures w →
  runtime (detach engine_next q id now w) = disarmed q (runtime w) ∧ no_failures (detach engine_next q id now w).
Proof.
  intros Hok Hs Ht [H1 H2]. unfold detach, no_failures. rewrite disarm_query_effect by done. split; [done |].
  cbn [chan set_chan set_runtime runtime]. split; [| by apply release_quarantine].
  rewrite (release_keeps_failures _ (dom (delete id (slots_ (chan w))))); [done |].
  by apply (pool_with_slot w id q) in Hs as [? ? ? ? ? ? ?].
Qed.

(** [finish] on a query in flight whose task can be scheduled. *)
Lemma finish_effect q out resp err now w a id task rt : chan_ok w → no_failures w → awaiters w !! q = Some a → pending_as a id →
  task_ a = Some task → running_ (life_ (chan w)) = true → rt_schedule (disarmed q (runtime w)) task = (true, rt) →
  ∃ w', finish engine_next q out resp err now w = Val (true, w') ∧ chan_ok w' ∧ no_failures w' ∧ runtime w' = rt ∧
    awaiters w' = <[q := completed_as a out resp err]> (awaiters w) ∧ slots_ (chan w') = delete id (slots_ (chan w)) ∧
    config_ (chan w') = config_ (chan w) ∧ life_ (chan w') = life_ (chan w).
Proof.
  intros Hok Hf Ha Hp Htask Hrun Hsch. destruct (co_life _ Hok Hrun) as [Hsc Htm].
  destruct (finish_spec engine_next q out resp err now w a Hok Ha) as (ok & w' & E & Hok' & Hc & Hl & _ & Hd).
  pose proof Hp as (Ho & Hst & Hid & _). rewrite Ho, (bool_decide_eq_true_2 _ Hst) in Hd. destruct Hd as (Haw & Hsl & _). rewrite Hid in Hsl.
  assert (slots_ (chan w) !! id = Some q) as Hslot by (apply (co_slot _ Hok); eauto).
  destruct (detach_effect q id now w Hok Hslot Htm Hf) as [Hrt [Hf1 Hf2]].
  assert (life_ (chan (detach engine_next q id now w)) = life_ (chan w)) as Hl2 by apply (detach_spec engine_next q id now w Hok Hslot).
  assert (ok = true ∧ runtime w' = rt ∧ no_failures w') as (-> & Hrt' & Hf'); [| by exists w'].
  revert E. unfold finish. rewrite Ha. cbn [from_option_ub mbind outcome_bind]. rewrite Ho, Hid, (bool_decide_eq_true_2 _ Hst).
  assert (id_state (chan w) id = IdPending) as Hids by (apply (po_pending _ _ (co_pool _ Hok)), elem_of_dom; eauto).
  rewrite (pool_in_capacity _ _ _ (co_pool _ Hok)) by congruence. rewrite (bool_decide_eq_true_2 _ Hslot). cbn [negb orb].
  fold (detach engine_next q id now w). revert Hrt Hf1 Hf2 Hl2. generalize (detach engine_next q id now w). intros wd Hrt Hf1 Hf2 Hl2.
  rewrite Htask. set (w3 := match outcome_counter out with Some k => _ | None => _ end).
  assert (runtime w3 = runtime wd ∧ life_ (chan w3) = life_ (chan wd) ∧ no_failures w3) as (H1 & H2 & H3).
  { subst w3. unfold no_failures. by destruct out. }
  rewrite H2, Hl2, Hsc, H1, Hrt, Hsch. cbn [negb]. intros [= <- <-]. done.
Qed.

Lemma outcome_not_failure out k : outcome_counter out = Some k → k ≠ invariant_failures.
Proof. by destruct out; intros [= <-]. Qed.

(** [begin]: the timer of a query in flight is armed; the timers are as before otherwise. *)
Definition begin_effect (q task : nat) (a : QueryAwaiter) (w : World) (r : BeginResult) (w' : World) : Prop :=
  no_failures w' ∧ life_ (chan w') = life_ (chan w) ∧
  match r with
  | BeginSuspended => rt_arm (runtime w) q (deadline_ a) = (Armed, runtime w') ∧
      ∃ b, awaiters w' !! q = Some b ∧ task_ b = Some task ∧ deadline_ b = deadline_ a
  | _ => runtime w' = runtime w ∨ ∃ rt, (rt_arm (runtime w) q (deadline_ a)).2 = rt ∧ runtime w' = disarmed q rt
  end.

Lemma allocate_loop_retired l c : retired_ids_ (allocate_loop l c).2 = retired_ids_ c.
Proof. revert c. induction l as [| id l IH]; intros c; cbn [allocate_loop]; [done |]. case_match; [by rewrite IH | done]. Qed.

Lemma allocate_effect now (w : World) : chan_ok w → no_failures w →
  let c := (allocate_id engine_next now (chan w)).2 in
  stats_ c invariant_failures = 0 ∧ quarantine_ok (retired_ids_ c).
Proof.
  intros Hok [H1 H2] c. pose proof (allocate_id_spec engine_next now (chan w) _ (co_pool _ Hok) (reflexivity _)) as Ha.
  destruct (reclaim_loop_spec engine_next (retired_ids_ (chan w)) now (chan w) _ (co_pool _ Hok) (reflexivity _) eq_refl) as (_ & _ & Hsub & _).
  split.
  - subst c. destruct (allocate_id engine_next now (chan w)) as [r c]. destruct Ha as ((_ & _ & _ & _ & Hst) & _). cbn. by rewrite Hst.
  - subst c. unfold allocate_id. rewrite allocate_loop_retired. by eapply StronglySorted_sublist.
Qed.

Lemma rollback_effect q now w a id : chan_ok w → no_failures w → awaiters w !! q = Some a → pending_as a id → running_ (life_ (chan w)) = true →
  ∃ w', rollback_begin engine_next q now w = Val w' ∧ no_failures w' ∧ runtime w' = disarmed q (runtime w) ∧ life_ (chan w') = life_ (chan w).
Proof.
  intros Hok [H1 H2] Ha Hp Hrun. destruct (co_life _ Hok Hrun) as [_ Htm]. unfold rollback_begin, disarmed. rewrite Htm, andb_true_r.
  set (w0 := if rt_armed _ _ then _ else w).
  assert (chan w0 = chan w ∧ awaiters w0 = awaiters w ∧ runtime w0 = if rt_armed (runtime w) q then (rt_disarm (runtime w) q).2 else runtime w)
    as (Hc & Haw & Hrt) by (subst w0; by destruct (rt_armed _ _)).
  rewrite Haw, Ha, Hc. cbn [from_option_ub mbind outcome_bind]. destruct Hp as (Ho & Hst & Hid & Ht). rewrite Hid.
  assert (slots_ (chan w) !! id = Some q) as Hslot by (apply (co_slot _ Hok); exists a; by split_and!).
  assert (id_state (chan w) id = IdPending) as Hids by (apply (po_pending _ _ (co_pool _ Hok)), elem_of_dom; eauto).
  rewrite (pool_in_capacity _ _ _ (co_pool _ Hok)) by congruence. rewrite (bool_decide_eq_true_2 _ Hslot). cbn [andb].
  eexists. split; [done |]. unfold no_failures. cbn [chan set_chan set_awaiter runtime].
  assert (pool_ok (set_slots (delete id (slots_ (chan w))) (pending_count_ (chan w) - 1) (chan w)) ({[id]} ∪ dom (delete id (slots_ (chan w))))) as Hpool.
  { by apply (pool_with_slot w id q) in Hslot as [? ? ? ? ? ? ?]. }
  split_and!; [| by apply release_quarantine | done |].
  - by rewrite (release_keeps_failures _ _ _ _ _ Hpool).
  - by destruct (release_rest engine_next _ _ id now false Hpool) as (_ & _ & _ & -> & _).
Qed.

Lemma begin_has_effect q task send now now' thread w a r w' : chan_ok w → no_failures w → awaiters w !! q = Some a → state_ a ≠ Pending →
  begin engine_next q task true send now now' thread w = Val (r, w') → begin_effect q task a w r w'.
Proof.
  intros Hok Hf Ha Hst. unfold begin.
  assert (∀ r0, r0 ≠ BeginSuspended → (Val (r0, w) : outcome Empty_set _) = Val (r, w') → begin_effect q task a w r w') as Hsame.
  { intros r0 Hr [= <- <-]. unfold begin_effect. split_and!; [done.. |]. destruct r0; by try left. }
  destruct (negb (running_ _) || _) eqn:Hrun; [by apply Hsame |].
  apply orb_false_iff in Hrun as [Hrun _]. apply negb_false_iff in Hrun.
  destruct (negb (on_owner_thread thread (chan w))); [by apply Hsame |]. destruct (_ || _); [by apply Hsame |]. clear Hsame.
  rewrite Ha. cbn [from_option_ub mbind outcome_bind].
  pose proof (allocate_id_spec engine_next now (chan w) _ (co_pool _ Hok) (reflexivity _)) as Halloc.
  pose proof (allocate_effect now w Hok Hf) as Heff. pose proof Hok as Hok0.
  destruct (allocate_id engine_next now (chan w)) as [[id |] c1]; cbn [snd] in Heff; destruct Heff as [Hf1 Hf2].
  2: { destruct Halloc as ((_ & _ & _ & Hl & _) & _). intros [= <- <-]. unfold begin_effect, no_failures. split_and!; [done.. | by left]. }
  destruct Halloc as ((Hsl & Hcfg & Hpc & Hl & Hs) & _ & Hid & _ & Hp & _).
  destruct (serialize_query _ _ _) as [wire | e |]; [| | done].
  2: { intros [= <- <-]. unfold begin_effect, no_failures. cbn [chan set_chan runtime]. rewrite (release_keeps_failures _ _ _ _ _ Hp).
       split_and!; [done | by apply release_quarantine | | by left].
       destruct (release_rest engine_next c1 _ id now false Hp) as (_ & _ & _ & -> & _). done. }
  cbn [chan set_chan awaiters set_awaiter runtime].
  set (b := mkQueryAwaiter true (Some task) _ _ _ _ id Pending). set (w1 := set_chan (set_slots _ _ _) (set_awaiter q b _)).
  assert (chan_ok w1) as Hok1.
  { eapply (insert_slot_ok q id a b w w1 Hok Ha Hst); cbn [chan set_chan awaiters set_awaiter w1 slots_ set_slots config_ life_ pending_count_];
      [by split_and! | done | | congruence | done | done | congruence | done]. by destruct Hp. }
  destruct (rt_arm (runtime w) q (deadline_ a)) as [armed rt] eqn:Earm. set (w2 := set_runtime rt w1).
  assert (chan_ok w2) as Hok2 by (by apply (same_core_ok w1)).
  assert (awaiters w2 !! q = Some b) as Hb by (cbn; by rewrite lookup_insert_eq).
  assert (no_failures w2) as Hf3 by (by split).
  assert (life_ (chan w2) = life_ (chan w)) as Hl2 by exact Hl.
  destruct (rollback_effect q now' w2 b id Hok2 Hf3 Hb) as (w3 & E3 & Hf4 & Hrt3 & Hl3); [by split_and! | by rewrite Hl2 |].
  assert (∀ r0 w4, no_failures w4 → runtime w4 = runtime w3 → life_ (chan w4) = life_ (chan w3) → r0 ≠ BeginSuspended →
    (Val (r0, w4) : outcome Empty_set _) = Val (r, w') → begin_effect q task a w r w') as Hback.
  { intros r0 w4 Hf5 Hrt4 Hl4 Hr [= <- <-]. unfold begin_effect. split_and!; [done | congruence |].
    destruct r0; try done; right; exists rt; rewrite Earm; (split; [done |]); by rewrite Hrt4, Hrt3. }
  unfold begin_effect in Hback. destruct armed; [| rewrite E3; by apply Hback..].
  destruct (send wire) as [sent errno]. destruct (negb _).
  - rewrite E3. cbn [mbind outcome_bind]. destruct (awaiters w3 !! q) as [b3 |]; [| done]. cbn [from_option_ub outcome_bind].
    intros Hr. by eapply Hback; [.. | exact Hr].
  - intros [= <- <-]. split_and!; [done.. |]. exists b. by split_and!.
Qed.
End effects.
