(* ===== verification/WorkerRuntime.v ===== *)
(** * The event loop of a worker ([WorkerLoop::run], [shutdown_runtime])

    Module [Reactor]: the data path of [WorkerLoop], the channel of [UpstreamChannel], timers
    and scheduler together on one thread.  Timers are the list in deadline order that
    [TimerQueue] implements ([TimerClaims.timer_queue_refines]); the scheduler is its ready
    queue, first-in first-out ([SchedulerClaims.ready_queue_fifo]), and the list of roots;
    every task is a [process_datagram], named like its awaiter.  A task runs without
    interruption up to its [co_await].

    A turn of the loop takes what it finds outside: clock readings, results of system
    calls, the refresh of the filter snapshot.  [stop_] counts the polls until the worker is
    stopped, [forward_] those until the scheduler has seen it.  No step lets an exception
    leave a task or nests [run_ready], so that the counters of the scheduler stay 0 and are
    left out. *)
From Stdlib Require Import Strings.Byte.
From S2P Require Import Prelude DnsMessage DnsCache CuckooFilter DomainBlocklist UpstreamChannel TimerQueue TimerClaims WorkerLoop FilterPublication Concurrency WorkerSupervisor.

Module Reactor.

(** ** Timers and scheduler *)
Inductive TimersState := TimersIdle | TimersRunning (accepting : bool) (armed : list Entry).

(** [sched_stop]: the stop source of the scheduler. *)
Record Engine := mkEngine {
  timers : TimersState;
  sched_running : bool;
  sched_accepting : bool;
  sched_stop : bool;
  ready_tasks : list nat;
}.

Definition set_timers (t : TimersState) (e : Engine) : Engine :=
  mkEngine t (sched_running e) (sched_accepting e) (sched_stop e) (ready_tasks e).
Definition set_ready (l : list nat) (e : Engine) : Engine :=
  mkEngine (timers e) (sched_running e) (sched_accepting e) (sched_stop e) l.
Definition set_modes (running accepting stop : bool) (e : Engine) : Engine :=
  mkEngine (timers e) running accepting stop (ready_tasks e).

Definition armed (e : Engine) : list Entry := match timers e with TimersRunning _ l => l | TimersIdle => [] end.
Definition set_armed (l : list Entry) (e : Engine) : Engine :=
  match timers e with TimersRunning accepting _ => set_timers (TimersRunning accepting l) e | TimersIdle => e end.

(** The registration of an awaiter has its name; its callback is [deadline_complete]. *)
Definition deadline_callback : nat := 0.
Definition arm (e : Engine) (q : nat) (deadline : Z) : Upstream.ArmResult * Engine :=
  match timers e with
  | TimersIdle => (Upstream.ArmFailed, e)
  | TimersRunning false _ => (Upstream.ArmClosed, e)
  | TimersRunning true l =>
      match abs_arm (mkEntry q deadline (Some deadline_callback) (Some q)) l with
      | (Timers.Armed, l) => (Upstream.Armed, set_armed l e)
      | _ => (Upstream.ArmFailed, e)
      end
  end.
Definition disarm (e : Engine) (q : nat) : bool * Engine :=
  let '(ok, l) := abs_disarm q (armed e) in (ok, set_armed l e).

(** [Scheduler::schedule] of a suspended task. *)
Definition schedule (e : Engine) (task : nat) : bool * Engine :=
  if sched_running e && negb (bool_decide (task ∈ ready_tasks e)) then (true, set_ready (ready_tasks e ++ [task]) e) else (false, e).

Definition is_armed (e : Engine) (q : nat) : bool := bool_decide (q ∈ entry_id <$> armed e).

Lemma elem_of_abs_insert x l p : p ∈ entry_id <$> abs_insert x l ↔ p = entry_id x ∨ p ∈ entry_id <$> l.
Proof. induction l as [| y l IH]; cbn [abs_insert]; [set_solver |]. case_match; set_solver. Qed.

Lemma armed_set_armed l e : armed (set_armed l e) = match timers e with TimersRunning _ _ => l | TimersIdle => [] end.
Proof. unfold set_armed, armed. destruct (timers e) eqn:E; [by rewrite E | done]. Qed.

#[export, refine] Instance engine_runtime : Upstream.Runtime Engine := {|
  Upstream.rt_bound e := match timers e with TimersRunning _ _ => true | TimersIdle => false end;
  Upstream.rt_arm := arm;
  Upstream.rt_disarm := disarm;
  Upstream.rt_schedule := schedule;
  Upstream.rt_armed := is_armed;
|}.
Proof.
  - intros e q d. unfold arm, is_armed. destruct (timers e) as [| [] l] eqn:Et; [done | | done]. unfold abs_arm.
    destruct (bool_decide _); [done |]. cbn [entry_callback]. rewrite bool_decide_false by done. intros p.
    rewrite armed_set_armed, Et, <- bool_decide_or. apply bool_decide_ext. rewrite elem_of_abs_insert. unfold armed. by rewrite Et.
  - intros e q. unfold disarm, is_armed, abs_disarm. split; [done |]. intros p. rewrite armed_set_armed, <- bool_decide_not, <- bool_decide_and.
    apply bool_decide_ext. unfold armed. destruct (timers e) as [| b l]; [set_solver |]. rewrite !list_elem_of_fmap.
    setoid_rewrite list_elem_of_filter. naive_solver.
  - intros e q p. unfold schedule. by destruct (_ && _).
Defined.

(** ** The state *)

(** A task that has not begun, or one that waits for its query. *)
Inductive Coroutine := Starting (d : Worker.ClientDatagram) | Querying (s : Worker.Suspended).

(** What epoll has reported and is not yet worked off; [listener_pending_] is in [loop]. *)
Record PendingEvents := mkPending {
  generation_pending_ : bool;
  upstream_pending_ : bool;
  upstream_error_pending_ : bool;
  upstream_hangup_pending_ : bool;
}.

(** What the observer has been told. *)
Inductive Report := FilterProgress | ReadyReport (r : Supervisor.WorkerReadyResult) | ActivatedReport.

(** [roots]: the tasks of the scheduler, the latest first.  [listener_open],
    [upstream_open]: whether [listen_fd_] and [upstream_fd_] hold a descriptor.  [reports]:
    the calls of the observer, if there is one. *)
Record Reactor (F : Type) := mkReactor {
  loop : Worker.WorkerLoop F;
  net : Upstream.World Engine;
  coroutines : gmap nat Coroutine;
  roots : list nat;
  next_task : nat;
  stop_ : StopToken;
  forward_ : StopToken;
  pending : PendingEvents;
  timer_failures_ : Z;
  listener_open : bool;
  upstream_open : bool;
  reports : option (list Report);
}.
Arguments mkReactor {F} _ _ _ _ _ _ _ _ _ _ _ _.
Arguments loop {F} _.
Arguments net {F} _.
Arguments coroutines {F} _.
Arguments roots {F} _.
Arguments next_task {F} _.
Arguments stop_ {F} _.
Arguments forward_ {F} _.
Arguments pending {F} _.
Arguments timer_failures_ {F} _.
Arguments listener_open {F} _.
Arguments upstream_open {F} _.
Arguments reports {F} _.

(** What a task finds: the clock at its cache lookup, its query, the start of the query and
    its roll-back, and the insertion into the cache; the results of [::sendto] and of
    [::send]. *)
Record TaskInput := mkTaskInput {
  get_clock : Z;
  query_clock : Z;
  begin_clock : Z;
  rollback_clock : Z;
  put_clock : Z;
  sent : Z;
  send : list byte → Z * Z;
}.

Inductive EpollEvent := ListenerEvent | WakeEvent | GenerationEvent | UpstreamEvent (error hangup : bool).

(** What a turn finds.  [refresh]: the result of [refresh_worker_snapshot] and the snapshot
    that the worker then has.  [socket_error]: [SO_ERROR], or [errno] when it cannot be read. *)
Record Turn (F : Type) := mkTurn {
  wait_clock : Z;
  wait_result : list EpollEvent + Z;
  refresh : bool * option (FilterContext F);
  listener_input : list Worker.ListenerEvent;
  upstream_input : list Upstream.RecvEvent;
  drain_clock : Z;
  socket_error : Z;
  fail_clock : Z;
  expire_clock : Z;
  completion_clock : Z;
  task_input : nat → TaskInput;
}.
Arguments mkTurn {F} _ _ _ _ _ _ _ _ _ _ _.
Arguments wait_clock {F} _.
Arguments wait_result {F} _.
Arguments refresh {F} _.
Arguments listener_input {F} _.
Arguments upstream_input {F} _.
Arguments drain_clock {F} _.
Arguments socket_error {F} _.
Arguments fail_clock {F} _.
Arguments expire_clock {F} _.
Arguments completion_clock {F} _.
Arguments task_input {F} _.

Definition kUpstreamReceiveBudget : nat := 64.
Definition kTimerBudget : nat := 64.
Definition kReadyBudget : nat := 64.
Definition kShutdownResumeBudget : nat := 4096.
Definition ECONNRESET : Z := 104.
(** The size of the array of events. *)
Definition kEventBudget : nat := 64.

(** The members of [ChannelConfig] as they are initialised; durations in nanoseconds. *)
Definition default_channel_config : Upstream.ChannelConfig := Upstream.mkChannelConfig (2 * nanos) (4 * nanos) 65536 0 true.

Section reactor.
Context {F : Type} `{Prefilter F}.
(** The random engine of the channel, and the thread of the worker. *)
Context (engine_next : Z → Z * Z) (me : Z).
Notation Reactor := (Reactor F).
Notation World := (Upstream.World Engine).

Definition set_loop (w : Worker.WorkerLoop F) (r : Reactor) : Reactor :=
  mkReactor w (net r) (coroutines r) (roots r) (next_task r) (stop_ r) (forward_ r) (pending r) (timer_failures_ r) (listener_open r) (upstream_open r) (reports r).
Definition set_net (n : World) (r : Reactor) : Reactor :=
  mkReactor (loop r) n (coroutines r) (roots r) (next_task r) (stop_ r) (forward_ r) (pending r) (timer_failures_ r) (listener_open r) (upstream_open r) (reports r).
Definition set_tasks (m : gmap nat Coroutine) (l : list nat) (n : nat) (r : Reactor) : Reactor :=
  mkReactor (loop r) (net r) m l n (stop_ r) (forward_ r) (pending r) (timer_failures_ r) (listener_open r) (upstream_open r) (reports r).
Definition set_stops (stop forward : StopToken) (r : Reactor) : Reactor :=
  mkReactor (loop r) (net r) (coroutines r) (roots r) (next_task r) stop forward (pending r) (timer_failures_ r) (listener_open r) (upstream_open r) (reports r).
Definition set_pending (p : PendingEvents) (r : Reactor) : Reactor :=
  mkReactor (loop r) (net r) (coroutines r) (roots r) (next_task r) (stop_ r) (forward_ r) p (timer_failures_ r) (listener_open r) (upstream_open r) (reports r).
Definition set_failures (n : Z) (r : Reactor) : Reactor :=
  mkReactor (loop r) (net r) (coroutines r) (roots r) (next_task r) (stop_ r) (forward_ r) (pending r) n (listener_open r) (upstream_open r) (reports r).
Definition set_sockets (listener upstream : bool) (r : Reactor) : Reactor :=
  mkReactor (loop r) (net r) (coroutines r) (roots r) (next_task r) (stop_ r) (forward_ r) (pending r) (timer_failures_ r) listener upstream (reports r).

Definition report (x : Report) (r : Reactor) : Reactor :=
  mkReactor (loop r) (net r) (coroutines r) (roots r) (next_task r) (stop_ r) (forward_ r) (pending r) (timer_failures_ r)
    (listener_open r) (upstream_open r) ((λ l, l ++ [x]) <$> reports r).

Definition engine (r : Reactor) : Engine := Upstream.runtime (net r).
Definition set_engine (e : Engine) (r : Reactor) : Reactor := set_net (Upstream.set_runtime e (net r)) r.

Definition set_snapshot (f : option (FilterContext F)) (w : Worker.WorkerLoop F) : Worker.WorkerLoop F :=
  Worker.mkWorkerLoop (Worker.cache_shard_ w) f (Worker.upstream_usable_ w) (Worker.listener_pending_ w) (Worker.stats_ w) (Worker.outbox w).
Definition set_usable (b : bool) (w : Worker.WorkerLoop F) : Worker.WorkerLoop F :=
  Worker.mkWorkerLoop (Worker.cache_shard_ w) (Worker.local_filter_snapshot_ w) b (Worker.listener_pending_ w) (Worker.stats_ w) (Worker.outbox w).
Definition set_stats (f : Worker.WorkerStat → Z) (w : Worker.WorkerLoop F) : Worker.WorkerLoop F :=
  Worker.mkWorkerLoop (Worker.cache_shard_ w) (Worker.local_filter_snapshot_ w) (Worker.upstream_usable_ w) (Worker.listener_pending_ w) f (Worker.outbox w).

(** A poll of the token of the worker. *)
Definition poll (r : Reactor) : bool * Reactor := let '(b, t) := stop_requested (stop_ r) in (b, set_stops t (forward_ r) r).

(** [Scheduler::observe_external_stop]. *)
Definition observe (r : Reactor) : Reactor :=
  let '(b, t) := stop_requested (forward_ r) in
  let r := set_stops (stop_ r) t r in
  if b then set_engine (set_modes (sched_running (engine r)) false true (engine r)) r else r.

(** ** Tasks *)

(** [Scheduler::spawn] of [process_datagram]. *)
Definition spawn (d : Worker.ClientDatagram) (r : Reactor) : bool * Reactor :=
  if negb (sched_running (engine r)) then (false, r)
  else
    let r := observe r in
    if negb (sched_accepting (engine r)) || sched_stop (engine r) then (false, r)
    else
      let task := next_task r in
      let r := set_tasks (<[task := Starting d]> (coroutines r)) (task :: roots r) (S task) r in
      let '(ok, e) := schedule (engine r) task in
      (ok, set_engine e r).

(** [finish_root]: the frame of a task that is done is destroyed. *)
Definition finish_task (task : nat) (r : Reactor) : Reactor :=
  set_tasks (delete task (coroutines r)) (filter (λ t, t ≠ task) (roots r)) (next_task r) r.

(** The destructor of an awaiter. *)
Definition drop_awaiter (task : nat) (now : Z) (n : World) : total World :=
  n ← Upstream.abandon engine_next task now n;
  Val (Upstream.mkWorld (Upstream.chan n) (delete task (Upstream.awaiters n)) (Upstream.runtime n)).

(** From [await_resume] to the end of the task. *)
Definition resume_query (i : TaskInput) (task : nat) (s : Worker.Suspended) (r : Reactor) : total Reactor :=
  a ← from_option_ub (Upstream.awaiters (net r) !! task);
  n ← drop_awaiter task (rollback_clock i) (net r);
  w ← Worker.resume_datagram s (Upstream.await_resume a) (sched_stop (engine r)) (put_clock i) (sent i) (loop r);
  Val (finish_task task (set_net n (set_loop w r))).

(** [co_await upstream_channel_.query(...)]. *)
Definition await_query (i : TaskInput) (task : nat) (s : Worker.Suspended) (r : Reactor) : total Reactor :=
  let a := Upstream.query (Upstream.chan (net r)) (header (Worker.sus_request s)) (Worker.sus_question s) (query_clock i) in
  let r := observe (set_net (Upstream.set_awaiter task a (net r)) r) in
  '(stays, n) ← Upstream.await_suspend engine_next task task true (sched_stop (engine r))
                  (Upstream.scheduler_ (Upstream.life_ (Upstream.chan (net r)))) (send i) (begin_clock i) (rollback_clock i) me (net r);
  let r := set_net n r in
  if (stays : bool) then Val (set_tasks (<[task := Querying s]> (coroutines r)) (roots r) (next_task r) r)
  else resume_query i task s r.

(** One resumption of a task by [run_ready]. *)
Definition run_task (i : TaskInput) (task : nat) (r : Reactor) : total Reactor :=
  c ← from_option_ub (coroutines r !! task);
  match c with
  | Starting d =>
      let r := observe r in
      let stop := sched_stop (engine r) in
      p ← Worker.process_datagram d stop stop (get_clock i) (sent i) (loop r);
      match p with
      | Worker.Finished w => Val (finish_task task (set_loop w r))
      | Worker.AwaitUpstream w s => await_query i task s (set_loop w r)
      end
  | Querying s => resume_query i task s r
  end.

(** The loop of [run_ready], and how many tasks it has resumed. *)
Fixpoint run_tasks (input : nat → TaskInput) (budget resumed : nat) (r : Reactor) : total (nat * Reactor) :=
  match budget, ready_tasks (engine r) with
  | S budget, task :: rest =>
      r ← run_task (input resumed) task (set_engine (set_ready rest (engine r)) r);
      run_tasks input budget (S resumed) r
  | _, _ => Val (resumed, r)
  end.
Definition run_ready (input : nat → TaskInput) (budget resumed : nat) (r : Reactor) : total (nat * Reactor) :=
  if sched_running (engine r) then run_tasks input budget resumed (observe r) else Val (resumed, r).

(** ** Timers *)

(** A timer is taken out of the queue and its callback called; the number of callbacks
    that have failed. *)
Definition complete_first (completion : Upstream.TimerCompletion) (now : Z) (x : Entry) (l : list Entry) (failures : Z) (n : World)
    : total (Z * World) :=
  '(ok, n) ← Upstream.deadline_complete engine_next (entry_id x) completion now (Upstream.set_runtime (set_armed l (Upstream.runtime n)) n);
  Val (if (ok : bool) then failures else failures + 1, n).

(** [TimerQueue::expire]. *)
Fixpoint expire (budget : nat) (now clock failures : Z) (n : World) : total (Z * World) :=
  match budget, armed (Upstream.runtime n) with
  | S budget, x :: l =>
      if due now x
      then '(failures, n) ← complete_first Upstream.TimerExpired clock x l failures n; expire budget now clock failures n
      else Val (failures, n)
  | _, _ => Val (failures, n)
  end.

(** [TimerQueue::cancel_all]; a turn takes one timer. *)
Fixpoint cancel_timers (fuel : nat) (clock failures : Z) (n : World) : total (Z * World) :=
  match armed (Upstream.runtime n) with
  | [] => Val (failures, n)
  | x :: l =>
      match fuel with
      | O => Undef
      | S fuel => '(failures, n) ← complete_first Upstream.TimerCancelled clock x l failures n; cancel_timers fuel clock failures n
      end
  end.

(** [wait_timeout] looks at the first timer alone. *)
Definition first_timer (l : list Entry) : Timers.State (E := unit) :=
  match l with
  | [] => Timers.mkState Timers.TimerQueue_init ∅ ()
  | x :: _ =>
      Timers.mkState (Timers.with_heap [entry_id x] Timers.TimerQueue_init)
        {[entry_id x := Timers.mkReg (Some 0%nat) (entry_deadline x) 0 (Some 0%nat) (entry_callback x) (entry_context x)]} ()
  end.
Definition wait_time (now : Z) (r : Reactor) : outcome Timers.Terminated Z :=
  if Worker.listener_pending_ (loop r) || upstream_pending_ (pending r) || negb (bool_decide (ready_tasks (engine r) = []))
  then Val 0 else Timers.wait_timeout now (first_timer (armed (engine r))).

(** ** A turn of the loop *)
Definition note_event (r : Reactor) (v : EpollEvent) : Reactor :=
  let p := pending r in
  match v with
  | WakeEvent => r
  | GenerationEvent =>
      set_pending (mkPending true (upstream_pending_ p) (upstream_error_pending_ p) (upstream_hangup_pending_ p)) r
  | ListenerEvent => set_loop (Worker.set_pending true (loop r)) r
  | UpstreamEvent error hangup =>
      set_pending (mkPending (generation_pending_ p) true (upstream_error_pending_ p || error) (upstream_hangup_pending_ p || hangup)) r
  end.

(** [refresh_filter_snapshot] and the report of its success; [false]: the snapshot cannot be
    refreshed. *)
Definition refresh_snapshot (refreshed : bool * option (FilterContext F)) (r : Reactor) : bool * Reactor :=
  let r := set_loop (set_snapshot refreshed.2 (loop r)) r in
  (refreshed.1, if refreshed.1 then report FilterProgress r else r).

Definition refresh_filter (i : Turn F) (r : Reactor) : bool * Reactor :=
  let p := pending r in
  if generation_pending_ p then
    let r := set_pending (mkPending false (upstream_pending_ p) (upstream_error_pending_ p) (upstream_hangup_pending_ p)) r in
    refresh_snapshot (refresh i) r
  else (true, r).

Definition drain_listener (i : Turn F) (r : Reactor) : Reactor :=
  if Worker.listener_pending_ (loop r) then
    let '(t, r, w) := Worker.drain_listener spawn (listener_input i) (stop_ r) r (loop r) in
    set_stops t (forward_ r) (set_loop w r)
  else r.

Definition drain_upstream (i : Turn F) (r : Reactor) : total Reactor :=
  let p := pending r in
  if upstream_pending_ p then
    '(d, n) ← Upstream.drain engine_next (upstream_input i) kUpstreamReceiveBudget (drain_clock i) me (net r);
    Val (set_pending (mkPending (generation_pending_ p) (Upstream.has_more d) (upstream_error_pending_ p) (upstream_hangup_pending_ p))
           (set_net n r))
  else Val r.

Definition handle_socket_error (i : Turn F) (r : Reactor) : total Reactor :=
  let p := pending r in
  if upstream_error_pending_ p || upstream_hangup_pending_ p then
    let hangup := upstream_hangup_pending_ p in
    let e := if (socket_error i =? 0) && hangup then ECONNRESET else socket_error i in
    let r := set_pending (mkPending (generation_pending_ p) (upstream_pending_ p) false false) r in
    n ← (if e =? 0 then Val (net r)
         else '(_, n) ← Upstream.fail_all engine_next Upstream.SocketError e (fail_clock i) me (net r); Val n);
    let r := set_net n r in
    Val (if hangup
         then set_sockets (listener_open r) false
                (set_pending (mkPending (generation_pending_ p) false false false) (set_loop (set_usable false (loop r)) r))
         else r)
  else Val r.

Definition runtime_invariants_hold (r : Reactor) : bool :=
  (timer_failures_ r =? 0) && (Upstream.stats_ (Upstream.chan (net r)) Upstream.invariant_failures =? 0).

(** The turn after [epoll_wait]; the result, if it ends the loop. *)
Definition serve (i : Turn F) (r : Reactor) : total (option Supervisor.WorkerRunResult * Reactor) :=
  let '(ok, r) := refresh_filter i r in
  if negb ok then Val (Some (Supervisor.fatal_exit Supervisor.WorkerRuntimeStep.SynchronizeFilter 0), r)
  else
    r ← drain_upstream i (drain_listener i r);
    r ← handle_socket_error i r;
    '(failures, n) ← expire kTimerBudget (expire_clock i) (completion_clock i) 0 (net r);
    let r := set_failures (timer_failures_ r + failures) (set_net n r) in
    '(_, r) ← run_ready (task_input i) kReadyBudget 0 r;
    if negb (failures =? 0) || negb (runtime_invariants_hold r)
    then Val (Some (Supervisor.fatal_exit Supervisor.WorkerRuntimeStep.RuntimeInvariant 0), r)
    else Val (None, r).

(** The loop has been left without a result. *)
Definition loop_result (r : Reactor) : Supervisor.WorkerRunResult * Reactor :=
  let '(stop, r) := poll r in
  (if stop then Supervisor.requested_stop else Supervisor.fatal_exit Supervisor.WorkerRuntimeStep.UnhandledException 0, r).

(** The loop, one input for each turn; [None]: the inputs are used up. *)
Fixpoint run_loop (turns : list (Turn F)) (r : Reactor) : total (option Supervisor.WorkerRunResult * Reactor) :=
  match turns with
  | [] => Val (None, r)
  | i :: turns =>
      let '(stop, r) := poll r in
      if stop then let '(result, r) := loop_result r in Val (Some result, r)
      else
        match wait_time (wait_clock i) r, wait_result i with
        | Val _, inr errno =>
            if errno =? Upstream.EINTR then run_loop turns r
            else Val (Some (Supervisor.fatal_exit Supervisor.WorkerRuntimeStep.WaitForEvents errno), r)
        | Val _, inl events =>
            let r := foldl note_event r (take kEventBudget events) in
            let '(stop, r) := poll r in
            if stop then let '(result, r) := loop_result r in Val (Some result, r)
            else
              '(result, r) ← serve i r;
              match result with Some result => Val (Some result, r) | None => run_loop turns r end
        | _, _ => Undef
        end
  end.

(** ** The end *)

(** [Scheduler::shutdown], with its calls of [run_ready]. *)
Fixpoint shutdown_loop (fuel : nat) (input : nat → TaskInput) (resume_budget resumed : nat) (r : Reactor) : total Reactor :=
  if sched_running (engine r) && (resumed <? resume_budget)%nat && negb (bool_decide (ready_tasks (engine r) = [])) then
    match fuel with
    | O => Undef
    | S fuel =>
        '(resumed', r) ← run_ready input (resume_budget - resumed) resumed r;
        if (resumed' =? resumed)%nat then Val r else shutdown_loop fuel input resume_budget resumed' r
    end
  else Val r.

(** [destroy_roots]: the frames that are left, with their awaiters. *)
Fixpoint destroy_tasks (tasks : list nat) (clock : Z) (r : Reactor) : total Reactor :=
  match tasks with
  | [] => Val r
  | task :: tasks =>
      c ← from_option_ub (coroutines r !! task);
      n ← (match c with Starting _ => Val (net r) | Querying _ => drop_awaiter task clock (net r) end);
      destroy_tasks tasks clock (finish_task task (set_net n r))
  end.

Definition shutdown_scheduler (input : nat → TaskInput) (clock : Z) (r : Reactor) : total Reactor :=
  let r := set_engine (set_modes (sched_running (engine r)) false true (engine r)) r in
  r ← shutdown_loop (S kShutdownResumeBudget) input kShutdownResumeBudget 0 r;
  if sched_running (engine r) then
    r ← destroy_tasks (roots r) clock (set_engine (set_ready [] (engine r)) r);
    Val (set_engine (set_modes false false (sched_stop (engine r)) (engine r)) r)
  else Val r.

(** [TimerQueue::close] and [stop], on the thread of the worker. *)
Definition close_timers (e : Engine) : bool * Engine :=
  (true, match timers e with TimersRunning _ l => set_timers (TimersRunning false l) e | TimersIdle => e end).
Definition stop_timers (e : Engine) : bool * Engine :=
  match armed e with [] => (true, set_timers TimersIdle e) | _ => (false, e) end.

(** [shutdown_runtime]: whether everything was in order. *)
Definition shutdown_runtime (input : nat → TaskInput) (clock : Z) (r : Reactor) : total (bool * Reactor) :=
  let r := set_engine (set_modes (sched_running (engine r)) false (sched_stop (engine r)) (engine r)) r in
  let '(channel_closed, n) := Upstream.close me (net r) in
  let '(timers_closed, e) := close_timers (Upstream.runtime n) in
  '(_, n) ← Upstream.cancel_all engine_next clock me (Upstream.set_runtime e n);
  '(failures, n) ← cancel_timers (length (armed (Upstream.runtime n))) clock 0 n;
  r ← shutdown_scheduler input clock (set_failures (timer_failures_ r + failures) (set_net n r));
  let '(channel_stopped, n) := Upstream.stop me (net r) in
  let '(timers_stopped, e) := stop_timers (Upstream.runtime n) in
  Val (channel_closed && timers_closed && (failures =? 0) && channel_stopped && timers_stopped, set_net (Upstream.set_runtime e n) r).

(** [capture_runtime_stats]. *)
Definition upstream_counter (k : Worker.WorkerStat) : option Upstream.ChannelCounter :=
  match k with
  | Worker.upstream_queries => Some Upstream.queries_sent
  | Worker.upstream_responses => Some Upstream.responses_completed
  | Worker.upstream_timeouts => Some Upstream.timeouts
  | Worker.upstream_cancellations => Some Upstream.cancellations
  | Worker.upstream_send_errors => Some Upstream.send_errors
  | Worker.upstream_socket_errors => Some Upstream.socket_errors
  | Worker.upstream_overloaded => Some Upstream.overloaded
  | Worker.upstream_invalid_responses => Some Upstream.invalid_responses
  | Worker.upstream_unmatched_responses => Some Upstream.unmatched_responses
  | _ => None
  end.
Definition capture_runtime_stats (r : Reactor) : Reactor :=
  let stats := Upstream.stats_ (Upstream.chan (net r)) in
  set_loop (set_stats (λ k, match upstream_counter k, k with
                            | Some c, _ => stats c
                            | None, Worker.internal_errors => Worker.stats_ (loop r) k + (timer_failures_ r + stats Upstream.invariant_failures)
                            | None, _ => Worker.stats_ (loop r) k
                            end) (loop r)) r.

(** [run] once it has a result. *)
Definition finish_run (input : nat → TaskInput) (clock : Z) (result : Supervisor.WorkerRunResult) (r : Reactor)
    : total (Supervisor.WorkerRunResult * Reactor) :=
  let r := set_sockets false (upstream_open r) r in
  '(clean, r) ← shutdown_runtime input clock r;
  let r := capture_runtime_stats r in
  let result := match Supervisor.run_outcome result with
                | Supervisor.WorkerRunOutcome.FatalExit => result
                | Supervisor.WorkerRunOutcome.RequestedStop =>
                    if negb (runtime_invariants_hold r) then Supervisor.fatal_exit Supervisor.WorkerRuntimeStep.RuntimeInvariant 0
                    else if negb clean then Supervisor.fatal_exit Supervisor.WorkerRuntimeStep.Shutdown 0
                    else result
                end in
  Val (result, r).

(** ** The start *)

(** [Scheduler::start] and [TimerQueue::start]. *)
Definition start_scheduler (r : Reactor) : bool * Reactor :=
  let e := engine r in
  if sched_running e || negb (bool_decide (ready_tasks e = [])) || negb (bool_decide (roots r = [])) then (false, r)
  else
    let r := observe (set_engine (set_modes true (sched_accepting e) false e) r) in
    (true, set_engine (set_modes true (negb (sched_stop (engine r))) (sched_stop (engine r)) (engine r)) r).
Definition start_timers (r : Reactor) : bool * Reactor :=
  match timers (engine r) with
  | TimersIdle => (true, set_failures 0 (set_engine (set_timers (TimersRunning true []) (engine r)) r))
  | TimersRunning _ _ => (false, r)
  end.

Record StartInput := mkStartInput {
  upstream_fd : Z;
  channel_config : Upstream.ChannelConfig;
  stale_input : list (option Z);
  seed : Z;
  start_clock : Z;
  first_refresh : bool * option (FilterContext F);
}.

(** [fatal_exit] and the report of it. *)
Definition start_failed (step : Supervisor.WorkerRuntimeStep.t) (r : Reactor) : option Supervisor.WorkerRunResult * Reactor :=
  (Some (Supervisor.fatal_exit step 0),
   report (ReadyReport (Supervisor.mkReadyResult Supervisor.InitErrorOutcome (Some (Supervisor.mkRuntimeError step 0)))) r).

(** The start of the runtime, up to the readiness. *)
Definition start_runtime (shuffle : Z → list Z → list Z * Z) (i : StartInput) (r : Reactor) : option Supervisor.WorkerRunResult * Reactor :=
  let '(ok, r) := start_scheduler r in
  if negb ok then start_failed Supervisor.WorkerRuntimeStep.StartScheduler r
  else
    let '(ok, r) := start_timers r in
    if negb ok then start_failed Supervisor.WorkerRuntimeStep.StartTimerQueue r
    else
      let '(ok, n) := Upstream.start engine_next shuffle (upstream_fd i) true (channel_config i) (stale_input i) (seed i) (start_clock i) me (net r) in
      let r := set_net n r in
      if negb ok then start_failed Supervisor.WorkerRuntimeStep.StartUpstreamChannel r
      else
        let '(ok, r) := refresh_snapshot (first_refresh i) r in
        if ok then (None, report (ReadyReport (Supervisor.mkReadyResult Supervisor.ReadyOutcome None)) r)
        else start_failed Supervisor.WorkerRuntimeStep.SynchronizeFilter r.

(** The two gates of an observer, one after the other, with what each [RefreshFilter] finds. *)
Inductive Gate := Waiting | Ended (result : Supervisor.WorkerRunResult) | Opened.

Fixpoint pass_gates (past_activation : bool) (actions : list (Supervisor.GateAction * (bool * option (FilterContext F)))) (r : Reactor)
    : Gate * Reactor :=
  match actions with
  | [] => (Waiting, r)
  | (Supervisor.RefreshFilter, refreshed) :: actions =>
      let '(ok, r) := refresh_snapshot refreshed r in
      if ok then pass_gates past_activation actions r
      else (Ended (Supervisor.fatal_exit Supervisor.WorkerRuntimeStep.SynchronizeFilter 0), r)
  | (Supervisor.GateStop, _) :: _ =>
      let '(stop, r) := poll r in
      (Ended (if stop then Supervisor.requested_stop else Supervisor.fatal_exit Supervisor.WorkerRuntimeStep.AwaitActivation 0), r)
  | (Supervisor.GateProceed, _) :: actions =>
      let '(stop, r) := poll r in
      if stop then (Ended Supervisor.requested_stop, r)
      else if past_activation then (Opened, r)
      else pass_gates true actions (report ActivatedReport r)
  end.

(** Without an observer the worker is active at once. *)
Definition await_activation (actions : list (Supervisor.GateAction * (bool * option (FilterContext F)))) (r : Reactor) : Gate * Reactor :=
  match reports r with
  | Some _ => pass_gates false actions r
  | None => let '(stop, r) := poll r in (if stop then Ended Supervisor.requested_stop else Opened, r)
  end.

(** [run] up to its result; [None]: the worker still waits or serves. *)
Definition run_body (shuffle : Z → list Z → list Z * Z) (i : StartInput) (actions : list (Supervisor.GateAction * (bool * option (FilterContext F))))
    (turns : list (Turn F)) (r : Reactor) : total (option Supervisor.WorkerRunResult * Reactor) :=
  let '(failed, r) := start_runtime shuffle i r in
  match failed with
  | Some result => Val (Some result, r)
  | None =>
      let '(gate, r) := await_activation actions r in
      match gate with
      | Waiting => Val (None, r)
      | Ended result => Val (Some result, r)
      | Opened => run_loop turns r
      end
  end.

(** [run]. *)
Definition run (shuffle : Z → list Z → list Z * Z) (i : StartInput) (actions : list (Supervisor.GateAction * (bool * option (FilterContext F))))
    (turns : list (Turn F)) (input : nat → TaskInput) (clock : Z) (r : Reactor) : total (option Supervisor.WorkerRunResult * Reactor) :=
  '(result, r) ← run_body shuffle i actions turns r;
  match result with
  | None => Val (None, r)
  | Some result => '(result, r) ← finish_run input clock result r; Val (Some result, r)
  end.

(** The worker that [create] returns; its token and the one of its scheduler, and whether
    [run] gets an observer. *)
Definition new_reactor (w : Worker.WorkerLoop F) (stop forward : StopToken) (observed : bool) : Reactor :=
  mkReactor w (Upstream.mkWorld (Upstream.mkChannel ∅ ∅ [] [] 0 default_channel_config (λ _, 0) 0 (Upstream.mkLifecycle false false None (-1) false false false))
                 ∅ (mkEngine TimersIdle false false false []))
    ∅ [] 0 stop forward (mkPending false false false false) 0 true true (if observed then Some [] else None).
End reactor.
Arguments StartInput F : clear implicits.
End Reactor.
