(* ===== verification/RuntimeInvariant.v ===== *)
(** * The invariant of the event loop

    [net_ok]: channel, timers and ready queue agree: a query is in flight exactly when its
    timer is armed, and then its task is not in the ready queue.  [settles]: what completing
    queries does: the tasks of the queries that are completed become ready. *)
From stdpp Require Import sorting relations.
From Stdlib Require Import Strings.Byte.
From S2P Require Import Prelude DomainName DnsMessage DnsParser DnsWriter DnsQuery DnsCache CuckooFilter DomainBlocklist UpstreamChannel ChannelEffects TimerQueue TimerClaims WorkerLoop WorkerClaims FilterPublication Concurrency WorkerSupervisor WorkerRuntime.
Import Upstream Reactor.

Lemma filter_all {A} (P : A → Prop) `{∀ x, Decision (P x)} (l : list A) : (∀ x, x ∈ l → P x) → filter P l = l.
Proof.
  induction l as [| x l IH]; intros Hl; [done |]. rewrite filter_cons_True by (apply Hl; by left). f_equal. apply IH. intros y Hy. apply Hl. by right.
Qed.

Section channel.
Context (engine_next : Z → Z * Z) (me : Z).
Notation World := (World Engine).

Definition in_flight (n : World) (q : nat) : Prop := ∃ a id, awaiters n !! q = Some a ∧ pending_as a id.
(** A result that is delivered to a client fits. *)
Definition completed (a : QueryAwaiter) : Prop :=
  owner_ a = false ∧ state_ a = Done ∧
  (result_outcome (result_ a) = Response → response (result_ a) ≠ [] ∧ (length (response (result_ a)) ≤ kUpstreamReceiveBufferSize)%nat).

Definition by_deadline (x y : Entry) : Prop := entry_deadline x ≤ entry_deadline y.

(** [late]: the query whose timer has just been taken out of the queue. *)
Record net_ok (late : option nat) (n : World) : Prop := {
  no_chan : chan_ok n;
  no_quiet : no_failures n;
  no_running : running_ (life_ (chan n)) = true;
  no_thread : owner_thread_ (life_ (chan n)) = Some me;
  no_timers : timers (runtime n) ≠ TimersIdle;
  no_names : NoDup (entry_id <$> armed (runtime n));
  no_order : StronglySorted by_deadline (armed (runtime n));
  no_armed q : q ∈ entry_id <$> armed (runtime n) ↔ in_flight n q ∧ late ≠ Some q;
  no_deadline x a : x ∈ armed (runtime n) → awaiters n !! entry_id x = Some a → deadline_ a = entry_deadline x;
  no_task q a id : awaiters n !! q = Some a → pending_as a id → task_ a = Some q;
  no_sched : sched_running (runtime n) = true;
  no_ready : NoDup (ready_tasks (runtime n));
  no_waiting q : in_flight n q → q ∉ ready_tasks (runtime n);
}.

(** What the completion of queries leaves alone. *)
Definition modes (e : Engine) : bool * bool * bool := (sched_running e, sched_accepting e, sched_stop e).
Definition timers_accept (e : Engine) : bool := match timers e with TimersRunning b _ => b | TimersIdle => false end.

Record settles (n n' : World) : Prop := {
  se_dom : dom (awaiters n') = dom (awaiters n);
  se_awaiter q a : awaiters n !! q = Some a →
    awaiters n' !! q = Some a ∧ (q ∈ ready_tasks (runtime n') ↔ q ∈ ready_tasks (runtime n)) ∨
    in_flight n q ∧ q ∈ ready_tasks (runtime n') ∧ ∃ a', awaiters n' !! q = Some a' ∧ completed a';
  se_other q : q ∉ dom (awaiters n) → q ∈ ready_tasks (runtime n') ↔ q ∈ ready_tasks (runtime n);
  se_modes : modes (runtime n') = modes (runtime n);
  se_accept : timers_accept (runtime n') = timers_accept (runtime n);
  se_config : config_ (chan n') = config_ (chan n);
  se_life : life_ (chan n') = life_ (chan n);
}.

Lemma settles_refl n : settles n n.
Proof. split; try done. intros q a Ha. by left. Qed.

Lemma completed_not_flying n q a : awaiters n !! q = Some a → completed a → ¬ in_flight n q.
Proof. intros Ha (Ho & _) (b & id & Hb & Ho' & _). rewrite Ha in Hb. injection Hb as <-. congruence. Qed.

Lemma settles_trans n1 n2 n3 : settles n1 n2 → settles n2 n3 → settles n1 n3.
Proof.
  intros [D1 A1 O1 M1 T1 C1 L1] [D2 A2 O2 M2 T2 C2 L2]. split; try congruence.
  - intros q a Ha. destruct (A1 q a Ha) as [[Ha' Hr] | (Hf & Hr & a' & Ha' & Hc)].
    + destruct (A2 q a Ha') as [[Ha2 Hr2] | ((b & id & Hb & Hp) & Hr2 & H2)]; [left; split; [done | by rewrite Hr2] |].
      right. split_and!; try done. exists b, id. rewrite Ha' in Hb. by injection Hb as ->.
    + right. split; [done |]. destruct (A2 q a' Ha') as [[Ha2 Hr2] | (Hf2 & _)]; [| by apply (completed_not_flying n2 q a') in Hf2].
      split; [by rewrite Hr2 |]. by exists a'.
  - intros q Hq. rewrite O2 by (by rewrite D1). by apply O1.
Qed.

Lemma armed_set l e : timers e ≠ TimersIdle → armed (set_armed l e) = l.
Proof. intros Ht. rewrite armed_set_armed. by destruct (timers e). Qed.

Lemma disarmed_engine q e : timers e ≠ TimersIdle →
  ∃ l, disarmed q e = set_armed l e ∧ l = filter (λ x, entry_id x ≠ q) (armed e).
Proof.
  intros Ht. unfold disarmed. cbn [rt_armed engine_runtime rt_disarm]. unfold is_armed, disarm, abs_disarm.
  destruct (bool_decide _) eqn:E; [by eexists |]. apply bool_decide_eq_false in E. eexists. split; [| done].
  rewrite filter_all.
  - unfold set_armed, armed. destruct e as [[| b l] ? ? ? ?]; done.
  - intros x Hx Hq. apply E. rewrite <- Hq. by apply list_elem_of_fmap_2.
Qed.

Lemma schedule_engine l q e : sched_running e = true → q ∉ ready_tasks e →
  schedule (set_armed l e) q = (true, set_ready (ready_tasks e ++ [q]) (set_armed l e)).
Proof.
  intros Hr Hq. unfold schedule.
  replace (ready_tasks (set_armed l e)) with (ready_tasks e) by (unfold set_armed; by destruct (timers e)).
  replace (sched_running (set_armed l e)) with (sched_running e) by (unfold set_armed; by destruct (timers e)).
  by rewrite Hr, bool_decide_false.
Qed.

(** A query is completed. *)
Lemma completed_net late n n' q a id a' l : net_ok late n → late = None ∨ late = Some q →
  awaiters n !! q = Some a → pending_as a id → completed a' → chan_ok n' → no_failures n' → config_ (chan n') = config_ (chan n) →
  life_ (chan n') = life_ (chan n) → awaiters n' = <[q := a']> (awaiters n) → l = filter (λ x, entry_id x ≠ q) (armed (runtime n)) →
  runtime n' = set_ready (ready_tasks (runtime n) ++ [q]) (set_armed l (runtime n)) →
  net_ok None n' ∧ settles n n' ∧ armed (runtime n') = l.
Proof.
  intros N Hlate Ha Hp Hc Hok Hq Hcfg Hl Haw -> Hrt.
  assert (in_flight n q) as Hfly by (by exists a, id).
  pose proof (no_waiting _ _ N q Hfly) as Hnr.
  set (l := filter _ _) in *.
  assert (armed (runtime n') = l) as Harm.
  { rewrite Hrt. pose proof (armed_set l (runtime n) (no_timers _ _ N)) as E. exact E. }
  assert (ready_tasks (runtime n') = ready_tasks (runtime n) ++ [q]) as Hready by (by rewrite Hrt).
  assert (∀ p, in_flight n' p ↔ in_flight n p ∧ p ≠ q) as Hflying.
  { intros p. unfold in_flight. rewrite Haw. destruct (decide (p = q)) as [-> | Hne].
    - split; [| naive_solver]. intros (b & i & Hb & Hb' & _). rewrite lookup_insert_eq in Hb. injection Hb as <-. destruct Hc; congruence.
    - rewrite lookup_insert_ne by done. naive_solver. }
  split_and!; [| | done].
  - split; rewrite ?Harm, ?Hready, ?Hl, ?Hcfg; try done; try apply N.
    + rewrite Hrt. cbn [timers set_ready]. pose proof (no_timers _ _ N). unfold set_armed. by destruct (timers (runtime n)) eqn:E; rewrite ?E.
    + eapply sublist_NoDup; [apply (no_names _ _ N) |]. apply fmap_sublist, sublist_filter.
    + eapply StronglySorted_sublist; [apply sublist_filter | apply N].
    + intros p. rewrite Hflying. transitivity (p ∈ entry_id <$> armed (runtime n) ∧ p ≠ q).
      * unfold l. rewrite !list_elem_of_fmap. setoid_rewrite list_elem_of_filter. naive_solver.
      * rewrite (no_armed _ _ N). destruct Hlate as [-> | ->]; naive_solver.
    + intros x b Hx. apply list_elem_of_filter in Hx as [Hne Hx]. rewrite Haw, lookup_insert_ne by done. by apply (no_deadline _ _ N).
    + intros p b i Hb Hpb. rewrite Haw in Hb. apply lookup_insert_Some in Hb as [[<- <-] | [_ Hb]]; [destruct Hc, Hpb; congruence |].
      by eapply (no_task _ _ N).
    + rewrite Hrt. cbn. unfold set_armed. pose proof (no_sched _ _ N). by destruct (timers (runtime n)).
    + apply list.NoDup_app. split_and!; [apply N | set_solver | apply NoDup_singleton].
    + intros p [Hf Hne]%Hflying. pose proof (no_waiting _ _ N p Hf). set_solver.
  - split; try done.
    + rewrite Haw, dom_insert_L. apply elem_of_dom_2 in Ha. set_solver.
    + intros p b Hb. rewrite Haw, Hready. destruct (decide (p = q)) as [-> | Hne].
      * right. split_and!; [done | set_solver |]. exists a'. by rewrite lookup_insert_eq.
      * left. rewrite lookup_insert_ne by done. split; [done | set_solver].
    + intros p Hd. rewrite Hready. apply elem_of_dom_2 in Ha. set_solver.
    + rewrite Hrt. cbn. unfold set_armed. by destruct (timers (runtime n)).
    + rewrite Hrt. unfold timers_accept. cbn. unfold set_armed. by destruct (timers (runtime n)) eqn:E; rewrite ?E.
Qed.

Lemma completed_as_ok a out resp err : (out = Response → resp ≠ [] ∧ (length resp ≤ kUpstreamReceiveBufferSize)%nat) →
  completed (completed_as a out resp err).
Proof. by intros H; split_and!. Qed.
#[local] Hint Resolve completed_as_ok : core.

Lemma finish_net late n q a id out resp err now : net_ok late n → late = None ∨ late = Some q →
  awaiters n !! q = Some a → pending_as a id → (out = Response → resp ≠ [] ∧ (length resp ≤ kUpstreamReceiveBufferSize)%nat) →
  ∃ n', finish engine_next q out resp err now n = Val (true, n') ∧ net_ok None n' ∧ settles n n' ∧
    awaiters n' = <[q := completed_as a out resp err]> (awaiters n) ∧ slots_ (chan n') = delete id (slots_ (chan n)) ∧
    armed (runtime n') = filter (λ x, entry_id x ≠ q) (armed (runtime n)).
Proof.
  intros N Hlate Ha Hp Hr. destruct (disarmed_engine q (runtime n) (no_timers _ _ N)) as (l & El & Hl).
  edestruct (finish_effect engine_next q out resp err now n a id q) as (n' & -> & Hok & Hq & Hrt & Haw & Hsl & Hc & Hlf);
    [apply N | apply N | done | done | by eapply (no_task _ _ N) | apply N | |].
  { rewrite El. apply schedule_engine; [apply N |]. apply (no_waiting _ _ N). by exists a, id. }
  exists n'. split; [done |]. destruct (completed_net late n n' q a id (completed_as a out resp err) l) as (N' & S & Harm); try done.
  by rewrite Harm, Hl.
Qed.

(** A counter other than that of the failures. *)
Lemma count_net k n : k ≠ invariant_failures → net_ok None n →
  net_ok None (set_chan (count k (chan n)) n) ∧ settles n (set_chan (count k (chan n)) n).
Proof.
  intros Hk N. split; [| split; try done; intros q a Ha; by left]. destruct N as [N1 [N2 N2'] N3 N4 N5 N6 N7 N8 N9 N10 N11 N12 N13].
  split; try done; [by apply (same_core_ok n); [apply count_core | |] |]. split; [| done]. cbn. by rewrite bump_other.
Qed.

Lemma net_owner late n : net_ok late n → on_owner_thread me (chan n) = true.
Proof. intros N. unfold on_owner_thread. by rewrite (no_running _ _ N), (no_thread _ _ N), bool_decide_true. Qed.

(** An operation of the channel on completed queries. *)
Definition settled (n n' : World) : Prop := net_ok None n' ∧ settles n n'.
Lemma settled_refl n : net_ok None n → settled n n.
Proof. intros N. split; [done | apply settles_refl]. Qed.
Lemma settled_trans n1 n2 n3 : settled n1 n2 → settled n2 n3 → settled n1 n3.
Proof. intros [_ S1] [N2 S2]. split; [done | by eapply settles_trans]. Qed.

Lemma fail_loop_net ids out err now m n : out ≠ Response → net_ok None n →
  ∃ m' n', fail_loop engine_next ids out err now m n = Val (m', n') ∧ settled n n'.
Proof.
  intros Hout. revert m n. induction ids as [| id ids IH]; intros m n N; cbn [fail_loop]; [by exists m, n; split; [| apply settled_refl] |].
  destruct (slots_ (chan n) !! id) as [q |] eqn:Hs; [| by apply IH].
  apply (co_slot _ (no_chan _ _ N)) in Hs as (a & Ha & Hp).
  destruct (finish_net None n q a id out [] err now N) as (n1 & -> & N1 & S1 & _); [by left | done.. |]. cbn [mbind outcome_bind].
  destruct (IH (m + 1) n1 N1) as (m' & n' & -> & S'). exists m', n'. split; [done |]. by eapply settled_trans.
Qed.

Lemma fail_all_net out err now n : out ≠ Response → net_ok None n →
  ∃ m n', fail_all engine_next out err now me n = Val (m, n') ∧ settled n n'.
Proof.
  intros Hout N. unfold fail_all. destruct (_ || _); [exists 0, n; by split; [| apply settled_refl] |]. by apply fail_loop_net.
Qed.

Lemma handle_datagram_net packet tr now n : net_ok None n →
  ∃ r n', handle_datagram engine_next packet tr now me n = Val (r, n') ∧ settled n n'.
Proof.
  intros N. pose proof (no_chan _ _ N) as Hok. unfold handle_datagram. rewrite (no_running _ _ N), (net_owner _ _ N). cbn [negb orb].
  assert (∀ (r : PacketResult) k, k ≠ invariant_failures → ∃ r' n', (Val (r, set_chan (count k (chan n)) n) : outcome Empty_set _) = Val (r', n') ∧ settled n n')
    as Hcount by (intros r k Hk; eexists r, _; split; [done | by apply count_net]).
  destruct (tr || _) eqn:Htr; [by apply Hcount |]. apply orb_false_iff in Htr as [-> Hsize]. bool_hyps.
  destruct (decide (2 ≤ length packet)%nat) as [Hlen | Hlen].
  2: { unfold transaction_id. rewrite (proj2 (Nat.ltb_lt _ _)) by lia. by apply Hcount. }
  destruct (transaction_id_spec (E := Empty_set) packet Hlen) as (b0 & b1 & rest & Hpk & ->). cbn [mbind outcome_bind option_bind].
  destruct (in_capacity (chan n) _); [| by apply Hcount].
  destruct (slots_ (chan n) !! _) as [q |] eqn:Hs; [| by apply Hcount]. cbn [mbind option_bind].
  pose proof Hs as (a & Ha & Hp)%(co_slot _ Hok). rewrite Ha. cbn [from_option_ub mbind outcome_bind].
  pose proof (parse_message_defined packet upstream_limits) as Hdef.
  destruct (parse_message packet upstream_limits) as [m | e |] eqn:Hparse; [| by apply Hcount | done].
  pose proof (validate_upstream_response_defined m (b2z b0 * 256 + b2z b1) (opcode (header_ a)) (question_ a)) as Hdef'.
  destruct (validate_upstream_response m _ (opcode (header_ a)) (question_ a)) as [[] | e |]; [| by apply Hcount | done].
  pose proof (mok_image _ _ _ (parse_message_inv _ _ _ Hparse)) as ->. rewrite rewrite_id_spec by done.
  edestruct (finish_net None n q a) as (n' & -> & N' & S' & _); [done | by left | done | exact Hp | | by eexists _, n'].
  intros _. unfold with_id. split; [done |]. cbn [length]. rewrite length_drop. lia.
Qed.

Lemma drain_loop_net input budget res now n : net_ok None n →
  ∃ d n', drain_loop engine_next input budget res now me n = Val (d, n') ∧ settled n n'.
Proof.
  revert res n. induction input as [| v input IH]; intros res n N; cbn [drain_loop].
  { destruct (_ <? _)%nat; eexists _, n; (split; [done | by apply settled_refl]). }
  destruct (_ <? _)%nat; [| eexists _, n; by split; [| apply settled_refl]]. destruct v as [datagram | errno].
  - destruct (handle_datagram_net (take kUpstreamReceiveBufferSize datagram) (kUpstreamReceiveBufferSize <? length datagram)%nat now n N)
      as (r & n1 & -> & S1). cbn [mbind outcome_bind]. edestruct IH as (d & n' & -> & S'); [apply S1 |]. exists d, n'. split; [done |]. by eapply settled_trans.
  - destruct (errno =? EINTR); [by apply IH |]. destruct (errno =? EAGAIN); [eexists _, n; by split; [| apply settled_refl] |].
    destruct (fail_all_net SocketError errno now n ltac:(done) N) as (m & n' & -> & S'). by eexists _, n'.
Qed.

Lemma drain_net input budget now n : net_ok None n →
  ∃ d n', drain engine_next input budget now me n = Val (d, n') ∧ settled n n'.
Proof.
  intros N. unfold drain. destruct (_ || _); [eexists _, n; by split; [| apply settled_refl] |]. by apply drain_loop_net.
Qed.

(** The first timer expires. *)
Lemma complete_first_net completion now x l failures n : net_ok None n → armed (runtime n) = x :: l →
  ∃ n', complete_first engine_next completion now x l failures n = Val (failures, n') ∧ settled n n' ∧ armed (runtime n') = l.
Proof.
  intros N Hl. set (n0 := set_runtime (set_armed l (runtime n)) n). pose proof (no_timers _ _ N) as Ht.
  assert (armed (runtime n0) = l) as Hl0 by (by apply armed_set).
  pose proof (no_names _ _ N) as Hnd. rewrite Hl, fmap_cons in Hnd. apply list.NoDup_cons in Hnd as [Hx Hnd].
  assert (ready_tasks (runtime n0) = ready_tasks (runtime n) ∧ modes (runtime n0) = modes (runtime n) ∧
    timers_accept (runtime n0) = timers_accept (runtime n) ∧ timers (runtime n0) ≠ TimersIdle) as (E1 & E2 & E3 & E4).
  { cbn. unfold set_armed, timers_accept. by destruct (timers (runtime n)) eqn:E; rewrite ?E. }
  assert (in_flight n (entry_id x)) as (a & id & Ha & Hp).
  { apply (no_armed _ _ N). rewrite Hl. set_solver. }
  assert (chan_ok n0) as Hok0 by (apply (same_core_ok n); [by split_and! | done | apply N]).
  assert (net_ok (Some (entry_id x)) n0) as N0.
  { split; rewrite ?Hl0, ?E1; try done; try apply N.
    - pose proof (no_order _ _ N) as Ho. rewrite Hl in Ho. by apply StronglySorted_cons in Ho as [_ ?].
    - intros q. transitivity (q ∈ entry_id <$> armed (runtime n) ∧ q ≠ entry_id x); [rewrite Hl; cbn; set_solver |].
      rewrite (no_armed _ _ N). change (in_flight n0 q) with (in_flight n q). naive_solver.
    - intros y b Hy. apply (no_deadline _ _ N). rewrite Hl. by right.
    - injection E2 as E2 _ _. etransitivity; [exact E2 | apply N]. }
  assert (settles n n0) as S0.
  { split; try done; [| by intros q _; rewrite E1]. intros q b Hb. left. by rewrite E1. }
  unfold complete_first. fold n0. unfold deadline_complete. change (awaiters n0) with (awaiters n). rewrite Ha. cbn [from_option_ub mbind outcome_bind].
  rewrite (proj1 Hp). unfold finish_deadline.
  edestruct (finish_net (Some (entry_id x)) n0 (entry_id x) a id) as (n' & -> & N' & S' & _ & _ & Hl');
    [done | by right | done | done | by destruct completion |].
  cbn [mbind outcome_bind]. exists n'. split; [done |]. split; [split; [done | by eapply settles_trans] |]. rewrite Hl', Hl0.
  apply filter_all. intros y Hy Heq. apply Hx. rewrite <- Heq. by apply list_elem_of_fmap_2.
Qed.

(** [expire]: as long as the budget lasts, every timer that is due is taken. *)
Lemma expire_net budget now clock failures n : net_ok None n →
  ∃ n', expire engine_next budget now clock failures n = Val (failures, n') ∧ settled n n' ∧
    ∃ expired, armed (runtime n) = expired ++ armed (runtime n') ∧ (length expired ≤ budget)%nat ∧ Forall (λ x, entry_deadline x ≤ now) expired ∧
      (length expired = budget ∨ match armed (runtime n') with [] => True | x :: _ => now < entry_deadline x end).
Proof.
  revert n. induction budget as [| budget IH]; intros n N; cbn [expire].
  { exists n. split; [done |]. split; [by apply settled_refl |]. exists []. split_and!; try done. by left. }
  destruct (armed (runtime n)) as [| x l] eqn:Hl.
  { exists n. split; [done |]. split; [by apply settled_refl |]. exists []. rewrite Hl. split_and!; try done; [simpl; lia | by right]. }
  unfold due. destruct (Z.leb_spec (entry_deadline x) now).
  - destruct (complete_first_net TimerExpired clock x l failures n N Hl) as (n1 & -> & S1 & Hl1). cbn [mbind outcome_bind].
    destruct (IH n1 (proj1 S1)) as (n' & -> & S' & expired & He & Hn & Hall & Hend). exists n'. split; [done |]. split; [by eapply settled_trans |].
    exists (x :: expired). rewrite <- Hl1, He. split_and!; [done | simpl; lia | by constructor |]. destruct Hend; [left; simpl; lia | by right].
  - exists n. split; [done |]. split; [by apply settled_refl |]. exists []. rewrite Hl. split_and!; try done; [simpl; lia | by right].
Qed.

Lemma cancel_timers_net fuel clock failures n : net_ok None n → (length (armed (runtime n)) ≤ fuel)%nat →
  ∃ n', cancel_timers engine_next fuel clock failures n = Val (failures, n') ∧ settled n n' ∧ armed (runtime n') = [].
Proof.
  revert n. induction fuel as [| fuel IH]; intros n N Hf; cbn [cancel_timers]; destruct (armed (runtime n)) as [| x l] eqn:Hl.
  - exists n. split; [done |]. by split; [apply settled_refl |].
  - simpl in Hf. lia.
  - exists n. split; [done |]. by split; [apply settled_refl |].
  - destruct (complete_first_net TimerCancelled clock x l failures n N Hl) as (n1 & -> & S1 & Hl1). cbn [mbind outcome_bind].
    destruct (IH n1 (proj1 S1)) as (n' & -> & S' & H'); [rewrite Hl1; simpl in Hf; lia |]. exists n'. split; [done |]. split; [by eapply settled_trans | done].
Qed.
End channel.
