(* ===== verification/RuntimeQuery.v ===== *)
(** * A query of a task, on the event loop

    The query of a task, from its start to the destruction of its awaiter, leaves channel,
    timers and ready queue in agreement ([net_ok]): it is in flight, or it has a result. *)
From stdpp Require Import sorting relations.
From S2P Require Import Prelude DnsMessage DnsParser DnsWriter DnsQuery UpstreamChannel ChannelEffects TimerQueue TimerClaims WorkerRuntime RuntimeInvariant.
Import Upstream Reactor.

(** ** Insertion into the timers *)
Lemma abs_insert_perm x l : abs_insert x l ≡ₚ x :: l.
Proof. induction l as [| y l IH]; cbn [abs_insert]; [done |]. case_match; [| done]. rewrite IH. apply perm_swap. Qed.

Lemma abs_insert_order x l : StronglySorted by_deadline l → StronglySorted by_deadline (abs_insert x l).
Proof.
  induction l as [| y l IH]; intros Hl; cbn [abs_insert]; [by repeat constructor |]. apply StronglySorted_cons in Hl as [Hy Hl].
  destruct (Z.leb_spec (entry_deadline y) (entry_deadline x)).
  - apply StronglySorted_cons. split; [| by apply IH]. rewrite abs_insert_perm. by constructor.
  - apply StronglySorted_cons. split; [| by apply StronglySorted_cons]. constructor; [unfold by_deadline; lia |].
    eapply Forall_impl; [| exact Hy]. unfold by_deadline. lia.
Qed.

Lemma abs_insert_filter x l : entry_id x ∉ entry_id <$> l → filter (λ y, entry_id y ≠ entry_id x) (abs_insert x l) = l.
Proof.
  induction l as [| y l IH]; intros Hx; cbn [abs_insert]; [by rewrite filter_cons_False by naive_solver |].
  assert (entry_id y ≠ entry_id x) as Hy by set_solver. case_match.
  - rewrite filter_cons_True by done. f_equal. apply IH. set_solver.
  - rewrite filter_cons_False by naive_solver. apply filter_all. intros z Hz Heq. apply Hx. rewrite <- Heq. by apply list_elem_of_fmap_2.
Qed.

Section query.
Context (me : Z).
Notation World := (World Engine).

(** What a query leaves alone besides the awaiters. *)
Record same_frame (n n' : World) : Prop := {
  sf_ready : ready_tasks (runtime n') = ready_tasks (runtime n);
  sf_modes : modes (runtime n') = modes (runtime n);
  sf_accept : timers_accept (runtime n') = timers_accept (runtime n);
  sf_config : config_ (chan n') = config_ (chan n);
  sf_life : life_ (chan n') = life_ (chan n);
}.

(** Queries that are not in flight, and the ready queue, may change. *)
Lemma net_frame n n' : net_ok me None n → chan_ok n' → no_failures n' → life_ (chan n') = life_ (chan n) →
  timers (runtime n') = timers (runtime n) → sched_running (runtime n') = true → NoDup (ready_tasks (runtime n')) →
  (∀ q, in_flight n q → q ∉ ready_tasks (runtime n')) →
  (∀ q, awaiters n' !! q = awaiters n !! q ∨ ¬ in_flight n q ∧ ¬ in_flight n' q) → net_ok me None n'.
Proof.
  intros N Hok Hf Hl Ht Hs Hnd Hw Haw.
  assert (∀ q, in_flight n' q ↔ in_flight n q) as Hfly.
  { intros q. destruct (Haw q) as [E | [H1 H2]]; [unfold in_flight; by rewrite E | naive_solver]. }
  assert (armed (runtime n') = armed (runtime n)) as Harm by (unfold armed; by rewrite Ht).
  split; rewrite ?Harm, ?Hl, ?Ht; try done; try apply N.
  - intros q. rewrite Hfly. apply N.
  - intros x a Hx Ha. destruct (Haw (entry_id x)) as [E | [H1 _]]; [rewrite E in Ha; by apply (no_deadline _ _ _ N) |].
    destruct H1. apply (no_armed _ _ _ N). by apply list_elem_of_fmap_2.
  - intros q a id Ha Hp. assert (in_flight n' q) as Hq by (by exists a, id).
    destruct (Haw q) as [E | [_ H2]]; [rewrite E in Ha; by eapply (no_task _ _ _ N) | done].
  - intros q Hq. apply Hw. by apply Hfly.
Qed.

Lemma arm_free e q d : q ∉ entry_id <$> armed e → timers_accept e = true →
  arm e q d = (Armed, set_armed (abs_insert (mkEntry q d (Some deadline_callback) (Some q)) (armed e)) e).
Proof.
  intros Hq Ha. unfold arm, timers_accept, armed in *. destruct (timers e) as [| [] l] eqn:Et; [done | | done].
  unfold abs_arm. by rewrite bool_decide_false.
Qed.

(** A timer that was to be armed is not. *)
Lemma disarm_armed e q d : timers e ≠ TimersIdle → q ∉ entry_id <$> armed e → disarmed q (arm e q d).2 = e.
Proof.
  intros Ht Hq. destruct (timers_accept e) eqn:Ha.
  - rewrite arm_free by done. cbn [snd]. set (x := mkEntry _ _ _ _). set (e' := set_armed _ e).
    assert (timers e' ≠ TimersIdle) as Ht' by (subst e'; unfold set_armed; by destruct (timers e)).
    destruct (disarmed_engine q e' Ht') as (l & -> & ->). subst e'. rewrite armed_set by done.
    change q with (entry_id x) at 1. rewrite abs_insert_filter by done. unfold set_armed, armed. by destruct e as [[| b l] ? ? ? ?].
  - unfold arm, timers_accept in *. destruct (timers e) as [| [] l] eqn:Et; [done.. |]. cbn [snd].
    unfold disarmed. cbn [rt_armed engine_runtime]. unfold is_armed. by rewrite bool_decide_false.
Qed.

(** The result of an awaiter that was never in flight. *)
Definition refused (b : QueryAwaiter) : Prop :=
  owner_ b = false ∧ (state_ b = Failed ∨ state_ b = Done ∧ result_outcome (result_ b) ≠ Response).

Lemma not_flying (n : World) q b : awaiters n !! q = Some b → state_ b ≠ Pending ∨ owner_ b = false → ¬ in_flight n q.
Proof. intros Hb Hs (a & id & Ha & Ho & Hp & _). rewrite Hb in Ha. injection Ha as <-. destruct Hs; congruence. Qed.

Lemma finish_awaiter_net st out n q b : net_ok me None n → awaiters n !! q = Some b → not_pending b → q ∉ ready_tasks (runtime n) →
  st = Failed ∧ out = None ∨ st = Done ∧ (∃ o, out = Some o ∧ o ≠ Response) →
  ∃ n' c, finish_awaiter q st out n = Val n' ∧ net_ok me None n' ∧ same_frame n n' ∧ awaiters n' = <[q := c]> (awaiters n) ∧ refused c.
Proof.
  intros N Hb Hnp Hr Hst. destruct (finish_awaiter_ok q st out n b (no_chan _ _ _ N) Hb Hnp) as (n' & E & Hok & Hc). revert E.
  unfold finish_awaiter. rewrite Hb. cbn [from_option_ub mbind outcome_bind]. intros [= <-]. eexists _, _. split; [done |].
  split_and!; [| done | done |].
  - apply (net_frame n); try done; try apply N. intros p. cbn. destruct (decide (p = q)) as [-> | Hne]; [right | left; by apply lookup_insert_ne].
    split; eapply not_flying; [exact Hb | destruct Hnp; auto | cbn; apply lookup_insert_eq | by right].
  - split; [done |]. cbn. destruct Hst as [[-> ->] | [-> (o & -> & Ho)]]; [by left | by right].
Qed.

(** An awaiter is constructed. *)
Lemma new_awaiter_net n q a : net_ok me None n → awaiters n !! q = None → state_ a = Idle →
  net_ok me None (set_awaiter q a n) ∧ same_frame n (set_awaiter q a n).
Proof.
  intros N Hq Ha. split; [| done]. apply (net_frame n); try done; try apply N.
  - destruct (no_chan _ _ _ N) as [H1 H2 H3 H4 H5 H6]. split; try done; cbn.
    + intros id p. rewrite H3. destruct (decide (p = q)) as [-> | Hne]; [| by rewrite lookup_insert_ne].
      rewrite lookup_insert_eq, Hq. split; [naive_solver |]. intros (b & [= <-] & _ & Hp & _). congruence.
    + intros p b [[<- <-] | [_ Hb]]%lookup_insert_Some; [congruence | by apply (H4 p)].
  - intros p. cbn. destruct (decide (p = q)) as [-> | Hne]; [right | left; by apply lookup_insert_ne].
    split; intros (b & id & Hb & _ & Hp & _); [congruence |]. cbn in Hb. rewrite lookup_insert_eq in Hb. injection Hb as <-. congruence.
Qed.

Context (engine_next : Z → Z * Z).

(** [await_suspend]: the query is in flight with its timer armed, or it has been refused. *)
Lemma await_suspend_net stop send now now' n q a : net_ok me None n → awaiters n !! q = Some a → owner_ a = true → state_ a = Idle →
  q ∉ ready_tasks (runtime n) →
  ∃ stays n' b, await_suspend engine_next q q true stop (scheduler_ (life_ (chan n))) send now now' me n = Val (stays, n') ∧
    net_ok me None n' ∧ same_frame n n' ∧ awaiters n' = <[q := b]> (awaiters n) ∧
    if (stays : bool) then in_flight n' q ∧ deadline_ b = deadline_ a else refused b.
Proof.
  intros N Ha Ho Hst Hr. pose proof (no_chan _ _ _ N) as Hok. unfold await_suspend. cbn [negb].
  assert (∀ st out n1 b1, net_ok me None n1 → same_frame n n1 → awaiters n1 = <[q := b1]> (awaiters n) → not_pending b1 →
    st = Failed ∧ out = None ∨ st = Done ∧ (∃ o, out = Some o ∧ o ≠ Response) →
    ∃ (stays : bool) n' b, (n2 ← finish_awaiter q st out n1; Val (false, n2)) = Val (stays, n') ∧ net_ok me None n' ∧ same_frame n n' ∧
      awaiters n' = <[q := b]> (awaiters n) ∧ if stays then in_flight n' q ∧ deadline_ b = deadline_ a else refused b) as Hfin.
  { intros st out n1 b1 N1 S1 Haw Hnp Hout. destruct S1 as [S1 S2 S3 S4 S5].
    destruct (finish_awaiter_net st out n1 q b1) as (n' & c & -> & N' & [] & Haw' & Hc); try done; [by rewrite Haw, lookup_insert_eq | by rewrite S1 |].
    exists false, n', c. split_and!; try done; [split; congruence |]. by rewrite Haw', Haw, insert_insert_eq. }
  assert (not_pending a) as Hnp by (right; congruence).
  destruct stop; [by apply (Hfin Done (Some Cancelled) n a); [| | rewrite insert_id | | right; eauto] |].
  unfold awaiter_begin. rewrite Ha. cbn [from_option_ub mbind outcome_bind]. rewrite Ho, bool_decide_true by done. cbn [negb orb].
  destruct (co_life _ Hok (no_running _ _ _ N)) as [-> _].
  destruct (begin_spec engine_next q q true send now now' me n a Hok Ha ltac:(congruence)) as (r & n1 & E & Hok1 & Hcfg & _ & b & Haw & Hb).
  destruct (begin_has_effect engine_next q q send now now' me n a r n1 Hok (no_quiet _ _ _ N) Ha ltac:(congruence) E) as (Hq & Hl & Heff).
  rewrite E. cbn [mbind outcome_bind].
  assert (¬ in_flight n q) as Hfly by (eapply not_flying; [done |]; left; congruence).
  assert (q ∉ entry_id <$> armed (runtime n)) as Harm by (rewrite (no_armed _ _ _ N); tauto).
  assert (r = BeginSuspended ∨ r ≠ BeginSuspended) as [-> | Hne] by (destruct r; auto).
  - destruct Heff as (Earm & b' & Hb' & Htask & Hd). rewrite Haw, lookup_insert_eq in Hb'. injection Hb' as <-.
    destruct Hb as (id & _ & _ & Hp & _). exists true, n1, b. split; [done |].
    change (rt_arm (runtime n) q (deadline_ a)) with (arm (runtime n) q (deadline_ a)) in Earm.
    assert (timers_accept (runtime n) = true) as Hacc by (unfold arm, timers_accept in *; by destruct (timers (runtime n)) as [| [] l]).
    rewrite arm_free in Earm by done. injection Earm as Ert. set (x := mkEntry _ _ _ _) in Ert.
    assert (armed (runtime n1) = abs_insert x (armed (runtime n))) as Harm1 by (rewrite <- Ert; apply armed_set, N).
    assert (same_frame n n1) as S1.
    { split; try done; rewrite <- Ert; unfold timers_accept, modes, set_armed; by destruct (timers (runtime n)) eqn:Et; rewrite ?Et. }
    destruct S1 as [S1 S2 S3 S4 S5].
    assert (in_flight n1 q) as Hq1 by (exists b, id; by rewrite Haw, lookup_insert_eq).
    split_and!; try done. split; rewrite ?Harm1, ?S1, ?Hl; try done; try apply N.
    + rewrite <- Ert. pose proof (no_timers _ _ _ N). unfold set_armed. by destruct (timers (runtime n)).
    + rewrite abs_insert_perm, fmap_cons. apply list.NoDup_cons. by split; [| apply N].
    + apply abs_insert_order, N.
    + intros p. rewrite abs_insert_perm, fmap_cons, elem_of_cons. destruct (decide (p = q)) as [-> | Hpq]; [naive_solver |].
      transitivity (p ∈ entry_id <$> armed (runtime n)); [cbn; naive_solver |]. rewrite (no_armed _ _ _ N).
      unfold in_flight. by rewrite Haw, lookup_insert_ne.
    + intros y c Hy Hc. rewrite abs_insert_perm in Hy. apply elem_of_cons in Hy as [-> | Hy].
      * cbn in Hc. rewrite Haw, lookup_insert_eq in Hc. by injection Hc as <-.
      * rewrite Haw, lookup_insert_ne in Hc; [by apply (no_deadline _ _ _ N) |]. intros Heq. apply Harm. rewrite Heq. by apply list_elem_of_fmap_2.
    + intros p c i Hc Hpc. rewrite Haw in Hc. apply lookup_insert_Some in Hc as [[<- <-] | [_ Hc]]; [done | by eapply (no_task _ _ _ N)].
    + injection S2 as -> _ _. apply N.
    + intros p (c & i & Hc & Hpc). rewrite Haw in Hc. apply lookup_insert_Some in Hc as [[<- <-] | [_ Hc]]; [done |].
      apply (no_waiting _ _ _ N). by exists c, i.
  - assert (runtime n1 = runtime n) as Hrt.
    { assert (runtime n1 = runtime n ∨ ∃ rt, (rt_arm (runtime n) q (deadline_ a)).2 = rt ∧ runtime n1 = disarmed q rt) as [-> | (rt & <- & ->)]
        by (by destruct r); [done |]. apply disarm_armed; [apply N | done]. }
    assert (slots_ (chan n1) = slots_ (chan n) ∧ not_pending b) as [_ Hnb] by (by destruct r).
    assert (same_frame n n1) as S1 by (split; rewrite ?Hrt; done).
    assert (net_ok me None n1) as N1.
    { apply (net_frame n); rewrite ?Hrt; try done; try apply N. intros p. rewrite Haw.
      destruct (decide (p = q)) as [-> | Hpq]; [right; split; [done |] | left; by apply lookup_insert_ne].
      eapply not_flying; [by rewrite Haw, lookup_insert_eq | destruct Hnb; auto]. }
    destruct r; try done; (eapply (Hfin _ _ n1 b); [done.. |]); first [by left | right; eauto].
Qed.

(** The destructor of an awaiter that is not in flight. *)
Lemma drop_awaiter_net now n q a : net_ok me None n → awaiters n !! q = Some a → owner_ a = false →
  let n' := mkWorld (chan n) (delete q (awaiters n)) (runtime n) in
  drop_awaiter engine_next q now n = Val n' ∧ net_ok me None n' ∧ same_frame n n'.
Proof.
  intros N Ha Ho n'. unfold drop_awaiter, abandon. rewrite Ha. cbn [from_option_ub mbind outcome_bind]. rewrite Ho. cbn [negb orb].
  assert (¬ in_flight n q) as Hfly by (apply (not_flying n q a); [done | by right]).
  split; [done |]. split; [| done]. pose proof (no_chan _ _ _ N) as Hok. apply (net_frame n); try done; try apply N.
  - destruct Hok as [H1 H2 H3 H4 H5 H6]. split; try done; cbn.
    + intros id p. rewrite H3. destruct (decide (p = q)) as [-> | Hne]; [| by rewrite lookup_delete_ne].
      rewrite lookup_delete_eq. split; [| naive_solver]. intros (b & Hb & Hp). destruct Hfly. by exists b, id.
    + intros p b [_ Hb]%lookup_delete_Some. by apply (H4 p).
  - intros p. cbn. destruct (decide (p = q)) as [-> | Hne]; [right | left; by apply lookup_delete_ne].
    split; [done |]. intros (b & id & Hb & _). cbn in Hb. by rewrite lookup_delete_eq in Hb.
Qed.
End query.
