(* ===== verification/RuntimeTasks.v ===== *)
(** * The tasks of the event loop

    What a task does to the worker, whatever the stop token says: at most one reply, to its
    client, and none once a stop is requested.  [reactor_ok]: the invariant of the event
    loop.  [owed]: the clients that have been answered or whose datagrams are at work. *)
From S2P Require Import Prelude DomainName DnsMessage DnsParser DnsWriter DnsQuery DnsCache CachePolicy CuckooFilter DomainBlocklist UpstreamChannel UpstreamClaims ChannelEffects TimerQueue TimerClaims WorkerLoop WorkerClaims Concurrency WorkerSupervisor WorkerRuntime RuntimeInvariant RuntimeQuery.
Import Worker Reactor.

Section tasks.
Context {F : Type} `{Prefilter F}.
Context (me : Z).
Notation Reactor := (Reactor F).
Notation WorkerLoop := (WorkerLoop F).
Notation World := (Upstream.World Engine).

(** ** What a task does to the worker *)
Definition one_reply (stop : bool) (client : Z) (w w' : WorkerLoop) : Prop :=
  outbox w' = outbox w ∨ stop = false ∧ ∃ r, sent_to client r w w'.

Definition suspended_ok (s : Suspended) : Prop :=
  ∃ packet m q (eligible : bool), accepted_query packet m q ∧
    s = mkSuspended m q (if eligible then Some (question_key q) else None) (sus_client s).

Definition progress_ok (stop : bool) (client : Z) (w : WorkerLoop) (p : Progress F) : Prop :=
  match p with
  | Finished w' => worker_ok w' ∧ upstream_usable_ w' = upstream_usable_ w ∧ one_reply stop client w w'
  | AwaitUpstream w' s => worker_ok w' ∧ upstream_usable_ w' = upstream_usable_ w ∧ outbox w' = outbox w ∧
      upstream_usable_ w = true ∧ suspended_ok s ∧ sus_client s = client
  end.

Lemma deliver_any r client stop sent w : same_data w (deliver r client stop sent w) ∧ one_reply stop client w (deliver r client stop sent w).
Proof.
  unfold deliver, one_reply, send_response. destruct (negb (is_empty r)); cbn [andb]; [| by split; [| left]].
  destruct stop; cbn [negb]; [by split; [| left] |]. destruct (_ <? _)%nat; [by split; [| left] |].
  destruct (_ =? _); (split; [done |]; right; split; [done |]; by exists r).
Qed.

Lemma finish_query_any packet m q r client stop sent w : accepted_query packet m q →
  ∃ w', finish_query m r client stop sent w = Val w' ∧ same_data w w' ∧ one_reply stop client w w'.
Proof.
  intros Hacc. unfold finish_query. destruct (is_empty r); [| eexists; split; [done |]; apply deliver_any].
  destruct (make_error_reply packet m q ServFail Hacc) as (r' & -> & _). eexists. split; [done |]. apply deliver_any.
Qed.

Lemma one_reply_same stop client w w1 w' : outbox w1 = outbox w → one_reply stop client w1 w' → one_reply stop client w w'.
Proof. unfold one_reply, sent_to. by intros ->. Qed.

Lemma finished_ok stop client w w1 w' : worker_ok w1 → upstream_usable_ w1 = upstream_usable_ w → outbox w1 = outbox w →
  same_data w1 w' → one_reply stop client w1 w' → progress_ok stop client w (Finished w').
Proof.
  intros Hok Hu Ho Hs Hr. split_and!; [by apply (same_data_ok w1) | | by eapply one_reply_same]. destruct Hs as (_ & _ & ->). done.
Qed.

Lemma process_accepted_any packet m q client stop now sent w : worker_ok w → accepted_query packet m q → clock_ok now →
  ∃ p, process_accepted m client stop now sent w = Val p ∧ progress_ok stop client w p.
Proof.
  intros Hok Hacc Hnow. pose proof Hacc as (_ & Hm & _ & Hq). unfold process_accepted. rewrite (mvp_question _ _ Hm).
  destruct (matches_filter_spec w (qname q) Hok (proj1 Hq)) as (b & -> & _). cbn [mbind outcome_bind]. destruct b.
  - destruct (make_error_reply packet m q Refused Hacc) as (r & -> & Hrep). cbn [mbind outcome_bind].
    destruct (is_empty r) eqn:He; [apply is_empty_true in He as ->; by apply reply_nonempty in Hrep |].
    destruct (finish_query_any packet m q r client stop sent (count blocked_queries w) Hacc) as (w' & -> & Hs & Hr).
    eexists. split; [done |]. by apply (finished_ok stop client w w).
  - cbn [mbind outcome_bind is_empty].
    destruct (lookup_cache_spec packet m q now w Hok Hacc Hnow) as (r & key & w1 & -> & Hok1 & Hout & _ & Hup & Hkey & _).
    cbn [mbind outcome_bind]. destruct (_ && _) eqn:E.
    + apply andb_true_iff in E as [_ E]. eexists. split; [done |]. split_and!; try done; [congruence |]. by exists packet, m, q, (cache_eligible m w); subst.
    + destruct (finish_query_any packet m q r client stop sent w1 Hacc) as (w' & -> & Hs & Hr).
      eexists. split; [done |]. by apply (finished_ok stop client w w1).
Qed.

Lemma process_any d stop stop' now sent w : worker_ok w → clock_ok now →
  ∃ p, process_datagram d stop stop' now sent w = Val p ∧ progress_ok stop' (client_address d) w p ∧ (stop = true → p = Finished w).
Proof.
  intros Hok Hnow. unfold process_datagram.
  assert (∀ w1 w', same_data w w1 → outbox w1 = outbox w → same_data w1 w' → one_reply stop' (client_address d) w1 w' →
    progress_ok stop' (client_address d) w (Finished w')) as Hfin.
  { intros w1 w' H1 H2. apply finished_ok; [by apply (same_data_ok w) | apply H1 | done]. }
  assert (progress_ok stop' (client_address d) w (Finished w)) as Hsame by (split_and!; try done; by left).
  destruct stop; [by exists (Finished w) |].
  destruct (evaluate_spec (packet d) (datagram_truncated d)) as (c & -> & Hc). cbn [mbind outcome_bind].
  destruct (decision_outcome c); try done.
  1: { exists (Finished w). done. }
  1-3: eexists; (split; [done |]); (split; [eapply Hfin; [| | apply deliver_any | apply deliver_any]; done | done]).
  destruct Hc as (_ & _ & m & q & -> & Hacc).
  edestruct (process_accepted_any (packet d) m q (client_address d) stop' now sent (count accepted_queries w)) as (p & -> & Hp); [| done | done |].
  { by apply (same_data_ok w). }
  by exists p.
Qed.

Lemma store_usable r s key now (w w' : WorkerLoop) : store_response r s key now w = Val w' → upstream_usable_ w' = upstream_usable_ w.
Proof.
  unfold store_response. repeat case_match; try done; try (by intros [= <-]). intros (shard & _ & E)%bind_val. by injection E as <-.
Qed.

Lemma resume_any s result stop now sent (w : WorkerLoop) : worker_ok w → clock_ok now → suspended_ok s → defined result →
  ∃ w', resume_datagram s result stop now sent w = Val w' ∧ worker_ok w' ∧ upstream_usable_ w' = upstream_usable_ w ∧
    one_reply stop (sus_client s) w w'.
Proof.
  intros Hok Hnow (pkt & m & q & eligible & Hacc & Es) Hdef. unfold resume_datagram. destruct result as [r | e |]; [| | done].
  2: { destruct e; (eexists; split; [done |]); (split_and!; [by apply (same_data_ok w) | done | by left]). }
  assert (∀ resp w1, worker_ok w1 → upstream_usable_ w1 = upstream_usable_ w → outbox w1 = outbox w →
    ∃ w', finish_query (sus_request s) resp (sus_client s) stop sent w1 = Val w' ∧ worker_ok w' ∧
      upstream_usable_ w' = upstream_usable_ w ∧ one_reply stop (sus_client s) w w') as Hfin.
  { intros resp w1 Hok1 Hu Ho. rewrite Es. cbn [sus_request sus_client].
    destruct (finish_query_any pkt m q resp (sus_client s) stop sent w1 Hacc) as (w' & -> & Hs & Hr).
    exists w'. split; [done |]. exact (finished_ok stop (sus_client s) w w1 w' Hok1 Hu Ho Hs Hr). }
  destruct (Upstream.result_outcome r); try by apply Hfin.
  assert (∃ w1, match sus_cache_key s with Some key => store_response (Upstream.response r) s key now w | None => Val w end = Val w1 ∧
    worker_ok w1 ∧ upstream_usable_ w1 = upstream_usable_ w ∧ outbox w1 = outbox w) as (w1 & -> & ? & ? & ?); [| by apply Hfin].
  destruct (sus_cache_key s) as [key |] eqn:Ek; [| by exists w]. destruct eligible; rewrite Es in Ek; [| done]. injection Ek as <-. rewrite Es.
  edestruct (store_response_spec pkt m q (sus_client s) (Upstream.response r) now w) as (w1 & E & Hok1 & Ho & _); [done.. |].
  exists w1. rewrite E. split_and!; try done. by eapply store_usable.
Qed.

(** ** The invariant *)
Definition client_of (c : Coroutine) : Z := match c with Starting d => client_address d | Querying s => sus_client s end.

Record tasks_ok (n : World) (m : gmap nat Coroutine) (l : list nat) (next : nat) : Prop := {
  tk_roots : NoDup l;
  tk_dom t : t ∈ l ↔ t ∈ dom m;
  tk_next t : t ∈ dom m → (t < next)%nat;
  tk_ready t : t ∈ ready_tasks (Upstream.runtime n) → t ∈ dom m;
  tk_awaiters t : t ∈ dom (Upstream.awaiters n) ↔ ∃ s, m !! t = Some (Querying s);
  tk_starting t d : m !! t = Some (Starting d) → t ∈ ready_tasks (Upstream.runtime n);
  tk_querying t s : m !! t = Some (Querying s) → suspended_ok s ∧ ∃ a, Upstream.awaiters n !! t = Some a ∧
    (in_flight n t ∧ Timers.int64 (Upstream.deadline_ a) ∨ completed a ∧ t ∈ ready_tasks (Upstream.runtime n));
}.

Lemma settles_tasks n n' m l next : settles n n' → tasks_ok n m l next → tasks_ok n' m l next.
Proof.
  intros S T. assert (∀ t a, Upstream.awaiters n !! t = Some a → t ∈ ready_tasks (Upstream.runtime n) → t ∈ ready_tasks (Upstream.runtime n')) as Hin.
  { intros t a Ha Ht. destruct (se_awaiter _ _ S t a Ha) as [[_ E] | (_ & ? & _)]; [by apply E | done]. }
  split; try apply T.
  - intros t Ht. destruct (Upstream.awaiters n !! t) as [a |] eqn:Ha.
    + apply elem_of_dom_2 in Ha. apply (tk_awaiters _ _ _ _ T) in Ha as [s Hs]. by apply elem_of_dom_2 in Hs.
    + apply (tk_ready _ _ _ _ T), (se_other _ _ S); [by apply not_elem_of_dom | done].
  - intros t. rewrite (se_dom _ _ S). apply T.
  - intros t d Ht. pose proof (tk_starting _ _ _ _ T t d Ht) as Hr. apply (se_other _ _ S); [| done].
    rewrite (tk_awaiters _ _ _ _ T). intros [s Hs]. congruence.
  - intros t s Ht. destruct (tk_querying _ _ _ _ T t s Ht) as (Hs & a & Ha & Hor). split; [done |].
    destruct (se_awaiter _ _ S t a Ha) as [[Ha' Hr] | (_ & Hr & a' & Ha' & Hc)]; [| exists a'; auto].
    exists a. split; [done |]. rewrite Hr. destruct Hor as [[(b & id & Hb & Hp) ?] | ?]; [left | by right].
    split; [| done]. exists b, id. rewrite Ha in Hb. by injection Hb as <-.
Qed.

Record reactor_ok (r : Reactor) : Prop := {
  rk_net : net_ok me None (net r);
  rk_worker : worker_ok (loop r);
  rk_tasks : tasks_ok (net r) (coroutines r) (roots r) (next_task r);
  rk_config : config_ok (Upstream.config_ (Upstream.chan (net r))) ∧ Timers.int64 (Upstream.query_timeout (Upstream.config_ (Upstream.chan (net r))));
  rk_failures : timer_failures_ r = 0;
  rk_usable : upstream_usable_ (loop r) = true → upstream_open r = true;
}.

Definition clients (m : gmap nat Coroutine) : list Z := client_of <$> (map_to_list m).*2.
Definition owed (r : Reactor) : list Z := (outbox (loop r)).*2 ++ clients (coroutines r).

Lemma clients_insert m t c : m !! t = None → clients (<[t := c]> m) ≡ₚ client_of c :: clients m.
Proof. intros Ht. unfold clients. by rewrite (map_to_list_insert m t c Ht). Qed.

Lemma clients_delete m t c : m !! t = Some c → clients m ≡ₚ client_of c :: clients (delete t m).
Proof. intros Ht. unfold clients. by rewrite <- (map_to_list_delete m t c Ht). Qed.

Lemma clients_update m t c c' : m !! t = Some c → client_of c' = client_of c → clients (<[t := c']> m) ≡ₚ clients m.
Proof.
  intros Ht Hc. rewrite <- insert_delete_eq, clients_insert by apply lookup_delete_eq. by rewrite Hc, <- (clients_delete m t c Ht).
Qed.

(** From [r] to [r'], by tasks and timers: the invariant is kept, and nobody is answered but
    who is owed an answer, or one of [extra]. *)
Record advances (extra : list Z) (r r' : Reactor) : Prop := {
  av_ok : reactor_ok r';
  av_owed : owed r' ⊆+ owed r ++ extra;
  av_reports : reports r' = reports r;
  av_listener : listener_open r' = listener_open r;
  av_stop : stop_ r = None → stop_ r' = None;
}.

Lemma advances_refl r : reactor_ok r → advances [] r r.
Proof. intros R. split; try done. by rewrite app_nil_r. Qed.

Lemma advances_trans l1 l2 r1 r2 r3 : advances l1 r1 r2 → advances l2 r2 r3 → advances (l1 ++ l2) r1 r3.
Proof.
  intros [_ O1 P1 L1 S1] [K O2 P2 L2 S2]. split; [done | | congruence | congruence | auto]. etransitivity; [exact O2 |].
  rewrite (assoc_L (++)). by apply submseteq_app.
Qed.

Lemma advances_trans_nil l r1 r2 r3 : advances l r1 r2 → advances [] r2 r3 → advances l r1 r3.
Proof. intros A1 A2. rewrite <- (app_nil_r l). by eapply advances_trans. Qed.

(** ** The end of a task *)
Lemma one_reply_owed stop client (w w' : WorkerLoop) : one_reply stop client w w' → (outbox w').*2 ⊆+ (outbox w).*2 ++ [client].
Proof.
  intros [-> | (_ & r & ->)]; [by apply submseteq_inserts_r | by rewrite fmap_app].
Qed.

(** [r1] is [r] while the task [t] runs; it has not answered yet. *)
Record during (t : nat) (rest : list nat) (c : Coroutine) (r r1 : Reactor) : Prop := {
  du_net : net_ok me None (net r1);
  du_ready : ready_tasks (engine r1) = rest;
  du_awaiters : delete t (Upstream.awaiters (net r1)) = delete t (Upstream.awaiters (net r));
  du_config : Upstream.config_ (Upstream.chan (net r1)) = Upstream.config_ (Upstream.chan (net r));
  du_stop : sched_stop (engine r) = true → sched_stop (engine r1) = true;
  du_coroutines : coroutines r1 = coroutines r;
  du_roots : roots r1 = roots r;
  du_next : next_task r1 = next_task r;
  du_failures : timer_failures_ r1 = timer_failures_ r;
  du_open : upstream_open r1 = upstream_open r;
  du_reports : reports r1 = reports r;
  du_listener : listener_open r1 = listener_open r;
  du_token : stop_ r = None → stop_ r1 = None;
  du_worker : worker_ok (loop r1);
  du_usable : upstream_usable_ (loop r1) = upstream_usable_ (loop r);
  du_outbox : outbox (loop r1) = outbox (loop r);
}.

(** What a task leaves: the tasks that were ready, and a stop that was requested; with it
    its query is gone, and nobody is answered. *)
Record runs_one (t : nat) (rest : list nat) (r r' : Reactor) : Prop := {
  ro_advances : advances [] r r';
  ro_ready : ready_tasks (engine r') = rest;
  ro_stop : sched_stop (engine r) = true → sched_stop (engine r') = true ∧ outbox (loop r') = outbox (loop r) ∧
    Upstream.awaiters (net r') = delete t (Upstream.awaiters (net r));
  ro_next : next_task r' = next_task r;
}.

Lemma finish_task_runs t rest c r r1 w : reactor_ok r → ready_tasks (engine r) = t :: rest → coroutines r !! t = Some c →
  during t rest c r r1 → Upstream.awaiters (net r1) !! t = None → worker_ok w → upstream_usable_ w = upstream_usable_ (loop r1) →
  one_reply (sched_stop (engine r1)) (client_of c) (loop r1) w → runs_one t rest r (finish_task t (set_loop w r1)).
Proof.
  intros [N W T C Fz U] Hready Ht [N1 Hr1 Haw Hcfg Hst Ec Er En Ef Eu Ep El Es W1 Hu Hob] Hnone Hw Huw Hrep.
  assert (Upstream.awaiters (net r1) = delete t (Upstream.awaiters (net r))) as Haw' by (by rewrite <- Haw, delete_id).
  split; [split; [| | done..] | done | | done].
  - split; cbn [net finish_task set_tasks set_loop loop coroutines roots next_task timer_failures_ upstream_open]; try done; try congruence.
    2: { intros Hx. rewrite Eu. apply U. congruence. }
    rewrite Ec, Er, En. pose proof (no_ready _ _ _ N) as Hnd. fold (engine r) in Hnd. rewrite Hready in Hnd.
    apply list.NoDup_cons in Hnd as [Hnot Hnd].
    assert (∀ x, x ≠ t → in_flight (net r1) x ↔ in_flight (net r) x) as Hfly by (intros x Hx; unfold in_flight; by rewrite Haw', lookup_delete_ne).
    destruct T as [T1 T2 T3 T4 T5 T6 T7]. unfold engine in *. split; rewrite ?Hr1, ?Haw', ?dom_delete_L.
    + by apply list.NoDup_filter.
    + intros x. rewrite list_elem_of_filter, T2. set_solver.
    + intros x Hx. apply T3. set_solver.
    + intros x Hx. assert (x ∈ dom (coroutines r)) by (apply T4; rewrite Hready; by right). set_solver.
    + intros x. rewrite elem_of_difference, T5, not_elem_of_singleton. destruct (decide (x = t)) as [-> | Hx].
      * rewrite lookup_delete_eq. naive_solver.
      * rewrite lookup_delete_ne by done. naive_solver.
    + intros x d [Hx Hd]%lookup_delete_Some. apply T6 in Hd. rewrite Hready in Hd. set_solver.
    + intros x s [Hx Hs]%lookup_delete_Some. destruct (T7 x s Hs) as (Hok & a & Ha & Hor). split; [done |].
      exists a. rewrite lookup_delete_ne by done. split; [done |]. rewrite Hfly by done. rewrite Hready in Hor. set_solver.
  - unfold owed. cbn [loop finish_task set_tasks set_loop coroutines]. rewrite Ec, app_nil_r, (clients_delete _ _ _ Ht), <- Hob.
    etransitivity; [apply submseteq_app; [by eapply one_reply_owed | done] |]. by rewrite <- (assoc_L (++)).
  - intros Hs. apply Hst in Hs as Hs1. cbn [loop finish_task set_tasks set_loop coroutines]. rewrite <- Hob. split_and!; [done | | done].
    rewrite Hs1 in Hrep. by destruct Hrep as [-> | [? _]].
Qed.

(** A task waits for its query. *)
Lemma suspend_task_runs t rest c r r1 s b : reactor_ok r → ready_tasks (engine r) = t :: rest → coroutines r !! t = Some c →
  during t rest c r r1 → Upstream.awaiters (net r1) !! t = Some b → in_flight (net r1) t → Timers.int64 (Upstream.deadline_ b) →
  suspended_ok s → sus_client s = client_of c → sched_stop (engine r) = false →
  runs_one t rest r (set_tasks (<[t := Querying s]> (coroutines r1)) (roots r1) (next_task r1) r1).
Proof.
  intros [N W T C Fz U] Hready Ht [N1 Hr1 Haw Hcfg Hst Ec Er En Ef Eu Ep El Es W1 Hu Hob] Hb Hf Hd Hs Hcl Hns.
  split; [split; [| | done..] | done | congruence | done].
  - split; cbn [net set_tasks loop coroutines roots next_task timer_failures_ upstream_open]; try done; try congruence.
    2: { intros Hx. rewrite Eu. apply U. congruence. }
    rewrite Ec, Er, En. pose proof (no_ready _ _ _ N) as Hnd. fold (engine r) in Hnd. rewrite Hready in Hnd.
    apply list.NoDup_cons in Hnd as [Hnot Hnd].
    assert (∀ x, x ≠ t → Upstream.awaiters (net r1) !! x = Upstream.awaiters (net r) !! x) as Hsame.
    { intros x Hx. assert (delete t (Upstream.awaiters (net r1)) !! x = delete t (Upstream.awaiters (net r)) !! x) as E by (by rewrite Haw).
      by rewrite !lookup_delete_ne in E. }
    assert (∀ x, x ≠ t → in_flight (net r1) x ↔ in_flight (net r) x) as Hfly by (intros x Hx; unfold in_flight; by rewrite Hsame).
    assert (t ∈ dom (coroutines r)) as Htd by (by apply elem_of_dom_2 in Ht).
    destruct T as [T1 T2 T3 T4 T5 T6 T7]. unfold engine in *. split; rewrite ?Hr1, ?dom_insert_L; try done.
    + intros x. rewrite T2. set_solver.
    + intros x Hx. apply T3. set_solver.
    + intros x Hx. assert (x ∈ dom (coroutines r)) by (apply T4; rewrite Hready; by right). set_solver.
    + intros x. destruct (decide (x = t)) as [-> | Hx].
      * rewrite lookup_insert_eq. split; [by eexists |]. intros _. by apply elem_of_dom_2 in Hb.
      * rewrite lookup_insert_ne by done. rewrite <- T5. by rewrite !elem_of_dom, Hsame.
    + intros x d [[_ [=]] | [Hx Hd']]%lookup_insert_Some. apply T6 in Hd'. rewrite Hready in Hd'. set_solver.
    + intros x s' [[<- [= <-]] | [Hx Hs']]%lookup_insert_Some; [split; [done |]; exists b; auto |].
      destruct (T7 x s' Hs') as (Hok & a & Ha & Hor). split; [done |]. exists a. rewrite Hsame, Hfly by done. rewrite Hready in Hor. set_solver.
  - unfold owed. cbn [loop set_tasks coroutines]. rewrite Ec, Hob, app_nil_r. by rewrite (clients_update _ _ c).
Qed.
End tasks.
