(* ===== verification/RuntimeSteps.v ===== *)
(** * The steps of the event loop keep its invariant *)
From stdpp Require Import sorting relations.
From S2P Require Import Prelude DnsCache CuckooFilter DomainBlocklist UpstreamChannel UpstreamClaims ChannelEffects TimerQueue TimerClaims WorkerLoop WorkerClaims Concurrency WorkerSupervisor WorkerRuntime RuntimeInvariant RuntimeQuery RuntimeTasks.
Import Worker Reactor.

Section steps.
Context {F : Type} `{Prefilter F}.
Context (me : Z).
Notation Reactor := (Reactor F).
Notation World := (Upstream.World Engine).
Notation reactor_ok := (reactor_ok me).
Notation advances := (advances me).

(** ** The stop token *)
Definition with_modes (acc stop : bool) (e : Engine) : Engine := set_modes (sched_running e) acc stop e.

Lemma set_engine_same (r : Reactor) : set_engine (engine r) r = r.
Proof. by destruct r as [? [] ?????????]. Qed.

Lemma with_modes_same e : with_modes (sched_accepting e) (sched_stop e) e = e.
Proof. by destruct e. Qed.

Lemma observe_modes (r : Reactor) : ∃ t acc stop, observe r = set_stops (stop_ r) t (set_engine (with_modes acc stop (engine r)) r) ∧
  (sched_stop (engine r) = true → stop = true) ∧ (acc = true → sched_accepting (engine r) = true).
Proof.
  unfold observe. destruct (stop_requested (forward_ r)) as [[] t].
  - exists t, false, true. split_and!; [| done | done]. by destruct r as [? [] ?????????].
  - exists t, (sched_accepting (engine r)), (sched_stop (engine r)). split_and!; [| done | done].
    rewrite with_modes_same. by rewrite set_engine_same.
Qed.

(** Ready queue and modes of the scheduler are changed. *)
Lemma engine_net n e : net_ok me None n → timers e = timers (Upstream.runtime n) → sched_running e = true → NoDup (ready_tasks e) →
  (∀ q, in_flight n q → q ∉ ready_tasks e) → net_ok me None (Upstream.set_runtime e n).
Proof.
  intros N Ht Hs Hnd Hw. apply (net_frame me n); try done; try apply N; [| by left].
  apply (Upstream.same_core_ok n); [by split_and! | done | apply N].
Qed.

Lemma modes_net n acc stop : net_ok me None n → net_ok me None (Upstream.set_runtime (with_modes acc stop (Upstream.runtime n)) n).
Proof. intros N. apply engine_net; try done; apply N. Qed.

Lemma pop_net n t rest : net_ok me None n → ready_tasks (Upstream.runtime n) = t :: rest →
  net_ok me None (Upstream.set_runtime (set_ready rest (Upstream.runtime n)) n).
Proof.
  intros N Hr. pose proof (no_ready _ _ _ N) as Hnd. rewrite Hr in Hnd. apply list.NoDup_cons in Hnd as [_ Hnd].
  apply engine_net; try done; [apply N |]. intros q Hq. pose proof (no_waiting _ _ _ N q Hq) as Hn. rewrite Hr in Hn. cbn. set_solver.
Qed.

Lemma observe_advances r : reactor_ok r → advances [] r (observe r).
Proof.
  intros [N W T C Fz U]. destruct (observe_modes r) as (t & acc & stop & -> & _). split; try done.
  - split; try done; [by apply modes_net |]. destruct T as [T1 T2 T3 T4 T5 T6 T7]. by split.
  - by rewrite app_nil_r.
Qed.

(** ** One task *)
Definition input_ok (i : TaskInput) : Prop :=
  clock_ok (get_clock i) ∧ clock_ok (put_clock i) ∧ Timers.int64 (query_clock i).

Lemma refused_resumes b : refused b → defined (Upstream.await_resume b).
Proof. intros [_ [Hs | [Hs Ho]]]; unfold Upstream.await_resume; rewrite Hs; [done |]. by destruct (Upstream.result_outcome _). Qed.

Lemma completed_resumes b : completed b → defined (Upstream.await_resume b).
Proof. intros (_ & Hs & _). unfold Upstream.await_resume. rewrite Hs. by destruct (Upstream.result_outcome _). Qed.

Lemma query_deadline c h q now : Timers.int64 now → config_ok (Upstream.config_ c) → Timers.int64 (Upstream.query_timeout (Upstream.config_ c)) →
  Timers.int64 (Upstream.deadline_ (Upstream.query c h q now)).
Proof.
  intros [H1 H2] [Hc _] [_ H3]. unfold Timers.int64, Timers.int64_min, Timers.int64_max in *.
  assert (Upstream.duration_max = 9223372036854775807) as Hd by reflexivity.
  unfold Upstream.query. cbn [Upstream.deadline_ Upstream.new_awaiter]. rewrite Hd.
  destruct (Z.leb_spec now 0), (Z.leb_spec (Upstream.query_timeout (Upstream.config_ c)) (9223372036854775807 - now)); cbn [orb]; lia.
Qed.

Lemma during_start t rest c r : reactor_ok r → ready_tasks (engine r) = t :: rest → coroutines r !! t = Some c →
  during me t rest c r (set_engine (set_ready rest (engine r)) r).
Proof.
  intros [N W T C Fz U] Hr Ht. split; try done. by apply (pop_net _ t).
Qed.

Lemma during_observe t rest c r r1 : during me t rest c r r1 → during me t rest c r (observe r1).
Proof.
  intros []. destruct (observe_modes r1) as (tok & acc & stop & -> & Hs & _). split; try done; [by apply modes_net |].
  intros Hst. by apply Hs, du_stop.
Qed.

Lemma during_loop t rest c r r1 w : during me t rest c r r1 → worker_ok w → upstream_usable_ w = upstream_usable_ (loop r) →
  outbox w = outbox (loop r) → during me t rest c r (set_loop w r1).
Proof. intros []. by split. Qed.

Lemma during_net t rest c r r1 n : during me t rest c r r1 → net_ok me None n → same_frame (net r1) n →
  delete t (Upstream.awaiters n) = delete t (Upstream.awaiters (net r1)) → during me t rest c r (set_net n r1).
Proof.
  intros [] N [S1 S2 S3 S4 S5] Ha. unfold modes, engine in *. injection S2 as S2a S2b S2c.
  split; try done; cbn [net set_net]; unfold engine; cbn [net set_net]; try congruence. rewrite S2c. auto.
Qed.

Context (engine_next : Z → Z * Z).

(** From [await_resume] on. *)
Lemma resume_query_ok i t rest c r r1 s a : reactor_ok r → ready_tasks (engine r) = t :: rest → coroutines r !! t = Some c →
  during me t rest c r r1 → Upstream.awaiters (net r1) !! t = Some a → Upstream.owner_ a = false → defined (Upstream.await_resume a) →
  input_ok i → suspended_ok s → sus_client s = client_of c →
  ∃ r', resume_query engine_next i t s r1 = Val r' ∧ runs_one me t rest r r'.
Proof.
  intros R Hready Ht D Ha Ho Hdef (_ & Hput & _) Hs Hcl. unfold resume_query. rewrite Ha. cbn [from_option_ub mbind outcome_bind].
  destruct (drop_awaiter_net me engine_next (rollback_clock i) (net r1) t a (du_net _ _ _ _ _ _ D) Ha Ho) as (-> & N' & S').
  cbn [mbind outcome_bind].
  destruct (resume_any s (Upstream.await_resume a) (sched_stop (engine r1)) (put_clock i) (sent i) (loop r1) (du_worker _ _ _ _ _ _ D) Hput Hs Hdef)
    as (w & -> & Hw & Hu & Hrep). cbn [mbind outcome_bind]. eexists. split; [done |].
  set (n := Upstream.mkWorld _ _ _) in *. change (runs_one me t rest r (finish_task t (set_loop w (set_net n r1)))).
  assert (during me t rest c r (set_net n r1)) as D' by (apply during_net; [done.. | cbn; by rewrite delete_delete_eq]).
  eapply finish_task_runs; [done.. | cbn; apply lookup_delete_eq | done | done |]. cbn. by rewrite <- Hcl.
Qed.

(** [co_await upstream_channel_.query(...)]. *)
Lemma await_query_ok i t rest d r r1 s : reactor_ok r → ready_tasks (engine r) = t :: rest → coroutines r !! t = Some (Starting d) →
  during me t rest (Starting d) r r1 → Upstream.awaiters (net r1) !! t = None → input_ok i → suspended_ok s →
  sus_client s = client_address d → sched_stop (engine r) = false →
  ∃ r', await_query engine_next me i t s r1 = Val r' ∧ runs_one me t rest r r'.
Proof.
  intros R Hready Ht D Hnone Hin Hs Hcl Hns. unfold await_query.
  set (a := Upstream.query _ _ _ _). set (r2 := observe _).
  destruct (new_awaiter_net me (net r1) t a (du_net _ _ _ _ _ _ D) Hnone eq_refl) as [N2 S2].
  assert (during me t rest (Starting d) r r2) as D2.
  { apply during_observe, during_net; [done.. | cbn; by rewrite delete_insert_eq]. }
  assert (Upstream.awaiters (net r2) !! t = Some a) as Ha.
  { subst r2. destruct (observe_modes (set_net (Upstream.set_awaiter t a (net r1)) r1)) as (? & ? & ? & -> & _). cbn. apply lookup_insert_eq. }
  pose proof (no_ready _ _ _ (rk_net _ _ R)) as Hnd. fold (engine r) in Hnd. rewrite Hready in Hnd. apply list.NoDup_cons in Hnd as [Hnr _].
  destruct (await_suspend_net me engine_next (sched_stop (engine r2)) (send i) (begin_clock i) (rollback_clock i) (net r2) t a)
    as (stays & n & b & -> & N3 & S3 & Haw & Hb); [apply D2 | done.. | fold (engine r2); by rewrite (du_ready _ _ _ _ _ _ D2) |].
  cbn [mbind outcome_bind].
  assert (during me t rest (Starting d) r (set_net n r2)) as D3 by (apply during_net; [done.. | by rewrite Haw, delete_insert_eq]).
  assert (Upstream.awaiters n !! t = Some b) as Hb' by (by rewrite Haw, lookup_insert_eq).
  destruct stays.
  - destruct Hb as [Hf Hd]. eexists. split; [done |]. eapply (suspend_task_runs me t rest _ r (set_net n r2)); try done.
    rewrite Hd. destruct (rk_config _ _ R) as [C1 C2], Hin as (_ & _ & Hq).
    apply query_deadline; [done | by rewrite (du_config _ _ _ _ _ _ D)..].
  - eapply (resume_query_ok i t rest _ r (set_net n r2)); try done; [apply Hb | by apply refused_resumes].
Qed.

(** One resumption of a task by [run_ready]. *)
Lemma run_task_ok i t rest r : reactor_ok r → ready_tasks (engine r) = t :: rest → input_ok i →
  ∃ r', run_task engine_next me i t (set_engine (set_ready rest (engine r)) r) = Val r' ∧ runs_one me t rest r r'.
Proof.
  intros R Hready Hin. pose proof (rk_tasks _ _ R) as T.
  destruct (coroutines r !! t) as [c |] eqn:Ht.
  2: { apply not_elem_of_dom in Ht. destruct Ht. apply (tk_ready _ _ _ _ T). fold (engine r). rewrite Hready. by left. }
  pose proof (during_start t rest c r R Hready Ht) as D. set (r0 := set_engine _ r) in *.
  unfold run_task. change (coroutines r0) with (coroutines r). rewrite Ht. cbn [from_option_ub mbind outcome_bind]. destruct c as [d | s].
  - pose proof (during_observe _ _ _ _ _ D) as D1. set (r1 := observe r0) in *.
    assert (Upstream.awaiters (net r1) !! t = None) as Hnone.
    { subst r1. destruct (observe_modes r0) as (? & ? & ? & -> & _). cbn. apply not_elem_of_dom. rewrite (tk_awaiters _ _ _ _ T). naive_solver. }
    destruct (process_any d (sched_stop (engine r1)) (sched_stop (engine r1)) (get_clock i) (sent i) (loop r1)) as (p & -> & Hp & Hstop);
      [apply D1 | apply Hin |]. cbn [mbind outcome_bind]. destruct p as [w | w s]; cbn [progress_ok] in Hp.
    + destruct Hp as (Hw & Hu & Hrep). eexists. split; [done |]. by eapply finish_task_runs.
    + destruct Hp as (Hw & Hu & Ho & Hus & Hs & Hcl). apply (await_query_ok i t rest d); try done.
      * apply during_loop; [done.. | by rewrite Hu, (du_usable _ _ _ _ _ _ D1) | by rewrite Ho, (du_outbox _ _ _ _ _ _ D1)].
      * apply not_true_iff_false. intros Hst. apply (du_stop _ _ _ _ _ _ D1) in Hst. apply Hstop in Hst. done.
  - destruct (tk_querying _ _ _ _ T t s Ht) as (Hs & a & Ha & Hor).
    assert (completed a) as Hc.
    { destruct Hor as [[Hf _] | [? _]]; [| done]. destruct (no_waiting _ _ _ (rk_net _ _ R) t Hf). fold (engine r). rewrite Hready. by left. }
    eapply (resume_query_ok i t rest (Querying s)); try done; [apply Hc | by apply completed_resumes].
Qed.

(** The loop of [run_ready]. *)
Lemma run_tasks_ok input budget resumed r : reactor_ok r → (∀ k, input_ok (input k)) →
  ∃ r', run_tasks engine_next me input budget resumed r = Val ((resumed + (budget `min` length (ready_tasks (engine r))))%nat, r') ∧
    advances [] r r' ∧ ready_tasks (engine r') = drop budget (ready_tasks (engine r)) ∧ next_task r' = next_task r ∧
    (sched_stop (engine r) = true → sched_stop (engine r') = true ∧ outbox (loop r') = outbox (loop r) ∧
      ∀ q, in_flight (net r') q → in_flight (net r) q).
Proof.
  intros R Hin. revert resumed r R. induction budget as [| budget IH]; intros resumed r R; cbn [run_tasks].
  { exists r. rewrite drop_0, Nat.add_0_r. split_and!; try done. by apply advances_refl. }
  destruct (ready_tasks (engine r)) as [| t rest] eqn:Hready.
  { exists r. rewrite Nat.add_0_r. split_and!; try done. by apply advances_refl. }
  destruct (run_task_ok (input resumed) t rest r R Hready (Hin resumed)) as (r1 & -> & [A1 Hr1 Hs1 Hn1]). cbn [mbind outcome_bind].
  destruct (IH (S resumed) r1 (av_ok _ _ _ _ A1)) as (r' & E & A & Hr & Hn & Hs). exists r'. rewrite E, Hr1. split_and!.
  - cbn [length Nat.min]. do 2 f_equal. lia.
  - by eapply (advances_trans_nil me []).
  - by rewrite Hr, Hr1.
  - congruence.
  - intros Hst. destruct (Hs1 Hst) as (Hst1 & Ho1 & Haw). destruct (Hs Hst1) as (? & Ho & Hf). split_and!; [done | congruence |].
    intros q (a & id & Ha & Hp)%Hf. rewrite Haw in Ha. apply lookup_delete_Some in Ha as [_ Ha]. by exists a, id.
Qed.
End steps.
