(* ===== verification/RuntimeLoop.v ===== *)
(** * A turn of the event loop, and the loop, keep its invariant *)
From stdpp Require Import sorting relations.
From S2P Require Import Prelude DnsCache CuckooFilter DomainBlocklist UpstreamChannel UpstreamClaims ChannelEffects TimerQueue TimerClaims WorkerLoop WorkerClaims Concurrency WorkerSupervisor WorkerRuntime RuntimeInvariant RuntimeQuery RuntimeTasks RuntimeSteps.
Import Worker Reactor.

Section turn.
Context {F : Type} `{Prefilter F}.
Context (me : Z).
Notation Reactor := (Reactor F).
Notation World := (Upstream.World Engine).
Notation reactor_ok := (reactor_ok me).
Notation advances := (advances me).

Lemma advances_app l l' r r' : advances l r r' → advances (l ++ l') r r'.
Proof.
  intros [R O P L S]. split; try done. etransitivity; [exact O |]. rewrite (assoc_L (++)). by apply submseteq_inserts_r.
Qed.

Lemma advances_weaken l r r' : advances [] r r' → advances l r r'.
Proof. apply (advances_app [] l). Qed.

Lemma net_advances r n : reactor_ok r → settled me (net r) n → advances [] r (set_net n r).
Proof.
  intros [N W T C Fz U] [N' S]. split; try done; [| by rewrite app_nil_r].
  split; try done; cbn [net set_net]; [by eapply settles_tasks | by rewrite (se_config _ _ S)].
Qed.

Lemma loop_advances r w : reactor_ok r → worker_ok w → upstream_usable_ w = upstream_usable_ (loop r) → outbox w = outbox (loop r) →
  advances [] r (set_loop w r).
Proof.
  intros [N W T C Fz U] Hw Hu Ho. split; try done; [|].
  - split; try done. cbn [loop set_loop upstream_open]. by rewrite Hu.
  - unfold owed. cbn [loop set_loop coroutines]. by rewrite Ho, app_nil_r.
Qed.

Lemma pending_advances r p : reactor_ok r → advances [] r (set_pending p r).
Proof. intros [N W T C Fz U]. split; try done. by rewrite app_nil_r. Qed.

Lemma stops_advances r t f : reactor_ok r → (stop_ r = None → t = None) → advances [] r (set_stops t f r).
Proof. intros [N W T C Fz U] Ht. split; try done. by rewrite app_nil_r. Qed.

Lemma poll_advances r : reactor_ok r → advances [] r (poll r).2.
Proof.
  intros R. unfold poll. destruct (stop_requested (stop_ r)) as [b t] eqn:E. apply stops_advances; [done |].
  intros Hn. rewrite Hn in E. by injection E as _ <-.
Qed.

(** ** Turns *)

(** The observer has been told of new snapshots, and of nothing else. *)
Definition reports_grow (r r' : Reactor) : Prop := ∃ k, reports r' = (λ l, l ++ replicate k FilterProgress) <$> reports r.

Lemma same_reports r r' : reports r' = reports r → reports_grow r r'.
Proof. intros E. exists 0%nat. rewrite E. destruct (reports r); [cbn; by rewrite app_nil_r | done]. Qed.

Lemma reports_grow_trans r1 r2 r3 : reports_grow r1 r2 → reports_grow r2 r3 → reports_grow r1 r3.
Proof.
  intros [k1 E1] [k2 E2]. exists (k1 + k2)%nat. rewrite E2, E1. destruct (reports r1); [| done]. cbn.
  by rewrite replicate_add, <- (assoc_L (++)).
Qed.

(** From [r] to [r'], by turns of the loop. *)
Record serves (extra : list Z) (r r' : Reactor) : Prop := {
  sv_ok : reactor_ok r';
  sv_owed : owed r' ⊆+ owed r ++ extra;
  sv_reports : reports_grow r r';
  sv_listener : listener_open r' = listener_open r;
  sv_stop : stop_ r = None → stop_ r' = None;
}.

Lemma advances_serves l r r' : advances l r r' → serves l r r'.
Proof. intros [R O P L S]. split; try done. by apply same_reports. Qed.

Lemma serves_trans l1 l2 r1 r2 r3 : serves l1 r1 r2 → serves l2 r2 r3 → serves (l1 ++ l2) r1 r3.
Proof.
  intros [_ O1 P1 L1 S1] [K O2 P2 L2 S2]. split; [done | | by eapply reports_grow_trans | congruence | auto]. etransitivity; [exact O2 |].
  rewrite (assoc_L (++)). by apply submseteq_app.
Qed.

Lemma serves_trans_nil l r1 r2 r3 : serves l r1 r2 → serves [] r2 r3 → serves l r1 r3.
Proof. intros A1 A2. rewrite <- (app_nil_r l). by eapply serves_trans. Qed.

Lemma serves_app l l' r r' : serves l r r' → serves (l ++ l') r r'.
Proof.
  intros [R O P L S]. split; try done. etransitivity; [exact O |]. rewrite (assoc_L (++)). by apply submseteq_inserts_r.
Qed.

Lemma serves_weaken l r r' : serves [] r r' → serves l r r'.
Proof. apply (serves_app [] l). Qed.

Lemma refresh_serves r refreshed : reactor_ok r → (∀ s, refreshed.2 = Some s → snapshot_ok s) →
  let '(b, r') := refresh_snapshot refreshed r in b = refreshed.1 ∧ serves [] r r'.
Proof.
  intros R Hs. unfold refresh_snapshot. split; [done |].
  assert (serves [] r (set_loop (set_snapshot refreshed.2 (loop r)) r)) as A.
  { apply advances_serves, loop_advances; [done | | done | done]. destruct (rk_worker _ _ R) as [H1 H2 H3 H4]. by split. }
  destruct refreshed.1; [| done]. destruct A as [R' O _ L S]. split; try done; [destruct R'; by split |]. by exists 1%nat.
Qed.

(** ** Datagrams of clients *)
Lemma spawn_loop d w (r : Reactor) : spawn d (set_loop w r) = let '(b, r') := spawn d r in (b, set_loop w r').
Proof.
  destruct r as [l n c ro nx st fo pe tf lo uo rp]. unfold spawn, observe. cbn [net set_loop engine forward_ stop_]. unfold engine. cbn [net set_loop].
  destruct (negb (sched_running _)); [done |]. destruct (stop_requested fo) as [[] t]; cbn; [done |].
  destruct (_ || _); [done |]. by destruct (schedule _ _).
Qed.

Lemma spawn_ok d r : reactor_ok r →
  ∃ b r', spawn d r = (b, r') ∧ advances [client_address d] r r' ∧ loop r' = loop r ∧ stop_ r' = stop_ r.
Proof.
  intros R. unfold spawn. pose proof (no_sched _ _ _ (rk_net _ _ R)) as Hrun. fold (engine r) in Hrun. rewrite Hrun. cbn [negb].
  pose proof (observe_advances me r R) as A. 
  assert (loop (observe r) = loop r ∧ stop_ (observe r) = stop_ r) as [El Es] by (destruct (observe_modes r) as (? & ? & ? & -> & _); done).
  set (r1 := observe r) in *. destruct (_ || _); [exists false, r1; split_and!; [done | by apply advances_weaken | done | done] |].
  pose proof A as [R1 _ _ _ _]. pose proof R1 as [N W T C Fz U]. set (t := next_task r1).
  assert (t ∉ dom (coroutines r1)) as Ht by (intros Hx; apply (tk_next _ _ _ _ T) in Hx; subst t; lia).
  assert (t ∉ ready_tasks (engine r1)) as Hr by (intros Hx; apply Ht; by apply (tk_ready _ _ _ _ T)).
  change (engine (set_tasks _ _ _ r1)) with (engine r1).
  assert (schedule (engine r1) t = (true, set_ready (ready_tasks (engine r1) ++ [t]) (engine r1))) as ->.
  { unfold schedule. pose proof (no_sched _ _ _ N) as Hrun1. fold (engine r1) in Hrun1. by rewrite Hrun1, (bool_decide_false _ Hr). }
  eexists true, _. split; [done |]. split_and!; [| done | done]. apply (advances_trans me [] _ r r1); [done |].
  split; try done; [|].
  - split; try done; cbn [net set_engine set_net set_tasks coroutines roots next_task].
    + apply engine_net; try done; [apply N | |].
      * cbn. apply list.NoDup_app. split_and!; [apply N | set_solver | apply NoDup_singleton].
      * intros q Hq. pose proof (no_waiting _ _ _ N q Hq) as Hn. cbn. rewrite not_elem_of_app, list_elem_of_singleton.
        split; [done |]. intros ->. apply Ht. destruct Hq as (a & id & Ha & _). apply elem_of_dom_2 in Ha.
        apply (tk_awaiters _ _ _ _ T) in Ha as [s Hs]. by apply elem_of_dom_2 in Hs.
    + apply not_elem_of_dom in Ht as Hnone. unfold engine in Hr. destruct T as [T1 T2 T3 T4 T5 T6 T7].
      split; cbn [Upstream.runtime Upstream.set_runtime ready_tasks set_ready Upstream.awaiters].
      * apply list.NoDup_cons. split; [by rewrite T2 | done].
      * intros x. rewrite elem_of_cons, dom_insert_L, T2. set_solver.
      * intros x. rewrite dom_insert_L. intros [->%elem_of_singleton | Hx%T3]%elem_of_union; subst t; lia.
      * intros x. rewrite dom_insert_L, elem_of_app, list_elem_of_singleton. intros [Hx%T4 | ->]; set_solver.
      * intros x. rewrite T5. destruct (decide (x = t)) as [-> | Hne]; [rewrite lookup_insert_eq, Hnone; naive_solver | by rewrite lookup_insert_ne].
      * intros x d' [[<- _] | [_ Hx%T6]]%lookup_insert_Some; set_solver.
      * intros x s [[_ [=]] | [_ Hx]]%lookup_insert_Some. destruct (T7 x s Hx) as (Hs & a & Ha & Hor). split; [done |].
        exists a. split; [done |]. destruct Hor as [? | [? ?]]; [by left | right; split; [done | set_solver]].
  - unfold owed. cbn [loop set_engine set_net set_tasks coroutines]. rewrite clients_insert by (by apply not_elem_of_dom).
    rewrite <- (assoc_L (++)). by rewrite (Permutation_cons_append (clients _)).
Qed.

Definition event_client (e : Worker.ListenerEvent) : list Z := match e with Datagram _ client => [client] | ListenerError _ => [] end.

Lemma drain_loop_ok input n t r w : reactor_ok (set_loop w r) → (stop_ r = None → t = None) →
  ∃ t' r' w', drain_loop spawn input n t r w = (t', r', w') ∧ advances (input ≫= event_client) (set_loop w r) (set_loop w' r') ∧
    stop_ r' = stop_ r ∧ (stop_ r = None → t' = None).
Proof.
  assert (∀ r w k, reactor_ok (set_loop w r) → advances [] (set_loop w r) (set_loop (Worker.count k w) r)) as Hcount.
  { intros r0 w0 k R. apply (loop_advances (set_loop w0 r0)); [done | by apply (same_data_ok w0), R | done | done]. }
  assert (∀ r w b, reactor_ok (set_loop w r) → advances [] (set_loop w r) (set_loop (Worker.set_pending b w) r)) as Hpending.
  { intros r0 w0 b R. apply (loop_advances (set_loop w0 r0)); [done | by apply (same_data_ok w0), R | done | done]. }
  assert (∀ t : StopToken, t = None → (stop_requested t).2 = None) as Hpoll by (by intros ? ->).
  revert n t r w. induction input as [| e input IH]; intros n t r w R Ht; cbn [drain_loop];
    destruct (stop_requested t) as [b t1] eqn:Et; assert (stop_ r = None → t1 = None) as Ht1 by (intros Hs; apply Ht, Hpoll in Hs; by rewrite Et in Hs);
    (destruct (b || _); [destruct (stop_requested t1) as [b2 t2] eqn:Et2; eexists t2, r, _; split; [done |]; split_and!;
      [by apply advances_weaken, Hpending | done | intros Hs; apply Ht1, Hpoll in Hs; by rewrite Et2 in Hs] |]).
  { eexists t1, r, _. split; [done |]. split_and!; [by apply Hpending | done | done]. }
  destruct e as [bytes client | errno].
  2: { destruct (_ =? _); [by apply IH |]. eexists t1, r, _. split; [done |]. split_and!; [by apply advances_weaken, Hpending | done | done]. }
  set (d := mkClientDatagram _ client _). pose proof (Hcount r w received_datagrams R) as A1. set (w1 := Worker.count received_datagrams w) in *.
  destruct (spawn_ok d (set_loop w1 r) (av_ok _ _ _ _ A1)) as (sp & r2' & E & A2 & El & Es). rewrite spawn_loop in E.
  destruct (spawn d r) as [b2 r2]. injection E as <- <-. cbn [stop_ set_loop] in Es.
  pose proof (advances_trans me [] _ _ _ _ A1 A2) as A. cbn [bind list_bind event_client app].
  assert (∀ t0 w0, advances [] (set_loop w1 r2) (set_loop w0 r2) → (stop_ r = None → t0 = None) →
    ∃ t' r' w', drain_loop spawn input (n + 1) t0 r2 w0 = (t', r', w') ∧ advances (client :: (input ≫= event_client)) (set_loop w r) (set_loop w' r') ∧
      stop_ r' = stop_ r ∧ (stop_ r = None → t' = None)) as Hrest.
  { intros t0 w0 A0 Ht0. destruct (IH (n + 1)%nat t0 r2 w0 (av_ok _ _ _ _ A0)) as (t' & r' & w' & -> & A' & Es' & Ht'); [by rewrite Es |].
    exists t', r', w'. split; [done |]. split_and!; [| congruence | by rewrite <- Es].
    apply (advances_trans me [client] _ _ (set_loop w0 r2)); [| done]. by eapply (advances_trans_nil me [client]). }
  destruct b2; [by apply Hrest; [apply advances_refl, A2 | ] |].
  destruct (stop_requested t1) as [stopping t2] eqn:Et2. apply Hrest; [| intros Hs; apply Ht1, Hpoll in Hs; by rewrite Et2 in Hs].
  destruct stopping; [apply advances_refl | apply Hcount]; apply A2.
Qed.

Lemma drain_listener_ok (i : Turn F) r : reactor_ok r → advances (listener_input i ≫= event_client) r (drain_listener i r).
Proof.
  intros R. unfold drain_listener. destruct (listener_pending_ (loop r)); [| by apply advances_weaken, advances_refl].
  unfold Worker.drain_listener. assert (set_loop (loop r) r = r) as Er by (by destruct r).
  destruct (drain_loop_ok (listener_input i) 0 (stop_ r) r (loop r)) as (t' & r' & w' & -> & A & Es & Ht); [by rewrite Er | done |].
  rewrite Er in A. rewrite <- (app_nil_r (_ ≫= _)). eapply advances_trans; [exact A |].
  apply (stops_advances (set_loop w' r')); [apply A |]. cbn [stop_ set_loop]. by rewrite Es.
Qed.

(** ** The other parts of a turn *)
Context (engine_next : Z → Z * Z).

Lemma drain_upstream_ok (i : Turn F) r : reactor_ok r → ∃ r', drain_upstream engine_next me i r = Val r' ∧ advances [] r r'.
Proof.
  intros R. unfold drain_upstream. destruct (upstream_pending_ (pending r)); [| exists r; split; [done | by apply advances_refl]].
  destruct (drain_net engine_next me (upstream_input i) kUpstreamReceiveBudget (drain_clock i) (net r) (rk_net _ _ R)) as (d & n & -> & S).
  cbn [mbind outcome_bind]. eexists. split; [done |]. pose proof (net_advances r n R S) as A.
  apply (advances_trans_nil me [] r (set_net n r)); [done | by apply pending_advances, A].
Qed.

Lemma handle_socket_error_ok (i : Turn F) r : reactor_ok r → ∃ r', handle_socket_error engine_next me i r = Val r' ∧ advances [] r r'.
Proof.
  intros R. unfold handle_socket_error. destruct (_ || _); [| exists r; split; [done | by apply advances_refl]].
  set (e := if _ && _ then _ else _). set (p := mkPending _ _ false false).
  assert (∃ n, (if e =? 0 then Val (net (set_pending p r)) else
    '(_, n) ← Upstream.fail_all engine_next Upstream.SocketError e (fail_clock i) me (net (set_pending p r)); Val n) = Val n ∧
    settled me (net r) n) as (n & -> & S).
  { destruct (e =? 0); [exists (net r); split; [done | apply settled_refl, R] |].
    destruct (fail_all_net engine_next me Upstream.SocketError e (fail_clock i) (net r) ltac:(done) (rk_net _ _ R)) as (m & n & E & S).
    cbn [net set_pending]. rewrite E. by exists n. }
  cbn [mbind outcome_bind]. eexists. split; [done |].
  assert (advances [] r (set_net n (set_pending p r))) as A.
  { pose proof (pending_advances r p R) as A. eapply (advances_trans_nil me []); [exact A |]. by apply net_advances; [apply A |]. }
  destruct (upstream_hangup_pending_ (pending r)); [| done].
  destruct A as [[N W T C Fz U] O P L S']. split; try done. split; try done. destruct W as [W1 W2 W3 W4]. by split.
Qed.

Lemma run_ready_ok input budget r : reactor_ok r → (∀ k, input_ok (input k)) →
  ∃ m r', run_ready engine_next me input budget 0 r = Val (m, r') ∧ advances [] r r'.
Proof.
  intros R Hin. unfold run_ready. pose proof (no_sched _ _ _ (rk_net _ _ R)) as Hrun. fold (engine r) in Hrun. rewrite Hrun.
  pose proof (observe_advances me r R) as A.
  destruct (run_tasks_ok me engine_next input budget 0 (observe r) (av_ok _ _ _ _ A) Hin) as (r' & -> & A' & _).
  eexists _, r'. split; [done |]. by eapply (advances_trans_nil me []).
Qed.

Lemma expire_ok (i : Turn F) r : reactor_ok r →
  ∃ n, expire engine_next kTimerBudget (expire_clock i) (completion_clock i) 0 (net r) = Val (0, n) ∧
    advances [] r (set_failures (timer_failures_ r + 0) (set_net n r)).
Proof.
  intros R. destruct (expire_net engine_next me kTimerBudget (expire_clock i) (completion_clock i) 0 (net r) (rk_net _ _ R)) as (n & -> & S & _).
  exists n. split; [done |]. destruct (net_advances r n R S) as [[N W T C Fz U] O P L S'].
  cbn [timer_failures_ set_net] in Fz. rewrite Fz. split; try done.
Qed.

Lemma invariants_hold r : reactor_ok r → runtime_invariants_hold r = true.
Proof. intros [N W T C Fz U]. unfold runtime_invariants_hold. by rewrite Fz, (proj1 (no_quiet _ _ _ N)). Qed.

(** What the worker relies on in a turn: clocks, and that the writer publishes filters that
    [build] has made. *)
Record turn_ok (i : Turn F) : Prop := {
  to_wait : Timers.int64 (wait_clock i);
  to_filter s : (refresh i).2 = Some s → snapshot_ok s;
  to_task k : input_ok (task_input i k);
}.

Lemma refresh_filter_ok (i : Turn F) r : turn_ok i → reactor_ok r →
  let '(b, r') := refresh_filter i r in serves [] r r' ∧ (b = false → (refresh i).1 = false).
Proof.
  intros I R. unfold refresh_filter. destruct (generation_pending_ _); [| by split; [apply advances_serves, advances_refl |]].
  set (p := mkPending _ _ _ _). pose proof (pending_advances r p R) as A.
  pose proof (refresh_serves (set_pending p r) (refresh i) (av_ok _ _ _ _ A) (to_filter _ I)) as Hr.
  destruct (refresh_snapshot _ _) as [b r']. destruct Hr as [-> A']. split; [| done]. eapply (serves_trans_nil []); [by apply advances_serves | done].
Qed.

(** A turn is defined; it ends the loop only when the snapshot cannot be refreshed. *)
Lemma serve_ok (i : Turn F) r : turn_ok i → reactor_ok r →
  ∃ result r', serve engine_next me i r = Val (result, r') ∧ serves (listener_input i ≫= event_client) r r' ∧
    (result = None ∨ result = Some (Supervisor.fatal_exit Supervisor.WorkerRuntimeStep.SynchronizeFilter 0) ∧ (refresh i).1 = false).
Proof.
  intros I R. unfold serve. pose proof (refresh_filter_ok i r I R) as Hr. destruct (refresh_filter i r) as [b r1]. destruct Hr as [A1 Hb].
  destruct b; cbn [negb]; [| eexists _, r1; split; [done |]; split; [by apply serves_weaken | right; auto]].
  pose proof (drain_listener_ok i r1 (sv_ok _ _ _ A1)) as A2.
  destruct (drain_upstream_ok i (drain_listener i r1) (av_ok _ _ _ _ A2)) as (r2 & -> & A3). cbn [mbind outcome_bind].
  destruct (handle_socket_error_ok i r2 (av_ok _ _ _ _ A3)) as (r3 & -> & A4). cbn [mbind outcome_bind].
  destruct (expire_ok i r3 (av_ok _ _ _ _ A4)) as (n & -> & A5). cbn [mbind outcome_bind].
  destruct (run_ready_ok (task_input i) kReadyBudget _ (av_ok _ _ _ _ A5) (to_task _ I)) as (m & r' & -> & A6). cbn [mbind outcome_bind].
  rewrite (invariants_hold r') by apply A6. eexists None, r'. split; [done |]. split; [| by left].
  apply (serves_trans [] _ r r1); [done |]. apply advances_serves. do 4 (eapply (advances_trans_nil me _); [| eassumption]). done.
Qed.

(** ** The loop *)
Lemma wait_time_ok now r : reactor_ok r → Timers.int64 now → ∃ t, wait_time now r = Val t ∧
  (t = 0 ∨ ready_tasks (engine r) = [] ∧ match armed (engine r) with [] => t = -1 | x :: _ => exact_wait now (entry_deadline x) t end).
Proof.
  intros R Hnow. unfold wait_time. destruct (_ || _) eqn:E; [exists 0; auto |]. apply orb_false_iff in E as [_ E].
  apply negb_false_iff, bool_decide_eq_true in E. destruct (armed (engine r)) as [| x l] eqn:Hl; [exists (-1); auto |].
  destruct (wait_timeout_deadline now (entry_deadline x) (first_timer (x :: l)) (entry_id x) []
    (Timers.mkReg (Some 0%nat) (entry_deadline x) 0 (Some 0%nat) (entry_callback x) (entry_context x))) as (t & Ht & Hx);
    [done | cbn; apply lookup_insert_eq | done | done | | by exists t; auto].
  destruct (no_armed _ _ _ (rk_net _ _ R) (entry_id x)) as [Hf _]. fold (engine r) in Hf. rewrite Hl in Hf.
  destruct Hf as [(a & id & Ha & Hp) _]; [cbn; by left |].
  pose proof Ha as Hd. apply elem_of_dom_2, (tk_awaiters _ _ _ _ (rk_tasks _ _ R)) in Hd as [s Hs].
  destruct (tk_querying _ _ _ _ (rk_tasks _ _ R) _ _ Hs) as (_ & b & Hb & Hor). rewrite Ha in Hb. injection Hb as <-.
  assert (x ∈ armed (engine r)) as Hx by (rewrite Hl; by left).
  rewrite <- (no_deadline _ _ _ (rk_net _ _ R) x a Hx Ha). destruct Hor as [[_ ?] | [(Ho & _) _]]; [done |].
  destruct Hp. congruence.
Qed.

Lemma note_event_advances r v : reactor_ok r → advances [] r (note_event r v).
Proof.
  intros R. destruct v; [| by apply advances_refl | by apply pending_advances | by apply pending_advances].
  apply loop_advances; [done | by apply (same_data_ok (loop r)), R | done | done].
Qed.

Lemma note_events_advances l r : reactor_ok r → advances [] r (foldl note_event r l).
Proof.
  revert r. induction l as [| v l IH]; intros r R; cbn [foldl]; [by apply advances_refl |].
  pose proof (note_event_advances r v R) as A. eapply (advances_trans_nil me []); [exact A | by apply IH, A].
Qed.

Lemma poll_stopped (r : Reactor) : (poll r).1 = true → (loop_result (poll r).2).1 = Supervisor.requested_stop ∧ stop_ r ≠ None.
Proof.
  unfold loop_result, poll. destruct (stop_ r) as [[| n] |]; cbn; try done.
Qed.

(** How the loop ends. *)
Definition loop_ended (turns : list (Turn F)) (stop : StopToken) (result : Supervisor.WorkerRunResult) : Prop :=
  result = Supervisor.requested_stop ∧ stop ≠ None ∨
  (∃ i errno, i ∈ turns ∧ wait_result i = inr errno ∧ errno ≠ Upstream.EINTR ∧
    result = Supervisor.fatal_exit Supervisor.WorkerRuntimeStep.WaitForEvents errno) ∨
  ∃ i, i ∈ turns ∧ (refresh i).1 = false ∧ result = Supervisor.fatal_exit Supervisor.WorkerRuntimeStep.SynchronizeFilter 0.

Definition turn_clients (i : Turn F) : list Z := listener_input i ≫= event_client.

Lemma loop_ended_later i turns stop result : loop_ended turns stop result → loop_ended (i :: turns) stop result.
Proof.
  intros [? | [(j & e & Hj & ?) | (j & Hj & ?)]]; [by left | right; left; exists j, e | right; right; exists j]; (split; [by right | done]).
Qed.

Lemma loop_ended_stop turns stop stop' result : loop_ended turns stop' result → (stop = None → stop' = None) → loop_ended turns stop result.
Proof. intros [[? Hs] | ?] Himp; [left | by right]. split; [done |]. intros Hn. by apply Hs, Himp. Qed.

Lemma reactor_loop_ok turns r : Forall turn_ok turns → reactor_ok r →
  ∃ result r', run_loop engine_next me turns r = Val (result, r') ∧ serves (turns ≫= turn_clients) r r' ∧
    match result with Some x => loop_ended turns (stop_ r) x | None => True end.
Proof.
  intros I. revert r. induction I as [| i turns Ii I IH]; intros r R; cbn [run_loop].
  { exists None, r. split; [done |]. split; [by apply advances_serves, advances_refl | done]. }
  assert (∀ r1, serves [] r r1 → (poll r1).1 = true → ∃ result r', Val (Some (loop_result (poll r1).2).1, (loop_result (poll r1).2).2) = (Val (result, r') : outcome Empty_set _) ∧
    serves ((i :: turns) ≫= turn_clients) r r' ∧ match result with Some x => loop_ended (i :: turns) (stop_ r) x | None => True end) as Hstop.
  { intros r1 A Hb. destruct (poll_stopped r1 Hb) as [Hres Hs]. eexists _, _. split; [done |]. split.
    - apply serves_weaken. eapply (serves_trans_nil []); [exact A |]. pose proof (poll_advances r1 (sv_ok _ _ _ A)) as A1.
      apply advances_serves. eapply (advances_trans_nil me []); [exact A1 |]. pose proof (poll_advances (poll r1).2 (av_ok _ _ _ _ A1)) as A2.
      unfold loop_result. by destruct (poll (poll r1).2).
    - left. split; [done |]. intros Hn. by apply Hs, (sv_stop _ _ _ A). }
  pose proof (Hstop r (advances_serves _ _ _ (advances_refl me r R))) as Hstop0. pose proof (poll_advances r R) as A1. destruct (poll r) as [b r1]. cbn [fst snd] in *.
  destruct b; [specialize (Hstop0 eq_refl); by destruct (loop_result r1) |]. clear Hstop0.
  destruct (wait_time_ok (wait_clock i) r1 (av_ok _ _ _ _ A1) (to_wait _ Ii)) as (tm & -> & _).
  assert (∀ l r2, serves l r r2 → ∃ result r', run_loop engine_next me turns r2 = Val (result, r') ∧ serves (l ++ (turns ≫= turn_clients)) r r' ∧
    match result with Some x => loop_ended (i :: turns) (stop_ r) x | None => True end) as Hnext.
  { intros l r2 A. destruct (IH r2 (sv_ok _ _ _ A)) as (result & r' & -> & A' & He). exists result, r'. split; [done |].
    split; [by eapply serves_trans |]. destruct result as [x |]; [| done]. apply loop_ended_later.
    eapply loop_ended_stop; [exact He | apply A]. }
  cbn [bind list_bind]. destruct (wait_result i) as [events | errno] eqn:Ew.
  2: { destruct (errno =? Upstream.EINTR) eqn:Ee; bool_hyps.
       - destruct (Hnext (turn_clients i) r1) as (result & r' & -> & Hr); [by apply serves_weaken, advances_serves |]. by exists result, r'.
       - eexists _, r1. split; [done |]. split; [by apply serves_weaken, advances_serves |]. right. left. exists i, errno. split_and!; try done. by left. }
  pose proof (note_events_advances (take kEventBudget events) r1 (av_ok _ _ _ _ A1)) as A2.
  pose proof (advances_trans_nil me [] _ _ _ A1 A2) as A12. set (r2 := foldl _ _ _) in *.
  pose proof (Hstop r2 (advances_serves _ _ _ A12)) as Hstop2. pose proof (poll_advances r2 (av_ok _ _ _ _ A2)) as A3. destruct (poll r2) as [b r3]. cbn [fst snd] in *.
  destruct b; [specialize (Hstop2 eq_refl); by destruct (loop_result r3) |].
  pose proof (advances_trans_nil me [] _ _ _ A12 A3) as A13.
  destruct (serve_ok i r3 Ii (av_ok _ _ _ _ A13)) as (result & r4 & -> & A4 & Hres). cbn [mbind outcome_bind].
  pose proof (serves_trans [] _ _ _ _ (advances_serves _ _ _ A13) A4) as A14. cbn [app] in A14. fold (turn_clients i) in A14.
  destruct Hres as [-> | [-> Hf]].
  - apply (Hnext (turn_clients i) r4 A14).
  - eexists _, r4. split; [done |]. split.
    + by apply serves_app.
    + right. right. exists i. split_and!; try done. by left.
Qed.
End turn.
