(* ===== verification/RuntimeShutdown.v ===== *)
(** * The end of the event loop: [shutdown_runtime] leaves nothing behind *)
From stdpp Require Import sorting relations.
From S2P Require Import Prelude DnsCache CuckooFilter DomainBlocklist UpstreamChannel UpstreamClaims ChannelEffects TimerQueue TimerClaims WorkerLoop WorkerClaims Concurrency WorkerSupervisor WorkerRuntime RuntimeInvariant RuntimeQuery RuntimeTasks RuntimeSteps RuntimeLoop.
Import Worker Reactor.

Section shutdown.
Context {F : Type} `{Prefilter F}.
Context (me : Z).
Notation Reactor := (Reactor F).
Notation World := (Upstream.World Engine).
Notation reactor_ok := (reactor_ok me).
Notation advances := (advances me).

(** ** Channel and timers are closed *)
Lemma frame_advances r n : reactor_ok r → net_ok me None n → Upstream.awaiters n = Upstream.awaiters (net r) →
  ready_tasks (Upstream.runtime n) = ready_tasks (engine r) →
  Upstream.config_ (Upstream.chan n) = Upstream.config_ (Upstream.chan (net r)) → advances [] r (set_net n r).
Proof.
  intros [N W T C Fz U] N' Ha Hr Hc. split; try done; [| by rewrite app_nil_r].
  split; try done; cbn [net set_net]; [| by rewrite Hc]. unfold engine in Hr. destruct T as [T1 T2 T3 T4 T5 T6 T7].
  split; cbn [coroutines roots next_task set_net]; rewrite ?Ha, ?Hr; try done.
  intros t s Ht. destruct (T7 t s Ht) as (Hs & a & Hq & Hor). split; [done |]. exists a. split; [done |]. unfold in_flight. by rewrite Ha.
Qed.

Lemma close_net n : net_ok me None n →
  ∃ n', Upstream.close me n = (true, n') ∧ net_ok me None n' ∧ Upstream.awaiters n' = Upstream.awaiters n ∧
    Upstream.runtime n' = Upstream.runtime n ∧ Upstream.config_ (Upstream.chan n') = Upstream.config_ (Upstream.chan n).
Proof.
  intros N. unfold Upstream.close. rewrite (net_owner _ _ _ N), andb_false_r. eexists. split; [done |]. split_and!; try done.
  destruct N as [N1 [N2 N2'] N3 N4 N5 N6 N7 N8 N9 N10 N11 N12 N13]. split; try done. destruct N1 as [[P1 P2 P3 P4 P5 P6 P7] H2 H3 H4 H5 H6].
  by split.
Qed.

Lemma close_timers_net n : net_ok me None n → let '(b, e) := close_timers (Upstream.runtime n) in
  b = true ∧ net_ok me None (Upstream.set_runtime e n) ∧ ready_tasks e = ready_tasks (Upstream.runtime n) ∧ modes e = modes (Upstream.runtime n).
Proof.
  intros N. unfold close_timers. split; [done |]. pose proof (no_timers _ _ _ N) as Ht.
  destruct (timers (Upstream.runtime n)) as [| acc l] eqn:Et; [done |]. split; [| done].
  assert (armed (Upstream.runtime n) = l) as El by (unfold armed; by rewrite Et).
  destruct N as [N1 N2 N3 N4 N5 N6 N7 N8 N9 N10 N11 N12 N13]. rewrite El in *. split; try done.
  apply (Upstream.same_core_ok n); [by split_and! | done | done].
Qed.

(** ** The scheduler *)
Context (engine_next : Z → Z * Z).

Definition nothing_flies (n : World) : Prop := ∀ q, ¬ in_flight n q.

Lemma observe_engine (r : Reactor) : ready_tasks (engine (observe r)) = ready_tasks (engine r) ∧ (sched_stop (engine r) = true → sched_stop (engine (observe r)) = true) ∧
  outbox (loop (observe r)) = outbox (loop r) ∧ Upstream.awaiters (net (observe r)) = Upstream.awaiters (net r).
Proof. destruct (observe_modes r) as (t & acc & stop & -> & Hs & _). done. Qed.

Lemma shutdown_loop_ok fuel input budget r : reactor_ok r → (∀ k, input_ok (input k)) → sched_stop (engine r) = true →
  ∃ r', shutdown_loop engine_next me (S fuel) input budget 0 r = Val r' ∧ advances [] r r' ∧ outbox (loop r') = outbox (loop r) ∧
    sched_stop (engine r') = true ∧ (nothing_flies (net r) → nothing_flies (net r')).
Proof.
  intros R Hin Hs. cbn [shutdown_loop]. destruct (_ && _) eqn:E; [| exists r; split_and!; try done; by apply advances_refl].
  bool_hyps. rewrite Nat.sub_0_r. unfold run_ready. destruct (sched_running (engine r)) eqn:Hrun; [| done].
  pose proof (observe_advances me r R) as A. destruct (observe_engine r) as (Hr1 & Hs1 & Ho1 & Ha1).
  destruct (run_tasks_ok me engine_next input budget 0 (observe r) (av_ok _ _ _ _ A) Hin) as (r' & -> & A' & Hr & _ & Hst).
  destruct (Hst (Hs1 Hs)) as (Hs' & Ho' & Hf). rewrite Hr1 in *. cbn [mbind outcome_bind].
  assert (budget `min` length (ready_tasks (engine r)) ≠ 0)%nat as Hpos.
  { intros E0. destruct (ready_tasks (engine r)); [done |]. cbn [length] in E0. lia. }
  rewrite Nat.add_0_l, (proj2 (Nat.eqb_neq _ _) Hpos).
  assert (shutdown_loop engine_next me fuel input budget (budget `min` length (ready_tasks (engine r))) r' = Val r') as ->.
  { destruct fuel; cbn [shutdown_loop]; (destruct (_ && _) eqn:E1; [| done]); bool_hyps; (destruct (ready_tasks (engine r')) eqn:Er'; [done |]);
      apply (f_equal length) in Hr; rewrite length_drop in Hr; simpl in Hr; lia. }
  exists r'. split_and!; try done; [by eapply (advances_trans_nil me []) | congruence |].
  intros Hn q Hq. apply Hf in Hq. apply (Hn q). unfold in_flight in *. by rewrite <- Ha1.
Qed.

(** Frames that are left are destroyed. *)
Record torn (l : list nat) (r : Reactor) : Prop := {
  tn_net : net_ok me None (net r);
  tn_flies : nothing_flies (net r);
  tn_roots : roots r = l;
  tn_nodup : NoDup l;
  tn_dom t : t ∈ l ↔ t ∈ dom (coroutines r);
  tn_awaiters t : t ∈ dom (Upstream.awaiters (net r)) ↔ ∃ s, coroutines r !! t = Some (Querying s);
  tn_done t a : Upstream.awaiters (net r) !! t = Some a → Upstream.owner_ a = false;
}.

Lemma destroy_tasks_ok l clock r : torn l r →
  ∃ r', destroy_tasks engine_next l clock r = Val r' ∧ torn [] r' ∧ loop r' = loop r ∧ reports r' = reports r ∧ timer_failures_ r' = timer_failures_ r ∧
    listener_open r' = listener_open r ∧ Upstream.config_ (Upstream.chan (net r')) = Upstream.config_ (Upstream.chan (net r)) ∧ engine r' = engine r.
Proof.
  revert r. induction l as [| t l IH]; intros r T; cbn [destroy_tasks]; [by exists r |].
  destruct T as [N Hfly Hroots Hnd Hdom Haw Hdone]. apply list.NoDup_cons in Hnd as [Hnot Hnd].
  destruct (coroutines r !! t) as [c |] eqn:Hc; [| apply not_elem_of_dom in Hc; destruct Hc; apply Hdom; by left].
  cbn [from_option_ub mbind outcome_bind].
  assert (∃ n, match c with Starting _ => Val (net r) | Querying _ => drop_awaiter engine_next t clock (net r) end = (Val n : outcome Empty_set _) ∧ net_ok me None n ∧
    Upstream.awaiters n = delete t (Upstream.awaiters (net r)) ∧ Upstream.config_ (Upstream.chan n) = Upstream.config_ (Upstream.chan (net r)) ∧
    Upstream.runtime n = Upstream.runtime (net r)) as (n & -> & N' & Ha & Hcfg & Hrt).
  { destruct c as [d | s].
    - exists (net r). split_and!; try done. rewrite delete_id; [done |]. apply not_elem_of_dom. rewrite Haw. naive_solver.
    - destruct (Upstream.awaiters (net r) !! t) as [a |] eqn:Ha.
      + destruct (drop_awaiter_net me engine_next clock (net r) t a N Ha (Hdone t a Ha)) as (-> & N' & _). by eexists.
      + apply not_elem_of_dom in Ha. destruct Ha. apply Haw. by exists s. }
  cbn [mbind outcome_bind].
  destruct (IH (finish_task t (set_net n r))) as (r' & -> & T' & E1 & E2 & E3 & E4 & E5 & E6).
  { split; cbn [net finish_task set_tasks set_net coroutines roots]; rewrite ?Ha, ?dom_delete_L; try done.
    - intros q (a & id & Hq & Hp). rewrite Ha in Hq. apply lookup_delete_Some in Hq as [_ Hq]. apply (Hfly q). by exists a, id.
    - rewrite Hroots, filter_cons_False by naive_solver. apply filter_all. intros x Hx ->. done.
    - intros x. rewrite elem_of_difference, <- Hdom. set_solver.
    - intros x. rewrite elem_of_difference, Haw, not_elem_of_singleton. destruct (decide (x = t)) as [-> | Hx].
      + rewrite lookup_delete_eq. naive_solver.
      + rewrite lookup_delete_ne by done. naive_solver.
    - intros x a [_ Hx]%lookup_delete_Some. by eapply Hdone. }
  exists r'. split_and!; try done; [by rewrite E5 | rewrite E6; unfold engine; cbn; by rewrite Hrt].
Qed.

(** Nothing is left of tasks, queries, timers and scheduler. *)
Record released (r : Reactor) : Prop := {
  re_tasks : coroutines r = ∅;
  re_roots : roots r = [];
  re_queries : Upstream.awaiters (net r) = ∅;
  re_slots : Upstream.slots_ (Upstream.chan (net r)) = ∅;
  re_channel : Upstream.running_ (Upstream.life_ (Upstream.chan (net r))) = false;
  re_timers : timers (engine r) = TimersIdle;
  re_ready : ready_tasks (engine r) = [];
  re_scheduler : sched_running (engine r) = false;
}.

Lemma shutdown_scheduler_ok input clock r : reactor_ok r → (∀ k, input_ok (input k)) → nothing_flies (net r) →
  ∃ r', shutdown_scheduler engine_next me input clock r = Val r' ∧ coroutines r' = ∅ ∧ roots r' = [] ∧ Upstream.awaiters (net r') = ∅ ∧
    ready_tasks (engine r') = [] ∧ sched_running (engine r') = false ∧ armed (engine r') = [] ∧ timers (engine r') ≠ TimersIdle ∧
    Upstream.chan_ok (net r') ∧ no_failures (net r') ∧ Upstream.on_owner_thread me (Upstream.chan (net r')) = true ∧
    outbox (loop r') = outbox (loop r) ∧ reports r' = reports r ∧ timer_failures_ r' = 0 ∧ listener_open r' = listener_open r.
Proof.
  intros R Hin Hfly. unfold shutdown_scheduler. set (r0 := set_engine _ r).
  assert (advances [] r r0) as A0 by (apply frame_advances; try done; apply modes_net, R).
  destruct (shutdown_loop_ok kShutdownResumeBudget input kShutdownResumeBudget r0 (av_ok _ _ _ _ A0) Hin eq_refl) as (r1 & -> & A1 & Ho1 & Hs1 & Hf1).
  cbn [mbind outcome_bind]. pose proof (av_ok _ _ _ _ A1) as R1. pose proof (no_sched _ _ _ (rk_net _ _ R1)) as Hrun. fold (engine r1) in Hrun. rewrite Hrun.
  assert (torn (roots r1) (set_engine (set_ready [] (engine r1)) r1)) as T.
  { destruct R1 as [N W T C Fz U]. split; try done; try apply T.
    - apply engine_net; try done; [by apply base.NoDup_nil_2 | intros q _; apply not_elem_of_nil].
    - by apply Hf1.
    - intros t a Ha. cbn in Ha. pose proof Ha as Hd. apply elem_of_dom_2, (tk_awaiters _ _ _ _ T) in Hd as [s Hs].
      destruct (tk_querying _ _ _ _ T t s Hs) as (_ & b & Hb & Hor). rewrite Ha in Hb. injection Hb as <-.
      destruct Hor as [[Hq _] | [[Hq _] _]]; [| done]. by apply Hf1 in Hq. }
  destruct (destroy_tasks_ok (roots r1) clock _ T) as (r2 & -> & [N Hfl Hroots _ Hdom Haw _] & El & Ep & Ef & Eli & _ & Ee). cbn [mbind outcome_bind].
  eexists. split; [done |]. cbn [coroutines roots net set_engine set_net Upstream.awaiters Upstream.set_runtime Upstream.chan loop reports timer_failures_ listener_open].
  assert (coroutines r2 = ∅) as Hc by (apply dom_empty_inv_L, set_eq; intros t; rewrite <- Hdom; set_solver).
  split_and!; try done; try apply N.
  - apply dom_empty_inv_L, set_eq. intros t. rewrite Haw, Hc. setoid_rewrite lookup_empty. set_solver.
  - unfold engine in Ee |- *. cbn. by rewrite Ee.
  - change (armed (engine r2) = []). destruct (armed (engine r2)) as [| x l] eqn:Hl; [done |].
    destruct (Hfl (entry_id x)). apply (no_armed _ _ _ N). fold (engine r2). rewrite Hl. cbn. by left.
  - apply (Upstream.same_core_ok (net r2)); [by split_and! | done | apply N].
  - by eapply net_owner.
  - rewrite El. cbn. by rewrite Ho1.
  - rewrite Ep. cbn. rewrite (av_reports _ _ _ _ A1). apply (av_reports _ _ _ _ A0).
  - rewrite Ef. cbn. apply R1.
  - rewrite Eli. cbn. rewrite (av_listener _ _ _ _ A1). apply (av_listener _ _ _ _ A0).
Qed.

(** ** The whole of [shutdown_runtime] *)
Lemma stop_idle (n : World) : Upstream.chan_ok n → no_failures n → Upstream.on_owner_thread me (Upstream.chan n) = true → Upstream.awaiters n = ∅ →
  ∃ n', Upstream.stop me n = (true, n') ∧ Upstream.awaiters n' = ∅ ∧ Upstream.slots_ (Upstream.chan n') = ∅ ∧
    Upstream.running_ (Upstream.life_ (Upstream.chan n')) = false ∧ Upstream.runtime n' = Upstream.runtime n ∧
    Upstream.stats_ (Upstream.chan n') = Upstream.stats_ (Upstream.chan n).
Proof.
  intros Hok [_ Hq] Hown Ha.
  assert (Upstream.slots_ (Upstream.chan n) = ∅) as Hs.
  { apply map_empty. intros id. destruct (_ !! id) as [q |] eqn:E; [| done]. apply (Upstream.co_slot _ Hok) in E as (a & Hqa & _).
    by rewrite Ha, lookup_empty in Hqa. }
  pose proof (Upstream.co_count _ Hok) as Hc. rewrite Hs, map_size_empty in Hc.
  pose proof (Upstream.co_pool _ Hok) as Hp. rewrite Hs, dom_empty_L in Hp.
  unfold Upstream.stop. rewrite Hown, andb_false_r, Hc. cbn [Z.eqb negb Z.of_nat].
  rewrite (validate_idle _ Hp Hs Hc (quarantine_sorted _ Hq)), andb_false_r. by eexists.
Qed.

Lemma shutdown_runtime_ok input clock r : reactor_ok r → (∀ k, input_ok (input k)) →
  ∃ r', shutdown_runtime engine_next me input clock r = Val (true, r') ∧ released r' ∧ runtime_invariants_hold r' = true ∧
    outbox (loop r') = outbox (loop r) ∧ reports r' = reports r ∧ listener_open r' = listener_open r.
Proof.
  intros R Hin. unfold shutdown_runtime. set (r0 := set_engine _ r).
  assert (advances [] r r0) as A0 by (apply frame_advances; try done; apply modes_net, R).
  destruct (close_net (net r0)) as (n1 & -> & N1 & Ha1 & Hr1 & Hc1); [by apply A0 |].
  pose proof (close_timers_net n1 N1) as H2. destruct (close_timers (Upstream.runtime n1)) as [b e]. destruct H2 as (-> & N2 & Hr2 & Hm2).
  set (n2 := Upstream.set_runtime e n1) in *.
  assert (advances [] r0 (set_net n2 r0)) as A2.
  { apply frame_advances; try done; [apply A0 |]. unfold engine. by rewrite <- Hr1, <- Hr2. }
  destruct (fail_all_net engine_next me Upstream.Cancelled 0 clock n2 ltac:(done) N2) as (m & n3 & E3 & S3). unfold Upstream.cancel_all. rewrite E3.
  cbn [mbind outcome_bind].
  destruct (cancel_timers_net engine_next me (length (armed (Upstream.runtime n3))) clock 0 n3) as (n4 & -> & S4 & Hl4); [apply S3 | done |].
  cbn [mbind outcome_bind]. pose proof (settled_trans me _ _ _ S3 S4) as S.
  pose proof (net_advances me (set_net n2 r0) n4 (av_ok _ _ _ _ A2) S) as A4.
  assert (timer_failures_ r0 + 0 = timer_failures_ r0) as -> by lia. change (set_failures _ (set_net n4 r0)) with (set_net n4 (set_net n2 r0)).
  assert (nothing_flies n4) as Hfly.
  { intros q Hq. destruct (no_armed _ _ _ (proj1 S4) q) as [_ Hx]. rewrite Hl4 in Hx. by eapply not_elem_of_nil, Hx. }
  destruct (shutdown_scheduler_ok input clock (set_net n4 (set_net n2 r0)) (av_ok _ _ _ _ A4) Hin Hfly)
    as (r5 & -> & Hc & Hro & Haw & Hrd & Hrun & Harm & Htm & Hok & Hq & Hown & Hob & Hrep & Hfa & Hli). cbn [mbind outcome_bind].
  destruct (stop_idle (net r5) Hok Hq Hown Haw) as (n6 & -> & Ha6 & Hs6 & Hr6 & Hrt6 & Hst6).
  unfold stop_timers. rewrite Hrt6. fold (engine r5). rewrite Harm. cbn [Z.eqb andb].
  eexists. split; [done |]. split_and!; try done.
  unfold runtime_invariants_hold. cbn [timer_failures_ set_net net Upstream.chan Upstream.set_runtime]. by rewrite Hfa, Hst6, (proj1 Hq).
Qed.

(** The end of [run] keeps the result, and nothing more is sent. *)
Lemma finish_run_ok input clock result r : reactor_ok r → (∀ k, input_ok (input k)) →
  ∃ r', finish_run engine_next me input clock result r = Val (result, r') ∧ released r' ∧ outbox (loop r') = outbox (loop r) ∧
    reports r' = reports r ∧ listener_open r' = false.
Proof.
  intros R Hin. unfold finish_run.
  assert (reactor_ok (set_sockets false (upstream_open r) r)) as R1 by (destruct R as [N W T C Fz U]; by split).
  destruct (shutdown_runtime_ok input clock _ R1 Hin) as (r' & -> & Hrel & Hinv & Hob & Hrep & Hli). cbn [mbind outcome_bind negb].
  change (runtime_invariants_hold (capture_runtime_stats r')) with (runtime_invariants_hold r'). rewrite Hinv.
  exists (capture_runtime_stats r'). split; [by destruct (Supervisor.run_outcome result) |]. split_and!; try done. destruct Hrel. by split.
Qed.
End shutdown.
