(* ===== verification/RuntimeClaims.v ===== *)
(** * Properties of the event loop of a worker *)
From stdpp Require Import sorting relations.
From S2P Require Import Prelude DnsParser DnsCache CuckooFilter DomainBlocklist DnsQuery UpstreamChannel UpstreamClaims ChannelEffects TimerQueue TimerClaims WorkerLoop WorkerClaims Concurrency WorkerSupervisor WorkerRuntime RuntimeInvariant RuntimeQuery RuntimeTasks RuntimeSteps RuntimeLoop RuntimeShutdown.
Import Worker Reactor.

(** ** The start of the channel *)
Section channel_start.
Context (engine_next : Z → Z * Z) (shuffle : Z → list Z → list Z * Z) (me : Z).
Notation World := (Upstream.World Engine).

Lemma audit_ids_config ids capacity st c c' seen : Upstream.id_states_ c = Upstream.id_states_ c' → Upstream.slots_ c = Upstream.slots_ c' →
  Upstream.audit_ids ids capacity st c seen = Upstream.audit_ids ids capacity st c' seen.
Proof.
  intros H1 H2. revert seen. induction ids as [| id ids IH]; intros seen; cbn [Upstream.audit_ids]; [done |].
  unfold Upstream.id_state. rewrite H1, H2. case_match; [done |]. apply IH.
Qed.

Lemma validate_config capacity c c' : Upstream.id_states_ c = Upstream.id_states_ c' → Upstream.slots_ c = Upstream.slots_ c' →
  Upstream.free_ids_ c = Upstream.free_ids_ c' → Upstream.retired_ids_ c = Upstream.retired_ids_ c' →
  Upstream.pending_count_ c = Upstream.pending_count_ c' → Upstream.validate_id_pool capacity c = Upstream.validate_id_pool capacity c'.
Proof.
  intros H1 H2 H3 H4 H5. unfold Upstream.validate_id_pool, Upstream.id_state. rewrite H3, H4, H5, H2, H1.
  rewrite (audit_ids_config _ _ _ c c') by done. destruct (_ || _); [done |].
  destruct (Upstream.audit_ids (Upstream.free_ids_ c') _ _ _ _) as [seen |]; [| done]. cbn [mbind option_bind].
  by rewrite (audit_ids_config _ _ _ c c').
Qed.

(** The configuration that the channel has before its first start does not matter. *)
Lemma start_any_config fd config c0 input seed now e w :
  Upstream.start engine_next shuffle fd true config input seed now me (new_world config e) = (true, w) →
  Upstream.start engine_next shuffle fd true config input seed now me (new_world c0 e) = (true, w).
Proof.
  unfold Upstream.start, new_world, new_channel.
  cbn [Upstream.chan Upstream.life_ Upstream.running_ Upstream.pending_count_ Upstream.has_started_ Upstream.runtime Upstream.id_states_
    Upstream.free_ids_ Upstream.retired_ids_ Upstream.random_engine_ Upstream.config_ andb].
  case_match; [done |]. unfold Upstream.initialize_id_pool.
  cbn [Upstream.slots_ Upstream.random_engine_ Upstream.config_ Upstream.stats_ Upstream.pending_count_ Upstream.life_].
  destruct (if Upstream.randomize_transaction_ids config then _ else _) as [free en].
  set (c1 := Upstream.mkChannel _ _ _ _ _ config _ _ _). set (c2 := Upstream.mkChannel _ _ _ _ _ c0 _ _ _).
  rewrite (validate_config _ c1 c2) by done. by destruct (Upstream.validate_id_pool _ c2).
Qed.

(** A channel that has started serves nothing yet. *)
Lemma start_net fd config c0 input seed now e : (∀ s l, (shuffle s l).1 ≡ₚ l) → config_ok config → 0 ≤ fd →
  Upstream.discard_socket_input input = true → timers e = TimersRunning true [] → sched_running e = true → ready_tasks e = [] →
  ∃ n, Upstream.start engine_next shuffle fd true config input seed now me (new_world c0 e) = (true, n) ∧ net_ok me None n ∧
    Upstream.awaiters n = ∅ ∧ Upstream.config_ (Upstream.chan n) = config ∧ Upstream.runtime n = e.
Proof.
  intros Hsh Hcfg Hfd Hin Ht Hs Hr. assert (Upstream.rt_bound e = true) as Hb by (cbn; by rewrite Ht).
  destruct (start_fresh engine_next shuffle Hsh fd config input seed now me e Hcfg Hfd Hb Hin) as (n & En & E & Hok & Hrun & _ & Hc & Ha & _).
  exists n. apply start_any_config with (c0 := c0) in E. split; [done |]. split_and!; [| done | done | by rewrite En].
  destruct (initialize_pool shuffle Hsh config seed (new_channel config) (proj2 Hcfg) eq_refl) as [_ Hret].
  assert (∀ q, ¬ in_flight n q) as Hfly by (intros q (a & id & Hq & _); by rewrite Ha, lookup_empty in Hq).
  assert (Upstream.runtime n = e) as Hrt by (by rewrite En).
  assert (armed e = []) as Harm by (unfold armed; by rewrite Ht).
  split; rewrite ?Hrt, ?Harm, ?Ht, ?Hr, ?Ha; try done.
  - rewrite En. unfold no_failures, started_world, quarantine_ok. cbn [Upstream.chan Upstream.set_chan Upstream.stats_ Upstream.retired_ids_].
    rewrite Hret. split; [| constructor]. unfold Upstream.initialize_id_pool. by destruct (if Upstream.randomize_transaction_ids config then _ else _).
  - by rewrite En.
  - by apply base.NoDup_nil_2.
  - constructor.
  - intros q. split; [set_solver |]. intros [Hq _]. by apply Hfly in Hq.
  - by apply base.NoDup_nil_2.
  - intros q _. apply not_elem_of_nil.
Qed.
End channel_start.

Section run.
Context {F : Type} `{Prefilter F}.
Context (engine_next : Z → Z * Z) (shuffle : Z → list Z → list Z * Z) (me : Z).
Hypothesis shuffle_permutes : ∀ s l, (shuffle s l).1 ≡ₚ l.
Notation Reactor := (Reactor F).
Notation reactor_ok := (reactor_ok me).
Notation serves := (serves me).
Notation SyncPoint := (Supervisor.GateAction * (bool * option (FilterContext F)))%type.

(** A configuration that [is_valid_upstream_config] accepts, a descriptor, and a filter that
    [build] has made. *)
Definition start_input_ok (i : StartInput F) : Prop :=
  config_ok (channel_config i) ∧ Timers.int64 (Upstream.query_timeout (channel_config i)) ∧ 0 ≤ upstream_fd i ∧
  ∀ s, (first_refresh i).2 = Some s → snapshot_ok s.

(** The runtime up to the start of the channel. *)
Definition launched (r : Reactor) : Prop :=
  timers (engine r) = TimersRunning true [] ∧ sched_running (engine r) = true ∧ ready_tasks (engine r) = [].

Lemma start_engine w stop forward observed : ∃ fw e, 
  let r := set_engine e (set_stops stop fw (new_reactor w stop forward observed)) in
  launched r ∧ ∀ i, start_runtime engine_next me shuffle i (new_reactor w stop forward observed) =
    let '(ok, n) := Upstream.start engine_next shuffle (upstream_fd i) true (channel_config i) (stale_input i) (seed i) (start_clock i) me (net r) in
    let r := set_net n r in
    if negb ok then start_failed Supervisor.WorkerRuntimeStep.StartUpstreamChannel r
    else
      let '(ok, r) := refresh_snapshot (first_refresh i) r in
      if ok then (None, report (ReadyReport (Supervisor.mkReadyResult Supervisor.ReadyOutcome None)) r)
      else start_failed Supervisor.WorkerRuntimeStep.SynchronizeFilter r.
Proof.
  destruct (stop_requested forward) as [b fw] eqn:Ef. exists fw, (mkEngine (TimersRunning true []) true (negb b) b []).
  split; [done |]. intros i. unfold start_runtime, start_scheduler, observe. cbn [engine net new_reactor Upstream.runtime sched_running ready_tasks roots].
  rewrite !bool_decide_true by done. cbn [negb orb]. cbn [forward_ set_engine set_net new_reactor]. rewrite Ef.
  unfold start_timers. by destruct b.
Qed.

Lemma shutdown_loop_idle fuel input budget resumed (r : Reactor) : ready_tasks (engine r) = [] →
  shutdown_loop engine_next me fuel input budget resumed r = Val r.
Proof. intros Hr. destruct fuel; cbn [shutdown_loop]; rewrite Hr, andb_false_r; done. Qed.

(** The channel has not started: there is nothing to shut down but timers and scheduler. *)
Lemma finish_unstarted input clock result (r : Reactor) c0 : launched r → net r = new_world c0 (engine r) → coroutines r = ∅ → roots r = [] →
  timer_failures_ r = 0 →
  ∃ r', finish_run engine_next me input clock result r = Val (result, r') ∧ released r' ∧ outbox (loop r') = outbox (loop r) ∧ reports r' = reports r ∧
    listener_open r' = false.
Proof.
  intros (Ht & Hs & Hr) Hn Hc Hro Hf. destruct r as [l n m ro nx st fo pe tf lo uo rp]. cbn [net coroutines roots timer_failures_ reports engine] in *.
  unfold engine in *. cbn [net] in *. destruct (Upstream.runtime n) as [tm sr sa ss rt]. cbn [timers sched_running ready_tasks] in *. subst n m ro tf tm sr rt.
  unfold finish_run, shutdown_runtime, shutdown_scheduler. generalize kShutdownResumeBudget. intros budget.
  cbn [engine net Upstream.runtime set_sockets set_engine set_net Upstream.set_runtime Upstream.chan Upstream.awaiters new_world new_channel
    Upstream.close Upstream.life_ Upstream.running_ andb close_timers armed Upstream.set_chan Upstream.set_life Upstream.cancel_all Upstream.fail_all
    negb orb mbind outcome_bind length cancel_timers set_modes timers set_timers].
  rewrite shutdown_loop_idle by done. clear budget.
  match goal with |- ∃ r', ?x = _ ∧ _ => let y := eval vm_compute in x in replace x with y by (vm_compute; reflexivity) end.
  destruct result as [[] err]; (eexists; split; [reflexivity | done]).
Qed.

(** ** The gates *)
Record quiet (r r' : Reactor) : Prop := {
  qu_ok : reactor_ok r';
  qu_outbox : outbox (loop r') = outbox (loop r);
  qu_tasks : coroutines r' = coroutines r;
  qu_stop : stop_ r = None → stop_ r' = None;
}.

Lemma quiet_same r : reactor_ok r → quiet r r.
Proof. by split. Qed.
Lemma quiet_trans r1 r2 r3 : quiet r1 r2 → quiet r2 r3 → quiet r1 r3.
Proof. intros [_ O1 T1 S1] [R O2 T2 S2]. split; [done | congruence | congruence | auto]. Qed.

Lemma quiet_refresh r x : reactor_ok r → (∀ s, x.2 = Some s → snapshot_ok s) →
  quiet r (refresh_snapshot x r).2 ∧ reports (refresh_snapshot x r).2 = (λ l, l ++ replicate (Nat.b2n x.1) FilterProgress) <$> reports r.
Proof.
  intros R Hx. pose proof (refresh_serves me r x R Hx) as A. unfold refresh_snapshot in *. destruct A as [_ [R' _ _ _ S]]. cbn [snd].
  split; [split; try done; by destruct x.1 |]. destruct x.1; cbn; [done |]. destruct (reports r); [cbn; by rewrite app_nil_r | done].
Qed.

Lemma quiet_poll r : reactor_ok r → quiet r (poll r).2 ∧ reports (poll r).2 = reports r ∧ ((poll r).1 = true → stop_ r ≠ None).
Proof.
  intros R. destruct (poll_advances me r R) as [R' _ P _ S]. unfold poll in *. destruct (stop_requested (stop_ r)) as [b t] eqn:E.
  split_and!; [by split | done |]. cbn. intros -> Hn. by rewrite Hn in E.
Qed.

Lemma quiet_report r x : reactor_ok r → quiet r (report x r).
Proof. intros [N W T C Fz U]. by split. Qed.

(** How [run] ends. *)
Definition refresh_failed (i : StartInput F) (actions : list SyncPoint) (turns : list (Turn F)) : Prop :=
  (first_refresh i).1 = false ∨ (∃ x, x ∈ actions ∧ x.2.1 = false) ∨ ∃ t, t ∈ turns ∧ (refresh t).1 = false.

Inductive run_ended (i : StartInput F) (actions : list SyncPoint) (turns : list (Turn F)) (stop : StopToken) : Supervisor.WorkerRunResult → Prop :=
  | ended_requested : stop ≠ None → run_ended i actions turns stop Supervisor.requested_stop
  | ended_socket : Upstream.discard_socket_input (stale_input i) = false →
      run_ended i actions turns stop (Supervisor.fatal_exit Supervisor.WorkerRuntimeStep.StartUpstreamChannel 0)
  | ended_refresh : refresh_failed i actions turns →
      run_ended i actions turns stop (Supervisor.fatal_exit Supervisor.WorkerRuntimeStep.SynchronizeFilter 0)
  | ended_gate x : (Supervisor.GateStop, x) ∈ actions →
      run_ended i actions turns stop (Supervisor.fatal_exit Supervisor.WorkerRuntimeStep.AwaitActivation 0)
  | ended_wait t errno : t ∈ turns → wait_result t = inr errno → errno ≠ Upstream.EINTR →
      run_ended i actions turns stop (Supervisor.fatal_exit Supervisor.WorkerRuntimeStep.WaitForEvents errno).

Definition actions_ok (actions : list SyncPoint) : Prop := ∀ x s, x ∈ actions → x.2.2 = Some s → snapshot_ok s.

(** What the observer has been told at a gate. *)
Definition gate_told (past : bool) (opened : bool) (r r' : Reactor) : Prop :=
  ∃ k, ((opened = true → past = true) ∧ reports r' = (λ l, l ++ replicate k FilterProgress) <$> reports r) ∨
  past = false ∧ ∃ j, reports r' = (λ l, l ++ replicate k FilterProgress ++ ActivatedReport :: replicate j FilterProgress) <$> reports r.

Lemma told_later past opened k r r1 r' : reports r1 = (λ l, l ++ replicate k FilterProgress) <$> reports r → gate_told past opened r1 r' → gate_told past opened r r'.
Proof.
  intros E (k' & [[Ho Hr] | (Hp & j & Hr)]); exists (k + k')%nat; [left | right]; (split; [done |]); [| exists j];
    rewrite Hr, E; (destruct (reports r); [| done]); cbn; rewrite replicate_add, <- !(assoc_L (++)); done.
Qed.

Definition is_opened (g : Gate) : bool := match g with Opened => true | _ => false end.

Lemma pass_gates_ok past i actions turns r : reactor_ok r → actions_ok actions →
  let '(gate, r') := pass_gates past actions r in quiet r r' ∧ gate_told past (is_opened gate) r r' ∧
    match gate with Ended x => run_ended i actions turns (stop_ r) x | _ => True end.
Proof.
  revert past r. induction actions as [| [a refreshed] actions IH]; intros past r R Ha; cbn [pass_gates].
  { split_and!; [by apply quiet_same | | done]. exists 0%nat. left. split; [done |]. destruct (reports r); [cbn; by rewrite app_nil_r | done]. }
  assert (actions_ok actions) as Ha' by (intros x s Hx; apply Ha; by right).
  assert (∀ past r1, quiet r r1 → let '(gate, r') := pass_gates past actions r1 in quiet r r' ∧ gate_told past (is_opened gate) r1 r' ∧
    match gate with Ended x => run_ended i ((a, refreshed) :: actions) turns (stop_ r) x | _ => True end) as Hnext.
  { intros past1 r1 Q. pose proof (IH past1 r1 (qu_ok _ _ Q) Ha') as Hi. destruct (pass_gates past1 actions r1) as [g r']. destruct Hi as (Q' & Ht & He).
    split_and!; [by eapply quiet_trans | done |]. destruct g as [| x |]; try done.
    inversion He as [Hs | | Hf | y Hy | t e Ht' Hw Hn]; subst x.
    - constructor. intros Hn. by apply Hs, (qu_stop _ _ Q).
    - by constructor.
    - constructor. destruct Hf as [? | [(y & Hy & ?) | ?]]; [by left | right; left; exists y; split; [by right | done] | by right; right].
    - apply (ended_gate _ _ _ _ y). by right.
    - by eapply ended_wait. }
  destruct (quiet_poll r R) as (Qp & Ep & Hp).
  destruct a.
  - destruct (poll r) as [b r1]. cbn [fst snd] in *. split_and!; [done | exists 0%nat; left; split; [done |] |].
    + rewrite Ep. destruct (reports r); [cbn; by rewrite app_nil_r | done].
    + destruct b; [constructor; auto |]. apply (ended_gate _ _ _ _ refreshed). by left.
  - destruct (quiet_refresh r refreshed R) as [Qr Er]; [intros s Hs; apply (Ha (Supervisor.RefreshFilter, refreshed) s); [by left | done] |].
    unfold refresh_snapshot in *. cbn [snd] in *. destruct refreshed.1 eqn:Eb.
    + specialize (Hnext past _ Qr). destruct (pass_gates past actions _) as [g r']. destruct Hnext as (Q & Ht & He).
      split_and!; [done | by eapply told_later | done].
    + split_and!; [done | exists 0%nat; by left |]. constructor. right. left. exists (Supervisor.RefreshFilter, refreshed). split; [by left | done].
  - destruct (poll r) as [b r1]. cbn [fst snd] in *.
    assert (reports r1 = (λ l, l ++ replicate 0 FilterProgress) <$> reports r) as E0 by (rewrite Ep; destruct (reports r); [cbn; by rewrite app_nil_r | done]).
    destruct b; [split_and!; [done | exists 0%nat; by left | constructor; auto] |].
    destruct past; [split_and!; [done | exists 0%nat; by left | done] |].
    specialize (Hnext true (report ActivatedReport r1) (quiet_trans _ _ _ Qp (quiet_report r1 ActivatedReport (qu_ok _ _ Qp)))).
    destruct (pass_gates true actions _) as [g r']. destruct Hnext as (Q & Ht & He). split_and!; [done | | done].
    destruct Ht as (k & [[_ Hr] | [? _]]); [| done]. exists 0%nat. right. split; [done |]. exists k. rewrite Hr. cbn [report reports]. rewrite Ep.
    destruct (reports r); [cbn; by rewrite <- (assoc_L (++)) | done].
Qed.

Lemma await_activation_ok i actions turns r : reactor_ok r → actions_ok actions →
  let '(gate, r') := await_activation actions r in quiet r r' ∧ (is_Some (reports r) → gate_told false (is_opened gate) r r') ∧
    (reports r = None → reports r' = None) ∧ match gate with Ended x => run_ended i actions turns (stop_ r) x | _ => True end.
Proof.
  intros R Ha. unfold await_activation. destruct (reports r) as [l |] eqn:El.
  - pose proof (pass_gates_ok false i actions turns r R Ha) as Hg. destruct (pass_gates false actions r) as [g r']. destruct Hg as (? & ? & ?). by split_and!.
  - destruct (quiet_poll r R) as (Qp & Ep & Hp). destruct (poll r) as [b r1]. cbn [fst snd] in *.
    split_and!; [done | by intros [? ?] | by rewrite Ep | destruct b; [constructor; auto | done]].
Qed.

(** ** [run] *)
Definition ready_report : Report := ReadyReport (Supervisor.mkReadyResult Supervisor.ReadyOutcome None).
Definition init_error_report (step : Supervisor.WorkerRuntimeStep.t) : Report :=
  ReadyReport (Supervisor.mkReadyResult Supervisor.InitErrorOutcome (Some (Supervisor.mkRuntimeError step 0))).

(** What the observer has been told when the worker has the result [result] (or none yet). *)
Definition observer_told (w : Worker.WorkerLoop F) (result : option Supervisor.WorkerRunResult) (r : Reactor) : Prop :=
  (∃ step, reports r = Some [init_error_report step] ∧ result = Some (Supervisor.fatal_exit step 0) ∧ outbox (loop r) = outbox w) ∨
  (∃ k, reports r = Some (FilterProgress :: ready_report :: replicate k FilterProgress) ∧ outbox (loop r) = outbox w) ∨
  ∃ k j, reports r = Some (FilterProgress :: ready_report :: replicate k FilterProgress ++ ActivatedReport :: replicate j FilterProgress).

(** What holds when [run] has its result: before, or instead of, the start of the channel. *)
Definition unstarted (r : Reactor) : Prop :=
  ∃ c0, launched r ∧ net r = new_world c0 (engine r) ∧ coroutines r = ∅ ∧ roots r = [] ∧ timer_failures_ r = 0.

Record body_left (i : StartInput F) (actions : list SyncPoint) (turns : list (Turn F)) (w : Worker.WorkerLoop F) (stop : StopToken) (observed : bool)
    (result : option Supervisor.WorkerRunResult) (r : Reactor) : Prop := {
  bl_state : reactor_ok r ∨ unstarted r ∧ is_Some result;
  bl_owed : owed r ⊆+ (outbox w).*2 ++ (turns ≫= turn_clients);
  bl_ended x : result = Some x → run_ended i actions turns stop x;
  bl_told : observed = true → observer_told w result r;
}.

Lemma loop_run_ended i actions turns stop x : loop_ended turns stop x → run_ended i actions turns stop x.
Proof.
  intros [[-> Hs] | [(t & e & Ht & Hw & He & ->) | (t & Ht & Hf & ->)]]; [by constructor | by eapply ended_wait |].
  constructor. right. right. by exists t.
Qed.

Lemma quiet_owed r r' : quiet r r' → owed r' = owed r.
Proof. intros [_ O T _]. unfold owed. by rewrite O, T. Qed.

Lemma tasks_none (n : Upstream.World Engine) : Upstream.awaiters n = ∅ → ready_tasks (Upstream.runtime n) = [] → tasks_ok n ∅ [] 0.
Proof.
  intros Ha Hr. split; rewrite ?Ha, ?Hr; try (by intros ? ? ?%lookup_empty_Some).
  - by apply base.NoDup_nil_2.
  - intros t. rewrite dom_empty_L. set_solver.
  - intros t. rewrite dom_empty_L. set_solver.
  - intros t Ht. by apply not_elem_of_nil in Ht.
  - intros t. rewrite dom_empty_L. split; [set_solver |]. intros [s Hs]. by rewrite lookup_empty in Hs.
Qed.

(** The start fails when the socket keeps delivering, or when the snapshot cannot be
    refreshed. *)
Definition start_outcome (i : StartInput F) (observed : bool) (failed : option Supervisor.WorkerRunResult) (r : Reactor) : Prop :=
  match failed with
  | None => reactor_ok r ∧ reports r = (if observed then Some [FilterProgress; ready_report] else None)
  | Some x => ∃ step, x = Supervisor.fatal_exit step 0 ∧ reports r = (if observed then Some [init_error_report step] else None) ∧
      (step = Supervisor.WorkerRuntimeStep.StartUpstreamChannel ∧ Upstream.discard_socket_input (stale_input i) = false ∧ unstarted r ∨
       step = Supervisor.WorkerRuntimeStep.SynchronizeFilter ∧ (first_refresh i).1 = false ∧ reactor_ok r)
  end.

Lemma runtime_start_ok w stop forward observed i : worker_ok w → start_input_ok i →
  ∃ failed r, start_runtime engine_next me shuffle i (new_reactor w stop forward observed) = (failed, r) ∧ start_outcome i observed failed r ∧
    outbox (loop r) = outbox w ∧ coroutines r = ∅ ∧ (stop = None → stop_ r = None).
Proof using shuffle_permutes.
  intros Hw (Hcfg & Htime & Hfd & Hflt).
  destruct (start_engine w stop forward observed) as (fw & e & Hl & ->). set (r0 := set_engine e _) in *. cbn [net].
  destruct (Upstream.discard_socket_input (stale_input i)) eqn:Hd.
  2: { assert (Upstream.start engine_next shuffle (upstream_fd i) true (channel_config i) (stale_input i) (seed i) (start_clock i) me (net r0) = (false, net r0)) as ->.
       { unfold Upstream.start. by rewrite Hd, orb_true_r. }
       cbn [negb]. eexists _, _. split; [done |]. split_and!; try done. exists Supervisor.WorkerRuntimeStep.StartUpstreamChannel.
       split_and!; [done | by destruct observed | left]. split_and!; [done.. |]. by exists default_channel_config. }
  destruct Hl as (H1 & H2 & H3).
  destruct (start_net engine_next shuffle me (upstream_fd i) (channel_config i) default_channel_config (stale_input i) (seed i) (start_clock i) (engine r0))
    as (n & E & N & Haw & Hc & Hrt); [done.. |].
  change (net r0) with (new_world default_channel_config (engine r0)). rewrite E. cbn [negb]. set (r1 := set_net n r0).
  assert (reactor_ok r1) as R1.
  { split; cbn [net loop r1 set_net coroutines roots next_task timer_failures_ upstream_open]; try done; [| by rewrite Hc].
    apply tasks_none; [done | by rewrite Hrt]. }
  destruct (quiet_refresh r1 (first_refresh i) R1 Hflt) as [Q1 P1]. unfold refresh_snapshot in *. cbn [snd] in *.
  set (r2 := if (first_refresh i).1 then _ else _) in *.
  assert (reports r1 = if observed then Some [] else None) as P0 by done. rewrite P0 in P1.
  destruct (first_refresh i).1 eqn:Hf; cbn [Nat.b2n replicate] in P1; clearbody r2.
  - pose proof (quiet_trans _ _ _ Q1 (quiet_report r2 ready_report (qu_ok _ _ Q1))) as Q. eexists None, _. split; [done |].
    split_and!; try apply Q. split; [apply Q |]. cbn [reports report]. rewrite P1. by destruct observed.
  - pose proof (quiet_trans _ _ _ Q1 (quiet_report r2 (init_error_report Supervisor.WorkerRuntimeStep.SynchronizeFilter) (qu_ok _ _ Q1))) as Q.
    eexists (Some _), _. split; [done |]. split_and!; try apply Q. exists Supervisor.WorkerRuntimeStep.SynchronizeFilter.
    split_and!; [done | cbn [reports report]; rewrite P1; by destruct observed | right; by split_and!; [| | apply Q]].
Qed.

Lemma nothing_owed (w : Worker.WorkerLoop F) (r : Reactor) l : outbox (loop r) = outbox w → coroutines r = ∅ → owed r ⊆+ (outbox w).*2 ++ l.
Proof.
  intros Ho Hc. unfold owed. rewrite Ho, Hc. change (clients ∅) with (@nil Z). rewrite app_nil_r. by apply submseteq_inserts_r.
Qed.

(** From the readiness on. *)
Lemma serve_body_ok w stop (observed : bool) i actions turns r : reactor_ok r → reports r = (if observed then Some [FilterProgress; ready_report] else None) →
  outbox (loop r) = outbox w → coroutines r = ∅ → (stop = None → stop_ r = None) → actions_ok actions → Forall turn_ok turns →
  ∃ result r', (let '(gate, r) := await_activation actions r in
    match gate with Waiting => Val (None, r) | Ended result => Val (Some result, r) | Opened => run_loop engine_next me turns r end) = Val (result, r') ∧
    body_left i actions turns w stop observed result r'.
Proof.
  intros R Hrep Hout Hcor Hstop Hact Hturns.
  pose proof (await_activation_ok i actions turns r R Hact) as Hg. destruct (await_activation actions r) as [g r4]. destruct Hg as (Q & Htold & _ & Hend).
  assert (owed r4 ⊆+ (outbox w).*2 ++ []) as Howed by (rewrite (quiet_owed _ _ Q); by apply nothing_owed).
  assert (∀ r', observed = true → reports_grow r4 r' → (is_opened g = true ∨ outbox (loop r') = outbox w) → ∀ result, observer_told w result r') as Hobs.
  { intros r' -> [j Hj] Hob result. destruct Htold as (k & Hk); [by rewrite Hrep |]. rewrite Hrep in Hk. right.
    destruct Hk as [[Ho Hr] | (_ & j' & Hr)]; rewrite Hr in Hj; cbn in Hj.
    - left. exists (k + j)%nat. rewrite Hj, replicate_add. split; [done |]. by destruct Hob as [Ho' |]; [apply Ho in Ho' |].
    - right. exists k, (j' + j)%nat. rewrite Hj, replicate_add. by rewrite <- (assoc_L (++)). }
  assert (∀ result, is_opened g = false → (∀ x, result = Some x → run_ended i actions turns stop x) → body_left i actions turns w stop observed result r4) as Hgate.
  { intros result Ho He. split; [left; apply Q | | done |].
    - etransitivity; [exact Howed |]. rewrite app_nil_r. by apply submseteq_inserts_r.
    - intros Hb. apply Hobs; [done | by apply same_reports |]. right. by rewrite (qu_outbox _ _ Q). }
  destruct g as [| x |].
  - exists None, r4. split; [done |]. by apply Hgate.
  - exists (Some x), r4. split; [done |]. apply Hgate; [done |]. intros y [= <-]. inversion Hend; subst; try by econstructor. constructor.
    intros Hn. match goal with Hx : stop_ r ≠ None |- _ => by apply Hx, Hstop end.
  - destruct (reactor_loop_ok me engine_next turns r4 Hturns (qu_ok _ _ Q)) as (result & r5 & -> & S & He). exists result, r5. split; [done |]. split.
    + left. apply S.
    + etransitivity; [apply S |]. rewrite app_nil_r in Howed. by apply submseteq_app.
    + intros x ->. apply loop_run_ended. eapply loop_ended_stop; [exact He |]. intros Hn. by apply (qu_stop _ _ Q), Hstop.
    + intros Hb. apply Hobs; [done | apply S | by left].
Qed.

Lemma run_body_ok w stop forward observed i actions turns :
  worker_ok w → start_input_ok i → actions_ok actions → Forall turn_ok turns →
  ∃ result r, run_body engine_next me shuffle i actions turns (new_reactor w stop forward observed) = Val (result, r) ∧
    body_left i actions turns w stop observed result r.
Proof using shuffle_permutes.
  intros Hw Hi Hact Hturns. unfold run_body.
  destruct (runtime_start_ok w stop forward observed i Hw Hi) as (failed & r & -> & Hout & Ho & Hc & Hs). destruct failed as [x |].
  - destruct Hout as (step & -> & Hrep & Hcase). eexists _, r. split; [done |]. split.
    + destruct Hcase as [(_ & _ & ?) | (_ & _ & ?)]; [right | left]; done.
    + by apply nothing_owed.
    + intros y [= <-]. destruct Hcase as [(-> & ? & _) | (-> & ? & _)]; [by constructor | constructor; by left].
    + intros ->. left. by exists step.
  - destruct Hout as [R Hrep]. by apply serve_body_ok.
Qed.

(** The end of [run], whatever came before. *)
Lemma finish_ok input clock result r : reactor_ok r ∨ unstarted r → (∀ k, input_ok (input k)) →
  ∃ r', finish_run engine_next me input clock result r = Val (result, r') ∧ released r' ∧ outbox (loop r') = outbox (loop r) ∧
    reports r' = reports r ∧ listener_open r' = false.
Proof. intros [R | (c0 & Hl & Hn & Hc & Hr & Hf)] Hin; [by apply (finish_run_ok me) | by eapply finish_unstarted]. Qed.

(** [run]: its result, and what is left, before and after the end. *)
Lemma run_ok w stop forward observed i actions turns input clock :
  worker_ok w → start_input_ok i → actions_ok actions → Forall turn_ok turns → (∀ k, input_ok (input k)) →
  ∃ result r1 r, run_body engine_next me shuffle i actions turns (new_reactor w stop forward observed) = Val (result, r1) ∧
    run engine_next me shuffle i actions turns input clock (new_reactor w stop forward observed) = Val (result, r) ∧
    body_left i actions turns w stop observed result r1 ∧ outbox (loop r) = outbox (loop r1) ∧ reports r = reports r1 ∧
    match result with Some _ => released r ∧ listener_open r = false | None => r = r1 end.
Proof using shuffle_permutes.
  intros Hw Hi Hact Hturns Hin. destruct (run_body_ok w stop forward observed i actions turns Hw Hi Hact Hturns) as (result & r1 & E & B).
  unfold run. rewrite E. cbn [mbind outcome_bind]. destruct result as [x |]; [| by exists None, r1, r1].
  destruct (finish_ok input clock x r1) as (r & -> & Hrel & Ho & Hr & Hl); [by destruct (bl_state _ _ _ _ _ _ _ _ B) as [? | [? _]]; [left | right] | done |].
  by exists (Some x), r1, r.
Qed.

(** What the loop waits for. *)
Lemma wait_time_bound now r : reactor_ok r → Timers.int64 now → ∃ t, wait_time now r = Val t ∧
  (ready_tasks (engine r) ≠ [] → t = 0) ∧ (t < 0 → coroutines r = ∅) ∧
  (∀ q a, Upstream.awaiters (net r) !! q = Some a → in_flight (net r) q →
    0 ≤ t ∧ (Upstream.deadline_ a ≤ now → t = 0) ∧ (0 < t → now + (t - 1) * Timers.nanoseconds_per_millisecond < Upstream.deadline_ a)).
Proof.
  intros R Hnow. destruct (wait_time_ok me now r R Hnow) as (t & -> & Hor). exists t. split; [done |].
  destruct Hor as [-> | [Hr Harm]]; [split_and!; [done | lia | intros; lia] |]. split; [by rewrite Hr |].
  assert (∀ q, in_flight (net r) q → q ∈ entry_id <$> armed (engine r)) as Hin by (intros q Hq; by apply (no_armed _ _ _ (rk_net _ _ R))).
  destruct (armed (engine r)) as [| x l] eqn:Hl.
  - split; [| intros q a _ Hq; by apply Hin, not_elem_of_nil in Hq]. intros _. apply map_empty. intros q.
    destruct (coroutines r !! q) as [[d | s] |] eqn:Hq; [| | done].
    + apply (tk_starting _ _ _ _ (rk_tasks _ _ R)) in Hq. fold (engine r) in Hq. rewrite Hr in Hq. by apply not_elem_of_nil in Hq.
    + destruct (tk_querying _ _ _ _ (rk_tasks _ _ R) q s Hq) as (_ & a & _ & [[Hf _] | [_ Hx]]).
      * by apply Hin, not_elem_of_nil in Hf.
      * fold (engine r) in Hx. rewrite Hr in Hx. by apply not_elem_of_nil in Hx.
  - destruct Harm as (Ht & H0 & Hpos & _). split; [lia |]. intros q a Ha Hq.
    apply Hin, list_elem_of_fmap in Hq as (y & -> & Hy).
    assert (entry_deadline x ≤ Upstream.deadline_ a) as Hd.
    { pose proof (no_deadline _ _ _ (rk_net _ _ R) y a) as Ey. fold (engine r) in Ey. rewrite Hl in Ey. rewrite (Ey Hy Ha).
      pose proof (no_order _ _ _ (rk_net _ _ R)) as Ho. fold (engine r) in Ho. rewrite Hl in Ho. apply StronglySorted_cons in Ho as [Ho _].
      apply elem_of_cons in Hy as [-> | Hy]; [done |]. rewrite list.Forall_forall in Ho. by apply Ho. }
    split_and!; lia.
Qed.
End run.

(** ** Properties *)
Section properties.
Context {F : Type} `{Prefilter F}.
Context (engine_next : Z → Z * Z) (shuffle : Z → list Z → list Z * Z) (me : Z).
Context (w : Worker.WorkerLoop F) (stop forward : StopToken) (observed : bool) (i : StartInput F)
  (actions : list (Supervisor.GateAction * (bool * option (FilterContext F)))) (turns : list (Turn F)) (input : nat → TaskInput) (clock : Z).
Hypothesis shuffle_permutes : ∀ s l, (shuffle s l).1 ≡ₚ l.
Hypothesis worker : worker_ok w.
Hypothesis start_input : start_input_ok i.
Hypothesis gate_input : actions_ok actions.
Hypothesis turn_input : Forall turn_ok turns.
Hypothesis end_input : ∀ k, input_ok (input k).


(** C5: a worker leaves nothing behind.  When [run] returns, no task, query, timer or slot of
    the channel is left, scheduler, timers and channel are stopped and the listener is
    closed; nobody has been answered since the loop was left. *)
Theorem worker_run_releases :
  ∃ result r, run engine_next me shuffle i actions turns input clock (new_reactor w stop forward observed) = Val (result, r) ∧
    (is_Some result → released r ∧ listener_open r = false ∧
       ∃ r1, run_body engine_next me shuffle i actions turns (new_reactor w stop forward observed) = Val (result, r1) ∧
         outbox (loop r) = outbox (loop r1)).
Proof using All.
  destruct (run_ok engine_next shuffle me shuffle_permutes w stop forward observed i actions turns input clock) as (result & r1 & r & Eb & E & _ & Ho & _ & Hr); [done.. |].
  exists result, r. split; [done |]. intros [x ->]. destruct Hr as [? ?]. split_and!; try done. by exists r1.
Qed.

(** C3: only those who ask are answered, and once.  However tasks, queries and timers
    interleave, the clients to which replies were sent are, with multiplicity, among those
    from which datagrams were received. *)
Theorem solicited_replies :
  ∃ result r, run engine_next me shuffle i actions turns input clock (new_reactor w stop forward observed) = Val (result, r) ∧
    (outbox (loop r)).*2 ⊆+ (outbox w).*2 ++ (turns ≫= turn_clients).
Proof using All.
  destruct (run_ok engine_next shuffle me shuffle_permutes w stop forward observed i actions turns input clock) as (result & r1 & r & _ & E & B & Ho & _); [done.. |].
  exists result, r. split; [done |]. rewrite Ho. etransitivity; [| apply B]. by apply submseteq_inserts_r.
Qed.

(** C24: the loop does not oversleep.  As long as the worker runs, the timeout of [epoll_wait]
    is defined; it is 0 while a task is ready, it is infinite only when there is no task at
    all, and it ends within the millisecond after the first deadline of the queries in
    flight. *)
Theorem waits_for_deadlines now : Timers.int64 now →
  ∃ result r, run engine_next me shuffle i actions turns input clock (new_reactor w stop forward observed) = Val (result, r) ∧
    (result = None → ∃ t, wait_time now r = Val t ∧ (ready_tasks (engine r) ≠ [] → t = 0) ∧ (t < 0 → coroutines r = ∅) ∧
       ∀ q a, Upstream.awaiters (net r) !! q = Some a → in_flight (net r) q →
         0 ≤ t ∧ (Upstream.deadline_ a ≤ now → t = 0) ∧ (0 < t → now + (t - 1) * Timers.nanoseconds_per_millisecond < Upstream.deadline_ a)).
Proof using All.
  intros Hnow.
  destruct (run_ok engine_next shuffle me shuffle_permutes w stop forward observed i actions turns input clock) as (result & r1 & r & _ & E & B & _ & _ & Hr); [done.. |].
  exists result, r. split; [done |]. intros ->. subst r1. destruct (bl_state _ _ _ _ _ _ _ _ _ B) as [R | [_ [? ?]]]; [| done]. by apply (wait_time_bound me).
Qed.

(** C25: the observer sees the life of the worker in order: one report of its readiness, a
    failed start as the error with which [run] ends; then, once it is through the gates, one
    report of its activation; new snapshots in between.  Before it is reported as activated the
    worker answers nobody. *)
Theorem observer_protocol : observed = true →
  ∃ result r, run engine_next me shuffle i actions turns input clock (new_reactor w stop forward observed) = Val (result, r) ∧
    observer_told w result r.
Proof using All.
  intros Hobs.
  destruct (run_ok engine_next shuffle me shuffle_permutes w stop forward observed i actions turns input clock) as (result & r1 & r & _ & E & B & Ho & Hr & _); [done.. |].
  exists result, r. split; [done |]. pose proof (bl_told _ _ _ _ _ _ _ _ _ B Hobs) as T. unfold observer_told in *. by rewrite Ho, Hr.
Qed.
End properties.

(** ** A sample run

    A worker with an observer passes its gates, receives two queries and forwards them; both
    time out in the next turn, and then [epoll_wait] fails. *)
#[local] Existing Instance toy_prefilter.

Definition sample_input (k : nat) : TaskInput := mkTaskInput 1000 1000 1000 1000 1000 29 (λ wire, (Z.of_nat (length wire), 0)).
Definition sample_refresh : bool * option (FilterContext Cuckoo.CuckooFilter) := (true, local_filter_snapshot_ sample_worker).
Definition sample_turn (events : list EpollEvent + Z) (datagrams : list Worker.ListenerEvent) (now : Z) : Turn Cuckoo.CuckooFilter :=
  mkTurn now events sample_refresh datagrams [] now 0 now now now sample_input.
Definition sample_turns : list (Turn Cuckoo.CuckooFilter) :=
  [sample_turn (inl [ListenerEvent]) [Datagram sample_query 7; Datagram sample_query 9] 1000;
   sample_turn (inl [GenerationEvent]) [] 5000; sample_turn (inr 9) [] 6000].
Definition sample_start : StartInput Cuckoo.CuckooFilter := mkStartInput 3 sample_config [] 0 500 sample_refresh.
Definition sample_actions : list (Supervisor.GateAction * (bool * option (FilterContext Cuckoo.CuckooFilter))) :=
  [(Supervisor.RefreshFilter, sample_refresh); (Supervisor.GateProceed, sample_refresh); (Supervisor.GateProceed, sample_refresh)].

(** The loop, once the channel has started. *)
Definition sample_reactor : Reactor Cuckoo.CuckooFilter :=
  set_net (started_world toy_shuffle sample_config 3 0 1 (mkEngine (TimersRunning true []) true true false [])) (new_reactor sample_worker None None true).

Example sample_loop_result :
  match run_loop toy_engine 1 sample_turns sample_reactor with
  | Val (result, r) => result = Some (Supervisor.fatal_exit Supervisor.WorkerRuntimeStep.WaitForEvents 9) ∧ (outbox (loop r)).*2 = [7; 9] ∧
      reports r = Some [FilterProgress] ∧ Upstream.stats_ (Upstream.chan (net r)) Upstream.timeouts = 2
  | _ => False
  end.
Proof. vm_compute. done. Qed.

Lemma sample_snapshot s : sample_refresh.2 = Some s → snapshot_ok s.
Proof. apply (wk_snapshot _ sample_worker_ok). Qed.

Lemma sample_start_ok : start_input_ok sample_start.
Proof. split; [exact sample_config_ok |]. split; [split; vm_compute; congruence |]. split; [done | exact sample_snapshot]. Qed.

Lemma sample_actions_ok : actions_ok sample_actions.
Proof. intros x s Hx Hs. apply sample_snapshot. rewrite <- Hs. by repeat (apply elem_of_cons in Hx as [-> | Hx]; [done |]); apply not_elem_of_nil in Hx. Qed.

Lemma sample_input_ok k : input_ok (sample_input k).
Proof. split_and!; split; vm_compute; congruence. Qed.

Lemma sample_turns_ok : Forall turn_ok sample_turns.
Proof. repeat (constructor; [split; [split; vm_compute; congruence | exact sample_snapshot | exact sample_input_ok] |]). constructor. Qed.

Notation sample_run := (run toy_engine 1 toy_shuffle sample_start sample_actions sample_turns sample_input 7000 (new_reactor sample_worker None None true)).


Lemma worker_run_releases_witness :
  ∃ result r, sample_run = Val (result, r) ∧
    (is_Some result → released r ∧ listener_open r = false ∧
       ∃ r1, run_body toy_engine 1 toy_shuffle sample_start sample_actions sample_turns (new_reactor sample_worker None None true) = Val (result, r1) ∧
         outbox (loop r) = outbox (loop r1)).
Proof.
  exact (worker_run_releases toy_engine toy_shuffle 1 sample_worker None None true sample_start sample_actions sample_turns sample_input 7000
    toy_shuffle_permutes sample_worker_ok sample_start_ok sample_actions_ok sample_turns_ok sample_input_ok).
Defined.

Lemma solicited_replies_witness :
  ∃ result r, sample_run = Val (result, r) ∧ (outbox (loop r)).*2 ⊆+ [7; 9].
Proof.
  exact (solicited_replies toy_engine toy_shuffle 1 sample_worker None None true sample_start sample_actions sample_turns sample_input 7000
    toy_shuffle_permutes sample_worker_ok sample_start_ok sample_actions_ok sample_turns_ok sample_input_ok).
Defined.

(** The worker after its first turn: two queries are in flight. *)
Lemma waits_for_deadlines_witness :
  ∃ result r, run toy_engine 1 toy_shuffle sample_start sample_actions (take 1 sample_turns) sample_input 7000 (new_reactor sample_worker None None true) =
      Val (result, r) ∧
    (result = None → ∃ t, wait_time 1500 r = Val t ∧ (ready_tasks (engine r) ≠ [] → t = 0) ∧ (t < 0 → coroutines r = ∅) ∧
       ∀ q a, Upstream.awaiters (net r) !! q = Some a → in_flight (net r) q →
         0 ≤ t ∧ (Upstream.deadline_ a ≤ 1500 → t = 0) ∧ (0 < t → 1500 + (t - 1) * Timers.nanoseconds_per_millisecond < Upstream.deadline_ a)).
Proof.
  apply (waits_for_deadlines toy_engine toy_shuffle 1 sample_worker None None true sample_start sample_actions (take 1 sample_turns) sample_input 7000).
  - exact toy_shuffle_permutes.
  - exact sample_worker_ok.
  - exact sample_start_ok.
  - exact sample_actions_ok.
  - apply Forall_take, sample_turns_ok.
  - exact sample_input_ok.
  - split; vm_compute; congruence.
Defined.

Lemma observer_protocol_witness : ∃ result r, sample_run = Val (result, r) ∧ observer_told sample_worker result r.
Proof.
  exact (observer_protocol toy_engine toy_shuffle 1 sample_worker None None true sample_start sample_actions sample_turns sample_input 7000
    toy_shuffle_permutes sample_worker_ok sample_start_ok sample_actions_ok sample_turns_ok sample_input_ok eq_refl).
Defined.
