(* ===== verification/WorkerSetup.v ===== *)
(** * The set-up of a worker ([WorkerLoop::initialize], [UniqueFd]) and its wake-ups

    Module [Setup]: the system calls of [initialize] in their order, each failure with its
    step and [errno], and the descriptors that the destructors of the local [UniqueFd]s close.
    The kernel is a parameter: what it answers to a call after the calls so far.  The
    specification is the list of steps [setup_plan]; [setup_outcomes] relates the two and
    says which descriptors are open afterwards. *)
From Stdlib Require Import Strings.Byte.
From S2P Require Import Prelude DnsCache UpstreamChannel WorkerLoop Concurrency WorkerSupervisor.

Module Setup.

Inductive EventKind := Listener | Wake | Upstream | Generation.
Inductive SocketOption := ReuseAddr | ReusePort.

(** [EpollAdd]: [EPOLL_CTL_ADD] for [EPOLLIN], and [EPOLLET] if [edge]. *)
Inductive SysCall :=
  | Socket
  | SetSockOpt (fd : Z) (option : SocketOption)
  | Bind (fd port : Z)
  | GetSockName (fd : Z)
  | EpollCreate
  | EventFd
  | Connect (fd : Z) (address : list byte) (port : Z)
  | EpollAdd (epoll fd : Z) (edge : bool) (kind : EventKind)
  | Close (fd : Z).

(** [port_out]: the port that [getsockname] finds, in host order. *)
Record Answer := mkAnswer { result : Z; errno : Z; port_out : Z }.
Abbreviation History := (list (SysCall * Z)).

(** The local descriptors of [initialize]; below 0: none. *)
Record Locals := mkLocals { listener : Z; epoll : Z; wake : Z; generation : Z; upstream_socket : Z }.
Definition no_locals : Locals := mkLocals (-1) (-1) (-1) (-1) (-1).
Definition set_listener (fd : Z) (l : Locals) : Locals := mkLocals fd (epoll l) (wake l) (generation l) (upstream_socket l).
Definition set_epoll (fd : Z) (l : Locals) : Locals := mkLocals (listener l) fd (wake l) (generation l) (upstream_socket l).
Definition set_wake (fd : Z) (l : Locals) : Locals := mkLocals (listener l) (epoll l) fd (generation l) (upstream_socket l).
Definition set_generation (fd : Z) (l : Locals) : Locals := mkLocals (listener l) (epoll l) (wake l) fd (upstream_socket l).
Definition set_upstream (fd : Z) (l : Locals) : Locals := mkLocals (listener l) (epoll l) (wake l) (generation l) fd.

(** The members that [initialize] sets. *)
Record Sockets := mkSockets {
  bound_port_ : Z;
  fds : Locals;
  upstream_channel_config_ : Upstream.ChannelConfig;
}.

Definition EINVAL : Z := 22.

Section setup.
Context (kernel : History → SysCall → Answer) (inet_pton : list byte → bool).

Definition State : Type := Locals * History.
Definition M (A : Type) : Type := State → outcome Supervisor.WorkerInitError A * State.
#[local] Instance M_ret : MRet M := λ A a s, (Val a, s).
#[local] Instance M_bind : MBind M := λ A B f m s,
  match m s with
  | (Val a, s) => f a s
  | (Err e, s) => (Err e, s)
  | (Undef, s) => (Undef, s)
  end.

Definition issue (c : SysCall) (h : History) : Answer * History := let a := kernel h c in (a, h ++ [(c, result a)]).

(** [init_failure]. *)
Definition init_failure {A} (step : Supervisor.WorkerInitStep) (n : Z) : M A := λ s, (Err (Supervisor.mkInitError step n), s).

(** A call whose failure ends [initialize]. *)
Definition require (step : Supervisor.WorkerInitStep) (c : SysCall) : M Answer := λ s,
  let '(a, h) := issue c s.2 in
  if result a <? 0 then init_failure step (errno a) (s.1, h) else (Val a, (s.1, h)).

(** One that opens a descriptor, held by a local [UniqueFd]. *)
Definition open_fd (step : Supervisor.WorkerInitStep) (c : SysCall) (hold : Z → Locals → Locals) : M Z := λ s,
  let '(a, h) := issue c s.2 in
  if result a <? 0 then init_failure step (errno a) (s.1, h) else (Val (result a), (hold (result a) s.1, h)).

(** A call that may fail. *)
Definition attempt (c : SysCall) : M Answer := λ s, let '(a, h) := issue c s.2 in (Val a, (s.1, h)).

Definition set_up (port worker_id : Z) (publication : bool) (config : Worker.UpstreamConfig) : M Sockets :=
  listener ← open_fd Supervisor.CreateSocket Socket set_listener;
  _ ← require Supervisor.ConfigureSocket (SetSockOpt listener ReuseAddr);
  _ ← require Supervisor.ConfigureSocket (SetSockOpt listener ReusePort);
  _ ← require Supervisor.BindSocket (Bind listener port);
  address ← require Supervisor.ReadBoundAddress (GetSockName listener);
  epoll ← open_fd Supervisor.CreateEpoll EpollCreate set_epoll;
  wake ← open_fd Supervisor.CreateWakeEvent EventFd set_wake;
  generation ← (if publication then open_fd Supervisor.CreateGenerationEvent EventFd set_generation else mret (-1));
  if negb (Worker.is_valid_upstream_config inet_pton config) then init_failure Supervisor.ValidateUpstream EINVAL
  else
    upstream_socket ← open_fd Supervisor.CreateUpstreamSocket Socket set_upstream;
    _ ← require Supervisor.ConnectUpstream (Connect upstream_socket (Worker.address config) (Worker.port config));
    _ ← require Supervisor.RegisterListener (EpollAdd epoll listener true Listener);
    _ ← require Supervisor.RegisterWakeEvent (EpollAdd epoll wake false Wake);
    _ ← (if 0 <=? generation then require Supervisor.RegisterGenerationEvent (EpollAdd epoll generation false Generation)
         else mret (mkAnswer 0 0 0));
    _ ← require Supervisor.RegisterUpstream (EpollAdd epoll upstream_socket true Upstream);
    local ← attempt (GetSockName upstream_socket);
    let upstream_seed := Z.land (wrap64 (worker_id * 0x9e37)) 0xffff in
    let upstream_seed := if result local =? 0 then Z.lxor upstream_seed (port_out local) else upstream_seed in
    mret (mkSockets (port_out address) (mkLocals listener epoll wake generation upstream_socket)
            (Upstream.mkChannelConfig (Worker.query_timeout config) (Worker.id_reuse_guard config) (Worker.transaction_id_capacity config)
               upstream_seed true)).

(** [UniqueFd::~UniqueFd] of the locals, the last one first. *)
Definition close_fd (fd : Z) (h : History) : History := if 0 <=? fd then (issue (Close fd) h).2 else h.
Definition destroy_locals (l : Locals) (h : History) : History :=
  close_fd (listener l) (close_fd (epoll l) (close_fd (wake l) (close_fd (generation l) (close_fd (upstream_socket l) h)))).

Definition initialize (port worker_id : Z) (publication : bool) (config : Worker.UpstreamConfig) (h : History)
    : outcome Supervisor.WorkerInitError Sockets * History :=
  match set_up port worker_id publication config (no_locals, h) with
  | (Val sockets, (_, h)) => (Val sockets, h)
  | (Err e, (l, h)) => (Err e, destroy_locals l h)
  | (Undef, (_, h)) => (Undef, h)
  end.
End setup.

(** ** Wake-ups

    One element for each call of [::write] or [::read]; [None]: it is still interrupted. *)
Fixpoint retry (answers : list Answer) : option Answer :=
  match answers with
  | [] => None
  | a :: answers => if (result a <? 0) && (errno a =? Upstream.EINTR) then retry answers else Some a
  end.

(** The write of [request_stop], once stop is requested. *)
Definition request_wakeup (wake_fd : Z) (answers : list Answer) : option unit :=
  if wake_fd <? 0 then Some tt else _ ← retry answers; Some tt.

(** [drain_wakeup], [drain_generation_wakeup]: whatever [::read] returns in the end. *)
Definition drain (answers : list Answer) : option unit := _ ← retry answers; Some tt.

(** [request_filter_refresh]. *)
Definition request_filter_refresh (generation_fd : Z) (answers : list Answer) : option bool :=
  if generation_fd <? 0 then Some false
  else
    a ← retry answers;
    Some ((result a =? 8) || (result a <? 0) && (errno a =? Upstream.EAGAIN)).

(** ** The specification *)

(** The descriptors that are open after some calls. *)
Definition opens (c : SysCall) : bool := match c with Socket | EpollCreate | EventFd => true | _ => false end.
Definition after_call (open : gset Z) (e : SysCall * Z) : gset Z :=
  match e.1 with
  | Close fd => open ∖ {[fd]}
  | c => if opens c && (0 <=? e.2) then {[e.2]} ∪ open else open
  end.
Definition held (h : History) : gset Z := foldl after_call ∅ h.

(** The descriptors of [l] in the order in which they are opened. *)
Definition valid_fd (fd : Z) : list Z := if 0 <=? fd then [fd] else [].
Definition descriptors (l : Locals) : list Z :=
  valid_fd (listener l) ++ valid_fd (epoll l) ++ valid_fd (wake l) ++ valid_fd (generation l) ++ valid_fd (upstream_socket l).

(** The steps up to the check of the configuration, and those after it. *)
Definition local_plan (port : Z) (publication : bool) (l : Locals) : list (Supervisor.WorkerInitStep * SysCall) :=
  [(Supervisor.CreateSocket, Socket);
   (Supervisor.ConfigureSocket, SetSockOpt (listener l) ReuseAddr);
   (Supervisor.ConfigureSocket, SetSockOpt (listener l) ReusePort);
   (Supervisor.BindSocket, Bind (listener l) port);
   (Supervisor.ReadBoundAddress, GetSockName (listener l));
   (Supervisor.CreateEpoll, EpollCreate);
   (Supervisor.CreateWakeEvent, EventFd)] ++
  (if publication then [(Supervisor.CreateGenerationEvent, EventFd)] else []).
Definition upstream_plan (publication : bool) (config : Worker.UpstreamConfig) (l : Locals) : list (Supervisor.WorkerInitStep * SysCall) :=
  [(Supervisor.CreateUpstreamSocket, Socket);
   (Supervisor.ConnectUpstream, Connect (upstream_socket l) (Worker.address config) (Worker.port config));
   (Supervisor.RegisterListener, EpollAdd (epoll l) (listener l) true Listener);
   (Supervisor.RegisterWakeEvent, EpollAdd (epoll l) (wake l) false Wake)] ++
  (if publication then [(Supervisor.RegisterGenerationEvent, EpollAdd (epoll l) (generation l) false Generation)] else []) ++
  [(Supervisor.RegisterUpstream, EpollAdd (epoll l) (upstream_socket l) true Upstream)].

Section outcomes.
Context (kernel : History → SysCall → Answer) (inet_pton : list byte → bool).
(** A descriptor that the kernel hands out is not in use. *)
Context (kernel_opens : ∀ h c, opens c = true → 0 ≤ result (kernel h c) → result (kernel h c) ∉ held h).
Context (port worker_id : Z) (publication : bool) (config : Worker.UpstreamConfig) (h0 : History).

Definition setup_plan (l : Locals) : list (Supervisor.WorkerInitStep * SysCall) :=
  local_plan port publication l ++ upstream_plan publication config l.

(** After the calls [calls], all of them successful, the descriptors [l] are open besides
    those that were open before. *)
Record progress (calls : list SysCall) (l : Locals) (h : History) : Prop := mkProgress {
  pr_history : ∃ done, h = h0 ++ done ∧ done.*1 = calls ∧ Forall (λ e, 0 ≤ e.2) done;
  pr_distinct : NoDup (descriptors l);
  pr_fresh : Forall (λ fd, fd ∉ held h0) (descriptors l);
  pr_held : held h = held h0 ∪ list_to_set (descriptors l);
}.

(** Why [initialize] fails with [e] once the descriptors [l] are open: at the call [k] of the
    plan, with the [errno] of that call; or because the configuration is invalid. *)
Definition failed_at (e : Supervisor.WorkerInitError) (l : Locals) (h : History) : Prop :=
  (∃ k h1 c, setup_plan l !! k = Some (Supervisor.init_step e, c) ∧ progress (take k (setup_plan l)).*2 l h1 ∧
     h = h1 ++ [(c, result (kernel h1 c))] ∧ result (kernel h1 c) < 0 ∧ Supervisor.init_error_number e = errno (kernel h1 c)) ∨
  (e = Supervisor.mkInitError Supervisor.ValidateUpstream EINVAL ∧ Worker.is_valid_upstream_config inet_pton config = false ∧
     progress (local_plan port publication l).*2 l h).

(** The one call that may fail is the last one: it only adds to the seed. *)
Definition set_up_with (s : Sockets) (h : History) : Prop :=
  ∃ h1, let local := kernel h1 (GetSockName (upstream_socket (fds s))) in
    h = h1 ++ [(GetSockName (upstream_socket (fds s)), result local)] ∧
    progress (setup_plan (fds s)).*2 (fds s) h1 ∧
    (∃ h2, h2 ++ [(GetSockName (listener (fds s)), result (kernel h2 (GetSockName (listener (fds s)))))] `prefix_of` h1 ∧
       bound_port_ s = port_out (kernel h2 (GetSockName (listener (fds s))))) ∧
    Worker.is_valid_upstream_config inet_pton config = true ∧
    length (descriptors (fds s)) = (if publication then 5 else 4)%nat ∧
    upstream_channel_config_ s = Upstream.mkChannelConfig (Worker.query_timeout config) (Worker.id_reuse_guard config)
      (Worker.transaction_id_capacity config)
      (Z.lxor ((worker_id * 0x9e37) `mod` 2 ^ 16) (if result local =? 0 then port_out local else 0)) true.

(** ** Lemmas on descriptors *)
Lemma held_snoc h e : held (h ++ [e]) = after_call (held h) e.
Proof. unfold held. by rewrite foldl_app. Qed.

Lemma held_same h c r : (opens c = false ∨ r < 0) → (∀ fd, c ≠ Close fd) → held (h ++ [(c, r)]) = held h.
Proof.
  intros Hc Hn. rewrite held_snoc. unfold after_call. cbn [fst snd].
  assert (opens c && (0 <=? r) = false) as E by (destruct Hc as [-> | ?]; [done |]; destruct (opens c); cbn [andb]; [lia | done]).
  destruct c; cbn [opens andb] in *; rewrite ?E; try done. by destruct (Hn fd).
Qed.

Lemma held_opened h c r : opens c = true → 0 ≤ r → held (h ++ [(c, r)]) = {[r]} ∪ held h.
Proof. intros Hc Hr. rewrite held_snoc. unfold after_call. cbn [fst snd]. destruct c; try done; cbn [opens andb]; by rewrite (proj2 (Z.leb_le _ _)). Qed.

Lemma valid_fd_opened fd : 0 ≤ fd → valid_fd fd = [fd].
Proof. intros H. unfold valid_fd. by rewrite (proj2 (Z.leb_le _ _)). Qed.

Lemma progress_step calls l h c r : progress calls l h → 0 ≤ r → opens c = false → (∀ fd, c ≠ Close fd) → progress (calls ++ [c]) l (h ++ [(c, r)]).
Proof.
  intros [(done & -> & Hc & Ha) Hd Hf Hh] Hr Ho Hn. split; [| done | done |].
  - exists (done ++ [(c, r)]). rewrite fmap_app, app_assoc, Forall_app, Forall_singleton, Hc. done.
  - rewrite held_same by auto. done.
Qed.

Lemma progress_open calls l h c l' : let r := result (kernel h c) in
  progress calls l h → 0 ≤ r → opens c = true → descriptors l' = descriptors l ++ [r] → progress (calls ++ [c]) l' (h ++ [(c, r)]).
Proof.
  intros r [(done & -> & Hc & Ha) Hd Hf Hh] Hr Ho El. pose proof (kernel_opens (h0 ++ done) c Ho Hr) as K. rewrite Hh in K. fold r in K. apply not_elem_of_union in K as [Kh Kl].
  rewrite elem_of_list_to_set in Kl. split; rewrite ?El.
  - exists (done ++ [(c, r)]). rewrite fmap_app, app_assoc, Forall_app, Forall_singleton, Hc. done.
  - apply list.NoDup_app. split_and!; [done | set_solver | apply NoDup_singleton].
  - by rewrite Forall_app, Forall_singleton.
  - rewrite held_opened by done. rewrite Hh, list_to_set_app_L. set_solver.
Qed.

(** ** Destruction of the locals *)
Lemma close_fd_list fd h : close_fd kernel fd h = foldl (λ h fd, close_fd kernel fd h) h (valid_fd fd).
Proof. unfold valid_fd. destruct (0 <=? fd) eqn:E; [done |]. unfold close_fd. by rewrite E. Qed.

Lemma valid_fd_reverse fd : reverse (valid_fd fd) = valid_fd fd.
Proof. unfold valid_fd. by destruct (0 <=? fd). Qed.

Lemma destroy_descriptors l h : destroy_locals kernel l h = foldl (λ h fd, close_fd kernel fd h) h (reverse (descriptors l)).
Proof. unfold destroy_locals, descriptors. rewrite !reverse_app, !valid_fd_reverse, !foldl_app. by rewrite !(close_fd_list _ _). Qed.

Lemma close_fd_spec fd h : 0 ≤ fd → ∃ r, close_fd kernel fd h = h ++ [(Close fd, r)] ∧ held (h ++ [(Close fd, r)]) = held h ∖ {[fd]}.
Proof. intros Hf. unfold close_fd. rewrite (proj2 (Z.leb_le _ _)) by done. eexists. split; [done |]. by rewrite held_snoc. Qed.

Lemma close_all fds h : Forall (λ fd, 0 ≤ fd) fds → ∃ closes,
  foldl (λ h fd, close_fd kernel fd h) h fds = h ++ closes ∧ closes.*1 = Close <$> fds ∧ held (h ++ closes) = held h ∖ list_to_set fds.
Proof.
  revert h. induction fds as [| fd fds IH]; intros h Hf; cbn [foldl].
  - exists []. rewrite app_nil_r. split_and!; [done.. | set_solver].
  - apply list.Forall_cons in Hf as [Hfd Hf]. destruct (close_fd_spec fd h Hfd) as (r & -> & Hr).
    destruct (IH (h ++ [(Close fd, r)]) Hf) as (closes & -> & Hc & Hh). exists ((Close fd, r) :: closes).
    rewrite <- app_assoc in *. cbn. rewrite Hc. split_and!; [done.. |]. cbn in Hh. rewrite Hh, Hr. set_solver.
Qed.

Lemma descriptors_valid l : Forall (λ fd, 0 ≤ fd) (descriptors l).
Proof.
  assert (∀ fd, Forall (λ fd, 0 ≤ fd) (valid_fd fd)) as V.
  { intros fd. unfold valid_fd. destruct (0 <=? fd) eqn:E; [| done]. apply Forall_singleton. lia. }
  unfold descriptors. rewrite !Forall_app. done.
Qed.

(** Whatever is open is closed again, and nothing else. *)
Lemma destroy_locals_spec l h : held h = held h0 ∪ list_to_set (descriptors l) → Forall (λ fd, fd ∉ held h0) (descriptors l) →
  ∃ closes, destroy_locals kernel l h = h ++ closes ∧ closes.*1 = Close <$> reverse (descriptors l) ∧ held (h ++ closes) = held h0.
Proof.
  intros Hh Hf. rewrite destroy_descriptors. destruct (close_all (reverse (descriptors l)) h) as (closes & -> & Hc & Hr).
  - apply Forall_reverse, descriptors_valid.
  - exists closes. split_and!; [done.. |]. rewrite Hr, Hh. rewrite Forall_forall in Hf. apply set_eq. intros x.
    rewrite elem_of_difference, elem_of_union, !elem_of_list_to_set, elem_of_reverse. split; [intros [[Hx | Hx] Hn]; [done | by destruct Hn] |].
    intros Hx. split; [by left |]. intros Hin. by apply (Hf x (proj1 (list_elem_of_In _ _) Hin)).
Qed.

(** ** The program of [initialize] against its plan *)
Definition wp {A} (m : M A) (Q : A → State → Prop) (s : State) : Prop :=
  match m s with
  | (Val a, s) => Q a s
  | (Err e, s) => failed_at e s.1 s.2
  | (Undef, _) => False
  end.

Lemma setup_bind {A B} (m : M A) (f : A → M B) Q s : wp m (λ a, wp (f a) Q) s → wp (M_bind _ _ f m) Q s.
Proof. unfold wp, M_bind. by destruct (m s) as [[| |] ?]. Qed.

Lemma setup_ret {A} (a : A) Q s : Q a s → wp (M_ret _ a) Q s.
Proof. done. Qed.

Lemma wp_require step c Q calls l h : progress calls l h →
  calls = (take (length calls) (setup_plan l)).*2 → setup_plan l !! length calls = Some (step, c) → opens c = false → (∀ fd, c ≠ Close fd) →
  (let a := kernel h c in progress (calls ++ [c]) l (h ++ [(c, result a)]) → Q a (l, h ++ [(c, result a)])) →
  wp (require kernel step c) Q (l, h).
Proof.
  intros Hp Ec Hs Ho Hn HQ. unfold wp, require, issue. cbn [fst snd]. destruct (_ <? 0) eqn:E.
  - left. exists (length calls), h, c. cbn [fst snd Supervisor.init_step Supervisor.init_error_number]. rewrite <- Ec. split_and!; try done. lia.
  - apply HQ. apply progress_step; try done. lia.
Qed.

Lemma wp_open step c hold Q calls l h : progress calls l h →
  calls = (take (length calls) (setup_plan l)).*2 → setup_plan l !! length calls = Some (step, c) → opens c = true →
  (∀ r, 0 ≤ r → descriptors (hold r l) = descriptors l ++ [r]) →
  (let r := result (kernel h c) in 0 ≤ r → progress (calls ++ [c]) (hold r l) (h ++ [(c, r)]) → Q r (hold r l, h ++ [(c, r)])) →
  wp (open_fd kernel step c hold) Q (l, h).
Proof.
  intros Hp Ec Hs Ho Hn HQ. unfold wp, open_fd, issue. cbn [fst snd]. destruct (_ <? 0) eqn:E.
  - left. exists (length calls), h, c. cbn [fst snd Supervisor.init_step Supervisor.init_error_number]. rewrite <- Ec. split_and!; try done. lia.
  - apply HQ; [lia |]. apply (progress_open calls l); try done; [lia |]. apply Hn. lia.
Qed.

(** The check of the configuration and the end of [initialize] are the same whether there is
    a publication or not. *)
Lemma wp_validate (m : M Sockets) Q l h : progress (local_plan port publication l).*2 l h →
  (Worker.is_valid_upstream_config inet_pton config = true → wp m Q (l, h)) →
  wp (if negb (Worker.is_valid_upstream_config inet_pton config) then init_failure Supervisor.ValidateUpstream EINVAL else m) Q (l, h).
Proof. intros Hp Hm. destruct (Worker.is_valid_upstream_config inet_pton config) eqn:E; cbn [negb]; [by apply Hm |]. by right. Qed.

End outcomes.

Section program.
Context (kernel : History → SysCall → Answer) (inet_pton : list byte → bool).
Context (kernel_opens : ∀ h c, opens c = true → 0 ≤ result (kernel h c) → result (kernel h c) ∉ held h).
Context (port worker_id : Z) (config : Worker.UpstreamConfig) (h0 : History).

#[local] Ltac list_descriptors := unfold no_locals, descriptors;
  cbn [listener epoll wake generation upstream_socket set_listener set_epoll set_wake set_generation set_upstream];
  repeat match goal with H : 0 ≤ ?fd |- context [valid_fd ?fd] => rewrite (valid_fd_opened fd H) end;
  change (valid_fd (-1)) with (@nil Z); by rewrite ?app_nil_r.
#[local] Ltac required := eapply setup_bind, wp_require; [eassumption | reflexivity | reflexivity | reflexivity | done |].
#[local] Ltac opened fd := eapply setup_bind, wp_open; [apply kernel_opens | eassumption | reflexivity | reflexivity | reflexivity | intros ? ?; list_descriptors |];
  let H := fresh "H" fd in intros fd H ?; clearbody fd.

Lemma upstream_seed_eq : Z.land (wrap64 (worker_id * 0x9e37)) 0xffff = (worker_id * 0x9e37) `mod` 2 ^ 16.
Proof.
  change 0xffff with (Z.ones 16). rewrite Z.land_ones by done. apply Z.mod_mod_divide. by exists (2 ^ 48).
Qed.

Lemma setup_finishes publication l l' h h2 : let address := kernel h2 (GetSockName (listener l)) in
  progress h0 (setup_plan port publication config l).*2 l h → h2 ++ [(GetSockName (listener l), result address)] `prefix_of` h →
  Worker.is_valid_upstream_config inet_pton config = true → length (descriptors l) = (if publication then 5 else 4)%nat →
  wp kernel inet_pton port publication config h0
    (M_bind _ _ (λ local, let upstream_seed := Z.land (wrap64 (worker_id * 0x9e37)) 0xffff in
       let upstream_seed := if result local =? 0 then Z.lxor upstream_seed (port_out local) else upstream_seed in
       M_ret _ (mkSockets (port_out address) l (Upstream.mkChannelConfig (Worker.query_timeout config) (Worker.id_reuse_guard config)
         (Worker.transaction_id_capacity config) upstream_seed true))) (attempt kernel (GetSockName (upstream_socket l))))
    (λ s '(_, h), set_up_with kernel inet_pton port worker_id publication config h0 s h) (l', h).
Proof.
  intros address Hp H2 Hv Hl. unfold wp, M_bind, attempt, issue. cbn. exists h. split_and!; try done; cbn.
  - by exists h2.
  - rewrite upstream_seed_eq. destruct (result _ =? 0); [done |]. by rewrite Z.lxor_0_r.
Qed.

#[local] Ltac finished l := eapply (setup_finishes _ l);
  [eassumption | repeat (first [reflexivity | apply prefix_app_r]) | done |list_descriptors].

Lemma set_up_spec publication : progress h0 [] no_locals h0 →
  wp kernel inet_pton port publication config h0 (set_up kernel inet_pton port worker_id publication config)
    (λ s '(_, h), set_up_with kernel inet_pton port worker_id publication config h0 s h) (no_locals, h0).
Proof.
  intros H0. unfold set_up. destruct publication.
  - opened fd1. do 3 (required; intros ? ?). required; intros address ?. opened fd2. opened fd3. opened fd4.
    apply wp_validate; [done |]. intros Hv. opened fd5. do 3 (required; intros ? ?).
    rewrite (proj2 (Z.leb_le _ _)) by done. do 2 (required; intros ? ?).
    finished (mkLocals fd1 fd2 fd3 fd4 fd5).
  - opened fd1. do 3 (required; intros ? ?). required; intros address ?. opened fd2. opened fd3.
    apply wp_validate; [done |]. intros Hv. opened fd5. do 3 (required; intros ? ?).
    apply setup_bind, setup_ret. required; intros ? ?.
    finished (mkLocals fd1 fd2 fd3 (-1) fd5).
Qed.

Lemma progress_begins : progress h0 [] no_locals h0.
Proof. split; [exists []; by rewrite app_nil_r | apply NoDup_nil_2 | done |]. set_solver. Qed.

(** The state in which [initialize] fails is the one before it. *)
Lemma failed_held publication e l h : failed_at kernel inet_pton port publication config h0 e l h →
  held h = held h0 ∪ list_to_set (descriptors l) ∧ Forall (λ fd, fd ∉ held h0) (descriptors l).
Proof.
  intros [(k & h1 & c & Hk & Hp & -> & Hr & _) | (_ & _ & Hp)]; [| by destruct Hp].
  rewrite held_same; [by destruct Hp | by right |]. intros fd ->. apply list_elem_of_lookup_2 in Hk.
  unfold setup_plan, local_plan, upstream_plan in Hk. destruct publication; set_solver.
Qed.

(** C37: [initialize] does what it has to, in order, or takes everything back.  It is defined.
    If it succeeds, the configuration is valid, all calls of the plan were made in its order
    and succeeded, five new descriptors are open (four without a publication), the port is
    the one that the listener was bound to, and the seed of the channel comes from worker and
    local port.  If it fails, the error names the first call that failed and its [errno], or
    the invalid configuration, the calls before it succeeded, no other was made, and every
    descriptor opened so far has been closed, the last one first: as many are open as before. *)
Theorem setup_outcomes publication :
  match initialize kernel inet_pton port worker_id publication config h0 with
  | (Val s, h) => set_up_with kernel inet_pton port worker_id publication config h0 s h ∧ held h = held h0 ∪ list_to_set (descriptors (fds s))
  | (Err e, h) => held h = held h0 ∧ ∃ l h1 closes, h = h1 ++ closes ∧ closes.*1 = Close <$> reverse (descriptors l) ∧
      failed_at kernel inet_pton port publication config h0 e l h1
  | (Undef, _) => False
  end.
Proof using All.
  pose proof (set_up_spec publication progress_begins) as S. unfold wp in S. unfold initialize.
  destruct (set_up _ _ _ _ _ _ _) as [[s | e |] [l h]]; [| | done].
  - split; [done |]. destruct S as (h1 & -> & Hp & _). rewrite held_same; [by destruct Hp | by left | done].
  - destruct (failed_held publication e l h S) as [Hh Hf]. destruct (destroy_locals_spec kernel kernel_opens h0 l h Hh Hf) as (closes & -> & Hc & Hr).
    split; [done |]. by exists l, h, closes.
Qed.
End program.

(** ** Wake-ups *)

(** An interruption is not an outcome: what counts is the first answer that is none. *)
Lemma retry_first (interrupted : list Answer) a rest : Forall (λ a, result a < 0 ∧ errno a = Upstream.EINTR) interrupted →
  ¬ (result a < 0 ∧ errno a = Upstream.EINTR) → retry (interrupted ++ a :: rest) = Some a.
Proof.
  intros Hi Ha. induction Hi as [| b l [Hb Eb] _ IH]; cbn.
  - destruct ((_ <? 0) && _) eqn:E; [| done]. destruct Ha. apply andb_prop in E as [? ?]. lia.
  - by rewrite (proj2 (Z.ltb_lt _ _) Hb), Eb, Z.eqb_refl.
Qed.

(** A refresh is requested if the counter has been raised, or cannot be raised further because
    a wake-up is outstanding. *)
Lemma refresh_requested fd interrupted a rest : Forall (λ a, result a < 0 ∧ errno a = Upstream.EINTR) interrupted →
  ¬ (result a < 0 ∧ errno a = Upstream.EINTR) → 0 ≤ fd →
  ∃ b, request_filter_refresh fd (interrupted ++ a :: rest) = Some b ∧ (b = true ↔ result a = 8 ∨ result a < 0 ∧ errno a = Upstream.EAGAIN).
Proof.
  intros Hi Ha Hf. unfold request_filter_refresh. rewrite (proj2 (Z.ltb_ge _ _)) by done. rewrite retry_first by done.
  eexists. split; [done |]. rewrite orb_true_iff, andb_true_iff. lia.
Qed.

(** ** A sample kernel

    It hands out descriptors above all numbers it has returned, and fails as [failing] says. *)
Definition sample_kernel (failing : SysCall → option Z) (h : History) (c : SysCall) : Answer :=
  match failing c with
  | Some errno => mkAnswer (-1) errno 0
  | None => mkAnswer (if opens c then foldr Z.max 2 h.*2 + 1 else 0) 0 53
  end.

Lemma held_bound h x : x ∈ held h → x ≤ foldr Z.max 2 h.*2.
Proof.
  assert (∀ l (y : Z), y ∈ l → y ≤ foldr Z.max 2 l) as B by (induction 1; cbn; lia).
  intros Hx. apply B. induction h as [| e h IH] using rev_ind; [set_solver |]. rewrite held_snoc in Hx. rewrite fmap_app.
  unfold after_call in Hx. destruct e as [[] r]; cbn [fst snd opens andb fmap list_fmap] in *; repeat case_match; set_solver.
Qed.

Lemma sample_kernel_opens failing h c : opens c = true → 0 ≤ result (sample_kernel failing h c) → result (sample_kernel failing h c) ∉ held h.
Proof. unfold sample_kernel. intros -> Hr Hh%held_bound. destruct (failing c); cbn in *; lia. Qed.

Definition sample_config : Worker.UpstreamConfig := Worker.mkUpstreamConfig [x39] 53 1000 2000 16.
Definition refused (c : SysCall) : option Z := match c with Connect _ _ _ => Some 101 | _ => None end.

Example sample_failure :
  initialize (sample_kernel refused) (λ _, true) 5353 1 false sample_config [] =
    (Err (Supervisor.mkInitError Supervisor.ConnectUpstream 101),
     [(Socket, 3); (SetSockOpt 3 ReuseAddr, 0); (SetSockOpt 3 ReusePort, 0); (Bind 3 5353, 0); (GetSockName 3, 0); (EpollCreate, 4); (EventFd, 5);
      (Socket, 6); (Connect 6 [x39] 53, -1); (Close 6, 0); (Close 5, 0); (Close 4, 0); (Close 3, 0)]).
Proof. vm_compute. reflexivity. Qed.

Lemma setup_outcomes_witness :
  let kernel := sample_kernel refused in
  match initialize kernel (λ _, true) 5353 1 false sample_config [] with
  | (Val s, h) => set_up_with kernel (λ _, true) 5353 1 false sample_config [] s h ∧ held h = held [] ∪ list_to_set (descriptors (fds s))
  | (Err e, h) => held h = held [] ∧ ∃ l h1 closes, h = h1 ++ closes ∧ closes.*1 = Close <$> reverse (descriptors l) ∧
      failed_at kernel (λ _, true) 5353 false sample_config [] e l h1
  | (Undef, _) => False
  end.
Proof. apply (setup_outcomes (sample_kernel refused)). apply sample_kernel_opens. Defined.
End Setup.
