(* ===== verification/DnsService.v ===== *)
(** * The service ([DNS.h], [DNS.cpp])

    Module [Service]: the life cycle of the service over its parts, the supervisor
    ([Supervisor.State]), the update controller and the publication state
    ([Update.UpdateWorld]).  [startup_mutex_] admits one call of [start] or of
    [finish_teardown] at a time: these are programs ([Concurrency.prog]).  The threads A
    (coordinator), B (reclaimer) and C (supervisor), the workers, and the callers of the
    other methods make the steps [event].

    A critical section of [lifecycle_mutex_] is one action.  [request_runtime_stop] and
    [replace_blocked_domains] call the controller with that mutex held, which takes several
    actions: [lifecycle_owner] is then the caller.  The two copies of the publication
    state, of the supervisor and of the controller, are kept equal ([put_supervisor],
    [put_updates]).  Null pointers that are used are [Undef], in [event] the flag
    [undefined_]. *)
From Stdlib Require Import Strings.Byte.
From S2P Require Import Prelude DnsCache DomainBlocklist FilterPublication FilterUpdateController WorkerLoop Concurrency WorkerSupervisor.

Module Service.

(** ** Data *)
Record DNSConfig := mkDNSConfig {
  dns_worker_count : nat;
  dns_cache_capacity : nat;
  dns_port : Z;
  dns_runtime_updates_enabled : bool;
  worker_failure_policy : Supervisor.WorkerFailurePolicy;
  restart_max_attempts : nat;
  restart_initial_backoff : Z;
  restart_max_backoff : Z;
  restart_stability_window : Z;
  blocked_domains : list (list byte);
  dns_upstream : Worker.UpstreamConfig;
}.

Inductive DNSLifecycleState := Empty | Initialized | Starting | Active | Stopping | Stopped | Failed.
#[global] Instance DNSLifecycleState_eq_dec : EqDecision DNSLifecycleState.
Proof. solve_decision. Defined.

Inductive DNSHealthState := Healthy | Degraded | Unavailable.

Inductive DNSControlRole := NoRole | FilterUpdateCoordinator | SnapshotReclaimer | WorkerSupervisor | Worker.

Module StartErrorCode.
Inductive DNSStartErrorCode :=
  | InvalidLifecycleState | Cancelled | CoordinatorThreadCreationFailed | CoordinatorInitFailed | ReclaimerThreadCreationFailed
  | ReclaimerInitFailed | SupervisorThreadCreationFailed | SupervisorInitFailed | WorkerCreateFailed | WorkerRuntimeInitFailed
  | WorkerThreadCreationFailed | InternalError.
#[global] Instance eq_dec : EqDecision DNSStartErrorCode.
Proof. solve_decision. Defined.
End StartErrorCode.

(** A worker id is [None] where the code has the largest [size_t]. *)
Record DNSStartError := mkStartError {
  start_code : StartErrorCode.DNSStartErrorCode;
  start_role : DNSControlRole;
  start_worker_id : option nat;
  start_instance_id : Z;
  start_create_error : option Supervisor.WorkerInitError;
  start_runtime_error : option Supervisor.WorkerRuntimeError;
  start_error_number : Z;
}.

Record DNSStartInfo := mkStartInfo { info_bound_port : Z; info_worker_count : nat; info_attempt_id : Z }.
Definition DNSStartResult : Type := DNSStartInfo + DNSStartError.

Module ServiceExitCode.
Inductive DNSServiceExitCode := NotStarted | ExplicitStop | StartupFailure | Fatal | TeardownIncomplete.
#[global] Instance eq_dec : EqDecision DNSServiceExitCode.
Proof. solve_decision. Defined.
End ServiceExitCode.

Module FatalCode.
Inductive DNSFatalCode :=
  | None | CoordinatorExited | ReclaimerExited | GracePeriodStalled | SupervisorExited | WorkerExited | UnexpectedWorkerStop
  | RestartBudgetExhausted | WorkerJoinFailed | InternalError.
End FatalCode.

Record DNSFatalError := mkFatalError {
  fatal_code : FatalCode.DNSFatalCode;
  fatal_role : DNSControlRole;
  fatal_worker_id : option nat;
  fatal_instance_id : Z;
  fatal_worker_error : option Supervisor.WorkerRuntimeError;
  fatal_create_error : option Supervisor.WorkerInitError;
  fatal_failure_code : option Supervisor.WorkerFailureCode.t;
  fatal_error_number : Z;
  grace_diagnostic : option Publication.FilterGraceDiagnostic;
}.

Record DNSServiceExitResult := mkExitResult {
  exit_code : ServiceExitCode.DNSServiceExitCode;
  exit_startup_error : option DNSStartError;
  exit_fatal_error : option DNSFatalError;
}.

Record DNSHealthSnapshot := mkHealth {
  health_state : DNSHealthState;
  available_workers : Z;
  desired_workers : Z;
  restart_count : Z;
  restart_success_count : Z;
  restart_failure_count : Z;
  effective_bound_port : option Z;
  filter_version : option Publication.FilterVersion;
  last_error : option DNSFatalError;
}.

Inductive StopCause := NoCause | Explicit | StartupFailure | Fatal.
#[global] Instance StopCause_eq_dec : EqDecision StopCause.
Proof. solve_decision. Defined.

Record RuntimeConfig := mkRuntimeConfig {
  worker_count : nat;
  cache_capacity : nat;
  port : Z;
  runtime_updates_enabled : bool;
  recovery : Supervisor.WorkerRecoveryConfig;
  upstream : Worker.UpstreamConfig;
}.

Inductive ReadyCode := Ready | AlreadyRunning.
#[global] Instance ReadyCode_eq_dec : EqDecision ReadyCode.
Proof. solve_decision. Defined.

(** What threads A, B and C tell [start] and the teardown. *)
Record ControlPlaneState := mkControl {
  attempt_id : Z;
  coordinator_ready : option ReadyCode;
  reclaimer_ready : option ReadyCode;
  coordinator_result : option Update.FilterRunnerExitCode;
  reclaimer_result : option Publication.SnapshotReclaimerResult;
  supervisor_result : option Supervisor.SupervisorRunResult;
}.

Record FaultInjection := mkFaults {
  coordinator_thread_failure : bool;
  coordinator_init_failure : bool;
  reclaimer_thread_failure : bool;
  reclaimer_init_failure : bool;
  supervisor_thread_failure : bool;
  supervisor_hooks : Supervisor.WorkerSupervisorFaultHooks;
  startup_pause_armed : bool;
  startup_pause_reached : bool;
}.

(** Where the threads are.  [StopPc]: in [request_runtime_stop]. *)
Inductive StopPc := StopEnter | StopSealing.
Inductive CoordinatorPc :=
  | CoordinatorStart
  | CoordinatorInitFailed
  | CoordinatorReporting (ready : ReadyCode)
  | CoordinatorRunning
  | CoordinatorPublishing (result : Update.FilterRunnerExitCode)
  | CoordinatorExiting
  | CoordinatorStopping (p : StopPc)
  | CoordinatorDone.
Inductive ReclaimerPc :=
  | ReclaimerStart
  | ReclaimerInitFailed
  | ReclaimerReporting (ready : ReadyCode)
  | ReclaimerRunning
  | ReclaimerPublishing (result : Publication.SnapshotReclaimerResult)
  | ReclaimerExiting (result : Publication.SnapshotReclaimerResult)
  | ReclaimerStopping (p : StopPc)
  | ReclaimerDone.
(** [SupervisorRunning]: what is left of [WorkerSupervisor::run]. *)
Inductive SupervisorPc :=
  | SupervisorRunning (rest : Supervisor.M Supervisor.SupervisorRunResult)
  | SupervisorReporting (p : StopPc) (rest : Supervisor.M Supervisor.SupervisorRunResult)
  | SupervisorPublishing (result : Supervisor.SupervisorRunResult)
  | SupervisorExiting (result : Supervisor.SupervisorRunResult)
  | SupervisorStopping (p : StopPc)
  | SupervisorDone.

(** Callers of [init], [request_stop] and [replace_blocked_domains]. *)
Inductive UserPc :=
  | UserInitializing (config : DNSConfig)
  | UserInitialized (result : bool)
  | UserStopping (p : StopPc) (joining : bool)
  | UserStopped
  | UserSubmitting
  | UserDetaching
  | UserFuture (completion : nat)
  | UserReplaced (result : Update.FilterUpdateResult).

(** [updates]: the controller with the publication state; the first is owned by
    [filter_updates_], the second by [control_].  [coordinator_run], [reclaimer_run], [supervisor_run]:
    the threads that are not joined, with their attempt; [coordinator_thread_] and so on:
    whether the member holds the thread.  [supervisor_thread_stop_]: the stop token of C is
    set.  [cache_]: the number of shards.  [reclaimer_available]: the variable of
    [finish_teardown].  [waiters]: callers of [join] and [wait] before [startup_mutex_]. *)
Record State := mkState {
  state_ : DNSLifecycleState;
  init_in_progress_ : bool;
  stop_cause_ : StopCause;
  startup_attempt_id_ : Z;
  startup_stop_ : bool;
  update_admission_open_ : bool;
  config_ : RuntimeConfig;
  health_ : DNSHealthSnapshot;
  startup_error_ : option DNSStartError;
  fatal_error_ : option DNSFatalError;
  control_ : option ControlPlaneState;
  faults_ : option FaultInjection;
  filter_updates_ : bool;
  cache_ : option nat;
  supervisor_ : option Supervisor.State;
  updates : option Update.UpdateWorld;
  coordinator_run : option (Z * CoordinatorPc);
  reclaimer_run : option (Z * ReclaimerPc);
  supervisor_run : option (Z * SupervisorPc);
  coordinator_thread_ : bool;
  reclaimer_thread_ : bool;
  supervisor_thread_ : bool;
  supervisor_thread_stop_ : bool;
  reclaimer_available : bool;
  lifecycle_owner : option nat;
  waiters : nat;
  users : gmap nat UserPc;
  undefined_ : bool;
}.

(** ** Updates *)
Definition set_state (v : DNSLifecycleState) (x : State) : State :=
  mkState v (init_in_progress_ x) (stop_cause_ x) (startup_attempt_id_ x) (startup_stop_ x) (update_admission_open_ x) (config_ x)
    (health_ x) (startup_error_ x) (fatal_error_ x) (control_ x) (faults_ x) (filter_updates_ x) (cache_ x) (supervisor_ x) (updates x)
    (coordinator_run x) (reclaimer_run x) (supervisor_run x) (coordinator_thread_ x) (reclaimer_thread_ x) (supervisor_thread_ x)
    (supervisor_thread_stop_ x) (reclaimer_available x) (lifecycle_owner x) (waiters x) (users x) (undefined_ x).
Definition set_init_in_progress (v : bool) (x : State) : State :=
  mkState (state_ x) v (stop_cause_ x) (startup_attempt_id_ x) (startup_stop_ x) (update_admission_open_ x) (config_ x) (health_ x)
    (startup_error_ x) (fatal_error_ x) (control_ x) (faults_ x) (filter_updates_ x) (cache_ x) (supervisor_ x) (updates x)
    (coordinator_run x) (reclaimer_run x) (supervisor_run x) (coordinator_thread_ x) (reclaimer_thread_ x) (supervisor_thread_ x)
    (supervisor_thread_stop_ x) (reclaimer_available x) (lifecycle_owner x) (waiters x) (users x) (undefined_ x).
Definition set_stop_cause (v : StopCause) (x : State) : State :=
  mkState (state_ x) (init_in_progress_ x) v (startup_attempt_id_ x) (startup_stop_ x) (update_admission_open_ x) (config_ x) (health_
    x) (startup_error_ x) (fatal_error_ x) (control_ x) (faults_ x) (filter_updates_ x) (cache_ x) (supervisor_ x) (updates x)
    (coordinator_run x) (reclaimer_run x) (supervisor_run x) (coordinator_thread_ x) (reclaimer_thread_ x) (supervisor_thread_ x)
    (supervisor_thread_stop_ x) (reclaimer_available x) (lifecycle_owner x) (waiters x) (users x) (undefined_ x).
Definition set_startup_attempt_id (v : Z) (x : State) : State :=
  mkState (state_ x) (init_in_progress_ x) (stop_cause_ x) v (startup_stop_ x) (update_admission_open_ x) (config_ x) (health_ x)
    (startup_error_ x) (fatal_error_ x) (control_ x) (faults_ x) (filter_updates_ x) (cache_ x) (supervisor_ x) (updates x)
    (coordinator_run x) (reclaimer_run x) (supervisor_run x) (coordinator_thread_ x) (reclaimer_thread_ x) (supervisor_thread_ x)
    (supervisor_thread_stop_ x) (reclaimer_available x) (lifecycle_owner x) (waiters x) (users x) (undefined_ x).
Definition set_startup_stop (v : bool) (x : State) : State :=
  mkState (state_ x) (init_in_progress_ x) (stop_cause_ x) (startup_attempt_id_ x) v (update_admission_open_ x) (config_ x) (health_ x)
    (startup_error_ x) (fatal_error_ x) (control_ x) (faults_ x) (filter_updates_ x) (cache_ x) (supervisor_ x) (updates x)
    (coordinator_run x) (reclaimer_run x) (supervisor_run x) (coordinator_thread_ x) (reclaimer_thread_ x) (supervisor_thread_ x)
    (supervisor_thread_stop_ x) (reclaimer_available x) (lifecycle_owner x) (waiters x) (users x) (undefined_ x).
Definition set_update_admission_open (v : bool) (x : State) : State :=
  mkState (state_ x) (init_in_progress_ x) (stop_cause_ x) (startup_attempt_id_ x) (startup_stop_ x) v (config_ x) (health_ x)
    (startup_error_ x) (fatal_error_ x) (control_ x) (faults_ x) (filter_updates_ x) (cache_ x) (supervisor_ x) (updates x)
    (coordinator_run x) (reclaimer_run x) (supervisor_run x) (coordinator_thread_ x) (reclaimer_thread_ x) (supervisor_thread_ x)
    (supervisor_thread_stop_ x) (reclaimer_available x) (lifecycle_owner x) (waiters x) (users x) (undefined_ x).
Definition set_config (v : RuntimeConfig) (x : State) : State :=
  mkState (state_ x) (init_in_progress_ x) (stop_cause_ x) (startup_attempt_id_ x) (startup_stop_ x) (update_admission_open_ x) v
    (health_ x) (startup_error_ x) (fatal_error_ x) (control_ x) (faults_ x) (filter_updates_ x) (cache_ x) (supervisor_ x) (updates x)
    (coordinator_run x) (reclaimer_run x) (supervisor_run x) (coordinator_thread_ x) (reclaimer_thread_ x) (supervisor_thread_ x)
    (supervisor_thread_stop_ x) (reclaimer_available x) (lifecycle_owner x) (waiters x) (users x) (undefined_ x).
Definition set_health (v : DNSHealthSnapshot) (x : State) : State :=
  mkState (state_ x) (init_in_progress_ x) (stop_cause_ x) (startup_attempt_id_ x) (startup_stop_ x) (update_admission_open_ x) (config_
    x) v (startup_error_ x) (fatal_error_ x) (control_ x) (faults_ x) (filter_updates_ x) (cache_ x) (supervisor_ x) (updates x)
    (coordinator_run x) (reclaimer_run x) (supervisor_run x) (coordinator_thread_ x) (reclaimer_thread_ x) (supervisor_thread_ x)
    (supervisor_thread_stop_ x) (reclaimer_available x) (lifecycle_owner x) (waiters x) (users x) (undefined_ x).
Definition set_startup_error (v : option DNSStartError) (x : State) : State :=
  mkState (state_ x) (init_in_progress_ x) (stop_cause_ x) (startup_attempt_id_ x) (startup_stop_ x) (update_admission_open_ x) (config_
    x) (health_ x) v (fatal_error_ x) (control_ x) (faults_ x) (filter_updates_ x) (cache_ x) (supervisor_ x) (updates x)
    (coordinator_run x) (reclaimer_run x) (supervisor_run x) (coordinator_thread_ x) (reclaimer_thread_ x) (supervisor_thread_ x)
    (supervisor_thread_stop_ x) (reclaimer_available x) (lifecycle_owner x) (waiters x) (users x) (undefined_ x).
Definition set_fatal_error (v : option DNSFatalError) (x : State) : State :=
  mkState (state_ x) (init_in_progress_ x) (stop_cause_ x) (startup_attempt_id_ x) (startup_stop_ x) (update_admission_open_ x) (config_
    x) (health_ x) (startup_error_ x) v (control_ x) (faults_ x) (filter_updates_ x) (cache_ x) (supervisor_ x) (updates x)
    (coordinator_run x) (reclaimer_run x) (supervisor_run x) (coordinator_thread_ x) (reclaimer_thread_ x) (supervisor_thread_ x)
    (supervisor_thread_stop_ x) (reclaimer_available x) (lifecycle_owner x) (waiters x) (users x) (undefined_ x).
Definition set_control (v : option ControlPlaneState) (x : State) : State :=
  mkState (state_ x) (init_in_progress_ x) (stop_cause_ x) (startup_attempt_id_ x) (startup_stop_ x) (update_admission_open_ x) (config_
    x) (health_ x) (startup_error_ x) (fatal_error_ x) v (faults_ x) (filter_updates_ x) (cache_ x) (supervisor_ x) (updates x)
    (coordinator_run x) (reclaimer_run x) (supervisor_run x) (coordinator_thread_ x) (reclaimer_thread_ x) (supervisor_thread_ x)
    (supervisor_thread_stop_ x) (reclaimer_available x) (lifecycle_owner x) (waiters x) (users x) (undefined_ x).
Definition set_faults (v : option FaultInjection) (x : State) : State :=
  mkState (state_ x) (init_in_progress_ x) (stop_cause_ x) (startup_attempt_id_ x) (startup_stop_ x) (update_admission_open_ x) (config_
    x) (health_ x) (startup_error_ x) (fatal_error_ x) (control_ x) v (filter_updates_ x) (cache_ x) (supervisor_ x) (updates x)
    (coordinator_run x) (reclaimer_run x) (supervisor_run x) (coordinator_thread_ x) (reclaimer_thread_ x) (supervisor_thread_ x)
    (supervisor_thread_stop_ x) (reclaimer_available x) (lifecycle_owner x) (waiters x) (users x) (undefined_ x).
Definition set_filter_updates (v : bool) (x : State) : State :=
  mkState (state_ x) (init_in_progress_ x) (stop_cause_ x) (startup_attempt_id_ x) (startup_stop_ x) (update_admission_open_ x) (config_
    x) (health_ x) (startup_error_ x) (fatal_error_ x) (control_ x) (faults_ x) v (cache_ x) (supervisor_ x) (updates x)
    (coordinator_run x) (reclaimer_run x) (supervisor_run x) (coordinator_thread_ x) (reclaimer_thread_ x) (supervisor_thread_ x)
    (supervisor_thread_stop_ x) (reclaimer_available x) (lifecycle_owner x) (waiters x) (users x) (undefined_ x).
Definition set_cache (v : option nat) (x : State) : State :=
  mkState (state_ x) (init_in_progress_ x) (stop_cause_ x) (startup_attempt_id_ x) (startup_stop_ x) (update_admission_open_ x) (config_
    x) (health_ x) (startup_error_ x) (fatal_error_ x) (control_ x) (faults_ x) (filter_updates_ x) v (supervisor_ x) (updates x)
    (coordinator_run x) (reclaimer_run x) (supervisor_run x) (coordinator_thread_ x) (reclaimer_thread_ x) (supervisor_thread_ x)
    (supervisor_thread_stop_ x) (reclaimer_available x) (lifecycle_owner x) (waiters x) (users x) (undefined_ x).
Definition set_supervisor (v : option Supervisor.State) (x : State) : State :=
  mkState (state_ x) (init_in_progress_ x) (stop_cause_ x) (startup_attempt_id_ x) (startup_stop_ x) (update_admission_open_ x) (config_
    x) (health_ x) (startup_error_ x) (fatal_error_ x) (control_ x) (faults_ x) (filter_updates_ x) (cache_ x) v (updates x)
    (coordinator_run x) (reclaimer_run x) (supervisor_run x) (coordinator_thread_ x) (reclaimer_thread_ x) (supervisor_thread_ x)
    (supervisor_thread_stop_ x) (reclaimer_available x) (lifecycle_owner x) (waiters x) (users x) (undefined_ x).
Definition set_updates (v : option Update.UpdateWorld) (x : State) : State :=
  mkState (state_ x) (init_in_progress_ x) (stop_cause_ x) (startup_attempt_id_ x) (startup_stop_ x) (update_admission_open_ x) (config_
    x) (health_ x) (startup_error_ x) (fatal_error_ x) (control_ x) (faults_ x) (filter_updates_ x) (cache_ x) (supervisor_ x) v
    (coordinator_run x) (reclaimer_run x) (supervisor_run x) (coordinator_thread_ x) (reclaimer_thread_ x) (supervisor_thread_ x)
    (supervisor_thread_stop_ x) (reclaimer_available x) (lifecycle_owner x) (waiters x) (users x) (undefined_ x).
Definition set_coordinator_run (v : option (Z * CoordinatorPc)) (x : State) : State :=
  mkState (state_ x) (init_in_progress_ x) (stop_cause_ x) (startup_attempt_id_ x) (startup_stop_ x) (update_admission_open_ x) (config_
    x) (health_ x) (startup_error_ x) (fatal_error_ x) (control_ x) (faults_ x) (filter_updates_ x) (cache_ x) (supervisor_ x) (updates
    x) v (reclaimer_run x) (supervisor_run x) (coordinator_thread_ x) (reclaimer_thread_ x) (supervisor_thread_ x)
    (supervisor_thread_stop_ x) (reclaimer_available x) (lifecycle_owner x) (waiters x) (users x) (undefined_ x).
Definition set_reclaimer_run (v : option (Z * ReclaimerPc)) (x : State) : State :=
  mkState (state_ x) (init_in_progress_ x) (stop_cause_ x) (startup_attempt_id_ x) (startup_stop_ x) (update_admission_open_ x) (config_
    x) (health_ x) (startup_error_ x) (fatal_error_ x) (control_ x) (faults_ x) (filter_updates_ x) (cache_ x) (supervisor_ x) (updates
    x) (coordinator_run x) v (supervisor_run x) (coordinator_thread_ x) (reclaimer_thread_ x) (supervisor_thread_ x)
    (supervisor_thread_stop_ x) (reclaimer_available x) (lifecycle_owner x) (waiters x) (users x) (undefined_ x).
Definition set_supervisor_run (v : option (Z * SupervisorPc)) (x : State) : State :=
  mkState (state_ x) (init_in_progress_ x) (stop_cause_ x) (startup_attempt_id_ x) (startup_stop_ x) (update_admission_open_ x) (config_
    x) (health_ x) (startup_error_ x) (fatal_error_ x) (control_ x) (faults_ x) (filter_updates_ x) (cache_ x) (supervisor_ x) (updates
    x) (coordinator_run x) (reclaimer_run x) v (coordinator_thread_ x) (reclaimer_thread_ x) (supervisor_thread_ x)
    (supervisor_thread_stop_ x) (reclaimer_available x) (lifecycle_owner x) (waiters x) (users x) (undefined_ x).
Definition set_coordinator_thread (v : bool) (x : State) : State :=
  mkState (state_ x) (init_in_progress_ x) (stop_cause_ x) (startup_attempt_id_ x) (startup_stop_ x) (update_admission_open_ x) (config_
    x) (health_ x) (startup_error_ x) (fatal_error_ x) (control_ x) (faults_ x) (filter_updates_ x) (cache_ x) (supervisor_ x) (updates
    x) (coordinator_run x) (reclaimer_run x) (supervisor_run x) v (reclaimer_thread_ x) (supervisor_thread_ x) (supervisor_thread_stop_
    x) (reclaimer_available x) (lifecycle_owner x) (waiters x) (users x) (undefined_ x).
Definition set_reclaimer_thread (v : bool) (x : State) : State :=
  mkState (state_ x) (init_in_progress_ x) (stop_cause_ x) (startup_attempt_id_ x) (startup_stop_ x) (update_admission_open_ x) (config_
    x) (health_ x) (startup_error_ x) (fatal_error_ x) (control_ x) (faults_ x) (filter_updates_ x) (cache_ x) (supervisor_ x) (updates
    x) (coordinator_run x) (reclaimer_run x) (supervisor_run x) (coordinator_thread_ x) v (supervisor_thread_ x)
    (supervisor_thread_stop_ x) (reclaimer_available x) (lifecycle_owner x) (waiters x) (users x) (undefined_ x).
Definition set_supervisor_thread (v : bool) (x : State) : State :=
  mkState (state_ x) (init_in_progress_ x) (stop_cause_ x) (startup_attempt_id_ x) (startup_stop_ x) (update_admission_open_ x) (config_
    x) (health_ x) (startup_error_ x) (fatal_error_ x) (control_ x) (faults_ x) (filter_updates_ x) (cache_ x) (supervisor_ x) (updates
    x) (coordinator_run x) (reclaimer_run x) (supervisor_run x) (coordinator_thread_ x) (reclaimer_thread_ x) v (supervisor_thread_stop_
    x) (reclaimer_available x) (lifecycle_owner x) (waiters x) (users x) (undefined_ x).
Definition set_supervisor_thread_stop (v : bool) (x : State) : State :=
  mkState (state_ x) (init_in_progress_ x) (stop_cause_ x) (startup_attempt_id_ x) (startup_stop_ x) (update_admission_open_ x) (config_
    x) (health_ x) (startup_error_ x) (fatal_error_ x) (control_ x) (faults_ x) (filter_updates_ x) (cache_ x) (supervisor_ x) (updates
    x) (coordinator_run x) (reclaimer_run x) (supervisor_run x) (coordinator_thread_ x) (reclaimer_thread_ x) (supervisor_thread_ x) v
    (reclaimer_available x) (lifecycle_owner x) (waiters x) (users x) (undefined_ x).
Definition set_reclaimer_available (v : bool) (x : State) : State :=
  mkState (state_ x) (init_in_progress_ x) (stop_cause_ x) (startup_attempt_id_ x) (startup_stop_ x) (update_admission_open_ x) (config_
    x) (health_ x) (startup_error_ x) (fatal_error_ x) (control_ x) (faults_ x) (filter_updates_ x) (cache_ x) (supervisor_ x) (updates
    x) (coordinator_run x) (reclaimer_run x) (supervisor_run x) (coordinator_thread_ x) (reclaimer_thread_ x) (supervisor_thread_ x)
    (supervisor_thread_stop_ x) v (lifecycle_owner x) (waiters x) (users x) (undefined_ x).
Definition set_lifecycle_owner (v : option nat) (x : State) : State :=
  mkState (state_ x) (init_in_progress_ x) (stop_cause_ x) (startup_attempt_id_ x) (startup_stop_ x) (update_admission_open_ x) (config_
    x) (health_ x) (startup_error_ x) (fatal_error_ x) (control_ x) (faults_ x) (filter_updates_ x) (cache_ x) (supervisor_ x) (updates
    x) (coordinator_run x) (reclaimer_run x) (supervisor_run x) (coordinator_thread_ x) (reclaimer_thread_ x) (supervisor_thread_ x)
    (supervisor_thread_stop_ x) (reclaimer_available x) v (waiters x) (users x) (undefined_ x).
Definition set_waiters (v : nat) (x : State) : State :=
  mkState (state_ x) (init_in_progress_ x) (stop_cause_ x) (startup_attempt_id_ x) (startup_stop_ x) (update_admission_open_ x) (config_
    x) (health_ x) (startup_error_ x) (fatal_error_ x) (control_ x) (faults_ x) (filter_updates_ x) (cache_ x) (supervisor_ x) (updates
    x) (coordinator_run x) (reclaimer_run x) (supervisor_run x) (coordinator_thread_ x) (reclaimer_thread_ x) (supervisor_thread_ x)
    (supervisor_thread_stop_ x) (reclaimer_available x) (lifecycle_owner x) v (users x) (undefined_ x).
Definition set_users (v : gmap nat UserPc) (x : State) : State :=
  mkState (state_ x) (init_in_progress_ x) (stop_cause_ x) (startup_attempt_id_ x) (startup_stop_ x) (update_admission_open_ x) (config_
    x) (health_ x) (startup_error_ x) (fatal_error_ x) (control_ x) (faults_ x) (filter_updates_ x) (cache_ x) (supervisor_ x) (updates
    x) (coordinator_run x) (reclaimer_run x) (supervisor_run x) (coordinator_thread_ x) (reclaimer_thread_ x) (supervisor_thread_ x)
    (supervisor_thread_stop_ x) (reclaimer_available x) (lifecycle_owner x) (waiters x) v (undefined_ x).
Definition set_undefined (v : bool) (x : State) : State :=
  mkState (state_ x) (init_in_progress_ x) (stop_cause_ x) (startup_attempt_id_ x) (startup_stop_ x) (update_admission_open_ x) (config_
    x) (health_ x) (startup_error_ x) (fatal_error_ x) (control_ x) (faults_ x) (filter_updates_ x) (cache_ x) (supervisor_ x) (updates
    x) (coordinator_run x) (reclaimer_run x) (supervisor_run x) (coordinator_thread_ x) (reclaimer_thread_ x) (supervisor_thread_ x)
    (supervisor_thread_stop_ x) (reclaimer_available x) (lifecycle_owner x) (waiters x) (users x) v.

Definition set_coordinator_ready (v : option ReadyCode) (x : ControlPlaneState) : ControlPlaneState :=
  mkControl (attempt_id x) v (reclaimer_ready x) (coordinator_result x) (reclaimer_result x) (supervisor_result x).
Definition set_reclaimer_ready (v : option ReadyCode) (x : ControlPlaneState) : ControlPlaneState :=
  mkControl (attempt_id x) (coordinator_ready x) v (coordinator_result x) (reclaimer_result x) (supervisor_result x).
Definition set_coordinator_result (v : option Update.FilterRunnerExitCode) (x : ControlPlaneState) : ControlPlaneState :=
  mkControl (attempt_id x) (coordinator_ready x) (reclaimer_ready x) v (reclaimer_result x) (supervisor_result x).
Definition set_reclaimer_result (v : option Publication.SnapshotReclaimerResult) (x : ControlPlaneState) : ControlPlaneState :=
  mkControl (attempt_id x) (coordinator_ready x) (reclaimer_ready x) (coordinator_result x) v (supervisor_result x).
Definition set_supervisor_result (v : option Supervisor.SupervisorRunResult) (x : ControlPlaneState) : ControlPlaneState :=
  mkControl (attempt_id x) (coordinator_ready x) (reclaimer_ready x) (coordinator_result x) (reclaimer_result x) v.

Definition set_health_state (v : DNSHealthState) (x : DNSHealthSnapshot) : DNSHealthSnapshot :=
  mkHealth v (available_workers x) (desired_workers x) (restart_count x) (restart_success_count x) (restart_failure_count x)
    (effective_bound_port x) (filter_version x) (last_error x).
Definition set_available_workers (v : Z) (x : DNSHealthSnapshot) : DNSHealthSnapshot :=
  mkHealth (health_state x) v (desired_workers x) (restart_count x) (restart_success_count x) (restart_failure_count x)
    (effective_bound_port x) (filter_version x) (last_error x).
Definition set_effective_bound_port (v : option Z) (x : DNSHealthSnapshot) : DNSHealthSnapshot :=
  mkHealth (health_state x) (available_workers x) (desired_workers x) (restart_count x) (restart_success_count x) (restart_failure_count
    x) v (filter_version x) (last_error x).
Definition set_filter_version (v : option Publication.FilterVersion) (x : DNSHealthSnapshot) : DNSHealthSnapshot :=
  mkHealth (health_state x) (available_workers x) (desired_workers x) (restart_count x) (restart_success_count x) (restart_failure_count
    x) (effective_bound_port x) v (last_error x).
Definition set_last_error (v : option DNSFatalError) (x : DNSHealthSnapshot) : DNSHealthSnapshot :=
  mkHealth (health_state x) (available_workers x) (desired_workers x) (restart_count x) (restart_success_count x) (restart_failure_count
    x) (effective_bound_port x) (filter_version x) v.

Definition set_coordinator_thread_failure (v : bool) (x : FaultInjection) : FaultInjection :=
  mkFaults v (coordinator_init_failure x) (reclaimer_thread_failure x) (reclaimer_init_failure x) (supervisor_thread_failure x)
    (supervisor_hooks x) (startup_pause_armed x) (startup_pause_reached x).
Definition set_coordinator_init_failure (v : bool) (x : FaultInjection) : FaultInjection :=
  mkFaults (coordinator_thread_failure x) v (reclaimer_thread_failure x) (reclaimer_init_failure x) (supervisor_thread_failure x)
    (supervisor_hooks x) (startup_pause_armed x) (startup_pause_reached x).
Definition set_reclaimer_thread_failure (v : bool) (x : FaultInjection) : FaultInjection :=
  mkFaults (coordinator_thread_failure x) (coordinator_init_failure x) v (reclaimer_init_failure x) (supervisor_thread_failure x)
    (supervisor_hooks x) (startup_pause_armed x) (startup_pause_reached x).
Definition set_reclaimer_init_failure (v : bool) (x : FaultInjection) : FaultInjection :=
  mkFaults (coordinator_thread_failure x) (coordinator_init_failure x) (reclaimer_thread_failure x) v (supervisor_thread_failure x)
    (supervisor_hooks x) (startup_pause_armed x) (startup_pause_reached x).
Definition set_supervisor_thread_failure (v : bool) (x : FaultInjection) : FaultInjection :=
  mkFaults (coordinator_thread_failure x) (coordinator_init_failure x) (reclaimer_thread_failure x) (reclaimer_init_failure x) v
    (supervisor_hooks x) (startup_pause_armed x) (startup_pause_reached x).
Definition set_supervisor_hooks (v : Supervisor.WorkerSupervisorFaultHooks) (x : FaultInjection) : FaultInjection :=
  mkFaults (coordinator_thread_failure x) (coordinator_init_failure x) (reclaimer_thread_failure x) (reclaimer_init_failure x)
    (supervisor_thread_failure x) v (startup_pause_armed x) (startup_pause_reached x).
Definition set_startup_pause_armed (v : bool) (x : FaultInjection) : FaultInjection :=
  mkFaults (coordinator_thread_failure x) (coordinator_init_failure x) (reclaimer_thread_failure x) (reclaimer_init_failure x)
    (supervisor_thread_failure x) (supervisor_hooks x) v (startup_pause_reached x).
Definition set_startup_pause_reached (v : bool) (x : FaultInjection) : FaultInjection :=
  mkFaults (coordinator_thread_failure x) (coordinator_init_failure x) (reclaimer_thread_failure x) (reclaimer_init_failure x)
    (supervisor_thread_failure x) (supervisor_hooks x) (startup_pause_armed x) v.

Definition init_state : State :=
  mkState Empty false NoCause 0 false false (mkRuntimeConfig 1 0 5353 true (Supervisor.mkRecoveryConfig Supervisor.FailService 0 0 0 0)
      (Worker.mkUpstreamConfig [] 0 0 0 0))
    (mkHealth Unavailable 0 0 0 0 0 None None None) None None None None false None None None None None None false false false false false
    None 0 ∅ false.

(** [State] holds programs, and is too large a type for the monad classes. *)
Definition chain {A B} (m : outcome unit A) (f : A → outcome unit B) : outcome unit B :=
  match m with Val a => f a | Err e => Err e | Undef => Undef end.
#[local] Notation "x <~ m ; k" := (chain m (λ x, k)) (at level 20, m at level 100, k at level 200, right associativity).

(** ** Errors *)
Definition filter_update_error (c : Update.FilterUpdateErrorCode) : Update.FilterUpdateResult := Update.update_error c None.

Definition make_start_error (c : StartErrorCode.DNSStartErrorCode) (role : DNSControlRole) (error_number : Z) : DNSStartError :=
  mkStartError c role None 0 None None error_number.

Definition map_supervisor_start_error (e : Supervisor.SupervisorStartupError) : DNSStartError :=
  let '(c, role) :=
    match Supervisor.startup_code e with
    | Supervisor.StartupErrorCode.Cancelled => (StartErrorCode.Cancelled, Worker)
    | Supervisor.StartupErrorCode.WorkerCreateFailed => (StartErrorCode.WorkerCreateFailed, Worker)
    | Supervisor.StartupErrorCode.WorkerThreadStartFailed => (StartErrorCode.WorkerThreadCreationFailed, Worker)
    | Supervisor.StartupErrorCode.WorkerInitFailed | Supervisor.StartupErrorCode.WorkerExitedBeforeReady =>
        (StartErrorCode.WorkerRuntimeInitFailed, Worker)
    | Supervisor.StartupErrorCode.InvalidConfiguration | Supervisor.StartupErrorCode.InstanceIdExhausted
    | Supervisor.StartupErrorCode.InternalError => (StartErrorCode.SupervisorInitFailed, WorkerSupervisor)
    end in
  mkStartError c role (Supervisor.startup_worker_id e) (Supervisor.startup_instance_id e) (Supervisor.startup_create_error e)
    (Supervisor.startup_runtime_error e) (Supervisor.startup_error_number e).

Definition map_supervisor_activation_error (e : Supervisor.SupervisorActivationError) : DNSStartError :=
  if decide (Supervisor.activation_code e = Supervisor.ActivationErrorCode.Cancelled)
  then make_start_error StartErrorCode.Cancelled NoRole 0
  else
    match Supervisor.activation_worker_id e with
    | None => make_start_error StartErrorCode.SupervisorInitFailed WorkerSupervisor 0
    | Some r =>
        let error := Supervisor.activation_worker_result e ≫= Supervisor.run_error in
        mkStartError StartErrorCode.WorkerRuntimeInitFailed Worker (Some r) (Supervisor.activation_instance_id e) None error
          match error with Some x => Supervisor.runtime_error_number x | None => 0 end
    end.

Definition cancelled_start_error : DNSStartError := make_start_error StartErrorCode.Cancelled NoRole 0.

Definition make_role_fatal (c : FatalCode.DNSFatalCode) (role : DNSControlRole) : DNSFatalError :=
  mkFatalError c role None 0 None None None 0 None.

Definition map_worker_failure (f : Supervisor.WorkerFailure) : DNSFatalError :=
  let c :=
    if Supervisor.budget_exhausted f then FatalCode.RestartBudgetExhausted
    else
      match Supervisor.failure_code f with
      | Supervisor.WorkerFailureCode.JoinFailed => FatalCode.WorkerJoinFailed
      | Supervisor.WorkerFailureCode.UnexpectedStop => FatalCode.UnexpectedWorkerStop
      | _ => FatalCode.WorkerExited
      end in
  mkFatalError c Worker (Supervisor.failure_worker_id f) (Supervisor.failure_instance_id f) (Supervisor.failure_runtime_error f)
    (Supervisor.failure_create_error f) (Some (Supervisor.failure_code f)) (Supervisor.failure_error_number f) None.

(** ** The parts *)
Definition put_updates (u : Update.UpdateWorld) (s : State) : State :=
  set_supervisor (Supervisor.set_pub (Update.world u) <$> supervisor_ s) (set_updates (Some u) s).
Definition put_supervisor (x : Supervisor.State) (s : State) : State :=
  set_supervisor (Some x) (set_updates (Update.set_world (Supervisor.pub x) <$> updates s) s).

(** The controller, the publication state, the supervisor, the control plane, as their
    pointers give them. *)
Definition the_updates (s : State) : outcome unit Update.UpdateWorld :=
  if filter_updates_ s then from_option_ub (updates s) else Undef.
Definition the_publication (s : State) : outcome unit Update.UpdateWorld :=
  match control_ s with Some _ => from_option_ub (updates s) | None => Undef end.
Definition the_supervisor (s : State) : outcome unit Supervisor.State := from_option_ub (supervisor_ s).
Definition the_control (s : State) : outcome unit ControlPlaneState := from_option_ub (control_ s).
Definition the_faults (s : State) : outcome unit FaultInjection := from_option_ub (faults_ s).

(** [startup_stop_source_.request_stop()]: the supervisor has a token of this source. *)
Definition request_source_stop (s : State) : State :=
  set_supervisor (Supervisor.set_service_stop true <$> supervisor_ s) (set_startup_stop true s).

Definition unavailable (h : DNSHealthSnapshot) : DNSHealthSnapshot := set_available_workers 0 (set_health_state Unavailable h).

Definition exit_result_locked (s : State) : DNSServiceExitResult :=
  match stop_cause_ s with
  | Explicit => mkExitResult ServiceExitCode.ExplicitStop None None
  | StartupFailure => mkExitResult ServiceExitCode.StartupFailure (startup_error_ s) None
  | Fatal => mkExitResult ServiceExitCode.Fatal None (fatal_error_ s)
  | NoCause => mkExitResult ServiceExitCode.NotStarted None None
  end.

Definition accept_fatal_locked (e : DNSFatalError) (s : State) : bool * State :=
  if negb (bool_decide (state_ s = Active)) || negb (bool_decide (stop_cause_ s = NoCause)) then (false, s)
  else
    (true, request_source_stop (set_health (set_last_error (Some e) (unavailable (health_ s)))
             (set_update_admission_open false (set_state Stopping (set_fatal_error (Some e) (set_stop_cause Fatal s)))))).

(** [ControlPlaneState]: what is reported first stays. *)
Definition first_of {A} (o : option A) (a : A) : option A := Some (default a o).
Definition control_reset (attempt : Z) : ControlPlaneState := mkControl attempt None None None None None.
Definition report_reclaimer_ready (r : ReadyCode) (c : ControlPlaneState) := set_reclaimer_ready (first_of (reclaimer_ready c) r) c.
Definition report_ready (r : ReadyCode) (c : ControlPlaneState) := set_coordinator_ready (first_of (coordinator_ready c) r) c.
Definition publish_coordinator_result r (c : ControlPlaneState) := set_coordinator_result (first_of (coordinator_result c) r) c.
Definition publish_supervisor_result r (c : ControlPlaneState) := set_supervisor_result (first_of (supervisor_result c) r) c.
Definition publish_reclaimer_result r (c : ControlPlaneState) := set_reclaimer_result (first_of (reclaimer_result c) r) c.
Definition on_control (f : ControlPlaneState → ControlPlaneState) (s : State) : outcome unit State :=
  c <~ the_control s; Val (set_control (Some (f c)) s).

(** *** The destructors *)

(** The destructors of the parts, in the order supervisor, controller, publication state.
    They have nothing to wait for and nothing to report; otherwise, where they would join,
    wait or terminate, this is undefined. *)
Definition supervisor_idle (x : Supervisor.State) : bool :=
  negb (Supervisor.run_active_ x) &&
  forallb (λ rec, negb (Supervisor.joinable rec) && bool_decide (Supervisor.current_instance_ rec = None)) (Supervisor.records_ x).
Definition call_returned (c : Update.Call) : bool := match c with Update.Returned _ => true | _ => false end.
Definition updates_idle (u : Update.UpdateWorld) : bool :=
  let k := Update.controller u in
  negb (Update.runner_active_ k) && bool_decide (Update.pending_ k = []) && bool_decide (Update.inflight_ k = None) &&
  forallb (λ p, call_returned p.2) (map_to_list (Update.calls u)).
Definition threads_gone (s : State) : bool :=
  bool_decide (coordinator_run s = None) && bool_decide (reclaimer_run s = None) && bool_decide (supervisor_run s = None).
Definition may_be_destroyed (s : State) : bool :=
  threads_gone s && match supervisor_ s with Some x => supervisor_idle x | None => true end &&
  match updates s with
  | Some u => (if filter_updates_ s then updates_idle u else true) &&
              (if control_ s then Publication.may_be_destroyed (Update.world u) else true)
  | None => true
  end.

(** *** [request_runtime_stop] and [request_stop] *)

(** Its beginning: thread [t] has [lifecycle_mutex_] and begins to seal the controller,
    if there is one. *)
Section parts.
Context {F : Type}.
Variable heap : nat → FilterContext F.

Definition begin_runtime_stop (t : nat) (s : State) : outcome unit State :=
  let s := set_lifecycle_owner (Some t) (set_update_admission_open false (request_source_stop s)) in
  if filter_updates_ s then
    u <~ the_updates s;
    u <~ from_option_ub (Update.update_act heap (Update.SealCall t) u);
    Val (put_updates u s)
  else Val s.

(** Its end: the supervisor is stopped, [lifecycle_mutex_] is given up.  The stops of the
    workers are steps of their own ([Supervisor.StopRecord]). *)
Definition end_runtime_stop (s : State) : State :=
  let s := set_supervisor (Supervisor.set_stop_requested true <$> supervisor_ s) s in
  set_lifecycle_owner None (if supervisor_thread_ s then set_supervisor_thread_stop true s else s).

(** The critical section of [request_stop], with the destructors after it: [true] when the
    runtime is to be stopped. *)
Definition request_stop_locked (s : State) : outcome unit (bool * State) :=
  match state_ s with
  | Empty | Stopped | Failed => Val (false, s)
  | Initialized =>
      if may_be_destroyed s then
        Val (false, set_filter_updates false (set_cache None (set_control None (set_faults None
               (set_health (unavailable (health_ s)) (set_update_admission_open false (set_state Stopped (set_stop_cause Explicit s))))))))
      else Undef
  | st =>
      let s := if decide (stop_cause_ s = NoCause) then set_stop_cause Explicit s else s in
      let s := match st with Starting | Active => set_state Stopping s | _ => s end in
      Val (true, request_source_stop (set_health (unavailable (health_ s)) (set_update_admission_open false s)))
  end.

(** ** Programs under [startup_mutex_] *)

(** What an action finds outside of the state: the clock; what goes wrong in the
    construction of the supervisor or of a thread (with [errno]); whether [join] throws. *)
Record Input := mkInput {
  now_ : Z;
  supervisor_input : Supervisor.Input;
  supervisor_error : option Z;
  thread_error : option Z;
  join_throws : bool;
}.

Definition M (A : Type) : Type := prog State Input (outcome unit A).
#[local] Instance M_ret : MRet M := λ A a, Ret (Val a).
#[local] Instance M_bind : MBind M := λ A C k c,
  bind c (λ o, match o with Val a => k a | Err e => Ret (Err e) | Undef => Ret Undef end).

(** The action waits while [f] is [None]. *)
Definition action {A} (f : Input → State → option (outcome unit (A * State))) : M A :=
  Act (λ e s, match f e s with
              | None => None
              | Some (Val (a, s')) => Some (Val a, s')
              | Some (Err u) => Some (Err u, s)
              | Some Undef => Some (Undef, s)
              end) Ret.
Definition atomically {A} (f : Input → State → outcome unit (A * State)) : M A := action (λ e s, Some (f e s)).

(** A critical section of [lifecycle_mutex_]. *)
Definition section {A} (f : State → outcome unit (A * State)) : M A :=
  action (λ _ s, match lifecycle_owner s with Some _ => None | None => Some (f s) end).
Definition update_section (f : State → State) : M unit := section (λ s, Val ((), f s)).
Definition look {A} (f : State → outcome unit A) : M A := atomically (λ _ s, a <~ f s; Val (a, s)).

Definition loop {X} (body : M (option X)) : M X :=
  While (bind body (λ o, match o with
    | Val None => Ret None
    | Val (Some x) => Ret (Some (Val x))
    | Err e => Ret (Some (Err e))
    | Undef => Ret (Some Undef)
    end)) Ret.

(** A program of the supervisor; nobody else resets [supervisor_]. *)
Fixpoint lift {A} (c : prog Supervisor.State Supervisor.Input A) : prog State Input A :=
  match c in prog _ _ A return prog State Input A with
  | Ret a => Ret a
  | Act f k =>
      Act (λ e s,
        match supervisor_ s with
        | None => None
        | Some x => match f (supervisor_input e) x with Some (a, x') => Some (a, put_supervisor x' s) | None => None end
        end) (λ a, lift (k a))
  | While body k => While (lift body) (λ a, lift (k a))
  end.

(** A call of the controller by this thread, number 0; an action that waits is [None]. *)
Definition advance (t : nat) (now : Z) (b : Update.BuilderResult) (s : State) : option (outcome unit State) :=
  match the_updates s with
  | Val u => match Update.update_act heap (Update.Advance t now b) u with
             | Some u => Some (Val (put_updates u s))
             | None => None
             end
  | _ => Some Undef
  end.
Definition call_result (t : nat) (s : State) : option Update.CallResult :=
  match updates s with
  | Some u => match Update.calls u !! t with Some (Update.Returned r) => Some r | _ => None end
  | None => None
  end.
Definition call_update (a : Update.UpdateAction) : M Update.CallResult :=
  _ ← atomically (λ _ s, u <~ the_updates s; u <~ from_option_ub (Update.update_act heap a u); Val ((), put_updates u s));
  loop (action (λ e s,
    match call_result 0 s with
    | Some r => Some (Val (Some r, s))
    | None => match advance 0 (now_ e) Update.BuilderNull s with
              | Some o => Some (s <~ o; Val (None, s))
              | None => None
              end
    end)).

Definition request_runtime_stop : M unit :=
  _ ← action (λ _ s, match lifecycle_owner s with
                     | Some _ => None
                     | None => Some (s <~ begin_runtime_stop 0 s; Val ((), s))
                     end);
  sealing ← look (λ s, Val (filter_updates_ s));
  _ ← (if (sealing : bool)
       then loop (action (λ e s,
              match call_result 0 s with
              | Some _ => Some (Val (Some (), s))
              | None => match advance 0 (now_ e) Update.BuilderNull s with
                        | Some o => Some (s <~ o; Val (None, s))
                        | None => None
                        end
              end))
       else mret ());
  atomically (λ _ s, Val ((), end_runtime_stop s)).

(** A call into the publication state; [None]: it waits for a mutex. *)
Definition publication_call {A} (f : Input → Publication.World → option (A * Publication.World)) : M A :=
  action (λ e s,
    match the_publication s with
    | Val u => match f e (Update.world u) with
               | Some (a, w) => Some (Val (a, put_updates (Update.set_world w u) s))
               | None => None
               end
    | _ => Some Undef
    end).
Definition publication_step (a : Input → Publication.Action) : M unit :=
  publication_call (λ e w, match Publication.act heap (a e) w with Some w => Some ((), w) | None => None end).
Definition seal_publication : M unit := publication_step (λ _, Publication.Seal).
Definition request_reclaimer_shutdown : M unit := publication_step (λ _, Publication.RequestShutdown).
Definition detach_terminal_snapshot : M bool :=
  publication_call (λ e w, match Publication.act heap (Publication.Detach (now_ e)) w with
                           | Some w' => Some ((Publication.detach_terminal_snapshot heap (now_ e) w).1, w')
                           | None => None
                           end).
Definition emergency_reclaim_converged : M bool :=
  publication_call (λ _ w, match Publication.act heap Publication.EmergencyReclaim w with
                           | Some w' => Some ((Publication.emergency_reclaim_converged w).1, w')
                           | None => None
                           end).

(** ** The teardown *)

(** [join] of a thread that is taken out of its member: [false] when it throws. *)
Definition join_thread {P} (run : State → option (Z * P)) (done : P → bool) (gone : State → State) : M bool :=
  action (λ e s,
    match run s with
    | None => Some (Val (true, s))
    | Some (_, p) =>
        if join_throws e then Some (Val (false, s)) else if done p then Some (Val (true, gone s)) else None
    end).
Definition join_supervisor : M bool :=
  join_thread supervisor_run (λ p, match p with SupervisorDone => true | _ => false end) (set_supervisor_run None).
Definition join_coordinator : M bool :=
  join_thread coordinator_run (λ p, match p with CoordinatorDone => true | _ => false end) (set_coordinator_run None).
Definition join_reclaimer : M bool :=
  join_thread reclaimer_run (λ p, match p with ReclaimerDone => true | _ => false end) (set_reclaimer_run None).

(** The thread is moved out of its member, stopped and joined; one that cannot be joined
    is moved back. *)
Definition take_and_join (member : State → bool) (set_member : bool → State → State) (join : M bool) : M bool :=
  held ← section (λ s, Val (member s, set_member false s));
  if (held : bool) then
    joined ← join;
    if (joined : bool) then mret true else _ ← update_section (set_member true); mret false
  else mret true.

Definition drain_supervisor : M bool :=
  take_and_join supervisor_thread_ set_supervisor_thread
    (_ ← atomically (λ _ s, Val ((), set_supervisor_thread_stop true s)); join_supervisor).
Definition drain_coordinator : M bool := take_and_join coordinator_thread_ set_coordinator_thread join_coordinator.
Definition drain_reclaimer : M bool :=
  joined ← take_and_join reclaimer_thread_ set_reclaimer_thread join_reclaimer;
  if (joined : bool) then _ ← atomically (λ _ s, Val ((), set_reclaimer_available false s)); mret true else mret false.

Definition join_failed_reclaimer : M bool :=
  joined ← drain_reclaimer;
  if negb joined then mret false
  else
    present ← look (λ s, Val (bool_decide (is_Some (control_ s))));
    if (present : bool) then emergency_reclaim_converged else mret true.

(** The loop that waits for the coordinator; [false]: the reclaimer could not be replaced. *)
Definition await_coordinator : M bool :=
  loop (
    seen ← action (λ _ s,
      match the_control s with
      | Val c =>
          let finished := bool_decide (is_Some (coordinator_result c)) in
          let exited := bool_decide (is_Some (reclaimer_result c)) in
          if finished || reclaimer_available s && exited then Some (Val ((finished, exited), s)) else None
      | _ => Some Undef
      end);
    available ← look (λ s, Val (reclaimer_available s));
    let '(finished, exited) := seen in
    if negb finished && exited && available
    then ok ← join_failed_reclaimer; mret (if (ok : bool) then None else Some false)
    else mret (if (finished : bool) then Some true else None)).

Definition finish_coordinator : M bool :=
  updating ← look (λ s, Val (runtime_updates_enabled (config_ s) && filter_updates_ s));
  if (updating : bool) then
    _ ← call_update (Update.RequestTerminalDetach 0);
    exists_ ← section (λ s, Val (coordinator_thread_ s, s));
    if (exists_ : bool) then await_coordinator else mret true
  else mret true.

Definition completed (r : Update.CallResult) : bool :=
  match r with Update.SuccessorResult Update.SuccessorCompleted => true | _ => false end.
Definition reclaimer_unavailable (r : Update.CallResult) : bool :=
  match r with Update.SuccessorResult Update.SuccessorReclaimerUnavailable => true | _ => false end.

(** What the coordinator left committed is completed. *)
Definition complete_by_successor : M bool :=
  updating ← look (λ s, Val (filter_updates_ s));
  if negb updating then mret true
  else
    r ← call_update (Update.CompleteCommittedBySuccessor 0);
    if completed r then mret true
    else
      available ← look (λ s, Val (reclaimer_available s));
      if negb (reclaimer_unavailable r) || negb available then mret false
      else
        ok ← join_failed_reclaimer;
        if negb ok then mret false
        else r ← call_update (Update.CompleteCommittedBySuccessor 0); mret (completed r).

Definition seal_and_detach : M bool :=
  present ← look (λ s, Val (bool_decide (is_Some (control_ s))));
  if (present : bool) then _ ← seal_publication; detach_terminal_snapshot else mret true.

Definition finish_reclaimer : M bool :=
  available ← look (λ s, Val (reclaimer_available s));
  if (available : bool) then
    _ ← request_reclaimer_shutdown;
    joined ← drain_reclaimer;
    if (joined : bool) then emergency_reclaim_converged else mret false
  else
    present ← look (λ s, Val (bool_decide (is_Some (control_ s))));
    if (present : bool) then emergency_reclaim_converged else mret true.

(** The last completion; [false] unless it completes. *)
Definition complete_last : M bool :=
  updating ← look (λ s, Val (filter_updates_ s));
  if (updating : bool) then r ← call_update (Update.CompleteCommittedBySuccessor 0); mret (completed r) else mret true.

(** The last critical section, and the destructors after it. *)
Definition release_parts (s : State) : outcome unit (DNSServiceExitResult * State) :=
  if may_be_destroyed s then
    h <~ (if filter_updates_ s then u <~ the_updates s; Val (set_filter_version (Some (Publication.current_version (Update.world u))) (health_ s))
          else Val (health_ s));
    let s := set_supervisor None (set_filter_updates false (set_cache None (set_control None (set_faults None s)))) in
    let s := set_state (if decide (stop_cause_ s = Explicit) then Stopped else Failed) (set_health (unavailable h) s) in
    Val (exit_result_locked s, s)
  else Undef.

Definition teardown_incomplete : M DNSServiceExitResult :=
  section (λ s, Val (mkExitResult ServiceExitCode.TeardownIncomplete (startup_error_ s) (fatal_error_ s),
                     set_health (unavailable (health_ s)) (set_state Stopping s))).

(** The steps of the teardown, in order; each may find that it cannot go on. *)
Definition emergency_join : M bool :=
  present ← look (λ s, Val (bool_decide (is_Some (supervisor_ s))));
  if (present : bool) then lift (Supervisor.emergency_join_all heap) else mret true.
Definition replace_exited_reclaimer : M bool :=
  _ ← section (λ s, Val ((), set_reclaimer_available (reclaimer_thread_ s) s));
  exited ← look (λ s, Val match control_ s with Some c => bool_decide (is_Some (reclaimer_result c)) | None => false end);
  if (exited : bool) then join_failed_reclaimer else mret true.
Definition teardown_steps : list (M bool) :=
  [drain_supervisor; emergency_join; replace_exited_reclaimer; finish_coordinator; drain_coordinator; complete_by_successor;
   seal_and_detach; finish_reclaimer; complete_last].
Fixpoint all_steps (l : list (M bool)) : M bool :=
  match l with [] => mret true | step :: l => ok ← step; if (ok : bool) then all_steps l else mret false end.

Definition torn_down (st : DNSLifecycleState) : bool :=
  match st with Empty | Initialized | Stopped | Failed => true | _ => false end.
Definition finish_teardown : M DNSServiceExitResult :=
  early ← section (λ s, Val (if torn_down (state_ s) then Some (exit_result_locked s) else None, s));
  match early with
  | Some result => mret result
  | None =>
      _ ← request_runtime_stop;
      ok ← all_steps teardown_steps;
      if (ok : bool) then section release_parts else teardown_incomplete
  end.

(** ** [start] *)
Definition fail_start (e : DNSStartError) : M DNSStartResult :=
  _ ← update_section (λ s,
    let s := if decide (stop_cause_ s = NoCause) then set_startup_error (Some e) (set_stop_cause StartupFailure s) else s in
    let s := match state_ s with Starting | Active => set_state Stopping s | _ => s end in
    request_source_stop (set_health (set_health_state Unavailable (health_ s)) (set_update_admission_open false s)));
  _ ← request_runtime_stop;
  _ ← finish_teardown;
  section (λ s, Val (inr (if decide (stop_cause_ s = Explicit) then cancelled_start_error else default e (startup_error_ s)), s)).

(** The attempt that is accepted. *)
Definition accept_start : M (option Z) :=
  section (λ s,
    if decide (state_ s = Initialized) then
      if filter_updates_ s && bool_decide (is_Some (cache_ s)) && bool_decide (is_Some (control_ s)) && bool_decide (is_Some (faults_ s))
      then
        let attempt := wrap64 (startup_attempt_id_ s + 1) in
        let h := set_last_error None (set_effective_bound_port None (unavailable (health_ s))) in
        Val (Some attempt, set_startup_attempt_id attempt (set_startup_stop false (set_health h (set_update_admission_open false
               (set_fatal_error None (set_startup_error None (set_stop_cause NoCause (set_state Starting s))))))))
      else Val (None, s)
    else Val (None, s)).

Definition supervisor_config (f : FaultInjection) (s : State) : Supervisor.Config :=
  let c := config_ s in
  Supervisor.mkConfig (worker_count c) (port c) (cache_ s) true (recovery c) (supervisor_hooks f) true true.

(** [Some error_number]: the supervisor cannot be constructed. *)
Definition create_supervisor : M (option Z) :=
  action (λ e s,
    match lifecycle_owner s with
    | Some _ => None
    | None => Some (
        f <~ the_faults s;
        match supervisor_error e with
        | Some n => Val (Some n, s)
        | None =>
            u <~ the_publication s;
            let x := Supervisor.make_supervisor (supervisor_config f s) (Update.world u) in
            Val (None, set_supervisor (Some (Supervisor.set_service_stop (startup_stop_ s) x)) s)
        end)
    end).

(** A thread is created, unless the failure is injected, and then kept in its member. *)
Definition create_thread (injected : FaultInjection → bool) (begin : State → State) (keep : State → State) : M (option Z) :=
  f ← look the_faults;
  if injected f then mret (Some Supervisor.EAGAIN)
  else
    failed ← atomically (λ e s, Val match thread_error e with Some n => (Some n, s) | None => (None, begin s) end);
    match failed with
    | Some n => mret (Some n)
    | None => _ ← update_section keep; mret None
    end.
Definition create_reclaimer (attempt : Z) : M (option Z) :=
  create_thread reclaimer_thread_failure (set_reclaimer_run (Some (attempt, ReclaimerStart))) (set_reclaimer_thread true).
Definition create_coordinator (attempt : Z) : M (option Z) :=
  create_thread coordinator_thread_failure (set_coordinator_run (Some (attempt, CoordinatorStart))) (set_coordinator_thread true).
Definition create_supervisor_thread (attempt : Z) : M (option Z) :=
  create_thread supervisor_thread_failure
    (λ s, set_supervisor_run (Some (attempt, SupervisorRunning (Supervisor.run heap))) (set_supervisor_thread_stop false s))
    (set_supervisor_thread true).

(** A wait for a thread to report; [None]: it is ready and has not exited.  [stopped]: of
    [startup_token], looked at when the thread is not ready. *)
Definition await_role (ready : ControlPlaneState → option ReadyCode) (exited : ControlPlaneState → bool)
    (failure : StartErrorCode.DNSStartErrorCode) (role : DNSControlRole) : M (option DNSStartError) :=
  seen ← (action (λ _ s,
    match the_control s with
    | Val c =>
        if bool_decide (is_Some (ready c)) || exited c || startup_stop_ s
        then Some (Val ((bool_decide (ready c = Some Ready), exited c), s)) else None
    | _ => Some Undef
    end) : M (bool * bool));
  if negb seen.1 then
    stopped ← look (λ s, Val (startup_stop_ s));
    mret (Some (make_start_error (if (stopped : bool) then StartErrorCode.Cancelled else failure) role 0))
  else mret (if (seen.2 : bool) then Some (make_start_error failure role 0) else None).
Definition await_reclaimer : M (option DNSStartError) :=
  await_role reclaimer_ready (λ c, bool_decide (is_Some (reclaimer_result c))) StartErrorCode.ReclaimerInitFailed SnapshotReclaimer.
Definition await_coordinator_ready : M (option DNSStartError) :=
  await_role coordinator_ready (λ c, bool_decide (is_Some (coordinator_result c))) StartErrorCode.CoordinatorInitFailed
    FilterUpdateCoordinator.

(** A call of a waiting method of the supervisor. *)
Definition supervisor_wait {A} (f : bool → Supervisor.State → option A) : M A :=
  action (λ _ s,
    match the_supervisor s with
    | Val x => match f (startup_stop_ s) x with Some a => Some (Val (a, s)) | None => None end
    | _ => Some Undef
    end).

Definition still_starting (attempt : Z) (s : State) : bool :=
  bool_decide (state_ s = Starting) && bool_decide (stop_cause_ s = NoCause) && (startup_attempt_id_ s =? attempt).

Definition request_activation (attempt : Z) : M bool :=
  section (λ s,
    if still_starting attempt s then
      x <~ the_supervisor s; let '(ok, x) := Supervisor.request_activation x in Val (ok, put_supervisor x s)
    else Val (false, s)).

(** The pause of lifecycle tests; [true]: it is cancelled. *)
Definition startup_pause : M bool :=
  f ← look the_faults;
  if startup_pause_armed f then
    _ ← atomically (λ _ s, f <~ the_faults s; Val ((), set_faults (Some (set_startup_pause_reached true f)) s));
    action (λ _ s,
      match the_faults s with
      | Val f => if negb (startup_pause_armed f) then Some (Val (false, s)) else if startup_stop_ s then Some (Val (true, s)) else None
      | _ => Some Undef
      end)
  else mret false.

(** [commit_startup], with [lifecycle_mutex_] held. *)
Definition commit_startup (attempt bound_port : Z) (s : State) : outcome unit ((bool * option DNSStartError) * State) :=
  if still_starting attempt s then
    u <~ the_updates s;
    x <~ the_supervisor s;
    match Supervisor.release_data_plane x with
    | (inl _, x) =>
        let h := set_filter_version (Some (Publication.current_version (Update.world u))) (set_effective_bound_port (Some bound_port)
                   (set_available_workers (Z.of_nat (worker_count (config_ s))) (set_health_state Healthy (health_ s)))) in
        Val ((true, None), put_supervisor x (set_update_admission_open (runtime_updates_enabled (config_ s)) (set_health h (set_state Active s))))
    | (inr e, x) =>
        let h := set_effective_bound_port None (unavailable
                   (set_filter_version (Some (Publication.current_version (Update.world u))) (health_ s))) in
        Val ((false, Some (map_supervisor_activation_error e)), put_supervisor x (set_update_admission_open false (set_health h s)))
    end
  else Val ((false, None), s).

Definition commit_locked (attempt bound_port : Z) : M (bool * option DNSStartError) :=
  section (λ s,
    if runtime_updates_enabled (config_ s) then
      c <~ the_control s;
      if negb (bool_decide (is_Some (coordinator_result c))) && negb (bool_decide (is_Some (reclaimer_result c)))
      then commit_startup attempt bound_port s
      else if bool_decide (is_Some (reclaimer_result c))
      then Val ((false, Some (make_start_error StartErrorCode.ReclaimerInitFailed SnapshotReclaimer 0)), s)
      else Val ((false, Some (make_start_error StartErrorCode.CoordinatorInitFailed FilterUpdateCoordinator 0)), s)
    else commit_startup attempt bound_port s).

(** The threads A and B, when updates are enabled, and then C; the error, if any. *)
Definition create_threads (attempt : Z) : M (option DNSStartError) :=
  updating ← look (λ s, Val (runtime_updates_enabled (config_ s)));
  failed ← (if (updating : bool) then
              failed ← create_reclaimer attempt;
              match failed with
              | Some n => mret (Some (make_start_error StartErrorCode.ReclaimerThreadCreationFailed SnapshotReclaimer n))
              | None =>
                  failed ← create_coordinator attempt;
                  mret (match failed with
                        | Some n => Some (make_start_error StartErrorCode.CoordinatorThreadCreationFailed FilterUpdateCoordinator n)
                        | None => None
                        end)
              end
            else mret None);
  match failed with
  | Some e => mret (Some e)
  | None =>
      failed ← create_supervisor_thread attempt;
      mret (match failed with
            | Some n => Some (make_start_error StartErrorCode.SupervisorThreadCreationFailed WorkerSupervisor n)
            | None => None
            end)
  end.

Definition await_control_plane : M (option DNSStartError) :=
  updating ← look (λ s, Val (runtime_updates_enabled (config_ s)));
  if (updating : bool) then
    failed ← await_reclaimer;
    match failed with Some e => mret (Some e) | None => await_coordinator_ready end
  else mret None.

(** The rest of [start], from the start-up of the supervisor on. *)
Definition activate (attempt : Z) (info : Supervisor.SupervisorStartupInfo) : M DNSStartResult :=
  requested ← request_activation attempt;
  if negb requested then fail_start cancelled_start_error
  else
    activated ← supervisor_wait Supervisor.wait_for_activation;
    match activated with
    | inr e => fail_start (map_supervisor_activation_error e)
    | inl _ =>
        cancelled ← startup_pause;
        if (cancelled : bool) then fail_start cancelled_start_error
        else
          let bound_port := Supervisor.startup_bound_port info in
          committed ← commit_locked attempt bound_port;
          if (committed.1 : bool) then mret (inl (mkStartInfo bound_port (Supervisor.startup_worker_count info) attempt))
          else fail_start (default cancelled_start_error committed.2)
    end.

Definition start : M DNSStartResult :=
  accepted ← accept_start;
  match accepted with
  | None => mret (inr (make_start_error StartErrorCode.InvalidLifecycleState NoRole 0))
  | Some attempt =>
      _ ← atomically (λ _ s, s <~ on_control (λ _, control_reset attempt) s; Val ((), s));
      failed ← create_supervisor;
      match failed with
      | Some n => fail_start (make_start_error StartErrorCode.SupervisorInitFailed WorkerSupervisor n)
      | None =>
          failed ← create_threads attempt;
          match failed with
          | Some e => fail_start e
          | None =>
              failed ← await_control_plane;
              match failed with
              | Some e => fail_start e
              | None =>
                  ready ← supervisor_wait Supervisor.wait_for_startup;
                  match ready with
                  | inr e => fail_start (map_supervisor_start_error e)
                  | inl info => activate attempt info
                  end
              end
          end
      end
  end.

(** The callers that have [startup_mutex_], one after the other.  A call of [join] or
    [wait] comes here after the part of it without the mutex ([waiters]). *)
Inductive OwnerCall := CallStart | CallTeardown.
Inductive OwnerResult := StartResult (r : DNSStartResult) | ExitResult (r : DNSServiceExitResult).
Definition owner_call (c : OwnerCall) : M OwnerResult :=
  match c with
  | CallStart => r ← start; mret (StartResult r)
  | CallTeardown =>
      _ ← action (λ _ s, match waiters s with O => None | S n => Some (Val ((), set_waiters n s)) end);
      r ← finish_teardown; mret (ExitResult r)
  end.
Fixpoint owners (l : list OwnerCall) : M (list OwnerResult) :=
  match l with [] => mret [] | c :: l => r ← owner_call c; rs ← owners l; mret (r :: rs) end.

(** ** The other threads *)
Definition free (s : State) : bool := bool_decide (lifecycle_owner s = None).
Definition when (b : bool) (o : outcome unit State) : option (outcome unit State) := if b then Some o else None.

(** A step of [request_runtime_stop] by thread [t]; [None] in the pair: it has returned. *)
Definition stop_step (t : nat) (p : StopPc) (s : State) : option (outcome unit (option StopPc * State)) :=
  match p with
  | StopEnter => if free s then Some (s <~ begin_runtime_stop t s; Val (Some StopSealing, s)) else None
  | StopSealing =>
      if filter_updates_ s then
        match call_result t s with
        | Some _ => Some (Val (None, end_runtime_stop s))
        | None => match advance t 0 Update.BuilderNull s with
                  | Some o => Some (s <~ o; Val (Some StopSealing, s))
                  | None => None
                  end
        end
      else Some (Val (None, end_runtime_stop s))
  end.

(** The critical section after the exit of a thread: [true] when the runtime is to be
    stopped.  [stopped]: the stop token of the thread is set. *)
Definition role_exit (attempt : Z) (stopped : bool) (startup : DNSStartError) (fatal : DNSFatalError) (s : State) : bool * State :=
  let expected := stopped || startup_stop_ s || match state_ s with Stopping | Stopped | Failed => true | _ => false end in
  if negb expected && (startup_attempt_id_ s =? attempt) then
    match state_ s with
    | Starting =>
        let s := if decide (stop_cause_ s = NoCause) then set_startup_error (Some startup) (set_stop_cause StartupFailure s) else s in
        (true, request_source_stop (set_state Stopping s))
    | Active => accept_fatal_locked fatal s
    | _ => (false, s)
    end
  else (false, s).

(** *** Thread A: [coordinator_main].  Nobody sets its stop token. *)
Definition coordinator_step (now : Z) (b : Update.BuilderResult) (s : State) : option (outcome unit State) :=
  match coordinator_run s with
  | None => None
  | Some (attempt, p) =>
      let goto p s := set_coordinator_run (Some (attempt, p)) s in
      let failing := match faults_ s with Some f => coordinator_init_failure f | None => false end in
      match p with
      | CoordinatorStart =>
          Some (if (failing : bool) then s <~ on_control (report_ready AlreadyRunning) s; Val (goto CoordinatorInitFailed s)
                else
                  u <~ the_updates s;
                  u' <~ from_option_ub (Update.update_act heap (Update.Run 1 false) u);
                  Val (goto (CoordinatorReporting (if Update.runner_active_ (Update.controller u) then AlreadyRunning else Ready)) (put_updates u' s)))
      | CoordinatorInitFailed =>
          Some (s <~ on_control (publish_coordinator_result Update.FatalExit) s; Val (goto CoordinatorDone s))
      | CoordinatorReporting ready => Some (s <~ on_control (report_ready ready) s; Val (goto CoordinatorRunning s))
      | CoordinatorRunning =>
          match call_result 1 s with
          | Some (Update.RunResult r) => Some (Val (goto (CoordinatorPublishing r) s))
          | Some _ => Some Undef
          | None => advance 1 now b s
          end
      | CoordinatorPublishing r => Some (s <~ on_control (publish_coordinator_result r) s; Val (goto CoordinatorExiting s))
      | CoordinatorExiting =>
          when (free s)
            (let '(stop, s) := role_exit attempt false (make_start_error StartErrorCode.CoordinatorInitFailed FilterUpdateCoordinator 0)
                                 (make_role_fatal FatalCode.CoordinatorExited FilterUpdateCoordinator) s in
             Val (goto (if (stop : bool) then CoordinatorStopping StopEnter else CoordinatorDone) s))
      | CoordinatorStopping p =>
          match stop_step 1 p s with
          | Some o => Some (x <~ o; Val (goto match x.1 with Some p => CoordinatorStopping p | None => CoordinatorDone end x.2))
          | None => None
          end
      | CoordinatorDone => None
      end
  end.

(** *** Thread B: [reclaimer_main].  Nobody sets its stop token. *)
Definition reclaimer_failure : Publication.SnapshotReclaimerResult := Publication.mkReclaimerResult Publication.FatalExit None.
Definition reclaimer_fatal (r : Publication.SnapshotReclaimerResult) : DNSFatalError :=
  mkFatalError (match Publication.exit_code r with Publication.GracePeriodStalled => FatalCode.GracePeriodStalled | _ => FatalCode.ReclaimerExited end)
    SnapshotReclaimer None 0 None None None 0 (Publication.diagnostic r).

Definition reclaimer_step (now : Z) (s : State) : option (outcome unit State) :=
  match reclaimer_run s with
  | None => None
  | Some (attempt, p) =>
      let goto p s := set_reclaimer_run (Some (attempt, p)) s in
      let failing := match faults_ s with Some f => reclaimer_init_failure f | None => false end in
      match p with
      | ReclaimerStart =>
          if (failing : bool) then Some (s <~ on_control (report_reclaimer_ready AlreadyRunning) s; Val (goto ReclaimerInitFailed s))
          else
            match the_publication s with
            | Val u =>
                let w := Update.world u in
                match Publication.act heap Publication.StartReclaimer w with
                | Some w' =>
                    let ready := if Publication.reclaimer_active_ (Publication.retirement w) then AlreadyRunning else Ready in
                    Some (Val (goto (ReclaimerReporting ready) (put_updates (Update.set_world w' u) s)))
                | None => None
                end
            | _ => Some Undef
            end
      | ReclaimerInitFailed =>
          Some (s <~ on_control (publish_reclaimer_result reclaimer_failure) s; Val (goto ReclaimerDone s))
      | ReclaimerReporting ready =>
          Some (s <~ on_control (report_reclaimer_ready ready) s;
                Val (goto match ready with Ready => ReclaimerRunning | AlreadyRunning => ReclaimerPublishing reclaimer_failure end s))
      | ReclaimerRunning =>
          match the_publication s with
          | Val u =>
              let w := Update.world u in
              match Publication.reclaimer w with
              | Publication.Stopped (Some r) => Some (Val (goto (ReclaimerPublishing r) s))
              | Publication.Stopped None => Some Undef
              | _ => match Publication.act heap (Publication.ReclaimerStep now false) w with
                     | Some w => Some (Val (put_updates (Update.set_world w u) s))
                     | None => None
                     end
              end
          | _ => Some Undef
          end
      | ReclaimerPublishing r => Some (s <~ on_control (publish_reclaimer_result r) s; Val (goto (ReclaimerExiting r) s))
      | ReclaimerExiting r =>
          when (free s)
            (let '(stop, s) := role_exit attempt false (make_start_error StartErrorCode.ReclaimerInitFailed SnapshotReclaimer 0)
                                 (reclaimer_fatal r) s in
             Val (goto (if (stop : bool) then ReclaimerStopping StopEnter else ReclaimerDone) s))
      | ReclaimerStopping p =>
          match stop_step 2 p s with
          | Some o => Some (x <~ o; Val (goto match x.1 with Some p => ReclaimerStopping p | None => ReclaimerDone end x.2))
          | None => None
          end
      | ReclaimerDone => None
      end
  end.

(** *** Thread C: [supervisor_main], with the reporters it calls *)
Definition supervisor_failure : Supervisor.SupervisorRunResult :=
  Supervisor.mkSupervisorRunResult Supervisor.RunOutcome.FatalExit Supervisor.RunErrorCode.InternalError None 0 0 None None.

Definition supervisor_exit_error (r : Supervisor.SupervisorRunResult) : DNSStartError :=
  match Supervisor.result_startup_error r with
  | Some e => map_supervisor_start_error e
  | None =>
      match Supervisor.result_worker_id r with
      | Some worker =>
          mkStartError StartErrorCode.WorkerRuntimeInitFailed Worker (Some worker) (Supervisor.result_instance_id r) None
            (Supervisor.result_worker_result r ≫= Supervisor.run_error) (Supervisor.result_error_number r)
      | None => make_start_error StartErrorCode.SupervisorInitFailed WorkerSupervisor 0
      end
  end.

(** [health_reporter]. *)
Definition health_reporter (x : Supervisor.SupervisorHealthSnapshot) (s : State) : State :=
  match state_ s with
  | Active | Stopping =>
      let h := health_ s in
      let h := mkHealth (health_state h) (available_workers h) (desired_workers h) (Supervisor.restart_count x)
                 (Supervisor.restart_success_count x) (Supervisor.restart_failure_count x) (effective_bound_port h) (filter_version h) (last_error h) in
      if decide (state_ s = Active ∧ stop_cause_ s = NoCause) then
        let available := Supervisor.available_workers x in
        let st := if available =? desired_workers h then Healthy else if available =? 0 then Unavailable else Degraded in
        let h := set_available_workers available (set_health_state st h) in
        set_health (match Supervisor.last_error x with Some f => set_last_error (Some (map_worker_failure f)) h | None => h end) s
      else set_health h s
  | _ => s
  end.

Definition value {A} (m : prog Supervisor.State Supervisor.Input A) : option A :=
  match m in prog _ _ A return option A with Ret a => Some a | _ => None end.

Definition supervisor_step (e : Supervisor.Input) (s : State) : option (outcome unit State) :=
  match supervisor_run s with
  | None => None
  | Some (attempt, p) =>
      let goto p s := set_supervisor_run (Some (attempt, p)) s in
      match p with
      | SupervisorRunning rest =>
          match the_supervisor s with
          | Val x =>
              match Supervisor.reports x with
              | Supervisor.HealthReport h :: l =>
                  when (free s) (Val (health_reporter h (put_supervisor (Supervisor.set_reports l x) s)))
              | Supervisor.FatalReport f :: l =>
                  when (free s)
                    (let '(accepted, s) := accept_fatal_locked (map_worker_failure f) (put_supervisor (Supervisor.set_reports l x) s) in
                     Val (goto (if (accepted : bool) then SupervisorReporting StopEnter rest else SupervisorRunning rest) s))
              | [] =>
                  match value rest with
                  | Some (Val r) => Some (Val (goto (SupervisorPublishing r) s))
                  | Some (Err _) => Some (Val (goto (SupervisorPublishing supervisor_failure) s))
                  | Some Undef => Some Undef
                  | None =>
                      match step e rest x with
                      | Some (rest, x) => Some (Val (goto (SupervisorRunning rest) (put_supervisor x s)))
                      | None => None
                      end
                  end
              end
          | _ => Some Undef
          end
      | SupervisorReporting p rest =>
          match stop_step 3 p s with
          | Some o => Some (x <~ o; Val (goto match x.1 with Some p => SupervisorReporting p rest | None => SupervisorRunning rest end x.2))
          | None => None
          end
      | SupervisorPublishing r => Some (s <~ on_control (publish_supervisor_result r) s; Val (goto (SupervisorExiting r) s))
      | SupervisorExiting r =>
          when (free s)
            (let '(stop, s) := role_exit attempt (supervisor_thread_stop_ s) (supervisor_exit_error r)
                                 (make_role_fatal FatalCode.SupervisorExited WorkerSupervisor) s in
             Val (goto (if (stop : bool) then SupervisorStopping StopEnter else SupervisorDone) s))
      | SupervisorStopping p =>
          match stop_step 3 p s with
          | Some o => Some (x <~ o; Val (goto match x.1 with Some p => SupervisorStopping p | None => SupervisorDone end x.2))
          | None => None
          end
      | SupervisorDone => None
      end
  end.

(** *** Callers of the public methods *)
Variable inet_pton : list byte → bool.

(** [init] after its first critical section: what it builds, and the second one. *)
Definition recovery_of (c : DNSConfig) : Supervisor.WorkerRecoveryConfig :=
  Supervisor.mkRecoveryConfig (worker_failure_policy c) (Z.of_nat (restart_max_attempts c)) (restart_initial_backoff c) (restart_max_backoff c)
    (restart_stability_window c).

Definition grace_timeout : Z := 30000.

(** The parts: the controller with the publication state, and the number of cache shards.
    [b]: what [build_filter_snapshot] gives. *)
Definition build_parts (c : DNSConfig) (b : Update.BuilderResult) : option (Update.UpdateWorld * nat) :=
  if negb (dns_worker_count c =? 0)%nat && Worker.is_valid_upstream_config inet_pton (dns_upstream c) &&
     Supervisor.is_valid_recovery_config (recovery_of c)
  then
    match Update.validate_filter_rule_set (blocked_domains c) Update.default_limits, b with
    | Val _, Update.BuilderSnapshot snapshot =>
        match Publication.make_publication_state heap (Some snapshot) (dns_worker_count c) grace_timeout with
        | Val w =>
            match Update.make_controller w Update.default_limits, make_cache (dns_cache_capacity c) (dns_worker_count c) with
            | Val u, Val cache => Some (u, length (shards_ cache))
            | _, _ => None
            end
        | _ => None
        end
    | _, _ => None
    end
  else None.

Definition no_faults : FaultInjection :=
  mkFaults false false false false false
    (Supervisor.mkHooks 0 None Supervisor.CreateSocket 0 None 0 None Supervisor.WorkerRuntimeStep.RuntimeInvariant 0) false false.

Definition finish_init (c : DNSConfig) (b : Update.BuilderResult) (s : State) : bool * State :=
  match build_parts c b with
  | None => (false, set_init_in_progress false s)
  | Some (u, shards) =>
      let config := mkRuntimeConfig (dns_worker_count c) (dns_cache_capacity c) (dns_port c) (dns_runtime_updates_enabled c)
                      (recovery_of c) (dns_upstream c) in
      let h := mkHealth Unavailable 0 (Z.of_nat (dns_worker_count c)) 0 0 0 None (Some (Publication.current_version (Update.world u))) None in
      (true, set_state Initialized (set_init_in_progress false (set_faults (Some no_faults) (set_control (Some (control_reset 0))
               (set_cache (Some shards) (set_filter_updates true (set_updates (Some u) (set_health h (set_config config s)))))))))
  end.

(** The critical section of [replace_blocked_domains]: the error, if the request is not
    passed on. *)
Definition admit_update (s : State) : option Update.FilterUpdateErrorCode :=
  match state_ s with
  | Stopping | Stopped | Failed => Some Update.ShuttingDown
  | Active =>
      if negb (runtime_updates_enabled (config_ s)) then Some Update.ControlPlaneDisabled
      else if negb (update_admission_open_ s) then Some Update.ServiceNotRunning
      else if negb (filter_updates_ s) then Some Update.InternalError
      else None
  | _ => Some Update.ServiceNotRunning
  end.

(** The version is shown unless a later one is. *)
Definition show_version (r : Update.FilterUpdateResult) (s : State) : State :=
  match r with
  | inl v =>
      let shown := match filter_version (health_ s) with
                   | Some current => Publication.version_generation current <? Publication.version_generation v
                   | None => true
                   end in
      if shown then set_health (set_filter_version (Some v) (health_ s)) s else s
  | inr _ => s
  end.

(** [CallWait]: [wait] goes on to [startup_mutex_] unless the service is [Empty].
    [CallDetach]: [inject_coordinator_runtime_failure_for_test]. *)
Inductive UserCall := CallInit (c : DNSConfig) | CallRequestStop | CallJoin | CallWait | CallReplace (rules : list (list byte)) | CallDetach.

Definition idle_user (t : nat) (s : State) : bool :=
  (3 <? t)%nat &&
  match users s !! t with None | Some (UserInitialized _ | UserStopped | UserReplaced _) => true | _ => false end.
Definition set_user (t : nat) (p : UserPc) (s : State) : State := set_users (<[t := p]> (users s)) s.
Definition stopped_user (t : nat) (joining : bool) (s : State) : State :=
  set_user t UserStopped (if joining then set_waiters (S (waiters s)) s else s).

Definition user_begin (t : nat) (c : UserCall) (s : State) : option (outcome unit State) :=
  if negb (idle_user t s) || negb (free s) then None
  else
    match c with
    | CallInit c =>
        Some (Val (if decide (state_ s = Empty ∧ init_in_progress_ s = false)
                   then set_user t (UserInitializing c) (set_init_in_progress true s) else set_user t (UserInitialized false) s))
    | CallRequestStop | CallJoin =>
        let joining := match c with CallJoin => true | _ => false end in
        Some (x <~ request_stop_locked s;
              Val (if x.1 : bool then set_user t (UserStopping StopEnter joining) x.2 else stopped_user t joining x.2))
    | CallWait =>
        match state_ s with
        | Starting | Active => None
        | Empty => Some (Val (set_user t UserStopped s))
        | _ => Some (Val (stopped_user t true s))
        end
    | CallReplace rules =>
        match admit_update s with
        | Some e => Some (Val (set_user t (UserReplaced (filter_update_error e)) s))
        | None => Some (
            u <~ the_updates s;
            u <~ from_option_ub (Update.update_act heap (Update.SubmitReplace t rules) u);
            Val (set_user t UserSubmitting (set_lifecycle_owner (Some t) (put_updates u s))))
        end
    | CallDetach =>
        if filter_updates_ s then Some (
          u <~ the_updates s;
          u <~ from_option_ub (Update.update_act heap (Update.RequestTerminalDetach t) u);
          Val (set_user t UserDetaching (set_lifecycle_owner (Some t) (put_updates u s))))
        else Some (Val (set_user t UserStopped s))
    end.

Definition user_step (t : nat) (now : Z) (b : Update.BuilderResult) (s : State) : option (outcome unit State) :=
  match users s !! t with
  | Some (UserInitializing c) =>
      match b with
      | Update.BuilderSnapshot x =>
          if negb (Publication.snap_generation heap x =? kInitialFilterGeneration) then None
          else when (free s) (let '(r, s) := finish_init c b s in Val (set_user t (UserInitialized r) s))
      | _ => when (free s) (let '(r, s) := finish_init c b s in Val (set_user t (UserInitialized r) s))
      end
  | Some (UserStopping p joining) =>
      match stop_step t p s with
      | Some o => Some (x <~ o; Val match x.1 with Some p => set_user t (UserStopping p joining) x.2 | None => stopped_user t joining x.2 end)
      | None => None
      end
  | Some UserSubmitting =>
      match call_result t s with
      | Some (Update.FutureOf id) => Some (Val (set_user t (UserFuture id) (set_lifecycle_owner None s)))
      | Some _ => Some Undef
      | None => advance t now b s
      end
  | Some UserDetaching =>
      match call_result t s with
      | Some _ => Some (Val (set_user t UserStopped (set_lifecycle_owner None s)))
      | None => advance t now b s
      end
  | Some (UserFuture id) =>
      match match updates s with Some u => Update.promises (Update.controller u) !! id | None => None end with
      | Some r => when (free s) (Val (set_user t (UserReplaced r) (show_version r s)))
      | None => None
      end
  | _ => None
  end.

(** *** Workers, and the injections of lifecycle tests *)

(** The steps of the workers, and of C's callers that are not the service itself. *)
Definition worker_event (v : Supervisor.External) (s : State) : bool :=
  match v with
  | Supervisor.WorkerStep _ _ | Supervisor.StopRecord _ | Supervisor.InjectAbruptExit | Supervisor.InjectAbruptExitAfterPublication
  | Supervisor.InjectUnexpectedStop _ | Supervisor.InjectPrecommitFailure _ | Supervisor.InjectEmergencyJoinFailure
  | Supervisor.InjectJoinFailure _ => true
  | Supervisor.SnapshotPublished g =>
      match updates s with Some u => g =? Publication.current_generation (Update.world u) | None => false end
  | _ => false
  end.

Definition injected (a : Publication.Action) : bool :=
  match a with Publication.PublishProgress | Publication.InjectFailure | Publication.InjectFailureAfterCommit => true | _ => false end.

Inductive Event :=
  | UserBegin (t : nat) (c : UserCall)
  | UserStep (t : nat) (now : Z) (b : Update.BuilderResult)
  | CoordinatorStep (now : Z) (b : Update.BuilderResult)
  | ReclaimerStep (now : Z)
  | SupervisorStep (e : Supervisor.Input)
  | WorkerEvent (v : Supervisor.External)
  | PublicationEvent (a : Publication.Action)
  | InjectPostcommitFailure
  | SetFaults (f : FaultInjection).

Definition event_outcome (v : Event) (s : State) : option (outcome unit State) :=
  match v with
  | UserBegin t c => user_begin t c s
  | UserStep t now b => user_step t now b s
  | CoordinatorStep now b => coordinator_step now b s
  | ReclaimerStep now => reclaimer_step now s
  | SupervisorStep e => supervisor_step e s
  | WorkerEvent v =>
      match supervisor_ s with
      | Some x =>
          if worker_event v s then
            match Supervisor.external_step heap v x with Some x => Some (Val (put_supervisor x s)) | None => None end
          else None
      | None => None
      end
  | PublicationEvent a =>
      match control_ s, updates s with
      | Some _, Some u =>
          if injected a then
            match Publication.act heap a (Update.world u) with Some w => Some (Val (put_updates (Update.set_world w u) s)) | None => None end
          else None
      | _, _ => None
      end
  | InjectPostcommitFailure =>
      match filter_updates_ s, updates s with
      | true, Some u =>
          match Update.update_act heap Update.InjectPostcommitFailure u with Some u => Some (Val (put_updates u s)) | None => None end
      | _, _ => None
      end
  | SetFaults f => match faults_ s with Some _ => Some (Val (set_faults (Some f) s)) | None => None end
  end.

Definition event (v : Event) (s : State) : option State :=
  match event_outcome v s with
  | None => None
  | Some (Val s) => Some s
  | Some _ => Some (set_undefined true s)
  end.

(** *** Observers *)
Definition is_running (s : State) : bool := bool_decide (state_ s = Active).
Definition lifecycle_state (s : State) : DNSLifecycleState := state_ s.
Definition health (s : State) : DNSHealthSnapshot := health_ s.
Definition bound_port (s : State) : option Z := effective_bound_port (health_ s).
Definition current_filter_version (s : State) : option Publication.FilterVersion :=
  match filter_updates_ s, updates s with
  | true, Some u => Some (Publication.current_version (Update.world u))
  | _, _ => filter_version (health_ s)
  end.

(** [DNS::~DNS]; [Err]: std::terminate. *)
Definition destroy_service : M unit :=
  stop ← section request_stop_locked;
  _ ← (if (stop : bool) then request_runtime_stop else mret ());
  stop ← section request_stop_locked;
  _ ← (if (stop : bool) then request_runtime_stop else mret ());
  r ← finish_teardown;
  if decide (exit_code r = ServiceExitCode.TeardownIncomplete) then atomically (λ _ _, Err ()) else mret ().

End parts.

End Service.
