(* ===== verification/SupervisorFrame.v ===== *)
(** * What the supervisor does to the publication state

    [frame]: the configuration stays, a released data plane stays released, and the
    publication state makes only the steps of supervisor and workers.  Every action of [run] and [emergency_join_all] and every step of
    the workers is in it. *)
From stdpp Require Import relations.
From S2P Require Import Prelude DomainBlocklist FilterPublication Concurrency WorkerSupervisor SupervisorRun.
Import Supervisor.

Section frame.
Context {F : Type}.
Variable heap : nat → FilterContext F.

Definition environment_step (w w' : Publication.World) : Prop :=
  ∃ a, publishers_step a = false ∧ Publication.act heap a w = Some w'.
Definition environment : relation Publication.World := rtc environment_step.

Lemma environment_once a w w' : publishers_step a = false → Publication.act heap a w = Some w' → environment w w'.
Proof. intros Ha Hw. apply rtc_once. by exists a. Qed.

Definition frame (s s' : State) : Prop :=
  config_ s' = config_ s ∧ (filter_publication (config_ s) = true → environment (pub s) (pub s')) ∧
  (data_plane_released_ s = true → data_plane_released_ s' = true).

#[export] Instance frame_preorder : PreOrder frame.
Proof.
  split; [by intros s; split |]. intros s1 s2 s3 (H1 & E1 & R1) (H2 & E2 & R2). split_and!; [congruence | | auto]. intros Hf.
  etrans; [by apply E1 | apply E2; by rewrite H1].
Qed.

Lemma frame_same s s' : config_ s' = config_ s → pub s' = pub s → (data_plane_released_ s = true → data_plane_released_ s' = true) → frame s s'.
Proof. intros Hc Hp Hr. split; [done |]. by rewrite Hp. Qed.

(** ** Parts of actions *)
Definition framed {A} (s : State) (o : outcome unit (A * State)) : Prop :=
  match o with Val (_, s') => frame s s' | _ => True end.
Definition framed_state (s : State) (o : outcome unit State) : Prop := match o with Val s' => frame s s' | _ => True end.

Lemma framed_get {A} r s (k : WorkerRecord → outcome unit (A * State)) : (∀ rec, framed s (k rec)) → framed s (get_record r s ≫= k).
Proof. intros H. destruct (get_record r s); [apply H | done..]. Qed.
Lemma framed_get_state r s (k : WorkerRecord → outcome unit State) : (∀ rec, framed_state s (k rec)) → framed_state s (get_record r s ≫= k).
Proof. intros H. destruct (get_record r s); [apply H | done..]. Qed.

Lemma publication_step_frame a s : publishers_step a = false → framed_state s (publication_step heap a s).
Proof.
  intros Ha. unfold publication_step. destruct (Publication.act heap a (pub s)) as [p |] eqn:E; [| done].
  split_and!; [done | | done]. intros _. by eapply environment_once.
Qed.

(** A call of [publication_step] within an action. *)
Ltac publishes := match goal with |- context [publication_step heap ?a ?s] =>
  pose proof (publication_step_frame a s eq_refl); destruct (publication_step heap a s) end.

Lemma unpublished_frame s p : filter_publication (config_ s) = false → frame s (set_pub p s).
Proof. intros H. split_and!; [done | by rewrite H | done]. Qed.
Ltac framing := repeat (case_match || publishes); simplify_eq; try done; try (by apply frame_same); try (by apply unpublished_frame).

Lemma register_frame r s : framed s (register_worker heap r s).
Proof. unfold register_worker. apply framed_get. intros rec. framing. Qed.
Lemma mark_frame r s : framed s (mark_worker_registered heap r s).
Proof. unfold mark_worker_registered. apply framed_get. intros rec. framing. Qed.
Lemma release_frame r s : framed_state s (release_snapshot heap r s).
Proof. unfold release_snapshot. apply framed_get_state. intros rec. case_match; [by apply publication_step_frame | done]. Qed.
Lemma quiesce_frame r s : framed_state s (quiesce_worker heap r s).
Proof.
  unfold quiesce_worker. apply framed_get_state. intros rec.
  case_match; [by apply publication_step_frame | by apply unpublished_frame].
Qed.
Lemma update_frame r g s : frame s (update_record r g s).
Proof. by apply frame_same. Qed.
Lemma create_loop_frame r e s : framed s (create_loop heap r e s).
Proof.
  unfold create_loop. apply framed_get. intros rec. pose proof (release_frame r s).
  destruct (release_snapshot heap r s); framing.
Qed.
Lemma scan_frame l s : framed s (scan_readiness heap l s).
Proof.
  revert s. induction l as [| r l IH]; intros s; cbn [scan_readiness]; [done |]. destruct (get_record r s) as [rec | |]; cbn; [| done..].
  repeat case_match; try done; try apply IH.
  pose proof (mark_frame r s) as Hm. destruct (mark_worker_registered heap r s) as [[b s1] | |]; cbn; [| done..]. cbn in Hm.
  set (s2 := if b then _ else s1). assert (frame s s2) as H2 by (etrans; [exact Hm |]; by destruct b).
  specialize (IH s2). destruct (scan_readiness heap l s2) as [[? ?] | |]; [| done..]. cbn in *. by etrans.
Qed.
Lemma exited_frame l s : framed s (find_exited l s).
Proof.
  revert s. induction l as [| r l IH]; intros s; cbn [find_exited]; [done |]. destruct (get_record r s) as [rec | |]; cbn; [| done..].
  case_match; [| apply IH]. by apply update_frame.
Qed.

(** ** Programs *)
Notation quiet m := (every frame m).

Lemma quiet_ret {A} (a : A) : quiet (mret a : M A).
Proof. done. Qed.
Lemma quiet_bind {A C} (m : M A) (k : A → M C) : quiet m → (∀ a, quiet (k a)) → quiet (m ≫= k).
Proof. intros Hm Hk. apply every_bind; [done |]. by intros [a | e |]; cbn. Qed.
Lemma quiet_atomically {A} (f : Input → State → outcome unit (A * State)) : (∀ e s, framed s (f e s)) → quiet (atomically f).
Proof. intros H. split; [| done]. intros e s x s' [= E]. specialize (H e s). destruct (f e s) as [[a s1] | |]; by simplify_eq. Qed.
Lemma quiet_locked {A} (f : State → outcome unit (A * State)) : (∀ s, framed s (f s)) → quiet (locked f).
Proof. intros H. apply quiet_atomically. auto. Qed.
Lemma quiet_wait {A} (f : Input → State → option (A * State)) : (∀ e s a s', f e s = Some (a, s') → frame s s') → quiet (wait_for f).
Proof. intros H. split; [| done]. intros e s x s' E. destruct (f e s) as [[a s1] |] eqn:E1; [| done]. injection E as <- <-. by eapply H. Qed.
Lemma quiet_loop {X} (body : M (option X)) : quiet body → quiet (loop body).
Proof. intros H. split; [| done]. apply every_bind; [done |]. by intros [[x |] | e |]. Qed.
Lemma quiet_for_each {X} l (body : nat → M (option X)) : (∀ r, quiet (body r)) → quiet (for_each l body).
Proof. intros H. induction l as [| r l IH]; cbn [for_each]; [done |]. apply quiet_bind; [done |]. by intros [x |]. Qed.
Lemma quiet_for_records {X} (body : nat → M (option X)) : (∀ r, quiet (body r)) → quiet (for_records body).
Proof. intros H. apply quiet_bind; [by apply quiet_locked |]. intros l. by apply quiet_for_each. Qed.

Create HintDb frames.
Hint Resolve quiet_ret register_frame create_loop_frame : frames.

(** The rules, by the shape of the program; what an action does is left to [framing]. *)
Ltac quiet_step :=
  lazymatch goal with
  | |- quiet (mret _) => exact I
  | |- quiet (Ret _) => exact I
  | |- quiet (_ ≫= _) => apply quiet_bind; [| intros ?]
  | |- quiet (locked _) => apply quiet_locked; intros ?
  | |- quiet (atomically _) => apply quiet_atomically; intros ? ?
  | |- quiet (loop _) => apply quiet_loop
  | |- quiet (for_records _) => apply quiet_for_records; intros ?
  | |- quiet (match ?x with _ => _ end) => destruct x
  | |- quiet (if ?x then _ else _) => destruct x
  | |- quiet (let '_ := ?x in _) => destruct x
  | |- framed _ (Val _) => cbn
  | |- framed _ _ => solve [auto with frames]
  end.
Ltac quiet_prog := repeat quiet_step; try (by apply frame_same).

Lemma health_quiet : quiet publish_health.
Proof. unfold publish_health. quiet_prog. by case_match. Qed.

Lemma begin_creation_frame r s : framed s (begin_creation r s).
Proof. unfold begin_creation. apply framed_get. intros rec. framing. Qed.
Lemma launch_frame r e s : framed s (launch r e s).
Proof. unfold launch. apply framed_get. intros rec. framing. Qed.
Lemma note_failure_frame r f s : framed s (note_failure r f s).
Proof. unfold note_failure. apply framed_get. intros rec. cbv zeta. framing. Qed.
Lemma decide_restart_frame r f e s : framed s (decide_restart r f e s).
Proof. unfold decide_restart. apply framed_get. intros rec. cbv zeta. framing. Qed.
Lemma check_times_frame r e s : framed s (check_times r e s).
Proof. unfold check_times. apply framed_get. intros rec. cbv zeta. framing. Qed.
Lemma monitor_begin_frame e s : framed s (monitor_begin e s).
Proof. unfold monitor_begin. destruct (_ : bool); [done |]. destruct (_ : bool); [done |]. destruct (if _ : bool then _ else _) as [o | |]; cbn; framing. Qed.

Lemma framed_state_then {A} (a : A) (f : State → State) s (o : outcome unit State) : framed_state s o → (∀ s', frame s' (f s')) →
  framed s (s' ← o; Val (a, f s')).
Proof. intros H Hf. destruct o as [s' | |]; [| done..]. cbn in *. etrans; [exact H | apply Hf]. Qed.
Lemma framed_then {A C} s (o : outcome unit (A * State)) (k : A * State → outcome unit (C * State)) :
  framed s o → (∀ a s', framed s' (k (a, s'))) → framed s (o ≫= k).
Proof.
  intros H Hk. destruct o as [[a s'] | |]; [| done..]. specialize (Hk a s'). cbn in *.
  destruct (k (a, s')) as [[? ?] | |]; [| done..]. cbn in *. by etrans.
Qed.

Hint Resolve begin_creation_frame launch_frame note_failure_frame decide_restart_frame check_times_frame monitor_begin_frame
  scan_frame exited_frame mark_frame : frames.

Lemma create_worker_quiet r port : quiet (create_worker heap r port).
Proof. unfold create_worker. quiet_prog. by apply framed_get. Qed.

Lemma create_workers_quiet : quiet (create_workers heap).
Proof.
  unfold create_workers. quiet_prog. clear. induction a as [| r l IH] in a0 |- *; [done |].
  apply quiet_bind; [apply create_worker_quiet |]. intros [e |]; [done |]. apply quiet_bind; [| apply IH].
  apply quiet_locked. intros s. case_match; [| done]. apply framed_get. intros rec. by destruct (current_instance_ rec).
Qed.

Lemma start_thread_quiet r : quiet (start_worker_thread r).
Proof. unfold start_worker_thread. quiet_prog. framing. Qed.

Lemma await_readiness_quiet : quiet (await_worker_readiness heap).
Proof.
  unfold await_worker_readiness. quiet_prog. case_match; [done |]. case_match; [done |].
  apply framed_then; [apply scan_frame |]. intros o s'. by case_match.
Qed.

Lemma await_activation_quiet : quiet await_activation_command_and_workers.
Proof.
  unfold await_activation_command_and_workers. quiet_prog. case_match; [done |]. case_match; [done |].
  apply framed_then; [apply exited_frame |]. intros o s'. case_match; [done |]. case_match; [done |]. by apply frame_same.
Qed.

Lemma stops_quiet : quiet request_all_worker_stops.
Proof. unfold request_all_worker_stops, request_worker_stop. quiet_prog. Qed.

Lemma join_thread_frame r e s b s' : join_thread r e s = Some (b, s') → frame s s'.
Proof. unfold join_thread. intros H. framing. Qed.

Lemma join_quiet r : quiet (join_and_reset heap r).
Proof.
  unfold join_and_reset. quiet_prog.
  - apply framed_get. intros rec. framing.
  - apply quiet_wait. intros e s b s'. apply join_thread_frame.
  - apply framed_get. intros rec. apply framed_state_then; [| by intros]. destruct (current_instance_ rec); [apply release_frame | done].
  - match goal with |- framed ?s _ => apply (framed_state_then () (λ s, s) s); [apply quiesce_frame | done] end.
Qed.

Lemma join_all_quiet : quiet (join_and_reset_all heap).
Proof.
  unfold join_and_reset_all. quiet_prog. generalize true. induction a as [| r l IH]; intros b; [done |].
  apply quiet_bind; [apply join_quiet | intros b']. apply IH.
Qed.

Lemma stop_and_join_quiet : quiet (stop_and_join heap).
Proof. unfold stop_and_join. apply quiet_bind; [apply stops_quiet | intros _; apply join_all_quiet]. Qed.

Lemma fail_service_quiet f : quiet (fail_worker_service f).
Proof. unfold fail_worker_service. quiet_prog; [apply health_quiet | by case_match]. Qed.

Lemma handle_failure_quiet r f : quiet (handle_worker_failure heap r f).
Proof. unfold handle_worker_failure. quiet_prog; auto using health_quiet, join_quiet, fail_service_quiet. Qed.

Lemma publish_startup_quiet x : quiet (publish_startup x).
Proof. unfold publish_startup. quiet_prog. by case_match. Qed.
Lemma publish_activation_quiet x : quiet (publish_activation x).
Proof. unfold publish_activation. quiet_prog. by case_match. Qed.

Lemma accept_ready_quiet r w : quiet (accept_ready heap r w).
Proof.
  unfold accept_ready. quiet_prog. apply framed_get. intros rec. case_match; [done |]. case_match; [done |].
  apply framed_then; [apply mark_frame |]. intros b s'. case_match; [done |]. by apply frame_same.
Qed.

Lemma accept_activated_quiet r : quiet (accept_activated r).
Proof.
  unfold accept_activated. quiet_prog; try apply health_quiet; apply framed_get; intros rec; framing.
Qed.

Lemma restart_quiet r : quiet (restart_worker heap r).
Proof.
  unfold restart_worker. quiet_prog; auto using create_worker_quiet, health_quiet, handle_failure_quiet, start_thread_quiet.
Qed.

Lemma monitor_record_quiet r : quiet (monitor_record heap r).
Proof.
  unfold monitor_record. quiet_prog; auto using handle_failure_quiet, accept_ready_quiet, accept_activated_quiet, restart_quiet.
  by apply framed_get.
Qed.

Lemma monitor_records_quiet l p d : quiet (monitor_records heap l p d).
Proof.
  revert p d. induction l as [| r l IH]; intros p d; cbn [monitor_records]; [done |]. quiet_prog; [apply monitor_record_quiet | apply IH ..].
Qed.

Lemma monitor_quiet : quiet (monitor_active_workers heap).
Proof.
  unfold monitor_active_workers. quiet_prog; [apply monitor_records_quiet |]. apply framed_get. intros rec. by case_match.
Qed.

Hint Resolve create_workers_quiet start_thread_quiet await_readiness_quiet await_activation_quiet stops_quiet join_all_quiet
  stop_and_join_quiet publish_startup_quiet publish_activation_quiet monitor_quiet : frames.

Lemma run_impl_quiet : quiet (run_impl heap).
Proof.
  unfold run_impl, startup_failed, activation_failed, run_active_workers, start_up, start_worker_threads.
  quiet_prog; auto with frames; try done.
  - by case_match.
  - apply framed_get. intros rec. by destruct (current_instance_ rec).
Qed.

Theorem run_frame : quiet (run heap).
Proof.
  unfold run. quiet_prog; [by case_match |]. apply every_bind; [apply run_impl_quiet |]. unfold publish_abrupt_failure, finish_run.
  intros [x | e |]; [| | done]; quiet_prog; auto with frames.
Qed.

Theorem emergency_frame : quiet (emergency_join_all heap).
Proof. unfold emergency_join_all. quiet_prog; auto with frames. Qed.

(** ** No exceptions in [emergency_join_all] *)
Definition calm {A} (o : outcome unit A) : Prop := ∀ e, o ≠ Err e.
Definition nothrow {A} (m : M A) : Prop := returns m calm.

Lemma calm_val {A} (a : A) : calm (Val a).
Proof. by intros e. Qed.
Lemma calm_bind {A C} (o : outcome unit A) (k : A → outcome unit C) : calm o → (∀ a, calm (k a)) → calm (o ≫= k).
Proof. intros Ho Hk. destruct o as [a | e |]; [apply Hk | by destruct (Ho e) | by intros e]. Qed.
Lemma calm_some {A} (o : option A) : calm (from_option_ub o : outcome unit A).
Proof. by destruct o. Qed.
Lemma calm_release r s : calm (release_snapshot heap r s).
Proof.
  apply calm_bind; [apply calm_some | intros rec]. destruct (filter_publication _); [| apply calm_val].
  apply calm_bind; [apply calm_some | intros p; apply calm_val].
Qed.
Lemma calm_quiesce r s : calm (quiesce_worker heap r s).
Proof.
  apply calm_bind; [apply calm_some | intros rec]. cbv zeta. destruct (filter_publication _); [| apply calm_val].
  apply calm_bind; [apply calm_some | intros p; apply calm_val].
Qed.

Lemma nothrow_bind {A C} (m : M A) (k : A → M C) : nothrow m → (∀ a, nothrow (k a)) → nothrow (m ≫= k).
Proof.
  intros Hm Hk. apply returns_bind. eapply returns_mono; [| exact Hm]. intros [a | e |] Ho; [apply Hk | by destruct (Ho e) | by intros e].
Qed.
Lemma nothrow_locked {A} (f : State → outcome unit (A * State)) : (∀ s, calm (f s)) → nothrow (locked f).
Proof. intros H e s x s' [= E]. specialize (H s). destruct (f s) as [[a s1] | u |]; [| by destruct (H u) |]; injection E as <- <-; by intros u. Qed.
Lemma nothrow_wait {A} (f : Input → State → option (A * State)) : nothrow (wait_for f).
Proof. intros e s x s' E. destruct (f e s) as [[a s1] |]; [| done]. injection E as <- <-. apply calm_val. Qed.
Lemma nothrow_ret {A} (a : A) : nothrow (mret a).
Proof. apply calm_val. Qed.

Lemma nothrow_join r : nothrow (join_and_reset heap r).
Proof.
  unfold join_and_reset. apply nothrow_bind; [by apply nothrow_locked | intros _]. apply nothrow_bind.
  { apply nothrow_locked. intros s. apply calm_bind; [apply calm_some | intros rec]. by case_match. }
  intros [|]; [apply nothrow_ret |]. apply nothrow_bind; [apply nothrow_wait | intros [|]; [| apply nothrow_ret]].
  apply nothrow_bind; [by apply nothrow_locked | intros _]. apply nothrow_bind.
  { apply nothrow_locked. intros s. apply calm_bind; [apply calm_some | intros rec].
    apply calm_bind; [destruct (current_instance_ rec); [apply calm_release | apply calm_val] | intros s1; apply calm_val]. }
  intros _. apply nothrow_bind; [| intros _; by apply nothrow_locked].
  apply nothrow_locked. intros s. apply calm_bind; [apply calm_quiesce | intros s1; apply calm_val].
Qed.

Theorem emergency_nothrow : nothrow (emergency_join_all heap).
Proof.
  unfold emergency_join_all. apply nothrow_bind; [by apply nothrow_locked |]. intros [|]; [apply nothrow_ret |].
  apply nothrow_bind; [by apply nothrow_locked | intros _]. apply nothrow_bind.
  { apply nothrow_bind; [| intros _; apply nothrow_ret]. apply nothrow_bind; [by apply nothrow_locked |]. intros l.
    induction l as [| r l IH]; cbn [for_each]; [apply nothrow_ret |]. apply nothrow_bind; [by apply nothrow_locked |].
    intros [x |]; [apply nothrow_ret | exact IH]. }
  intros _. apply nothrow_bind; [by apply nothrow_locked |]. intros [|]; [apply nothrow_ret |].
  apply nothrow_bind; [by apply nothrow_locked |]. intros l. generalize true. induction l as [| r l IH]; intros b; [apply nothrow_ret |].
  apply nothrow_bind; [apply nothrow_join | intros b']. apply IH.
Qed.

(** ** The other threads *)
Lemma set_pc_frame r p s s' : frame s s' → frame s (set_pc r p s').
Proof. intros H. etrans; [exact H | by apply update_frame]. Qed.

Lemma worker_frame c p0 r ch s s' : SupervisorInvariant.inv heap c p0 s → worker_step heap r ch s = Some s' → frame s s'.
Proof.
  intros Hv Hs. unfold worker_step in Hs.
  destruct (records_ s !! r) as [rec |] eqn:Hr; [| done]. cbn [mbind option_bind] in Hs.
  destruct (current_thread_ rec) as [t |] eqn:Ht; [| done]. cbn [mbind option_bind] in Hs.
  destruct (SupervisorInvariant.snapshot_refresh_spec heap r (thread_instance t) s) as (ok & p & E & _ & _ & _ & _ & Hact).
  rewrite E in Hs. assert (frame s (set_pub p s)) as Href.
  { split_and!; [done | | done]. intros Hf. apply (environment_once (Publication.Refresh r (thread_instance t))); [done |]. apply Hact.
    rewrite (SupervisorInvariant.inv_config _ _ _ _ Hv) in Hf.
    pose proof (SupervisorInvariant.inv_records _ _ _ _ Hv _ _ Hr) as Hok.
    destruct (SupervisorInvariant.ok_thread _ _ _ _ Hok _ Ht) as (Hci & -> & _).
    by apply (SupervisorInvariant.inv_pub _ _ _ _ Hv Hf _ _ Hr). }
  clear Hv E Hact. destruct (pc t); repeat case_match; simplify_option_eq; try done; apply set_pc_frame; try done; apply frame_same;
    unfold report_worker_ready, report_worker_activated, report_worker_completion; by repeat case_match.
Qed.

(** Steps that are not the publishers'. *)
Lemma external_frame c p0 v s s' : SupervisorInvariant.inv heap c p0 s → match v with Publish _ => False | _ => True end →
  external_step heap v s = Some s' → frame s s'.
Proof.
  intros Hv Hp Hs. destruct v; cbn [external_step] in Hs; try done; [by eapply worker_frame | ..];
    unfold request_activation, release_data_plane, snapshot_published, inject_worker_unexpected_stop, inject_worker_precommit_failure in Hs;
    repeat case_match; simplify_eq; cbn; by apply frame_same.
Qed.
End frame.
