(* ===== verification/UpdateFrame.v ===== *)
(** * The rule updates as seen from the service

    What a step of [Update.update_act] does to the publication state ([publishing]), to the
    calls of the other threads, to the kind of call a thread is in, and to the flags that
    the teardown relies on. *)
From stdpp Require Import relations.
From S2P Require Import Prelude DomainBlocklist FilterPublication PublicationClaims FilterUpdateController UpdateInvariant UpdateClaims WorkerSupervisor.
Import Publication Update.

Ltac unbind := repeat match goal with
  | H : _ ≫= _ = Some _ |- _ => apply bind_Some in H as (? & ? & ?)
  | H : (let '(_, _) := ?p in _) = Some _ |- _ => destruct p eqn:?
  | H : Some _ = Some _ |- _ => injection H as H; try subst
  end.

(** The call that a thread is in. *)
Inductive CallKind := RunCall | SealOnly | SealTerminal | SubmitCall | SuccessorCall.
Definition in_call (k : CallKind) (c : Call) : bool :=
  match k, c with
  | RunCall, Running _ | RunCall, Returned (RunResult _) | SealOnly, Sealing _ false | SealOnly, Returned SealReturned
  | SealTerminal, Sealing _ true | SealTerminal, TerminalLocked | SealTerminal, Returned SealReturned
  | SubmitCall, Submitting _ | SubmitCall, Rejecting _ _ | SubmitCall, Returned (FutureOf _)
  | SuccessorCall, Succeeding _ | SuccessorCall, Returned (SuccessorResult _) => true
  | _, _ => false
  end.

Definition actor (a : UpdateAction) : option nat :=
  match a with
  | SubmitReplace t _ | Run t _ | SealCall t | RequestTerminalDetach t | CompleteCommittedBySuccessor t | Destroy t
  | Advance t _ _ => Some t
  | InjectPostcommitFailure | Environment _ => None
  end.

(** The calls that begin. *)
Definition begins (a : UpdateAction) : option CallKind :=
  match a with
  | SubmitReplace _ _ => Some SubmitCall
  | Run _ _ => Some RunCall
  | SealCall _ => Some SealOnly
  | RequestTerminalDetach _ => Some SealTerminal
  | CompleteCommittedBySuccessor _ => Some SuccessorCall
  | _ => None
  end.

Definition reclaimed (w : World) : Prop := pending (retired_ (retirement w)) = false ∧ pending (terminal_ (retirement w)) = false.

Section frame.
Context {F : Type}.
Variable heap : nat → FilterContext F.
Notation update_act := (update_act heap).

(** ** Steps of the publication state *)
Ltac act_cases H := simpl in H;
  unfold guarded, register_worker, refresh_locked, quiesce_locked, acquire_retirement_credit, release_uncommitted_credit in H;
  repeat (case_match || (apply bind_Some in H as (? & ? & H))); simplify_eq; try done.

(** Who moves the reclaimer. *)
Lemma act_reclaimer a w w' : act heap a w = Some w' →
  match a with StartReclaimer | ReclaimerStep _ _ => True | _ => reclaimer w' = reclaimer w end.
Proof.
  intros H. destruct a; try done.
  - act_cases H.
  - injection H as <-. unfold mark_worker_registered. by repeat case_match.
  - act_cases H.
  - by injection H as <-.
  - act_cases H.
  - act_cases H.
  - act_cases H; cbn in H; by simplify_eq.
  - act_cases H.
  - act_cases H.
  - act_cases H.
  - act_cases H. unfold commit. by repeat case_match.
  - act_cases H.
  - act_cases H. unfold detach_terminal_snapshot. by repeat case_match.
  - act_cases H.
  - act_cases H.
  - act_cases H.
  - act_cases H.
  - act_cases H. unfold emergency_reclaim_converged, reclaim_converged_locked. by repeat case_match.
Qed.

Lemma reclaimer_step_reclaimed now stop w : reclaimed w → reclaimed (reclaimer_step now stop w).
Proof.
  unfold reclaimed, reclaimer_step. intros [H1 H2]. repeat case_match; simplify_eq; try done; cbn; unfold exit_with; cbn; try done;
    destruct which; cbn; rewrite ?H1, ?H2; try done.
Qed.

(** Who leaves snapshots to be reclaimed. *)
Lemma act_reclaimed a w w' : act heap a w = Some w' → match a with Commit _ _ | Detach _ => False | _ => True end →
  reclaimed w → reclaimed w'.
Proof.
  intros H Ha Hr. destruct a; try done.
  - act_cases H.
  - injection H as <-. unfold mark_worker_registered. by repeat case_match.
  - act_cases H.
  - by injection H as <-.
  - act_cases H.
  - act_cases H.
  - act_cases H; cbn in H; by simplify_eq.
  - act_cases H.
  - act_cases H.
  - act_cases H.
  - act_cases H.
  - act_cases H. unfold run_reclaimer_begin. by repeat case_match.
  - injection H as <-. by apply reclaimer_step_reclaimed.
  - act_cases H.
  - act_cases H.
  - act_cases H.
  - act_cases H.
  - act_cases H. unfold emergency_reclaim_converged, reclaim_converged_locked. destruct Hr as [H1 H2]. unfold reclaimed.
    repeat case_match; cbn in *; rewrite ?H1, ?H2 in *; try done; rewrite ?H1, ?H2; done.
Qed.

(** ** The publication state *)

(** What the controller does to it. *)
Definition controller_action (a : Action) : bool :=
  match a with
  | AcquireCredit _ | ReleaseCredit | BuildCandidate _ | DropCandidate _ | Commit _ _ | Seal | Detach _ => true
  | _ => false
  end.
Definition publisher_step (w w' : World) : Prop := ∃ a, controller_action a = true ∧ act heap a w = Some w'.
Definition publishing : relation World := rtc publisher_step.

Lemma publishing_once a w w' : controller_action a = true → act heap a w = Some w' → publishing w w'.
Proof. intros Ha Hw. apply rtc_once. by exists a. Qed.

Lemma seal_publishing pc u next u' : seal_step heap pc u = Some (next, u') → publishing (world u) (world u').
Proof. intros H. destruct (seal_step_spec _ _ _ _ _ H) as (_ & [-> | Hw] & _); [done | by eapply (publishing_once Seal)]. Qed.

Lemma apply_publishing a now b u next u1 : inv heap (world u) → run_inv heap (RunApply a) u → apply_step heap a now b u = Some (next, u1) →
  publishing (world u) (world u1).
Proof.
  intros Hinv (c & Ec & Ha) H. destruct a as [| | cur | nx | s | s | v | v | cand after | after]; cbn [apply_step] in H; cbn [apply_inv] in Ha.
  - by injection H as <- <-.
  - by injection H as <- <-.
  - destruct (retirement_mutex_free (world u)) eqn:Hm; [| done]. cbn [negb] in H. apply bind_Some in H as ([acq w] & Hacq & H).
    injection H as <- <-. apply (publishing_once (AcquireCredit (build_stop_requested (controller u)))); [done |].
    by eapply acquire_credit_spec.
  - destruct b as [| e | | s]; try (by injection H as <- <-). apply bind_Some in H as (w & Hact & H). injection H as <- <-.
    by apply (publishing_once (BuildCandidate s)).
  - by case_match; simplify_eq.
  - destruct Ha as (_ & _ & _ & Hin). destruct (retirement_mutex_free (world u)) eqn:Hm; [| done]. cbn [negb] in H.
    assert (publishing (world u) (commit heap (Some s) now (drop_candidate s (world u))).2) as Hp.
    { apply (publishing_once (Commit s now)); [done |]. simpl. by rewrite decide_True, Hm. }
    by destruct (commit _ _ _ _) as [[[v n] | e |] w]; simplify_eq.
  - by case_match; simplify_eq.
  - destruct (retirement_mutex_free (world u)); [| done]. cbn [negb] in H. apply bind_Some in H as (r & _ & H). by simplify_eq.
  - destruct (retirement_mutex_free (world u)) eqn:Hm; [| done]. cbn [negb] in H. injection H as <- <-.
    etrans; [apply (publishing_once ReleaseCredit); [done | simpl; by rewrite Hm] |].
    destruct cand as [s |]; [| done]. by apply (publishing_once (DropCandidate s)).
  - by injection H as <- <-.
Qed.

Lemma finish_publishing pc u next u1 : finish_step heap pc u = Some (next, u1) → publishing (world u) (world u1).
Proof.
  intros H. destruct pc as [pc | | [| c l] |]; cbn [finish_step] in H; try (by injection H as <- <-).
  apply bind_Some in H as ([nx u2] & Hstep & H). injection H as <- <-. by eapply seal_publishing.
Qed.

Lemma run_publishing w0 u t pc now b c' u1 : inv heap (world u) → ctl_ok heap w0 u → calls u !! t = Some (Running pc) →
  run_step heap pc now b u = Some (c', u1) → publishing (world u) (world u1).
Proof.
  intros Hinv Hok Hpc H. pose proof (co_run _ _ _ Hok _ _ Hpc) as Hrun. pose proof (co_seal _ _ _ Hok) as Hs.
  destruct pc as [pc | | | | a | r | | result pc]; cbn [run_step] in H; try (by injection H as <- <-).
  - apply bind_Some in H as ([nx u2] & Hstep & H). injection H as <- <-. by eapply seal_publishing.
  - apply bind_Some in H as ([pc k] & _ & H). by injection H as <- <-.
  - destruct (retirement_mutex_free (world u)) eqn:Hm; [| done]. cbn [negb] in H.
    pose proof (so_calls _ Hs _ _ Hpc) as Hterm. apply (so_terminal _ Hs) in Hterm. destruct (so_sealed _ Hs Hterm) as (_ & Hp & _).
    pose proof (detach_step heap now _ Hm Hp) as Hact. destruct (detach_terminal_snapshot _ _ _) as [ok w]. injection H as <- <-.
    by eapply (publishing_once (Detach now)).
  - apply bind_Some in H as ([nx u2] & Hstep & H). injection H as <- <-. by eapply apply_publishing.
  - by repeat case_match; simplify_eq.
  - apply bind_Some in H as ([nx u2] & Hstep & H). injection H as <- <-. by eapply finish_publishing.
Qed.

Lemma successor_world pc u next u1 : successor_step pc u = Some (next, u1) → world u1 = world u.
Proof.
  intros H. destruct pc as [| c | v | v | c v]; cbn [successor_step] in H.
  - destruct (successor_locked _ _). by injection H as <- <-.
  - by injection H as <- <-.
  - case_match; [done |]. apply bind_Some in H as (r & _ & H). by injection H as <- <-.
  - destruct (successor_relocked _ _). by injection H as <- <-.
  - by injection H as <- <-.
Qed.

Lemma call_publishing w0 u t c now b c' u1 : inv heap (world u) → ctl_ok heap w0 u → calls u !! t = Some c →
  call_step heap c now b u = Some (c', u1) → publishing (world u) (world u1).
Proof.
  intros Hinv Hok Hc H. destruct c as [c | c e | pc | pc tm | | pc | [pc |] | | r]; cbn [call_step] in H; try (by injection H as <- <-).
  - destruct (submit_locked _ _). by injection H as <- <-.
  - by eapply run_publishing.
  - apply bind_Some in H as ([nx u2] & Hstep & H). injection H as <- <-. by eapply seal_publishing.
  - apply bind_Some in H as ([nx u2] & Hstep & H). injection H as <- <-. by rewrite (successor_world _ _ _ _ Hstep).
  - apply bind_Some in H as ([nx u2] & Hstep & H). injection H as <- <-. by eapply seal_publishing.
  - case_match; by simplify_eq.
  - done.
Qed.

Lemma update_publishing w0 a u u' : inv heap (world u) → ctl_ok heap w0 u → match a with Environment _ => False | _ => True end →
  update_act a u = Some u' → publishing (world u) (world u').
Proof.
  intros Hinv Hok Ha H. destruct a as [t rs | t stopped | t | t | t | t | | t now b | a]; cbn [Update.update_act] in H;
    try (destruct (idle t u); [| done]); try (by injection H as <-); [| | | done].
  - unfold submit_begin in H. case_match; by simplify_eq.
  - injection H as <-. unfold run_begin. by case_match.
  - apply bind_Some in H as (c & Hc & H). apply bind_Some in H as ([c' u1] & Hstep & H). injection H as <-.
    eapply (call_publishing w0 u t c now b c' u1); done.
Qed.

(** ** The calls of the threads *)
Lemma act_calls a u u' t : update_act a u = Some u' → actor a ≠ Some t → calls u' !! t = calls u !! t.
Proof.
  intros H Ha. assert (∀ t' c m, actor a = Some t' → <[t' := c]> m !! t = (m : gmap nat Call) !! t) as Hset
    by (intros t' c m E; rewrite lookup_insert_ne; [done | congruence]).
  destruct a as [t' rs | t' stopped | t' | t' | t' | t' | | t' now b | a]; cbn [Update.update_act] in H;
    try (destruct (idle t' u); [| done]); simplify_eq; simpl; try (by apply Hset); try done.
  - unfold submit_begin in H. case_match; simplify_eq; simpl; by apply Hset.
  - unfold run_begin. case_match; simpl; by apply Hset.
  - apply bind_Some in H as (c & Hc & H). apply bind_Some in H as ([c' u1] & Hstep & H). injection H as <-. simpl.
    rewrite Hset by done. by rewrite (call_step_calls _ _ _ _ _ _ _ Hstep).
  - case_match; [| done]. apply bind_Some in H as (w & _ & H). by simplify_eq.
Qed.

Lemma begins_call a u u' k t : update_act a u = Some u' → begins a = Some k → actor a = Some t →
  ∃ c, calls u' !! t = Some c ∧ in_call k c = true.
Proof.
  intros H Hk Ht. destruct a; cbn [Update.update_act begins actor] in *; simplify_eq; (destruct (idle t u); [| done]);
    try (injection H as <-); try (eexists; split; [apply lookup_insert_eq | done]).
  - unfold submit_begin in H. case_match; simplify_eq; eexists; (split; [apply lookup_insert_eq | done]).
  - unfold run_begin. case_match; eexists; (split; [apply lookup_insert_eq | done]).
Qed.

Lemma call_step_kind k c now b u c' u1 : call_step heap c now b u = Some (c', u1) → in_call k c = true → in_call k c' = true.
Proof.
  intros H Hk. destruct c as [c | c e | pc | pc tm | | pc | [pc |] | | r]; cbn [call_step] in H; destruct k; try done;
    try (destruct tm; [| done] || destruct tm; [done |]); unbind; try done.
  - by case_match.
  - destruct pc as [pc | | | | a | r | | result pc]; cbn [run_step] in H; unbind; try done; repeat case_match; unbind; by simplify_eq.
  - by case_match.
  - case_match; [done |]. by destruct tm.
  - by case_match.
Qed.

Lemma advance_call t now b u u' k c : update_act (Advance t now b) u = Some u' → calls u !! t = Some c → in_call k c = true →
  ∃ c', calls u' !! t = Some c' ∧ in_call k c' = true.
Proof.
  cbn [Update.update_act]. intros H Hc Hk. rewrite Hc in H. cbn in H. apply bind_Some in H as ([c' u1] & Hstep & H). injection H as <-.
  exists c'. split; [apply lookup_insert_eq | by eapply call_step_kind].
Qed.
(** ** Flags *)
Definition sealed (u : UpdateWorld) : Prop := sealed_ (controller u) = true.

Lemma complete_sealed id r k : sealed_ (complete id r k) = sealed_ k.
Proof. unfold complete. by case_match. Qed.
Lemma complete_inflight id r k : inflight_ (complete id r k) = inflight_ k.
Proof. unfold complete. by case_match. Qed.
Lemma complete_active id r k : runner_active_ (complete id r k) = runner_active_ k.
Proof. unfold complete. by case_match. Qed.
Hint Rewrite complete_sealed complete_inflight complete_active : completion.

Lemma seal_step_sealed pc u next u1 : seal_step heap pc u = Some (next, u1) → sealed u → sealed u1.
Proof.
  unfold sealed. intros H Hs. destruct pc as [| | | [| c l]]; cbn [seal_step] in H; unbind; cbn; autorewrite with completion; try done.
  case_match eqn:E; simplify_eq; [by rewrite Hs in E | done].
Qed.

Lemma reconcile_sealed w k : sealed_ (reconcile_inflight_after_writer_exit w k) = sealed_ k.
Proof. unfold reconcile_inflight_after_writer_exit. by repeat case_match. Qed.
Lemma reconcile_active w k : runner_active_ (reconcile_inflight_after_writer_exit w k) = runner_active_ k.
Proof. unfold reconcile_inflight_after_writer_exit. by repeat case_match. Qed.

Lemma finish_step_sealed pc u next u1 : finish_step heap pc u = Some (next, u1) → sealed u → sealed u1.
Proof.
  unfold sealed. intros H Hs. destruct pc as [pc | | [| c l] |]; cbn [finish_step] in H; unbind; cbn; autorewrite with completion; try done.
  - by eapply seal_step_sealed.
  - unfold finish_locked. repeat case_match; cbn; autorewrite with completion; by rewrite reconcile_sealed.
Qed.

Lemma apply_step_sealed a now b u next u1 : apply_step heap a now b u = Some (next, u1) → sealed u → sealed u1.
Proof. unfold sealed. intros H Hs. destruct a; cbn [apply_step] in H; repeat (case_match; try done); unbind; repeat case_match; by simplify_eq. Qed.

Lemma successor_step_sealed pc u next u1 : successor_step pc u = Some (next, u1) → sealed u → sealed u1.
Proof.
  unfold sealed. intros H Hs. destruct pc; cbn [successor_step] in H; unfold successor_locked, successor_relocked in H;
    repeat case_match; unbind; simplify_eq; cbn; autorewrite with completion; rewrite ?reconcile_sealed; try done.
Qed.

Lemma call_step_sealed c now b u c' u1 : call_step heap c now b u = Some (c', u1) → sealed u → sealed u1.
Proof.
  intros H Hs. destruct c as [c | c e | pc | pc tm | | pc | [pc |] | | r]; cbn [call_step] in H; unbind; try done.
  - unfold submit_locked in *. unfold sealed in *. repeat case_match; by simplify_eq.
  - unfold sealed in *. cbn. by autorewrite with completion.
  - destruct pc as [pc | | | | a | r | | result pc]; cbn [run_step] in H; unbind; try done; try (by eapply seal_step_sealed);
      try (by eapply apply_step_sealed); try (by eapply finish_step_sealed).
    + unfold next_command in *. unfold sealed in *. repeat case_match; by simplify_eq.
    + by repeat case_match; unbind.
    + unfold sealed in *. repeat case_match; unbind; cbn; by autorewrite with completion.
  - by eapply seal_step_sealed.
  - by eapply successor_step_sealed.
  - by eapply seal_step_sealed.
  - by case_match; simplify_eq.
Qed.

Lemma act_sealed a u u' : update_act a u = Some u' → sealed u → sealed u'.
Proof.
  intros H Hs. destruct a as [t rs | t stopped | t | t | t | t | | t now b | a]; cbn [Update.update_act] in H;
    try (destruct (idle t u); [| done]); unbind; try done.
  - unfold submit_begin in H. unfold sealed in *. case_match; simplify_eq; cbn; by autorewrite with completion.
  - unfold run_begin. by case_match.
  - by eapply (call_step_sealed _ _ _ _ _ _ ltac:(eassumption) Hs).
  - case_match; unbind; done.
Qed.

(** *** The writer is active only while it runs *)
Definition active_ok (u : UpdateWorld) : Prop := runner_active_ (controller u) = true → ∃ t pc, calls u !! t = Some (Running pc).
Definition running_call (c : Call) : bool := match c with Running _ => true | _ => false end.

Lemma seal_step_active pc u next u1 : seal_step heap pc u = Some (next, u1) → runner_active_ (controller u1) = runner_active_ (controller u).
Proof.
  intros H. destruct (seal_step_spec _ _ _ _ _ H) as (Heff & _). destruct Heff; unfold same_but_queue in *; try tauto. apply complete_active.
Qed.

(** A call that is not the writer's leaves it alone; the writer stops last of all. *)
Lemma call_step_active c now b u c' u1 : call_step heap c now b u = Some (c', u1) →
  if running_call c then running_call c' = true ∨ runner_active_ (controller u1) = false
  else running_call c' = false ∧ runner_active_ (controller u1) = runner_active_ (controller u).
Proof.
  intros H. destruct c as [c | c e | pc | pc tm | | pc | [pc |] | | r]; cbn [call_step] in H; unbind; cbn [running_call]; try done.
  - unfold submit_locked in *. repeat case_match; by simplify_eq.
  - cbn. by autorewrite with completion.
  - destruct pc as [pc | | | | a | r | | result pc]; cbn [run_step] in H; unbind; try (by left).
    + repeat case_match; unbind; simplify_eq; by left.
    + repeat case_match; unbind; by left.
    + case_match; [by left | right]. destruct pc as [pc | | [| c l] |]; cbn [finish_step] in *; unbind; simplify_eq; try done.
  - split; [by repeat case_match | by eapply seal_step_active].
  - split; [by repeat case_match |]. destruct pc; cbn [successor_step] in *; unfold successor_locked, successor_relocked in *;
      repeat case_match; unbind; simplify_eq; cbn; autorewrite with completion; rewrite ?reconcile_active; done.
  - split; [by repeat case_match | by eapply seal_step_active].
  - by case_match; simplify_eq.
Qed.

Lemma running_kept a u u' t pc : update_act a u = Some u' → calls u !! t = Some (Running pc) →
  (∃ pc', calls u' !! t = Some (Running pc')) ∨ runner_active_ (controller u') = false.
Proof.
  intros H Hpc. destruct (decide (actor a = Some t)) as [Ha | Ha]; [| left; exists pc; by rewrite (act_calls a u u')].
  assert (idle t u = false) as Hi by (unfold idle; by rewrite Hpc).
  destruct a; cbn [actor] in Ha; simplify_eq; cbn [Update.update_act] in H; rewrite ?Hi in H; try done.
  rewrite Hpc in H. cbn in H. apply bind_Some in H as ([c' u1] & Hstep & H). injection H as <-.
  destruct (call_step_active (Running pc) _ _ _ _ _ Hstep) as [Hr | Hr]; [left | by right]. destruct c'; try done.
  eexists. apply lookup_insert_eq.
Qed.

Lemma act_starts a u u' : update_act a u = Some u' → runner_active_ (controller u) = false → runner_active_ (controller u') = true →
  ∃ t pc, calls u' !! t = Some (Running pc).
Proof.
  intros H Hn Ha. destruct a as [t rs | t stopped | t | t | t | t | | t now b | a]; cbn [Update.update_act] in H;
    try (destruct (idle t u); [| done]); unbind; try (cbn in Ha; congruence).
  - unfold submit_begin in H. case_match; simplify_eq; cbn in Ha; rewrite ?complete_active in Ha; congruence.
  - unfold run_begin. rewrite Hn. do 2 eexists. apply lookup_insert_eq.
  - match goal with H : call_step heap ?c now b u = Some (?c', _) |- _ => pose proof (call_step_active _ _ _ _ _ _ H) as Hc; rename c' into c1; destruct c end;
      cbn [running_call] in Hc; try (destruct Hc as [_ Hc]; cbn in Ha; congruence).
    destruct Hc as [Hc | Hc]; [| cbn in Ha; congruence]. destruct c1; try done. do 2 eexists. apply lookup_insert_eq.
  - case_match; unbind; cbn in Ha; congruence.
Qed.

Lemma act_active a u u' : update_act a u = Some u' → active_ok u → active_ok u'.
Proof.
  intros H Hok Ha. destruct (runner_active_ (controller u)) eqn:E; [| by eapply act_starts].
  destruct (Hok E) as (t & pc & Hpc). destruct (running_kept _ _ _ _ _ H Hpc) as [[pc' ?] | ?]; [by exists t, pc' | congruence].
Qed.

(** *** The command in flight is the writer's and the successor's *)
Definition moves_inflight (c : Call) : bool := match c with Running _ | Succeeding _ => true | _ => false end.

Lemma seal_step_inflight pc u next u1 : seal_step heap pc u = Some (next, u1) → inflight_ (controller u1) = inflight_ (controller u).
Proof.
  intros H. destruct (seal_step_spec _ _ _ _ _ H) as (Heff & _). destruct Heff; unfold same_but_queue in *; try tauto. apply complete_inflight.
Qed.

Lemma call_step_inflight c now b u c' u1 : call_step heap c now b u = Some (c', u1) → moves_inflight c = false →
  inflight_ (controller u1) = inflight_ (controller u).
Proof.
  intros H Hc. destruct c as [c | c e | pc | pc tm | | pc | [pc |] | | r]; cbn [call_step] in H; unbind; try done.
  - unfold submit_locked in *. repeat case_match; by simplify_eq.
  - cbn. by autorewrite with completion.
  - by eapply seal_step_inflight.
  - by eapply seal_step_inflight.
  - by case_match; simplify_eq.
Qed.

Lemma act_inflight a u u' : update_act a u = Some u' →
  (∀ t now b c, a = Advance t now b → calls u !! t = Some c → moves_inflight c = false) →
  inflight_ (controller u') = inflight_ (controller u).
Proof.
  intros H Ha. destruct a as [t rs | t stopped | t | t | t | t | | t now b | a]; cbn [Update.update_act] in H;
    try (destruct (idle t u); [| done]); unbind; try done.
  - unfold submit_begin in H. case_match; simplify_eq; cbn; by autorewrite with completion.
  - unfold run_begin. by case_match.
  - cbn. eapply call_step_inflight; [eassumption |]. by eapply Ha.
  - case_match; unbind; done.
Qed.

(** ** What a call has done when it returns *)
Definition seal_done (c : Call) (u : UpdateWorld) : Prop := c = Returned SealReturned → sealed u.

Lemma seal_returns w0 t now b u u' c : ctl_ok heap w0 u → calls u !! t = Some c → update_act (Advance t now b) u = Some u' →
  in_call SealOnly c || in_call SealTerminal c = true → ∀ c', calls u' !! t = Some c' → seal_done c' u'.
Proof.
  intros Hok Hc H Hk c' Hc' ->. pose proof (so_calls _ (co_seal _ _ _ Hok) _ _ Hc) as Hs. cbn [Update.update_act] in H. rewrite Hc in H. cbn in H.
  apply bind_Some in H as ([c1 u1] & Hstep & H). injection H as <-. cbn in Hc'. rewrite lookup_insert_eq in Hc'. injection Hc' as ->.
  destruct c as [c | c e | pc | pc tm | | pc | pc | | r]; try done; cbn [call_step] in Hstep; unbind; [| done].
  destruct pc as [| | | [| c l]]; cbn [seal_step] in *; unbind; repeat case_match; simplify_eq; done.
Qed.

(** The successor found nothing in flight, or takes what it found. *)
Definition successor_done (c : Call) (u : UpdateWorld) : Prop :=
  match c with
  | Succeeding (SuccessorCompleting _ _) | Returned (SuccessorResult SuccessorCompleted) => inflight_ (controller u) = None
  | _ => True
  end.

Lemma successor_returns w0 t now b u u' c : ctl_ok heap w0 u → calls u !! t = Some c → update_act (Advance t now b) u = Some u' →
  in_call SuccessorCall c = true → successor_done c u → ∀ c', calls u' !! t = Some c' → successor_done c' u'.
Proof.
  intros Hok Hc H Hk Hd c' Hc'. cbn [Update.update_act] in H. rewrite Hc in H. cbn in H.
  apply bind_Some in H as ([c1 u1] & Hstep & H). injection H as <-. cbn in Hc'. rewrite lookup_insert_eq in Hc'. injection Hc' as <-.
  destruct c as [| | | | | pc | | | r]; try done; cbn [call_step] in Hstep; unbind.
  pose proof (co_successor _ _ _ Hok _ _ Hc) as Hsu.
  destruct pc as [| c | v | v | c v]; cbn [successor_step successor_inv] in *; try done.
  - unfold successor_locked in *. repeat case_match; unbind; simplify_eq; done.
  - repeat case_match; unbind; repeat case_match; simplify_eq; done.
  - unfold successor_relocked in *. repeat case_match; unbind; simplify_eq; done.
  - unbind. simplify_eq. cbn. by rewrite complete_inflight.
Qed.

(** ** Calls that leave the publication state alone, the seal apart *)
Lemma publishing_reclaimer w w' : publishing w w' → reclaimer w' = reclaimer w.
Proof.
  intros H. induction H as [w | w1 w2 w3 (a & Ha & Hw) _ IH]; [done |]. rewrite IH. apply act_reclaimer in Hw. by destruct a.
Qed.

Definition seals_only (u u' : UpdateWorld) : Prop := world u' = world u ∨ act heap Seal (world u) = Some (world u').

Lemma seals_reclaimed u u' : seals_only u u' → reclaimed (world u) → reclaimed (world u').
Proof. intros [-> | Hw] Hr; [done |]. by eapply act_reclaimed. Qed.

Lemma call_seals c now b u c' u1 : call_step heap c now b u = Some (c', u1) → running_call c = false → seals_only u u1.
Proof.
  assert (∀ pc nx u2, seal_step heap pc u = Some (nx, u2) → seals_only u u2) as Hseal
    by (intros pc nx u2 Hs; by destruct (seal_step_spec _ _ _ _ _ Hs) as (_ & ? & _)).
  intros H Hc. destruct c as [c | c e | pc | pc tm | | pc | [pc |] | | r]; cbn [call_step] in H; unbind; try done; try (by left); eauto.
  - left. by eapply successor_world.
  - case_match; [done |]. injection H as <- <-. by left.
Qed.

Lemma act_seals a u u' : update_act a u = Some u' → match a with Environment _ => False | _ => True end →
  (∀ t now b c, a = Advance t now b → calls u !! t = Some c → running_call c = false) → seals_only u u'.
Proof.
  intros H He Ha. destruct a as [t rs | t stopped | t | t | t | t | | t now b | a]; cbn [Update.update_act] in H;
    try (destruct (idle t u); [| done]); try done; try (injection H as <-; by left).
  - unfold submit_begin in H. left. case_match; by simplify_eq.
  - injection H as <-. left. unfold run_begin. by case_match.
  - apply bind_Some in H as (c & Hc & H). apply bind_Some in H as ([c' u1] & Hstep & H). injection H as <-.
    exact (call_seals _ _ _ _ _ _ Hstep (Ha t now b c eq_refl Hc)).
Qed.

(** Nothing is asked of the controller by a call that seals it. *)
Definition untouched (u : UpdateWorld) : Prop := pending_ (controller u) = [] ∧ inflight_ (controller u) = None ∧ reclaimed (world u).

Lemma seal_step_untouched pc u next u1 : seal_step heap pc u = Some (next, u1) → untouched u → untouched u1.
Proof.
  intros H (Hp & Hi & Hr). destruct (seal_step_spec _ _ _ _ _ H) as (Heff & Hw & _). split_and!; [| | by eapply seals_reclaimed].
  - destruct Heff as [? ? ? ? E | ? ? ? E | ]; [congruence | done |]. unfold complete. by case_match.
  - by rewrite (seal_step_inflight _ _ _ _ H).
Qed.

Lemma seal_call_untouched t now b u u' c : update_act (Advance t now b) u = Some u' → calls u !! t = Some c →
  in_call SealOnly c || in_call SealTerminal c = true → untouched u → untouched u'.
Proof.
  cbn [Update.update_act]. intros H Hc Hk Hu. rewrite Hc in H. cbn in H. apply bind_Some in H as ([c1 u1] & Hstep & H). injection H as <-.
  destruct c; try done; cbn [call_step] in Hstep; unbind; [| done].
  by eapply (seal_step_untouched _ _ _ _ ltac:(eassumption) Hu).
Qed.

(** ** The state as a whole *)
Lemma update_state_act w0 limits a u u' : update_state heap w0 limits u → update_act a u = Some u' → update_state heap w0 limits u'.
Proof. intros (H0 & Hl & u0 & Hm & Hr) H. split_and!; try done. exists u0. split; [done |]. by eapply update_step. Qed.
End frame.
