(* ===== verification/ServiceInvariant.v ===== *)
(** * The invariant of the service

    [inv]: what holds of the service whatever its callers, its threads and the workers do.
    [rely]: what the steps of all but the caller that has [startup_mutex_] leave alone.
    [event_safe]: every [event] keeps [inv] and is in [rely].  Thread C goes on as the
    weakest precondition of [SupervisorRun] says; the controller is in a state that its own
    steps reach. *)
From stdpp Require Import relations functions.
From S2P Require Import Prelude DomainBlocklist FilterPublication PublicationClaims FilterUpdateController UpdateInvariant UpdateClaims Concurrency WorkerSupervisor SupervisorInvariant SupervisorThread SupervisorMonitor SupervisorRun SupervisorClaims SupervisorFrame UpdateFrame DnsService.
Import Service.

(** ** Threads in calls of the controller *)
Definition stop_kind (p : StopPc) : option CallKind := match p with StopEnter => None | StopSealing => Some SealOnly end.
Definition sealing (p : StopPc) : bool := match p with StopEnter => false | StopSealing => true end.

(** The call of thread [t], and whether it has [lifecycle_mutex_]. *)
Definition calling (s : State) (t : nat) : option CallKind :=
  match t with
  | 0%nat => None
  | 1%nat => match coordinator_run s with
             | Some (_, CoordinatorReporting _) | Some (_, CoordinatorRunning) => Some RunCall
             | Some (_, CoordinatorStopping p) => stop_kind p
             | _ => None
             end
  | 2%nat => match reclaimer_run s with Some (_, ReclaimerStopping p) => stop_kind p | _ => None end
  | 3%nat => match supervisor_run s with
             | Some (_, SupervisorReporting p _) | Some (_, SupervisorStopping p) => stop_kind p
             | _ => None
             end
  | _ => match users s !! t with
         | Some (UserStopping p _) => if filter_updates_ s then stop_kind p else None
         | Some UserSubmitting => Some SubmitCall
         | Some UserDetaching => Some SealTerminal
         | _ => None
         end
  end.
Definition holding (s : State) (t : nat) : bool :=
  match t with
  | 0%nat => false
  | 1%nat => match coordinator_run s with Some (_, CoordinatorStopping p) => sealing p | _ => false end
  | 2%nat => match reclaimer_run s with Some (_, ReclaimerStopping p) => sealing p | _ => false end
  | 3%nat => match supervisor_run s with
             | Some (_, SupervisorReporting p _) | Some (_, SupervisorStopping p) => sealing p
             | _ => false
             end
  | _ => match users s !! t with
         | Some (UserStopping p _) => sealing p
         | Some UserSubmitting | Some UserDetaching => true
         | _ => false
         end
  end.

Definition in_kind (o : option CallKind) (t : nat) (u : Update.UpdateWorld) : Prop :=
  match o with
  | Some k => ∃ c, Update.calls u !! t = Some c ∧ in_call k c = true
  | None => Update.idle t u = true
  end.

(** ** The life cycle *)
Definition running (st : DNSLifecycleState) : bool := match st with Starting | Active | Stopping => true | _ => false end.
Definition final (st : DNSLifecycleState) : bool := match st with Stopped | Failed => true | _ => false end.

(** The errors are those of the cause; admission, availability and state agree. *)
Record life (st : DNSLifecycleState) (cause : StopCause) (admission updating : bool) (h : DNSHealthSnapshot)
    (e : option DNSStartError) (f : option DNSFatalError) : Prop := {
  lf_begin : st = Empty ∨ st = Initialized ∨ st = Starting ∨ st = Active → cause = NoCause;
  lf_end : final st = true → st = Stopped ↔ cause = Explicit;
  lf_admission : admission = true → st = Active ∧ updating = true;
  lf_health : health_state h ≠ Unavailable ∨ available_workers h ≠ 0 → st = Active;
  lf_startup : is_Some e ↔ cause = StartupFailure;
  lf_fatal : is_Some f ↔ cause = Fatal;
}.
Definition life_of (s : State) : Prop :=
  life (state_ s) (stop_cause_ s) (update_admission_open_ s) (runtime_updates_enabled (config_ s)) (health_ s) (startup_error_ s) (fatal_error_ s).

(** ** The parts *)
Definition complete (s : State) : Prop :=
  filter_updates_ s = true ∧ is_Some (cache_ s) ∧ is_Some (control_ s) ∧ is_Some (faults_ s) ∧ is_Some (updates s).
Definition no_parts (s : State) : Prop :=
  filter_updates_ s = false ∧ cache_ s = None ∧ control_ s = None ∧ faults_ s = None ∧ supervisor_ s = None.
Definition parts (s : State) : Prop :=
  match state_ s with
  | Empty => no_parts s ∧ updates s = None
  | Initialized => complete s ∧ supervisor_ s = None
  | Starting | Active | Stopping => complete s
  | Stopped | Failed => no_parts s
  end.

(** Threads belong to a service that runs, and thread C to a supervisor. *)
Definition threads (s : State) : Prop :=
  (running (state_ s) = false → coordinator_run s = None ∧ reclaimer_run s = None ∧ supervisor_run s = None) ∧
  (supervisor_run s ≠ None → is_Some (supervisor_ s)).

Definition initializing (s : State) : Prop :=
  (∀ t c, users s !! t = Some (UserInitializing c) → state_ s = Empty ∧ init_in_progress_ s = true) ∧
  (∀ t t' c c', users s !! t = Some (UserInitializing c) → users s !! t' = Some (UserInitializing c') → t = t').

(** No request has been made, and the caller that has [startup_mutex_] has not called the controller. *)
Definition quiescent (u : Update.UpdateWorld) : Prop := untouched u ∧ Update.idle 0 u = true.

Definition stopped (w : Publication.World) : Prop := ∃ r, Publication.reclaimer w = Publication.Stopped r.

Definition owner_call_ok (c : Update.Call) : bool := in_call SealOnly c || in_call SealTerminal c || in_call SuccessorCall c.

(** [rely] between states that differ in nothing it is about. *)
Ltac rely_same := split; try done; cbn;
  try (let x := fresh in destruct (supervisor_ _) as [x |]; [by exists x | done]);
  try (let u := fresh in let H := fresh in intros u _ H; by exists u).

Section service.
Context {F : Type}.
Variable heap : nat → FilterContext F.

Definition update_ok (workers : nat) (u : Update.UpdateWorld) : Prop :=
  active_ok u ∧ ∃ w0, update_state heap w0 Update.default_limits u ∧
    length (Publication.registry_ (Publication.publication w0)) = workers.

(** Where thread C is: what is left of [run] keeps its promises, or it has returned.  Nothing
    is said when there is no thread C. *)
Definition thread_c (p0 : Publication.World) (o : option (Z * SupervisorPc)) (x : Supervisor.State) : Prop :=
  let c := Supervisor.config_ x in
  match o with
  | Some (_, SupervisorRunning rest) | Some (_, SupervisorReporting _ rest) =>
      Concurrency.wp (SupervisorInvariant.inv heap c p0) SupervisorInvariant.rely rest (SupervisorRun.final c) x ∧
      Concurrency.every (frame heap) rest
  | Some _ => settled c None x
  | None => True
  end.

Definition supervisor_ok (s : State) (x : Supervisor.State) : Prop :=
  Supervisor.filter_publication (Supervisor.config_ x) = true ∧
  Supervisor.worker_count (Supervisor.config_ x) = worker_count (config_ s) ∧
  0 ≤ Supervisor.max_attempts (Supervisor.recovery (Supervisor.config_ x)) ∧
  (∃ u, updates s = Some u ∧ Supervisor.pub x = Update.world u) ∧
  ∃ p0, SupervisorInvariant.inv heap (Supervisor.config_ x) p0 x ∧ thread_c p0 (supervisor_run s) x.

Definition reclaimer_place (o : option (Z * ReclaimerPc)) (w : Publication.World) : Prop :=
  match o with
  | Some (_, ReclaimerReporting Ready) | Some (_, ReclaimerRunning) => Publication.reclaimer w ≠ Publication.Stopped None
  | _ => stopped w
  end.

(** [e]: a thread in the middle of a step; [0]: none. *)
Record invx (e : nat) (s : State) : Prop := {
  iv_defined : undefined_ s = false;
  iv_life : life_of s;
  iv_parts : parts s;
  iv_threads : threads s;
  iv_init : initializing s;
  iv_users : ∀ t, is_Some (users s !! t) → (3 < t)%nat;
  iv_updates : ∀ u, updates s = Some u → update_ok (worker_count (config_ s)) u;
  iv_attempts : 0 ≤ Supervisor.max_attempts (recovery (config_ s));
  iv_clean : ∀ u, filter_updates_ s = true → supervisor_ s = None → updates s = Some u → clean (Update.world u);
  iv_untouched : ∀ u, state_ s = Initialized → updates s = Some u → quiescent u;
  iv_supervisor : e ≠ 3%nat → ∀ x, supervisor_ s = Some x → supervisor_ok s x;
  iv_reclaimer : e ≠ 2%nat → ∀ u, updates s = Some u → filter_updates_ s = true → reclaimer_place (reclaimer_run s) (Update.world u);
  iv_calls : ∀ t u, t ≠ 0%nat → t ≠ e → updates s = Some u → filter_updates_ s = true → in_kind (calling s t) t u;
  iv_owner : ∀ u c, updates s = Some u → Update.calls u !! 0%nat = Some c → owner_call_ok c = true;
  iv_lock : ∀ t, t ≠ e → holding s t = true → lifecycle_owner s = Some t;
  iv_released : ∀ x, state_ s = Active → supervisor_ s = Some x → Supervisor.data_plane_released_ x = true;
  iv_submitting : ∀ t, users s !! t = Some UserSubmitting → state_ s ≠ Empty ∧ state_ s ≠ Initialized;
  iv_calling : ∀ t, users s !! t = Some UserSubmitting ∨ users s !! t = Some UserDetaching → filter_updates_ s = true;
}.
Definition inv : State → Prop := invx 0.

(** ** What the others do *)
Record calls_kept (gone : Prop) (u u' : Update.UpdateWorld) : Prop := {
  ck_owner : Update.calls u' !! 0%nat = Update.calls u !! 0%nat;
  ck_sealed : sealed u → sealed u';
  ck_inflight : gone → Update.inflight_ (Update.controller u') = Update.inflight_ (Update.controller u);
  ck_reclaimed : gone → reclaimed (Update.world u) → reclaimed (Update.world u');
}.

Definition same_exit (s s' : State) : Prop :=
  stop_cause_ s' = stop_cause_ s ∧ startup_error_ s' = startup_error_ s ∧ fatal_error_ s' = fatal_error_ s.

(** A step of the others on a supervisor that thread C does not use. *)
Definition alone (x x' : Supervisor.State) : Prop :=
  SupervisorInvariant.rely x x' ∧ ∀ c p0, SupervisorInvariant.inv heap c p0 x → SupervisorInvariant.inv heap c p0 x'.

#[export] Instance alone_preorder : PreOrder alone.
Proof. split; [by intros x; split | intros x y z [R1 I1] [R2 I2]; split; [by etrans | auto]]. Qed.

(** The caller that has [startup_mutex_] is in no call of the controller. *)
Definition owner_idle (s : State) : Prop := ∀ u, updates s = Some u → Update.idle 0 u = true.

Record rely (s s' : State) : Prop := {
  rl_running : running (state_ s) = true → running (state_ s') = true;
  rl_stopping : state_ s = Stopping → state_ s' = Stopping;
  rl_serving : state_ s = Active → state_ s' ≠ Active → state_ s' = Stopping;
  rl_rest : running (state_ s) = false → running (state_ s') = false;
  rl_active : running (state_ s) = true → state_ s ≠ Active → state_ s' ≠ Active;
  rl_final : final (state_ s) = true → state_ s' = state_ s ∧ same_exit s s';
  rl_cause : stop_cause_ s ≠ NoCause → same_exit s s';
  rl_attempt : startup_attempt_id_ s' = startup_attempt_id_ s;
  rl_config : state_ s ≠ Empty → state_ s' ≠ Empty ∧ config_ s' = config_ s;
  rl_members : coordinator_thread_ s' = coordinator_thread_ s ∧ reclaimer_thread_ s' = reclaimer_thread_ s ∧
    supervisor_thread_ s' = supervisor_thread_ s ∧ reclaimer_available s' = reclaimer_available s;
  rl_runs : (coordinator_run s' = None ↔ coordinator_run s = None) ∧ (reclaimer_run s' = None ↔ reclaimer_run s = None) ∧
    (supervisor_run s' = None ↔ supervisor_run s = None);
  rl_supervisor : match supervisor_ s with
    | None => supervisor_ s' = None
    | Some x => ∃ x', supervisor_ s' = Some x' ∧ Supervisor.config_ x' = Supervisor.config_ x ∧
        (Supervisor.data_plane_released_ x = true → Supervisor.data_plane_released_ x' = true) ∧
        (supervisor_run s = None → alone x x')
    end;
  rl_calls : ∀ u, running (state_ s) = true → updates s = Some u →
    ∃ u', updates s' = Some u' ∧ calls_kept (coordinator_run s = None) u u';
  rl_mine : lifecycle_owner s = Some 0%nat → lifecycle_owner s' = Some 0%nat;
  rl_idle : owner_idle s → owner_idle s';
  rl_admission : update_admission_open_ s = false → update_admission_open_ s' = false;
  rl_fatal : running (state_ s) = true → state_ s ≠ Active → stop_cause_ s ≠ Fatal → stop_cause_ s' ≠ Fatal;
}.

#[export] Instance calls_kept_preorder gone : PreOrder (calls_kept gone).
Proof.
  split; [by intros u; split |]. intros u1 u2 u3 [] []. split; [congruence | auto | | auto].
  intros H. by rewrite ck_inflight1, ck_inflight0.
Qed.

#[export] Instance same_exit_preorder : PreOrder same_exit.
Proof. split; [by intros s | intros s1 s2 s3 (? & ? & ?) (? & ? & ?); split_and!; congruence]. Qed.

#[export] Instance rely_preorder : PreOrder rely.
Proof.
  split.
  - intros s. split; try done; [| intros u _ H; by exists u]. destruct (supervisor_ s) as [x |]; [by exists x | done].
  - intros s1 s2 s3 A B. split.
    + intros H. by apply B, A.
    + intros H. by apply (rl_stopping _ _ B), (rl_stopping _ _ A).
    + intros H Hn. destruct (decide (state_ s2 = Active)) as [Ha | Ha]; [by apply (rl_serving _ _ B) |].
      apply (rl_stopping _ _ B). by apply (rl_serving _ _ A).
    + intros H. by apply (rl_rest _ _ B), (rl_rest _ _ A).
    + intros H Ha. apply B; [by apply A |]. by apply A.
    + intros H. destruct (rl_final _ _ A H) as [E1 X1]. rewrite <- E1 in H. destruct (rl_final _ _ B H) as [E2 X2].
      split; [congruence | by etrans].
    + intros H. pose proof (rl_cause _ _ A H) as X1. etrans; [exact X1 |]. apply (rl_cause _ _ B). by rewrite (proj1 X1).
    + rewrite (rl_attempt _ _ B). apply A.
    + intros H. destruct (rl_config _ _ A H) as [H2 <-]. by apply B.
    + destruct (rl_members _ _ A) as (<- & <- & <- & <-). apply B.
    + destruct (rl_runs _ _ A) as (<- & <- & <-). apply B.
    + pose proof (rl_supervisor _ _ A) as Ha. pose proof (rl_supervisor _ _ B) as Hb. destruct (supervisor_ s1) as [x1 |].
      * destruct Ha as (x2 & E2 & C2 & R2 & Y2). rewrite E2 in Hb. destruct Hb as (x3 & E3 & C3 & R3 & Y3). exists x3.
        split_and!; [done | congruence | auto |]. intros H. etrans; [by apply Y2 |]. apply Y3. by apply A.
      * by rewrite Ha in Hb.
    + intros u H Hu. destruct (rl_calls _ _ A _ H Hu) as (u2 & E2 & K2). destruct (rl_calls _ _ B u2) as (u3 & E3 & K3); [by apply A | done |].
      exists u3. split; [done |]. etrans; [exact K2 |]. destruct K3. split; auto; intros Hg; [apply ck_inflight0 | apply ck_reclaimed0]; by apply A.
    + intros H. by apply B, A.
    + intros H. by apply (rl_idle _ _ B), (rl_idle _ _ A).
    + intros H. by apply (rl_admission _ _ B), (rl_admission _ _ A).
    + intros H Ha Hc. apply (rl_fatal _ _ B); [by apply A | by apply A | by apply (rl_fatal _ _ A)].
Qed.

Lemma invx_open e s : inv s → invx e s.
Proof. intros []. split; try done; auto. intros t _ Hh. destruct (decide (t = 0%nat)) as [-> |]; [done | auto]. Qed.

Lemma calls_open e s : inv s → e ≠ 0%nat → ∀ u, updates s = Some u → filter_updates_ s = true → in_kind (calling s e) e u.
Proof. intros Hv He u. by apply Hv. Qed.
Lemma lock_open e s : inv s → holding s e = true → lifecycle_owner s = Some e.
Proof. intros Hv Hh. destruct (decide (e = 0%nat)) as [-> |]; [done | by apply Hv]. Qed.

(** The step of thread [e] is over. *)
Lemma invx_close e s : invx e s →
  (∀ u, updates s = Some u → filter_updates_ s = true → in_kind (calling s e) e u) → (holding s e = true → lifecycle_owner s = Some e) →
  (e = 3%nat → ∀ x, supervisor_ s = Some x → supervisor_ok s x) →
  (e = 2%nat → ∀ u, updates s = Some u → filter_updates_ s = true → reclaimer_place (reclaimer_run s) (Update.world u)) → inv s.
Proof.
  intros [] Hk Hl H3 H2. split; try done.
  - intros _. destruct (decide (e = 3%nat)); auto.
  - intros _. destruct (decide (e = 2%nat)); auto.
  - intros t u Ht _. destruct (decide (t = e)) as [-> |]; auto.
  - intros t _. destruct (decide (t = e)) as [-> |]; auto.
Qed.

(** ** Publication steps, as the supervisor sees them *)
Definition publishers : relation Publication.World :=
  rtc (λ w w', ∃ a, Supervisor.publishers_step a = true ∧ Publication.act heap a w = Some w').

Lemma publishers_once a w w' : Supervisor.publishers_step a = true → Publication.act heap a w = Some w' → publishers w w'.
Proof. intros Ha Hw. apply rtc_once. by exists a. Qed.

Lemma publishing_publishers w w' : publishing heap w w' → publishers w w'.
Proof.
  intros H. induction H as [w | w1 w2 w3 (a & Ha & Hw) _ IH]; [done |]. etrans; [| exact IH]. apply (publishers_once a); [| done]. by destruct a.
Qed.

Lemma publish_supervisor c p0 x w : SupervisorInvariant.inv heap c p0 x → publishers (Supervisor.pub x) w →
  SupervisorInvariant.inv heap c p0 (Supervisor.set_pub w x) ∧ SupervisorInvariant.rely x (Supervisor.set_pub w x).
Proof.
  intros Hv H. remember (Supervisor.pub x) as w0 eqn:Hw0. revert x Hv Hw0.
  induction H as [w | w1 w2 w3 (a & Ha & Hw) _ IH]; intros x Hv ->; [by destruct x |].
  destruct (external_safe heap c p0 (Supervisor.Publish a) x (Supervisor.set_pub w2 x)) as [Hv2 Hr2]; [done | |].
  { cbn [Supervisor.external_step]. rewrite Ha. by rewrite Hw. }
  destruct (IH _ Hv2 eq_refl) as [Hv3 Hr3]. split; [done |]. etrans; [exact Hr2 | exact Hr3].
Qed.

Lemma publishers_same_shared w w' : publishers w w' → shared w' = shared w.
Proof. intros H. induction H as [w | w1 w2 w3 (a & Ha & Hw) _ IH]; [done |]. by rewrite IH, (publishers_shared heap _ _ _ Ha Hw). Qed.

Lemma shared_clean w w' : shared w' = shared w → clean w → clean w'.
Proof. intros [= He Hl Hr] H r. unfold Publication.registry_at. rewrite He, Hl, Hr. apply H. Qed.


(** ** Changes of the controller and the publication state *)
Lemma thread_c_rely p0 o x x' : SupervisorInvariant.inv heap (Supervisor.config_ x) p0 x → SupervisorInvariant.inv heap (Supervisor.config_ x) p0 x' →
  SupervisorInvariant.rely x x' → thread_c p0 o x → thread_c p0 o x'.
Proof.
  intros Hv Hv' Hr. unfold thread_c. rewrite (inv_config _ _ _ _ Hv').
  assert (settled (Supervisor.config_ x) None x → settled (Supervisor.config_ x) None x') as Hset
    by exact (stable_use heap _ p0 (settled (Supervisor.config_ x) None) x x' Hr Hv Hv').
  destruct o as [[? []] |]; try exact Hset; [| | done]; intros [H Hq]; (split; [exact (wp_rely _ _ _ _ _ _ H Hr Hv') | exact Hq]).
Qed.

Lemma supervisor_publishes s x w : supervisor_ok s x → publishers (Supervisor.pub x) w →
  (∀ s' u', updates s' = Some u' → Update.world u' = w → config_ s' = config_ s → supervisor_run s' = supervisor_run s →
     supervisor_ok s' (Supervisor.set_pub w x)) ∧ alone x (Supervisor.set_pub w x).
Proof.
  intros (Hf & Hn & Hm & (u & Hu & Hp) & p0 & Hv & Ht) Hw. destruct (publish_supervisor _ _ _ _ Hv Hw) as [Hv' Hr].
  split; [| split; [done | intros c1 p1 Hi; by apply (publish_supervisor c1 p1)]].
  intros s' u' Hu' Hw' Hc Hrun. split_and!; [done | by rewrite Hc | done | by exists u' |]. exists p0. split; [done |].
  rewrite Hrun. by eapply (thread_c_rely p0 _ x).
Qed.

Lemma updates_change e s u u' : invx e s → updates s = Some u → filter_updates_ s = true → update_ok (worker_count (config_ s)) u' →
  publishers (Update.world u) (Update.world u') → (∀ t, t ≠ 0%nat → t ≠ e → Update.calls u' !! t = Update.calls u !! t) →
  (∀ c, Update.calls u' !! 0%nat = Some c → owner_call_ok c = true) →
  (e ≠ 2%nat → Publication.reclaimer (Update.world u') = Publication.reclaimer (Update.world u)) → (state_ s = Initialized → quiescent u → quiescent u') →
  (e = 3%nat → ∀ x, supervisor_ s = Some x → supervisor_ok s x) →
  invx e (put_updates u' s) ∧ (calls_kept (coordinator_run s = None) u u' → rely s (put_updates u' s)) ∧
  (e = 3%nat → ∀ x, supervisor_ (put_updates u' s) = Some x → supervisor_ok (put_updates u' s) x).
Proof.
  intros Hv Hu Hf Hok Hpub Hcalls Hown Hrec Hunt H3.
  assert (∀ x, supervisor_ s = Some x → supervisor_ok (put_updates u' s) (Supervisor.set_pub (Update.world u') x) ∧
            alone x (Supervisor.set_pub (Update.world u') x)) as Hsup.
  { intros x Hx. assert (supervisor_ok s x) as Hxok by (destruct (decide (e = 3%nat)); [auto | by apply Hv]).
    destruct (supervisor_publishes s x (Update.world u') Hxok) as [H1 H2].
    { destruct Hxok as (_ & _ & _ & (u1 & Hu1 & ->) & _). by simplify_eq. }
    split; [by apply (H1 _ u') | done]. }
  assert (∀ x, supervisor_ (put_updates u' s) = Some x → supervisor_ok (put_updates u' s) x) as Hsup'.
  { intros x Hx. cbn in Hx. destruct (supervisor_ s) as [x0 |] eqn:E; [| done]. injection Hx as <-. by apply Hsup. }
  split_and!.
  - destruct Hv as [H01 H02 H03 H04 H05 H06 H07 H08 H09 H10 H11 H12 H13 H14 H15 H16 H17 H18]. split; try done.
    + unfold parts, no_parts, complete in *. cbn. destruct (state_ s), (supervisor_ s); naive_solver.
    + unfold threads in *. cbn. destruct (supervisor_ s); naive_solver.
    + by intros u1 [= <-].
    + intros u1 _ Hn [= <-]. cbn in Hn. eapply shared_clean; [by apply publishers_same_shared | apply H09; try done].
      by destruct (supervisor_ s).
    + intros u1 Hi [= <-]. auto.
    + intros He u1 [= <-] _. specialize (H12 He u Hu Hf). specialize (Hrec He). unfold reclaimer_place, stopped in *. cbn. by rewrite Hrec.
    + intros t u1 H1 H2 [= <-] _. specialize (H13 t u H1 H2 Hu Hf). unfold in_kind, Update.idle in *. rewrite Hcalls by done. exact H13.
    + intros u1 c [= <-]. apply Hown.
    + intros x Ha Hx. cbn in Hx. destruct (supervisor_ s) as [x0 |] eqn:E; [| done]. injection Hx as <-. exact (H16 x0 Ha eq_refl).
  - intros Hk. split; try done.
    + cbn. destruct (supervisor_ s) as [x |] eqn:E; [| done]. exists (Supervisor.set_pub (Update.world u') x).
      split_and!; [done | done | done |]. intros _. by apply Hsup.
    + intros u1 _ E. rewrite Hu in E. injection E as <-. by exists u'.
    + intros Hi u1 [= <-]. unfold Update.idle. rewrite (ck_owner _ _ _ Hk). by apply Hi.
  - auto.
Qed.

(** A step of thread [e] in its call. *)
Lemma update_by e a s u u' : invx e s → updates s = Some u → filter_updates_ s = true → (e = 3%nat → ∀ x, supervisor_ s = Some x → supervisor_ok s x) →
  Update.update_act heap a u = Some u' → match a with Update.Environment _ => False | _ => True end →
  e ≠ 0%nat → actor a = Some e ∨ actor a = None →
  (coordinator_run s = None → ∀ t now b c, a = Update.Advance t now b → Update.calls u !! t = Some c → moves_inflight c = false) →
  (state_ s = Initialized → untouched u → untouched u') →
  invx e (put_updates u' s) ∧ rely s (put_updates u' s) ∧
  (e = 3%nat → ∀ x, supervisor_ (put_updates u' s) = Some x → supervisor_ok (put_updates u' s) x).
Proof.
  intros Hv Hu Hf H3 Ha Henv He Hact Hquiet Hunt. pose proof (iv_updates _ _ Hv _ Hu) as (Hact_ok & w0 & Hst & Hlen).
  destruct (update_state_inv heap _ _ _ Hst) as (Hui & Hinv & _). pose proof (ui_ctl _ _ _ _ Hui) as Hctl.
  pose proof (update_publishing heap w0 a u u' Hinv Hctl Henv Ha) as Hpub.
  assert (∀ t, t ≠ e → Update.calls u' !! t = Update.calls u !! t) as Hother.
  { intros t Ht. eapply act_calls; [exact Ha |]. destruct Hact; congruence. }
  destruct (updates_change e s u u') as (Hv' & Hr & H3'); try done.
  - split; [by eapply act_active |]. exists w0. split; [by eapply update_state_act | done].
  - by apply publishing_publishers.
  - intros t _ Ht. by apply Hother.
  - intros c. rewrite Hother by congruence. by apply Hv.
  - intros _. by apply (publishing_reclaimer heap).
  - intros Hi [Hq H0]. split; [auto |]. unfold Update.idle in *. by rewrite Hother by done.
  - split_and!; try done. apply Hr. split.
    + by apply Hother.
    + by eapply act_sealed.
    + intros Hg. eapply act_inflight; [exact Ha | by apply Hquiet].
    + intros Hg. eapply seals_reclaimed, act_seals; [exact Ha | done |]. intros t now b c E Hc.
      pose proof (Hquiet Hg _ _ _ _ E Hc). by destruct c.
Qed.

(** A step of the environment on the publication state. *)
Lemma environment_by e a s u w' : invx e s → updates s = Some u → filter_updates_ s = true →
  (e = 3%nat → ∀ x, supervisor_ s = Some x → supervisor_ok s x) →
  Publication.act heap a (Update.world u) = Some w' → Update.environment_action a = true → Supervisor.publishers_step a = true →
  (e ≠ 2%nat → match a with Publication.StartReclaimer | Publication.ReclaimerStep _ _ => False | _ => True end) →
  match a with Publication.Commit _ _ | Publication.Detach _ => False | _ => True end →
  let s' := put_updates (Update.set_world w' u) s in
  invx e s' ∧ rely s s' ∧ (e = 3%nat → ∀ x, supervisor_ s' = Some x → supervisor_ok s' x).
Proof.
  intros Hv Hu Hf H3 Ha Henv Hpub Hrec Hdet s'. pose proof (iv_updates _ _ Hv _ Hu) as (Hact_ok & w0 & Hst & Hlen).
  assert (Update.update_act heap (Update.Environment a) u = Some (Update.set_world w' u)) as Hact by (cbn; by rewrite Henv, Ha).
  destruct (updates_change e s u (Update.set_world w' u)) as (Hv' & Hr & H3'); try done.
  - split; [by eapply act_active |]. exists w0. split; [by eapply update_state_act | done].
  - by eapply publishers_once.
  - intros c. exact (iv_owner _ _ Hv u c Hu).
  - intros He. pose proof (act_reclaimer heap _ _ _ Ha) as H1. specialize (Hrec He). by destruct a.
  - intros _ [(? & ? & ?) ?]. repeat split; try done; by eapply (act_reclaimed heap).
  - split_and!; try done. apply Hr. split; try done. intros _. by eapply (act_reclaimed heap).
Qed.

(** ** Steps of the supervisor and of the workers *)
Lemma environment_facts w w' : environment heap w w' →
  Publication.reclaimer w' = Publication.reclaimer w ∧ (reclaimed w → reclaimed w').
Proof.
  intros H. induction H as [w | w1 w2 w3 (a & Ha & Hw) _ [IH1 IH2]]; [done |].
  pose proof (act_reclaimer heap _ _ _ Hw) as H1. split.
  - rewrite IH1. by destruct a.
  - intros Hr. apply IH2. eapply (act_reclaimed heap); [exact Hw | by destruct a | done].
Qed.

Lemma environment_update_ok n u w : environment heap (Update.world u) w → update_ok n u → update_ok n (Update.set_world w u).
Proof.
  intros H. remember (Update.world u) as w0 eqn:E. revert u E.
  induction H as [w | w1 w2 w3 (a & Ha & Hw) _ IH]; intros u ->; [by destruct u |].
  intros (Hact & p0 & Hst & Hlen). apply (IH (Update.set_world w2 u) eq_refl). split; [exact Hact |]. exists p0. split; [| done].
  eapply (update_state_act heap _ _ (Update.Environment a)); [exact Hst |]. cbn. rewrite Hw. by destruct a.
Qed.

(** The supervisor makes a step; [e = 3]: thread C does, and goes on with [o]. *)
Lemma supervisor_stepped e s x x' o : invx e s → supervisor_ s = Some x → (e = 3%nat → supervisor_ok s x) →
  frame heap x x' → (∀ p0, SupervisorInvariant.inv heap (Supervisor.config_ x) p0 x → thread_c p0 (supervisor_run s) x →
     SupervisorInvariant.inv heap (Supervisor.config_ x) p0 x' ∧ thread_c p0 o x') →
  (o = None ↔ supervisor_run s = None) → (e = 3%nat ∨ o = supervisor_run s) →
  let s' := set_supervisor_run o (put_supervisor x' s) in
  invx e s' ∧ ((supervisor_run s = None → alone x x') → rely s s') ∧ supervisor_ok s' x'.
Proof.
  intros Hv Hx H3 Hfr Hstep Ho Heo s'. assert (supervisor_ok s x) as Hok by (destruct (decide (e = 3%nat)); [auto | by apply Hv]).
  destruct Hok as (Hf & Hn & Hm & (u & Hu & Hp) & p0 & Hsi & Ht). destruct Hfr as (Hcfg & Henv & Hrel). specialize (Henv Hf). rewrite Hp in Henv.
  destruct (environment_facts _ _ Henv) as [Hrec Hreclaimed]. destruct (Hstep p0 Hsi Ht) as [Hsi' Ht'].
  assert (updates s' = Some (Update.set_world (Supervisor.pub x') u)) as Hu' by (unfold s'; cbn; by rewrite Hu).
  assert (supervisor_ok s' x') as Hok'.
  { unfold supervisor_ok. rewrite Hcfg. split_and!; [done | exact Hn | done | by eexists | by exists p0]. }
  assert (state_ s ≠ Initialized ∧ state_ s ≠ Empty) as [Hni Hne].
  { pose proof (iv_parts _ _ Hv) as Hpa. unfold parts, no_parts in Hpa. split; intros E; rewrite E in Hpa; destruct Hpa as (? & ?); naive_solver. }
  split_and!; [| | done].
  - destruct Hv as [H01 H02 H03 H04 H05 H06 H07 H08 H09 H10 H11 H12 H13 H14 H15 H16 H17 H18]. split; try done.
    + unfold parts, no_parts, complete in *. cbn. rewrite Hx, Hu in H03. cbn. rewrite Hu. cbn. destruct (state_ s); naive_solver.
    + unfold threads in *. cbn. split; [| done]. intros Hr. rewrite Ho. by apply H04.
    + intros u1 E. rewrite Hu' in E. injection E as <-. apply environment_update_ok; [exact Henv | by apply H07].
    + intros _ x1 E. unfold s' in E. cbn in E. injection E as <-. done.
    + intros He u1 E Hf1. rewrite Hu' in E. injection E as <-. specialize (H12 He u Hu Hf1). unfold reclaimer_place, stopped in *. cbn. by rewrite Hrec.
    + intros t u1 H1 H2 E Hf1. rewrite Hu' in E. injection E as <-. specialize (H13 t u H1 H2 Hu Hf1).
      replace (calling s' t) with (calling s t); [exact H13 |]. destruct Heo as [-> | ->]; [| done]. by destruct t as [| [| [| [|]]]].
    + intros u1 c E. rewrite Hu' in E. injection E as <-. exact (H14 u c Hu).
    + intros t Ht1. replace (holding s' t) with (holding s t); [by apply H15 |]. destruct Heo as [-> | ->]; [| done]. by destruct t as [| [| [| [|]]]].
    + intros x1 Ha E. unfold s' in E. cbn in E. injection E as <-. apply Hrel. exact (H16 x Ha Hx).
  - intros Hrely. split; try done.
    + rewrite Hx. exists x'. split_and!; auto.
    + intros u1 _ E. rewrite Hu in E. injection E as <-. eexists. split; [exact Hu' |]. by split.
    + intros Hi u1 E. rewrite Hu' in E. injection E as <-. exact (Hi u Hu).
Qed.

Lemma supervisor_turn e s x x' o : invx e s → supervisor_ s = Some x → (e = 3%nat → supervisor_ok s x) →
  frame heap x x' → (∀ p0, SupervisorInvariant.inv heap (Supervisor.config_ x) p0 x → thread_c p0 (supervisor_run s) x →
     SupervisorInvariant.inv heap (Supervisor.config_ x) p0 x' ∧ thread_c p0 o x') →
  (supervisor_run s = None → alone x x') → (o = None ↔ supervisor_run s = None) → (e = 3%nat ∨ o = supervisor_run s) →
  let s' := set_supervisor_run o (put_supervisor x' s) in invx e s' ∧ rely s s' ∧ supervisor_ok s' x'.
Proof. intros Hv Hx H3 Hfr Hstep Hrely Ho Heo s'. destruct (supervisor_stepped e s x x' o) as (? & ? & ?); auto. Qed.

Lemma supervisor_change e s x x' : invx e s → supervisor_ s = Some x → (e = 3%nat → supervisor_ok s x) → frame heap x x' →
  (∀ p0, SupervisorInvariant.inv heap (Supervisor.config_ x) p0 x → thread_c p0 (supervisor_run s) x →
     SupervisorInvariant.inv heap (Supervisor.config_ x) p0 x' ∧ thread_c p0 (supervisor_run s) x') →
  (supervisor_run s = None → alone x x') →
  let s' := put_supervisor x' s in invx e s' ∧ rely s s' ∧ supervisor_ok s' x'.
Proof.
  intros Hv Hx H3 Hfr Hstep Hr. replace (put_supervisor x' s) with (set_supervisor_run (supervisor_run s) (put_supervisor x' s)) by by destruct s.
  apply (supervisor_turn e s x x'); auto.
Qed.

(** A step of another thread on the supervisor. *)
Lemma supervisor_other e v s x x' : invx e s → supervisor_ s = Some x → (e = 3%nat → supervisor_ok s x) →
  Supervisor.external_step heap v x = Some x' → match v with Supervisor.Publish _ => False | _ => True end →
  let s' := put_supervisor x' s in invx e s' ∧ rely s s' ∧ supervisor_ok s' x'.
Proof.
  intros Hv Hx H3 Hs Hp. assert (supervisor_ok s x) as Hok by (destruct (decide (e = 3%nat)); [auto | by apply Hv]).
  destruct Hok as (_ & _ & _ & _ & p0 & Hsi & _).
  destruct (external_safe heap _ _ v _ _ Hsi Hs) as [Hsi' Hr].
  apply (supervisor_change e s x x'); try done.
  - by eapply external_frame.
  - intros p1 Hi Ht. destruct (external_safe heap _ _ v _ _ Hi Hs) as [Hi' _]. split; [done |]. by eapply thread_c_rely.
  - intros _. split; [done |]. intros c1 p1 Hi. by destruct (external_safe heap _ _ v _ _ Hi Hs).
Qed.

(** ** Steps of one thread

    [invt e]: thread [e] is in the middle of a step, and thread C is where [run] says. *)
Definition invt (e : nat) (s : State) : Prop := invx e s ∧ (e = 3%nat → ∀ x, supervisor_ s = Some x → supervisor_ok s x).
Definition goes (e : nat) (s s' : State) : Prop := invt e s' ∧ rely s s'.

Lemma inv_invt e s : inv s → invt e s.
Proof. intros Hv. split; [by apply invx_open | intros _; by apply Hv]. Qed.

Lemma goes_trans e s1 s2 s3 : goes e s1 s2 → (invt e s2 → goes e s2 s3) → goes e s1 s3.
Proof. intros [H1 R1] H. destruct (H H1) as [H2 R2]. split; [done | by etrans]. Qed.

Lemma update_step e a s u u' : invt e s → updates s = Some u → filter_updates_ s = true →
  Update.update_act heap a u = Some u' → match a with Update.Environment _ => False | _ => True end →
  e ≠ 0%nat → actor a = Some e ∨ actor a = None →
  (coordinator_run s = None → ∀ t now b c, a = Update.Advance t now b → Update.calls u !! t = Some c → moves_inflight c = false) →
  (state_ s = Initialized → untouched u → untouched u') → goes e s (put_updates u' s).
Proof. intros [Hv H3] Hu Hf Ha Hn He Hact Hq Hunt. by destruct (update_by e a s u u') as (? & ? & ?). Qed.

Lemma environment_goes e a s u w' : invt e s → updates s = Some u → filter_updates_ s = true →
  Publication.act heap a (Update.world u) = Some w' → Update.environment_action a = true → Supervisor.publishers_step a = true →
  (e ≠ 2%nat → match a with Publication.StartReclaimer | Publication.ReclaimerStep _ _ => False | _ => True end) →
  match a with Publication.Commit _ _ | Publication.Detach _ => False | _ => True end → goes e s (put_updates (Update.set_world w' u) s).
Proof. intros [Hv H3] Hu Hf Ha Henv Hp Hr Hd. by destruct (environment_by e a s u w') as (? & ? & ?). Qed.

Lemma supervisor_goes e v s x x' : invt e s → supervisor_ s = Some x → Supervisor.external_step heap v x = Some x' →
  match v with Supervisor.Publish _ => False | _ => True end → goes e s (put_supervisor x' s).
Proof.
  intros [Hv H3] Hx Hs Hp. destruct (supervisor_other e v s x x') as (? & ? & Hok); auto. split; [split |]; try done.
  intros _ x1 E. cbn in E. by injection E as <-.
Qed.

(** *** Flags of the supervisor *)
Lemma put_supervisor_same x s u : updates s = Some u → Supervisor.pub x = Update.world u → put_supervisor x s = set_supervisor (Some x) s.
Proof. intros Hu Hp. unfold put_supervisor. rewrite Hu. cbn. rewrite Hp. destruct s, u. cbn in *. by rewrite Hu. Qed.

Lemma supervisor_world e s x : invt e s → supervisor_ s = Some x → supervisor_ok s x.
Proof. intros [Hv H3] Hx. destruct (decide (e = 3%nat)); [by apply H3 | by apply Hv]. Qed.

Lemma supervisor_flag e v g s : invt e s → (∀ x, Supervisor.external_step heap v x = Some (g x) ∧ Supervisor.pub (g x) = Supervisor.pub x) →
  match v with Supervisor.Publish _ => False | _ => True end → goes e s (set_supervisor (g <$> supervisor_ s) s).
Proof.
  intros Hv Hg Hp. destruct (supervisor_ s) as [x |] eqn:Hx; cbn.
  - destruct (supervisor_world _ _ _ Hv Hx) as (_ & _ & _ & (u & Hu & Hpu) & _). destruct (Hg x) as [Hs Hpub].
    rewrite <- (put_supervisor_same (g x) s u) by (done || by rewrite Hpub). by eapply supervisor_goes.
  - replace (set_supervisor None s) with s by (destruct s; cbn in *; by rewrite Hx). split; [done | reflexivity].
Qed.

(** ** Changes of the service itself *)
Lemma control_change e s c : invt e s → is_Some (control_ s) → goes e s (set_control (Some c) s).
Proof.
  intros [Hv H3] [c0 Hc]. split; [split; [| exact H3] | rely_same].
  destruct Hv as [H01 H02 H03 H04 H05 H06 H07 H08 H09 H10 H11 H12 H13 H14 H15 H16 H17 H18]. split; try done.
  unfold parts, no_parts, complete in *. cbn. rewrite Hc in H03. destruct (state_ s); naive_solver.
Qed.
Lemma faults_change e s f : invt e s → is_Some (faults_ s) → goes e s (set_faults (Some f) s).
Proof.
  intros [Hv H3] [c0 Hc]. split; [split; [| exact H3] | rely_same].
  destruct Hv as [H01 H02 H03 H04 H05 H06 H07 H08 H09 H10 H11 H12 H13 H14 H15 H16 H17 H18]. split; try done.
  unfold parts, no_parts, complete in *. cbn. rewrite Hc in H03. destruct (state_ s); naive_solver.
Qed.
Lemma startup_stop_change e s b : invt e s → goes e s (set_startup_stop b s).
Proof. intros [Hv H3]. split; [split; [| exact H3] | rely_same]. by destruct Hv. Qed.
Lemma thread_stop_change e s b : invt e s → goes e s (set_supervisor_thread_stop b s).
Proof. intros [Hv H3]. split; [split; [| exact H3] | rely_same]. by destruct Hv. Qed.
Lemma waiters_change e s n : invt e s → goes e s (set_waiters n s).
Proof. intros [Hv H3]. split; [split; [| exact H3] | rely_same]. by destruct Hv. Qed.

Lemma source_stop e s : invt e s → goes e s (request_source_stop s).
Proof.
  intros Hv. unfold request_source_stop. apply (goes_trans e s (set_startup_stop true s)); [by apply startup_stop_change |]. intros Hv'.
  by refine (supervisor_flag e Supervisor.ServiceStop (Supervisor.set_service_stop true) (set_startup_stop true s) Hv' _ _).
Qed.

(** *** The life cycle *)
Definition with_life (st : DNSLifecycleState) (c : StopCause) (a : bool) (h : DNSHealthSnapshot) (er : option DNSStartError)
    (f : option DNSFatalError) (s : State) : State :=
  set_state st (set_stop_cause c (set_update_admission_open a (set_health h (set_startup_error er (set_fatal_error f s))))).

Lemma life_change e s st c a h er f : invt e s → life st c a (runtime_updates_enabled (config_ s)) h er f →
  st = state_ s ∨ running (state_ s) = true ∧ st = Stopping →
  (stop_cause_ s ≠ NoCause ∨ final (state_ s) = true → c = stop_cause_ s ∧ er = startup_error_ s ∧ f = fatal_error_ s) →
  (update_admission_open_ s = false → a = false) → (c = Fatal → stop_cause_ s = Fatal ∨ state_ s = Active) →
  goes e s (with_life st c a h er f s).
Proof.
  intros [Hv H3] Hl Hst Hc Hadm Hfat. split; [split; [| exact H3] |].
  - destruct Hv as [H01 H02 H03 H04 H05 H06 H07 H08 H09 H10 H11 H12 H13 H14 H15 H16 H17 H18]. split; try done.
    + unfold parts in *. cbn. destruct Hst as [-> | [Hr ->]]; [exact H03 |]. destruct (state_ s); try done; apply H03.
    + unfold threads in *. cbn. destruct Hst as [-> | [Hr ->]]; [exact H04 |]. split; [done | apply H04].
    + unfold initializing in *. cbn. destruct Hst as [-> | [Hr ->]]; [exact H05 |]. split; [| apply H05].
      intros t c0 Ht. destruct (proj1 H05 _ _ Ht) as [E _]. by rewrite E in Hr.
    + intros u Hi. cbn in Hi. apply H10. destruct Hst as [<- | [_ ->]]; done.
    + intros x Ha. cbn in Ha. apply H16. destruct Hst as [<- | [_ ->]]; done.
    + intros t Ht. specialize (H17 t Ht). cbn. by destruct Hst as [-> | [_ ->]].
  - split; try done; cbn.
    + destruct Hst as [-> | [_ ->]]; [by destruct (state_ s) | done].
    + by destruct Hst as [-> | [_ ->]].
    + by destruct Hst as [-> | [_ ->]].
    + destruct Hst as [-> | [Hr _]]; [done | by rewrite Hr].
    + destruct Hst as [-> | [_ ->]]; done.
    + intros Hf. destruct (Hc (or_intror Hf)) as (-> & -> & ->). destruct Hst as [-> | [Hr _]]; [done |]. by destruct (state_ s).
    + intros Hn. destruct (Hc (or_introl Hn)) as (-> & -> & ->). done.
    + intros Hne. split; [| done]. by destruct Hst as [-> | [_ ->]].
    + destruct (supervisor_ s) as [x |]; [by exists x | done].
    + intros u _ H. by exists u.
    + intros _ Ha Hn E. by destruct (Hfat E).
Qed.
End service.
