(* ===== verification/ServiceSteps.v ===== *)
(** * Every step of the service keeps its invariant

    [event_safe]: a step of the threads A, B and C, of the workers, of the callers and of the
    tests keeps [inv], never uses a null pointer, and is in [rely]. *)
From stdpp Require Import relations functions.
From S2P Require Import Prelude DomainBlocklist FilterPublication PublicationClaims FilterUpdateController UpdateInvariant UpdateClaims Concurrency WorkerSupervisor SupervisorInvariant SupervisorThread SupervisorMonitor SupervisorRun SupervisorClaims SupervisorFrame UpdateFrame DnsService ServiceInvariant.
Import Service.

Section steps.
Context {F : Type}.
Variable heap : nat → FilterContext F.
Notation inv := (inv heap).
Notation invt := (invt heap).
Notation rely := (ServiceInvariant.rely heap).
Notation goes := (goes heap).

(** The call of thread [e] in the middle of its step. *)
Definition mine (e : nat) (k : option CallKind) (s : State) : Prop :=
  ∀ u, updates s = Some u → filter_updates_ s = true → in_kind k e u.

(** The threads stay where they are, the caller that steps included. *)
Definition stays (s s' : State) : Prop :=
  coordinator_run s' = coordinator_run s ∧ reclaimer_run s' = reclaimer_run s ∧ supervisor_run s' = supervisor_run s ∧
  users s' = users s ∧ filter_updates_ s' = filter_updates_ s ∧
  ∀ u', updates s' = Some u' → ∃ u, updates s = Some u ∧ Publication.reclaimer (Update.world u') = Publication.reclaimer (Update.world u).

#[local] Instance stays_preorder : PreOrder stays.
Proof.
  split; [intros s; split_and!; try done; intros u Hu; by exists u |].
  intros s1 s2 s3 (A1 & A2 & A3 & A4 & A5 & A6) (B1 & B2 & B3 & B4 & B5 & B6). split_and!; try congruence.
  intros u3 H3. destruct (B6 _ H3) as (u2 & H2 & E2). destruct (A6 _ H2) as (u1 & H1 & E1). exists u1. split; [done | congruence].
Qed.

Lemma stays_same s s' : coordinator_run s' = coordinator_run s → reclaimer_run s' = reclaimer_run s → supervisor_run s' = supervisor_run s →
  users s' = users s → filter_updates_ s' = filter_updates_ s → updates s' = updates s → stays s s'.
Proof. intros ? ? ? ? ? E. split_and!; try done. intros u Hu. exists u. by rewrite <- E. Qed.

Lemma goes_refl e s : invt e s → goes e s s.
Proof. intros H. split; [done | reflexivity]. Qed.

(** ** The parts are there while they are used *)
Lemma updating_complete e s : invt e s → filter_updates_ s = true → complete s.
Proof.
  intros [Hv _] Hf. pose proof (iv_parts _ _ _ Hv) as Hp. unfold parts, no_parts in Hp.
  destruct (state_ s); try apply Hp; try (destruct Hp as [[E _] _]; congruence); destruct Hp as [E _]; congruence.
Qed.
Lemma control_complete e s : invt e s → is_Some (control_ s) → complete s.
Proof.
  intros [Hv _] [c Hc]. pose proof (iv_parts _ _ _ Hv) as Hp. unfold parts, no_parts in Hp.
  destruct (state_ s); try apply Hp; try (destruct Hp as [(_ & _ & E & _) _]; congruence); destruct Hp as (_ & _ & E & _); congruence.
Qed.

Lemma updates_there e s : invt e s → filter_updates_ s = true → ∃ u, updates s = Some u ∧ the_updates s = Val u.
Proof.
  intros Hv Hf. destruct (updating_complete e s Hv Hf) as (_ & _ & _ & _ & u & Hu).
  exists u. split; [done |]. unfold the_updates. by rewrite Hf, Hu.
Qed.

Lemma thread_parts e s : invt e s → coordinator_run s ≠ None ∨ reclaimer_run s ≠ None ∨ supervisor_run s ≠ None →
  running (state_ s) = true ∧ complete s.
Proof.
  intros [Hv _] Hr. destruct (iv_threads _ _ _ Hv) as [Ht _]. pose proof (iv_parts _ _ _ Hv) as Hp. unfold parts in Hp.
  destruct (running (state_ s)) eqn:E; [split; [done |]; by destruct (state_ s) |]. destruct (Ht eq_refl) as (? & ? & ?).
  exfalso. by destruct Hr as [? | [? | ?]].
Qed.

(** ** [lifecycle_mutex_] *)
Lemma lock_change e v s : invt e s → e ≠ 0%nat → lifecycle_owner s = None ∨ lifecycle_owner s = Some e → goes e s (set_lifecycle_owner v s).
Proof.
  intros [Hv H3] He Ho. split; [split; [| exact H3] |].
  - destruct Hv as [H01 H02 H03 H04 H05 H06 H07 H08 H09 H10 H11 H12 H13 H14 H15 H16 H17 H18]. split; try done.
    intros t Ht Hh. specialize (H15 t Ht Hh). destruct Ho; congruence.
  - split; try done.
    + cbn. destruct (supervisor_ s) as [x |]; [by exists x | done].
    + intros u _ Hu. by exists u.
    + cbn. intros E. destruct Ho; congruence.
Qed.

Lemma admission_closes e s : invt e s → goes e s (set_update_admission_open false s).
Proof.
  intros Hv. pose proof (iv_life _ _ _ (proj1 Hv)) as Hl.
  replace (set_update_admission_open false s) with
    (with_life (state_ s) (stop_cause_ s) false (health_ s) (startup_error_ s) (fatal_error_ s) s) by by destruct s.
  apply life_change; [done | | by left | done | done | by left]. by destruct Hl.
Qed.

(** ** [request_runtime_stop] *)
Lemma begin_stop_safe e s : invt e s → e ≠ 0%nat → mine e None s → lifecycle_owner s = None →
  ∃ s', begin_runtime_stop heap e s = Val s' ∧ goes e s s' ∧ stays s s' ∧ mine e (Some SealOnly) s' ∧ lifecycle_owner s' = Some e.
Proof.
  intros Hv He Hm Hl. set (s1 := set_lifecycle_owner (Some e) (set_update_admission_open false (request_source_stop s))).
  assert (goes e s s1) as H1.
  { apply (goes_trans _ e s (request_source_stop s)); [by apply source_stop | intros Hv1].
    apply (goes_trans _ e _ (set_update_admission_open false (request_source_stop s))); [by apply admission_closes | intros Hv2].
    apply lock_change; auto. }
  assert (stays s s1) as Hs1 by by apply stays_same.
  unfold begin_runtime_stop. fold s1. change (filter_updates_ s1) with (filter_updates_ s). destruct (filter_updates_ s) eqn:Hf.
  - destruct (updates_there e s1) as (u & Hu & Hval); [apply H1 | done |]. rewrite Hval. cbn [chain].
    assert (Update.idle e u = true) as Hi by (apply Hm; [exact Hu | done]).
    destruct (Update.update_act heap (Update.SealCall e) u) as [u' |] eqn:Ha; [| cbn in Ha; by rewrite Hi in Ha]. cbn [chain from_option_ub].
    exists (put_updates u' s1). split; [done |]. split.
    { eapply goes_trans; [exact H1 |]. intros Hv1. eapply (update_step heap e (Update.SealCall e)); try done; [by left |].
      intros _. cbn in Ha. rewrite Hi in Ha. by injection Ha as <-. }
    split; [| split; [| done]].
    + etrans; [exact Hs1 |]. split_and!; try done. intros u1 [= <-]. exists u. split; [done |].
      cbn in Ha. rewrite Hi in Ha. by injection Ha as <-.
    + intros u1 [= <-] _. eapply begins_call; [exact Ha | done | done].
  - exists s1. split_and!; try done; try apply H1. intros u _ E. cbn in E. congruence.
Qed.

Lemma end_stop_safe e s : invt e s → e ≠ 0%nat → lifecycle_owner s = Some e →
  goes e s (end_runtime_stop s) ∧ stays s (end_runtime_stop s).
Proof.
  intros Hv He Hl. unfold end_runtime_stop. split; [| by destruct (supervisor_thread_ _); apply stays_same].
  set (s1 := set_supervisor (Supervisor.set_stop_requested true <$> supervisor_ s) s).
  apply (goes_trans _ e s s1); [by refine (supervisor_flag heap e Supervisor.RequestStop (Supervisor.set_stop_requested true) s Hv _ _) | intros Hv1].
  set (s2 := if supervisor_thread_ s1 then set_supervisor_thread_stop true s1 else s1).
  apply (goes_trans _ e s1 s2); [| intros Hv2].
  - unfold s2. destruct (supervisor_thread_ s1); [by apply thread_stop_change | by apply goes_refl].
  - apply lock_change; [done | done |]. right. unfold s2, s1. by destruct (supervisor_thread_ _).
Qed.

(** A step in a call of the controller. *)
Lemma advance_safe e k now b s o : invt e s → e ≠ 0%nat → filter_updates_ s = true → mine e (Some k) s →
  match k with
  | RunCall => coordinator_run s ≠ None ∧ state_ s ≠ Initialized
  | SubmitCall => state_ s ≠ Initialized
  | SuccessorCall => False
  | _ => True
  end → advance heap e now b s = Some o →
  ∃ u', o = Val (put_updates u' s) ∧ goes e s (put_updates u' s) ∧ stays s (put_updates u' s) ∧ mine e (Some k) (put_updates u' s).
Proof.
  intros Hv He Hf Hm Hk Ha. destruct (updates_there e s Hv Hf) as (u & Hu & Hval). unfold advance in Ha. rewrite Hval in Ha.
  destruct (Update.update_act heap (Update.Advance e now b) u) as [u' |] eqn:E; [| done]. injection Ha as <-.
  destruct (Hm u Hu Hf) as (c & Hc & Hin). exists u'. split; [done |]. split; [| split].
  - eapply (update_step heap e (Update.Advance e now b)); try done; [by left | |].
    + intros Hr t now' b' c' [= <- <- <-] Hc'. rewrite Hc in Hc'. injection Hc' as <-. destruct k; try (by destruct c).
      by destruct Hk.
    + intros Hi Hun. destruct k; try done; try (by eapply (seal_call_untouched heap); [exact E | exact Hc | rewrite Hin, ?orb_true_r |]).
      by destruct Hk.
  - split_and!; try done. intros u1 [= <-]. exists u. split; [done |].
    pose proof (iv_updates _ _ _ (proj1 Hv) _ Hu) as (_ & w0 & Hst & _). destruct (update_state_inv heap _ _ _ Hst) as (Hui & Hinv & _).
    eapply (publishing_reclaimer heap), (update_publishing heap w0); [exact Hinv | exact (ui_ctl _ _ _ _ Hui) | | exact E]. done.
  - intros u1 [= <-] _. by eapply (advance_call heap).
Qed.

Lemma returned_idle e k s : mine e (Some k) s → is_Some (call_result e s) → mine e None s.
Proof.
  intros Hm [r Hr] u Hu Hf. unfold call_result in Hr. rewrite Hu in Hr. unfold in_kind, Update.idle. by repeat case_match.
Qed.

(** A step of the call; it is never undefined. *)
Lemma stop_step_safe e p s o : invt e s → e ≠ 0%nat → mine e (stop_kind p) s → (sealing p = true → lifecycle_owner s = Some e) →
  stop_step heap e p s = Some o →
  ∃ q s', o = Val (q, s') ∧ goes e s s' ∧ stays s s' ∧ mine e (q ≫= stop_kind) s' ∧ (q ≫= stop_kind ≠ None → lifecycle_owner s' = Some e).
Proof.
  intros Hv He Hm Hl Ho. destruct p; cbn [stop_step] in Ho.
  - unfold free in Ho. case_bool_decide as Hfree; [| done].
    destruct (begin_stop_safe e s Hv He Hm Hfree) as (s' & Hb & Hg & Hst & Hm' & Hl'). rewrite Hb in Ho. injection Ho as <-.
    exists (Some StopSealing), s'. done.
  - specialize (Hl eq_refl). destruct (end_stop_safe e s Hv He Hl) as [Hge Hse].
    assert (mine e None s → ∃ q s', Val (None, end_runtime_stop s) = Val (q, s') :> outcome unit (option StopPc * State) ∧ goes e s s' ∧ stays s s' ∧ mine e (q ≫= stop_kind) s' ∧ (q ≫= stop_kind ≠ None → lifecycle_owner s' = Some e)) as Hend.
    { intros Hid. exists None, (end_runtime_stop s). split_and!; try done; try apply Hge; try apply Hse. intros u Hu Hf.
      destruct Hse as (_ & _ & _ & _ & Hf' & _). rewrite Hf' in Hf. apply Hid; [| done]. rewrite <- Hu. unfold end_runtime_stop. by destruct (supervisor_thread_ _). }
    destruct (filter_updates_ s) eqn:Hf.
    + destruct (call_result e s) as [r |] eqn:Hr.
      * injection Ho as <-. apply Hend. eapply returned_idle; [exact Hm | by rewrite Hr].
      * destruct (advance heap e 0 Update.BuilderNull s) as [o' |] eqn:Ha; [| done]. injection Ho as <-.
        destruct (advance_safe e SealOnly 0 Update.BuilderNull s o' Hv He Hf Hm I Ha) as (u' & -> & Hg & Hst & Hm').
        exists (Some StopSealing), (put_updates u' s). done.
    + injection Ho as <-. apply Hend. intros u _ E. congruence.
Qed.

(** ** The life cycle *)
Lemma life_goes e s s' : invt e s →
  s' = with_life (state_ s') (stop_cause_ s') (update_admission_open_ s') (health_ s') (startup_error_ s') (fatal_error_ s') s →
  life_of s' → state_ s' = state_ s ∨ running (state_ s) = true ∧ state_ s' = Stopping →
  (stop_cause_ s ≠ NoCause ∨ final (state_ s) = true → same_exit s s') →
  (update_admission_open_ s = false → update_admission_open_ s' = false) →
  (stop_cause_ s' = Fatal → stop_cause_ s = Fatal ∨ state_ s = Active) → goes e s s'.
Proof.
  intros Hv E Hl Hst Hc Ha Hfat. rewrite E. apply life_change; try done. replace (config_ s) with (config_ s'); [exact Hl | by rewrite E].
Qed.

Lemma accept_fatal_safe e f s b s' : invt e s → accept_fatal_locked f s = (b, s') → goes e s s' ∧ stays s s'.
Proof.
  intros Hv H. unfold accept_fatal_locked in H. destruct (_ || _) eqn:E; injection H as <- <-; [by split; [apply goes_refl |] |].
  apply orb_false_iff in E as [E1 E2]. apply negb_false_iff, bool_decide_eq_true in E1, E2. split; [| by apply stays_same].
  eapply goes_trans; [| intros Hv1; by apply source_stop]. pose proof (iv_life _ _ _ (proj1 Hv)) as Hl. unfold life_of in Hl. rewrite E1, E2 in Hl.
  apply life_goes; [done | by destruct s | | right; by rewrite E1 | rewrite E1, E2; by intros [? | ?] | done | by right].
  destruct Hl. split; cbn; try done; try naive_solver.
Qed.

Lemma role_exit_safe e attempt st er f s b s' : invt e s → role_exit attempt st er f s = (b, s') → goes e s s' ∧ stays s s'.
Proof.
  intros Hv H. unfold role_exit in H. destruct (_ && _); [| injection H as <- <-; by split; [apply goes_refl |]].
  destruct (state_ s) eqn:Est; try (injection H as <- <-; by split; [apply goes_refl |]); [| by eapply accept_fatal_safe].
  injection H as <- <-. pose proof (iv_life _ _ _ (proj1 Hv)) as Hl. unfold life_of in Hl. rewrite Est in Hl.
  assert (stop_cause_ s = NoCause) as Hc by (apply Hl; auto). rewrite decide_True by done. split; [| by apply stays_same].
  eapply goes_trans; [| intros Hv1; by apply source_stop]. rewrite Hc in Hl.
  apply life_goes; [done | by destruct s | | right; by rewrite Est | rewrite Est, Hc; by intros [? | ?] | done | done].
  destruct Hl. split; cbn; try done; try naive_solver.
Qed.

Lemma health_reporter_safe e h s : invt e s → goes e s (health_reporter h s) ∧ stays s (health_reporter h s).
Proof.
  intros Hv. assert (∀ x, (health_state x ≠ Unavailable ∨ available_workers x ≠ 0 → state_ s = Active) → goes e s (set_health x s) ∧ stays s (set_health x s)) as Hset.
  { intros x Hx. split; [| by apply stays_same]. apply life_goes; [done | by destruct s | | by left | done | done | by left].
    destruct (iv_life _ _ _ (proj1 Hv)). split; done. }
  pose proof (lf_health _ _ _ _ _ _ _ (iv_life _ _ _ (proj1 Hv))) as Hh.
  unfold health_reporter. destruct (state_ s) eqn:E; try (by split; [apply goes_refl |]).
  - destruct (decide _); [| by apply Hset]. destruct (Supervisor.last_error h); by apply Hset.
  - rewrite decide_False by (intros [? _]; done). apply Hset. exact Hh.
Qed.

Lemma show_version_safe e r s : invt e s → goes e s (show_version r s) ∧ stays s (show_version r s).
Proof.
  intros Hv. unfold show_version. destruct r as [v |]; [| by split; [apply goes_refl |]]. destruct (match filter_version _ with Some _ => _ | None => _ end);
    [| by split; [apply goes_refl |]]. split; [| by apply stays_same].
  apply life_goes; [done | by destruct s | | by left | done | done | by left]. destruct (iv_life _ _ _ (proj1 Hv)). split; done.
Qed.

(** Nobody is in a call of the controller while [lifecycle_mutex_] is free, A and the owner of [startup_mutex_] apart. *)
Lemma free_idle s t : inv s → lifecycle_owner s = None → t ≠ 0%nat → coordinator_run s = None → calling s t = None.
Proof.
  intros Hv Hl Ht Hc. assert (holding s t = false) as Hh.
  { destruct (holding s t) eqn:E; [| done]. pose proof (lock_open heap t s Hv E). congruence. }
  destruct t as [| [| [| [| t]]]]; cbn in *; [done | by rewrite Hc | ..].
  - destruct (reclaimer_run s) as [[? []] |]; try done; by destruct p.
  - destruct (supervisor_run s) as [[? []] |]; try done; by destruct p.
  - destruct (users s !! _) as [[] |]; try done. destruct p; [by destruct (filter_updates_ s) | done].
Qed.

Lemma destroyable w : PublicationClaims.inv heap w → stopped w → (∀ r, Publication.registry_at (Publication.publication w) r = None) → reclaimed w →
  Publication.may_be_destroyed w = true.
Proof.
  intros Hinv [r Hr] Hreg [H1 H2]. destruct (inv_reclaimer _ _ Hinv) as [Ha Hd]. rewrite Hr in *.
  unfold Publication.may_be_destroyed. rewrite Ha, H1, H2. pose proof (Hd Publication.Retired) as D1. pose proof (Hd Publication.Terminal) as D2.
  cbn [Publication.record_of] in D1, D2. rewrite D1, D2. cbn. apply negb_true_iff, not_true_iff_false. intros (x & Hin & Hx)%existsb_exists.
  apply bool_decide_eq_true in Hx. apply list_elem_of_In, list_elem_of_lookup in Hin as [i Hi].
  specialize (Hreg i). unfold Publication.registry_at in Hreg. by rewrite Hi in Hreg.
Qed.

(** Nothing is left of the threads and their requests. *)
Lemma parts_destroyable s : inv s → lifecycle_owner s = None → coordinator_run s = None → reclaimer_run s = None → supervisor_run s = None →
  (∀ x, supervisor_ s = Some x → supervisor_idle x = true) →
  (∀ u, updates s = Some u → filter_updates_ s = true →
     quiescent u ∧ ∀ r, Publication.registry_at (Publication.publication (Update.world u)) r = None) →
  may_be_destroyed s = true.
Proof.
  intros Hv Hl Hc Hr Hs Hx Hu. unfold may_be_destroyed, threads_gone. rewrite Hc, Hr, Hs. cbn.
  replace (match supervisor_ s with Some x => supervisor_idle x | None => true end) with true
    by (destruct (supervisor_ s) as [x |]; [symmetry; by apply Hx | done]). cbn.
  destruct (updates s) as [u |] eqn:Eu; [| done]. destruct (filter_updates_ s) eqn:Hf.
  - destruct (Hu u eq_refl eq_refl) as [[(Hp & Hi & Hre) H0] Hreg]. pose proof (iv_updates _ _ _ Hv _ Eu) as (Hact & w0 & Hst & _).
    assert (∀ t, Update.idle t u = true) as Hidle.
    { intros t. destruct (decide (t = 0%nat)) as [-> |]; [done |]. pose proof (iv_calls _ _ _ Hv t u ltac:(done) ltac:(done) Eu Hf) as Hk.
      by rewrite (free_idle s t Hv Hl ltac:(done) Hc) in Hk. }
    assert (Update.runner_active_ (Update.controller u) = false) as Hrun.
    { destruct (Update.runner_active_ _) eqn:E; [| done]. destruct (Hact E) as (t & pc & Ht). specialize (Hidle t).
      unfold Update.idle in Hidle. by rewrite Ht in Hidle. }
    unfold updates_idle. rewrite Hp, Hi, Hrun. apply andb_true_iff. split.
    + cbn. apply forallb_forall. intros [t c] Hin%list_elem_of_In%elem_of_map_to_list. specialize (Hidle t). unfold Update.idle in Hidle. rewrite Hin in Hidle. by destruct c.
    + case_match; [| done]. destruct (update_state_inv heap _ _ _ Hst) as (_ & Hinv & _). apply destroyable; try done.
      pose proof (iv_reclaimer _ _ _ Hv ltac:(done) u Eu Hf) as Hrec. by rewrite Hr in Hrec.
  - destruct (control_ s) eqn:Ec; [| done]. destruct (control_complete 0 s (inv_invt heap 0 s Hv)) as [E _]; [by rewrite Ec | congruence].
Qed.

(** The service ends: its parts are gone. *)
Record ends (s s' : State) : Prop := {
  ed_parts : no_parts s';
  ed_final : final (state_ s') = true;
  ed_defined : undefined_ s' = undefined_ s;
  ed_config : config_ s' = config_ s;
  ed_updates : updates s' = updates s;
  ed_runs : coordinator_run s' = coordinator_run s ∧ reclaimer_run s' = reclaimer_run s ∧ supervisor_run s' = supervisor_run s;
  ed_users : users s' = users s;
  ed_owner : lifecycle_owner s' = lifecycle_owner s;
}.

Lemma ends_inv e s s' : invt e s → ends s s' → state_ s ≠ Empty → life_of s' →
  coordinator_run s = None → reclaimer_run s = None → supervisor_run s = None → (∀ t, holding s t = false) → invt e s'.
Proof.
  intros [Hv H3] [[Hf Hpa] Hfin Hd Hcf Hu (Ec & Er & Es) Hus Ho] Hne Hl Hc Hr Hs Hno. rewrite Hc in Ec. rewrite Hr in Er. rewrite Hs in Es.
  destruct Hpa as (? & ? & ? & Hx). split; [| intros _ x Hx'; congruence].
  destruct Hv as [H01 H02 H03 H04 H05 H06 H07 H08 H09 H10 H11 H12 H13 H14 H15 H16 H17 H18].
  split; rewrite ?Hd, ?Hcf, ?Hu, ?Hus, ?Ho, ?Hx, ?Hf; try done.
  - unfold parts, no_parts. by destruct (state_ s').
  - split; rewrite Hus; [intros t c Ht; by destruct (proj1 H05 _ _ Ht) | apply H05].
  - intros u Hi. by rewrite Hi in Hfin.
  - intros t Ht Hh. apply H15; [done |]. rewrite <- Hh. unfold holding. rewrite Hus, Ec, Er, Es, Hc, Hr, Hs. done.
  - intros t Ht. split; intros E; by rewrite E in Hfin.
  - intros t Ht. specialize (Hno t). assert (3 < t)%nat as Hlt by (apply H06; destruct Ht as [-> | ->]; by eexists).
    destruct t as [| [| [| [| t]]]]; [lia.. |]. cbn in Hno. by destruct Ht as [E | E]; rewrite E in Hno.
Qed.

(** An initialized service is given up. *)
Definition given_up (s : State) : State :=
  set_filter_updates false (set_cache None (set_control None (set_faults None
    (set_health (unavailable (health_ s)) (set_update_admission_open false (set_state Stopped (set_stop_cause Explicit s))))))).

Lemma given_up_life s : life_of s → state_ s = Initialized → life_of (given_up s).
Proof.
  intros [H1 H2 H3 H4 H5 H6] Est. assert (stop_cause_ s = NoCause) as Hn by auto. rewrite Hn in H5, H6.
  split; [by intros [? | [? | [? | ?]]] | done | done | by intros [? | ?] | |]; cbn; [rewrite H5 | rewrite H6]; split; congruence.
Qed.

Lemma mutex_released e s : invt e s → state_ s = Initialized → supervisor_ s = None → supervisor_run s = None →
  coordinator_run s = None → reclaimer_run s = None → (∀ t, holding s t = false) → goes e s (given_up s).
Proof.
  intros Hv Est Hsu Hs Hc Hr Hh. pose proof (iv_life _ _ _ (proj1 Hv)) as Hl. split.
  - apply (ends_inv e s); [done | | by rewrite Est | by apply given_up_life | done..]. split; try reflexivity; by split_and!.
  - assert (stop_cause_ s = NoCause) as Hn by (apply Hl; auto). split; try done; rewrite ?Est, ?Hn; try done. by rewrite Hsu.
Qed.

Lemma request_stop_safe t s : inv s → lifecycle_owner s = None → ∃ b s', request_stop_locked s = Val (b, s') ∧ goes t s s' ∧
  (∀ k, mine t k s → mine t k s') ∧ lifecycle_owner s' = lifecycle_owner s ∧ users s' = users s ∧
  coordinator_run s' = coordinator_run s ∧ reclaimer_run s' = reclaimer_run s ∧ supervisor_run s' = supervisor_run s.
Proof.
  intros Hv Hl. pose proof (inv_invt heap t s Hv) as Hvt. pose proof (iv_life _ _ _ Hv) as Hli. unfold request_stop_locked.
  assert (running (state_ s) = true → let s1 := if decide (stop_cause_ s = NoCause) then set_stop_cause Explicit s else s in
    let s2 := set_state Stopping s1 in let s3 := request_source_stop (set_health (unavailable (health_ s2)) (set_update_admission_open false s2)) in
    goes t s s3) as Hrun.
  { intros Hr s1 s2. eapply goes_trans; [| intros Hv1; by apply source_stop].
    unfold life_of in Hli. apply life_goes; [done | unfold s2, s1; destruct (decide _); by destruct s | | right; split; [done | by unfold s2, s1; destruct (decide _)] | | done | unfold s2, s1; destruct (decide _); [done | by left]].
    - unfold s2, s1. destruct (decide _) as [E |]; rewrite ?E in Hli; destruct Hli; split; cbn; try done; naive_solver.
    - intros [? | ?]; [| by destruct (state_ s)]. unfold s2, s1. by rewrite decide_False. }
  assert (∀ st, st = Stopping → state_ s = st → set_state Stopping (if decide (stop_cause_ s = NoCause) then set_stop_cause Explicit s else s) = (if decide (stop_cause_ s = NoCause) then set_stop_cause Explicit s else s)) as Hstop.
  { intros st -> E. destruct (decide _), s; cbn in *; by subst. }
  destruct (state_ s) eqn:Est; try (exists false, s; split_and!; try done; reflexivity).
  - destruct (iv_threads _ _ _ Hv) as [Hth _]. destruct (Hth ltac:(by rewrite Est)) as (Hc & Hr & Hs).
    pose proof (iv_parts _ _ _ Hv) as Hp. unfold parts in Hp. rewrite Est in Hp. destruct Hp as [_ Hsu].
    rewrite parts_destroyable; try done.
    + exists false, (given_up s). split; [done |]. split; [apply mutex_released; try done |].
      { intros t1. destruct (holding s t1) eqn:E; [| done]. pose proof (lock_open heap t1 s Hv E). congruence. }
      by split_and!.
    + intros x Hx. congruence.
    + intros u Hu Hf. split; [by apply Hv |]. intros r. by apply (iv_clean _ _ _ Hv u Hf Hsu Hu).
  - eexists true, _. split; [reflexivity |]. split; [by apply Hrun |]. destruct (decide _); by split_and!.
  - eexists true, _. split; [reflexivity |]. split; [by apply Hrun |]. destruct (decide _); by split_and!.
  - eexists true, _. split; [reflexivity |]. rewrite <- (Hstop Stopping) by done. split; [by apply Hrun |]. destruct (decide _); by split_and!.
Qed.

(** ** Thread A *)
Definition safe (s : State) (o : outcome unit State) : Prop := ∃ s', o = Val s' ∧ inv s' ∧ rely s s'.

Lemma coordinator_turn s s1 a p p' : goes 1 s s1 → coordinator_run s1 = Some (a, p) →
  let s2 := set_coordinator_run (Some (a, p')) s1 in
  mine 1 (calling s2 1) s1 → (holding s2 1 = true → lifecycle_owner s1 = Some 1%nat) → inv s2 ∧ rely s s2.
Proof.
  intros [[Hv H3] Hr] Hp s2 Hm Hl. split.
  - apply (invx_close heap 1 s2); try done.
    destruct Hv as [H01 H02 H03 H04 H05 H06 H07 H08 H09 H10 H11 H12 H13 H14 H15 H16 H17 H18]. split; try done.
    + split; [| apply H04]. intros E. destruct (proj1 H04 E) as (? & _). congruence.
    + intros [| [| t]] u Ht Hne; try done. exact (H13 _ u Ht Hne).
    + intros [| [| t]] Hne; try done. exact (H15 _ Hne).
  - etrans; [exact Hr |]. rely_same. cbn. by rewrite Hp.
Qed.

Lemma on_control_safe e f s : invt e s → is_Some (control_ s) → ∃ c, on_control f s = Val (set_control (Some c) s) ∧ goes e s (set_control (Some c) s).
Proof.
  intros Hv [c Hc]. exists (f c). unfold on_control, the_control. rewrite Hc. split; [done |]. by apply control_change.
Qed.

Lemma run_begins s a : inv s → coordinator_run s = Some (a, CoordinatorStart) → filter_updates_ s = true → running (state_ s) = true →
  ∃ u u', the_updates s = Val u ∧ Update.update_act heap (Update.Run 1 false) u = Some u' ∧ goes 1 s (put_updates u' s) ∧
    mine 1 (Some RunCall) (put_updates u' s).
Proof.
  intros Hv Hp Hf Hr. destruct (updates_there 1 s (inv_invt heap 1 s Hv) Hf) as (u & Hu & Hval).
  pose proof (calls_open heap 1 s Hv ltac:(done) u Hu Hf) as Hi. unfold calling in Hi. rewrite Hp in Hi. cbn [in_kind] in Hi.
  destruct (Update.update_act heap (Update.Run 1 false) u) as [u' |] eqn:Ha; [| cbn in Ha; by rewrite Hi in Ha].
  exists u, u'. split_and!; [done | done | |].
  - eapply (update_step heap 1 (Update.Run 1 false)); try done; [by apply inv_invt | by left |]. intros E. by rewrite E in Hr.
  - intros u1 [= <-] _. by eapply (begins_call heap).
Qed.

Lemma mine_same e k s s' : updates s' = updates s → filter_updates_ s' = filter_updates_ s → mine e k s → mine e k s'.
Proof. intros Hu Hf Hm u E1 E2. rewrite Hu in E1. rewrite Hf in E2. by apply Hm. Qed.

Lemma mine_open e s : inv s → e ≠ 0%nat → mine e (calling s e) s.
Proof. intros Hv He u Hu Hf. by apply (calls_open heap e s Hv). Qed.

Lemma role_exit_mine e k attempt st er f s b s' : role_exit attempt st er f s = (b, s') → mine e k s → mine e k s'.
Proof.
  unfold role_exit, accept_fatal_locked. intros H. repeat case_match; injection H as <- <-; by apply mine_same.
Qed.

Theorem coordinator_safe now b s o : inv s → coordinator_step heap now b s = Some o → safe s o.
Proof.
  intros Hv H. unfold coordinator_step in H. destruct (coordinator_run s) as [[a p] |] eqn:Hp; [| done].
  pose proof (inv_invt heap 1 s Hv) as Hvt. destruct (thread_parts 1 s Hvt) as [Hrun (Hf & _ & Hc & _)]; [left; by rewrite Hp |].
  pose proof (mine_open 1 s Hv ltac:(done)) as Hm. unfold calling in Hm. rewrite Hp in Hm.
  pose proof (lock_open heap 1 s Hv) as Hl. unfold holding in Hl. rewrite Hp in Hl.
  assert (∀ f p', mine 1 (calling (set_coordinator_run (Some (a, p')) s) 1) s → holding (set_coordinator_run (Some (a, p')) s) 1 = false →
    safe s (chain (on_control f s) (λ s, Val (set_coordinator_run (Some (a, p')) s)))) as Hcontrol.
  { intros f p' Hm' Hh. destruct (on_control_safe 1 f s Hvt Hc) as (c & E & Hg). rewrite E. eexists. split; [reflexivity |].
    apply (coordinator_turn s _ a p p' Hg Hp); [by apply (mine_same _ _ s) |]. unfold holding in *. cbn in *. by rewrite Hh. }
  destruct p as [| | r | | r | | p |].
  - injection H as <-. destruct (match faults_ s with Some f => _ | None => _ end); [by apply Hcontrol |].
    destruct (run_begins s a Hv Hp Hf Hrun) as (u & u' & -> & Ha & Hg & Hm'). cbn [chain]. cbn [Update.update_act] in Ha.
    rewrite Ha. eexists. split; [reflexivity |]. by apply (coordinator_turn s _ a CoordinatorStart).
  - injection H as <-. by apply Hcontrol.
  - injection H as <-. by apply Hcontrol.
  - destruct (call_result 1 s) as [r |] eqn:Hr.
    + destruct (updates_there 1 s Hvt Hf) as (u & Hu & _). destruct (Hm u Hu Hf) as (c & Hc1 & Hk). pose proof Hr as Hr1.
      unfold call_result in Hr1. rewrite Hu, Hc1 in Hr1. destruct c as [| | | | | | | | x]; try done. injection Hr1 as ->. destruct r; try done. injection H as <-.
      eexists. split; [reflexivity |]. apply (coordinator_turn s _ a CoordinatorRunning); [by apply goes_refl | done | | done].
      apply (returned_idle _ RunCall); [done | by rewrite Hr].
    + destruct (advance_safe 1 RunCall now b s o Hvt ltac:(done) Hf Hm) as (u' & -> & Hg & Hst & Hm'); [| done |].
      { split; [by rewrite Hp | intros E; by rewrite E in Hrun]. }
      eexists. split; [reflexivity |]. pose proof (coordinator_turn s _ a CoordinatorRunning CoordinatorRunning Hg Hp Hm') as Ht. cbn in Ht.
      replace (set_coordinator_run (Some (a, CoordinatorRunning)) (put_updates u' s)) with (put_updates u' s) in Ht by (destruct s; cbn in *; by subst).
      by apply Ht.
  - injection H as <-. by apply Hcontrol.
  - unfold when in H. destruct (free s); [| done]. destruct (role_exit _ _ _ _ _) as [st s1] eqn:E. injection H as <-.
    destruct (role_exit_safe 1 _ _ _ _ _ _ _ Hvt E) as [Hg (E1 & _)]. eexists. split; [reflexivity |]. rewrite Hp in E1.
    apply (coordinator_turn s s1 a CoordinatorExiting); [done | done | | by destruct st].
    destruct st; exact (role_exit_mine _ _ _ _ _ _ _ _ _ E Hm).
  - destruct (stop_step heap 1 p s) as [o1 |] eqn:Ho; [| done]. injection H as <-.
    destruct (stop_step_safe 1 p s o1 Hvt ltac:(done) Hm Hl Ho) as (q & s1 & -> & Hg & (E1 & _) & Hm1 & Hl1). eexists. split; [reflexivity |].
    rewrite Hp in E1. apply (coordinator_turn s s1 a (CoordinatorStopping p)); [done | done | by destruct q |].
    intros Hh. apply Hl1. by destruct q as [[] |].
  - done.
Qed.

(** ** Thread B *)
Definition placed (s : State) (o : option (Z * ReclaimerPc)) : Prop :=
  ∀ u, updates s = Some u → filter_updates_ s = true → reclaimer_place o (Update.world u).

Lemma reclaimer_turn s s1 a p p' : goes 2 s s1 → reclaimer_run s1 = Some (a, p) →
  let s2 := set_reclaimer_run (Some (a, p')) s1 in
  mine 2 (calling s2 2) s1 → (holding s2 2 = true → lifecycle_owner s1 = Some 2%nat) → placed s1 (Some (a, p')) → inv s2 ∧ rely s s2.
Proof.
  intros [[Hv H3] Hr] Hp s2 Hm Hl Hpl. split.
  - apply (invx_close heap 2 s2); try done.
    destruct Hv as [H01 H02 H03 H04 H05 H06 H07 H08 H09 H10 H11 H12 H13 H14 H15 H16 H17 H18]. split; try done.
    + split; [| apply H04]. intros E. destruct (proj1 H04 E) as (? & ? & _). congruence.
    + intros [| [| [| t]]] u Ht Hne; try done; exact (H13 _ u Ht Hne).
    + intros [| [| [| t]]] Hne; try done; exact (H15 _ Hne).
  - etrans; [exact Hr |]. rely_same. by rewrite Hp.
Qed.

Lemma publication_there e s : invt e s → is_Some (control_ s) → ∃ u, updates s = Some u ∧ filter_updates_ s = true ∧ the_publication s = Val u.
Proof.
  intros Hv Hc. destruct (control_complete e s Hv Hc) as (Hf & _ & _ & _ & u & Hu). exists u. destruct Hc as [c Hc].
  unfold the_publication. by rewrite Hc, Hu.
Qed.

Lemma world_inv e s u : invt e s → updates s = Some u → PublicationClaims.inv heap (Update.world u).
Proof. intros [Hv _] Hu. destruct (iv_updates _ _ _ Hv _ Hu) as (_ & w0 & Hst & _). by destruct (update_state_inv heap _ _ _ Hst) as (_ & ? & _). Qed.

Lemma reclaimer_begins w w' : PublicationClaims.inv heap w → stopped w → Publication.act heap Publication.StartReclaimer w = Some w' →
  Publication.reclaimer_active_ (Publication.retirement w) = false ∧ Publication.reclaimer w' ≠ Publication.Stopped None.
Proof.
  intros Hinv [r Hr] H. destruct (inv_reclaimer _ _ Hinv) as [Ha _]. rewrite Hr in Ha. split; [done |]. cbn in H.
  unfold Publication.guarded in H. destruct (Publication.retirement_mutex_free w); [| done]. injection H as <-.
  unfold Publication.run_reclaimer_begin. by rewrite Ha.
Qed.

Lemma stays_running now stop w : Publication.reclaimer w ≠ Publication.Stopped None → Publication.reclaimer (Publication.reclaimer_step now stop w) ≠ Publication.Stopped None.
Proof. intros H. unfold Publication.reclaimer_step, Publication.exit_with. repeat case_match; cbn; congruence. Qed.

Lemma placed_stays s s' o : stays s s' → placed s o → placed s' o.
Proof.
  intros (_ & _ & _ & _ & Hf & Hu) Hp u' E1 E2. destruct (Hu u' E1) as (u & Hu0 & E). rewrite Hf in E2. specialize (Hp u Hu0 E2).
  unfold reclaimer_place, stopped in *. by rewrite E.
Qed.

Theorem reclaimer_safe now s o : inv s → reclaimer_step heap now s = Some o → safe s o.
Proof.
  intros Hv H. unfold reclaimer_step in H. destruct (reclaimer_run s) as [[a p] |] eqn:Hp; [| done].
  pose proof (inv_invt heap 2 s Hv) as Hvt. destruct (thread_parts 2 s Hvt) as [Hrun (_ & _ & Hc & _)]; [right; left; by rewrite Hp |].
  pose proof (mine_open 2 s Hv ltac:(done)) as Hm. unfold calling in Hm. rewrite Hp in Hm.
  pose proof (lock_open heap 2 s Hv) as Hl. unfold holding in Hl. rewrite Hp in Hl.
  assert (placed s (Some (a, p))) as Hpl by (intros u Hu Hf; rewrite <- Hp; by apply (iv_reclaimer _ _ _ Hv)).
  destruct (publication_there 2 s Hvt Hc) as (u & Hu & Hf & Hpub). pose proof (world_inv 2 s u Hvt Hu) as Hinv.
  assert (∀ f p', mine 2 (calling (set_reclaimer_run (Some (a, p')) s) 2) s → holding (set_reclaimer_run (Some (a, p')) s) 2 = false →
    placed s (Some (a, p')) → safe s (chain (on_control f s) (λ s, Val (set_reclaimer_run (Some (a, p')) s)))) as Hcontrol.
  { intros f p' Hm' Hh Hpl'. destruct (on_control_safe 2 f s Hvt Hc) as (c & E & Hg). rewrite E. eexists. split; [reflexivity |].
    apply (reclaimer_turn s _ a p p' Hg Hp); [by apply (mine_same _ _ s) | | exact Hpl']. unfold holding in *. cbn in *. by rewrite Hh. }
  destruct p as [| | r | | r | r | p |].
  - destruct (match faults_ s with Some f => _ | None => _ end); [injection H as <-; by apply Hcontrol |]. rewrite Hpub in H.
    destruct (Publication.act heap Publication.StartReclaimer (Update.world u)) as [w' |] eqn:Ha; [| done]. injection H as <-.
    destruct (reclaimer_begins _ _ Hinv (Hpl u Hu Hf) Ha) as [-> Hw]. eexists. split; [reflexivity |].
    apply (reclaimer_turn s _ a ReclaimerStart); [by eapply (environment_goes heap 2) | done | | done | by intros u1 [= <-] _].
    intros u1 [= <-] _. exact (Hm u Hu Hf).
  - injection H as <-. by apply Hcontrol.
  - injection H as <-. by destruct r; apply Hcontrol.
  - rewrite Hpub in H. pose proof (Hpl u Hu Hf) as Hw. cbn [reclaimer_place] in Hw.
    assert (∀ o, match Publication.act heap (Publication.ReclaimerStep now false) (Update.world u) with
                 | Some w => Some (Val (put_updates (Update.set_world w u) s)) | None => None end = Some o → safe s o) as Hstep.
    { intros o1 E. destruct (Publication.act heap (Publication.ReclaimerStep now false) (Update.world u)) as [w |] eqn:Ha; [| done]. injection E as <-.
      eexists. split; [reflexivity |].
      assert (goes 2 s (put_updates (Update.set_world w u) s)) as Hg by by eapply (environment_goes heap 2).
      pose proof (reclaimer_turn s _ a ReclaimerRunning ReclaimerRunning Hg Hp) as Ht. cbn in Ht.
      replace (set_reclaimer_run (Some (a, ReclaimerRunning)) (put_updates (Update.set_world w u) s)) with (put_updates (Update.set_world w u) s) in Ht by (destruct s; cbn in *; by subst).
      apply Ht; [| done |].
      - intros u1 [= <-] _. exact (Hm u Hu Hf).
      - intros u1 [= <-] _. cbn in Ha. injection Ha as <-. by apply stays_running. }
    destruct (Publication.reclaimer (Update.world u)) as [[r |] | | | | | | |] eqn:Er; try (by apply Hstep).
    injection H as <-. eexists. split; [reflexivity |]. apply (reclaimer_turn s _ a ReclaimerRunning); [by apply goes_refl | done | done | done |].
    intros u1 Hu1 _. rewrite Hu in Hu1. injection Hu1 as <-. by exists (Some r).
  - injection H as <-. by apply Hcontrol.
  - unfold when in H. destruct (free s); [| done]. destruct (role_exit _ _ _ _ _) as [st s1] eqn:E. injection H as <-.
    destruct (role_exit_safe 2 _ _ _ _ _ _ _ Hvt E) as [Hg Hst]. pose proof Hst as (_ & E1 & _). eexists. split; [reflexivity |]. rewrite Hp in E1.
    apply (reclaimer_turn s s1 a (ReclaimerExiting r)); [done | done | | by destruct st | by destruct st; apply (placed_stays s)].
    destruct st; exact (role_exit_mine _ _ _ _ _ _ _ _ _ E Hm).
  - destruct (stop_step heap 2 p s) as [o1 |] eqn:Ho; [| done]. injection H as <-.
    destruct (stop_step_safe 2 p s o1 Hvt ltac:(done) Hm Hl Ho) as (q & s1 & -> & Hg & Hst & Hm1 & Hl1). pose proof Hst as (_ & E1 & _).
    eexists. split; [reflexivity |]. rewrite Hp in E1. apply (reclaimer_turn s s1 a (ReclaimerStopping p)); [done | done | by destruct q | |].
    + intros Hh. apply Hl1. by destruct q as [[] |].
    + destruct q; by apply (placed_stays s).
  - done.
Qed.

(** ** Thread C *)
Lemma reports_free c p0 l x : SupervisorInvariant.inv heap c p0 x →
  SupervisorInvariant.inv heap c p0 (Supervisor.set_reports l x) ∧ SupervisorInvariant.rely x (Supervisor.set_reports l x).
Proof. intros []. split; [by split |]. split; try done. intros r rec Hr. by exists rec. Qed.

(** Its place changes, its promises do not. *)
Lemma supervisor_goto s s1 a p p' : goes 3 s s1 → supervisor_run s1 = Some (a, p) →
  (∀ p0 x, SupervisorInvariant.inv heap (Supervisor.config_ x) p0 x → thread_c heap p0 (Some (a, p)) x → thread_c heap p0 (Some (a, p')) x) →
  let s2 := set_supervisor_run (Some (a, p')) s1 in
  mine 3 (calling s2 3) s1 → (holding s2 3 = true → lifecycle_owner s1 = Some 3%nat) → inv s2 ∧ rely s s2.
Proof.
  intros [[Hv H3] Hr] Hp Ht s2 Hm Hl. split.
  - apply (invx_close heap 3 s2); try done.
    + destruct Hv as [H01 H02 H03 H04 H05 H06 H07 H08 H09 H10 H11 H12 H13 H14 H15 H16 H17 H18]. split; try done.
      * split; [intros E; destruct (proj1 H04 E) as (? & ? & ?); congruence |]. intros _. apply H04. by rewrite Hp.
      * intros [| [| [| [| t]]]] u Ht1 Hne; try done; exact (H13 _ u Ht1 Hne).
      * intros [| [| [| [| t]]]] Hne; try done; exact (H15 _ Hne).
    + intros _ x Hx. destruct (H3 eq_refl x Hx) as (? & ? & ? & ? & p0 & Hi & Hc). split_and!; try done. exists p0. split; [done |].
      apply Ht; [done |]. by rewrite Hp in Hc.
  - etrans; [exact Hr |]. rely_same. by rewrite Hp.
Qed.

(** C makes a step of its own, and goes on at [p']. *)
Lemma supervisor_moves s x x' a p p' : inv s → supervisor_ s = Some x → supervisor_run s = Some (a, p) → mine 3 None s → frame heap x x' →
  (∀ p0, SupervisorInvariant.inv heap (Supervisor.config_ x) p0 x → thread_c heap p0 (Some (a, p)) x →
     SupervisorInvariant.inv heap (Supervisor.config_ x) p0 x' ∧ thread_c heap p0 (Some (a, p')) x') →
  let s' := set_supervisor_run (Some (a, p')) (put_supervisor x' s) in
  goes 3 s s' ∧ mine 3 None s' ∧ supervisor_run s' = Some (a, p').
Proof.
  intros Hv Hx Hp Hm Hfr Hstep s'. pose proof (inv_invt heap 3 s Hv) as Hvt.
  destruct (supervisor_turn heap 3 s x x' (Some (a, p')) (proj1 Hvt) Hx) as (Hv' & Hr & Hok); try done.
  - intros _. by apply (supervisor_world heap 3).
  - intros p0 Hi Ht. rewrite Hp in Ht. by apply Hstep.
  - by rewrite Hp.
  - by rewrite Hp.
  - by left.
  - split; [split; [split; [exact Hv' |] | exact Hr] |].
    + intros _ x1 E. unfold s' in E. cbn in E. by injection E as <-.
    + split; [| done]. intros u Hu Hf. unfold s' in Hu. cbn in Hu. destruct (updates s) as [u0 |] eqn:E; [| done]. injection Hu as <-.
      exact (Hm u0 E Hf).
Qed.

Lemma ret_settled c p0 o x : SupervisorInvariant.inv heap c p0 x →
  Concurrency.wp (SupervisorInvariant.inv heap c p0) SupervisorInvariant.rely (Ret o : Supervisor.M Supervisor.SupervisorRunResult)
    (SupervisorRun.final c) x → o ≠ Undef ∧ settled c None x.
Proof.
  intros Hi Hw. specialize (Hw x ltac:(reflexivity) Hi). destruct o as [r | e |]; [split; [done | apply Hw].. | done].
Qed.

Lemma value_is {A} (m : prog Supervisor.State Supervisor.Input A) a : value m = Some a → m = Ret a.
Proof. destruct m; cbn; [by intros [= ->] | done..]. Qed.

(** C between two of its actions: it reports first what is to be reported. *)
Lemma supervisor_runs e s a rest x o : inv s → supervisor_run s = Some (a, SupervisorRunning rest) → supervisor_ s = Some x →
  supervisor_step heap e s = Some o → safe s o.
Proof.
  intros Hv Hp Hx H. unfold supervisor_step, the_supervisor in H. rewrite Hp, Hx in H. cbn [from_option_ub] in H.
  pose proof (inv_invt heap 3 s Hv) as Hvt. pose proof (mine_open 3 s Hv ltac:(done)) as Hm. unfold calling in Hm. rewrite Hp in Hm.
  pose proof (supervisor_world heap 3 _ _ Hvt Hx) as (_ & _ & _ & _ & p0 & Hi & Ht). rewrite Hp in Ht.
  assert (∀ l, let s1 := put_supervisor (Supervisor.set_reports l x) s in
    goes 3 s s1 ∧ mine 3 None s1 ∧ supervisor_run s1 = Some (a, SupervisorRunning rest)) as Hreports.
  { intros l. destruct (supervisor_moves s x (Supervisor.set_reports l x) a _ (SupervisorRunning rest) Hv Hx Hp Hm) as (Hg & Hm1 & Hp1).
    - by apply frame_same.
    - intros p1 Hi1 Ht1. destruct (reports_free _ _ l _ Hi1) as [Hi2 Hr2]. split; [done |]. by eapply thread_c_rely.
    - replace (put_supervisor (Supervisor.set_reports l x) s) with (set_supervisor_run (Some (a, SupervisorRunning rest)) (put_supervisor (Supervisor.set_reports l x) s))
        by (destruct s; cbn in *; by subst). done. }
  destruct (Supervisor.reports x) as [| [h | f] l] eqn:Er.
  - destruct (value rest) as [r |] eqn:Eval.
    + apply value_is in Eval as ->. destruct (ret_settled _ _ _ _ Hi (proj1 Ht)) as [Hu _].
      assert (∀ r', safe s (Val (set_supervisor_run (Some (a, SupervisorPublishing r')) s))) as Hgoto.
      { intros r'. eexists. split; [reflexivity |]. apply (supervisor_goto s s a (SupervisorRunning (Ret r))); try done.
        intros p1 x1 Hi1 [Hw _]. by destruct (ret_settled _ _ _ _ Hi1 Hw). }
      destruct r as [r | |]; [| | done]; injection H as <-; apply Hgoto.
    + destruct (step e rest x) as [[rest' x'] |] eqn:Es; [| done]. injection H as <-.
      destruct (every_step _ _ _ _ _ _ (proj2 Ht) Es) as [Hfr Hev]. eexists. split; [reflexivity |].
      destruct (supervisor_moves s x x' a (SupervisorRunning rest) (SupervisorRunning rest') Hv Hx Hp Hm Hfr) as (Hg & Hm1 & Hp1).
      { intros p1 Hi1 [Hw1 _]. destruct (wp_step _ _ _ _ _ _ _ _ Hi1 Hw1 Es) as [Hi2 Hw2]. split; [done |]. unfold thread_c.
        rewrite (inv_config _ _ _ _ Hi2). by split. }
      pose proof (supervisor_goto s _ a (SupervisorRunning rest') (SupervisorRunning rest') Hg Hp1) as Hf. by apply Hf.
  - unfold when in H. destruct (free s); [| done]. injection H as <-. destruct (Hreports l) as (Hg & Hm1 & Hp1).
    destruct (health_reporter_safe 3 h _ (proj1 Hg)) as [Hg2 Hst]. eexists. split; [reflexivity |].
    assert (goes 3 s (health_reporter h (put_supervisor (Supervisor.set_reports l x) s))) as Hg3 by by eapply goes_trans.
    destruct Hg3 as [[Hv3 Hok3] Hr3]. split; [| done]. destruct Hst as (_ & _ & E3 & _ & E4 & _). rewrite Hp1 in E3.
    apply (invx_close heap 3); try done.
    + unfold calling. rewrite E3. unfold health_reporter in *. repeat case_match; exact Hm1.
    + unfold holding. by rewrite E3.
  - unfold when in H. destruct (free s); [| done]. destruct (Hreports l) as (Hg & Hm1 & Hp1).
    destruct (accept_fatal_locked _ _) as [acc s1] eqn:E. injection H as <-.
    destruct (accept_fatal_safe 3 _ _ _ _ (proj1 Hg) E) as [Hg2 Hst]. eexists. split; [reflexivity |]. destruct Hst as (_ & _ & E3 & _). rewrite Hp1 in E3.
    apply (supervisor_goto s s1 a (SupervisorRunning rest)); [by eapply goes_trans | done | by destruct acc | | by destruct acc].
    assert (mine 3 None s1) as Hm2; [| by destruct acc]. unfold accept_fatal_locked in E. destruct (_ || _); injection E as <- <-; exact Hm1.
Qed.

Theorem supervisor_safe e s o : inv s → supervisor_step heap e s = Some o → safe s o.
Proof.
  intros Hv H. destruct (supervisor_run s) as [[a p] |] eqn:Hp; [| unfold supervisor_step in H; by rewrite Hp in H].
  pose proof (inv_invt heap 3 s Hv) as Hvt. destruct (thread_parts 3 s Hvt) as [Hrun (_ & _ & Hc & _)]; [right; right; by rewrite Hp |].
  pose proof (mine_open 3 s Hv ltac:(done)) as Hm. unfold calling in Hm. rewrite Hp in Hm.
  pose proof (lock_open heap 3 s Hv) as Hl. unfold holding in Hl. rewrite Hp in Hl.
  destruct (iv_threads _ _ _ Hv) as [_ [x Hx]]; [by rewrite Hp |].
  destruct p as [rest | p rest | r | r | p |]; [by eapply supervisor_runs | ..]; unfold supervisor_step in H; rewrite Hp in H.
  - destruct (stop_step heap 3 p s) as [o1 |] eqn:Ho; [| done]. injection H as <-.
    destruct (stop_step_safe 3 p s o1 Hvt ltac:(done) Hm Hl Ho) as (q & s1 & -> & Hg & (_ & _ & E1 & _) & Hm1 & Hl1). eexists. split; [reflexivity |].
    rewrite Hp in E1. apply (supervisor_goto s s1 a (SupervisorReporting p rest)); [done | done | by destruct q | by destruct q |].
    intros Hh. apply Hl1. by destruct q as [[] |].
  - injection H as <-. destruct (on_control_safe 3 (publish_supervisor_result r) s Hvt Hc) as (c & -> & Hg). eexists. split; [reflexivity |].
    by apply (supervisor_goto s _ a (SupervisorPublishing r)).
  - unfold when in H. destruct (free s); [| done]. destruct (role_exit _ _ _ _ _) as [st s1] eqn:E. injection H as <-.
    destruct (role_exit_safe 3 _ _ _ _ _ _ _ Hvt E) as [Hg (_ & _ & E1 & _)]. eexists. split; [reflexivity |]. rewrite Hp in E1.
    apply (supervisor_goto s s1 a (SupervisorExiting r)); [done | done | by destruct st | | by destruct st].
    destruct st; exact (role_exit_mine _ _ _ _ _ _ _ _ _ E Hm).
  - destruct (stop_step heap 3 p s) as [o1 |] eqn:Ho; [| done]. injection H as <-.
    destruct (stop_step_safe 3 p s o1 Hvt ltac:(done) Hm Hl Ho) as (q & s1 & -> & Hg & (_ & _ & E1 & _) & Hm1 & Hl1). eexists. split; [reflexivity |].
    rewrite Hp in E1. apply (supervisor_goto s s1 a (SupervisorStopping p)); [done | done | by destruct q | by destruct q |].
    intros Hh. apply Hl1. by destruct q as [[] |].
  - done.
Qed.
End steps.
