(* ===== verification/ServiceCallers.v ===== *)
(** * The callers of the service, and every step at once

    [caller_begins], [caller_steps]: the public methods keep the invariant.  [event_safe]:
    so does every [event], and none touches a part that is not there. *)
From stdpp Require Import relations functions.
From Stdlib Require Import Strings.Byte.
From S2P Require Import Prelude DomainName DnsCache DomainBlocklist FilterPublication PublicationClaims FilterUpdateController UpdateInvariant UpdateClaims Concurrency WorkerSupervisor SupervisorInvariant SupervisorThread SupervisorMonitor SupervisorRun SupervisorClaims SupervisorFrame UpdateFrame DnsService ServiceInvariant ServiceSteps.
Import Service.

Section callers.
Context {F : Type}.
Variable heap : nat → FilterContext F.
Hypothesis generations : ∀ s, 0 ≤ Publication.snap_generation heap s.
Variable inet_pton : list byte → bool.
Notation inv := (ServiceInvariant.inv heap).
Notation invt := (ServiceInvariant.invt heap).
Notation rely := (ServiceInvariant.rely heap).
Notation goes := (ServiceInvariant.goes heap).
Notation safe := (ServiceSteps.safe heap).

(** ** One caller *)
Definition user_calling (s : State) (o : option UserPc) : option CallKind :=
  match o with
  | Some (UserStopping p _) => if filter_updates_ s then stop_kind p else None
  | Some UserSubmitting => Some SubmitCall
  | Some UserDetaching => Some SealTerminal
  | _ => None
  end.
Definition user_holding (o : option UserPc) : bool :=
  match o with
  | Some (UserStopping p _) => sealing p
  | Some UserSubmitting | Some UserDetaching => true
  | _ => false
  end.

Lemma calling_user s t : (3 < t)%nat → calling s t = user_calling s (users s !! t).
Proof. intros H. destruct t as [| [| [| [| t]]]]; [lia.. |]. done. Qed.
Lemma holding_user s t : (3 < t)%nat → holding s t = user_holding (users s !! t).
Proof. intros H. destruct t as [| [| [| [| t]]]]; [lia.. |]. done. Qed.

Lemma set_user_here t p s : users (set_user t p s) !! t = Some p.
Proof. apply lookup_insert_eq. Qed.
Lemma set_user_other t t' p s : t' ≠ t → users (set_user t p s) !! t' = users s !! t'.
Proof. intros H. apply lookup_insert_ne. congruence. Qed.

(** A caller is at [p] now; what [inv] says of its place. *)
Definition begins_well (s : State) (t : nat) (p : UserPc) : Prop :=
  match p with
  | UserInitializing _ => state_ s = Empty ∧ init_in_progress_ s = true ∧ ∀ t' c, users s !! t' = Some (UserInitializing c) → t' = t
  | UserSubmitting => (state_ s ≠ Empty ∧ state_ s ≠ Initialized) ∧ filter_updates_ s = true
  | UserDetaching => filter_updates_ s = true
  | _ => True
  end.

Lemma user_turn s s1 t p : (3 < t)%nat → goes t s s1 → begins_well s1 t p → mine t (user_calling s1 (Some p)) s1 →
  (user_holding (Some p) = true → lifecycle_owner s1 = Some t) → inv (set_user t p s1) ∧ rely s (set_user t p s1).
Proof.
  intros Ht [[Hv H3] Hr] Hb Hm Hl. assert (users (set_user t p s1) !! t = Some p) as Hhere by apply set_user_here.
  split; [| etrans; [exact Hr |]; rely_same].
  apply (invx_close heap t).
  - destruct Hv as [H01 H02 H03 H04 H05 H06 H07 H08 H09 H10 H11 H12 H13 H14 H15 H16 H17 H18]. split; try done.
    + split.
      * intros t1 c E. destruct (decide (t1 = t)) as [-> | Hne]; [| rewrite set_user_other in E by done; exact (proj1 H05 _ _ E)].
        rewrite Hhere in E. injection E as ->. by destruct Hb as (? & ? & _).
      * assert (∀ t1 c1, t1 ≠ t → users s1 !! t1 = Some (UserInitializing c1) → ∀ c, p ≠ UserInitializing c) as Hno.
        { intros t1 c1 Hne E c ->. destruct Hb as (_ & _ & Hb). by destruct Hne; eapply Hb. }
        intros t1 t2 c1 c2 E1 E2. destruct (decide (t1 = t)) as [-> | Hn1], (decide (t2 = t)) as [-> | Hn2]; [done | ..].
        -- rewrite Hhere in E1. injection E1 as ->. rewrite set_user_other in E2 by done. by destruct (Hno _ _ Hn2 E2 c1).
        -- rewrite Hhere in E2. injection E2 as ->. rewrite set_user_other in E1 by done. by destruct (Hno _ _ Hn1 E1 c2).
        -- rewrite set_user_other in E1, E2 by done. exact (proj2 H05 _ _ _ _ E1 E2).
    + intros t1. destruct (decide (t1 = t)) as [-> | Hne]; [done |]. rewrite set_user_other by done. apply H06.
    + intros t1 u H0 Hne E Hf. specialize (H13 t1 u H0 Hne E Hf). replace (calling (set_user t p s1) t1) with (calling s1 t1); [done |].
      destruct t1 as [| [| [| [| t1]]]]; [done.. |]. rewrite !calling_user by lia. by rewrite set_user_other.
    + intros t1 Hne. replace (holding (set_user t p s1) t1) with (holding s1 t1); [by apply H15 |].
      destruct t1 as [| [| [| [| t1]]]]; [done.. |]. rewrite !holding_user by lia. by rewrite set_user_other.
    + intros t1. destruct (decide (t1 = t)) as [-> | Hne]; [| rewrite set_user_other by done; apply H17].
      rewrite Hhere. intros [= ->]. apply Hb.
    + intros t1. destruct (decide (t1 = t)) as [-> | Hne]; [| rewrite set_user_other by done; apply H18].
      rewrite Hhere. intros [[= ->] | [= ->]]; apply Hb.
  - intros u Hu Hf. rewrite calling_user, Hhere by done. by apply Hm.
  - rewrite holding_user, Hhere by done. exact Hl.
  - intros ->. lia.
  - intros ->. lia.
Qed.

(** A caller that is back. *)
Lemma user_back s s1 t p : (3 < t)%nat → goes t s s1 → mine t None s1 →
  match p with UserInitialized _ | UserStopped | UserFuture _ | UserReplaced _ => True | UserStopping StopEnter _ => True | _ => False end →
  inv (set_user t p s1) ∧ rely s (set_user t p s1).
Proof.
  intros Ht Hg Hm Hp. apply user_turn; [done | done | by destruct p | | by destruct p as [| | [] | | | | |]].
  destruct p as [| | [] | | | | |]; try done. cbn. by destruct (filter_updates_ s1).
Qed.

(** ** [init] *)
Lemma parts_built c b u shards : build_parts heap inet_pton c b = Some (u, shards) →
  update_ok heap (dns_worker_count c) u ∧ clean (Update.world u) ∧ quiescent u ∧ stopped (Update.world u) ∧ Update.calls u = ∅.
Proof.
  unfold build_parts. intros H. destruct (_ && _); [| done]. destruct (Update.validate_filter_rule_set _ _); try done. destruct b as [| | | sn]; try done.
  destruct (Publication.make_publication_state heap (Some sn) (dns_worker_count c) grace_timeout) as [w | |] eqn:Hw; try done.
  destruct (Update.make_controller w Update.default_limits) as [u0 | |] eqn:Hu; try done. destruct (make_cache _ _); try done. injection H as <- _.
  assert (PublicationClaims.initial_state heap w) as H0 by (split; [done | by do 3 eexists]).
  unfold Update.make_controller in Hu. destruct (_ || _) eqn:Eb; [done |]. injection Hu as <-. pose proof Hw as Hw1.
  unfold Publication.make_publication_state in Hw1. case_match eqn:E1; [done |]. injection Hw1 as <-. split_and!; try done.
  - split; [done |]. eexists. split.
    + split_and!; [exact H0 | by vm_compute |]. eexists. split; [unfold Update.make_controller; by rewrite Eb | constructor].
    + apply length_replicate.
  - intros r. split_and!; [done.. |]. unfold Publication.registry_at. cbn. destruct (replicate _ _ !! r) as [e |] eqn:E; [| done].
    by apply lookup_replicate in E as [-> _].
  - by eexists.
Qed.

Definition nobody_initializes (s : State) : Prop := ∀ t c, users s !! t ≠ Some (UserInitializing c).

Lemma init_begun s : inv s → state_ s = Empty → nobody_initializes s → ∀ b, inv (set_init_in_progress b s) ∧ rely s (set_init_in_progress b s).
Proof.
  intros Hv He Hn b. split; [| rely_same].
  destruct Hv as [H01 H02 H03 H04 H05 H06 H07 H08 H09 H10 H11 H12 H13 H14 H15 H16 H17 H18]. split; try done.
  split; [intros t c Ht; by destruct (Hn t c) | apply H05].
Qed.

(** The service gets its parts. *)
Definition equipped (c : DNSConfig) (u : Update.UpdateWorld) (shards : nat) (s : State) : State :=
  set_state Initialized (set_init_in_progress false (set_faults (Some no_faults) (set_control (Some (control_reset 0))
    (set_cache (Some shards) (set_filter_updates true (set_updates (Some u)
      (set_health (mkHealth Unavailable 0 (Z.of_nat (dns_worker_count c)) 0 0 0 None (Some (Publication.current_version (Update.world u))) None)
        (set_config (mkRuntimeConfig (dns_worker_count c) (dns_cache_capacity c) (dns_port c) (dns_runtime_updates_enabled c)
           (recovery_of c) (dns_upstream c)) s)))))))).

Record equips (c : DNSConfig) (u : Update.UpdateWorld) (s s' : State) : Prop := {
  eq_state : state_ s' = Initialized;
  eq_parts : complete s' ∧ supervisor_ s' = supervisor_ s;
  eq_updates : updates s' = Some u;
  eq_config : worker_count (config_ s') = dns_worker_count c ∧ recovery (config_ s') = recovery_of c;
  eq_life : (stop_cause_ s', update_admission_open_ s', startup_error_ s', fatal_error_ s') = (stop_cause_ s, update_admission_open_ s, startup_error_ s, fatal_error_ s);
  eq_health : health_state (health_ s') = Unavailable ∧ available_workers (health_ s') = 0;
  eq_runs : coordinator_run s' = coordinator_run s ∧ reclaimer_run s' = reclaimer_run s ∧ supervisor_run s' = supervisor_run s;
  eq_members : (coordinator_thread_ s', reclaimer_thread_ s', supervisor_thread_ s', reclaimer_available s', startup_attempt_id_ s') =
    (coordinator_thread_ s, reclaimer_thread_ s, supervisor_thread_ s, reclaimer_available s, startup_attempt_id_ s);
  eq_others : (users s', lifecycle_owner s', undefined_ s') = (users s, lifecycle_owner s, undefined_ s);
}.

Lemma equipped_equips c u shards s : equips c u s (equipped c u shards s).
Proof. split; try reflexivity; repeat split; try reflexivity; by eexists. Qed.

Lemma equips_inv c u s s' : inv s → state_ s = Empty → nobody_initializes s → lifecycle_owner s = None →
  update_ok heap (dns_worker_count c) u → clean (Update.world u) → quiescent u → stopped (Update.world u) → Update.calls u = ∅ →
  equips c u s s' → inv s'.
Proof.
  intros Hv He Hn Hl Hok Hcl Hq Hst Hca [Es Ep Eu [Ew Er] [= El1 El2 El3 El4] [Eh1 Eh2] (Ec & Erc & Esu) _ [= Eus Eo Ed]].
  assert (coordinator_run s = None ∧ reclaimer_run s = None ∧ supervisor_run s = None) as (Hc & Hr & Hs) by (apply (iv_threads _ _ _ Hv); by rewrite He).
  rewrite Hc in Ec. rewrite Hr in Erc. rewrite Hs in Esu.
  assert (∀ t, holding s' t = false) as Hhold.
  { intros t. destruct (holding s' t) eqn:E; [| done]. assert (holding s t = true) as Hh; [| pose proof (lock_open heap t s Hv Hh); congruence].
    rewrite <- E. unfold holding. by rewrite Eus, Ec, Erc, Esu, Hc, Hr, Hs. }
  assert (∀ t, calling s' t = None) as Hcall.
  { intros t. specialize (Hhold t). destruct t as [| [| [| [| t]]]]; cbn; [done | by rewrite ?Ec, ?Erc, ?Esu.. |]. cbn in Hhold.
    destruct (users s' !! _) as [[] |]; try done. destruct p; [by destruct (filter_updates_ s') | done]. }
  pose proof (iv_parts _ _ _ Hv) as Hpa. unfold parts in Hpa. rewrite He in Hpa. destruct Hpa as [(_ & _ & _ & _ & Hx) _].
  destruct Ep as [Hcomp Ex]. rewrite Hx in Ex.
  destruct Hv as [H01 H02 H03 H04 H05 H06 H07 H08 H09 H10 H11 H12 H13 H14 H15 H16 H17 H18].
  split; rewrite ?Eu, ?Eus, ?Ew, ?Er, ?Ex, ?Erc; try done.
  - by rewrite Ed.
  - destruct H02 as [L1 L2 L3 L4 L5 L6]. rewrite He in *. unfold life_of. rewrite Es, El1, El2, El3, El4.
    split; try done; try auto; [| by intros [? | ?]]. intros Ha. by destruct (L3 Ha).
  - unfold parts. rewrite Es. done.
  - split; rewrite Eus; [intros t c0 Ht; by destruct (Hn t c0) | apply H05].
  - by intros u1 [= <-].
  - cbn. lia.
  - by intros u1 _ _ [= <-].
  - by intros u1 _ [= <-].
  - intros _ u1 [= <-] _. exact Hst.
  - intros t u1 _ _ [= <-] _. rewrite Hcall. cbn. unfold Update.idle. by rewrite Hca.
  - intros u1 c0 [= <-]. by rewrite Hca.
  - intros t _. by rewrite Hhold.
  - intros t Ht. destruct (H17 t Ht). congruence.
  - intros t _. apply Hcomp.
Qed.

Lemma equips_rely c u s s' : inv s → state_ s = Empty → lifecycle_owner s = None → Update.calls u = ∅ → equips c u s s' → rely s s'.
Proof.
  intros Hv He Hl Hcalls [Es [_ Ex] Eu _ [= El1 El2 El3 El4] _ (Ec & Erc & Esu) [= Em1 Em2 Em3 Em4 Em5] [= Eus Eo Ed]].
  assert (stop_cause_ s = NoCause) as Hca by (apply (iv_life _ _ _ Hv); auto).
  pose proof (iv_parts _ _ _ Hv) as Hpa. unfold parts in Hpa. rewrite He in Hpa. destruct Hpa as [(_ & _ & _ & _ & Hx) _].
  split; rewrite ?He, ?Hca, ?Hx, ?Hl, ?Ec, ?Erc, ?Esu; try done; [by rewrite Es | congruence | | congruence].
  intros _ u1 E. rewrite Eu in E. injection E as <-. unfold Update.idle. by rewrite Hcalls.
Qed.

Lemma user_above t s p : inv s → users s !! t = Some p → (3 < t)%nat.
Proof. intros Hv Hp. apply (iv_users _ _ _ Hv). by rewrite Hp. Qed.

(** The second critical section of [init]. *)
Lemma init_finishes t s c b : inv s → users s !! t = Some (UserInitializing c) → lifecycle_owner s = None →
  let '(r, s1) := finish_init heap inet_pton c b s in inv (set_user t (UserInitialized r) s1) ∧ rely s (set_user t (UserInitialized r) s1).
Proof.
  intros Hv Hp Hl. pose proof (user_above _ _ _ Hv Hp) as Ht. destruct (iv_init _ _ _ Hv) as [Hi Hone]. destruct (Hi _ _ Hp) as [He _].
  assert (∀ r, let s0 := set_user t (UserInitialized r) s in (inv s0 ∧ rely s s0) ∧ nobody_initializes s0) as Hback.
  { intros r. split.
    - apply (user_back s s t); [done | apply goes_refl, inv_invt, Hv | | done].
      pose proof (mine_open heap t s Hv ltac:(lia)) as Hm. by rewrite calling_user, Hp in Hm by done.
    - intros t1 c1 E. destruct (decide (t1 = t)) as [-> | Hne]; [by rewrite set_user_here in E |]. rewrite set_user_other in E by done.
      by destruct Hne; eapply Hone. }
  destruct (finish_init heap inet_pton c b s) as [r s1] eqn:E. unfold finish_init in E. destruct (build_parts heap inet_pton c b) as [[u shards] |] eqn:Eb.
  - injection E as <- <-. destruct (Hback true) as [[Hv0 Hr0] Hn0]. set (s0 := set_user t (UserInitialized true) s) in *.
    destruct (parts_built _ _ _ _ Eb) as (Hok & Hcl & Hq & Hst & Hca). pose proof (equipped_equips c u shards s0) as Heq.
    change (inv (equipped c u shards s0) ∧ rely s (equipped c u shards s0)).
    split; [by eapply equips_inv | etrans; [exact Hr0 |]; by eapply equips_rely].
  - injection E as <- <-. destruct (Hback false) as [[Hv0 Hr0] Hn0]. set (s0 := set_user t (UserInitialized false) s) in *.
    change (inv (set_init_in_progress false s0) ∧ rely s (set_init_in_progress false s0)).
    destruct (init_begun s0 Hv0 He Hn0 false) as [? ?]. split; [done | by etrans].
Qed.

(** ** The beginnings of the methods *)
Lemma idle_mine t s : inv s → idle_user t s = true → (3 < t)%nat ∧ mine t None s.
Proof.
  intros Hv H. unfold idle_user in H. apply andb_true_iff in H as [Ht H]. apply Nat.ltb_lt in Ht. split; [done |].
  pose proof (mine_open heap t s Hv ltac:(lia)) as Hm. rewrite calling_user in Hm by done. by destruct (users s !! t) as [[] |].
Qed.

Lemma measured rules limits m : Update.measure_rules rules limits m ≠ Undef.
Proof.
  revert m. induction rules as [| r rules IH]; intros m; cbn [Update.measure_rules]; [done |]. destruct (Update.exceeds _ _ _); [done |].
  pose proof (from_text_defined r) as Hd. destruct (from_text r) as [d | e |]; [| apply IH | done].
  destruct (Update.exceeds _ _ _); [done | apply IH].
Qed.

Lemma submit_begins t rules u : Update.idle t u = true → ∃ u', Update.update_act heap (Update.SubmitReplace t rules) u = Some u'.
Proof.
  intros Hi. cbn [Update.update_act]. rewrite Hi. unfold Update.submit_begin, Update.validate_filter_rule_set.
  destruct (_ <? _); [by eexists |]. pose proof (measured rules (Update.limits_ (Update.controller u)) (Update.mkMeasurement 0 0)) as Hm.
  cbn [Update.controller]. destruct (Update.measure_rules _ _ _); [by eexists | by eexists | done].
Qed.

(** The controller is called, with [lifecycle_mutex_] held. *)
Lemma call_begins t a k p s : inv s → (3 < t)%nat → mine t None s → lifecycle_owner s = None → filter_updates_ s = true →
  actor a = Some t → begins a = Some k → k ≠ SuccessorCall → user_calling s (Some p) = Some k → begins_well s t p →
  (∀ u, Update.idle t u = true → ∃ u', Update.update_act heap a u = Some u') →
  (∀ u u', state_ s = Initialized → Update.update_act heap a u = Some u' → untouched u → untouched u') →
  safe s (chain (the_updates s) (λ u, chain (from_option_ub (Update.update_act heap a u)) (λ u', Val (set_user t p (set_lifecycle_owner (Some t) (put_updates u' s)))))).
Proof.
  intros Hv Ht Hm Hl Hf Hact Hbeg Hk Hp Hb Hex Hun. pose proof (inv_invt heap t s Hv) as Hvt.
  destruct (updates_there heap t s Hvt Hf) as (u & Hu & ->). cbn [chain]. destruct (Hex u (Hm u Hu Hf)) as [u' Ha]. rewrite Ha. cbn [from_option_ub chain].
  eexists. split; [reflexivity |]. apply user_turn; [done | | done | | done].
  - apply (goes_trans heap t s (put_updates u' s)); [| intros Hv1; apply lock_change; [done | lia | by left]].
    apply (update_step heap t a s u u'); try done; [by destruct a | lia | by left | | by intros Hi; apply Hun].
    intros _ t1 now b c -> Hc. done.
  - change (mine t (user_calling s (Some p)) (put_updates u' s)). rewrite Hp. intros u1 [= <-] _. by eapply (begins_call heap).
Qed.

Theorem caller_begins t c s o : inv s → user_begin heap t c s = Some o → safe s o.
Proof.
  intros Hv H. unfold user_begin in H. destruct (idle_user t s) eqn:Hi; [| done]. destruct (free s) eqn:Hfree; [| done]. cbn [negb orb] in H.
  unfold free in Hfree. apply bool_decide_eq_true in Hfree as Hl. destruct (idle_mine t s Hv Hi) as [Ht Hm].
  pose proof (inv_invt heap t s Hv) as Hvt. pose proof (goes_refl heap t s Hvt) as Hrefl.
  assert (∀ p s1, goes t s s1 → mine t None s1 → match p with UserInitialized _ | UserStopped | UserFuture _ | UserReplaced _ => True | UserStopping StopEnter _ => True | _ => False end →
    safe s (Val (set_user t p s1))) as Hback by (intros p s1 Hg Hm1 Hp; eexists; split; [reflexivity | by apply user_back]).
  assert (∀ joining s1, goes t s s1 → mine t None s1 → safe s (Val (stopped_user t joining s1))) as Hstopped.
  { intros joining s1 Hg Hm1. unfold stopped_user. apply Hback; [| by destruct joining | done]. destruct joining; [| done].
    eapply goes_trans; [exact Hg |]. intros Hv1. by apply waiters_change. }
  assert (∀ joining, safe s (chain (request_stop_locked s) (λ x, Val (if x.1 : bool then set_user t (UserStopping StopEnter joining) x.2 else stopped_user t joining x.2)))) as Hstop.
  { intros joining. destruct (request_stop_safe heap t s Hv Hl) as (b & s1 & -> & Hg & Hm1 & _). cbn [chain]. destruct b; [apply Hback | apply Hstopped]; auto. }
  destruct c as [c | | | | rules |].
  - injection H as <-. destruct (decide _) as [[He Hp] |]; [| by apply Hback]. eexists. split; [reflexivity |].
    assert (nobody_initializes s) as Hn by (intros t1 c1 E; destruct (proj1 (iv_init _ _ _ Hv) _ _ E); congruence).
    destruct (init_begun s Hv He Hn true) as [Hv1 Hr1]. apply user_turn; [done | by split; [apply inv_invt |] | | done | done].
    split; [done |]. split; [done |]. intros t1 c1 E. by destruct (Hn t1 c1).
  - injection H as <-. apply (Hstop false).
  - injection H as <-. apply (Hstop true).
  - destruct (state_ s); try done; injection H as <-; try (by apply Hback); by apply (Hstopped true).
  - destruct (admit_update s) as [e |] eqn:Ea; injection H as <-; [by apply Hback |].
    unfold admit_update in Ea. destruct (state_ s) eqn:Es; try done. destruct (runtime_updates_enabled _); [| done]. destruct (update_admission_open_ s); [| done].
    destruct (filter_updates_ s) eqn:Hf; [| done]. refine (call_begins t (Update.SubmitReplace t rules) SubmitCall UserSubmitting s Hv Ht Hm Hl Hf eq_refl eq_refl _ eq_refl _ _ _);
      [done | cbn; by rewrite Es, Hf | intros u; apply submit_begins | by rewrite Es].
  - destruct (filter_updates_ s) eqn:Hf; injection H as <-; [| by apply Hback]. refine (call_begins t (Update.RequestTerminalDetach t) SealTerminal UserDetaching s Hv Ht Hm Hl Hf eq_refl eq_refl _ eq_refl Hf _ _); [done | |].
    + intros u Hi1. cbn [Update.update_act]. rewrite Hi1. by eexists.
    + intros u u' _ E. cbn [Update.update_act] in E. destruct (Update.idle t u); [| done]. by injection E as <-.
Qed.

(** ** The steps of the methods *)

(** A step in a call of the controller; the caller stays where it is. *)
Lemma call_steps t k p now b s o : inv s → users s !! t = Some p → user_calling s (Some p) = Some k → user_holding (Some p) = true →
  filter_updates_ s = true → match p with UserSubmitting => k = SubmitCall | UserDetaching => k = SealTerminal | _ => False end →
  advance heap t now b s = Some o → safe s o.
Proof.
  intros Hv Hp Hk Hh Hf Hpk Ha. pose proof (user_above _ _ _ Hv Hp) as Ht. pose proof (inv_invt heap t s Hv) as Hvt.
  pose proof (mine_open heap t s Hv ltac:(lia)) as Hm. rewrite calling_user, Hp, Hk in Hm by done.
  destruct (advance_safe heap t k now b s o Hvt ltac:(lia) Hf Hm) as (u' & -> & Hg & Hst & Hm1); [| done |].
  { destruct p; try done; subst k; [| done]. by apply (iv_submitting _ _ _ Hv _ Hp). }
  eexists. split; [reflexivity |]. destruct Hg as [[Hv1 H31] Hr]. split; [| done].
  apply (invx_close heap t); [done | | | intros -> ; lia | intros ->; lia].
  - rewrite calling_user by done. change (users (put_updates u' s)) with (users s). rewrite Hp.
    change (user_calling (put_updates u' s) (Some p)) with (user_calling s (Some p)). rewrite Hk. exact Hm1.
  - intros _. change (lifecycle_owner s = Some t). apply (lock_open heap t s Hv). by rewrite holding_user, Hp.
Qed.

Theorem caller_steps t now b s o : inv s → user_step heap inet_pton t now b s = Some o → safe s o.
Proof.
  intros Hv H. unfold user_step in H. destruct (users s !! t) as [p |] eqn:Hp; [| done].
  pose proof (user_above _ _ _ Hv Hp) as Ht. pose proof (inv_invt heap t s Hv) as Hvt.
  pose proof (mine_open heap t s Hv ltac:(lia)) as Hm. rewrite calling_user, Hp in Hm by done.
  pose proof (lock_open heap t s Hv) as Hl. rewrite holding_user, Hp in Hl by done.
  assert (∀ p' s1, user_holding (Some p) = true → mine t None s1 → s1 = set_lifecycle_owner None s →
    match p' with UserStopped | UserFuture _ => True | _ => False end → safe s (Val (set_user t p' s1))) as Hreturn.
  { intros p' s1 Hh Hm1 -> Hp'. eexists. split; [reflexivity |]. apply user_back; [done | | done | by destruct p'].
    apply lock_change; [done | lia | right; by apply Hl]. }
  destruct p as [c | | p joining | | | | id |]; try done.
  - assert (when (free s) (let '(r, s1) := finish_init heap inet_pton c b s in Val (set_user t (UserInitialized r) s1)) = Some o) as Hw
      by (destruct b; try exact H; destruct (negb _); [done | exact H]). clear H.
    unfold when, free in Hw. case_bool_decide as Hfree; [| done]. injection Hw as <-. pose proof (init_finishes t s c b Hv Hp Hfree) as Hi.
    destruct (finish_init heap inet_pton c b s). by eexists.
  - destruct (stop_step heap t p s) as [o1 |] eqn:Ho; [| done]. injection H as <-.
    destruct (stop_step_safe heap t p s o1 Hvt ltac:(lia)) as (q & s1 & -> & Hg & (_ & _ & _ & Hus & _) & Hm1 & Hl1); [| done | done |].
    { intros u Hu Hf. specialize (Hm u Hu Hf). cbn in Hm. by rewrite Hf in Hm. }
    eexists. split; [reflexivity |]. cbn [fst snd]. destruct q as [q |].
    + apply user_turn; [done | done | done | | by destruct q; intros Hh; apply Hl1].
      intros u Hu Hf. cbn. rewrite Hf. by apply Hm1.
    + unfold stopped_user. apply user_back; [done | | by destruct joining | done]. destruct joining; [| done].
      eapply goes_trans; [exact Hg |]. intros Hv1. by apply waiters_change.
  - assert (filter_updates_ s = true) as Hf by (apply (iv_calling _ _ _ Hv t); by left).
    destruct (call_result t s) as [r |] eqn:Hr; [| by eapply (call_steps t SubmitCall)]. destruct (updates_there heap t s Hvt Hf) as (u & Hu & _).
    destruct (Hm u Hu Hf) as (c & Hc & Hk). pose proof Hr as Hr1. unfold call_result in Hr1. rewrite Hu, Hc in Hr1.
    destruct c as [| | | | | | | | x]; try done. injection Hr1 as ->. destruct r; try done. injection H as <-.
    apply Hreturn; [done | | done | done]. apply (mine_same _ _ s), (returned_idle _ SubmitCall); [done | done | done | by rewrite Hr].
  - assert (filter_updates_ s = true) as Hf by (apply (iv_calling _ _ _ Hv t); by right).
    destruct (call_result t s) as [r |] eqn:Hr; [injection H as <- | by eapply (call_steps t SealTerminal)].
    apply Hreturn; [done | | done | done]. apply (mine_same _ _ s), (returned_idle _ SealTerminal); [done | done | done | by rewrite Hr].
  - destruct (match updates s with Some u => _ | None => _ end) as [r |]; [| done]. unfold when in H. destruct (free s); [| done]. injection H as <-.
    destruct (show_version_safe heap t r s Hvt) as [Hg _]. eexists. split; [reflexivity |]. apply user_back; [done | done | | done].
    unfold show_version. destruct r; [| done]. by repeat case_match.
Qed.

(** ** All the events *)
Lemma goes_inv s s' : goes 0 s s' → inv s' ∧ rely s s'.
Proof. intros [[Hv _] Hr]. by split. Qed.

Lemma postcommit_injected s u u' : inv s → updates s = Some u → filter_updates_ s = true →
  Update.update_act heap Update.InjectPostcommitFailure u = Some u' → goes 0 s (put_updates u' s).
Proof.
  intros Hv Hu Hf Ha. pose proof (iv_updates _ _ _ Hv _ Hu) as (Hact & w0 & Hst & Hlen). pose proof Ha as Ha1. cbn in Ha1. injection Ha1 as Hu'.
  destruct (updates_change heap 0 s u u' Hv Hu Hf) as (Hv' & Hr & H3); try (by rewrite <- Hu'); try done.
  - split; [by eapply act_active |]. exists w0. split; [by eapply update_state_act | done].
  - intros c. rewrite <- Hu'. exact (iv_owner _ _ _ Hv u c Hu).
  - split; [by split | apply Hr]. by rewrite <- Hu'.
Qed.

Theorem event_safe v s s' : inv s → event heap inet_pton v s = Some s' → inv s' ∧ rely s s'.
Proof.
  intros Hv H. unfold event in H. destruct (event_outcome heap inet_pton v s) as [o |] eqn:Ho; [| done].
  assert (safe s o) as (s1 & -> & Hv1 & Hr1); [| by injection H as <-]. clear H.
  pose proof (inv_invt heap 0 s Hv) as Hvt.
  destruct v as [t c | t now b | now b | now | e | v | a | | f]; cbn [event_outcome] in Ho.
  - by eapply caller_begins.
  - by eapply caller_steps.
  - by eapply coordinator_safe.
  - by eapply reclaimer_safe.
  - by eapply supervisor_safe.
  - destruct (supervisor_ s) as [x |] eqn:Hx; [| done]. destruct (worker_event v s) eqn:Hw; [| done].
    destruct (Supervisor.external_step heap v x) as [x' |] eqn:E; [| done]. injection Ho as <-. eexists. split; [reflexivity |].
    apply goes_inv. eapply supervisor_goes; [done | done | exact E |]. by destruct v.
  - destruct (control_ s) as [c |] eqn:Hc; [| done]. destruct (updates s) as [u |] eqn:Hu; [| done].
    destruct (injected a) eqn:Hi; [| done]. destruct (Publication.act heap a (Update.world u)) as [w |] eqn:Ha; [| done]. injection Ho as <-.
    eexists. split; [reflexivity |]. apply goes_inv. destruct (control_complete heap 0 s Hvt) as [Hf _]; [by rewrite Hc |].
    eapply (environment_goes heap 0); try done; by destruct a.
  - destruct (filter_updates_ s) eqn:Hf; [| done]. destruct (updates s) as [u |] eqn:Hu; [| done].
    destruct (Update.update_act heap Update.InjectPostcommitFailure u) as [u' |] eqn:Ha; [| done]. injection Ho as <-.
    eexists. split; [reflexivity |]. by apply goes_inv, (postcommit_injected s u).
  - destruct (faults_ s) as [f0 |] eqn:Hf; [| done]. injection Ho as <-. eexists. split; [reflexivity |].
    apply goes_inv. apply faults_change; [done | by rewrite Hf].
Qed.
End callers.
