(* ===== verification/ServiceOwner.v ===== *)
(** * The caller that has [startup_mutex_]

    Triples of its programs among the events of the others: it never touches a part that is
    not there and it throws nothing.  [know l]: the service runs and the facts [l] hold; all of
    them last while others step. *)
From stdpp Require Import relations functions.
From Stdlib Require Import Strings.Byte.
From S2P Require Import Prelude DomainBlocklist FilterPublication PublicationClaims FilterUpdateController UpdateInvariant UpdateClaims Concurrency WorkerSupervisor SupervisorInvariant SupervisorThread SupervisorMonitor SupervisorRun SupervisorClaims SupervisorFrame UpdateFrame DnsService ServiceInvariant ServiceSteps.
Import Service.
#[local] Existing Instance Service.M_ret.
#[local] Existing Instance Service.M_bind.

Section owner.
Context {F : Type}.
Variable heap : nat → FilterContext F.
Notation inv := (ServiceInvariant.inv heap).
Notation rely := (ServiceInvariant.rely heap).
Notation wp := (Concurrency.wp inv rely).

(** ** Triples *)
Class Lasting (P : State → Prop) := lasting : ∀ s s', inv s → inv s' → rely s s' → P s → P s'.

Definition spec {A} (P : State → Prop) (m : M A) (Q : A → State → Prop) : Prop := ∀ s, inv s → P s →
  wp m (λ o s, match o with Val a => Q a s | _ => False end) s.

Lemma triple_conseq {A} (P P' : State → Prop) (m : M A) Q Q' : spec P' m Q' →
  (∀ s, inv s → P s → P' s) → (∀ a s, inv s → Q' a s → Q a s) → spec P m Q.
Proof. intros H HP HQ s Hv Hs. eapply wp_mono; [| by apply H; auto]. intros [a | e |] s' Hv' H'; auto. Qed.
Lemma triple_pre {A} (P P' : State → Prop) (m : M A) Q : spec P' m Q → (∀ s, inv s → P s → P' s) → spec P m Q.
Proof. intros H HP. by eapply triple_conseq. Qed.
Lemma triple_post {A} P (m : M A) (Q Q' : A → State → Prop) : spec P m Q' → (∀ a s, inv s → Q' a s → Q a s) → spec P m Q.
Proof. intros H HQ. by eapply triple_conseq. Qed.

Lemma triple_ret {A} (a : A) (Q : A → State → Prop) : Lasting (Q a) → spec (Q a) (mret a) Q.
Proof. intros HQ s Hv Hs s' Hr Hv'. by apply (HQ s s'). Qed.

Lemma triple_value {A} (a : A) (P : State → Prop) (Q : A → State → Prop) : Lasting (Q a) → (∀ s, inv s → P s → Q a s) → spec P (mret a) Q.
Proof. intros HQ H. eapply triple_pre; [by apply triple_ret | exact H]. Qed.

Lemma triple_bind {A C} P (m : M A) (k : A → M C) Q R : spec P m Q → (∀ a, spec (Q a) (k a) R) → spec P (m ≫= k) R.
Proof.
  intros Hm Hk s Hv Hs. apply wp_bind; [apply _ | | done]. eapply wp_mono; [| by apply Hm].
  intros [a | e |] s' Hv' H; [by apply Hk | done..].
Qed.

(** What an action that does not wait does. *)
Definition does {A} (o : outcome unit (A * State)) (Q : A → State → Prop) : Prop := ∃ a s, o = Val (a, s) ∧ inv s ∧ Q a s.

Lemma triple_action {A} (P : State → Prop) (f : Input → State → option (outcome unit (A * State))) (Q : A → State → Prop) :
  Lasting P → (∀ a, Lasting (Q a)) → (∀ e s o, inv s → P s → f e s = Some o → does o Q) → spec P (action f) Q.
Proof.
  intros HP HQ H s Hv Hs s1 Hr Hv1 e x s2 E. specialize (H e s1). destruct (f e s1) as [o |] eqn:Ef; [| done].
  destruct (H o Hv1 (HP s s1 Hv Hv1 Hr Hs) eq_refl) as (a & s' & -> & Hv' & Hq). injection E as <- <-. split; [done |].
  intros s3 Hr3 Hv3. by apply (HQ a s' s3).
Qed.

Lemma triple_atomically {A} (P : State → Prop) (f : Input → State → outcome unit (A * State)) (Q : A → State → Prop) :
  Lasting P → (∀ a, Lasting (Q a)) → (∀ e s, inv s → P s → does (f e s) Q) → spec P (atomically f) Q.
Proof. intros HP HQ H. apply triple_action; [done.. |]. intros e s o Hv Hs [= <-]. by apply H. Qed.

Lemma triple_section {A} (P : State → Prop) (f : State → outcome unit (A * State)) (Q : A → State → Prop) :
  Lasting P → (∀ a, Lasting (Q a)) → (∀ s, inv s → P s → lifecycle_owner s = None → does (f s) Q) → spec P (section f) Q.
Proof.
  intros HP HQ H. apply triple_action; [done.. |]. intros e s o Hv Hs E. destruct (lifecycle_owner s) eqn:El; [done |]. injection E as <-. by apply H.
Qed.

Lemma triple_look {A} (P : State → Prop) (f : State → outcome unit A) (Q : A → State → Prop) :
  Lasting P → (∀ a, Lasting (Q a)) → (∀ s, inv s → P s → ∃ a, f s = Val a ∧ Q a s) → spec P (look f) Q.
Proof.
  intros HP HQ H. apply triple_atomically; [done.. |]. intros e s Hv Hs. destruct (H s Hv Hs) as (a & E & Hq). exists a, s. rewrite E. done.
Qed.

Lemma triple_loop {X} (P : State → Prop) (body : M (option X)) (Q : X → State → Prop) : Lasting P → (∀ x, Lasting (Q x)) →
  spec P body (λ o s, match o with Some x => Q x s | None => P s end) → spec P (loop body) Q.
Proof.
  intros HP HQ H s Hv Hs. exists (λ s, inv s ∧ P s). split; [done |]. split.
  { intros s1 s2 [Hv1 H1] Hr Hv2. split; [done | by apply (HP s1 s2)]. }
  intros s1 Hv1 [_ H1]. apply wp_bind; [apply _ | | done]. eapply wp_mono; [| by apply H].
  intros [[x |] | e |] s2 Hv2 H2; [| | done..]; intros s3 Hr3 Hv3; cbn.
  - intros s4 Hr4 Hv4. apply (HQ x s3 s4); try done. by apply (HQ x s2 s3).
  - split; [done | by apply (HP s2 s3)].
Qed.

#[export] Instance and_lasting P Q : Lasting P → Lasting Q → Lasting (λ s, P s ∧ Q s).
Proof. intros H1 H2 s s' Hv Hv' Hr [HP HQ]. split; [exact (H1 s s' Hv Hv' Hr HP) | exact (H2 s s' Hv Hv' Hr HQ)]. Qed.
#[export] Instance pure_lasting φ : Lasting (λ _, φ).
Proof. by intros s s'. Qed.
#[export] Instance impl_lasting φ P : Lasting P → Lasting (λ s, φ → P s).
Proof. intros H s s' Hv Hv' Hr HP Hφ. exact (H s s' Hv Hv' Hr (HP Hφ)). Qed.
#[export] Instance or_lasting P Q : Lasting P → Lasting Q → Lasting (λ s, P s ∨ Q s).
Proof. intros H1 H2 s s' Hv Hv' Hr [HP | HQ]; [left; exact (H1 s s' Hv Hv' Hr HP) | right; exact (H2 s s' Hv Hv' Hr HQ)]. Qed.
#[export] Instance exist_lasting {A} (P : A → State → Prop) : (∀ a, Lasting (P a)) → Lasting (λ s, ∃ a, P a s).
Proof. intros H s s' Hv Hv' Hr [a HP]. exists a. exact (H a s s' Hv Hv' Hr HP). Qed.

(** ** Facts *)
Inductive Fact :=
  | Idle | Closed | Sealed | NotActive | Failing
  | CoordinatorKept | ReclaimerKept | SupervisorKept
  | CoordinatorFree | ReclaimerFree | SupervisorFree
  | CoordinatorGone | ReclaimerGone | SupervisorGone
  | HasSupervisor | NoSupervisor | Fresh | Joined
  | Known | Reclaimed | NothingInflight.
#[export] Instance Fact_eq_dec : EqDecision Fact.
Proof. solve_decision. Defined.

(** The supervisor without thread C holds no snapshot for a worker it has not. *)
Definition at_rest (s : State) : Prop := ∀ x, supervisor_ s = Some x → settled (Supervisor.config_ x) None x.

(** [CoordinatorKept]: the member holds the thread, if there is one; [CoordinatorFree]: it
    holds none.  [Known]: [reclaimer_available] says whether B is there.  [Fresh]: the supervisor
    has not begun; [Joined]: its workers have been joined. *)
Definition fact (f : Fact) (s : State) : Prop :=
  match f with
  | Idle => owner_idle s
  | Closed => update_admission_open_ s = false
  | Sealed => ∀ u, updates s = Some u → sealed u
  | NotActive => state_ s ≠ Active ∧ stop_cause_ s ≠ Fatal
  | Failing => stop_cause_ s = Explicit ∨ stop_cause_ s = StartupFailure
  | CoordinatorKept => coordinator_thread_ s = false ↔ coordinator_run s = None
  | ReclaimerKept => reclaimer_thread_ s = false ↔ reclaimer_run s = None
  | SupervisorKept => (supervisor_thread_ s = false ↔ supervisor_run s = None) ∧ (supervisor_run s = None → at_rest s)
  | CoordinatorFree => coordinator_thread_ s = false
  | ReclaimerFree => reclaimer_thread_ s = false
  | SupervisorFree => supervisor_thread_ s = false
  | CoordinatorGone => coordinator_run s = None
  | ReclaimerGone => reclaimer_run s = None
  | SupervisorGone => supervisor_run s = None ∧ at_rest s
  | HasSupervisor => is_Some (supervisor_ s)
  | NoSupervisor => supervisor_ s = None
  | Fresh => supervisor_run s = None ∧ ∃ x, supervisor_ s = Some x ∧ start_of (Supervisor.config_ x) x
  | Joined => supervisor_run s = None ∧ ∀ x, supervisor_ s = Some x → inactive x ∧ all_recs (λ _, offline) x
  | Known => reclaimer_available s = false ↔ reclaimer_run s = None
  | Reclaimed => coordinator_run s = None ∧ ∀ u, updates s = Some u → reclaimed (Update.world u)
  | NothingInflight => coordinator_run s = None ∧ ∀ u, updates s = Some u → Update.inflight_ (Update.controller u) = None
  end.

Definition know (l : list Fact) (s : State) : Prop := running (state_ s) = true ∧ Forall (λ f, fact f s) l.

Lemma know_fact f l s : know l s → f ∈ l → fact f s.
Proof. intros [_ H] Hf. rewrite list.Forall_forall in H. by apply H. Qed.
Lemma know_weaken l l' s : know l s → l' ⊆ l → know l' s.
Proof. intros [Hr H] Hs. split; [done |]. rewrite list.Forall_forall in *. intros f Hf. apply H, Hs, Hf. Qed.
Lemma know_add f l s : know l s → fact f s → know (f :: l) s.
Proof. intros [Hr H] Hf. split; [done |]. by constructor. Qed.

(** What a step does to the controller, as far as fact [f] is concerned. *)
Record holds_for (f : Fact) (gone : Prop) (u u' : Update.UpdateWorld) : Prop := {
  hf_sealed : sealed u → sealed u';
  hf_idle : f = Idle → Update.idle 0 u = true → Update.idle 0 u' = true;
  hf_reclaimed : f = Reclaimed → gone → reclaimed (Update.world u) → reclaimed (Update.world u');
  hf_inflight : f = NothingInflight → gone → Update.inflight_ (Update.controller u) = None → Update.inflight_ (Update.controller u') = None;
}.

(** Steps that leave the members, the threads and the life cycle. *)
Record level (s s' : State) : Prop := {
  lv_running : running (state_ s) = true → running (state_ s') = true;
  lv_active : running (state_ s) = true → state_ s ≠ Active → state_ s' ≠ Active ∧ (stop_cause_ s ≠ Fatal → stop_cause_ s' ≠ Fatal);
  lv_cause : stop_cause_ s ≠ NoCause → stop_cause_ s' = stop_cause_ s;
  lv_admission : update_admission_open_ s = false → update_admission_open_ s' = false;
  lv_members : coordinator_thread_ s' = coordinator_thread_ s ∧ reclaimer_thread_ s' = reclaimer_thread_ s ∧
    supervisor_thread_ s' = supervisor_thread_ s ∧ reclaimer_available s' = reclaimer_available s;
  lv_runs : (coordinator_run s' = None ↔ coordinator_run s = None) ∧ (reclaimer_run s' = None ↔ reclaimer_run s = None) ∧
    (supervisor_run s' = None ↔ supervisor_run s = None);
  lv_supervisor : match supervisor_ s with
    | None => supervisor_ s' = None
    | Some x => ∃ x', supervisor_ s' = Some x' ∧ Supervisor.config_ x' = Supervisor.config_ x ∧ (supervisor_run s = None → alone heap x x')
    end;
}.

Lemma rely_level s s' : rely s s' → level s s'.
Proof.
  intros []. split; try done; [by auto | by intros H; apply rl_cause |]. destruct (supervisor_ s); [| done]. destruct rl_supervisor as (x' & ? & ? & _ & ?). by exists x'.
Qed.

(** A supervisor without thread C. *)
Lemma supervisor_alone s s' x : inv s → level s s' → supervisor_ s = Some x → supervisor_run s = None →
  ∃ x' p0, supervisor_ s' = Some x' ∧ Supervisor.config_ x' = Supervisor.config_ x ∧ alone heap x x' ∧
    SupervisorInvariant.inv heap (Supervisor.config_ x) p0 x ∧ SupervisorInvariant.inv heap (Supervisor.config_ x) p0 x'.
Proof.
  intros Hv Hr Hx Hn. pose proof (lv_supervisor _ _ Hr) as H. rewrite Hx in H. destruct H as (x' & Hx' & Hc & Ha). specialize (Ha Hn).
  destruct (iv_supervisor _ _ _ Hv ltac:(done) x Hx) as (_ & _ & _ & _ & p0 & Hi & _). exists x', p0. split_and!; try done. by apply Ha.
Qed.

Lemma at_rest_moves s s' : inv s → level s s' → supervisor_run s = None → at_rest s → at_rest s'.
Proof.
  intros Hv Hr Hn H x' Hx'. destruct (supervisor_ s) as [x |] eqn:Hx; [| pose proof (lv_supervisor _ _ Hr) as Hs; rewrite Hx in Hs; congruence].
  destruct (supervisor_alone _ _ _ Hv Hr Hx Hn) as (x1 & p0 & Hx1 & Hc & [Hre _] & Hi & Hi'). rewrite Hx' in Hx1. injection Hx1 as ->.
  rewrite Hc. apply (stable_use heap (Supervisor.config_ x) p0 (settled (Supervisor.config_ x) None) x x1); auto.
Qed.

Lemma running_complete s : inv s → running (state_ s) = true → complete s.
Proof. intros Hv Hrun. pose proof (iv_parts _ _ _ Hv) as Hp. unfold parts in Hp. by destruct (state_ s). Qed.

Definition update_facts : list Fact := [Idle; Sealed; Reclaimed; NothingInflight].

Lemma fact_moves f s s' : inv s → level s s' → (f = NotActive → running (state_ s) = true) →
  (f ∈ update_facts → ∀ u', updates s' = Some u' → ∃ u, updates s = Some u ∧ holds_for f (coordinator_run s = None) u u') → fact f s → fact f s'.
Proof.
  intros Hv Hr Hrun Hu H. destruct (lv_members _ _ Hr) as (Em1 & Em2 & Em3 & Em4). destruct (lv_runs _ _ Hr) as (Er1 & Er2 & Er3).
  destruct f; cbn [fact] in *; rewrite ?Em1, ?Em2, ?Em3, ?Em4, ?Er1, ?Er2, ?Er3; try done.
  - intros u' Hu'. destruct (Hu ltac:(unfold update_facts; set_solver) u' Hu') as (u & Hu0 & Hk). by apply (hf_idle _ _ _ _ Hk), H.
  - by apply (lv_admission _ _ Hr).
  - intros u' Hu'. destruct (Hu ltac:(unfold update_facts; set_solver) u' Hu') as (u & Hu0 & Hk). by apply (hf_sealed _ _ _ _ Hk), H.
  - destruct H as [H1 H2]. destruct (lv_active _ _ Hr (Hrun eq_refl) H1) as [? Hc]. auto.
  - by rewrite (lv_cause _ _ Hr) by by destruct H as [-> | ->].
  - destruct H as [H1 H2]. split; [done |]. intros Hn. by apply (at_rest_moves s); auto.
  - destruct H as [Hn H]. split; [done |]. by apply (at_rest_moves s).
  - pose proof (lv_supervisor _ _ Hr) as Hs. destruct H as [x Hx]. rewrite Hx in Hs. destruct Hs as (x' & Hx' & _). by exists x'.
  - pose proof (lv_supervisor _ _ Hr) as Hs. by rewrite H in Hs.
  - destruct H as [Hn (x & Hx & Hst)]. split; [done |]. destruct (supervisor_alone _ _ _ Hv Hr Hx Hn) as (x' & p0 & Hx' & Hc & [Hre _] & Hi & Hi').
    exists x'. split; [done |]. rewrite Hc. by apply (stable_use heap (Supervisor.config_ x) p0 (start_of (Supervisor.config_ x)) x x').
  - destruct H as [Hn H]. split; [done |]. intros x' Hx'. pose proof (lv_supervisor _ _ Hr) as Hs.
    destruct (supervisor_ s) as [x |] eqn:Hx; [| congruence]. destruct (supervisor_alone _ _ _ Hv Hr Hx Hn) as (x1 & p0 & Hx1 & Hc & [Hre _] & Hi & Hi').
    rewrite Hx' in Hx1. injection Hx1 as ->. destruct (H x eq_refl) as [H1 H2]. split.
    + unfold inactive in *. by rewrite (rely_active _ _ Hre).
    + by apply (stable_use heap (Supervisor.config_ x) p0 (all_recs (λ _, offline)) x x1).
  - destruct H as [Hn H]. split; [done |]. intros u' Hu'. destruct (Hu ltac:(unfold update_facts; set_solver) u' Hu') as (u & Hu0 & Hk).
    apply (hf_reclaimed _ _ _ _ Hk); [done.. | by apply H].
  - destruct H as [Hn H]. split; [done |]. intros u' Hu'. destruct (Hu ltac:(unfold update_facts; set_solver) u' Hu') as (u & Hu0 & Hk).
    apply (hf_inflight _ _ _ _ Hk); [done.. | by apply H].
Qed.

(** Facts that a step may end. *)
Lemma know_moves l (ended : list Fact) s s' : inv s → level s s' →
  (∀ f u', f ∉ ended → updates s' = Some u' → ∃ u, updates s = Some u ∧ holds_for f (coordinator_run s = None) u u') →
  Forall (.∉ ended) l → know l s → know l s'.
Proof.
  intros Hv Hr Hu Hl [Hrun H]. split; [by apply (lv_running _ _ Hr) |]. rewrite list.Forall_forall in *.
  intros f Hf. apply (fact_moves f s s'); auto.
Qed.

Lemma rely_updates f s s' u' : inv s → rely s s' → running (state_ s) = true → updates s' = Some u' →
  ∃ u, updates s = Some u ∧ holds_for f (coordinator_run s = None) u u'.
Proof.
  intros Hv Hr Hrun Hu'. destruct (running_complete s Hv Hrun) as (_ & _ & _ & _ & u & Hu).
  exists u. split; [done |]. destruct (rl_calls _ _ _ Hr u Hrun Hu) as (u1 & E & Hk). rewrite Hu' in E. injection E as <-.
  destruct Hk. split; auto.
  - intros _. unfold Update.idle. by rewrite ck_owner.
  - intros _ Hg. by rewrite ck_inflight.
Qed.

#[export] Instance know_lasting l : Lasting (know l).
Proof.
  intros s s' Hv Hv' Hr Hk. apply (know_moves l [] s); [done | by apply rely_level | | by apply list.Forall_forall; intros f _ ?%not_elem_of_nil | done].
  intros f u' _. apply rely_updates; [done | done | apply Hk].
Qed.

(** What holds between the calls. *)
Definition at_boundary (s : State) : Prop := owner_idle s ∧ fact CoordinatorKept s ∧ fact ReclaimerKept s ∧ fact SupervisorKept s.

Lemma kept_lasting f : f ∈ [CoordinatorKept; ReclaimerKept; SupervisorKept; Failing] → Lasting (fact f).
Proof.
  intros Hf s s' Hv Hv' Hr. apply fact_moves; [done | by apply rely_level | by intros ->; set_solver |].
  intros Hu. exfalso. unfold update_facts in Hu. set_solver.
Qed.
#[export] Instance failing_lasting : Lasting (fact Failing).
Proof. apply kept_lasting. set_solver. Qed.
#[export] Instance boundary_lasting : Lasting at_boundary.
Proof.
  intros s s' Hv Hv' Hr (H1 & H2 & H3 & H4). split; [by apply (rl_idle _ _ _ Hr) |].
  split_and!; [apply (kept_lasting CoordinatorKept) with s | apply (kept_lasting ReclaimerKept) with s | apply (kept_lasting SupervisorKept) with s]; try done; set_solver.
Qed.

Lemma know_goes l s s' : inv s → know l s → goes heap 0 s s' → inv s' ∧ know l s'.
Proof. intros Hv Hk [[Hv' _] Hr]. split; [done | by apply (know_lasting l s s')]. Qed.

(** Changes of what the facts are not about. *)
Lemma know_same l s s' : inv s → know l s → state_ s' = state_ s → stop_cause_ s' = stop_cause_ s → update_admission_open_ s' = update_admission_open_ s →
  coordinator_thread_ s' = coordinator_thread_ s → reclaimer_thread_ s' = reclaimer_thread_ s → supervisor_thread_ s' = supervisor_thread_ s →
  reclaimer_available s' = reclaimer_available s → coordinator_run s' = coordinator_run s → reclaimer_run s' = reclaimer_run s →
  supervisor_run s' = supervisor_run s → supervisor_ s' = supervisor_ s → updates s' = updates s → know l s'.
Proof.
  intros Hv Hk Es Eca Ea E1 E2 E3 E4 E5 E6 E7 E8 E9. apply (know_moves l [] s); [done | | | by apply list.Forall_forall; intros f _ ?%not_elem_of_nil | done].
  - split; rewrite ?Es, ?Eca, ?Ea, ?E5, ?E6, ?E7, ?E8; try done. destruct (supervisor_ s) as [x |]; [by exists x | done].
  - intros f u' _ Hu'. exists u'. rewrite <- E9. split; [done |]. by split.
Qed.

(** [lifecycle_mutex_]. *)
Lemma owner_locks v s : inv s → lifecycle_owner s = None ∨ lifecycle_owner s = Some 0%nat → inv (set_lifecycle_owner v s).
Proof.
  intros [H01 H02 H03 H04 H05 H06 H07 H08 H09 H10 H11 H12 H13 H14 H15 H16 H17 H18] Ho. split; try done.
  intros t Ht Hh. specialize (H15 t Ht Hh). destruct Ho; congruence.
Qed.

Definition controls : list Fact := [Idle; NothingInflight].

Lemma owner_acts a s u u' : inv s → running (state_ s) = true → updates s = Some u →
  Update.update_act heap a u = Some u' → match a with Update.Environment _ => False | _ => True end →
  (∀ t, t ≠ 0%nat → Update.calls u' !! t = Update.calls u !! t) → (∀ c, Update.calls u' !! 0%nat = Some c → owner_call_ok c = true) →
  (∀ t now b c, a = Update.Advance t now b → Update.calls u !! t = Some c → running_call c = false) →
  inv (put_updates u' s) ∧ ∀ l, Forall (.∉ controls) l → know l s → know l (put_updates u' s).
Proof.
  intros Hv Hrun Hu Ha Henv Hother Hown Hquiet. destruct (running_complete s Hv Hrun) as [Hf _].
  pose proof (iv_updates _ _ _ Hv _ Hu) as (Hact_ok & w0 & Hst & Hlen).
  destruct (update_state_inv heap _ _ _ Hst) as (Hui & Hinv & _). pose proof (ui_ctl _ _ _ _ Hui) as Hctl.
  pose proof (update_publishing heap w0 a u u' Hinv Hctl Henv Ha) as Hpub. pose proof (publishing_publishers heap _ _ Hpub) as Hps.
  destruct (updates_change heap 0 s u u' Hv Hu Hf) as (Hv' & _ & _); try done.
  - split; [by eapply act_active |]. exists w0. split; [by eapply update_state_act | done].
  - intros t Ht _. by apply Hother.
  - intros _. by apply (publishing_reclaimer heap).
  - intros E. by rewrite E in Hrun.
  - split; [done |]. intros l Hl Hk. apply (know_moves l controls s); [done | | | done | done].
    + split; try done. cbn. destruct (supervisor_ s) as [x |] eqn:Hx; [| done]. eexists. split; [done |]. split; [done |]. intros _.
      pose proof (supervisor_world heap 0 s x (inv_invt heap 0 s Hv) Hx) as Hok. pose proof Hok as (_ & _ & _ & (u1 & Hu1 & Hp) & _).
      rewrite Hu in Hu1. injection Hu1 as <-. apply (supervisor_publishes heap s x _ Hok). by rewrite Hp.
    + intros f u1 Hf1 [= <-]. exists u. split; [done |]. assert (f ≠ Idle ∧ f ≠ NothingInflight) as [? ?] by (split; intros ->; apply Hf1; set_solver).
      split; try done; [by eapply act_sealed |]. intros _ _. by eapply seals_reclaimed, act_seals.
Qed.

(** *** Calls of the controller *)
Definition owner_kind (k : CallKind) : bool := match k with SealOnly | SealTerminal | SuccessorCall => true | _ => false end.
Definition seals (k : CallKind) : bool := match k with SealOnly | SealTerminal => true | _ => false end.

Definition in_progress (k : CallKind) (s : State) : Prop := running (state_ s) = true ∧ ∃ u c, updates s = Some u ∧
  Update.calls u !! 0%nat = Some c ∧ in_call k c = true ∧ (seals k = true → seal_done c u) ∧ (coordinator_run s = None → successor_done c u).

#[export] Instance in_progress_lasting k : Lasting (in_progress k).
Proof.
  intros s s' Hv _ Hr [Hrun (u & c & Hu & Hc & Hk & Hd & Hs)]. split; [by apply (rl_running _ _ _ Hr) |].
  destruct (rl_calls _ _ _ Hr u Hrun Hu) as (u' & Hu' & Hkept). exists u', c. split_and!; [done | by rewrite (ck_owner _ _ _ Hkept) | done | |].
  - intros Hse E. apply (ck_sealed _ _ _ Hkept). by apply Hd.
  - intros Hg. destruct (rl_runs _ _ _ Hr) as (Er & _). rewrite Er in Hg. specialize (Hs Hg). unfold successor_done in *.
    rewrite (ck_inflight _ _ _ Hkept) by done. exact Hs.
Qed.

Lemma kind_owner k c : owner_kind k = true → in_call k c = true → owner_call_ok c = true ∧ running_call c = false.
Proof.
  intros Hk H. split.
  - unfold owner_call_ok. destruct k; try done; rewrite H; by rewrite ?orb_true_r.
  - by destruct k, c.
Qed.

Lemma controls_free f l : Forall (.∉ controls) l → f ∈ controls → f ∉ l.
Proof. intros H Hf Hin. exact (proj1 (list.Forall_forall _ _) H f Hin Hf). Qed.

Lemma updating s : inv s → running (state_ s) = true → ∃ u, updates s = Some u ∧ the_updates s = Val u.
Proof. intros Hv Hrun. destruct (running_complete s Hv Hrun) as [Hf _]. by apply (updates_there heap 0 s (inv_invt heap 0 s Hv)). Qed.

Lemma owner_begins a k s : inv s → running (state_ s) = true → owner_idle s → actor a = Some 0%nat → begins a = Some k → owner_kind k = true →
  ∃ u u', the_updates s = Val u ∧ Update.update_act heap a u = Some u' ∧ inv (put_updates u' s) ∧ in_progress k (put_updates u' s) ∧
    ∀ l, Forall (.∉ controls) l → know l s → know l (put_updates u' s).
Proof.
  intros Hv Hrun Hi Hact Hbeg Hk. destruct (updating s Hv Hrun) as (u & Hu & Hval). specialize (Hi u Hu).
  assert (∃ c, Update.update_act heap a u = Some (Update.set_call 0 c u) ∧ in_call k c = true ∧ seal_done c u ∧ successor_done c u) as (c & Ha & Hc & Hd1 & Hd2).
  { destruct a; cbn [actor begins] in *; simplify_eq; try done; cbn [Update.update_act]; rewrite Hi; by eexists. }
  destruct (owner_acts a s u _ Hv Hrun Hu Ha) as [Hv' Hkn].
  - by destruct a.
  - intros t Ht. by apply lookup_insert_ne.
  - intros c1 E. cbn in E. rewrite lookup_insert_eq in E. injection E as <-. by apply (kind_owner k).
  - intros t now b c1 ->. done.
  - exists u, (Update.set_call 0 c u). split_and!; try done. split; [done |]. exists (Update.set_call 0 c u), c.
    split_and!; try done. apply lookup_insert_eq.
Qed.

Lemma owner_advances k now s o : inv s → in_progress k s → owner_kind k = true → advance heap 0 now Update.BuilderNull s = Some o →
  ∃ s', o = Val s' ∧ inv s' ∧ in_progress k s' ∧ ∀ l, Forall (.∉ controls) l → know l s → know l s'.
Proof.
  intros Hv [Hrun (u & c & Hu & Hc & Hin & Hd & Hs)] Hk Ha. destruct (updating s Hv Hrun) as (u0 & Hu0 & Hval). rewrite Hu in Hu0. injection Hu0 as <-.
  unfold advance in Ha. rewrite Hval in Ha. destruct (Update.update_act heap (Update.Advance 0 now Update.BuilderNull) u) as [u' |] eqn:E; [| done].
  injection Ha as <-. exists (put_updates u' s). split; [done |]. destruct (advance_call heap _ _ _ _ _ _ _ E Hc Hin) as (c' & Hc' & Hin').
  pose proof (iv_updates _ _ _ Hv _ Hu) as (_ & w0 & Hst & _). destruct (update_state_inv heap _ _ _ Hst) as (Hui & _). pose proof (ui_ctl _ _ _ _ Hui) as Hctl.
  destruct (owner_acts _ s u u' Hv Hrun Hu E) as [Hv' Hkn].
  - done.
  - intros t Ht. eapply act_calls; [exact E | cbn; congruence].
  - intros c1 E1. rewrite Hc' in E1. injection E1 as <-. by apply (kind_owner k).
  - intros t now' b c1 [= <- <- <-] E1. rewrite Hc in E1. injection E1 as <-. by apply (kind_owner k).
  - split_and!; try done. split; [done |]. exists u', c'. split_and!; try done.
    + intros Hse. eapply (seal_returns heap); [exact Hctl | exact Hc | exact E | | exact Hc']. destruct k; try done; by rewrite Hin, ?orb_true_r.
    + intros Hg. destruct k; try done; try (by destruct c' as [| | | | | | | | []]). eapply (successor_returns heap); [exact Hctl | exact Hc | exact E | done | by apply Hs | exact Hc'].
Qed.

Lemma owner_returned k s r : in_progress k s → owner_kind k = true → call_result 0 s = Some r →
  owner_idle s ∧ (seals k = true → know [Sealed] s) ∧
  (k = SuccessorCall → completed r = true → coordinator_run s = None → know [NothingInflight] s).
Proof.
  intros [Hrun (u & c & Hu & Hc & Hin & Hd & Hs)] Hk Hr. unfold call_result in Hr. rewrite Hu, Hc in Hr.
  destruct c as [| | | | | | | | x]; try done. injection Hr as ->. split_and!.
  - intros u1 E. rewrite Hu in E. injection E as <-. unfold Update.idle. by rewrite Hc.
  - intros Hse. split; [done |]. constructor; [| done]. intros u1 E. rewrite Hu in E. injection E as <-. apply Hd; [done |]. by destruct k, r.
  - intros -> Hco Hg. split; [done |]. constructor; [| done]. split; [done |]. intros u1 E. rewrite Hu in E. injection E as <-.
    specialize (Hs Hg). destruct r as [| | | [] |]; try done.
Qed.
End owner.
