(* ===== verification/ServiceTeardown.v ===== *)
(** * The teardown

    [request_runtime_stop_spec]: the stop is passed on to the parts.  [drain_supervisor_spec],
    [drain_coordinator_spec], [drain_reclaimer_spec] and their like: the steps of
    [finish_teardown] that join the threads. *)
From stdpp Require Import relations functions.
From Stdlib Require Import Strings.Byte.
From S2P Require Import Prelude DomainBlocklist FilterPublication PublicationClaims FilterUpdateController UpdateInvariant UpdateClaims Concurrency WorkerSupervisor SupervisorInvariant SupervisorThread SupervisorMonitor SupervisorRun SupervisorClaims SupervisorFrame UpdateFrame DnsService ServiceInvariant ServiceSteps ServiceOwner.
Import Service.
#[local] Existing Instance Service.M_ret.
#[local] Existing Instance Service.M_bind.

(** A lasting assertion, up to the way it is written. *)
#[export] Hint Extern 0 (Lasting _ _) => lazymatch goal with |- Lasting _ (λ s, ?P s) => change (Lasting _ P) end : typeclass_instances.
#[export] Hint Extern 1 (Lasting _ _) => match goal with |- Lasting _ (λ s, match ?x with _ => _ end) => destruct x end : typeclass_instances.

Section teardown.
Context {F : Type}.
Variable heap : nat → FilterContext F.
Notation inv := (ServiceInvariant.inv heap).
Notation rely := (ServiceInvariant.rely heap).
Notation spec := (ServiceOwner.spec heap).
Notation Lasting := (ServiceOwner.Lasting heap).

(** ** Calls of the controller *)
Definition returned (k : CallKind) (l : list Fact) (r : Update.CallResult) (s : State) : Prop :=
  know (Idle :: l) s ∧ (seals k = true → know [Sealed] s) ∧
  (k = SuccessorCall → completed r = true → CoordinatorGone ∈ l → know [NothingInflight] s).
Lemma returned_lasting k l r : Lasting (returned k l r).
Proof. unfold returned. apply _. Qed.

Lemma call_loop_spec {X} k l (f : Update.CallResult → X) (P : State → Prop) : owner_kind k = true → Forall (.∉ controls) l → Lasting P →
  (∀ u s, P s → P (put_updates u s)) →
  spec (λ s, (know l s ∧ in_progress k s) ∧ P s)
    (loop (action (λ e s, match call_result 0 s with
                          | Some r => Some (Val (Some (f r), s))
                          | None => match advance heap 0 (now_ e) Update.BuilderNull s with
                                    | Some o => Some (chain o (λ s, Val (None, s)))
                                    | None => None
                                    end
                          end)))
    (λ x s, (∃ r, x = f r ∧ returned k l r s) ∧ P s).
Proof.
  intros Hk Hl HP Hput. pose proof (returned_lasting k l) as Hret.
  apply triple_loop; [apply _ | intros x; apply _ |]. apply triple_action; [apply _ | intros [x |]; apply _ |].
  intros e s o Hv [[Hkn Hp] Hps] H. destruct (call_result 0 s) as [r |] eqn:Hr.
  - injection H as <-. exists (Some (f r)), s. split; [done |]. split; [done |]. destruct (owner_returned k s r Hp Hk Hr) as (Hi & Hse & Hsu).
    split; [| done]. exists r. split; [done |]. split_and!; [by apply know_add | done |]. intros E1 E2 Hg.
    apply Hsu; [done | done |]. exact (know_fact CoordinatorGone l s Hkn Hg).
  - pose proof H as H0. destruct (advance heap 0 (now_ e) Update.BuilderNull s) as [o' |] eqn:Ha; [| done]. injection H as <-.
    destruct (owner_advances heap k (now_ e) s o' Hv Hp Hk Ha) as (s' & Es & Hv' & Hp' & Hkn'). exists None, s'. rewrite Es. split_and!; auto.
    unfold advance in Ha. destruct (the_updates s); [| congruence..]. destruct (Update.update_act heap _ _); [| done].
    injection Ha as <-. injection Es as <-. by apply Hput.
Qed.

Lemma call_update_spec a k l : actor a = Some 0%nat → begins a = Some k → owner_kind k = true → Forall (.∉ controls) l →
  spec (know (Idle :: l)) (call_update heap a) (returned k l).
Proof.
  intros Ha Hb Hk Hl. pose proof (returned_lasting k l) as Hret. unfold call_update. eapply (triple_bind heap _ _ _ (λ _ s, (know l s ∧ in_progress k s) ∧ True)).
  - apply triple_atomically; [apply _ | intros _; apply _ |]. intros e s Hv Hkn. pose proof (know_fact Idle _ s Hkn ltac:(left)) as Hi.
    destruct (owner_begins heap a k s Hv (proj1 Hkn) Hi Ha Hb Hk) as (u & u' & -> & Ea & Hv' & Hp & Hkn'). cbn [chain]. rewrite Ea. cbn [from_option_ub chain].
    exists (), (put_updates u' s). split_and!; [done | done | | done | done]. apply Hkn'; [done |]. eapply know_weaken; [exact Hkn | set_solver].
  - intros []. eapply triple_post; [apply (call_loop_spec k l (λ r, r)); [done | done | apply _ | done] |].
    cbn. by intros r s _ [(r' & -> & H) _].
Qed.

(** ** [request_runtime_stop] *)
Lemma stop_begins l s : inv s → know (Idle :: l) s → Forall (.∉ controls) l → lifecycle_owner s = None →
  ∃ s', begin_runtime_stop heap 0 s = Val s' ∧ inv s' ∧ (know (Closed :: l) s' ∧ in_progress SealOnly s') ∧ lifecycle_owner s' = Some 0%nat.
Proof.
  intros Hv Hkn Hl Ho. set (s1 := set_update_admission_open false (request_source_stop s)).
  assert (goes heap 0 s s1) as Hg.
  { apply (goes_trans heap 0 s (request_source_stop s)); [by apply source_stop, inv_invt | intros Hv1; by apply admission_closes]. }
  destruct (know_goes heap _ s s1 Hv Hkn Hg) as [Hv1 Hk1]. set (s2 := set_lifecycle_owner (Some 0%nat) s1).
  assert (inv s2) as Hv2 by (apply owner_locks; [done | by left]). assert (know (Closed :: Idle :: l) s2) as Hk2.
  { apply know_add; [| done]. by apply (know_same heap _ s1). }
  destruct (running_complete heap s2 Hv2 (proj1 Hk2)) as [Hf _]. unfold begin_runtime_stop. fold s1 s2. rewrite Hf.
  pose proof (know_fact Idle _ s2 Hk2 ltac:(set_solver)) as Hi.
  destruct (owner_begins heap (Update.SealCall 0) SealOnly s2 Hv2 (proj1 Hk2) Hi eq_refl eq_refl eq_refl) as (u & u' & -> & Ea & Hv' & Hp & Hkn').
  cbn [chain]. rewrite Ea. cbn [from_option_ub chain]. exists (put_updates u' s2). split_and!; [done | done | | done | done].
  apply Hkn'; [by constructor; [set_solver |] | eapply know_weaken; [exact Hk2 | set_solver]].
Qed.

Lemma stop_ends l s : inv s → know l s → lifecycle_owner s = Some 0%nat → inv (end_runtime_stop s) ∧ know l (end_runtime_stop s).
Proof.
  intros Hv Hkn Ho. unfold end_runtime_stop. set (s1 := set_supervisor (Supervisor.set_stop_requested true <$> supervisor_ s) s).
  set (s2 := if supervisor_thread_ s1 then set_supervisor_thread_stop true s1 else s1).
  assert (goes heap 0 s s2) as Hg.
  { apply (goes_trans heap 0 s s1); [by refine (supervisor_flag heap 0 Supervisor.RequestStop (Supervisor.set_stop_requested true) s (inv_invt heap 0 s Hv) _ _) | intros Hv1].
    unfold s2. destruct (supervisor_thread_ s1); [by apply thread_stop_change | by apply goes_refl]. }
  destruct (know_goes heap _ s s2 Hv Hkn Hg) as [Hv2 Hk2]. split; [| by apply (know_same heap _ s2)].
  apply owner_locks; [done |]. right. unfold s2, s1. by destruct (supervisor_thread_ _).
Qed.

Definition mine_now (s : State) : Prop := lifecycle_owner s = Some 0%nat.
#[local] Instance mine_now_lasting : Lasting mine_now.
Proof. intros s s' _ _ Hr H. by apply (rl_mine _ _ _ Hr). Qed.

Lemma request_runtime_stop_spec l : Forall (.∉ controls) l →
  spec (know (Idle :: l)) (request_runtime_stop heap) (λ _, know (Idle :: Closed :: Sealed :: l)).
Proof.
  intros Hl. unfold request_runtime_stop.
  eapply (triple_bind heap _ _ _ (λ _ s, (know (Closed :: l) s ∧ in_progress SealOnly s) ∧ mine_now s)).
  { apply triple_action; [apply _ | intros _; apply _ |]. intros e s o Hv Hk H. destruct (lifecycle_owner s) eqn:Ho; [done |]. injection H as <-.
    destruct (stop_begins l s Hv Hk Hl Ho) as (s' & -> & Hv' & Hp & Hm). by exists (), s'. }
  intros _. eapply (triple_bind heap _ _ _ (λ a s, a = true ∧ (know (Closed :: l) s ∧ in_progress SealOnly s) ∧ mine_now s)).
  { apply triple_look; [apply _ | intros a; apply _ |]. intros s Hv H. exists (filter_updates_ s). split; [done |]. split; [| done].
    by destruct (running_complete heap s Hv (proj1 (proj1 (proj1 H)))). }
  intros sealing. eapply (triple_bind heap _ _ _ (λ _ s, know (Idle :: Closed :: Sealed :: l) s ∧ mine_now s)).
  { destruct sealing; [| by intros s Hv [? _]]. eapply triple_conseq; [apply (call_loop_spec SealOnly (Closed :: l) (λ _, ()) mine_now); [done | | apply _ | done] | by intros s _ [_ H] |].
    - by constructor; [set_solver |].
    - intros x s Hv [(r & _ & Hk & Hs & _) Hm]. split; [| done]. specialize (Hs eq_refl).
      eapply know_weaken; [eapply (know_add Sealed); [exact Hk | by eapply (know_fact Sealed [Sealed]); [| left]] | set_solver]. }
  intros _. apply triple_atomically; [apply _ | intros _; apply _ |]. intros e s Hv [Hk Hm]. destruct (stop_ends _ s Hv Hk Hm) as [Hv' Hk'].
  by exists (), (end_runtime_stop s).
Qed.

(** ** Joining the threads *)

(** A change that the facts [ended] alone are about. *)
Lemma know_change (ended : list Fact) l s s' : (∀ f, f ∉ ended → fact f s → fact f s') → running (state_ s') = running (state_ s) →
  Forall (.∉ ended) l → know l s → know l s'.
Proof.
  intros Hf Hr Hl [Hrun H]. split; [congruence |]. rewrite list.Forall_forall in *. auto.
Qed.

Lemma take_and_join_spec (kept gone : Fact) l member set_member (join : M bool) (there taken : State → Prop) :
  Lasting there → Lasting taken →
  (∀ s, inv s → know (kept :: l) s → inv (set_member false s) ∧ know l (set_member false s) ∧ taken (set_member false s) ∧
     if member s : bool then there (set_member false s) else know [kept; gone] (set_member false s)) →
  spec (λ s, (know l s ∧ taken s) ∧ there s) join (λ b s, (know l s ∧ taken s) ∧ if b : bool then know [kept; gone] s else there s) →
  (∀ s, inv s → know l s → there s → inv (set_member true s) ∧ know (kept :: l) (set_member true s)) →
  spec (know (kept :: l)) (take_and_join member set_member join) (λ b, know (if b : bool then kept :: gone :: l else kept :: l)).
Proof.
  intros Hth Htk Htake Hjoin Hback. unfold take_and_join.
  eapply (triple_bind heap _ _ _ (λ held s, (know l s ∧ taken s) ∧ if held : bool then there s else know [kept; gone] s)).
  { apply triple_section; [apply _ | intros held; apply _ |]. intros s Hv Hk _. destruct (Htake s Hv Hk) as (? & ? & ? & ?).
    by exists (member s), (set_member false s). }
  assert (∀ s, know l s → know [kept; gone] s → know (kept :: gone :: l) s) as Hadd.
  { intros s [Hr H1] [_ H2]. split; [done |]. rewrite list.Forall_forall in *. intros f. rewrite !elem_of_cons. intros [-> | [-> | Hf]]; [apply H2.. | auto]; set_solver. }
  intros [|]; [| apply triple_value; [apply _ |]; intros s _ [[? _] ?]; by apply Hadd].
  eapply triple_bind; [exact Hjoin |]. intros [|]; [apply triple_value; [apply _ |]; intros s _ [[? _] ?]; by apply Hadd |].
  eapply (triple_bind heap _ _ _ (λ _, know (kept :: l))); [| intros _; by apply triple_value; [apply _ |]].
  apply triple_section; [apply _ | intros _; apply _ |]. intros s Hv [[Hk _] Ht] _. destruct (Hback s Hv Hk Ht). by exists (), (set_member true s).
Qed.

Lemma thread_joined_spec {P} (run : State → option (Z * P)) done gone (l : list Fact) (after taken : State → Prop) :
  Lasting (λ s, run s ≠ None) → Lasting after → Lasting taken →
  (∀ s a p, inv s → know l s → taken s → run s = Some (a, p) → done p = true → inv (gone s) ∧ know l (gone s) ∧ taken (gone s) ∧ after (gone s)) →
  spec (λ s, (know l s ∧ taken s) ∧ run s ≠ None) (join_thread run done gone)
    (λ b s, (know l s ∧ taken s) ∧ if b : bool then after s else run s ≠ None).
Proof.
  intros Hth Haf Htk Hgone. apply triple_action; [apply _ | intros [|]; apply _ |]. intros e s o Hv [[Hk Ht] Hr] H.
  destruct (run s) as [[a p] |] eqn:Er; [| done]. destruct (join_throws e).
  - injection H as <-. exists false, s. split_and!; try done. congruence.
  - destruct (done p) eqn:Ed; [| done]. injection H as <-. destruct (Hgone s a p Hv Hk Ht Er Ed) as (? & ? & ? & ?). by exists true, (gone s).
Qed.

(** *** Thread A *)
Lemma coordinator_member b s : inv s → inv (set_coordinator_thread b s).
Proof. intros [H01 H02 H03 H04 H05 H06 H07 H08 H09 H10 H11 H12 H13 H14 H15 H16 H17 H18]. by split. Qed.
Lemma coordinator_joined s a : inv s → coordinator_run s = Some (a, CoordinatorDone) → inv (set_coordinator_run None s).
Proof.
  intros [H01 H02 H03 H04 H05 H06 H07 H08 H09 H10 H11 H12 H13 H14 H15 H16 H17 H18] Hp. split; try done.
  - split; [| apply H04]. intros E. destruct (proj1 H04 E) as (? & _). congruence.
  - intros [| [| t]] u Ht Hne; try done; [| exact (H13 _ u Ht Hne)]. specialize (H13 1%nat u Ht Hne). cbn in *. by rewrite Hp in H13.
  - intros [| [| t]] Hne; try done. exact (H15 _ Hne).
Qed.

Lemma run_lasting s s' : rely s s' → (coordinator_run s ≠ None → coordinator_run s' ≠ None) ∧ (reclaimer_run s ≠ None → reclaimer_run s' ≠ None) ∧
  (supervisor_run s ≠ None → supervisor_run s' ≠ None).
Proof. intros Hr. destruct (rl_runs _ _ _ Hr) as (E1 & E2 & E3). split_and!; intros Hn E; apply Hn; [by apply E1 | by apply E2 | by apply E3]. Qed.

Lemma drain_coordinator_spec l : Forall (.∉ [CoordinatorKept; CoordinatorFree]) l →
  spec (know (CoordinatorKept :: l)) drain_coordinator (λ b, know (if b : bool then CoordinatorKept :: CoordinatorGone :: l else CoordinatorKept :: l)).
Proof.
  intros Hl. assert (∀ b s, know l s → know l (set_coordinator_thread b s)) as Hmember.
  { intros b s. apply (know_change [CoordinatorKept; CoordinatorFree]); [| done | done]. intros f Hf. destruct f; try done; by destruct Hf; set_solver. }
  assert (Lasting (λ s, coordinator_run s ≠ None)) as Hlast by (intros s s' _ _ Hr; apply (run_lasting s s' Hr)).
  assert (Lasting (fact CoordinatorFree)) as Hfree.
  { intros s s' _ _ Hr H. unfold fact in *. by destruct (rl_members _ _ _ Hr) as (-> & _). }
  apply (take_and_join_spec CoordinatorKept CoordinatorGone l _ _ _ (λ s, coordinator_run s ≠ None) (fact CoordinatorFree)); [done | done | | |].
  - intros s Hv Hk. pose proof (know_fact CoordinatorKept _ s Hk ltac:(left)) as H. cbn in H. split_and!; [by apply coordinator_member | | done |].
    + apply Hmember. eapply know_weaken; [exact Hk | set_solver].
    + destruct (coordinator_thread_ s); [cbn; intros E; by apply H in E |]. split; [apply Hk |]. rewrite !list.Forall_cons. cbn. naive_solver.
  - apply thread_joined_spec; [done | apply _ | done |]. intros s a p Hv Hk Hf Hp Hd. destruct p; try done. split_and!; [by eapply coordinator_joined | | done |].
    + apply (know_change [CoordinatorKept] _ s); [| done | | done]; [| by eapply list.Forall_impl; [exact Hl | set_solver]].
      intros f Hf1. destruct f; try done; try (by destruct Hf1; set_solver); intros [_ ?]; done.
    + split; [apply Hk |]. rewrite !list.Forall_cons. done.
  - intros s Hv Hk Hn. split; [by apply coordinator_member |]. apply know_add; [by apply Hmember |]. cbn. done.
Qed.

(** *** Thread B *)
Lemma reclaimer_member b s : inv s → inv (set_reclaimer_thread b s).
Proof. intros [H01 H02 H03 H04 H05 H06 H07 H08 H09 H10 H11 H12 H13 H14 H15 H16 H17 H18]. by split. Qed.
Lemma availability b s : inv s → inv (set_reclaimer_available b s).
Proof. intros [H01 H02 H03 H04 H05 H06 H07 H08 H09 H10 H11 H12 H13 H14 H15 H16 H17 H18]. by split. Qed.
Lemma reclaimer_joined s a : inv s → reclaimer_run s = Some (a, ReclaimerDone) → inv (set_reclaimer_run None s).
Proof.
  intros [H01 H02 H03 H04 H05 H06 H07 H08 H09 H10 H11 H12 H13 H14 H15 H16 H17 H18] Hp. split; try done.
  - split; [| apply H04]. intros E. destruct (proj1 H04 E) as (? & ? & _). congruence.
  - intros _ u Hu Hf. specialize (H12 ltac:(done) u Hu Hf). by rewrite Hp in H12.
  - intros [| [| [| t]]] u Ht Hne; try done; [exact (H13 _ u Ht Hne) | | exact (H13 _ u Ht Hne)]. specialize (H13 2%nat u Ht Hne). cbn in *. by rewrite Hp in H13.
  - intros [| [| [| t]]] Hne; try done; exact (H15 _ Hne).
Qed.

Lemma drain_reclaimer_spec l : Forall (.∉ [ReclaimerKept; ReclaimerFree; Known]) l → spec (know (ReclaimerKept :: l)) drain_reclaimer
  (λ b, know (if b : bool then Known :: ReclaimerKept :: ReclaimerGone :: l else ReclaimerKept :: l)).
Proof.
  intros Hl. assert (∀ b s, know l s → know l (set_reclaimer_thread b s)) as Hmember.
  { intros b s. apply (know_change [ReclaimerKept; ReclaimerFree; Known]); [| done | done]. intros f Hf. destruct f; try done; by destruct Hf; set_solver. }
  assert (Lasting (λ s, reclaimer_run s ≠ None)) as Hlast by (intros s s' _ _ Hr; apply (run_lasting s s' Hr)).
  assert (Lasting (fact ReclaimerFree)) as Hfree.
  { intros s s' _ _ Hr H. unfold fact in *. by destruct (rl_members _ _ _ Hr) as (_ & -> & _). }
  unfold drain_reclaimer. eapply (triple_bind heap _ _ _ (λ b, know (if b : bool then ReclaimerKept :: ReclaimerGone :: l else ReclaimerKept :: l))).
  - apply (take_and_join_spec ReclaimerKept ReclaimerGone l _ _ _ (λ s, reclaimer_run s ≠ None) (fact ReclaimerFree)); [done | done | | |].
    + intros s Hv Hk. pose proof (know_fact ReclaimerKept _ s Hk ltac:(left)) as H. cbn in H. split_and!; [by apply reclaimer_member | | done |].
      * apply Hmember. eapply know_weaken; [exact Hk | set_solver].
      * destruct (reclaimer_thread_ s); [cbn; intros E; by apply H in E |]. split; [apply Hk |]. rewrite !list.Forall_cons. cbn. naive_solver.
    + apply thread_joined_spec; [done | apply _ | done |]. intros s a p Hv Hk Hf Hp Hd. destruct p; try done. split_and!; [by eapply reclaimer_joined | | done |].
      * apply (know_change [ReclaimerKept; Known] _ s); [| done | | done]; [| by eapply list.Forall_impl; [exact Hl | set_solver]].
        intros f Hf1. destruct f; try done; by destruct Hf1; set_solver.
      * split; [apply Hk |]. rewrite !list.Forall_cons. done.
    + intros s Hv Hk Hn. split; [by apply reclaimer_member |]. apply know_add; [by apply Hmember |]. cbn. done.
  - intros [|]; [| by apply triple_value; [apply _ |]].
    eapply (triple_bind heap _ _ _ (λ _, know (Known :: ReclaimerKept :: ReclaimerGone :: l))); [| intros _; by apply triple_value; [apply _ |]].
    apply triple_atomically; [apply _ | intros _; apply _ |]. intros e s Hv Hk. exists (), (set_reclaimer_available false s).
    split_and!; [done | by apply availability |]. pose proof (know_fact ReclaimerGone _ s Hk ltac:(set_solver)) as Hg. apply know_add; [| done].
    apply (know_change [Known] _ s); [| done | | done].
    + intros f Hf. destruct f; try done; by destruct Hf; set_solver.
    + rewrite !list.Forall_cons. split_and!; [set_solver.. |]. eapply list.Forall_impl; [exact Hl | set_solver].
Qed.

(** *** Thread C *)
Lemma supervisor_member b s : inv s → inv (set_supervisor_thread b s).
Proof. intros [H01 H02 H03 H04 H05 H06 H07 H08 H09 H10 H11 H12 H13 H14 H15 H16 H17 H18]. by split. Qed.
Lemma supervisor_joined s a : inv s → supervisor_run s = Some (a, SupervisorDone) → inv (set_supervisor_run None s) ∧ at_rest s.
Proof.
  intros Hv Hp. split.
  - destruct Hv as [H01 H02 H03 H04 H05 H06 H07 H08 H09 H10 H11 H12 H13 H14 H15 H16 H17 H18]. split; try done.
    + split; [| done]. intros E. destruct (proj1 H04 E) as (? & ? & ?). congruence.
    + intros Hne x Hx. destruct (H11 Hne x Hx) as (? & ? & ? & ? & p0 & ? & _). split_and!; try done. by exists p0.
    + intros [| [| [| [| t]]]] u Ht Hne; try done; try exact (H13 _ u Ht Hne). specialize (H13 3%nat u Ht Hne). cbn in *. by rewrite Hp in H13.
    + intros [| [| [| [| t]]]] Hne; try done; exact (H15 _ Hne).
  - intros x Hx. destruct (iv_supervisor _ _ _ Hv ltac:(done) x Hx) as (_ & _ & _ & _ & p0 & _ & H). by rewrite Hp in H.
Qed.

Lemma drain_supervisor_spec l : Forall (.∉ [SupervisorKept; SupervisorFree]) l →
  spec (know (SupervisorKept :: l)) drain_supervisor (λ b, know (if b : bool then SupervisorKept :: SupervisorGone :: l else SupervisorKept :: l)).
Proof.
  intros Hl. assert (∀ b s, know l s → know l (set_supervisor_thread b s)) as Hmember.
  { intros b s. apply (know_change [SupervisorKept; SupervisorFree]); [| done | done]. intros f Hf. destruct f; try done; by destruct Hf; set_solver. }
  assert (Lasting (λ s, supervisor_run s ≠ None)) as Hlast by (intros s s' _ _ Hr; apply (run_lasting s s' Hr)).
  assert (Lasting (fact SupervisorFree)) as Hfree.
  { intros s s' _ _ Hr H. unfold fact in *. by destruct (rl_members _ _ _ Hr) as (_ & _ & -> & _). }
  apply (take_and_join_spec SupervisorKept SupervisorGone l _ _ _ (λ s, supervisor_run s ≠ None) (fact SupervisorFree)); [done | done | | |].
  - intros s Hv Hk. pose proof (know_fact SupervisorKept _ s Hk ltac:(left)) as [H Hat]. split_and!; [by apply supervisor_member | | done |].
    + apply Hmember. eapply know_weaken; [exact Hk | set_solver].
    + destruct (supervisor_thread_ s); [cbn; intros E; by apply H in E |]. split; [apply Hk |]. rewrite !list.Forall_cons. cbn. naive_solver.
  - eapply (triple_bind heap _ _ _ (λ _ s, (know l s ∧ fact SupervisorFree s) ∧ supervisor_run s ≠ None)).
    + apply triple_atomically; [apply _ | intros _; apply _ |]. intros e s Hv [[Hk Hf] Hn]. exists (), (set_supervisor_thread_stop true s).
      destruct (know_goes heap l s _ Hv Hk (thread_stop_change heap 0 s true (inv_invt heap 0 s Hv))). done.
    + intros _. apply thread_joined_spec; [done | apply _ | done |]. intros s a p Hv Hk Hf Hp Hd. destruct p; try done.
      destruct (supervisor_joined s a Hv Hp) as [Hv' Hat]. split_and!; [done | | done |].
      * apply (know_change [SupervisorKept] _ s); [| done | | done]; [| by eapply list.Forall_impl; [exact Hl | set_solver]].
        intros f Hf1. destruct f; try done; try (by destruct Hf1; set_solver); intros [_ ?]; done.
      * split; [apply Hk |]. rewrite !list.Forall_cons. done.
  - intros s Hv Hk Hn. split; [by apply supervisor_member |]. apply know_add; [by apply Hmember |]. done.
Qed.
End teardown.
