(* ===== verification/ServiceRelease.v ===== *)
(** * The teardown, to its end

    The steps of [finish_teardown] after the threads have been stopped: the emergency join,
    the calls into the publication state, the completion of what the coordinator left, and
    the destruction of the parts.  [finish_teardown_spec]: the whole. *)
From stdpp Require Import relations functions.
From Stdlib Require Import Strings.Byte.
From S2P Require Import Prelude DomainBlocklist FilterPublication PublicationClaims FilterUpdateController UpdateInvariant UpdateClaims Concurrency WorkerSupervisor SupervisorInvariant SupervisorThread SupervisorMonitor SupervisorRun SupervisorClaims SupervisorFrame UpdateFrame DnsService ServiceInvariant ServiceSteps ServiceOwner ServiceTeardown.
Import Service.
#[local] Existing Instance Service.M_ret.
#[local] Existing Instance Service.M_bind.

Section release.
Context {F : Type}.
Variable heap : nat → FilterContext F.
Notation inv := (ServiceInvariant.inv heap).
Notation rely := (ServiceInvariant.rely heap).
Notation spec := (ServiceOwner.spec heap).
Notation Lasting := (ServiceOwner.Lasting heap).
Notation wp := (Concurrency.wp inv rely).

(** ** Calls into the publication state *)
Definition ended_by (a : Publication.Action) : list Fact := match a with Publication.Detach _ => [Reclaimed] | _ => [] end.
Definition owner_action (a : Publication.Action) : bool :=
  match a with Publication.Seal | Publication.Detach _ | Publication.RequestShutdown | Publication.EmergencyReclaim => true | _ => false end.

Lemma owner_publishes a s u w' : inv s → running (state_ s) = true → updates s = Some u → owner_action a = true →
  Publication.act heap a (Update.world u) = Some w' →
  let s' := put_updates (Update.set_world w' u) s in inv s' ∧ ∀ l, Forall (.∉ ended_by a) l → know l s → know l s'.
Proof.
  intros Hv Hrun Hu Ha Hact s'. destruct (running_complete heap s Hv Hrun) as [Hf _].
  pose proof (iv_updates _ _ _ Hv _ Hu) as (Hact_ok & w0 & Hst & Hlen).
  assert (Update.update_act heap (Update.Environment a) u = Some (Update.set_world w' u)) as Hup by (cbn; rewrite Hact; by destruct a).
  assert (publishers heap (Update.world u) w') as Hps by (eapply publishers_once; [| exact Hact]; by destruct a).
  destruct (updates_change heap 0 s u (Update.set_world w' u) Hv Hu Hf) as (Hv' & _ & _); try done.
  - split; [by eapply act_active |]. exists w0. split; [by eapply update_state_act | done].
  - intros c. exact (iv_owner _ _ _ Hv u c Hu).
  - intros _. pose proof (act_reclaimer heap _ _ _ Hact) as H1. by destruct a.
  - intros E. by rewrite E in Hrun.
  - split; [done |]. intros l Hl Hk. apply (know_moves heap l (ended_by a) s); [done | | | done | done].
    + split; try done. cbn. destruct (supervisor_ s) as [x |] eqn:Hx; [| done]. eexists. split; [done |]. split; [done |]. intros _.
      pose proof (supervisor_world heap 0 s x (inv_invt heap 0 s Hv) Hx) as Hok. pose proof Hok as (_ & _ & _ & (u1 & Hu1 & Hp) & _).
      rewrite Hu in Hu1. injection Hu1 as <-. apply (supervisor_publishes heap s x _ Hok). by rewrite Hp.
    + intros f u1 Hf1 [= <-]. exists u. split; [done |]. split; try done. intros -> _ Hr. eapply (act_reclaimed heap); [exact Hact | | exact Hr].
      destruct a; try done. by destruct Hf1; set_solver.
Qed.

Lemma emergency_reclaimed w w' : Publication.emergency_reclaim_converged w = (true, w') → reclaimed w'.
Proof.
  unfold Publication.emergency_reclaim_converged, Publication.reclaim_converged_locked, reclaimed. intros H. cbv zeta in H.
  repeat (case_match; try done). all: injection H as <-; cbn; try done.
Qed.

Lemma publication_spec {A} l (a : Input → Publication.Action) (f : Input → Publication.World → option (A * Publication.World))
    (R : A → Publication.World → Prop) (Q : A → State → Prop) :
  (∀ x, Lasting (Q x)) → (∀ e, owner_action (a e) = true ∧ Forall (.∉ ended_by (a e)) l) →
  (∀ e w x w', f e w = Some (x, w') → Publication.act heap (a e) w = Some w' ∧ R x w') →
  (∀ x s u, know l s → updates s = Some u → R x (Update.world u) → Q x s) →
  spec (know l) (publication_call f) Q.
Proof.
  intros HQ Ha Hf HR. apply triple_action; [apply _ | intros x; apply _ |]. intros e s o Hv Hk H.
  destruct (running_complete heap s Hv (proj1 Hk)) as (_ & _ & Hc & _). destruct (publication_there heap 0 s (inv_invt heap 0 s Hv) Hc) as (u & Hu & Hfu & Hp).
  rewrite Hp in H. destruct (f e (Update.world u)) as [[x w'] |] eqn:Ef; [| done]. injection H as <-. destruct (Hf _ _ _ _ Ef) as [Hact Hr].
  destruct (Ha e) as [Ho Hl]. destruct (owner_publishes (a e) s u w' Hv (proj1 Hk) Hu Ho Hact) as [Hv' Hk'].
  exists x, (put_updates (Update.set_world w' u) s). split_and!; [done | done |]. eapply HR; [by apply Hk' | done | exact Hr].
Qed.

Lemma publication_step_spec l (a : Input → Publication.Action) : (∀ e, owner_action (a e) = true ∧ Forall (.∉ ended_by (a e)) l) →
  spec (know l) (publication_step heap a) (λ _, know l).
Proof.
  intros Ha. apply (publication_spec l a _ (λ _ _, True)); [apply _ | done | | done].
  intros e w x w' H. destruct (Publication.act heap (a e) w) as [w1 |]; [| done]. by injection H as <- <-.
Qed.

Lemma no_facts l : Forall (.∉ ([] : list Fact)) l.
Proof. apply list.Forall_forall. intros f _ ?%not_elem_of_nil. done. Qed.

Lemma emergency_reclaim_spec l : spec (know l) (emergency_reclaim_converged heap)
  (λ b s, know l s ∧ (b = true → CoordinatorGone ∈ l → know (Reclaimed :: l) s)).
Proof.
  apply (publication_spec l (λ _, Publication.EmergencyReclaim) _ (λ b w, b = true → reclaimed w)).
  - intros b. apply _.
  - intros e. split; [done | apply no_facts].
  - intros e w x w' H. destruct (Publication.act heap _ w) as [w1 |] eqn:Ha; [| done]. injection H as <- <-. split; [done |].
    cbn in Ha. unfold Publication.guarded in Ha. destruct (Publication.retirement_mutex_free w); [| done]. injection Ha as <-.
    intros E. apply (emergency_reclaimed w). rewrite (surjective_pairing (Publication.emergency_reclaim_converged w)). by rewrite E.
  - intros b s u Hk Hu Hr. split; [done |]. intros Hb Hg. apply know_add; [done |]. pose proof (know_fact CoordinatorGone l s Hk Hg) as Hn.
    split; [done |]. intros u1 Hu1. rewrite Hu in Hu1. injection Hu1 as <-. auto.
Qed.

Lemma detach_terminal_snapshot_spec l : Reclaimed ∉ l → spec (know l) (detach_terminal_snapshot heap) (λ _, know l).
Proof.
  intros Hl. apply (publication_spec l (λ e, Publication.Detach (now_ e)) _ (λ _ _, True)); [apply _ | | | done].
  - intros e. split; [done |]. apply list.Forall_forall. intros f Hf ->%list_elem_of_singleton. done.
  - intros e w x w' H. destruct (Publication.act heap _ w) as [w1 |] eqn:Ha; [| done]. by injection H as <- <-.
Qed.

(** ** The supervisor without thread C *)
Lemma environment_reachable w0 w w' : environment heap w w' → Publication.reachable heap w0 w → Publication.reachable heap w0 w'.
Proof.
  intros H. induction H as [w | w1 w2 w3 (a & _ & Ha) _ IH]; intros Hr; [done |]. apply IH. by eapply Publication.reachable_step.
Qed.

Lemma supervisor_origin c p0 p1 x x' : SupervisorInvariant.inv heap c p0 x' → SupervisorInvariant.inv heap c p1 x → frame heap x x' →
  SupervisorInvariant.inv heap c p1 x'.
Proof.
  intros [] Hv (_ & He & _). split; try done. intros Hf. pose proof (SupervisorInvariant.inv_reachable _ _ _ _ Hv Hf) as Hr.
  rewrite (SupervisorInvariant.inv_config _ _ _ _ Hv) in He. by eapply environment_reachable; [apply He |].
Qed.

Definition supervisor_facts : list Fact := [Fresh; Joined; SupervisorGone; SupervisorKept].

Lemma owner_supervises s x x' p0 : inv s → supervisor_ s = Some x → supervisor_run s = None → frame heap x x' →
  SupervisorInvariant.inv heap (Supervisor.config_ x) p0 x' →
  inv (put_supervisor x' s) ∧ ∀ l, Forall (.∉ supervisor_facts) l → know l s → know l (put_supervisor x' s).
Proof.
  intros Hv Hx Hn Hfr Hi'. destruct (supervisor_world heap 0 s x (inv_invt heap 0 s Hv) Hx) as (Hf & _ & _ & (u & Hu & Hp) & _).
  destruct (supervisor_stepped heap 0 s x x' None Hv Hx) as (Hv' & _ & _); try done.
  - intros p1 Hi1 _. split; [by eapply supervisor_origin | done].
  - by right.
  - assert (set_supervisor_run None (put_supervisor x' s) = put_supervisor x' s) as E by (destruct s; cbn in *; by subst). rewrite E in Hv'.
    split; [done |]. intros l Hl. apply (know_change supervisor_facts); [| done | done]. intros f Hfs.
    destruct Hfr as (_ & Henv & _). specialize (Henv Hf). rewrite Hp in Henv. destruct (environment_facts heap _ _ Henv) as [_ Hrec].
    destruct f; try done; try (by destruct Hfs; set_solver); unfold fact, owner_idle; cbn; rewrite ?Hu, ?Hx; cbn; try done; intros H.
    + intros u1 [= <-]. exact (H u eq_refl).
    + intros u1 [= <-]. exact (H u eq_refl).
    + destruct H as [? H]. split; [done |]. intros u1 [= <-]. by apply Hrec, H.
    + destruct H as [? H]. split; [done |]. intros u1 [= <-]. exact (H u eq_refl).
Qed.

(** A program of the supervisor, when thread C is gone. *)
Definition without_c (c : Supervisor.Config) (p0 : Publication.World) (l : list Fact) (Φ : Supervisor.State → Prop) (s : State) : Prop :=
  know l s ∧ supervisor_run s = None ∧ ∃ x, supervisor_ s = Some x ∧ SupervisorInvariant.inv heap c p0 x ∧ Φ x.

(** What the others do meanwhile. *)
Lemma without_c_later c p0 l Φ s s' : inv s → inv s' → rely s s' → without_c c p0 l Φ s →
  know l s' ∧ supervisor_run s' = None ∧ ∃ x x', supervisor_ s = Some x ∧ supervisor_ s' = Some x' ∧ Φ x ∧
    SupervisorInvariant.rely x x' ∧ SupervisorInvariant.inv heap c p0 x'.
Proof.
  intros Hv Hv' Hr (Hk & Hn & x & Hx & Hi & Hφ). split; [by apply (know_lasting heap l s s') |].
  destruct (rl_runs _ _ _ Hr) as (_ & _ & E). split; [by apply E |]. pose proof (rl_supervisor _ _ _ Hr) as Hs. rewrite Hx in Hs.
  destruct Hs as (x' & Hx' & _ & _ & Ha). destruct (Ha Hn) as [Hre Hiv]. exists x, x'. split_and!; auto.
Qed.

Lemma lift_wp {A} (m : prog Supervisor.State Supervisor.Input A) c p0 l : Forall (.∉ supervisor_facts) l → every (frame heap) m →
  ∀ Q s, inv s → without_c c p0 l (Concurrency.wp (SupervisorInvariant.inv heap c p0) SupervisorInvariant.rely m Q) s →
  wp (lift m) (λ a, without_c c p0 l (Q a)) s.
Proof.
  intros Hl. induction m as [A a | A X f k IH | A X body IHb k IHk]; cbn [every lift]; intros Hfr Q s Hv H.
  - intros s' Hr Hv'. destruct (without_c_later _ _ _ _ _ _ Hv Hv' Hr H) as (Hk & Hn & x & x' & Hx & Hx' & Hw & Hre & Hi').
    split_and!; [done | done |]. exists x'. split_and!; [done | done |]. by apply Hw.
  - intros s' Hr Hv' e y s'' E. destruct (without_c_later _ _ _ _ _ _ Hv Hv' Hr H) as (Hk & Hn & x & x' & Hx & Hx' & Hw & Hre & Hi').
    rewrite Hx' in E. destruct (f (supervisor_input e) x') as [[a x''] |] eqn:Ef; [| done]. injection E as <- <-.
    destruct Hfr as [Hf Hkf]. pose proof (Hf _ _ _ _ Ef) as Hfx. destruct (Hw x' Hre Hi' _ _ _ Ef) as [Hi'' Hw''].
    destruct (owner_supervises s' x' x'' p0 Hv' Hx' Hn Hfx) as [Hv'' Hk'']; [by rewrite (SupervisorInvariant.inv_config _ _ _ _ Hi') |].
    split; [done |]. apply IH; [done | done |]. split_and!; [by apply Hk'' | done |]. by exists x''.
  - destruct H as (Hk & Hn & x & Hx & Hi & I & HI & Hst & Hb). exists (λ s, inv s ∧ without_c c p0 l I s). split; [split; [done |]; split_and!; [done | done |]; by exists x | split].
    + intros s1 s2 [Hv1 H1] Hr Hv2. split; [done |]. destruct (without_c_later _ _ _ _ _ _ Hv1 Hv2 Hr H1) as (Hk2 & Hn2 & x1 & x2 & Hx1 & Hx2 & Hi1 & Hre & Hi2).
      split_and!; [done | done |]. exists x2. split_and!; [done | done |]. by apply (Hst x1 x2).
    + intros s1 Hv1 [_ (Hk1 & Hn1 & x1 & Hx1 & Hi1 & HI1)]. destruct Hfr as [Hfb Hfk].
      set (Q' := λ (o : option X) x, match o with
        | Some y => Concurrency.wp (SupervisorInvariant.inv heap c p0) SupervisorInvariant.rely (k y) Q x | None => I x end).
      eapply wp_mono; [| apply (IHb Hfb Q' s1 Hv1); split_and!; [done | done |]; exists x1; split_and!; [done | done | by apply Hb]].
      intros [y |] s2 Hv2 H2; [by apply IHk | by split].
Qed.

Lemma emergency_join_spec l : Forall (.∉ supervisor_facts) l → spec (know (SupervisorKept :: SupervisorGone :: l)) (emergency_join heap)
  (λ b, know (SupervisorKept :: SupervisorGone :: if b : bool then Joined :: l else l)).
Proof.
  intros Hl. unfold emergency_join. set (l0 := SupervisorKept :: SupervisorGone :: l).
  eapply (triple_bind heap _ _ _ (λ b, know ((if b : bool then HasSupervisor else NoSupervisor) :: l0))).
  { apply triple_look; [apply _ | intros b; apply _ |]. intros s Hv Hk. eexists. split; [reflexivity |]. case_bool_decide as Hx; apply know_add; try done.
    cbn. by destruct (supervisor_ s); [destruct Hx; eexists |]. }
  intros [|].
  - intros s Hv Hk. pose proof (know_fact HasSupervisor _ s Hk ltac:(set_solver)) as [x Hx].
    pose proof (know_fact SupervisorGone _ s Hk ltac:(set_solver)) as [Hn Hat]. pose proof (know_fact SupervisorKept _ s Hk ltac:(set_solver)) as [Hm _].
    destruct (iv_supervisor _ _ _ Hv ltac:(done) x Hx) as (_ & _ & _ & _ & p0 & Hi & _).
    assert (Concurrency.wp (SupervisorInvariant.inv heap (Supervisor.config_ x) p0) SupervisorInvariant.rely (Supervisor.emergency_join_all heap)
      (λ o x', settled (Supervisor.config_ x) None x' ∧ match o with
               | Val true => inactive x' ∧ all_recs (λ _, offline) x'
               | Val false => True
               | _ => False
               end) x) as Hw.
    { eapply wp_mono; [| apply wp_returns; [apply (emergency_nothrow heap) | apply (emergency_spec heap (Supervisor.config_ x) p0 x Hi)]].
      - intros [[] | e |] x' _ [H Hc]; [by destruct H as (? & ? & ?) | done | by destruct (Hc e) | done].
      - split_and!; [by apply Hat | done | by intros r rec Hr]. }
    assert (know (SupervisorFree :: l) s) as Hk0.
    { apply know_add; [eapply know_weaken; [exact Hk | unfold l0; set_solver] |]. by apply Hm. }
    eapply wp_mono; [| apply (lift_wp (Supervisor.emergency_join_all heap) (Supervisor.config_ x) p0 (SupervisorFree :: l)); [| apply (emergency_frame heap) | exact Hv |]].
    3: { split_and!; [done | done |]. exists x. split_and!; [done | done | exact Hw]. }
    + intros o s' Hv' (Hk' & Hn' & x' & Hx' & Hi' & Hset & Ho). pose proof (know_fact SupervisorFree _ s' Hk' ltac:(left)) as Hf.
      assert (at_rest s') as Hat' by (intros x1 E; rewrite Hx' in E; injection E as <-; by rewrite (SupervisorInvariant.inv_config _ _ _ _ Hi')).
      assert (know (SupervisorKept :: SupervisorGone :: l) s') as Hkk.
      { apply know_add; [apply know_add; [eapply know_weaken; [exact Hk' | set_solver] | done] |]. split; [by rewrite Hf, Hn' | done]. }
      destruct o as [[] | e |]; [| exact Hkk | done | done]. apply (know_weaken (Joined :: SupervisorKept :: SupervisorGone :: l)); [| set_solver].
      apply know_add; [exact Hkk |]. split; [done |]. intros x1 E. rewrite Hx' in E. by injection E as <-.
    + constructor; [set_solver | done].
  - apply triple_value; [apply _ |]. intros s Hv Hk. apply (know_weaken (Joined :: l0)); [| unfold l0; set_solver].
    apply know_add; [eapply know_weaken; [exact Hk | set_solver] |]. pose proof (know_fact NoSupervisor _ s Hk ltac:(left)) as Hx.
    pose proof (know_fact SupervisorGone _ s Hk ltac:(unfold l0; set_solver)) as [Hn _]. split; [done |]. intros x E. cbn in Hx. congruence.
Qed.

(** ** Threads B and A, and what they leave *)

(** The facts that the steps below are about. *)
Definition reclaim_facts : list Fact := [Idle; NothingInflight; ReclaimerKept; ReclaimerFree; Known; Reclaimed].

Ltac free_of := rewrite ?list.Forall_cons; split_and?; try (unfold controls; set_solver); (eapply list.Forall_impl; [eassumption | unfold reclaim_facts, controls; set_solver]).
Ltac weaken H := eapply know_weaken; [exact H | set_solver].

Lemma join_failed_reclaimer_spec l : Forall (.∉ [ReclaimerKept; ReclaimerFree; Known]) l → spec (know (ReclaimerKept :: l)) (join_failed_reclaimer heap)
  (λ b, know (if b : bool then Known :: ReclaimerKept :: ReclaimerGone :: l else ReclaimerKept :: l)).
Proof.
  intros Hl. unfold join_failed_reclaimer. eapply triple_bind; [by apply drain_reclaimer_spec |]. intros [|]; cbn [negb]; [| by apply triple_value; [apply _ |]].
  eapply (triple_bind heap _ _ _ (λ _, know (Known :: ReclaimerKept :: ReclaimerGone :: l))).
  { apply triple_look; [apply _ | intros b; apply _ |]. intros s Hv Hk. by eexists. }
  intros [|]; [| by apply triple_value; [apply _ |]]. eapply triple_post; [apply emergency_reclaim_spec |]. intros [] s _ [Hk _]; [done |]. weaken Hk.
Qed.

Lemma replace_exited_reclaimer_spec l : Forall (.∉ [ReclaimerKept; ReclaimerFree; Known]) l → spec (know (ReclaimerKept :: l)) (replace_exited_reclaimer heap)
  (λ b, know (if b : bool then Known :: ReclaimerKept :: l else ReclaimerKept :: l)).
Proof.
  intros Hl. unfold replace_exited_reclaimer. eapply (triple_bind heap _ _ _ (λ _, know (Known :: ReclaimerKept :: l))).
  { apply triple_section; [apply _ | intros _; apply _ |]. intros s Hv Hk _. exists (), (set_reclaimer_available (reclaimer_thread_ s) s).
    split_and!; [done | by apply availability |]. pose proof (know_fact ReclaimerKept _ s Hk ltac:(left)) as H. apply know_add; [| exact H].
    apply (know_change [Known] _ s); [| done | free_of | done]. intros f Hf. destruct f; try done; by destruct Hf; set_solver. }
  intros _. eapply (triple_bind heap _ _ _ (λ _, know (Known :: ReclaimerKept :: l))).
  { apply triple_look; [apply _ | intros b; apply _ |]. intros s Hv Hk. by eexists. }
  intros [|]; [| by apply triple_value; [apply _ |]].
  eapply triple_conseq; [by apply (join_failed_reclaimer_spec l) | intros s _ Hk; weaken Hk | intros [] s _ Hk; [weaken Hk | done]].
Qed.

Lemma await_coordinator_spec l : Forall (.∉ reclaim_facts) l → spec (know (Idle :: Known :: ReclaimerKept :: l)) (await_coordinator heap)
  (λ b, know (if b : bool then Idle :: Known :: ReclaimerKept :: l else Idle :: ReclaimerKept :: l)).
Proof.
  intros Hl. unfold await_coordinator. apply triple_loop; [apply _ | intros b; apply _ |].
  eapply (triple_bind heap _ _ _ (λ _, know (Idle :: Known :: ReclaimerKept :: l))).
  { apply triple_action; [apply _ | intros a; apply _ |]. intros e s o Hv Hk H. destruct (running_complete heap s Hv (proj1 Hk)) as (_ & _ & [c Hc] & _).
    unfold the_control in H. rewrite Hc in H. cbn [from_option_ub] in H. destruct (_ || _); [| done]. injection H as <-. by eexists _, s. }
  intros [finished exited]. eapply (triple_bind heap _ _ _ (λ _, know (Idle :: Known :: ReclaimerKept :: l))).
  { apply triple_look; [apply _ | intros b; apply _ |]. intros s Hv Hk. by eexists. }
  intros available. destruct (negb finished && exited && available).
  - eapply (triple_bind heap _ _ _ (λ b, know (if b : bool then Idle :: Known :: ReclaimerKept :: l else Idle :: ReclaimerKept :: l))).
    + eapply triple_conseq; [apply (join_failed_reclaimer_spec (Idle :: l)); free_of | intros s _ Hk; weaken Hk | intros [] s _ Hk; weaken Hk].
    + intros [|]; by apply triple_value; [apply _ |].
  - apply triple_value; [destruct finished; apply _ |]. by destruct finished.
Qed.

Lemma finish_coordinator_spec l : Forall (.∉ reclaim_facts) l → spec (know (Idle :: Known :: ReclaimerKept :: l)) (finish_coordinator heap)
  (λ b, know (if b : bool then Idle :: Known :: ReclaimerKept :: l else Idle :: ReclaimerKept :: l)).
Proof.
  intros Hl. unfold finish_coordinator. eapply (triple_bind heap _ _ _ (λ _, know (Idle :: Known :: ReclaimerKept :: l))).
  { apply triple_look; [apply _ | intros b; apply _ |]. intros s Hv Hk. by eexists. }
  intros [|]; [| by apply triple_value; [apply _ |]]. eapply (triple_bind heap _ _ _ (λ _, know (Idle :: Known :: ReclaimerKept :: l))).
  { eapply triple_post; [apply (call_update_spec heap (Update.RequestTerminalDetach 0) SealTerminal (Known :: ReclaimerKept :: l)); [done.. | free_of] |].
    by intros r s _ [Hk _]. }
  intros _. eapply (triple_bind heap _ _ _ (λ _, know (Idle :: Known :: ReclaimerKept :: l))).
  { apply triple_section; [apply _ | intros b; apply _ |]. intros s Hv Hk _. by eexists _, s. }
  intros [|]; [by apply await_coordinator_spec | by apply triple_value; [apply _ |]].
Qed.

Lemma successor_spec l : Forall (.∉ controls) l → spec (know (Idle :: l)) (call_update heap (Update.CompleteCommittedBySuccessor 0))
  (λ r s, know (Idle :: l) s ∧ (completed r = true → CoordinatorGone ∈ l → know (NothingInflight :: Idle :: l) s)).
Proof.
  intros Hl. eapply triple_post; [by apply (call_update_spec heap (Update.CompleteCommittedBySuccessor 0) SuccessorCall l) |].
  intros r s _ (Hk & _ & Hs). split; [done |]. intros Hc Hg. apply know_add; [done |]. exact (know_fact NothingInflight _ s (Hs eq_refl Hc Hg) ltac:(left)).
Qed.

Lemma complete_by_successor_spec l : Forall (.∉ reclaim_facts) l → spec (know (Idle :: Known :: ReclaimerKept :: l)) (complete_by_successor heap)
  (λ b, know (if b : bool then Idle :: Known :: ReclaimerKept :: l else Idle :: ReclaimerKept :: l)).
Proof.
  intros Hl. unfold complete_by_successor. set (l0 := Idle :: Known :: ReclaimerKept :: l).
  assert (spec (know l0) (call_update heap (Update.CompleteCommittedBySuccessor 0)) (λ _, know l0)) as Hcall.
  { eapply triple_post; [apply (successor_spec (Known :: ReclaimerKept :: l)); free_of | by intros r s _ [? _]]. }
  eapply (triple_bind heap _ _ _ (λ _, know l0)).
  { apply triple_look; [apply _ | intros b; apply _ |]. intros s Hv Hk. by eexists. }
  intros [|]; cbn [negb]; [| by apply triple_value; [apply _ |]]. eapply triple_bind; [exact Hcall | intros r].
  destruct (completed r); [by apply triple_value; [apply _ |] |]. eapply (triple_bind heap _ _ _ (λ _, know l0)).
  { apply triple_look; [apply _ | intros b; apply _ |]. intros s Hv Hk. by eexists. }
  intros available. destruct (_ || _); [apply triple_value; [apply _ |]; intros s _ Hk; weaken Hk |].
  eapply (triple_bind heap _ _ _ (λ b, know (if b : bool then l0 else Idle :: ReclaimerKept :: l))).
  { eapply triple_conseq; [apply (join_failed_reclaimer_spec (Idle :: l)); free_of | intros s _ Hk; unfold l0 in Hk; weaken Hk | intros [] s _ Hk; unfold l0; weaken Hk]. }
  intros [|]; cbn [negb]; [| by apply triple_value; [apply _ |]]. eapply triple_bind; [exact Hcall | intros r']. apply triple_value; [destruct (completed r'); apply _ |].
  intros s _ Hk. destruct (completed r'); [done | unfold l0 in Hk; weaken Hk].
Qed.

(** ** The end *)
Lemma seal_and_detach_spec l : Reclaimed ∉ l → spec (know l) (seal_and_detach heap) (λ _, know l).
Proof.
  intros Hl. unfold seal_and_detach. eapply (triple_bind heap _ _ _ (λ _, know l)).
  { apply triple_look; [apply _ | intros b; apply _ |]. intros s Hv Hk. by eexists. }
  intros [|]; [| by apply triple_value; [apply _ |]].
  eapply (triple_bind heap _ _ _ (λ _, know l)); [apply publication_step_spec; intros e; split; [done | apply no_facts] |].
  intros _. by apply detach_terminal_snapshot_spec.
Qed.

Lemma finish_reclaimer_spec l : Forall (.∉ reclaim_facts) l → CoordinatorGone ∈ l →
  spec (know (Idle :: Known :: ReclaimerKept :: l)) (finish_reclaimer heap)
    (λ b, know (if b : bool then Reclaimed :: ReclaimerGone :: Idle :: ReclaimerKept :: l else Idle :: ReclaimerKept :: l)).
Proof.
  intros Hl Hg. unfold finish_reclaimer. set (l0 := Idle :: Known :: ReclaimerKept :: l).
  assert (spec (know (Idle :: Known :: ReclaimerKept :: ReclaimerGone :: l)) (emergency_reclaim_converged heap)
    (λ b, know (if b : bool then Reclaimed :: ReclaimerGone :: Idle :: ReclaimerKept :: l else Idle :: ReclaimerKept :: l))) as Hreclaim.
  { eapply triple_post; [apply emergency_reclaim_spec |]. intros [] s _ [Hk H]; [| weaken Hk]. pose proof (H eq_refl ltac:(set_solver)) as Hk'. weaken Hk'. }
  eapply (triple_bind heap _ _ _ (λ a s, know l0 s ∧ (a = false → know (ReclaimerGone :: l0) s))).
  { apply triple_look; [apply _ | intros b; apply _ |]. intros s Hv Hk. eexists. split; [reflexivity |]. split; [done |]. intros Ha.
    apply know_add; [done |]. pose proof (know_fact Known _ s Hk ltac:(unfold l0; set_solver)) as H. by apply H. }
  intros [|].
  - eapply (triple_bind heap _ _ _ (λ _, know l0)).
    { eapply triple_pre; [apply publication_step_spec; intros e; split; [done | apply no_facts] | by intros s _ [? _]]. }
    intros _. eapply (triple_bind heap _ _ _ (λ b, know (if b : bool then Idle :: Known :: ReclaimerKept :: ReclaimerGone :: l else Idle :: ReclaimerKept :: l))).
    { eapply triple_conseq; [apply (drain_reclaimer_spec heap (Idle :: l)); free_of | intros s _ Hk; unfold l0 in Hk; weaken Hk | intros [] s _ Hk; weaken Hk]. }
    intros [|]; [exact Hreclaim | by apply triple_value; [apply _ |]].
  - eapply (triple_bind heap _ _ _ (λ b s, b = true ∧ know (Idle :: Known :: ReclaimerKept :: ReclaimerGone :: l) s)).
    { apply triple_look; [apply _ | intros b; apply _ |]. intros s Hv [Hk H]. specialize (H eq_refl). eexists. split; [reflexivity |].
      destruct (running_complete heap s Hv (proj1 Hk)) as (_ & _ & Hc & _). rewrite bool_decide_eq_true_2 by done. split; [done |]. unfold l0 in H. weaken H. }
    intros [|]; [eapply triple_pre; [exact Hreclaim | by intros s _ [_ ?]] | by intros s _ [? _]].
Qed.

Lemma complete_last_spec l : Forall (.∉ controls) l → CoordinatorGone ∈ l → spec (know (Idle :: l)) (complete_last heap)
  (λ b, know (if b : bool then NothingInflight :: Idle :: l else Idle :: l)).
Proof.
  intros Hl Hg. unfold complete_last. eapply (triple_bind heap _ _ _ (λ b s, b = true ∧ know (Idle :: l) s)).
  { apply triple_look; [apply _ | intros b; apply _ |]. intros s Hv Hk. exists (filter_updates_ s). split; [done |]. split; [| done].
    by destruct (running_complete heap s Hv (proj1 Hk)). }
  intros [|]; [| by intros s _ [? _]]. eapply (triple_bind heap _ _ _ (λ r s, know (Idle :: l) s ∧ (completed r = true → know (NothingInflight :: Idle :: l) s))).
  { eapply triple_conseq; [by apply successor_spec | by intros s _ [_ ?] |]. intros r s _ [Hk H]. split; [done |]. auto. }
  intros r. apply triple_value; [apply _ |]. intros s _ [Hk H]. destruct (completed r); auto.
Qed.
End release.
