(* ===== verification/ServiceEnd.v ===== *)
(** * The end of the service

    [release_spec]: when every step of the teardown has succeeded, the parts may be
    destroyed.  [finish_teardown_spec]: what the teardown leaves, whatever it finds. *)
From stdpp Require Import relations functions.
From Stdlib Require Import Strings.Byte.
From S2P Require Import Prelude DomainBlocklist FilterPublication PublicationClaims FilterUpdateController UpdateInvariant UpdateClaims Concurrency WorkerSupervisor SupervisorInvariant SupervisorThread SupervisorMonitor SupervisorRun SupervisorClaims SupervisorFrame UpdateFrame DnsService ServiceInvariant ServiceSteps ServiceOwner ServiceTeardown ServiceRelease.
Import Service.
#[local] Existing Instance Service.M_ret.
#[local] Existing Instance Service.M_bind.

(** Lists of facts, computed. *)
Ltac listed := repeat match goal with p := _ : list Fact |- _ => subst p end; repeat match goal with b : bool |- _ => destruct b end;
  by apply (bool_decide_unpack _); vm_compute.
Ltac listing H := eapply know_weaken; [exact H | listed].

Section finish.
Context {F : Type}.
Variable heap : nat → FilterContext F.
Notation inv := (ServiceInvariant.inv heap).
Notation rely := (ServiceInvariant.rely heap).
Notation spec := (ServiceOwner.spec heap).
Notation Lasting := (ServiceOwner.Lasting heap).
Notation wp := (Concurrency.wp inv rely).

(** Everything is gone. *)
Definition kept_facts : list Fact := [CoordinatorKept; ReclaimerKept; SupervisorKept].
(** [b]: the start has failed. *)
Definition failing_facts (b : bool) : list Fact := if b then [Failing] else [].
Definition end_facts : list Fact :=
  [NothingInflight; Idle; Reclaimed; ReclaimerGone; ReclaimerKept; CoordinatorKept; CoordinatorGone; SupervisorKept; SupervisorGone; Joined; Closed; Sealed].

Lemma workers_gone s x r rec : know [Joined] s → supervisor_ s = Some x → Supervisor.records_ x !! r = Some rec →
  Supervisor.state_ rec = Supervisor.Offline ∧ Supervisor.current_thread_ rec = None ∧ Supervisor.current_instance_ rec = None.
Proof.
  intros Hk Hx Hr. destruct (know_fact Joined _ s Hk ltac:(left)) as [_ H]. destruct (H x Hx) as [_ Hall].
  destruct (Hall r rec Hr) as [[Hi Hth] Hst]. by rewrite shell_thread_none in Hth.
Qed.

Lemma registry_empty s u r : inv s → know [Joined] s → updates s = Some u → Publication.registry_at (Publication.publication (Update.world u)) r = None.
Proof.
  intros Hv Hk Hu. destruct (running_complete heap s Hv (proj1 Hk)) as [Hf _].
  destruct (supervisor_ s) as [x |] eqn:Hx; [| by apply (iv_clean _ _ _ Hv u Hf Hx Hu)].
  destruct (supervisor_world heap 0 s x (inv_invt heap 0 s Hv) Hx) as (Hfp & Hn & _ & (u1 & Hu1 & Hp) & p0 & Hi & _). rewrite Hu in Hu1. injection Hu1 as <-.
  rewrite <- Hp. destruct (decide (r < Supervisor.worker_count (Supervisor.config_ x))%nat) as [Hlt | Hge].
  - destruct (found heap _ p0 x r Hi Hlt) as [rec Hr]. destruct (Publication.registry_at _ r) as [e |] eqn:E; [| done].
    destruct (pub_registry _ _ _ (SupervisorInvariant.inv_pub _ _ _ _ Hi Hfp _ _ Hr) _ E) as (_ & _ & Hno & _). by destruct (workers_gone s x r rec Hk Hx Hr).
  - unfold Publication.registry_at. rewrite lookup_ge_None_2; [done |]. rewrite Hp.
    pose proof (iv_updates _ _ _ Hv _ Hu) as (_ & w0 & Hst & Hlen). destruct (update_state_inv heap _ _ _ Hst) as (Hui & _).
    rewrite (reachable_registry_length heap _ _ (co_world _ _ _ (ui_ctl _ _ _ _ Hui))), Hlen, <- Hn. lia.
Qed.

Lemma supervisor_gone s x : know [Joined] s → supervisor_ s = Some x → supervisor_idle x = true.
Proof.
  intros Hk Hx. destruct (know_fact Joined _ s Hk ltac:(left)) as [_ H]. destruct (H x Hx) as [Ha _]. unfold supervisor_idle, inactive in *. rewrite Ha.
  apply forallb_forall. intros rec [r Hr]%list_elem_of_In%list_elem_of_lookup. destruct (workers_gone s x r rec Hk Hx Hr) as (_ & H2 & H3).
  unfold Supervisor.joinable. by rewrite H2, H3.
Qed.

Lemma end_destroyable s : inv s → know end_facts s → lifecycle_owner s = None → may_be_destroyed s = true.
Proof.
  intros Hv Hk Hl. assert (∀ f, f ∈ end_facts → fact f s) as Hfact by (intros f; by apply know_fact).
  assert (know [Joined] s) as Hj by (eapply know_weaken; [exact Hk | unfold end_facts; set_solver]).
  destruct (Hfact NothingInflight) as [Hc Hni]; [unfold end_facts; set_solver |]. destruct (Hfact SupervisorGone) as [Hs _]; [unfold end_facts; set_solver |].
  apply (parts_destroyable heap); try done.
  - apply (Hfact ReclaimerGone). unfold end_facts; set_solver.
  - intros x Hx. by apply (supervisor_gone s).
  - intros u Hu Hf. split; [| intros r; by apply (registry_empty s)]. split; [| apply (Hfact Idle); [unfold end_facts; set_solver | done]].
    pose proof (iv_updates _ _ _ Hv _ Hu) as (_ & w0 & Hst & _). destruct (update_state_inv heap _ _ _ Hst) as (Hui & _).
    split_and!.
    + apply (so_sealed _ (co_seal _ _ _ (ui_ctl _ _ _ _ Hui))). apply (Hfact Sealed); [unfold end_facts; set_solver | done].
    + by apply Hni.
    + destruct (Hfact Reclaimed) as [_ H]; [unfold end_facts; set_solver | by apply H].
Qed.

(** ** The last critical section *)
Definition ended_with (r : DNSServiceExitResult) (s : State) : Prop := final (state_ s) = true ∧ r = exit_result_locked s.
#[export] Instance ended_with_lasting r : Lasting (ended_with r).
Proof.
  intros s s' _ _ Hr [Hf ->]. destruct (rl_final _ _ _ Hr Hf) as (Es & E1 & E2 & E3). split; [by rewrite Es |].
  unfold exit_result_locked. by rewrite E1, E2, E3.
Qed.

Definition released (h : DNSHealthSnapshot) (s : State) : State :=
  set_state (if decide (stop_cause_ s = Explicit) then Stopped else Failed) (set_health (unavailable h)
    (set_supervisor None (set_filter_updates false (set_cache None (set_control None (set_faults None s)))))).

Lemma released_life h s : life_of s → update_admission_open_ s = false → life_of (released h s).
Proof.
  intros [H1 H2 H3 H4 H5 H6] Ha. unfold life_of, released. split; cbn; try done.
  - intros H. destruct (decide _); by destruct H as [? | [? | [? | ?]]].
  - intros _. by destruct (decide _).
  - by rewrite Ha.
  - by intros [? | ?].
Qed.

Lemma released_inv h s : inv s → know end_facts s → lifecycle_owner s = None →
  inv (released h s) ∧ at_boundary (released h s) ∧ final (state_ (released h s)) = true.
Proof.
  intros Hv Hk Hl. assert (∀ f, f ∈ end_facts → fact f s) as Hfact by (intros f; by apply know_fact).
  destruct (Hfact NothingInflight) as [Hc _]; [unfold end_facts; set_solver |]. destruct (Hfact SupervisorGone) as [Hs _]; [unfold end_facts; set_solver |].
  pose proof (Hfact ReclaimerGone ltac:(unfold end_facts; set_solver)) as Hr. pose proof (Hfact Closed ltac:(unfold end_facts; set_solver)) as Ha.
  assert (final (state_ (released h s)) = true) as Hfin by (unfold released; cbn; by destruct (decide _)). split_and!; [| | done].
  - refine (proj1 (ends_inv heap 0 s (released h s) (inv_invt heap 0 s Hv) _ _ _ Hc Hr Hs _)).
    + split; try reflexivity; [by split_and! | done | by split_and!].
    + intros E. pose proof (proj1 Hk) as Hrun. by rewrite E in Hrun.
    + apply released_life; [apply Hv | done].
    + intros t. destruct (holding s t) eqn:E; [| done]. pose proof (lock_open heap t s Hv E). congruence.
  - split_and!.
    + exact (Hfact Idle ltac:(unfold end_facts; set_solver)).
    + exact (Hfact CoordinatorKept ltac:(unfold end_facts; set_solver)).
    + exact (Hfact ReclaimerKept ltac:(unfold end_facts; set_solver)).
    + destruct (Hfact SupervisorKept) as [H _]; [unfold end_facts; set_solver |]. split; [exact H |]. intros _ x Hx. done.
Qed.

Lemma release_spec b : spec (know (end_facts ++ failing_facts b)) (section release_parts)
  (λ r s, at_boundary s ∧ ended_with r s ∧ (b = true → fact Failing s)).
Proof.
  apply triple_section; [apply _ | intros r; apply _ |]. intros s Hv Hkb Hl. assert (know end_facts s) as Hk by (eapply know_weaken; [exact Hkb | set_solver]).
  unfold release_parts. rewrite (end_destroyable s Hv Hk Hl).
  destruct (running_complete heap s Hv (proj1 Hk)) as (Hf & _ & _ & _ & u & Hu). unfold the_updates. rewrite Hf, Hu. cbn [from_option_ub chain].
  set (h := set_filter_version _ _). destruct (released_inv h s Hv Hk Hl) as (Hv' & Hb & Hfin). exists (exit_result_locked (released h s)), (released h s).
  split; [done |]. split; [done |]. split_and!; [done.. |]. intros ->. exact (know_fact Failing _ s Hkb ltac:(set_solver)).
Qed.

(** ** The steps in order *)
Definition stay_facts (b : bool) : list Fact := Closed :: Idle :: kept_facts ++ failing_facts b.

Lemma next_step P Q R S (step : M bool) l : (∀ b : bool, Lasting (if b then S else R)) → spec P step (λ b s, if b : bool then Q s else R s) →
  spec Q (all_steps l) (λ b, if b : bool then S else R) → spec P (all_steps (step :: l)) (λ b, if b : bool then S else R).
Proof.
  intros HS Hstep Hl. cbn [all_steps]. eapply triple_bind; [exact Hstep |]. intros [|]; [exact Hl |]. apply triple_value; [apply (HS false) | done].
Qed.

(** A step by its triple [L]; the goals left are about lists. *)
Ltac step Q L := apply (next_step _ (know Q)); [intros []; apply _ | eapply triple_conseq; [apply L; [listed ..] | intros s _ Hk; listing Hk | intros [] s _ Hk; listing Hk] |].

Lemma teardown_steps_spec b : spec (know (Idle :: Closed :: Sealed :: kept_facts ++ failing_facts b)) (all_steps (teardown_steps heap))
  (λ ok, if ok : bool then know (end_facts ++ failing_facts b) else know (stay_facts b)).
Proof.
  set (p4 := [SupervisorKept; SupervisorGone; Joined; Closed; Sealed; CoordinatorKept] ++ failing_facts b). set (p6 := CoordinatorGone :: p4).
  set (p1 := [Idle; Closed; Sealed; CoordinatorKept; ReclaimerKept] ++ failing_facts b). unfold teardown_steps.
  step (SupervisorKept :: SupervisorGone :: p1) (drain_supervisor_spec heap p1).
  step (SupervisorKept :: SupervisorGone :: Joined :: p1) (emergency_join_spec heap p1).
  step (Idle :: Known :: ReclaimerKept :: p4) (replace_exited_reclaimer_spec heap (Idle :: p4)).
  step (Idle :: Known :: ReclaimerKept :: p4) (finish_coordinator_spec heap p4).
  step (Idle :: Known :: ReclaimerKept :: p6)
    (drain_coordinator_spec heap ([SupervisorKept; SupervisorGone; Joined; Closed; Sealed; Idle; Known; ReclaimerKept] ++ failing_facts b)).
  step (Idle :: Known :: ReclaimerKept :: p6) (complete_by_successor_spec heap p6).
  step (Idle :: Known :: ReclaimerKept :: p6) (seal_and_detach_spec heap (Idle :: Known :: ReclaimerKept :: p6)).
  step (Reclaimed :: ReclaimerGone :: Idle :: ReclaimerKept :: p6) (finish_reclaimer_spec heap p6).
  step (end_facts ++ failing_facts b) (complete_last_spec heap (Reclaimed :: ReclaimerGone :: ReclaimerKept :: p6)).
  apply triple_value; [apply _ | done].
Qed.

(** ** [finish_teardown] *)
#[export] Instance running_lasting : Lasting (λ s, running (state_ s) = true).
Proof. intros s s' _ _ Hr. apply (rl_running _ _ _ Hr). Qed.

#[export] Instance stopping_lasting : Lasting (λ s, state_ s = Stopping).
Proof. intros s s' _ _ Hr. apply (rl_stopping _ _ _ Hr). Qed.
#[export] Instance resting_lasting : Lasting (λ s, running (state_ s) = false).
Proof. intros s s' _ _ Hr. apply (rl_rest _ _ _ Hr). Qed.

Lemma know_boundary l s : Idle :: kept_facts ⊆ l → know l s → at_boundary s.
Proof.
  intros Hs Hk. pose proof (know_weaken _ _ _ Hk Hs) as H. split_and!; [exact (know_fact Idle _ s H ltac:(listed)) | exact (know_fact CoordinatorKept _ s H ltac:(listed)) |
    exact (know_fact ReclaimerKept _ s H ltac:(listed)) | exact (know_fact SupervisorKept _ s H ltac:(listed))].
Qed.
Lemma boundary_know s : running (state_ s) = true → at_boundary s → know (Idle :: kept_facts) s.
Proof. intros Hr (H1 & H2 & H3 & H4). split; [done |]. repeat (constructor; [done |]). done. Qed.

Lemma incomplete_safe b s : inv s → know (stay_facts b) s → let s' := set_health (unavailable (health_ s)) (set_state Stopping s) in
  inv s' ∧ know (stay_facts b) s'.
Proof.
  intros Hv Hk s'. pose proof (know_fact Closed _ s Hk ltac:(listed)) as Ha. cbn in Ha. destruct (iv_life _ _ _ Hv) as [H1 H2 H3 H4 H5 H6].
  apply (know_goes heap _ s s' Hv Hk). apply (life_goes heap 0 s s' (inv_invt heap 0 s Hv)); try done.
  - split; cbn; try done; [by intros [? | [? | [? | ?]]] | by rewrite Ha | by intros [? | ?]].
  - right. split; [apply Hk | done].
  - by left.
Qed.

(** What the teardown of a service that runs leaves: the end, or a service that still runs. *)
Definition torn (b : bool) (r : DNSServiceExitResult) (s : State) : Prop :=
  at_boundary s ∧ (ended_with r s ∨ state_ s = Stopping ∧ exit_code r = ServiceExitCode.TeardownIncomplete) ∧ (b = true → fact Failing s).

Lemma incomplete_spec b : spec (know (stay_facts b)) teardown_incomplete (torn b).
Proof.
  unfold torn. apply triple_section; [apply _ | intros r; apply _ | intros s Hv Hk Hl]. destruct (incomplete_safe b s Hv Hk) as [Hv' Hk'].
  eexists _, _. split; [reflexivity |]. split; [done |]. split_and!; [by apply (know_boundary (stay_facts b)); [listed |] | by right |].
  intros ->. exact (know_fact Failing _ _ Hk' ltac:(listed)).
Qed.

(** [finish_teardown] after its first critical section. *)
Definition teardown_rest : M DNSServiceExitResult :=
  _ ← request_runtime_stop heap;
  ok ← all_steps (teardown_steps heap);
  if (ok : bool) then section release_parts else teardown_incomplete.

Lemma teardown_rest_spec b : spec (know (Idle :: kept_facts ++ failing_facts b)) teardown_rest (torn b).
Proof.
  eapply (triple_bind heap _ _ _ (λ _, know (Idle :: Closed :: Sealed :: kept_facts ++ failing_facts b))).
  { apply (request_runtime_stop_spec heap (kept_facts ++ failing_facts b)); listed. }
  intros _. eapply triple_bind; [exact (teardown_steps_spec b) |]. intros [|].
  - eapply triple_post; [apply release_spec |]. intros r s _ (Hb & He & Hf). split_and!; [done | by left | done].
  - apply incomplete_spec.
Qed.

Lemma teardown_running_spec b : spec (know (Idle :: kept_facts ++ failing_facts b)) (finish_teardown heap) (torn b).
Proof.
  unfold finish_teardown. eapply (triple_bind heap _ _ _ (λ o s, o = None ∧ know (Idle :: kept_facts ++ failing_facts b) s)).
  { apply triple_section; [apply _ | intros o; apply _ |]. intros s Hv Hk _. eexists _, s. split; [reflexivity |]. split; [done |].
    pose proof (proj1 Hk) as Hr. by destruct (state_ s). }
  intros [r |]; [by intros s _ [? _] |]. eapply triple_pre; [apply teardown_rest_spec | by intros s _ [_ ?]].
Qed.

(** What the teardown returns: the result of the end; that there was nothing to tear down; or
    that it is to be tried again. *)
Definition torn_to (r : DNSServiceExitResult) (s : State) : Prop :=
  ended_with r s ∨ running (state_ s) = false ∧ exit_code r = ServiceExitCode.NotStarted ∨
  state_ s = Stopping ∧ exit_code r = ServiceExitCode.TeardownIncomplete.
#[export] Instance torn_to_lasting r : Lasting (torn_to r).
Proof. unfold torn_to. apply _. Qed.

Theorem finish_teardown_spec : spec at_boundary (finish_teardown heap) (λ r s, at_boundary s ∧ torn_to r s).
Proof.
  unfold finish_teardown. eapply (triple_bind heap _ _ _ (λ o s, at_boundary s ∧ match o with Some r => torn_to r s | None => running (state_ s) = true end)).
  { apply triple_section; [apply _ | intros o; apply _ |]. intros s Hv Hb _. eexists _, s. split; [reflexivity |]. split; [done |]. split; [done |].
    pose proof (lf_begin _ _ _ _ _ _ _ (iv_life _ _ _ Hv)) as Hc. unfold torn_to, ended_with, exit_result_locked.
    destruct (state_ s) eqn:E; cbn; auto; rewrite Hc by auto; auto. }
  intros [r |]; [by apply triple_value; [apply _ |] |].
  eapply triple_conseq; [apply (teardown_rest_spec false) | intros s _ [Hb Hr]; by apply boundary_know |].
  intros r s _ (Hb & He & _). split; [done |]. destruct He as [He | He]; [by left | by right; right].
Qed.
End finish.
