(* ===== verification/ServiceStart.v ===== *)
(** * The start of the service

    [start_spec]: what [start] leaves, whatever the other threads and callers do: a service
    that runs with its data plane released, or one that has been torn down again. *)
From stdpp Require Import relations functions.
From Stdlib Require Import Strings.Byte.
From S2P Require Import Prelude DomainBlocklist FilterPublication PublicationClaims FilterUpdateController UpdateInvariant UpdateClaims Concurrency WorkerSupervisor SupervisorInvariant SupervisorThread SupervisorMonitor SupervisorRun SupervisorClaims SupervisorFrame UpdateFrame DnsService ServiceInvariant ServiceSteps ServiceOwner ServiceTeardown ServiceRelease ServiceEnd.
Import Service.
#[local] Existing Instance Service.M_ret.
#[local] Existing Instance Service.M_bind.

Section starting.
Context {F : Type}.
Variable heap : nat → FilterContext F.
Notation inv := (ServiceInvariant.inv heap).
Notation rely := (ServiceInvariant.rely heap).
Notation spec := (ServiceOwner.spec heap).
Notation Lasting := (ServiceOwner.Lasting heap).
Notation wp := (Concurrency.wp inv rely).

(** ** The attempt *)
Definition base_facts : list Fact := Idle :: NotActive :: kept_facts.
Definition accept_facts : list Fact := NoSupervisor :: CoordinatorGone :: ReclaimerGone :: base_facts.

Definition accepted (attempt : Z) (s : State) : State :=
  set_startup_attempt_id attempt (set_startup_stop false (set_health (set_last_error None (set_effective_bound_port None (unavailable (health_ s))))
    (set_update_admission_open false (set_fatal_error None (set_startup_error None (set_stop_cause NoCause (set_state Starting s))))))).

Lemma accepted_inv attempt s : inv s → state_ s = Initialized → inv (accepted attempt s).
Proof.
  intros [H01 H02 H03 H04 H05 H06 H07 H08 H09 H10 H11 H12 H13 H14 H15 H16 H17 H18] Es. unfold accepted. split; try done.
  - split; cbn; try done. by intros [? | ?].
  - unfold parts in *. rewrite Es in H03. apply H03.
  - split; [done | apply H04].
  - split; [| apply H05]. intros t c Ht. destruct (proj1 H05 _ _ Ht). congruence.
Qed.

Lemma accept_start_spec : spec at_boundary accept_start (λ o s, match o with
  | None => at_boundary s
  | Some _ => know accept_facts s
  end).
Proof.
  apply triple_section; [apply _ | intros o; apply _ |]. intros s Hv (Hi & Hck & Hrk & Hsk) Hl. destruct (decide (state_ s = Initialized)) as [Es |]; [| by exists None, s].
  destruct (_ && _); [| by exists None, s]. set (attempt := wrap64 _).
  destruct (iv_threads _ _ _ Hv) as [Hth _]. destruct (Hth ltac:(by rewrite Es)) as (Hc & Hr & Hs).
  pose proof (iv_parts _ _ _ Hv) as Hp. unfold parts in Hp. rewrite Es in Hp. destruct Hp as [_ Hx].
  exists (Some attempt), (accepted attempt s). split; [done |]. split; [by apply accepted_inv |].
  split; [done |]. repeat (constructor; [done |]). done.
Qed.

Lemma control_reset_spec l attempt : spec (know l) (atomically (λ _ s, chain (on_control (λ _, control_reset attempt) s) (λ s, Val ((), s)))) (λ _, know l).
Proof.
  apply triple_atomically; [apply _ | intros _; apply _ |]. intros e s Hv Hk. destruct (running_complete heap s Hv (proj1 Hk)) as (_ & _ & Hc & _).
  destruct (on_control_safe heap 0 (λ _, control_reset attempt) s (inv_invt heap 0 s Hv) Hc) as (c & -> & Hg).
  destruct (know_goes heap l s _ Hv Hk Hg) as [Hv' Hk']. by eexists (), _.
Qed.

(** ** The supervisor *)
Definition created_facts : list Fact := Fresh :: CoordinatorGone :: ReclaimerGone :: base_facts.

Lemma supervisor_created s f u : inv s → know accept_facts s → updates s = Some u →
  let x := Supervisor.set_service_stop (startup_stop_ s) (Supervisor.make_supervisor (supervisor_config f s) (Update.world u)) in
  inv (set_supervisor (Some x) s) ∧ know created_facts (set_supervisor (Some x) s).
Proof.
  intros Hv Hk Hu x. pose proof (know_fact NoSupervisor _ s Hk ltac:(listed)) as Hx. cbn in Hx.
  pose proof (know_fact NotActive _ s Hk ltac:(listed)) as [Hna _]. pose proof (know_fact SupervisorKept _ s Hk ltac:(listed)) as [Hsk _].
  destruct (running_complete heap s Hv (proj1 Hk)) as [Hf _].
  assert (supervisor_run s = None) as Hn.
  { destruct (supervisor_run s) eqn:E; [| done]. destruct (iv_threads _ _ _ Hv) as [_ H]. destruct (H ltac:(by rewrite E)). congruence. }
  destruct (make_inv heap (supervisor_config f s) (Update.world u)) as [Hi Hst]; [apply Hv | by apply (iv_clean _ _ _ Hv) |].
  assert (SupervisorInvariant.inv heap (supervisor_config f s) (Update.world u) x) as Hix by (destruct Hi; by split).
  assert (start_of (supervisor_config f s) x) as Hsx by exact Hst. clear Hi Hst.
  split.
  - destruct Hv as [H01 H02 H03 H04 H05 H06 H07 H08 H09 H10 H11 H12 H13 H14 H15 H16 H17 H18]. split; try done.
    + unfold parts in *. cbn. pose proof (proj1 Hk) as Hrun. by destruct (state_ s).
    + split; [apply H04 | by eexists].
    + intros _ x1 [= <-]. split_and!; [done.. | by exists u |]. exists (Update.world u). cbn. by rewrite Hn.
  - assert (at_rest (set_supervisor (Some x) s)) as Hat by (intros x1 [= <-]; apply Hsx).
    assert (know (CoordinatorGone :: ReclaimerGone :: [Idle; NotActive; CoordinatorKept; ReclaimerKept]) (set_supervisor (Some x) s)) as Hk1.
    { apply (know_change [NoSupervisor; HasSupervisor; Fresh; Joined; SupervisorGone; SupervisorKept] _ s); [| done | listed | listing Hk].
      intros f1 Hf1. destruct f1; try done; by destruct Hf1; set_solver. }
    apply (know_weaken (Fresh :: SupervisorKept :: CoordinatorGone :: ReclaimerGone :: [Idle; NotActive; CoordinatorKept; ReclaimerKept])); [| listed].
    apply know_add; [apply know_add; [done | done] |]. split; [done |]. by exists x.
Qed.

Lemma create_supervisor_spec : spec (know accept_facts) create_supervisor
  (λ o, know (match o with Some _ => base_facts | None => created_facts end)).
Proof.
  apply triple_action; [apply _ | intros o; apply _ |]. intros e s o Hv Hk H. destruct (lifecycle_owner s); [done |]. injection H as <-.
  destruct (running_complete heap s Hv (proj1 Hk)) as (_ & _ & Hc & [f Hfa] & _). destruct (publication_there heap 0 s (inv_invt heap 0 s Hv) Hc) as (u & Hu & _ & Hp).
  unfold the_faults. rewrite Hfa, Hp. cbn [from_option_ub chain]. destruct (supervisor_error e) as [n |].
  - exists (Some n), s. split_and!; [done.. |]. listing Hk.
  - destruct (supervisor_created s f u Hv Hk Hu). by eexists None, _.
Qed.

(** ** The threads *)
Lemma create_thread_spec (injected : FaultInjection → bool) begin keep P mid Q : Lasting P → Lasting mid → Lasting Q →
  (∀ s, P s → running (state_ s) = true) → (∀ s, inv s → P s → inv (begin s) ∧ mid (begin s)) →
  (∀ s, inv s → mid s → inv (keep s) ∧ Q (keep s)) →
  spec P (create_thread injected begin keep) (λ o s, match o with Some _ => P s | None => Q s end).
Proof.
  intros HP Hmid HQ Hrun Hbegin Hkeep. unfold create_thread. eapply (triple_bind heap _ _ _ (λ _, P)).
  { apply triple_look; [apply _ | intros f; apply _ |]. intros s Hv Hs. destruct (running_complete heap s Hv (Hrun s Hs)) as (_ & _ & _ & [f Hf] & _).
    exists f. unfold the_faults. by rewrite Hf. }
  intros f. destruct (injected f); [by apply triple_value; [apply _ |] |].
  eapply (triple_bind heap _ _ _ (λ o s, match o with Some _ => P s | None => mid s end)).
  { apply triple_atomically; [apply _ | intros o; apply _ |]. intros e s Hv Hs. destruct (thread_error e) as [n |]; [by exists (Some n), s |].
    destruct (Hbegin s Hv Hs). by exists None, (begin s). }
  intros [n |]; [by apply triple_value; [apply _ |] |]. eapply (triple_bind heap _ _ _ (λ _, Q)); [| intros _; by apply triple_value; [apply _ |]].
  apply triple_section; [apply _ | intros _; apply _ |]. intros s Hv Hs _. destruct (Hkeep s Hv Hs). by exists (), (keep s).
Qed.

Lemma reclaimer_created a s : inv s → running (state_ s) = true → reclaimer_run s = None → inv (set_reclaimer_run (Some (a, ReclaimerStart)) s).
Proof.
  intros [H01 H02 H03 H04 H05 H06 H07 H08 H09 H10 H11 H12 H13 H14 H15 H16 H17 H18] Hrun Hn. split; try done.
  - split; [| apply H04]. intros E. cbn in E. congruence.
  - intros _ u Hu Hf. specialize (H12 ltac:(done) u Hu Hf). by rewrite Hn in H12.
  - intros [| [| [| t]]] u Ht Hne; try done; [exact (H13 _ u Ht Hne) | | exact (H13 _ u Ht Hne)]. specialize (H13 2%nat u Ht Hne). cbn in *. by rewrite Hn in H13.
  - intros [| [| [| t]]] Hne; try done; exact (H15 _ Hne).
Qed.

Lemma create_reclaimer_spec a l : Forall (.∉ [ReclaimerKept; ReclaimerFree; ReclaimerGone; Known]) l →
  spec (know (ReclaimerKept :: ReclaimerGone :: l)) (create_reclaimer a)
    (λ o s, match o with Some _ => know (ReclaimerKept :: ReclaimerGone :: l) s | None => know (ReclaimerKept :: l) s end).
Proof.
  intros Hl. apply (create_thread_spec _ _ _ _ (λ s, know l s ∧ reclaimer_run s ≠ None)); [apply _ | | apply _ | by intros s [? _] | |].
  - assert (Lasting (λ s, reclaimer_run s ≠ None)) by (intros s s' _ _ Hr; apply (run_lasting heap s s' Hr)). apply _.
  - intros s Hv Hk. pose proof (know_fact ReclaimerGone _ s Hk ltac:(set_solver)) as Hn. split; [by apply reclaimer_created; [| apply Hk |] |]. split; [| done].
    apply (know_change [ReclaimerKept; ReclaimerFree; ReclaimerGone; Known] _ s); [| done | done | eapply know_weaken; [exact Hk | set_solver]].
    intros f Hf. destruct f; try done; by destruct Hf; set_solver.
  - intros s Hv [Hk Hn]. split; [by apply reclaimer_member |]. apply know_add; [| by cbn].
    apply (know_change [ReclaimerKept; ReclaimerFree; ReclaimerGone; Known] _ s); [| done | done | done].
    intros f Hf. destruct f; try done; by destruct Hf; set_solver.
Qed.

Lemma coordinator_created a s : inv s → running (state_ s) = true → coordinator_run s = None → inv (set_coordinator_run (Some (a, CoordinatorStart)) s).
Proof.
  intros [H01 H02 H03 H04 H05 H06 H07 H08 H09 H10 H11 H12 H13 H14 H15 H16 H17 H18] Hrun Hn. split; try done.
  - split; [| apply H04]. intros E. cbn in E. congruence.
  - intros [| [| t]] u Ht Hne; try done; [| exact (H13 _ u Ht Hne)]. specialize (H13 1%nat u Ht Hne). cbn in *. by rewrite Hn in H13.
  - intros [| [| t]] Hne; try done. exact (H15 _ Hne).
Qed.

Lemma create_coordinator_spec a l : Forall (.∉ [CoordinatorKept; CoordinatorFree; CoordinatorGone; Reclaimed; NothingInflight]) l →
  spec (know (CoordinatorKept :: CoordinatorGone :: l)) (create_coordinator a)
    (λ o s, match o with Some _ => know (CoordinatorKept :: CoordinatorGone :: l) s | None => know (CoordinatorKept :: l) s end).
Proof.
  intros Hl. apply (create_thread_spec _ _ _ _ (λ s, know l s ∧ coordinator_run s ≠ None)); [apply _ | | apply _ | by intros s [? _] | |].
  - assert (Lasting (λ s, coordinator_run s ≠ None)) by (intros s s' _ _ Hr; apply (run_lasting heap s s' Hr)). apply _.
  - intros s Hv Hk. pose proof (know_fact CoordinatorGone _ s Hk ltac:(set_solver)) as Hn. split; [by apply coordinator_created; [| apply Hk |] |]. split; [| done].
    apply (know_change [CoordinatorKept; CoordinatorFree; CoordinatorGone; Reclaimed; NothingInflight] _ s); [| done | done | eapply know_weaken; [exact Hk | set_solver]].
    intros f Hf. destruct f; try done; by destruct Hf; set_solver.
  - intros s Hv [Hk Hn]. split; [by apply coordinator_member |]. apply know_add; [| by cbn].
    apply (know_change [CoordinatorKept; CoordinatorFree; CoordinatorGone; Reclaimed; NothingInflight] _ s); [| done | done | done].
    intros f Hf. destruct f; try done; by destruct Hf; set_solver.
Qed.

(** Thread C begins [run]. *)
Definition with_c (a : Z) (s : State) : State :=
  set_supervisor_run (Some (a, SupervisorRunning (Supervisor.run heap))) (set_supervisor_thread_stop false s).

Lemma supervisor_begun a s : inv s → running (state_ s) = true → fact Fresh s → inv (with_c a s).
Proof.
  intros [H01 H02 H03 H04 H05 H06 H07 H08 H09 H10 H11 H12 H13 H14 H15 H16 H17 H18] Hrun (Hn & x & Hx & Hst). split; try done.
  - split; [| by exists x]. intros E. cbn in E. congruence.
  - intros Hne x1 Hx1. cbn in Hx1. rewrite Hx in Hx1. injection Hx1 as <-. destruct (H11 Hne x Hx) as (? & ? & Hm & ? & p0 & Hi & _).
    split_and!; [done.. |]. exists p0. split; [done |]. split; [| apply run_frame]. by apply (run_wp heap _ p0 Hm x Hi).
  - intros [| [| [| [| t]]]] u Ht Hne; try done; try exact (H13 _ u Ht Hne). specialize (H13 3%nat u Ht Hne). cbn in *. by rewrite Hn in H13.
  - intros [| [| [| [| t]]]] Hne; try done; exact (H15 _ Hne).
Qed.

Lemma create_supervisor_thread_spec a l : Forall (.∉ [Fresh; Joined; SupervisorKept; SupervisorFree; SupervisorGone]) l →
  spec (know (Fresh :: SupervisorKept :: l)) (create_supervisor_thread heap a)
    (λ o s, match o with Some _ => know (Fresh :: SupervisorKept :: l) s | None => know (SupervisorKept :: l) s end).
Proof.
  intros Hl. apply (create_thread_spec _ (with_c a) _ _ (λ s, know l s ∧ supervisor_run s ≠ None)); [apply _ | | apply _ | by intros s [? _] | |].
  - assert (Lasting (λ s, supervisor_run s ≠ None)) by (intros s s' _ _ Hr; apply (run_lasting heap s s' Hr)). apply _.
  - intros s Hv Hk. pose proof (know_fact Fresh _ s Hk ltac:(left)) as Hn. split; [by apply supervisor_begun; [| apply Hk |] |]. split; [| done].
    apply (know_change [Fresh; Joined; SupervisorKept; SupervisorFree; SupervisorGone] _ s); [| done | done | eapply know_weaken; [exact Hk | set_solver]].
    intros f Hf. destruct f; try done; by destruct Hf; set_solver.
  - intros s Hv [Hk Hn]. split; [by apply supervisor_member |]. apply know_add; [| by split].
    apply (know_change [Fresh; Joined; SupervisorKept; SupervisorFree; SupervisorGone] _ s); [| done | done | done].
    intros f Hf. destruct f; try done; by destruct Hf; set_solver.
Qed.

(** The supervisor is there; what holds until the data plane is released. *)
Definition run_facts : list Fact := HasSupervisor :: base_facts.

Lemma triple_reads {A} l (f : State → outcome unit A) : (∀ s, inv s → know l s → ∃ a, f s = Val a) → spec (know l) (look f) (λ _, know l).
Proof. intros H. apply triple_look; [apply _ | intros a; apply _ |]. intros s Hv Hk. destruct (H s Hv Hk) as [a ->]. by exists a. Qed.

Lemma create_threads_spec a : spec (know created_facts) (create_threads heap a) (λ _, know run_facts).
Proof.
  set (l := [Fresh; HasSupervisor; Idle; NotActive; SupervisorKept]). unfold create_threads.
  eapply (triple_bind heap _ _ _ (λ _, know (ReclaimerKept :: ReclaimerGone :: CoordinatorKept :: CoordinatorGone :: l))).
  { eapply triple_pre; [apply triple_reads; intros s _ _; by eexists |]. intros s _ Hk. pose proof (know_fact Fresh _ s Hk ltac:(listed)) as (_ & x & Hx & _).
    apply (know_weaken (HasSupervisor :: created_facts)); [| listed]. apply know_add; [done | by exists x]. }
  intros updating. eapply (triple_bind heap _ _ _ (λ _, know (Fresh :: SupervisorKept :: [ReclaimerKept; CoordinatorKept; HasSupervisor; Idle; NotActive]))).
  { destruct updating; [| apply triple_value; [apply _ |]; intros s _ Hk; listing Hk].
    eapply triple_bind; [apply (create_reclaimer_spec a (CoordinatorKept :: CoordinatorGone :: l)); listed |].
    intros [n |]; [apply triple_value; [apply _ |]; intros s _ Hk; listing Hk |].
    eapply (triple_bind heap _ _ _ (λ _, know (CoordinatorKept :: ReclaimerKept :: l))).
    { eapply triple_conseq; [apply (create_coordinator_spec a (ReclaimerKept :: l)); listed | intros s _ Hk; listing Hk | intros [n |] s _ Hk; listing Hk]. }
    intros failed. apply triple_value; [apply _ |]. intros s _ Hk. listing Hk. }
  intros [e |]; [apply triple_value; [apply _ |]; intros s _ Hk; listing Hk |].
  eapply (triple_bind heap _ _ _ (λ _, know run_facts)); [| intros failed; by apply triple_value; [apply _ |]].
  eapply triple_post; [apply (create_supervisor_thread_spec a [ReclaimerKept; CoordinatorKept; HasSupervisor; Idle; NotActive]); listed |].
  intros [n |] s _ Hk; listing Hk.
Qed.

(** ** Waiting for the threads *)
Lemma await_role_spec l ready exited failure role : spec (know l) (await_role ready exited failure role) (λ _, know l).
Proof.
  unfold await_role. eapply (triple_bind heap _ _ _ (λ _, know l)).
  { apply triple_action; [apply _ | intros a; apply _ |]. intros e s o Hv Hk H. destruct (running_complete heap s Hv (proj1 Hk)) as (_ & _ & [c Hc] & _).
    unfold the_control in H. rewrite Hc in H. cbn [from_option_ub] in H. destruct (_ || _); [| done]. injection H as <-. by eexists _, s. }
  intros seen. destruct (negb seen.1); [| by apply triple_value; [apply _ |]].
  eapply triple_bind; [apply (triple_reads l); intros s _ _; by eexists |]. intros stopped. by apply triple_value; [apply _ |].
Qed.

Lemma await_control_plane_spec l : spec (know l) await_control_plane (λ _, know l).
Proof.
  unfold await_control_plane. eapply triple_bind; [apply (triple_reads l); intros s _ _; by eexists |].
  intros [|]; [| by apply triple_value; [apply _ |]]. eapply triple_bind; [apply await_role_spec |].
  intros [e |]; [by apply triple_value; [apply _ |] | apply await_role_spec].
Qed.

Lemma supervisor_wait_spec {A} l (f : bool → Supervisor.State → option A) : HasSupervisor ∈ l → spec (know l) (supervisor_wait f) (λ _, know l).
Proof.
  intros Hl. apply triple_action; [apply _ | intros a; apply _ |]. intros e s o Hv Hk H. destruct (know_fact HasSupervisor _ s Hk Hl) as [x Hx].
  unfold the_supervisor in H. rewrite Hx in H. cbn [from_option_ub] in H. destruct (f _ x) as [a |]; [| done]. injection H as <-. by exists a, s.
Qed.

Lemma request_activation_spec l attempt : HasSupervisor ∈ l → spec (know l) (request_activation attempt) (λ _, know l).
Proof.
  intros Hl. apply triple_section; [apply _ | intros a; apply _ |]. intros s Hv Hk _. destruct (still_starting attempt s); [| by exists false, s].
  destruct (know_fact HasSupervisor _ s Hk Hl) as [x Hx]. unfold the_supervisor. rewrite Hx. cbn [from_option_ub chain].
  destruct (Supervisor.request_activation x) as [ok x'] eqn:E. exists ok, (put_supervisor x' s). split; [done |].
  apply (know_goes heap l s _ Hv Hk). eapply (supervisor_goes heap 0 Supervisor.RequestActivation); [by apply inv_invt | exact Hx | | done].
  cbn. by rewrite E.
Qed.

Lemma startup_pause_spec l : spec (know l) startup_pause (λ _, know l).
Proof.
  assert (∀ s, inv s → know l s → ∃ f, the_faults s = Val f ∧ is_Some (faults_ s)) as Hfaults.
  { intros s Hv Hk. destruct (running_complete heap s Hv (proj1 Hk)) as (_ & _ & _ & [f Hf] & _). exists f. unfold the_faults. by rewrite Hf. }
  unfold startup_pause. eapply triple_bind; [apply (triple_reads l); intros s Hv Hk; destruct (Hfaults s Hv Hk) as (f & ? & _); by exists f |].
  intros f. destruct (startup_pause_armed f); [| by apply triple_value; [apply _ |]]. eapply (triple_bind heap _ _ _ (λ _, know l)).
  { apply triple_atomically; [apply _ | intros a; apply _ |]. intros e s Hv Hk. destruct (Hfaults s Hv Hk) as (f1 & -> & Hsome). cbn [chain].
    eexists _, _. split; [reflexivity |]. by apply (know_goes heap l s _ Hv Hk), faults_change; [apply inv_invt |]. }
  intros _. apply triple_action; [apply _ | intros a; apply _ |]. intros e s o Hv Hk H. destruct (Hfaults s Hv Hk) as (f1 & Hf1 & _). rewrite Hf1 in H.
  destruct (negb _); [injection H as <-; by exists false, s |]. destruct (startup_stop_ s); [injection H as <-; by exists true, s | done].
Qed.

(** ** The commit *)
Definition serving (s : State) : Prop := ∃ x, supervisor_ s = Some x ∧ Supervisor.data_plane_released_ x = true.
#[export] Instance serving_lasting : Lasting serving.
Proof.
  intros s s' _ _ Hr (x & Hx & Hd). pose proof (rl_supervisor _ _ _ Hr) as H. rewrite Hx in H. destruct H as (x' & Hx' & _ & H & _). exists x'. auto.
Qed.
Definition started (s : State) : Prop := state_ s ≠ Active → state_ s = Stopping.
#[export] Instance started_lasting : Lasting started.
Proof.
  intros s s' _ _ Hr H Hn. destruct (decide (state_ s = Active)) as [Ha | Ha]; [by apply (rl_serving _ _ _ Hr) | by apply (rl_stopping _ _ _ Hr), H].
Qed.
Definition serving_facts : list Fact := HasSupervisor :: Idle :: kept_facts.

Definition now_active (h : DNSHealthSnapshot) (s : State) : State :=
  set_update_admission_open (runtime_updates_enabled (config_ s)) (set_health h (set_state Active s)).

Lemma now_active_inv h s : inv s → state_ s = Starting → serving s → inv (now_active h s).
Proof.
  intros [H01 H02 H03 H04 H05 H06 H07 H08 H09 H10 H11 H12 H13 H14 H15 H16 H17 H18] Es (x & Hx & Hd). unfold now_active. split; try done.
  - destruct H02 as [L1 L2 L3 L4 L5 L6]. rewrite Es in *. split; cbn; try done. intros _. apply L1. auto.
  - unfold parts in *. by rewrite Es in H03.
  - split; [| apply H05]. intros t c Ht. destruct (proj1 H05 _ _ Ht). congruence.
  - intros x1 _ Hx1. cbn in Hx1. congruence.
Qed.

(** The data plane is not released: the service goes on to fail. *)
Lemma not_committed h s : inv s → know run_facts s → life_of s → health_state h = Unavailable → available_workers h = 0 →
  let s' := set_update_admission_open false (set_health h s) in inv s' ∧ know run_facts s'.
Proof.
  intros Hv Hk [H1 H2 H3 H4 H5 H6] Hh1 Hh2 s'. apply (know_goes heap run_facts s s' Hv Hk). apply (life_goes heap 0 s s' (inv_invt heap 0 s Hv)); try done.
  - split; cbn; try done. rewrite Hh1, Hh2. by intros [? | ?].
  - by left.
  - by left.
Qed.

Lemma released_now x x' : Supervisor.release_data_plane x = (inl (), x') → Supervisor.data_plane_released_ x' = true.
Proof. unfold Supervisor.release_data_plane. intros E. repeat (case_match; try done); by injection E as <-. Qed.

Lemma commit_startup_does attempt port s : inv s → know run_facts s →
  does heap (commit_startup attempt port s) (λ c s, if c.1 : bool then (know serving_facts s ∧ started s) ∧ serving s else know run_facts s).
Proof.
  intros Hv Hk. unfold commit_startup. destruct (still_starting attempt s) eqn:Es; [| by eexists _, s].
  unfold still_starting in Es. apply andb_true_iff in Es as [[Est _]%andb_true_iff _]. apply bool_decide_eq_true in Est.
  destruct (updating heap s Hv (proj1 Hk)) as (u & Hu & ->). cbn [chain]. destruct (know_fact HasSupervisor _ s Hk ltac:(listed)) as [x Hx].
  unfold the_supervisor. rewrite Hx. cbn [from_option_ub chain]. destruct (Supervisor.release_data_plane x) as [r x'] eqn:E.
  destruct (know_goes heap run_facts s (put_supervisor x' s) Hv Hk) as [Hv' Hk'].
  { eapply (supervisor_goes heap 0 Supervisor.ReleaseDataPlane); [by apply inv_invt | exact Hx | cbn; by rewrite E | done]. }
  destruct r as [[] | e]; cbv zeta.
  - set (h := set_filter_version _ _). exists (true, None), (now_active h (put_supervisor x' s)). split; [done |].
    assert (serving (put_supervisor x' s)) as Hs.
    { exists x'. split; [done |]. by apply (released_now x). }
    split; [by apply now_active_inv |]. split; [| exact Hs]. split; [| by intros []]. apply (know_change [NotActive; Closed] _ (put_supervisor x' s)); [| | listed | listing Hk'].
    + intros f Hf. destruct f; try done; by destruct Hf; set_solver.
    + pose proof (proj1 Hk') as Hrun. by rewrite Hrun.
  - set (h := set_effective_bound_port _ _). eexists (false, _), (set_update_admission_open false (set_health h (put_supervisor x' s))). split; [reflexivity |].
    by apply not_committed; [| | apply Hv' | |].
Qed.

Lemma commit_locked_spec attempt port : spec (know run_facts) (commit_locked attempt port)
  (λ c s, if c.1 : bool then (know serving_facts s ∧ started s) ∧ serving s else know run_facts s).
Proof.
  apply triple_section; [apply _ | intros [[|] o]; cbn; apply _ |]. intros s Hv Hk _. destruct (runtime_updates_enabled _); [| by apply commit_startup_does].
  destruct (running_complete heap s Hv (proj1 Hk)) as (_ & _ & [c Hc] & _). unfold the_control. rewrite Hc. cbn [from_option_ub chain].
  destruct (_ && _); [by apply commit_startup_does |]. destruct (bool_decide _); by eexists (false, _), s.
Qed.

(** ** A start that fails *)

(** The error that [start] returns is the one that the service has kept, or that of a stop
    that was asked for. *)
Definition start_failed (e : DNSStartError) (s : State) : Prop :=
  stop_cause_ s = Explicit ∧ e = cancelled_start_error ∨ stop_cause_ s = StartupFailure ∧ startup_error_ s = Some e.
#[export] Instance start_failed_lasting e : Lasting (start_failed e).
Proof.
  intros s s' _ _ Hr H. assert (stop_cause_ s ≠ NoCause) as Hn by (by destruct H as [[-> _] | [-> _]]).
  destruct (rl_cause _ _ _ Hr Hn) as (E1 & E2 & _). unfold start_failed. by rewrite E1, E2.
Qed.

(** What [start] has left of the service. *)
Definition torn_down_again (s : State) : Prop := at_boundary s ∧ (final (state_ s) = true ∨ state_ s = Stopping).
#[export] Instance final_lasting : Lasting (λ s, final (state_ s) = true).
Proof. intros s s' _ _ Hr H. by destruct (rl_final _ _ _ Hr H) as [-> _]. Qed.
#[export] Instance torn_down_again_lasting : Lasting torn_down_again.
Proof. unfold torn_down_again. apply _. Qed.

Definition startup_failure (e : DNSStartError) (s : State) : State :=
  let s := if decide (stop_cause_ s = NoCause) then set_startup_error (Some e) (set_stop_cause StartupFailure s) else s in
  let s := match state_ s with Starting | Active => set_state Stopping s | _ => s end in
  set_health (set_health_state Unavailable (health_ s)) (set_update_admission_open false s).

Lemma startup_failure_goes e s : inv s → know base_facts s → goes heap 0 s (startup_failure e s) ∧ fact Failing (startup_failure e s).
Proof.
  intros Hv Hk. pose proof (know_fact NotActive _ s Hk ltac:(listed)) as [Hna Hnf]. pose proof (proj1 Hk) as Hrun.
  pose proof (iv_life _ _ _ Hv) as [H1 H2 H3 H4 H5 H6].
  assert (available_workers (health_ s) = 0) as Hw by (destruct (decide (available_workers (health_ s) = 0)); [done | by destruct Hna; auto]).
  unfold startup_failure. destruct (decide (stop_cause_ s = NoCause)) as [Ec | Ec].
  - assert (fatal_error_ s = None) as Hf.
    { destruct (fatal_error_ s); [| done]. destruct H6 as [H6 _]. by rewrite H6 in Ec. }
    destruct (state_ s) eqn:Es; try done; cbn; rewrite ?Es; (split; [| by right]).
    all: apply (life_goes heap 0); [by apply inv_invt | by destruct s | | by rewrite Es; auto | rewrite Es, Ec; by intros [? | ?] | done | done].
    all: split; cbn; try done; rewrite ?Hw, ?Hf, ?Es; try done; try (by intros [? | [? | [? | ?]]]); by intros [? | ?].
  - assert (stop_cause_ s = Explicit ∨ stop_cause_ s = StartupFailure) as Hc by (destruct (stop_cause_ s); auto; done).
    destruct (state_ s) eqn:Es; try done; cbn; rewrite ?Es; (split; [| exact Hc]).
    all: apply (life_goes heap 0); [by apply inv_invt | by destruct s | | by rewrite Es; auto | done | done | by left].
    all: split; cbn; try done; rewrite ?Hw, ?Es; try done; try (by intros [? | [? | [? | ?]]]); try (by intros [? | ?]).
Qed.

Lemma fail_start_spec l e : base_facts ⊆ l →
  spec (know l) (fail_start heap e) (λ r s, torn_down_again s ∧ ∃ e', r = inr e' ∧ start_failed e' s).
Proof.
  intros Hl. unfold fail_start. eapply (triple_bind heap _ _ _ (λ _, know (Idle :: kept_facts ++ failing_facts true))).
  { apply triple_section; [apply _ | intros _; apply _ |]. intros s Hv Hk0 _. pose proof (know_weaken _ _ _ Hk0 Hl) as Hk.
    destruct (startup_failure_goes e s Hv Hk) as [Hg Hf]. exists (), (request_source_stop (startup_failure e s)). split; [done |].
    assert (goes heap 0 s (request_source_stop (startup_failure e s))) as Hg2 by (eapply goes_trans; [exact Hg | intros Hv1; by apply source_stop]).
    destruct (know_goes heap base_facts s _ Hv Hk Hg2) as [Hv' Hk']. split; [done |]. apply (know_weaken (Failing :: base_facts)); [| listed].
    by apply know_add. }
  intros _. eapply (triple_bind heap _ _ _ (λ _, know (Idle :: kept_facts ++ failing_facts true))).
  { eapply triple_post; [apply (request_runtime_stop_spec heap (kept_facts ++ failing_facts true)); listed |]. intros [] s _ Hk. listing Hk. }
  intros _. eapply (triple_bind heap _ _ _ (λ _ s, torn_down_again s ∧ fact Failing s)).
  { eapply triple_post; [apply (teardown_running_spec heap true) |]. intros r s _ (Hb & He & Hf). specialize (Hf eq_refl). split; [| done]. split; [done |].
    destruct He as [[He _] | [He _]]; auto. }
  intros _. apply triple_section; [apply _ | intros r; apply _ |]. intros s Hv [Ht Hf] _. eexists _, s. split; [reflexivity |]. split; [done |]. split; [done |].
  eexists. split; [reflexivity |]. destruct Hf as [Hc | Hc].
  - left. by rewrite decide_True.
  - right. rewrite decide_False by congruence. destruct (lf_startup _ _ _ _ _ _ _ (iv_life _ _ _ Hv)) as [_ H]. destruct (H Hc) as [e' He].
    rewrite He. done.
Qed.

(** ** [start] *)
Definition start_outcome (r : DNSStartResult) (s : State) : Prop :=
  match r with
  | inl _ => at_boundary s ∧ started s ∧ serving s
  | inr e => at_boundary s ∧ e = make_start_error StartErrorCode.InvalidLifecycleState NoRole 0 ∨ torn_down_again s ∧ start_failed e s
  end.
#[export] Instance start_outcome_lasting r : Lasting (start_outcome r).
Proof. destruct r; unfold start_outcome; apply _. Qed.

Lemma start_fails l e : base_facts ⊆ l → spec (know l) (fail_start heap e) start_outcome.
Proof. intros Hl. eapply triple_post; [by apply fail_start_spec |]. intros r s _ (Ht & e' & -> & He). by right. Qed.

Lemma activate_spec attempt info : spec (know run_facts) (activate heap attempt info) start_outcome.
Proof.
  assert (∀ e, spec (know run_facts) (fail_start heap e) start_outcome) as Hfail by (intros e; apply start_fails; listed).
  unfold activate. eapply triple_bind; [apply request_activation_spec; listed |]. intros [|]; cbn [negb]; [| apply Hfail].
  eapply triple_bind; [apply supervisor_wait_spec; listed |]. intros [[] | e]; [| apply Hfail].
  eapply triple_bind; [apply startup_pause_spec |]. intros [|]; [apply Hfail |]. cbv zeta.
  eapply triple_bind; [apply commit_locked_spec |]. intros [[|] o]; cbn [fst snd]; [| apply Hfail].
  apply triple_value; [apply _ |]. intros s _ [[Hk Ha] Hs]. split; [by apply (know_boundary serving_facts); [listed |] | done].
Qed.

Theorem start_spec : spec at_boundary (start heap) start_outcome.
Proof.
  unfold start. eapply triple_bind; [apply accept_start_spec |]. intros [attempt |]; [| apply triple_value; [apply _ |]; by left].
  eapply triple_bind; [apply control_reset_spec |]. intros []. eapply triple_bind; [apply create_supervisor_spec |].
  intros [n |]; [apply start_fails; listed |]. eapply triple_bind; [apply create_threads_spec |].
  intros [e |]; [apply start_fails; listed |]. eapply triple_bind; [apply await_control_plane_spec |].
  intros [e |]; [apply start_fails; listed |]. eapply triple_bind; [apply supervisor_wait_spec; listed |].
  intros [info | e]; [apply activate_spec | apply start_fails; listed].
Qed.

(** ** Callers one after the other *)
Definition call_outcome (r : OwnerResult) (s : State) : Prop :=
  match r with StartResult r => start_outcome r s | ExitResult r => at_boundary s ∧ torn_to r s end.
#[export] Instance call_outcome_lasting r : Lasting (call_outcome r).
Proof. destruct r; apply _. Qed.

Definition answers (c : OwnerCall) (r : OwnerResult) : Prop :=
  match c, r with CallStart, StartResult _ | CallTeardown, ExitResult _ => True | _, _ => False end.

Lemma owner_call_spec c : spec at_boundary (owner_call heap c) (λ r s, (at_boundary s ∧ answers c r) ∧ call_outcome r s).
Proof.
  destruct c; cbn [owner_call].
  - eapply triple_bind; [apply start_spec |]. intros r. apply triple_value; [apply _ |]. intros s _ H. split; [| exact H]. split; [| done].
    destruct r; [apply H | by destruct H as [[? _] | [[? _] _]]].
  - eapply (triple_bind heap _ _ _ (λ _, at_boundary)).
    + apply triple_action; [apply _ | intros _; apply _ |]. intros e s o Hv Hb H. destruct (waiters s) as [| n]; [done |]. injection H as <-.
      exists (), (set_waiters n s). split; [done |]. pose proof (waiters_change heap 0 s n (inv_invt heap 0 s Hv)) as [[Hv' _] Hr]. split; [done |].
      by apply (boundary_lasting heap s).
    + intros []. eapply triple_bind; [apply finish_teardown_spec |]. intros r. apply triple_value; [apply _ |]. intros s _ [Hb H]. by split_and!.
Qed.

Theorem owners_spec l : ∀ P, Lasting P → spec (λ s, at_boundary s ∧ P s) (owners heap l)
  (λ rs s, (at_boundary s ∧ Forall2 answers l rs) ∧ match list.last rs with Some r => call_outcome r s | None => P s end).
Proof.
  induction l as [| c l IH]; intros P HP; cbn [owners]; [apply triple_value; [apply _ |]; intros s _ [Hb H]; by split_and! |].
  eapply triple_bind; [eapply triple_pre; [apply owner_call_spec | by intros s _ [? _]] |]. intros r.
  eapply (triple_bind heap _ _ _ (λ rs s, ((at_boundary s ∧ Forall2 answers l rs) ∧ match list.last rs with Some r => call_outcome r s | None => call_outcome r s end) ∧ answers c r)).
  { intros s Hv [[Hb Ha] H]. eapply wp_mono; [| apply (IH (call_outcome r) _ s Hv)]; [| done]. intros [rs | |] s' _ H'; [| done..]. done. }
  intros rs. apply triple_value; [apply _ |]. intros s _ [[[Hb Hrs] H] Ha]. split; [split; [done | by constructor] |].
  destruct rs as [| r1 rs]; [exact H |]. rewrite last_cons_cons. destruct (list.last (r1 :: rs)) eqn:E; [exact H | by apply last_None in E].
Qed.
End starting.
