(* ===== verification/ServiceLate.v ===== *)
(** * A service that stops

    [later]: once the service is stopping it stays so, and the cause that ended it stays the
    first one.  Every action of the callers that have [startup_mutex_] and every [event] is
    in it. *)
From stdpp Require Import relations functions.
From Stdlib Require Import Strings.Byte.
From S2P Require Import Prelude DomainBlocklist FilterPublication PublicationClaims FilterUpdateController UpdateInvariant UpdateClaims Concurrency WorkerSupervisor SupervisorInvariant SupervisorThread SupervisorMonitor SupervisorRun SupervisorClaims SupervisorFrame UpdateFrame DnsService ServiceInvariant ServiceSteps ServiceOwner.
Import Service.
#[local] Existing Instance Service.M_ret.
#[local] Existing Instance Service.M_bind.

Definition late (st : DNSLifecycleState) : bool := match st with Stopping | Stopped | Failed => true | _ => false end.
Definition later (s s' : State) : Prop :=
  late (state_ s) = true → late (state_ s') = true ∧ (stop_cause_ s ≠ NoCause → same_exit s s').

#[export] Instance later_preorder : PreOrder later.
Proof.
  split; [by intros s H; split |]. intros s1 s2 s3 H1 H2 H. destruct (H1 H) as [L1 E1]. destruct (H2 L1) as [L2 E2]. split; [done |].
  intros Hc. pose proof (E1 Hc) as X1. etrans; [exact X1 |]. apply E2. by rewrite (proj1 X1).
Qed.

Lemma later_same s s' : state_ s' = state_ s → stop_cause_ s' = stop_cause_ s → startup_error_ s' = startup_error_ s →
  fatal_error_ s' = fatal_error_ s → later s s'.
Proof. intros E1 E2 E3 E4 H. rewrite E1. split; [done |]. intros _. by split. Qed.
Lemma later_early s s' : late (state_ s) = false → later s s'.
Proof. intros E H. congruence. Qed.

Section late.
Context {F : Type}.
Variable heap : nat → FilterContext F.
Notation steady m := (every later m).

Lemma rely_later s s' : ServiceInvariant.rely heap s s' → later s s'.
Proof.
  intros Hr H. split; [| apply (rl_cause _ _ _ Hr)]. destruct (state_ s) eqn:E; try done.
  - by rewrite (rl_stopping _ _ _ Hr E).
  - pose proof (rl_final _ _ _ Hr ltac:(by rewrite E)) as [-> _]. by rewrite E.
  - pose proof (rl_final _ _ _ Hr ltac:(by rewrite E)) as [-> _]. by rewrite E.
Qed.

(** ** Programs *)
Definition lates {A} (s : State) (o : outcome unit (A * State)) : Prop := match o with Val (_, s') => later s s' | _ => True end.
Definition lates_state (s : State) (o : outcome unit State) : Prop := match o with Val s' => later s s' | _ => True end.

Lemma steady_ret {A} (a : A) : steady (mret a : M A).
Proof. done. Qed.
Lemma steady_bind {A C} (m : M A) (k : A → M C) : steady m → (∀ a, steady (k a)) → steady (m ≫= k).
Proof. intros Hm Hk. apply every_bind; [done |]. by intros [a | e |]. Qed.
Lemma steady_action {A} (f : Input → State → option (outcome unit (A * State))) : (∀ e s o, f e s = Some o → lates s o) → steady (action f).
Proof.
  intros H. split; [| done]. intros e s x s' E. destruct (f e s) as [o |] eqn:Ef; [| done]. specialize (H e s o Ef).
  by destruct o as [[a s1] | u |]; injection E as <- <-.
Qed.
Lemma steady_atomically {A} (f : Input → State → outcome unit (A * State)) : (∀ e s, lates s (f e s)) → steady (atomically f).
Proof. intros H. apply steady_action. intros e s o [= <-]. apply H. Qed.
Lemma steady_section {A} (f : State → outcome unit (A * State)) : (∀ s, lates s (f s)) → steady (section f).
Proof. intros H. apply steady_action. intros e s o E. destruct (lifecycle_owner s); [done |]. injection E as <-. apply H. Qed.
Lemma steady_look {A} (f : State → outcome unit A) : steady (look f).
Proof. apply steady_atomically. intros e s. by destruct (f s). Qed.
Lemma steady_loop {X} (body : M (option X)) : steady body → steady (loop body).
Proof. intros H. split; [| done]. apply every_bind; [done |]. by intros [[x |] | e |]. Qed.

Lemma steady_lift {A} (m : prog Supervisor.State Supervisor.Input A) : steady (lift m).
Proof.
  induction m as [A a | A X f k IH | A X body IHb k IHk]; cbn [lift every]; [done | split; [| done] | by split].
  intros e s x s' E. destruct (supervisor_ s) as [y |]; [| done]. destruct (f _ y) as [[a y'] |]; [| done]. injection E as <- <-. by apply later_same.
Qed.

Lemma advance_late t now b s o : advance heap t now b s = Some o → lates_state s o.
Proof.
  unfold advance. intros H. destruct (the_updates s) as [u | |]; [| by injection H as <- ..]. destruct (Update.update_act _ _ _) as [u' |]; [| done].
  injection H as <-. by apply later_same.
Qed.
Lemma lates_then {A} (a : A) s (o : outcome unit State) : lates_state s o → lates s (chain o (λ s, Val (a, s))).
Proof. by destruct o. Qed.

Lemma sealing_late {X} (f : Update.CallResult → X) : steady (loop (action (λ e s,
  match call_result 0 s with
  | Some r => Some (Val (Some (f r), s))
  | None => match advance heap 0 (now_ e) Update.BuilderNull s with
            | Some o => Some (chain o (λ s, Val (None, s)))
            | None => None
            end
  end))).
Proof.
  apply steady_loop, steady_action. intros e s o H. destruct (call_result 0 s) as [r |]; [by injection H as <- |].
  destruct (advance _ _ _ _ _) as [o' |] eqn:E; [| done]. injection H as <-. by apply lates_then, (advance_late _ _ _ _ _ E).
Qed.

Lemma call_update_late a : steady (call_update heap a).
Proof.
  apply steady_bind; [| intros _; apply (sealing_late (λ r, r))]. apply steady_atomically. intros e s.
  destruct (the_updates s) as [u | |]; [| done..]. cbn [chain]. destruct (Update.update_act _ _ _) as [u' |]; [| done]. by apply later_same.
Qed.

Lemma publication_call_late {A} (f : Input → Publication.World → option (A * Publication.World)) : steady (publication_call f).
Proof.
  apply steady_action. intros e s o H. destruct (the_publication s) as [u | |]; [| by injection H as <- ..].
  destruct (f e _) as [[a w] |]; [| done]. injection H as <-. by apply later_same.
Qed.

(** By the shape of the program; what an action does is left. *)
Ltac steady_step :=
  lazymatch goal with
  | |- steady (mret _) => exact I
  | |- steady (_ ≫= _) => apply steady_bind; [| intros ?]
  | |- steady (look _) => apply steady_look
  | |- steady (update_section _) => apply steady_section; intros ?
  | |- steady (section _) => apply steady_section; intros ?
  | |- steady (atomically _) => apply steady_atomically; intros ? ?
  | |- steady (action _) => apply steady_action; intros ? ? ? ?
  | |- steady (loop _) => apply steady_loop
  | |- steady (lift _) => apply steady_lift
  | |- steady (call_update _ _) => apply call_update_late
  | |- steady (publication_call _) => apply publication_call_late
  | |- steady (match ?x with _ => _ end) => destruct x
  | |- steady (if ?x then _ else _) => destruct x
  | |- steady (let '_ := ?x in _) => destruct x
  end.
Ltac acting := repeat (case_match || simplify_eq); try done; try (by apply later_same).
Ltac steady_prog := repeat steady_step; try (by apply later_same).

Lemma runtime_stop_late : steady (request_runtime_stop heap).
Proof.
  unfold request_runtime_stop. steady_prog.
  - destruct (lifecycle_owner _); [done |]. simplify_eq. apply (lates_then ()). unfold begin_runtime_stop.
    set (s1 := set_lifecycle_owner _ _). assert (later s s1) as H1 by by apply later_same. destruct (filter_updates_ s1); [| exact H1].
    destruct (the_updates s1) as [u | |]; [| done..]. cbn [chain]. destruct (from_option_ub _); [| done..]. cbn [chain]. by apply later_same.
  - destruct (call_result 0 _) as [r |]; [by simplify_eq |]. destruct (advance _ _ _ _ _) as [o' |] eqn:E; [| done]. simplify_eq.
    by apply lates_then, (advance_late _ _ _ _ _ E).
  - unfold end_runtime_stop. destruct (supervisor_thread_ _); by apply later_same.
Qed.

Lemma join_thread_late {P} (run : State → option (Z * P)) done gone : (∀ s, later s (gone s)) → steady (join_thread run done gone).
Proof. intros Hg. unfold join_thread. steady_prog. repeat (case_match || simplify_eq); try (by apply later_same); apply Hg. Qed.

Lemma take_and_join_late member set_member (join : M bool) : (∀ b s, later s (set_member b s)) → steady join → steady (take_and_join member set_member join).
Proof. intros Hm Hj. unfold take_and_join. steady_prog; try exact Hj; apply Hm. Qed.

Lemma drain_supervisor_late : steady drain_supervisor.
Proof. apply take_and_join_late; [intros b s; by apply later_same |]. steady_prog. apply join_thread_late. intros s. by apply later_same. Qed.
Lemma drain_coordinator_late : steady drain_coordinator.
Proof. apply take_and_join_late; [intros b s; by apply later_same |]. apply join_thread_late. intros s. by apply later_same. Qed.
Lemma drain_reclaimer_late : steady drain_reclaimer.
Proof.
  unfold drain_reclaimer. steady_prog. apply take_and_join_late; [intros b s; by apply later_same |]. apply join_thread_late. intros s. by apply later_same.
Qed.
Lemma join_failed_reclaimer_late : steady (join_failed_reclaimer heap).
Proof. unfold join_failed_reclaimer, emergency_reclaim_converged. steady_prog. apply drain_reclaimer_late. Qed.

Lemma teardown_steps_late : Forall (λ m, steady m) (teardown_steps heap).
Proof.
  unfold teardown_steps. repeat apply List.Forall_cons; [.. | apply List.Forall_nil].
  - apply drain_supervisor_late.
  - unfold emergency_join. steady_prog.
  - unfold replace_exited_reclaimer. steady_prog. apply join_failed_reclaimer_late.
  - unfold finish_coordinator, await_coordinator. steady_prog; [acting | apply join_failed_reclaimer_late].
  - apply drain_coordinator_late.
  - unfold complete_by_successor. steady_prog. apply join_failed_reclaimer_late.
  - unfold seal_and_detach, seal_publication, publication_step, detach_terminal_snapshot. steady_prog.
  - unfold finish_reclaimer, request_reclaimer_shutdown, publication_step, emergency_reclaim_converged. steady_prog. apply drain_reclaimer_late.
  - unfold complete_last. steady_prog.
Qed.

Lemma ends_late s s' : late (state_ s') = true → stop_cause_ s' = stop_cause_ s → startup_error_ s' = startup_error_ s → fatal_error_ s' = fatal_error_ s →
  later s s'.
Proof. intros H1 H2 H3 H4 _. split; [done |]. intros _. by split. Qed.

Lemma finish_teardown_late : steady (finish_teardown heap).
Proof.
  unfold finish_teardown, teardown_incomplete. steady_prog; [apply runtime_stop_late | | | by apply ends_late].
  - pose proof teardown_steps_late as H. induction H as [| m l Hm _ IH]; [done |]. cbn [all_steps]. steady_prog; [exact Hm | exact IH].
  - unfold release_parts. destruct (may_be_destroyed _); [| done]. destruct (if filter_updates_ _ then _ else _); [| done..]. cbn [chain].
    apply ends_late; try done. cbn. by destruct (decide _).
Qed.

(** *** [start] *)
Lemma fail_start_late e : steady (fail_start heap e).
Proof.
  unfold fail_start. steady_prog; [| apply runtime_stop_late | apply finish_teardown_late].
  match goal with |- lates ?s _ => destruct (late (state_ s)) eqn:Hl; [| by apply later_early]; intros _; cbv beta zeta;
    destruct (decide (stop_cause_ s = NoCause)) as [Hc | Hc]; cbn; destruct (state_ s) eqn:E; try done end.
  all: split; [cbn; by rewrite E |]; intros Hn; first [by destruct Hn | by split].
Qed.

Lemma accept_start_late : steady accept_start.
Proof.
  unfold accept_start. steady_prog. match goal with |- lates ?s _ => destruct (decide (state_ s = Initialized)) as [E |]; [| done] end.
  destruct (_ && _); [| done]. apply later_early. by rewrite E.
Qed.

Lemma create_supervisor_late : steady create_supervisor.
Proof.
  unfold create_supervisor. steady_prog. destruct (lifecycle_owner _); [done |]. simplify_eq. destruct (the_faults _) as [f | |]; [| done..]. cbn [chain].
  destruct (supervisor_error _); [done |]. destruct (the_publication _) as [u | |]; [| done..]. by apply later_same.
Qed.

Lemma create_thread_late injected begin keep : (∀ s, later s (begin s)) → (∀ s, later s (keep s)) → steady (create_thread injected begin keep).
Proof. intros Hb Hk. unfold create_thread. steady_prog; [destruct (thread_error _); [done | apply Hb] | apply Hk]. Qed.
Lemma create_threads_late a : steady (create_threads heap a).
Proof.
  unfold create_threads. steady_prog; apply create_thread_late; intros s; by apply later_same.
Qed.

Lemma await_control_plane_late : steady await_control_plane.
Proof. unfold await_control_plane, await_reclaimer, await_coordinator_ready, await_role. steady_prog; acting. Qed.
Lemma supervisor_wait_late {A} (f : bool → Supervisor.State → option A) : steady (supervisor_wait f).
Proof. unfold supervisor_wait. steady_prog. acting. Qed.

Lemma commit_startup_late a port s : lates s (commit_startup a port s).
Proof.
  unfold commit_startup. destruct (still_starting a s) eqn:E; [| done]. unfold still_starting in E.
  apply andb_true_iff in E as [[E _]%andb_true_iff _]. apply bool_decide_eq_true in E.
  destruct (the_updates s) as [u | |]; [| done..]. cbn [chain]. destruct (the_supervisor s) as [x | |]; [| done..]. cbn [chain].
  destruct (Supervisor.release_data_plane x) as [[] y]; apply later_early; by rewrite E.
Qed.

Lemma start_late : steady (start heap).
Proof.
  unfold start, activate, request_activation, startup_pause, commit_locked.
  steady_prog; try apply fail_start_late; try apply supervisor_wait_late.
  - apply accept_start_late.
  - unfold on_control. destruct (the_control _); [| done..]. by apply later_same.
  - apply create_supervisor_late.
  - apply create_threads_late.
  - apply await_control_plane_late.
  - destruct (still_starting _ _); [| done]. destruct (the_supervisor _) as [x | |]; [| done..]. cbn [chain].
    destruct (Supervisor.request_activation x). by apply later_same.
  - destruct (the_faults _); [| done..]. by apply later_same.
  - acting.
  - destruct (runtime_updates_enabled _); [| apply commit_startup_late]. destruct (the_control _); [| done..]. cbn [chain].
    destruct (_ && _); [apply commit_startup_late |]. by destruct (bool_decide _).
Qed.

Theorem owners_late l : steady (owners heap l).
Proof.
  induction l as [| c l IH]; cbn [owners]; [done |]. apply steady_bind; [| intros r; apply steady_bind; [exact IH | done]].
  destruct c; cbn [owner_call]; steady_prog; [apply start_late | | apply finish_teardown_late]. acting.
Qed.

(** ** Everything at once *)
Theorem moves_late {A} (inet_pton : list byte → bool) l (m m' : M A) s s' :
  (∀ v s1 s2, ServiceInvariant.inv heap s1 → event heap inet_pton v s1 = Some s2 → ServiceInvariant.inv heap s2 ∧ ServiceInvariant.rely heap s1 s2) →
  ∀ Q, ServiceInvariant.inv heap s → Concurrency.wp (ServiceInvariant.inv heap) (ServiceInvariant.rely heap) m Q s → steady m →
  moves (event heap inet_pton) l m s = Some (m', s') → later s s'.
Proof.
  intros Henv Q. revert m s. induction l as [| x l IH]; intros m s Hv Hw Hq H; cbn [moves] in H; [by injection H as _ <- |].
  destruct (move _ x m s) as [[m1 s1] |] eqn:E; [| done]. destruct x as [v | e]; cbn [move] in E.
  - destruct (event heap inet_pton v s) as [s2 |] eqn:Ev; [| done]. injection E as <- <-. destruct (Henv _ _ _ Hv Ev) as [Hv2 Hr].
    etrans; [exact (rely_later _ _ Hr) |]. apply (IH m s2); try done. exact (wp_rely _ _ _ _ _ _ Hw Hr Hv2).
  - destruct (wp_step _ _ _ _ _ _ _ _ Hv Hw E) as [Hv1 Hw1]. destruct (every_step _ _ _ _ _ _ Hq E) as [Hl Hq1].
    etrans; [exact Hl |]. by apply (IH m1 s1).
Qed.
End late.
