(* ===== verification/ServiceClaims.v ===== *)
(** * What the service promises

    The theorems are about every interleaving of the callers that have [startup_mutex_] with
    the threads A, B and C, the workers and the other callers ([history]).  The samples are
    concrete histories. *)
From stdpp Require Import relations functions.
From Stdlib Require Import Strings.Byte.
From S2P Require Import Prelude DomainBlocklist FilterPublication PublicationClaims FilterUpdateController UpdateInvariant UpdateClaims WorkerLoop Concurrency WorkerSupervisor SupervisorInvariant SupervisorThread SupervisorMonitor SupervisorRun SupervisorClaims SupervisorFrame UpdateFrame DnsService ServiceInvariant ServiceSteps ServiceCallers ServiceOwner ServiceTeardown ServiceRelease ServiceEnd ServiceStart ServiceLate.
Import Service.
#[local] Existing Instance Service.M_ret.
#[local] Existing Instance Service.M_bind.

(** [calls]: the calls that get [startup_mutex_], in their order. *)
Definition history {F} (heap : nat → FilterContext F) (inet_pton : list byte → bool) (calls : list OwnerCall)
    (l : list (choice Input Event)) (m : M (list OwnerResult)) (s : State) : Prop :=
  moves (event heap inet_pton) l (owners heap calls) init_state = Some (m, s).

Section claims.
Context {F : Type}.
Variable heap : nat → FilterContext F.
Variable inet_pton : list byte → bool.
Hypothesis generations : ∀ i, 0 ≤ Publication.snap_generation heap i.
Notation inv := (ServiceInvariant.inv heap).
Notation rely := (ServiceInvariant.rely heap).

Lemma init_inv : inv init_state ∧ at_boundary init_state.
Proof.
  split; [| split_and!; try done; by intros x Hx]. split; try done.
  - split; cbn; try done; [by intros [? | ?] | by split; [intros [? ?] |] ..].
  - by intros t [? ?].
  - by intros [| [| [| [| t]]]].
  - by intros t [? | ?].
Qed.

(** The callers from a boundary on, with assertion [P] of it. *)
Lemma owners_from calls P l m s0 s : inv s0 → at_boundary s0 → Lasting heap P → P s0 →
  moves (event heap inet_pton) l (owners heap calls) s0 = Some (m, s) →
  inv s ∧ Concurrency.wp inv rely m (λ o s, match o with
    | Val rs => (at_boundary s ∧ Forall2 answers calls rs) ∧ match list.last rs with Some r => call_outcome r s | None => P s end
    | _ => False
    end) s.
Proof.
  intros Hv Hb HP H0 Hl. eapply (adequacy (event heap inet_pton) inv rely); [| exact Hv | | exact Hl].
  - intros v s1 s2 Hv1 E. by eapply (event_safe heap generations inet_pton).
  - by apply (owners_spec heap calls P HP s0 Hv).
Qed.

Lemma history_inv calls l m s : history heap inet_pton calls l m s → inv s ∧ Concurrency.wp inv rely m (λ o s, match o with
    | Val rs => (at_boundary s ∧ Forall2 answers calls rs) ∧ match list.last rs with Some r => call_outcome r s | None => True end
    | _ => False
    end) s.
Proof. destruct init_inv as [Hv Hb]. by apply (owners_from calls (λ _, True) l m init_state s Hv Hb (pure_lasting heap True)). Qed.

Lemma history_ends calls l o s : history heap inet_pton calls l (Ret o) s → inv s ∧ ∃ rs, o = Val rs ∧ at_boundary s ∧
  Forall2 answers calls rs ∧ ∀ r, list.last rs = Some r → call_outcome r s.
Proof.
  intros Hl. destruct (history_inv calls l (Ret o) s Hl) as [Hv Hw]. split; [done |]. specialize (Hw s ltac:(reflexivity) Hv).
  destruct o as [rs | |]; [| done..]. exists rs. destruct Hw as [[Hb Ha] H]. split_and!; try done. intros r Er. by rewrite Er in H.
Qed.

(** No thread is left. *)
Definition no_threads (s : State) : Prop := coordinator_run s = None ∧ reclaimer_run s = None ∧ supervisor_run s = None.

Lemma rest_threads s : inv s → running (state_ s) = false → no_threads s.
Proof. intros Hv. apply (iv_threads _ _ _ Hv). Qed.
Lemma final_parts s : inv s → final (state_ s) = true → no_parts s ∧ no_threads s.
Proof.
  intros Hv Hf. split; [| apply (rest_threads s Hv); by destruct (state_ s)]. pose proof (iv_parts _ _ _ Hv) as Hp. unfold parts in Hp.
  by destruct (state_ s).
Qed.

(** C9: the service is defined.  In no interleaving of callers, threads and workers does a
    part that has been destroyed, or was never made, get used, is a part destroyed that a
    thread may still use, or does an exception leave [start], [join] or [wait]. *)
Theorem service_defined calls l m s : history heap inet_pton calls l m s →
  undefined_ s = false ∧ m ≠ Ret Undef ∧ ∀ e, m ≠ Ret (Err e).
Proof.
  intros Hl. destruct (history_inv calls l m s Hl) as [Hv Hw]. split; [apply Hv |].
  split; [intros -> | intros e ->]; exact (Hw s ltac:(reflexivity) Hv).
Qed.

(** C10: the life cycle.  An active service has no stop cause, its data plane has been
    released after every worker was activated; only an active service is healthy, has
    available workers or admits updates; the errors are there for their causes alone; a
    service that has ended has neither parts nor threads, and has stopped rather than failed
    just when it was asked to; and the supervisor serves the publication state of the
    controller. *)
Theorem service_lifecycle calls l m s : history heap inet_pton calls l m s →
  (is_running s = true → stop_cause_ s = NoCause ∧ ∀ x, supervisor_ s = Some x →
     Supervisor.data_plane_released_ x = true ∧ Supervisor.activation_result_ x = Some (inl ())) ∧
  (health_state (health s) ≠ Unavailable ∨ available_workers (health s) ≠ 0 → is_running s = true) ∧
  (admit_update s = None → is_running s = true ∧ runtime_updates_enabled (config_ s) = true) ∧
  (is_Some (startup_error_ s) ↔ stop_cause_ s = StartupFailure) ∧ (is_Some (fatal_error_ s) ↔ stop_cause_ s = Fatal) ∧
  (final (lifecycle_state s) = true → no_parts s ∧ no_threads s ∧ (lifecycle_state s = Stopped ↔ stop_cause_ s = Explicit)) ∧
  (∀ x, supervisor_ s = Some x → ∃ u, updates s = Some u ∧ Supervisor.pub x = Update.world u ∧
     Supervisor.worker_count (Supervisor.config_ x) = worker_count (config_ s)).
Proof.
  intros Hl. destruct (history_inv calls l m s Hl) as [Hv _]. destruct (iv_life _ _ _ Hv) as [L1 L2 L3 L4 L5 L6].
  assert (∀ x, supervisor_ s = Some x → supervisor_ok heap s x) as Hsup by (intros x; by apply (iv_supervisor _ _ _ Hv)).
  unfold is_running, lifecycle_state, health. split_and!; try done.
  - intros Ha%bool_decide_eq_true. split; [auto |]. intros x Hx. pose proof (iv_released _ _ _ Hv x Ha Hx) as Hd. split; [done |].
    destruct (Hsup x Hx) as (_ & _ & _ & _ & p0 & Hi & _). by apply (SupervisorInvariant.inv_released _ _ _ _ Hi).
  - intros Hh. apply bool_decide_eq_true. auto.
  - unfold admit_update. intros H. rewrite bool_decide_eq_true. destruct (state_ s); try done. by destruct (runtime_updates_enabled _).
  - intros Hf. destruct (final_parts s Hv Hf) as [H1 H2]. split_and!; [done.. |]. by apply L2.
  - intros x Hx. destruct (Hsup x Hx) as (_ & Hn & _ & (u & Hu & Hp) & _). by exists u.
Qed.



(** C11: a service that stops is not started again, and its exit result is that of the first
    cause: from a state that is stopping or ended, in whatever way callers and threads go
    on, every later state is one, and once there is a cause, the result is the same. *)
Theorem stopped_for_good calls l m s l' m' s' : history heap inet_pton calls l m s →
  moves (event heap inet_pton) l' m s = Some (m', s') → late (lifecycle_state s) = true →
  late (lifecycle_state s') = true ∧ (stop_cause_ s ≠ NoCause → exit_result_locked s' = exit_result_locked s).
Proof.
  intros Hl Hl' Hs. destruct init_inv as [Hv0 Hb0].
  assert (every later m) as Hq.
  { revert Hl. unfold history. generalize (owners_late heap calls) init_state. generalize (owners heap calls). clear -l.
    induction l as [| x l IH]; intros m0 Hq s0 H; cbn [moves] in H; [by injection H as <- |].
    destruct (move _ x m0 s0) as [[m1 s1] |] eqn:E; [| done]. apply (IH m1) with s1; [| done]. destruct x as [v | e]; cbn [move] in E.
    - destruct (event heap inet_pton v s0); [| done]. by injection E as <- _.
    - by destruct (every_step _ _ _ _ _ _ Hq E). }
  destruct (history_inv calls l m s Hl) as [Hv Hw].
  assert (later s s') as H.
  { eapply (moves_late heap inet_pton); [| exact Hv | exact Hw | exact Hq | exact Hl']. intros v s1 s2 Hv1 E. by eapply (event_safe heap generations inet_pton). }
  destruct (H Hs) as [H1 H2]. split; [exact H1 |]. intros Hc. destruct (H2 Hc) as (E1 & E2 & E3). unfold exit_result_locked. by rewrite E1, E2, E3.
Qed.

(** The destructor, by a caller that has [startup_mutex_]. *)
Lemma wp_after {A C} (m : M A) (k : A → M C) P Q (R : outcome unit C → State → Prop) s : ServiceOwner.spec heap P m Q → inv s → P s →
  (∀ a s, inv s → Q a s → Concurrency.wp inv rely (k a) R s) → Concurrency.wp inv rely (m ≫= k) R s.
Proof.
  intros Hm Hv HP Hk. apply wp_bind; [apply _ | | done]. eapply wp_mono; [| by apply Hm].
  intros [a | e |] s' Hv' H; [by apply Hk | done..].
Qed.

Lemma stop_section_spec : ServiceOwner.spec heap at_boundary (section request_stop_locked)
  (λ b s, at_boundary s ∧ if b : bool then running (state_ s) = true else True).
Proof.
  apply triple_section; [apply _ | intros b; apply _ |]. intros s Hv Hb Hl.
  destruct (request_stop_safe heap 0 s Hv Hl) as (b & s' & E & [[Hv' _] Hr] & _). exists b, s'. split; [done |]. split; [done |].
  split; [by apply (boundary_lasting heap s) |]. destruct b; [| done]. unfold request_stop_locked in E.
  destruct (state_ s) eqn:Es; try done; [by destruct (may_be_destroyed s) | ..]; apply (rl_running _ _ _ Hr); by rewrite Es.
Qed.

Lemma maybe_stop_spec (b : bool) : ServiceOwner.spec heap (λ s, at_boundary s ∧ if b then running (state_ s) = true else True)
  (if b then request_runtime_stop heap else mret ()) (λ _, at_boundary).
Proof.
  destruct b; [| apply triple_value; [apply _ |]; by intros s _ [? _]].
  eapply triple_conseq; [apply (request_runtime_stop_spec heap kept_facts); listed | intros s _ [Hb Hr]; by apply boundary_know |].
  intros [] s _ Hk. by apply (know_boundary (Idle :: Closed :: Sealed :: kept_facts)); [listed |].
Qed.

Lemma destroy_wp s : inv s → at_boundary s → Concurrency.wp inv rely (destroy_service heap) (λ o s, match o with
    | Val _ => running (state_ s) = false
    | Err _ => state_ s = Stopping
    | Undef => False
    end) s.
Proof.
  intros Hv Hb. unfold destroy_service. eapply wp_after; [apply stop_section_spec | done | done |]. clear s Hv Hb. intros b1 s1 Hv1 H1.
  eapply wp_after; [apply maybe_stop_spec | done | exact H1 |]. clear s1 Hv1 H1 b1. intros [] s2 Hv2 H2.
  eapply wp_after; [apply stop_section_spec | done | exact H2 |]. clear s2 Hv2 H2. intros b3 s3 Hv3 H3.
  eapply wp_after; [apply maybe_stop_spec | done | exact H3 |]. clear s3 Hv3 H3 b3. intros [] s4 Hv4 H4.
  eapply wp_after; [apply finish_teardown_spec | done | exact H4 |]. clear s4 Hv4 H4. intros r s5 Hv5 [_ Hr].
  destruct (decide (exit_code r = ServiceExitCode.TeardownIncomplete)) as [E | E].
  - assert (state_ s5 = Stopping) as Hs.
    { destruct Hr as [[Hf ->] | [[_ Hn] | [? _]]]; [| congruence | done]. unfold exit_result_locked in E. by destruct (stop_cause_ s5). }
    intros s6 Hr6 Hv6 e x s7 [= <- <-]. split; [done |]. intros s8 Hr8 Hv8. apply (rl_stopping _ _ _ Hr8), (rl_stopping _ _ _ Hr6), Hs.
  - intros s6 Hr6 Hv6. apply (rl_rest _ _ _ Hr6). destruct Hr as [[Hf _] | [[? _] | [_ ?]]]; [by destruct (state_ s5) | done | done].
Qed.

End claims.

(** ** Concrete histories *)

(** The choices that are possible where they come, and where they lead. *)
Definition playing {S E V A} (env : V → S → option S) : list (choice E V) → prog S E A → S → list (choice E V) * (prog S E A * S) :=
  fix play l m s :=
    match l with
    | [] => ([], (m, s))
    | x :: l =>
        match move env x m s with
        | Some (m', s') => let '(taken, r) := play l m' s' in (x :: taken, r)
        | None => play l m s
        end
    end.
Lemma playing_moves {S E V A} (env : V → S → option S) (l : list (choice E V)) (m : prog S E A) s :
  moves env (playing env l m s).1 m s = Some (playing env l m s).2.
Proof.
  revert m s. induction l as [| x l IH]; intros m s; cbn [playing]; [done |]. destruct (move env x m s) as [[m' s'] |] eqn:E1; [| apply IH].
  specialize (IH m' s'). destruct (playing env l m' s') as [taken r]. cbn in *. by rewrite E1.
Qed.

Definition value_of {S E A} (m : prog S E A) : option A := match m in prog _ _ A return option A with Ret a => Some a | _ => None end.
Lemma value_of_ret {S E A} (m : prog S E A) a : value_of m = Some a → m = Ret a.
Proof. by destruct m; intros [= ->]. Qed.

(** One worker; updates are enabled. *)
Definition sample_service_config : DNSConfig :=
  mkDNSConfig 1 1000 5300 true Supervisor.FailService 3 100 5000 30000 [] (Worker.mkUpstreamConfig [x31] 53 2000000000 3000000000 16).
Definition any_address (_ : list byte) : bool := true.

(** One step each of the caller, of A, B and C, of worker 0 and of caller 5. *)
Definition sample_round : list (choice Input Event) :=
  [Mine (mkInput 0 (SupervisorClaims.calm 0) None None false); Others (CoordinatorStep 0 Update.BuilderNull); Others (ReclaimerStep 0);
   Others (SupervisorStep (SupervisorClaims.calm 0)); Others (WorkerEvent (Supervisor.WorkerStep 0 quiet)); Others (UserStep 5 0 Update.BuilderNull)].
Definition sample_rounds (n : nat) : list (choice Input Event) := concat (replicate n sample_round).
Definition sample_initialized : list (choice Input Event) :=
  [Others (UserBegin 4 (CallInit sample_service_config)); Others (UserStep 4 0 (Update.BuilderSnapshot 0))].
Definition sample_serves : list (choice Input Event) := sample_initialized ++ sample_rounds 60.
(** The coordinator does not start. *)
Definition sample_fails : list (choice Input Event) :=
  sample_initialized ++ Others (SetFaults (mkFaults false true false false false (supervisor_hooks no_faults) false false)) :: sample_rounds 120.
Definition sample_joined : list (choice Input Event) := sample_serves ++ Others (UserBegin 5 CallJoin) :: sample_rounds 100.

Definition played (calls : list OwnerCall) (l : list (choice Input Event)) :=
  playing (event sample_heap any_address) l (owners sample_heap calls) init_state.
Definition sample_from {A} (m : M A) (s : State) (l : list (choice Input Event)) := playing (event sample_heap any_address) l m s.

Lemma sample_generations i : 0 ≤ Publication.snap_generation sample_heap i.
Proof. unfold Publication.snap_generation, sample_heap. cbn. lia. Qed.

Lemma played_history calls l : history sample_heap any_address calls (played calls l).1 (played calls l).2.1 (played calls l).2.2.
Proof. unfold history, played. rewrite playing_moves. by destruct (playing _ _ _ _) as [? [? ?]]. Qed.
Lemma played_ends calls l o : value_of (played calls l).2.1 = Some o → history sample_heap any_address calls (played calls l).1 (Ret o) (played calls l).2.2.
Proof. intros H. rewrite <- (value_of_ret _ _ H). apply played_history. Qed.

Lemma service_defined_witness : ∃ l m s, history sample_heap any_address [CallStart; CallTeardown] l m s ∧ state_ s = Stopped ∧ undefined_ s = false.
Proof.
  eexists _, _, _. split; [apply (played_history [CallStart; CallTeardown] sample_joined) |]. split; [vm_compute; reflexivity |].
  exact (proj1 (service_defined sample_heap any_address sample_generations _ _ _ _ (played_history [CallStart; CallTeardown] sample_joined))).
Defined.

Lemma service_lifecycle_witness : ∃ l m s, history sample_heap any_address [CallStart] l m s ∧ is_running s = true ∧ stop_cause_ s = NoCause.
Proof.
  eexists _, _, _. split; [apply (played_history [CallStart] sample_serves) |].
  assert (is_running (played [CallStart] sample_serves).2.2 = true) as H by (vm_compute; reflexivity). split; [exact H |].
  exact (proj1 (proj1 (service_lifecycle sample_heap any_address sample_generations _ _ _ _ (played_history [CallStart] sample_serves)) H)).
Defined.

Definition start_error_of (o : outcome unit (list OwnerResult)) : option DNSStartError :=
  match o with Val [StartResult (inr e)] => Some e | _ => None end.


(** [join] has been called: the service stops; then it has stopped. *)
Definition sample_stops := played [CallStart; CallTeardown] (sample_serves ++ [Others (UserBegin 5 CallJoin)]).
Definition sample_stops_after := sample_from sample_stops.2.1 sample_stops.2.2 (sample_rounds 100).
Lemma stopped_for_good_witness : ∃ l m s l' m' s', history sample_heap any_address [CallStart; CallTeardown] l m s ∧
  moves (event sample_heap any_address) l' m s = Some (m', s') ∧ state_ s = Stopping ∧ state_ s' = Stopped ∧ exit_result_locked s' = exit_result_locked s.
Proof.
  eexists _, sample_stops.2.1, sample_stops.2.2, sample_stops_after.1, sample_stops_after.2.1, sample_stops_after.2.2.
  assert (history sample_heap any_address [CallStart; CallTeardown] sample_stops.1 sample_stops.2.1 sample_stops.2.2) as Hl by apply played_history.
  assert (moves (event sample_heap any_address) sample_stops_after.1 sample_stops.2.1 sample_stops.2.2 = Some (sample_stops_after.2.1, sample_stops_after.2.2)) as Hl'.
  { unfold sample_stops_after, sample_from. rewrite playing_moves. destruct (playing _ _ _ _) as [? [? ?]]. reflexivity. }
  split; [exact Hl |]. split; [exact Hl' |]. assert (state_ sample_stops.2.2 = Stopping) as Hs by (vm_compute; reflexivity). split; [exact Hs |].
  split; [vm_compute; reflexivity |].
  refine (proj2 (stopped_for_good sample_heap any_address sample_generations _ _ _ _ _ _ _ Hl Hl' _) _); [unfold lifecycle_state; rewrite Hs; reflexivity |].
  vm_compute. discriminate.
Defined.

Definition sample_destroyed := sample_from (destroy_service sample_heap) (played [CallStart] sample_serves).2.2 (sample_rounds 120).

(** *** [wait] on a service that is not yet started

    Its condition holds before [start], and is not looked at again: when [start] comes first
    to [startup_mutex_], the teardown ends a service that is active and that nobody has
    stopped. *)
Definition sample_waits : list (choice Input Event) := sample_initialized ++ Others (UserBegin 5 CallWait) :: sample_rounds 160.
Definition stops_service (x : choice Input Event) : bool :=
  match x with Others (UserBegin _ (CallRequestStop | CallJoin | CallDetach)) | Others (SetFaults _) => true | _ => false end.
Definition waited (o : outcome unit (list OwnerResult)) : option ServiceExitCode.DNSServiceExitCode :=
  match o with Val [StartResult (inl _); ExitResult r] => Some (exit_code r) | _ => None end.

Theorem wait_ends_active_service : ∃ l info r s, history sample_heap any_address [CallStart; CallTeardown] l (Ret (Val [StartResult (inl info); ExitResult r])) s ∧
  forallb (λ x, negb (stops_service x)) l = true ∧ state_ s = Failed ∧ stop_cause_ s = NoCause ∧ exit_code r = ServiceExitCode.NotStarted.
Proof.
  assert ((o ← value_of (played [CallStart; CallTeardown] sample_waits).2.1; waited o) = Some ServiceExitCode.NotStarted) as H by (vm_compute; reflexivity).
  destruct (value_of (played [CallStart; CallTeardown] sample_waits).2.1) as [o |] eqn:Eo; [| discriminate H]. pose proof (played_ends _ _ _ Eo) as Hl.
  destruct o as [[| [[info | e] |] [| [| r] [|]]] | |]; try discriminate H. injection H as H.
  eexists _, info, r, _. split; [exact Hl |]. split_and!; [vm_compute; reflexivity.. | exact H].
Qed.
